(* ===== verification/_CoqProject ===== *)
-Q . S2P
Prelude.v
Protocol.v
Scanner.v
Budget.v
Time.v
Json.v
Metadata.v
Names.v
Text.v
Order.v
Mutate.v
Patch.v
Clients.v
BTree.v
Daemon.v
Session.v
Delivery.v
Holds.v
Lease.v
Frames.v
ProcTable.v
Argv.v
ProcessTree.v
Identity.v
MetadataCache.v
Ptyfile.v
Inventory.v
Keyed.v
Flapping.v
Locks.v
Files.v
Events.v
Operation.v
Effects.v
Evidence.v
Stop.v
Launch.v
Gc.v
GcSafe.v
Retention.v
Revocation.v
Settle.v
Actor.v
Producer.v
LaunchSystem.v
Client.v
Visible.v
Tty.v
Connection.v
Summary.v
Peek.v
Attach.v
Keys.v
Input.v
LineEdit.v
Scroll.v
Cells.v
Fuzzy.v
ChildEnv.v
Paste.v
History.v
Graphics.v
Serialize.v
TermActor.v
