(* ===== verification/Prelude.v ===== *)
(** * pty: a terminal session that outlives its clients

    A session of [pty] is a daemon process that owns a pseudo-terminal.  Clients
    attach to it over a Unix socket with a small binary protocol; a registry of
    files (a JSON record, a socket, a pid file and an event log per session) says
    which sessions exist; launch operations start a session under an owner's
    control and can be settled and retired after a crash; garbage collection
    removes what is finished and respawns what should stay.  The Rust sources are
    the crates under [src/crates/]; each file of this development names the
    source files it translates, and its definitions keep their names.

    ** Parts and files

    - Shared.  [Prelude.v]: bytes, results, string helpers, the [pty] hint database
      and the tactics every file uses.  [Text.v]: strings as the standard library
      cuts and parses them, with UTF-8.  [Order.v]: stable sorting, ordered sets.
    - The wire.  [Protocol.v] is [pty-core/src/protocol.rs]: packets, the
      streaming [PacketReader], the blocking [read_packet] and the size codecs.
      [Scanner.v] is [pty-terminal/src/strip.rs]: the output scanner, its
      classifiers, and the query strip.
    - Input and output bounds.  [Budget.v] is [pty/src/daemon/input_budget.rs],
      threads interleaved at the mutex.  [Clients.v] is the outbound queue of
      [daemon/clients.rs] with the writer thread of [daemon/lifecycle.rs].
    - Records.  [Json.v] is [serde_json]'s values and [indexmap]'s maps;
      [Metadata.v] is the session record of [registry/metadata.rs] and the diff a
      rewrite applies; [Time.v] is [registry/time.rs] and [duration.rs];
      [Names.v] is [registry/names.rs] and [tags.rs]; [Mutate.v] and [Patch.v]
      are [registry/mutate.rs]: the locked read-check-mutate-publish sequence,
      compare-and-set on tags, and presentation patches with their one event.
      [Ptyfile.v] is the manifest of [ptyfile.rs].
    - Processes.  [ProcTable.v] and [Argv.v] are [proctable.rs] and
      [proctable/argv.rs]: tables from [/proc], [ps] and the macOS kernel.
      [ProcessTree.v] is [process_tree.rs]: ending one tree exactly.
      [Identity.v] is the part of [registry/list.rs] that says whose process a
      recorded pid is.
    - Observing the registry.  [MetadataCache.v] is [list_metadata.rs] and
      [list/metadata_cache.rs]; [Inventory.v] is the scans and references of
      [registry/list.rs]; [Keyed.v] is [registry/keyed.rs], one session by its
      name; [Flapping.v] is the decisions of [gc.rs] that read only a record.
    - The registry as files.  [Locks.v] is [registry/lock.rs], threads of several
      processes interleaved system call by system call.  [Files.v] is one process
      over a disk others write: paths, records, both locks, cleanup.  [Effects.v]
      gives the other registry operations as programs of the same monad;
      [Evidence.v] is [registry/evidence.rs]; [Events.v] is the event log of
      [events/mod.rs] and [events/follow.rs]; [Revocation.v] is
      [registry/revocation.rs], the fences that stop late publications.
    - Ending and starting sessions.  [Stop.v] is [pty-client/src/stop.rs] with
      [operation/exact.rs]; [Launch.v] is [config.rs], [launch.rs] and
      [startup.rs] of [pty-lifecycle]; [ChildEnv.v] is [pty/src/daemon/env.rs], the
      environment of a session's child; [Gc.v] is one pass of [gc.rs], [GcSafe.v]
      what a pass may do; [Retention.v] is [retention.rs].
    - The daemon.  [BTree.v] is the ordered client map; [Daemon.v] is the actor
      of [daemon/lifecycle.rs] with the handlers of [clients.rs], [geometry.rs]
      and [events.rs]: state, one function per handler, one turn of the serve
      loop.  [Session.v], [Delivery.v], [Holds.v] and [Lease.v] prove what it
      promises: to the registry, to clients, about input, about the startup lease.
    - Launch operations.  [Frames.v] is [operation/frames.rs] and
      [operation/envelope.rs]; [Operation.v] is [operation/record.rs] with the
      part of [proctable.rs] that decides liveness; [Settle.v] is
      [operation/settle.rs]; [Actor.v] is the producer of [daemon/operation.rs]
      (actor, worker and their channels); [Producer.v] is its invariant, kept by
      every turn; [LaunchSystem.v] composes actor and worker.
    - The terminal ([pty-terminal]).  [TermActor.v] is [actor.rs]: what the tokens of
      [Scanner.v] do to the modes, the replies, the events and the emulator.
      [Serialize.v] is [serialize.rs], [Graphics.v] is [graphics.rs], [History.v] is
      [history.rs] and [Paste.v] is [enhanced_paste.rs].
    - Clients ([pty-client]).  [Client.v] holds what they share; [Connection.v] is
      [connection.rs] and [send.rs], [Peek.v] is [peek.rs] over the visible text of
      [Visible.v], [Attach.v] is [attach.rs] and [stream.rs] over the terminal of
      [Tty.v]; [Summary.v] is [summary.rs].
    - Keys and lists.  [Keys.v] is [pty-core/src/keys.rs]; [Input.v] has both decoders
      of input bytes, the core's and the toolkit's.  [LineEdit.v], [Scroll.v],
      [Cells.v] and [Fuzzy.v] are the files of these names in [pty-tui] ([Cells.v] is
      [text.rs]).

    ** How the model is written

    Handlers are functions on explicit state.  What the code reads from outside
    (clocks, locks, disk failures, other processes) is an argument: a value, or a
    function of a counter that advances at every read, so that two reads may
    differ.  Effects whose order matters are appended to a log in the state.
    Concurrency is a step relation, one step per critical section, message or
    system call.  Machine integers are [Z] with their wrap written out.

    The registry's programs ([Files.v], and all that uses it) are a state monad
    over the disk.  Before each reading the other processes may change anything
    but the files of a session whose locks this process holds; that there is one
    holder is [Locks.v].  A property of a program is a triple over its actions:
    each removal, write, signal or launch with the evidence that allows it.  The
    world remembers the disk of each moment, which no program reads, so that evidence
    is what this run could see ([disk_at], [gains] in [Files.v]).  One scan of a directory is one observation, and an action happens at the moment of
    the last one.  From a spawn on the creation lock is the daemon's, so the model
    protects nothing of that session.

    Code outside the repository, and files not translated, are parameters, as
    interfaces where several operations share them: the terminal is the class
    [Terminal] of [Daemon.v], with laws about its grid and its events; the
    emulator under it is [Screen] in [History.v], [Gfx] in [Graphics.v], [Canvas] in
    [Serialize.v] and [Vt] in [TermActor.v], each with an instance a witness runs on;
    the host is [Env], [Alloc] and [Weather] there and [ActorEnv] in [Actor.v];
    [Host] and its laws in [Identity.v], with instances for [/proc] and macOS;
    [HashOrder] in [ProcessTree.v] is the order a hash map is iterated in;
    [JsonText] in [Files.v] is [serde_json]; [Incarnations] in [Stop.v] numbers
    the kernel's processes, so that a pid used again is another process; [Access]
    in [Keyed.v] is the trait of the same purpose, with its Linux implementation;
    [Fence] in [Launch.v] is what a launch asks of the publication fences, and
    [Revocation.v] has its instance.  SHA-256, the TOML parser and Unicode case
    folding are arguments.

    ** What is proved

    - The daemon: its grid is the smallest of its writable clients' from a change of
      these sizes until the child's output switches the columns, its facts are
      published, an exit is recorded once ([Session.v]); each connection carries
      whole packets, attach replies come in order and cuts fire on time
      ([Delivery.v]); a client's input goes to the child or its hold back, and the
      queue keeps each class in order ([Holds.v]); a passed deadline wins over every compare-and-set
      ([Lease.v]).
    - Queues: neither the outbound queue nor the input budget exceeds its bound in
      any interleaving, and no sender sleeps for ever ([Clients.v], [Budget.v]).
    - Launch operations: a finished retirement never races an effect and the
      child is released only under a durable transfer ([LaunchSystem.v]); closing
      needs positive evidence, retiring is fenced, and always possible once
      everyone is gone ([Settle.v]); the store loses no update ([Operation.v]);
      frames and envelopes are accepted exactly when well formed ([Frames.v]).
    - Records: they survive a round trip with their unknown fields
      ([Metadata.v]), mutations keep provenance ([Mutate.v]), patches log one event
      ([Patch.v]), a manifest's exports are read back by a shell as they were, when
      their names are names to it ([Ptyfile.v]).
    - Locks: two threads never hold one lock, whatever is stolen or withdrawn, and
      a free lock is found ([Locks.v]).
    - Removal: cleanup, evidence, gc and retention remove a session's files only
      when its process is proved gone, under its locks, for the record that was
      seen ([Files.v], [Evidence.v], [GcSafe.v], [Retention.v]); a stop signals only
      the daemon of the record and what was in its tree, and reports what it has read
      since ([Stop.v]); trees are ended without touching another
      process ([ProcessTree.v]).
    - Observation: the cache answers as a fresh read ([MetadataCache.v]); a
      definite answer about one name is proved, and agrees with the listing
      ([Keyed.v]).
    - Publication: a launch spawns only what was admitted ([Launch.v]); a
      revocation stands once its installer has returned ([Revocation.v]).
    - The wire: chunking does not matter, encoding is inverted, buffers are bounded
      ([Protocol.v], [Scanner.v]).
    - The terminal: chunking does not matter to the actor either, clients are sent the
      output less the queries answered for them, paste events follow the mode, and the
      prefix of a replay restores the modes ([TermActor.v]); the pen and the
      backgrounds are restored ([Serialize.v]); images and pastes are read back as
      they were sent, and the placeholders of an image give its origin ([Graphics.v],
      [Paste.v]); a reader of the history misses no row, or is told ([History.v]).
    - Clients: an attach ends for a reason that its end tells and with the terminal
      restored, and a lost session is dialled a bounded time ([Attach.v]); a wait
      answers only with what was shown, recorded at an end, or overdue ([Peek.v]); a session's frames are given in order
      ([Connection.v]).
    - Keys and lists: each key spec is read back by both decoders as itself or as the
      key or text that its bytes also are ([Input.v]); the editor refines a line split at its cursor ([LineEdit.v]); the
      selected row stays in view ([Scroll.v]); a match is a subsequence ([Fuzzy.v]); a
      child's variables come from where the policy says ([ChildEnv.v]).

    ** Fuel and bounds

    [Protocol.feed_loop] has the length of its buffer plus one as fuel, and each
    packet takes at least one byte.  Loops that poll have a deadline and a clock
    that advances: [liveness_after_exit_ends] gives the fuel that suffices for the
    exit of a process; a stop and its waits have 2000 rounds, more than their
    deadlines allow at the pace they sleep; a launch has its timeout plus two
    rounds.  Nonces are drawn [CALLS] times; a root's path is resolved with one
    round per component.  The lock of [settle] is tried [WRITER_RELEASE_RETRIES]
    times, as in the code.  The reader of a keyboard's bytes, the wrapping of a text and
    the readers of commands have as many rounds as there are bytes or characters, and
    each takes one; a row of the screen is read with one round per column
    ([row_loop_enough]).  The loops of [Peek.v] and [Attach.v] answer [None] when the
    turns they are given run out; [peek_wait_ends] and [reconnect_gives_up] say how many
    are enough.  Every other recursion is structural.

    ** Assumptions

    Inodes are not reused while a file is held open and random nonces do not repeat
    ([Locks.v]); every process follows the lock protocol; a file whose kernel stamp
    is unchanged is unchanged ([MetadataCache.v]); a follower of a log assumes that
    an inode keeps its content ([Events.v]); directory descriptors of the
    revocation store are paths, nobody else removes a published node, and the links
    on the way to a root do not move ([Revocation.v]).  The counters of identity
    checks are not threaded.  A configuration or record written as a JSON array,
    which [serde] also reads as a struct, is refused here.  The texts of errors of
    [serde] are left out.

    ** Not modelled

    The emulator (a C library), the encoders of keys and mouse reports, snapshots,
    screenshots and PNG decoding that call it; fork, exec, pty ioctls and descriptors
    ([pty-spawn]); sockets and polling; socket hand-over ([held.rs]); delegated lock
    claims and pins; gated launches and the macOS probes and publisher; the launcher's
    side of an operation; the daemon's teardown after [close()], its accept thread and
    shutdown backstop; directory watchers; the asynchronous half of [pty-client], its
    statistics, readiness, remote dialling and removal; session handles
    ([pty/src/handle.rs]); the command line; panes, themes and the application loop of
    the TUI toolkit; the test kits.  The JSON text of values is [serde_json]'s. *)
From stdpp Require Export base list gmap strings.
From Stdlib Require Export ZArith Lia Bool.
From Stdlib Require Import Ascii.

#[global] Open Scope Z_scope.

(** ** Data shared by every component *)

(** A Rust byte string: a list of [u8] values held in [Z].  The same type
    carries a sequence of Unicode scalar values ([Vec<char>]). *)
Abbreviation bytes := (list Z).

(** The bytes of an ASCII literal. *)
Definition str (x : string) : bytes :=
  (fun a => Z.of_N (N_of_ascii a)) <$> String.list_ascii_of_string x.

(** [slice.len()]. *)
Definition blen {A} (l : list A) : Z := Z.of_nat (length l).

(** [Result<A, E>]. *)
Inductive Result (A E : Type) : Type :=
  | Ok (a : A)
  | Err (e : E).
Arguments Ok {A E} a.
Arguments Err {A E} e.

Definition rbind {A B E} (r : Result A E) (f : A -> Result B E) : Result B E :=
  match r with Ok a => f a | Err e => Err e end.

Declare Scope pty_scope.
Delimit Scope pty_scope with pty.
#[global] Open Scope pty_scope.
Notation "'let?' x := c 'in' k" := (mbind (fun x => k) c)
  (at level 10, x name, k at level 200) : pty_scope.
Notation "'let?' ' x := c 'in' k" := (mbind (fun x => k) c)
  (at level 10, x strict pattern, k at level 200) : pty_scope.
Notation "'try' x := c 'in' k" := (rbind c (fun x => k))
  (at level 10, x name, k at level 200) : pty_scope.

(** [a..=b].contains(&x)]. *)
Definition in_range (a b x : Z) : bool := (a <=? x) && (x <=? b).

(** Byte and character classes of the standard library, on ASCII. *)
Definition is_ascii_digit (b : Z) : bool := in_range 48 57 b.
Definition is_ascii_lowercase (b : Z) : bool := in_range 97 122 b.
Definition is_ascii_uppercase (b : Z) : bool := in_range 65 90 b.
Definition is_ascii_alphabetic (b : Z) : bool :=
  is_ascii_lowercase b || is_ascii_uppercase b.
Definition is_ascii_alphanumeric (b : Z) : bool :=
  is_ascii_digit b || is_ascii_alphabetic b.
Definition is_ascii_graphic (b : Z) : bool := in_range 33 126 b.
(** [u8::is_ascii_whitespace]: space, tab, LF, FF, CR. *)
Definition is_ascii_whitespace (b : Z) : bool :=
  (b =? 32) || (b =? 9) || (b =? 10) || (b =? 12) || (b =? 13).
Definition to_ascii_lowercase (b : Z) : Z :=
  if is_ascii_uppercase b then b + 32 else b.
Definition to_ascii_uppercase (b : Z) : Z :=
  if is_ascii_lowercase b then b - 32 else b.

(** Boolean equality of byte strings. *)
Fixpoint beq (a b : bytes) : bool :=
  match a, b with
  | [], [] => true
  | x :: a', y :: b' => (x =? y) && beq a' b'
  | _, _ => false
  end.

(** [slice.contains(&b)]. *)
Definition memb (x : Z) (l : bytes) : bool := existsb (Z.eqb x) l.

(** [slice.starts_with(p)] and [slice.strip_prefix(p)]. *)
Fixpoint strip_prefix (p l : bytes) : option bytes :=
  match p, l with
  | [], _ => Some l
  | x :: p', y :: l' => if x =? y then strip_prefix p' l' else None
  | _ :: _, [] => None
  end.
Definition starts_with (p l : bytes) : bool :=
  match strip_prefix p l with Some _ => true | None => false end.
(** [slice.strip_suffix(p)]. *)
Definition strip_suffix (p l : bytes) : option bytes :=
  match strip_prefix (rev p) (rev l) with
  | Some r => Some (rev r)
  | None => None
  end.

(** [iter().position(p)]. *)
Fixpoint position {A} (p : A -> bool) (l : list A) : option nat :=
  match l with
  | [] => None
  | x :: l' => if p x then Some 0%nat else S <$> position p l'
  end.

(** [slice.split(p)]: the pieces between separators, always at least one. *)
Fixpoint split_on {A} (p : A -> bool) (l : list A) : list (list A) :=
  match l with
  | [] => [[]]
  | x :: l' =>
      if p x then [] :: split_on p l'
      else match split_on p l' with
           | [] => [[x]]
           | h :: t => (x :: h) :: t
           end
  end.

(** [take_while]: the longest prefix whose elements satisfy [p], and the rest. *)
Fixpoint span {A} (p : A -> bool) (l : list A) : list A * list A :=
  match l with
  | [] => ([], [])
  | x :: l' => if p x then let '(a, b) := span p l' in (x :: a, b) else ([], l)
  end.

(** Machine integers. *)
Definition U8_MAX : Z := 255.
Definition U16_MAX : Z := 65535.
Definition U32_MAX : Z := 4294967295.
Definition I64_MAX : Z := 9223372036854775807.
Definition I64_MIN : Z := -9223372036854775808.
Definition USIZE_MAX : Z := 18446744073709551615.

(** [u16::to_be_bytes], [u32::to_be_bytes] and their inverses. *)
Definition be16 (v : Z) : bytes := [(v / 256) mod 256; v mod 256].
Definition be32 (v : Z) : bytes :=
  [(v / 16777216) mod 256; (v / 65536) mod 256; (v / 256) mod 256; v mod 256].
Definition of_be16 (a b : Z) : Z := a * 256 + b.
Definition of_be32 (a b c d : Z) : Z := a * 16777216 + b * 65536 + c * 256 + d.

(** [Ord::min] on an optional accumulator, [Iterator::min]. *)
Definition omin (a b : option Z) : option Z :=
  match a, b with
  | Some x, Some y => Some (Z.min x y)
  | Some x, None => Some x
  | None, y => y
  end.

(** The decimal digits of an unsigned integer and [str::parse] of one:
    digits only (a leading [+] is accepted, as the standard library does),
    refused when empty or above [max]. *)
Fixpoint digits_value (acc : Z) (l : bytes) : option Z :=
  match l with
  | [] => Some acc
  | d :: l' => if is_ascii_digit d then digits_value (acc * 10 + (d - 48)) l' else None
  end.
Definition parse_unsigned (max : Z) (l : bytes) : option Z :=
  let l' := match l with 43 :: r => r | _ => l end in
  match l' with
  | [] => None
  | _ => match digits_value 0 l' with
         | Some v => if v <=? max then Some v else None
         | None => None
         end
  end.
Definition parse_u32 (l : bytes) : option Z := parse_unsigned U32_MAX l.

(** [format!("{n}")] for a non-negative integer. *)
Fixpoint dec_digits (fuel : nat) (n : Z) (acc : bytes) : bytes :=
  match fuel with
  | O => acc
  | S f =>
      let acc' := (48 + n mod 10) :: acc in
      if n <? 10 then acc' else dec_digits f (n / 10) acc'
  end.
Definition dec_nat (n : Z) : bytes := dec_digits (S (Z.to_nat (Z.log2 n))) n [].
Definition dec (n : Z) : bytes := if n <? 0 then 45 :: dec_nat (- n) else dec_nat n.

(** ** Record updates *)

(** [r <| f := v |>] and [r <| f ::= g |>]: the record with one field changed.  A
    record type gives its eta expansion once as an instance of [Settable]; the
    setter of a field is found by abstracting that field in it. *)
Class Settable (R : Type) : Type := eta : R -> R.
Class Setter {R E : Type} (getter : R -> E) : Type := set_field : (E -> E) -> R -> R.
Arguments set_field {R E} getter {Setter} f r.

Ltac find_setter getter :=
  match type of getter with
  | ?R -> ?E =>
      let h := constr:(@eta R _) in
      let b := eval hnf in h in
      lazymatch eval pattern getter in b with
      | ?update _ =>
          let s := eval cbv beta in (fun f : E -> E => update (fun r : R => f (getter r))) in
          exact s
      end
  end.
#[export] Hint Extern 1 (Setter ?getter) => find_setter getter : typeclass_instances.

Notation "r '<|' f ':=' v '|>'" := (set_field f (fun _ => v) r)
  (at level 1, left associativity, f at level 0, v at level 200) : pty_scope.
Notation "r '<|' f '::=' g '|>'" := (set_field f g r)
  (at level 1, left associativity, f at level 0, g at level 200) : pty_scope.

(** ** Tactics *)

(** Turn boolean comparisons in the context and the goal into propositions. *)
Ltac bprop :=
  repeat match goal with
  | H : _ && _ = true |- _ => apply andb_prop in H; destruct H
  | H : _ && _ = false |- _ => apply andb_false_iff in H
  | H : _ || _ = true |- _ => apply orb_prop in H
  | H : _ || _ = false |- _ => apply orb_false_iff in H; destruct H
  | H : negb _ = true |- _ => apply negb_true_iff in H
  | H : negb _ = false |- _ => apply negb_false_iff in H
  | H : (_ =? _) = true |- _ => apply Z.eqb_eq in H
  | H : (_ =? _) = false |- _ => apply Z.eqb_neq in H
  | H : (_ <? _) = true |- _ => apply Z.ltb_lt in H
  | H : (_ <? _) = false |- _ => apply Z.ltb_ge in H
  | H : (_ <=? _) = true |- _ => apply Z.leb_le in H
  | H : (_ <=? _) = false |- _ => apply Z.leb_gt in H
  end.

(** Case on the scrutinee of the first [match]/[if] in the goal. *)
Ltac case_goal :=
  match goal with
  | |- context [match ?x with _ => _ end] => destruct x eqn:?
  end.
Ltac case_in H :=
  match type of H with
  | context [match ?x with _ => _ end] => destruct x eqn:?
  end.

(** Arithmetic over lengths: push [length] through list operations. *)
Ltac len :=
  unfold blen in *;
  repeat (rewrite length_app in * || rewrite length_cons in *
          || rewrite length_drop in * || rewrite length_take in *);
  simpl length in *; try lia.

(** ** Generic lemmas *)

Create HintDb pty discriminated.

Lemma blen_nonneg {A} (l : list A) : 0 <= blen l.
Proof. unfold blen. lia. Qed.

Lemma blen_app {A} (a b : list A) : blen (a ++ b) = blen a + blen b.
Proof. unfold blen. rewrite length_app. lia. Qed.

Lemma blen_cons {A} (x : A) l : blen (x :: l) = 1 + blen l.
Proof. unfold blen. simpl. lia. Qed.

Lemma blen_nil {A} : blen (@nil A) = 0.
Proof. reflexivity. Qed.



Lemma beq_eq (a b : bytes) : beq a b = true <-> a = b.
Proof.
  revert b. induction a as [|x a IH]; intros [|y b]; simpl; try (split; congruence).
  rewrite andb_true_iff, Z.eqb_eq, IH. split; [intros []|intros [=]]; subst; auto.
Qed.

Lemma beq_refl (a : bytes) : beq a a = true.
Proof. apply beq_eq. reflexivity. Qed.

Lemma strip_prefix_Some p l r : strip_prefix p l = Some r <-> l = p ++ r.
Proof.
  revert l. induction p as [|x p IH]; intros [|y l]; simpl;
    try (split; [intros [= <-]; auto | intros ->; auto]; fail);
    try (split; congruence).
  destruct (x =? y) eqn:E; bprop; subst.
  - rewrite IH. split; [intros ->; auto | intros [=]; auto].
  - split; [discriminate|]. intros [=]. congruence.
Qed.

Lemma of_be32_be32 v : 0 <= v <= U32_MAX ->
  of_be32 ((v / 16777216) mod 256) ((v / 65536) mod 256) ((v / 256) mod 256) (v mod 256) = v.
Proof.
  unfold of_be32, U32_MAX. intros Hv.
  pose proof (Z.div_mod v 256 ltac:(lia)) as H0.
  pose proof (Z.div_mod (v / 256) 256 ltac:(lia)) as H1.
  pose proof (Z.div_mod (v / 65536) 256 ltac:(lia)) as H2.
  rewrite (Z.div_div v 256 256) in H1 by lia. change (256 * 256) with 65536 in H1.
  rewrite (Z.div_div v 65536 256) in H2 by lia. change (65536 * 256) with 16777216 in H2.
  assert (0 <= v / 16777216 < 256).
  { split; [apply Z.div_pos; lia | apply Z.div_lt_upper_bound; lia]. }
  rewrite (Z.mod_small (v / 16777216)) by lia. lia.
Qed.

Lemma of_be16_be16 v : 0 <= v <= U16_MAX -> of_be16 ((v / 256) mod 256) (v mod 256) = v.
Proof.
  unfold of_be16, U16_MAX. intros Hv.
  pose proof (Z.div_mod v 256 ltac:(lia)).
  assert (0 <= v / 256 < 256).
  { split; [apply Z.div_pos; lia | apply Z.div_lt_upper_bound; lia]. }
  rewrite (Z.mod_small (v / 256)) by lia. lia.
Qed.

Lemma of_be32_nonneg a b c d :
  0 <= a -> 0 <= b -> 0 <= c -> 0 <= d -> 0 <= of_be32 a b c d.
Proof. unfold of_be32. lia. Qed.

(** Membership in the standard library's [map] and [filter], as stdpp states it. *)
Lemma elem_of_map {A B} (f : A -> B) l y : y ∈ map f l <-> exists x, y = f x /\ x ∈ l.
Proof. apply list_elem_of_fmap. Qed.

Lemma elem_of_filterb {A} (p : A -> bool) l x : x ∈ List.filter p l <-> p x = true /\ x ∈ l.
Proof. rewrite !list_elem_of_In, List.filter_In. tauto. Qed.

Lemma existsb_elem {A} (p : A -> bool) l : existsb p l = true <-> exists x, x ∈ l /\ p x = true.
Proof.
  rewrite existsb_exists. split; intros (x & H & Hp); exists x; split; try done; apply list_elem_of_In, H.
Qed.

Lemma existsb_eqb x l : existsb (Z.eqb x) l = true <-> x ∈ l.
Proof.
  rewrite existsb_elem. split.
  - intros (y & Hy & ->%Z.eqb_eq). done.
  - intros H. exists x. split; [done|apply Z.eqb_refl].
Qed.

Lemma forallb_elem {A} (p : A -> bool) l : forallb p l = true <-> forall x, x ∈ l -> p x = true.
Proof.
  rewrite forallb_forall. split; intros H x Hx; apply H; apply list_elem_of_In; done.
Qed.
