(* ===== verification/Protocol.v ===== *)
(** The wire protocol of [crates/pty-core/src/protocol.rs]: message types,
    packet framing, the streaming [PacketReader], the blocking [read_packet],
    and the size, cell, peek and exit payload codecs. *)
From S2P Require Import Prelude.

(** ** Message types *)

Inductive MessageType : Type :=
  | Data
  | Attach
  | Detach
  | Resize
  | Exit
  | Screen
  | Peek
  | Status
  | AcceptedSocketOwnership
  | LifecycleCas
  | Geometry
  | ResetInputModes
  | ConnectionError
  | History
  | Unknown (b : Z).

#[export] Instance MessageType_eq_dec : EqDecision MessageType.
Proof. solve_decision. Defined.

Definition from_u8 (b : Z) : MessageType :=
  match b with
  | 0 => Data
  | 1 => Attach
  | 2 => Detach
  | 3 => Resize
  | 4 => Exit
  | 5 => Screen
  | 6 => Peek
  | 7 => Status
  | 10 => Geometry
  | 11 => ResetInputModes
  | 12 => ConnectionError
  | 13 => History
  | 8 => AcceptedSocketOwnership
  | 9 => LifecycleCas
  | other => Unknown other
  end.

Definition as_u8 (m : MessageType) : Z :=
  match m with
  | Data => 0
  | Attach => 1
  | Detach => 2
  | Resize => 3
  | Exit => 4
  | Screen => 5
  | Peek => 6
  | Status => 7
  | AcceptedSocketOwnership => 8
  | LifecycleCas => 9
  | Geometry => 10
  | ResetInputModes => 11
  | ConnectionError => 12
  | History => 13
  | Unknown b => b
  end.

(** ** Packets and requests *)

Record Packet : Type := mkPacket { type_ : MessageType; payload : bytes }.

#[export] Instance Packet_eq_dec : EqDecision Packet.
Proof. solve_decision. Defined.

Record TcpConnectionTuple : Type := {
  local_address : bytes;
  local_port : Z;
  remote_address : bytes;
  remote_port : Z
}.

Record AcceptedSocketOwnershipRequest : Type := {
  aso_expected_generation : bytes;
  aso_connection : TcpConnectionTuple
}.

Definition is_empty {A} (l : list A) : bool :=
  match l with [] => true | _ => false end.

Definition validate_ownership (r : AcceptedSocketOwnershipRequest) : bool :=
  negb (is_empty (aso_expected_generation r))
  && negb (is_empty (local_address (aso_connection r)))
  && (0 <? local_port (aso_connection r))
  && negb (is_empty (remote_address (aso_connection r)))
  && (0 <? remote_port (aso_connection r)).

Record LifecycleCompareAndSetRequest : Type := {
  cas_expected_generation : bytes;
  cas_tag : bytes;
  cas_expected_value : bytes;
  cas_value : bytes
}.

Definition validate_lifecycle (r : LifecycleCompareAndSetRequest) : bool :=
  negb (is_empty (cas_expected_generation r)) && negb (is_empty (cas_tag r)).

Inductive LifecycleCompareAndSetResult : Type :=
  | Changed (value : bytes)
  | Unchanged (value : bytes)
  | ValueMismatch (value : option bytes)
  | Missing
  | GenerationMismatch
  | Busy
  | DeadlineExpired (value : bytes)
  | Terminal (value : bytes)
  | InvalidRequest (reason : bytes).

Definition HEADER_SIZE : Z := 5.
Definition MAX_PACKET_LENGTH : Z := 32 * 1024 * 1024.

Definition too_large_message (length : Z) : bytes :=
  str "Packet length " ++ dec length ++ str " exceeds maximum " ++ dec MAX_PACKET_LENGTH.

(** ** Encoders *)

(** [payload.len() as u32] keeps the low 32 bits. *)
Definition encode_packet (t : MessageType) (payload : bytes) : bytes :=
  as_u8 t :: be32 (blen payload mod 4294967296) ++ payload.

Definition encode (p : Packet) : bytes := encode_packet (type_ p) (payload p).

Definition encode_data (data : bytes) : bytes := encode_packet Data data.

Definition size_payload (rows cols : Z) : bytes := be16 rows ++ be16 cols.

Definition size_cell_payload (rows cols cell_width cell_height : Z) : bytes :=
  size_payload rows cols ++ be16 cell_width ++ be16 cell_height.

Definition encode_attach (rows cols : Z) : bytes :=
  encode_packet Attach (size_payload rows cols).

Definition encode_attach_with_cell (rows cols cell_width cell_height : Z) : bytes :=
  encode_packet Attach (size_cell_payload rows cols cell_width cell_height).

Definition encode_detach : bytes := encode_packet Detach [].

Inductive ConnectionErrorReason : Type := ClientTooSlow.

Definition encode_connection_error (reason : ConnectionErrorReason) : bytes :=
  [as_u8 ConnectionError; 0; 0; 0; 1; match reason with ClientTooSlow => 0 end].

Definition decode_connection_error (payload : bytes) : option ConnectionErrorReason :=
  match payload with
  | [0] => Some ClientTooSlow
  | _ => None
  end.

Definition encode_resize (rows cols : Z) : bytes :=
  encode_packet Resize (size_payload rows cols).

Definition encode_resize_with_cell (rows cols cell_width cell_height : Z) : bytes :=
  encode_packet Resize (size_cell_payload rows cols cell_width cell_height).

Definition encode_geometry (rows cols : Z) : bytes :=
  encode_packet Geometry (size_payload rows cols).

(** [i32::to_be_bytes] of a value in [-2^31, 2^31). *)
Definition encode_exit (code : Z) : bytes :=
  encode_packet Exit (be32 (code mod 4294967296)).

Definition encode_peek (plain full : bool) : bytes :=
  let flags := Z.lor (Z.b2z plain) (Z.shiftl (Z.b2z full) 1) in
  encode_packet Peek [flags].

Definition decode_peek (payload : bytes) : bool * bool :=
  let flags := match payload with [] => 0 | f :: _ => f end in
  (negb (Z.land flags 1 =? 0), negb (Z.land flags 2 =? 0)).

Definition encode_screen (data : bytes) : bytes := encode_packet Screen data.

Definition encode_status : bytes := encode_packet Status [].

Definition encode_status_clients : bytes := encode_packet Status (str "clients").

Definition encode_status_response (json : bytes) : bytes := encode_packet Status json.

(** ** Decoders *)

Definition decode_size (payload : bytes) : Z * Z :=
  match payload with
  | a :: b :: c :: d :: _ => (of_be16 a b, of_be16 c d)
  | _ => (24, 80)
  end.

Definition decode_cell (payload : bytes) : option (Z * Z) :=
  match payload with
  | _ :: _ :: _ :: _ :: a :: b :: c :: d :: _ =>
      let width := of_be16 a b in
      let height := of_be16 c d in
      if (0 <? width) && (0 <? height) then Some (width, height) else None
  | _ => None
  end.

Definition decode_geometry (payload : bytes) : Z * Z := decode_size payload.

(** [i32::from_be_bytes]: the two's-complement reading of 32 bits. *)
Definition decode_exit (payload : bytes) : Z :=
  match payload with
  | a :: b :: c :: d :: _ =>
      let v := of_be32 a b c d in
      if v <? 2147483648 then v else v - 4294967296
  | _ => -1
  end.

(** ** The attach identity suffix.  Its JSON text is written and read by
    serde, a parameter here. *)

Section AttachIdentity.
  Variable identity_json : Z -> option bytes -> bytes.
  Variable identity_of_json : bytes -> option (Z * option bytes).

Definition encode_attach_with_identity_and_cell
    (rows cols cell_width cell_height pid : Z) (tty : option bytes) : bytes :=
  encode_packet Attach
    (size_cell_payload rows cols cell_width cell_height ++ identity_json pid tty).

Definition encode_attach_with_identity (rows cols pid : Z) (tty : option bytes) : bytes :=
  encode_attach_with_identity_and_cell rows cols 0 0 pid tty.

Definition decode_attach_identity (payload : bytes) : option Z * option bytes :=
  if blen payload <? 8 then (None, None)
  else match identity_of_json (drop 8 payload) with
       | Some (pid, tty) => (Some pid, tty)
       | None => (None, None)
       end.
End AttachIdentity.

(** ** The streaming reader *)

(** [PacketReader::feed]'s loop over the buffer: the packets, or the error,
    and the buffer it leaves.  Every turn that goes round again drains a
    header, so [length buffer] turns are enough. *)
Fixpoint feed_loop (fuel : nat) (buffer : bytes) (packets : list Packet)
    : bytes * Result (list Packet) bytes :=
  match fuel with
  | O => (buffer, Ok packets)
  | S fuel' =>
      match buffer with
      | type_byte :: l0 :: l1 :: l2 :: l3 :: rest =>
          let length := of_be32 l0 l1 l2 l3 in
          if MAX_PACKET_LENGTH <? length then ([], Err (too_large_message length))
          else if blen rest <? length then (buffer, Ok packets)
          else
            let payload := take (Z.to_nat length) rest in
            feed_loop fuel' (drop (Z.to_nat length) rest)
              (packets ++ [mkPacket (from_u8 type_byte) payload])
      | _ => (buffer, Ok packets)
      end
  end.

(** [PacketReader::feed]: the reader's state is its buffer. *)
Definition feed (buffer data : bytes) : bytes * Result (list Packet) bytes :=
  let buffer := buffer ++ data in
  feed_loop (S (length buffer)) buffer [].

(** ** The blocking reader *)

(** A [Read] source: the bytes it still delivers and how it ends, at end of
    file or with an I/O error. *)
Inductive SourceEnd : Type := AtEof | AtError (kind : Z).
Record Source : Type := mkSource { remaining : bytes; ending : SourceEnd }.

Inductive IoError : Type :=
  | UnexpectedEof
  | OtherError (kind : Z)
  | InvalidData (message : bytes).

(** [Read::read_exact]. *)
Definition read_exact (src : Source) (n : Z) : Result (bytes * Source) IoError :=
  if n <=? blen (remaining src) then
    Ok (take (Z.to_nat n) (remaining src),
        mkSource (drop (Z.to_nat n) (remaining src)) (ending src))
  else match ending src with
       | AtEof => Err UnexpectedEof
       | AtError k => Err (OtherError k)
       end.

Definition read_packet (src : Source) : Result (option Packet * Source) IoError :=
  match read_exact src HEADER_SIZE with
  | Err UnexpectedEof => Ok (None, mkSource [] AtEof)
  | Err e => Err e
  | Ok (header, src) =>
      match header with
      | [type_byte; l0; l1; l2; l3] =>
          let length := of_be32 l0 l1 l2 l3 in
          if MAX_PACKET_LENGTH <? length then Err (InvalidData (too_large_message length))
          else match read_exact src length with
               | Err e => Err e
               | Ok (payload, src) => Ok (Some (mkPacket (from_u8 type_byte) payload), src)
               end
      | _ => Err UnexpectedEof
      end
  end.

(** ** Well-formed values *)

Definition is_u8 (b : Z) : Prop := 0 <= b <= U8_MAX.
Definition is_u16 (v : Z) : Prop := 0 <= v <= U16_MAX.

(** A packet a Rust peer can hold and the protocol carries: a tag that is not
    an [Unknown] alias of a known byte, and a payload within the cap. *)
Definition wf_packet (p : Packet) : Prop :=
  from_u8 (as_u8 (type_ p)) = type_ p /\ blen (payload p) <= MAX_PACKET_LENGTH.

(** Feed a stream cut into [chunks], stopping at the first error. *)
Fixpoint feed_all (buffer : bytes) (chunks : list bytes)
    : bytes * Result (list Packet) bytes :=
  match chunks with
  | [] => (buffer, Ok [])
  | c :: cs =>
      match feed buffer c with
      | (b, Err e) => (b, Err e)
      | (b, Ok ps) =>
          match feed_all b cs with
          | (b', Err e) => (b', Err e)
          | (b', Ok qs) => (b', Ok (ps ++ qs))
          end
      end
  end.

(** ** Lemmas: tags and framing *)

Lemma as_u8_from_u8 b : as_u8 (from_u8 b) = b.
Proof. unfold from_u8. repeat (case_match; try reflexivity). Qed.

Lemma blen_be32 v : blen (be32 v) = 4.
Proof. reflexivity. Qed.

Definition prefix_packets (ps : list Packet) (r : bytes * Result (list Packet) bytes)
    : bytes * Result (list Packet) bytes :=
  match r with
  | (b, Ok qs) => (b, Ok (ps ++ qs))
  | (b, Err e) => (b, Err e)
  end.

Lemma prefix_packets_nil r : prefix_packets [] r = r.
Proof. destruct r as [b []]; reflexivity. Qed.

Lemma prefix_packets_app ps qs r :
  prefix_packets ps (prefix_packets qs r) = prefix_packets (ps ++ qs) r.
Proof. destruct r as [b [x|x]]; simpl; [rewrite app_assoc|]; reflexivity. Qed.

(** One turn of the loop on a buffer that holds a header. *)
Lemma feed_loop_S f t l0 l1 l2 l3 rest acc :
  feed_loop (S f) (t :: l0 :: l1 :: l2 :: l3 :: rest) acc =
  let length := of_be32 l0 l1 l2 l3 in
  if MAX_PACKET_LENGTH <? length then ([], Err (too_large_message length))
  else if blen rest <? length then (t :: l0 :: l1 :: l2 :: l3 :: rest, Ok acc)
  else feed_loop f (drop (Z.to_nat length) rest)
         (acc ++ [mkPacket (from_u8 t) (take (Z.to_nat length) rest)]).
Proof. reflexivity. Qed.

Lemma feed_loop_short f b acc : (length b < 5)%nat -> feed_loop (S f) b acc = (b, Ok acc).
Proof. do 5 (destruct b as [|? b]; [reflexivity|]). simpl. lia. Qed.

(** Either the buffer holds no header or it splits into one and a rest. *)
Lemma header_cases (b : bytes) :
  (length b < 5)%nat \/ exists t l0 l1 l2 l3 rest, b = t :: l0 :: l1 :: l2 :: l3 :: rest.
Proof.
  do 5 (destruct b as [|? b]; [left; simpl; lia|]). right. eauto 10.
Qed.

Lemma feed_loop_acc f b acc : feed_loop f b acc = prefix_packets acc (feed_loop f b []).
Proof.
  revert b acc. induction f as [|f IH]; intros b acc.
  - simpl. rewrite app_nil_r. reflexivity.
  - destruct (header_cases b) as [Hs|(t & l0 & l1 & l2 & l3 & rest & ->)].
    + rewrite !feed_loop_short by done. simpl. rewrite app_nil_r. reflexivity.
    + rewrite !feed_loop_S. cbv zeta. destruct (MAX_PACKET_LENGTH <? _); [reflexivity|].
      destruct (blen rest <? _); [simpl; rewrite app_nil_r; reflexivity|].
      rewrite IH. rewrite (IH _ ([] ++ _)). rewrite prefix_packets_app. reflexivity.
Qed.

Lemma feed_loop_fuel f g b acc :
  (length b < f)%nat -> (length b < g)%nat -> feed_loop f b acc = feed_loop g b acc.
Proof.
  revert g b acc. induction f as [|f IH]; intros [|g] b acc Hf Hg; try lia.
  destruct (header_cases b) as [Hs|(t & l0 & l1 & l2 & l3 & rest & ->)].
  - rewrite !feed_loop_short by done. reflexivity.
  - rewrite !feed_loop_S. cbv zeta. repeat (case_match; [reflexivity|]).
    simpl in Hf, Hg. apply IH; rewrite length_drop; lia.
Qed.

(** Feeding more bytes after a completed feed continues where it stopped. *)
Lemma feed_loop_app f g h b d :
  (length (b ++ d) < f)%nat -> (length b < g)%nat -> (length (b ++ d) < h)%nat ->
  feed_loop f (b ++ d) [] =
  match feed_loop g b [] with
  | (b1, Ok ps) => prefix_packets ps (feed_loop h (b1 ++ d) [])
  | (b1, Err e) => ([], Err e)
  end.
Proof.
  revert f h b. induction g as [|g IH]; intros f h b Hf Hg Hh; [lia|].
  destruct (header_cases b) as [Hs|(t & l0 & l1 & l2 & l3 & rest & ->)].
  - rewrite (feed_loop_short g) by done. rewrite prefix_packets_nil.
    apply feed_loop_fuel; lia.
  - rewrite (feed_loop_S g). cbv zeta. destruct f as [|f]; [lia|].
    simpl app in *. destruct (MAX_PACKET_LENGTH <? _) eqn:E1.
    + rewrite feed_loop_S. cbv zeta. rewrite E1. reflexivity.
    + destruct (blen rest <? of_be32 l0 l1 l2 l3) eqn:E2.
      { rewrite prefix_packets_nil. apply feed_loop_fuel; simpl in *; lia. }
      apply Z.ltb_ge in E2. set (n := Z.to_nat (of_be32 l0 l1 l2 l3)) in *.
      assert (Hn : (n <= length rest)%nat) by (unfold n; unfold blen in E2; lia).
      rewrite feed_loop_S. cbv zeta. rewrite E1.
      replace (blen (rest ++ d) <? of_be32 l0 l1 l2 l3) with false
        by (symmetry; apply Z.ltb_ge; rewrite blen_app; pose proof (blen_nonneg d); lia).
      fold n. rewrite drop_app_le, take_app_le by lia.
      rewrite feed_loop_acc, (feed_loop_acc g). simpl app.
      simpl in Hf, Hg, Hh. rewrite length_app in Hf, Hh.
      rewrite (IH f h) by (rewrite ?length_app, ?length_drop; lia).
      destruct (feed_loop g (drop n rest) []) as [b1 [ps|e]]; [|reflexivity].
      rewrite prefix_packets_app. reflexivity.
Qed.

Lemma feed_loop_length f c acc b ps :
  feed_loop f c acc = (b, Ok ps) -> (length b <= length c)%nat.
Proof.
  revert acc c. induction f as [|f IH]; intros acc c; [intros [= <- <-]; lia|].
  destruct (header_cases c) as [Hs|(t & l0 & l1 & l2 & l3 & rest & ->)].
  - rewrite feed_loop_short by done. intros [= <- <-]. lia.
  - rewrite feed_loop_S. cbv zeta. repeat case_match; try (intros [= <- <-]; lia); try discriminate.
    intros E%IH. rewrite length_drop in E. simpl. lia.
Qed.

Lemma feed_loop_err f c acc b e : feed_loop f c acc = (b, Err e) -> b = [].
Proof.
  revert acc c. induction f as [|f IH]; intros acc c; [discriminate|].
  destruct (header_cases c) as [Hs|(t & l0 & l1 & l2 & l3 & rest & ->)].
  - rewrite feed_loop_short by done. discriminate.
  - rewrite feed_loop_S. cbv zeta. repeat case_match; try discriminate; [congruence|].
    apply IH.
Qed.

Lemma feed_app b d1 d2 :
  feed b (d1 ++ d2) =
  match feed b d1 with
  | (b1, Ok ps) => prefix_packets ps (feed b1 d2)
  | (_, Err e) => ([], Err e)
  end.
Proof.
  unfold feed. rewrite app_assoc.
  set (n := S (length ((b ++ d1) ++ d2))).
  rewrite (feed_loop_app _ (S (length (b ++ d1))) (S n)) by (subst n; lia).
  destruct (feed_loop (S (length (b ++ d1))) (b ++ d1) []) as [b1 [ps|e]] eqn:E; [|reflexivity].
  f_equal. apply feed_loop_fuel; [|lia].
  apply feed_loop_length in E. subst n. rewrite !length_app in *. lia.
Qed.

(** What a feed leaves behind holds no complete packet: feeding nothing more
    yields nothing. *)
Lemma feed_loop_drained f b acc b' ps :
  (length b < f)%nat -> feed_loop f b acc = (b', Ok ps) ->
  feed b' [] = (b', Ok []) /\ blen b' < HEADER_SIZE + MAX_PACKET_LENGTH.
Proof.
  revert b acc. induction f as [|f IH]; intros b acc Hf; [lia|].
  destruct (header_cases b) as [Hs|(t & l0 & l1 & l2 & l3 & rest & ->)].
  - rewrite feed_loop_short by done. intros [= <- <-]. unfold feed. rewrite app_nil_r.
    rewrite feed_loop_short by done. split; [done|].
    unfold blen, HEADER_SIZE, MAX_PACKET_LENGTH. lia.
  - rewrite feed_loop_S. cbv zeta.
    destruct (MAX_PACKET_LENGTH <? _) eqn:E1; [discriminate|].
    destruct (blen rest <? _) eqn:E2.
    + intros [= <- <-]. unfold feed. rewrite app_nil_r, feed_loop_S. cbv zeta.
      rewrite E1, E2. split; [done|]. bprop. rewrite !blen_cons. unfold HEADER_SIZE. lia.
    + simpl in Hf. apply IH. rewrite length_drop. lia.
Qed.

Lemma feed_loop_bound f b acc :
  (length b < f)%nat -> blen (fst (feed_loop f b acc)) < HEADER_SIZE + MAX_PACKET_LENGTH.
Proof.
  intros Hf. destruct (feed_loop f b acc) as [b' [ps|e]] eqn:E; simpl.
  - eapply feed_loop_drained; eauto.
  - apply feed_loop_err in E as ->. done.
Qed.

(** A well-formed packet's encoding is read back whole, whatever follows. *)
Lemma be32_of_blen (p : bytes) : blen p <= MAX_PACKET_LENGTH ->
  of_be32 ((blen p mod 4294967296 / 16777216) mod 256) ((blen p mod 4294967296 / 65536) mod 256)
          ((blen p mod 4294967296 / 256) mod 256) ((blen p mod 4294967296) mod 256) = blen p.
Proof.
  intros H. pose proof (blen_nonneg p). unfold MAX_PACKET_LENGTH in H.
  rewrite (Z.mod_small (blen p) 4294967296) by lia. apply of_be32_be32. unfold U32_MAX. lia.
Qed.

Lemma feed_loop_encode f p rest acc :
  wf_packet p ->
  feed_loop (S f) (encode p ++ rest) acc = feed_loop f rest (acc ++ [p]).
Proof.
  intros [Ht Hl]. destruct p as [t pl]. simpl in Ht, Hl.
  unfold encode, encode_packet, be32. simpl type_. simpl payload. simpl app.
  rewrite feed_loop_S. cbv zeta. rewrite be32_of_blen, Ht by done.
  replace (MAX_PACKET_LENGTH <? blen pl) with false by (symmetry; apply Z.ltb_ge; lia).
  replace (blen (pl ++ rest) <? blen pl) with false
    by (symmetry; apply Z.ltb_ge; rewrite blen_app; pose proof (blen_nonneg rest); lia).
  unfold blen. rewrite Nat2Z.id, drop_app_length, take_app_length. reflexivity.
Qed.

Lemma length_encode p : (5 <= length (encode p))%nat.
Proof. unfold encode, encode_packet. simpl. lia. Qed.

Lemma feed_loop_encodes f ps acc :
  Forall wf_packet ps -> (length (concat (encode <$> ps)) < f)%nat ->
  feed_loop f (concat (encode <$> ps)) acc = ([], Ok (acc ++ ps)).
Proof.
  intros H. revert f acc. induction H as [|p ps Hp Hps IH]; intros [|f] acc Hf; try lia.
  - rewrite app_nil_r. reflexivity.
  - rewrite fmap_cons, concat_cons in *. pose proof (length_encode p). rewrite length_app in Hf.
    rewrite feed_loop_encode by done. rewrite IH by lia. rewrite <- app_assoc. reflexivity.
Qed.

Lemma feed_all_feed b chunks :
  feed b [] = (b, Ok []) ->
  feed_all b chunks = feed b (concat chunks).
Proof.
  revert b. induction chunks as [|c cs IH]; intros b Hb; simpl; [rewrite Hb; done|].
  rewrite feed_app. destruct (feed b c) as [b1 [ps|e]] eqn:E.
  - rewrite IH; [destruct (feed b1 (concat cs)) as [b2 [qs|e]]; reflexivity|].
    apply (feed_loop_drained _ _ _ _ _ (Nat.lt_succ_diag_r _) E).
  - apply feed_loop_err in E as ->. reflexivity.
Qed.

(** ** The protocol's theorems *)

(** C24: the streaming reader is chunking-independent and lossless: however a
    stream is cut into reads, feeding the pieces one by one gives exactly the
    packets, or exactly the error, and leaves exactly the buffer that feeding
    the whole stream at once does. *)
Theorem feed_chunking (chunks : list bytes) : feed_all [] chunks = feed [] (concat chunks).
Proof. apply feed_all_feed. reflexivity. Qed.

(** framing round trip: well-formed packets, encoded one after another and
    cut into reads anywhere, come back exactly, with nothing left over. *)
Theorem feed_encode_roundtrip (ps : list Packet) (chunks : list bytes) :
  Forall wf_packet ps -> concat chunks = concat (encode <$> ps) ->
  feed_all [] chunks = ([], Ok ps).
Proof.
  intros Hps Hc. rewrite feed_all_feed, Hc by reflexivity. unfold feed. simpl app.
  rewrite feed_loop_encodes by (done || lia). reflexivity.
Qed.

Definition sample_packets : list Packet :=
  [mkPacket Resize [0; 24; 0; 80]; mkPacket (Unknown 200) []; mkPacket Data [104; 105]].

Lemma feed_encode_roundtrip_witness :
  feed_all [] [[3; 0; 0]; [0; 4; 0; 24; 0]; [80; 200; 0; 0; 0; 0; 0; 0; 0; 0]; [2; 104; 105]]
  = ([], Ok sample_packets).
Proof.
  apply feed_encode_roundtrip.
  - repeat constructor; vm_compute; try done; discriminate.
  - reflexivity.
Defined.

(** the reader never holds an unbounded buffer: after any feed it keeps
    less than one header and one maximal payload, whatever the peer sent. *)
Theorem feed_buffer_bound (buffer data : bytes) :
  blen (fst (feed buffer data)) < HEADER_SIZE + MAX_PACKET_LENGTH.
Proof. apply feed_loop_bound. lia. Qed.

Lemma read_exact_app a rest e n :
  n = blen a -> read_exact (mkSource (a ++ rest) e) n = Ok (a, mkSource rest e).
Proof.
  intros ->. unfold read_exact. simpl.
  replace (blen a <=? blen (a ++ rest)) with true
    by (symmetry; apply Z.leb_le; rewrite blen_app; pose proof (blen_nonneg rest); lia).
  unfold blen. rewrite Nat2Z.id, take_app_length, drop_app_length. reflexivity.
Qed.

Lemma read_exact_short src n :
  blen (remaining src) < n ->
  read_exact src n = match ending src with AtEof => Err UnexpectedEof | AtError k => Err (OtherError k) end.
Proof. intros H. unfold read_exact. replace (n <=? _) with false by (symmetry; lia). done. Qed.

(** the blocking reader agrees with the framing: it returns exactly the
    first packet of a stream and leaves the rest; an end of file inside the
    header reads as a clean end, one inside the payload as
    [UnexpectedEof]. *)
Theorem read_packet_spec (p : Packet) :
  wf_packet p ->
  (forall rest e, read_packet (mkSource (encode p ++ rest) e) = Ok (Some p, mkSource rest e)) /\
  (forall cut more, encode p = cut ++ more -> more <> [] ->
     if blen cut <? HEADER_SIZE
     then read_packet (mkSource cut AtEof) = Ok (None, mkSource [] AtEof)
     else read_packet (mkSource cut AtEof) = Err UnexpectedEof).
Proof.
  intros [Ht Hl]. destruct p as [t pl]. simpl in Ht, Hl. split.
  - intros rest e. unfold read_packet, encode, encode_packet. simpl type_. simpl payload.
    rewrite (read_exact_app (as_u8 t :: be32 (blen pl mod 4294967296)) (pl ++ rest)) by reflexivity.
    unfold be32. simpl. rewrite be32_of_blen, Ht by done.
    replace (MAX_PACKET_LENGTH <? blen pl) with false by (symmetry; apply Z.ltb_ge; lia).
    rewrite (read_exact_app pl rest) by reflexivity. reflexivity.
  - intros cut more Hcut Hmore. destruct (blen cut <? HEADER_SIZE) eqn:E; bprop.
    + unfold read_packet. rewrite read_exact_short by done. reflexivity.
    + unfold encode, encode_packet in Hcut. simpl type_ in Hcut. simpl payload in Hcut.
      change (as_u8 t :: be32 (blen pl mod 4294967296) ++ pl)
        with ((as_u8 t :: be32 (blen pl mod 4294967296)) ++ pl) in Hcut.
      destruct (app_eq_app _ _ _ _ Hcut) as [l [[Hh Hc]|[Hh Hc]]].
      * assert (l = []) as ->.
        { apply (f_equal (@blen Z)) in Hh. rewrite blen_app in Hh.
          change (blen (as_u8 t :: be32 (blen pl mod 4294967296))) with 5 in Hh.
          unfold HEADER_SIZE in E. destruct l; [done|]. rewrite blen_cons in Hh.
          pose proof (blen_nonneg l). lia. }
        rewrite app_nil_r in Hh. subst cut more. simpl in Hmore.
        rewrite <- (app_nil_r (_ :: _)). unfold read_packet.
        rewrite (read_exact_app _ []) by reflexivity. unfold be32. simpl.
        rewrite be32_of_blen by done.
        replace (MAX_PACKET_LENGTH <? blen pl) with false by (symmetry; apply Z.ltb_ge; lia).
        rewrite read_exact_short; [done|]. destruct pl; [done|]. simpl.
        rewrite blen_cons, blen_nil. pose proof (blen_nonneg pl). lia.
      * subst cut pl. unfold read_packet. rewrite (read_exact_app _ l) by reflexivity.
        unfold be32. simpl. rewrite be32_of_blen by done.
        replace (MAX_PACKET_LENGTH <? _) with false by (symmetry; apply Z.ltb_ge; lia).
        rewrite read_exact_short; [done|]. simpl. rewrite blen_app.
        destruct more; [done|]. rewrite blen_cons. pose proof (blen_nonneg more). lia.
Qed.

Lemma read_packet_spec_witness :
  read_packet (mkSource [0; 0; 0; 0; 2; 104] AtEof) = Err UnexpectedEof.
Proof.
  pose proof (read_packet_spec (mkPacket Data [104; 105])
    ltac:(split; [reflexivity | vm_compute; discriminate])) as [_ H].
  apply (H [0; 0; 0; 0; 2; 104] [105]); [reflexivity | discriminate].
Defined.

Lemma decode_size_payload rows cols suffix :
  is_u16 rows -> is_u16 cols -> decode_size (size_payload rows cols ++ suffix) = (rows, cols).
Proof.
  unfold is_u16. intros Hr Hc. unfold size_payload, be16. simpl.
  rewrite !of_be16_be16 by done. reflexivity.
Qed.

(** every size payload reads back: any suffix (cell metrics, identity
    JSON, a newer peer's extension) leaves rows and columns unchanged, and the
    cell metrics read back exactly when both are positive and as absent
    otherwise. *)
Theorem size_payload_roundtrip (rows cols cw ch : Z) (suffix : bytes) :
  is_u16 rows -> is_u16 cols -> is_u16 cw -> is_u16 ch ->
  decode_size (size_payload rows cols ++ suffix) = (rows, cols) /\
  decode_size (size_cell_payload rows cols cw ch ++ suffix) = (rows, cols) /\
  decode_cell (size_cell_payload rows cols cw ch ++ suffix)
    = (if (0 <? cw) && (0 <? ch) then Some (cw, ch) else None) /\
  decode_cell (size_payload rows cols) = None.
Proof.
  intros Hr Hc Hw Hh. split; [by apply decode_size_payload|]. split.
  { unfold size_cell_payload. rewrite <- app_assoc. by apply decode_size_payload. }
  split; [|reflexivity].
  unfold size_cell_payload, size_payload, be16. simpl.
  unfold is_u16 in *. rewrite !of_be16_be16 by done. reflexivity.
Qed.

Lemma size_payload_roundtrip_witness :
  decode_size (size_cell_payload 50 132 9 18 ++ [123; 125]) = (50, 132) /\
  decode_cell (size_cell_payload 50 132 9 18 ++ [123; 125]) = Some (9, 18).
Proof.
  pose proof (size_payload_roundtrip 50 132 9 18 [123; 125]) as H.
  unfold is_u16, U16_MAX in H. specialize (H ltac:(lia) ltac:(lia) ltac:(lia) ltac:(lia)).
  destruct H as (_ & H1 & H2 & _). split; [exact H1 | exact H2].
Defined.

Lemma decode_exit_roundtrip code :
  -2147483648 <= code < 2147483648 -> decode_exit (be32 (code mod 4294967296)) = code.
Proof.
  intros H. unfold decode_exit, be32.
  rewrite of_be32_be32 by (pose proof (Z.mod_pos_bound code 4294967296 ltac:(lia)); unfold U32_MAX; lia).
  destruct (Z_lt_dec code 0).
  - rewrite <- (Z.mod_unique_pos code 4294967296 (-1) (code + 4294967296)) by lia.
    case_match; lia.
  - rewrite Z.mod_small by lia. case_match; lia.
Qed.

Lemma decode_peek_roundtrip plain full :
  match encode_peek plain full with
  | _ :: _ :: _ :: _ :: _ :: p => decode_peek p = (plain, full)
  | _ => False
  end.
Proof. destruct plain, full; reflexivity. Qed.
