(* ===== verification/Scanner.v ===== *)
(** The streaming output scanner of [crates/pty-terminal/src/strip.rs]: the VT
    tokenizer, the CSI and OSC classifiers, and the one-shot query strip. *)
From S2P Require Import Prelude.

Definition MAX_CSI : Z := 64.
Definition MAX_OSC : Z := 4096.
(** [enhanced_paste::MAX_METADATA]. *)
Definition MAX_METADATA : Z := 64 * 1024.

Inductive Terminator : Type := Bel | St.

Record Csi : Type := mkCsi {
  csi_raw : bytes;
  prefix : option Z;
  intermediates : bytes;
  params : list Z;
  final_byte : Z
}.

(** ** CSI classifiers *)

Definition no_prefix (c : Csi) : bool :=
  match prefix c with None => true | Some _ => false end.
Definition has_prefix (c : Csi) (b : Z) : bool :=
  match prefix c with Some p => p =? b | None => false end.
Definition no_intermediates (c : Csi) : bool := beq (intermediates c) [].

(** [params.get(i).copied().unwrap_or(default)]. *)
Definition param (c : Csi) (i : nat) (default : Z) : Z :=
  match params c !! i with Some v => v | None => default end.

Definition is_da1_query (c : Csi) : bool :=
  (final_byte c =? 99) && no_prefix c && no_intermediates c
  && match params c with [] => true | p :: _ => p =? 0 end.

Definition is_da2_query (c : Csi) : bool :=
  (final_byte c =? 99) && has_prefix c 62 && no_intermediates c.

Definition is_dsr_query (c : Csi) : bool :=
  (final_byte c =? 110) && no_prefix c && no_intermediates c && beq (params c) [6].

Definition is_xtversion_query (c : Csi) : bool :=
  (final_byte c =? 113) && has_prefix c 62 && no_intermediates c.

Definition size_query (c : Csi) : option Z :=
  if (final_byte c =? 116) && no_prefix c && no_intermediates c then
    match params c with
    | [p] => if (p =? 14) || (p =? 16) || (p =? 18) || (p =? 19) then Some p else None
    | _ => None
    end
  else None.

Definition is_stripped_query (c : Csi) : bool :=
  (has_prefix c 63 && (final_byte c =? 109) && no_intermediates c && beq (params c) [4])
  || is_da1_query c
  || is_da2_query c
  || is_dsr_query c
  || is_xtversion_query c
  || ((final_byte c =? 110) && no_prefix c && no_intermediates c && beq (params c) [5])
  || ((final_byte c =? 112) && has_prefix c 63 && beq (intermediates c) [36]
      && negb (beq (params c) []))
  || ((final_byte c =? 117) && has_prefix c 63 && no_intermediates c && beq (params c) [])
  || match size_query c with Some _ => true | None => false end.

Definition is_mode_query (c : Csi) (mode : Z) : bool :=
  (final_byte c =? 112) && has_prefix c 63 && beq (intermediates c) [36]
  && beq (params c) [mode].

Definition kitty_push (c : Csi) : option Z :=
  if (final_byte c =? 117) && has_prefix c 62 && no_intermediates c
  then Some (Z.min (param c 0 0) U8_MAX) else None.

Definition is_kitty_pop (c : Csi) : bool :=
  (final_byte c =? 117) && has_prefix c 60 && no_intermediates c.

Definition dec_modes (c : Csi) : option (list Z * bool) :=
  if has_prefix c 63 && no_intermediates c then
    if final_byte c =? 104 then Some (params c, true)
    else if final_byte c =? 108 then Some (params c, false)
    else None
  else None.

(** ** OSC sequences *)

Record Osc : Type := mkOsc {
  osc_raw : bytes;
  payload : bytes;
  terminator : Terminator
}.

(** The numeric identifier before the first [;] and the data after it.  An
    identifier that is not UTF-8 is not a number either. *)
Definition split (o : Osc) : option Z * bytes :=
  match position (Z.eqb 59) (payload o) with
  | Some i => (parse_u32 (take i (payload o)), drop (S i) (payload o))
  | None => (parse_u32 (payload o), [])
  end.

Definition clipboard_read_selection (o : Osc) : option bytes :=
  let '(id, data) := split o in
  let? selection := strip_suffix (str ";?") data in
  if match id with Some i => i =? 52 | None => false end
     && negb (beq selection [])
     && (blen selection <=? 16)
     && forallb is_ascii_alphanumeric selection
  then Some selection else None.

(** [fields.chunks_exact(2)] filtered to the valid [index;?] pairs. *)
Fixpoint color_pairs (fields : list bytes) : list (Z * option Z) :=
  match fields with
  | index :: mark :: rest =>
      if beq mark [63] then
        match parse_u32 index with
        | Some i => (4, Some i) :: color_pairs rest
        | None => color_pairs rest
        end
      else color_pairs rest
  | _ => []
  end.

Definition color_query (o : Osc) : option (list (Z * option Z)) :=
  let '(id, data) := split o in
  match id with
  | None => None
  | Some id =>
      if ((id =? 10) || (id =? 11)) && beq data [63] then Some [(id, None)]
      else if (id =? 4) && memb 63 data then Some (color_pairs (split_on (Z.eqb 59) data))
      else None
  end.

(** ** Tokens *)

Inductive Token : Type :=
  | Raw (b : bytes)
  | Ris
  | TCsi (c : Csi)
  | TOsc (o : Osc).

Definition token_raw (t : Token) : bytes :=
  match t with
  | Raw b => b
  | Ris => [27; 99]
  | TCsi c => csi_raw c
  | TOsc o => osc_raw o
  end.

Inductive State : Type := Ground | Esc | InCsi | InOsc | OscEsc.

Record OutputScanner : Type := mkScanner { state : State; seq : bytes }.

Definition new : OutputScanner := mkScanner Ground [].

Definition reset (s : OutputScanner) : OutputScanner := mkScanner Ground [].

Definition pending (s : OutputScanner) : bytes := seq s.

Definition osc_limit (seq : bytes) : Z :=
  if starts_with (27 :: str "]5522;") seq then MAX_METADATA else MAX_OSC.

(** One [;]-separated part: the digits before any [:], saturating at
    [u16::MAX]; other bytes are skipped. *)
Definition csi_param (part : bytes) : Z :=
  let digits := match position (Z.eqb 58) part with Some p => take p part | None => part end in
  fold_left (fun v d => if is_ascii_digit d then Z.min (v * 10 + (d - 48)) U16_MAX else v)
    digits 0.

Definition is_intermediate (b : Z) : bool := in_range 32 47 b.

(** [seq = ESC [ body final]. *)
Definition parse_csi (seq : bytes) : Csi :=
  let body := take (length seq - 3) (drop 2 seq) in
  let final := List.last seq 0 in
  let '(pre, params_bytes) :=
    match body with
    | first :: rest => if in_range 60 63 first then (Some first, rest) else (None, body)
    | [] => (None, body)
    end in
  let inter_start :=
    match position is_intermediate params_bytes with
    | Some i => i
    | None => length params_bytes
    end in
  let inter := drop inter_start params_bytes in
  let params_bytes := take inter_start params_bytes in
  let ps := match params_bytes with
            | [] => []
            | _ => csi_param <$> split_on (Z.eqb 59) params_bytes
            end in
  mkCsi seq pre inter ps final.

Definition make_osc (seq : bytes) (t : Terminator) : Osc :=
  let tail := match t with Bel => 1%nat | St => 2%nat end in
  mkOsc seq (take (length seq - tail - 2) (drop 2 seq)) t.

(** ** The tokenizer's loop *)

(** What the loop carries from byte to byte: the scanner, the plain bytes not
    yet flushed, and the tokens so far. *)
Record Loop : Type := mkLoop {
  l_state : State;
  l_seq : bytes;
  l_raw : bytes;
  l_out : list Token
}.

Definition flush_raw (raw : bytes) (out : list Token) : list Token :=
  match raw with [] => out | _ => out ++ [Raw raw] end.

(** A complete token: flush what precedes it, return to the ground state. *)
Definition finish (l : Loop) (t : Token) : Loop :=
  mkLoop Ground [] [] (flush_raw (l_raw l) (l_out l) ++ [t]).

(** The held bytes turn out to be plain: they and [more] join [raw]. *)
Definition abandon (l : Loop) (more : bytes) : Loop :=
  mkLoop Ground [] (l_raw l ++ l_seq l ++ more) (l_out l).

Definition hold (l : Loop) (st : State) (b : Z) : Loop :=
  mkLoop st (l_seq l ++ [b]) (l_raw l) (l_out l).

(** The [State::Esc] arm. *)
Definition feed_esc (l : Loop) (b : Z) : Loop :=
  if b =? 99 then finish l Ris
  else if b =? 91 then hold l InCsi b
  else if b =? 93 then hold l InOsc b
  else if b =? 27 then mkLoop Esc [b] (l_raw l ++ l_seq l) (l_out l)
  else abandon l [b].

Definition feed_csi (l : Loop) (b : Z) : Loop :=
  if in_range 64 126 b then finish l (TCsi (parse_csi (l_seq l ++ [b])))
  else if b =? 27 then mkLoop Esc [b] (l_raw l ++ l_seq l) (l_out l)
  else if (b =? 24) || (b =? 26) then abandon l [b]
  else if MAX_CSI <? blen (l_seq l ++ [b]) then abandon l [b]
  else hold l InCsi b.

Definition feed_osc (l : Loop) (b : Z) : Loop :=
  if b =? 7 then finish l (TOsc (make_osc (l_seq l ++ [b]) Bel))
  else if b =? 27 then hold l OscEsc b
  else if (b =? 24) || (b =? 26) then abandon l [b]
  else if osc_limit (l_seq l ++ [b]) + 2 <? blen (l_seq l ++ [b]) then abandon l [b]
  else hold l InOsc b.

(** The byte after an ESC inside an OSC: an ST, or the OSC is abandoned and
    the byte is processed again as the byte after a fresh ESC. *)
Definition feed_osc_esc (l : Loop) (b : Z) : Loop :=
  if b =? 92 then finish l (TOsc (make_osc (l_seq l ++ [b]) St))
  else feed_esc (mkLoop Esc [27] (l_raw l ++ removelast (l_seq l)) (l_out l)) b.

Definition feed_byte (l : Loop) (b : Z) : Loop :=
  match l_state l with
  | Ground =>
      if b =? 27 then mkLoop Esc [b] (l_raw l) (l_out l)
      else mkLoop Ground (l_seq l) (l_raw l ++ [b]) (l_out l)
  | Esc => feed_esc l b
  | InCsi => feed_csi l b
  | InOsc => feed_osc l b
  | OscEsc => feed_osc_esc l b
  end.

Definition feed (s : OutputScanner) (data : bytes) : OutputScanner * list Token :=
  let l := fold_left feed_byte data (mkLoop (state s) (seq s) [] []) in
  (mkScanner (l_state l) (l_seq l), flush_raw (l_raw l) (l_out l)).

(** What the strip keeps of a token. *)
Definition strip_token (t : Token) : bytes :=
  match t with
  | TCsi c => if is_stripped_query c then [] else csi_raw c
  | TOsc o => match color_query o with Some _ => [] | None => osc_raw o end
  | _ => token_raw t
  end.

Definition strip_terminal_queries (data : bytes) : bytes :=
  let '(s, toks) := feed new data in
  concat (strip_token <$> toks) ++ pending s.

(** ** Streams cut into chunks *)

Fixpoint feed_chunks (s : OutputScanner) (chunks : list bytes)
    : OutputScanner * list Token :=
  match chunks with
  | [] => (s, [])
  | c :: cs =>
      let '(s1, t1) := feed s c in
      let '(s2, t2) := feed_chunks s1 cs in
      (s2, t1 ++ t2)
  end.

Definition not_raw (t : Token) : list Token :=
  match t with Raw _ => [] | _ => [t] end.

(** The bytes held back in each state. *)
Definition held_limit : Z := MAX_METADATA + 3.

Definition csi_body_byte (b : Z) : bool :=
  negb (in_range 64 126 b) && negb (b =? 27) && negb (b =? 24) && negb (b =? 26).
Definition osc_body_byte (b : Z) : bool :=
  negb (b =? 7) && negb (b =? 27) && negb (b =? 24) && negb (b =? 26).

Definition scanner_ok (st : State) (q : bytes) : Prop :=
  match st with
  | Ground => q = []
  | Esc => q = [27]
  | InCsi => exists body, q = 27 :: 91 :: body /\ blen q <= MAX_CSI
                          /\ forallb csi_body_byte body = true
  | InOsc => exists body, q = 27 :: 93 :: body /\ blen q <= osc_limit q + 2
                          /\ forallb osc_body_byte body = true
  | OscEsc => exists body, q = (27 :: 93 :: body) ++ [27]
                           /\ blen (27 :: 93 :: body) <= osc_limit (27 :: 93 :: body) + 2
                           /\ forallb osc_body_byte body = true
  end.

Lemma feed_chunks_cons s c cs :
  feed_chunks s (c :: cs) =
  let r := feed s c in
  let r2 := feed_chunks (fst r) cs in
  (fst r2, snd r ++ snd r2).
Proof. cbn [feed_chunks]. destruct (feed s c) as [s1 t1]. cbn. destruct (feed_chunks s1 cs). done. Qed.

(** ** Lemmas: the invariant of the held bytes *)

Lemma osc_limit_bounds q : MAX_OSC <= osc_limit q <= MAX_METADATA.
Proof. unfold osc_limit, MAX_OSC, MAX_METADATA. case_match; lia. Qed.

Lemma scanner_ok_new : scanner_ok (state new) (seq new).
Proof. reflexivity. Qed.

Lemma abandon_ok l more : scanner_ok (l_state (abandon l more)) (l_seq (abandon l more)).
Proof. reflexivity. Qed.

Lemma finish_ok l t : scanner_ok (l_state (finish l t)) (l_seq (finish l t)).
Proof. reflexivity. Qed.

Lemma feed_esc_ok l b :
  l_seq l = [27] -> scanner_ok (l_state (feed_esc l b)) (l_seq (feed_esc l b)).
Proof.
  intros H. unfold feed_esc, hold.
  destruct (b =? 99); [done|].
  destruct (b =? 91) eqn:E91.
  { bprop; subst. simpl. rewrite H. exists []. split; [done|]. split; [|done].
    vm_compute. discriminate. }
  destruct (b =? 93) eqn:E93.
  { bprop; subst. simpl. rewrite H. exists []. split; [done|]. split; [|done].
    vm_compute. discriminate. }
  destruct (b =? 27) eqn:E27; [bprop; subst; done|]. done.
Qed.

Lemma feed_byte_ok l b :
  scanner_ok (l_state l) (l_seq l) ->
  scanner_ok (l_state (feed_byte l b)) (l_seq (feed_byte l b)).
Proof.
  intros H. unfold feed_byte. destruct (l_state l) eqn:Est; simpl in H.
  - destruct (b =? 27) eqn:E; [bprop; subst; done|]. simpl. done.
  - by apply feed_esc_ok.
  - destruct H as (body & Hq & Hl & Hb). unfold feed_csi.
    destruct (in_range 64 126 b) eqn:E1; [done|].
    destruct (b =? 27) eqn:E2; [bprop; subst; done|].
    destruct ((b =? 24) || (b =? 26)) eqn:E3; [done|].
    destruct (MAX_CSI <? _) eqn:E4; [done|]. simpl. bprop.
    exists (body ++ [b]). rewrite Hq in *. split; [done|]. split; [done|].
    rewrite forallb_app, Hb. simpl. unfold csi_body_byte. rewrite E1.
    replace (b =? 27) with false by lia. replace (b =? 24) with false by lia.
    replace (b =? 26) with false by lia. done.
  - destruct H as (body & Hq & Hl & Hb). unfold feed_osc.
    destruct (b =? 7) eqn:E1; [done|].
    destruct (b =? 27) eqn:E2.
    { bprop; subst. simpl. exists body. rewrite Hq in *. done. }
    destruct ((b =? 24) || (b =? 26)) eqn:E3; [done|].
    destruct (_ + 2 <? _) eqn:E4; [done|]. simpl. bprop.
    exists (body ++ [b]). rewrite Hq in *. split; [done|]. split; [done|].
    rewrite forallb_app, Hb. simpl. unfold osc_body_byte.
    replace (b =? 7) with false by lia. replace (b =? 27) with false by lia.
    replace (b =? 24) with false by lia. replace (b =? 26) with false by lia. done.
  - unfold feed_osc_esc. destruct (b =? 92); [done|]. by apply feed_esc_ok.
Qed.

Lemma fold_feed_ok data l :
  scanner_ok (l_state l) (l_seq l) ->
  scanner_ok (l_state (fold_left feed_byte data l)) (l_seq (fold_left feed_byte data l)).
Proof.
  revert l. induction data as [|b data IH]; simpl; [done|].
  intros l H. apply IH, feed_byte_ok, H.
Qed.

Lemma feed_ok s data :
  scanner_ok (state s) (seq s) ->
  scanner_ok (state (fst (feed s data))) (seq (fst (feed s data))).
Proof. intros H. exact (fold_feed_ok data (mkLoop (state s) (seq s) [] []) H). Qed.

Lemma feed_chunks_ok s chunks :
  scanner_ok (state s) (seq s) ->
  scanner_ok (state (fst (feed_chunks s chunks))) (seq (fst (feed_chunks s chunks))).
Proof.
  revert s. induction chunks as [|c cs IH]; intros s H; [done|].
  rewrite feed_chunks_cons. cbn [fst]. apply IH, feed_ok, H.
Qed.

(** ** Lemmas: observations of the token stream

    An observation maps a token to a list and treats adjacent [Raw] tokens as
    one.  Everything a consumer does with the tokens here is one: their bytes,
    what the strip keeps, the tokens that are not [Raw]. *)

Class Observation {B} (h : Token -> list B) : Prop := {
  obs_raw_nil : h (Raw []) = [];
  obs_raw_app : forall a b, h (Raw (a ++ b)) = h (Raw a) ++ h (Raw b)
}.

#[export] Instance token_raw_observation : Observation token_raw.
Proof. split; reflexivity. Qed.
#[export] Instance strip_token_observation : Observation strip_token.
Proof. split; reflexivity. Qed.
#[export] Instance not_raw_observation : Observation not_raw.
Proof. split; reflexivity. Qed.

Section Observe.
Context {B : Type} (h : Token -> list B) `{!Observation h}.

Definition observe (toks : list Token) : list B := concat (h <$> toks).

Lemma observe_app a b : observe (a ++ b) = observe a ++ observe b.
Proof. unfold observe. rewrite fmap_app, concat_app. reflexivity. Qed.

Lemma observe_flush raw out : observe (flush_raw raw out) = observe out ++ h (Raw raw).
Proof.
  destruct raw as [|x raw]; simpl.
  - rewrite obs_raw_nil, app_nil_r. reflexivity.
  - rewrite observe_app. unfold observe at 2. simpl. rewrite app_nil_r. reflexivity.
Qed.

(** What the loop has observed so far. *)
Definition seen (l : Loop) : list B := observe (flush_raw (l_raw l) (l_out l)).

Lemma seen_mk st q raw out : seen (mkLoop st q raw out) = observe out ++ h (Raw raw).
Proof. unfold seen. simpl. apply observe_flush. Qed.

Lemma seen_finish l t : seen (finish l t) = seen l ++ h t.
Proof.
  unfold finish, seen. simpl. rewrite observe_app. unfold observe at 2. simpl.
  rewrite app_nil_r. reflexivity.
Qed.

Lemma seen_abandon l more : seen (abandon l more) = seen l ++ h (Raw (l_seq l ++ more)).
Proof.
  unfold abandon, seen. simpl. rewrite !observe_flush, !obs_raw_app, app_assoc. reflexivity.
Qed.

Lemma seen_raw st q l x :
  seen (mkLoop st q (l_raw l ++ x) (l_out l)) = seen l ++ h (Raw x).
Proof. rewrite seen_mk. unfold seen. rewrite observe_flush, obs_raw_app, app_assoc. done. Qed.

Lemma seen_hold l st b : seen (hold l st b) = seen l.
Proof. reflexivity. Qed.

(** A byte's effect depends on the scanner alone, not on what came before. *)
Definition same_scanner (a b : Loop) : Prop := l_state a = l_state b /\ l_seq a = l_seq b.

Definition same_effect (a b a' b' : Loop) : Prop :=
  same_scanner a' b' /\ exists e, seen a' = seen a ++ e /\ seen b' = seen b ++ e.

Lemma same_effect_finish a b t : same_effect a b (finish a t) (finish b t).
Proof. split; [split; reflexivity|]. exists (h t). rewrite !seen_finish. done. Qed.

Lemma same_effect_abandon a b more :
  same_scanner a b -> same_effect a b (abandon a more) (abandon b more).
Proof.
  intros [_ Hq]. split; [split; reflexivity|]. exists (h (Raw (l_seq a ++ more))).
  rewrite !seen_abandon, Hq. done.
Qed.

Lemma same_effect_hold a b st x :
  same_scanner a b -> same_effect a b (hold a st x) (hold b st x).
Proof.
  intros [_ Hq]. split; [split; simpl; congruence|]. exists [].
  rewrite !seen_hold, !app_nil_r. done.
Qed.

Lemma same_effect_raw a b st q q' x :
  q = q' ->
  same_effect a b (mkLoop st q (l_raw a ++ x) (l_out a)) (mkLoop st q' (l_raw b ++ x) (l_out b)).
Proof.
  intros ->. split; [split; reflexivity|]. exists (h (Raw x)). rewrite !seen_raw. done.
Qed.

Lemma same_effect_trans a b a1 b1 a2 b2 :
  same_effect a b a1 b1 -> same_effect a1 b1 a2 b2 -> same_effect a b a2 b2.
Proof.
  intros [_ (e1 & Ha1 & Hb1)] [Hs (e2 & Ha2 & Hb2)]. split; [done|]. exists (e1 ++ e2).
  rewrite Ha2, Hb2, Ha1, Hb1, !app_assoc. done.
Qed.

Hint Resolve same_effect_finish same_effect_abandon same_effect_hold same_effect_raw : pty.

Lemma feed_esc_effect a b x :
  same_scanner a b -> same_effect a b (feed_esc a x) (feed_esc b x).
Proof.
  intros H. pose proof H as [_ Hq]. unfold feed_esc. rewrite Hq.
  repeat case_match; auto with pty.
Qed.

Lemma feed_byte_effect a b x :
  same_scanner a b -> same_effect a b (feed_byte a x) (feed_byte b x).
Proof.
  intros H. pose proof H as [Hst Hq]. unfold feed_byte. rewrite Hst, Hq.
  destruct (l_state b).
  - case_match; auto with pty. split; [split; reflexivity|]. exists [].
    unfold seen. simpl. rewrite !app_nil_r. done.
  - auto using feed_esc_effect.
  - unfold feed_csi. rewrite Hq. repeat case_match; auto with pty.
  - unfold feed_osc. rewrite Hq. repeat case_match; auto with pty.
  - unfold feed_osc_esc. rewrite Hq. case_match; auto with pty.
    eapply same_effect_trans; [by apply same_effect_raw with (st := Esc) (q := [27])|].
    apply feed_esc_effect. split; reflexivity.
Qed.

Lemma fold_feed_effect data a b :
  same_scanner a b ->
  same_effect a b (fold_left feed_byte data a) (fold_left feed_byte data b).
Proof.
  revert a b. induction data as [|x data IH]; simpl; intros a b H.
  - split; [done|]. exists []. rewrite !app_nil_r. done.
  - pose proof (feed_byte_effect a b x H) as He.
    eapply same_effect_trans; [exact He|]. apply IH, He.
Qed.

Lemma observe_feed s data :
  observe (snd (feed s data)) = seen (fold_left feed_byte data (mkLoop (state s) (seq s) [] [])).
Proof. reflexivity. Qed.

(** Cutting a stream in two changes neither the scanner's state nor any
    observation of its tokens. *)
Lemma scan_feed_app s a b :
  fst (feed s (a ++ b)) = fst (feed (fst (feed s a)) b) /\
  observe (snd (feed s (a ++ b)))
    = observe (snd (feed s a)) ++ observe (snd (feed (fst (feed s a)) b)).
Proof.
  rewrite !observe_feed. unfold feed. cbn [fst snd state seq]. rewrite fold_left_app.
  set (l := fold_left feed_byte a (mkLoop (state s) (seq s) [] [])).
  destruct (fold_feed_effect b l (mkLoop (l_state l) (l_seq l) [] [])
              ltac:(split; reflexivity)) as [[H1 H2] (e & He & He')].
  rewrite H1, H2, He. split; [done|]. f_equal.
  rewrite He', (seen_mk (l_state l) (l_seq l) [] []), obs_raw_nil. reflexivity.
Qed.

Lemma feed_nil s : feed s [] = (s, []).
Proof. destruct s. reflexivity. Qed.

Lemma feed_chunks_concat s chunks :
  fst (feed_chunks s chunks) = fst (feed s (concat chunks)) /\
  observe (snd (feed_chunks s chunks)) = observe (snd (feed s (concat chunks))).
Proof.
  revert s. induction chunks as [|c cs IH]; intros s; [rewrite feed_nil; done|].
  rewrite feed_chunks_cons. cbn [fst snd concat].
  destruct (scan_feed_app s c (concat cs)) as [-> ->], (IH (fst (feed s c))) as [<- <-].
  rewrite observe_app. done.
Qed.
End Observe.

Lemma csi_raw_parse q : csi_raw (parse_csi q) = q.
Proof. unfold parse_csi. repeat case_match; reflexivity. Qed.

Lemma feed_esc_lossless l b :
  l_seq l = [27] ->
  seen token_raw (feed_esc l b) ++ l_seq (feed_esc l b) = seen token_raw l ++ l_seq l ++ [b].
Proof.
  intros H. unfold feed_esc. repeat case_match; bprop; subst.
  - rewrite seen_finish, H, app_nil_r. done.
  - rewrite seen_hold. done.
  - rewrite seen_hold. done.
  - rewrite seen_raw by apply _. rewrite <- app_assoc. done.
  - rewrite seen_abandon by apply _. simpl. rewrite app_nil_r. done.
Qed.

Lemma feed_byte_lossless l b :
  scanner_ok (l_state l) (l_seq l) ->
  seen token_raw (feed_byte l b) ++ l_seq (feed_byte l b) = seen token_raw l ++ l_seq l ++ [b].
Proof.
  intros H. unfold feed_byte. destruct (l_state l) eqn:Est; simpl in H.
  - rewrite H. case_match; bprop; subst.
    + rewrite seen_mk by apply _. unfold seen. rewrite observe_flush by apply _. done.
    + simpl. rewrite seen_raw by apply _. rewrite app_nil_r. done.
  - by apply feed_esc_lossless.
  - unfold feed_csi. repeat case_match; bprop; subst.
    + rewrite seen_finish. simpl. rewrite csi_raw_parse, app_nil_r. done.
    + rewrite seen_raw by apply _. rewrite <- app_assoc. done.
    + rewrite seen_abandon by apply _. simpl. rewrite app_nil_r. done.
    + rewrite seen_abandon by apply _. simpl. rewrite app_nil_r. done.
    + rewrite seen_hold. done.
  - unfold feed_osc. repeat case_match; bprop; subst.
    + rewrite seen_finish. simpl. rewrite app_nil_r. done.
    + rewrite seen_hold. done.
    + rewrite seen_abandon by apply _. simpl. rewrite app_nil_r. done.
    + rewrite seen_abandon by apply _. simpl. rewrite app_nil_r. done.
    + rewrite seen_hold. done.
  - destruct H as (body & Hq & _). unfold feed_osc_esc. case_match; bprop; subst.
    + rewrite seen_finish. simpl. rewrite app_nil_r. done.
    + rewrite feed_esc_lossless by done. rewrite seen_raw by apply _. rewrite Hq. cbn [l_seq].
      change (27 :: 93 :: body ++ [27]) with ((27 :: 93 :: body) ++ [27]).
      rewrite removelast_last. cbn [token_raw]. rewrite <- !app_assoc. done.
Qed.

Lemma fold_feed_lossless data l :
  scanner_ok (l_state l) (l_seq l) ->
  let l' := fold_left feed_byte data l in
  seen token_raw l' ++ l_seq l' = seen token_raw l ++ l_seq l ++ data.
Proof.
  revert l. induction data as [|b data IH]; intros l H; simpl; [rewrite app_nil_r; done|].
  rewrite IH by (by apply feed_byte_ok). rewrite app_assoc, feed_byte_lossless by done.
  rewrite <- !app_assoc. done.
Qed.

Lemma feed_lossless s data :
  scanner_ok (state s) (seq s) ->
  observe token_raw (snd (feed s data)) ++ pending (fst (feed s data)) = pending s ++ data.
Proof.
  intros H. rewrite observe_feed. unfold feed, pending. cbn [fst seq].
  rewrite (fold_feed_lossless data (mkLoop (state s) (seq s) [] []) H). reflexivity.
Qed.

Lemma scanner_ok_held st q : scanner_ok st q -> blen q <= held_limit.
Proof.
  unfold held_limit. pose proof (osc_limit_bounds q) as Hq. unfold MAX_OSC, MAX_METADATA, MAX_CSI in *.
  destruct st; simpl; [intros ->; vm_compute; discriminate..|intros (body & -> & H & _)|
    intros (body & -> & H & _)|intros (body & -> & H & _)].
  - unfold MAX_CSI, MAX_METADATA in *. lia.
  - unfold MAX_METADATA in *. lia.
  - change (27 :: 93 :: body ++ [27]) with ((27 :: 93 :: body) ++ [27]).
    rewrite blen_app. pose proof (osc_limit_bounds (27 :: 93 :: body)).
    change (blen [27]) with 1. unfold MAX_OSC, MAX_METADATA in *. lia.
Qed.

(** ** Lemmas: text and complete sequences *)

Definition plain (t : bytes) : bool := negb (memb 27 t).

Lemma fold_feed_plain t raw out :
  plain t = true ->
  fold_left feed_byte t (mkLoop Ground [] raw out) = mkLoop Ground [] (raw ++ t) out.
Proof.
  unfold plain, memb. revert raw. induction t as [|b t IH]; intros raw H; cbn [fold_left].
  - rewrite app_nil_r. done.
  - cbn [existsb] in H. bprop. unfold feed_byte at 2. cbn [l_state l_seq l_raw l_out].
    replace (b =? 27) with false by lia. rewrite IH by (by apply negb_true_iff).
    rewrite <- app_assoc. done.
Qed.

Lemma fold_feed_csi_body body q raw out :
  forallb csi_body_byte body = true -> blen q + blen body <= MAX_CSI ->
  fold_left feed_byte body (mkLoop InCsi q raw out) = mkLoop InCsi (q ++ body) raw out.
Proof.
  revert q. induction body as [|b body IH]; intros q H Hl; [rewrite app_nil_r; done|].
  cbn [forallb] in H. apply andb_prop in H as [Hb H]. rewrite blen_cons in Hl. cbn [fold_left].
  assert (Hf : feed_byte (mkLoop InCsi q raw out) b = mkLoop InCsi (q ++ [b]) raw out).
  { unfold feed_byte, feed_csi, hold. cbn [l_state l_seq l_raw l_out].
    unfold csi_body_byte in Hb. bprop. rewrite H0.
    replace (b =? 27) with false by lia. replace (b =? 24) with false by lia.
    replace (b =? 26) with false by lia. cbn [orb].
    replace (MAX_CSI <? blen (q ++ [b])) with false; [done|].
    symmetry. apply Z.ltb_ge. rewrite blen_app. pose proof (blen_nonneg body).
    change (blen [b]) with 1. lia. }
  rewrite Hf, IH; [rewrite <- app_assoc; done|done|].
  rewrite blen_app. change (blen [b]) with 1. lia.
Qed.

Lemma fold_feed_csi body final raw out :
  forallb csi_body_byte body = true -> blen body <= MAX_CSI - 2 ->
  in_range 64 126 final = true ->
  fold_left feed_byte (27 :: 91 :: body ++ [final]) (mkLoop Ground [] raw out)
  = finish (mkLoop InCsi (27 :: 91 :: body) raw out)
           (TCsi (parse_csi (27 :: 91 :: body ++ [final]))).
Proof.
  intros Hb Hl Hf.
  change (27 :: 91 :: body ++ [final]) with ([27; 91] ++ body ++ [final]) at 1.
  rewrite !fold_left_app.
  change (fold_left feed_byte [27; 91] (mkLoop Ground [] raw out))
    with (mkLoop InCsi [27; 91] raw out).
  rewrite fold_feed_csi_body by (done || (change (blen [27; 91]) with 2; lia)).
  cbn [fold_left]. unfold feed_byte. cbn [l_state]. unfold feed_csi. rewrite Hf. reflexivity.
Qed.

(** ** The scanner's theorems *)

(** the scanner loses and reorders nothing: after any sequence of reads the
    tokens' bytes, followed by the bytes still held back, are the input. *)
Theorem scanner_lossless (chunks : list bytes) :
  let r := feed_chunks new chunks in
  concat (token_raw <$> snd r) ++ pending (fst r) = concat chunks.
Proof.
  cbv zeta. destruct (feed_chunks_concat token_raw new chunks) as [-> H].
  unfold observe in H. rewrite H. apply (feed_lossless new), scanner_ok_new.
Qed.

(** how the child's output is cut into reads does not matter: the scanner
    reaches the same state, finds the same control tokens, and leaves the same
    stripped bytes as on the whole stream. *)
Theorem scanner_chunking (chunks : list bytes) :
  let r := feed_chunks new chunks in
  let whole := feed new (concat chunks) in
  fst r = fst whole /\
  concat (not_raw <$> snd r) = concat (not_raw <$> snd whole) /\
  concat (strip_token <$> snd r) = concat (strip_token <$> snd whole).
Proof.
  cbv zeta. split; [|split].
  - apply (feed_chunks_concat token_raw).
  - apply (feed_chunks_concat not_raw).
  - apply (feed_chunks_concat strip_token).
Qed.

(** output is never delayed without bound: whatever the child printed, at
    most 64 KiB and three bytes are held back. *)
Theorem scanner_held_bound (chunks : list bytes) :
  blen (pending (fst (feed_chunks new chunks))) <= held_limit.
Proof. eapply scanner_ok_held, feed_chunks_ok, scanner_ok_new. Qed.

(** a complete CSI sequence of at most [MAX_CSI + 1] bytes between ordinary
    text is removed when it is one of the queries the session answers, and
    passes through unchanged otherwise; the text around it is kept. *)
Theorem strip_embedded_csi (t1 t2 body : bytes) (final : Z) :
  plain t1 = true -> plain t2 = true ->
  forallb csi_body_byte body = true -> blen body <= MAX_CSI - 2 ->
  in_range 64 126 final = true ->
  let q := 27 :: 91 :: body ++ [final] in
  strip_terminal_queries (t1 ++ q ++ t2)
  = t1 ++ (if is_stripped_query (parse_csi q) then [] else q) ++ t2.
Proof.
  intros H1 H2 Hb Hl Hf q. unfold strip_terminal_queries, feed. cbn [state seq new].
  assert (Hfold : fold_left feed_byte (t1 ++ q ++ t2) (mkLoop Ground [] [] [])
                  = mkLoop Ground [] t2 (flush_raw t1 [] ++ [TCsi (parse_csi q)])).
  { rewrite !fold_left_app, fold_feed_plain by done. unfold q.
    rewrite fold_feed_csi by done. unfold finish. rewrite fold_feed_plain by done. done. }
  rewrite Hfold. cbn [l_state l_seq l_raw l_out pending seq]. rewrite app_nil_r.
  change (concat (strip_token <$> ?x)) with (observe strip_token x).
  rewrite observe_flush, observe_app, observe_flush by apply _.
  unfold observe. simpl. rewrite csi_raw_parse, app_nil_r, <- app_assoc. done.
Qed.

Lemma strip_embedded_csi_witness :
  strip_terminal_queries (str "ab" ++ [27; 91; 63; 50; 48; 48; 52; 36; 112] ++ str "cd")
  = str "abcd".
Proof.
  refine (eq_trans (strip_embedded_csi (str "ab") (str "cd") [63; 50; 48; 48; 52; 36] 112 _ _ _ _ _) _);
    reflexivity || (vm_compute; discriminate).
Defined.

(** the strip is not idempotent: a lone ESC in front of a stripped query
    and text after it join into a new query, so bytes the strip has already
    cleaned can still carry a primary device attributes request. *)
Theorem strip_splices_query :
  let child := [27; 27; 91; 99; 91; 99] in
  strip_terminal_queries child = [27; 91; 99] /\
  is_da1_query (parse_csi (strip_terminal_queries child)) = true /\
  strip_terminal_queries (strip_terminal_queries child) = [].
Proof. vm_compute. repeat split. Qed.
