(* ===== verification/Budget.v ===== *)
(** The client-input budget of [crates/pty/src/daemon/input_budget.rs]: reader
    threads hold the bytes of a DATA packet before handing it on, wait while
    the budget is spent, and release on drop.  The threads interleave at the
    granularity of the mutex: a check under the lock, a decrement under the
    lock, and the [notify_all] that follows it outside the lock. *)
From S2P Require Import Prelude.

Definition INPUT_BUDGET : Z := Z.shiftl 1 20.

(** The shared counter. *)
Record InputBudget : Type := mkBudget { limit : Z; pending : Z }.

Definition new (limit : Z) : InputBudget := mkBudget limit 0.

(** The negation of the [while] condition of [InputBudget::hold]. *)
Definition fits (b : InputBudget) (bytes : Z) : bool :=
  negb ((0 <? pending b) && (limit b <? pending b + bytes)).

(** One pass of [hold] under the lock: the hold is granted, or the thread
    waits on the condition variable. *)
Definition try_hold (b : InputBudget) (bytes : Z) : option InputBudget :=
  if fits b bytes then Some (mkBudget (limit b) (pending b + bytes)) else None.

(** [InputHold::drop], up to the notification. *)
Definition release (b : InputBudget) (bytes : Z) : InputBudget :=
  mkBudget (limit b) (pending b - bytes).

(** The daemon's threads: the sizes of the granted holds, of the requests about
    to check the budget (new or woken), of the requests asleep on [released],
    and the drops that have decremented but not yet notified. *)
Record Threads : Type := mkThreads {
  budget : InputBudget;
  holds : list Z;
  checking : list Z;
  sleeping : list Z;
  notifying : nat
}.

Definition start (limit : Z) : Threads := mkThreads (new limit) [] [] [] 0.

(** One atomic action of some thread. *)
Inductive step : Threads -> Threads -> Prop :=
  | step_request s n : 0 < n ->
      step s (mkThreads (budget s) (holds s) (n :: checking s) (sleeping s) (notifying s))
  | step_grant s l1 n l2 b :
      checking s = l1 ++ n :: l2 -> try_hold (budget s) n = Some b ->
      step s (mkThreads b (n :: holds s) (l1 ++ l2) (sleeping s) (notifying s))
  | step_wait s l1 n l2 :
      checking s = l1 ++ n :: l2 -> try_hold (budget s) n = None ->
      step s (mkThreads (budget s) (holds s) (l1 ++ l2) (n :: sleeping s) (notifying s))
  | step_drop s l1 n l2 :
      holds s = l1 ++ n :: l2 ->
      step s (mkThreads (release (budget s) n) (l1 ++ l2) (checking s) (sleeping s)
                (S (notifying s)))
  | step_notify s k :
      notifying s = S k ->
      step s (mkThreads (budget s) (holds s) (sleeping s ++ checking s) [] k)
  | step_spurious s l1 n l2 :
      sleeping s = l1 ++ n :: l2 ->
      step s (mkThreads (budget s) (holds s) (n :: checking s) (l1 ++ l2) (notifying s)).

(** Reachability. *)
Inductive reachable (limit : Z) : Threads -> Prop :=
  | reach_start : reachable limit (start limit)
  | reach_step s s' : reachable limit s -> step s s' -> reachable limit s'.

Definition sum (l : list Z) : Z := fold_right Z.add 0 l.

(** The state a waiting thread leaves to the others: asleep only if it does
    not fit, unless a notification is on its way. *)
Definition budget_ok (lim : Z) (s : Threads) : Prop :=
  limit (budget s) = lim /\
  pending (budget s) = sum (holds s) /\
  Forall (fun n => 0 < n) (holds s ++ checking s ++ sleeping s) /\
  (sum (holds s) <= lim \/ exists n, holds s = [n]) /\
  (notifying s = O -> Forall (fun n => fits (budget s) n = false) (sleeping s)).

(** ** Lemmas *)

Lemma sum_app a b : sum (a ++ b) = sum a + sum b.
Proof. unfold sum. induction a; cbn [app fold_right]; lia. Qed.

Lemma sum_cons x l : sum (x :: l) = x + sum l.
Proof. reflexivity. Qed.

Lemma sum_pos l : Forall (fun n => 0 < n) l -> 0 <= sum l /\ (sum l = 0 -> l = []).
Proof.
  induction 1 as [|x l Hx _ [IH1 IH2]]; [split; [cbn; lia|done]|]. rewrite sum_cons. split; [lia|].
  intros. lia.
Qed.

(** A request that does not fit still does not when more is pending. *)
Lemma fits_false b n : fits b n = false <-> 0 < pending b /\ limit b < pending b + n.
Proof. unfold fits. rewrite negb_false_iff, andb_true_iff, !Z.ltb_lt. reflexivity. Qed.

Lemma fits_true b n : fits b n = true <-> pending b <= 0 \/ pending b + n <= limit b.
Proof.
  unfold fits. rewrite negb_true_iff, andb_false_iff, !Z.ltb_ge. reflexivity.
Qed.

Ltac pos_split :=
  repeat match goal with
  | H : Forall _ (_ ++ _) |- _ => apply Forall_app in H; destruct H
  | H : Forall _ (_ :: _) |- _ => apply Forall_cons in H; destruct H
  | |- Forall _ (_ ++ _) => apply Forall_app; split
  | |- Forall _ (_ :: _) => apply Forall_cons; split
  end.

(** Each action preserves the invariant. *)
Lemma grant_ok lim s l1 n l2 b :
  budget_ok lim s -> checking s = l1 ++ n :: l2 -> try_hold (budget s) n = Some b ->
  budget_ok lim (mkThreads b (n :: holds s) (l1 ++ l2) (sleeping s) (notifying s)).
Proof.
  intros (Hl & Hp & Hpos & Hs & Hw) Hc. rewrite Hc in Hpos. unfold try_hold.
  destruct (fits _ _) eqn:F; [|discriminate]. intros [= <-]. pos_split.
  unfold budget_ok; cbn [budget holds checking sleeping notifying limit pending].
  destruct (sum_pos (holds s)) as [P0 P1]; [done|]. apply fits_true in F.
  split_and!; [done|rewrite sum_cons; lia|pos_split; auto| |].
  - rewrite sum_cons. destruct F as [F|F]; [|left; lia].
    right. exists n. rewrite P1 by lia. done.
  - intros N. eapply Forall_impl; [apply Hw, N|]. intros m.
    rewrite !fits_false. cbn [limit pending]. lia.
Qed.

Lemma step_ok lim s s' : 0 <= lim -> budget_ok lim s -> step s s' -> budget_ok lim s'.
Proof.
  intros Hlim Hok Hst. destruct Hst as [s n Hn|s l1 n l2 b Hc Ht|s l1 n l2 Hc Ht|s l1 n l2 Hh|s k Hk|s l1 n l2 Hs].
  2: { eapply grant_ok; eauto. }
  all: destruct Hok as (Hl & Hp & Hpos & Hsm & Hw); unfold budget_ok;
    cbn [budget holds checking sleeping notifying limit pending release].
  - split_and!; try done. pos_split; auto.
  - rewrite Hc in Hpos. pos_split. unfold try_hold in Ht.
    destruct (fits _ _) eqn:F; [discriminate|].
    split_and!; try done; [pos_split; auto|]. intros N. constructor; auto.
  - rewrite Hh in *. pos_split.
    rewrite sum_app, sum_cons in Hp. rewrite sum_app, sum_cons in Hsm. rewrite sum_app.
    split_and!; [done|lia|pos_split; auto| |discriminate].
    left. destruct Hsm as [Hsm|[m Hm]]; [cbn beta in *; lia|].
    assert (l1 = [] /\ l2 = []) as [-> ->]; [|cbn; lia].
    destruct l1 as [|? [|]]; cbn [app] in Hm; simplify_eq; auto.
  - pos_split. split_and!; try done. pos_split; auto.
  - rewrite Hs in *. pos_split. split_and!; try done; [pos_split; auto|].
    intros N. specialize (Hw N). pos_split; auto.
Qed.

Lemma reachable_ok lim s : 0 <= lim -> reachable lim s -> budget_ok lim s.
Proof.
  intros Hlim. induction 1 as [|s s' _ IH Hst]; [|eapply step_ok; eauto].
  unfold budget_ok, start, new. cbn. split_and!; auto. 
Qed.

(** the budget accounts for exactly the bytes in its holds, and exceeds its
    limit only for one packet larger than the whole budget, held alone. *)
Theorem budget_bound (lim : Z) (s : Threads) :
  0 <= lim -> reachable lim s ->
  pending (budget s) = sum (holds s) /\
  (pending (budget s) <= lim \/ exists n, holds s = [n] /\ lim < n).
Proof.
  intros Hlim Hr. destruct (reachable_ok _ _ Hlim Hr) as (Hl & Hp & Hpos & Hs & _).
  split; [done|]. rewrite Hp. destruct (Z.le_gt_cases (sum (holds s)) lim) as [|Hgt]; [auto|].
  destruct Hs as [|[n Hn]]; [lia|]. right. exists n. split; [done|].
  rewrite Hn in Hgt. cbn in Hgt. lia.
Qed.

Lemma budget_bound_witness :
  let s := mkThreads (mkBudget 10 25) [25] [] [] 0 in
  reachable 10 s /\ pending (budget s) = sum (holds s) /\
  (pending (budget s) <= 10 \/ exists n, holds s = [n] /\ 10 < n).
Proof.
  cbv zeta.
  assert (R : reachable 10 (mkThreads (mkBudget 10 25) [25] [] [] 0)).
  { eapply (reach_step _ (mkThreads (new 10) [] [25] [] 0)).
    - eapply (reach_step _ (start 10)); [apply reach_start|].
      apply (step_request (start 10) 25). reflexivity.
    - apply (step_grant (mkThreads (new 10) [] [25] [] 0) [] 25 []); reflexivity. }
  split; [exact R|]. apply (budget_bound 10 _); [lia|exact R].
Defined.

(** no wake-up is lost: with every notification delivered, a reader asleep
    on the budget does not fit, and some hold it waits for is still out, so the
    release that comes will wake it.  Once nothing is held, no one sleeps. *)
Theorem no_lost_wakeup (lim : Z) (s : Threads) (n : Z) :
  0 <= lim -> reachable lim s -> notifying s = O -> n ∈ sleeping s ->
  try_hold (budget s) n = None /\ holds s <> [] /\ lim < sum (holds s) + n.
Proof.
  intros Hlim Hr N Hin. destruct (reachable_ok _ _ Hlim Hr) as (Hl & Hp & _ & _ & Hw).
  specialize (Hw N). rewrite Forall_forall in Hw. specialize (Hw n Hin).
  unfold try_hold. rewrite Hw. apply fits_false in Hw as [H0 H1]. rewrite Hp, Hl in *.
  split; [done|]. split; [|lia]. intros E. rewrite E in H0. cbn in H0. lia.
Qed.

Lemma no_lost_wakeup_witness :
  let s := mkThreads (mkBudget 10 6) [6] [] [5] 0 in
  try_hold (budget s) 5 = None /\ holds s <> [] /\ 10 < sum (holds s) + 5.
Proof.
  assert (R : reachable 10 (mkThreads (mkBudget 10 6) [6] [] [5] 0)).
  { eapply (reach_step _ (mkThreads (mkBudget 10 6) [6] [5] [] 0)).
    - eapply (reach_step _ (mkThreads (mkBudget 10 6) [6] [] [] 0)).
      + eapply (reach_step _ (mkThreads (new 10) [] [6] [] 0)).
        * eapply (reach_step _ (start 10)); [apply reach_start|].
          apply (step_request (start 10) 6). reflexivity.
        * apply (step_grant (mkThreads (new 10) [] [6] [] 0) [] 6 []); reflexivity.
      + apply (step_request (mkThreads (mkBudget 10 6) [6] [] [] 0) 5). reflexivity.
    - apply (step_wait (mkThreads (mkBudget 10 6) [6] [5] [] 0) [] 5 []); reflexivity. }
  apply (no_lost_wakeup 10 _ 5); [lia|exact R|reflexivity|]. left.
Defined.
