(* ===== verification/Time.v ===== *)
(** Timestamps and durations: [crates/pty-core/src/registry/time.rs] (the
    ISO-8601 form the registry writes and reads, Hinnant's civil calendar) and
    [crates/pty-core/src/duration.rs] (the compact [Ns|Nm|Nh|Nd] form).
    Text is a list of Unicode scalar values; only ASCII ones can be accepted,
    so positions agree with the byte positions of the code. *)
From S2P Require Import Prelude.

(** ** The civil calendar *)

Definition days_from_civil (y m d : Z) : Z :=
  let y := if m <=? 2 then y - 1 else y in
  let era := y / 400 in
  let yoe := y - era * 400 in
  let mp := (m + 9) mod 12 in
  let doy := (153 * mp + 2) / 5 + d - 1 in
  let doe := yoe * 365 + yoe / 4 - yoe / 100 + doy in
  era * 146097 + doe - 719468.

Definition civil_from_days (z : Z) : Z * Z * Z :=
  let z := z + 719468 in
  let era := z / 146097 in
  let doe := z - era * 146097 in
  let yoe := (doe - doe / 1460 + doe / 36524 - doe / 146096) / 365 in
  let y := yoe + era * 400 in
  let doy := doe - (365 * yoe + yoe / 4 - yoe / 100) in
  let mp := (5 * doy + 2) / 153 in
  let d := doy - (153 * mp + 2) / 5 + 1 in
  let m := if mp <? 10 then mp + 3 else mp - 9 in
  (if m <=? 2 then y + 1 else y, m, d).

(** ** Formatting *)

(** [{n:0w$}]: at least [w] characters, zeros after a sign. *)
Definition pad (w : nat) (n : Z) : bytes :=
  let s := dec_nat (Z.abs n) in
  if n <? 0 then 45 :: repeat 48 (w - 1 - length s) ++ s else repeat 48 (w - length s) ++ s.

Definition iso8601_from_epoch_ms (ms : Z) : bytes :=
  let days := ms / 86400000 in
  let rem := ms mod 86400000 in
  let '(y, m, d) := civil_from_days days in
  let hh := rem / 3600000 in
  let mm := (rem / 60000) mod 60 in
  let ss := (rem / 1000) mod 60 in
  let mmm := rem mod 1000 in
  pad 4 y ++ [45] ++ pad 2 m ++ [45] ++ pad 2 d ++ [84]
  ++ pad 2 hh ++ [58] ++ pad 2 mm ++ [58] ++ pad 2 ss ++ [46] ++ pad 3 mmm ++ [90].

(** ** Parsing *)

(** The helper [num]: [len] digits at [from]. *)
Definition num (b : bytes) (from len : nat) : option Z :=
  if Nat.leb (from + len) (length b) then digits_value 0 (take len (drop from b)) else None.

Definition is_at (b : bytes) (i : nat) (c : Z) : bool :=
  match b !! i with Some x => x =? c | None => false end.

Definition guard (c : bool) : option unit := if c then Some tt else None.

(** The fraction after the dot at [pos]: its first three digits, padded with
    zeros on the right, and the position after its digits. *)
Definition fraction (b : bytes) (pos : nat) : option (Z * nat) :=
  let frac := fst (span is_ascii_digit (drop (S pos) b)) in
  match frac with
  | [] => None
  | _ =>
      let scaled := frac ++ repeat 48 (3 - length frac) in
      let? milli := digits_value 0 (take 3 scaled) in
      Some (milli, (S pos + length frac)%nat)
  end.

(** The time after the [T] at position 10: milliseconds of the day and the
    position reached. *)
Definition clock (b : bytes) : option (Z * nat) :=
  let? hour := num b 11 2 in
  let? _u := guard (is_at b 13 58) in
  let? minute := num b 14 2 in
  let? r := (if is_at b 16 58 then
               let? second := num b 17 2 in
               if is_at b 19 46 then
                 let? f := fraction b 19 in Some (second, fst f, snd f)
               else Some (second, 0, 19%nat)
             else Some (0, 0, 16%nat)) in
  let '(second, milli, pos) := r in
  let? _u := guard (negb ((24 <? hour) || (59 <? minute) || (59 <? second))) in
  Some (hour * 3600000 + minute * 60000 + second * 1000 + milli, pos).

(** The zone at [pos]: nothing, [Z], or a signed offset, to the end. *)
Definition zone (b : bytes) (pos : nat) : option Z :=
  match b !! pos with
  | None => Some 0
  | Some c =>
      if c =? 90 then (let? _u := guard (Nat.eqb (S pos) (length b)) in Some 0)
      else if (c =? 43) || (c =? 45) then
        let? oh := num b (pos + 1) 2 in
        let? _u := guard (is_at b (pos + 3) 58) in
        let? om := num b (pos + 4) 2 in
        let? _u := guard (Nat.eqb (pos + 6) (length b)) in
        let offset_ms := (oh * 60 + om) * 60000 in
        Some (if c =? 43 then - offset_ms else offset_ms)
      else None
  end.

Definition parse_iso8601_ms (b : bytes) : option Z :=
  let? year := num b 0 4 in
  let? _u := guard (is_at b 4 45) in
  let? month := num b 5 2 in
  let? _u := guard (is_at b 7 45) in
  let? day := num b 8 2 in
  let? _u := guard (in_range 1 12 month && in_range 1 31 day) in
  let? t := (if is_at b 10 84 then clock b else Some (0, 10%nat)) in
  let? offset_ms := zone b (snd t) in
  Some (days_from_civil year month day * 86400000 + fst t + offset_ms).

(** ** Durations *)

(** [char::is_whitespace] (Unicode White_Space), which [str::trim] uses. *)
Definition is_trim_space (c : Z) : bool :=
  in_range 9 13 c || (c =? 32) || (c =? 133) || (c =? 160) || (c =? 5760)
  || in_range 8192 8202 c || (c =? 8232) || (c =? 8233) || (c =? 8239) || (c =? 8287)
  || (c =? 12288).

Definition trim (p : Z -> bool) (s : bytes) : bytes :=
  rev (snd (span p (rev (snd (span p s))))).

Definition unit_ms (u : Z) : option Z :=
  if u =? 115 then Some 1000
  else if u =? 109 then Some (60 * 1000)
  else if u =? 104 then Some (60 * 60 * 1000)
  else if u =? 100 then Some (24 * 60 * 60 * 1000)
  else None.

(** [i64::checked_mul] of non-negative factors. *)
Definition checked_mul (a b : Z) : option Z :=
  if a * b <=? I64_MAX then Some (a * b) else None.

Definition parse_duration (input : bytes) : option Z :=
  let '(digits, rest) := span is_ascii_digit (trim is_trim_space input) in
  match digits with
  | [] => None
  | _ =>
      match snd (span is_ascii_whitespace rest) with
      | [u] =>
          let? ms := unit_ms (to_ascii_lowercase u) in
          let? n := digits_value 0 digits in
          let? _u := guard (n <=? I64_MAX) in
          checked_mul n ms
      | _ => None
      end
  end.

Definition format_duration (ms : Z) : bytes :=
  let seconds := Z.max (Z.quot ms 1000) 0 in
  if seconds <? 60 then dec seconds ++ str "s" else
  let minutes := seconds / 60 in
  if minutes <? 60 then
    let s := seconds mod 60 in
    if s =? 0 then dec minutes ++ str "m" else dec minutes ++ str "m" ++ dec s ++ str "s"
  else
  let hours := minutes / 60 in
  if hours <? 24 then
    let m := minutes mod 60 in
    if m =? 0 then dec hours ++ str "h" else dec hours ++ str "h" ++ dec m ++ str "m"
  else
  let days := hours / 24 in
  let h := hours mod 24 in
  if h =? 0 then dec days ++ str "d" else dec days ++ str "d" ++ dec h ++ str "h".

(** ** Calendar lemmas *)

(** The day of a 400-year era determines a year of the era and a day of that
    year within bounds. *)
Lemma yoe_bound doe :
  0 <= doe <= 146096 ->
  0 <= (doe - doe / 1460 + doe / 36524 - doe / 146096) / 365 <= 399.
Proof. intros. Z.to_euclidean_division_equations. lia. Qed.

Lemma doy_bound doe :
  0 <= doe <= 146096 ->
  let yoe := (doe - doe / 1460 + doe / 36524 - doe / 146096) / 365 in
  0 <= doe - (365 * yoe + yoe / 4 - yoe / 100) <= 365.
Proof.
  intros H. cbv zeta.
  assert (H2 : doe / 36524 = 0 \/ doe / 36524 = 1 \/ doe / 36524 = 2 \/ doe / 36524 = 3
               \/ doe / 36524 = 4) by (Z.to_euclidean_division_equations; lia).
  assert (H3 : doe / 146096 = 0 \/ doe / 146096 = 1)
    by (Z.to_euclidean_division_equations; lia).
  pose proof (yoe_bound doe H) as Hy.
  set (yoe := (doe - doe / 1460 + doe / 36524 - doe / 146096) / 365) in *.
  assert (Hd : 365 * yoe <= doe - doe / 1460 + doe / 36524 - doe / 146096 < 365 * yoe + 365).
  { unfold yoe. Z.to_euclidean_division_equations; lia. }
  clearbody yoe.
  assert (H4 : yoe / 100 = 0 \/ yoe / 100 = 1 \/ yoe / 100 = 2 \/ yoe / 100 = 3)
    by (Z.to_euclidean_division_equations; lia).
  destruct H3 as [H3|H3]; rewrite H3 in Hd.
  2: { assert (doe = 146096) by (Z.to_euclidean_division_equations; lia). subst.
       Z.to_euclidean_division_equations; lia. }
  destruct H2 as [H2|[H2|[H2|[H2|H2]]]]; rewrite H2 in Hd;
    destruct H4 as [H4|[H4|[H4|H4]]]; rewrite H4;
    Z.to_euclidean_division_equations; lia.
Qed.

(** Month and day of a day of the (March-based) year. *)
Lemma month_day_bound doy :
  0 <= doy <= 365 ->
  let mp := (5 * doy + 2) / 153 in
  0 <= mp <= 11 /\ 1 <= doy - (153 * mp + 2) / 5 + 1 <= 31.
Proof. intros H. cbv zeta. Z.to_euclidean_division_equations. lia. Qed.

Lemma era_bound z : 0 <= z - z / 146097 * 146097 <= 146096.
Proof. Z.to_euclidean_division_equations. lia. Qed.

(** The parts that [civil_from_days] computes, and the round trip. *)
Lemma civil_spec z y m d :
  civil_from_days z = (y, m, d) ->
  days_from_civil y m d = z /\ 1 <= m <= 12 /\ 1 <= d <= 31.
Proof.
  unfold civil_from_days, days_from_civil. cbv zeta.
  set (w := z + 719468). pose proof (era_bound w) as Hdoe.
  set (era := w / 146097) in *. set (doe := w - era * 146097) in *.
  pose proof (yoe_bound doe Hdoe) as Hyoe. pose proof (doy_bound doe Hdoe) as Hdoy.
  cbv zeta in Hdoy. set (yoe := (doe - doe / 1460 + doe / 36524 - doe / 146096) / 365) in *.
  set (doy := doe - (365 * yoe + yoe / 4 - yoe / 100)) in *.
  pose proof (month_day_bound doy Hdoy) as [Hmp Hd]. set (mp := (5 * doy + 2) / 153) in *.
  assert (Hdoy2 : doe = yoe * 365 + yoe / 4 - yoe / 100 + doy) by (unfold doy; lia).
  assert (Hw : z = era * 146097 + doe - 719468) by (unfold doe, w; lia).
  clearbody mp doy yoe doe era. intros [= <- <- <-].
  set (m := if mp <? 10 then mp + 3 else mp - 9).
  assert (Hm : 1 <= m <= 12 /\ (m + 9) mod 12 = mp /\ (m <=? 2) = negb (mp <? 10)).
  { unfold m. destruct (mp <? 10) eqn:E; bprop; cbn [negb]; rewrite ?Z.leb_gt, ?Z.leb_le;
      Z.to_euclidean_division_equations; lia. }
  destruct Hm as (Hm & Hmod & Hle). rewrite Hmod. clearbody m.
  assert (Hy : (if m <=? 2 then (if m <=? 2 then yoe + era * 400 + 1 else yoe + era * 400) - 1
                else if m <=? 2 then yoe + era * 400 + 1 else yoe + era * 400)
               = yoe + era * 400) by (destruct (m <=? 2); lia).
  rewrite Hy. replace ((yoe + era * 400) / 400) with era
    by (rewrite Z.div_add by lia; rewrite (Z.div_small yoe) by lia; lia).
  split; [|lia]. replace (yoe + era * 400 - era * 400) with yoe by lia. lia.
Qed.

(** ** Fixed-width decimals *)

Definition digit (p n : Z) : Z := 48 + (n / p) mod 10.

Definition d2 (n : Z) : bytes := [digit 10 n; digit 1 n].
Definition d3 (n : Z) : bytes := digit 100 n :: d2 n.
Definition d4 (n : Z) : bytes := digit 1000 n :: d3 n.

Lemma pad_check :
  forallb (fun n => beq (pad 4 n) (d4 n)) (seqZ 0 10000) = true /\
  forallb (fun n => beq (pad 3 n) (d3 n)) (seqZ 0 1000) = true /\
  forallb (fun n => beq (pad 2 n) (d2 n)) (seqZ 0 100) = true.
Proof. vm_compute. auto. Qed.

Lemma forallb_seqZ (f : Z -> bool) hi n :
  forallb f (seqZ 0 hi) = true -> 0 <= n < hi -> f n = true.
Proof.
  rewrite forallb_forall. intros H Hn. apply H, list_elem_of_In, elem_of_seqZ. lia.
Qed.

Lemma pad_fixed n :
  (0 <= n < 10000 -> pad 4 n = d4 n) /\ (0 <= n < 1000 -> pad 3 n = d3 n) /\
  (0 <= n < 100 -> pad 2 n = d2 n).
Proof.
  destruct pad_check as (H4 & H3 & H2).
  split_and!; intros H; apply beq_eq;
    [ apply (forallb_seqZ (fun n => beq (pad 4 n) (d4 n)) _ _ H4 H)
    | apply (forallb_seqZ (fun n => beq (pad 3 n) (d3 n)) _ _ H3 H)
    | apply (forallb_seqZ (fun n => beq (pad 2 n) (d2 n)) _ _ H2 H) ].
Qed.

Lemma digit_is_digit p n : is_ascii_digit (digit p n) = true.
Proof.
  unfold is_ascii_digit, in_range, digit. pose proof (Z.mod_pos_bound (n / p) 10).
  apply andb_true_iff. rewrite !Z.leb_le. lia.
Qed.

Lemma digits_value_fixed n :
  (0 <= n < 10000 -> digits_value 0 (d4 n) = Some n) /\
  (0 <= n < 1000 -> digits_value 0 (d3 n) = Some n) /\
  (0 <= n < 100 -> digits_value 0 (d2 n) = Some n).
Proof.
  unfold d4, d3, d2.
  split_and!; intros H; cbn [digits_value]; rewrite !digit_is_digit; f_equal; unfold digit;
    Z.to_euclidean_division_equations; lia.
Qed.

(** [num] on a text whose piece at [from] is known. *)
Lemma num_at a s r v : digits_value 0 s = Some v -> num (a ++ s ++ r) (length a) (length s) = Some v.
Proof.
  intros H. unfold num. rewrite !length_app. replace (Nat.leb _ _) with true by (symmetry; apply Nat.leb_le; lia).
  rewrite drop_app_length, take_app_length. done.
Qed.

(** The text of a timestamp parses back to its fields. *)
Lemma parse_fields y m d hh mm ss mmm :
  0 <= y < 10000 -> 1 <= m <= 12 -> 1 <= d <= 31 -> 0 <= hh < 24 -> 0 <= mm < 60 ->
  0 <= ss < 60 -> 0 <= mmm < 1000 ->
  parse_iso8601_ms
    (d4 y ++ [45] ++ d2 m ++ [45] ++ d2 d ++ [84] ++ d2 hh ++ [58] ++ d2 mm ++ [58]
     ++ d2 ss ++ [46] ++ d3 mmm ++ [90])
  = Some (days_from_civil y m d * 86400000
          + (hh * 3600000 + mm * 60000 + ss * 1000 + mmm) + 0).
Proof.
  intros Hy Hm Hd Hhh Hmm Hss Hms.
  pose proof (fun n => proj1 (digits_value_fixed n)) as V4.
  pose proof (fun n => proj1 (proj2 (digits_value_fixed n))) as V3.
  pose proof (fun n => proj2 (proj2 (digits_value_fixed n))) as V2.
  set (b := d4 y ++ _). unfold parse_iso8601_ms, clock.
  assert (Hf : fraction b 19 = Some (mmm, 23%nat)).
  { unfold fraction, b, d4, d3, d2. cbn [drop app span]. rewrite !digit_is_digit.
    change (is_ascii_digit 90) with false. cbn [fst length Nat.sub repeat app take Nat.add].
    change [digit 100 mmm; digit 10 mmm; digit 1 mmm] with (d3 mmm). rewrite V3 by lia. done. }
  assert (Hz : zone b 23 = Some 0) by reflexivity.
  change (num b 0 4) with (digits_value 0 (d4 y)). change (num b 5 2) with (digits_value 0 (d2 m)).
  change (num b 8 2) with (digits_value 0 (d2 d)). change (num b 11 2) with (digits_value 0 (d2 hh)).
  change (num b 14 2) with (digits_value 0 (d2 mm)). change (num b 17 2) with (digits_value 0 (d2 ss)).
  rewrite V4, !V2, Hf by lia. cbn [mbind option_bind fst snd].
  change (is_at b 4 45) with true. change (is_at b 7 45) with true. change (is_at b 10 84) with true.
  change (is_at b 13 58) with true. change (is_at b 16 58) with true. change (is_at b 19 46) with true.
  cbn [guard mbind option_bind fst snd]. unfold in_range.
  replace (_ && _) with true by (symmetry; rewrite !andb_true_iff, !Z.leb_le; lia).
  replace (negb _) with true by (symmetry; rewrite negb_true_iff, !orb_false_iff, !Z.ltb_ge; lia).
  cbn [guard mbind option_bind fst snd]. rewrite Hz. reflexivity.
Qed.

Lemma civil_year z :
  -719528 <= z <= 2932896 -> 0 <= fst (fst (civil_from_days z)) <= 9999.
Proof.
  intros Hz. unfold civil_from_days. cbv zeta. cbn [fst].
  set (w := z + 719468). assert (Hw : -60 <= w <= 3652364) by (unfold w; lia).
  pose proof (era_bound w) as Hdoe.
  assert (He : -1 <= w / 146097 <= 24) by (Z.to_euclidean_division_equations; lia).
  set (era := w / 146097) in *. set (doe := w - era * 146097) in *.
  pose proof (yoe_bound doe Hdoe) as Hyoe. pose proof (doy_bound doe Hdoe) as Hdoy.
  cbv zeta in Hdoy.
  assert (Hlast : era = -1 -> 146037 <= doe) by (unfold doe; lia).
  assert (Hend : era = 24 -> doe <= 146036) by (unfold doe; lia).
  set (yoe := (doe - doe / 1460 + doe / 36524 - doe / 146096) / 365) in *.
  assert (Hy399 : 146037 <= doe -> yoe = 399)
    by (unfold yoe; Z.to_euclidean_division_equations; lia).
  clearbody yoe doe era. set (doy := doe - (365 * yoe + yoe / 4 - yoe / 100)) in *.
  assert (Hj : yoe = 399 -> doy = doe - 145731) by (intros ->; unfold doy; reflexivity).
  assert (Hmp : 306 <= doy <-> 10 <= (5 * doy + 2) / 153)
    by (clearbody doy; Z.to_euclidean_division_equations; lia).
  clearbody doy. set (mp := (5 * doy + 2) / 153) in *.
  assert (0 <= mp <= 11) by (unfold mp; Z.to_euclidean_division_equations; lia). clearbody mp.
  destruct (mp <? 10) eqn:E; bprop;
    [replace (mp + 3 <=? 2) with false by (symmetry; apply Z.leb_gt; lia)
    |replace (mp - 9 <=? 2) with true by (symmetry; apply Z.leb_le; lia)].
  - destruct (Z.eq_dec era (-1)); lia.
  - destruct (Z.eq_dec era 24); [|lia]. destruct (Z.eq_dec yoe 399); lia.
Qed.

Lemma digits_value_range l : forall acc v,
  0 <= acc -> digits_value acc l = Some v -> 0 <= v.
Proof.
  induction l as [|c l IH]; intros acc v Ha; cbn [digits_value]; [intros [= <-]; done|].
  destruct (is_ascii_digit c) eqn:E; [|done]. apply IH.
  unfold is_ascii_digit, in_range in E. bprop. lia.
Qed.

(** ** The theorems *)

(** a timestamp of the years 0 to 9999 survives being written to a record and
    read back, to the millisecond. *)
Theorem iso8601_roundtrip (ms : Z) :
  -62167219200000 <= ms <= 253402300799999 ->
  parse_iso8601_ms (iso8601_from_epoch_ms ms) = Some ms.
Proof.
  intros H. unfold iso8601_from_epoch_ms.
  destruct (civil_from_days (ms / 86400000)) as [[y m] d] eqn:E.
  destruct (civil_spec _ _ _ _ E) as (Hz & Hm & Hd).
  pose proof (civil_year (ms / 86400000)) as Hy. rewrite E in Hy. cbn [fst] in Hy.
  assert (Hy' : 0 <= y <= 9999) by (apply Hy; Z.to_euclidean_division_equations; lia).
  set (rem := ms mod 86400000). assert (Hr : 0 <= rem < 86400000)
    by (apply Z.mod_pos_bound; lia).
  rewrite (proj1 (pad_fixed y)) by lia.
  rewrite !(proj2 (proj2 (pad_fixed _))), (proj1 (proj2 (pad_fixed _)))
    by (clearbody rem; Z.to_euclidean_division_equations; lia).
  rewrite parse_fields by (clearbody rem; Z.to_euclidean_division_equations; lia).
  rewrite Hz. f_equal. unfold rem in *. Z.to_euclidean_division_equations. lia.
Qed.

Lemma iso8601_roundtrip_witness :
  parse_iso8601_ms (iso8601_from_epoch_ms 1775384103123) = Some 1775384103123.
Proof. apply (iso8601_roundtrip 1775384103123). lia. Defined.

(** an accepted duration is a multiple of a second that fits [i64]: an
    overflowing number of days is refused, never wrapped. *)
Theorem parse_duration_bounds (input : bytes) (ms : Z) :
  parse_duration input = Some ms -> 0 <= ms <= I64_MAX /\ (1000 | ms).
Proof.
  unfold parse_duration. destruct (span _ _) as [digits rest].
  destruct digits as [|c digits]; [done|]. destruct (snd (span _ rest)) as [|u [|? ?]]; try done.
  destruct (unit_ms _) as [k|] eqn:Hk; cbn [mbind option_bind]; [|done].
  destruct (digits_value 0 (c :: digits)) as [n|] eqn:Hn; cbn [mbind option_bind]; [|done].
  apply digits_value_range in Hn; [|lia]. unfold guard, checked_mul.
  destruct (n <=? I64_MAX); cbn [mbind option_bind]; [|done].
  destruct (n * k <=? I64_MAX) eqn:E; [|done]. intros [= <-]. bprop.
  unfold unit_ms in Hk.
  assert (Hkk : exists j, 0 < j /\ k = j * 1000).
  { destruct (_ =? 115); [injection Hk as <-; exists 1; lia|].
    destruct (_ =? 109); [injection Hk as <-; exists 60; lia|].
    destruct (_ =? 104); [injection Hk as <-; exists 3600; lia|].
    destruct (_ =? 100); [injection Hk as <-; exists 86400; lia|done]. }
  destruct Hkk as (j & Hj & ->). split; [split; [|done]; nia|].
  exists (n * j). lia.
Qed.

Lemma parse_duration_bounds_witness :
  parse_duration (str " 7D ") = Some 604800000 /\ 0 <= 604800000 <= I64_MAX /\ (1000 | 604800000).
Proof.
  split; [reflexivity|]. apply (parse_duration_bounds (str " 7D ")). reflexivity.
Defined.
