(* ===== verification/Json.v ===== *)
(** JSON values as [serde_json] holds them (with [preserve_order]) and the
    insertion-ordered maps of [indexmap], on which the registry's records are
    built.  The text form of a value is [serde_json]'s and is not modelled. *)
From S2P Require Import Prelude.

(** ** Insertion-ordered maps *)

Abbreviation IndexMap A := (list (bytes * A)).

Fixpoint mget {A} (k : bytes) (m : IndexMap A) : option A :=
  match m with
  | [] => None
  | (k', v) :: m' => if beq k k' then Some v else mget k m'
  end.

Definition contains_key {A} (k : bytes) (m : IndexMap A) : bool :=
  match mget k m with Some _ => true | None => false end.

(** [IndexMap::insert]: an existing key keeps its position, a new one is last. *)
Fixpoint minsert {A} (k : bytes) (v : A) (m : IndexMap A) : IndexMap A :=
  match m with
  | [] => [(k, v)]
  | (k', v') :: m' => if beq k k' then (k', v) :: m' else (k', v') :: minsert k v m'
  end.

(** [IndexMap::shift_remove]. *)
Fixpoint shift_remove {A} (k : bytes) (m : IndexMap A) : IndexMap A :=
  match m with
  | [] => []
  | (k', v') :: m' => if beq k k' then m' else (k', v') :: shift_remove k m'
  end.

Definition mkeys {A} (m : IndexMap A) : list bytes := fst <$> m.

(** [IndexMap]'s equality ignores the order of the entries. *)
Definition map_eqb {A} (eqb : A -> A -> bool) (m1 m2 : IndexMap A) : bool :=
  Nat.eqb (length m1) (length m2) &&
  forallb (fun kv => match mget (fst kv) m2 with
                     | Some w => eqb (snd kv) w
                     | None => false
                     end) m1.

(** ** Values *)

(** A number is an integer or an [f64], held by its bit pattern. *)
Inductive Num : Type :=
  | NInt (z : Z)
  | NFloat (bits : Z).

#[warnings="-register-all"]
Inductive Value : Type :=
  | VNull
  | VBool (b : bool)
  | VNum (n : Num)
  | VStr (s : bytes)
  | VArr (l : list Value)
  | VObj (m : IndexMap Value).

(** IEEE equality of bit patterns that are not NaN: the two zeros are equal. *)
Definition is_zero_bits (b : Z) : bool := (b =? 0) || (b =? Z.shiftl 1 63).
Definition num_eqb (a b : Num) : bool :=
  match a, b with
  | NInt x, NInt y => x =? y
  | NFloat x, NFloat y => (x =? y) || (is_zero_bits x && is_zero_bits y)
  | _, _ => false
  end.

(** [Value]'s equality; objects compare as maps. *)
Fixpoint value_eqb (a b : Value) : bool :=
  match a, b with
  | VNull, VNull => true
  | VBool x, VBool y => Bool.eqb x y
  | VNum x, VNum y => num_eqb x y
  | VStr x, VStr y => beq x y
  | VArr x, VArr y =>
      (fix go (x y : list Value) : bool :=
         match x, y with
         | [], [] => true
         | u :: x', w :: y' => value_eqb u w && go x' y'
         | _, _ => false
         end) x y
  | VObj x, VObj y =>
      Nat.eqb (length x) (length y) &&
      (fix go (x : IndexMap Value) : bool :=
         match x with
         | [] => true
         | (k, u) :: x' =>
             match mget k y with Some w => value_eqb u w | None => false end && go x'
         end) x
  | _, _ => false
  end.

(** [Value::get], [Value::as_str]. *)
Definition vget (k : bytes) (v : Value) : option Value :=
  match v with VObj m => mget k m | _ => None end.
Definition as_str (v : Value) : option bytes :=
  match v with VStr s => Some s | _ => None end.

(** ** Encoding and decoding of field types *)

Definition enc_int (z : Z) : Value := VNum (NInt z).
Definition enc_strs (l : list bytes) : Value := VArr (VStr <$> l).
Definition enc_map (m : IndexMap bytes) : Value := VObj (prod_map id VStr <$> m).

Definition dec_bool (v : Value) : option bool :=
  match v with VBool b => Some b | _ => None end.
(** An integer type with range [lo..=hi]; a float is refused. *)
Definition dec_int (lo hi : Z) (v : Value) : option Z :=
  match v with VNum (NInt z) => if in_range lo hi z then Some z else None | _ => None end.
Fixpoint dec_strs_list (l : list Value) : option (list bytes) :=
  match l with
  | [] => Some []
  | v :: l' => let? s := as_str v in let? r := dec_strs_list l' in Some (s :: r)
  end.
Definition dec_strs (v : Value) : option (list bytes) :=
  match v with VArr l => dec_strs_list l | _ => None end.
Fixpoint dec_map_list (m : IndexMap Value) : option (IndexMap bytes) :=
  match m with
  | [] => Some []
  | (k, v) :: m' => let? s := as_str v in let? r := dec_map_list m' in Some ((k, s) :: r)
  end.
Definition dec_map (v : Value) : option (IndexMap bytes) :=
  match v with VObj m => dec_map_list m | _ => None end.

(** [#[serde(default)] field: Option<T>]: missing or null is [None]. *)
Definition opt_field {A} (dec : Value -> option A) (k : bytes) (m : IndexMap Value)
  : option (option A) :=
  match mget k m with
  | None | Some VNull => Some None
  | Some v => let? x := dec v in Some (Some x)
  end.

(** [#[serde(default)] field: T]: only a missing field takes the default. *)
Definition def_field {A} (dec : Value -> option A) (default : A) (k : bytes)
  (m : IndexMap Value) : option A :=
  match mget k m with
  | None => Some default
  | Some v => dec v
  end.

(** ** Lemmas on maps *)

Lemma beq_neq a b : beq a b = false <-> a <> b.
Proof.
  split.
  - intros H E. rewrite (proj2 (beq_eq a b) E) in H. discriminate.
  - intros H. destruct (beq a b) eqn:E; [|done]. apply beq_eq in E. done.
Qed.

(** Case on an equality test of keys. *)
Ltac key_case k k' :=
  let E := fresh "E" in
  destruct (beq k k') eqn:E;
    [apply beq_eq in E; subst k' | apply beq_neq in E].

Lemma mget_minsert {A} k k' (v : A) m :
  mget k (minsert k' v m) = if beq k k' then Some v else mget k m.
Proof.
  induction m as [|[k0 v0] m IH]; cbn [minsert mget]; [reflexivity|].
  destruct (beq k' k0) eqn:E0.
  - apply beq_eq in E0. subst. cbn [mget]. destruct (beq k k0); reflexivity.
  - cbn [mget]. rewrite IH. destruct (beq k k0) eqn:E1; [|reflexivity].
    apply beq_eq in E1. subst. rewrite (proj2 (beq_neq k0 k')); [done|].
    apply beq_neq in E0. congruence.
Qed.

Lemma mget_minsert_eq {A} k (v : A) m : mget k (minsert k v m) = Some v.
Proof. rewrite mget_minsert, beq_refl. done. Qed.

Lemma mget_minsert_ne {A} k k' (v : A) m : k <> k' -> mget k (minsert k' v m) = mget k m.
Proof. intros H. rewrite mget_minsert, (proj2 (beq_neq _ _) H). done. Qed.

Lemma mget_None {A} k (m : IndexMap A) : mget k m = None <-> k ∉ mkeys m.
Proof.
  induction m as [|[k0 v0] m IH]; cbn [mget mkeys fmap list_fmap fst].
  - split; [intros _; apply not_elem_of_nil|done].
  - key_case k k0.
    + split; [done|]. intros H. destruct H. left.
    + rewrite IH. unfold mkeys. rewrite not_elem_of_cons. tauto.
Qed.

Lemma mget_Some_in {A} k (v : A) m : mget k m = Some v -> (k, v) ∈ m.
Proof.
  induction m as [|[k0 v0] m IH]; cbn [mget]; [done|].
  key_case k k0; [intros [= ->]; left|intros H; right; auto].
Qed.

Lemma in_mget_Some {A} k (v : A) m : NoDup (mkeys m) -> (k, v) ∈ m -> mget k m = Some v.
Proof.
  induction m as [|[k0 v0] m IH]; cbn [mget mkeys fmap list_fmap fst]; intros Hd Hin.
  - apply not_elem_of_nil in Hin. done.
  - apply NoDup_cons in Hd as [Hn Hd]. apply elem_of_cons in Hin as [[= -> ->]|Hin].
    + rewrite beq_refl. done.
    + key_case k k0; [|auto]. destruct Hn.
      change (fst <$> m) with (mkeys m). unfold mkeys. apply list_elem_of_fmap.
      exists (k, v). done.
Qed.

Lemma mget_shift_remove_ne {A} k k' (m : IndexMap A) :
  k <> k' -> mget k (shift_remove k' m) = mget k m.
Proof.
  intros H. induction m as [|[k0 v0] m IH]; cbn [shift_remove mget]; [done|].
  key_case k' k0.
  - rewrite (proj2 (beq_neq _ _) H). done.
  - cbn [mget]. rewrite IH. done.
Qed.

Lemma mkeys_minsert {A} k (v : A) m :
  mkeys (minsert k v m) = if contains_key k m then mkeys m else mkeys m ++ [k].
Proof.
  unfold contains_key. induction m as [|[k0 v0] m IH]; cbn [minsert mget]; [done|].
  key_case k k0; [done|]. unfold mkeys in *. cbn [fmap list_fmap fst app]. rewrite IH.
  destruct (mget k m); done.
Qed.

Lemma NoDup_minsert {A} k (v : A) m : NoDup (mkeys m) -> NoDup (mkeys (minsert k v m)).
Proof.
  intros H. rewrite mkeys_minsert. unfold contains_key.
  destruct (mget k m) eqn:E; [done|]. apply mget_None in E.
  apply NoDup_app. split_and!; [done| |apply NoDup_singleton].
  intros x Hx Hs. apply list_elem_of_singleton in Hs. subst. done.
Qed.

Lemma mkeys_shift_remove_sub {A} k (m : IndexMap A) x :
  x ∈ mkeys (shift_remove k m) -> x ∈ mkeys m.
Proof.
  induction m as [|[k0 v0] m IH]; cbn [shift_remove]; [done|].
  destruct (beq k k0); cbn [mkeys fmap list_fmap fst]; [intros; right; done|].
  intros H. apply elem_of_cons in H as [->|H]; [left|right; auto].
Qed.

Lemma NoDup_shift_remove {A} k (m : IndexMap A) :
  NoDup (mkeys m) -> NoDup (mkeys (shift_remove k m)).
Proof.
  induction m as [|[k0 v0] m IH]; cbn [shift_remove]; [done|].
  cbn [mkeys fmap list_fmap fst]. intros H. apply NoDup_cons in H as [Hn H].
  destruct (beq k k0); [done|]. cbn [mkeys fmap list_fmap fst]. apply NoDup_cons.
  split; [|auto]. intros Hx. apply Hn, (mkeys_shift_remove_sub k), Hx.
Qed.

Lemma mget_shift_remove_eq {A} k (m : IndexMap A) :
  NoDup (mkeys m) -> mget k (shift_remove k m) = None.
Proof.
  induction m as [|[k0 v0] m IH]; cbn [shift_remove mget]; [done|].
  cbn [mkeys fmap list_fmap fst]. intros H. apply NoDup_cons in H as [Hn H].
  key_case k k0.
  - apply mget_None. done.
  - cbn [mget]. rewrite (proj2 (beq_neq _ _) E). auto.
Qed.

(** ** Well-formed values *)

(** No object, at any depth, has a key twice: what [serde_json]'s map type
    guarantees of every value. *)
Fixpoint wf_value (v : Value) : Prop :=
  match v with
  | VArr l => (fix go (l : list Value) : Prop :=
                 match l with [] => True | x :: l' => wf_value x /\ go l' end) l
  | VObj m => NoDup (mkeys m) /\
              (fix go (m : IndexMap Value) : Prop :=
                 match m with [] => True | (_, x) :: m' => wf_value x /\ go m' end) m
  | _ => True
  end.

Lemma value_ind (P : Value -> Prop) :
  P VNull -> (forall b, P (VBool b)) -> (forall n, P (VNum n)) -> (forall s, P (VStr s)) ->
  (forall l, Forall P l -> P (VArr l)) -> (forall m, Forall (fun kv => P (snd kv)) m -> P (VObj m)) ->
  forall v, P v.
Proof.
  intros H1 H2 H3 H4 H5 H6. fix IH 1. intros [|b|n|s|l|m];
    [exact H1|apply H2|apply H3|apply H4| |].
  - apply H5. induction l as [|v l IHl]; constructor; [apply IH|exact IHl].
  - apply H6. induction m as [|[k v] m IHm]; constructor; [apply IH|exact IHm].
Qed.

Lemma num_eqb_refl n : num_eqb n n = true.
Proof. destruct n; cbn; rewrite Z.eqb_refl; done. Qed.

Lemma wf_value_entry m k v : wf_value (VObj m) -> (k, v) ∈ m -> wf_value v.
Proof.
  intros [_ H]. induction m as [|[k0 v0] m IH]; intros Hin; [apply not_elem_of_nil in Hin; done|].
  destruct H as [H0 H]. apply elem_of_cons in Hin as [[= -> ->]|Hin]; [done|]. auto.
Qed.

Lemma value_eqb_refl v : wf_value v -> value_eqb v v = true.
Proof.
  induction v as [|b|n|s|l IH|m IH] using value_ind; cbn [value_eqb]; intros Hw;
    [reflexivity|apply eqb_reflx|apply num_eqb_refl|apply beq_refl| |].
  - cbn [wf_value] in Hw. induction IH as [|v l Hv _ IHl]; [done|]. destruct Hw as [H1 H2].
    rewrite Hv by done. apply IHl, H2.
  - rewrite Nat.eqb_refl. cbn [andb]. destruct Hw as [Hd Hw].
    assert (Hsub : forall k v, (k, v) ∈ m -> mget k m = Some v) by (intros; apply in_mget_Some; done).
    clear Hd. revert Hsub. generalize m at 2 3. intros m0 Hsub.
    induction IH as [|[k v] m Hv _ IHm]; [done|]. destruct Hw as [H1 H2]. cbn [snd] in Hv.
    rewrite (Hsub k v) by left. rewrite Hv by done. apply IHm; [exact H2|].
    intros. apply Hsub. right. done.
Qed.
