(* ===== verification/Metadata.v ===== *)
(** The on-disk session record of [crates/pty-core/src/registry/metadata.rs]:
    its fields, its JSON object form as [serde] derives it, the publication
    order, and the in-place diff that a rewrite applies. *)
From S2P Require Import Prelude Json.

Definition SESSION_EXIT_LAST_LINES_LIMIT : Z := 200.

(** [revocation.rs]: the launcher identity a record is published under. *)
Record PublicationBinding : Type := mkBinding { operation : bytes; digest : bytes }.

Record SessionMetadata : Type := mkMeta {
  generation : option bytes;
  daemon_pid : option Z;
  daemon_start_token : option bytes;
  daemon_boot_id : option bytes;
  recovery : option Value;
  command : bytes;
  args : list bytes;
  display_command : bytes;
  cwd : bytes;
  rows : option Z;
  cols : option Z;
  ephemeral : option bool;
  created_at : bytes;
  display_name : option bytes;
  tags : option (IndexMap bytes);
  publication_binding : option PublicationBinding;
  publication_root_id : option bytes;
  publication_capability : option Z;
  isolate_env : option bool;
  extra_env : option (IndexMap bytes);
  session_env : option (IndexMap bytes);
  unset_env : option (list bytes);
  env : option (IndexMap bytes);
  exit_code : option Z;
  exited_at : option bytes;
  last_lines : option (list bytes);
  last_attach_at : option bytes;
  last_output_at_ms : option Z;
  client_generation : option Z;
  extra : IndexMap Value
}.

(** ** Field updates *)

Definition set_display_name v (m : SessionMetadata) : SessionMetadata :=
  mkMeta
    (generation m) (daemon_pid m) (daemon_start_token m) (daemon_boot_id m)
    (recovery m) (command m) (args m) (display_command m) (cwd m) (rows m) (cols m)
    (ephemeral m) (created_at m) v (tags m) (publication_binding m)
    (publication_root_id m) (publication_capability m) (isolate_env m) (extra_env m)
    (session_env m) (unset_env m) (env m) (exit_code m) (exited_at m) (last_lines m)
    (last_attach_at m) (last_output_at_ms m) (client_generation m) (extra m).

Definition set_tags v (m : SessionMetadata) : SessionMetadata :=
  mkMeta
    (generation m) (daemon_pid m) (daemon_start_token m) (daemon_boot_id m)
    (recovery m) (command m) (args m) (display_command m) (cwd m) (rows m) (cols m)
    (ephemeral m) (created_at m) (display_name m) v (publication_binding m)
    (publication_root_id m) (publication_capability m) (isolate_env m) (extra_env m)
    (session_env m) (unset_env m) (env m) (exit_code m) (exited_at m) (last_lines m)
    (last_attach_at m) (last_output_at_ms m) (client_generation m) (extra m).

Definition set_exit_code v (m : SessionMetadata) : SessionMetadata :=
  mkMeta
    (generation m) (daemon_pid m) (daemon_start_token m) (daemon_boot_id m)
    (recovery m) (command m) (args m) (display_command m) (cwd m) (rows m) (cols m)
    (ephemeral m) (created_at m) (display_name m) (tags m) (publication_binding m)
    (publication_root_id m) (publication_capability m) (isolate_env m) (extra_env m)
    (session_env m) (unset_env m) (env m) v (exited_at m) (last_lines m)
    (last_attach_at m) (last_output_at_ms m) (client_generation m) (extra m).

Definition set_exited_at v (m : SessionMetadata) : SessionMetadata :=
  mkMeta
    (generation m) (daemon_pid m) (daemon_start_token m) (daemon_boot_id m)
    (recovery m) (command m) (args m) (display_command m) (cwd m) (rows m) (cols m)
    (ephemeral m) (created_at m) (display_name m) (tags m) (publication_binding m)
    (publication_root_id m) (publication_capability m) (isolate_env m) (extra_env m)
    (session_env m) (unset_env m) (env m) (exit_code m) v (last_lines m)
    (last_attach_at m) (last_output_at_ms m) (client_generation m) (extra m).

Definition set_last_lines v (m : SessionMetadata) : SessionMetadata :=
  mkMeta
    (generation m) (daemon_pid m) (daemon_start_token m) (daemon_boot_id m)
    (recovery m) (command m) (args m) (display_command m) (cwd m) (rows m) (cols m)
    (ephemeral m) (created_at m) (display_name m) (tags m) (publication_binding m)
    (publication_root_id m) (publication_capability m) (isolate_env m) (extra_env m)
    (session_env m) (unset_env m) (env m) (exit_code m) (exited_at m) v
    (last_attach_at m) (last_output_at_ms m) (client_generation m) (extra m).

Definition set_last_attach_at v (m : SessionMetadata) : SessionMetadata :=
  mkMeta
    (generation m) (daemon_pid m) (daemon_start_token m) (daemon_boot_id m)
    (recovery m) (command m) (args m) (display_command m) (cwd m) (rows m) (cols m)
    (ephemeral m) (created_at m) (display_name m) (tags m) (publication_binding m)
    (publication_root_id m) (publication_capability m) (isolate_env m) (extra_env m)
    (session_env m) (unset_env m) (env m) (exit_code m) (exited_at m) (last_lines m)
    v (last_output_at_ms m) (client_generation m) (extra m).

Definition set_last_output_at_ms v (m : SessionMetadata) : SessionMetadata :=
  mkMeta
    (generation m) (daemon_pid m) (daemon_start_token m) (daemon_boot_id m)
    (recovery m) (command m) (args m) (display_command m) (cwd m) (rows m) (cols m)
    (ephemeral m) (created_at m) (display_name m) (tags m) (publication_binding m)
    (publication_root_id m) (publication_capability m) (isolate_env m) (extra_env m)
    (session_env m) (unset_env m) (env m) (exit_code m) (exited_at m) (last_lines m)
    (last_attach_at m) v (client_generation m) (extra m).

Definition set_client_generation v (m : SessionMetadata) : SessionMetadata :=
  mkMeta
    (generation m) (daemon_pid m) (daemon_start_token m) (daemon_boot_id m)
    (recovery m) (command m) (args m) (display_command m) (cwd m) (rows m) (cols m)
    (ephemeral m) (created_at m) (display_name m) (tags m) (publication_binding m)
    (publication_root_id m) (publication_capability m) (isolate_env m) (extra_env m)
    (session_env m) (unset_env m) (env m) (exit_code m) (exited_at m) (last_lines m)
    (last_attach_at m) (last_output_at_ms m) v (extra m).

(** ** Reading *)

Definition has_exited (m : SessionMetadata) : bool :=
  match exited_at m with Some _ => true | None => false end.

Definition process_start_token (m : SessionMetadata) : option bytes :=
  let? r := recovery m in let? t := vget (str "processStartToken") r in as_str t.

(** The accessor [SessionMetadata::daemon_start_token]. *)
Definition exact_start_token (m : SessionMetadata) : option bytes :=
  match daemon_start_token m with
  | Some t => Some t
  | None => process_start_token m
  end.

(** ** JSON objects *)

Definition dec_i32 : Value -> option Z := dec_int (-2147483648) 2147483647.
Definition dec_u16 : Value -> option Z := dec_int 0 U16_MAX.
Definition dec_u32 : Value -> option Z := dec_int 0 U32_MAX.
Definition dec_i64 : Value -> option Z := dec_int I64_MIN I64_MAX.
Definition dec_u64 : Value -> option Z := dec_int 0 USIZE_MAX.

Definition enc_binding (b : PublicationBinding) : Value :=
  VObj [(str "operation", VStr (operation b)); (str "digest", VStr (digest b))].
(** [deny_unknown_fields]: exactly the two fields, in any order; a derived
    struct also reads from an array of its fields. *)
Definition dec_binding (v : Value) : option PublicationBinding :=
  match v with
  | VObj m =>
      if forallb (fun k => beq k (str "operation") || beq k (str "digest")) (mkeys m) then
        let? o := mget (str "operation") m in
        let? o := as_str o in
        let? d := mget (str "digest") m in
        let? d := as_str d in
        Some (mkBinding o d)
      else None
  | VArr [VStr o; VStr d] => Some (mkBinding o d)
  | _ => None
  end.

(** The fields in declaration order, [None] for a skipped one. *)
Definition typed_fields (m : SessionMetadata) : list (bytes * option Value) :=
  [
   (str "generation", VStr <$> generation m);
   (str "daemonPid", enc_int <$> daemon_pid m);
   (str "daemonStartToken", VStr <$> daemon_start_token m);
   (str "daemonBootId", VStr <$> daemon_boot_id m);
   (str "recovery", recovery m);
   (str "command", Some (VStr (command m)));
   (str "args", Some (enc_strs (args m)));
   (str "displayCommand", Some (VStr (display_command m)));
   (str "cwd", Some (VStr (cwd m)));
   (str "rows", enc_int <$> rows m);
   (str "cols", enc_int <$> cols m);
   (str "ephemeral", VBool <$> ephemeral m);
   (str "createdAt", Some (VStr (created_at m)));
   (str "displayName", VStr <$> display_name m);
   (str "tags", enc_map <$> tags m);
   (str "publicationBinding", enc_binding <$> publication_binding m);
   (str "publicationRootId", VStr <$> publication_root_id m);
   (str "publicationCapability", enc_int <$> publication_capability m);
   (str "isolateEnv", VBool <$> isolate_env m);
   (str "extraEnv", enc_map <$> extra_env m);
   (str "sessionEnv", enc_map <$> session_env m);
   (str "unsetEnv", enc_strs <$> unset_env m);
   (str "env", enc_map <$> env m);
   (str "exitCode", enc_int <$> exit_code m);
   (str "exitedAt", VStr <$> exited_at m);
   (str "lastLines", enc_strs <$> last_lines m);
   (str "lastAttachAt", VStr <$> last_attach_at m);
   (str "lastOutputAtMs", enc_int <$> last_output_at_ms m);
   (str "clientGeneration", enc_int <$> client_generation m)].

Definition known_keys : list bytes :=
  str <$> ["generation"; "daemonPid"; "daemonStartToken"; "daemonBootId"; "recovery";
    "command"; "args"; "displayCommand"; "cwd"; "rows"; "cols"; "ephemeral";
    "createdAt"; "displayName"; "tags"; "publicationBinding"; "publicationRootId";
    "publicationCapability"; "isolateEnv"; "extraEnv"; "sessionEnv"; "unsetEnv";
    "env"; "exitCode"; "exitedAt"; "lastLines"; "lastAttachAt"; "lastOutputAtMs";
    "clientGeneration"].

Definition is_known (k : bytes) : bool := existsb (beq k) known_keys.

(** The present fields only ([skip_serializing_if = "Option::is_none"]). *)
Fixpoint present (l : list (bytes * option Value)) : IndexMap Value :=
  match l with
  | [] => []
  | (k, Some v) :: l' => (k, v) :: present l'
  | (_, None) :: l' => present l'
  end.

(** [#[serde(flatten)]]: each extra entry is inserted after the fields, and an
    extra entry under a field's key overrides it. *)
Definition insert_all (more m : IndexMap Value) : IndexMap Value :=
  fold_left (fun m kv => minsert (fst kv) (snd kv) m) more m.

Definition to_map (m : SessionMetadata) : IndexMap Value :=
  insert_all (extra m) (present (typed_fields m)).

(** Every key that is no field lands in [extra]. *)
Definition unknown_entries (m : IndexMap Value) : IndexMap Value :=
  filter (fun kv => is_known (fst kv) = false) m.

Definition from_map (m : IndexMap Value) : option SessionMetadata :=
  let? x1 := opt_field as_str (str "generation") m in
  let? x2 := opt_field dec_i32 (str "daemonPid") m in
  let? x3 := opt_field as_str (str "daemonStartToken") m in
  let? x4 := opt_field as_str (str "daemonBootId") m in
  let? x5 := opt_field Some (str "recovery") m in
  let? x6 := def_field as_str [] (str "command") m in
  let? x7 := def_field dec_strs [] (str "args") m in
  let? x8 := def_field as_str [] (str "displayCommand") m in
  let? x9 := def_field as_str [] (str "cwd") m in
  let? x10 := opt_field dec_u16 (str "rows") m in
  let? x11 := opt_field dec_u16 (str "cols") m in
  let? x12 := opt_field dec_bool (str "ephemeral") m in
  let? x13 := def_field as_str [] (str "createdAt") m in
  let? x14 := opt_field as_str (str "displayName") m in
  let? x15 := opt_field dec_map (str "tags") m in
  let? x16 := opt_field dec_binding (str "publicationBinding") m in
  let? x17 := opt_field as_str (str "publicationRootId") m in
  let? x18 := opt_field dec_u32 (str "publicationCapability") m in
  let? x19 := opt_field dec_bool (str "isolateEnv") m in
  let? x20 := opt_field dec_map (str "extraEnv") m in
  let? x21 := opt_field dec_map (str "sessionEnv") m in
  let? x22 := opt_field dec_strs (str "unsetEnv") m in
  let? x23 := opt_field dec_map (str "env") m in
  let? x24 := opt_field dec_i32 (str "exitCode") m in
  let? x25 := opt_field as_str (str "exitedAt") m in
  let? x26 := opt_field dec_strs (str "lastLines") m in
  let? x27 := opt_field as_str (str "lastAttachAt") m in
  let? x28 := opt_field dec_i64 (str "lastOutputAtMs") m in
  let? x29 := opt_field dec_u64 (str "clientGeneration") m in
  Some (mkMeta
    x1 x2 x3 x4 x5 x6 x7 x8 x9 x10 x11 x12 x13 x14 x15 x16 x17 x18 x19 x20 x21 x22
    x23 x24 x25 x26 x27 x28 x29 (unknown_entries m)).

(** ** Publication *)

Definition insert_opt (k : bytes) (v : option Value) (m : IndexMap Value) : IndexMap Value :=
  match v with Some v => minsert k v m | None => m end.

(** A map or a list is written only when it is not empty. *)
Definition non_empty {A} (o : option (list A)) : option (list A) :=
  match o with Some [] => None | _ => o end.

(** [publication_map]: Node's key order and presence rules. *)
Definition publication_map (s : SessionMetadata) : IndexMap Value :=
  let m := insert_opt (str "generation") (VStr <$> generation s) [] in
  let m := insert_opt (str "daemonPid") (enc_int <$> daemon_pid s) m in
  let m := insert_opt (str "daemonStartToken") (VStr <$> daemon_start_token s) m in
  let m := insert_opt (str "daemonBootId") (VStr <$> daemon_boot_id s) m in
  let m := insert_opt (str "recovery") (recovery s) m in
  let m := minsert (str "command") (VStr (command s)) m in
  let m := minsert (str "args") (enc_strs (args s)) m in
  let m := minsert (str "displayCommand") (VStr (display_command s)) m in
  let m := minsert (str "cwd") (VStr (cwd s)) m in
  let m := insert_opt (str "rows") (enc_int <$> rows s) m in
  let m := insert_opt (str "cols") (enc_int <$> cols s) m in
  let m := minsert (str "ephemeral")
             (VBool (match ephemeral s with Some b => b | None => false end)) m in
  let m := minsert (str "createdAt") (VStr (created_at s)) m in
  let m := insert_opt (str "publicationBinding") (enc_binding <$> publication_binding s) m in
  let m := insert_opt (str "publicationRootId") (VStr <$> publication_root_id s) m in
  let m := insert_opt (str "publicationCapability") (enc_int <$> publication_capability s) m in
  let m := insert_opt (str "tags") (enc_map <$> non_empty (tags s)) m in
  let m := insert_opt (str "displayName") (VStr <$> non_empty (display_name s)) m in
  let m := if match isolate_env s with Some b => b | None => false end
           then minsert (str "isolateEnv") (VBool true) m else m in
  let m := insert_opt (str "extraEnv") (enc_map <$> non_empty (extra_env s)) m in
  let m := insert_opt (str "sessionEnv") (enc_map <$> non_empty (session_env s)) m in
  let m := insert_opt (str "unsetEnv") (enc_strs <$> non_empty (unset_env s)) m in
  let m := insert_opt (str "env") (enc_map <$> env s) m in
  let m := fold_left (fun m k => insert_opt k (mget k (to_map s)) m)
             (str <$> ["exitCode"; "exitedAt"; "lastLines"; "lastAttachAt"; "lastOutputAtMs";
                       "clientGeneration"]) m in
  insert_all (extra s) m.

(** ** The diff of a rewrite *)

(** [before.get(k) != Some(v)]. *)
Definition differs (before : IndexMap Value) (k : bytes) (v : Value) : bool :=
  match mget k before with Some w => negb (value_eqb w v) | None => true end.

Definition diff_set (before after m : IndexMap Value) : IndexMap Value :=
  fold_left (fun m kv => if differs before (fst kv) (snd kv)
                         then minsert (fst kv) (snd kv) m else m) after m.

Definition diff_remove (before after m : IndexMap Value) : IndexMap Value :=
  fold_left (fun m k => if contains_key k after then m else shift_remove k m)
    (mkeys before) m.

Definition apply_metadata_diff (before after : SessionMetadata) (m : IndexMap Value)
  : IndexMap Value :=
  let b := to_map before in
  let a := to_map after in
  diff_remove b a (diff_set b a m).

(** ** Well-formed records and their equivalence *)

Definition in_opt (lo hi : Z) (o : option Z) : Prop :=
  match o with Some z => lo <= z <= hi | None => True end.

(** What a record read from an object satisfies: integers in range, a
    [recovery] that is not null, extras under unknown, distinct keys. *)
Definition wf_meta (m : SessionMetadata) : Prop :=
  in_opt (-2147483648) 2147483647 (daemon_pid m) /\ in_opt 0 U16_MAX (rows m) /\
  in_opt 0 U16_MAX (cols m) /\ in_opt 0 U32_MAX (publication_capability m) /\
  in_opt (-2147483648) 2147483647 (exit_code m) /\
  in_opt I64_MIN I64_MAX (last_output_at_ms m) /\ in_opt 0 USIZE_MAX (client_generation m) /\
  recovery m <> Some VNull /\
  Forall (fun k => is_known k = false) (mkeys (extra m)) /\ NoDup (mkeys (extra m)).

(** Equal as JSON: by [serde_json]'s equality, which ignores key order. *)
Definition veq (a b : Value) : Prop := a = b \/ value_eqb a b = true.
Definition meq (a b : IndexMap bytes) : Prop :=
  a = b \/ map_eqb beq a b = true.

Definition oeq {A} (R : A -> A -> Prop) (a b : option A) : Prop :=
  match a, b with Some x, Some y => R x y | None, None => True | _, _ => False end.

(** Two records that carry the same facts: equal fields, maps equal up to order. *)
Record meta_equiv (p q : SessionMetadata) : Prop := mkEquiv {
  eq_generation : generation p = generation q;
  eq_daemon_pid : daemon_pid p = daemon_pid q;
  eq_daemon_start_token : daemon_start_token p = daemon_start_token q;
  eq_daemon_boot_id : daemon_boot_id p = daemon_boot_id q;
  eq_recovery : oeq veq (recovery p) (recovery q);
  eq_command : command p = command q;
  eq_args : args p = args q;
  eq_display_command : display_command p = display_command q;
  eq_cwd : cwd p = cwd q;
  eq_rows : rows p = rows q;
  eq_cols : cols p = cols q;
  eq_ephemeral : ephemeral p = ephemeral q;
  eq_created_at : created_at p = created_at q;
  eq_display_name : display_name p = display_name q;
  eq_tags : oeq meq (tags p) (tags q);
  eq_publication_binding : publication_binding p = publication_binding q;
  eq_publication_root_id : publication_root_id p = publication_root_id q;
  eq_publication_capability : publication_capability p = publication_capability q;
  eq_isolate_env : isolate_env p = isolate_env q;
  eq_extra_env : oeq meq (extra_env p) (extra_env q);
  eq_session_env : oeq meq (session_env p) (session_env q);
  eq_unset_env : unset_env p = unset_env q;
  eq_env : oeq meq (env p) (env q);
  eq_exit_code : exit_code p = exit_code q;
  eq_exited_at : exited_at p = exited_at q;
  eq_last_lines : last_lines p = last_lines q;
  eq_last_attach_at : last_attach_at p = last_attach_at q;
  eq_last_output_at_ms : last_output_at_ms p = last_output_at_ms q;
  eq_client_generation : client_generation p = client_generation q;
  eq_extra : forall k, oeq veq (mget k (extra p)) (mget k (extra q))
}.

(** ** The object form *)

Lemma mkeys_typed m : mkeys (typed_fields m) = known_keys.
Proof. reflexivity. Qed.

Lemma NoDup_known : NoDup known_keys.
Proof. apply (bool_decide_unpack _). vm_compute. exact I. Qed.

Lemma mget_present k l :
  NoDup (mkeys l) ->
  mget k (present l) = match mget k l with Some o => o | None => None end.
Proof.
  induction l as [|[k0 [v|]] l IH]; cbn [present mget mkeys fmap list_fmap fst]; intros Hd;
    [done|apply NoDup_cons in Hd as [Hn Hd] ..].
  - cbn [mget]. rewrite IH by done. destruct (beq k k0); done.
  - rewrite IH by done. key_case k k0; [|done].
    change (list_fmap _ _ fst l) with (mkeys l) in *.
    rewrite (proj2 (mget_None k l)); done.
Qed.

Lemma mkeys_present_sub l x : x ∈ mkeys (present l) -> x ∈ mkeys l.
Proof.
  induction l as [|[k0 [v|]] l IH]; cbn [present]; [done| |].
  - cbn [mkeys fmap list_fmap fst]. intros H. apply elem_of_cons in H as [->|H]; [left|right; auto].
  - intros. right. auto.
Qed.

Lemma NoDup_present l : NoDup (mkeys l) -> NoDup (mkeys (present l)).
Proof.
  induction l as [|[k0 [v|]] l IH]; cbn [present]; [done| |];
    cbn [mkeys fmap list_fmap fst]; intros Hd; apply NoDup_cons in Hd as [Hn Hd]; [|auto].
  apply NoDup_cons. split; [|auto]. intros Hx. apply Hn, mkeys_present_sub, Hx.
Qed.

Lemma NoDup_insert_all more m : NoDup (mkeys m) -> NoDup (mkeys (insert_all more m)).
Proof.
  unfold insert_all. revert m. induction more as [|[k v] more IH]; intros m Hm; [done|].
  cbn [fold_left]. apply IH, NoDup_minsert, Hm.
Qed.

Lemma mget_insert_all k more m :
  NoDup (mkeys more) ->
  mget k (insert_all more m) = match mget k more with Some v => Some v | None => mget k m end.
Proof.
  unfold insert_all. revert m. induction more as [|[k0 v0] more IH]; intros m Hd; [done|].
  cbn [mkeys fmap list_fmap fst] in Hd. apply NoDup_cons in Hd as [Hn Hd].
  cbn [fold_left fst snd mget]. rewrite IH by done. rewrite mget_minsert.
  key_case k k0; [|done]. rewrite (proj2 (mget_None k more)); done.
Qed.

Lemma NoDup_to_map m : NoDup (mkeys (to_map m)).
Proof. apply NoDup_insert_all, NoDup_present. rewrite mkeys_typed. apply NoDup_known. Qed.

(** A key's value in the object form: an extra entry wins over the field. *)
Lemma mget_to_map k m :
  NoDup (mkeys (extra m)) ->
  mget k (to_map m) =
    match mget k (extra m) with
    | Some v => Some v
    | None => match mget k (typed_fields m) with Some o => o | None => None end
    end.
Proof.
  intros Hd. unfold to_map. rewrite mget_insert_all by done.
  rewrite mget_present by (rewrite mkeys_typed; apply NoDup_known). done.
Qed.

Lemma mget_insert_all_other k more m :
  mget k more = None -> mget k (insert_all more m) = mget k m.
Proof.
  unfold insert_all. revert m. induction more as [|[k0 v0] more IH]; intros m Hk; [done|].
  cbn [mget] in Hk. destruct (beq k k0) eqn:E; [done|].
  cbn [fold_left fst snd]. rewrite IH by done. rewrite mget_minsert, E. done.
Qed.

(** The field's own value, when no extra entry aliases its key. *)
Lemma mget_to_map_typed k m :
  mget k (extra m) = None ->
  mget k (to_map m) = match mget k (typed_fields m) with Some o => o | None => None end.
Proof.
  intros Hk. unfold to_map. rewrite mget_insert_all_other by done.
  rewrite mget_present by (rewrite mkeys_typed; apply NoDup_known). done.
Qed.

(** ** The diff *)

Lemma mget_diff_set k b a m :
  NoDup (mkeys a) ->
  mget k (diff_set b a m) =
    match mget k a with
    | Some v => if differs b k v then Some v else mget k m
    | None => mget k m
    end.
Proof.
  unfold diff_set. revert m. induction a as [|[k0 v0] a IH]; intros m Hd; [done|].
  cbn [mkeys fmap list_fmap fst] in Hd. apply NoDup_cons in Hd as [Hn Hd].
  cbn [fold_left fst snd mget]. rewrite IH by done. key_case k k0.
  - rewrite (proj2 (mget_None k a)) by done. destruct (differs b k v0); [|done].
    apply mget_minsert_eq.
  - destruct (differs b k0 v0); [|done]. rewrite mget_minsert_ne by done. done.
Qed.

Lemma NoDup_diff_set b a m : NoDup (mkeys m) -> NoDup (mkeys (diff_set b a m)).
Proof.
  unfold diff_set. revert m. induction a as [|[k0 v0] a IH]; intros m Hd; [done|].
  cbn [fold_left]. apply IH. destruct (differs _ _ _); [apply NoDup_minsert|]; done.
Qed.

Definition remove_keys (l : list bytes) (a m : IndexMap Value) : IndexMap Value :=
  fold_left (fun m k => if contains_key k a then m else shift_remove k m) l m.

Lemma mget_remove_keys k l a m :
  NoDup (mkeys m) ->
  mget k (remove_keys l a m) =
    if existsb (beq k) l && negb (contains_key k a) then None else mget k m.
Proof.
  unfold remove_keys. revert m. induction l as [|k0 l IH]; intros m Hd; [done|].
  cbn [fold_left existsb]. rewrite IH.
  - key_case k k0; [|cbn [orb]; destruct (contains_key k0 a); [done|];
      rewrite mget_shift_remove_ne by done; done].
    cbn [orb andb]. destruct (contains_key k a); cbn [negb andb];
      [rewrite andb_false_r; done|]. rewrite mget_shift_remove_eq by done.
    destruct (existsb (beq k) l); done.
  - destruct (contains_key k0 a); [done|]. apply NoDup_shift_remove, Hd.
Qed.

Lemma existsb_mkeys {A} k (m : IndexMap A) : existsb (beq k) (mkeys m) = contains_key k m.
Proof.
  unfold contains_key. induction m as [|[k0 v0] m IH]; [done|].
  cbn [mkeys fmap list_fmap fst existsb mget]. destruct (beq k k0); [done|]. exact IH.
Qed.

(** What a key holds after the diff. *)
Lemma mget_diff k before after m :
  NoDup (mkeys m) ->
  let b := to_map before in
  let a := to_map after in
  mget k (apply_metadata_diff before after m) =
    match mget k a with
    | Some v => if differs b k v then Some v else mget k m
    | None => if contains_key k b then None else mget k m
    end.
Proof.
  intros Hm b a. unfold apply_metadata_diff. fold a b.
  change (diff_remove b a ?x) with (remove_keys (mkeys b) a x).
  rewrite mget_remove_keys by (apply NoDup_diff_set, Hm).
  rewrite existsb_mkeys, mget_diff_set by apply NoDup_to_map.
  unfold contains_key at 2. destruct (mget k a); cbn [negb]; rewrite ?andb_false_r, ?andb_true_r;
    done.
Qed.

(** A key both records encode alike is left exactly as it was. *)
Lemma mget_diff_same k before after m :
  NoDup (mkeys m) ->
  oeq (fun v w => value_eqb w v = true) (mget k (to_map after)) (mget k (to_map before)) ->
  mget k (apply_metadata_diff before after m) = mget k m.
Proof.
  intros Hm He. rewrite mget_diff by done. unfold differs, contains_key.
  destruct (mget k (to_map after)), (mget k (to_map before)); cbn [oeq] in He; try done.
  rewrite He. done.
Qed.

Lemma NoDup_diff before after m :
  NoDup (mkeys m) -> NoDup (mkeys (apply_metadata_diff before after m)).
Proof.
  intros Hm. unfold apply_metadata_diff, diff_remove.
  set (l := mkeys (to_map before)). clearbody l. apply NoDup_diff_set with (b := to_map before) (a := to_map after) in Hm.
  revert Hm. generalize (diff_set (to_map before) (to_map after) m). induction l as [|k l IH];
    intros x Hx; [exact Hx|]. cbn [fold_left]. apply IH.
  destruct (contains_key _ _); [done|]. apply NoDup_shift_remove, Hx.
Qed.

(** ** Decoding, field by field *)

(** Every field of [s] is what its key in [raw] decodes to. *)
Record decodes (raw : IndexMap Value) (s : SessionMetadata) : Prop := mkDecodes {
  d_generation : opt_field as_str (str "generation") raw = Some (generation s);
  d_daemon_pid : opt_field dec_i32 (str "daemonPid") raw = Some (daemon_pid s);
  d_daemon_start_token : opt_field as_str (str "daemonStartToken") raw = Some (daemon_start_token s);
  d_daemon_boot_id : opt_field as_str (str "daemonBootId") raw = Some (daemon_boot_id s);
  d_recovery : opt_field Some (str "recovery") raw = Some (recovery s);
  d_command : def_field as_str [] (str "command") raw = Some (command s);
  d_args : def_field dec_strs [] (str "args") raw = Some (args s);
  d_display_command : def_field as_str [] (str "displayCommand") raw = Some (display_command s);
  d_cwd : def_field as_str [] (str "cwd") raw = Some (cwd s);
  d_rows : opt_field dec_u16 (str "rows") raw = Some (rows s);
  d_cols : opt_field dec_u16 (str "cols") raw = Some (cols s);
  d_ephemeral : opt_field dec_bool (str "ephemeral") raw = Some (ephemeral s);
  d_created_at : def_field as_str [] (str "createdAt") raw = Some (created_at s);
  d_display_name : opt_field as_str (str "displayName") raw = Some (display_name s);
  d_tags : opt_field dec_map (str "tags") raw = Some (tags s);
  d_publication_binding : opt_field dec_binding (str "publicationBinding") raw = Some (publication_binding s);
  d_publication_root_id : opt_field as_str (str "publicationRootId") raw = Some (publication_root_id s);
  d_publication_capability : opt_field dec_u32 (str "publicationCapability") raw = Some (publication_capability s);
  d_isolate_env : opt_field dec_bool (str "isolateEnv") raw = Some (isolate_env s);
  d_extra_env : opt_field dec_map (str "extraEnv") raw = Some (extra_env s);
  d_session_env : opt_field dec_map (str "sessionEnv") raw = Some (session_env s);
  d_unset_env : opt_field dec_strs (str "unsetEnv") raw = Some (unset_env s);
  d_env : opt_field dec_map (str "env") raw = Some (env s);
  d_exit_code : opt_field dec_i32 (str "exitCode") raw = Some (exit_code s);
  d_exited_at : opt_field as_str (str "exitedAt") raw = Some (exited_at s);
  d_last_lines : opt_field dec_strs (str "lastLines") raw = Some (last_lines s);
  d_last_attach_at : opt_field as_str (str "lastAttachAt") raw = Some (last_attach_at s);
  d_last_output_at_ms : opt_field dec_i64 (str "lastOutputAtMs") raw = Some (last_output_at_ms s);
  d_client_generation : opt_field dec_u64 (str "clientGeneration") raw = Some (client_generation s);
  d_extra : extra s = unknown_entries raw
}.

Lemma from_map_decodes raw s : from_map raw = Some s <-> decodes raw s.
Proof.
  unfold from_map. split.
  - intros H.
    repeat match type of H with
    | mbind _ ?c = Some _ => destruct c eqn:?; cbn [mbind option_bind] in H; [|discriminate H]
    end.
    injection H as <-. constructor; cbn; congruence || done.
  - intros []. destruct s; cbn in *. subst.
    repeat match goal with
    | H : ?c = Some _ |- context [mbind _ ?c] => rewrite H; clear H; cbn [mbind option_bind]
    end.
    done.
Qed.

Lemma is_known_field k : k ∈ known_keys -> is_known k = true.
Proof.
  intros H. unfold is_known. apply existsb_exists. exists k. split; [|apply beq_refl].
  apply list_elem_of_In, H.
Qed.

Lemma unknown_not_known k raw : is_known k = true -> mget k (unknown_entries raw) = None.
Proof.
  intros H. apply mget_None. unfold mkeys, unknown_entries. intros Hin.
  apply list_elem_of_fmap in Hin as ([k' v] & -> & Hin). apply list_elem_of_filter in Hin as [E _].
  cbn in *. congruence.
Qed.

Lemma mget_unknown k raw :
  NoDup (mkeys raw) -> is_known k = false -> mget k (unknown_entries raw) = mget k raw.
Proof.
  unfold unknown_entries. induction raw as [|[k0 v0] raw IH]; [done|].
  cbn [mkeys fmap list_fmap fst]. intros Hd Hk. apply NoDup_cons in Hd as [Hn Hd].
  rewrite filter_cons. cbn [fst mget]. destruct (decide _) as [E|E].
  - cbn [mget]. destruct (beq k k0); [done|]. auto.
  - key_case k k0; [congruence|]. auto.
Qed.

Lemma mget_opt_none {A} k (o : option A) : o = None -> forall P : Prop, o = Some k -> P.
Proof. intros -> P H. discriminate. Qed.

(** ** One field through the diff *)

Section Field.
Context {A : Type} (enc : A -> Value) (dec : Value -> option A) (R : A -> A -> Prop).
Hypothesis R_refl : forall x, R x x.
Hypothesis R_sound : forall x y, value_eqb (enc x) (enc y) = true -> R x y.

Variables (before after : SessionMetadata) (raw : IndexMap Value) (k : bytes).
Hypothesis Hraw : NoDup (mkeys raw).

Lemma opt_field_diff xb xa :
  mget k (to_map before) = enc <$> xb -> mget k (to_map after) = enc <$> xa ->
  opt_field dec k raw = Some xb ->
  match xa with Some x => dec (enc x) = Some x /\ enc x <> VNull | None => True end ->
  exists xp, opt_field dec k (apply_metadata_diff before after raw) = Some xp /\ oeq R xp xa.
Proof.
  intros Hb Ha Hd Hx. unfold opt_field. rewrite mget_diff by done. rewrite Ha.
  unfold differs, contains_key. rewrite Hb. destruct xa as [x|]; cbn [fmap option_fmap option_map].
  - destruct Hx as [Hx Hn].
    assert (Hset : exists xp, match enc x with VNull => Some None | _ => let? y := dec (enc x) in Some (Some y) end = Some xp /\ oeq R xp (Some x)).
    { exists (Some x). rewrite Hx. split; [destruct (enc x); done|apply R_refl]. }
    destruct xb as [y|]; cbn [fmap option_fmap option_map]; [|exact Hset].
    destruct (value_eqb (enc y) (enc x)) eqn:E; cbn [negb]; [|exact Hset].
    exists (Some y). split; [exact Hd|apply R_sound, E].
  - destruct xb as [y|]; cbn [fmap option_fmap option_map]; [exists None; done|].
    exists None. split; [exact Hd|done].
Qed.

Lemma def_field_diff default xb xa :
  mget k (to_map before) = Some (enc xb) -> mget k (to_map after) = Some (enc xa) ->
  def_field dec default k raw = Some xb -> dec (enc xa) = Some xa ->
  exists xp, def_field dec default k (apply_metadata_diff before after raw) = Some xp /\ R xp xa.
Proof.
  intros Hb Ha Hd Hx. unfold def_field. rewrite mget_diff by done. rewrite Ha.
  unfold differs. rewrite Hb. destruct (value_eqb (enc xb) (enc xa)) eqn:E; cbn [negb].
  - exists xb. split; [exact Hd|apply R_sound, E].
  - exists xa. rewrite Hx. split; [done|apply R_refl].
Qed.
End Field.

(** ** The codecs *)

Lemma dec_strs_enc l : dec_strs (enc_strs l) = Some l.
Proof.
  unfold enc_strs, dec_strs. induction l as [|s l IH]; [done|].
  cbn [fmap list_fmap dec_strs_list as_str mbind option_bind]. rewrite IH. done.
Qed.

Lemma dec_map_enc m : dec_map (enc_map m) = Some m.
Proof.
  unfold enc_map, dec_map. induction m as [|[k s] m IH]; [done|].
  cbn [fmap list_fmap prod_map fst snd id dec_map_list as_str mbind option_bind]. rewrite IH. done.
Qed.

Lemma dec_binding_enc b : dec_binding (enc_binding b) = Some b.
Proof. destruct b. reflexivity. Qed.

Lemma value_eqb_strs x y : value_eqb (enc_strs x) (enc_strs y) = true -> x = y.
Proof.
  unfold enc_strs. cbn [value_eqb]. revert y.
  induction x as [|s x IH]; intros [|t y]; cbn [fmap list_fmap value_eqb]; try done.
  intros H. bprop. apply beq_eq in H. apply IH in H0. congruence.
Qed.

Lemma mget_fmap_VStr k (m : IndexMap bytes) :
  mget k (prod_map id VStr <$> m) = VStr <$> mget k m.
Proof.
  induction m as [|[k0 v0] m IH]; [done|]. cbn [fmap list_fmap prod_map fst snd id mget].
  destruct (beq k k0); [done|]. exact IH.
Qed.

Lemma value_eqb_map x y : value_eqb (enc_map x) (enc_map y) = map_eqb beq x y.
Proof.
  unfold enc_map. cbn [value_eqb]. unfold map_eqb. rewrite !length_fmap. f_equal.
  induction x as [|[k s] x IH]; [done|].
  cbn [fmap list_fmap prod_map fst snd id forallb]. rewrite IH, mget_fmap_VStr. f_equal.
  destruct (mget k y); done.
Qed.

Lemma value_eqb_binding x y : value_eqb (enc_binding x) (enc_binding y) = true -> x = y.
Proof.
  destruct x as [o d], y as [o' d']. unfold enc_binding. cbn -[str].
  change (beq (str "operation") (str "operation")) with true.
  change (beq (str "digest") (str "operation")) with false.
  change (beq (str "digest") (str "digest")) with true. cbn [operation digest].
  rewrite andb_true_r. intros H. bprop. apply beq_eq in H, H0. congruence.
Qed.

Lemma value_eqb_int x y : value_eqb (enc_int x) (enc_int y) = true -> x = y.
Proof. cbn. apply Z.eqb_eq. Qed.
Lemma value_eqb_str x y : value_eqb (VStr x) (VStr y) = true -> x = y.
Proof. cbn. apply beq_eq. Qed.
Lemma value_eqb_bool x y : value_eqb (VBool x) (VBool y) = true -> x = y.
Proof. cbn. apply eqb_prop. Qed.
Lemma dec_int_enc lo hi x : lo <= x <= hi -> dec_int lo hi (enc_int x) = Some x.
Proof.
  intros H. unfold dec_int, enc_int, in_range. replace (_ && _) with true; [done|].
  symmetry. rewrite andb_true_iff, !Z.leb_le. lia.
Qed.

Lemma oeq_eq {A} (x y : option A) : oeq eq x y -> x = y.
Proof. destruct x, y; cbn; congruence || done. Qed.

(** The value of a field's key, for a record with no alias of it. *)
Definition no_alias (m : SessionMetadata) : Prop :=
  forall k, is_known k = true -> mget k (extra m) = None.

Lemma no_alias_wf m : wf_meta m -> no_alias m.
Proof.
  intros (_ & _ & _ & _ & _ & _ & _ & _ & Hf & _) k Hk. apply mget_None. intros Hin.
  rewrite Forall_forall in Hf. rewrite (Hf _ Hin) in Hk. done.
Qed.

Lemma no_alias_decodes raw m : decodes raw m -> no_alias m.
Proof. intros H k Hk. rewrite (d_extra _ _ H). apply unknown_not_known, Hk. Qed.

Lemma to_map_key m k o :
  no_alias m -> is_known k = true -> mget k (typed_fields m) = Some o -> mget k (to_map m) = o.
Proof. intros H Hk E. rewrite mget_to_map_typed, E by auto. done. Qed.

(** The field equations of [opt_field_diff] / [def_field_diff]: the keys evaluate,
    the codec laws close the rest. *)
Ltac field_key := apply to_map_key; [assumption | reflexivity | reflexivity].
Ltac codec :=
  match goal with
  | |- forall x, _ x x => intros; (reflexivity || (left; reflexivity))
  | |- forall x y, value_eqb _ _ = true -> _ =>
      intros ? ?; first [ apply value_eqb_str | apply value_eqb_int | apply value_eqb_bool
                        | apply value_eqb_strs | apply value_eqb_binding
                        | rewrite value_eqb_map; right; assumption | right; assumption ]
  end.
Ltac decoded :=
  first [ apply dec_strs_enc | reflexivity
        | match goal with |- match ?o with Some _ => _ | None => True end => destruct o eqn:?; [|exact I] end;
          split; [first [ apply dec_strs_enc | apply dec_map_enc | apply dec_binding_enc
                        | reflexivity | apply dec_int_enc; cbn in *; lia ]
                 | cbn; congruence || discriminate ] ].

Lemma typed_unknown m k : is_known k = false -> mget k (typed_fields m) = None.
Proof.
  intros Hk. apply mget_None. rewrite mkeys_typed. intros Hin.
  rewrite (is_known_field _ Hin) in Hk. done.
Qed.

Lemma to_map_unknown m k :
  NoDup (mkeys (extra m)) -> is_known k = false -> mget k (to_map m) = mget k (extra m).
Proof.
  intros Hd Hk. rewrite mget_to_map, typed_unknown by done. destruct (mget k (extra m)); done.
Qed.

Lemma NoDup_unknown raw : NoDup (mkeys raw) -> NoDup (mkeys (unknown_entries raw)).
Proof.
  unfold mkeys, unknown_entries. induction raw as [|[k v] raw IH]; [done|].
  cbn [fmap list_fmap fst]. intros Hd. apply NoDup_cons in Hd as [Hn Hd].
  rewrite filter_cons. destruct (decide _); [|auto]. cbn [fmap list_fmap fst]. apply NoDup_cons.
  split; [|auto]. intros Hin. apply Hn. apply list_elem_of_fmap in Hin as (kv & -> & Hin).
  apply list_elem_of_filter in Hin as [_ Hin]. apply list_elem_of_fmap. eauto.
Qed.

(** The extras through the diff. *)
Lemma extra_diff before after raw :
  NoDup (mkeys raw) -> decodes raw before -> no_alias after -> NoDup (mkeys (extra after)) ->
  forall k, oeq veq (mget k (unknown_entries (apply_metadata_diff before after raw)))
                    (mget k (extra after)).
Proof.
  intros Hraw Hb Na Hd k. destruct (is_known k) eqn:Hk.
  { rewrite unknown_not_known, Na by done. done. }
  rewrite mget_unknown, mget_diff by (try apply NoDup_diff; done).
  unfold differs, contains_key.
  rewrite !to_map_unknown by (try rewrite (d_extra _ _ Hb); try apply NoDup_unknown; done).
  rewrite (d_extra _ _ Hb), mget_unknown by done.
  destruct (mget k (extra after)) as [v|], (mget k raw) as [w|]; try done.
  - destruct (value_eqb w v) eqn:E; cbn [negb oeq]; [right; done|left; done].
  - left. done.
Qed.

(** Publishing the diff of [after] leaves on disk a record that reads back as
    [after]. *)
Lemma from_map_diff before after raw :
  NoDup (mkeys raw) -> from_map raw = Some before -> wf_meta after ->
  exists p, from_map (apply_metadata_diff before after raw) = Some p /\ meta_equiv p after.
Proof.
  intros Hraw Hb Hwf. apply from_map_decodes in Hb.
  pose proof (no_alias_decodes _ _ Hb) as Nb. pose proof (no_alias_wf _ Hwf) as Na.
  set (P := apply_metadata_diff before after raw).
  destruct Hwf as (W1 & W2 & W3 & W4 & W5 & W6 & W7 & W8 & W9 & W10).
  edestruct (opt_field_diff VStr as_str eq ltac:(codec) ltac:(codec) before after raw (str "generation") Hraw
    _ _ ltac:(field_key) ltac:(field_key) (d_generation _ _ Hb) ltac:(decoded)) as (x1 & E1 & R1).
  edestruct (opt_field_diff enc_int dec_i32 eq ltac:(codec) ltac:(codec) before after raw (str "daemonPid") Hraw
    _ _ ltac:(field_key) ltac:(field_key) (d_daemon_pid _ _ Hb) ltac:(decoded)) as (x2 & E2 & R2).
  edestruct (opt_field_diff VStr as_str eq ltac:(codec) ltac:(codec) before after raw (str "daemonStartToken") Hraw
    _ _ ltac:(field_key) ltac:(field_key) (d_daemon_start_token _ _ Hb) ltac:(decoded)) as (x3 & E3 & R3).
  edestruct (opt_field_diff VStr as_str eq ltac:(codec) ltac:(codec) before after raw (str "daemonBootId") Hraw
    _ _ ltac:(field_key) ltac:(field_key) (d_daemon_boot_id _ _ Hb) ltac:(decoded)) as (x4 & E4 & R4).
  assert (HV : exists xp, opt_field Some (str "recovery") P = Some xp /\ oeq veq xp (recovery after)).
  { apply (opt_field_diff id Some veq ltac:(codec) ltac:(codec) before after raw (str "recovery") Hraw (recovery before));
      [rewrite option_fmap_id; field_key..|apply (d_recovery _ _ Hb)|].
    unfold id. destruct (recovery after); [split; congruence|done]. }
  destruct HV as (x5 & E5 & R5).
  edestruct (def_field_diff VStr as_str eq ltac:(codec) ltac:(codec) before after raw (str "command") Hraw
    [] _ _ ltac:(field_key) ltac:(field_key) (d_command _ _ Hb) ltac:(decoded)) as (x6 & E6 & R6).
  edestruct (def_field_diff enc_strs dec_strs eq ltac:(codec) ltac:(codec) before after raw (str "args") Hraw
    [] _ _ ltac:(field_key) ltac:(field_key) (d_args _ _ Hb) ltac:(decoded)) as (x7 & E7 & R7).
  edestruct (def_field_diff VStr as_str eq ltac:(codec) ltac:(codec) before after raw (str "displayCommand") Hraw
    [] _ _ ltac:(field_key) ltac:(field_key) (d_display_command _ _ Hb) ltac:(decoded)) as (x8 & E8 & R8).
  edestruct (def_field_diff VStr as_str eq ltac:(codec) ltac:(codec) before after raw (str "cwd") Hraw
    [] _ _ ltac:(field_key) ltac:(field_key) (d_cwd _ _ Hb) ltac:(decoded)) as (x9 & E9 & R9).
  edestruct (opt_field_diff enc_int dec_u16 eq ltac:(codec) ltac:(codec) before after raw (str "rows") Hraw
    _ _ ltac:(field_key) ltac:(field_key) (d_rows _ _ Hb) ltac:(decoded)) as (x10 & E10 & R10).
  edestruct (opt_field_diff enc_int dec_u16 eq ltac:(codec) ltac:(codec) before after raw (str "cols") Hraw
    _ _ ltac:(field_key) ltac:(field_key) (d_cols _ _ Hb) ltac:(decoded)) as (x11 & E11 & R11).
  edestruct (opt_field_diff VBool dec_bool eq ltac:(codec) ltac:(codec) before after raw (str "ephemeral") Hraw
    _ _ ltac:(field_key) ltac:(field_key) (d_ephemeral _ _ Hb) ltac:(decoded)) as (x12 & E12 & R12).
  edestruct (def_field_diff VStr as_str eq ltac:(codec) ltac:(codec) before after raw (str "createdAt") Hraw
    [] _ _ ltac:(field_key) ltac:(field_key) (d_created_at _ _ Hb) ltac:(decoded)) as (x13 & E13 & R13).
  edestruct (opt_field_diff VStr as_str eq ltac:(codec) ltac:(codec) before after raw (str "displayName") Hraw
    _ _ ltac:(field_key) ltac:(field_key) (d_display_name _ _ Hb) ltac:(decoded)) as (x14 & E14 & R14).
  edestruct (opt_field_diff enc_map dec_map meq ltac:(codec) ltac:(codec) before after raw (str "tags") Hraw
    _ _ ltac:(field_key) ltac:(field_key) (d_tags _ _ Hb) ltac:(decoded)) as (x15 & E15 & R15).
  edestruct (opt_field_diff enc_binding dec_binding eq ltac:(codec) ltac:(codec) before after raw (str "publicationBinding") Hraw
    _ _ ltac:(field_key) ltac:(field_key) (d_publication_binding _ _ Hb) ltac:(decoded)) as (x16 & E16 & R16).
  edestruct (opt_field_diff VStr as_str eq ltac:(codec) ltac:(codec) before after raw (str "publicationRootId") Hraw
    _ _ ltac:(field_key) ltac:(field_key) (d_publication_root_id _ _ Hb) ltac:(decoded)) as (x17 & E17 & R17).
  edestruct (opt_field_diff enc_int dec_u32 eq ltac:(codec) ltac:(codec) before after raw (str "publicationCapability") Hraw
    _ _ ltac:(field_key) ltac:(field_key) (d_publication_capability _ _ Hb) ltac:(decoded)) as (x18 & E18 & R18).
  edestruct (opt_field_diff VBool dec_bool eq ltac:(codec) ltac:(codec) before after raw (str "isolateEnv") Hraw
    _ _ ltac:(field_key) ltac:(field_key) (d_isolate_env _ _ Hb) ltac:(decoded)) as (x19 & E19 & R19).
  edestruct (opt_field_diff enc_map dec_map meq ltac:(codec) ltac:(codec) before after raw (str "extraEnv") Hraw
    _ _ ltac:(field_key) ltac:(field_key) (d_extra_env _ _ Hb) ltac:(decoded)) as (x20 & E20 & R20).
  edestruct (opt_field_diff enc_map dec_map meq ltac:(codec) ltac:(codec) before after raw (str "sessionEnv") Hraw
    _ _ ltac:(field_key) ltac:(field_key) (d_session_env _ _ Hb) ltac:(decoded)) as (x21 & E21 & R21).
  edestruct (opt_field_diff enc_strs dec_strs eq ltac:(codec) ltac:(codec) before after raw (str "unsetEnv") Hraw
    _ _ ltac:(field_key) ltac:(field_key) (d_unset_env _ _ Hb) ltac:(decoded)) as (x22 & E22 & R22).
  edestruct (opt_field_diff enc_map dec_map meq ltac:(codec) ltac:(codec) before after raw (str "env") Hraw
    _ _ ltac:(field_key) ltac:(field_key) (d_env _ _ Hb) ltac:(decoded)) as (x23 & E23 & R23).
  edestruct (opt_field_diff enc_int dec_i32 eq ltac:(codec) ltac:(codec) before after raw (str "exitCode") Hraw
    _ _ ltac:(field_key) ltac:(field_key) (d_exit_code _ _ Hb) ltac:(decoded)) as (x24 & E24 & R24).
  edestruct (opt_field_diff VStr as_str eq ltac:(codec) ltac:(codec) before after raw (str "exitedAt") Hraw
    _ _ ltac:(field_key) ltac:(field_key) (d_exited_at _ _ Hb) ltac:(decoded)) as (x25 & E25 & R25).
  edestruct (opt_field_diff enc_strs dec_strs eq ltac:(codec) ltac:(codec) before after raw (str "lastLines") Hraw
    _ _ ltac:(field_key) ltac:(field_key) (d_last_lines _ _ Hb) ltac:(decoded)) as (x26 & E26 & R26).
  edestruct (opt_field_diff VStr as_str eq ltac:(codec) ltac:(codec) before after raw (str "lastAttachAt") Hraw
    _ _ ltac:(field_key) ltac:(field_key) (d_last_attach_at _ _ Hb) ltac:(decoded)) as (x27 & E27 & R27).
  edestruct (opt_field_diff enc_int dec_i64 eq ltac:(codec) ltac:(codec) before after raw (str "lastOutputAtMs") Hraw
    _ _ ltac:(field_key) ltac:(field_key) (d_last_output_at_ms _ _ Hb) ltac:(decoded)) as (x28 & E28 & R28).
  edestruct (opt_field_diff enc_int dec_u64 eq ltac:(codec) ltac:(codec) before after raw (str "clientGeneration") Hraw
    _ _ ltac:(field_key) ltac:(field_key) (d_client_generation _ _ Hb) ltac:(decoded)) as (x29 & E29 & R29).
  exists (mkMeta x1 x2 x3 x4 x5 x6 x7 x8 x9 x10 x11 x12 x13 x14 x15 x16 x17 x18 x19 x20 x21 x22 x23 x24 x25 x26 x27 x28 x29 (unknown_entries P)). split.
  - apply from_map_decodes. constructor; cbn; assumption || reflexivity.
  - constructor; cbn; try assumption; try (apply oeq_eq; assumption).
    apply extra_diff; assumption.
Qed.

(** ** Round trip *)

Section RoundTrip.
Context (m : SessionMetadata) (Hw : wf_meta m).

Lemma opt_field_rt {A} (enc : A -> Value) (dec : Value -> option A) k (o : option A) :
  is_known k = true -> mget k (typed_fields m) = Some (enc <$> o) ->
  match o with Some x => dec (enc x) = Some x /\ enc x <> VNull | None => True end ->
  opt_field dec k (to_map m) = Some o.
Proof.
  intros Hk Ht Ho. unfold opt_field. rewrite mget_to_map_typed, Ht by (apply no_alias_wf; done).
  destruct o as [x|]; [|done]. destruct Ho as [Ho Hn]. cbn [fmap option_fmap option_map].
  destruct (enc x) eqn:E; try done; rewrite Ho; done.
Qed.

Lemma def_field_rt {A} (enc : A -> Value) (dec : Value -> option A) d k (x : A) :
  is_known k = true -> mget k (typed_fields m) = Some (Some (enc x)) -> dec (enc x) = Some x ->
  def_field dec d k (to_map m) = Some x.
Proof.
  intros Hk Ht Hx. unfold def_field. rewrite mget_to_map_typed, Ht by (apply no_alias_wf; done).
  exact Hx.
Qed.
End RoundTrip.

Lemma insert_all_fresh more m :
  NoDup (mkeys more) -> Forall (fun k => k ∉ mkeys m) (mkeys more) -> insert_all more m = m ++ more.
Proof.
  unfold insert_all. revert m. induction more as [|[k v] more IH]; intros m Hd Hf; [rewrite app_nil_r; done|].
  cbn [mkeys fmap list_fmap fst] in Hd, Hf. apply NoDup_cons in Hd as [Hn Hd]. apply Forall_cons in Hf as [Hk Hf].
  cbn [fold_left fst snd].
  assert (E : minsert k v m = m ++ [(k, v)]).
  { clear -Hk. induction m as [|[k0 v0] m IHm]; [done|]. cbn [minsert].
    cbn [mkeys fmap list_fmap fst] in Hk. apply not_elem_of_cons in Hk as [Hne Hk].
    rewrite (proj2 (beq_neq k k0) Hne). cbn [app]. f_equal. apply IHm, Hk. }
  rewrite E, IH; [rewrite <- app_assoc; done|done|].
  apply Forall_forall. intros x Hx Hin. unfold mkeys in Hin. rewrite fmap_app in Hin.
  apply elem_of_app in Hin as [Hin|Hin].
  - rewrite Forall_forall in Hf. exact (Hf x Hx Hin).
  - apply list_elem_of_singleton in Hin. cbn in Hin. subst. done.
Qed.

Lemma unknown_none l : Forall (fun k => is_known k = true) (mkeys l) -> unknown_entries l = [].
Proof.
  unfold unknown_entries. induction l as [|[k v] l IH]; [done|]. cbn [mkeys fmap list_fmap fst].
  intros Hf. apply Forall_cons in Hf as [Hk Hf]. rewrite filter_cons_False; [apply IH, Hf|].
  cbv beta in Hk. cbn [fst]. rewrite Hk. discriminate.
Qed.

Lemma unknown_all l : Forall (fun k => is_known k = false) (mkeys l) -> unknown_entries l = l.
Proof.
  unfold unknown_entries. induction l as [|[k v] l IH]; [done|]. cbn [mkeys fmap list_fmap fst].
  intros Hf. apply Forall_cons in Hf as [Hk Hf]. rewrite filter_cons_True by exact Hk. rewrite IH; done.
Qed.

Lemma unknown_app a b : unknown_entries (a ++ b) = unknown_entries a ++ unknown_entries b.
Proof. apply filter_app. Qed.

Lemma unknown_to_map m : wf_meta m -> unknown_entries (to_map m) = extra m.
Proof.
  intros (_ & _ & _ & _ & _ & _ & _ & _ & Hf & Hd). unfold to_map.
  assert (Hp : forall k, k ∈ mkeys (present (typed_fields m)) -> is_known k = true).
  { intros k Hk. apply is_known_field. rewrite <- (mkeys_typed m). apply mkeys_present_sub, Hk. }
  rewrite insert_all_fresh; [|done|].
  - rewrite unknown_app, unknown_none, unknown_all; [done|done|].
    apply Forall_forall, Hp.
  - apply Forall_forall. intros k Hk Hin. rewrite Forall_forall in Hf. specialize (Hf _ Hk).
    rewrite (Hp _ Hin) in Hf. done.
Qed.

(** C23: a well-formed record survives its JSON form: writing every field and every
    entry the code does not know, then reading the object back, gives the same
    record. *)
Theorem metadata_roundtrip (m : SessionMetadata) : wf_meta m -> from_map (to_map m) = Some m.
Proof.
  intros Hw. apply from_map_decodes. pose proof Hw as (W1 & W2 & W3 & W4 & W5 & W6 & W7 & W8 & W9 & W10).
  constructor;
    first [ symmetry; apply unknown_to_map; exact Hw
          | apply (opt_field_rt m Hw VStr); [reflexivity|reflexivity|decoded]
          | apply (opt_field_rt m Hw enc_int); [reflexivity|reflexivity|decoded]
          | apply (opt_field_rt m Hw VBool); [reflexivity|reflexivity|decoded]
          | apply (opt_field_rt m Hw enc_map); [reflexivity|reflexivity|decoded]
          | apply (opt_field_rt m Hw enc_strs); [reflexivity|reflexivity|decoded]
          | apply (opt_field_rt m Hw enc_binding); [reflexivity|reflexivity|decoded]
          | apply (def_field_rt m Hw VStr); [reflexivity|reflexivity|decoded]
          | apply (def_field_rt m Hw enc_strs); [reflexivity|reflexivity|decoded]
          | idtac ].
  apply (opt_field_rt m Hw id); [reflexivity| |].
  - destruct (recovery m) eqn:E; unfold typed_fields; rewrite E; reflexivity.
  - destruct (recovery m) as [v|] eqn:E; [|exact I]. split; [reflexivity|]. intros Hv.
    apply W8. f_equal. exact Hv.
Qed.

(** a rewrite changes what the mutation changed and nothing else.  Publishing
    the difference between the record read and the mutated one leaves an object
    that reads back as the mutated record, and every key whose value the mutation
    did not change, known or not, keeps the exact value the file had. *)
Theorem rewrite_preserves (before after : SessionMetadata) (raw : IndexMap Value) :
  NoDup (mkeys raw) -> from_map raw = Some before -> wf_meta after ->
  let published := apply_metadata_diff before after raw in
  (exists p, from_map published = Some p /\ meta_equiv p after) /\ NoDup (mkeys published) /\
  forall k, oeq (fun v w => value_eqb w v = true) (mget k (to_map after)) (mget k (to_map before)) ->
            mget k published = mget k raw.
Proof.
  intros Hd Hb Hw published. split; [apply from_map_diff; done|]. split; [apply NoDup_diff, Hd|].
  intros k. apply mget_diff_same, Hd.
Qed.

(** ** Witnesses *)

Definition sample_meta : SessionMetadata :=
  match from_map [(str "generation", VStr (str "g")); (str "rows", VNum (NInt 24)); (str "custom", VBool true)]
  with Some m => m | None => mkMeta None None None None None [] [] [] [] None None None [] None None None
                               None None None None None None None None None None None None None [] end.

Lemma sample_meta_wf : wf_meta sample_meta.
Proof.
  repeat split; try done; try (vm_compute; repeat constructor; congruence || set_solver).
Qed.

Lemma metadata_roundtrip_witness : wf_meta sample_meta /\ from_map (to_map sample_meta) = Some sample_meta.
Proof. split; [exact sample_meta_wf|]. apply (metadata_roundtrip _ sample_meta_wf). Defined.

Lemma rewrite_preserves_witness :
  let raw := [(str "rows", VNum (NInt 24)); (str "custom", VBool true); (str "generation", VStr (str "g"))] in
  from_map raw = Some sample_meta /\
  mget (str "custom") (apply_metadata_diff sample_meta (set_exit_code (Some 3) sample_meta) raw)
  = Some (VBool true).
Proof.
  intros raw. assert (E : from_map raw = Some sample_meta) by (vm_compute; reflexivity).
  split; [exact E|].
  destruct (rewrite_preserves sample_meta (set_exit_code (Some 3) sample_meta) raw) as (_ & _ & H).
  - apply (bool_decide_eq_true_1 _). vm_compute. reflexivity.
  - exact E.
  - pose proof sample_meta_wf as (W1 & W2 & W3 & W4 & _ & W6 & W7 & W8 & W9 & W10).
    split; [exact W1|]. split; [exact W2|]. split; [exact W3|]. split; [exact W4|]. split; [cbn; lia|].
    split; [exact W6|]. split; [exact W7|]. split; [exact W8|]. split; [exact W9|exact W10].
  - rewrite (H (str "custom")); vm_compute; reflexivity.
Defined.
