(* ===== verification/Names.v ===== *)
(** Session ids, display names and tags: [crates/pty-core/src/registry/names.rs]
    and [tags.rs].  A [String] is a list of Unicode scalar values. *)
From S2P Require Import Prelude Json Metadata Time.

(** ** Text measures *)

(** [char::len_utf8] and [str::len]. *)
Definition len_utf8 (c : Z) : Z :=
  if c <? 128 then 1 else if c <? 2048 then 2 else if c <? 65536 then 3 else 4.
Definition byte_len (s : bytes) : Z := fold_right (fun c n => len_utf8 c + n) 0 s.
(** [encode_utf16().count()]. *)
Definition utf16_len (s : bytes) : Z :=
  fold_right (fun c n => (if c <? 65536 then 1 else 2) + n) 0 s.

(** ** Names *)

Definition is_name_char (c : Z) : bool :=
  is_ascii_alphanumeric c || (c =? 46) || (c =? 95) || (c =? 45).

Definition quote : bytes := [34].

Definition validate_name_lexical (name : bytes) : Result unit bytes :=
  if beq name [] then Err (str "Session name cannot be empty.")
  else if beq name [46] || beq name [46; 46] then
    Err (str "Invalid session name " ++ quote ++ name ++ quote ++ str ". Names cannot be "
         ++ quote ++ str "." ++ quote ++ str " or " ++ quote ++ str ".." ++ quote ++ str ".")
  else if 255 <? utf16_len name then Err (str "Session name too long (max 255 characters).")
  else if negb (forallb is_name_char name) then
    Err (str "Invalid session name " ++ quote ++ name ++ quote
         ++ str ". Names may only contain letters, numbers, dots, hyphens, and underscores.")
  else if 209 <? byte_len name then
    Err (str "Session name too long for registry sidecars (max 209 characters).")
  else Ok tt.

Definition SUN_PATH_MAX : Z := 104.

(** [socket_path], which looks at the disk, is given by its length here. *)
Definition validate_name (socket_path_len : bytes -> Z) (name : bytes) : Result unit bytes :=
  try _u := validate_name_lexical name in
  let byte_len := socket_path_len name in
  if SUN_PATH_MAX <? byte_len then
    let overflow := byte_len - SUN_PATH_MAX in
    Err (str "Session name " ++ quote ++ name ++ quote ++ str " produces a socket path of "
         ++ dec byte_len ++ str " bytes, which exceeds the " ++ dec SUN_PATH_MAX
         ++ str "-byte kernel limit by " ++ dec overflow
         ++ str ". Shorten the name or set PTY_SESSION_DIR to a shorter path.")
  else Ok tt.

Definition is_js_whitespace (c : Z) : bool :=
  in_range 9 13 c || (c =? 32) || (c =? 160) || (c =? 5760) || in_range 8192 8202 c
  || (c =? 8232) || (c =? 8233) || (c =? 8239) || (c =? 8287) || (c =? 12288)
  || (c =? 65279).

Definition js_trim (s : bytes) : bytes := trim is_js_whitespace s.

(** [char::is_control], the category Cc. *)
Definition is_control (c : Z) : bool := (c <? 32) || in_range 127 159 c.

Definition validate_display_name (name : bytes) : Result unit bytes :=
  if beq name [] then Err (str "Display name cannot be empty.")
  else if negb (beq name (js_trim name)) then Err (str "Display name must be trimmed.")
  else if 160 <? blen name then
    Err (str "Display name too long (max 160 Unicode scalars).")
  else if existsb (fun c => is_control c || (c =? 8232) || (c =? 8233)) name then
    Err (str "Display name must be single-line and contain no control characters.")
  else Ok tt.

Definition SESSION_ID_ALPHABET : bytes := str "23456789abcdefghjkmnpqrstuvwxyz".
Definition SESSION_ID_ATTEMPTS : Z := 8.

(** [random_session_name] on the random bytes drawn. *)
Definition random_session_name (random : bytes) : bytes :=
  (fun b => nth (Z.to_nat (b mod blen SESSION_ID_ALPHABET)) SESSION_ID_ALPHABET 0) <$> random.

(** The last component after [/], trailing slashes ignored. *)
Definition basename (p : bytes) : bytes :=
  let trimmed := rev (snd (span (Z.eqb 47) (rev p))) in
  match trimmed with
  | [] => []
  | _ => List.last (split_on (Z.eqb 47) trimmed) []
  end.

(** The index of the last dot. *)
Definition rfind_dot (s : bytes) : option nat :=
  match position (Z.eqb 46) (rev s) with
  | Some i => Some (length s - 1 - i)%nat
  | None => None
  end.

Definition arg_base (base : bytes) : bytes :=
  match rfind_dot base with
  | Some idx => if Nat.ltb (S idx) (length base) then take idx base else base
  | None => base
  end.

Definition sanitize_step (out : bytes) (c : Z) : bytes :=
  let c := if is_name_char c then c else 45 in
  if (c =? 45) && match List.last out 0 with 45 => true | _ => false end then out
  else out ++ [c].

Definition sanitize_display_name (candidate : bytes) : bytes :=
  trim (Z.eqb 45) (fold_left sanitize_step candidate []).

Definition auto_display_name (cwd cmd : bytes) (args : list bytes) : bytes :=
  let dir_part := basename cwd in
  let cmd_base := basename cmd in
  let first_arg := List.find (fun a => negb (starts_with [45] a) && (utf16_len a <? 30)) args in
  let cmd_part :=
    match first_arg with
    | Some a =>
        let arg_base := arg_base (basename a) in
        if negb (beq arg_base []) && forallb is_name_char arg_base
        then cmd_base ++ [45] ++ arg_base else cmd_base
    | None => cmd_base
    end in
  sanitize_display_name (dir_part ++ [45] ++ cmd_part).

Definition short_path (home p : bytes) : bytes :=
  if beq home [] then p
  else if beq p home then [126]
  else match strip_prefix (home ++ [47]) p with
       | Some rest => [126; 47] ++ rest
       | None => p
       end.

Definition time_ago_from_seconds (seconds : Z) : bytes :=
  if seconds <? 60 then dec seconds ++ str "s ago" else
  let minutes := seconds / 60 in
  if minutes <? 60 then dec minutes ++ str "m ago" else
  let hours := minutes / 60 in
  if hours <? 24 then dec hours ++ str "h ago"
  else dec (hours / 24) ++ str "d ago".

(** [time_ago], the clock given. *)
Definition time_ago (now_ms : Z) (iso : bytes) : bytes :=
  match parse_iso8601_ms iso with
  | Some t => time_ago_from_seconds ((now_ms - t) / 1000)
  | None => str "NaNs ago"
  end.

(** ** Tags *)

Definition EXACT_RESERVED_TAG_KEYS : list bytes :=
  str <$> ["ptyfile"; "ptyfile.session"; "ptyfile.tags"; "strategy"].

Definition is_reserved_tag_key (key : bytes) : bool :=
  existsb (beq key) EXACT_RESERVED_TAG_KEYS || starts_with [58] key.

(** [tags.and_then(|t| t.get(k))]. *)
Definition tag_of (k : bytes) (tags : option (IndexMap bytes)) : option bytes :=
  let? t := tags in mget k t.

Definition obeq (a b : option bytes) : bool :=
  match a, b with Some x, Some y => beq x y | None, None => true | _, _ => false end.

Definition matches_all_tags (session_tags : option (IndexMap bytes)) (filter : IndexMap bytes)
  : bool :=
  forallb (fun kv => obeq (tag_of (fst kv) session_tags) (Some (snd kv))) filter.

(** [str::split_once]. *)
Definition split_once (c : Z) (s : bytes) : option (bytes * bytes) :=
  match position (Z.eqb c) s with
  | Some i => Some (take i s, drop (S i) s)
  | None => None
  end.

(** [extract_filter_tags]: the collected tags and what is left of [args]. *)
Fixpoint extract_filter_tags (args : list bytes) (tags : IndexMap bytes) {struct args}
  : Result (IndexMap bytes * list bytes) bytes :=
  match args with
  | [] => Ok (tags, [])
  | a :: args' =>
      if negb (beq a (str "--filter-tag")) then
        try r := extract_filter_tags args' tags in Ok (fst r, a :: snd r)
      else
        match args' with
        | kv :: args'' =>
            match split_once 61 kv with
            | Some (k, v) => extract_filter_tags args'' (minsert k v tags)
            | None => Err (str "--filter-tag expects " ++ quote ++ str "key=value" ++ quote)
            end
        | [] => Err (str "--filter-tag expects " ++ quote ++ str "key=value" ++ quote)
        end
  end.

Definition KEEP_TAG : bytes := str "keep".
Definition KEEP_FALSEY : list bytes := str <$> ["false"; "0"; "no"; "off"].
Definition DEFAULT_KEEP_MAX_AGE_MS : Z := 7 * 24 * 60 * 60 * 1000.

(** What the code takes from the Unicode tables of the standard library:
    [str::to_lowercase], which agrees with ASCII lowercasing on ASCII. *)
Class Unicode : Type := { to_lowercase : bytes -> bytes }.
Class UnicodeLaws `{Unicode} : Prop :=
  to_lowercase_ascii : forall s, Forall (fun c => 0 <= c < 128) s ->
    to_lowercase s = to_ascii_lowercase <$> s.

Definition reads_as_no `{Unicode} (raw : bytes) : bool :=
  let normalized := to_lowercase (js_trim raw) in
  existsb (beq normalized) KEEP_FALSEY.

Definition is_keep_requested `{Unicode} (tags : option (IndexMap bytes)) : bool :=
  match tag_of KEEP_TAG tags with
  | None => false
  | Some raw => negb (reads_as_no raw)
  end.

Definition is_keep_expired (metadata : option SessionMetadata) (now_ms max_age_ms : Z) : bool :=
  if max_age_ms <=? 0 then true
  else match metadata with
       | None => false
       | Some meta =>
           let anchor :=
             match exited_at meta with
             | Some s => if beq s [] then created_at meta else s
             | None => created_at meta
             end in
           match parse_iso8601_ms anchor with
           | Some ts => max_age_ms <=? now_ms - ts
           | None => false
           end
       end.

(** [reap_on_exit_default] on the value of [PTY_REAP_ON_EXIT]. *)
Definition reap_on_exit_default `{Unicode} (var : option bytes) : bool :=
  match var with None => true | Some raw => negb (reads_as_no raw) end.

Definition should_reap_at_exit `{Unicode} (tags : option (IndexMap bytes))
  (ephemeral default_reap : bool) : bool :=
  if is_keep_requested tags then false
  else if ephemeral then true
  else if obeq (tag_of (str "strategy") tags) (Some (str "permanent")) then false
  else default_reap.

Definition RETENTION_LOST_AT_TAG : bytes := str "retention.lost-at".
Definition GC_BOOKKEEPING_KEYS : list bytes :=
  (str <$> ["strategy.status"; "strategy.consecutive-fast-fails"; "strategy.last-respawn-at";
            "strategy.command-hash"]) ++ [RETENTION_LOST_AT_TAG].

Definition parse_retain_finished `{Unicode} (raw : option bytes) : option Z :=
  let? raw := raw in
  if reads_as_no raw then None
  else let? ms := parse_duration raw in if 0 <? ms then Some ms else None.

Definition strip_gc_bookkeeping (tags : option (IndexMap bytes)) : option (IndexMap bytes) :=
  let? tags := tags in
  match tags with
  | [] => Some tags
  | _ =>
      let out := List.filter (fun kv => negb (existsb (beq (fst kv)) GC_BOOKKEEPING_KEYS)) tags in
      match out with [] => None | _ => Some out end
  end.

(** ** Lemmas on [span] and [trim] *)

Lemma span_spec {A} (p : A -> bool) l :
  l = fst (span p l) ++ snd (span p l) /\ forallb p (fst (span p l)) = true /\
  match snd (span p l) with [] => True | x :: _ => p x = false end.
Proof.
  induction l as [|x l (IH1 & IH2 & IH3)]; [done|]. cbn [span]. destruct (p x) eqn:E.
  - destruct (span p l) as [a b]. cbn [fst snd app forallb] in *. rewrite E, IH2.
    split_and!; congruence || done.
  - cbn. split_and!; done.
Qed.

(** [trim p s] is [s] without a prefix and a suffix of [p]s, with no [p] left at
    either end. *)
Lemma trim_spec p s :
  exists a b, s = a ++ trim p s ++ b /\
    match trim p s with [] => True | x :: _ => p x = false end /\
    match rev (trim p s) with [] => True | x :: _ => p x = false end.
Proof.
  unfold trim. destruct (span_spec p s) as (H1 & _ & H3).
  set (m := snd (span p s)) in *. destruct (span_spec p (rev m)) as (G1 & _ & G3).
  set (n := snd (span p (rev m))) in *. exists (fst (span p s)), (rev (fst (span p (rev m)))).
  assert (Hm : m = rev n ++ rev (fst (span p (rev m)))).
  { rewrite <- rev_app_distr, <- G1, rev_involutive. done. }
  split_and!; [rewrite <- Hm; done| |rewrite rev_involutive; done].
  destruct (rev n) as [|x r] eqn:E; [done|]. rewrite Hm in H3. exact H3.
Qed.

Lemma trim_id p s :
  match s with [] => True | x :: _ => p x = false end ->
  match rev s with [] => True | x :: _ => p x = false end -> trim p s = s.
Proof.
  intros H1 H2. unfold trim. assert (E : snd (span p s) = s).
  { destruct s as [|x s]; [done|]. cbn [span]. rewrite H1. done. }
  rewrite E. assert (E' : snd (span p (rev s)) = rev s).
  { destruct (rev s) as [|x r]; [done|]. cbn [span]. rewrite H2. done. }
  rewrite E'. apply rev_involutive.
Qed.

(** ** Sanitizing *)

Definition dash (c : Z) : bool := c =? 45.

(** No two dashes in a row. *)
Fixpoint no_double (l : bytes) : bool :=
  match l with
  | x :: l' => match l' with y :: _ => negb (dash x && dash y) | [] => true end && no_double l'
  | [] => true
  end.

Definition ends_dash (l : bytes) : bool := dash (List.last l 0).

Lemma no_double_app a b :
  no_double (a ++ b) = no_double a && no_double b
    && negb (ends_dash a && match b with y :: _ => dash y | [] => false end).
Proof.
  induction a as [|x a IH]; cbn [app no_double].
  - destruct b; cbn [negb andb]; rewrite ?andb_true_r; done.
  - rewrite IH. destruct a as [|y a].
    + cbn [app]. destruct b as [|y b]; unfold ends_dash; cbn [List.last no_double andb];
        rewrite ?andb_false_r, ?andb_true_r; cbn [negb]; [done|].
      rewrite andb_comm. done.
    + cbn [app]. change (ends_dash (x :: y :: a)) with (ends_dash (y :: a)).
      rewrite !andb_assoc. done.
Qed.

Lemma sanitize_step_eq out c :
  sanitize_step out c =
    let c := if is_name_char c then c else 45 in
    if dash c && ends_dash out then out else out ++ [c].
Proof.
  unfold sanitize_step, ends_dash, dash. cbv zeta. destruct (_ =? 45); [|done]. cbn [andb].
  destruct (List.last out 0 =? 45) eqn:E; bprop.
  - rewrite E. done.
  - destruct (List.last out 0) as [|q|q]; try done.
    repeat (destruct q as [q|q|]; try done); lia.
Qed.

Lemma sanitize_step_clean out c :
  forallb is_name_char out = true -> no_double out = true ->
  forallb is_name_char (sanitize_step out c) = true /\
  no_double (sanitize_step out c) = true.
Proof.
  intros H1 H2. rewrite sanitize_step_eq. cbv zeta.
  assert (Hc : is_name_char (if is_name_char c then c else 45) = true)
    by (destruct (is_name_char c) eqn:E; [exact E|reflexivity]).
  destruct (_ && _) eqn:E; [done|]. rewrite forallb_app, no_double_app, H1, H2.
  cbn [forallb no_double andb]. rewrite Hc. split; [done|].
  rewrite andb_comm, E. done.
Qed.

Lemma fold_sanitize_clean s out :
  forallb is_name_char out = true -> no_double out = true ->
  forallb is_name_char (fold_left sanitize_step s out) = true /\
  no_double (fold_left sanitize_step s out) = true.
Proof.
  revert out. induction s as [|c s IH]; intros out H1 H2; [done|]. cbn [fold_left].
  apply IH; apply sanitize_step_clean; done.
Qed.

Lemma fold_sanitize_id s out :
  forallb is_name_char s = true -> no_double (out ++ s) = true ->
  fold_left sanitize_step s out = out ++ s.
Proof.
  revert out. induction s as [|c s IH]; intros out H1 H2; [rewrite app_nil_r; done|].
  cbn [forallb] in H1. apply andb_prop in H1 as [Hc H1]. cbn [fold_left].
  assert (E : sanitize_step out c = out ++ [c]).
  { rewrite sanitize_step_eq. cbv zeta. rewrite Hc. rewrite no_double_app in H2.
    apply andb_prop in H2 as [_ H2]. apply negb_true_iff in H2. rewrite andb_comm, H2. done. }
  rewrite E, IH; rewrite <- ?app_assoc; done.
Qed.

(** What a sanitized name looks like. *)
Lemma sanitize_clean s :
  forallb is_name_char (sanitize_display_name s) = true /\
  no_double (sanitize_display_name s) = true /\
  match sanitize_display_name s with [] => True | x :: _ => (45 =? x) = false end /\
  match rev (sanitize_display_name s) with [] => True | x :: _ => (45 =? x) = false end.
Proof.
  unfold sanitize_display_name. destruct (fold_sanitize_clean s []) as [H1 H2]; [done..|].
  set (l := fold_left _ _ _) in *. destruct (trim_spec (Z.eqb 45) l) as (a & b & E & Ha & Hb).
  rewrite E, !forallb_app in H1. rewrite E, !no_double_app in H2. bprop. split_and!; done.
Qed.

Lemma name_char_not_space c : is_name_char c = true -> is_js_whitespace c = false.
Proof.
  unfold is_name_char, is_ascii_alphanumeric, is_ascii_alphabetic, is_ascii_digit,
    is_ascii_lowercase, is_ascii_uppercase, is_js_whitespace, in_range.
  intros H. repeat rewrite orb_true_iff in H. repeat rewrite andb_true_iff in H.
  rewrite !Z.leb_le, !Z.eqb_eq in H.
  rewrite !orb_false_iff, !andb_false_iff, !Z.leb_gt, !Z.eqb_neq. lia.
Qed.

Lemma name_char_not_control c :
  is_name_char c = true -> is_control c || (c =? 8232) || (c =? 8233) = false.
Proof.
  unfold is_name_char, is_ascii_alphanumeric, is_ascii_alphabetic, is_ascii_digit,
    is_ascii_lowercase, is_ascii_uppercase, is_control, in_range.
  intros H. repeat rewrite orb_true_iff in H. repeat rewrite andb_true_iff in H.
  rewrite !Z.leb_le, !Z.eqb_eq in H.
  rewrite !orb_false_iff, !andb_false_iff, !Z.leb_gt, !Z.eqb_neq, Z.ltb_ge. lia.
Qed.

Lemma trim_name s : forallb is_name_char s = true -> js_trim s = s.
Proof.
  intros H. apply trim_id.
  - destruct s; [done|]. apply name_char_not_space. cbn in H. bprop. done.
  - assert (H' : forallb is_name_char (rev s) = true).
    { apply forallb_forall. intros x Hx. rewrite forallb_forall in H.
      apply H, in_rev. done. }
    destruct (rev s); [done|]. apply name_char_not_space. cbn in H'. bprop. done.
Qed.

Lemma name_len c : is_name_char c = true -> len_utf8 c = 1.
Proof.
  unfold is_name_char, is_ascii_alphanumeric, is_ascii_alphabetic, is_ascii_digit,
    is_ascii_lowercase, is_ascii_uppercase, in_range, len_utf8.
  intros H. repeat rewrite orb_true_iff in H. repeat rewrite andb_true_iff in H.
  rewrite !Z.leb_le, !Z.eqb_eq in H. replace (c <? 128) with true; [done|].
  symmetry. apply Z.ltb_lt. lia.
Qed.

Lemma byte_len_name s : forallb is_name_char s = true -> byte_len s = blen s.
Proof.
  induction s as [|c s IH]; [done|]. cbn [forallb]. intros H. bprop.
  unfold byte_len in *. cbn [fold_right]. rewrite blen_cons, name_len, IH by done. done.
Qed.

(** ** The theorems *)

(** an id that is accepted names one file: it is not empty, not [.] or [..],
    holds no separator or NUL, and leaves room in a 255-byte file name for the
    longest registry suffix; such an id is refused for no other reason. *)
Theorem validate_name_lexical_spec (name : bytes) :
  validate_name_lexical name = Ok tt <->
  name <> [] /\ name <> [46] /\ name <> [46; 46] /\
  Forall (fun c => is_name_char c = true /\ c <> 47 /\ c <> 0) name /\ blen name <= 209.
Proof.
  assert (Hu : forallb is_name_char name = true -> utf16_len name = blen name).
  { clear. induction name as [|c s IH]; [done|]. cbn [forallb]. intros H. bprop.
    unfold utf16_len in *. cbn [fold_right]. rewrite blen_cons, IH by done.
    pose proof (name_len c H) as L. unfold len_utf8 in L.
    destruct (c <? 128) eqn:E; [|destruct (c <? 2048), (c <? 65536); lia].
    replace (c <? 65536) with true; [done|]. symmetry. apply Z.ltb_lt. bprop. lia. }
  assert (Hf : Forall (fun c => is_name_char c = true /\ c <> 47 /\ c <> 0) name <->
               forallb is_name_char name = true).
  { rewrite forallb_forall, Forall_forall. setoid_rewrite list_elem_of_In.
    split; [intros H x Hx; apply H, Hx|]. intros H x Hx. specialize (H x Hx).
    split_and!; [done| |]; intros ->; discriminate. }
  rewrite Hf. unfold validate_name_lexical.
  destruct (beq name []) eqn:E1; [apply beq_eq in E1; split; [done|tauto]|].
  apply beq_neq in E1. destruct (beq name [46]) eqn:E2;
    [apply beq_eq in E2; split; [done|tauto]|]. apply beq_neq in E2.
  destruct (beq name [46; 46]) eqn:E3; [apply beq_eq in E3; split; [done|tauto]|].
  apply beq_neq in E3. cbn [orb].
  destruct (forallb is_name_char name) eqn:E4; cbn [negb].
  - rewrite byte_len_name, Hu by done.
    destruct (255 <? blen name) eqn:E5; bprop; [split; [done|lia]|].
    destruct (209 <? blen name) eqn:E6; bprop; split; try done; lia || tauto.
  - destruct (255 <? _); split; try done; intros (_ & _ & _ & ? & _); done.
Qed.

(** the automatic display name is one the registry accepts, whatever the
    directory and command are called, unless nothing is left of it or it is too
    long; and sanitizing it again changes nothing. *)
Theorem auto_display_name_valid (cwd cmd : bytes) (args : list bytes) :
  let r := auto_display_name cwd cmd args in
  (r = [] \/ 160 < blen r \/ validate_display_name r = Ok tt) /\
  sanitize_display_name r = r.
Proof.
  cbv zeta. unfold auto_display_name. set (c := _ ++ [45] ++ _). clearbody c.
  destruct (sanitize_clean c) as (H1 & H2 & H3 & H4). set (r := sanitize_display_name c) in *.
  clearbody r. split.
  - destruct (beq r []) eqn:E0; [apply beq_eq in E0; auto|].
    destruct (Z.lt_ge_cases 160 (blen r)) as [|Hl]; [auto|]. right. right.
    unfold validate_display_name. rewrite E0, trim_name, beq_refl by done. cbn [negb].
    replace (160 <? blen r) with false by (symmetry; apply Z.ltb_ge; done).
    replace (existsb _ r) with false; [done|]. symmetry. apply not_true_is_false.
    rewrite existsb_exists. intros (x & Hx & Hc). rewrite forallb_forall in H1.
    rewrite name_char_not_control in Hc by auto. done.
  - unfold sanitize_display_name. rewrite fold_sanitize_id by done. cbn [app].
    apply trim_id; done.
Qed.
