(* ===== verification/Text.v ===== *)
(** Strings as the Rust standard library cuts and parses them: lines, fields split
    at whitespace, the last occurrence of a character, signed numbers, and the
    decoding of UTF-8.  Shared by the readers of kernel and tool output. *)
From S2P Require Import Prelude Time Names.

(** ** UTF-8 *)

Definition cont (b : Z) : bool := in_range 128 191 b.
Definition scalar2 (a b : Z) : Z := (a - 192) * 64 + (b - 128).
Definition scalar3 (a b c : Z) : Z := (a - 224) * 4096 + (b - 128) * 64 + (c - 128).
Definition scalar4 (a b c d : Z) : Z :=
  (a - 240) * 262144 + (b - 128) * 4096 + (c - 128) * 64 + (d - 128).

(** [str::from_utf8]: no overlong form, no surrogate, nothing above U+10FFFF. *)
Fixpoint from_utf8 (l : bytes) : option bytes :=
  match l with
  | [] => Some []
  | a :: l1 =>
      if in_range 0 127 a then cons a <$> from_utf8 l1
      else match l1 with
      | [] => None
      | b :: l2 =>
          if in_range 194 223 a
          then if cont b then cons (scalar2 a b) <$> from_utf8 l2 else None
          else match l2 with
          | [] => None
          | c :: l3 =>
              if in_range 224 239 a
              then if cont b && cont c && negb ((a =? 224) && (b <? 160)) && negb ((a =? 237) && (159 <? b))
                   then cons (scalar3 a b c) <$> from_utf8 l3 else None
              else match l3 with
              | [] => None
              | d :: l4 =>
                  if in_range 240 244 a && cont b && cont c && cont d
                     && negb ((a =? 240) && (b <? 144)) && negb ((a =? 244) && (143 <? b))
                  then cons (scalar4 a b c d) <$> from_utf8 l4 else None
              end
          end
      end
  end.

(** [str::split_whitespace]: the non-empty pieces between whitespace. *)
Definition is_nonempty {A} (l : list A) : bool := match l with [] => false | _ => true end.
Definition split_whitespace (s : bytes) : list bytes :=
  List.filter is_nonempty (split_on is_trim_space s).

(** [str::trim_start], [trim_start_matches]. *)
Definition trim_start (p : Z -> bool) (s : bytes) : bytes := snd (span p s).

(** [str::lines]: pieces ended by LF, a CR before it dropped; what follows the last
    LF is a line only if it is not empty. *)
Definition drop_cr (l : bytes) : bytes :=
  match strip_suffix [13] l with Some l' => l' | None => l end.
Fixpoint lines_of (pieces : list bytes) : list bytes :=
  match pieces with
  | [] => []
  | [last] => if is_nonempty last then [last] else []
  | l :: rest => drop_cr l :: lines_of rest
  end.
Definition lines (s : bytes) : list bytes := lines_of (split_on (Z.eqb 10) s).

(** What follows the last occurrence of a character: [&s[s.rfind(c)? + 1..]]. *)
Fixpoint after_last (c : Z) (s : bytes) : option bytes :=
  match s with
  | [] => None
  | x :: s' => match after_last c s' with
               | Some t => Some t
               | None => if x =? c then Some s' else None
               end
  end.

Definition I32_MIN : Z := -2147483648.
Definition I32_MAX : Z := 2147483647.
Definition U64_MAX : Z := 18446744073709551615.

(** [str::parse] of a signed integer: one optional sign, then digits. *)
Definition parse_signed (min max : Z) (s : bytes) : option Z :=
  match s with
  | 45 :: d =>
      match d with
      | [] => None
      | _ => match digits_value 0 d with
             | Some v => if min <=? - v then Some (- v) else None
             | None => None
             end
      end
  | _ => parse_unsigned max s
  end.
Definition parse_i32 : bytes -> option Z := parse_signed I32_MIN I32_MAX.
Definition parse_u64 : bytes -> option Z := parse_unsigned U64_MAX.

(** The texts [str::parse::<f64>] accepts: an optional sign, then an infinity, a
    NaN, or digits with an optional point (a digit on at least one side) and an
    optional exponent.  Such a float is kept as its text. *)
Definition lower (s : bytes) : bytes := map to_ascii_lowercase s.
Definition drop_sign (s : bytes) : bytes :=
  match s with c :: s' => if (c =? 43) || (c =? 45) then s' else s | [] => [] end.
Definition is_exponent (s : bytes) : bool :=
  match s with
  | [] => true
  | c :: e =>
      ((c =? 101) || (c =? 69)) && is_nonempty (drop_sign e) && forallb is_ascii_digit (drop_sign e)
  end.
Definition is_float (s : bytes) : bool :=
  let u := drop_sign s in
  if existsb (beq (lower u)) [str "inf"; str "infinity"; str "nan"] then true
  else
    let '(int, r) := span is_ascii_digit u in
    match r with
    | 46 :: r' =>
        let '(frac, r) := span is_ascii_digit r' in
        (is_nonempty int || is_nonempty frac) && is_exponent r
    | _ => is_nonempty int && is_exponent r
    end.
Definition parse_f64 (s : bytes) : option bytes := if is_float s then Some s else None.

(** ** Lemmas *)

Lemma digits_value_app l m acc :
  digits_value acc (l ++ m) = match digits_value acc l with Some v => digits_value v m | None => None end.
Proof.
  revert acc. induction l as [|d l IH]; intros acc; cbn; [done|].
  destruct (is_ascii_digit d); [apply IH|done].
Qed.

Lemma dec_digits_acc fuel n acc : dec_digits fuel n acc = dec_digits fuel n [] ++ acc.
Proof.
  revert n acc. induction fuel as [|f IH]; intros n acc; cbn [dec_digits]; [done|].
  destruct (n <? 10); [done|]. rewrite IH, (IH _ [_]), <- app_assoc. done.
Qed.

Lemma ascii_digit_mod n : is_ascii_digit (48 + n mod 10) = true.
Proof.
  pose proof (Z.mod_pos_bound n 10 ltac:(lia)). unfold is_ascii_digit, in_range.
  apply andb_true_intro. split; apply Z.leb_le; lia.
Qed.

Lemma digits_value_dec fuel n :
  0 <= n < 2 ^ Z.of_nat fuel -> digits_value 0 (dec_digits fuel n []) = Some n.
Proof.
  revert n. induction fuel as [|f IH]; intros n Hn.
  { change (2 ^ Z.of_nat 0) with 1 in Hn. cbn. f_equal. lia. }
  cbn [dec_digits]. destruct (n <? 10) eqn:E.
  - apply Z.ltb_lt in E. cbn [digits_value]. rewrite ascii_digit_mod, Z.mod_small by lia. f_equal. lia.
  - apply Z.ltb_ge in E. rewrite dec_digits_acc, digits_value_app, IH.
    + cbn [digits_value]. rewrite ascii_digit_mod. f_equal. pose proof (Z.div_mod n 10). lia.
    + rewrite Nat2Z.inj_succ, Z.pow_succ_r in Hn by lia. split; [apply Z.div_pos; lia|].
      apply Z.div_lt_upper_bound; lia.
Qed.

Lemma dec_digits_all fuel n : forallb is_ascii_digit (dec_digits fuel n []) = true.
Proof.
  revert n. induction fuel as [|f IH]; intros n; cbn [dec_digits]; [done|].
  destruct (n <? 10); [|rewrite dec_digits_acc, forallb_app, IH]; cbn [forallb]; rewrite ascii_digit_mod; done.
Qed.

Lemma dec_nat_cons n : exists d l, dec_nat n = d :: l.
Proof.
  unfold dec_nat. cbn [dec_digits]. destruct (n <? 10); [eauto|].
  rewrite dec_digits_acc. destruct (dec_digits _ _ []); cbn; eauto.
Qed.

Lemma dec_nat_digits n : forallb is_ascii_digit (dec_nat n) = true.
Proof. apply dec_digits_all. Qed.

Lemma digits_value_dec_nat n : 0 <= n -> digits_value 0 (dec_nat n) = Some n.
Proof.
  intros Hn. apply digits_value_dec. split; [done|].
  destruct (Z.eq_dec n 0) as [->|]; [done|]. pose proof (Z.log2_spec n ltac:(lia)).
  pose proof (Z.log2_nonneg n). rewrite Nat2Z.inj_succ, Z2Nat.id by done. lia.
Qed.

(** Printing a number and parsing it back. *)
Lemma parse_unsigned_dec max n : 0 <= n <= max -> parse_unsigned max (dec n) = Some n.
Proof.
  intros Hn. unfold dec. destruct (n <? 0) eqn:E; [apply Z.ltb_lt in E; lia|].
  pose proof (digits_value_dec_nat n ltac:(lia)) as Hv. pose proof (dec_nat_digits n) as Hd.
  destruct (dec_nat_cons n) as (d & l & E'). rewrite E' in *. unfold parse_unsigned.
  assert (Hd0 : is_ascii_digit d = true) by (cbn in Hd; apply andb_prop in Hd; tauto).
  assert (Hne : d <> 43) by (intros ->; discriminate).
  destruct (decide (d = 43)); [done|].
  assert (Hm : match d :: l with 43 :: r => r | _ => d :: l end = d :: l).
  { destruct d as [|p|p]; try done. repeat (destruct p; try done). }
  rewrite Hm, Hv. destruct (n <=? max) eqn:E2; [done|]. apply Z.leb_gt in E2. lia.
Qed.

Lemma parse_signed_dec min max n :
  min <= n <= max -> min <= 0 -> 0 <= max -> parse_signed min max (dec n) = Some n.
Proof.
  intros Hn Hmin Hmax. unfold dec. destruct (n <? 0) eqn:E.
  - apply Z.ltb_lt in E. cbn [parse_signed]. destruct (dec_nat_cons (- n)) as (d & l & E').
    pose proof (digits_value_dec_nat (- n) ltac:(lia)) as Hv. rewrite E' in *. rewrite Hv.
    rewrite Z.opp_involutive. destruct (min <=? n) eqn:E2; [done|]. apply Z.leb_gt in E2. lia.
  - apply Z.ltb_ge in E. pose proof (parse_unsigned_dec max n ltac:(lia)) as Hu. unfold dec in Hu.
    destruct (n <? 0) eqn:E3; [apply Z.ltb_lt in E3; lia|].
    pose proof (dec_nat_digits n) as Hd. destruct (dec_nat_cons n) as (d & l & E'). rewrite E' in *.
    assert (Hd0 : is_ascii_digit d = true) by (cbn in Hd; apply andb_prop in Hd; tauto).
    unfold parse_signed. assert (Hne : d <> 45) by (intros ->; discriminate).
    destruct d as [|p|p]; try done. repeat (destruct p; try done).
Qed.

Lemma span_all {A} (p : A -> bool) l r :
  forallb p l = true -> (forall x t, r = x :: t -> p x = false) -> span p (l ++ r) = (l, r).
Proof.
  induction l as [|x l IH]; cbn; intros Hl Hr.
  - destruct r as [|y t]; cbn; [done|]. rewrite (Hr y t eq_refl). done.
  - apply andb_prop in Hl as [-> Hl]. rewrite IH; done.
Qed.

(** A field that holds no whitespace and the rest of the line after a space. *)
Definition is_field (s : bytes) : bool :=
  is_nonempty s && forallb (fun c => negb (is_trim_space c)) s.

Lemma split_on_app {A} (p : A -> bool) f s r :
  forallb (fun c => negb (p c)) f = true -> p s = true ->
  split_on p (f ++ s :: r) = f :: split_on p r.
Proof.
  intros Hf Hs. induction f as [|x f IH]; cbn.
  - rewrite Hs. done.
  - cbn in Hf. apply andb_prop in Hf as [Hx Hf]. apply negb_true_iff in Hx. rewrite Hx, IH; done.
Qed.

Lemma split_on_none {A} (p : A -> bool) f :
  forallb (fun c => negb (p c)) f = true -> split_on p f = [f].
Proof.
  induction f as [|x f IH]; cbn; [done|]. intros [Hx Hf]%andb_prop. apply negb_true_iff in Hx.
  rewrite Hx, IH; done.
Qed.

Lemma split_whitespace_cons f s r :
  is_field f = true -> is_trim_space s = true ->
  split_whitespace (f ++ s :: r) = f :: split_whitespace r.
Proof.
  unfold is_field. intros [Hn Hf]%andb_prop Hs. unfold split_whitespace.
  rewrite split_on_app by done. cbn [List.filter]. rewrite Hn. done.
Qed.

Lemma split_whitespace_one f : is_field f = true -> split_whitespace f = [f].
Proof.
  unfold is_field. intros [Hn Hf]%andb_prop. unfold split_whitespace. rewrite split_on_none by done.
  cbn. rewrite Hn. done.
Qed.

Lemma split_whitespace_space s r :
  is_trim_space s = true -> split_whitespace (s :: r) = split_whitespace r.
Proof. intros Hs. unfold split_whitespace. cbn [split_on]. rewrite Hs. done. Qed.

Lemma digits_field s : s <> [] -> forallb is_ascii_digit s = true -> is_field s = true.
Proof.
  intros Hne Hd. unfold is_field. apply andb_true_intro. split; [destruct s; done|].
  rewrite forallb_forall in *. intros x Hx. specialize (Hd x Hx). unfold is_ascii_digit, in_range in Hd.
  bprop. unfold is_trim_space, in_range.
  repeat match goal with |- context [?a <=? ?b] => destruct (Z.leb_spec a b); try lia
                    | |- context [?a =? ?b] => destruct (Z.eqb_spec a b); try lia end; done.
Qed.

Lemma dec_field n : is_field (dec n) = true.
Proof.
  assert (Hd : forall m, is_field (dec_nat m) = true).
  { intros m. apply digits_field; [|apply dec_nat_digits]. destruct (dec_nat_cons m) as (d & l & ->). done. }
  unfold dec. destruct (n <? 0); [|apply Hd]. specialize (Hd (- n)). unfold is_field in *.
  apply andb_prop in Hd as [_ Hd]. cbn. done.
Qed.

Lemma after_last_app c a b :
  existsb (Z.eqb c) b = false -> after_last c (a ++ c :: b) = Some b.
Proof.
  intros Hb. assert (Hn : after_last c b = None).
  { induction b as [|x b IH]; cbn in *; [done|]. apply orb_false_elim in Hb as [Hx Hb].
    rewrite IH by done. rewrite Z.eqb_sym in Hx. rewrite Hx. done. }
  induction a as [|x a IH]; cbn; [rewrite Hn, Z.eqb_refl; done|rewrite IH; done].
Qed.

Lemma from_utf8_ascii l : forallb (in_range 0 127) l = true -> from_utf8 l = Some l.
Proof.
  induction l as [|a l IH]; cbn; [done|]. intros [-> Hl]%andb_prop. rewrite IH by done. done.
Qed.
