(* ===== verification/Order.v ===== *)
(** [slice::sort_by] and its kin: a stable sort by a boolean order, and what it
    gives when the order is total; the order of strings, and ordered sets of them. *)
From S2P Require Import Prelude.
From Stdlib Require Import Sorting.Permutation Sorting.Sorted.

Section Sort.
Context {A : Type} (le : A -> A -> bool).

Fixpoint insert_sorted (x : A) (l : list A) : list A :=
  match l with
  | [] => [x]
  | y :: l' => if le x y then x :: l else y :: insert_sorted x l'
  end.
Definition sort_by (l : list A) : list A := foldr insert_sorted [] l.

Definition sorted (l : list A) : Prop := StronglySorted (fun a b => le a b = true) l.

Lemma insert_sorted_perm x l : insert_sorted x l ≡ₚ x :: l.
Proof.
  induction l as [|y l IH]; cbn; [done|]. destruct (le x y); [done|].
  rewrite IH. apply perm_swap.
Qed.

Lemma sort_by_perm l : sort_by l ≡ₚ l.
Proof. induction l as [|x l IH]; cbn; [done|]. rewrite insert_sorted_perm, IH. done. Qed.

Lemma elem_of_sort_by x l : x ∈ sort_by l <-> x ∈ l.
Proof. rewrite (sort_by_perm l). done. Qed.

Lemma insert_sorted_sorted x r :
  (forall a b, le a b = true \/ le b a = true) ->
  (forall a b c, le a b = true -> le b c = true -> le a c = true) ->
  sorted r -> sorted (insert_sorted x r).
Proof.
  intros Htot Htr. induction r as [|y r IH]; cbn; intros Hr; [repeat constructor|].
  inversion Hr as [|? ? Hs Hy]; subst. destruct (le x y) eqn:E.
  - constructor; [done|]. constructor; [done|]. eapply Forall_impl; [exact Hy|]. cbn. eauto.
  - constructor; [apply IH, Hs|]. rewrite insert_sorted_perm. constructor; [|done].
    destruct (Htot x y); congruence.
Qed.

Lemma sort_by_sorted l :
  (forall a b, le a b = true \/ le b a = true) ->
  (forall a b c, le a b = true -> le b c = true -> le a c = true) ->
  sorted (sort_by l).
Proof.
  intros Htot Htr. induction l as [|x l IH]; cbn; [constructor|]. apply insert_sorted_sorted; done.
Qed.

(** Two sorted lists of the same elements are equal when ties are equal. *)
Lemma sorted_unique l1 l2 :
  (forall a b, a ∈ l1 -> b ∈ l1 -> le a b = true -> le b a = true -> a = b) ->
  sorted l1 -> sorted l2 -> l1 ≡ₚ l2 -> l1 = l2.
Proof.
  revert l2. induction l1 as [|x l1 IH]; intros l2 Hanti H1 H2 Hp.
  { apply Permutation_nil in Hp. done. }
  destruct l2 as [|y l2]; [symmetry in Hp; apply Permutation_nil in Hp; done|].
  inversion H1 as [|? ? Hs1 Hx]; inversion H2 as [|? ? Hs2 Hy]; subst.
  rewrite Forall_forall in Hx, Hy.
  assert (Hxy : x = y).
  { assert (Hin : x ∈ y :: l2) by (rewrite <- Hp; left).
    assert (Hin' : y ∈ x :: l1) by (rewrite Hp; left).
    apply elem_of_cons in Hin. destruct Hin as [->|Hin]; [done|]. pose proof Hin' as Hin2.
    apply elem_of_cons in Hin'. destruct Hin' as [->|Hin']; [done|].
    apply Hanti; [left|done|apply Hx, Hin'|apply Hy, Hin]. }
  subst y. f_equal. apply IH; try done.
  - intros a b Ha Hb. apply Hanti; right; done.
  - eapply Permutation_cons_inv, Hp.
Qed.

Lemma sort_by_unique l1 l2 :
  (forall a b, le a b = true \/ le b a = true) ->
  (forall a b c, le a b = true -> le b c = true -> le a c = true) ->
  (forall a b, a ∈ l1 -> b ∈ l1 -> le a b = true -> le b a = true -> a = b) ->
  l1 ≡ₚ l2 -> sort_by l1 = sort_by l2.
Proof.
  intros Htot Htr Hanti Hp. apply sorted_unique; try (apply sort_by_sorted; done).
  - intros a b. rewrite !elem_of_sort_by. apply Hanti.
  - rewrite !sort_by_perm. done.
Qed.
End Sort.

(** ** Strings, by their bytes *)

Fixpoint bytes_leb (a b : bytes) : bool :=
  match a, b with
  | [], _ => true
  | _, [] => false
  | x :: a', y :: b' => if x <? y then true else if x =? y then bytes_leb a' b' else false
  end.

Lemma bytes_leb_total a b : bytes_leb a b = true \/ bytes_leb b a = true.
Proof.
  revert b. induction a as [|x a IH]; intros [|y b]; cbn; auto.
  destruct (x <? y) eqn:E1; [auto|]. destruct (y <? x) eqn:E2; [auto|].
  assert (x = y) as -> by lia. rewrite Z.eqb_refl. apply IH.
Qed.
Lemma bytes_leb_trans a b c : bytes_leb a b = true -> bytes_leb b c = true -> bytes_leb a c = true.
Proof.
  revert b c. induction a as [|x a IH]; intros [|y b] [|z c]; cbn; try done.
  repeat match goal with |- context [if ?x then _ else _] => destruct x eqn:? end; try done; try lia.
  apply IH.
Qed.
Lemma bytes_leb_antisym a b : bytes_leb a b = true -> bytes_leb b a = true -> a = b.
Proof.
  revert b. induction a as [|x a IH]; intros [|y b]; cbn; try done.
  repeat match goal with |- context [if ?x then _ else _] => destruct x eqn:? end; try done; try lia.
  intros H1 H2. f_equal; [lia|apply IH; done].
Qed.

(** [BTreeSet<&str>], as the list of its elements in order. *)
Definition btree_set (l : list bytes) : list bytes := sort_by bytes_leb (remove_dups l).

Lemma elem_of_btree_set x l : x ∈ btree_set l <-> x ∈ l.
Proof. unfold btree_set. rewrite elem_of_sort_by, elem_of_remove_dups. done. Qed.
Lemma NoDup_btree_set l : NoDup (btree_set l).
Proof. unfold btree_set. rewrite sort_by_perm. apply NoDup_remove_dups. Qed.
Lemma btree_set_sorted l : sorted bytes_leb (btree_set l).
Proof. apply sort_by_sorted; [apply bytes_leb_total|apply bytes_leb_trans]. Qed.

(** A set of strings has one list. *)
Lemma btree_set_unique l1 l2 : (forall x, x ∈ l1 <-> x ∈ l2) -> btree_set l1 = btree_set l2.
Proof.
  intros H. unfold btree_set. apply sort_by_unique; [apply bytes_leb_total|apply bytes_leb_trans| |].
  - intros a b _ _. apply bytes_leb_antisym.
  - apply list.NoDup_Permutation; [apply NoDup_remove_dups|apply NoDup_remove_dups|].
    intros x. rewrite !elem_of_remove_dups. apply H.
Qed.

Lemma sort_by_sorted_id l : sorted bytes_leb l -> sort_by bytes_leb l = l.
Proof.
  intros H. apply (sorted_unique bytes_leb); [|apply sort_by_sorted; [apply bytes_leb_total|apply bytes_leb_trans]
    |done|apply sort_by_perm].
  intros a b _ _. apply bytes_leb_antisym.
Qed.

(** ** Lists filtered and joined *)

Lemma concat_nil {A} (l : list (list A)) : concat l = [] <-> forall x, x ∈ l -> x = [].
Proof.
  induction l as [|x l IH]; cbn; [split; [intros _ x Hx; inversion Hx|done]|]. split.
  - intros [-> Hl]%app_eq_nil y Hy. apply elem_of_cons in Hy. destruct Hy as [->|Hy]; [done|]. apply IH; done.
  - intros Hx. rewrite (Hx x) by left. apply IH. intros y Hy. apply Hx. right. done.
Qed.

Lemma elem_of_omap {A B} (f : A -> option B) (l : list A) y : y ∈ omap f l <-> exists x, x ∈ l /\ f x = Some y.
Proof. apply list_elem_of_omap. Qed.

Lemma elem_of_concat {A} (l : list (list A)) x : x ∈ concat l <-> exists y, y ∈ l /\ x ∈ y.
Proof.
  rewrite list_elem_of_In, in_concat. split; intros (y & H1 & H2); exists y;
    rewrite ?list_elem_of_In in *; done.
Qed.
Lemma concat_map_sub {A B} (f : A -> list B) (g : A -> list B) l l' x :
  (forall a, a ∈ l -> a ∈ l' /\ forall y, y ∈ f a -> y ∈ g a) ->
  x ∈ concat (map f l) -> x ∈ concat (map g l').
Proof.
  intros Hsub. rewrite !elem_of_concat. intros (y & Hy & Hx). apply elem_of_map in Hy as (a & -> & Ha).
  destruct (Hsub a Ha) as [Ha' Hfg]. exists (g a). split; [apply elem_of_map; eauto|apply Hfg, Hx].
Qed.

Lemma filter_sorted (p : bytes -> bool) l : sorted bytes_leb l -> sorted bytes_leb (List.filter p l).
Proof.
  induction 1 as [|x l Hl IH Hx]; cbn; [constructor|]. destruct (p x); [|done]. constructor; [done|].
  rewrite Forall_forall in *. intros y [_ Hy]%elem_of_filterb. apply Hx, Hy.
Qed.
Lemma filter_NoDup {A} (p : A -> bool) l : NoDup l -> NoDup (List.filter p l).
Proof.
  induction 1 as [|x l Hx Hl IH]; cbn; [constructor|]. destruct (p x); [|done]. constructor; [|done].
  rewrite elem_of_filterb. tauto.
Qed.

Lemma sole_element (nm : bytes) (l : list bytes) : NoDup l -> (forall x, x ∈ l -> x = nm) ->
  l = if bool_decide (nm ∈ l) then [nm] else [].
Proof.
  intros Hn Ho. destruct l as [|x l]; [done|]. assert (x = nm) as -> by (apply Ho; left).
  rewrite bool_decide_eq_true_2 by left. f_equal. destruct l as [|y l]; [done|].
  assert (y = nm) as -> by (apply Ho; right; left). apply NoDup_cons in Hn as [Hn _]. destruct Hn. left.
Qed.
Lemma filter_one (nm : bytes) (l : list bytes) : NoDup l ->
  List.filter (fun x => beq x nm) l = if bool_decide (nm ∈ l) then [nm] else [].
Proof.
  intros Hn. rewrite (sole_element nm (List.filter (fun x => beq x nm) l)).
  - destruct (bool_decide (nm ∈ l)) eqn:E.
    + apply bool_decide_eq_true in E. rewrite bool_decide_eq_true_2; [done|]. apply elem_of_filterb.
      split; [apply beq_refl|done].
    + apply bool_decide_eq_false in E. rewrite bool_decide_eq_false_2; [done|]. rewrite elem_of_filterb. tauto.
  - apply filter_NoDup, Hn.
  - intros x [Hx _]%elem_of_filterb. apply beq_eq, Hx.
Qed.
