(* ===== verification/Mutate.v ===== *)
(** Record mutation under the creation lock: [crates/pty-core/src/registry/mutate.rs]
    (the locked read-check-mutate-reread-publish sequence, the tag
    compare-and-set) and the output-activity sidecar of [activity.rs] built on
    it.  The presentation patches are in [Patch.v]. *)
From S2P Require Import Prelude Json Metadata Names.

(** ** The registry's files *)

Record OutputActivity : Type := mkActivity {
  oa_generation : bytes;
  oa_last_output_at_ms : Z
}.

(** The [previous] / [value] halves of a [metadata_change] event. *)
Record MetadataChangeSnapshot : Type := mkSnapshot {
  snap_display_name : option (option bytes);
  snap_tags : option (IndexMap (option bytes))
}.

Inductive Event : Type :=
  | metadata_change (id : bytes) (previous value : MetadataChangeSnapshot)
  | display_name_change (id : bytes) (previous value : option bytes)
  | tags_change (id : bytes) (previous value : IndexMap bytes).

(** The registry directory: each [<name>.json] by the JSON value its bytes parse
    to (no entry for a missing file, any non-object for an unreadable one), the
    activity sidecars, and the event log. *)
Record World : Type := mkWorld {
  files : gmap bytes Value;
  activity : gmap bytes OutputActivity;
  events : list Event
}.

Definition set_file (name : bytes) (m : IndexMap Value) (w : World) : World :=
  mkWorld (<[name := VObj m]> (files w)) (activity w) (events w).

Definition read_metadata_map (w : World) (name : bytes) : option (IndexMap Value) :=
  match files w !! name with Some (VObj m) => Some m | _ => None end.

Definition read_metadata (w : World) (name : bytes) : option SessionMetadata :=
  let? m := read_metadata_map w name in from_map m.

(** What the call cannot control: whether [<name>.lock] is granted within a wait
    in milliseconds, the event lock's answer, what processes that do not take
    the lock do to the registry while the mutation runs, and whether the
    publishing write succeeds. *)
Record Weather : Type := mkWeather {
  lock_granted : Z -> bool;
  event_lock : Z -> Result unit bytes;
  others : World -> World;
  write_ok : bool
}.

(** ** The mutation *)

Record MutateOptions : Type := mkOptions {
  expected_generation : option bytes;
  expected_metadata : option SessionMetadata
}.

Inductive MutateStatus : Type :=
  | Busy
  | Missing
  | GenerationMismatch
  | Stale
  | Unchanged (m : SessionMetadata)
  | Changed (m : SessionMetadata).

Definition metadata_matches_observation (observed current : SessionMetadata) : bool :=
  match generation observed, generation current with
  | Some g, Some g' => beq g g'
  | None, None => value_eqb (VObj (to_map observed)) (VObj (to_map current))
  | _, _ => false
  end.

Definition guards_hold (options : MutateOptions) (current : SessionMetadata) : bool :=
  match expected_metadata options with
  | Some expected => metadata_matches_observation expected current
  | None => true
  end &&
  match expected_generation options with
  | Some expected => obeq (generation current) (Some expected)
  | None => true
  end.

(** The helper [operation]: the start-operation tag. *)
Definition operation_tag (m : SessionMetadata) : option bytes :=
  tag_of (str "st3.start-operation") (tags m).

Definition opt_eqb {A} (eqb : A -> A -> bool) (a b : option A) : bool :=
  match a, b with Some x, Some y => eqb x y | None, None => true | _, _ => false end.
Definition binding_eqb (a b : PublicationBinding) : bool :=
  beq (operation a) (operation b) && beq (digest a) (digest b).
Definition strs_eqb (a b : list bytes) : bool := bool_decide (a = b).
Definition is_some {A} (o : option A) : bool := match o with Some _ => true | None => false end.

(** Any of [keys] aliased in the flattened extras. *)
Definition aliased (keys : list string) (m : SessionMetadata) : bool :=
  existsb (fun k => contains_key (str k) (extra m)) keys.

(** Publication provenance and its aliases stay as they are. *)
Definition provenance_changed (before after : SessionMetadata) : bool :=
  negb (opt_eqb binding_eqb (publication_binding before) (publication_binding after))
  || negb (obeq (publication_root_id before) (publication_root_id after))
  || negb (opt_eqb Z.eqb (publication_capability before) (publication_capability after))
  || (is_some (publication_binding before)
      && (negb (obeq (operation_tag before) (operation_tag after))
          || contains_key (str "tags") (extra after)))
  || aliased ["publicationBinding"; "publicationRootId"; "publicationCapability"] after.

(** A bound session keeps its launch inputs. *)
Definition launch_changed (before after : SessionMetadata) : bool :=
  is_some (publication_binding before)
  && (negb (beq (command before) (command after))
      || negb (strs_eqb (args before) (args after))
      || negb (beq (cwd before) (cwd after))
      || negb (opt_eqb Bool.eqb (isolate_env before) (isolate_env after))
      || negb (opt_eqb (map_eqb beq) (extra_env before) (extra_env after))
      || negb (opt_eqb (map_eqb beq) (session_env before) (session_env after))
      || negb (opt_eqb strs_eqb (unset_env before) (unset_env after))
      || negb (opt_eqb (map_eqb beq) (env before) (env after))
      || aliased ["command"; "args"; "cwd"; "isolateEnv"; "extraEnv"; "sessionEnv";
                  "unsetEnv"; "env"] after).

(** A mutation closure: the record it leaves, whether it asks for a write, and
    what it captured for its caller. *)
Definition Mutation (S : Type) : Type := SessionMetadata -> SessionMetadata * bool * S.
Definition Hook : Type := SessionMetadata -> World -> World.
Definition no_hook : Hook := fun _ w => w.

Definition mutate_metadata_under_lock_core {S : Type} (e : Weather) (w : World)
  (name : bytes) (mutate : Mutation S) (options : MutateOptions)
  (on_published on_unchanged : Hook) (wait : Z) : World * MutateStatus * option S :=
  if negb (lock_granted e wait) then (w, Busy, None) else
  match read_metadata_map w name with
  | None => (w, Missing, None)
  | Some raw =>
    match from_map raw with
    | None => (w, Missing, None)
    | Some before =>
      if negb (guards_hold options before) then (w, GenerationMismatch, None) else
      let '(after, write, s) := mutate before in
      if negb write then (on_unchanged before w, Unchanged before, Some s) else
      if provenance_changed before after then (w, GenerationMismatch, Some s) else
      if launch_changed before after then (w, GenerationMismatch, Some s) else
      let w := others e w in
      match read_metadata_map w name with
      | None => (w, Stale, Some s)
      | Some latest_raw =>
        if negb (value_eqb (VObj latest_raw) (VObj raw)) then (w, Stale, Some s) else
        if negb (guards_hold options before) then (w, GenerationMismatch, Some s) else
        let published := apply_metadata_diff before after raw in
        if negb (write_ok e) then (w, Stale, Some s) else
        let w := set_file name published w in
        let published := match from_map published with Some p => p | None => after end in
        (on_published published w, Changed published, Some s)
      end
    end
  end.

Definition mutate_metadata_under_lock_with_wait {S} e w name (mutate : Mutation S) options
  on_published wait :=
  mutate_metadata_under_lock_core e w name mutate options on_published no_hook wait.

Definition mutate_metadata_under_lock_with {S} e w name (mutate : Mutation S) options
  on_published :=
  mutate_metadata_under_lock_with_wait e w name mutate options on_published 0.

Definition mutate_metadata_under_lock {S} e w name (mutate : Mutation S) options :=
  mutate_metadata_under_lock_with e w name mutate options no_hook.

Definition mutate_metadata_under_lock_settled {S} e w name (mutate : Mutation S) options
  on_settled :=
  mutate_metadata_under_lock_core e w name mutate options on_settled on_settled 0.

(** ** The output-activity sidecar *)

Definition write_output_activity (name : bytes) (a : OutputActivity) (w : World) : World :=
  mkWorld (files w) (<[name := a]> (activity w)) (events w).
Definition retire_output_activity (name : bytes) (w : World) : World :=
  mkWorld (files w) (delete name (activity w)) (events w).

Definition generation_fence (g : bytes) : MutateOptions := mkOptions (Some g) None.

(** The sidecar write is best effort: [write_ok] says whether it took place. *)
Definition publish_output_activity (e : Weather) (w : World) (name : bytes)
  (a : OutputActivity) : World * MutateStatus * option unit :=
  mutate_metadata_under_lock_settled e w name (fun m => (m, false, tt))
    (generation_fence (oa_generation a))
    (fun _ w => if write_ok e then write_output_activity name a w else w).

Definition record_exit_retiring_output_activity (e : Weather) (w : World)
  (name generation : bytes) (mutate : Mutation unit) : World * MutateStatus * option unit :=
  mutate_metadata_under_lock_settled e w name mutate (generation_fence generation)
    (fun _ w => retire_output_activity name w).

Definition newest_output_at_ms (metadata : SessionMetadata) (sidecar : option OutputActivity)
  : option Z :=
  match sidecar with
  | Some a =>
      if negb (has_exited metadata) && obeq (generation metadata) (Some (oa_generation a))
      then Some (oa_last_output_at_ms a) else last_output_at_ms metadata
  | None => last_output_at_ms metadata
  end.

Definition last_output_at_ms_in (w : World) (name : bytes) (metadata : SessionMetadata)
  : option Z :=
  let sidecar := if has_exited metadata then None else activity w !! name in
  newest_output_at_ms metadata sidecar.

(** ** The tag compare-and-set *)

Record TagCompareAndSetRequest : Type := mkCas {
  cas_expected_generation : bytes;
  cas_tag : bytes;
  cas_expected_value : bytes;
  cas_value : bytes
}.

Definition validate (r : TagCompareAndSetRequest) : bool :=
  negb (beq (cas_expected_generation r) []) && negb (beq (cas_tag r) []).

Inductive TagCompareAndSetResult : Type :=
  | TChanged (value : bytes)
  | TUnchanged (value : bytes)
  | TValueMismatch (value : option bytes)
  | TBusy
  | TMissing
  | TGenerationMismatch
  | TStale.

(** The closure: its captured [current_value] and [matched]. *)
Definition cas_mutation (tag expected_value value : bytes) : Mutation (option bytes * bool) :=
  fun metadata =>
    let current_value := tag_of tag (tags metadata) in
    if negb (obeq current_value (Some expected_value)) then (metadata, false, (current_value, false))
    else if obeq current_value (Some value) then (metadata, false, (current_value, true))
    else
      let t := match tags metadata with Some t => t | None => [] end in
      (set_tags (Some (minsert tag value t)) metadata, true, (current_value, true)).

Definition compare_and_set_tag_value (e : Weather) (w : World)
  (name expected_generation tag expected_value value : bytes)
  : World * TagCompareAndSetResult :=
  let '(w, status, captured) :=
    mutate_metadata_under_lock e w name (cas_mutation tag expected_value value)
      (generation_fence expected_generation) in
  (w, match status with
      | Changed _ => TChanged value
      | Unchanged _ =>
          match captured with
          | Some (_, true) => TUnchanged value
          | Some (current_value, false) => TValueMismatch current_value
          | None => TValueMismatch None
          end
      | Busy => TBusy
      | Missing => TMissing
      | GenerationMismatch => TGenerationMismatch
      | Stale => TStale
      end).

(** ** What a call can do *)

(** The one path to [Changed]: everything the call checked before publishing. *)
Lemma core_changed {S} e w name (mutate : Mutation S) o hp hu wait w' p s :
  mutate_metadata_under_lock_core e w name mutate o hp hu wait = (w', Changed p, s) ->
  exists raw before after c,
    lock_granted e wait = true /\ read_metadata_map w name = Some raw /\
    from_map raw = Some before /\ guards_hold o before = true /\
    mutate before = (after, true, c) /\ s = Some c /\
    provenance_changed before after = false /\ launch_changed before after = false /\
    write_ok e = true /\
    let d := apply_metadata_diff before after raw in
    p = match from_map d with Some x => x | None => after end /\
    w' = hp p (set_file name d (others e w)).
Proof.
  unfold mutate_metadata_under_lock_core. intros H.
  destruct (lock_granted e wait) eqn:?; cbn [negb] in H; [|discriminate].
  destruct (read_metadata_map w name) as [raw|] eqn:?; [|discriminate].
  destruct (from_map raw) as [before|] eqn:?; [|discriminate].
  destruct (guards_hold o before) eqn:?; cbn [negb] in H; [|discriminate].
  destruct (mutate before) as [[after write] c] eqn:?.
  destruct write; cbn [negb] in H; [|discriminate].
  destruct (provenance_changed before after) eqn:?; [discriminate|].
  destruct (launch_changed before after) eqn:?; [discriminate|].
  destruct (read_metadata_map (others e w) name) as [latest|] eqn:?; [|discriminate].
  destruct (value_eqb _ _) eqn:?; cbn [negb] in H; [|discriminate].
  destruct (write_ok e) eqn:?; cbn [negb] in H; [|discriminate].
  injection H as <- <- <-. exists raw, before, after, c. split_and!; done.
Qed.

(** Every other outcome leaves the registry to the other writers and the hook. *)
Lemma core_not_changed {S} e w name (mutate : Mutation S) o hp hu wait w' st s :
  mutate_metadata_under_lock_core e w name mutate o hp hu wait = (w', st, s) ->
  (forall p, st <> Changed p) ->
  w' = w \/ w' = others e w \/ exists m, st = Unchanged m /\ w' = hu m w.
Proof.
  unfold mutate_metadata_under_lock_core. intros H Hst.
  destruct (lock_granted e wait) eqn:?; cbn [negb] in H; [|left; congruence].
  destruct (read_metadata_map w name) as [raw|] eqn:?; [|left; congruence].
  destruct (from_map raw) as [before|] eqn:?; [|left; congruence].
  destruct (guards_hold o before) eqn:?; cbn [negb] in H; [|left; congruence].
  destruct (mutate before) as [[after write] c] eqn:?.
  destruct write; cbn [negb] in H;
    [|injection H as <- <- <-; right; right; eexists; split; reflexivity].
  destruct (provenance_changed before after) eqn:?; [left; congruence|].
  destruct (launch_changed before after) eqn:?; [left; congruence|].
  destruct (read_metadata_map (others e w) name) as [latest|] eqn:?; [|right; left; congruence].
  destruct (value_eqb _ _) eqn:?; cbn [negb] in H; [|right; left; congruence].
  destruct (write_ok e) eqn:?; cbn [negb] in H; [|right; left; congruence].
  injection H as <- <- <-. destruct (Hst _ eq_refl).
Qed.

Lemma read_set_file name m w : read_metadata_map (set_file name m w) name = Some m.
Proof. unfold read_metadata_map, set_file. cbn. rewrite lookup_insert_eq. done. Qed.

(** ** Equal fields encode to equal values *)

Lemma obeq_eq a b : obeq a b = true <-> a = b.
Proof. destruct a, b; cbn; rewrite ?beq_eq; split; congruence || done. Qed.

Lemma opt_eqb_iff {A} (eqb : A -> A -> bool) a b :
  (forall x y, eqb x y = true <-> x = y) -> opt_eqb eqb a b = true <-> a = b.
Proof. intros H. destruct a, b; cbn; rewrite ?H; split; congruence || done. Qed.

Lemma binding_eqb_eq a b : binding_eqb a b = true <-> a = b.
Proof.
  destruct a, b. unfold binding_eqb. cbn. rewrite andb_true_iff, !beq_eq.
  split; [intros []; congruence|intros [=]; done].
Qed.

Lemma strs_eqb_eq a b : strs_eqb a b = true <-> a = b.
Proof. unfold strs_eqb. apply bool_decide_eq_true. Qed.

Lemma enc_strs_refl l : value_eqb (enc_strs l) (enc_strs l) = true.
Proof.
  unfold enc_strs. cbn [value_eqb]. induction l as [|s l IH]; [done|].
  cbn [fmap list_fmap value_eqb]. rewrite beq_refl. exact IH.
Qed.

Lemma enc_binding_refl b : value_eqb (enc_binding b) (enc_binding b) = true.
Proof.
  destruct b as [o d]. unfold enc_binding. cbn -[str].
  change (beq (str "operation") (str "operation")) with true.
  change (beq (str "digest") (str "operation")) with false.
  change (beq (str "digest") (str "digest")) with true. cbn [operation digest].
  rewrite !beq_refl. done.
Qed.

(** The two records encode [k] alike. *)
Definition same_key (before after : SessionMetadata) (k : bytes) : Prop :=
  oeq (fun v w => value_eqb w v = true) (mget k (to_map after)) (mget k (to_map before)).

Lemma same_key_disk before after raw k :
  NoDup (mkeys raw) -> same_key before after k ->
  mget k (apply_metadata_diff before after raw) = mget k raw.
Proof. apply mget_diff_same. Qed.

Lemma contains_key_false {A} k (m : IndexMap A) : contains_key k m = false -> mget k m = None.
Proof. unfold contains_key. destruct (mget k m); done. Qed.

(** What the two immutability checks establish, key by key. *)
Definition provenance_keys : list bytes :=
  str <$> ["publicationBinding"; "publicationRootId"; "publicationCapability"].
Definition launch_keys : list bytes :=
  str <$> ["command"; "args"; "cwd"; "isolateEnv"; "extraEnv"; "sessionEnv"; "unsetEnv"; "env"].

Lemma forallb_negb_existsb {A} (f : A -> bool) l : existsb f l = false -> Forall (fun x => f x = false) l.
Proof. induction l as [|x l IH]; cbn; [constructor|]. intros H. bprop. constructor; auto. Qed.

Lemma same_key_typed before after k ob oa :
  mget k (extra before) = None -> mget k (extra after) = None ->
  mget k (typed_fields before) = Some ob -> mget k (typed_fields after) = Some oa ->
  oeq (fun v w => value_eqb w v = true) oa ob -> same_key before after k.
Proof.
  intros Hb Ha Tb Ta H. unfold same_key. rewrite !mget_to_map_typed, Tb, Ta by done. exact H.
Qed.

Lemma provenance_same before after :
  no_alias before -> provenance_changed before after = false ->
  Forall (same_key before after) provenance_keys /\
  publication_binding after = publication_binding before /\
  publication_root_id after = publication_root_id before /\
  publication_capability after = publication_capability before /\
  (is_some (publication_binding before) = true -> operation_tag after = operation_tag before).
Proof.
  intros Nb H. unfold provenance_changed in H. bprop.
  apply (opt_eqb_iff _ _ _ binding_eqb_eq) in H. apply obeq_eq in H3.
  apply (opt_eqb_iff _ _ _ Z.eqb_eq) in H2.
  unfold aliased in H0. cbn [existsb] in H0. bprop.
  repeat match goal with K : contains_key _ _ = false |- _ => apply contains_key_false in K end.
  split; [|split_and!; try done].
  - unfold provenance_keys. cbn [fmap list_fmap].
    repeat (apply Forall_cons; split); [..|apply Forall_nil_2];
      (eapply same_key_typed; [apply Nb; reflexivity|assumption|reflexivity|reflexivity|]).
    + rewrite H. destruct (publication_binding after); [apply enc_binding_refl|done].
    + rewrite H3. destruct (publication_root_id after); [apply beq_refl|done].
    + rewrite H2. destruct (publication_capability after); [apply Z.eqb_refl|done].
  - intros B. destruct H1 as [H1|H1]; [congruence|]. bprop. apply obeq_eq in H1. done.
Qed.

Lemma oeq_map_sym a b :
  opt_eqb (map_eqb beq) a b = true ->
  oeq (fun v w => value_eqb w v = true) (enc_map <$> b) (enc_map <$> a).
Proof.
  destruct a, b; cbn [opt_eqb fmap option_fmap option_map oeq]; try done.
  rewrite value_eqb_map. done.
Qed.

Lemma launch_same before after :
  no_alias before -> is_some (publication_binding before) = true ->
  launch_changed before after = false -> Forall (same_key before after) launch_keys.
Proof.
  intros Nb Hs H. unfold launch_changed in H. rewrite Hs in H. cbn [andb] in H. bprop.
  unfold aliased in H0. cbn [existsb] in H0. bprop.
  repeat match goal with K : contains_key _ _ = false |- _ => apply contains_key_false in K end.
  unfold launch_keys. cbn [fmap list_fmap].
  repeat (apply Forall_cons; split); [..|apply Forall_nil_2];
    (eapply same_key_typed; [apply Nb; reflexivity|assumption|reflexivity|reflexivity|]);
    try (apply oeq_map_sym; assumption).
  all: repeat match goal with
    | K : beq _ _ = true |- _ => apply beq_eq in K
    | K : strs_eqb _ _ = true |- _ => apply strs_eqb_eq in K
    | K : opt_eqb Bool.eqb _ _ = true |- _ =>
        apply (opt_eqb_iff _ _ _ eqb_true_iff) in K
    | K : opt_eqb strs_eqb _ _ = true |- _ => apply (opt_eqb_iff _ _ _ strs_eqb_eq) in K
    end.
  all: match goal with
    | |- oeq _ (Some (VStr _)) _ => cbn; apply beq_eq; congruence
    | |- oeq _ (Some (enc_strs _)) _ => cbn [oeq]; replace (args before) with (args after) by congruence; apply enc_strs_refl
    | |- oeq _ (VBool <$> _) _ => replace (isolate_env before) with (isolate_env after) by congruence; destruct (isolate_env after) as [[]|]; done
    | |- oeq _ (enc_strs <$> _) _ => replace (unset_env before) with (unset_env after) by congruence; destruct (unset_env after); [apply enc_strs_refl|done]
    end.
Qed.

(** ** Well-formed objects *)

Definition wf_object (raw : IndexMap Value) : Prop := wf_value (VObj raw).

Lemma dec_int_range lo hi v x : dec_int lo hi v = Some x -> lo <= x <= hi.
Proof.
  unfold dec_int. destruct v as [| |[z|]| | |]; try done. destruct (in_range lo hi z) eqn:E; [|done].
  intros [= <-]. unfold in_range in E. bprop. done.
Qed.

Lemma opt_field_int lo hi k raw o : opt_field (dec_int lo hi) k raw = Some o -> in_opt lo hi o.
Proof.
  unfold opt_field. destruct (mget k raw) as [v|]; [|intros [= <-]; done].
  assert (H : (let? x := dec_int lo hi v in Some (Some x)) = Some o -> in_opt lo hi o).
  { destruct (dec_int lo hi v) as [x|] eqn:E; [|done]. intros [= <-].
    apply (dec_int_range _ _ _ _ E). }
  destruct v; try done; try exact H. intros [= <-]. done.
Qed.

Lemma decodes_wf raw s : NoDup (mkeys raw) -> decodes raw s -> wf_meta s.
Proof.
  intros Hd []. unfold wf_meta. unfold dec_i32, dec_u16, dec_u32, dec_i64, dec_u64 in *.
  split_and!; try (eapply opt_field_int; eassumption).
  - unfold opt_field in *. intros E. rewrite E in *. destruct (mget (str "recovery") raw) as [[]|]; try done;
      cbn in *; congruence.
  - rewrite d_extra. apply Forall_forall. intros k Hk. unfold mkeys, unknown_entries in Hk.
    apply list_elem_of_fmap in Hk as (kv & -> & Hk). apply list_elem_of_filter in Hk as [Hk _]. done.
  - rewrite d_extra. apply NoDup_unknown, Hd.
Qed.

Lemma dec_map_keys m r : dec_map_list m = Some r -> mkeys r = mkeys m.
Proof.
  revert r. induction m as [|[k v] m IH]; intros r; cbn [dec_map_list]; [intros [= <-]; done|].
  destruct (as_str v); [|done]. cbn [mbind option_bind]. destruct (dec_map_list m) as [r'|]; [|done].
  cbn [mbind option_bind]. intros [= <-]. unfold mkeys in *. cbn. rewrite (IH r'); done.
Qed.

Lemma opt_field_map_keys raw k o :
  wf_object raw -> opt_field dec_map k raw = Some (Some o) -> NoDup (mkeys o).
Proof.
  intros Hw H. unfold opt_field in H. destruct (mget k raw) as [v|] eqn:E; [|done].
  destruct v; try done. cbn in H. destruct (dec_map_list m) as [r|] eqn:Er; [|done].
  cbn in H. injection H as <-. apply mget_Some_in in E.
  destruct (wf_value_entry _ _ _ Hw E) as [Hd _]. rewrite (dec_map_keys _ _ Er). exact Hd.
Qed.

Lemma map_eqb_refl m : NoDup (mkeys m) -> map_eqb beq m m = true.
Proof.
  intros Hd. unfold map_eqb. rewrite Nat.eqb_refl. cbn [andb]. apply forallb_forall.
  intros [k v] Hin. apply list_elem_of_In in Hin. cbn [fst snd].
  rewrite (in_mget_Some _ _ _ Hd Hin). apply beq_refl.
Qed.

Lemma opt_map_refl raw k o :
  wf_object raw -> opt_field dec_map k raw = Some o -> opt_eqb (map_eqb beq) o o = true.
Proof.
  intros Hw H. destruct o as [m|]; [|done]. apply map_eqb_refl, (opt_field_map_keys raw k); done.
Qed.

(** What both records share when a mutation touches presentation or lifecycle
    fields only. *)
Definition same_launch (before after : SessionMetadata) : Prop :=
  extra after = extra before /\ publication_binding after = publication_binding before /\
  publication_root_id after = publication_root_id before /\
  publication_capability after = publication_capability before /\
  command after = command before /\ args after = args before /\ cwd after = cwd before /\
  isolate_env after = isolate_env before /\ extra_env after = extra_env before /\
  session_env after = session_env before /\ unset_env after = unset_env before /\
  env after = env before.

Lemma no_alias_keys ks m :
  no_alias m -> forallb (fun k => is_known (str k)) ks = true -> aliased ks m = false.
Proof.
  intros H. unfold aliased. induction ks as [|k ks IH]; cbn [forallb existsb]; [done|].
  intros E. apply andb_prop in E as [E1 E2]. unfold contains_key at 1.
  rewrite (H (str k) E1). auto.
Qed.

Lemma checks_pass raw before after :
  wf_object raw -> decodes raw before -> same_launch before after ->
  (is_some (publication_binding before) = true -> operation_tag after = operation_tag before) ->
  provenance_changed before after = false /\ launch_changed before after = false.
Proof.
  intros Hw Hb (E0 & E1 & E2 & E3 & E4 & E5 & E6 & E7 & E8 & E9 & E10 & E11) Hop.
  pose proof (no_alias_decodes _ _ Hb) as Nb.
  assert (Na : no_alias after) by (intros k Hk; rewrite E0; apply Nb, Hk).
  unfold provenance_changed, launch_changed.
  rewrite E1, E2, E3, E4, E5, E6, E7, E8, E9, E10, E11.
  rewrite !no_alias_keys by (done || reflexivity).
  rewrite (proj2 (opt_eqb_iff _ _ _ binding_eqb_eq)), (proj2 (obeq_eq _ _)),
    (proj2 (opt_eqb_iff _ _ _ Z.eqb_eq)), !beq_refl, (proj2 (strs_eqb_eq _ _)),
    (proj2 (opt_eqb_iff _ _ _ eqb_true_iff)), (proj2 (opt_eqb_iff _ _ _ strs_eqb_eq)),
    (opt_map_refl raw _ _ Hw (d_extra_env _ _ Hb)), (opt_map_refl raw _ _ Hw (d_session_env _ _ Hb)),
    (opt_map_refl raw _ _ Hw (d_env _ _ Hb)) by done.
  cbn [negb orb]. rewrite andb_false_r, !orb_false_r. split; [|done].
  destruct (publication_binding before); cbn [is_some andb]; [|done].
  rewrite (proj2 (obeq_eq _ _)) by (symmetry; apply Hop; done). cbn [negb orb].
  unfold contains_key. rewrite Na by reflexivity. done.
Qed.

(** ** A call that nothing disturbs *)

Definition quiet (e : Weather) (w : World) (wait : Z) : Prop :=
  lock_granted e wait = true /\ others e w = w /\ write_ok e = true.


(** An undisturbed call whose mutation keeps the launch inputs publishes the
    mutated record, which reads back as the mutation left it. *)
Lemma core_publishes {S} e w name (mutate : Mutation S) o hp hu wait raw before after c :
  quiet e w wait -> wf_object raw -> read_metadata_map w name = Some raw ->
  from_map raw = Some before -> guards_hold o before = true ->
  mutate before = (after, true, c) -> wf_meta after -> same_launch before after ->
  (is_some (publication_binding before) = true -> operation_tag after = operation_tag before) ->
  exists p,
    mutate_metadata_under_lock_core e w name mutate o hp hu wait =
      (hp p (set_file name (apply_metadata_diff before after raw) w), Changed p, Some c) /\
    from_map (apply_metadata_diff before after raw) = Some p /\ meta_equiv p after.
Proof.
  intros (Hl & Ho & Hw) Hraw Hr Hb Hg Hm Hwf Hs Hop.
  destruct (from_map_diff before after raw) as (p & Hp & Heq); [apply Hraw|done..|].
  exists p. split; [|done].
  destruct (checks_pass raw before after) as [Hc1 Hc2]; [done|apply from_map_decodes; done|done..|].
  unfold mutate_metadata_under_lock_core. rewrite Hl, Hr, Hb, Hg, Hm, Hc1, Hc2, Ho, Hr, Hw.
  cbn [negb]. rewrite value_eqb_refl by exact Hraw. cbn [negb]. rewrite Hp. done.
Qed.

Lemma tags_after_bound before after raw p :
  NoDup (mkeys raw) -> from_map raw = Some before ->
  provenance_changed before after = false -> is_some (publication_binding before) = true ->
  from_map (apply_metadata_diff before after raw) = Some p ->
  operation_tag p = operation_tag before.
Proof.
  intros Hd Hb Hpv Hs Hp. apply from_map_decodes in Hb, Hp.
  pose proof (no_alias_decodes _ _ Hb) as Nb.
  destruct (provenance_same _ _ Nb Hpv) as (_ & _ & _ & _ & Hop).
  specialize (Hop Hs).
  assert (Ht : mget (str "tags") (extra after) = None).
  { unfold provenance_changed in Hpv. bprop. rewrite Hs in *.
    destruct H1 as [H1|H1]; [done|]. bprop. apply contains_key_false. done. }
  pose proof (d_tags _ _ Hp) as Hdp. pose proof (d_tags _ _ Hb) as Hdb.
  unfold opt_field in Hdp. rewrite mget_diff in Hdp by done.
  rewrite mget_to_map_typed in Hdp by done.
  change (mget (str "tags") (typed_fields after)) with (Some (enc_map <$> tags after)) in Hdp.
  unfold contains_key, differs in Hdp. rewrite (mget_to_map_typed _ before) in Hdp by (apply Nb; done).
  change (mget (str "tags") (typed_fields before)) with (Some (enc_map <$> tags before)) in Hdp.
  cbv beta iota in Hdp. unfold operation_tag in *.
  assert (Hset : forall t, (let? x := dec_map (enc_map t) in Some (Some x)) = Some (tags p) ->
                 tags p = Some t).
  { intros t. rewrite dec_map_enc. cbn. congruence. }
  destruct (tags after) as [ta|] eqn:Ea; cbn [fmap option_fmap option_map] in Hdp.
  - destruct (tags before) as [tb|] eqn:Eb; cbn [fmap option_fmap option_map] in Hdp.
    + destruct (value_eqb _ _); cbn [negb] in Hdp.
      * assert (tags p = Some tb) as ->; [|done].
        unfold opt_field in Hdb. rewrite Hdb in Hdp. congruence.
      * rewrite (Hset ta Hdp). done.
    + rewrite (Hset ta Hdp). done.
  - destruct (tags before) as [tb|] eqn:Eb; cbn [fmap option_fmap option_map] in Hdp.
    + injection Hdp as <-. done.
    + unfold opt_field in Hdb. rewrite Hdb in Hdp. injection Hdp as <-. done.
Qed.

(** ** The theorems *)

(** publication provenance is immutable through every mutation, whatever the
    closure does, aliases in the flattened extras included: the three publication
    fields on disk stay the JSON values they were, and a bound session keeps its
    eight launch inputs and its start-operation tag. *)
Theorem publication_immutable {S : Type} (e : Weather) (w : World) (name : bytes)
  (mutate : Mutation S) (o : MutateOptions) (hp hu : Hook) (wait : Z)
  (raw : IndexMap Value) (before : SessionMetadata) (w' : World) (p : SessionMetadata)
  (s : option S) :
  mutate_metadata_under_lock_core e w name mutate o hp hu wait = (w', Changed p, s) ->
  read_metadata_map w name = Some raw -> NoDup (mkeys raw) -> from_map raw = Some before ->
  (forall m x, files (hp m x) = files x) ->
  exists d, read_metadata_map w' name = Some d /\
    Forall (fun k => mget k d = mget k raw) provenance_keys /\
    (is_some (publication_binding before) = true ->
       Forall (fun k => mget k d = mget k raw) launch_keys /\
       operation_tag p = operation_tag before).
Proof.
  intros H Hr Hd Hb Hh. apply core_changed in H as (raw' & before' & after & c & H).
  destruct H as (_ & Hr' & Hb' & _ & _ & _ & Hpv & Hlc & _ & Hp & Hw'). cbv zeta in *.
  rewrite Hr in Hr'. injection Hr' as <-. rewrite Hb in Hb'. injection Hb' as <-.
  pose proof (no_alias_decodes _ _ (proj1 (from_map_decodes _ _) Hb)) as Nb.
  destruct (provenance_same _ _ Nb Hpv) as (Hsame & _ & _ & _ & Hop).
  exists (apply_metadata_diff before after raw). split; [|split].
  - subst w'. unfold read_metadata_map. rewrite Hh. apply read_set_file.
  - eapply Forall_impl; [exact Hsame|]. intros k. apply same_key_disk, Hd.
  - intros Hs. split.
    + eapply Forall_impl; [apply (launch_same before after); done|].
      intros k. apply same_key_disk, Hd.
    + subst p. destruct (from_map _) as [x|] eqn:E; [|apply Hop, Hs].
      apply (tags_after_bound before after raw x); done.
Qed.

(** a daemon's stamp never lands on another generation's record: publishing
    the output-activity sidecar changes nothing but this name's sidecar, and
    that only while the record names the stamp's generation. *)
Theorem publish_output_activity_fenced (e : Weather) (w : World) (name : bytes)
  (a : OutputActivity) :
  let '(w', st, _) := publish_output_activity e w name a in
  (w' = w \/
   exists m, read_metadata w name = Some m /\ generation m = Some (oa_generation a) /\
     st = Unchanged m /\ w' = write_output_activity name a w) /\
  (forall p, st <> Changed p).
Proof.
  unfold publish_output_activity, mutate_metadata_under_lock_settled,
    mutate_metadata_under_lock_core, read_metadata.
  destruct (lock_granted e 0); cbn [negb]; [|auto].
  destruct (read_metadata_map w name) as [raw|]; [|auto]. cbn [mbind option_bind].
  destruct (from_map raw) as [m|]; [|auto].
  destruct (guards_hold _ m) eqn:Hg; cbn [negb]; [|auto].
  unfold guards_hold, generation_fence in Hg. cbn in Hg. apply obeq_eq in Hg.
  split; [|done]. destruct (write_ok e); [right; eauto|left; done].
Qed.

(** the tag compare-and-set, undisturbed: it takes effect exactly when the
    record is of the expected generation and the tag holds the expected value,
    and then only this tag of this record changes. *)
Theorem compare_and_set_tag_value_spec (e : Weather) (w : World)
  (name gen tag expected value : bytes) (raw : IndexMap Value) (before : SessionMetadata) :
  quiet e w 0 -> wf_object raw -> read_metadata_map w name = Some raw ->
  from_map raw = Some before -> is_some (publication_binding before) = false ->
  let '(w', r) := compare_and_set_tag_value e w name gen tag expected value in
  let current := tag_of tag (tags before) in
  if negb (obeq (generation before) (Some gen)) then r = TGenerationMismatch /\ w' = w
  else if negb (obeq current (Some expected)) then r = TValueMismatch current /\ w' = w
  else if beq expected value then r = TUnchanged value /\ w' = w
  else r = TChanged value /\
       (forall n, n <> name -> read_metadata_map w' n = read_metadata_map w n) /\
       activity w' = activity w /\ events w' = events w /\
       exists p, read_metadata w' name = Some p /\
         meta_equiv p (set_tags (Some (minsert tag value
                          match tags before with Some t => t | None => [] end)) before).
Proof.
  intros Hq Hraw Hr Hb Hub. unfold compare_and_set_tag_value.
  set (o := generation_fence gen).
  assert (Hcore : exists w1 st c,
    mutate_metadata_under_lock e w name (cas_mutation tag expected value) o = (w1, st, c))
    by (destruct (mutate_metadata_under_lock _ _ _ _ _) as [[? ?] ?]; eauto).
  destruct (negb (obeq (generation before) (Some gen))) eqn:Hg.
  { unfold mutate_metadata_under_lock, mutate_metadata_under_lock_with,
      mutate_metadata_under_lock_with_wait, mutate_metadata_under_lock_core.
    destruct Hq as (-> & _). cbn [negb]. rewrite Hr, Hb. unfold guards_hold, o. cbn.
    rewrite Hg. done. }
  assert (Hgh : guards_hold o before = true).
  { unfold guards_hold, o. cbn. apply negb_false_iff in Hg. exact Hg. }
  destruct (negb (obeq (tag_of tag (tags before)) (Some expected))) eqn:Hc.
  { unfold mutate_metadata_under_lock, mutate_metadata_under_lock_with,
      mutate_metadata_under_lock_with_wait, mutate_metadata_under_lock_core.
    destruct Hq as (-> & _). cbn [negb]. rewrite Hr, Hb, Hgh. cbn [negb].
    unfold cas_mutation at 1. rewrite Hc. done. }
  apply negb_false_iff in Hc. pose proof Hc as Hcur. apply obeq_eq in Hcur.
  destruct (beq expected value) eqn:Hv.
  { unfold mutate_metadata_under_lock, mutate_metadata_under_lock_with,
      mutate_metadata_under_lock_with_wait, mutate_metadata_under_lock_core.
    destruct Hq as (-> & _). cbn [negb]. rewrite Hr, Hb, Hgh. cbn [negb].
    unfold cas_mutation at 1. rewrite Hcur. cbn [obeq]. rewrite beq_refl, Hv. done. }
  set (after := set_tags _ before).
  assert (Hmut : cas_mutation tag expected value before = (after, true, (Some expected, true))).
  { unfold cas_mutation. rewrite Hcur. cbn [obeq]. rewrite beq_refl, Hv. done. }
  destruct (core_publishes e w name (cas_mutation tag expected value) o no_hook no_hook 0
              raw before after (Some expected, true)) as (p & Hrun & Hp & Heq); try done.
  { pose proof (decodes_wf raw before (proj1 Hraw) (proj1 (from_map_decodes _ _) Hb)) as Hwf.
    exact Hwf. }
  { rewrite Hub. done. }
  unfold mutate_metadata_under_lock, mutate_metadata_under_lock_with,
    mutate_metadata_under_lock_with_wait in *. rewrite Hrun.
  split; [done|]. split; [|split_and!; try done].
  - intros n Hn. unfold read_metadata_map, no_hook, set_file. cbn.
    rewrite lookup_insert_ne by done. done.
  - exists p. split; [|exact Heq]. unfold read_metadata. unfold no_hook.
    rewrite read_set_file. exact Hp.
Qed.

(** ** Witnesses *)

Definition calm : Weather :=
  mkWeather (fun _ => true) (fun _ => Ok tt) (fun w => w) true.

Definition sample_raw (bound : bool) : IndexMap Value :=
  [(str "generation", VStr (str "g1")); (str "command", VStr (str "sh"));
   (str "custom", VNum (NInt 7)); (str "tags", VObj [(str "role", VStr (str "a"))])]
  ++ (if bound then [(str "publicationBinding",
                      VArr [VStr (str "op"); VStr (str "d")])] else []).

Definition sample_world (bound : bool) : World :=
  mkWorld {[str "s" := VObj (sample_raw bound)]} ∅ [].

Lemma sample_wf bound : wf_object (sample_raw bound).
Proof.
  unfold wf_object, sample_raw. split; [|destruct bound; vm_compute; repeat constructor;
    intros H; inversion H].
  apply (bool_decide_unpack _). destruct bound; vm_compute; exact I.
Qed.

Lemma publication_immutable_witness :
  exists w' p s d,
    mutate_metadata_under_lock calm (sample_world true) (str "s")
      (fun m => (set_exit_code (Some 3) m, true, tt)) (mkOptions None None)
      = (w', Changed p, s) /\
    read_metadata_map w' (str "s") = Some d /\
    Forall (fun k => mget k d = mget k (sample_raw true)) provenance_keys.
Proof.
  assert (H : exists w' p s,
    mutate_metadata_under_lock calm (sample_world true) (str "s")
      (fun m => (set_exit_code (Some 3) m, true, tt)) (mkOptions None None)
      = (w', Changed p, s)) by (eexists _, _, _; vm_compute; reflexivity).
  destruct H as (w' & p & s & H).
  assert (Hb : exists before, from_map (sample_raw true) = Some before)
    by (eexists; vm_compute; reflexivity).
  destruct Hb as [before Hb].
  destruct (publication_immutable calm (sample_world true) (str "s") _ _ no_hook no_hook 0
              (sample_raw true) before w' p s H) as (d & Hd & Hk & _);
    [reflexivity|apply sample_wf|exact Hb|reflexivity|].
  exists w', p, s, d. split; [exact H|]. split; [exact Hd|exact Hk].
Defined.

Lemma compare_and_set_tag_value_spec_witness :
  snd (compare_and_set_tag_value calm (sample_world false) (str "s") (str "g1") (str "role")
         (str "a") (str "b")) = TChanged (str "b").
Proof.
  assert (Hb : exists before, from_map (sample_raw false) = Some before)
    by (eexists; vm_compute; reflexivity).
  destruct Hb as [before Hb].
  assert (Hbb := Hb). vm_compute in Hbb. injection Hbb as Hbb.
  pose proof (compare_and_set_tag_value_spec calm (sample_world false) (str "s") (str "g1")
                (str "role") (str "a") (str "b") (sample_raw false) before) as H.
  destruct (compare_and_set_tag_value _ _ _ _ _ _ _) as [w' r].
  rewrite <- Hbb in *.
  destruct H as [-> _]; [split_and!; reflexivity|apply sample_wf|reflexivity|exact Hb|reflexivity|].
  reflexivity.
Defined.
