(* ===== verification/Patch.v ===== *)
(** Presentation patches of [crates/pty-core/src/registry/mutate.rs]: parsing
    and validating a patch, applying it to a record under the locks with its
    one event, and the [rename] / [tag] entry points. *)
From S2P Require Import Prelude Json Metadata Names Mutate.

Record MetadataPatch : Type := mkPatch {
  p_display_name : option (option bytes);
  p_tags : option (IndexMap (option bytes))
}.

Definition q (s : string) : bytes := quote ++ str s ++ quote.

Definition validate_tags (tags : option (IndexMap (option bytes))) : Result unit bytes :=
  match tags with
  | Some t => if existsb (beq []) (mkeys t)
              then Err (str "Metadata patch tag keys must be non-empty.") else Ok tt
  | None => Ok tt
  end.

Definition validate (p : MetadataPatch) : Result unit bytes :=
  try _u := match p_display_name p with
            | Some (Some dn) =>
                match validate_display_name dn with
                | Ok _ => Ok tt
                | Err e => Err (str "Invalid displayName: " ++ e)
                end
            | _ => Ok tt
            end in
  validate_tags (p_tags p).

(** The tag entries of a JSON patch, in order. *)
Fixpoint tags_from_json (m : IndexMap Value) (out : IndexMap (option bytes))
  : Result (IndexMap (option bytes)) bytes :=
  match m with
  | [] => Ok out
  | (k, v) :: m' =>
      if beq k [] then Err (str "Metadata patch tag keys must be non-empty.")
      else match v with
           | VNull => tags_from_json m' (minsert k None out)
           | VStr s => tags_from_json m' (minsert k (Some s) out)
           | _ => Err (str "Metadata patch tag values must be strings or null (invalid key: "
                       ++ quote ++ k ++ quote ++ str ").")
           end
  end.

(** The first key the patch does not know. *)
Definition unknown_field (m : IndexMap Value) : option bytes :=
  List.find (fun k => negb (beq k (str "displayName")) && negb (beq k (str "tags"))) (mkeys m).

Definition from_json (value : Value) : Result MetadataPatch bytes :=
  match value with
  | VObj obj =>
      match unknown_field obj with
      | Some key =>
          Err (str "Metadata patch has unknown field " ++ quote ++ key ++ quote
               ++ str ". Allowed fields: displayName, tags.")
      | None =>
          try dn := match mget (str "displayName") obj with
                    | None => Ok None
                    | Some VNull => Ok (Some None)
                    | Some (VStr s) => Ok (Some (Some s))
                    | Some _ => Err (str "Metadata patch displayName must be a string or null.")
                    end in
          try tags := match mget (str "tags") obj with
                      | None => Ok None
                      | Some (VObj t) => try out := tags_from_json t [] in Ok (Some out)
                      | Some _ => Err (str "Metadata patch tags must be a JSON object.")
                      end in
          let patch := mkPatch dn tags in
          try _u := validate patch in Ok patch
      end
  | _ => Err (str "Metadata patch must be a JSON object.")
  end.

(** ** Applying a patch *)

Record MetadataPatchResult : Type := mkResult { changed : bool; metadata : SessionMetadata }.

Inductive MetadataPatchEvent : Type := MetadataChange | DisplayNameChange | TagsChange.

(** The closure's captured state. *)
Record PatchState : Type := mkPatchState {
  previous_tags : IndexMap bytes;
  next_tags : IndexMap bytes;
  previous : MetadataChangeSnapshot;
  value : MetadataChangeSnapshot;
  error : option bytes
}.

(** One requested tag: the keys changed so far and the tags as they become. *)
Definition patch_tag (previous_tags : IndexMap bytes) (st : list bytes * IndexMap bytes)
  (req : bytes * option bytes) : list bytes * IndexMap bytes :=
  let '(key, requested) := req in
  if obeq (mget key previous_tags) requested then st
  else (fst st ++ [key],
        match requested with
        | None => shift_remove key (snd st)
        | Some v => minsert key v (snd st)
        end).

(** [sort] on strings: by code points, which is the order of their UTF-8 bytes. *)
Fixpoint ble (a b : bytes) : bool :=
  match a, b with
  | [], _ => true
  | _ :: _, [] => false
  | x :: a', y :: b' => (x <? y) || ((x =? y) && ble a' b')
  end.
Fixpoint sort_insert (k : bytes) (l : list bytes) : list bytes :=
  match l with
  | [] => [k]
  | x :: l' => if ble k x then k :: l else x :: sort_insert k l'
  end.
Definition sort (l : list bytes) : list bytes := fold_right sort_insert [] l.

Definition snapshot (keys : list bytes) (tags : IndexMap bytes) : IndexMap (option bytes) :=
  fold_left (fun m k => minsert k (mget k tags) m) keys [].

(** The closure [apply_metadata_patch_by_id_with_wait] gives the mutation. *)
Definition patch_mutation (patch : MetadataPatch) : Mutation PatchState :=
  fun m0 =>
    let prev := match tags m0 with Some t => t | None => [] end in
    let '(m1, prev_dn, value_dn) :=
      match p_display_name patch with
      | Some requested =>
          if obeq (display_name m0) requested then (m0, None, None)
          else (set_display_name requested m0, Some (display_name m0), Some requested)
      | None => (m0, None, None)
      end in
    let '(changed_keys, next) :=
      match p_tags patch with
      | Some t => fold_left (patch_tag prev) t ([], prev)
      | None => ([], prev)
      end in
    let keys := sort changed_keys in
    let '(m2, prev_tags, value_tags) :=
      match changed_keys with
      | [] => (m1, None, None)
      | _ => (set_tags (match next with [] => None | _ => Some next end) m1,
              Some (snapshot keys prev), Some (snapshot keys next))
      end in
    let st := mkPatchState prev next (mkSnapshot prev_dn prev_tags)
                (mkSnapshot value_dn value_tags) in
    if negb (is_some prev_dn || is_some prev_tags) then (m2, false, st None)
    else
      match match display_name m2 with
            | Some dn => validate_display_name dn
            | None => Ok tt
            end with
      | Err e => (m2, false, st (Some e))
      | Ok _ =>
          if match tags m2 with Some t => existsb (beq []) (mkeys t) | None => false end
          then (m2, false, st (Some (str "Resulting metadata contains an empty tag key.")))
          else (m2, true, st None)
      end.

(** [Option<Option<T>>::flatten]. *)
Definition flatten {A} (o : option (option A)) : option A :=
  match o with Some x => x | None => None end.

Definition patch_event (id : bytes) (event : MetadataPatchEvent) (st : PatchState) : Event :=
  match event with
  | MetadataChange => metadata_change id (previous st) (value st)
  | DisplayNameChange =>
      display_name_change id (flatten (snap_display_name (previous st)))
        (flatten (snap_display_name (value st)))
  | TagsChange => tags_change id (previous_tags st) (next_tags st)
  end.

Definition append_event_locked (ev : Event) (w : World) : World :=
  mkWorld (files w) (activity w) (events w ++ [ev]).

Definition metadata_busy_message (name : bytes) : bytes :=
  str "Session id " ++ quote ++ name ++ quote
  ++ str " metadata is busy. Retry the operation.".

(** The published hook reads what the closure captured on the same record. *)
Definition event_hook (e : Weather) (w : World) (id : bytes) (patch : MetadataPatch)
  (event : MetadataPatchEvent) : Hook :=
  fun _ w' =>
    match read_metadata w id with
    | Some before =>
        append_event_locked (patch_event id event (snd (patch_mutation patch before))) w'
    | None => w'
    end.

(** [wait] is the budget in milliseconds, [wait_left] what is left of it once the
    event lock is held. *)
Definition apply_metadata_patch_by_id_with_wait (e : Weather) (w : World) (id : bytes)
  (patch : MetadataPatch) (event : MetadataPatchEvent) (wait wait_left : Z)
  : World * Result MetadataPatchResult bytes :=
  match validate patch with
  | Err e => (w, Err e)
  | Ok _ =>
    match event_lock e wait with
    | Err msg => (w, Err msg)
    | Ok _ =>
      let '(w', result, st) :=
        mutate_metadata_under_lock_with_wait e w id (patch_mutation patch)
          (mkOptions None None) (event_hook e w id patch event) wait_left in
      (w', match match st with Some st => error st | None => None end with
           | Some msg => Err msg
           | None =>
             match result with
             | Busy => Err (metadata_busy_message id)
             | Missing => Err (str "Session id " ++ quote ++ id ++ quote ++ str " not found.")
             | Stale | GenerationMismatch =>
                 Err (str "Session id " ++ quote ++ id ++ quote
                      ++ str " metadata changed during the operation. Retry it.")
             | Unchanged m => Ok (mkResult false m)
             | Changed m => Ok (mkResult true m)
             end
           end)
    end
  end.

Definition apply_metadata_patch_by_id e w id patch event :=
  apply_metadata_patch_by_id_with_wait e w id patch event 0 0.

(** [rename]: set or clear ([None] or empty) the display name. *)
Definition rename (e : Weather) (w : World) (name : bytes) (dn : option bytes) :=
  let patch := mkPatch (Some (match dn with Some [] => None | _ => dn end)) None in
  apply_metadata_patch_by_id e w name patch DisplayNameChange.

(** [tag]: merge [updates], then apply [removals]. *)
Definition update_tags (e : Weather) (w : World) (name : bytes) (updates : IndexMap bytes)
  (removals : list bytes) :=
  let tags := fold_left (fun m k => minsert k None m) removals (prod_map id Some <$> updates) in
  apply_metadata_patch_by_id e w name (mkPatch None (Some tags)) TagsChange.

(** ** Lemmas *)

(** The fold over the requested tags. *)
Lemma patch_tags_spec prev t keys next :
  NoDup (mkeys t) -> NoDup (mkeys next) ->
  (forall k, k ∈ mkeys t -> mget k next = mget k prev) ->
  let r := fold_left (patch_tag prev) t (keys, next) in
  (forall k, mget k (snd r) = match mget k t with Some v => v | None => mget k next end) /\
  NoDup (mkeys (snd r)) /\
  (forall k, k ∈ fst r <-> k ∈ keys \/ exists v, mget k t = Some v /\ mget k prev <> v).
Proof.
  revert keys next. induction t as [|[k0 v0] t IH]; intros keys next Ht Hn Hsame; cbv zeta.
  { split_and!; [done|done|]. intros k. split; [auto|]. intros [?|(v & H & _)]; [done|discriminate]. }
  cbn [mkeys fmap list_fmap fst] in Ht. apply NoDup_cons in Ht as [Hk0 Ht].
  change (fst <$> t) with (mkeys t) in *.
  assert (Hsub : forall k, k ∈ mkeys t -> k <> k0) by (intros k Hk ->; done).
  cbn [fold_left patch_tag fst snd mget].
  destruct (obeq (mget k0 prev) v0) eqn:E.
  - apply obeq_eq in E. destruct (IH keys next) as (H1 & H2 & H3);
      [done|done|intros; apply Hsame; right; done|].
    split_and!; [|done|].
    + intros k. rewrite H1. key_case k k0; [|done].
      rewrite (proj2 (mget_None k t)) by done. rewrite Hsame by left. done.
    + intros k. rewrite H3. key_case k k0; [|done].
      rewrite (proj2 (mget_None k t)) by done. split; [intros [?|(v & H & _)]; [auto|discriminate]|].
      intros [?|(v & [= <-] & H)]; [auto|]. congruence.
  - assert (Hne : mget k0 prev <> v0).
    { intros Heq. rewrite (proj2 (obeq_eq _ _) Heq) in E. discriminate. }
    set (next' := match v0 with None => shift_remove k0 next | Some v => minsert k0 v next end).
    assert (Hn' : NoDup (mkeys next')) by (unfold next'; destruct v0;
      [apply NoDup_minsert|apply NoDup_shift_remove]; done).
    assert (Hg : mget k0 next' = v0) by (unfold next'; destruct v0;
      [apply mget_minsert_eq|apply mget_shift_remove_eq; done]).
    assert (Ho : forall k, k <> k0 -> mget k next' = mget k next) by (intros k Hk; unfold next';
      destruct v0; [apply mget_minsert_ne|apply mget_shift_remove_ne]; done).
    destruct (IH (keys ++ [k0]) next') as (H1 & H2 & H3);
      [done|done|intros k Hk; rewrite Ho by auto; apply Hsame; right; done|].
    split_and!; [|done|].
    + intros k. rewrite H1. key_case k k0.
      * rewrite (proj2 (mget_None k t)) by done. exact Hg.
      * rewrite Ho by done. done.
    + intros k. rewrite H3, elem_of_app, list_elem_of_singleton. key_case k k0; [|tauto].
      split; [intros _; right; eauto|]. intros _. left. right. done.
Qed.

Lemma patch_tags_none prev t ks nx :
  fst (fold_left (patch_tag prev) t (ks, nx)) = [] ->
  snd (fold_left (patch_tag prev) t (ks, nx)) = nx.
Proof.
  assert (K : forall t st, fst st <> [] -> fst (fold_left (patch_tag prev) t st) <> []).
  { clear. induction t as [|[k v] t IH]; intros st Hs; [done|]. cbn [fold_left]. apply IH.
    unfold patch_tag. destruct (obeq _ _); [done|]. cbn. destruct (fst st); done. }
  revert ks nx. induction t as [|[k v] t IH]; intros ks nx; [done|].
  cbn [fold_left patch_tag]. destruct (obeq _ _) eqn:E; [apply IH|].
  intros H. exfalso. revert H. apply K. cbn. destruct ks; done.
Qed.

Definition tags_or_empty (m : SessionMetadata) : IndexMap bytes :=
  match tags m with Some t => t | None => [] end.

Lemma tag_of_or_empty k m : tag_of k (tags m) = mget k (tags_or_empty m).
Proof. unfold tag_of, tags_or_empty. destruct (tags m); done. Qed.

(** ** The theorems *)

(** what a patch does to a record: the display name becomes the requested one,
    each requested tag becomes its requested value or goes, every other tag and
    every other field stays; the event's tag snapshots list exactly the keys
    whose value changed. *)
Theorem patch_mutation_spec (patch : MetadataPatch) (m m' : SessionMetadata) (st : PatchState) :
  patch_mutation patch m = (m', true, st) ->
  NoDup (mkeys (tags_or_empty m)) ->
  match p_tags patch with Some t => NoDup (mkeys t) | None => True end ->
  display_name m' = match p_display_name patch with Some d => d | None => display_name m end /\
  (forall k, tag_of k (tags m') =
     match p_tags patch with
     | Some t => match mget k t with Some v => v | None => tag_of k (tags m) end
     | None => tag_of k (tags m)
     end) /\
  m' = set_tags (tags m') (set_display_name (display_name m') m) /\
  match display_name m' with Some d => validate_display_name d = Ok tt | None => True end.
Proof.
  unfold patch_mutation. intros H Hn Ht. fold (tags_or_empty m) in H.
  set (dn := match p_display_name patch with Some _ => _ | None => _ end) in H.
  assert (Hdn : exists d o1 o2, dn = (set_display_name d m, o1, o2) /\
    d = match p_display_name patch with Some d => d | None => display_name m end).
  { subst dn. destruct (p_display_name patch) as [d|].
    - destruct (obeq (display_name m) d) eqn:E; [|eauto 6].
      apply obeq_eq in E. exists d. eexists _, _. split; [|done]. subst d. destruct m; done.
    - exists (display_name m). eexists _, _. split; [|done]. destruct m; done. }
  destruct Hdn as (d & o1 & o2 & -> & Hd).
  set (tg := match p_tags patch with Some t => _ | None => _ end) in H.
  assert (Htg : forall k, mget k (snd tg) =
     match p_tags patch with
     | Some t => match mget k t with Some v => v | None => mget k (tags_or_empty m) end
     | None => mget k (tags_or_empty m) end).
  { subst tg. destruct (p_tags patch) as [t|]; [|done]. intros k.
    apply (patch_tags_spec (tags_or_empty m) t [] (tags_or_empty m)); done. }
  assert (Hkeys : fst tg = [] -> snd tg = tags_or_empty m).
  { subst tg. destruct (p_tags patch) as [t|]; [|done]. apply patch_tags_none. }
  destruct tg as [ck nx]. cbn [fst snd] in *.
  set (tt' := match ck with [] => _ | _ :: _ => _ end) in H.
  assert (Htt : exists t' o3 o4, tt' = (set_tags t' (set_display_name d m), o3, o4) /\
    forall k, tag_of k t' = mget k nx).
  { subst tt'. destruct ck.
    - exists (tags m). eexists _, _. split; [destruct m; done|].
      intros k. rewrite tag_of_or_empty, Hkeys by done. done.
    - eexists _, _, _. split; [reflexivity|]. intros k. destruct nx; done. }
  destruct Htt as (t' & o3 & o4 & -> & Hget).
  destruct (negb _); [discriminate|].
  assert (Hdisp : display_name (set_tags t' (set_display_name d m)) = d) by (destruct m; done).
  assert (Htags : tags (set_tags t' (set_display_name d m)) = t') by (destruct m; done).
  rewrite Hdisp, Htags in H.
  destruct (match d with Some dn => validate_display_name dn | None => Ok tt end) as [[]|] eqn:Ev;
    [|discriminate].
  destruct (match t' with Some t => _ | None => _ end); [discriminate|].
  injection H as <- <-. rewrite Hdisp, Htags. split_and!.
  - exact Hd.
  - intros k. rewrite Hget, Htg, !tag_of_or_empty. done.
  - destruct m; done.
  - destruct d; done.
Qed.

Lemma patch_mutation_spec_witness :
  exists m, from_map (sample_raw false) = Some m /\
  forall m' st, patch_mutation (mkPatch (Some (Some (str "box"))) (Some [(str "role", None)])) m
                = (m', true, st) ->
    display_name m' = Some (str "box") /\ tag_of (str "role") (tags m') = None.
Proof.
  assert (Hb : exists m, from_map (sample_raw false) = Some m) by (eexists; vm_compute; reflexivity).
  destruct Hb as [m Hm]. exists m. split; [exact Hm|]. intros m' st H.
  assert (Ht : NoDup (mkeys (tags_or_empty m))).
  { vm_compute in Hm. injection Hm as <-. apply NoDup_singleton. }
  destruct (patch_mutation_spec _ _ _ _ H Ht) as (H1 & H2 & _); [apply NoDup_singleton|].
  split; [exact H1|]. rewrite H2. reflexivity.
Defined.

(** a patch appends exactly one event, describing the record it read, when it
    changed that record, and none otherwise; a refused or unneeded patch leaves
    the registry as it was. *)
Theorem patch_one_event (e : Weather) (w : World) (id : bytes) (patch : MetadataPatch)
  (event : MetadataPatchEvent) (wait wait_left : Z) :
  others e w = w ->
  let '(w', r) := apply_metadata_patch_by_id_with_wait e w id patch event wait wait_left in
  match r with
  | Ok res =>
      if changed res then
        exists before, read_metadata w id = Some before /\
          events w' = events w ++ [patch_event id event (snd (patch_mutation patch before))]
      else w' = w
  | Err _ => w' = w
  end.
Proof.
  intros Ho. unfold apply_metadata_patch_by_id_with_wait.
  destruct (validate patch); [|done]. destruct (event_lock e wait); [|done].
  unfold mutate_metadata_under_lock_with_wait.
  destruct (mutate_metadata_under_lock_core _ _ _ _ _ _ _ _) as [[w' res] st] eqn:H.
  assert (Hc : (exists p, res = Changed p) \/ (forall p, res <> Changed p))
    by (destruct res; eauto; right; congruence).
  destruct Hc as [[p ->]|Hc].
  - apply core_changed in H as (raw & before & after & c & H).
    destruct H as (_ & Hr & Hb & _ & Hm & -> & _ & _ & _ & Hp & Hw'). cbv zeta in *.
    assert (Hrm : read_metadata w id = Some before) by (unfold read_metadata; rewrite Hr; exact Hb).
    assert (Herr : error c = None).
    { unfold patch_mutation in Hm. repeat case_in Hm; injection Hm as _ Hm;
        try discriminate; subst c; done. }
    rewrite Herr. cbn [changed]. exists before. split; [done|].
    subst w'. unfold event_hook. rewrite Hrm, Ho. done.
  - apply core_not_changed in H; [|done]. rewrite Ho in H.
    assert (w' = w) as -> by (destruct H as [|[|(m & _ & ->)]]; done).
    destruct (match st with Some st => error st | None => None end); [done|].
    destruct res; try done. destruct (Hc _ eq_refl).
Qed.

Lemma patch_one_event_witness :
  let '(w', r) := apply_metadata_patch_by_id calm (sample_world false) (str "s")
                    (mkPatch (Some (Some (str "box"))) None) DisplayNameChange in
  match r with
  | Ok res => if changed res then exists b, read_metadata (sample_world false) (str "s") = Some b /\
                 events w' = [] ++ [patch_event (str "s") DisplayNameChange
                   (snd (patch_mutation (mkPatch (Some (Some (str "box"))) None) b))]
              else w' = sample_world false
  | Err _ => w' = sample_world false
  end.
Proof.
  exact (patch_one_event calm (sample_world false) (str "s")
           (mkPatch (Some (Some (str "box"))) None) DisplayNameChange 0 0 eq_refl).
Defined.
