(* ===== verification/Clients.v ===== *)
(** Per-connection state of [crates/pty/src/daemon/clients.rs]: the client record,
    its bounded outbound queue, and the writer thread of [lifecycle.rs] that
    drains it to the socket. *)
From S2P Require Import Prelude Protocol.

(** ** Constants (milliseconds and bytes) *)

Definition REDRAW_SETTLE : Z := 80.
Definition OUTBOUND_QUEUE_BYTES : Z := 64 * 1024 * 1024.
Definition OUTBOUND_ITEM_OVERHEAD : Z := 64.
Definition CLIENT_METADATA_RETRY : Z := 2000.

(** [Vec::capacity], which the standard library leaves open above the length. *)
Class Alloc : Type := { capacity : bytes -> Z }.
Class AllocLaws `{Alloc} : Prop := capacity_len : forall b, blen b <= capacity b.

(** ** Queued output *)

Record QueuedBytes : Type := mkQueued { q_bytes : bytes; charge : Z }.

Inductive Out : Type :=
  | Bytes (q : QueuedBytes)
  | End
  | Destroy.

(** One connection: the channel to the writer thread and whether its receiver
    still exists, the packet the writer holds the write lock for (with what is
    left to write), the charge counter, the rejection flag; and the socket: the
    bytes the peer can read, whether this side may still write, and whether the
    kernel has room for one small frame. *)
Record Conn : Type := mkConn {
  queue : list Out;
  receiver : bool;
  inflight : option (QueuedBytes * bytes);
  pending_bytes : Z;
  rejected : bool;
  wire : bytes;
  writable : bool;
  room : bool
}.

Definition new_conn : Conn := mkConn [] true None 0 false [] true true.

Definition shutdown_both (c : Conn) : Conn :=
  mkConn (queue c) (receiver c) (inflight c) (pending_bytes c) (rejected c) (wire c) false
    (room c).

(** [send_out]: a send to a writer that has gone shuts the socket down. *)
Definition send_out (o : Out) (c : Conn) : Conn :=
  if receiver c then
    mkConn (queue c ++ [o]) true (inflight c) (pending_bytes c) (rejected c) (wire c)
      (writable c) (room c)
  else shutdown_both c.

(** The [fetch_update] of [send]: the new counter, when the budget allows it. *)
Definition try_admit `{Alloc} (c : Conn) (bytes : bytes) : option Z :=
  let charge := capacity bytes + OUTBOUND_ITEM_OVERHEAD in
  if USIZE_MAX <? charge then None
  else if USIZE_MAX <? pending_bytes c + charge then None
  else if pending_bytes c + charge <=? OUTBOUND_QUEUE_BYTES then Some (pending_bytes c + charge)
  else None.

Definition queue_bytes `{Alloc} (bytes : bytes) (total : Z) (c : Conn) : Conn :=
  let charge := capacity bytes + OUTBOUND_ITEM_OVERHEAD in
  let c' := mkConn (queue c) (receiver c) (inflight c) total (rejected c) (wire c)
              (writable c) (room c) in
  if receiver c then send_out (Bytes (mkQueued bytes charge)) c'
  else
    (* the refused value is dropped with the error, which gives its charge back *)
    shutdown_both (mkConn (queue c) false (inflight c) (pending_bytes c) (rejected c) (wire c)
                     (writable c) (room c)).

(** [reject_slow_client] up to the shutdown: the flag, and the best-effort frame
    under [try_lock].  A stream socket takes a frame this small whole or not at
    all. *)
Definition reject_frame (c : Conn) : Conn :=
  if rejected c then c
  else
    let frame :=
      match inflight c with
      | Some _ => []
      | None => if writable c && room c then encode_connection_error ClientTooSlow else []
      end in
    mkConn (queue c) (receiver c) (inflight c) (pending_bytes c) true (wire c ++ frame)
      (writable c) (room c).

Definition reject_slow_client (c : Conn) : Conn :=
  if rejected c then c else shutdown_both (reject_frame c).

Definition send `{Alloc} (bytes : bytes) (c : Conn) : Conn :=
  if rejected c then c
  else match try_admit c bytes with
       | Some total => queue_bytes bytes total c
       | None => reject_slow_client c
       end.

(** ** The writer thread *)

(** [QueuedBytes::drop]. *)
Definition drop_charge (q : QueuedBytes) (pending : Z) : Z := pending - charge q.

Definition queue_charges (l : list Out) : Z :=
  fold_right (fun o n => match o with Bytes q => charge q + n | _ => n end) 0 l.
Definition inflight_charge (i : option (QueuedBytes * bytes)) : Z :=
  match i with Some (q, _) => charge q | None => 0 end.

(** The thread returns: the channel and everything in it is dropped. *)
Definition writer_exit (c : Conn) : Conn :=
  mkConn [] false None
    (pending_bytes c - queue_charges (queue c) - inflight_charge (inflight c))
    (rejected c) (wire c) false (room c).

(** [out_rx.recv()] and the arm it selects. *)
Definition writer_recv (c : Conn) : Conn :=
  match receiver c, inflight c, queue c with
  | true, None, Bytes q :: rest =>
      mkConn rest true (Some (q, q_bytes q)) (pending_bytes c) (rejected c) (wire c)
        (writable c) (room c)
  | true, None, End :: rest =>
      mkConn rest true None (pending_bytes c) (rejected c) (wire c) false (room c)
  | true, None, Destroy :: rest =>
      writer_exit (mkConn rest true None (pending_bytes c) (rejected c) (wire c) (writable c)
                     (room c))
  | _, _, _ => c
  end.

(** One [write] of [write_all]: the kernel takes [n] bytes, or fails because the
    socket is shut down. *)
Definition writer_write (n : nat) (c : Conn) : Conn :=
  match inflight c with
  | Some (q, rest) =>
      if writable c then
        mkConn (queue c) (receiver c) (Some (q, drop n rest)) (pending_bytes c) (rejected c)
          (wire c ++ take n rest) true (room c)
      else writer_exit c
  | None => c
  end.

(** The packet is written: the guard and the bytes are dropped. *)
Definition writer_done (c : Conn) : Conn :=
  match inflight c with
  | Some (q, []) =>
      mkConn (queue c) (receiver c) None (drop_charge q (pending_bytes c)) (rejected c)
        (wire c) (writable c) (room c)
  | _ => c
  end.

Definition set_room (b : bool) (c : Conn) : Conn :=
  mkConn (queue c) (receiver c) (inflight c) (pending_bytes c) (rejected c) (wire c)
    (writable c) b.

(** The daemon's thread and the writer thread interleave; a rejection and the
    shutdown after it are two steps of the daemon's thread.  These are the steps
    other than an admission. *)
Inductive conn_step `{Alloc} : Conn -> Conn -> Prop :=
  | step_refuse c b :
      rejected c = false -> try_admit c b = None -> conn_step c (reject_frame c)
  | step_shutdown c : rejected c = true -> conn_step c (shutdown_both c)
  | step_out c o : match o with Bytes _ => False | _ => True end -> conn_step c (send_out o c)
  | step_recv c : conn_step c (writer_recv c)
  | step_write c n : conn_step c (writer_write n c)
  | step_done c : conn_step c (writer_done c)
  | step_room c b : conn_step c (set_room b c).

(** The reachable connections, with the packets admitted so far. *)
Inductive conn_trace `{Alloc} : list bytes -> Conn -> Prop :=
  | trace_start : conn_trace [] new_conn
  | trace_queue sent c b total :
      conn_trace sent c -> rejected c = false -> try_admit c b = Some total ->
      conn_trace (sent ++ [b]) (queue_bytes b total c)
  | trace_step sent c c' : conn_trace sent c -> conn_step c c' -> conn_trace sent c'.

(** ** Clients *)

Inductive Role : Type := Command | Writable | Readonly.

#[export] Instance Role_eq_dec : EqDecision Role.
Proof. solve_decision. Defined.

Inductive CutKind : Type :=
  | CutAttach (size_matched : bool)
  | CutPeek (plain full : bool).

Inductive Phase : Type :=
  | Live
  | Settling (deadline : Z) (generation : Z) (kind : CutKind).

Record AttachedClient : Type := mkAttached {
  a_pid : option Z;
  a_tty : option bytes;
  attached_at : bytes
}.

Record Client : Type := mkClient {
  conn : Conn;
  role : Role;
  c_rows : Z;
  c_cols : Z;
  attach_seq : Z;
  c_generation : Z;
  phase : Phase;
  attached : option AttachedClient
}.

Definition new_client (rows cols : Z) : Client :=
  mkClient new_conn Command rows cols 0 0 Live None.

Definition set_conn (c : Conn) (cl : Client) : Client :=
  mkClient c (role cl) (c_rows cl) (c_cols cl) (attach_seq cl) (c_generation cl) (phase cl)
    (attached cl).
Definition set_phase (p : Phase) (cl : Client) : Client :=
  mkClient (conn cl) (role cl) (c_rows cl) (c_cols cl) (attach_seq cl) (c_generation cl) p
    (attached cl).

Definition client_send `{Alloc} (b : bytes) (cl : Client) : Client :=
  set_conn (send b (conn cl)) cl.
Definition client_send_out (o : Out) (cl : Client) : Client :=
  set_conn (send_out o (conn cl)) cl.

Definition is_settling (cl : Client) : bool :=
  match phase cl with Settling _ _ _ => true | Live => false end.

Definition gets_geometry (cl : Client) : bool :=
  (0 <? attach_seq cl) || bool_decide (role cl = Readonly).

Definition constrains_size (cl : Client) : bool :=
  bool_decide (role cl = Writable) && (0 <? attach_seq cl).

(** [answering_client_available] for one client. *)
Definition answers (cl : Client) : bool :=
  bool_decide (role cl = Writable)
  && match attached cl with Some _ => true | None => false end && negb (is_settling cl).

(** ** What a connection's history looks like *)

(** What the peer has read: whole frames, each a packet of the daemon or the
    rejection, and then perhaps the start of a packet. *)
Inductive Frame : Type := Sent (b : bytes) | Rejection.
Definition frame_bytes (f : Frame) : bytes :=
  match f with Sent b => b | Rejection => encode_connection_error ClientTooSlow end.
Definition sent_frames (fs : list Frame) : list bytes :=
  concat ((fun f => match f with Sent b => [b] | Rejection => [] end) <$> fs).
Definition rejections (fs : list Frame) : nat :=
  length (concat ((fun f => match f with Sent b => [] | Rejection => [tt] end) <$> fs)).

Definition queued (l : list Out) : list bytes :=
  concat ((fun o => match o with Bytes q => [q_bytes q] | _ => [] end) <$> l).

Definition conn_ok `{Alloc} (sent : list bytes) (c : Conn) : Prop :=
  (pending_bytes c = queue_charges (queue c) + inflight_charge (inflight c) /\
   pending_bytes c <= OUTBOUND_QUEUE_BYTES /\
   Forall (fun o => match o with
                    | Bytes q => charge q = capacity (q_bytes q) + OUTBOUND_ITEM_OVERHEAD
                    | _ => True end)
     (match inflight c with Some (q, _) => [Bytes q] | None => [] end ++ queue c)) /\
  exists fs part,
    wire c = concat (frame_bytes <$> fs) ++ part /\
    rejections fs = (if rejected c then rejections fs else 0%nat) /\ (rejections fs <= 1)%nat /\
    match inflight c with
    | Some (q, rest) =>
        receiver c = true /\ q_bytes q = part ++ rest /\
        sent = sent_frames fs ++ [q_bytes q] ++ queued (queue c)
    | None =>
        if receiver c then part = [] /\ sent = sent_frames fs ++ queued (queue c)
        else writable c = false /\ queue c = [] /\
             exists next more, sent = sent_frames fs ++ next ++ more /\
               (part = [] \/ exists p rest, next = [p] /\ p = part ++ rest)
    end.

(** ** Lemmas *)

Lemma sent_frames_app a b : sent_frames (a ++ b) = sent_frames a ++ sent_frames b.
Proof. unfold sent_frames. rewrite fmap_app, concat_app. done. Qed.
Lemma queued_app a b : queued (a ++ b) = queued a ++ queued b.
Proof. unfold queued. rewrite fmap_app, concat_app. done. Qed.
Lemma rejections_app a b : rejections (a ++ b) = (rejections a + rejections b)%nat.
Proof. unfold rejections. rewrite fmap_app, concat_app, length_app. done. Qed.
Lemma frames_app a b :
  concat (frame_bytes <$> (a ++ b)) = concat (frame_bytes <$> a) ++ concat (frame_bytes <$> b).
Proof. rewrite fmap_app, concat_app. done. Qed.

Lemma queue_charges_app a b : queue_charges (a ++ b) = queue_charges a + queue_charges b.
Proof. unfold queue_charges. induction a as [|[] a IH]; cbn [app fold_right]; lia. Qed.

Section Facts.
Context `{AllocLaws}.

Lemma capacity_nonneg b : 0 <= capacity b.
Proof. pose proof (capacity_len b). pose proof (blen_nonneg b). lia. Qed.

Lemma admit_Some c b total :
  try_admit c b = Some total ->
  total = pending_bytes c + (capacity b + OUTBOUND_ITEM_OVERHEAD) /\
  total <= OUTBOUND_QUEUE_BYTES.
Proof.
  unfold try_admit. destruct (_ <? _); [done|]. destruct (_ <? _); [done|].
  destruct (_ <=? _) eqn:E; [|done]. intros [= <-]. bprop. done.
Qed.

Lemma charges_nonneg l :
  Forall (fun o => match o with
                   | Bytes q => charge q = capacity (q_bytes q) + OUTBOUND_ITEM_OVERHEAD
                   | _ => True end) l -> 0 <= queue_charges l.
Proof.
  induction 1 as [|[q| |] l Hq _ IH]; cbn; try done.
  pose proof (capacity_nonneg (q_bytes q)). unfold OUTBOUND_ITEM_OVERHEAD in *.
  unfold queue_charges in IH. lia.
Qed.

Lemma queue_ok sent c b total :
  conn_ok sent c -> rejected c = false -> try_admit c b = Some total ->
  conn_ok (sent ++ [b]) (queue_bytes b total c).
Proof.
  intros ((Hp & Hm & Hf) & fs & part & Hw & Hr & Hr1 & Hi) Hrej Ha.
  apply admit_Some in Ha as [Ht Hb]. unfold conn_ok, queue_bytes, send_out, shutdown_both.
  destruct (receiver c) eqn:Er; cbn [queue receiver inflight pending_bytes rejected wire writable].
  - split; [split_and!|].
    + rewrite queue_charges_app. cbn. lia.
    + done.
    + rewrite app_assoc. apply Forall_app. split; [done|]. constructor; done.
    + exists fs, part. split_and!; try done.
      rewrite queued_app. destruct (inflight c) as [[q rest]|].
      * destruct Hi as (_ & Hq & ->). split_and!; try done. rewrite <- !app_assoc. done.
      * destruct Hi as [-> ->]. split; [done|]. rewrite <- app_assoc. done.
  - destruct (inflight c) as [[q rest]|]; [destruct Hi; done|].
    destruct Hi as (Hwr & Hq & next & more & -> & Hpart).
    split; [split_and!; done|]. exists fs, part. split_and!; try done.
    exists next, (more ++ [b]). split; [|done]. rewrite <- !app_assoc. done.
Qed.

Lemma exit_ok sent c :
  conn_ok sent c -> receiver c = true -> conn_ok sent (writer_exit c).
Proof.
  intros ((Hp & Hm & Hf) & fs & part & Hw & Hr & Hr1 & Hi) Hrec.
  unfold conn_ok, writer_exit.
  cbn [queue receiver inflight pending_bytes rejected wire writable app queue_charges fold_right
       inflight_charge]. split; [split_and!; [lia|unfold OUTBOUND_QUEUE_BYTES; lia|constructor]|].
  exists fs, part. split_and!; try done.
  destruct (inflight c) as [[q rest]|].
  - destruct Hi as (_ & Hq & Hs). exists [q_bytes q], (queued (queue c)). split; [done|]. right. eauto.
  - rewrite Hrec in Hi. destruct Hi as [-> Hs]. exists [], (queued (queue c)). auto.
Qed.

Lemma conn_step_ok sent c c' :
  conn_ok sent c -> conn_step c c' -> conn_ok sent c'.
Proof.
  intros Hok Hst. destruct Hst as [c b Hr Ha|c Hr|c o Ho|c|c n|c|c b].
  - destruct Hok as ((Hp & Hm & Hf) & fs & part & Hw & Hrj & Hr1 & Hi).
    unfold conn_ok, reject_frame. rewrite Hr in *.
    cbn [queue receiver inflight pending_bytes rejected wire writable]. split; [split_and!; done|].
    destruct (inflight c) as [[q rest]|] eqn:Ei.
    + exists fs, part. rewrite app_nil_r. split_and!; try done; try lia; tauto.
    + destruct (writable c && room c) eqn:Ew;
        [|exists fs, part; rewrite app_nil_r; split_and!; done || lia].
      apply andb_prop in Ew as [Ew _]. destruct (receiver c) eqn:Er;
        [|destruct Hi as (Hi & _); congruence].
      destruct Hi as [-> Hs]. exists (fs ++ [Rejection]), [].
      rewrite frames_app, rejections_app, sent_frames_app, Hw. cbn [fmap list_fmap concat frame_bytes].
      unfold sent_frames at 2. cbn. rewrite !app_nil_r. split_and!; done || lia.
  - destruct Hok as ((Hp & Hm & Hf) & fs & part & Hw & Hrj & Hr1 & Hi).
    unfold conn_ok, shutdown_both. cbn [queue receiver inflight pending_bytes rejected wire writable].
    split; [split_and!; done|]. exists fs, part. split_and!; try done.
    destruct (inflight c) as [[q rest]|]; [done|]. destruct (receiver c); [done|]. tauto.
  - destruct Hok as ((Hp & Hm & Hf) & fs & part & Hw & Hrj & Hr1 & Hi).
    unfold conn_ok, send_out, shutdown_both. destruct (receiver c) eqn:Er;
    cbn [queue receiver inflight pending_bytes rejected wire writable].
    + split; [split_and!; [rewrite queue_charges_app; destruct o; cbn; done || lia|done|]|].
      { rewrite app_assoc. apply Forall_app. split; [done|]. destruct o; [done|constructor; done..]. }
      exists fs, part. split_and!; try done. rewrite queued_app.
      assert (queued [o] = []) as -> by (destruct o; done). rewrite app_nil_r. exact Hi.
    + split; [split_and!; done|]. exists fs, part. split_and!; try done.
      destruct (inflight c) as [[q rest]|]; [destruct Hi; done|]. tauto.
  - unfold writer_recv. destruct (receiver c) eqn:Er; [|exact Hok].
    destruct (inflight c) as [|] eqn:Ei; [exact Hok|].
    destruct (queue c) as [|[q| |] rest] eqn:Eq; [exact Hok| | |].
    + destruct Hok as ((Hp & Hm & Hf) & fs & part & Hw & Hrj & Hr1 & Hi).
      rewrite Ei, Eq, Er in *. destruct Hi as [-> Hs]. unfold conn_ok.
      cbn [queue receiver inflight pending_bytes rejected wire writable inflight_charge app] in *.
      split; [split_and!; [unfold queue_charges in *; cbn in *; lia|done|exact Hf]|].
      exists fs, []. split_and!; done.
    + destruct Hok as ((Hp & Hm & Hf) & fs & part & Hw & Hrj & Hr1 & Hi).
      rewrite Ei, Eq, Er in *. unfold conn_ok.
      cbn [queue receiver inflight pending_bytes rejected wire writable app] in *.
      apply Forall_cons in Hf as [_ Hf].
      split; [split_and!; done|]. exists fs, part. split_and!; first [done | exact (proj1 Hi) | exact (proj2 Hi)].
    + apply exit_ok; [|done].
      destruct Hok as ((Hp & Hm & Hf) & fs & part & Hw & Hrj & Hr1 & Hi).
      rewrite Ei, Eq, Er in *. unfold conn_ok.
      cbn [queue receiver inflight pending_bytes rejected wire writable app] in *.
      apply Forall_cons in Hf as [_ Hf].
      split; [split_and!; done|]. exists fs, part. split_and!; first [done | exact (proj1 Hi) | exact (proj2 Hi)].
  - unfold writer_write. destruct (inflight c) as [[q rest]|] eqn:Ei; [|exact Hok].
    destruct (writable c) eqn:Ew.
    + destruct Hok as ((Hp & Hm & Hf) & fs & part & Hw & Hrj & Hr1 & Hi).
      rewrite Ei in *. destruct Hi as (Hr & Hq & Hs). unfold conn_ok.
      cbn [queue receiver inflight pending_bytes rejected wire writable inflight_charge] in *.
      split; [split_and!; done|]. exists fs, (part ++ take n rest).
      split_and!; try done; [rewrite Hw, <- app_assoc; done|].
      rewrite <- app_assoc, take_drop. done.
    + apply exit_ok; [done|]. destruct Hok as (_ & fs & part & _ & _ & _ & Hi).
      rewrite Ei in Hi. tauto.
  - unfold writer_done. destruct (inflight c) as [[q [|]]|] eqn:Ei; [|exact Hok..].
    destruct Hok as ((Hp & Hm & Hf) & fs & part & Hw & Hrj & Hr1 & Hi).
    rewrite Ei in *. destruct Hi as (Hr & Hq & Hs). unfold conn_ok.
    cbn [queue receiver inflight pending_bytes rejected wire writable inflight_charge app] in *.
    apply Forall_cons in Hf as [Hc Hf]. rewrite app_nil_r in Hq.
    pose proof (capacity_nonneg (q_bytes q)). unfold drop_charge, OUTBOUND_ITEM_OVERHEAD in *.
    split; [split_and!; [lia|lia|exact Hf]|]. rewrite Hr. exists (fs ++ [Sent (q_bytes q)]), [].
    rewrite frames_app, rejections_app, sent_frames_app, Hw. cbn [fmap list_fmap concat frame_bytes].
    unfold sent_frames at 2. cbn. rewrite !app_nil_r, <- Hq, !Nat.add_0_r.
    split_and!; try done. rewrite Hs, <- app_assoc. done.
  - destruct Hok as ((Hp & Hm & Hf) & fs & part & Hw & Hrj & Hr1 & Hi).
    unfold conn_ok, set_room. cbn [queue receiver inflight pending_bytes rejected wire writable].
    split; [split_and!; done|]. exists fs, part. split_and!; done.
Qed.

Lemma queued_charges l z :
  Forall (fun o => match o with
                   | Bytes q => charge q = capacity (q_bytes q) + OUTBOUND_ITEM_OVERHEAD
                   | _ => True end) l ->
  fold_right (fun b n => blen b + OUTBOUND_ITEM_OVERHEAD + n) z (queued l)
  <= queue_charges l + z.
Proof.
  induction 1 as [|[q| |] l Hq _ IH]; [cbn; lia| | |].
  - change (queued (Bytes q :: l)) with (q_bytes q :: queued l).
    change (queue_charges (Bytes q :: l)) with (charge q + queue_charges l).
    cbn [fold_right]. pose proof (capacity_len (q_bytes q)). lia.
  - exact IH.
  - exact IH.
Qed.

Lemma conn_trace_ok sent c : conn_trace sent c -> conn_ok sent c.
Proof.
  induction 1 as [|sent c b total _ IH Hr Ha|sent c c' _ IH Hst].
  - unfold conn_ok, new_conn. cbn. split; [split_and!; [done|done|constructor]|].
    exists [], []. split_and!; try done. exact (Nat.le_0_l 1).
  - apply queue_ok; done.
  - eapply conn_step_ok; eauto.
Qed.
End Facts.

(** ** The theorems *)

Section Theorems.
Context `{AllocLaws}.

(** C22: however the daemon and the writer thread interleave, what the peer reads is
    a sequence of whole frames: the admitted packets in order, none lost before
    another, with at most one rejection frame between two of them and only once
    the client is rejected, and then at most the start of the next packet. *)
Theorem wire_frames (sent : list bytes) (c : Conn) :
  conn_trace sent c ->
  exists fs part,
    wire c = concat (frame_bytes <$> fs) ++ part /\
    (rejections fs <= 1)%nat /\ (rejected c = false -> rejections fs = 0%nat) /\
    exists next more, sent = sent_frames fs ++ next ++ more /\
      (part = [] \/ exists p rest, next = [p] /\ p = part ++ rest).
Proof.
  intros Htr. destruct (conn_trace_ok _ _ Htr) as (_ & fs & part & Hw & Hr & Hr1 & Hi).
  exists fs, part. split_and!; try done.
  - intros E. rewrite E in Hr. done.
  - destruct (inflight c) as [[q rest]|].
    + destruct Hi as (_ & Hq & ->). exists [q_bytes q], (queued (queue c)). split; [done|]. right. eauto.
    + destruct (receiver c).
      * destruct Hi as [-> ->]. exists [], (queued (queue c)). auto.
      * tauto.
Qed.

(** the memory held for a client is bounded whatever it is sent and however
    slowly it reads: the packets queued and in flight never take more than the
    outbound budget, at 64 bytes above its length for each. *)
Theorem queue_bound (sent : list bytes) (c : Conn) :
  conn_trace sent c ->
  let held := queued (queue c)
                ++ match inflight c with Some (q, _) => [q_bytes q] | None => [] end in
  fold_right (fun b n => blen b + OUTBOUND_ITEM_OVERHEAD + n) 0 held <= pending_bytes c /\
  pending_bytes c <= OUTBOUND_QUEUE_BYTES.
Proof.
  intros Htr. destruct (conn_trace_ok _ _ Htr) as ((Hp & Hm & Hf) & _). cbv zeta.
  split; [|done]. rewrite Hp, fold_right_app.
  assert (G : forall l z, Forall (fun o => match o with
                | Bytes q => charge q = capacity (q_bytes q) + OUTBOUND_ITEM_OVERHEAD
                | _ => True end) l ->
     fold_right (fun b n => blen b + OUTBOUND_ITEM_OVERHEAD + n) z (queued l) <= queue_charges l + z).
  { apply queued_charges. }
  apply Forall_app in Hf as [Hf1 Hf2]. etrans; [apply G, Hf2|].
  destruct (inflight c) as [[q rest]|]; cbn; [|lia].
  apply Forall_cons in Hf1 as [Hq _]. pose proof (capacity_len (q_bytes q)). lia.
Qed.
End Theorems.

#[export] Instance exact_alloc : Alloc := { capacity := blen }.
#[export] Instance exact_alloc_laws : AllocLaws.
Proof. intros b. cbn. lia. Qed.

(** A packet queued, taken by the writer and half written when the next is queued. *)
Definition busy_conn : Conn :=
  mkConn [Bytes (mkQueued [5] 65)] true (Some (mkQueued [1; 2] 66, [2])) 131 false [1] true true.

Lemma busy_trace : conn_trace [[1; 2]; [5]] busy_conn.
Proof.
  assert (H1 : conn_trace ([] ++ [[1; 2]]) (queue_bytes [1; 2] 66 new_conn))
    by (apply trace_queue; [apply trace_start|reflexivity|reflexivity]).
  pose proof (trace_step _ _ _ H1 (step_recv _)) as H2.
  pose proof (trace_step _ _ _ H2 (step_write _ 1)) as H3.
  apply (trace_queue _ _ [5] 131 H3); reflexivity.
Qed.

Lemma wire_frames_witness :
  conn_trace [[1; 2]; [5]] busy_conn /\
  exists fs part, wire busy_conn = concat (frame_bytes <$> fs) ++ part.
Proof.
  split; [exact busy_trace|].
  destruct (wire_frames [[1; 2]; [5]] busy_conn busy_trace) as (fs & part & H & _). eauto.
Defined.

Lemma queue_bound_witness :
  conn_trace [[1; 2]; [5]] busy_conn /\ pending_bytes busy_conn <= OUTBOUND_QUEUE_BYTES.
Proof. split; [exact busy_trace|]. apply (queue_bound _ _ busy_trace). Defined.
