(* ===== verification/BTree.v ===== *)
(** [BTreeMap<u64, T>] as an association list in increasing key order: iteration
    order is what the daemon's negotiation and facts depend on. *)
From S2P Require Import Prelude.

Abbreviation BTree A := (list (Z * A)).

Fixpoint bget {A} (k : Z) (m : BTree A) : option A :=
  match m with
  | [] => None
  | (k', v) :: m' => if k =? k' then Some v else bget k m'
  end.

Definition bmem {A} (k : Z) (m : BTree A) : bool :=
  match bget k m with Some _ => true | None => false end.

Fixpoint binsert {A} (k : Z) (v : A) (m : BTree A) : BTree A :=
  match m with
  | [] => [(k, v)]
  | (k', v') :: m' =>
      if k <? k' then (k, v) :: m
      else if k =? k' then (k, v) :: m'
      else (k', v') :: binsert k v m'
  end.

Definition bremove {A} (k : Z) (m : BTree A) : BTree A :=
  List.filter (fun kv => negb (fst kv =? k)) m.

(** [get_mut]. *)
Definition bmodify {A} (k : Z) (f : A -> A) (m : BTree A) : BTree A :=
  (fun kv => if fst kv =? k then (fst kv, f (snd kv)) else kv) <$> m.

(** [values_mut]. *)
Definition bmap {A} (f : A -> A) (m : BTree A) : BTree A := (fun kv => (fst kv, f (snd kv))) <$> m.

Definition bkeys {A} (m : BTree A) : list Z := fst <$> m.

(** Keys strictly increase. *)
Fixpoint sorted (l : list Z) : Prop :=
  match l with
  | [] => True
  | x :: l' => Forall (fun y => x < y) l' /\ sorted l'
  end.

(** ** Lemmas *)

Lemma bkeys_modify {A} k (f : A -> A) m : bkeys (bmodify k f m) = bkeys m.
Proof.
  unfold bkeys, bmodify. rewrite <- list_fmap_compose. apply list_fmap_ext.
  intros i [k0 v0] _. cbn. destruct (k0 =? k); done.
Qed.

Lemma bkeys_map {A} (f : A -> A) m : bkeys (bmap f m) = bkeys m.
Proof. unfold bkeys, bmap. rewrite <- list_fmap_compose. done. Qed.

Lemma bget_modify {A} k k' (f : A -> A) m :
  bget k (bmodify k' f m) = if k =? k' then f <$> bget k m else bget k m.
Proof.
  induction m as [|[k0 v0] m IH]; cbn [bmodify fmap list_fmap bget fst snd].
  - destruct (k =? k'); done.
  - destruct (k0 =? k') eqn:E; cbn [bget]; rewrite ?IH;
      unfold bmodify in IH; destruct (k =? k0) eqn:E0; bprop; subst; try rewrite IH.
    + rewrite Z.eqb_refl. done.
    + done.
    + rewrite (proj2 (Z.eqb_neq _ _) E). done.
    + done.
Qed.

Lemma bget_map {A} k (f : A -> A) m : bget k (bmap f m) = f <$> bget k m.
Proof.
  induction m as [|[k0 v0] m IH]; cbn [bmap fmap list_fmap bget fst snd]; [done|].
  destruct (k =? k0); [done|]. exact IH.
Qed.

Lemma bget_insert {A} k k' (v : A) m :
  sorted (bkeys m) -> bget k (binsert k' v m) = if k =? k' then Some v else bget k m.
Proof.
  induction m as [|[k0 v0] m IH]; cbn [binsert bget]; [done|].
  unfold bkeys. cbn [fmap list_fmap fst sorted]. intros [Hf Hs].
  destruct (k' <? k0) eqn:E; cbn [bget]; [done|]. destruct (k' =? k0) eqn:E1; cbn [bget]; bprop; subst.
  - destruct (k =? k0); done.
  - rewrite IH by exact Hs. destruct (k =? k0) eqn:E2; [|done]. bprop. subst.
    rewrite (proj2 (Z.eqb_neq k0 k')) by congruence. done.
Qed.

Lemma bget_remove {A} k k' (m : BTree A) :
  bget k (bremove k' m) = if k =? k' then None else bget k m.
Proof.
  unfold bremove. induction m as [|[k0 v0] m IH]; cbn [List.filter bget fst]; [destruct (_ =? _); done|].
  destruct (k0 =? k') eqn:E; cbn [negb bget].
  - rewrite IH. destruct (k =? k') eqn:E1; [done|]. bprop. subst.
    rewrite (proj2 (Z.eqb_neq _ _) E1). done.
  - rewrite IH. destruct (k =? k0) eqn:E2; [|done]. bprop. subst.
    rewrite (proj2 (Z.eqb_neq _ _) E). done.
Qed.

Lemma sorted_insert {A} k (v : A) m : sorted (bkeys m) -> sorted (bkeys (binsert k v m)).
Proof.
  unfold bkeys. induction m as [|[k0 v0] m IH]; cbn [binsert fmap list_fmap fst sorted]; [done|].
  intros [Hf Hs]. destruct (k <? k0) eqn:E; cbn [fmap list_fmap fst sorted]; bprop.
  - split; [|done]. constructor; [done|]. eapply Forall_impl; [exact Hf|]. intros; cbn in *; lia.
  - destruct (k =? k0) eqn:E1; cbn [fmap list_fmap fst sorted]; bprop; subst; [done|].
    split; [|auto]. clear IH Hs. induction m as [|[k1 v1] m IHm]; cbn [binsert fmap list_fmap fst].
    + constructor; [lia|constructor].
    + cbn [fmap list_fmap fst] in Hf. apply Forall_cons in Hf as [H1 Hf].
      destruct (k <? k1); cbn [fmap list_fmap fst]; [constructor; [lia|constructor; done]|].
      destruct (k =? k1); cbn [fmap list_fmap fst]; constructor; auto; lia.
Qed.

Lemma Forall_remove {A} (P : Z * A -> Prop) k m : Forall P m -> Forall P (bremove k m).
Proof.
  unfold bremove. induction 1 as [|[k0 v0] m H0 _ IH]; cbn [List.filter fst]; [done|].
  destruct (negb (k0 =? k)); [constructor|]; done.
Qed.

Lemma sorted_remove {A} k (m : BTree A) : sorted (bkeys m) -> sorted (bkeys (bremove k m)).
Proof.
  unfold bkeys. induction m as [|[k0 v0] m IH]; cbn [bremove List.filter fmap list_fmap fst sorted]; [done|].
  intros [Hf Hs]. destruct (k0 =? k); cbn [negb]; [apply IH, Hs|].
  cbn [fmap list_fmap fst sorted]. split; [|apply IH, Hs].
  clear IH Hs. induction m as [|[k1 v1] m IHm]; cbn [bremove List.filter fmap list_fmap fst]; [done|].
  cbn [fmap list_fmap fst] in Hf. apply Forall_cons in Hf as [H1 Hf].
  destruct (k1 =? k); cbn [negb fmap list_fmap fst]; [|constructor]; auto.
Qed.

Lemma bget_In {A} k (v : A) m : bget k m = Some v -> (k, v) ∈ m.
Proof.
  induction m as [|[k0 v0] m IH]; cbn [bget]; [done|].
  destruct (k =? k0) eqn:E; [intros [= ->]; bprop; subst; left|intros; right; auto].
Qed.

Lemma In_bget {A} k (v : A) m : sorted (bkeys m) -> (k, v) ∈ m -> bget k m = Some v.
Proof.
  unfold bkeys. induction m as [|[k0 v0] m IH]; intros Hs Hin; [apply not_elem_of_nil in Hin; done|].
  cbn [fmap list_fmap fst sorted] in Hs. destruct Hs as [Hf Hs]. cbn [bget].
  apply elem_of_cons in Hin as [[= -> ->]|Hin]; [rewrite Z.eqb_refl; done|].
  assert (k0 < k).
  { rewrite Forall_forall in Hf. apply Hf, list_elem_of_fmap. exists (k, v). done. }
  rewrite (proj2 (Z.eqb_neq k k0)) by lia. auto.
Qed.
