(* ===== verification/Daemon.v ===== *)
(** The session daemon's actor: [crates/pty/src/daemon/lifecycle.rs] (its state,
    message handling, timers, exit and startup lease), [clients.rs] (the inbound
    packet handlers and SCREEN cuts), [geometry.rs] and [events.rs].

    Each handler is a function on the daemon's state.  The terminal is an
    interface ([Terminal]); clocks, the registry's weather and the process tree
    are an environment indexed by how often they have been consulted ([Env]).
    Effects are fields of the state: packets go to each client's connection,
    input to [child_input], window sizes to [winsizes], events to [log]. *)
From S2P Require Import Prelude Protocol Json Metadata Names Mutate Clients BTree.

(** ** Interfaces *)

(** The three replays a cut asks for, and the two plain ranges. *)
Inductive SerializeOpts : Type := ATTACH | PEEK | PEEK_FULL.
Inductive Range : Type := Viewport | Full.

Inductive HistoryResponse : Type :=
  | HistoryUnavailable
  | HistoryInvalidRequest
  | HistoryPage (json : bytes).

(** [TerminalEvent]; the log keeps only some of them. *)
Inductive TerminalEvent : Type :=
  | Bell
  | TitleChange (title : bytes)
  | Notification (title body source : option bytes)
  | FocusRequest
  | CursorVisible
  | EnhancedPasteMode (on : bool)
  | EnhancedPasteRead.

(** [TerminalActor] as the daemon uses it. *)
Class Terminal (T : Type) : Type := {
  t_rows : T -> Z;
  t_cols : T -> Z;
  t_cell_size : T -> Z * Z;
  t_resize : Z -> Z -> T -> T;
  t_set_cell_size : Z * Z -> T -> T;
  t_take_pty_replies : T -> bytes * T;
  t_take_events : T -> list TerminalEvent * T;
  t_set_client_available : bool -> T -> T;
  t_write : bytes -> T -> bytes * T;
  t_reset_input_modes : T -> bytes * T;
  t_end_stream : T -> T;
  t_serialize : SerializeOpts -> T -> bytes;
  t_plain : Range -> T -> bytes;
  t_history : bytes -> bytes -> T -> HistoryResponse * T;
  t_plain_lines : T -> list bytes
}.

(** What the daemon relies on: [resize] sets the grid, the other operations of the daemon
    leave it.  The child's output may change it itself (DECCOLM, 80 or 132 columns), but
    never to an empty one. *)
Class TerminalLaws (T : Type) `{Terminal T} : Prop := {
  resize_rows : forall c r t, 0 < r -> t_rows (t_resize c r t) = r;
  resize_cols : forall c r t, 0 < c -> t_cols (t_resize c r t) = c;
  cell_grid : forall c t, t_rows (t_set_cell_size c t) = t_rows t /\
                          t_cols (t_set_cell_size c t) = t_cols t;
  replies_grid : forall t, t_rows (snd (t_take_pty_replies t)) = t_rows t /\
                           t_cols (snd (t_take_pty_replies t)) = t_cols t;
  events_grid : forall t, t_rows (snd (t_take_events t)) = t_rows t /\
                          t_cols (snd (t_take_events t)) = t_cols t;
  available_grid : forall b t, t_rows (t_set_client_available b t) = t_rows t /\
                               t_cols (t_set_client_available b t) = t_cols t;
  write_grid : forall b t, 0 < t_rows t -> 0 < t_cols t ->
                           0 < t_rows (snd (t_write b t)) /\ 0 < t_cols (snd (t_write b t));
  reset_grid : forall t, t_rows (snd (t_reset_input_modes t)) = t_rows t /\
                         t_cols (snd (t_reset_input_modes t)) = t_cols t;
  end_grid : forall t, t_rows (t_end_stream t) = t_rows t /\ t_cols (t_end_stream t) = t_cols t;
  history_grid : forall g r t, t_rows (snd (t_history g r t)) = t_rows t /\
                               t_cols (snd (t_history g r t)) = t_cols t
}.

(** [process_tree::TreeSnapshot], by its identities. *)
Inductive TreeSnapshot : Type :=
  | Complete (identities : list Z)
  | Unavailable (identities : list Z).
Definition is_complete (t : TreeSnapshot) : bool :=
  match t with Complete _ => true | Unavailable _ => false end.

(** The environment: [Instant::now] in milliseconds, the wall clock in epoch
    milliseconds, [monotonic_now_ns], what each registry call meets, what a tree
    freeze observes, whether the input thread started; and the JSON texts that
    [serde_json] reads and writes, with the two inspection replies (STATUS and
    socket ownership) that other components compute. *)
Class Env : Type := {
  instant : nat -> Z;
  epoch_ms : nat -> Z;
  monotonic_now_ns : nat -> option Z;
  forecast : nat -> Weather;
  freeze : nat -> TreeSnapshot;
  input_started : bool;
  identity_of_json : bytes -> option (Z * option bytes);
  clients_json : list AttachedClient -> bytes;
  stats_json : nat -> bytes;
  history_of_json : bytes -> option bytes;
  history_json : HistoryResponse -> option bytes;
  ownership_reply : nat -> bytes -> bytes;
  cas_of_json : bytes -> option LifecycleCompareAndSetRequest;
  cas_json : LifecycleCompareAndSetResult -> bytes;
  value_of_json : bytes -> option Value;
  value_to_json : Value -> bytes
}.

(** ** Constants (milliseconds) *)

Definition EXIT_GRACE : Z := 500.
Definition EXIT_DRAIN : Z := 300.
Definition EXIT_METADATA_RETRY : Z := 400.
Definition ATOMIC_TEMP_SWEEP_INTERVAL : Z := 30000.
Definition ACTIVITY_PERSIST_DEBOUNCE : Z := 1000.
Definition ACTIVITY_PERSIST_BUSY_RETRY : Z := 50.
Definition MAX_TIMER_DELAY_MS : Z := 2147483647.

(** ** Data *)

Record ExitStatus : Type := mkExitStatus { code : option Z; signal : option Z }.

Record ClientFacts : Type := mkFacts {
  f_rows : Z;
  f_cols : Z;
  f_writable : list (Z * Z * Z)
}.
#[export] Instance ClientFacts_eq_dec : EqDecision ClientFacts.
Proof. solve_decision. Defined.
Definition unattached (rows cols : Z) : ClientFacts := mkFacts rows cols [].

Record ArmedStartupLease : Type := mkLease {
  lifecycle_tag : bytes;
  boot_id : bytes;
  deadline_monotonic_ns : option Z;
  starting_value : bytes
}.

Inductive StartupLeaseTerminalCause : Type := CauseExit | CauseDeadline | CauseTeardownUnavailable.
Definition cause_str (c : StartupLeaseTerminalCause) : bytes :=
  match c with
  | CauseExit => str "exit"
  | CauseDeadline => str "deadline"
  | CauseTeardownUnavailable => str "teardown-unavailable"
  end.

(** What the operation's actor is told. *)
Inductive ActorEvent : Type := AChildExited | AShutdown.
Record OperationLink : Type := mkOperation {
  transferred : bool;
  deferred_exit : option ExitStatus;
  ended : bool;
  actor_events : list ActorEvent
}.

Inductive Msg : Type :=
  | PtyData (b : bytes)
  | PtyEof
  | ChildExited (status : ExitStatus)
  | Connect (id : Z)
  | MPacket (id : Z) (packet : Packet) (input : option Z)
  | Closed (id : Z)
  | ExternalKill
  | OperationTransferred
  | OperationEnd (code : Z).

(** [PtySize]. *)
Record PtySize : Type := mkPtySize { ps_rows : Z; ps_cols : Z; pixel_width : Z; pixel_height : Z }.

(** Events appended to the session's log. *)
Inductive LogEvent : Type :=
  | LBell
  | LNotification (title body source : option bytes)
  | LFocusRequest
  | LSessionExit (code : Z) (signal : option Z).

Record Daemon (T : Type) : Type := mkDaemon {
  name : bytes;
  generation : bytes;
  term : T;
  clients : BTree Client;
  attach_counter : Z;
  last_resize : option Z;
  settle : Z;
  exited : bool;
  exit_code : Z;
  child_status : option ExitStatus;
  pty_eof : bool;
  external_kill : bool;
  shutdown_code : option Z;
  exit_drain_deadline : option Z;
  exit_shutdown_at : option Z;
  exit_meta_retry : option (Z * Z);
  atomic_temp_sweep_at : Z;
  last_output_at_ms : option Z;
  activity_persist_at : option Z;
  client_generation : Z;
  published_client_facts : ClientFacts;
  pending_attach_at : option bytes;
  client_meta_retry : option (Z * Z);
  startup_lease : option ArmedStartupLease;
  startup_lease_timer : option Z;
  startup_lease_disarmed : bool;
  startup_deadline_pending_shutdown : bool;
  startup_lease_terminal_value : option bytes;
  teardown_tree : option TreeSnapshot;
  teardown_frozen : bool;
  operation : option OperationLink;
  world : World;
  ticks : nat;
  registry_calls : nat;
  child_input : list (bytes * option Z);
  released : list Z;
  winsizes : list PtySize;
  log : list LogEvent
}.
Arguments mkDaemon {T}.
Arguments name {T}. Arguments generation {T}. Arguments term {T}. Arguments clients {T}.
Arguments attach_counter {T}. Arguments last_resize {T}. Arguments settle {T}.
Arguments exited {T}. Arguments exit_code {T}. Arguments child_status {T}. Arguments pty_eof {T}.
Arguments external_kill {T}. Arguments shutdown_code {T}. Arguments exit_drain_deadline {T}.
Arguments exit_shutdown_at {T}. Arguments exit_meta_retry {T}. Arguments atomic_temp_sweep_at {T}.
Arguments last_output_at_ms {T}. Arguments activity_persist_at {T}. Arguments client_generation {T}.
Arguments published_client_facts {T}. Arguments pending_attach_at {T}.
Arguments client_meta_retry {T}. Arguments startup_lease {T}. Arguments startup_lease_timer {T}.
Arguments startup_lease_disarmed {T}. Arguments startup_deadline_pending_shutdown {T}.
Arguments startup_lease_terminal_value {T}. Arguments teardown_tree {T}.
Arguments teardown_frozen {T}. Arguments operation {T}. Arguments world {T}. Arguments ticks {T}.
Arguments registry_calls {T}. Arguments child_input {T}. Arguments released {T}.
Arguments winsizes {T}. Arguments log {T}.

#[export] Instance Daemon_settable {T} : Settable (Daemon T) := fun d =>
  mkDaemon (name d) (generation d) (term d) (clients d) (attach_counter d) (last_resize d)
    (settle d) (exited d) (exit_code d) (child_status d) (pty_eof d) (external_kill d)
    (shutdown_code d) (exit_drain_deadline d) (exit_shutdown_at d) (exit_meta_retry d)
    (atomic_temp_sweep_at d) (last_output_at_ms d) (activity_persist_at d)
    (client_generation d) (published_client_facts d) (pending_attach_at d)
    (client_meta_retry d) (startup_lease d) (startup_lease_timer d) (startup_lease_disarmed d)
    (startup_deadline_pending_shutdown d) (startup_lease_terminal_value d) (teardown_tree d)
    (teardown_frozen d) (operation d) (world d) (ticks d) (registry_calls d) (child_input d)
    (released d) (winsizes d) (log d).

(** [terminal_startup_lease_value]. *)
Definition terminal_startup_lease_value `{Env} (generation : bytes)
  (cause : StartupLeaseTerminalCause) : bytes :=
  value_to_json (VObj [(str "_tag", VStr (str "terminal"));
                       (str "generation", VStr generation);
                       (str "cause", VStr (cause_str cause))]).

Definition startup_lease_deadline_cause (containment_complete : bool)
  : StartupLeaseTerminalCause :=
  if containment_complete then CauseDeadline else CauseTeardownUnavailable.

(** [remaining_lease_delay] at one reading of the monotonic clock. *)
Definition remaining_lease_delay (now : option Z) (deadline_ns : Z) : Z :=
  match now with
  | None => 0
  | Some now =>
      let remaining_ns := Z.max 0 (deadline_ns - now) in
      let remaining_ms := (remaining_ns + 999999) / 1000000 in
      Z.min (Z.min remaining_ms USIZE_MAX) MAX_TIMER_DELAY_MS
  end.

(** [decode_wait_status] on the bits of [waitpid]'s status. *)
Definition decode_wait_status (status : option Z) : Z * option Z :=
  match status with
  | None => (-1, None)
  | Some status =>
      let sig := Z.land status 127 in
      if negb (sig =? 0) && negb (sig =? 127) then (128 + sig, Some sig)
      else if sig =? 0 then (Z.land (Z.shiftr status 8) 255, None)
      else (-1, None)
  end.

(** [accept_failure_passes], on the error's kind and OS code. *)
Inductive ErrorKind : Type := Interrupted | ConnectionAborted | WouldBlock | TimedOut | OtherKind.
Definition EMFILE : Z := 24.
Definition ENFILE : Z := 23.
Definition accept_failure_passes (kind : ErrorKind) (os : option Z) : bool :=
  match kind with
  | Interrupted | ConnectionAborted | WouldBlock | TimedOut => true
  | OtherKind => match os with Some e => (e =? EMFILE) || (e =? ENFILE) | None => false end
  end.

Section Actor.
Context {T : Type} `{Terminal T} `{Env} `{Alloc}.

Abbreviation D := (Daemon T).

(** ** Clocks and the registry *)

(** [Instant::now()]: each reading is the environment's next. *)
Definition now (d : D) : Z := instant (ticks d).
Definition tick (d : D) : D := d <| ticks ::= S |>.

Definition now_iso8601 (d : D) : bytes := Time.iso8601_from_epoch_ms (epoch_ms (ticks d)).

(** One registry operation, in the weather of that call. *)
Definition registry_call {A} (f : Weather -> World -> World * A) (d : D) : D * A :=
  let '(w, a) := f (forecast (registry_calls d)) (world d) in
  (d <| world := w |> <| registry_calls ::= S |>, a).

Definition status_of {S} (r : World * MutateStatus * option S) : World * MutateStatus :=
  (fst (fst r), snd (fst r)).

(** ** Clients *)

Definition send_to (id : Z) (b : bytes) (d : D) : D :=
  d <| clients ::= bmodify id (client_send b) |>.

(** DATA and EXIT: live clients only. *)
Definition broadcast (packet : bytes) (d : D) : D :=
  d <| clients ::= bmap (fun c => if is_settling c then c else client_send packet c) |>.

Definition attached_clients (cs : BTree Client) : list AttachedClient :=
  omap (fun kv => attached (snd kv)) cs.

Definition answering_client_available (cs : BTree Client) : bool :=
  existsb (fun kv => answers (snd kv)) cs.

(** ** Input to the child *)

Definition release_hold (hold : option Z) (d : D) : D :=
  match hold with Some n => d <| released ::= app [n] |> | None => d end.

Definition write_input (b : bytes) (hold : option Z) (d : D) : D :=
  match b, child_status d with
  | [], _ | _, Some _ => release_hold hold d
  | _, None =>
      if input_started then d <| child_input ::= (fun l => l ++ [(b, hold)]) |>
      else release_hold hold (d <| child_input ::= (fun l => l ++ [(b, None)]) |>)
  end.

Definition write_pty (b : bytes) (d : D) : D := write_input b None d.

(** ** Geometry *)

(** The fold of [negotiate_size] over the constraining clients. *)
Definition min_or_set (acc v : Z) : Z := if acc =? 0 then v else Z.min acc v.
Definition negotiated (cs : BTree Client) : Z * Z :=
  fold_left (fun rc kv => let c := snd kv in
                          if constrains_size c
                          then (min_or_set (fst rc) (c_rows c), min_or_set (snd rc) (c_cols c))
                          else rc) cs (0, 0).

Definition broadcast_geometry (rows cols : Z) (d : D) : D :=
  let packet := encode_geometry rows cols in
  d <| clients ::= bmap (fun c => if gets_geometry c then client_send packet c else c) |>.

(** [saturating_mul] of [u32]s, clamped to [u16]. *)
Definition pixels (cells extent : Z) : Z := Z.min (Z.min (cells * extent) U32_MAX) U16_MAX.

Definition resize_pty (rows cols : Z) (d : D) : D :=
  let '(width, height) := t_cell_size (term d) in
  d <| winsizes ::= (fun l => l ++ [mkPtySize rows cols (pixels cols width) (pixels rows height)]) |>.

Definition take_replies (d : D) : bytes * D :=
  let '(replies, t) := t_take_pty_replies (term d) in (replies, d <| term := t |>).

Definition grid_allowed (rows cols : Z) : bool :=
  negb ((4096 <? rows) || (4096 <? cols) || (250000 <? rows * cols)).

Definition negotiate_size (d : D) : D * bool :=
  let '(rows, cols) := negotiated (clients d) in
  if (rows =? 0) || (cols =? 0) then (d, false)
  else if negb (grid_allowed rows cols) then (d, false)
  else if (rows =? t_rows (term d)) && (cols =? t_cols (term d)) then (d, false)
  else
    let d := d <| term ::= t_resize cols rows |> in
    let d := broadcast_geometry rows cols d in
    let d := resize_pty rows cols d in
    let '(replies, d) := take_replies d in
    let d := write_pty replies d in
    (tick (d <| last_resize := Some (now d) |>), true).

Definition nudge_redraw (d : D) : D :=
  let cols := t_cols (term d) in
  let rows := t_rows (term d) in
  if cols <? 2 then d
  else
    let d := resize_pty rows (cols - 1) d in
    let d := d <| term ::= t_resize (cols - 1) rows |> in
    let d := resize_pty rows cols d in
    d <| term ::= t_resize cols rows |>.

Definition adopt_cell_size (payload : bytes) (d : D) : D * bool :=
  match decode_cell payload with
  | Some cell =>
      let '(w, h) := t_cell_size (term d) in
      if (fst cell =? w) && (snd cell =? h) then (d, false)
      else (d <| term ::= t_set_cell_size cell |>, true)
  | None => (d, false)
  end.

(** ** The client generation *)

Definition client_facts (d : D) : ClientFacts :=
  mkFacts (t_rows (term d)) (t_cols (term d))
    (omap (fun kv => let c := snd kv in
                     if constrains_size c then Some (fst kv, c_rows c, c_cols c) else None)
       (clients d)).

(** The closure of [write_client_generation]. *)
Definition generation_mutation (attached_at : option bytes) (gen : Z) : Mutation unit :=
  fun m =>
    let '(m, changed) :=
      match attached_at with Some at_ => (set_last_attach_at (Some at_) m, true) | None => (m, false) end in
    if opt_eqb Z.eqb (Metadata.client_generation m) (Some gen) then (m, changed, tt)
    else (set_client_generation (Some gen) m, true, tt).

Definition write_client_generation (d : D) : D :=
  let '(d, status) :=
    registry_call (fun e w => status_of
      (mutate_metadata_under_lock e w (name d)
         (generation_mutation (pending_attach_at d) (client_generation d))
         (generation_fence (generation d)))) d in
  match status with
  | Mutate.Busy | Mutate.Stale =>
      let t := now d in
      let d := tick d in
      let deadline := match client_meta_retry d with
                      | Some (_, deadline) => deadline
                      | None => t + CLIENT_METADATA_RETRY
                      end in
      d <| client_meta_retry := if t <? deadline then Some (t + 10, deadline) else None |>
  | _ => d <| pending_attach_at := None |> <| client_meta_retry := None |>
  end.

Definition note_client_change (attached_at : option bytes) (d : D) : D :=
  let facts := client_facts d in
  match attached_at with
  | None => if decide (facts = published_client_facts d) then d
            else write_client_generation
                   (d <| published_client_facts := facts |> <| client_generation ::= Z.succ |>
                      <| client_meta_retry := None |>)
  | Some _ => write_client_generation
                (d <| published_client_facts := facts |> <| client_generation ::= Z.succ |>
                   <| pending_attach_at := attached_at |> <| client_meta_retry := None |>)
  end.

(** ** SCREEN cuts *)

Definition cut_screen (kind : CutKind) (t : T) : bytes :=
  match kind with
  | CutAttach _ => t_serialize ATTACH t
  | CutPeek true full => t_plain (if full then Full else Viewport) t
  | CutPeek false full => t_serialize (if full then PEEK_FULL else PEEK) t
  end.

(** [elapsed]: saturating at zero. *)
Definition elapsed (now at_ : Z) : Z := Z.max 0 (now - at_).

(** The last packets of a cut: SCREEN, and EXIT when the child is gone. *)
Definition cut_client (screen : bytes) (exit : option Z) (c : Client) : Client :=
  let c := set_phase Live (client_send (encode_screen screen) c) in
  match exit with Some code => client_send (encode_exit code) c | None => c end.

Definition cut (id : Z) (d : D) : D :=
  match bget id (clients d) with
  | None => d
  | Some c =>
      match phase c with
      | Live => d
      | Settling _ generation kind =>
          if negb (generation =? c_generation c) then d
          else
            let screen := cut_screen kind (term d) in
            let exit := if exited d then Some (exit_code d) else None in
            let d := d <| clients ::= bmodify id (cut_client screen exit) |> in
            match kind with
            | CutAttach false =>
                if exited d then d
                else match last_resize d with
                     | Some at_ =>
                         let t := now d in
                         let d := tick d in
                         if elapsed t at_ <? settle d then nudge_redraw d else d
                     | None => d
                     end
            | _ => d
            end
      end
  end.

Definition schedule_cut (id generation : Z) (kind : CutKind) (delay : option Z) (d : D) : D :=
  let deadline := now d + match delay with Some x => x | None => 0 end in
  let d := tick d in
  let d := d <| clients ::= bmodify id (set_phase (Settling deadline generation kind)) |> in
  match delay with None => cut id d | Some _ => d end.

Definition is_due (now : Z) (kv : Z * Client) : bool :=
  match phase (snd kv) with Settling deadline _ _ => deadline <=? now | Live => false end.

Definition service_cuts (now : Z) (d : D) : D :=
  let due := fst <$> List.filter (is_due now) (clients d) in
  fold_left (fun d id => cut id d) due d.

Definition next_cut_deadline (d : D) : option Z :=
  fold_right omin None
    ((fun kv => match phase (snd kv) with Settling deadline _ _ => Some deadline | Live => None end)
     <$> clients d).

(** ** Packet handlers *)

(** The client record after an ATTACH. *)
Definition attach_client (rows cols seq : Z) (at_ : AttachedClient) (c : Client) : Client :=
  mkClient (conn c) Writable rows cols seq (c_generation c + 1) (phase c) (Some at_).

Definition generation_of (id : Z) (d : D) : Z :=
  match bget id (clients d) with Some c => c_generation c | None => 0 end.

(** How long an attacher's SCREEN waits, from a reading of the clock. *)
Definition settle_delay (resized : bool) (t : Z) (d : D) : option Z :=
  if exited d then None
  else if resized then Some (settle d)
  else match last_resize d with
       | Some at_ => let since_last := elapsed t at_ in
                     if since_last <? settle d then Some (settle d - since_last) else None
       | None => None
       end.

Definition on_attach (id : Z) (payload : bytes) (d : D) : D :=
  if blen payload <? 4 then d
  else if negb (bmem id (clients d)) then d
  else
    let '(rows, cols) := decode_size payload in
    let '(d, cell_changed) := adopt_cell_size payload d in
    let size_matched := (rows =? t_rows (term d)) && (cols =? t_cols (term d)) in
    let d := d <| attach_counter ::= Z.succ |> in
    let '(pid, tty) := decode_attach_identity identity_of_json payload in
    let at_ := mkAttached pid tty (now_iso8601 d) in
    let d := tick d in
    let d := d <| clients ::= bmodify id (attach_client rows cols (attach_counter d) at_) |> in
    let generation := generation_of id d in
    let '(d, resized) := negotiate_size d in
    let d := if cell_changed && negb resized
             then resize_pty (t_rows (term d)) (t_cols (term d)) d else d in
    let d := if resized then d
             else send_to id (encode_geometry (t_rows (term d)) (t_cols (term d))) d in
    let stamp := now_iso8601 d in
    let d := note_client_change (Some stamp) (tick d) in
    let delay := settle_delay resized (now d) d in
    schedule_cut id generation (CutAttach size_matched) delay (tick d).

Definition on_history (id : Z) (payload : bytes) (d : D) : D :=
  if negb (bmem id (clients d)) then d
  else
    let '(response, d) :=
      if exited d then (HistoryUnavailable, d)
      else if 1024 <? blen payload then (HistoryInvalidRequest, d)
      else match history_of_json payload with
           | Some request =>
               let '(r, t) := t_history (generation d) request (term d) in
               (r, d <| term := t |>)
           | None => (HistoryInvalidRequest, d)
           end in
    match history_json response with
    | Some payload => send_to id (encode_packet History payload) d
    | None => d
    end.

Definition peek_client (c : Client) : Client :=
  mkClient (conn c) Readonly (c_rows c) (c_cols c) (attach_seq c) (c_generation c + 1) (phase c)
    (attached c).

Definition on_peek (id : Z) (payload : bytes) (d : D) : D :=
  match bget id (clients d) with
  | None => d
  | Some c =>
      let was_writable := constrains_size c in
      let d := d <| clients ::= bmodify id peek_client |> in
      let generation := generation_of id d in
      let '(d, resized) := negotiate_size d in
      let d := if resized then d
               else send_to id (encode_geometry (t_rows (term d)) (t_cols (term d))) d in
      let d := if was_writable then note_client_change None d else d in
      let '(plain, full) := decode_peek payload in
      schedule_cut id generation (CutPeek plain full) None d
  end.

Definition on_data (id : Z) (payload : bytes) (input : option Z) (d : D) : D :=
  match bget id (clients d) with
  | None => release_hold input d
  | Some c =>
      if negb (exited d) && negb (bool_decide (role c = Readonly))
      then write_input payload input d
      else release_hold input d
  end.

Definition resize_client (rows cols seq : Z) (c : Client) : Client :=
  mkClient (conn c) (role c) rows cols seq (c_generation c) (phase c) (attached c).

Definition on_resize (id : Z) (payload : bytes) (d : D) : D :=
  match bget id (clients d) with
  | None => d
  | Some c =>
      if negb (bool_decide (role c = Writable)) || (attach_seq c =? 0) || (blen payload <? 4)
      then d
      else
        let '(rows, cols) := decode_size payload in
        let d := d <| attach_counter ::= Z.succ |> in
        let d := d <| clients ::= bmodify id (resize_client rows cols (attach_counter d)) |> in
        let '(d, cell_changed) := adopt_cell_size payload d in
        let '(d, resized) := negotiate_size d in
        let d := if cell_changed && negb resized
                 then resize_pty (t_rows (term d)) (t_cols (term d)) d else d in
        note_client_change None d
  end.

Definition on_closed (id : Z) (d : D) : D :=
  match bget id (clients d) with
  | None => d
  | Some c =>
      let d := d <| clients ::= bremove id |> in
      let '(d, _) := negotiate_size d in
      if constrains_size c then note_client_change None d else d
  end.

(** The socket of a departing client still gets [End]: its connection leaves the
    table with it, so only the removal shows here. *)
Definition on_detach (id : Z) (d : D) : D :=
  let d := d <| clients ::= bmodify id (client_send_out End) |> in
  on_closed id d.

Definition on_status (id : Z) (payload : bytes) (d : D) : D :=
  let json := if beq payload (str "clients") then clients_json (attached_clients (clients d))
              else stats_json (ticks d) in
  send_to id (encode_status_response json) (tick d).

Definition on_accepted_socket_ownership (id : Z) (payload : bytes) (d : D) : D :=
  send_to id (encode_packet AcceptedSocketOwnership (ownership_reply (ticks d) payload)) (tick d).

(** ** The startup lease *)

(** The closure of [settle_startup_lifecycle]. *)
Definition terminal_mutation (tag terminal : bytes) : Mutation unit :=
  fun m =>
    if obeq (tag_of tag (tags m)) (Some terminal) then (m, false, tt)
    else (set_tags (Some (minsert tag terminal
                            match tags m with Some t => t | None => [] end)) m, true, tt).

Definition settle_startup_lifecycle (cause : StartupLeaseTerminalCause) (force : bool) (d : D)
  : D * option bytes :=
  match startup_lease d with
  | None => (d, None)
  | Some lease =>
      match startup_lease_terminal_value d with
      | Some value => (d, Some value)
      | None =>
          if startup_lease_disarmed d && negb force then (d, None)
          else
            let terminal := terminal_startup_lease_value (generation d) cause in
            let '(d, status) :=
              registry_call (fun e w => status_of
                (mutate_metadata_under_lock_with_wait e w (name d)
                   (terminal_mutation (lifecycle_tag lease) terminal)
                   (generation_fence (generation d)) no_hook 100)) d in
            match status with
            | Mutate.Changed _ | Mutate.Unchanged _ =>
                (d <| startup_lease_disarmed := true |> <| startup_lease_timer := None |>
                   <| startup_lease_terminal_value := Some terminal |>, Some terminal)
            | Mutate.GenerationMismatch =>
                (d <| startup_lease_disarmed := true |> <| startup_lease_timer := None |>, None)
            | Mutate.Busy | Mutate.Stale | Mutate.Missing => (d, None)
            end
      end
  end.

(** [resume_frozen_tree]: the signals go to processes this model does not hold. *)
Definition resume_frozen_tree (d : D) : D :=
  if teardown_frozen d then d <| teardown_frozen := false |> <| teardown_tree := None |> else d.

Definition settle_startup_deadline (d : D) : D * option bytes :=
  let d := match teardown_tree d with
           | None => tick (d <| teardown_tree := Some (freeze (ticks d)) |>
                             <| teardown_frozen := true |>)
           | Some _ => d
           end in
  let complete := match teardown_tree d with Some t => is_complete t | None => false end in
  let '(d, settled) := settle_startup_lifecycle (startup_lease_deadline_cause complete) false d in
  match settled with
  | None => (if startup_lease_disarmed d then resume_frozen_tree d else d, None)
  | Some v => (d, Some v)
  end.

(** [monotonic_now_ns().is_none_or(|now| now >= deadline)]. *)
Definition deadline_passed (now : option Z) (deadline : Z) : bool :=
  match now with None => true | Some now => deadline <=? now end.

Definition lease_expired (d : D) : bool :=
  match startup_lease d with
  | Some lease =>
      negb (startup_lease_disarmed d)
      && match deadline_monotonic_ns lease with
         | Some deadline => deadline_passed (monotonic_now_ns (ticks d)) deadline
         | None => false
         end
  | None => false
  end.

(** A lifecycle value that is this generation's terminal one. *)
Definition is_terminal_value (generation value : bytes) : bool :=
  match value_of_json value with
  | Some v =>
      obeq (let? t := vget (str "_tag") v in as_str t) (Some (str "terminal"))
      && obeq (let? g := vget (str "generation") v in as_str g) (Some generation)
  | None => false
  end.

(** The lease's view of a compare-and-set that the record accepted. *)
Definition note_lifecycle_cas (request : LifecycleCompareAndSetRequest) (d : D) : D :=
  match startup_lease d with
  | None => d
  | Some lease =>
      let is_tag := beq (Protocol.cas_tag request) (lifecycle_tag lease) in
      let d := if is_tag && beq (Protocol.cas_expected_value request) (starting_value lease)
                  && negb (beq (Protocol.cas_value request) (starting_value lease))
               then d <| startup_lease_disarmed := true |> <| startup_lease_timer := None |>
               else d in
      if is_tag && is_terminal_value (generation d) (Protocol.cas_value request)
      then d <| startup_lease_terminal_value := Some (Protocol.cas_value request) |>
      else d
  end.

Definition compare_and_set_lifecycle (request : LifecycleCompareAndSetRequest) (d : D)
  : D * LifecycleCompareAndSetResult :=
  if negb (beq (Protocol.cas_expected_generation request) (generation d))
  then (d, Protocol.GenerationMismatch)
  else match read_metadata (world d) (name d) with
  | None => (d, Protocol.Missing)
  | Some current =>
      if negb (obeq (Metadata.generation current) (Some (generation d)))
      then (d, Protocol.GenerationMismatch)
      else if exited d then
        let '(d, v) := settle_startup_lifecycle CauseExit true d in
        (d, Protocol.Terminal match v with
                     | Some v => v
                     | None => terminal_startup_lease_value (generation d) CauseExit
                     end)
      else
        let expired := lease_expired d in
        let d := tick d in
        if expired then
          let '(d, settled) := settle_startup_deadline d in
          match settled with
          | None => (d, Protocol.Busy)
          | Some value =>
              let d := d <| startup_deadline_pending_shutdown := true |>
                         <| startup_lease_timer := Some (now d + 25) |> in
              (tick d, DeadlineExpired value)
          end
        else
          let '(d, result) :=
            registry_call (fun e w =>
              compare_and_set_tag_value e w (name d) (Protocol.cas_expected_generation request)
                (Protocol.cas_tag request) (Protocol.cas_expected_value request)
                (Protocol.cas_value request)) d in
          match result with
          | TChanged value => (note_lifecycle_cas request d, Protocol.Changed value)
          | TUnchanged value => (note_lifecycle_cas request d, Protocol.Unchanged value)
          | TValueMismatch value => (d, ValueMismatch value)
          | TMissing => (d, Protocol.Missing)
          | TGenerationMismatch => (d, Protocol.GenerationMismatch)
          | TBusy | TStale => (d, Protocol.Busy)
          end
  end.

Definition on_lifecycle_cas (id : Z) (payload : bytes) (d : D) : D :=
  let '(d, result) :=
    match cas_of_json payload with
    | Some request => if validate_lifecycle request then compare_and_set_lifecycle request d
                      else (d, InvalidRequest (str "invalid request payload"))
    | None => (d, InvalidRequest (str "invalid request payload"))
    end in
  send_to id (encode_packet LifecycleCas (cas_json result)) d.

(** [on_packet]; a hold that no arm takes is released. *)
Definition on_packet (id : Z) (packet : Packet) (input : option Z) (d : D) : D :=
  match type_ packet with
  | Data => on_data id (payload packet) input d
  | ty =>
      release_hold input
        match ty with
        | Attach => on_attach id (payload packet) d
        | Peek => on_peek id (payload packet) d
        | History => on_history id (payload packet) d
        | Resize => on_resize id (payload packet) d
        | Detach => on_detach id d
        | Status => on_status id (payload packet) d
        | ResetInputModes =>
            match payload packet, bget id (clients d) with
            | [], Some c =>
                if bool_decide (role c = Writable) then
                  let '(output, t) := t_reset_input_modes (term d) in
                  broadcast (encode_data output) (d <| term := t |>)
                else d
            | _, _ => d
            end
        | AcceptedSocketOwnership => on_accepted_socket_ownership id (payload packet) d
        | LifecycleCas => on_lifecycle_cas id (payload packet) d
        | _ => d
        end
  end.

(** ** Child output and exit *)

Definition log_event (e : TerminalEvent) : option LogEvent :=
  match e with
  | Bell => Some LBell
  | Notification title body source => Some (LNotification title body source)
  | FocusRequest => Some LFocusRequest
  | TitleChange _ | CursorVisible | EnhancedPasteMode _ | EnhancedPasteRead => None
  end.

Definition forward_terminal_events (d : D) : D :=
  let '(events, t) := t_take_events (term d) in
  d <| term := t |> <| log ::= (fun l => l ++ omap log_event events) |>.

Definition stamp_output_activity (d : D) : D :=
  let d := d <| last_output_at_ms := Some (epoch_ms (ticks d)) |> in
  match activity_persist_at d with
  | None => tick (d <| activity_persist_at := Some (now d + ACTIVITY_PERSIST_DEBOUNCE) |>)
  | Some _ => d
  end.

Definition persist_output_activity (d : D) : D :=
  let d := d <| activity_persist_at := None |> in
  if exited d then d
  else match last_output_at_ms d with
       | None => d
       | Some stamped =>
           let '(d, status) :=
             registry_call (fun e w => status_of
               (publish_output_activity e w (name d) (mkActivity (generation d) stamped))) d in
           match status with
           | Mutate.Busy =>
               tick (d <| activity_persist_at := Some (now d + ACTIVITY_PERSIST_BUSY_RETRY) |>)
           | _ => d
           end
       end.

Definition on_pty_data (b : bytes) (d : D) : D :=
  let d := stamp_output_activity d in
  let answering := answering_client_available (clients d) in
  let d := d <| term ::= t_set_client_available answering |> in
  let '(cleaned, t) := t_write b (term d) in
  let d := d <| term := t |> in
  let '(replies, d) := take_replies d in
  let d := write_pty replies d in
  let d := forward_terminal_events d in
  match cleaned with [] => d | _ => broadcast (encode_data cleaned) d end.

(** [last_lines]: the last 200 of the terminal's lines. *)
Definition last_lines (d : D) : list bytes :=
  let lines := t_plain_lines (term d) in
  drop (length lines - Z.to_nat SESSION_EXIT_LAST_LINES_LIMIT) lines.

(** The closure of [save_exit_metadata]. *)
Definition exit_mutation (code : Z) (lines : list bytes) (last_output : option Z) (iso : bytes)
  : Mutation unit :=
  fun m =>
    let '(m, ch1) := if opt_eqb Z.eqb (Metadata.exit_code m) (Some code) then (m, false)
                     else (set_exit_code (Some code) m, true) in
    let '(m, ch2) := match exited_at m with
                     | None => (set_exited_at (Some iso) m, true)
                     | Some _ => (m, ch1)
                     end in
    let '(m, ch3) := if opt_eqb strs_eqb (Metadata.last_lines m) (Some lines) then (m, ch2)
                     else (set_last_lines (Some lines) m, true) in
    match last_output with
    | Some stamp => if opt_eqb Z.eqb (Metadata.last_output_at_ms m) (Some stamp) then (m, ch3, tt)
                    else (set_last_output_at_ms (Some stamp) m, true, tt)
    | None => (m, ch3, tt)
    end.

Definition save_exit_metadata (d : D) : D * MutateStatus :=
  let '(d, status) :=
    registry_call (fun e w => status_of
      (record_exit_retiring_output_activity e w (name d) (generation d)
         (exit_mutation (exit_code d) (last_lines d) (last_output_at_ms d) (now_iso8601 d)))) d in
  (tick d, status).

Definition exit_code_of (status : ExitStatus) : Z :=
  match signal status with
  | Some signal => 128 + signal
  | None => match code status with Some c => c | None => -1 end
  end.

Definition finalize_exit (d : D) : D :=
  let status := match child_status d with Some s => s | None => mkExitStatus None None end in
  let code := exit_code_of status in
  let '(d, _) := settle_startup_lifecycle CauseExit true d in
  let d := d <| exited := true |> <| exit_code := code |> <| exit_drain_deadline := None |>
             <| term ::= t_end_stream |> in
  let d := forward_terminal_events d in
  let d := broadcast (encode_exit code) d in
  let d := d <| log ::= (fun l => l ++ [LSessionExit code (signal status)]) |> in
  let '(d, saved) := save_exit_metadata d in
  let d := match saved with
           | Mutate.Busy | Mutate.Stale =>
               let t := now d in
               tick (d <| exit_meta_retry := Some (t + 10, t + EXIT_METADATA_RETRY) |>)
           | _ => d
           end in
  match shutdown_code d with
  | None => tick (d <| exit_shutdown_at := Some (now d + EXIT_GRACE) |>)
  | Some _ => d
  end.

(** ** Messages *)

(** [OperationLink::holds]. *)
Definition holds (status : ExitStatus) (o : OperationLink) : OperationLink * bool :=
  if transferred o then (o, false)
  else match deferred_exit o with
       | None => (mkOperation false (Some status) (ended o) (actor_events o ++ [AChildExited]), true)
       | Some _ => (o, true)
       end.

Definition intercepts_kill (o : OperationLink) : OperationLink * bool :=
  if transferred o then (o, false)
  else (mkOperation false (deferred_exit o) (ended o) (actor_events o ++ [AShutdown]), true).

Definition on_child_exited (status : ExitStatus) (d : D) : D :=
  let '(d, held) := match operation d with
                    | Some o => let '(o, h) := holds status o in (d <| operation := Some o |>, h)
                    | None => (d, false)
                    end in
  if held then d
  else match child_status d with
       | Some _ => d
       | None =>
           let d := d <| child_status := Some status |> in
           if pty_eof d then (if exited d then d else finalize_exit d)
           else tick (d <| exit_drain_deadline := Some (now d + EXIT_DRAIN) |>)
       end.

Definition has_status (d : D) : bool :=
  match child_status d with Some _ => true | None => false end.

Definition set_shutdown (code : Z) (d : D) : D :=
  match shutdown_code d with None => d <| shutdown_code := Some code |> | Some _ => d end.

Definition on_external_kill (d : D) : D :=
  let '(d, taken) := match operation d with
                     | Some o => let '(o, h) := intercepts_kill o in (d <| operation := Some o |>, h)
                     | None => (d, false)
                     end in
  if taken then d
  else match shutdown_code d with
       | None => d <| external_kill := true |> <| shutdown_code := Some 0 |>
       | Some _ => d
       end.

Definition handle (msg : Msg) (d : D) : D :=
  match msg with
  | PtyData b => on_pty_data b d
  | PtyEof =>
      let d := d <| pty_eof := true |> in
      if has_status d && negb (exited d) then finalize_exit d else d
  | ChildExited status => on_child_exited status d
  | Connect id =>
      d <| clients ::= binsert id (new_client (t_rows (term d)) (t_cols (term d))) |>
  | MPacket id packet input => on_packet id packet input d
  | Closed id => on_closed id d
  | ExternalKill => on_external_kill d
  | OperationTransferred =>
      match operation d with
      | Some o =>
          match deferred_exit o with
          | Some status =>
              on_child_exited status
                (d <| operation := Some (mkOperation (transferred o) None (ended o) (actor_events o)) |>)
          | None => d
          end
      | None => d
      end
  | OperationEnd code =>
      let d := match operation d with
               | Some o => d <| operation := Some (mkOperation (transferred o) (deferred_exit o) true
                                                     (actor_events o)) |>
               | None => d
               end in
      set_shutdown code d
  end.

(** ** Timers *)

Definition is_at (at_ : option Z) (t : Z) : bool :=
  match at_ with Some a => a <=? t | None => false end.

Definition service_temp_sweep (t : Z) (d : D) : D :=
  if atomic_temp_sweep_at d <=? t
  then tick (d <| atomic_temp_sweep_at := now d + ATOMIC_TEMP_SWEEP_INTERVAL |>) else d.

Definition service_activity (t : Z) (d : D) : D :=
  if is_at (activity_persist_at d) t then persist_output_activity d else d.

Definition service_client_meta (t : Z) (d : D) : D :=
  if is_at (fst <$> client_meta_retry d) t then write_client_generation d else d.

Definition service_exit_drain (t : Z) (d : D) : D :=
  if is_at (exit_drain_deadline d) t then
    let d := d <| exit_drain_deadline := None |> in
    if negb (exited d) && has_status d then finalize_exit d else d
  else d.

Definition service_exit_meta (t : Z) (d : D) : D :=
  match exit_meta_retry d with
  | Some (next, deadline) =>
      if next <=? t then
        let '(d, status) := save_exit_metadata d in
        match status with
        | Mutate.Busy | Mutate.Stale =>
            if t <? deadline then d <| exit_meta_retry := Some (t + 10, deadline) |>
            else d <| exit_meta_retry := None |>
        | _ => d <| exit_meta_retry := None |>
        end
      else d
  | None => d
  end.

Definition service_lease (t : Z) (d : D) : D :=
  if negb (is_at (startup_lease_timer d) t) then d
  else if startup_deadline_pending_shutdown d then
    set_shutdown 124
      (d <| startup_deadline_pending_shutdown := false |> <| startup_lease_timer := None |>
         <| external_kill := true |>)
  else if startup_lease_disarmed d then d <| startup_lease_timer := None |>
  else match (let? lease := startup_lease d in deadline_monotonic_ns lease) with
       | None => d <| startup_lease_timer := None |>
       | Some deadline =>
           let remaining := remaining_lease_delay (monotonic_now_ns (ticks d)) deadline in
           let d := tick d in
           if remaining =? 0 then
             let '(d, settled) := settle_startup_deadline d in
             match settled with
             | Some _ => d <| external_kill := true |> <| shutdown_code := Some 124 |>
             | None => d <| startup_lease_timer := Some (t + 10) |>
             end
           else d <| startup_lease_timer := Some (t + remaining) |>
       end.

Definition service_exit_shutdown (t : Z) (d : D) : D :=
  if is_at (exit_shutdown_at d) t
  then set_shutdown (exit_code d) (d <| exit_shutdown_at := None |>) else d.

Definition service_timers (t : Z) (d : D) : D :=
  service_exit_shutdown t
    (service_lease t
       (service_exit_meta t
          (service_exit_drain t
             (service_client_meta t
                (service_activity t
                   (service_temp_sweep t (service_cuts t d))))))).

(** One turn of [serve]: a message, if one came before the deadline, then the
    timers; the loop goes on while no shutdown code is set. *)
Definition turn (msg : option Msg) (d : D) : D :=
  let d := match msg with Some m => handle m d | None => d end in
  let t := now d in
  service_timers t (tick d).

(** The earliest timer [serve] sleeps until. *)
Definition next_deadline (d : D) : option Z :=
  fold_right omin None
    [next_cut_deadline d; exit_drain_deadline d; exit_shutdown_at d; fst <$> exit_meta_retry d;
     activity_persist_at d; fst <$> client_meta_retry d; startup_lease_timer d;
     Some (atomic_temp_sweep_at d)].

(** ** Assembly and steps *)

Definition assemble (nm gen : bytes) (t : T) (settle_ms : Z) (lease : option ArmedStartupLease)
  (op : option OperationLink) (w : World) : D :=
  let timer := let? l := lease in
               let? deadline := deadline_monotonic_ns l in
               Some (instant 0 + remaining_lease_delay (monotonic_now_ns 0) deadline) in
  mkDaemon nm gen t [] 0 None settle_ms false 0 None false false None None None None (instant 0)
    None None 0 (unattached (t_rows t) (t_cols t)) None None lease timer false false None None
    false op w 1 0 [] [] [] [].

(** What moves a served session: turns of the loop while it runs, the writer
    threads, other processes in the registry, and the operation's commit. *)
Inductive daemon_step : D -> D -> Prop :=
  | step_turn d msg :
      shutdown_code d = None ->
      match msg with
      | Some (Connect id) => bmem id (clients d) = false
      | Some (MPacket _ p _) => Forall is_u8 (payload p)
      | _ => True
      end ->
      daemon_step d (turn msg d)
  | step_writer d id f :
      (forall c, conn_step c (f c)) ->
      daemon_step d (d <| clients ::= bmodify id (fun c => set_conn (f (conn c)) c) |>)
  | step_registry d w : daemon_step d (d <| world := w |>)
  | step_commit d o :
      operation d = Some o ->
      daemon_step d (d <| operation := Some (mkOperation true (deferred_exit o) (ended o)
                                               (actor_events o)) |>).

Inductive served (d0 : D) : D -> Prop :=
  | served_start : served d0 d0
  | served_step d d' : served d0 d -> daemon_step d d' -> served d0 d'.

End Actor.

(** ** Exit-time reaping and the message queue *)

(** [reap_at_exit], with the [PTY_REAP_ON_EXIT] value given. *)
Definition reap_at_exit `{Unicode} (w : World) (name generation : bytes)
  (external_kill ephemeral startup_lease : bool) (config_tags : option (IndexMap bytes))
  (reap_var : option bytes) : bool :=
  let metadata := read_metadata w name in
  let foreign := match metadata ≫= Metadata.generation with
                 | Some g => negb (beq g generation)
                 | None => false
                 end in
  if foreign then false
  else if startup_lease then false
  else if external_kill && negb ephemeral then false
  else
    let tags := match metadata ≫= tags with Some t => Some t | None => config_tags end in
    should_reap_at_exit tags ephemeral (reap_on_exit_default reap_var).

(** [next_queued_message] on what the channel holds: [closed] when every sender is
    gone.  [WouldBlock] leaves the wait to the caller. *)
Inductive Next : Type := Got (m : Msg) | MustWait | Disconnected.

Definition is_bridge (m : Msg) : bool :=
  match m with PtyData _ | PtyEof | ChildExited _ => true | _ => false end.

Definition pop_deferred (rx deferred : list Msg) (none : Next) : Next * list Msg * list Msg :=
  match deferred with
  | m :: deferred' => (Got m, rx, deferred')
  | [] => (none, rx, [])
  end.

Fixpoint scan (fuel : nat) (closed : bool) (rx deferred : list Msg)
  : Next * list Msg * list Msg :=
  match fuel with
  | O => match deferred with
         | [] => match rx with m :: rx' => (Got m, rx', []) | [] => (MustWait, [], []) end
         | _ => pop_deferred rx deferred MustWait
         end
  | S fuel' =>
      match rx with
      | m :: rx' => if is_bridge m then scan fuel' closed rx' (deferred ++ [m])
                    else (Got m, rx', deferred)
      | [] => pop_deferred [] deferred (if closed then Disconnected else MustWait)
      end
  end.

Definition SCAN_LIMIT : nat := Z.to_nat 8192.
Definition next_queued_message (closed : bool) (rx deferred : list Msg)
  : Next * list Msg * list Msg := scan SCAN_LIMIT closed rx deferred.
