(* ===== verification/Session.v ===== *)
(** The session daemon's invariants ([Daemon.v] has the handlers): the invariant of
    its state and that every turn keeps it, the agreed geometry, the published
    client facts, and the child's exit recorded once. *)
From S2P Require Import Prelude Protocol Json Metadata Names Mutate Clients BTree Daemon.

(** ** The core of a state *)

(** A client without its connection: sending changes nothing else. *)
Definition strip (c : Client) : Client := set_conn new_conn c.

Definition is_exit_event (e : LogEvent) : bool :=
  match e with LSessionExit _ _ => true | _ => false end.
Definition exit_events (l : list LogEvent) : list LogEvent := List.filter is_exit_event l.

(** What the invariants speak of: the grid, the clients, the counters, the
    published facts and the exit. *)
Record Core : Type := mkCore {
  k_rows : Z;
  k_cols : Z;
  k_clients : BTree Client;
  k_counter : Z;
  k_published : ClientFacts;
  k_generation : Z;
  k_exited : bool;
  k_exit_code : Z;
  k_status : option ExitStatus;
  k_exits : list LogEvent
}.

#[export] Instance Core_settable : Settable Core := fun k =>
  mkCore (k_rows k) (k_cols k) (k_clients k) (k_counter k) (k_published k) (k_generation k)
    (k_exited k) (k_exit_code k) (k_status k) (k_exits k).

(** The size the writable clients agree on, when there is one to apply. *)
Definition target (cs : BTree Client) : option (Z * Z) :=
  let '(rows, cols) := negotiated cs in
  if (rows =? 0) || (cols =? 0) then None
  else if grid_allowed rows cols then Some (rows, cols) else None.

Definition facts_of (rows cols : Z) (cs : BTree Client) : ClientFacts :=
  mkFacts rows cols
    (omap (fun kv => let c := snd kv in
                     if constrains_size c then Some (fst kv, c_rows c, c_cols c) else None) cs).

Definition k_facts (k : Core) : ClientFacts := facts_of (k_rows k) (k_cols k) (k_clients k).

(** A client's own consistency, and that its pending cut is its latest. *)
Definition base_ok (counter : Z) (c : Client) : Prop :=
  0 <= c_rows c /\ 0 <= c_cols c /\ 0 <= attach_seq c <= counter /\
  match role c with
  | Command => attach_seq c = 0 /\ attached c = None
  | Writable => 0 < attach_seq c /\ attached c <> None
  | Readonly => True
  end.
Definition phase_ok (c : Client) : Prop :=
  match phase c with
  | Settling _ g _ => g = c_generation c /\ role c <> Command
  | Live => True
  end.

(** The exit is logged once, with the code and signal of the child's status. *)
Definition exit_ok (k : Core) : Prop :=
  if k_exited k
  then exists s, k_status k = Some s /\ k_exit_code k = exit_code_of s /\
                 k_exits k = [LSessionExit (exit_code_of s) (signal s)]
  else k_exits k = [].

Record inv (k : Core) : Prop := mkInv {
  i_sorted : sorted (bkeys (k_clients k));
  i_base : Forall (fun kv => base_ok (k_counter k) (snd kv)) (k_clients k);
  i_phase : Forall (fun kv => phase_ok (snd kv)) (k_clients k);
  i_counter : 0 <= k_counter k;
  i_pos : 0 < k_rows k /\ 0 < k_cols k;
  i_exit : exit_ok k
}.

(** The grid is the negotiated one and the facts are published: what holds unless the
    child's output changes the grid, and again after every change of the sizes. *)
Record settled (k : Core) : Prop := mkSettled {
  i_grid : forall r c, target (k_clients k) = Some (r, c) -> k_rows k = r /\ k_cols k = c;
  i_published : k_published k = k_facts k
}.
Definition sizes (k : Core) : list (Z * Z * Z) := f_writable (k_facts k).

(** What every step respects: the published facts and the generation counter move
    together, and an exit is final. *)
Definition advances (k k' : Core) : Prop :=
  (k_generation k <= k_generation k' /\
   (k_published k <> k_published k' -> k_generation k < k_generation k')) /\
  (k_status k <> None -> k_status k' = k_status k) /\
  (k_exited k = true -> k_exited k' = true).

Lemma advances_still k k' :
  k_generation k' = k_generation k -> k_published k' = k_published k ->
  k_status k' = k_status k -> (k_exited k = true -> k_exited k' = true) -> advances k k'.
Proof. intros Eg Ep Es He. split; [split; [lia|congruence]|done]. Qed.

(** ** Lemmas on clients *)

Lemma strip_send `{Alloc} b c : strip (client_send b c) = strip c.
Proof. reflexivity. Qed.
Lemma strip_strip c : strip (strip c) = strip c.
Proof. reflexivity. Qed.

Lemma bmap_bmap {A} (f g : A -> A) (m : BTree A) : bmap f (bmap g m) = bmap (fun x => f (g x)) m.
Proof. unfold bmap. rewrite <- list_fmap_compose. done. Qed.

Lemma bmap_ext {A} (f g : A -> A) (m : BTree A) : (forall x, f x = g x) -> bmap f m = bmap g m.
Proof. intros E. unfold bmap. apply list_fmap_ext. intros i x _. rewrite E. done. Qed.

Lemma bmap_bmodify (f : Client -> Client) k (m : BTree Client) :
  (forall c, strip (f c) = strip (f (strip c))) ->
  bmap strip (bmodify k f m) = bmodify k (fun c => strip (f c)) (bmap strip m).
Proof.
  intros E. unfold bmap, bmodify. rewrite <- !list_fmap_compose. apply list_fmap_ext.
  intros i [k0 c] _. cbn. destruct (k0 =? k); cbn; [|done]. rewrite E. done.
Qed.

Lemma bmodify_cons {A} k (f : A -> A) k0 x m :
  bmodify k f ((k0, x) :: m) = (if k0 =? k then (k0, f x) else (k0, x)) :: bmodify k f m.
Proof. reflexivity. Qed.

Lemma bmodify_id {A} k (f : A -> A) (m : BTree A) :
  (forall x, bget k m = Some x -> f x = x) -> sorted (bkeys m) -> bmodify k f m = m.
Proof.
  induction m as [|[k0 x0] m IH]; intros E Hs; [done|]. rewrite bmodify_cons.
  unfold bkeys in Hs. cbn [fmap list_fmap fst sorted] in Hs. destruct Hs as [Hlt Hs]. cbn [bget] in E.
  destruct (k0 =? k) eqn:Ek.
  - bprop. subst. rewrite Z.eqb_refl in E. rewrite E by done. f_equal. apply IH; [|exact Hs].
    intros x Hx. apply bget_In in Hx. exfalso. rewrite Forall_forall in Hlt.
    assert (k < k); [|lia]. apply Hlt, list_elem_of_fmap. exists (k, x). done.
  - f_equal. apply IH; [|exact Hs]. intros x Hx. apply E. rewrite Z.eqb_sym, Ek. done.
Qed.

Lemma Forall_bmodify {A} (P : A -> Prop) k f (m : BTree A) :
  Forall (fun kv => P (snd kv)) m -> (forall x, P x -> P (f x)) ->
  Forall (fun kv => P (snd kv)) (bmodify k f m).
Proof.
  intros Hf Hp. unfold bmodify. apply Forall_fmap. eapply Forall_impl; [exact Hf|].
  intros [k0 x] Hx. cbn in *. destruct (k0 =? k); cbn; auto.
Qed.

Lemma negotiated_strip m : negotiated (bmap strip m) = negotiated m.
Proof.
  unfold negotiated, bmap. generalize (0, 0). induction m as [|[k c] m IH]; intros rc; [done|].
  cbn [fmap list_fmap fold_left snd]. apply IH.
Qed.

Lemma target_strip m : target (bmap strip m) = target m.
Proof. unfold target. rewrite negotiated_strip. done. Qed.

Lemma facts_strip r c m : facts_of r c (bmap strip m) = facts_of r c m.
Proof.
  unfold facts_of. f_equal. induction m as [|[k x] m IH]; [done|].
  cbn -[constrains_size strip]. change (constrains_size (strip x)) with (constrains_size x).
  change (c_rows (strip x)) with (c_rows x). change (c_cols (strip x)) with (c_cols x).
  destruct (constrains_size x); [f_equal|]; exact IH.
Qed.

(** Clients that do not constrain the size are invisible to negotiation. *)
Definition constraining (m : BTree Client) : BTree Client :=
  List.filter (fun kv => constrains_size (snd kv)) m.

Lemma negotiated_constraining m : negotiated (constraining m) = negotiated m.
Proof.
  unfold negotiated, constraining. generalize (0, 0).
  induction m as [|[k c] m IH]; intros rc; [done|]. cbn [List.filter snd].
  destruct (constrains_size c) eqn:E; cbn [fold_left snd]; rewrite ?E; apply IH.
Qed.

Lemma facts_constraining r c m : facts_of r c (constraining m) = facts_of r c m.
Proof.
  unfold facts_of, constraining. f_equal. induction m as [|[k x] m IH]; [done|].
  cbn [List.filter snd]. destruct (constrains_size x) eqn:E; cbn -[constrains_size]; rewrite E.
  - f_equal. exact IH.
  - exact IH.
Qed.

Lemma same_constraining r c m m' :
  constraining m' = constraining m -> target m' = target m /\ facts_of r c m' = facts_of r c m.
Proof.
  intros E. split.
  - unfold target. rewrite <- (negotiated_constraining m'), E, negotiated_constraining. done.
  - rewrite <- (facts_constraining r c m'), E, facts_constraining. done.
Qed.

Lemma same_sizes k k' : constraining (k_clients k') = constraining (k_clients k) -> sizes k' = sizes k.
Proof.
  intros E. unfold sizes, k_facts. rewrite <- facts_constraining, E, facts_constraining. done.
Qed.

Lemma constraining_modify k f m :
  sorted (bkeys m) ->
  (forall c, bget k m = Some c -> constrains_size c = false /\ constrains_size (f c) = false) ->
  constraining (bmodify k f m) = constraining m.
Proof.
  unfold constraining. induction m as [|[k0 c0] m IH]; intros Hs Hf; [done|].
  unfold bkeys in Hs. cbn [fmap list_fmap fst sorted] in Hs. destruct Hs as [Hlt Hs].
  rewrite bmodify_cons. cbn [List.filter snd bget] in *.
  destruct (k0 =? k) eqn:E; cbn [snd].
  - bprop. subst. rewrite Z.eqb_refl in Hf. destruct (Hf c0 eq_refl) as [H1 H2].
    rewrite H1, H2, bmodify_id; [done| |exact Hs]. intros x Hx. apply bget_In in Hx. exfalso.
    rewrite Forall_forall in Hlt. assert (k < k); [|lia]. apply Hlt, list_elem_of_fmap.
    exists (k, x). done.
  - rewrite IH; [done|exact Hs|]. intros c Hc. apply Hf. rewrite Z.eqb_sym, E. done.
Qed.

Lemma constraining_remove k m :
  (forall c, bget k m = Some c -> constrains_size c = false) -> sorted (bkeys m) ->
  constraining (bremove k m) = constraining m.
Proof.
  unfold constraining, bremove. induction m as [|[k0 c0] m IH]; intros Hf Hs; [done|].
  unfold bkeys in Hs. cbn [fmap list_fmap fst sorted] in Hs. destruct Hs as [Hlt Hs].
  cbn [List.filter fst snd bget] in *. destruct (k0 =? k) eqn:E; cbn [negb List.filter snd].
  - bprop. subst. rewrite Z.eqb_refl in Hf. rewrite (Hf c0 eq_refl). apply IH; [|exact Hs].
    intros x Hx. apply bget_In in Hx. exfalso.
    rewrite Forall_forall in Hlt. assert (k < k); [|lia]. apply Hlt, list_elem_of_fmap.
    exists (k, x). done.
  - rewrite IH; [done| |exact Hs]. intros c Hc. apply Hf. rewrite Z.eqb_sym, E. done.
Qed.

Lemma constraining_insert k c m :
  constrains_size c = false -> bget k m = None -> constraining (binsert k c m) = constraining m.
Proof.
  unfold constraining. intros Hc. induction m as [|[k0 c0] m IH]; cbn [binsert List.filter snd bget].
  - rewrite Hc. done.
  - destruct (k =? k0) eqn:E; [done|]. intros Hn.
    destruct (k <? k0); cbn [List.filter snd]; [rewrite Hc; done|].
    rewrite IH by done. done.
Qed.

(** ** The core of a daemon, and what its operations do to it *)

#[local] Arguments bmap : simpl never.
#[local] Arguments bmodify : simpl never.

Section Core.
Context {T : Type} {TI : Terminal T} {TL : TerminalLaws T} {EI : Env} {AI : Alloc}.
Abbreviation D := (Daemon T).

Definition core (d : D) : Core :=
  mkCore (t_rows (term d)) (t_cols (term d)) (bmap strip (clients d)) (attach_counter d)
    (published_client_facts d) (client_generation d) (exited d) (exit_code d) (child_status d)
    (exit_events (log d)).

(** The negotiation and the facts, on cores. *)
Definition knegotiate (k : Core) : Core :=
  match target (k_clients k) with
  | Some (r, c) => k <| k_rows := r |> <| k_cols := c |>
  | None => k
  end.
Definition knote (force : bool) (k : Core) : Core :=
  if force || negb (bool_decide (k_facts k = k_published k))
  then k <| k_published := k_facts k |> <| k_generation ::= Z.succ |> else k.

Lemma core_facts d : client_facts d = k_facts (core d).
Proof. unfold client_facts, k_facts. cbn [k_rows k_cols k_clients core]. rewrite facts_strip. done. Qed.

Lemma bmap_strip_modify id f (cs : BTree Client) :
  (forall c, strip (f c) = strip c) -> bmap strip (bmodify id f cs) = bmap strip cs.
Proof.
  intros E. unfold bmap, bmodify. rewrite <- list_fmap_compose. apply list_fmap_ext.
  intros i [k0 c] _. cbn. destruct (k0 =? id); cbn; rewrite ?E; done.
Qed.

Lemma bmap_strip_map f (cs : BTree Client) :
  (forall c, strip (f c) = strip c) -> bmap strip (bmap f cs) = bmap strip cs.
Proof. intros E. rewrite bmap_bmap. apply bmap_ext, E. Qed.

Lemma core_modify id f (d : D) :
  (forall c, strip (f c) = strip c) -> core (d <| clients ::= bmodify id f |>) = core d.
Proof. intros E. unfold core. cbn. rewrite bmap_strip_modify by done. done. Qed.

Lemma core_map f (d : D) :
  (forall c, strip (f c) = strip c) -> core (d <| clients ::= bmap f |>) = core d.
Proof. intros E. unfold core. cbn. rewrite bmap_strip_map by done. done. Qed.

Lemma core_term t (d : D) :
  t_rows t = t_rows (term d) -> t_cols t = t_cols (term d) ->
  core (d <| term := t |>) = core d.
Proof. intros E1 E2. unfold core. cbn. rewrite E1, E2. done. Qed.

Lemma core_send_to id b d : core (send_to id b d) = core d.
Proof. apply core_modify. intros. apply strip_send. Qed.
Lemma core_broadcast b d : core (broadcast b d) = core d.
Proof. apply core_map. intros c. destruct (is_settling c); done. Qed.
Lemma core_broadcast_geometry r c d : core (broadcast_geometry r c d) = core d.
Proof. apply core_map. intros x. destruct (gets_geometry x); done. Qed.
Lemma core_release_hold h d : core (release_hold h d) = core d.
Proof. destruct h; done. Qed.
Lemma core_write_input b h d : core (write_input b h d) = core d.
Proof.
  unfold write_input. destruct b, (child_status d); try apply core_release_hold.
  destruct input_started; [done|]. rewrite core_release_hold. done.
Qed.
Lemma core_resize_pty r c d : core (resize_pty r c d) = core d.
Proof. unfold resize_pty. destruct (t_cell_size (term d)). done. Qed.
Lemma core_tick d : core (tick d) = core d.
Proof. done. Qed.
Lemma core_take_replies d : core (snd (take_replies d)) = core d.
Proof.
  unfold take_replies. pose proof (replies_grid (term d)) as [E1 E2].
  destruct (t_take_pty_replies (term d)) as [r t]. apply core_term; done.
Qed.
Lemma core_registry {A} (f : Weather -> World -> World * A) d : core (fst (registry_call f d)) = core d.
Proof. unfold registry_call. destruct (f _ _). done. Qed.
Lemma core_registry' {A} (f : Weather -> World -> World * A) d d' a :
  registry_call f d = (d', a) -> core d' = core d.
Proof. intros E. rewrite <- (core_registry f d), E. done. Qed.

Lemma core_write_generation d : core (write_client_generation d) = core d.
Proof.
  unfold write_client_generation.
  destruct (registry_call _ d) as [d' st] eqn:E. apply core_registry' in E. rewrite <- E.
  destruct st; done.
Qed.

Lemma core_note at_ d :
  core (note_client_change at_ d) = knote (match at_ with Some _ => true | None => false end) (core d).
Proof.
  unfold note_client_change, knote. rewrite core_facts. cbn [k_published core].
  destruct at_; cbn [orb].
  - rewrite core_write_generation. done.
  - destruct (decide _) as [E|E]; [rewrite bool_decide_true by done; done|].
    rewrite bool_decide_false by done. cbn [negb]. rewrite core_write_generation. done.
Qed.

Lemma core_adopt p d : core (fst (adopt_cell_size p d)) = core d.
Proof.
  unfold adopt_cell_size. destruct (decode_cell p) as [cell|]; [|done].
  destruct (t_cell_size (term d)). destruct (_ && _); [done|].
  destruct (cell_grid cell (term d)). apply core_term; done.
Qed.

Lemma core_events d :
  core (forward_terminal_events d) = core d.
Proof.
  unfold forward_terminal_events. pose proof (events_grid (term d)) as [E1 E2].
  destruct (t_take_events (term d)) as [ev t]. cbn [fst snd] in *.
  unfold core. cbn. rewrite E1, E2. f_equal. unfold exit_events. rewrite List.filter_app.
  assert (List.filter is_exit_event (omap log_event ev) = []) as ->; [|apply app_nil_r].
  induction ev as [|[] ev IH]; cbn; done.
Qed.

Lemma negotiated_nonneg cs :
  Forall (fun kv => 0 <= c_rows (snd kv) /\ 0 <= c_cols (snd kv)) cs ->
  0 <= fst (negotiated cs) /\ 0 <= snd (negotiated cs).
Proof.
  unfold negotiated. assert (G : forall rc, 0 <= fst rc /\ 0 <= snd rc ->
    Forall (fun kv : Z * Client => 0 <= c_rows (snd kv) /\ 0 <= c_cols (snd kv)) cs ->
    let r := fold_left (fun rc kv => if constrains_size (snd kv)
                          then (min_or_set (fst rc) (c_rows (snd kv)), min_or_set (snd rc) (c_cols (snd kv)))
                          else rc) cs rc in 0 <= fst r /\ 0 <= snd r).
  { induction cs as [|[k c] cs IH]; intros rc Hrc Hf; [done|]. apply Forall_cons in Hf as [Hc Hf].
    cbn [fold_left snd] in *. apply IH; [|done]. destruct (constrains_size c); [|done].
    cbn [fst snd]. unfold min_or_set. destruct (fst rc =? 0), (snd rc =? 0); lia. }
  intros Hf. apply (G (0, 0)); [cbn; lia|done].
Qed.

Lemma core_negotiate d :
  Forall (fun kv => base_ok (attach_counter d) (snd kv)) (clients d) ->
  core (fst (negotiate_size d)) = knegotiate (core d).
Proof.
  intros Hb. unfold negotiate_size, knegotiate. cbn [k_clients core]. rewrite target_strip.
  unfold target.
  assert (Hn : 0 <= fst (negotiated (clients d)) /\ 0 <= snd (negotiated (clients d))).
  { apply negotiated_nonneg. eapply Forall_impl; [exact Hb|]. intros kv (? & ? & _). done. }
  destruct (negotiated (clients d)) as [rows cols]. cbn [fst snd] in Hn.
  destruct (_ || _) eqn:E0; [done|]. destruct (grid_allowed rows cols) eqn:Eg; cbn [negb]; [|done].
  destruct (_ && _) eqn:E1; [bprop; subst; done|].
  destruct (take_replies _) as [replies d'] eqn:Et.
  match type of Et with take_replies ?x = _ => pose proof (core_take_replies x) as Ec end.
  rewrite Et in Ec.
  cbn [fst]. match goal with |- core (tick (?x <| last_resize := _ |>)) = _ =>
    change (core (tick (x <| last_resize := Some (now x) |>))) with (core x) end.
  unfold write_pty. rewrite core_write_input. cbn [snd] in Ec. rewrite Ec, core_resize_pty, core_broadcast_geometry.
  bprop. unfold core. cbn. rewrite resize_rows, resize_cols by lia. done.
Qed.

Lemma core_nudge d : 0 < t_rows (term d) -> core (nudge_redraw d) = core d.
Proof.
  intros Hr. unfold nudge_redraw. destruct (_ <? 2) eqn:E; [done|]. bprop.
  apply Z.ltb_ge in E. unfold core, resize_pty. destruct (t_cell_size (term d)). cbn.
  destruct (t_cell_size _). cbn. rewrite resize_rows, resize_cols by lia. done.
Qed.

Lemma core_settle cause force d : core (fst (settle_startup_lifecycle cause force d)) = core d.
Proof.
  unfold settle_startup_lifecycle. destruct (startup_lease d); [|done].
  destruct (startup_lease_terminal_value d); [done|]. destruct (_ && _); [done|].
  destruct (registry_call _ d) as [d' st] eqn:E. apply core_registry' in E. rewrite <- E.
  destruct st; done.
Qed.

Lemma core_save d : core (fst (save_exit_metadata d)) = core d.
Proof.
  unfold save_exit_metadata. destruct (registry_call _ d) as [d' st] eqn:E.
  apply core_registry' in E. rewrite <- E. done.
Qed.

Lemma core_deadline d : core (fst (settle_startup_deadline d)) = core d.
Proof.
  unfold settle_startup_deadline. cbv zeta.
  match goal with |- context [settle_startup_lifecycle ?c ?b ?x] =>
    pose proof (core_settle c b x) as E; assert (Ex : core x = core d)
      by (destruct (teardown_tree d); done) end.
  rewrite Ex in E. destruct (settle_startup_lifecycle _ _ _) as [d' [v|]]; cbn [fst] in *; [done|].
  rewrite <- E. unfold resume_frozen_tree. destruct (startup_lease_disarmed d'); [|done].
  destruct (teardown_frozen d'); done.
Qed.

Lemma core_cas r d : core (fst (compare_and_set_lifecycle r d)) = core d.
Proof.
  unfold compare_and_set_lifecycle. destruct (negb _); [done|].
  destruct (read_metadata _ _); [|done]. destruct (negb _); [done|]. destruct (exited d).
  - pose proof (core_settle CauseExit true d) as E.
    destruct (settle_startup_lifecycle _ _ _) as [d' v]. done.
  - destruct (lease_expired d).
    + pose proof (core_deadline (tick d)) as E.
      destruct (settle_startup_deadline _) as [d' [v|]]; done.
    + destruct (registry_call _ (tick d)) as [d' st] eqn:E. apply core_registry' in E.
      assert (En : core (note_lifecycle_cas r d') = core d').
      { unfold note_lifecycle_cas. destruct (startup_lease d'); [|done].
        destruct (_ && _), (_ && _); done. }
      destruct st; cbn [fst]; rewrite ?En; exact E.
Qed.


(** ** Preservation *)

Lemma advances_refl k : advances k k.
Proof. apply advances_still; done. Qed.
Lemma advances_trans a b c : advances a b -> advances b c -> advances a c.
Proof.
  intros [[H1 H2] [Hs1 He1]] [[H3 H4] [Hs2 He2]]. split; [split; [lia|]|split; [|auto]].
  - intros Hne. destruct (decide (k_published a = k_published b)) as [E|E];
      [rewrite E in Hne; specialize (H4 Hne)|specialize (H2 E)]; lia.
  - intros Hs. rewrite <- (Hs1 Hs). apply Hs2. rewrite (Hs1 Hs). done.
Qed.

(** A step keeps the invariant; a calm one keeps the state settled; one that changes the
    sizes settles it, whatever it was. *)
Definition keeps_if (calm : Prop) (d d' : D) : Prop :=
  inv (core d) ->
  inv (core d') /\ advances (core d) (core d') /\ (calm -> settled (core d) -> settled (core d'))
  /\ (sizes (core d) <> sizes (core d') -> settled (core d')).
Definition keeps (d d' : D) : Prop := keeps_if True d d'.

Lemma keeps_core d d' : core d' = core d -> keeps d d'.
Proof. intros E Hi. rewrite E. split; [done|]. split; [apply advances_refl|done]. Qed.
Lemma keeps_if_trans calm a b c : keeps_if calm a b -> keeps b c -> keeps_if calm a c.
Proof.
  intros Hab Hbc Hi. destruct (Hab Hi) as (Hb & Ha & Hs & Hn). destruct (Hbc Hb) as (Hc & Hd & Ht & Hm).
  split; [done|]. split; [eapply advances_trans; done|]. split; [auto|]. intros E.
  destruct (decide (sizes (core b) = sizes (core c))) as [Ebc|Ebc]; [|auto].
  apply Ht; [done|]. apply Hn. congruence.
Qed.
Lemma keeps_trans a b c : keeps a b -> keeps b c -> keeps a c.
Proof. apply keeps_if_trans. Qed.
Lemma keeps_any calm a b : keeps a b -> keeps_if calm a b.
Proof. intros K Hi. destruct (K Hi) as (H1 & H2 & H3 & H4). auto. Qed.
(** A step that leaves the state settled. *)
Lemma keeps_settled d d' :
  (inv (core d) -> inv (core d') /\ advances (core d) (core d') /\ settled (core d')) -> keeps d d'.
Proof. intros H Hi. destruct (H Hi) as (H1 & H2 & H3). auto. Qed.

(** What survives any change of clients that keeps the shape. *)
Record shape (k : Core) : Prop := mkShape {
  s_sorted : sorted (bkeys (k_clients k));
  s_base : Forall (fun kv => base_ok (k_counter k) (snd kv)) (k_clients k);
  s_counter : 0 <= k_counter k;
  s_pos : 0 < k_rows k /\ 0 < k_cols k;
  s_exit : exit_ok k
}.

Lemma inv_shape k : inv k -> shape k.
Proof. intros []. constructor; done. Qed.

Lemma target_pos k r c : shape k -> target (k_clients k) = Some (r, c) -> 0 < r /\ 0 < c.
Proof.
  intros Hs. unfold target.
  assert (Hn : 0 <= fst (negotiated (k_clients k)) /\ 0 <= snd (negotiated (k_clients k))).
  { apply negotiated_nonneg. eapply Forall_impl; [apply (s_base _ Hs)|].
    intros kv (? & ? & _). done. }
  destruct (negotiated (k_clients k)) as [rows cols]. cbn [fst snd] in Hn.
  destruct (_ || _) eqn:E0; [done|]. destruct (grid_allowed _ _); [|done]. intros [= <- <-]. bprop. lia.
Qed.

Lemma shape_negotiate k :
  shape k -> shape (knegotiate k) /\ k_clients (knegotiate k) = k_clients k /\
  (forall r c, target (k_clients k) = Some (r, c) ->
     k_rows (knegotiate k) = r /\ k_cols (knegotiate k) = c).
Proof.
  intros Hs. pose proof (target_pos k) as Hp. unfold knegotiate.
  destruct (target (k_clients k)) as [[r c]|] eqn:E; [|done].
  specialize (Hp r c Hs eq_refl). destruct Hs. split_and!; [constructor; done|done|].
  intros ? ? [= <- <-]. done.
Qed.

Lemma shape_note b k :
  shape k ->
  shape (knote b k) /\ k_clients (knote b k) = k_clients k /\ advances k (knote b k) /\
  k_rows (knote b k) = k_rows k /\ k_cols (knote b k) = k_cols k /\
  k_published (knote b k) = k_facts (knote b k).
Proof.
  intros Hs. unfold knote. destruct (b || negb (bool_decide (k_facts k = k_published k))) eqn:E.
  - destruct Hs. split; [constructor; done|]. split; [done|].
    split; [split; [split; cbn; lia|done]|]. done.
  - split; [done|]. split; [done|]. split; [apply advances_refl|]. split_and!; try done. apply orb_false_elim in E as [_ E].
    apply negb_false_iff, bool_decide_eq_true in E. done.
Qed.

Lemma inv_of k : shape k -> Forall (fun kv => phase_ok (snd kv)) (k_clients k) -> inv k.
Proof. intros []. constructor; done. Qed.

(** A change that neither negotiation nor the facts can see. *)
Lemma same_view id f m :
  (forall c, constrains_size (f c) = constrains_size c /\ c_rows (f c) = c_rows c /\
             c_cols (f c) = c_cols c) ->
  target (bmodify id f m) = target m /\
  forall r c, facts_of r c (bmodify id f m) = facts_of r c m.
Proof.
  intros E. split.
  - unfold target. f_equal. assert (negotiated (bmodify id f m) = negotiated m) as ->; [|done].
    unfold negotiated. generalize (0, 0). induction m as [|[k0 x] m IH]; intros rc; [done|].
    rewrite bmodify_cons. cbn [fold_left]. rewrite IH. destruct (k0 =? id); [|done].
    cbn [snd]. destruct (E x) as (-> & -> & ->). done.
  - intros r c. unfold facts_of. f_equal. induction m as [|[k0 x] m IH]; [done|].
    rewrite bmodify_cons. destruct (k0 =? id); cbn [omap list_omap snd fst].
    + destruct (E x) as (-> & -> & ->). destruct (constrains_size x); [f_equal|]; exact IH.
    + destruct (constrains_size x); [f_equal|]; exact IH.
Qed.

Lemma shape_modify id f k :
  shape k -> (forall c, bget id (k_clients k) = Some c -> base_ok (k_counter k) c ->
              base_ok (k_counter k) (f c)) ->
  shape (k <| k_clients ::= bmodify id f |>).
Proof.
  intros [Hs Hb Hc Hp He] Hf. constructor; try done; cbn.
  - change (sorted (bkeys (bmodify id f (k_clients k)))). rewrite bkeys_modify. done.
  - unfold bmodify. apply Forall_fmap, Forall_forall. intros [k0 x] Hin. cbn.
    rewrite Forall_forall in Hb. specialize (Hb _ Hin). cbn in Hb.
    destruct (k0 =? id) eqn:E; cbn; [|done]. bprop. subst. apply Hf; [|done].
    apply In_bget; done.
Qed.

Lemma phase_modify id f (m : BTree Client) :
  sorted (bkeys m) ->
  Forall (fun kv => phase_ok (snd kv)) m ->
  (forall c, bget id m = Some c -> phase_ok (f c)) ->
  Forall (fun kv => phase_ok (snd kv)) (bmodify id f m).
Proof.
  intros Hs Hb Hf. unfold bmodify. apply Forall_fmap, Forall_forall. intros [k0 x] Hin. cbn.
  rewrite Forall_forall in Hb. specialize (Hb _ Hin). cbn in Hb.
  destruct (k0 =? id) eqn:E; cbn; [|done]. bprop. subst. apply Hf, In_bget; done.
Qed.

Lemma bmodify_bmodify {A} k (f g : A -> A) m :
  bmodify k f (bmodify k g m) = bmodify k (fun x => f (g x)) m.
Proof.
  induction m as [|[k0 x] m IH]; [done|]. rewrite !bmodify_cons.
  destruct (k0 =? k) eqn:E; rewrite bmodify_cons, E, IH; done.
Qed.

Lemma set_phase_view p c :
  constrains_size (set_phase p c) = constrains_size c /\ c_rows (set_phase p c) = c_rows c /\
  c_cols (set_phase p c) = c_cols c.
Proof. done. Qed.

Lemma settled_phase id p k : settled k -> settled (k <| k_clients ::= bmodify id (set_phase p) |>).
Proof.
  intros [Hg Hp]. destruct (same_view id (set_phase p) (k_clients k)) as [Et Ef]; [apply set_phase_view|].
  constructor; [cbn; rewrite Et; exact Hg|]. unfold k_facts. cbn. rewrite Ef. exact Hp.
Qed.
Lemma sizes_phase id p k : sizes (k <| k_clients ::= bmodify id (set_phase p) |>) = sizes k.
Proof.
  destruct (same_view id (set_phase p) (k_clients k)) as [_ Ef]; [apply set_phase_view|].
  exact (f_equal f_writable (Ef (k_rows k) (k_cols k))).
Qed.
Lemma inv_set_live id k : inv k -> inv (k <| k_clients ::= bmodify id (set_phase Live) |>).
Proof.
  intros Hi. pose proof (inv_shape _ Hi) as Hs. apply inv_of.
  - apply shape_modify; [done|]. intros c _ Hb. exact Hb.
  - cbn. apply phase_modify; [apply Hs|apply Hi|done].
Qed.

Lemma core_modify_as id f g (d : D) :
  (forall c, strip (f c) = g (strip c)) ->
  core (d <| clients ::= bmodify id f |>) = (core d) <| k_clients ::= bmodify id g |>.
Proof.
  intros E. transitivity (mkCore (t_rows (term d)) (t_cols (term d))
    (bmap strip (bmodify id f (clients d))) (attach_counter d) (published_client_facts d)
    (client_generation d) (exited d) (exit_code d) (child_status d) (exit_events (log d))); [done|].
  replace (bmap strip (bmodify id f (clients d))) with (bmodify id g (bmap strip (clients d))); [done|].
  unfold bmodify, bmap. rewrite <- !list_fmap_compose. apply list_fmap_ext.
  intros i [k0 c] _. cbn. destruct (k0 =? id); [|done]. cbn. rewrite E. done.
Qed.

Lemma core_phase id p (d : D) :
  core (d <| clients ::= bmodify id (set_phase p) |>)
  = (core d) <| k_clients ::= bmodify id (set_phase p) |>.
Proof. apply core_modify_as. done. Qed.

Lemma core_cut id d c dl g kind :
  0 < t_rows (term d) -> bget id (clients d) = Some c -> phase c = Settling dl g kind ->
  g = c_generation c ->
  core (cut id d) = (core d) <| k_clients ::= bmodify id (set_phase Live) |>.
Proof.
  intros Hr Hb Hp ->. unfold cut. rewrite Hb, Hp, Z.eqb_refl. cbn [negb].
  match goal with |- context [bmodify id (cut_client ?s ?e)] =>
    set (d1 := d <| clients ::= bmodify id (cut_client s e) |>) end.
  assert (E1 : core d1 = (core d) <| k_clients ::= bmodify id (set_phase Live) |>).
  { subst d1. apply core_modify_as. intros x. destruct (exited d); done. }
  assert (Ht : term d1 = term d) by done. clearbody d1.
  destruct kind as [[]|]; [done| |done]. destruct (exited d1); [done|].
  destruct (last_resize d1); [|done]. cbv zeta. destruct (_ <? _); [|exact E1].
  rewrite core_nudge; [exact E1|]. cbn. rewrite Ht. done.
Qed.

Lemma keeps_cut id d : keeps d (cut id d).
Proof.
  intros Hi. destruct (bget id (clients d)) as [c|] eqn:Hb.
  - destruct (phase c) as [|dl g kind] eqn:Hp.
    + unfold cut. rewrite Hb, Hp. apply keeps_core; done.
    + destruct (decide (g = c_generation c)) as [E|E].
      * rewrite (core_cut id d c dl g kind) by (try done; apply Hi).
        split; [apply inv_set_live, Hi|]. split; [apply advances_still; done|].
        split; [intros _; apply settled_phase|]. rewrite sizes_phase. done.
      * unfold cut. rewrite Hb, Hp, (proj2 (Z.eqb_neq _ _) E). apply keeps_core; done.
  - unfold cut. rewrite Hb. apply keeps_core; done.
Qed.

Lemma keeps_service_cuts t d : keeps d (service_cuts t d).
Proof.
  unfold service_cuts. generalize (fst <$> List.filter (is_due t) (clients d)). intros l.
  revert d. induction l as [|id l IH]; intros d; [apply keeps_core; done|].
  cbn [fold_left]. eapply keeps_trans; [apply keeps_cut|apply IH].
Qed.

Lemma bget_strip id (cs : BTree Client) : bget id (bmap strip cs) = strip <$> bget id cs.
Proof. apply bget_map. Qed.

Lemma kmod_kmod id f g k :
  (k <| k_clients ::= bmodify id g |>) <| k_clients ::= bmodify id f |>
  = k <| k_clients ::= bmodify id (fun c => f (g c)) |>.
Proof.
  assert (E : bmodify id f (bmodify id g (k_clients k)) = bmodify id (fun c => f (g c)) (k_clients k))
    by apply bmodify_bmodify.
  destruct k. exact (f_equal (fun cs => mkCore _ _ cs _ _ _ _ _ _ _) E).
Qed.

Lemma kmod_absent id f k :
  bget id (k_clients k) = None -> k <| k_clients ::= bmodify id f |> = k.
Proof.
  intros Hn. assert (E : bmodify id f (k_clients k) = k_clients k).
  { revert Hn. generalize (k_clients k). intros m. induction m as [|[k0 x] m IH]; [done|].
    cbn [bget]. rewrite bmodify_cons, (Z.eqb_sym k0 id). destruct (id =? k0); [done|].
    intros Hn. rewrite IH; done. }
  destruct k. exact (f_equal (fun cs => mkCore _ _ cs _ _ _ _ _ _ _) E).
Qed.

Lemma core_schedule id g kind delay d :
  0 < t_rows (term d) -> (forall c, bget id (clients d) = Some c -> c_generation c = g) ->
  exists p, core (schedule_cut id g kind delay d)
            = (core d) <| k_clients ::= bmodify id (set_phase p) |> /\
            (p = Live \/ exists dl, p = Settling dl g kind).
Proof.
  intros Hr Hg. unfold schedule_cut. set (dl := now d + _). cbv zeta.
  set (d1 := (tick d) <| clients ::= bmodify id (set_phase (Settling dl g kind)) |>).
  assert (E1 : core d1 = (core d) <| k_clients ::= bmodify id (set_phase (Settling dl g kind)) |>)
    by (unfold d1; rewrite core_phase; done).
  destruct delay as [x|]; [exists (Settling dl g kind); split; [done|eauto]|].
  exists Live. split; [|auto].
  assert (Hb1 : bget id (clients d1) = set_phase (Settling dl g kind) <$> bget id (clients d)).
  { unfold d1. cbn. rewrite bget_modify, Z.eqb_refl. done. }
  destruct (bget id (clients d)) as [c|] eqn:Eb.
  - rewrite (core_cut id d1 (set_phase (Settling dl g kind) c) dl g kind);
      [|done|done|done|exact (eq_sym (Hg c eq_refl))].
    rewrite E1, kmod_kmod. reflexivity.
  - unfold cut. rewrite Hb1. cbn [fmap option_fmap option_map]. rewrite E1.
    rewrite !kmod_absent by (cbn; rewrite bget_strip, Eb; done). done.
Qed.

(** *** Changes of clients *)

Lemma decode_size_nonneg p :
  Forall is_u8 p -> 0 <= fst (decode_size p) /\ 0 <= snd (decode_size p).
Proof.
  unfold decode_size. intros Hf. destruct p as [|a [|b [|c [|e p]]]]; cbn [fst snd]; try lia.
  rewrite !Forall_cons in Hf. destruct Hf as (Ha & Hb & Hc & Hd & _).
  unfold is_u8, of_be16 in *. cbn [fst snd]. lia.
Qed.

Lemma base_mono n n' c : n <= n' -> base_ok n c -> base_ok n' c.
Proof. intros Hn (? & ? & ? & ?). unfold base_ok. split_and!; done || lia. Qed.

Lemma shape_update n id f k :
  shape k -> k_counter k <= n ->
  (forall c, bget id (k_clients k) = Some c -> base_ok (k_counter k) c -> base_ok n (f c)) ->
  shape ((k <| k_counter := n |>) <| k_clients ::= bmodify id f |>).
Proof.
  intros Hs Hn Hf. assert (Hs' : shape (k <| k_counter := n |>)).
  { destruct Hs. constructor; try done; cbn; [|lia]. eapply Forall_impl; [done|].
    intros kv. apply base_mono. done. }
  destruct Hs as [Hs Hb Hc Hp He]. constructor; try apply Hs'.
  - change (sorted (bkeys (bmodify id f (k_clients k)))). rewrite bkeys_modify. done.
  - cbn. unfold bmodify. apply Forall_fmap, Forall_forall. intros [k0 x] Hin. cbn.
    rewrite Forall_forall in Hb. specialize (Hb _ Hin). cbn in Hb.
    destruct (k0 =? id) eqn:E; cbn; [|eapply base_mono; done]. bprop. subst. apply Hf; [|done].
    apply In_bget; done.
Qed.

(** Negotiating and noting after a change of clients. *)
Lemma commit k k1 b :
  inv k -> shape k1 -> k_published k1 = k_published k -> k_generation k1 = k_generation k ->
  k_status k1 = k_status k -> k_exited k1 = k_exited k ->
  let k3 := knote b (knegotiate k1) in
  shape k3 /\ k_clients k3 = k_clients k1 /\
  settled k3 /\ advances k k3.
Proof.
  intros Hi Hs Ep Eg Est Eex. cbv zeta. destruct (shape_negotiate _ Hs) as (Hs2 & Ec2 & Hg2).
  destruct (shape_note b _ Hs2) as (Hs3 & Ec3 & Ha & Er & El & Hf).
  split; [done|]. split; [congruence|]. split; [constructor; [|done]|].
  - intros r c. rewrite Ec3, Ec2, Er, El. apply Hg2.
  - eapply advances_trans; [|exact Ha].
    apply (advances_trans _ k1); [apply advances_still; [done..|congruence]|].
    unfold knegotiate. destruct (target (k_clients k1)) as [[r c]|]; apply advances_still; done.
Qed.

(** A change of a client that counts in no size: no note is made, and none is missing when
    the state was settled. *)
Lemma commit_uncounted k k1 :
  inv k -> shape k1 -> constraining (k_clients k1) = constraining (k_clients k) ->
  k_rows k1 = k_rows k -> k_cols k1 = k_cols k -> k_published k1 = k_published k ->
  k_generation k1 = k_generation k -> k_status k1 = k_status k -> k_exited k1 = k_exited k ->
  let k3 := knegotiate k1 in
  shape k3 /\ k_clients k3 = k_clients k1 /\ advances k k3 /\ sizes k3 = sizes k /\
  (settled k -> settled k3).
Proof.
  intros Hi Hs Ec Er El Ep Eg Est Eex. cbv zeta. destruct (shape_negotiate _ Hs) as (Hs2 & Ec2 & Hg2).
  split; [done|]. split; [done|]. split; [|split].
  - unfold knegotiate. destruct (target (k_clients k1)) as [[r c]|]; apply advances_still; cbn; congruence.
  - apply same_sizes. rewrite Ec2. exact Ec.
  - intros [Hg Hp]. destruct (same_constraining (k_rows k) (k_cols k) _ _ Ec) as [Et Ef].
    assert (En : knegotiate k1 = k1).
    { unfold knegotiate. rewrite Et. destruct (target (k_clients k)) as [[r c]|] eqn:E; [|done].
      destruct (Hg _ _ eq_refl) as [<- <-]. rewrite <- Er, <- El. destruct k1. done. }
    rewrite En. constructor; [intros r c; rewrite Et, Er, El; apply Hg|].
    unfold k_facts. rewrite Er, El, Ef, Ep. exact Hp.
Qed.

(** One client changed, its size counted, and then its phase set. *)
Definition changed (n id : Z) (f : Client -> Client) (k : Core) : Core :=
  (k <| k_counter := n |>) <| k_clients ::= bmodify id f |>.
Lemma update_client n id f p k k3 :
  inv k -> shape k3 -> k_clients k3 = k_clients (changed n id f k) ->
  (forall c, bget id (k_clients k) = Some c -> phase_ok (set_phase p (f c))) ->
  inv (k3 <| k_clients ::= bmodify id (set_phase p) |>).
Proof.
  intros Hi Hs3 Ec Hf. pose proof (inv_shape _ Hi) as Hs. apply inv_of.
  - apply shape_modify; [done|]. intros c _ Hb. exact Hb.
  - cbn. rewrite Ec. cbn. rewrite bmodify_bmodify.
    apply phase_modify; [apply Hs|apply Hi|]. intros c Hc. apply (Hf c Hc).
Qed.

Lemma clients_base d :
  inv (core d) -> Forall (fun kv => base_ok (attach_counter d) (snd kv)) (clients d).
Proof.
  intros Hi. pose proof (i_base _ Hi) as Hb. cbn in Hb. unfold bmap in Hb.
  rewrite Forall_fmap in Hb. exact Hb.
Qed.

Lemma shape_base d :
  shape (core d) -> Forall (fun kv => base_ok (attach_counter d) (snd kv)) (clients d).
Proof.
  intros Hi. pose proof (s_base _ Hi) as Hb. cbn in Hb. unfold bmap in Hb.
  rewrite Forall_fmap in Hb. exact Hb.
Qed.

Lemma core_negotiate' d d' b k :
  core d = k -> shape k -> negotiate_size d = (d', b) -> core d' = knegotiate k.
Proof.
  intros <- Hs E. rewrite <- (core_negotiate d), E; [done|]. apply shape_base, Hs.
Qed.

Lemma core_counter n (d : D) : core (d <| attach_counter := n |>) = (core d) <| k_counter := n |>.
Proof. done. Qed.
Lemma core_adopt' p d d' b : adopt_cell_size p d = (d', b) -> core d' = core d.
Proof. intros E. rewrite <- (core_adopt p d), E. done. Qed.

Lemma generation_core id d c :
  bget id (k_clients (core d)) = Some c -> generation_of id d = c_generation c.
Proof.
  unfold generation_of. cbn. rewrite bget_strip. destruct (bget id (clients d)); [|done].
  intros [= <-]. done.
Qed.

Lemma gen_core id g d :
  (forall c, bget id (k_clients (core d)) = Some c -> c_generation c = g) ->
  forall c, bget id (clients d) = Some c -> c_generation c = g.
Proof. intros Hg c Hc. apply (Hg (strip c)). cbn. rewrite bget_strip, Hc. done. Qed.

Lemma pos_core d : shape (core d) -> 0 < t_rows (term d).
Proof. intros Hs. apply (s_pos _ Hs). Qed.

(** *** Packet handlers *)

Lemma keeps_attach id p d : Forall is_u8 p -> keeps d (on_attach id p d).
Proof.
  intros Hp. unfold on_attach. destruct (_ <? 4); [apply keeps_core; done|].
  destruct (bmem id (clients d)) eqn:Em; cbn [negb]; [|apply keeps_core; done].
  apply keeps_settled. intros Hi.
  destruct (decode_size_nonneg p Hp) as [Hr Hc]. destruct (decode_size p) as [rows cols].
  destruct (adopt_cell_size p d) as [d1 changed] eqn:E1. apply core_adopt' in E1.
  destruct (decode_attach_identity identity_of_json p) as [pid tty]. cbv zeta.
  set (matched := (_ =? _) && _). set (d2 := d1 <| attach_counter ::= Z.succ |>).
  set (at_ := mkAttached pid tty _).
  set (f := attach_client rows cols (attach_counter (tick d2)) at_).
  set (d3 := (tick d2) <| clients ::= bmodify id f |>).
  set (k1 := ((core d) <| k_counter := Z.succ (k_counter (core d)) |>) <| k_clients ::= bmodify id f |>).
  assert (E3 : core d3 = k1).
  { unfold d3, k1. rewrite (core_modify_as id f f) by done. rewrite core_tick.
    unfold d2. rewrite <- E1. done. }
  clearbody d3.
  assert (Hn : attach_counter (tick d2) = Z.succ (k_counter (core d)))
    by (rewrite <- E1; done).
  pose proof (inv_shape _ Hi) as Hs.
  assert (Hf : forall c, base_ok (k_counter (core d)) c -> base_ok (Z.succ (k_counter (core d))) (f c)).
  { intros c (_ & _ & Hb & _). unfold base_ok, f. rewrite Hn. cbn -[core].
    split_and!; done || lia. }
  assert (Hs1 : shape k1).
  { apply shape_update; [done|lia|]. intros c _. apply Hf. }
  set (g := generation_of id d3).
  destruct (negotiate_size d3) as [d4 resized] eqn:E4.
  apply (core_negotiate' _ _ _ k1 E3 Hs1) in E4.
  set (d5 := if changed && negb resized then _ else d4).
  set (d6 := if resized then d5 else send_to id _ d5).
  set (d7 := note_client_change _ _).
  assert (E7 : core d7 = knote true (knegotiate k1)).
  { unfold d7. rewrite core_note, core_tick. f_equal. rewrite <- E4. unfold d6, d5.
    destruct resized; [rewrite andb_false_r; done|]. rewrite core_send_to.
    destruct (changed && _); [apply core_resize_pty|done]. }
  destruct (commit (core d) k1 true Hi Hs1 eq_refl eq_refl eq_refl eq_refl) as (Hs7 & Ec7 & Hst7 & Ha7).
  rewrite <- E7 in Hs7, Ec7, Hst7, Ha7.
  assert (Hg : forall c, bget id (clients (tick d7)) = Some c -> c_generation c = g).
  { apply gen_core. rewrite core_tick, Ec7. intros c Hc0. rewrite <- E3 in Hc0.
    symmetry. apply generation_core, Hc0. }
  destruct (core_schedule id g (CutAttach matched) (settle_delay resized (now d7) d7) (tick d7))
    as (ph & E8 & Hph); [apply pos_core; rewrite core_tick; done|exact Hg|].
  rewrite E8, core_tick. split; [|split; [exact Ha7|apply settled_phase, Hst7]].
  apply (update_client (Z.succ (k_counter (core d))) id f ph (core d) _ Hi Hs7 Ec7).
  intros c Hc0. destruct Hph as [->|[dl ->]]; [done|]. cbn. split; [|done].
  assert (Hb : bget id (k_clients k1) = Some (f c)) by (cbn; rewrite bget_modify, Z.eqb_refl; cbn in Hc0; rewrite Hc0; done).
  rewrite <- E3 in Hb. exact (generation_core id d3 _ Hb).
Qed.

Lemma keeps_peek id p d : keeps d (on_peek id p d).
Proof.
  intros Hi. unfold on_peek. destruct (bget id (clients d)) as [c0|] eqn:Eb0; [|apply keeps_core; done].
  cbv zeta. set (d3 := d <| clients ::= bmodify id peek_client |>).
  set (k1 := ((core d) <| k_counter := k_counter (core d) |>) <| k_clients ::= bmodify id peek_client |>).
  assert (E3 : core d3 = k1) by (apply core_modify_as; done). clearbody d3.
  pose proof (inv_shape _ Hi) as Hs.
  assert (Hf : forall c, base_ok (k_counter (core d)) c -> base_ok (k_counter (core d)) (peek_client c)).
  { intros c (H1 & H2 & H3 & _). split; [exact H1|]. split; [exact H2|]. split; [exact H3|done]. }
  assert (Hs1 : shape k1) by (apply shape_update; [done|apply Z.le_refl|auto]).
  set (g := generation_of id d3).
  destruct (negotiate_size d3) as [d4 resized] eqn:E4.
  apply (core_negotiate' _ _ _ k1 E3 Hs1) in E4.
  set (d6 := if resized then d4 else send_to id _ d4).
  assert (E6 : core d6 = core d4) by (unfold d6; destruct resized; [done|apply core_send_to]).
  set (d7 := if constrains_size c0 then _ else d6).
  assert (K : shape (core d7) /\ k_clients (core d7) = k_clients k1 /\ advances (core d) (core d7)
              /\ (settled (core d) -> settled (core d7)) /\ (sizes (core d7) = sizes (core d) \/ settled (core d7))).
  { unfold d7. destruct (constrains_size c0) eqn:Ec.
    - rewrite core_note, E6, E4.
      destruct (commit (core d) k1 false Hi Hs1 eq_refl eq_refl eq_refl eq_refl) as (H1 & H2 & H3 & H4). auto 10.
    - rewrite E6, E4. destruct (commit_uncounted (core d) k1 Hi Hs1) as (H1 & H2 & H3 & H4 & H5); try done; [|auto 10].
      apply constraining_modify; [apply Hs|]. intros c Hc. cbn in Hc. rewrite bget_strip, Eb0 in Hc.
      injection Hc as <-. split; [exact Ec|done]. }
  destruct K as (Hs7 & Ec7 & Ha7 & Hst7 & Hsz7). destruct (decode_peek p) as [plain full].
  destruct (core_schedule id g (CutPeek plain full) None d7) as (ph & E8 & Hph).
  { apply pos_core. done. }
  { apply gen_core. rewrite Ec7. intros c Hc0. rewrite <- E3 in Hc0.
    symmetry. apply generation_core, Hc0. }
  rewrite E8. split; [|split; [exact Ha7|split]].
  - apply (update_client (k_counter (core d)) id peek_client ph (core d) _ Hi Hs7 Ec7).
    intros c Hc0. destruct Hph as [->|[dl ->]]; [done|]. cbn. split; [|done].
    assert (Hb : bget id (k_clients k1) = Some (peek_client c))
      by (cbn; rewrite bget_modify, Z.eqb_refl; cbn in Hc0; rewrite Hc0; done).
    rewrite <- E3 in Hb. exact (generation_core id d3 _ Hb).
  - intros _ St. apply settled_phase, Hst7, St.
  - rewrite sizes_phase. intros Ne. apply settled_phase. destruct Hsz7 as [E|E]; [congruence|exact E].
Qed.

Lemma keeps_resize id p d : Forall is_u8 p -> keeps d (on_resize id p d).
Proof.
  intros Hp. unfold on_resize. destruct (bget id (clients d)) as [c0|] eqn:Eb0; [|apply keeps_core; done].
  destruct (_ || _) eqn:Eg; [apply keeps_core; done|]. apply keeps_settled. intros Hi.
  apply orb_false_elim in Eg as [Eg _]. apply orb_false_elim in Eg as [Er Es].
  apply negb_false_iff, bool_decide_eq_true in Er.
  destruct (decode_size_nonneg p Hp) as [Hr Hc]. destruct (decode_size p) as [rows cols].
  cbv zeta. set (d2 := d <| attach_counter ::= Z.succ |>).
  set (f := resize_client rows cols (attach_counter d2)).
  set (d3 := d2 <| clients ::= bmodify id f |>).
  set (k1 := ((core d) <| k_counter := Z.succ (k_counter (core d)) |>) <| k_clients ::= bmodify id f |>).
  assert (E3 : core d3 = k1).
  { unfold d3, k1. rewrite (core_modify_as id f f) by done. done. }
  clearbody d3. pose proof (inv_shape _ Hi) as Hs.
  assert (Hr0 : forall c, bget id (k_clients (core d)) = Some c -> role c = Writable).
  { intros c Hc1. cbn in Hc1. rewrite bget_strip, Eb0 in Hc1. injection Hc1 as <-. exact Er. }
  assert (Hs1 : shape k1).
  { apply shape_update; [done|lia|]. intros c Hc1 (_ & _ & Hb & Hrole).
    rewrite (Hr0 c Hc1) in Hrole. unfold base_ok, f. cbn -[core]. rewrite (Hr0 c Hc1).
    cbn in Hb. cbn. destruct Hrole as [Hq1 Hq2]. split_and!; done || lia. }
  destruct (adopt_cell_size p d3) as [d4 changed] eqn:E1. apply core_adopt' in E1.
  destruct (negotiate_size d4) as [d5 resized] eqn:E4.
  apply (core_negotiate' _ _ _ k1) in E4; [|congruence|done].
  set (d6 := if changed && negb resized then _ else d5).
  rewrite core_note. replace (core d6) with (knegotiate k1).
  2: { unfold d6. destruct (changed && _); [rewrite core_resize_pty|]; done. }
  destruct (commit (core d) k1 false Hi Hs1 eq_refl eq_refl eq_refl eq_refl) as (Hs7 & Ec7 & Hst & Ha).
  split; [|done]. apply inv_of; [done|]. rewrite Ec7. apply phase_modify; [apply Hs|apply Hi|].
  intros c Hc1. pose proof (i_phase _ Hi) as Hph. rewrite Forall_forall in Hph.
  apply bget_In in Hc1. exact (Hph _ Hc1).
Qed.

Lemma shape_remove id k : shape k -> shape (k <| k_clients ::= bremove id |>).
Proof.
  intros []. constructor; try done; cbn.
  - apply sorted_remove. done.
  - apply Forall_remove. done.
Qed.

Lemma bmap_remove (id : Z) (cs : BTree Client) :
  bmap strip (bremove id cs) = bremove id (bmap strip cs).
Proof.
  unfold bmap, bremove. induction cs as [|[k0 x] cs IH]; [done|].
  cbn [List.filter fmap list_fmap fst]. destruct (negb (k0 =? id)); cbn [fmap list_fmap fst snd];
    [f_equal|]; exact IH.
Qed.

Lemma keeps_closed id d : keeps d (on_closed id d).
Proof.
  intros Hi. unfold on_closed. destruct (bget id (clients d)) as [c0|] eqn:Eb0; [|apply keeps_core; done].
  cbv zeta. set (d3 := d <| clients ::= bremove id |>).
  set (k1 := (core d) <| k_clients ::= bremove id |>).
  assert (E3 : core d3 = k1).
  { exact (f_equal (fun cs => mkCore _ _ cs _ _ _ _ _ _ _) (bmap_remove id (clients d))). }
  clearbody d3. pose proof (inv_shape _ Hi) as Hs.
  assert (Hs1 : shape k1) by (apply shape_remove; done).
  destruct (negotiate_size d3) as [d4 resized] eqn:E4.
  apply (core_negotiate' _ _ _ k1 E3 Hs1) in E4.
  set (d7 := if constrains_size c0 then _ else d4).
  assert (K : shape (core d7) /\ k_clients (core d7) = k_clients k1 /\ advances (core d) (core d7)
              /\ (settled (core d) -> settled (core d7)) /\ (sizes (core d7) = sizes (core d) \/ settled (core d7))).
  { unfold d7. destruct (constrains_size c0) eqn:Ec.
    - rewrite core_note, E4.
      destruct (commit (core d) k1 false Hi Hs1 eq_refl eq_refl eq_refl eq_refl) as (H1 & H2 & H3 & H4). auto 10.
    - rewrite E4. destruct (commit_uncounted (core d) k1 Hi Hs1) as (H1 & H2 & H3 & H4 & H5); try done; [|auto 10].
      apply constraining_remove; [|apply Hs]. intros c Hc. cbn in Hc. rewrite bget_strip, Eb0 in Hc.
      injection Hc as <-. exact Ec. }
  destruct K as (Hs7 & Ec7 & Ha7 & Hst7 & Hsz7). split; [|split; [exact Ha7|split; [auto|]]].
  - apply inv_of; [done|]. rewrite Ec7. apply Forall_remove, Hi.
  - intros Ne. destruct Hsz7 as [E|E]; [congruence|exact E].
Qed.

Lemma core_reset d b d1 t1 :
  t_reset_input_modes (term d) = (b, t1) -> d1 = d <| term := t1 |> -> core d1 = core d.
Proof.
  intros E ->. pose proof (reset_grid (term d)) as [E1 E2]. rewrite E in E1, E2.
  apply core_term; done.
Qed.

Lemma keeps_history id p d : keeps d (on_history id p d).
Proof.
  apply keeps_core. unfold on_history. destruct (negb _); [done|].
  match goal with |- context [let '(r, d) := ?x in _] => assert (E : core (snd x) = core d) end.
  { destruct (exited d); [done|]. destruct (_ <? _); [done|].
    destruct (history_of_json p) as [r|]; [|done].
    pose proof (history_grid (generation d) r (term d)) as [E1 E2].
    destruct (t_history _ _ _) as [x t]. apply core_term; done. }
  destruct (if exited d then _ else _) as [r d1]. cbn [snd] in E.
  destruct (history_json r); [rewrite core_send_to|]; done.
Qed.

Lemma keeps_packet id packet input d :
  Forall is_u8 (payload packet) -> keeps d (on_packet id packet input d).
Proof.
  intros Hp. unfold on_packet.
  assert (Hr : forall x, keeps d x -> keeps d (release_hold input x)).
  { intros x Hx. eapply keeps_trans; [exact Hx|]. apply keeps_core, core_release_hold. }
  destruct (type_ packet); try (apply Hr).
  all: try (apply keeps_core; done).
  - apply keeps_core. unfold on_data. destruct (bget _ _); [|apply core_release_hold].
    destruct (_ && _); [apply core_write_input|apply core_release_hold].
  - apply keeps_attach, Hp.
  - unfold on_detach. eapply keeps_trans; [|apply keeps_closed].
    apply keeps_core, core_modify. done.
  - apply keeps_resize, Hp.
  - apply keeps_peek.
  - apply keeps_core. unfold on_status. rewrite core_send_to. apply core_tick.
  - apply keeps_core. unfold on_accepted_socket_ownership. rewrite core_send_to. apply core_tick.
  - apply keeps_core. unfold on_lifecycle_cas.
    destruct (cas_of_json (payload packet)) as [r|]; [|apply core_send_to].
    destruct (validate_lifecycle r); [|apply core_send_to].
    pose proof (core_cas r d) as E. destruct (compare_and_set_lifecycle r d) as [d1 res].
    rewrite core_send_to. exact E.
  - destruct (payload packet); [|apply keeps_core; done].
    destruct (bget id (clients d)); [|apply keeps_core; done].
    destruct (bool_decide _); [|apply keeps_core; done].
    destruct (t_reset_input_modes (term d)) as [out t] eqn:E. apply keeps_core.
    rewrite core_broadcast. eapply core_reset; done.
  - apply keeps_history.
Qed.

(** *** Output, exit and timers *)

Lemma core_stamp d : core (stamp_output_activity d) = core d.
Proof. unfold stamp_output_activity. destruct (activity_persist_at _); done. Qed.

(** The terminal once it has the child's output. *)
Definition written (b : bytes) (d : D) : T :=
  snd (t_write b (t_set_client_available (answering_client_available (clients d)) (term d))).
Definition same_grid (t t' : T) : Prop := t_rows t' = t_rows t /\ t_cols t' = t_cols t.
Definition regrid (r c : Z) (k : Core) : Core := k <| k_rows := r |> <| k_cols := c |>.

Lemma core_pty_data b d :
  core (on_pty_data b d) = regrid (t_rows (written b d)) (t_cols (written b d)) (core d).
Proof.
  unfold on_pty_data. cbv zeta. set (d1 := stamp_output_activity d).
  assert (E1 : core d1 = core d) by apply core_stamp.
  assert (Es : clients d1 = clients d /\ term d1 = term d)
    by (unfold d1, stamp_output_activity; destruct (activity_persist_at _); done).
  destruct Es as [Ec Et]. clearbody d1. unfold written. rewrite <- Ec, <- Et, <- E1. clear Ec Et E1.
  set (t0 := t_set_client_available _ (term d1)). set (d2 := d1 <| term ::= _ |>).
  change (term d2) with t0. destruct (t_write b t0) as [cleaned t]. cbn [snd].
  set (d3 := d2 <| term := t |>).
  assert (E3 : core d3 = regrid (t_rows t) (t_cols t) (core d1)) by done. clearbody d3.
  pose proof (core_take_replies d3) as E6. destruct (take_replies d3) as [replies d4]. cbn [snd] in E6.
  assert (E7 : core (forward_terminal_events (write_pty replies d4)) = core d3).
  { rewrite core_events. unfold write_pty. rewrite core_write_input. exact E6. }
  rewrite <- E3. destruct cleaned; [exact E7|]. rewrite core_broadcast. exact E7.
Qed.

Lemma keeps_pty_data b d : keeps_if (same_grid (term d) (written b d)) d (on_pty_data b d).
Proof.
  intros Hi. rewrite core_pty_data. destruct (i_pos _ Hi) as [Hr Hc].
  assert (P : 0 < t_rows (written b d) /\ 0 < t_cols (written b d)).
  { destruct (available_grid (answering_client_available (clients d)) (term d)) as [Ea Eb].
    apply write_grid; [rewrite Ea|rewrite Eb]; done. }
  split; [destruct Hi; constructor; done|]. split; [apply advances_still; done|]. split; [|done].
  intros [-> ->]. done.
Qed.

Definition kexit (status : ExitStatus) (k : Core) : Core :=
  ((k <| k_exited := true |>) <| k_exit_code := exit_code_of status |>)
    <| k_exits ::= (fun l => l ++ [LSessionExit (exit_code_of status) (signal status)]) |>.

Lemma core_finalize d s :
  child_status d = Some s -> core (finalize_exit d) = kexit s (core d).
Proof.
  intros Hs. unfold finalize_exit. rewrite Hs. cbv zeta.
  pose proof (core_settle CauseExit true d) as E0.
  destruct (settle_startup_lifecycle CauseExit true d) as [d0 v]. cbn [fst] in E0.
  set (d1 := d0 <| exited := true |> <| exit_code := exit_code_of s |> <| exit_drain_deadline := None |>
             <| term ::= t_end_stream |>).
  assert (E1 : core d1 = ((core d) <| k_exited := true |>) <| k_exit_code := exit_code_of s |>).
  { rewrite <- E0. destruct (end_grid (term d0)) as [Ea Eb]. unfold d1, core. cbn. rewrite Ea, Eb. done. }
  clearbody d1. set (d2 := broadcast _ (forward_terminal_events d1)).
  assert (E2 : core d2 = core d1) by (unfold d2; rewrite core_broadcast, core_events; done).
  clearbody d2. set (d3 := d2 <| log ::= _ |>).
  assert (E3 : core d3 = kexit s (core d)).
  { transitivity ((core d2) <| k_exits ::= (fun l => l ++ [LSessionExit (exit_code_of s) (signal s)]) |>);
      [|rewrite E2, E1; done].
    unfold d3, core. cbn. unfold exit_events. rewrite List.filter_app. done. }
  clearbody d3. pose proof (core_save d3) as E4. destruct (save_exit_metadata d3) as [d4 st].
  cbn [fst] in E4. set (d5 := match st with Mutate.Busy | Mutate.Stale => _ | _ => d4 end).
  assert (E5 : core d5 = core d4) by (unfold d5; destruct st; done).
  clearbody d5. assert (E6 : core d5 = kexit s (core d)) by congruence.
  destruct (shutdown_code d5); exact E6.
Qed.

Lemma keeps_finalize d :
  exited d = false -> has_status d = true -> keeps d (finalize_exit d).
Proof.
  unfold has_status. intros He Hs Hi. destruct (child_status d) as [s|] eqn:Es; [|done].
  rewrite (core_finalize d s Es).
  split; [|split; [apply advances_still; done|split; [intros _ [Hg Hp]; constructor; done|done]]].
  destruct Hi as [? ? ? ? ? Hx]. constructor; try done. unfold exit_ok in *. cbn in *.
  rewrite He in Hx. rewrite Hx, Es. eauto.
Qed.

Lemma keeps_status s d : child_status d = None -> exited d = false -> keeps d (d <| child_status := Some s |>).
Proof.
  intros Hc He Hi. split; [|split; [|split; [intros _ [Hg Hp]; constructor; done|done]]].
  - destruct Hi as [? ? ? ? ? Hx]. constructor; try done. unfold exit_ok in *. cbn in *.
    rewrite He in *. done.
  - split; [split; [cbn; lia|done]|]. cbn. rewrite Hc. done.
Qed.

Lemma not_exited d : inv (core d) -> child_status d = None -> exited d = false.
Proof.
  intros Hi Hc. destruct (exited d) eqn:E; [|done].
  pose proof (i_exit _ Hi) as Hx. unfold exit_ok in Hx. cbn in Hx. rewrite E in Hx.
  destruct Hx as (s & Hs & _). congruence.
Qed.

Lemma keeps_child s d : keeps d (on_child_exited s d).
Proof.
  unfold on_child_exited.
  set (h := match operation d with Some o => _ | None => (d, false) end).
  assert (E : core (fst h) = core d).
  { unfold h. destruct (operation d) as [o|]; [|done]. destruct (holds s o). done. }
  destruct h as [d1 held]. cbn [fst] in E.
  eapply keeps_trans; [apply keeps_core, E|]. destruct held; [apply keeps_core; done|].
  destruct (child_status d1) eqn:Ec; [apply keeps_core; done|]. intros Hi.
  pose proof (not_exited _ Hi Ec) as He.
  revert Hi. eapply keeps_trans; [apply (keeps_status s d1 Ec He)|]. cbn.
  destruct (pty_eof d1); [|apply keeps_core; done]. rewrite He. apply keeps_finalize; done.
Qed.

Lemma keeps_kill d : keeps d (on_external_kill d).
Proof.
  apply keeps_core. unfold on_external_kill. destruct (operation d) as [o|].
  - destruct (intercepts_kill o) as [o' []]; [done|]. cbn. destruct (shutdown_code d); done.
  - destruct (shutdown_code d); done.
Qed.

Lemma core_shutdown c d : core (set_shutdown c d) = core d.
Proof. unfold set_shutdown. destruct (shutdown_code d); done. Qed.

Lemma core_connect id d :
  bmem id (clients d) = false ->
  core (d <| clients ::= binsert id (new_client (t_rows (term d)) (t_cols (term d))) |>)
  = (core d) <| k_clients ::= binsert id (new_client (t_rows (term d)) (t_cols (term d))) |>.
Proof.
  intros _.
  assert (E : bmap strip (binsert id (new_client (t_rows (term d)) (t_cols (term d))) (clients d))
              = binsert id (new_client (t_rows (term d)) (t_cols (term d))) (bmap strip (clients d))).
  { generalize (clients d) as m. intros m. unfold bmap. induction m as [|[k0 x] m IH]; [done|].
    cbn [binsert fmap list_fmap fst snd]. destruct (id <? k0); [done|]. destruct (id =? k0); [done|].
    cbn [fmap list_fmap fst snd]. f_equal. exact IH. }
  exact (f_equal (fun cs => mkCore _ _ cs _ _ _ _ _ _ _) E).
Qed.

Lemma Forall_insert {A} (P : Z * A -> Prop) k v m : P (k, v) -> Forall P m -> Forall P (binsert k v m).
Proof.
  intros Hv. induction 1 as [|[k0 x] m Hx Hf IH]; cbn [binsert]; [auto|].
  destruct (k <? k0); [auto|]. destruct (k =? k0); auto.
Qed.

Lemma keeps_connect id d :
  bmem id (clients d) = false ->
  keeps d (d <| clients ::= binsert id (new_client (t_rows (term d)) (t_cols (term d))) |>).
Proof.
  intros Hm Hi. rewrite core_connect by done. set (c := new_client _ _).
  assert (Hk : constraining (binsert id c (k_clients (core d))) = constraining (k_clients (core d))).
  { apply constraining_insert; [done|]. cbn. rewrite bget_strip. unfold bmem in Hm.
    destruct (bget id (clients d)); done. }
  destruct (same_constraining (t_rows (term d)) (t_cols (term d)) _ _ Hk) as [Et Ef].
  split; [|split; [apply advances_still; done|split]].
  2: { intros _ [Hg Hp]. constructor; cbn in *; [rewrite Et; exact Hg|].
       unfold k_facts in *. cbn in *. rewrite Ef. exact Hp. }
  2: { intros N. destruct N. symmetry. apply same_sizes, Hk. }
  destruct Hi. constructor; try done; cbn.
  - apply sorted_insert. done.
  - apply Forall_insert; [|done]. cbn in i_pos0, i_counter0. cbn.
    unfold base_ok, c. cbn. split_and!; done || lia.
  - apply Forall_insert; done.
Qed.

(** Output that leaves the grid as it is: no DECCOLM switched the columns. *)
Definition leaves_grid (msg : option Msg) (d : D) : Prop :=
  match msg with Some (PtyData b) => same_grid (term d) (written b d) | _ => True end.

Lemma keeps_handle msg d :
  match msg with
  | Connect id => bmem id (clients d) = false
  | MPacket _ p _ => Forall is_u8 (payload p)
  | _ => True
  end -> keeps_if (leaves_grid (Some msg) d) d (handle msg d).
Proof.
  destruct msg as [b| |s|id|id p input|id| | |c]; intros Hm; cbn [handle leaves_grid].
  - apply keeps_pty_data.
  - cbv zeta. destruct (_ && _) eqn:E; [|apply keeps_core; done].
    apply andb_prop in E as [Es Ee]. apply negb_true_iff in Ee.
    eapply keeps_trans; [apply (keeps_core d (d <| pty_eof := true |>)); done|].
    apply keeps_finalize; done.
  - apply keeps_child.
  - apply keeps_connect, Hm.
  - apply keeps_packet, Hm.
  - apply keeps_closed.
  - apply keeps_kill.
  - destruct (operation d) as [o|]; [|apply keeps_core; done].
    destruct (deferred_exit o); [|apply keeps_core; done].
    eapply keeps_trans; [|apply keeps_child]. apply keeps_core. done.
  - apply keeps_core. cbv zeta. rewrite core_shutdown. destruct (operation d); done.
Qed.

Lemma keeps_activity t d : keeps d (service_activity t d).
Proof.
  apply keeps_core. unfold service_activity, persist_output_activity. destruct (is_at _ _); [|done].
  cbv zeta. destruct (exited _); [done|]. destruct (last_output_at_ms _); [|done].
  destruct (registry_call _ _) as [d1 st] eqn:E. apply core_registry' in E.
  destruct st; try exact E; rewrite core_tick; exact E.
Qed.

Lemma keeps_drain t d : keeps d (service_exit_drain t d).
Proof.
  unfold service_exit_drain. destruct (is_at _ _); [|apply keeps_core; done]. cbv zeta.
  destruct (negb _ && _) eqn:E; [|apply keeps_core; done].
  apply andb_prop in E as [Ee Es]. apply negb_true_iff in Ee.
  eapply keeps_trans; [apply (keeps_core d (d <| exit_drain_deadline := None |>)); done|].
  apply keeps_finalize; done.
Qed.

Lemma core_exit_meta t d : core (service_exit_meta t d) = core d.
Proof.
  unfold service_exit_meta. destruct (exit_meta_retry d) as [[next deadline]|]; [|done].
  destruct (_ <=? _); [|done]. pose proof (core_save d) as E.
  destruct (save_exit_metadata d) as [d1 st]. cbn [fst] in E.
  destruct st; try exact E; destruct (_ <? _); exact E.
Qed.

Lemma core_lease t d : core (service_lease t d) = core d.
Proof.
  unfold service_lease. destruct (negb _); [done|].
  destruct (startup_deadline_pending_shutdown d); [rewrite core_shutdown; done|].
  destruct (startup_lease_disarmed d); [done|].
  destruct (mbind _ _) as [deadline|]; [|done].
  cbv zeta. destruct (_ =? 0); [|done].
  pose proof (core_deadline (tick d)) as E.
  destruct (settle_startup_deadline _) as [d1 [v|]]; exact E.
Qed.

Lemma keeps_sweep t d : keeps d (service_temp_sweep t d).
Proof. apply keeps_core. unfold service_temp_sweep. destruct (_ <=? _); done. Qed.

Lemma keeps_client_meta t d : keeps d (service_client_meta t d).
Proof.
  apply keeps_core. unfold service_client_meta.
  destruct (is_at _ _); [apply core_write_generation|done].
Qed.

Lemma keeps_exit_shutdown t d : keeps d (service_exit_shutdown t d).
Proof.
  apply keeps_core. unfold service_exit_shutdown.
  destruct (is_at _ _); [rewrite core_shutdown|]; done.
Qed.

Lemma keeps_timers t d : keeps d (service_timers t d).
Proof.
  unfold service_timers.
  eapply keeps_trans; [apply (keeps_service_cuts t)|].
  eapply keeps_trans; [apply (keeps_sweep t)|].
  eapply keeps_trans; [apply (keeps_activity t)|].
  eapply keeps_trans; [apply (keeps_client_meta t)|].
  eapply keeps_trans; [apply (keeps_drain t)|].
  eapply keeps_trans; [apply keeps_core, (core_exit_meta t)|].
  eapply keeps_trans; [apply keeps_core, (core_lease t)|]. apply keeps_exit_shutdown.
Qed.

Lemma keeps_turn msg d :
  match msg with
  | Some (Connect id) => bmem id (clients d) = false
  | Some (MPacket _ p _) => Forall is_u8 (payload p)
  | _ => True
  end -> keeps_if (leaves_grid msg d) d (turn msg d).
Proof.
  intros Hm. unfold turn. cbv zeta. eapply keeps_if_trans; [|apply keeps_timers].
  destruct msg as [m|]; [|apply keeps_core; done].
  eapply keeps_if_trans; [apply (keeps_handle m), Hm|apply keeps_core; done].
Qed.

(** A step that is not output which changes the grid. *)
Definition calm (d d' : D) : Prop := forall b, d' = turn (Some (PtyData b)) d -> same_grid (term d) (written b d).

Lemma keeps_step d d' : daemon_step d d' -> keeps_if (calm d d') d d'.
Proof.
  destruct 1 as [d msg _ Hm|d id f Hf|d w|d o Ho].
  - intros Hi. destruct (keeps_turn msg d Hm Hi) as (H1 & H2 & H3 & H4).
    split; [done|]. split; [done|]. split; [|done]. intros C. apply H3.
    destruct msg as [[]|]; try done. apply C. done.
  - apply keeps_any, keeps_core, core_modify. done.
  - apply keeps_any, keeps_core. done.
  - apply keeps_any, keeps_core. done.
Qed.

(** The sessions whose grid is the daemon's: since the sizes of its writable clients last
    changed, no output of the child has switched it to other columns. *)
Inductive undisturbed (d0 : D) : D -> Prop :=
  | undisturbed_start : undisturbed d0 d0
  | undisturbed_step d d' : undisturbed d0 d -> daemon_step d d' -> calm d d' -> undisturbed d0 d'
  | undisturbed_sizes d d' : served d0 d -> daemon_step d d' ->
      f_writable (client_facts d) <> f_writable (client_facts d') -> undisturbed d0 d'.

Lemma served_inv d0 d : served d0 d -> inv (core d0) -> inv (core d).
Proof. intros Hs Hi. induction Hs as [|d d' _ IH Hst]; [done|]. apply (keeps_step _ _ Hst IH). Qed.

Lemma assemble_inv nm gen t ms lease op w :
  0 < t_rows t -> 0 < t_cols t -> inv (core (assemble nm gen t ms lease op w)).
Proof. intros Hr Hc. constructor; cbn; try done; lia. Qed.
Lemma assemble_settled nm gen t ms lease op w : settled (core (assemble nm gen t ms lease op w)).
Proof. constructor; done. Qed.

Lemma undisturbed_served d0 d : undisturbed d0 d -> served d0 d.
Proof. induction 1; [constructor|econstructor; done|econstructor; done]. Qed.
Lemma undisturbed_settled d0 d : undisturbed d0 d -> inv (core d0) -> settled (core d0) -> settled (core d).
Proof.
  intros Hu Hi Hs. induction Hu as [|d d' Hu IH Hst Hc|d d' Hsv Hst Hn]; [done| |].
  - destruct (keeps_step _ _ Hst (served_inv _ _ (undisturbed_served _ _ Hu) Hi)) as (_ & _ & H & _). auto.
  - destruct (keeps_step _ _ Hst (served_inv _ _ Hsv Hi)) as (_ & _ & _ & H).
    rewrite !core_facts in Hn. exact (H Hn).
Qed.

Lemma served_keeps d d' : served d d' -> inv (core d) -> inv (core d') /\ advances (core d) (core d').
Proof.
  induction 1 as [|d1 d2 _ IH Hst]; intros Hi; [split; [done|apply advances_refl]|].
  destruct (IH Hi) as [Hi1 Ha]. destruct (keeps_step _ _ Hst Hi1) as (Hi2 & Hb & _).
  split; [done|]. eapply advances_trans; done.
Qed.
End Core.

(** ** The minimum *)

Definition is_min (m : Z) (l : list Z) : Prop := m ∈ l /\ Forall (fun x => m <= x) l.

Lemma fold_min l : forall a, 0 < a -> Forall (fun x => 0 < x) l ->
  is_min (fold_left min_or_set l a) (a :: l).
Proof.
  induction l as [|x l IH]; intros a Ha Hl; cbn [fold_left].
  - split; [left|constructor; [lia|constructor]].
  - apply Forall_cons in Hl as [Hx Hl]. unfold min_or_set at 2.
    rewrite (proj2 (Z.eqb_neq a 0)) by lia.
    destruct (IH (Z.min a x)) as [Hin Hle]; [lia|done|]. apply Forall_cons in Hle as [H1 H2].
    split; [|constructor; [lia|constructor; [lia|done]]].
    apply elem_of_cons in Hin as [E|Hin]; [|right; right; exact Hin].
    rewrite E. destruct (Z.min_spec a x) as [[_ ->]|[_ ->]]; [left|right; left].
Qed.

Lemma fold_min_zero l :
  Forall (fun x => 0 < x) l -> l <> [] -> is_min (fold_left min_or_set l 0) l.
Proof. intros Hl Hn. destruct l as [|z l]; [done|]. apply Forall_cons in Hl as [Hx Hl]. exact (fold_min l z Hx Hl). Qed.

Lemma is_min_unique m n l : is_min m l -> is_min n l -> m = n.
Proof.
  intros [H1 H2] [H3 H4]. rewrite Forall_forall in H2, H4.
  specialize (H2 _ H3). specialize (H4 _ H1). lia.
Qed.

Definition row_of (x : Z * Z * Z) : Z := snd (fst x).
Definition col_of (x : Z * Z * Z) : Z := snd x.

Lemma negotiated_facts r c m :
  negotiated m = (fold_left min_or_set (row_of <$> f_writable (facts_of r c m)) 0,
                  fold_left min_or_set (col_of <$> f_writable (facts_of r c m)) 0).
Proof.
  unfold negotiated, facts_of. cbn [f_writable]. generalize 0 at 2 4. generalize 0.
  induction m as [|[k x] m IH]; intros a b; [done|]. cbn [fold_left snd fst omap list_omap].
  destruct (constrains_size x); [|apply IH]. rewrite IH. done.
Qed.

Section Theorems.
Context {T : Type} {TI : Terminal T} {TL : TerminalLaws T} {EI : Env} {AI : Alloc}.

(** C1: The grid is what the writable clients agree on.  Whatever a served session has gone
    through, as soon as the sizes of its writable clients change, and from then on until
    the child's own output switches the columns, while every writable client has a
    positive size and the smallest rows and columns are a grid the terminal may take, the
    terminal has exactly the smallest rows and the smallest columns of those clients. *)
Theorem geometry_agreed nm gen (t : T) ms lease op w d r c :
  0 < t_rows t -> 0 < t_cols t -> undisturbed (assemble nm gen t ms lease op w) d ->
  let sizes := f_writable (client_facts d) in
  Forall (fun s => 0 < row_of s /\ 0 < col_of s) sizes ->
  is_min r (row_of <$> sizes) -> is_min c (col_of <$> sizes) -> grid_allowed r c = true ->
  t_rows (term d) = r /\ t_cols (term d) = c.
Proof.
  intros Hr Hc Hd sizes Hs Hmr Hmc Hg.
  pose proof (undisturbed_settled _ _ Hd (assemble_inv nm gen t ms lease op w Hr Hc)
    (assemble_settled nm gen t ms lease op w)) as Hi.
  apply (i_grid _ Hi). cbn [k_clients core]. rewrite target_strip. unfold target.
  rewrite (negotiated_facts (t_rows (term d)) (t_cols (term d))).
  change (f_writable (facts_of (t_rows (term d)) (t_cols (term d)) (clients d))) with sizes.
  assert (Hrp : Forall (fun x => 0 < x) (row_of <$> sizes))
    by (apply Forall_fmap; eapply Forall_impl; [exact Hs|]; intros x [H1 _]; exact H1).
  assert (Hcp : Forall (fun x => 0 < x) (col_of <$> sizes))
    by (apply Forall_fmap; eapply Forall_impl; [exact Hs|]; intros x [_ H1]; exact H1).
  rewrite (is_min_unique _ r _ (fold_min_zero _ Hrp ltac:(destruct Hmr as [H1 _];
    intros E; rewrite E in H1; apply not_elem_of_nil in H1; done)) Hmr).
  rewrite (is_min_unique _ c _ (fold_min_zero _ Hcp ltac:(destruct Hmc as [H1 _];
    intros E; rewrite E in H1; apply not_elem_of_nil in H1; done)) Hmc).
  rewrite Forall_forall in Hrp, Hcp.
  pose proof (Hrp r (proj1 Hmr)). pose proof (Hcp c (proj1 Hmc)).
  rewrite (proj2 (Z.eqb_neq r 0)), (proj2 (Z.eqb_neq c 0)) by lia. cbn [orb].
  rewrite Hg. done.
Qed.

(** a reader of the published client generation never misses a change.  Unless the
    child's output switches the columns, the facts last published are the current ones; a
    step never lowers the generation, and a step that changes the facts raises it. *)
Theorem facts_published nm gen (t : T) ms lease op w d d' :
  0 < t_rows t -> 0 < t_cols t -> undisturbed (assemble nm gen t ms lease op w) d ->
  daemon_step d d' -> calm d d' ->
  published_client_facts d' = client_facts d' /\
  client_generation d <= client_generation d' /\
  (client_facts d <> client_facts d' -> client_generation d < client_generation d').
Proof.
  intros Hr Hc Hd Hst Hcalm. pose proof (assemble_inv nm gen t ms lease op w Hr Hc) as Hi0.
  pose proof (undisturbed_settled _ _ Hd Hi0 (assemble_settled nm gen t ms lease op w)) as Hs.
  pose proof (served_inv _ _ (undisturbed_served _ _ Hd) Hi0) as Hi.
  destruct (keeps_step _ _ Hst Hi) as (_ & [[Hle Hlt] _] & Hs' & _). specialize (Hs' Hcalm Hs).
  pose proof (i_published _ Hs) as E. pose proof (i_published _ Hs') as E'.
  rewrite <- core_facts in E, E'. split; [exact E'|]. split; [exact Hle|].
  intros Hne. apply Hlt. rewrite E, E'. exact Hne.
Qed.

(** C12: the child's exit is recorded once and is final.  A served session that has
    exited has exactly one exit event, with the code and signal of the status it
    first took from the child, and every later state has the same code and the
    same event; before the exit there is none. *)
Theorem exit_once nm gen (t : T) ms lease op w d d' :
  0 < t_rows t -> 0 < t_cols t -> served (assemble nm gen t ms lease op w) d -> served d d' ->
  if exited d
  then exists s, child_status d = Some s /\ child_status d' = Some s /\ exited d' = true /\
         exit_code d = exit_code_of s /\ exit_code d' = exit_code_of s /\
         exit_events (log d') = [LSessionExit (exit_code_of s) (signal s)]
  else exit_events (log d) = [].
Proof.
  intros Hr Hc Hd Hdd.
  pose proof (served_inv _ _ Hd (assemble_inv nm gen t ms lease op w Hr Hc)) as Hi.
  pose proof (i_exit _ Hi) as Hx. unfold exit_ok in Hx. cbn in Hx. destruct (exited d) eqn:E; [|done].
  destruct Hx as (s & Hs & Hco & _). exists s.
  pose proof (served_keeps _ _ Hdd Hi) as G.
  destruct G as [Hi' (_ & Hst & Hex)]. specialize (Hex E). cbn in Hst, Hex. rewrite Hs in Hst.
  specialize (Hst ltac:(done)). pose proof (i_exit _ Hi') as Hx'. unfold exit_ok in Hx'. cbn in Hx'.
  rewrite Hex in Hx'. destruct Hx' as (s' & Hs' & Hco' & Hev). rewrite Hst in Hs'.
  injection Hs' as <-. auto 10.
Qed.
End Theorems.

(** ** Runs *)

(** A run of a checked step function, whatever the state. *)
Section Runs.
Context {M S : Type} (step : M -> S -> S) (ok : M -> S -> bool).

Fixpoint run (l : list M) (s : S) : S :=
  match l with
  | [] => s
  | m :: l' => run l' (step m s)
  end.
Fixpoint all_ok (l : list M) (s : S) : bool :=
  match l with
  | [] => true
  | m :: l' => ok m s && all_ok l' (step m s)
  end.

Lemma run_keeps (P : S -> Prop) l s :
  (forall m s, P s -> ok m s = true -> P (step m s)) -> P s -> all_ok l s = true -> P (run l s).
Proof.
  intros Hp. revert s. induction l as [|m l IH]; intros s Hs Hl; [exact Hs|].
  cbn [all_ok] in Hl. apply andb_prop in Hl as [Hm Hl]. apply IH; [auto|exact Hl].
Qed.
End Runs.

(** ** A session to evaluate *)

(** DECCOLM: 132 columns. *)
Definition wide : bytes := [27; 91; 63; 51; 104].

(** A terminal that is its size and knows one sequence, and an environment where nothing is
    contended. *)
#[export] Instance demo_terminal : Terminal (Z * Z) := {
  t_rows := fst;
  t_cols := snd;
  t_cell_size := fun _ => (8, 16);
  t_resize := fun c r _ => (r, c);
  t_set_cell_size := fun _ t => t;
  t_take_pty_replies := fun t => ([], t);
  t_take_events := fun t => ([], t);
  t_set_client_available := fun _ t => t;
  t_write := fun b t => (b, if beq b wide then (fst t, 132) else t);
  t_reset_input_modes := fun t => ([27], t);
  t_end_stream := fun t => t;
  t_serialize := fun _ t => [83; fst t; snd t];
  t_plain := fun _ t => [80; fst t; snd t];
  t_history := fun _ _ t => (HistoryUnavailable, t);
  t_plain_lines := fun _ => []
}.
#[export] Instance demo_laws : TerminalLaws (Z * Z).
Proof. constructor; intros; try done. cbn. destruct (beq b wide); cbn in *; lia. Qed.

Definition demo_weather : Weather := mkWeather (fun _ => true) (fun _ => Ok tt) id true.
#[export] Instance demo_env : Env := {
  instant := fun n => Z.of_nat n;
  epoch_ms := fun n => 1700000000000 + Z.of_nat n;
  monotonic_now_ns := fun n => Some (Z.of_nat n * 1000000);
  forecast := fun _ => demo_weather;
  freeze := fun _ => Complete [7];
  input_started := true;
  identity_of_json := fun _ => None;
  clients_json := fun _ => [];
  stats_json := fun _ => [];
  history_of_json := fun _ => None;
  history_json := fun _ => None;
  ownership_reply := fun _ _ => [];
  cas_of_json := fun _ => None;
  cas_json := fun _ => [];
  value_of_json := fun _ => None;
  value_to_json := fun _ => [123; 125]
}.

Definition demo_world : World := mkWorld ∅ ∅ [].
Definition demo_start : Daemon (Z * Z) :=
  assemble (str "s") (str "g") (24, 80) 80 None None demo_world.
Definition attach_packet (rows cols : Z) : Packet := mkPacket Attach (size_payload rows cols).

(** Two clients of different sizes attach, and the child exits. *)
Definition demo_msgs : list Msg :=
  [Connect 1; MPacket 1 (attach_packet 40 100) None; Connect 2;
   MPacket 2 (attach_packet 50 90) None; ChildExited (mkExitStatus (Some 3) None); PtyEof].
Definition msg_ok (m : Msg) (d : Daemon (Z * Z)) : bool :=
  match shutdown_code d with
  | Some _ => false
  | None => match m with
            | Connect id => negb (bmem id (clients d))
            | MPacket _ p _ => forallb (fun b => (0 <=? b) && (b <=? U8_MAX)) (payload p)
            | _ => true
            end
  end.
Definition run_msgs (l : list Msg) (d : Daemon (Z * Z)) : Daemon (Z * Z) :=
  run (fun m => turn (Some m)) l d.
Definition msgs_ok (l : list Msg) (d : Daemon (Z * Z)) : bool :=
  all_ok (fun m => turn (Some m)) msg_ok l d.

Lemma msg_step m d : msg_ok m d = true -> daemon_step d (turn (Some m) d).
Proof.
  unfold msg_ok. destruct (shutdown_code d) eqn:Es; [done|]. intros Hm. apply step_turn; [done|].
  destruct m; try done; [apply negb_true_iff in Hm; done|].
  apply Forall_forall. intros b Hb. rewrite forallb_forall in Hm.
  apply list_elem_of_In in Hb. specialize (Hm b Hb). bprop. unfold is_u8. lia.
Qed.

Lemma msgs_served l d0 d : served d0 d -> msgs_ok l d = true -> served d0 (run_msgs l d).
Proof.
  intros Hd. apply run_keeps; [|exact Hd]. intros m s Hs Hm. eapply served_step; [exact Hs|].
  apply msg_step, Hm.
Qed.

(** A client attaches, the child switches the columns, and another client attaches. *)
Definition wide_msgs : list Msg := take 2 demo_msgs ++ [PtyData wide; Connect 2].
Lemma columns_switched : t_cols (term (run_msgs wide_msgs demo_start)) = 132.
Proof. reflexivity. Qed.

Lemma geometry_agreed_witness :
  let d := turn (Some (MPacket 2 (attach_packet 50 90) None)) (run_msgs wide_msgs demo_start) in
  undisturbed demo_start d /\ t_rows (term d) = 40 /\ t_cols (term d) = 90.
Proof.
  intros d. assert (Hd : undisturbed demo_start d).
  { apply (undisturbed_sizes _ (run_msgs wide_msgs demo_start)); [apply msgs_served; [constructor|]|apply msg_step|].
    all: vm_compute; done. }
  split; [exact Hd|].
  assert (E : f_writable (client_facts d) = [(1, 40, 100); (2, 50, 90)]) by (vm_compute; done).
  apply (geometry_agreed (str "s") (str "g") (24, 80) 80 None None demo_world d 40 90);
    [done|done|exact Hd|rewrite E..|done].
  - repeat constructor; cbn; lia.
  - split; [left|repeat constructor; cbn; lia].
  - split; [right; left|repeat constructor; cbn; lia].
Defined.

Lemma exit_once_witness :
  let d := run_msgs demo_msgs demo_start in
  exited d = true /\ exit_events (log (turn None d)) = [LSessionExit 3 None].
Proof.
  intros d. assert (He : exited d = true) by (vm_compute; done). split; [exact He|].
  assert (Hd : served demo_start d) by (apply msgs_served; [constructor|vm_compute; done]).
  pose proof (exit_once (str "s") (str "g") (24, 80) 80 None None demo_world d (turn None d)
    eq_refl eq_refl Hd (served_step _ _ _ (served_start _) (step_turn d None ltac:(vm_compute; done) I))) as H.
  rewrite He in H. destruct H as (s & Hs & _ & _ & _ & _ & Hev). vm_compute in Hs.
  injection Hs as <-. exact Hev.
Defined.

Definition count_size (rc : Z * Z) (kv : Z * Client) : Z * Z :=
  let c := snd kv in
  if constrains_size c then (min_or_set (fst rc) (c_rows c), min_or_set (snd rc) (c_cols c)) else rc.

Lemma negotiated_fold m : negotiated m = fold_left count_size m (0, 0).
Proof. reflexivity. Qed.

(** Rows and columns are counted apart. *)
Lemma count_size_apart m : forall a b,
  fst (fold_left count_size m (a, b)) = fst (fold_left count_size m (a, 0)).
Proof.
  enough (H : forall a b b', fst (fold_left count_size m (a, b)) = fst (fold_left count_size m (a, b')))
    by (intros a b; apply H).
  induction m as [|[k c] m IH]; intros a b b'; [done|]. cbn [fold_left]. unfold count_size at 2 4.
  cbn [fst snd]. destruct (constrains_size c); apply IH.
Qed.

(** a zero size erases the minimum so far.  A writable client that reports zero
    rows makes the negotiation forget the rows of every client before it, however
    small: the result is what the clients after it agree on alone. *)
Theorem negotiate_zero_forgets (m1 m2 : BTree Client) (k : Z) (z : Client) :
  Forall (fun kv => 0 <= c_rows (snd kv) /\ 0 <= c_cols (snd kv)) m1 ->
  constrains_size z = true -> c_rows z = 0 ->
  fst (negotiated (m1 ++ (k, z) :: m2)) = fst (negotiated m2).
Proof.
  intros Hf Hz Hr. pose proof (negotiated_nonneg m1 Hf) as [Hn _]. rewrite !negotiated_fold in *.
  rewrite fold_left_app. cbn [fold_left]. unfold count_size at 2. cbn [snd]. rewrite Hz, Hr.
  assert (E : min_or_set (fst (fold_left count_size m1 (0, 0))) 0 = 0).
  { unfold min_or_set. destruct (_ =? 0); [done|]. apply Z.min_r. exact Hn. }
  rewrite E. apply count_size_apart.
Qed.

Lemma negotiate_zero_forgets_witness :
  let size r := mkClient new_conn Writable r 100 1 0 Live None in
  fst (negotiated ([(1, size 40)] ++ (2, size 0) :: [(3, size 50)])) = 50 /\
  fst (negotiated [(1, size 40); (3, size 50)]) = 40.
Proof.
  intros size. split; [|reflexivity].
  rewrite (negotiate_zero_forgets [(1, size 40)] [(3, size 50)] 2 (size 0)); [reflexivity| |reflexivity|reflexivity].
  repeat constructor; cbn; lia.
Defined.
