(* ===== verification/Delivery.v ===== *)
(** What a session's clients are sent: every connection of a served session has a
    history of whole daemon packets, an attaching client gets GEOMETRY and then
    nothing of the child until its SCREEN, and due cuts are made. *)
From S2P Require Import Prelude Protocol Json Metadata Names Mutate Clients BTree Daemon Session.

(** ** Specifications *)

(** The packets a daemon sends. *)
Definition daemon_types : list MessageType :=
  [Data; Exit; Screen; Status; AcceptedSocketOwnership; LifecycleCas; Geometry; History].
Definition daemon_frame (b : bytes) : Prop :=
  exists ty p, ty ∈ daemon_types /\ b = encode_packet ty p.

(** The child's output, by a packet's type byte. *)
Definition is_output (b : bytes) : bool :=
  match b with
  | t :: _ => match from_u8 t with Data | Exit | Screen => true | _ => false end
  | [] => false
  end.

(** Told the size, and since then nothing of the child's. *)
Definition geometry_last (sent : list bytes) : Prop :=
  exists before rows cols after,
    sent = before ++ encode_geometry rows cols :: after /\
    Forall (fun b => is_output b = false) after.

Section Wire.
Context {AI : Alloc}.

Definition history (P : list bytes -> Prop) (c : Client) : Prop :=
  exists sent, conn_trace sent (conn c) /\ Forall daemon_frame sent /\
               (rejected (conn c) = true \/ P sent).
Definition plain : Client -> Prop := history (fun _ => True).
Definition told : Client -> Prop := history geometry_last.
Definition well_sent (c : Client) : Prop := if is_settling c then told c else plain c.

Lemma told_plain c : told c -> plain c.
Proof. intros (sent & ? & ? & _). exists sent. auto. Qed.
Lemma well_plain c : well_sent c -> plain c.
Proof. unfold well_sent. destruct (is_settling c); [apply told_plain|done]. Qed.

Lemma send_trace b sent c :
  conn_trace sent c -> exists sent', conn_trace sent' (send b c) /\
    (sent' = sent ++ [b] \/ (sent' = sent /\ rejected (send b c) = true)).
Proof.
  intros Ht. unfold send. destruct (rejected c) eqn:Er; [exists sent; auto|].
  destruct (try_admit c b) as [total|] eqn:Ea.
  - exists (sent ++ [b]). split; [apply (trace_queue sent c b total Ht Er Ea)|auto].
  - exists sent. unfold reject_slow_client. rewrite Er.
    assert (Hr : rejected (reject_frame c) = true) by (unfold reject_frame; rewrite Er; reflexivity).
    split; [|right; split; [done|exact Hr]]. eapply trace_step; [|apply step_shutdown, Hr].
    eapply trace_step; [exact Ht|]. eapply step_refuse; done.
Qed.

Lemma rejected_send b c : rejected c = true -> rejected (send b c) = true.
Proof. unfold send. intros E. rewrite E. exact E. Qed.

Lemma history_send (P Q : list bytes -> Prop) b c :
  daemon_frame b -> (forall sent, P sent -> Q (sent ++ [b])) ->
  history P c -> history Q (client_send b c).
Proof.
  intros Hb Hpq (sent & Ht & Hf & Hp). destruct (send_trace b sent _ Ht) as (sent' & Ht' & Hs').
  exists sent'. cbn [client_send conn set_conn]. split; [done|].
  destruct Hs' as [->|[-> Hr]]; [|auto].
  split; [apply Forall_app; auto|]. destruct Hp as [Hp|Hp]; [left; apply rejected_send, Hp|auto].
Qed.

Lemma plain_send b c : daemon_frame b -> plain c -> plain (client_send b c).
Proof. intros Hb. apply history_send; done. Qed.

Lemma told_send b c : daemon_frame b -> is_output b = false -> told c -> told (client_send b c).
Proof.
  intros Hb Ho. apply history_send; [done|]. intros sent (x & r & q & y & -> & Hy).
  exists x, r, q, (y ++ [b]). rewrite <- app_assoc. split; [done|]. apply Forall_app. auto.
Qed.

Lemma told_geometry r q c : plain c -> told (client_send (encode_geometry r q) c).
Proof.
  apply history_send.
  - exists Geometry, (size_payload r q). split; [|done]. unfold daemon_types.
    do 6 right. left.
  - intros sent _. exists sent, r, q, []. auto.
Qed.

Lemma well_send b c : daemon_frame b -> is_output b = false -> well_sent c -> well_sent (client_send b c).
Proof.
  unfold well_sent. change (is_settling (client_send b c)) with (is_settling c).
  destruct (is_settling c); [apply told_send|intros; apply plain_send; done].
Qed.

Lemma rejected_step c c' : conn_step c c' -> rejected c = true -> rejected c' = true.
Proof.
  destruct 1 as [c b Hr _| | c o _|c|c n|c|c b]; intros H0; try done.
  - congruence.
  - unfold send_out. destruct (receiver c); done.
  - unfold writer_recv. destruct (receiver c), (inflight c), (queue c) as [|[]]; done.
  - unfold writer_write. destruct (inflight c) as [[]|]; [|done]. destruct (writable c); done.
  - unfold writer_done. destruct (inflight c) as [[? []]|]; done.
Qed.

Lemma well_step c k : conn_step (conn c) k -> well_sent c -> well_sent (set_conn k c).
Proof.
  intros Hst. assert (G : forall P, history P c -> history P (set_conn k c)).
  { intros P (sent & Ht & Hf & Hp). exists sent. cbn [conn set_conn].
    split; [eapply trace_step; done|]. split; [done|]. destruct Hp as [Hp|Hp]; [|auto].
    left. eapply rejected_step; done. }
  unfold well_sent. change (is_settling (set_conn k c)) with (is_settling c).
  destruct (is_settling c); apply G.
Qed.
End Wire.

(** ** Which operations leave the clients alone *)

#[local] Arguments bmap : simpl never.
#[local] Arguments bmodify : simpl never.

Section Handlers.
Context {T : Type} {TI : Terminal T} {TL : TerminalLaws T} {EI : Env} {AI : Alloc}.
Abbreviation D := (Daemon T).

Lemma cl_release h (d : D) : clients (release_hold h d) = clients d.
Proof. destruct h; done. Qed.
Lemma cl_write b h (d : D) : clients (write_input b h d) = clients d.
Proof.
  unfold write_input. destruct b, (child_status d); try apply cl_release.
  destruct input_started; [done|]. rewrite cl_release. done.
Qed.
Lemma cl_resize_pty r c (d : D) : clients (resize_pty r c d) = clients d.
Proof. unfold resize_pty. destruct (t_cell_size (term d)). done. Qed.
Lemma cl_replies (d : D) : clients (snd (take_replies d)) = clients d.
Proof. unfold take_replies. destruct (t_take_pty_replies (term d)). done. Qed.
Lemma cl_registry {A} (f : Weather -> World -> World * A) (d d' : D) a :
  registry_call f d = (d', a) -> clients d' = clients d.
Proof. unfold registry_call. destruct (f _ _). intros [= <- _]. done. Qed.
Lemma cl_write_generation (d : D) : clients (write_client_generation d) = clients d.
Proof.
  unfold write_client_generation. destruct (registry_call _ d) as [d' st] eqn:E.
  apply cl_registry in E. rewrite <- E. destruct st; done.
Qed.
Lemma cl_note a (d : D) : clients (note_client_change a d) = clients d.
Proof.
  unfold note_client_change. destruct a; [rewrite cl_write_generation; done|].
  destruct (decide _); [done|]. rewrite cl_write_generation. done.
Qed.
Lemma cl_adopt p (d : D) : clients (fst (adopt_cell_size p d)) = clients d.
Proof.
  unfold adopt_cell_size. destruct (decode_cell p); [|done].
  destruct (t_cell_size (term d)). destruct (_ && _); done.
Qed.
Lemma cl_events (d : D) : clients (forward_terminal_events d) = clients d.
Proof. unfold forward_terminal_events. destruct (t_take_events (term d)). done. Qed.
Lemma cl_nudge (d : D) : clients (nudge_redraw d) = clients d.
Proof.
  unfold nudge_redraw. destruct (_ <? _); [done|]. unfold resize_pty.
  destruct (t_cell_size (term d)). cbn. destruct (t_cell_size _). done.
Qed.
Lemma cl_settle cause force (d : D) :
  clients (fst (settle_startup_lifecycle cause force d)) = clients d.
Proof.
  unfold settle_startup_lifecycle. destruct (startup_lease d); [|done].
  destruct (startup_lease_terminal_value d); [done|]. destruct (_ && _); [done|].
  destruct (registry_call _ d) as [d' st] eqn:E. apply cl_registry in E. rewrite <- E.
  destruct st; done.
Qed.
Lemma cl_save (d : D) : clients (fst (save_exit_metadata d)) = clients d.
Proof.
  unfold save_exit_metadata. destruct (registry_call _ d) as [d' st] eqn:E.
  apply cl_registry in E. rewrite <- E. done.
Qed.
Lemma cl_deadline (d : D) : clients (fst (settle_startup_deadline d)) = clients d.
Proof.
  unfold settle_startup_deadline. cbv zeta.
  match goal with |- context [settle_startup_lifecycle ?c ?b ?x] =>
    pose proof (cl_settle c b x) as E; assert (Ex : clients x = clients d)
      by (destruct (teardown_tree d); done) end.
  rewrite Ex in E. destruct (settle_startup_lifecycle _ _ _) as [d' [v|]]; cbn [fst] in *; [done|].
  rewrite <- E. unfold resume_frozen_tree. destruct (startup_lease_disarmed d'); [|done].
  destruct (teardown_frozen d'); done.
Qed.
Lemma cl_cas r (d : D) : clients (fst (compare_and_set_lifecycle r d)) = clients d.
Proof.
  unfold compare_and_set_lifecycle. destruct (negb _); [done|].
  destruct (read_metadata _ _); [|done]. destruct (negb _); [done|]. destruct (exited d).
  - pose proof (cl_settle CauseExit true d) as E.
    destruct (settle_startup_lifecycle _ _ _) as [d' v]. done.
  - destruct (lease_expired d).
    + pose proof (cl_deadline (tick d)) as E.
      destruct (settle_startup_deadline _) as [d' [v|]]; done.
    + destruct (registry_call _ (tick d)) as [d' st] eqn:E. apply cl_registry in E.
      assert (En : clients (note_lifecycle_cas r d') = clients d').
      { unfold note_lifecycle_cas. destruct (startup_lease d'); [|done].
        destruct (_ && _), (_ && _); done. }
      destruct st; cbn [fst]; rewrite ?En; exact E.
Qed.

(** A negotiation that changes the size tells everyone who is shown it. *)
Definition tell (rows cols : Z) (c : Client) : Client :=
  if gets_geometry c then client_send (encode_geometry rows cols) c else c.

Lemma cl_negotiate (d d' : D) resized :
  shape (core d) -> negotiate_size d = (d', resized) ->
  exited d' = exited d /\
  clients d' = if resized then bmap (tell (t_rows (term d')) (t_cols (term d'))) (clients d)
               else clients d.
Proof.
  intros Hs. unfold negotiate_size.
  assert (Hn : 0 <= fst (negotiated (clients d)) /\ 0 <= snd (negotiated (clients d))).
  { apply negotiated_nonneg. eapply Forall_impl; [apply shape_base, Hs|]. intros kv (? & ? & _). done. }
  destruct (negotiated (clients d)) as [rows cols]. cbn [fst snd] in Hn.
  destruct (_ || _) eqn:E0; [intros [= <- <-]; done|].
  destruct (negb _); [intros [= <- <-]; done|]. destruct (_ && _); [intros [= <- <-]; done|].
  cbv zeta. set (d1 := d <| term ::= t_resize cols rows |>).
  set (d2 := resize_pty rows cols (broadcast_geometry rows cols d1)).
  assert (Hg : t_rows (term d2) = rows /\ t_cols (term d2) = cols).
  { change (t_rows (term d2)) with (k_rows (core d2)). change (t_cols (term d2)) with (k_cols (core d2)).
    unfold d2. rewrite core_resize_pty, core_broadcast_geometry. bprop. cbn.
    rewrite resize_rows, resize_cols by lia. done. }
  pose proof (core_take_replies d2) as Ec. pose proof (cl_replies d2) as El.
  assert (Ee : exited (snd (take_replies d2)) = exited d)
    by (change (k_exited (core (snd (take_replies d2))) = exited d); rewrite Ec; unfold d2;
        rewrite core_resize_pty, core_broadcast_geometry; done).
  destruct (take_replies d2) as [replies d3]. cbn [snd] in *. intros [= <- <-].
  set (d4 := write_pty replies d3). assert (E4 : core d4 = core d2)
    by (unfold d4, write_pty; rewrite core_write_input; exact Ec).
  assert (Er : t_rows (term d4) = rows) by (rewrite <- (proj1 Hg); exact (f_equal k_rows E4)).
  assert (Eco : t_cols (term d4) = cols) by (rewrite <- (proj2 Hg); exact (f_equal k_cols E4)).
  assert (El4 : clients d4 = bmap (tell rows cols) (clients d)).
  { unfold d4, write_pty. rewrite cl_write, El. unfold d2. rewrite cl_resize_pty. done. }
  clearbody d4. split.
  - transitivity (exited d4); [done|]. rewrite <- Ee. pose proof (f_equal k_exited E4) as Ex.
    pose proof (f_equal k_exited Ec) as Ex2. cbn in Ex, Ex2. congruence.
  - change (clients (tick _)) with (clients d4). change (term (tick _)) with (term d4).
    rewrite Er, Eco. exact El4.
Qed.

(** ** Every handler sends well *)

Definition all_well (cs : BTree Client) : Prop := Forall (fun kv => well_sent (snd kv)) cs.
Definition told_at (id : Z) (cs : BTree Client) : Prop := forall c, bget id cs = Some c -> told c.

Lemma well_map f cs : (forall c, well_sent c -> well_sent (f c)) -> all_well cs -> all_well (bmap f cs).
Proof.
  intros Hf Hw. unfold all_well, bmap. apply Forall_fmap. eapply Forall_impl; [exact Hw|].
  intros kv. apply Hf.
Qed.

Lemma well_modify id f cs :
  (forall c, bget id cs = Some c -> well_sent c -> well_sent (f c)) -> sorted (bkeys cs) ->
  all_well cs -> all_well (bmodify id f cs).
Proof.
  intros Hf Hs Hw. unfold all_well, bmodify. apply Forall_fmap, Forall_forall. intros [k0 x] Hin.
  unfold all_well in Hw. rewrite Forall_forall in Hw. specialize (Hw _ Hin). cbn in *.
  destruct (k0 =? id) eqn:E; cbn; [|done]. bprop. subst. apply Hf; [|done]. apply In_bget; done.
Qed.

Lemma well_modify' id f cs :
  (forall c, well_sent c -> well_sent (f c)) -> all_well cs -> all_well (bmodify id f cs).
Proof. intros Hf Hw. unfold all_well. apply Forall_bmodify; done. Qed.

Lemma frame_of ty p : ty ∈ daemon_types -> daemon_frame (encode_packet ty p).
Proof. intros H. exists ty, p. done. Qed.

Ltac frame := apply frame_of, list_elem_of_In; cbn; tauto.

Lemma well_send_to id b (d : D) :
  daemon_frame b -> is_output b = false -> all_well (clients d) -> all_well (clients (send_to id b d)).
Proof. intros Hb Ho. apply well_modify'. intros c. apply well_send; done. Qed.

Lemma well_broadcast b (d : D) :
  daemon_frame b -> all_well (clients d) -> all_well (clients (broadcast b d)).
Proof.
  intros Hb. apply well_map. intros c. unfold well_sent. destruct (is_settling c) eqn:E.
  - rewrite E. done.
  - change (is_settling (client_send b c)) with (is_settling c). rewrite E. apply plain_send, Hb.
Qed.

Lemma well_tell r q c : well_sent c -> well_sent (tell r q c).
Proof. unfold tell. destruct (gets_geometry c); [apply well_send; [frame|done]|done]. Qed.

Lemma well_negotiate (d d' : D) resized :
  shape (core d) -> negotiate_size d = (d', resized) -> all_well (clients d) -> all_well (clients d').
Proof.
  intros Hs E. destruct (cl_negotiate d d' resized Hs E) as [_ ->]. destruct resized; [|done].
  apply well_map. intros c. apply well_tell.
Qed.

(** The client that caused a negotiation hears the size either way. *)
Lemma told_negotiated id (d d' : D) resized :
  shape (core d) -> negotiate_size d = (d', resized) -> all_well (clients d) ->
  (forall c, bget id (clients d) = Some c -> gets_geometry c = true) ->
  told_at id (clients (if resized then d'
                       else send_to id (encode_geometry (t_rows (term d')) (t_cols (term d'))) d')).
Proof.
  intros Hs E Hw Hg. destruct (cl_negotiate d d' resized Hs E) as [_ Hc].
  assert (G : forall r q c, bget id (clients d) = Some c -> told (client_send (encode_geometry r q) c)).
  { intros r q c Hb. apply told_geometry, well_plain. apply bget_In in Hb.
    unfold all_well in Hw. rewrite Forall_forall in Hw. exact (Hw _ Hb). }
  intros c'. destruct resized.
  - rewrite Hc, bget_map. destruct (bget id (clients d)) as [c|] eqn:Eb; [|done].
    intros [= <-]. unfold tell. rewrite (Hg c eq_refl). apply G. done.
  - cbn. rewrite bget_modify, Z.eqb_refl, Hc. destruct (bget id (clients d)) as [c|]; [|done].
    intros [= <-]. apply G. done.
Qed.

Lemma well_cut_client screen exit c : well_sent c -> well_sent (cut_client screen exit c).
Proof.
  intros Hw. apply well_plain in Hw. unfold cut_client.
  assert (H1 : plain (set_phase Live (client_send (encode_screen screen) c)))
    by exact (plain_send (encode_screen screen) c ltac:(frame) Hw).
  destruct exit; [|exact H1]. exact (plain_send (encode_exit z) _ ltac:(frame) H1).
Qed.

Lemma cut_now id (d : D) c dl kind :
  bget id (clients d) = Some c -> phase c = Settling dl (c_generation c) kind ->
  clients (cut id d) = bmodify id (cut_client (cut_screen kind (term d))
                         (if exited d then Some (exit_code d) else None)) (clients d).
Proof.
  intros Hb Hp. unfold cut. rewrite Hb, Hp, Z.eqb_refl. cbn [negb].
  destruct kind as [[]|]; [done| |done]. cbv zeta. destruct (exited _); [done|].
  destruct (last_resize _); [|done]. destruct (_ <? _); [|done]. rewrite cl_nudge. done.
Qed.

Lemma clients_cut id (d : D) :
  clients (cut id d) = clients d \/
  exists c dl kind, bget id (clients d) = Some c /\ phase c = Settling dl (c_generation c) kind /\
    clients (cut id d) = bmodify id (cut_client (cut_screen kind (term d))
                           (if exited d then Some (exit_code d) else None)) (clients d).
Proof.
  destruct (bget id (clients d)) as [c|] eqn:Eb; [|unfold cut; rewrite Eb; auto].
  destruct (phase c) as [|dl g kind] eqn:Ep; [unfold cut; rewrite Eb, Ep; auto|].
  destruct (decide (g = c_generation c)) as [->|E].
  - right. exists c, dl, kind. split; [done|]. split; [done|]. eapply cut_now; done.
  - left. unfold cut. rewrite Eb, Ep, (proj2 (Z.eqb_neq _ _) E). done.
Qed.

Lemma well_cut id (d : D) : all_well (clients d) -> all_well (clients (cut id d)).
Proof.
  intros Hw. destruct (clients_cut id d) as [->|(c & dl & kind & _ & _ & ->)]; [done|].
  apply well_modify'; [|done]. intros x. apply well_cut_client.
Qed.

Lemma well_service_cuts t (d : D) : all_well (clients d) -> all_well (clients (service_cuts t d)).
Proof.
  unfold service_cuts. generalize (fst <$> List.filter (is_due t) (clients d)). intros l.
  revert d. induction l as [|id l IH]; intros d Hw; [done|]. cbn [fold_left].
  apply IH, well_cut, Hw.
Qed.

Lemma well_schedule id g kind delay (d : D) :
  sorted (bkeys (clients d)) -> told_at id (clients d) -> all_well (clients d) ->
  all_well (clients (schedule_cut id g kind delay d)).
Proof.
  intros Hs Ht Hw. unfold schedule_cut. cbv zeta. set (dl := now d + _).
  set (d1 := (tick d) <| clients ::= bmodify id (set_phase (Settling dl g kind)) |>).
  assert (H1 : all_well (clients d1)).
  { apply well_modify; [|exact Hs|exact Hw]. intros c Hc _. exact (Ht c Hc). }
  destruct delay; [exact H1|apply well_cut, H1].
Qed.

Lemma sorted_core (d : D) : shape (core d) -> sorted (bkeys (clients d)).
Proof.
  intros Hs. pose proof (s_sorted _ Hs) as H.
  change (sorted (bkeys (bmap strip (clients d)))) in H. rewrite bkeys_map in H. exact H.
Qed.

Lemma sorted_step (d d' : D) : bkeys (clients d') = bkeys (clients d) ->
  sorted (bkeys (clients d)) -> sorted (bkeys (clients d')).
Proof. intros ->. done. Qed.

Lemma keys_negotiate (d d' : D) b :
  shape (core d) -> negotiate_size d = (d', b) -> bkeys (clients d') = bkeys (clients d).
Proof.
  intros Hs E. destruct (cl_negotiate d d' b Hs E) as [_ ->]. destruct b; [apply bkeys_map|done].
Qed.

Lemma attach_shape id rows cols at_ (d d1 : D) :
  inv (core d) -> core d1 = core d -> 0 <= rows -> 0 <= cols ->
  shape (core ((tick (d1 <| attach_counter ::= Z.succ |>))
     <| clients ::= bmodify id (attach_client rows cols (Z.succ (attach_counter d1)) at_) |>)).
Proof.
  intros Hi E Hr Hc. set (f := attach_client _ _ _ _). rewrite (core_modify_as id f f) by done.
  assert (Ek : core (tick (d1 <| attach_counter ::= Z.succ |>))
               = (core d) <| k_counter := Z.succ (k_counter (core d)) |>).
  { rewrite <- E. done. }
  rewrite Ek. apply shape_update; [apply inv_shape, Hi|lia|].
  intros c _ (_ & _ & Hb & _). pose proof (f_equal k_counter E) as En. cbn in En.
  unfold base_ok, f. cbn in *. rewrite En. split_and!; done || lia.
Qed.

Lemma well_attach id p (d : D) :
  Forall is_u8 p -> inv (core d) -> all_well (clients d) -> all_well (clients (on_attach id p d)).
Proof.
  intros Hp Hi Hw. unfold on_attach. destruct (_ <? 4); [done|]. destruct (negb _); [done|].
  destruct (decode_size_nonneg p Hp) as [Hr Hc]. destruct (decode_size p) as [rows cols].
  destruct (adopt_cell_size p d) as [d1 changed] eqn:E1.
  assert (El1 : clients d1 = clients d) by (rewrite <- (cl_adopt p d), E1; done).
  apply core_adopt' in E1. destruct (decode_attach_identity identity_of_json p) as [pid tty].
  cbv zeta. set (at_ := mkAttached pid tty _).
  pose proof (attach_shape id rows cols at_ d d1 Hi E1 Hr Hc) as Hs3.
  set (d3 := (tick (d1 <| attach_counter ::= Z.succ |>)) <| clients ::= _ |>) in Hs3.
  change ((tick (d1 <| attach_counter ::= Z.succ |>)) <| clients ::= _ |>) with d3.
  assert (Hn : 0 <= attach_counter d1).
  { pose proof (i_counter _ Hi) as H. rewrite <- E1 in H. exact H. }
  assert (Hw3 : all_well (clients d3)).
  { apply well_modify'; [|rewrite <- El1 in Hw; exact Hw]. intros c H. exact H. }
  assert (Hg3 : forall c, bget id (clients d3) = Some c -> gets_geometry c = true).
  { intros c. unfold d3. cbn. rewrite bget_modify, Z.eqb_refl.
    destruct (bget id (clients d1)); [|done]. intros [= <-]. unfold gets_geometry. cbn.
    rewrite (proj2 (Z.ltb_lt _ _)) by lia. done. }
  clearbody d3. set (g := generation_of id d3).
  destruct (negotiate_size d3) as [d4 resized] eqn:E4.
  pose proof (told_negotiated id d3 d4 resized Hs3 E4 Hw3 Hg3) as Ht.
  pose proof (well_negotiate d3 d4 resized Hs3 E4 Hw3) as Hw4.
  pose proof (sorted_step _ _ (keys_negotiate _ _ _ Hs3 E4) (sorted_core _ Hs3)) as Hso.
  set (d5 := if changed && negb resized then _ else d4).
  assert (E5 : clients d5 = clients d4 /\ (resized = false -> t_rows (term d5) = t_rows (term d4) /\
    t_cols (term d5) = t_cols (term d4))).
  { unfold d5. destruct (changed && negb resized); [|done]. split; [apply cl_resize_pty|].
    intros _. unfold resize_pty. destruct (t_cell_size _). done. }
  clearbody d5. destruct E5 as [El5 Et5].
  set (d6 := if resized then d5 else send_to id _ d5).
  assert (H6 : told_at id (clients d6) /\ all_well (clients d6) /\ sorted (bkeys (clients d6))).
  { unfold d6. destruct resized; [rewrite El5; done|]. pose proof (Et5 eq_refl) as E6. rewrite (proj1 E6), (proj2 E6).
    assert (Es : clients (send_to id (encode_geometry (t_rows (term d4)) (t_cols (term d4))) d5)
      = clients (send_to id (encode_geometry (t_rows (term d4)) (t_cols (term d4))) d4))
      by (cbn; rewrite El5; done).
    rewrite Es. split; [exact Ht|]. split; [apply well_send_to; [frame|done|done]|].
    eapply sorted_step; [apply bkeys_modify|exact Hso]. }
  clearbody d6. destruct H6 as (H6 & H7 & H8).
  apply well_schedule; change (clients (tick ?x)) with (clients x); rewrite cl_note;
    change (clients (tick ?x)) with (clients x); done.
Qed.

Lemma peek_shape id (d : D) :
  inv (core d) -> shape (core (d <| clients ::= bmodify id peek_client |>)).
Proof.
  intros Hi. rewrite (core_modify_as id peek_client peek_client) by done.
  apply shape_modify; [apply inv_shape, Hi|]. intros c _ (H1 & H2 & H3 & _).
  split; [exact H1|]. split; [exact H2|]. split; [exact H3|done].
Qed.

Lemma well_peek id p (d : D) :
  inv (core d) -> all_well (clients d) -> all_well (clients (on_peek id p d)).
Proof.
  intros Hi Hw. unfold on_peek. destruct (bget id (clients d)) as [c0|]; [|done]. cbv zeta.
  pose proof (peek_shape id d Hi) as Hs3. set (d3 := d <| clients ::= bmodify id peek_client |>) in *.
  assert (Hw3 : all_well (clients d3)) by (apply well_modify'; [|exact Hw]; intros c H; exact H).
  assert (Hg3 : forall c, bget id (clients d3) = Some c -> gets_geometry c = true).
  { intros c. unfold d3. cbn. rewrite bget_modify, Z.eqb_refl. destruct (bget id (clients d)); [|done].
    intros [= <-]. apply orb_true_r. }
  clearbody d3. set (g := generation_of id d3). destruct (negotiate_size d3) as [d4 resized] eqn:E4.
  pose proof (told_negotiated id d3 d4 resized Hs3 E4 Hw3 Hg3) as Ht.
  pose proof (well_negotiate d3 d4 resized Hs3 E4 Hw3) as Hw4.
  pose proof (sorted_step _ _ (keys_negotiate _ _ _ Hs3 E4) (sorted_core _ Hs3)) as Hso.
  set (d6 := if resized then d4 else send_to id _ d4) in *.
  assert (H6 : all_well (clients d6) /\ sorted (bkeys (clients d6))).
  { unfold d6. destruct resized; [done|]. split; [apply well_send_to; [frame|done|done]|].
    eapply sorted_step; [apply bkeys_modify|exact Hso]. }
  clearbody d6. destruct H6 as (H7 & H8). set (d7 := if constrains_size c0 then _ else d6).
  assert (E7 : clients d7 = clients d6) by (unfold d7; destruct (constrains_size c0); [apply cl_note|done]).
  destruct (decode_peek p). apply well_schedule; rewrite E7; done.
Qed.

Lemma well_resize id p (d : D) :
  Forall is_u8 p -> inv (core d) -> all_well (clients d) -> all_well (clients (on_resize id p d)).
Proof.
  intros Hp Hi Hw. unfold on_resize. destruct (bget id (clients d)) as [c0|] eqn:Eb0; [|done].
  destruct (_ || _) eqn:Eg; [done|]. apply orb_false_elim in Eg as [Eg _].
  apply orb_false_elim in Eg as [Er Es]. apply negb_false_iff, bool_decide_eq_true in Er.
  destruct (decode_size_nonneg p Hp) as [Hr Hc]. destruct (decode_size p) as [rows cols]. cbv zeta.
  set (f := resize_client rows cols _). set (d3 := (d <| attach_counter ::= Z.succ |>) <| clients ::= _ |>).
  assert (Hs3 : shape (core d3)).
  { unfold d3. rewrite (core_modify_as id f f) by done.
    change (core (d <| attach_counter ::= Z.succ |>)) with ((core d) <| k_counter := Z.succ (k_counter (core d)) |>).
    apply shape_update; [apply inv_shape, Hi|lia|]. intros c Hc1 (_ & _ & Hb & Hrole).
    cbn in Hc1. rewrite bget_strip, Eb0 in Hc1. injection Hc1 as <-.
    cbn in Hrole, Hb. rewrite Er in Hrole. unfold base_ok, f. cbn. rewrite Er.
    destruct Hrole. cbn in *. split_and!; done || lia. }
  assert (Hw3 : all_well (clients d3)) by (apply well_modify'; [|exact Hw]; intros c H; exact H).
  clearbody d3. destruct (adopt_cell_size p d3) as [d4 changed] eqn:E1.
  assert (El1 : clients d4 = clients d3) by (rewrite <- (cl_adopt p d3), E1; done).
  apply core_adopt' in E1. destruct (negotiate_size d4) as [d5 resized] eqn:E4.
  rewrite cl_note. assert (H5 : all_well (clients d5)).
  { eapply well_negotiate; [|exact E4|rewrite El1; done]. rewrite E1. done. }
  destruct (changed && negb resized); [rewrite cl_resize_pty|]; done.
Qed.

Lemma remove_shape id (d : D) : inv (core d) -> shape (core (d <| clients ::= bremove id |>)).
Proof.
  intros Hi. replace (core (d <| clients ::= bremove id |>)) with ((core d) <| k_clients ::= bremove id |>).
  - apply shape_remove, inv_shape, Hi.
  - exact (f_equal (fun cs => mkCore _ _ cs _ _ _ _ _ _ _) (eq_sym (bmap_remove id (clients d)))).
Qed.

Lemma well_closed id (d : D) :
  inv (core d) -> all_well (clients d) -> all_well (clients (on_closed id d)).
Proof.
  intros Hi Hw. unfold on_closed. destruct (bget id (clients d)) as [c0|]; [|done]. cbv zeta.
  pose proof (remove_shape id d Hi) as Hs3. set (d3 := d <| clients ::= bremove id |>) in *.
  assert (Hw3 : all_well (clients d3)) by (apply Forall_remove; exact Hw). clearbody d3.
  destruct (negotiate_size d3) as [d4 resized] eqn:E4.
  pose proof (well_negotiate d3 d4 resized Hs3 E4 Hw3) as Hw4.
  destruct (constrains_size c0); [rewrite cl_note|]; done.
Qed.

Lemma well_packet id packet input (d : D) :
  Forall is_u8 (payload packet) -> inv (core d) -> all_well (clients d) ->
  all_well (clients (on_packet id packet input d)).
Proof.
  intros Hp Hi Hw. unfold on_packet.
  assert (Hr : forall x, all_well (clients x) -> all_well (clients (release_hold input x)))
    by (intros x; rewrite cl_release; done).
  destruct (type_ packet); try (apply Hr); try exact Hw.
  - unfold on_data. destruct (bget _ _); [|apply Hr, Hw].
    destruct (_ && _); [rewrite cl_write; done|apply Hr, Hw].
  - apply well_attach; done.
  - unfold on_detach. set (d1 := d <| clients ::= _ |>). apply well_closed.
    + unfold d1. rewrite core_modify by done. exact Hi.
    + apply well_modify'; [|exact Hw]. intros c. apply well_step. apply step_out. done.
  - apply well_resize; done.
  - apply well_peek; done.
  - unfold on_status. apply well_send_to; [frame|done|exact Hw].
  - unfold on_accepted_socket_ownership. apply well_send_to; [frame|done|exact Hw].
  - unfold on_lifecycle_cas.
    assert (H : all_well (clients (fst (match cas_of_json (payload packet) with
      | Some request => if validate_lifecycle request then compare_and_set_lifecycle request d
                        else (d, InvalidRequest (str "invalid request payload"))
      | None => (d, InvalidRequest (str "invalid request payload"))
      end)))).
    { destruct (cas_of_json _); [|exact Hw]. destruct (validate_lifecycle _); [|exact Hw].
      rewrite cl_cas. exact Hw. }
    destruct (match cas_of_json _ with Some _ => _ | None => _ end) as [d1 res].
    apply well_send_to; [frame|done|exact H].
  - destruct (payload packet); [|done]. destruct (bget id (clients d)); [|done].
    destruct (bool_decide _); [|done]. destruct (t_reset_input_modes (term d)).
    apply well_broadcast; [frame|exact Hw].
  - unfold on_history. destruct (negb _); [done|].
    match goal with |- context [let '(r, d) := ?x in _] => assert (E : clients (snd x) = clients d) end.
    { destruct (exited d); [done|]. destruct (_ <? _); [done|].
      destruct (history_of_json _) as [r|]; [|done]. destruct (t_history _ _ _). done. }
    destruct (if exited d then _ else _) as [r d1]. cbn [snd] in E.
    destruct (history_json r); [|rewrite E; done].
    apply well_send_to; [frame|done|rewrite E; done].
Qed.

Lemma cl_stamp (d : D) : clients (stamp_output_activity d) = clients d.
Proof. unfold stamp_output_activity. destruct (activity_persist_at _); done. Qed.

(** Child output reaches the clients that are not settling, as one DATA packet. *)
Definition deliver (cleaned : bytes) (c : Client) : Client :=
  match cleaned with
  | [] => c
  | _ => if is_settling c then c else client_send (encode_data cleaned) c
  end.

Lemma cl_pty_data b (d : D) :
  clients (on_pty_data b d)
  = bmap (deliver (fst (t_write b (t_set_client_available (answering_client_available (clients d))
                                     (term d))))) (clients d).
Proof.
  unfold on_pty_data. cbv zeta. rewrite cl_stamp.
  assert (Et : term (stamp_output_activity d) = term d)
    by (unfold stamp_output_activity; destruct (activity_persist_at _); done).
  set (d2 := (stamp_output_activity d) <| term ::= _ |>).
  assert (E2 : term d2 = t_set_client_available (answering_client_available (clients d)) (term d))
    by (rewrite <- Et; done).
  assert (El2 : clients d2 = clients d) by (rewrite <- (cl_stamp d); done). clearbody d2.
  rewrite <- E2. destruct (t_write b (term d2)) as [cleaned t]. cbn [fst].
  set (d3 := d2 <| term := t |>). assert (El3 : clients d3 = clients d) by exact El2. clearbody d3.
  pose proof (cl_replies d3) as E6. destruct (take_replies d3) as [replies d4]. cbn [snd] in E6.
  assert (E7 : clients (forward_terminal_events (write_pty replies d4)) = clients d).
  { rewrite cl_events. unfold write_pty. rewrite cl_write. congruence. }
  destruct cleaned as [|x l].
  - rewrite E7. unfold bmap. rewrite <- (list_fmap_id (clients d)) at 1.
    apply list_fmap_ext. intros i [] _. done.
  - unfold broadcast. cbn. rewrite E7. done.
Qed.

Lemma well_pty_data b (d : D) : all_well (clients d) -> all_well (clients (on_pty_data b d)).
Proof.
  rewrite cl_pty_data. apply well_map. intros c. unfold deliver. destruct (fst _); [done|].
  unfold well_sent. destruct (is_settling c) eqn:E; [rewrite E; done|].
  change (is_settling (client_send ?b c)) with (is_settling c). rewrite E. apply plain_send. frame.
Qed.

Lemma cl_finalize (d : D) :
  exists code (d1 : D), clients d1 = clients d /\ clients (finalize_exit d) = clients (broadcast (encode_exit code) d1).
Proof.
  unfold finalize_exit. cbv zeta. set (s := match child_status d with Some s => s | None => _ end).
  pose proof (cl_settle CauseExit true d) as E0.
  destruct (settle_startup_lifecycle CauseExit true d) as [d0 v]. cbn [fst] in E0.
  set (d1 := forward_terminal_events _). exists (exit_code_of s), d1.
  split; [unfold d1; rewrite cl_events; exact E0|]. clearbody d1.
  set (d2 := (broadcast (encode_exit (exit_code_of s)) d1) <| log ::= _ |>).
  assert (E2 : clients d2 = clients (broadcast (encode_exit (exit_code_of s)) d1)) by done. clearbody d2.
  pose proof (cl_save d2) as E4. destruct (save_exit_metadata d2) as [d4 st]. cbn [fst] in E4.
  set (d5 := match st with Mutate.Busy | Mutate.Stale => _ | _ => d4 end).
  assert (E5 : clients d5 = clients d4) by (unfold d5; destruct st; done). clearbody d5.
  assert (E6 : clients d5 = clients (broadcast (encode_exit (exit_code_of s)) d1)) by congruence.
  destruct (shutdown_code d5); exact E6.
Qed.

Lemma well_finalize (d : D) : all_well (clients d) -> all_well (clients (finalize_exit d)).
Proof.
  intros Hw. destruct (cl_finalize d) as (code & d1 & E & ->). apply well_broadcast; [frame|].
  rewrite E. done.
Qed.

Lemma well_child s (d : D) : all_well (clients d) -> all_well (clients (on_child_exited s d)).
Proof.
  intros Hw. unfold on_child_exited.
  set (h := match operation d with Some o => _ | None => (d, false) end).
  assert (E : clients (fst h) = clients d).
  { unfold h. destruct (operation d) as [o|]; [|done]. destruct (holds s o). done. }
  destruct h as [d1 held]. cbn [fst] in E. rewrite <- E in Hw. destruct held; [done|].
  destruct (child_status d1); [done|]. cbv zeta.
  destruct (pty_eof _); [|exact Hw]. destruct (exited _); [exact Hw|]. apply well_finalize, Hw.
Qed.

Lemma well_handle msg (d : D) :
  match msg with MPacket _ p _ => Forall is_u8 (payload p) | _ => True end ->
  inv (core d) -> all_well (clients d) -> all_well (clients (handle msg d)).
Proof.
  intros Hm Hi Hw. destruct msg as [b| |s|id|id p input|id| | |c]; cbn [handle].
  - apply well_pty_data, Hw.
  - cbv zeta. destruct (_ && _); [apply well_finalize|]; exact Hw.
  - apply well_child, Hw.
  - cbn. apply Forall_insert; [|exact Hw]. exists []. split; [apply trace_start|]. auto.
  - apply well_packet; done.
  - apply well_closed; done.
  - unfold on_external_kill. destruct (operation d) as [o|].
    + destruct (intercepts_kill o) as [o' []]; [exact Hw|]. destruct (shutdown_code _); exact Hw.
    + destruct (shutdown_code d); exact Hw.
  - destruct (operation d) as [o|]; [|exact Hw]. destruct (deferred_exit o); [|exact Hw].
    apply well_child, Hw.
  - cbv zeta. unfold set_shutdown. destruct (operation d); destruct (shutdown_code _); exact Hw.
Qed.

Lemma well_timers t (d : D) : all_well (clients d) -> all_well (clients (service_timers t d)).
Proof.
  intros Hw. unfold service_timers.
  assert (H1 : all_well (clients (service_temp_sweep t (service_cuts t d)))).
  { unfold service_temp_sweep. destruct (_ <=? _); apply well_service_cuts, Hw. }
  set (d1 := service_temp_sweep _ _) in *. clearbody d1.
  assert (H2 : all_well (clients (service_activity t d1))).
  { unfold service_activity, persist_output_activity. destruct (is_at _ _); [|done]. cbv zeta.
    destruct (exited _); [exact H1|]. destruct (last_output_at_ms _); [|exact H1].
    destruct (registry_call _ _) as [d2 st] eqn:E. apply cl_registry in E.
    assert (all_well (clients d2)) by (rewrite E; exact H1). destruct st; done. }
  set (d2 := service_activity _ _) in *. clearbody d2.
  assert (H3 : all_well (clients (service_client_meta t d2))).
  { unfold service_client_meta. destruct (is_at _ _); [rewrite cl_write_generation|]; done. }
  set (d3 := service_client_meta _ _) in *. clearbody d3.
  assert (H4 : all_well (clients (service_exit_drain t d3))).
  { unfold service_exit_drain. destruct (is_at _ _); [|done]. cbv zeta.
    destruct (negb _ && _); [apply well_finalize|]; exact H3. }
  set (d4 := service_exit_drain _ _) in *. clearbody d4.
  assert (H5 : all_well (clients (service_exit_meta t d4))).
  { unfold service_exit_meta. destruct (exit_meta_retry d4) as [[next deadline]|]; [|done].
    destruct (_ <=? _); [|done]. pose proof (cl_save d4) as E. destruct (save_exit_metadata d4) as [d5 st].
    cbn [fst] in E. assert (all_well (clients d5)) by (rewrite E; exact H4).
    destruct st; try done; destruct (_ <? _); done. }
  set (d5 := service_exit_meta _ _) in *. clearbody d5.
  assert (H6 : all_well (clients (service_lease t d5))).
  { unfold service_lease. destruct (negb _); [done|].
    destruct (startup_deadline_pending_shutdown d5); [unfold set_shutdown; destruct (shutdown_code _); exact H5|].
    destruct (startup_lease_disarmed d5); [exact H5|]. destruct (mbind _ _); [|exact H5].
    cbv zeta. destruct (_ =? 0); [|exact H5]. pose proof (cl_deadline (tick d5)) as E.
    destruct (settle_startup_deadline _) as [d6 [v|]]; cbn [fst] in E;
      [change (all_well (clients d6))|change (all_well (clients d6))]; rewrite E; exact H5. }
  unfold service_exit_shutdown. destruct (is_at _ _); [|exact H6].
  unfold set_shutdown. destruct (shutdown_code _); exact H6.
Qed.

Lemma well_daemon_step (d d' : D) :
  daemon_step d d' -> inv (core d) -> all_well (clients d) -> all_well (clients d').
Proof.
  destruct 1 as [d msg _ Hm|d id f Hf|d w|d o Ho]; intros Hi Hw; try exact Hw.
  - unfold turn. cbv zeta. apply well_timers. destruct msg as [m|]; [|exact Hw].
    change (all_well (clients (handle m d))). apply well_handle; [|done..]. destruct m; done.
  - apply well_modify'; [|exact Hw]. intros c. apply well_step, Hf.
Qed.

Lemma served_well (d0 d : D) : served d0 d -> inv (core d0) -> all_well (clients d0) -> all_well (clients d).
Proof.
  intros Hs Hi Hw. induction Hs as [|d d' Hs IH Hst]; [done|].
  eapply well_daemon_step; [exact Hst| |exact IH]. eapply served_inv; done.
Qed.

(** ** Due cuts *)

Lemma cut_untouched id id' (d : D) : id <> id' -> bget id' (clients (cut id d)) = bget id' (clients d).
Proof.
  intros Hne. destruct (clients_cut id d) as [->|(c & dl & kind & _ & _ & ->)]; [done|].
  rewrite bget_modify, (proj2 (Z.eqb_neq _ _)); done.
Qed.

Lemma exited_cut id (d : D) : exited (cut id d) = exited d /\ exit_code (cut id d) = exit_code d.
Proof.
  unfold cut. destruct (bget id (clients d)) as [c|]; [|done]. destruct (phase c) as [|dl g kind]; [done|].
  destruct (negb _); [done|]. cbv zeta. set (d1 := d <| clients ::= _ |>).
  assert (E : exited d1 = exited d /\ exit_code d1 = exit_code d) by done. clearbody d1.
  assert (En : forall x : D, exited (nudge_redraw x) = exited x /\ exit_code (nudge_redraw x) = exit_code x).
  { intros x. unfold nudge_redraw. destruct (_ <? _); [done|]. unfold resize_pty.
    destruct (t_cell_size _). cbn. destruct (t_cell_size _). done. }
  assert (Et : exited (tick d1) = exited d /\ exit_code (tick d1) = exit_code d) by exact E.
  destruct kind as [[]|]; [exact E| |exact E]. case_eq (exited d1); intros Ex; [exact E|].
  destruct (last_resize d1); [|exact E]. destruct (_ <? _); [|exact Et].
  destruct (En (tick d1)) as [-> ->]. exact Et.
Qed.

Lemma cuts_fold l : forall (d : D), NoDup l ->
  let d' := fold_left (fun d id => cut id d) l d in
  forall id c, bget id (clients d) = Some c -> phase_ok c ->
  (id ∉ l -> bget id (clients d') = Some c) /\
  (id ∈ l -> match phase c with
             | Settling _ _ kind => exists t, bget id (clients d') =
                 Some (cut_client (cut_screen kind t) (if exited d then Some (exit_code d) else None) c)
             | Live => True end).
Proof.
  induction l as [|x l IH]; intros d Hnd d' id c Hb Hp.
  - split; [done|]. intros Hin. apply not_elem_of_nil in Hin. done.
  - apply NoDup_cons in Hnd as [Hx Hnd]. cbn [fold_left] in d'. destruct (exited_cut x d) as [Ee Ec].
    destruct (decide (x = id)) as [->|Hne].
    + split; [intros H; exfalso; apply H; left|]. intros _. destruct (phase c) as [|dl g kind] eqn:Ep; [done|].
      unfold phase_ok in Hp. rewrite Ep in Hp. destruct Hp as [-> _].
      set (exit := if exited d then Some (exit_code d) else None).
      assert (Hb1 : bget id (clients (cut id d)) = Some (cut_client (cut_screen kind (term d)) exit c)).
      { rewrite (cut_now id d c dl kind Hb Ep), bget_modify, Z.eqb_refl, Hb. done. }
      exists (term d). apply (IH (cut id d) Hnd id _ Hb1); [|exact Hx]. subst exit.
      unfold cut_client. destruct (exited d); done.
    + rewrite <- (cut_untouched x id d) in Hb by done.
      destruct (IH (cut x d) Hnd id c Hb Hp) as [H1 H2]. rewrite Ee, Ec in H2. split.
      * intros Hni. apply H1. intros H. apply Hni. right. exact H.
      * intros Hin. apply elem_of_cons in Hin as [->|Hin]; [done|]. apply H2, Hin.
Qed.

Lemma due_nodup t (cs : BTree Client) :
  sorted (bkeys cs) -> NoDup (fst <$> List.filter (is_due t) cs).
Proof.
  unfold bkeys. induction cs as [|[k c] cs IH]; intros Hs; [constructor|].
  cbn [fmap list_fmap fst sorted] in Hs. destruct Hs as [Hlt Hs]. cbn [List.filter].
  destruct (is_due t (k, c)); [|apply IH, Hs]. cbn [fmap list_fmap fst]. constructor; [|apply IH, Hs].
  intros Hin. apply list_elem_of_fmap in Hin as ([k' c'] & -> & Hin).
  apply list_elem_of_In, filter_In in Hin as [Hin _]. rewrite Forall_forall in Hlt.
  assert (k' < k'); [|lia]. apply Hlt, list_elem_of_fmap. exists (k', c'). split; [done|].
  apply list_elem_of_In. exact Hin.
Qed.

Lemma due_iff t id (cs : BTree Client) c :
  sorted (bkeys cs) -> bget id cs = Some c ->
  (id ∈ fst <$> List.filter (is_due t) cs) <-> is_due t (id, c) = true.
Proof.
  intros Hs Hb. rewrite list_elem_of_fmap. split.
  - intros ([k' c'] & -> & Hin). apply list_elem_of_In, filter_In in Hin as [Hin Hd].
    apply list_elem_of_In, (In_bget _ _ _ Hs) in Hin. cbn [fst] in Hb. rewrite Hb in Hin.
    injection Hin as ->. exact Hd.
  - intros Hd. exists (id, c). split; [done|]. apply list_elem_of_In, filter_In. split; [|exact Hd].
    apply list_elem_of_In, bget_In, Hb.
Qed.

(** ** The reply to an ATTACH *)

Lemma knote_size b k : k_rows (knote b k) = k_rows k /\ k_cols (knote b k) = k_cols k.
Proof. unfold knote. destruct (_ || _); done. Qed.

Lemma kexit_same b k :
  k_exited (knote b (knegotiate k)) = k_exited k /\
  k_exit_code (knote b (knegotiate k)) = k_exit_code k.
Proof.
  assert (E : k_exited (knegotiate k) = k_exited k /\ k_exit_code (knegotiate k) = k_exit_code k)
    by (unfold knegotiate; destruct (target _) as [[]|]; done).
  unfold knote. destruct (_ || _); exact E.
Qed.

Lemma schedule_client id g kind delay (d : D) c :
  bget id (clients d) = Some c -> c_generation c = g ->
  bget id (clients (schedule_cut id g kind delay d))
  = Some (match delay with
          | Some x => set_phase (Settling (now d + x) g kind) c
          | None => cut_client (cut_screen kind (term d))
                      (if exited d then Some (exit_code d) else None) c
          end).
Proof.
  intros Hb Hg. unfold schedule_cut. cbv zeta. set (dl := now d + _).
  set (d1 := (tick d) <| clients ::= bmodify id (set_phase (Settling dl g kind)) |>).
  assert (Hb1 : bget id (clients d1) = Some (set_phase (Settling dl g kind) c)).
  { unfold d1. cbn. rewrite bget_modify, Z.eqb_refl, Hb. done. }
  destruct delay; [exact Hb1|].
  rewrite (cut_now id d1 _ dl kind Hb1) by (cbn; rewrite Hg; done).
  rewrite bget_modify, Z.eqb_refl, Hb1. done.
Qed.

Lemma schedule_others id id' g kind delay (d : D) :
  id <> id' -> bget id' (clients (schedule_cut id g kind delay d)) = bget id' (clients d).
Proof.
  intros Hne. unfold schedule_cut. cbv zeta. set (d1 := (tick d) <| clients ::= _ |>).
  assert (E : bget id' (clients d1) = bget id' (clients d)).
  { unfold d1. cbn. rewrite bget_modify, (proj2 (Z.eqb_neq id' id)) by congruence. done. }
  destruct delay; [exact E|]. rewrite cut_untouched; done.
Qed.

Lemma core_rows (d d' : D) : core d' = core d -> t_rows (term d') = t_rows (term d) /\
  t_cols (term d') = t_cols (term d) /\ exited d' = exited d /\ exit_code d' = exit_code d.
Proof.
  intros E. pose proof (f_equal k_rows E). pose proof (f_equal k_cols E).
  pose proof (f_equal k_exited E). pose proof (f_equal k_exit_code E). done.
Qed.

Lemma schedule_size id g kind delay (d : D) :
  0 < t_rows (term d) -> (forall c, bget id (clients d) = Some c -> c_generation c = g) ->
  t_rows (term (schedule_cut id g kind delay d)) = t_rows (term d) /\
  t_cols (term (schedule_cut id g kind delay d)) = t_cols (term d).
Proof.
  intros Hr Hg. destruct (core_schedule id g kind delay d Hr Hg) as (p & E & _).
  pose proof (f_equal k_rows E). pose proof (f_equal k_cols E). done.
Qed.

(** What an attaching client is left with, its screen taken of [t]. *)
Definition attach_reply (rows cols : Z) (exit : option Z) (t : T) (c c' : Client) : Prop :=
  let told := send (encode_geometry rows cols) (conn c) in
  match phase c' with
  | Settling _ g (CutAttach _) => exit = None /\ g = c_generation c' /\ conn c' = told
  | Settling _ _ _ => False
  | Live =>
      let shown := send (encode_screen (t_serialize ATTACH t)) told in
      conn c' = match exit with Some code => send (encode_exit code) shown | None => shown end
  end.

Definition exit_of (d : D) : option Z := if exited d then Some (exit_code d) else None.

Lemma settle_delay_exited resized t (d : D) : exited d = true -> settle_delay resized t d = None.
Proof. unfold settle_delay. intros ->. done. Qed.

Lemma scheduled_reply id g m delay (d : D) c0 c k :
  bget id (clients d) = Some c -> c_generation c = g -> 0 < t_rows (term d) ->
  conn c = send (encode_geometry (t_rows (term d)) (t_cols (term d))) (conn c0) ->
  (exited d = true -> delay = None) -> k = schedule_cut id g (CutAttach m) delay d ->
  exists t c', bget id (clients k) = Some c' /\ role c' = role c /\ c_rows c' = c_rows c /\
    c_cols c' = c_cols c /\ c_generation c' = c_generation c /\
    attach_reply (t_rows (term k)) (t_cols (term k)) (exit_of d) t c0 c'.
Proof.
  intros Hb Hg Hr Hc He ->.
  pose proof (schedule_size id g (CutAttach m) delay d Hr) as Hsz.
  destruct Hsz as [Er Ec]; [intros x Hx; rewrite Hb in Hx; injection Hx as <-; done|].
  exists (term d). eexists. split; [apply schedule_client; done|]. rewrite Er, Ec.
  destruct delay as [x|].
  - split_and!; try done. unfold attach_reply, exit_of. cbn [phase set_phase conn].
    destruct (exited d); [specialize (He eq_refl); done|]. split_and!; done.
  - unfold attach_reply, exit_of. rewrite <- Hc. cbv zeta.
    destruct (exited d); (split; [done|]; split; [done|]; split; [done|]; split; done).
Qed.

(** Everything [on_attach] does before it schedules the cut. *)
Lemma attach_before id p (d : D) c :
  Forall is_u8 p -> inv (core d) -> 4 <= blen p -> bget id (clients d) = Some c ->
  exists m delay (d7 : D) c7 resized,
    on_attach id p d = schedule_cut id (c_generation c + 1) (CutAttach m) delay d7 /\
    0 < t_rows (term d7) /\ exited d7 = exited d /\ exit_code d7 = exit_code d /\
    (exited d7 = true -> delay = None) /\
    bget id (clients d7) = Some c7 /\ role c7 = Writable /\ (c_rows c7, c_cols c7) = decode_size p /\
    c_generation c7 = c_generation c + 1 /\
    conn c7 = send (encode_geometry (t_rows (term d7)) (t_cols (term d7))) (conn c) /\
    forall id', id' <> id -> bget id' (clients d7)
      = (if resized : bool then tell (t_rows (term d7)) (t_cols (term d7)) <$> bget id' (clients d)
         else bget id' (clients d)).
Proof.
  intros Hp Hi Hl Hb. unfold on_attach. rewrite (proj2 (Z.ltb_ge _ _) Hl). unfold bmem. rewrite Hb.
  cbn [negb]. destruct (decode_size_nonneg p Hp) as [Hr Hc]. destruct (decode_size p) as [rows cols].
  destruct (adopt_cell_size p d) as [d1 changed] eqn:E1.
  assert (El1 : clients d1 = clients d) by (rewrite <- (cl_adopt p d), E1; done).
  apply core_adopt' in E1. destruct (decode_attach_identity identity_of_json p) as [pid tty].
  cbv zeta. set (m := (_ =? _) && _). set (at_ := mkAttached pid tty _).
  pose proof (attach_shape id rows cols at_ d d1 Hi E1 Hr Hc) as Hs3.
  set (d3 := (tick (d1 <| attach_counter ::= Z.succ |>)) <| clients ::= _ |>) in Hs3.
  change ((tick (d1 <| attach_counter ::= Z.succ |>)) <| clients ::= _ |>) with d3.
  assert (Hn : 0 <= attach_counter d1).
  { pose proof (i_counter _ Hi) as H. rewrite <- E1 in H. exact H. }
  set (c3 := attach_client rows cols (Z.succ (attach_counter d1)) at_ c).
  assert (Hb3 : bget id (clients d3) = Some c3).
  { unfold d3. cbn. rewrite bget_modify, Z.eqb_refl, El1, Hb. done. }
  assert (Ho3 : forall id', id' <> id -> bget id' (clients d3) = bget id' (clients d)).
  { intros id' Hne. unfold d3. cbn. rewrite bget_modify, (proj2 (Z.eqb_neq id' id)), El1; done. }
  assert (Hx3 : exited d3 = exited d /\ exit_code d3 = exit_code d) by (apply (core_rows _ _ E1)).
  assert (Hg3 : generation_of id d3 = c_generation c + 1) by (unfold generation_of; rewrite Hb3; done).
  assert (Hgg : gets_geometry c3 = true).
  { unfold gets_geometry. cbn. rewrite (proj2 (Z.ltb_lt _ _)) by lia. done. }
  rewrite Hg3. clearbody d3. destruct (negotiate_size d3) as [d4 resized] eqn:E4.
  destruct (cl_negotiate d3 d4 resized Hs3 E4) as [_ Hcl].
  pose proof (core_negotiate' d3 d4 resized _ eq_refl Hs3 E4) as Ec4.
  set (d5 := if changed && negb resized then _ else d4).
  assert (E5 : clients d5 = clients d4 /\ core d5 = core d4).
  { unfold d5. destruct (changed && negb resized); [|done].
    split; [apply cl_resize_pty|apply core_resize_pty]. }
  clearbody d5. destruct E5 as [El5 Ec5]. destruct (core_rows _ _ Ec5) as (Er5 & Ecl5 & _).
  rewrite Er5, Ecl5. set (d6 := if resized then d5 else send_to id _ d5).
  assert (Ec6 : core d6 = knegotiate (core d3))
    by (unfold d6; destruct resized; rewrite ?core_send_to; congruence).
  assert (H6 : exists c6, bget id (clients d6) = Some c6 /\ role c6 = Writable /\
    (c_rows c6, c_cols c6) = (rows, cols) /\ c_generation c6 = c_generation c + 1 /\
    conn c6 = send (encode_geometry (t_rows (term d4)) (t_cols (term d4))) (conn c)).
  { exists (client_send (encode_geometry (t_rows (term d4)) (t_cols (term d4))) c3).
    split; [|done]. unfold d6. destruct resized.
    - rewrite El5, Hcl, bget_map, Hb3. cbn [fmap option_fmap option_map]. unfold tell. rewrite Hgg. done.
    - cbn. rewrite bget_modify, Z.eqb_refl, El5, Hcl, Hb3. done. }
  assert (Ho6 : forall id', id' <> id -> bget id' (clients d6)
      = (if resized then tell (t_rows (term d4)) (t_cols (term d4)) <$> bget id' (clients d)
         else bget id' (clients d))).
  { intros id' Hne. unfold d6. destruct resized.
    - rewrite El5, Hcl, bget_map, Ho3 by done. done.
    - cbn. rewrite bget_modify, (proj2 (Z.eqb_neq id' id)), El5, Hcl, Ho3; done. }
  assert (Hz : t_rows (term d6) = t_rows (term d4) /\ t_cols (term d6) = t_cols (term d4)).
  { destruct (core_rows d4 d6) as (? & ? & _); [congruence|done]. }
  clearbody d6. destruct H6 as (c6 & Hb6 & Hro & Hsz & Hge & Hco).
  set (d7 := note_client_change _ (tick d6)).
  assert (E7 : core d7 = knote true (knegotiate (core d3)))
    by (unfold d7; rewrite core_note, core_tick, Ec6; done).
  assert (El7 : clients d7 = clients d6) by (unfold d7; rewrite cl_note; done).
  clearbody d7.
  destruct (shape_negotiate _ Hs3) as (Hs4 & _). destruct (shape_note true _ Hs4) as (Hs7 & _).
  destruct (knote_size true (knegotiate (core d3))) as [Hkr Hkc]. rewrite <- E7 in Hs7, Hkr, Hkc.
  rewrite <- Ec6 in Hkr, Hkc. cbn in Hkr, Hkc. destruct Hz as [Hz1 Hz2]. rewrite Hz1 in Hkr. rewrite Hz2 in Hkc.
  assert (Hx7 : exited d7 = exited d /\ exit_code d7 = exit_code d).
  { pose proof (f_equal k_exited E7) as H1. pose proof (f_equal k_exit_code E7) as H2.
    rewrite (proj1 (kexit_same true (core d3))) in H1. rewrite (proj2 (kexit_same true (core d3))) in H2.
    rewrite <- (proj1 Hx3), <- (proj2 Hx3). split; [exact H1|exact H2]. }
  exists m, (settle_delay resized (now d7) d7), (tick d7), c6, resized.
  split; [reflexivity|]. split; [exact (pos_core d7 Hs7)|]. split; [exact (proj1 Hx7)|].
  split; [exact (proj2 Hx7)|]. split; [exact (settle_delay_exited resized (now d7) d7)|].
  change (clients (tick d7)) with (clients d7). change (term (tick d7)) with (term d7).
  rewrite El7, Hkr, Hkc. auto 10.
Qed.
End Handlers.

(** ** The theorems *)

Section Theorems.
Context {T : Type} {TI : Terminal T} {TL : TerminalLaws T} {EI : Env} {AI : Alloc}.

(** C11: every connection of a served session carries whole daemon packets, and a
    client that is settling has been told the size and since then sent nothing of
    the child's: no DATA, EXIT or SCREEN overtakes the SCREEN it waits for.  (A
    client rejected as too slow is sent nothing more.) *)
Theorem session_wire nm gen (t : T) ms lease op w d id c :
  0 < t_rows t -> 0 < t_cols t -> served (assemble nm gen t ms lease op w) d ->
  bget id (clients d) = Some c ->
  exists sent, conn_trace sent (conn c) /\ Forall daemon_frame sent /\
    (is_settling c = true -> rejected (conn c) = true \/ geometry_last sent).
Proof.
  intros Hr Hc Hd Hb. pose proof (assemble_inv nm gen t ms lease op w Hr Hc) as Hi.
  assert (Hw : all_well (clients d)) by (eapply served_well; [exact Hd|exact Hi|constructor]).
  unfold all_well in Hw. rewrite Forall_forall in Hw. apply bget_In, Hw in Hb. cbn in Hb.
  unfold well_sent in Hb. destruct (is_settling c).
  - destruct Hb as (sent & H1 & H2 & H3). exists sent. auto.
  - destruct Hb as (sent & H1 & H2 & _). exists sent. done.
Qed.

(** no screen is forgotten.  In a served session, [service_cuts] at any time
    gives every client whose deadline has come its SCREEN, of the kind it asked
    for, then EXIT if the child is gone, and makes it live; other clients are not
    touched. *)
Theorem cuts_fire nm gen (t : T) ms lease op w d at_ id c :
  0 < t_rows t -> 0 < t_cols t -> served (assemble nm gen t ms lease op w) d ->
  bget id (clients d) = Some c ->
  match phase c with
  | Settling deadline _ kind =>
      if deadline <=? at_
      then exists t', bget id (clients (service_cuts at_ d))
                      = Some (cut_client (cut_screen kind t') (exit_of d) c)
      else bget id (clients (service_cuts at_ d)) = Some c
  | Live => bget id (clients (service_cuts at_ d)) = Some c
  end.
Proof.
  intros Hr Hc Hd Hb.
  pose proof (served_inv _ _ Hd (assemble_inv nm gen t ms lease op w Hr Hc)) as Hi.
  assert (Hs : sorted (bkeys (clients d))) by (apply sorted_core, inv_shape, Hi).
  assert (Hp : phase_ok c).
  { pose proof (i_phase _ Hi) as H. rewrite Forall_forall in H.
    apply (H (id, strip c)). apply bget_In. cbn. rewrite bget_strip, Hb. done. }
  assert (Hnd : NoDup (fst <$> List.filter (is_due at_) (clients d))) by apply due_nodup, Hs.
  destruct (cuts_fold _ d Hnd id c Hb Hp) as [H1 H2]. fold (service_cuts at_ d) in H1, H2.
  rewrite (due_iff at_ _ _ _ Hs Hb) in H1, H2. unfold is_due in H1, H2. cbn [snd] in H1, H2.
  destruct (phase c) as [|dl g kind]; [apply H1; done|].
  destruct (dl <=? at_); [apply H2|apply H1]; done.
Qed.

(** what an ATTACH is answered with.  The client takes the size it asked for and
    is sent GEOMETRY with the size the terminal then has; then, unless the cut
    waits for a redraw to settle, its SCREEN, and EXIT if the child is gone.  After
    an exit the cut never waits.  Other clients hear at most the new size. *)
Theorem attach_replies nm gen (t : T) ms lease op w d id p c :
  0 < t_rows t -> 0 < t_cols t -> served (assemble nm gen t ms lease op w) d ->
  Forall is_u8 p -> 4 <= blen p -> bget id (clients d) = Some c ->
  let d' := on_attach id p d in
  (exists t' c', bget id (clients d') = Some c' /\ role c' = Writable /\
     (c_rows c', c_cols c') = decode_size p /\ c_generation c' = c_generation c + 1 /\
     attach_reply (t_rows (term d')) (t_cols (term d')) (exit_of d) t' c c') /\
  (forall id' c2, id' <> id -> bget id' (clients d) = Some c2 ->
     bget id' (clients d') = Some c2 \/
     bget id' (clients d') = Some (tell (t_rows (term d')) (t_cols (term d')) c2)).
Proof.
  intros Hr Hc Hd Hp Hl Hb d'.
  pose proof (served_inv _ _ Hd (assemble_inv nm gen t ms lease op w Hr Hc)) as Hi.
  destruct (attach_before id p d c Hp Hi Hl Hb)
    as (m & delay & d7 & c7 & resized & E & Hr7 & Hx & Hxc & Hde & Hb7 & Hro & Hsz & Hge & Hco & Hot).
  assert (Ex : exit_of d7 = exit_of d) by (unfold exit_of; rewrite Hx, Hxc; done).
  destruct (scheduled_reply id (c_generation c + 1) m delay d7 c c7 d' Hb7 Hge Hr7 Hco Hde E)
    as (t' & c' & H1 & H2 & H3 & H4 & H5 & H6). rewrite Ex in H6. split.
  - exists t', c'. split; [done|]. split; [congruence|]. split; [rewrite H3, H4; done|].
    split; [congruence|exact H6].
  - intros id' c2 Hne Hb2. unfold d'. rewrite E.
    destruct (schedule_size id (c_generation c + 1) (CutAttach m) delay d7 Hr7) as [-> ->].
    { intros x Hx7. rewrite Hb7 in Hx7. injection Hx7 as <-. done. }
    rewrite schedule_others by congruence. rewrite Hot, Hb2 by done. destruct resized; auto.
Qed.

(** the child's output reaches exactly the clients that are live, as one DATA
    packet of what the terminal passes on; a settling client is not touched (its
    SCREEN will show it), and no client changes in any other way. *)
Theorem pty_data_delivery (b : bytes) (d : Daemon T) (id : Z) :
  let cleaned := fst (t_write b (t_set_client_available (answering_client_available (clients d))
                                   (term d))) in
  bget id (clients (on_pty_data b d))
  = (fun c => if is_settling c || bool_decide (cleaned = []) then c
              else client_send (encode_data cleaned) c) <$> bget id (clients d).
Proof.
  intros cleaned. rewrite cl_pty_data, bget_map. fold cleaned. destruct (bget id (clients d)) as [c|]; [|done].
  cbn [fmap option_fmap option_map]. unfold deliver. destruct cleaned as [|x l].
  - rewrite orb_true_r. done.
  - rewrite orb_false_r. done.
Qed.
End Theorems.

(** ** Witnesses *)

(** One client connected, and then attached: its SCREEN waits for the redraw. *)
Definition one_connected : Daemon (Z * Z) := run_msgs (take 1 demo_msgs) demo_start.
Definition one_attached : Daemon (Z * Z) := run_msgs (take 2 demo_msgs) demo_start.

Definition client_of (id : Z) (d : Daemon (Z * Z)) : Client :=
  match bget id (clients d) with Some c => c | None => new_client 0 0 end.

Lemma connected_served : served demo_start one_connected.
Proof. apply msgs_served; [constructor|vm_compute; reflexivity]. Qed.
Lemma attached_served : served demo_start one_attached.
Proof. apply msgs_served; [constructor|vm_compute; reflexivity]. Qed.

Lemma session_wire_witness :
  is_settling (client_of 1 one_attached) = true /\
  rejected (conn (client_of 1 one_attached)) = false /\
  exists sent, conn_trace sent (conn (client_of 1 one_attached)) /\ geometry_last sent.
Proof.
  assert (Hs : is_settling (client_of 1 one_attached) = true) by (vm_compute; reflexivity).
  assert (Hr : rejected (conn (client_of 1 one_attached)) = false) by (vm_compute; reflexivity).
  split; [exact Hs|]. split; [exact Hr|].
  destruct (session_wire (TI := demo_terminal) (str "s") (str "g") (24, 80) 80 None None demo_world one_attached 1
    (client_of 1 one_attached) (eq_refl : 0 < 24) (eq_refl : 0 < 80) attached_served ltac:(vm_compute; reflexivity))
    as (sent & H1 & _ & H3).
  exists sent. split; [exact H1|]. destruct (H3 Hs) as [H|H]; [|exact H]. rewrite Hr in H. discriminate.
Defined.

Lemma cuts_fire_witness :
  let c := client_of 1 one_attached in
  exists t', bget 1 (clients (service_cuts 1000 one_attached))
             = Some (cut_client (cut_screen (CutAttach false) t') None c).
Proof.
  pose proof (cuts_fire (TI := demo_terminal) (str "s") (str "g") (24, 80) 80 None None demo_world one_attached 1000 1
    (client_of 1 one_attached) (eq_refl : 0 < 24) (eq_refl : 0 < 80) attached_served ltac:(vm_compute; reflexivity)) as H.
  assert (E : exists dl g, phase (client_of 1 one_attached) = Settling dl g (CutAttach false) /\
    (dl <=? 1000) = true) by (do 2 eexists; split; vm_compute; reflexivity).
  destruct E as (dl & g & E & El). rewrite E, El in H. exact H.
Defined.

Lemma attach_replies_witness :
  let p := size_payload 40 100 in
  exists c', bget 1 (clients (on_attach 1 p one_connected)) = Some c' /\
             role c' = Writable /\ (c_rows c', c_cols c') = (40, 100).
Proof.
  destruct (attach_replies (TI := demo_terminal) (str "s") (str "g") (24, 80) 80 None None demo_world one_connected 1
    (size_payload 40 100) (client_of 1 one_connected) (eq_refl : 0 < 24) (eq_refl : 0 < 80) connected_served
    ltac:(repeat constructor; vm_compute; intros H; discriminate H)
    ltac:(vm_compute; intros H; discriminate H) ltac:(vm_compute; reflexivity))
    as [(t' & c' & H1 & H2 & H3 & _) _].
  exists c'. split; [exact H1|]. split; [exact H2|]. rewrite H3. vm_compute. reflexivity.
Defined.
