(* ===== verification/Holds.v ===== *)
(** What the packet handlers leave alone, stated once for any projection of the
    daemon ([Blind]); what becomes of input and its holds; the order
    of the message queue. *)
From S2P Require Import Prelude Protocol Json Metadata Names Mutate Clients BTree Daemon.

(** ** Projections the handlers cannot change *)

Section Blind.
Context {T : Type} {TI : Terminal T} {EI : Env} {AI : Alloc}.
Abbreviation D := (Daemon T).

(** A projection that sees neither clients, terminal, clocks, registry nor what the
    client-generation bookkeeping writes. *)
Class Quiet {X : Type} (proj : D -> X) : Prop := {
  b_clients : forall g d, proj (set_field clients g d) = proj d;
  b_term : forall g d, proj (set_field term g d) = proj d;
  b_counter : forall g d, proj (set_field attach_counter g d) = proj d;
  b_last_resize : forall g d, proj (set_field last_resize g d) = proj d;
  b_ticks : forall g d, proj (set_field ticks g d) = proj d;
  b_world : forall g d, proj (set_field world g d) = proj d;
  b_calls : forall g d, proj (set_field registry_calls g d) = proj d;
  b_published : forall g d, proj (set_field published_client_facts g d) = proj d;
  b_generation : forall g d, proj (set_field client_generation g d) = proj d;
  b_attach_at : forall g d, proj (set_field pending_attach_at g d) = proj d;
  b_retry : forall g d, proj (set_field client_meta_retry g d) = proj d;
  b_winsizes : forall g d, proj (set_field winsizes g d) = proj d
}.
(** Nor input that nobody holds. *)
Class Blind {X : Type} (proj : D -> X) : Prop := {
  blind_quiet :: Quiet proj;
  b_write_pty : forall b d, proj (write_pty b d) = proj d
}.

Section Quiet.
Context {X : Type} (proj : D -> X) {Q : Quiet proj}.

Ltac blind := unfold tick; repeat first
  [rewrite b_clients | rewrite b_term | rewrite b_counter | rewrite b_last_resize | rewrite b_ticks
  | rewrite b_world | rewrite b_calls | rewrite b_published | rewrite b_generation
  | rewrite b_attach_at | rewrite b_retry | rewrite b_winsizes]; try done.

Lemma bl_registry {A} (f : Weather -> World -> World * A) (d : D) :
  proj (fst (registry_call f d)) = proj d.
Proof. unfold registry_call. destruct (f _ _). cbn [fst]. blind. Qed.

Lemma bl_send_to id b (d : D) : proj (send_to id b d) = proj d.
Proof. unfold send_to. blind. Qed.
Lemma bl_broadcast b (d : D) : proj (broadcast b d) = proj d.
Proof. unfold broadcast. blind. Qed.
Lemma bl_resize_pty r c (d : D) : proj (resize_pty r c d) = proj d.
Proof. unfold resize_pty. destruct (t_cell_size (term d)). blind. Qed.
Lemma bl_take_replies (d : D) : proj (snd (take_replies d)) = proj d.
Proof. unfold take_replies. destruct (t_take_pty_replies (term d)). cbn [snd]. blind. Qed.
Lemma bl_adopt p (d : D) : proj (fst (adopt_cell_size p d)) = proj d.
Proof.
  unfold adopt_cell_size. destruct (decode_cell p); [|done]. destruct (t_cell_size (term d)).
  destruct (_ && _); cbn [fst]; blind.
Qed.

Lemma bl_write_generation (d : D) : proj (write_client_generation d) = proj d.
Proof.
  unfold write_client_generation.
  match goal with |- context [registry_call ?f d] => pose proof (bl_registry f d) as E;
    destruct (registry_call f d) as [d' st] end.
  cbn [fst] in E. destruct st; cbv zeta; unfold tick; rewrite ?b_retry, ?b_ticks, ?b_attach_at; done.
Qed.

Lemma bl_note a (d : D) : proj (note_client_change a d) = proj d.
Proof.
  unfold note_client_change. destruct a; cbv zeta.
  - rewrite bl_write_generation. blind.
  - destruct (decide _); [done|]. rewrite bl_write_generation. blind.
Qed.

Lemma bl_nudge (d : D) : proj (nudge_redraw d) = proj d.
Proof.
  unfold nudge_redraw. destruct (_ <? _); [done|]. cbv zeta. rewrite b_term, bl_resize_pty, b_term.
  apply bl_resize_pty.
Qed.

Lemma bl_cut id (d : D) : proj (cut id d) = proj d.
Proof.
  unfold cut. destruct (bget id (clients d)) as [c|]; [|done]. destruct (phase c) as [|dl g kind]; [done|].
  destruct (negb _); [done|]. cbv zeta. set (d1 := d <| clients ::= _ |>).
  assert (E : proj d1 = proj d) by (unfold d1; blind). clearbody d1.
  destruct kind as [[]|]; [exact E| |exact E]. destruct (exited d1); [exact E|].
  destruct (last_resize d1); [|exact E]. destruct (_ <? _); rewrite ?bl_nudge; unfold tick; rewrite b_ticks; exact E.
Qed.

Lemma bl_schedule id g kind delay (d : D) : proj (schedule_cut id g kind delay d) = proj d.
Proof. unfold schedule_cut. cbv zeta. destruct delay; rewrite ?bl_cut; blind. Qed.

Lemma bl_service_cuts t (d : D) : proj (service_cuts t d) = proj d.
Proof.
  unfold service_cuts. generalize (fst <$> List.filter (is_due t) (clients d)). intros l. revert d.
  induction l as [|id l IH]; intros d; [done|]. cbn [fold_left]. rewrite IH. apply bl_cut.
Qed.

End Quiet.

Context {X : Type} (proj : D -> X) {B : Blind proj}.

Ltac blind := unfold tick; repeat first
  [rewrite b_clients | rewrite b_term | rewrite b_counter | rewrite b_last_resize | rewrite b_ticks
  | rewrite b_world | rewrite b_calls | rewrite b_published | rewrite b_generation
  | rewrite b_attach_at | rewrite b_retry | rewrite b_winsizes | rewrite b_write_pty]; try done.

Lemma bl_negotiate (d : D) : proj (fst (negotiate_size d)) = proj d.
Proof.
  unfold negotiate_size. destruct (negotiated (clients d)) as [rows cols].
  destruct (_ || _); [done|]. destruct (negb _); [done|]. destruct (_ && _); [done|]. cbv zeta.
  set (d1 := resize_pty _ _ _). assert (E1 : proj d1 = proj d).
  { unfold d1, broadcast_geometry. rewrite (bl_resize_pty proj). blind. }
  clearbody d1. pose proof (bl_take_replies proj d1) as E2. destruct (take_replies d1) as [replies d2].
  cbn [fst snd] in *. unfold tick. rewrite b_ticks, b_last_resize, b_write_pty. congruence.
Qed.

Lemma bl_attach id p (d : D) : proj (on_attach id p d) = proj d.
Proof.
  unfold on_attach. destruct (_ <? 4); [done|]. destruct (negb _); [done|].
  destruct (decode_size p) as [rows cols]. pose proof (bl_adopt proj p d) as E1.
  destruct (adopt_cell_size p d) as [d1 changed]. cbn [fst] in E1.
  destruct (decode_attach_identity identity_of_json p) as [pid tty]. cbv zeta.
  set (d3 := (tick _) <| clients ::= _ |>). assert (E3 : proj d3 = proj d) by (unfold d3; blind).
  clearbody d3. pose proof (bl_negotiate d3) as E4. destruct (negotiate_size d3) as [d4 resized].
  cbn [fst] in E4. set (d5 := if changed && negb resized then _ else d4).
  assert (E5 : proj d5 = proj d4) by (unfold d5; destruct (_ && _); [apply (bl_resize_pty proj)|done]). clearbody d5.
  set (d6 := if resized then d5 else _).
  assert (E6 : proj d6 = proj d5) by (unfold d6; destruct resized; [done|apply (bl_send_to proj)]). clearbody d6.
  rewrite (bl_schedule proj). unfold tick. rewrite b_ticks, (bl_note proj), b_ticks. congruence.
Qed.

Lemma bl_history id p (d : D) : proj (on_history id p d) = proj d.
Proof.
  unfold on_history. destruct (negb _); [done|].
  match goal with |- context [let '(r, d) := ?x in _] => assert (E : proj (snd x) = proj d) end.
  { destruct (exited d); [done|]. destruct (_ <? _); [done|]. destruct (history_of_json p); [|done].
    destruct (t_history _ _ _). cbn [snd]. blind. }
  destruct (if exited d then _ else _) as [r d1]. cbn [snd] in E.
  destruct (history_json r); [rewrite (bl_send_to proj)|]; done.
Qed.

Lemma bl_peek id p (d : D) : proj (on_peek id p d) = proj d.
Proof.
  unfold on_peek. destruct (bget id (clients d)) as [c0|]; [|done]. cbv zeta.
  set (d3 := d <| clients ::= _ |>). assert (E3 : proj d3 = proj d) by (unfold d3; blind).
  clearbody d3. pose proof (bl_negotiate d3) as E4. destruct (negotiate_size d3) as [d4 resized].
  cbn [fst] in E4. set (d6 := if resized then d4 else _).
  assert (E6 : proj d6 = proj d4) by (unfold d6; destruct resized; [done|apply (bl_send_to proj)]). clearbody d6.
  set (d7 := if constrains_size c0 then _ else d6).
  assert (E7 : proj d7 = proj d6) by (unfold d7; destruct (constrains_size c0); [apply (bl_note proj)|done]).
  destruct (decode_peek p). rewrite (bl_schedule proj). congruence.
Qed.

Lemma bl_resize id p (d : D) : proj (on_resize id p d) = proj d.
Proof.
  unfold on_resize. destruct (bget id (clients d)) as [c0|]; [|done]. destruct (_ || _); [done|].
  destruct (decode_size p) as [rows cols]. cbv zeta. set (d3 := (d <| attach_counter ::= _ |>) <| clients ::= _ |>).
  assert (E3 : proj d3 = proj d) by (unfold d3; blind). clearbody d3.
  pose proof (bl_adopt proj p d3) as E4. destruct (adopt_cell_size p d3) as [d4 changed].
  pose proof (bl_negotiate d4) as E5. destruct (negotiate_size d4) as [d5 resized]. cbn [fst] in *.
  rewrite (bl_note proj). destruct (_ && _); rewrite ?(bl_resize_pty proj); congruence.
Qed.

Lemma bl_closed id (d : D) : proj (on_closed id d) = proj d.
Proof.
  unfold on_closed. destruct (bget id (clients d)) as [c0|]; [|done]. cbv zeta.
  set (d3 := d <| clients ::= _ |>). assert (E3 : proj d3 = proj d) by (unfold d3; blind). clearbody d3.
  pose proof (bl_negotiate d3) as E4. destruct (negotiate_size d3) as [d4 resized]. cbn [fst] in E4.
  destruct (constrains_size c0); rewrite ?(bl_note proj); congruence.
Qed.

(** Every packet but DATA and the lifecycle compare-and-set. *)
Definition quiet_packet (ty : MessageType) : bool :=
  match ty with Data | LifecycleCas => false | _ => true end.

Lemma bl_packet id packet (d : D) :
  quiet_packet (type_ packet) = true -> proj (on_packet id packet None d) = proj d.
Proof.
  intros Hq. unfold on_packet. destruct (type_ packet); try done; cbn [release_hold].
  - apply bl_attach.
  - unfold on_detach. rewrite bl_closed. blind.
  - apply bl_resize.
  - apply bl_peek.
  - unfold on_status. rewrite (bl_send_to proj). blind.
  - unfold on_accepted_socket_ownership. rewrite (bl_send_to proj). blind.
  - destruct (payload packet); [|done]. destruct (bget id (clients d)); [|done].
    destruct (bool_decide _); [|done]. destruct (t_reset_input_modes (term d)).
    rewrite (bl_broadcast proj). blind.
  - apply bl_history.
Qed.
End Blind.

(** ** Input holds *)

Section Holds.
Context {T : Type} {TI : Terminal T} {EI : Env} {AI : Alloc}.
Abbreviation D := (Daemon T).

(** The input entries that carry a hold, and the holds that were given back. *)
Definition has_hold (entry : bytes * option Z) : bool := match snd entry with Some _ => true | None => false end.
Definition held_input (d : D) : list (bytes * option Z) := List.filter has_hold (child_input d).
Definition fate (d : D) : list Z * list (bytes * option Z) := (released d, held_input d).
(** All of the input. *)
Definition ins (d : D) : list Z * list (bytes * option Z) := (released d, child_input d).
Lemma fate_ins (d d' : D) : ins d' = ins d -> fate d' = fate d.
Proof. unfold ins, fate, held_input. intros [= -> ->]. done. Qed.

Lemma held_snoc (l : list (bytes * option Z)) b : List.filter has_hold (l ++ [(b, None)]) = List.filter has_hold l.
Proof. rewrite List.filter_app. cbn. apply app_nil_r. Qed.
Lemma fate_write_pty b (d : D) : fate (write_pty b d) = fate d.
Proof.
  unfold write_pty, write_input, fate, held_input. destruct b; [done|]. destruct (child_status d); [done|].
  destruct input_started; cbn [release_hold released child_input set_field]; cbn; rewrite held_snoc; done.
Qed.
#[local] Instance ins_quiet : Quiet ins.
Proof. constructor; intros; done. Qed.
#[local] Instance fate_blind : Blind fate.
Proof. constructor; [constructor; intros; done|]. apply fate_write_pty. Qed.

(** The fields of the exit, the lease and the timers are not holds either. *)
Lemma ins_settle cause force (d : D) :
  ins (fst (settle_startup_lifecycle cause force d)) = ins d.
Proof.
  unfold settle_startup_lifecycle. destruct (startup_lease d); [|done].
  destruct (startup_lease_terminal_value d); [done|]. destruct (_ && _); [done|]. cbv zeta.
  match goal with |- context [registry_call ?f d] => pose proof (bl_registry ins f d) as E;
    destruct (registry_call f d) as [d' st] end. cbn [fst] in E. destruct st; exact E.
Qed.

Lemma ins_deadline (d : D) : ins (fst (settle_startup_deadline d)) = ins d.
Proof.
  unfold settle_startup_deadline. cbv zeta.
  match goal with |- context [settle_startup_lifecycle ?c ?b ?x] =>
    pose proof (ins_settle c b x) as E; assert (Ex : ins x = ins d)
      by (destruct (teardown_tree d); done) end.
  rewrite Ex in E. destruct (settle_startup_lifecycle _ _ _) as [d' [v|]]; cbn [fst] in *; [done|].
  rewrite <- E. unfold resume_frozen_tree. destruct (startup_lease_disarmed d'); [|done].
  destruct (teardown_frozen d'); done.
Qed.

Lemma ins_cas r (d : D) : ins (fst (compare_and_set_lifecycle r d)) = ins d.
Proof.
  unfold compare_and_set_lifecycle. destruct (negb _); [done|].
  destruct (read_metadata _ _); [|done]. destruct (negb _); [done|]. destruct (exited d).
  - pose proof (ins_settle CauseExit true d) as E.
    destruct (settle_startup_lifecycle _ _ _) as [d' v]. done.
  - destruct (lease_expired d).
    + pose proof (ins_deadline (tick d)) as E.
      destruct (settle_startup_deadline _) as [d' [v|]]; exact E.
    + match goal with |- context [registry_call ?f ?x] => pose proof (bl_registry ins f x) as E;
        destruct (registry_call f x) as [d' st] end. cbn [fst] in E.
      assert (En : ins (note_lifecycle_cas r d') = ins d').
      { unfold note_lifecycle_cas. destruct (startup_lease d'); [|done].
        destruct (_ && _), (_ && _); done. }
      destruct st; cbn [fst]; rewrite ?En; exact E.
Qed.

Lemma ins_events (d : D) : ins (forward_terminal_events d) = ins d.
Proof. unfold forward_terminal_events. destruct (t_take_events (term d)). done. Qed.

Lemma ins_save (d : D) : ins (fst (save_exit_metadata d)) = ins d.
Proof.
  unfold save_exit_metadata.
  match goal with |- context [registry_call ?f d] => pose proof (bl_registry ins f d) as E;
    destruct (registry_call f d) as [d' st] end. exact E.
Qed.

Lemma ins_finalize (d : D) : ins (finalize_exit d) = ins d.
Proof.
  unfold finalize_exit. cbv zeta. pose proof (ins_settle CauseExit true d) as E0.
  destruct (settle_startup_lifecycle CauseExit true d) as [d0 v]. cbn [fst] in E0.
  set (d1 := (d0 <| exited := true |> <| exit_code := _ |> <| exit_drain_deadline := None |>
             <| term ::= t_end_stream |>)). assert (E1 : ins d1 = ins d) by exact E0. clearbody d1.
  pose proof (ins_events d1) as E2. set (d2 := forward_terminal_events d1) in *. clearbody d2.
  set (d3 := (broadcast _ d2) <| log ::= _ |>). assert (E3 : ins d3 = ins d) by (rewrite <- E1; exact E2).
  clearbody d3. pose proof (ins_save d3) as E4. destruct (save_exit_metadata d3) as [d4 st]. cbn [fst] in E4.
  set (d5 := match st with Mutate.Busy | Mutate.Stale => _ | _ => d4 end).
  assert (E5 : ins d5 = ins d) by (rewrite <- E3, <- E4; unfold d5; destruct st; done).
  clearbody d5. destruct (shutdown_code d5); exact E5.
Qed.

Lemma fate_events (d : D) : fate (forward_terminal_events d) = fate d.
Proof. apply fate_ins, ins_events. Qed.
Lemma fate_pty_data b (d : D) : fate (on_pty_data b d) = fate d.
Proof.
  unfold on_pty_data. cbv zeta.
  set (d2 := (stamp_output_activity d) <| term ::= _ |>).
  assert (E2 : fate d2 = fate d)
    by (unfold d2, stamp_output_activity; destruct (activity_persist_at _); done). clearbody d2.
  destruct (t_write b (term d2)) as [cleaned t]. set (d3 := d2 <| term := t |>).
  assert (E3 : fate d3 = fate d) by exact E2. clearbody d3.
  pose proof (bl_take_replies fate d3) as E6. destruct (take_replies d3) as [replies d4]. cbn [snd] in E6.
  assert (E7 : fate (forward_terminal_events (write_pty replies d4)) = fate d)
    by (rewrite fate_events, fate_write_pty; congruence).
  destruct cleaned; exact E7.
Qed.

Lemma ins_child s (d : D) : ins (on_child_exited s d) = ins d.
Proof.
  unfold on_child_exited.
  set (h := match operation d with Some o => _ | None => (d, false) end).
  assert (E : ins (fst h) = ins d).
  { unfold h. destruct (operation d) as [o|]; [|done]. destruct (Daemon.holds s o). done. }
  destruct h as [d1 held]. cbn [fst] in E. rewrite <- E. destruct held; [done|].
  destruct (child_status d1); [done|]. cbv zeta.
  destruct (pty_eof _); [|done]. destruct (exited _); [done|]. rewrite ins_finalize. done.
Qed.

Lemma ins_timers t (d : D) : ins (service_timers t d) = ins d.
Proof.
  unfold service_timers. set (d1 := service_temp_sweep _ _).
  assert (E1 : ins d1 = ins d).
  { rewrite <- (bl_service_cuts ins t d). unfold d1, service_temp_sweep. destruct (_ <=? _); done. }
  clearbody d1. set (d2 := service_activity _ _). assert (E2 : ins d2 = ins d1).
  { unfold d2, service_activity, persist_output_activity. destruct (is_at _ _); [|done]. cbv zeta.
    destruct (exited _); [done|]. destruct (last_output_at_ms _); [|done].
    match goal with |- context [registry_call ?f ?x] => pose proof (bl_registry ins f x) as E;
      destruct (registry_call f x) as [d3 st] end. destruct st; exact E. }
  clearbody d2. set (d3 := service_client_meta _ _). assert (E3 : ins d3 = ins d2).
  { unfold d3, service_client_meta. destruct (is_at _ _); [apply (bl_write_generation ins)|done]. }
  clearbody d3. set (d4 := service_exit_drain _ _). assert (E4 : ins d4 = ins d3).
  { unfold d4, service_exit_drain. destruct (is_at _ _); [|done]. cbv zeta.
    destruct (negb _ && _); [rewrite ins_finalize|]; done. }
  clearbody d4. set (d5 := service_exit_meta _ _). assert (E5 : ins d5 = ins d4).
  { unfold d5, service_exit_meta. destruct (exit_meta_retry d4) as [[next deadline]|]; [|done].
    destruct (_ <=? _); [|done]. pose proof (ins_save d4) as E. destruct (save_exit_metadata d4) as [d6 st].
    cbn [fst] in E. destruct st; try exact E; destruct (_ <? _); exact E. }
  clearbody d5. set (d6 := service_lease _ _). assert (E6 : ins d6 = ins d5).
  { unfold d6, service_lease. destruct (negb _); [done|].
    destruct (startup_deadline_pending_shutdown d5); [unfold set_shutdown; destruct (shutdown_code _); done|].
    destruct (startup_lease_disarmed d5); [done|]. destruct (mbind _ _); [|done].
    cbv zeta. destruct (_ =? 0); [|done]. pose proof (ins_deadline (tick d5)) as E.
    destruct (settle_startup_deadline _) as [d7 [v|]]; exact E. }
  clearbody d6. transitivity (ins d6); [|congruence].
  unfold service_exit_shutdown. destruct (is_at _ _); [|done].
  unfold set_shutdown. destruct (shutdown_code _); done.
Qed.

(** *** What becomes of input *)

(** The daemon takes input from a client it knows, that may write, while the session and
    its child go on. *)
Definition accepts (id : Z) (b : bytes) (d : D) : bool :=
  match bget id (clients d) with Some c => negb (bool_decide (role c = Readonly)) | None => false end
  && negb (exited d) && bool_decide (child_status d = None) && negb (bool_decide (b = [])).
(** What a message adds to the child's input; the hold goes along when another thread
    writes it. *)
Definition typed (msg : option Msg) (d : D) : list (bytes * option Z) :=
  match msg with
  | Some (MPacket id p hold) =>
      if bool_decide (type_ p = Data) && accepts id (payload p) d
      then [(payload p, if input_started then hold else None)] else []
  | _ => []
  end.
Definition hold_of (msg : option Msg) : list Z :=
  match msg with Some (MPacket _ _ (Some n)) => [n] | _ => [] end.
(** The hold that goes back at once. *)
Definition given_back (msg : option Msg) (d : D) : list Z :=
  if existsb has_hold (typed msg d) then [] else hold_of msg.

Lemma on_data_ins id b h (d : D) :
  ins (on_data id b h d) =
    if accepts id b d then
      (if input_started then released d else match h with Some n => [n] | None => [] end ++ released d,
       child_input d ++ [(b, if input_started then h else None)])
    else (match h with Some n => [n] | None => [] end ++ released d, child_input d).
Proof.
  unfold on_data, accepts, ins. destruct (bget id (clients d)) as [c|]; [|destruct h; done].
  rewrite (andb_comm (negb (exited d))). destruct (negb (bool_decide (role c = Readonly))); cbn [andb]; [|destruct h; done].
  destruct (negb (exited d)); cbn [andb]; [|destruct h; done].
  unfold write_input. destruct b as [|x b]; [rewrite (bool_decide_eq_true_2 ([] = [])), andb_false_r by done; destruct h; done|].
  rewrite (bool_decide_eq_false_2 (x :: b = [])) by done.
  destruct (child_status d) as [st|]; cbn [negb]; [rewrite bool_decide_eq_false_2 by done; destruct h; done|].
  rewrite bool_decide_eq_true_2 by done. cbn [andb]. destruct input_started, h; done.
Qed.
Lemma packet_release id packet input (d : D) :
  type_ packet <> Data -> on_packet id packet input d = release_hold input (on_packet id packet None d).
Proof. unfold on_packet. destruct (type_ packet); done. Qed.
Lemma fate_packet id packet (d : D) : type_ packet <> Data -> fate (on_packet id packet None d) = fate d.
Proof.
  intros E. destruct (quiet_packet (type_ packet)) eqn:Eq; [apply (bl_packet fate); done|].
  unfold on_packet. destruct (type_ packet); try done. cbn [release_hold]. unfold on_lifecycle_cas.
  assert (H : ins (fst (match cas_of_json (payload packet) with
    | Some request => if validate_lifecycle request then compare_and_set_lifecycle request d
                      else (d, InvalidRequest (str "invalid request payload"))
    | None => (d, InvalidRequest (str "invalid request payload"))
    end)) = ins d).
  { destruct (cas_of_json _); [|done]. destruct (validate_lifecycle _); [|done]. apply ins_cas. }
  destruct (match cas_of_json _ with Some _ => _ | None => _ end) as [d1 res]. cbn [fst] in H.
  rewrite (bl_send_to fate). apply fate_ins. exact H.
Qed.
Lemma fate_handle msg (d : D) : hold_of (Some msg) = [] -> typed (Some msg) d = [] ->
  match msg with MPacket _ p _ => type_ p <> Data | _ => True end -> fate (handle msg d) = fate d.
Proof.
  intros Hh _ Hp. destruct msg as [b| |s|id|id p input|id| | |c]; cbn [handle].
  - apply fate_pty_data.
  - cbv zeta. destruct (_ && _); [|done]. apply fate_ins. rewrite ins_finalize. done.
  - apply fate_ins, ins_child.
  - done.
  - rewrite packet_release by exact Hp. destruct input; [discriminate Hh|]. apply fate_packet, Hp.
  - apply (bl_closed fate).
  - unfold on_external_kill. destruct (operation d) as [o|].
    + destruct (intercepts_kill o) as [o' []]; [done|]. destruct (shutdown_code _); done.
    + destruct (shutdown_code d); done.
  - destruct (operation d) as [o|]; [|done]. destruct (deferred_exit o); [|done].
    apply fate_ins. rewrite ins_child. done.
  - cbv zeta. unfold set_shutdown. destruct (operation d); destruct (shutdown_code _); done.
Qed.

End Holds.

(** ** The message queue *)

Definition controls (l : list Msg) : list Msg := List.filter (fun m => negb (is_bridge m)) l.
Definition bridges (l : list Msg) : list Msg := List.filter is_bridge l.

Lemma scan_order fuel closed : forall rx deferred r rx' deferred',
  Forall (fun m => is_bridge m = true) deferred ->
  scan fuel closed rx deferred = (r, rx', deferred') ->
  let got := match r with Got m => [m] | _ => [] end in
  Forall (fun m => is_bridge m = true) deferred' /\
  deferred ++ bridges rx = bridges got ++ deferred' ++ bridges rx' /\
  controls rx = controls got ++ controls rx' /\
  (got = [] -> rx' = [] /\ deferred' = []).
Proof.
  assert (Hpop : forall rx deferred none r rx' deferred',
    Forall (fun m => is_bridge m = true) deferred -> (deferred <> [] \/ rx = []) ->
    match none with Got _ => False | _ => True end ->
    pop_deferred rx deferred none = (r, rx', deferred') ->
    let got := match r with Got m => [m] | _ => [] end in
    Forall (fun m => is_bridge m = true) deferred' /\
    deferred ++ bridges rx = bridges got ++ deferred' ++ bridges rx' /\
    controls rx = controls got ++ controls rx' /\ (got = [] -> rx' = [] /\ deferred' = [])).
  { intros rx deferred none r rx' deferred' Hf Hne Hn. unfold pop_deferred.
    destruct deferred as [|m deferred]; intros [= <- <- <-]; cbv zeta.
    - destruct Hne as [Hne| ->]; [done|]. destruct none; done.
    - apply Forall_cons in Hf as [Hm Hf]. split; [done|]. unfold bridges, controls. cbn. rewrite Hm. done. }
  induction fuel as [|fuel IH]; intros rx deferred r rx' deferred' Hf; cbn [scan].
  - destruct deferred as [|m0 deferred].
    + destruct rx as [|m rx]; intros [= <- <- <-]; cbv zeta; [done|].
      split; [constructor|]. unfold bridges, controls. cbn. destruct (is_bridge m); done.
    + apply Hpop; [done|left; done|done].
  - destruct rx as [|m rx].
    + apply Hpop; [done|right; done|]. destruct closed; done.
    + destruct (is_bridge m) eqn:E.
      * intros Hs. specialize (IH rx (deferred ++ [m]) r rx' deferred'). destruct IH as (H1 & H2 & H3 & H4).
        { apply Forall_app. auto. } { exact Hs. }
        split; [done|]. cbv zeta. unfold bridges, controls in *. cbn [List.filter]. rewrite E. cbn [negb].
        rewrite <- app_assoc in H2. auto.
      * intros [= <- <- <-]. cbv zeta. split; [done|]. unfold bridges, controls. cbn [List.filter].
        rewrite E. cbn. done.
Qed.

(** reordering never crosses a lane.  [next_queued_message] may take a control
    message before output that came earlier, but output, EOF and the child's exit
    leave in the order they came, so do control messages, nothing is lost or
    repeated, and it waits only when nothing at all is queued. *)
Theorem next_queued_message_order closed rx deferred r rx' deferred' :
  Forall (fun m => is_bridge m = true) deferred ->
  next_queued_message closed rx deferred = (r, rx', deferred') ->
  let got := match r with Got m => [m] | _ => [] end in
  Forall (fun m => is_bridge m = true) deferred' /\
  deferred ++ bridges rx = bridges got ++ deferred' ++ bridges rx' /\
  controls rx = controls got ++ controls rx' /\
  (got = [] -> rx' = [] /\ deferred' = []).
Proof. apply scan_order. Qed.

Lemma next_queued_message_order_witness :
  let rx := [PtyEof; Closed 3; PtyData [65]] in
  next_queued_message false rx [PtyData [66]] = (Got (Closed 3), [PtyData [65]], [PtyData [66]; PtyEof]) /\
  [PtyData [66]] ++ bridges rx = [] ++ [PtyData [66]; PtyEof] ++ bridges [PtyData [65]].
Proof.
  assert (E : next_queued_message false [PtyEof; Closed 3; PtyData [65]] [PtyData [66]]
    = (Got (Closed 3), [PtyData [65]], [PtyData [66]; PtyEof])) by (vm_compute; reflexivity).
  split; [exact E|].
  apply (next_queued_message_order false _ _ _ _ _ (Forall_cons_2 _ (PtyData [66]) [] eq_refl (Forall_nil_2 _)) E).
Defined.
