(* ===== verification/Lease.v ===== *)
(** The startup lease: a deadline wins over every later compare-and-set, a shutdown
    it causes follows a recorded terminal value, and a settled lease is on disk. *)
From S2P Require Import Prelude Protocol Json Metadata Names Mutate Clients BTree Daemon Session.

(** ** The record's tag *)

Lemma minsert_differs tag v (tb : IndexMap bytes) :
  map_eqb beq tb (minsert tag v tb) = true -> mget tag tb = Some v.
Proof.
  unfold map_eqb. intros H. apply andb_prop in H as [Hl Hf]. apply Nat.eqb_eq in Hl.
  pose proof (mkeys_minsert tag v tb) as Hk. apply (f_equal length) in Hk. unfold mkeys in Hk.
  rewrite length_fmap, <- Hl in Hk. unfold contains_key in Hk.
  destruct (mget tag tb) as [w|] eqn:E; [|rewrite length_app, length_fmap in Hk; cbn in Hk; lia].
  apply mget_Some_in in E. rewrite forallb_forall in Hf. apply list_elem_of_In in E.
  specialize (Hf _ E). cbn [fst snd] in Hf. rewrite mget_minsert_eq in Hf. apply beq_eq in Hf. congruence.
Qed.

(** A published record that inserted a tag reads back with it. *)
Lemma tags_written before after raw p tag v :
  NoDup (mkeys raw) -> from_map raw = Some before -> extra after = extra before ->
  from_map (apply_metadata_diff before after raw) = Some p ->
  tags after = Some (minsert tag v match tags before with Some t => t | None => [] end) ->
  tag_of tag (tags before) <> Some v -> tag_of tag (tags p) = Some v.
Proof.
  intros Hd Hb Hx Hp Ea Hne. apply from_map_decodes in Hb, Hp.
  pose proof (no_alias_decodes _ _ Hb) as Nb.
  assert (Ht : mget (str "tags") (extra after) = None) by (rewrite Hx; apply Nb; reflexivity).
  pose proof (d_tags _ _ Hp) as Hdp. unfold opt_field in Hdp. rewrite mget_diff in Hdp by done.
  rewrite mget_to_map_typed in Hdp by done.
  change (mget (str "tags") (typed_fields after)) with (Some (enc_map <$> tags after)) in Hdp.
  unfold contains_key, differs in Hdp. rewrite (mget_to_map_typed _ before) in Hdp by (apply Nb; reflexivity).
  change (mget (str "tags") (typed_fields before)) with (Some (enc_map <$> tags before)) in Hdp.
  cbv beta iota in Hdp. rewrite Ea in Hdp.
  assert (Hset : forall m, (let? x := dec_map (enc_map (minsert tag v m)) in Some (Some x)) = Some (tags p) ->
                 tag_of tag (tags p) = Some v).
  { intros m. rewrite dec_map_enc. cbn. intros [= <-]. apply mget_minsert_eq. }
  destruct (tags before) as [tb|] eqn:Eb; cbn [fmap option_fmap option_map] in Hdp; [|exact (Hset _ Hdp)].
  rewrite value_eqb_map in Hdp. destruct (map_eqb beq tb _) eqn:Em; cbn [negb] in Hdp; [|exact (Hset _ Hdp)].
  exfalso. apply Hne. exact (minsert_differs tag v tb Em).
Qed.

Section Lease.
Context {T : Type} {TI : Terminal T} {EI : Env} {AI : Alloc}.
Abbreviation D := (Daemon T).

Lemma registry_fields {A} (f : Weather -> World -> World * A) (d d1 : D) st :
  registry_call f d = (d1, st) ->
  startup_deadline_pending_shutdown d1 = startup_deadline_pending_shutdown d /\
  shutdown_code d1 = shutdown_code d /\ exited d1 = exited d /\
  startup_lease_terminal_value d1 = startup_lease_terminal_value d.
Proof. unfold registry_call. destruct (f _ _). intros [= <- <-]. done. Qed.

(** What a settlement leaves of the fields the timers read. *)
Lemma settle_fields cause force (d d' : D) r :
  settle_startup_lifecycle cause force d = (d', r) ->
  startup_deadline_pending_shutdown d' = startup_deadline_pending_shutdown d /\
  shutdown_code d' = shutdown_code d /\ exited d' = exited d /\
  (forall v, r = Some v -> startup_lease_terminal_value d' = Some v) /\
  (startup_lease_terminal_value d' = startup_lease_terminal_value d \/
   startup_lease_terminal_value d' <> None).
Proof.
  unfold settle_startup_lifecycle. destruct (startup_lease d); [|intros [= <- <-]; split_and!; try done; left; done].
  destruct (startup_lease_terminal_value d) eqn:Ev; [intros [= <- <-]; split_and!; try done; try (left; done); congruence|].
  destruct (_ && _); [intros [= <- <-]; split_and!; try done; left; done|]. cbv zeta.
  destruct (registry_call _ d) as [d1 st] eqn:Ec. apply registry_fields in Ec as (E1 & E2 & E3 & E4).
  rewrite Ev in E4.
  destruct st; intros [= <- <-]; split_and!; try exact E1; try exact E2; try exact E3; try done;
    try (intros v [= <-]; reflexivity); try (intros v Hv; discriminate Hv);
    first [left; exact E4 | right; discriminate].
Qed.

Lemma deadline_fields (d d' : D) r :
  settle_startup_deadline d = (d', r) ->
  startup_deadline_pending_shutdown d' = startup_deadline_pending_shutdown d /\
  shutdown_code d' = shutdown_code d /\ exited d' = exited d /\
  (forall v, r = Some v -> startup_lease_terminal_value d' = Some v).
Proof.
  unfold settle_startup_deadline. cbv zeta.
  set (x := match teardown_tree d with None => _ | Some _ => d end).
  assert (Ex : startup_deadline_pending_shutdown x = startup_deadline_pending_shutdown d /\
    shutdown_code x = shutdown_code d /\ exited x = exited d) by (unfold x; destruct (teardown_tree d); done).
  clearbody x. destruct (settle_startup_lifecycle _ _ x) as [d1 [v|]] eqn:Es;
    apply settle_fields in Es as (E1 & E2 & E3 & E4 & _); destruct Ex as (X1 & X2 & X3).
  - intros [= <- <-]. split_and!; try congruence. exact E4.
  - intros [= <- <-]. unfold resume_frozen_tree. destruct (startup_lease_disarmed d1), (teardown_frozen d1);
      split_and!; try done; cbn; congruence.
Qed.

(** a passed deadline wins.  Once the lease's deadline has come, no
    compare-and-set of the running session takes effect: it is answered Busy, or
    DeadlineExpired with the terminal value the daemon settled on, and then the
    shutdown is armed; an answer of any other kind arms nothing. *)
Theorem deadline_wins (r : LifecycleCompareAndSetRequest) (d d' : D)
  (res : LifecycleCompareAndSetResult) :
  lease_expired d = true -> exited d = false -> compare_and_set_lifecycle r d = (d', res) ->
  match res with
  | Protocol.Changed _ | Protocol.Unchanged _ | ValueMismatch _ => False
  | DeadlineExpired v =>
      startup_lease_terminal_value d' = Some v /\ startup_deadline_pending_shutdown d' = true /\
      exists at_, startup_lease_timer d' = Some at_
  | _ => startup_deadline_pending_shutdown d' = startup_deadline_pending_shutdown d
  end /\ shutdown_code d' = shutdown_code d.
Proof.
  intros He Hx. unfold compare_and_set_lifecycle. destruct (negb _); [intros [= <- <-]; done|].
  destruct (read_metadata _ _); [|intros [= <- <-]; done].
  destruct (negb _); [intros [= <- <-]; done|]. rewrite Hx, He. cbv zeta.
  destruct (settle_startup_deadline (tick d)) as [d1 [v|]] eqn:Es;
    apply deadline_fields in Es as (E1 & E2 & E3 & E4); intros [= <- <-].
  - specialize (E4 v eq_refl). split; [|exact E2]. split; [exact E4|]. split; [reflexivity|]. eauto.
  - split; [exact E1|exact E2].
Qed.

Lemma remaining_zero now dl : remaining_lease_delay now dl = 0 -> deadline_passed now dl = true.
Proof.
  unfold remaining_lease_delay, deadline_passed. destruct now as [n|]; [|done]. cbv zeta. intros H.
  apply Z.leb_le. destruct (Z.le_gt_cases dl n) as [Hl|Hl]; [done|]. exfalso.
  assert (1 <= (Z.max 0 (dl - n) + 999999) / 1000000) by (apply Z.div_le_lower_bound; lia).
  unfold USIZE_MAX, MAX_TIMER_DELAY_MS in H. lia.
Qed.

(** the lease shuts a session down only with cause.  When the timers set the
    shutdown code, it is 124 with the external kill noted, and either the shutdown
    had been armed by a settled deadline, or the deadline of a lease that is not
    disarmed has passed and its terminal value is settled; otherwise the lease
    leaves the code alone. *)
Theorem lease_shutdown_cause (t : Z) (d : D) :
  shutdown_code d = None ->
  let d' := service_lease t d in
  match shutdown_code d' with
  | None => True
  | Some c =>
      c = 124 /\ external_kill d' = true /\
      (startup_deadline_pending_shutdown d = true \/
       startup_lease_disarmed d = false /\
       exists lease deadline v,
         startup_lease d = Some lease /\ deadline_monotonic_ns lease = Some deadline /\
         deadline_passed (monotonic_now_ns (ticks d)) deadline = true /\
         startup_lease_terminal_value d' = Some v)
  end.
Proof.
  intros Hs d'. unfold d', service_lease. destruct (negb _); [rewrite Hs; done|].
  destruct (startup_deadline_pending_shutdown d) eqn:Ep.
  { unfold set_shutdown. cbn. rewrite Hs. cbn. auto. }
  destruct (startup_lease_disarmed d) eqn:Ed; [cbn; rewrite Hs; done|].
  destruct (startup_lease d) as [lease|] eqn:El; cbn [mbind option_bind]; [|cbn; rewrite Hs; done].
  destruct (deadline_monotonic_ns lease) as [deadline|] eqn:Edl; [|cbn; rewrite Hs; done]. cbv zeta.
  destruct (_ =? 0) eqn:E0; [|cbn; rewrite Hs; done]. apply Z.eqb_eq, remaining_zero in E0.
  destruct (settle_startup_deadline (tick d)) as [d1 [v|]] eqn:Es;
    apply deadline_fields in Es as (E1 & E2 & E3 & E4).
  - cbn. split; [done|]. split; [done|]. right. split; [done|]. exists lease, deadline, v.
    rewrite (E4 v eq_refl). done.
  - change (shutdown_code (tick d)) with (shutdown_code d) in E2. rewrite Hs in E2. cbn. rewrite E2. done.
Qed.

(** a settled lease is on disk.  When a settlement that had no terminal value yet
    returns one, it is this generation's value for that cause, the session's own
    record then reads back with the lifecycle tag holding it, the record is this
    generation's, and the lease is disarmed. *)
Theorem settlement_recorded cause force (d d' : D) lease v raw :
  settle_startup_lifecycle cause force d = (d', Some v) ->
  startup_lease d = Some lease -> startup_lease_terminal_value d = None ->
  read_metadata_map (world d) (name d) = Some raw -> NoDup (mkeys raw) ->
  v = terminal_startup_lease_value (generation d) cause /\
  startup_lease_disarmed d' = true /\ startup_lease_timer d' = None /\
  exists before p, from_map raw = Some before /\ Metadata.generation before = Some (generation d) /\
    read_metadata (world d') (name d) = Some p /\ tag_of (lifecycle_tag lease) (tags p) = Some v.
Proof.
  unfold settle_startup_lifecycle. intros Hrun El Ev Hraw Hd. rewrite El, Ev in Hrun.
  destruct (_ && _); [discriminate|]. cbv zeta in Hrun.
  set (terminal := terminal_startup_lease_value (generation d) cause) in *.
  unfold registry_call, status_of in Hrun.
  destruct (mutate_metadata_under_lock_with_wait _ _ _ _ _ _ _) as [[w st] s] eqn:Em. cbn [fst snd] in Hrun.
  unfold mutate_metadata_under_lock_with_wait in Em.
  destruct st as [| | | |m|p]; try discriminate; injection Hrun as <- <-.
  - split; [done|]. split; [done|]. split; [done|].
    unfold mutate_metadata_under_lock_core in Em.
    destruct (negb (lock_granted _ _)); [discriminate|]. rewrite Hraw in Em.
    destruct (from_map raw) as [before|] eqn:Eb; [|discriminate].
    destruct (guards_hold _ before) eqn:Eg; cbn [negb] in Em; [|discriminate].
    destruct (terminal_mutation _ _ before) as [[after write] c] eqn:Et. destruct write; cbn [negb] in Em.
    { repeat match type of Em with (if ?b then _ else _) = _ => destruct b; [discriminate|] end.
      destruct (read_metadata_map _ _); [|discriminate].
      repeat match type of Em with (if ?b then _ else _) = _ => destruct b; [discriminate|] end.
      discriminate. }
    injection Em as <- <- _. exists before, before. split; [done|].
    unfold guards_hold, generation_fence in Eg. cbn in Eg. apply obeq_eq in Eg. split; [exact Eg|].
    split; [unfold read_metadata, no_hook; cbn; rewrite Hraw; exact Eb|].
    unfold terminal_mutation in Et. destruct (obeq _ _) eqn:Eo; [|discriminate]. apply obeq_eq, Eo.
  - split; [done|]. split; [done|]. split; [done|].
    destruct (core_changed _ _ _ _ _ _ _ _ _ _ _ Em)
      as (raw' & before & after & c & _ & Hr' & Hb & Hg & Hm & _ & _ & _ & _ & Hp & Hw). cbv zeta in Hp, Hw.
    rewrite Hraw in Hr'. injection Hr' as <-. exists before.
    unfold guards_hold, generation_fence in Hg. cbn in Hg. apply obeq_eq in Hg.
    unfold terminal_mutation in Hm. destruct (obeq _ _) eqn:Eo; [discriminate|]. injection Hm as Ha _.
    assert (Hwf : wf_meta after).
    { rewrite <- Ha. exact (decodes_wf raw before Hd (proj1 (from_map_decodes _ _) Hb)). }
    destruct (from_map_diff before after raw Hd Hb Hwf) as (p' & Hp' & _).
    exists p'. split; [done|]. split; [exact Hg|]. split.
    + subst w. unfold read_metadata, no_hook. cbn [world]. cbn. rewrite read_set_file. exact Hp'.
    + eapply (tags_written before after raw p'); [done|done| |exact Hp'| |].
      * rewrite <- Ha. done.
      * rewrite <- Ha. done.
      * intros E. rewrite (proj2 (obeq_eq _ _) E) in Eo. discriminate.
Qed.
End Lease.

(** ** Witnesses: a lease whose deadline is past, over a real record *)

Definition lease_start : Daemon (Z * Z) :=
  assemble (str "s") (str "g1") (24, 80) 80
    (Some (mkLease (str "lifecycle") (str "boot") (Some 0) (str "starting"))) None (sample_world false).

Definition late_request : LifecycleCompareAndSetRequest :=
  {| Protocol.cas_expected_generation := str "g1"; Protocol.cas_tag := str "lifecycle";
     Protocol.cas_expected_value := str "starting"; Protocol.cas_value := str "ready" |}.

Lemma deadline_wins_witness :
  let '(d', res) := compare_and_set_lifecycle late_request lease_start in
  lease_expired lease_start = true /\ res = DeadlineExpired (str "{}") /\
  startup_deadline_pending_shutdown d' = true.
Proof.
  destruct (compare_and_set_lifecycle late_request lease_start) as [d' res] eqn:E.
  assert (He : lease_expired lease_start = true) by (vm_compute; reflexivity).
  split; [exact He|].
  assert (Er : res = DeadlineExpired (str "{}")).
  { apply (f_equal snd) in E. cbn [snd] in E. rewrite <- E. vm_compute. reflexivity. }
  split; [exact Er|].
  destruct (deadline_wins late_request lease_start d' res He eq_refl E) as [H _].
  rewrite Er in H. apply H.
Defined.

Lemma lease_shutdown_cause_witness :
  shutdown_code lease_start = None /\
  shutdown_code (service_lease 100 lease_start) = Some 124 /\
  external_kill (service_lease 100 lease_start) = true.
Proof.
  split; [reflexivity|].
  assert (E : shutdown_code (service_lease 100 lease_start) = Some 124) by (vm_compute; reflexivity).
  split; [exact E|].
  pose proof (lease_shutdown_cause 100 lease_start eq_refl) as H. cbv zeta in H. rewrite E in H. apply H.
Defined.

Lemma settlement_recorded_witness :
  let d' := fst (settle_startup_lifecycle CauseExit true lease_start) in
  exists p, read_metadata (world d') (str "s") = Some p /\
            tag_of (str "lifecycle") (tags p) = Some (str "{}").
Proof.
  destruct (settle_startup_lifecycle CauseExit true lease_start) as [d' r] eqn:E. cbn [fst].
  assert (Er : r = Some (str "{}")).
  { apply (f_equal snd) in E. cbn [snd] in E. rewrite <- E. vm_compute. reflexivity. }
  rewrite Er in E.
  destruct (settlement_recorded CauseExit true lease_start d' _ _ (sample_raw false) E eq_refl eq_refl
    ltac:(vm_compute; reflexivity) ltac:(apply (bool_decide_eq_true_1 _); vm_compute; reflexivity))
    as (_ & _ & _ & before & p & _ & _ & H1 & H2).
  exists p. split; [exact H1|exact H2].
Defined.
