(* ===== verification/Frames.v ===== *)
(** The wire texts of a launch operation: the owner's frames of
    [crates/pty-core/src/operation/frames.rs] and its envelope,
    [envelope.rs].  The strict JSON parse of a line and SHA-256 are arguments;
    strings are scalar values and their lengths UTF-8 lengths. *)
From S2P Require Import Prelude Json Names Time Text.

Record EnvelopeError : Type := mkEnvelopeError { path : bytes; reason : bytes }.

(** ** The owner's frames *)

Inductive RejectCode : Type :=
  | WrongOperation | WrongEnvelope | WrongIncarnation | UnknownCommand | AlreadyTransferred
  | NotHeld | AlreadyDecided | MalformedCommand.
#[export] Instance RejectCode_eq_dec : EqDecision RejectCode.
Proof. solve_decision. Defined.

Inductive OwnerCommand : Type :=
  | CancelCommand (request_id : bytes)
  | TransferCommand (request_id incarnation_id generation : bytes).
Definition request_id (c : OwnerCommand) : bytes :=
  match c with CancelCommand r => r | TransferCommand r _ _ => r end.

Inductive OwnerFrame : Type :=
  | FrameCommand (c : OwnerCommand)
  | FrameRejected (code : RejectCode) (request_id : option bytes)
  | FrameMalformed.

Definition FRAME_MAX_BYTES : Z := 128 * 1024.

Definition no_controls (t : bytes) : bool := negb (existsb (fun c => (c <? 32) || (c =? 127)) t).
Definition is_request_id (t : bytes) : bool :=
  match t with [] => false | _ => (byte_len t <=? 256) && no_controls t end.

Definition is_incarnation_id (t : bytes) : bool :=
  match position (Z.eqb 58) t with
  | None => false
  | Some i =>
      match take i t, drop (S i) t with
      | (_ :: _) as pid, _ :: _ => forallb is_ascii_digit pid
      | _, _ => false
      end
  end.

Definition get_str (k : string) (o : IndexMap Value) : option bytes :=
  let? v := mget (str k) o in as_str v.

Definition CANCEL_FIELDS : list bytes :=
  [str "type"; str "version"; str "operationId"; str "envelopeSha256"; str "requestId"].
Definition TRANSFER_FIELDS : list bytes := CANCEL_FIELDS ++ [str "incarnation"].

(** A version is the integer 1. *)
Definition version_one (o : IndexMap Value) : bool :=
  match mget (str "version") o with Some (VNum (NInt 1)) => true | _ => false end.

(** The object of a line, once parsed. *)
Definition parse_owner_object (object : IndexMap Value) (op sha : bytes) : OwnerFrame :=
  let rid := let? r := get_str "requestId" object in if is_request_id r then Some r else None in
  match get_str "type" object with
  | None => FrameMalformed
  | Some kind =>
      if negb (beq kind (str "cancel")) && negb (beq kind (str "transfer"))
      then FrameRejected UnknownCommand rid
      else
        let allowed := if beq kind (str "cancel") then CANCEL_FIELDS else TRANSFER_FIELDS in
        if existsb (fun k => negb (existsb (beq k) allowed)) (mkeys object)
           || existsb (fun k => negb (contains_key k object)) allowed
           || negb (version_one object)
        then FrameMalformed
        else match rid, get_str "operationId" object, get_str "envelopeSha256" object with
        | Some rid, Some o, Some s =>
            if negb (beq o op) then FrameRejected WrongOperation (Some rid)
            else if negb (beq s sha) then FrameRejected WrongEnvelope (Some rid)
            else if beq kind (str "cancel") then FrameCommand (CancelCommand rid)
            else match mget (str "incarnation") object with
            | Some (VObj inc) =>
                if negb (length inc =? 2)%nat then FrameMalformed
                else match get_str "id" inc, get_str "generation" inc with
                | Some id, Some g =>
                    if negb (is_incarnation_id id) || (byte_len g =? 0) || (256 <? byte_len g)
                    then FrameMalformed
                    else FrameCommand (TransferCommand rid id g)
                | _, _ => FrameMalformed
                end
            | _ => FrameMalformed
            end
        | _, _, _ => FrameMalformed
        end
  end.

(** [strict] is [parse_strict_json]. *)
Definition parse_owner_frame (strict : bytes -> Result Value EnvelopeError) (line op sha : bytes)
  : OwnerFrame :=
  if FRAME_MAX_BYTES <? blen line + 1 then FrameMalformed
  else match (match from_utf8 line with
              | Some text => match strict text with Ok v => Some v | Err _ => None end
              | None => None
              end) with
  | Some (VObj object) =>
      parse_owner_object object op sha
  | _ => FrameMalformed
  end.

(** ** The envelope *)

Definition ENVELOPE_MAX_BYTES : Z := 32 * 1024.
Definition STRING_MAX_BYTES : Z := 256.
Definition BINDING_STRING_MAX_BYTES : Z := 1024.
Definition BINDINGS_MAX : nat := 64.

Definition FIELDS : list bytes :=
  [str "type"; str "version"; str "operationId"; str "owner"; str "origin"; str "subject";
   str "runtimeId"; str "expectedIncarnation"; str "bindings"].

Record Envelope : Type := mkEnvelope {
  line : bytes;
  sha256 : bytes;
  value : Value;
  e_operation_id : bytes;
  e_owner : bytes;
  origin : bytes;
  subject : bytes;
  e_runtime_id : bytes;
  expected_incarnation : option bytes
}.

Definition is_digest (v : bytes) : bool :=
  (byte_len v =? 64) && forallb (fun b => in_range 48 57 b || in_range 97 102 b) v.

Definition identifying_string (v : Value) : Result bytes bytes :=
  match v with
  | VStr text =>
      match text with
      | [] => Err (str "empty")
      | _ => if STRING_MAX_BYTES <? byte_len text then Err (str "too-long")
             else if negb (no_controls text) then Err (str "control-character")
             else Ok text
      end
  | _ => Err (str "not-string")
  end.

Definition is_key_char (b : Z) : bool :=
  is_ascii_alphanumeric b || (b =? 95) || (b =? 46) || (b =? 45).
Definition is_binding_key (k : bytes) : bool :=
  match k with
  | [] => false
  | c :: r => (byte_len k <=? 64) && is_ascii_alphabetic c && forallb is_key_char r
  end.

Definition env_error {A} (p : bytes) (r : string) : Result A EnvelopeError :=
  Err (mkEnvelopeError p (str r)).

(** One binding: its key and the kinds of value a binding may hold. *)
Definition validate_binding (kv : bytes * Value) : Result unit EnvelopeError :=
  let p := str "bindings." ++ fst kv in
  if negb (is_binding_key (fst kv)) then env_error p "invalid-key"
  else match snd kv with
  | VNull => Ok tt
  | VStr text => if byte_len text <=? BINDING_STRING_MAX_BYTES then Ok tt else env_error p "too-long"
  | VNum (NInt n) => if 0 <=? n then Ok tt else env_error p "unsupported-value"
  | _ => env_error p "unsupported-value"
  end.
Fixpoint validate_each (l : IndexMap Value) : Result unit EnvelopeError :=
  match l with
  | [] => Ok tt
  | kv :: l' => try _u := validate_binding kv in validate_each l'
  end.
Definition validate_bindings (v : Value) : Result unit EnvelopeError :=
  match v with
  | VObj m => if (BINDINGS_MAX <? length m)%nat then env_error (str "bindings") "too-many" else validate_each m
  | _ => env_error (str "bindings") "not-object"
  end.

(** A required identifying string; [parse_envelope] has checked its presence. *)
Definition string_field (o : IndexMap Value) (f : string) : Result bytes EnvelopeError :=
  match mget (str f) o with
  | Some v => match identifying_string v with
              | Ok t => Ok t
              | Err why => Err (mkEnvelopeError (str f) why)
              end
  | None => env_error (str f) "missing"
  end.

Definition parse_expected (o : IndexMap Value) : Result (option bytes) EnvelopeError :=
  match mget (str "expectedIncarnation") o with
  | Some VNull => Ok None
  | _ => try t := string_field o "expectedIncarnation" in
         if is_incarnation_id t then Ok (Some t)
         else env_error (str "expectedIncarnation") "not-pid-colon-created-at"
  end.

(** The value itself: the object's shape, then each field in turn. *)
Definition envelope_of (sha : bytes -> bytes) (ln : bytes) (v : Value) : Result Envelope EnvelopeError :=
  match v with
  | VObj o =>
      match List.find (fun k => negb (existsb (beq k) FIELDS)) (mkeys o) with
      | Some k => env_error k "unknown-field"
      | None =>
      match List.find (fun k => negb (contains_key k o)) FIELDS with
      | Some k => env_error k "missing"
      | None =>
          if negb match get_str "type" o with Some t => beq t (str "envelope") | None => false end
          then env_error (str "type") "must-be-envelope"
          else if negb (version_one o) then env_error (str "version") "unsupported"
          else
            try op := string_field o "operationId" in
            try ow := string_field o "owner" in
            try og := string_field o "origin" in
            try sb := string_field o "subject" in
            try rt := string_field o "runtimeId" in
            try ex := parse_expected o in
            try _u := validate_bindings match mget (str "bindings") o with Some b => b | None => VNull end in
            Ok (mkEnvelope ln (sha ln) v op ow og sb rt ex)
      end end
  | _ => env_error [] "not-object"
  end.

Definition parse_envelope (strict : bytes -> Result Value EnvelopeError) (sha : bytes -> bytes)
  (ln : bytes) : Result Envelope EnvelopeError :=
  if ENVELOPE_MAX_BYTES <? blen ln then env_error [] "too-large"
  else match from_utf8 ln with
       | None => env_error [] "not-utf8"
       | Some text => try v := strict text in envelope_of sha ln v
       end.

(** ** Lemmas *)

Lemma existsb_beq k l : existsb (beq k) l = true <-> k ∈ l.
Proof.
  rewrite existsb_exists. split.
  - intros (x & Hx & Hb). apply beq_eq in Hb. subst. apply list_elem_of_In, Hx.
  - intros H. exists k. split; [apply list_elem_of_In, H|apply beq_refl].
Qed.

Lemma existsb_negb_false {A} (f : A -> bool) l :
  existsb (fun x => negb (f x)) l = false <-> forall x, x ∈ l -> f x = true.
Proof.
  rewrite <- not_true_iff_false, existsb_exists. split.
  - intros H x Hx. destruct (f x) eqn:E; [done|]. exfalso. apply H. exists x.
    rewrite E. apply list_elem_of_In in Hx. done.
  - intros H (x & Hx & E). apply list_elem_of_In in Hx. rewrite (H x Hx) in E. done.
Qed.

Lemma find_negb_none {A} (f : A -> bool) l :
  List.find (fun x => negb (f x)) l = None <-> forall x, x ∈ l -> f x = true.
Proof.
  split.
  - intros H x Hx. apply list_elem_of_In in Hx. pose proof (List.find_none _ _ H x Hx) as E.
    apply negb_false_iff in E. exact E.
  - intros H. destruct (List.find _ l) as [x|] eqn:E; [|done]. apply List.find_some in E as [Hx E].
    apply list_elem_of_In in Hx. rewrite (H x Hx) in E. done.
Qed.

Lemma get_str_Some k o t : get_str k o = Some t <-> mget (str k) o = Some (VStr t).
Proof.
  unfold get_str. destruct (mget (str k) o) as [[]|]; cbn; split; congruence.
Qed.

Lemma version_one_spec o : version_one o = true <-> mget (str "version") o = Some (VNum (NInt 1)).
Proof.
  unfold version_one. split.
  - destruct (mget _ o) as [[| |[[|[]|]|]| | |]|]; done.
  - intros ->. done.
Qed.

(** An object with exactly these keys, whatever their order. *)
Definition exact_fields (o : IndexMap Value) (fs : list bytes) : Prop :=
  (forall k, k ∈ mkeys o -> k ∈ fs) /\ (forall k, k ∈ fs -> contains_key k o = true).

Lemma exact_fields_spec o fs :
  existsb (fun k => negb (existsb (beq k) fs)) (mkeys o)
  || existsb (fun k => negb (contains_key k o)) fs = false <-> exact_fields o fs.
Proof.
  rewrite orb_false_iff, !existsb_negb_false. unfold exact_fields.
  split; intros [H1 H2]; (split; [|exact H2]); intros k Hk; apply existsb_beq, H1, Hk.
Qed.

(** ** What an owner may say *)

(** The object's fields name this operation and its envelope, and a request. *)
Record addressed (o : IndexMap Value) (op sha rid : bytes) : Prop := mkAddressed {
  ad_version : mget (str "version") o = Some (VNum (NInt 1));
  ad_operation : mget (str "operationId") o = Some (VStr op);
  ad_envelope : mget (str "envelopeSha256") o = Some (VStr sha);
  ad_request : mget (str "requestId") o = Some (VStr rid) /\ is_request_id rid = true
}.

(** The two commands, as JSON objects. *)
Definition command_object (o : IndexMap Value) (op sha : bytes) (c : OwnerCommand) : Prop :=
  match c with
  | CancelCommand rid =>
      mget (str "type") o = Some (VStr (str "cancel")) /\ exact_fields o CANCEL_FIELDS /\
      addressed o op sha rid
  | TransferCommand rid id g =>
      mget (str "type") o = Some (VStr (str "transfer")) /\ exact_fields o TRANSFER_FIELDS /\
      addressed o op sha rid /\
      exists inc, mget (str "incarnation") o = Some (VObj inc) /\ length inc = 2%nat /\
        mget (str "id") inc = Some (VStr id) /\ mget (str "generation") inc = Some (VStr g) /\
        is_incarnation_id id = true /\ 1 <= byte_len g <= 256
  end.

Lemma byte_len_nonneg t : 0 <= byte_len t.
Proof.
  induction t as [|c t IH]; [cbn; lia|].
  change (byte_len (c :: t)) with (len_utf8 c + byte_len t). unfold len_utf8. repeat case_match; lia.
Qed.

Lemma command_of_object o op sha c :
  command_object o op sha c -> parse_owner_object o op sha = FrameCommand c.
Proof.
  intros H. unfold parse_owner_object.
  assert (Ha : exists rid, addressed o op sha rid /\ request_id c = rid)
    by (destruct c; cbn; [destruct H as (_ & _ & ?)|destruct H as (_ & _ & ? & _)]; eauto).
  destruct Ha as (rid & [Hv Ho Hs [Hr Hrid]] & Hc).
  rewrite (proj2 (get_str_Some "requestId" o rid) Hr). cbn [mbind option_bind]. rewrite Hrid.
  rewrite (proj2 (get_str_Some "operationId" o op) Ho), (proj2 (get_str_Some "envelopeSha256" o sha) Hs).
  assert (Hv1 : version_one o = true) by (apply version_one_spec; done).
  destruct c as [rid'|rid' id g]; cbn in Hc; subst rid'.
  - destruct H as (Ht & Hf & _). rewrite (proj2 (get_str_Some "type" o _) Ht).
    rewrite (beq_refl (str "cancel")). cbn [negb andb].
    apply exact_fields_spec in Hf. rewrite Hf, Hv1, !beq_refl. done.
  - destruct H as (Ht & Hf & _ & inc & Hi & Hl & Hid & Hg & Hii & Hgl).
    rewrite (proj2 (get_str_Some "type" o _) Ht).
    change (beq (str "transfer") (str "cancel")) with false.
    rewrite (beq_refl (str "transfer")). cbn [negb andb].
    apply exact_fields_spec in Hf. rewrite Hf, Hv1, !beq_refl, Hi, Hl. cbn [negb Nat.eqb orb].
    rewrite (proj2 (get_str_Some "id" inc id) Hid), (proj2 (get_str_Some "generation" inc g) Hg), Hii.
    destruct (byte_len g =? 0) eqn:E1, (256 <? byte_len g) eqn:E2; bprop; try lia. done.
Qed.

Lemma object_of_command o op sha c :
  parse_owner_object o op sha = FrameCommand c -> command_object o op sha c.
Proof.
  unfold parse_owner_object. destruct (get_str "type" o) as [kind|] eqn:Et; [|discriminate].
  apply get_str_Some in Et.
  destruct (negb (beq kind (str "cancel")) && _) eqn:Ek; [discriminate|].
  destruct (_ || negb (version_one o)) eqn:Ef; [discriminate|].
  apply orb_false_iff in Ef as [Ef Ev]. apply negb_false_iff, version_one_spec in Ev.
  apply exact_fields_spec in Ef.
  destruct (get_str "requestId" o) as [rid|] eqn:Er; cbn [mbind option_bind]; [|discriminate].
  destruct (is_request_id rid) eqn:Hrid; [|discriminate]. apply get_str_Some in Er.
  destruct (get_str "operationId" o) as [op'|] eqn:Eo; [|discriminate]. apply get_str_Some in Eo.
  destruct (get_str "envelopeSha256" o) as [sha'|] eqn:Es; [|discriminate]. apply get_str_Some in Es.
  destruct (beq op' op) eqn:E1; [|discriminate]. destruct (beq sha' sha) eqn:E2; [|discriminate].
  apply beq_eq in E1, E2. subst op' sha'. cbn [negb].
  assert (Ha : addressed o op sha rid) by (split; done).
  destruct (beq kind (str "cancel")) eqn:Ec.
  - apply beq_eq in Ec. subst kind. intros [= <-]. cbn. done.
  - cbn in Ek. apply negb_false_iff, beq_eq in Ek. subst kind.
    destruct (mget (str "incarnation") o) as [[| | | | |inc]|] eqn:Ei; try discriminate.
    destruct (length inc =? 2)%nat eqn:El; [|discriminate]. apply Nat.eqb_eq in El. cbn [negb].
    destruct (get_str "id" inc) as [id|] eqn:Eid; [|discriminate]. apply get_str_Some in Eid.
    destruct (get_str "generation" inc) as [g|] eqn:Eg; [|discriminate]. apply get_str_Some in Eg.
    destruct (is_incarnation_id id) eqn:Eii; [|discriminate].
    destruct (byte_len g =? 0) eqn:E1; [discriminate|]. destruct (256 <? byte_len g) eqn:E2; [discriminate|].
    intros [= <-]. bprop. pose proof (byte_len_nonneg g). cbn. repeat (split; [done|]).
    exists inc. repeat split; try done; lia.
Qed.

(** The owner's line is a command exactly when it is one JSON object, short
    enough, valid UTF-8, with exactly the fields of that command and no others,
    version 1, a usable request id, and naming this operation and this envelope;
    so a command for another operation, or with a field this version does not
    know, never takes effect. *)
Theorem owner_frame_command strict ln op sha c :
  parse_owner_frame strict ln op sha = FrameCommand c <->
  blen ln + 1 <= FRAME_MAX_BYTES /\
  exists text o, from_utf8 ln = Some text /\ strict text = Ok (VObj o) /\ command_object o op sha c.
Proof.
  unfold parse_owner_frame. destruct (FRAME_MAX_BYTES <? blen ln + 1) eqn:El; bprop.
  { split; [discriminate|]. intros [? _]. lia. }
  destruct (from_utf8 ln) as [text|]; [|split; [discriminate|intros (_ & ? & ? & ? & _); done]].
  destruct (strict text) as [v|e] eqn:Es; [|split; [discriminate|intros (_ & t & o & [= <-] & H & _); congruence]].
  destruct v as [| | | | |o]; try (split; [discriminate|intros (_ & t & o & [= <-] & H & _); congruence]).
  split.
  - intros H%object_of_command. split; [done|]. eauto.
  - intros (_ & t & o' & [= <-] & H & Hc). rewrite Es in H. injection H as ->.
    apply command_of_object, Hc.
Qed.

(** ** What an envelope declares *)

Definition identifying (t : bytes) : Prop :=
  t <> [] /\ byte_len t <= STRING_MAX_BYTES /\ no_controls t = true.
Lemma identifying_spec v t : identifying_string v = Ok t <-> v = VStr t /\ identifying t.
Proof.
  unfold identifying_string, identifying. split.
  - destruct v; try discriminate. destruct s as [|c s]; [discriminate|].
    destruct (STRING_MAX_BYTES <? _) eqn:E1; [discriminate|].
    destruct (no_controls _) eqn:E2; [|discriminate]. intros [= <-]. bprop. done.
  - intros (-> & Hne & Hl & Hc). destruct t; [done|]. rewrite Hc.
    destruct (STRING_MAX_BYTES <? _) eqn:E1; bprop; [lia|done].
Qed.

Lemma string_field_spec o f t :
  string_field o f = Ok t <-> mget (str f) o = Some (VStr t) /\ identifying t.
Proof.
  unfold string_field. destruct (mget (str f) o) as [v|]; [|split; [discriminate|intros [? _]; discriminate]].
  destruct (identifying_string v) as [t'|] eqn:E.
  - apply identifying_spec in E as [-> Ht]. split; [intros [= <-]; done|intros [[= ->] _]; done].
  - split; [discriminate|]. intros [[= ->] Ht].
    rewrite (proj2 (identifying_spec _ t) (conj eq_refl Ht)) in E. discriminate.
Qed.

(** A binding: a well-formed key, and null, a short string or a natural number. *)
Definition binding_ok (kv : bytes * Value) : Prop :=
  is_binding_key (fst kv) = true /\
  match snd kv with
  | VNull => True
  | VStr t => byte_len t <= BINDING_STRING_MAX_BYTES
  | VNum (NInt n) => 0 <= n
  | _ => False
  end.
Lemma validate_binding_spec kv : validate_binding kv = Ok tt <-> binding_ok kv.
Proof.
  unfold validate_binding, binding_ok. destruct (is_binding_key (fst kv)); cbn [negb];
    [|split; [discriminate|intros [? _]; done]].
  destruct (snd kv) as [| |[n|]|t| |]; try (split; [done|intros []; done]).
  - destruct (0 <=? n) eqn:E; bprop; split; try done; intros []; lia.
  - destruct (byte_len t <=? _) eqn:E; bprop; split; try done; intros []; lia.
Qed.
Lemma validate_each_spec l : validate_each l = Ok tt <-> Forall binding_ok l.
Proof.
  induction l as [|kv l IH]; cbn [validate_each]; [split; [constructor|done]|].
  rewrite Forall_cons, <- validate_binding_spec, <- IH.
  destruct (validate_binding kv) as [[]|e]; cbn [rbind]; split; try done; intros []; done.
Qed.

(** The line is an envelope, and [e] is what it declares. *)
Record declares (o : IndexMap Value) (e : Envelope) : Prop := mkDeclares {
  dc_fields : exact_fields o FIELDS;
  dc_type : mget (str "type") o = Some (VStr (str "envelope"));
  dc_version : mget (str "version") o = Some (VNum (NInt 1));
  dc_operation : mget (str "operationId") o = Some (VStr (e_operation_id e)) /\ identifying (e_operation_id e);
  dc_owner : mget (str "owner") o = Some (VStr (e_owner e)) /\ identifying (e_owner e);
  dc_origin : mget (str "origin") o = Some (VStr (origin e)) /\ identifying (origin e);
  dc_subject : mget (str "subject") o = Some (VStr (subject e)) /\ identifying (subject e);
  dc_runtime : mget (str "runtimeId") o = Some (VStr (e_runtime_id e)) /\ identifying (e_runtime_id e);
  dc_expected : mget (str "expectedIncarnation") o =
      Some match expected_incarnation e with Some t => VStr t | None => VNull end /\
      forall t, expected_incarnation e = Some t -> identifying t /\ is_incarnation_id t = true;
  dc_bindings : exists m, mget (str "bindings") o = Some (VObj m) /\ (length m <= BINDINGS_MAX)%nat /\
      Forall binding_ok m
}.

Lemma parse_expected_spec o x :
  parse_expected o = Ok x <->
  mget (str "expectedIncarnation") o = Some match x with Some t => VStr t | None => VNull end /\
  forall t, x = Some t -> identifying t /\ is_incarnation_id t = true.
Proof.
  unfold parse_expected. split.
  - intros H. assert (H' : mget (str "expectedIncarnation") o = Some VNull /\ x = None \/
      exists t, string_field o "expectedIncarnation" = Ok t /\ is_incarnation_id t = true /\ x = Some t).
    { destruct (string_field o "expectedIncarnation") as [t|] eqn:Es; cbn [rbind] in H.
      - right. exists t. apply string_field_spec in Es as [Em Hid]. rewrite Em in H.
        destruct (is_incarnation_id t); [|discriminate]. split; [done|]. split; [done|congruence].
      - left. destruct (mget _ o) as [[]|]; try discriminate. split; congruence. }
    destruct H' as [[-> ->]|(t & Ht & Hi & ->)]; [done|]. apply string_field_spec in Ht as [-> Ht].
    split; [done|]. intros ? [= <-]. done.
  - intros [H Hx]. destruct x as [t|]; rewrite H; [|done].
    destruct (Hx t eq_refl) as [Ht Hi]. rewrite (proj2 (string_field_spec _ _ t) (conj H Ht)). cbn [rbind].
    rewrite Hi. done.
Qed.

Lemma envelope_of_spec sha ln v e :
  envelope_of sha ln v = Ok e <->
  exists o, v = VObj o /\ declares o e /\ line e = ln /\ sha256 e = sha ln /\ value e = v.
Proof.
  unfold envelope_of. split.
  - destruct v as [| | | | |o]; try discriminate.
    destruct (List.find _ (mkeys o)) eqn:E1; [discriminate|]. destruct (List.find _ FIELDS) eqn:E2; [discriminate|].
    pose proof (proj1 (find_negb_none _ _) E1) as F1. pose proof (proj1 (find_negb_none _ _) E2) as F2.
    destruct (get_str "type" o) as [t|] eqn:Et; [|discriminate]. apply get_str_Some in Et.
    destruct (beq t (str "envelope")) eqn:Eb; [|discriminate]. apply beq_eq in Eb. subst t.
    destruct (version_one o) eqn:Ev; [|discriminate]. apply version_one_spec in Ev. cbn [negb].
    destruct (string_field o "operationId") eqn:S1; [|discriminate]. cbn [rbind].
    destruct (string_field o "owner") eqn:S2; [|discriminate]. cbn [rbind].
    destruct (string_field o "origin") eqn:S3; [|discriminate]. cbn [rbind].
    destruct (string_field o "subject") eqn:S4; [|discriminate]. cbn [rbind].
    destruct (string_field o "runtimeId") eqn:S5; [|discriminate]. cbn [rbind].
    destruct (parse_expected o) as [x|] eqn:Sx; [|discriminate]. cbn [rbind].
    destruct (mget (str "bindings") o) as [b|] eqn:Eo; [|discriminate].
    destruct (validate_bindings b) as [[]|] eqn:Sb; [|discriminate]. cbn [rbind]. intros [= <-].
    exists o. split; [done|]. split; [|done].
    apply string_field_spec in S1, S2, S3, S4, S5. apply parse_expected_spec in Sx.
    split; try done.
    + split; [|exact F2]. intros k Hk. apply existsb_beq, F1, Hk.
    + unfold validate_bindings in Sb. destruct b as [| | | | |m]; try discriminate.
      destruct (BINDINGS_MAX <? length m)%nat eqn:E; [discriminate|]. apply Nat.ltb_ge in E.
      exists m. apply validate_each_spec in Sb. done.
  - intros (o & -> & [[F1 F2] Ht Hv H1 H2 H3 H4 H5 Hx (m & Hm & Hl & Hb)] & <- & <- & Hval).
    rewrite (proj2 (find_negb_none _ (mkeys o))) by (intros k Hk; apply existsb_beq, F1, Hk).
    rewrite (proj2 (find_negb_none (fun k => contains_key k o) FIELDS) F2).
    rewrite (proj2 (get_str_Some "type" o _) Ht), (beq_refl (str "envelope")).
    rewrite (proj2 (version_one_spec o) Hv). cbn [negb].
    apply string_field_spec in H1, H2, H3, H4, H5. rewrite H1, H2, H3, H4, H5. cbn [rbind].
    rewrite (proj2 (parse_expected_spec _ _) Hx). cbn [rbind]. rewrite Hm. unfold validate_bindings.
    destruct (BINDINGS_MAX <? length m)%nat eqn:E; [apply Nat.ltb_lt in E; lia|].
    rewrite (proj2 (validate_each_spec m) Hb). cbn [rbind]. destruct e; cbn in *. congruence.
Qed.

(** A line is accepted as an envelope exactly when it is one: short enough,
    valid UTF-8, one JSON object with exactly the nine fields, whose strings are
    identifying, whose prior incarnation is null or a [pid:createdAt], and whose
    bindings are few and plain; and what is returned is what it declares, with the
    hash of its exact bytes. *)
Theorem parse_envelope_spec strict sha ln e :
  parse_envelope strict sha ln = Ok e <->
  blen ln <= ENVELOPE_MAX_BYTES /\
  exists text o, from_utf8 ln = Some text /\ strict text = Ok (VObj o) /\ declares o e /\
    line e = ln /\ sha256 e = sha ln /\ value e = VObj o.
Proof.
  unfold parse_envelope. destruct (ENVELOPE_MAX_BYTES <? blen ln) eqn:El; bprop.
  { split; [discriminate|]. intros [? _]. lia. }
  destruct (from_utf8 ln) as [text|]; [|split; [discriminate|intros (_ & ? & ? & ? & _); done]].
  destruct (strict text) as [v|er] eqn:Es; cbn [rbind];
    [|split; [discriminate|intros (_ & t & o & [= <-] & H & _); congruence]].
  rewrite envelope_of_spec. split.
  - intros (o & -> & Hd & H1 & H2 & H3). split; [done|]. exists text, o. done.
  - intros (_ & t & o & [= <-] & H & Hd & H1 & H2 & H3). exists o. rewrite Es in H. injection H as ->. done.
Qed.
