(* ===== verification/ProcTable.v ===== *)
(** The process table of [crates/pty-core/src/proctable.rs]: the answers it gives,
    its rows, and the readers that build it from [/proc], from [ps] and from the
    macOS kernel's rows.  What the kernel and [ps] return are arguments. *)
From S2P Require Import Prelude Time Names Text.

(** ** Answers *)

Inductive UnknownWhy : Type := TableUnreadable | FieldEmpty | FieldUnparsable.

Inductive Answer (T : Type) : Type :=
  | Known (v : T)
  | NotPresent
  | AnswerUnknown (why : UnknownWhy).
Arguments Known {T} v.
Arguments NotPresent {T}.
Arguments AnswerUnknown {T} why.

Definition known {T} (a : Answer T) : option T := match a with Known v => Some v | _ => None end.
Definition is_definitely_absent {T} (a : Answer T) : bool :=
  match a with NotPresent => true | _ => false end.
Definition is_unknown {T} (a : Answer T) : bool :=
  match a with AnswerUnknown _ => true | _ => false end.
Definition or_absent_when_unknown {T} (a : Answer T) : Answer T :=
  match a with AnswerUnknown _ => NotPresent | other => other end.
Definition answer_map {T U} (f : T -> U) (a : Answer T) : Answer U :=
  match a with
  | Known v => Known (f v)
  | NotPresent => NotPresent
  | AnswerUnknown u => AnswerUnknown u
  end.

(** ** Rows and tables *)

(** The pids are [i32]; a percentage is the text it was parsed from. *)
Record Row : Type := mkRow {
  row_pid : Z;
  ppid : Z;
  pgid : Z;
  row_state : bytes;
  rss_kb : option Z;
  cpu_percent : option bytes;
  identity : option bytes
}.

Definition is_zombie (r : Row) : bool := starts_with [90] (row_state r) || starts_with [88] (row_state r).
Definition is_exiting (r : Row) : bool := starts_with [69] (row_state r).
Definition is_stopped (r : Row) : bool := starts_with [84] (row_state r) || starts_with [116] (row_state r).

Record ProcTable : Type := mkTable {
  table_rows : gmap Z Row;
  readable : bool;
  complete : bool
}.

Definition unreadable : ProcTable := mkTable ∅ false false.
(** A later row of the same pid replaces an earlier one. *)
Definition from_rows (rows : list Row) : ProcTable :=
  mkTable (foldl (fun m r => <[row_pid r := r]> m) ∅ rows) true true.
Definition marked_incomplete (t : ProcTable) : ProcTable := mkTable (table_rows t) (readable t) false.
Definition is_complete (t : ProcTable) : bool := readable t && complete t.
(** [lookup], and [row], which is it. *)
Definition row (t : ProcTable) (pid : Z) : Answer Row :=
  if readable t
  then match table_rows t !! pid with Some r => Known r | None => NotPresent end
  else AnswerUnknown TableUnreadable.

Definition is_running (t : ProcTable) (pid : Z) : Answer bool :=
  answer_map (fun r => negb (is_zombie r)) (row t pid).
Definition table_identity (t : ProcTable) (pid : Z) : Answer bytes :=
  match row t pid with
  | Known r => match identity r with Some i => Known i | None => AnswerUnknown FieldEmpty end
  | NotPresent => NotPresent
  | AnswerUnknown u => AnswerUnknown u
  end.
Definition resources (t : ProcTable) (pid : Z) : Answer (Z * bytes) :=
  match row t pid with
  | Known r => match rss_kb r, cpu_percent r with
               | Some rss, Some cpu => Known (rss, cpu)
               | _, _ => AnswerUnknown FieldEmpty
               end
  | NotPresent => NotPresent
  | AnswerUnknown u => AnswerUnknown u
  end.

(** ** [/proc] *)

(** [page_size_kb]: [sysconf]'s answer in bytes. *)
Definition page_size_kb (sysconf : Z) : Z := if 0 <? sysconf then sysconf / 1024 else 4.

(** The tail after the last [)] holds field 3 onwards. *)
Definition parse_proc_stat (sysconf pid : Z) (stat : bytes) : option Row :=
  let? tail := after_last 41 stat in
  let f := split_whitespace tail in
  let? state := f !! 0%nat in
  let? t1 := f !! 1%nat in
  let? ppid := parse_i32 t1 in
  let? t2 := f !! 2%nat in
  let? pgid := parse_i32 t2 in
  let? start_time := f !! 19%nat in
  let rss_pages := default 0 (f !! 21%nat ≫= parse_u64) in
  Some (mkRow pid ppid pgid state (Some ((rss_pages * page_size_kb sysconf) mod (U64_MAX + 1))) None
          (Some (str "linux:" ++ start_time))).

(** How a read failed: the process is gone ([ENOENT], [ESRCH]), or not known. *)
Inductive ReadFailure : Type := ProcessGone | ReadRefused.

Definition own_row (own : Z) (rows : list Row) : bool := existsb (fun r => row_pid r =? own) rows.

(** One entry of the listing: the rows so far and whether nothing was lost. *)
Definition listing_entry (sysconf : Z) (read_stat : Z -> Result bytes ReadFailure)
  (acc : list Row * bool) (entry : Result bytes unit) : list Row * bool :=
  let '(rows, complete) := acc in
  match entry with
  | Err _ => (rows, false)
  | Ok name =>
      match parse_i32 name with
      | None => acc
      | Some pid =>
          match read_stat pid with
          | Ok stat => match parse_proc_stat sysconf pid stat with
                       | Some r => (rows ++ [r], complete)
                       | None => (rows, false)
                       end
          | Err ProcessGone => acc
          | Err ReadRefused => (rows, false)
          end
      end
  end.
Definition finish_table (own : Z) (acc : list Row * bool) : ProcTable :=
  let '(rows, complete) := acc in
  if negb (own_row own rows) then unreadable
  else if complete then from_rows rows
  else marked_incomplete (from_rows rows).
Definition from_proc_listing (sysconf : Z) (entries : list (Result bytes unit))
  (read_stat : Z -> Result bytes ReadFailure) (own : Z) : ProcTable :=
  finish_table own (foldl (listing_entry sysconf read_stat) ([], true) entries).

Definition stat_answer (sysconf pid : Z) (read : Result bytes ReadFailure) : Answer Row :=
  match read with
  | Ok stat => match parse_proc_stat sysconf pid stat with
               | Some r => Known r
               | None => AnswerUnknown FieldUnparsable
               end
  | Err ProcessGone => NotPresent
  | Err ReadRefused => AnswerUnknown TableUnreadable
  end.
(** [process] on Linux. *)
Definition process (sysconf : Z) (read_stat : Z -> Result bytes ReadFailure) (pid : Z) : Answer Row :=
  if pid <=? 0 then NotPresent else stat_answer sysconf pid (read_stat pid).
Definition has_exited (sysconf : Z) (read_stat : Z -> Result bytes ReadFailure) (pid : Z) : Answer bool :=
  answer_map is_zombie (process sysconf read_stat pid).

(** ** [ps] *)

Fixpoint split_leading_fields (line : bytes) (n : nat) : list bytes * bytes :=
  match n with
  | O => ([], trim_start (Z.eqb 32) line)
  | S n' =>
      match span (fun c => negb (is_trim_space c)) (trim_start is_trim_space line) with
      | (field, []) => (if is_nonempty field then [field] else [], [])
      | (field, rest) => let '(fields, tail) := split_leading_fields rest n' in (field :: fields, tail)
      end
  end.

Definition parse_ps_row (line : bytes) : option Row :=
  let '(it, tail) := split_leading_fields line 6 in
  let? t0 := it !! 0%nat in
  let? pid := parse_i32 t0 in
  let? t1 := it !! 1%nat in
  let? ppid := parse_i32 t1 in
  let? t2 := it !! 2%nat in
  let? pgid := parse_i32 t2 in
  let tail := trim is_trim_space tail in
  Some (mkRow pid ppid pgid (default [] (it !! 3%nat)) (it !! 4%nat ≫= parse_u64)
          (it !! 5%nat ≫= parse_f64)
          (if is_nonempty tail then Some (str "darwin:" ++ tail) else None)).

Definition from_ps_listing_checked (listing : bytes) (must_contain : Z) : ProcTable :=
  let rows := omap parse_ps_row (lines listing) in
  if negb (own_row must_contain rows) then unreadable else from_rows rows.

(** ** The macOS pid listing *)

(** [size k] and [read k cap] are the [k]th calls: the bytes the listing needs, and
    the buffer of [cap] pids with the bytes written.  [n] reads are left. *)
Fixpoint list_pids_loop (n : nat) (size : nat -> Z) (read : nat -> nat -> list Z * Z)
  (k slack : nat) (last : list Z) : option (list Z * bool) :=
  match n with
  | O => Some (last, false)
  | S n' =>
      if size k <=? 0 then None
      else
        let cap := (Z.to_nat (size k / 4) + slack)%nat in
        let '(pids, written) := read k cap in
        if written <=? 0 then None
        else
          let count := Nat.min (Z.to_nat (written / 4)) cap in
          if (count <? cap)%nat then Some (take count pids, true)
          else list_pids_loop n' size read (S k) (slack * 8) pids
  end.
Definition list_pids_with_slack (size : nat -> Z) (read : nat -> nat -> list Z * Z)
  : option (list Z * bool) := list_pids_loop 4 size read 0 64 [].

(** ** The macOS kernel's row *)

Record KinfoLayout : Type := mkLayout {
  start_sec : nat; start_usec : nat; p_stat : nat; p_flag : nat; p_pid : nat;
  e_ppid : nat; e_pgid : nat; ruid : nat; euid : nat
}.
Definition KINFO_SIZE : nat := 648.
Definition P_PID_OFFSET : nat := 40.
Definition KINFO : KinfoLayout := mkLayout 0 8 36 32 P_PID_OFFSET 560 564 392 420.
Definition SRUN : Z := 2.
Definition SSTOP : Z := 4.
Definition SZOMB : Z := 5.
Definition P_LP64 : Z := 4.
Definition P_WEXIT : Z := 8192.

(** Little-endian integers; a slice past the end, which panics, is [None]. *)
Fixpoint le_value (l : bytes) : Z := match l with [] => 0 | b :: l' => b + 256 * le_value l' end.
Definition read_le (width : nat) (buf : bytes) (at_ : nat) : option Z :=
  if (at_ + width <=? length buf)%nat then Some (le_value (take width (drop at_ buf))) else None.
Definition read_u32 : bytes -> nat -> option Z := read_le 4.
Definition to_i32 (v : Z) : Z := if v <? 2147483648 then v else v - 4294967296.
Definition read_i32 (buf : bytes) (at_ : nat) : option Z := to_i32 <$> read_u32 buf at_.

Definition kinfo_exiting (buf : bytes) (l : KinfoLayout) : option bool :=
  let? st := buf !! p_stat l in
  if st =? SZOMB then Some false
  else let? fl := read_u32 buf (p_flag l) in Some (negb (Z.land fl P_WEXIT =? 0)).

Record OwnFacts : Type := mkOwn {
  own_pid : Z; own_ppid : Z; own_pgid : Z; own_ruid : Z; own_euid : Z;
  own_start_sec : Z; own_start_usec : Z
}.

Definition fits (buf : bytes) (at_ width : nat) : bool := (at_ + width <=? length buf)%nat.
Definition layout_fits (buf : bytes) (l : KinfoLayout) : bool :=
  fits buf (start_sec l) 8 && fits buf (start_usec l) 4 && fits buf (p_stat l) 1
  && forallb (fun a => fits buf a 4) [p_flag l; p_pid l; e_ppid l; e_pgid l; ruid l; euid l].
(** [None] is a panic. *)
Definition layout_reads_itself (buf : bytes) (l : KinfoLayout) (own : OwnFacts) : option bool :=
  if negb (layout_fits buf l) then Some false
  else
    let? sec := read_le 8 buf (start_sec l) in
    let? usec := read_u32 buf (start_usec l) in
    let? pid := read_i32 buf (p_pid l) in
    let? ppid := read_i32 buf (e_ppid l) in
    let? pgid := read_i32 buf (e_pgid l) in
    let? ru := read_u32 buf (ruid l) in
    let? eu := read_u32 buf (euid l) in
    let? st := buf !! p_stat l in
    let? fl := read_u32 buf (p_flag l) in
    Some ((pid =? own_pid own) && (ppid =? own_ppid own) && (pgid =? own_pgid own)
          && (ru =? own_ruid own) && (eu =? own_euid own)
          && (sec =? own_start_sec own) && (usec =? own_start_usec own)
          && (st =? SRUN) && (Z.land fl (Z.lor P_LP64 P_WEXIT) =? P_LP64)).

Definition layout_finds_itself (buf : bytes) (pid : Z) : bool :=
  (P_PID_OFFSET + 4 <=? length buf)%nat
  && match read_i32 buf P_PID_OFFSET with Some v => v =? pid | None => false end.

(** One [KERN_PROC_PID] call: its failure (whether it was [ESRCH]) or the buffer and
    the length it filled. *)
Definition kinfo_row (pid : Z) (call : Result (bytes * Z) bool) : Answer bytes :=
  match call with
  | Err true => NotPresent
  | Err false => AnswerUnknown TableUnreadable
  | Ok (buf, len) =>
      if len =? 0 then NotPresent
      else if len <? Z.of_nat KINFO_SIZE then AnswerUnknown TableUnreadable
      else if negb (layout_finds_itself buf pid) then AnswerUnknown TableUnreadable
      else Known buf
  end.

(** [{usec:06}]. *)
Definition pad0 (width : nat) (s : bytes) : bytes := replicate (width - length s) 48 ++ s.

(** [sysctl_proc]; [None] is a panic. *)
Definition sysctl_proc (verified : bool) (pid : Z) (call : Result (bytes * Z) bool) : option (Answer Row) :=
  if negb verified then Some (AnswerUnknown TableUnreadable)
  else match kinfo_row pid call with
  | NotPresent => Some NotPresent
  | AnswerUnknown why => Some (AnswerUnknown why)
  | Known buf =>
      let? sec := read_le 8 buf (start_sec KINFO) in
      let? usec := read_u32 buf (start_usec KINFO) in
      let? pp := read_i32 buf (e_ppid KINFO) in
      let? pg := read_i32 buf (e_pgid KINFO) in
      let? st := buf !! p_stat KINFO in
      let? ex := kinfo_exiting buf KINFO in
      Some (Known (mkRow pid pp pg
        (if st =? SZOMB then str "Z" else if (ex : bool) then str "E" else if st =? SSTOP then str "T" else str "S")
        None None (Some (str "darwin:" ++ dec sec ++ [46] ++ pad0 6 (dec usec)))))
  end.

(** [kinfo_owner_checked]: the real and effective uid and whether it is a zombie. *)
Definition kinfo_owner (verified : bool) (pid : Z) (call : Result (bytes * Z) bool)
  : option (Answer (Z * Z * bool)) :=
  if negb verified then Some (AnswerUnknown TableUnreadable)
  else match kinfo_row pid call with
  | NotPresent => Some NotPresent
  | AnswerUnknown why => Some (AnswerUnknown why)
  | Known buf =>
      let? ru := read_u32 buf (ruid KINFO) in
      let? eu := read_u32 buf (euid KINFO) in
      let? st := buf !! p_stat KINFO in
      Some (Known (ru, eu, st =? SZOMB))
  end.

(** [proc_pidinfo]'s row, as [read_bsdinfo] turns it into one. *)
Record BsdInfo : Type := mkBsd {
  pbi_ppid : Z; pbi_pgid : Z; pbi_status : Z; pbi_start_tvsec : Z; pbi_start_tvusec : Z
}.
Definition read_bsdinfo (info : option BsdInfo) (pid : Z) : option Row :=
  let? i := info in
  Some (mkRow pid (to_i32 (pbi_ppid i)) (to_i32 (pbi_pgid i))
    (if pbi_status i =? SZOMB then str "Z" else if pbi_status i =? SSTOP then str "T" else str "S")
    None None
    (Some (str "darwin:" ++ dec (pbi_start_tvsec i) ++ [46] ++ pad0 6 (dec (pbi_start_tvusec i))))).

(** [process] on macOS: the row of either call. *)
Definition process_macos (info : Z -> option BsdInfo) (sysctl : Z -> Answer Row) (pid : Z) : Answer Row :=
  if pid <=? 0 then NotPresent
  else match read_bsdinfo (info pid) pid with
       | Some r => Known r
       | None => sysctl pid
       end.

(** [read_libproc]. *)
Definition libproc_entry (info : Z -> option BsdInfo) (sysctl : Z -> Answer Row)
  (acc : list Row * bool) (pid : Z) : list Row * bool :=
  let '(rows, complete) := acc in
  match read_bsdinfo (info pid) pid with
  | Some r => (rows ++ [r], complete)
  | None => match sysctl pid with
            | Known r => (rows ++ [r], complete)
            | NotPresent => acc
            | AnswerUnknown _ => (rows, false)
            end
  end.
Definition read_libproc (listing : option (list Z * bool)) (info : Z -> option BsdInfo)
  (sysctl : Z -> Answer Row) (own : Z) : ProcTable :=
  match listing with
  | None => unreadable
  | Some (pids, listed_whole) =>
      finish_table own
        (foldl (libproc_entry info sysctl) ([], listed_whole) (List.filter (fun p => 0 <? p) pids))
  end.

(** ** The registry's token *)

(** [struct tm]. *)
Record Tm : Type := mkTm {
  tm_wday : Z; tm_mon : Z; tm_mday : Z; tm_hour : Z; tm_min : Z; tm_sec : Z; tm_year : Z
}.
Definition WEEKDAYS : list bytes :=
  map str ["Sun"; "Mon"; "Tue"; "Wed"; "Thu"; "Fri"; "Sat"]%string.
Definition MONTHS : list bytes :=
  map str ["Jan"; "Feb"; "Mar"; "Apr"; "May"; "Jun"; "Jul"; "Aug"; "Sep"; "Oct"; "Nov"; "Dec"]%string.
(** [get(i as usize)]: a negative index is out of range. *)
Definition get_index (l : list bytes) (i : Z) : option bytes := if i <? 0 then None else l !! Z.to_nat i.
(** [{:>2}], and [{:02}], whose sign comes before the padding. *)
Definition pad_left (width : nat) (s : bytes) : bytes := replicate (width - length s) 32 ++ s.
Definition zero2 (n : Z) : bytes := if n <? 0 then 45 :: pad0 1 (dec_nat (- n)) else pad0 2 (dec_nat n).
Definition matches_darwin_registry_tm (token : bytes) (local : Tm) : bool :=
  match get_index WEEKDAYS (tm_wday local), get_index MONTHS (tm_mon local) with
  | Some weekday, Some month =>
      let text := str "darwin:" ++ weekday ++ [32] ++ month ++ [32] ++ pad_left 2 (dec (tm_mday local))
        ++ [32] ++ zero2 (tm_hour local) ++ [58] ++ zero2 (tm_min local) ++ [58] ++ zero2 (tm_sec local)
        ++ [32] ++ dec (tm_year local + 1900) in
      (blen text <=? 64) && beq token text
  | _, _ => false
  end.
(** [LiveIdentity::matches_registry_start_token]: on Linux equality, on macOS the
    start second printed as [ps] prints it ([local] is [localtime_r]). *)
Definition matches_linux (identity token : bytes) : bool := beq identity token.
Definition matches_macos (local : Z -> option Tm) (identity token : bytes) : bool :=
  match strip_prefix (str "darwin:") identity with
  | None => false
  | Some raw =>
      match split_once 46 raw with
      | None => false
      | Some (seconds, _) =>
          match parse_signed I64_MIN I64_MAX seconds with
          | None => false
          | Some s => match local s with
                      | None => false
                      | Some tm => matches_darwin_registry_tm token tm
                      end
          end
      end
  end.

(** ** Lemmas *)

Lemma from_rows_lookup rows p r :
  table_rows (from_rows rows) !! p = Some r -> r ∈ rows /\ row_pid r = p.
Proof.
  cbn. rewrite <- (rev_involutive rows). generalize (rev rows) as l. intros l. revert r.
  induction l as [|x l IH]; cbn [rev]; intros r.
  - cbn. rewrite lookup_empty. discriminate.
  - rewrite foldl_app. cbn. destruct (Z.eq_dec (row_pid x) p) as [<-|Hne].
    + rewrite lookup_insert_eq. intros [= <-]. split; [apply elem_of_app; right; left|done].
    + rewrite lookup_insert_ne by done. intros [Hin Hp]%IH. split; [apply elem_of_app; left|]; done.
Qed.

Lemma from_rows_present rows r :
  r ∈ rows -> exists r', table_rows (from_rows rows) !! row_pid r = Some r'.
Proof.
  cbn. rewrite <- (rev_involutive rows). generalize (rev rows) as l. induction l as [|x l IH]; cbn [rev].
  - intros H. inversion H.
  - rewrite foldl_app. cbn. intros [Hin|Hx%list_elem_of_singleton]%elem_of_app.
    + destruct (Z.eq_dec (row_pid x) (row_pid r)) as [->|Hne].
      * rewrite lookup_insert_eq. eauto.
      * rewrite lookup_insert_ne by done. apply IH, Hin.
    + subst x. rewrite lookup_insert_eq. eauto.
Qed.

Lemma own_row_spec own rows : own_row own rows = true <-> exists r, r ∈ rows /\ row_pid r = own.
Proof.
  unfold own_row. rewrite existsb_exists. split; intros (r & Hin & Hr); exists r.
  - apply list_elem_of_In in Hin. apply Z.eqb_eq in Hr. done.
  - apply list_elem_of_In in Hin. split; [done|apply Z.eqb_eq, Hr].
Qed.

Lemma parse_proc_stat_pid sysconf pid stat r : parse_proc_stat sysconf pid stat = Some r -> row_pid r = pid.
Proof.
  unfold parse_proc_stat. destruct (after_last 41 stat); [|discriminate]. cbn -[parse_i32].
  repeat (match goal with |- context [mbind _ ?c] => destruct c; cbn -[parse_i32]; [|discriminate] end).
  intros [= <-]. done.
Qed.

Lemma le_value_read w buf k : (k + w <= length buf)%nat -> exists v, read_le w buf k = Some v.
Proof. intros H. unfold read_le. apply Nat.leb_le in H. rewrite H. eauto. Qed.

(** ** The [/proc] reader *)

Section ProcListing.
Context (sysconf : Z) (es : list (Result bytes unit)) (read_stat : Z -> Result bytes ReadFailure).

(** The listing names the process; the row its [stat] reads as. *)
Definition listed (p : Z) : Prop := exists name, Ok name ∈ es /\ parse_i32 name = Some p.
Definition stat_row (p : Z) : option Row :=
  match read_stat p with Ok stat => parse_proc_stat sysconf p stat | Err _ => None end.
(** An entry that may hide a process: unreadable, or of a process that is there and
    whose [stat] was refused or does not parse. *)
Definition lost (e : Result bytes unit) : Prop :=
  match e with
  | Err _ => True
  | Ok name => exists p, parse_i32 name = Some p /\ stat_row p = None /\ read_stat p <> Err ProcessGone
  end.

Lemma not_lost_row name p : parse_i32 name = Some p -> is_Some (stat_row p) -> ~ lost (Ok name).
Proof. intros Hp [r Hr] (q & Hq & Hn & _). congruence. Qed.

Lemma not_lost_gone name p : parse_i32 name = Some p -> read_stat p = Err ProcessGone -> ~ lost (Ok name).
Proof. intros Hp Hg (q & Hq & _ & Hn). congruence. Qed.

Lemma lost_row name p :
  parse_i32 name = Some p -> stat_row p = None -> read_stat p <> Err ProcessGone -> lost (Ok name).
Proof. exists p. done. Qed.

Definition entry_row (e : Result bytes unit) (r : Row) : Prop :=
  exists name p, e = Ok name /\ parse_i32 name = Some p /\ stat_row p = Some r.

(** One entry adds its row, or leaves the rows and says whether something is lost. *)
Lemma listing_step e rows c :
  exists rows1 c1, listing_entry sysconf read_stat (rows, c) e = (rows1, c1) /\
    (forall r, r ∈ rows1 <-> r ∈ rows \/ entry_row e r) /\
    (c1 = true <-> c = true /\ ~ lost e).
Proof.
  assert (Hno : forall name, (forall p, parse_i32 name = Some p -> stat_row p = None) ->
    forall r, r ∈ rows <-> r ∈ rows \/ entry_row (Ok name) r).
  { intros name Hn r. split; [auto|]. intros [?|(n & q & [= <-] & Hq & Hr)]; [done|].
    rewrite (Hn _ Hq) in Hr. done. }
  unfold listing_entry. destruct e as [name|u].
  2:{ exists rows, false. split; [done|]. split; [|split; [done|intros [_ Hl]; destruct Hl; done]].
      intros r. split; [auto|]. intros [?|(n & q & H & _)]; done. }
  destruct (parse_i32 name) as [p|] eqn:Ep.
  2:{ exists rows, c. split; [done|]. split; [apply Hno; congruence|].
      split; [intros ->; split; [done|]|tauto]. intros (q & Hq & _). congruence. }
  destruct (read_stat p) as [stat|f] eqn:Er.
  - assert (Es : stat_row p = parse_proc_stat sysconf p stat) by (unfold stat_row; rewrite Er; done).
    destruct (parse_proc_stat sysconf p stat) as [r0|].
    + exists (rows ++ [r0]), c. split; [done|]. split.
      * intros r. rewrite elem_of_app, list_elem_of_singleton. split.
        -- intros [?| ->]; [auto|]. right. exists name, p. done.
        -- intros [?|(n & q & [= <-] & Hq & Hr)]; [auto|]. right. congruence.
      * split; [intros ->; split; [done|]|tauto]. apply (not_lost_row name p); [done|]. rewrite Es. eauto.
    + exists rows, false. split; [done|]. split; [apply Hno; congruence|].
      split; [done|]. intros [_ Hl]. destruct Hl. apply (lost_row name p); congruence.
  - assert (Es : stat_row p = None) by (unfold stat_row; rewrite Er; done). destruct f.
    + exists rows, c. split; [done|]. split; [apply Hno; congruence|].
      split; [intros ->; split; [done|]|tauto]. apply (not_lost_gone name p); done.
    + exists rows, false. split; [done|]. split; [apply Hno; congruence|].
      split; [done|]. intros [_ Hl]. destruct Hl. apply (lost_row name p); congruence.
Qed.

Lemma listing_fold l rows c :
  let '(rows', c') := foldl (listing_entry sysconf read_stat) (rows, c) l in
  (forall r, r ∈ rows' <-> r ∈ rows \/
     exists name p, Ok name ∈ l /\ parse_i32 name = Some p /\ stat_row p = Some r) /\
  (c' = true <-> c = true /\ forall e, e ∈ l -> ~ lost e).
Proof.
  revert rows c. induction l as [|e l IH]; intros rows c; cbn [foldl].
  - split; [intros r; split; [auto|intros [?|(? & ? & H & _)]; [done|inversion H]]|].
    split; [intros Hc0; split; [done|intros e He; inversion He]|tauto].
  - destruct (listing_step e rows c) as (rows1 & c1 & -> & Hr1 & Hc1). specialize (IH rows1 c1).
    destruct (foldl _ _ l) as [rows' c']. destruct IH as [IHr IHc]. split.
    + intros r. rewrite IHr, Hr1. split.
      * intros [[?|(n & p & -> & Hn)]|(n & p & Hin & Hn)]; [auto| |]; right; exists n, p.
        -- split; [left|done].
        -- split; [right|]; done.
      * intros [?|(n & p & Hin & H)]; [auto|]. apply elem_of_cons in Hin. destruct Hin as [<-|Hin]; [left; right|right];
          exists n, p; done.
    + rewrite IHc, Hc1. split.
      * intros [[? ?] Hl]. split; [done|]. intros e' He. apply elem_of_cons in He. destruct He as [->|He]; auto.
      * intros [? Hl]. repeat split; [done| |]; [apply Hl; left|]. intros e' He. apply Hl. right. done.
Qed.

(** Silence is never absence.  The table read from [/proc] is readable exactly when
    the reading process found itself in it; it then knows exactly the processes
    listed whose [stat] parsed, each by its own row; and it calls itself complete
    exactly when nothing listed could be hiding a process: every entry was read, and
    every process listed has its row or was already gone.  So a complete table's
    silence on a pid means it was not listed, or gone. *)
Theorem proc_listing_spec own :
  let t := from_proc_listing sysconf es read_stat own in
  (readable t = true <-> listed own /\ is_Some (stat_row own)) /\
  (readable t = true -> forall p r, row t p = Known r <-> listed p /\ stat_row p = Some r) /\
  (is_complete t = true <-> readable t = true /\ forall e, e ∈ es -> ~ lost e) /\
  (is_complete t = true -> forall p, row t p = NotPresent <-> ~ listed p \/ read_stat p = Err ProcessGone).
Proof.
  unfold from_proc_listing. pose proof (listing_fold es [] true) as H.
  destruct (foldl _ _ es) as [rows c]. destruct H as [Hrows Hc].
  assert (Hr : forall r, r ∈ rows <-> listed (row_pid r) /\ stat_row (row_pid r) = Some r).
  { assert (Hpid : forall p r, stat_row p = Some r -> row_pid r = p).
    { intros p r. unfold stat_row. destruct (read_stat p); [apply parse_proc_stat_pid|discriminate]. }
    intros r. rewrite Hrows. split.
    - intros [Hn|(name & p & Hin & Hp & Hs)]; [inversion Hn|]. pose proof (Hpid _ _ Hs). subst p.
      split; [exists name|]; done.
    - intros [(name & Hin & Hp) Hs]. right. exists name, (row_pid r). done. }
  assert (Hlook : forall p r, table_rows (from_rows rows) !! p = Some r <-> listed p /\ stat_row p = Some r).
  { intros p r. split.
    - intros [Hin Hp]%from_rows_lookup. subst p. apply Hr, Hin.
    - intros [Hl Hs].
      assert (Hpid : row_pid r = p).
      { unfold stat_row in Hs. destruct (read_stat p); [|discriminate]. eapply parse_proc_stat_pid, Hs. }
      assert (Hin : r ∈ rows) by (apply Hr; subst p; done).
      destruct (from_rows_present _ _ Hin) as [r' Hr']. rewrite Hpid in Hr'.
      pose proof (from_rows_lookup _ _ _ Hr') as [Hin' Hp']. apply Hr in Hin' as [_ Hs']. congruence. }
  assert (Hread : readable (finish_table own (rows, c)) = own_row own rows).
  { unfold finish_table. destruct (own_row own rows), c; done. }
  assert (Hrow : own_row own rows = true -> forall p r, row (finish_table own (rows, c)) p = Known r <->
                   table_rows (from_rows rows) !! p = Some r).
  { intros Ho p r. unfold finish_table, row. rewrite Ho. cbn [negb].
    destruct c; cbn [readable table_rows marked_incomplete from_rows];
      destruct (_ !! p); split; congruence. }
  assert (Hcomp : is_complete (finish_table own (rows, c)) = own_row own rows && c).
  { unfold finish_table. destruct (own_row own rows), c; done. }
  cbv zeta. split; [|split; [|split]].
  - rewrite Hread, own_row_spec. split.
    + intros (r & Hin & <-). apply Hr in Hin as [Hl Hs]. eauto.
    + intros [Hl [r Hs]]. pose proof (proj2 (Hlook own r) (conj Hl Hs)) as [Hin Hp]%from_rows_lookup. eauto.
  - rewrite Hread. intros Ho p r. rewrite Hrow by done. apply Hlook.
  - rewrite Hread, Hcomp, andb_true_iff, Hc. intuition.
  - rewrite Hcomp. intros [Ho Hc']%andb_prop p. destruct (proj1 Hc Hc') as [_ Hnl]. subst c.
    assert (Hnp : row (finish_table own (rows, true)) p = NotPresent <-> table_rows (from_rows rows) !! p = None).
    { unfold finish_table, row. rewrite Ho. cbn. destruct (_ !! p); split; congruence. }
    rewrite Hnp, eq_None_not_Some. split.
    + intros Hn. destruct (read_stat p) as [stat|[]] eqn:Er; [| auto |].
      * left. intros (name & Hin & Hp). specialize (Hnl _ Hin). destruct (stat_row p) as [r|] eqn:Es.
        -- apply Hn. exists r. apply Hlook. split; [exists name|]; done.
        -- apply Hnl. exists p. repeat split; try done. congruence.
      * left. intros (name & Hin & Hp). apply (Hnl _ Hin). exists p. unfold stat_row. rewrite Er. done.
    + intros Hor [r [Hl Hs]%Hlook]. destruct Hor as [|He]; [done|]. unfold stat_row in Hs. rewrite He in Hs. done.
Qed.
End ProcListing.

(** ** What the kernel prints is read back *)

(** A [stat] line as the kernel prints it: the fields after the command name. *)
Definition print_stat (pid : Z) (comm : bytes) (fields : list bytes) : bytes :=
  dec pid ++ [32; 40] ++ comm ++ 41 :: concat (map (cons 32) fields) ++ [10].

Lemma split_fields fields :
  forallb is_field fields = true ->
  split_whitespace (concat (map (cons 32) fields) ++ [10]) = fields.
Proof.
  destruct fields as [|f fs]; [done|]. cbn [map concat app]. rewrite split_whitespace_space by done.
  revert f. induction fs as [|g fs IH]; intros f Hf; cbn [forallb] in Hf; apply andb_prop in Hf as [Hf Hfs].
  - cbn [map concat]. rewrite app_nil_r, split_whitespace_cons by done. done.
  - cbn [map concat app]. rewrite <- !app_assoc. cbn [app].
    rewrite split_whitespace_cons by done. f_equal. apply IH, Hfs.
Qed.

Lemma no_paren_fields fields :
  forallb (fun f => negb (existsb (Z.eqb 41) f)) fields = true ->
  existsb (Z.eqb 41) (concat (map (cons 32) fields) ++ [10]) = false.
Proof.
  induction fields as [|f fs IH]; cbn [forallb map concat]; [done|]. intros [Hf Hfs]%andb_prop.
  apply negb_true_iff in Hf. rewrite <- app_assoc, existsb_app, (IH Hfs). cbn. rewrite Hf. done.
Qed.

(** A [stat] line is read back, whatever the command is called: a name with
    spaces, parentheses or a fake tail of its own changes nothing, since only what
    follows the last parenthesis is read.  The row has the line's parent, group and
    state, its resident pages in kilobytes, and its start time as identity. *)
Theorem parse_proc_stat_print sysconf pid comm fields state pp pg start pages :
  forallb is_field fields = true ->
  forallb (fun f => negb (existsb (Z.eqb 41) f)) fields = true ->
  fields !! 0%nat = Some state ->
  fields !! 1%nat = Some (dec pp) -> I32_MIN <= pp <= I32_MAX ->
  fields !! 2%nat = Some (dec pg) -> I32_MIN <= pg <= I32_MAX ->
  fields !! 19%nat = Some start ->
  fields !! 21%nat = Some (dec pages) -> 0 <= pages * page_size_kb sysconf <= U64_MAX ->
  0 <= pages <= U64_MAX ->
  parse_proc_stat sysconf pid (print_stat pid comm fields)
    = Some (mkRow pid pp pg state (Some (pages * page_size_kb sysconf)) None
              (Some (str "linux:" ++ start))).
Proof.
  intros Hf Hp H0 H1 Hpp H2 Hpg H19 H21 Hrss Hpages. unfold parse_proc_stat, print_stat.
  rewrite !app_assoc, after_last_app by (apply no_paren_fields, Hp). cbn [mbind option_bind].
  rewrite split_fields, H0, H1, H2, H19, H21 by done. cbn [mbind option_bind].
  unfold parse_i32. rewrite !parse_signed_dec by (unfold I32_MIN, I32_MAX in *; lia).
  cbn [mbind option_bind]. unfold parse_u64. rewrite parse_unsigned_dec by done. cbn [default].
  cbn [from_option]. unfold id. rewrite Z.mod_small by lia. done.
Qed.

(** A process called [") R 1 1"], with a page of four kilobytes. *)
Definition demo_fields : list bytes :=
  map str ["S"; "1"; "42"; "42"; "0"; "-1"; "4194560"; "0"; "0"; "0"; "0"; "1"; "2"; "0"; "0"; "20"; "0";
           "1"; "0"; "8811"; "9999"; "25"]%string.
Lemma parse_proc_stat_print_witness :
  parse_proc_stat 4096 42 (print_stat 42 (str ") R 1 1") demo_fields)
    = Some (mkRow 42 1 42 (str "S") (Some 100) None (Some (str "linux:8811"))).
Proof.
  apply (parse_proc_stat_print 4096 42 (str ") R 1 1") demo_fields (str "S") 1 42 (str "8811") 25);
    try reflexivity; vm_compute; split; discriminate.
Defined.

(** ** The pid listing *)

(** A listing that calls itself whole came from a read that left room in its buffer. *)
Lemma list_pids_loop_whole n size read k slack last pids :
  list_pids_loop n size read k slack last = Some (pids, true) ->
  exists j cap buf written, (k <= j < k + n)%nat /\ read j cap = (buf, written) /\
    0 < written /\ (Z.to_nat (written / 4) < cap)%nat /\ pids = take (Z.to_nat (written / 4)) buf.
Proof.
  revert k slack last. induction n as [|n IH]; intros k slack last; cbn [list_pids_loop]; [discriminate|].
  destruct (size k <=? 0); [discriminate|]. set (cap := (_ + slack)%nat).
  destruct (read k cap) as [buf written] eqn:Er. destruct (written <=? 0) eqn:Ew; [discriminate|].
  destruct (Nat.ltb_spec (Nat.min (Z.to_nat (written / 4)) cap) cap) as [Hlt|Hge].
  - intros [= <-]. apply Z.leb_gt in Ew. exists k, cap, buf, written.
    rewrite Nat.min_l by lia. repeat split; try done; lia.
  - intros (j & c & b & w & Hj & H)%IH. exists j, c, b, w. split; [lia|done].
Qed.

Lemma list_pids_whole size read pids :
  list_pids_with_slack size read = Some (pids, true) ->
  exists j cap buf written, (j < 4)%nat /\ read j cap = (buf, written) /\
    0 < written /\ (Z.to_nat (written / 4) < cap)%nat /\ pids = take (Z.to_nat (written / 4)) buf.
Proof.
  intros (j & c & b & w & Hj & H)%list_pids_loop_whole. exists j, c, b, w. split; [lia|done].
Qed.

(** ** The measured layout *)

Lemma byte_at (buf : bytes) k : (k + 1 <= length buf)%nat -> exists v, buf !! k = Some v.
Proof. intros H. destruct (buf !! k) eqn:E; [eauto|]. apply lookup_ge_None in E. lia. Qed.

(** The layout of the kernel's row cannot fool the reader.  Checking it never
    reads out of bounds, whatever layout and buffer it is given; and once it has
    passed, every field the reader uses lies inside the row and reads back, through
    that layout, exactly what the process knows about itself. *)
Theorem layout_check_sound buf l own :
  exists b, layout_reads_itself buf l own = Some b /\
    (b = true ->
       read_le 8 buf (start_sec l) = Some (own_start_sec own) /\
       read_u32 buf (start_usec l) = Some (own_start_usec own) /\
       read_i32 buf (p_pid l) = Some (own_pid own) /\ read_i32 buf (e_ppid l) = Some (own_ppid own) /\
       read_i32 buf (e_pgid l) = Some (own_pgid own) /\ read_u32 buf (ruid l) = Some (own_ruid own) /\
       read_u32 buf (euid l) = Some (own_euid own) /\ buf !! p_stat l = Some SRUN /\
       kinfo_exiting buf l = Some false).
Proof.
  unfold layout_reads_itself. destruct (layout_fits buf l) eqn:Ef; [|eexists; split; done]. cbn [negb].
  unfold layout_fits, fits in Ef. cbn [forallb] in Ef. rewrite !andb_true_iff, !Nat.leb_le in Ef.
  destruct Ef as (((F1 & F2) & F3) & F4 & F5 & F6 & F7 & F8 & F9 & _).
  unfold kinfo_exiting, read_i32, read_u32.
  destruct (le_value_read _ _ _ F1) as [sec ->], (le_value_read _ _ _ F2) as [usec ->],
    (byte_at _ _ F3) as [st ->], (le_value_read _ _ _ F4) as [fl ->], (le_value_read _ _ _ F5) as [pid ->],
    (le_value_read _ _ _ F6) as [pp ->], (le_value_read _ _ _ F7) as [pg ->],
    (le_value_read _ _ _ F8) as [ru ->], (le_value_read _ _ _ F9) as [eu ->].
  cbn [mbind option_bind fmap option_fmap option_map]. eexists. split; [done|].
  rewrite !andb_true_iff, !Z.eqb_eq. intros ((((((((H1 & H2) & H3) & H4) & H5) & H6) & H7) & H8) & H9).
  subst. repeat (split; [congruence|]). cbn. f_equal. apply negb_false_iff, Z.eqb_eq.
  assert (Hb : Z.land (Z.land fl (Z.lor P_LP64 P_WEXIT)) P_WEXIT = Z.land P_LP64 P_WEXIT) by congruence.
  rewrite <- Z.land_assoc in Hb. exact Hb.
Qed.

(** With a row as long as the kernel's, reading it never panics either. *)
Lemma sysctl_proc_total verified pid buf len :
  length buf = KINFO_SIZE -> exists a, sysctl_proc verified pid (Ok (buf, len)) = Some a.
Proof.
  intros Hl. unfold sysctl_proc, kinfo_row. destruct verified; [|cbn; eauto]. cbn [negb].
  destruct (len =? 0); [eauto|]. destruct (len <? _); [eauto|]. destruct (negb _); [eauto|].
  assert (HL : forall k w, (k + w <= 648)%nat -> (k + w <= length buf)%nat) by (rewrite Hl; done).
  unfold read_i32, read_u32, kinfo_exiting.
  destruct (le_value_read 8 buf (start_sec KINFO)) as [? ->]; [apply HL; cbn; lia|].
  destruct (le_value_read 4 buf (start_usec KINFO)) as [? ->]; [apply HL; cbn; lia|].
  destruct (le_value_read 4 buf (e_ppid KINFO)) as [? ->]; [apply HL; cbn; lia|].
  destruct (le_value_read 4 buf (e_pgid KINFO)) as [? ->]; [apply HL; cbn; lia|].
  destruct (byte_at buf (p_stat KINFO)) as [st ->]; [apply HL; cbn; lia|].
  destruct (le_value_read 4 buf (p_flag KINFO)) as [fl E]; [apply HL; cbn; lia|].
  cbn [mbind option_bind fmap option_fmap option_map]. unfold read_u32. rewrite E.
  destruct (st =? SZOMB); cbn [mbind option_bind]; eauto.
Qed.
