(* ===== verification/Argv.v ===== *)
(** The argument vectors of one user's processes: [crates/pty-core/src/proctable/argv.rs].
    What [/proc] and the macOS kernel return for a process are arguments; the
    decoding, the classification of each process and the account of what could not
    be read are the file's. *)
From S2P Require Import Prelude Time Names Text Order Frames ProcTable.

(** ** [String::from_utf8_lossy]: an ill-formed run becomes U+FFFD *)

Definition second3 (a b : Z) : bool :=
  cont b && negb ((a =? 224) && (b <? 160)) && negb ((a =? 237) && (159 <? b)).
Definition second4 (a b : Z) : bool :=
  cont b && negb ((a =? 240) && (b <? 144)) && negb ((a =? 244) && (143 <? b)).
Fixpoint from_utf8_lossy (l : bytes) : bytes :=
  match l with
  | [] => []
  | a :: l1 =>
      if in_range 0 127 a then a :: from_utf8_lossy l1
      else if in_range 194 223 a then
        match l1 with
        | b :: l2 => if cont b then scalar2 a b :: from_utf8_lossy l2 else 65533 :: from_utf8_lossy l1
        | [] => [65533]
        end
      else if in_range 224 239 a then
        match l1 with
        | b :: l2 =>
            if second3 a b then
              match l2 with
              | c :: l3 => if cont c then scalar3 a b c :: from_utf8_lossy l3 else 65533 :: from_utf8_lossy l2
              | [] => [65533]
              end
            else 65533 :: from_utf8_lossy l1
        | [] => [65533]
        end
      else if in_range 240 244 a then
        match l1 with
        | b :: l2 =>
            if second4 a b then
              match l2 with
              | c :: l3 =>
                  if cont c then
                    match l3 with
                    | d :: l4 =>
                        if cont d then scalar4 a b c d :: from_utf8_lossy l4 else 65533 :: from_utf8_lossy l3
                    | [] => [65533]
                    end
                  else 65533 :: from_utf8_lossy l2
              | [] => [65533]
              end
            else 65533 :: from_utf8_lossy l1
        | [] => [65533]
        end
      else 65533 :: from_utf8_lossy l1
  end.

(** ** The scan *)

Record ArgvRow : Type := mkArgvRow { argv_pid : Z; argv_identity : option bytes; argv : list bytes }.

Record ArgvScan : Type := mkScan {
  scan_for : Z;
  scan_source : bytes;
  scan_readable : bool;
  scan_complete : bool;
  scan_listed : nat;
  scan_zombies : nat;
  scan_kernel_threads : nat;
  scan_unreadable : list Z;
  scan_rows : list ArgvRow
}.
#[export] Instance ArgvScan_settable : Settable ArgvScan := fun s =>
  mkScan (scan_for s) (scan_source s) (scan_readable s) (scan_complete s) (scan_listed s)
    (scan_zombies s) (scan_kernel_threads s) (scan_unreadable s) (scan_rows s).

Definition unreadable_listing (uid : Z) (source : bytes) : ArgvScan :=
  mkScan uid source false false 0 0 0 [] [].
Definition is_whole (s : ArgvScan) : bool :=
  scan_readable s && scan_complete s && match scan_unreadable s with [] => true | _ => false end.

(** A trailing NUL ends the last argument. *)
Definition split_nul_args (b : bytes) : list bytes :=
  let trimmed := match strip_suffix [0] b with Some t => t | None => b end in
  match trimmed with
  | [] => []
  | _ => map from_utf8_lossy (split_on (Z.eqb 0) trimmed)
  end.

(** ** Linux *)

Inductive Class_ : Type :=
  | ClassGone | ClassOtherUser | ClassZombie | ClassKernelThread
  | ClassLive (r : ArgvRow) | ClassUnreadable | ClassOwnerUnknown.

(** The [Kthread:] line. *)
Definition status_kernel_thread (status : bytes) : option bool :=
  match omap (strip_prefix (str "Kthread:")) (lines status) with
  | [] => None
  | rest :: _ =>
      let t := trim is_trim_space rest in
      if beq t (str "1") then Some true else if beq t (str "0") then Some false else None
  end.
Definition PF_KTHREAD : Z := 2097152.
Definition stat_kernel_thread (stat : bytes) : option bool :=
  let? tail := after_last 41 stat in
  let? f := split_whitespace tail !! 6%nat in
  let? flags := parse_u64 f in
  Some (negb (Z.land flags PF_KTHREAD =? 0)).

(** The two fields the status loop keeps: later lines replace earlier ones. *)
Definition uid_line (uid : Z) (rest : bytes) : option bool :=
  let ids := map parse_u32 (split_whitespace rest) in
  match mjoin (ids !! 0%nat), mjoin (ids !! 1%nat) with
  | Some real, Some effective => Some ((real =? uid) && (effective =? uid))
  | _, _ => None
  end.
Definition status_line (uid : Z) (acc : option bool * option Z) (line : bytes)
  : option bool * option Z :=
  let '(owned, state) := acc in
  match strip_prefix (str "Uid:") line with
  | Some rest => (uid_line uid rest, state)
  | None =>
      match strip_prefix (str "State:") line with
      | Some rest => (owned, trim_start is_trim_space rest !! 0%nat)
      | None => acc
      end
  end.
Definition owner_and_state (uid : Z) (status : Result bytes ReadFailure)
  : Result (bool * Z * option bool) ReadFailure :=
  try status := status in
  match foldl (status_line uid) (None, None) (lines status) with
  | (Some owned, Some state) => Ok (owned, state, status_kernel_thread status)
  | _ => Err ReadRefused
  end.

(** What is read of one process: [status], [stat], [cmdline], and [status] again. *)
Record ProcReads : Type := mkReads {
  rd_status : Result bytes ReadFailure;
  rd_stat : Result bytes ReadFailure;
  rd_cmdline : Result bytes ReadFailure;
  rd_status_again : Result bytes ReadFailure
}.

Definition classify (sysconf pid uid : Z) (rd : ProcReads) : Class_ :=
  match owner_and_state uid (rd_status rd) with
  | Err ProcessGone => ClassGone
  | Err ReadRefused => ClassOwnerUnknown
  | Ok (owned, state, kthread) =>
      if negb owned then ClassOtherUser
      else if state =? 90 then ClassZombie
      else match rd_stat rd with
      | Err ProcessGone => ClassGone
      | _ =>
          let stat := match rd_stat rd with Ok s => Some s | Err _ => None end in
          let kernel := match kthread with Some k => Some k | None => stat ≫= stat_kernel_thread end in
          match kernel with
          | Some true => ClassKernelThread
          | _ =>
              let token := (stat ≫= parse_proc_stat sysconf pid) ≫= identity in
              match rd_cmdline rd with
              | Ok [] =>
                  match owner_and_state uid (rd_status_again rd) with
                  | Err ProcessGone => ClassGone
                  | Ok (_, state, _) => if state =? 90 then ClassZombie else ClassUnreadable
                  | Err ReadRefused => ClassUnreadable
                  end
              | Ok b => ClassLive (mkArgvRow pid token (split_nul_args b))
              | Err ProcessGone => ClassGone
              | Err ReadRefused => ClassUnreadable
              end
          end
      end
  end.

Definition tally (s : ArgvScan) (pid : Z) (c : Class_) : ArgvScan :=
  match c with
  | ClassGone | ClassOtherUser => s
  | ClassZombie => s <| scan_zombies ::= S |>
  | ClassKernelThread => s <| scan_kernel_threads ::= S |>
  | ClassLive r => s <| scan_rows ::= fun l => l ++ [r] |>
  | ClassUnreadable => s <| scan_unreadable ::= fun l => l ++ [pid] |>
  | ClassOwnerUnknown => s <| scan_complete := false |>
  end.
Definition scan_entry (sysconf uid : Z) (reads : Z -> ProcReads) (s : ArgvScan)
  (entry : Result bytes unit) : ArgvScan :=
  match entry with
  | Err _ => s <| scan_complete := false |>
  | Ok name =>
      match parse_i32 name with
      | None => s
      | Some pid => tally (s <| scan_listed ::= S |>) pid (classify sysconf pid uid (reads pid))
      end
  end.
Definition saw (own : Z) (entry : Result bytes unit) : bool :=
  match entry with
  | Ok name => match parse_i32 name with Some p => p =? own | None => false end
  | Err _ => false
  end.
Definition sort_scan (s : ArgvScan) : ArgvScan :=
  (s <| scan_rows ::= sort_by (fun a b => argv_pid a <=? argv_pid b) |>)
    <| scan_unreadable ::= sort_by Z.leb |>.
Definition SOURCE : bytes := str "/proc/<pid>/cmdline".
(** [linux::scan]; [None] is a [/proc] that cannot be listed. *)
Definition scan_linux (sysconf uid own : Z) (dir : option (list (Result bytes unit)))
  (reads : Z -> ProcReads) : ArgvScan :=
  match dir with
  | None => unreadable_listing uid SOURCE
  | Some es =>
      let s := foldl (scan_entry sysconf uid reads) (mkScan uid SOURCE true true 0 0 0 [] []) es in
      if negb (existsb (saw own) es) then unreadable_listing uid SOURCE else sort_scan s
  end.

(** ** macOS *)

(** [KERN_PROCARGS2]: argc, the exec path, NULs, then [argc] NUL-ended arguments.
    The path and an argument must be ended inside the buffer. *)
Fixpoint take_arg (l : bytes) : option (bytes * bytes) :=
  match l with
  | [] => None
  | c :: l' => if c =? 0 then Some ([], l')
               else match take_arg l' with Some (a, r) => Some (c :: a, r) | None => None end
  end.
Fixpoint take_args (argc : nat) (l : bytes) : option (list bytes) :=
  match argc with
  | O => Some []
  | S n =>
      let? ar := take_arg l in
      let? rest := take_args n (snd ar) in
      Some (from_utf8_lossy (fst ar) :: rest)
  end.
Definition parse_procargs2 (buf : bytes) : option (list bytes) :=
  let? argc := read_i32 buf 0 in
  if argc <? 0 then None
  else
    let? pr := take_arg (drop 4 buf) in
    take_args (Z.to_nat argc) (trim_start (Z.eqb 0) (snd pr)).

(** What is read of one process on macOS: [proc_pidinfo]'s uids and row, the kernel
    row's owner, the row read again for its identity, the arguments ([Err true] is
    [ESRCH]), and the row read once more. *)
Record MacReads : Type := mkMacReads {
  mac_info : option (Z * Z * BsdInfo);
  mac_owner : Answer (Z * Z * bool);
  mac_row : Answer Row;
  mac_args : Result (list bytes) bool;
  mac_row_again : Answer Row
}.

(** [classify]'s counterpart; [tally] adds it to the scan. *)
Definition mac_arguments (pid : Z) (identity : option bytes) (rd : MacReads) : Class_ :=
  match mac_args rd with
  | Ok argv => ClassLive (mkArgvRow pid identity argv)
  | Err true => ClassGone
  | Err false =>
      match mac_row_again rd with
      | Known r => if is_zombie r then ClassZombie else ClassUnreadable
      | NotPresent => ClassGone
      | AnswerUnknown _ => ClassUnreadable
      end
  end.
Definition classify_macos (uid pid : Z) (rd : MacReads) : Class_ :=
  match mac_info rd with
  | Some (ruid, euid, info) =>
      if negb ((ruid =? uid) && (euid =? uid)) then ClassOtherUser
      else if pbi_status info =? SZOMB then ClassZombie
      else mac_arguments pid (read_bsdinfo (Some info) pid ≫= identity) rd
  | None =>
      match mac_owner rd with
      | NotPresent => ClassGone
      | Known (ruid, euid, zombie) =>
          if negb ((ruid =? uid) && (euid =? uid)) then ClassOtherUser
          else if zombie then ClassZombie
          else mac_arguments pid (known (mac_row rd) ≫= identity) rd
      | AnswerUnknown _ => ClassOwnerUnknown
      end
  end.
Definition scan_pid (uid : Z) (reads : Z -> MacReads) (s : ArgvScan) (pid : Z) : ArgvScan :=
  tally (s <| scan_listed ::= S |>) pid (classify_macos uid pid (reads pid)).
Definition MAC_SOURCE : bytes := str "KERN_PROCARGS2".
Definition scan_macos (uid own : Z) (listing : option (list Z * bool)) (reads : Z -> MacReads) : ArgvScan :=
  match listing with
  | None => unreadable_listing uid MAC_SOURCE
  | Some (pids, whole) =>
      if negb (existsb (Z.eqb own) pids) then unreadable_listing uid MAC_SOURCE
      else sort_scan (foldl (scan_pid uid reads) (mkScan uid MAC_SOURCE true whole 0 0 0 [] [])
                        (List.filter (fun p => 0 <? p) pids))
  end.

(** ** Lemmas: the account *)

(** One entry of either listing: unreadable, not a process, or a process's class. *)
Section Account.
Context {X : Type} (view : X -> option (option (Z * Class_))).

Definition account (s : ArgvScan) (x : X) : ArgvScan :=
  match view x with
  | None => s <| scan_complete := false |>
  | Some None => s
  | Some (Some (p, c)) => tally (s <| scan_listed ::= S |>) p c
  end.
Definition live_of (x : X) : option ArgvRow :=
  match view x with Some (Some (_, ClassLive r)) => Some r | _ => None end.
Definition unreadable_of (x : X) : option Z :=
  match view x with Some (Some (p, ClassUnreadable)) => Some p | _ => None end.
Definition owner_told (x : X) : bool :=
  match view x with None => false | Some (Some (_, ClassOwnerUnknown)) => false | _ => true end.

Lemma account_fold l s :
  let s' := foldl account s l in
  scan_readable s' = scan_readable s /\ scan_complete s' = scan_complete s && forallb owner_told l /\
  scan_unreadable s' = scan_unreadable s ++ omap unreadable_of l /\
  scan_rows s' = scan_rows s ++ omap live_of l.
Proof.
  revert s. induction l as [|x l IH]; intros s; cbn [foldl forallb omap list_omap].
  - rewrite andb_true_r, !app_nil_r. done.
  - destruct (IH (account s x)) as (H1 & H2 & H3 & H4). cbv zeta. rewrite H1, H2, H3, H4.
    unfold account, owner_told, unreadable_of, live_of.
    destruct (view x) as [[[p []]|]|]; cbn; rewrite <- ?app_assoc, ?andb_true_r, ?andb_false_r, ?andb_assoc; cbn;
      rewrite ?andb_true_r, ?andb_false_r; done.
Qed.

Lemma account_whole l uid src c :
  is_whole (sort_scan (foldl account (mkScan uid src true c 0 0 0 [] []) l)) = true ->
  forall x, x ∈ l -> match view x with
                   | None => False
                   | Some None => True
                   | Some (Some (p, ClassLive r)) =>
                       r ∈ scan_rows (sort_scan (foldl account (mkScan uid src true c 0 0 0 [] []) l))
                   | Some (Some (p, ClassUnreadable)) | Some (Some (p, ClassOwnerUnknown)) => False
                   | Some (Some (p, _)) => True
                   end.
Proof.
  destruct (account_fold l (mkScan uid src true c 0 0 0 [] [])) as (H1 & H2 & H3 & H4).
  unfold is_whole, sort_scan. cbn [scan_readable scan_complete scan_unreadable scan_rows set_field] in *.
  cbn. rewrite H2, H3, H4. cbn [app]. rewrite !andb_true_iff. intros [[_ [_ Hown]] Hun] x Hx.
  rewrite forallb_forall in Hown. pose proof (Hown x (proj1 (list_elem_of_In _ _) Hx)) as Ho.
  assert (Hnu : unreadable_of x = None).
  { destruct (unreadable_of x) as [p|] eqn:E; [|done].
    assert (Hp : p ∈ sort_by Z.leb (omap unreadable_of l)).
    { apply elem_of_sort_by, list_elem_of_omap. eauto. }
    destruct (sort_by _ _); [inversion Hp|done]. }
  assert (Hlv : forall r, live_of x = Some r ->
     r ∈ sort_by (fun a b => argv_pid a <=? argv_pid b) (omap live_of l)).
  { intros r Hr. apply elem_of_sort_by, list_elem_of_omap. eauto. }
  unfold owner_told in Ho. unfold unreadable_of in Hnu. unfold live_of in Hlv.
  destruct (view x) as [[[p []]|]|]; try done. apply Hlv. done.
Qed.
End Account.

Definition linux_view (sysconf uid : Z) (reads : Z -> ProcReads) (e : Result bytes unit)
  : option (option (Z * Class_)) :=
  match e with
  | Err _ => None
  | Ok name => match parse_i32 name with
               | Some p => Some (Some (p, classify sysconf p uid (reads p)))
               | None => Some None
               end
  end.
Definition macos_view (uid : Z) (reads : Z -> MacReads) (p : Z) : option (option (Z * Class_)) :=
  Some (Some (p, classify_macos uid p (reads p))).

Lemma scan_entry_account sysconf uid reads s e :
  scan_entry sysconf uid reads s e = account (linux_view sysconf uid reads) s e.
Proof.
  unfold scan_entry, account, linux_view. destruct e as [name|]; [|done]. destruct (parse_i32 name); done.
Qed.

Lemma foldl_ext_eq {A B} (f g : A -> B -> A) l a : (forall s e, f s e = g s e) -> foldl f a l = foldl g a l.
Proof. intros H. revert a. induction l as [|x l IH]; intros a; cbn; [done|]. rewrite H. apply IH. Qed.

(** ** Only evidence excludes a process *)

(** What takes a process out of the scan: it is gone at some read, its status names
    another user or a zombie, or the kernel's word marks it a kernel thread. *)
Inductive excluded (sysconf uid : Z) (rd : ProcReads) : Prop :=
  | ex_gone :
      rd_status rd = Err ProcessGone \/ rd_stat rd = Err ProcessGone \/
      rd_cmdline rd = Err ProcessGone \/ rd_status_again rd = Err ProcessGone ->
      excluded sysconf uid rd
  | ex_other st k : owner_and_state uid (rd_status rd) = Ok (false, st, k) -> excluded sysconf uid rd
  | ex_zombie o k :
      owner_and_state uid (rd_status rd) = Ok (o, 90, k) \/
      owner_and_state uid (rd_status_again rd) = Ok (o, 90, k) -> excluded sysconf uid rd
  | ex_kernel o st k :
      owner_and_state uid (rd_status rd) = Ok (o, st, k) ->
      k = Some true \/ (k = None /\ exists t, rd_stat rd = Ok t /\ stat_kernel_thread t = Some true) ->
      excluded sysconf uid rd.

Lemma owner_gone uid r : owner_and_state uid r = Err ProcessGone -> r = Err ProcessGone.
Proof.
  unfold owner_and_state. destruct r as [s|[]]; cbn; [|done|done].
  destruct (foldl _ _ _) as [[o|] [st|]]; discriminate.
Qed.

Lemma classify_cases sysconf p uid rd :
  match classify sysconf p uid rd with
  | ClassLive r => argv_pid r = p /\ exists b, rd_cmdline rd = Ok b /\ b <> [] /\ argv r = split_nul_args b
  | ClassUnreadable | ClassOwnerUnknown => True
  | _ => excluded sysconf uid rd
  end.
Proof.
  unfold classify. destruct (owner_and_state uid (rd_status rd)) as [[[owned st] k]|[]] eqn:E1; [|
    apply ex_gone; left; apply (owner_gone _ _ E1)|done].
  destruct owned; cbn [negb]; [|apply (ex_other _ _ _ _ _ E1)].
  destruct (st =? 90) eqn:Ez; [apply Z.eqb_eq in Ez; subst; apply (ex_zombie _ _ _ _ _ (or_introl E1))|].
  assert (Hk : forall stat, match k with Some k => Some k | None => stat ≫= stat_kernel_thread end = Some true ->
     (forall t, stat = Some t -> rd_stat rd = Ok t) -> excluded sysconf uid rd).
  { intros stat Hk Hs. apply (ex_kernel _ _ _ _ _ _ E1). destruct k as [[]|]; try done; [auto|].
    right. split; [done|]. destruct stat as [t|]; [|done]. exists t. split; [apply Hs|]; done. }
  assert (Htail : forall stat, (forall t, stat = Some t -> rd_stat rd = Ok t) ->
    match (match match k with Some k => Some k | None => stat ≫= stat_kernel_thread end with
           | Some true => ClassKernelThread
           | _ => match rd_cmdline rd with
                  | Ok [] => match owner_and_state uid (rd_status_again rd) with
                             | Err ProcessGone => ClassGone
                             | Ok (_, state, _) => if state =? 90 then ClassZombie else ClassUnreadable
                             | Err ReadRefused => ClassUnreadable
                             end
                  | Ok b => ClassLive (mkArgvRow p ((stat ≫= parse_proc_stat sysconf p) ≫= identity) (split_nul_args b))
                  | Err ProcessGone => ClassGone
                  | Err ReadRefused => ClassUnreadable
                  end
           end) with
    | ClassLive r => argv_pid r = p /\ exists b, rd_cmdline rd = Ok b /\ b <> [] /\ argv r = split_nul_args b
    | ClassUnreadable | ClassOwnerUnknown => True
    | _ => excluded sysconf uid rd
    end).
  { intros stat Hs. pose proof (Hk stat) as Hk'.
    destruct (match k with Some k => Some k | None => _ end) as [[]|]; [apply Hk'; done| |];
    (destruct (rd_cmdline rd) as [[|c b]|[]] eqn:Ec; [|cbn; eauto|apply ex_gone; auto|done]);
    (destruct (owner_and_state uid (rd_status_again rd)) as [[[o2 st2] k2]|[]] eqn:E2; [|
       apply ex_gone; do 3 right; apply (owner_gone _ _ E2)|done]);
    (destruct (st2 =? 90) eqn:Ez2; [|done]);
    apply Z.eqb_eq in Ez2; subst; apply (ex_zombie _ _ _ _ _ (or_intror E2)). }
  destruct (rd_stat rd) as [t|[]] eqn:Es.
  - apply (Htail (Some t)). congruence.
  - apply ex_gone. auto.
  - apply (Htail None). done.
Qed.

(** A whole scan has looked at every process.  When the argv scan calls itself
    whole, each process the listing named is either in it, with its own pid and the
    arguments its command line held, or excluded by positive evidence: gone, another
    user's, a zombie, or a kernel thread by the kernel's own word.  No entry was
    lost, and the scanner saw itself. *)
Theorem argv_scan_exhaustive sysconf uid own dir reads :
  is_whole (scan_linux sysconf uid own dir reads) = true ->
  exists es, dir = Some es /\ existsb (saw own) es = true /\
    forall e, e ∈ es -> exists name, e = Ok name /\
      forall p, parse_i32 name = Some p ->
        excluded sysconf uid (reads p) \/
        exists r b, r ∈ scan_rows (scan_linux sysconf uid own dir reads) /\ argv_pid r = p /\
          rd_cmdline (reads p) = Ok b /\ b <> [] /\ argv r = split_nul_args b.
Proof.
  unfold scan_linux. destruct dir as [es|]; [|discriminate].
  rewrite (foldl_ext_eq _ _ _ _ (scan_entry_account sysconf uid reads)).
  destruct (existsb (saw own) es) eqn:Es; cbn [negb]; [|discriminate]. intros Hw.
  exists es. repeat (split; [done|]). intros e He. pose proof (account_whole _ _ _ _ _ Hw e He) as H.
  unfold linux_view in H. destruct e as [name|]; [|done]. exists name. split; [done|]. intros p Hp.
  rewrite Hp in H. pose proof (classify_cases sysconf p uid (reads p)) as Hc.
  destruct (classify _ _ _ _) as [| | | |r| |]; auto; try done.
  right. destruct Hc as (Hp' & b & Hb & Hne & Ha). exists r, b. done.
Qed.

(** On macOS: every listed pid is in the scan or was classed as no participant. *)
Lemma macos_scan_exhaustive uid own listing reads :
  is_whole (scan_macos uid own listing reads) = true ->
  exists pids, listing = Some (pids, true) /\ own ∈ pids /\
    forall p, p ∈ pids -> 0 < p ->
      match classify_macos uid p (reads p) with
      | ClassLive r => r ∈ scan_rows (scan_macos uid own listing reads)
      | ClassUnreadable | ClassOwnerUnknown => False
      | _ => True
      end.
Proof.
  unfold scan_macos. destruct listing as [[pids whole]|]; [|discriminate].
  destruct (existsb (Z.eqb own) pids) eqn:Eo; cbn [negb]; [|discriminate].
  rewrite (foldl_ext_eq _ (account (macos_view uid reads))) by done. intros Hw.
  assert (Hwhole : whole = true).
  { destruct (account_fold (macos_view uid reads) (List.filter (fun p => 0 <? p) pids)
      (mkScan uid MAC_SOURCE true whole 0 0 0 [] [])) as (_ & H2 & _).
    unfold is_whole, sort_scan in Hw. cbn in Hw, H2. rewrite H2 in Hw. bprop. done. }
  subst whole. exists pids. split; [done|]. apply existsb_exists in Eo as (q & Hq & ->%Z.eqb_eq).
  apply list_elem_of_In in Hq. split; [done|]. intros p Hp Hpos.
  assert (Hin : p ∈ List.filter (fun p => 0 <? p) pids).
  { apply list_elem_of_In, List.filter_In. split; [apply list_elem_of_In, Hp|apply Z.ltb_lt, Hpos]. }
  pose proof (account_whole _ _ _ _ _ Hw p Hin) as H. cbn in H. destruct (classify_macos _ _ _); done.
Qed.

(** Well-formed text is decoded as itself. *)
Lemma lossy_of_utf8 l : forall t, from_utf8 l = Some t -> from_utf8_lossy l = t.
Proof.
  induction l as [l IH] using (induction_ltof1 _ (@length Z)). unfold ltof in IH.
  destruct l as [|a l1]; intros t; cbn [from_utf8 from_utf8_lossy]; [congruence|].
  assert (Hrec : forall f m, (length m < length (a :: l1))%nat -> cons f <$> from_utf8 m = Some t ->
            f :: from_utf8_lossy m = t).
  { intros f m Hm. destruct (from_utf8 m) eqn:E; cbn; [|discriminate]. intros [= <-]. f_equal. apply IH; done. }
  destruct (in_range 0 127 a); [apply Hrec; cbn; lia|].
  destruct l1 as [|b l2]; [discriminate|].
  destruct (in_range 194 223 a) eqn:E2.
  { destruct (cont b); [|discriminate]. apply Hrec. cbn. lia. }
  destruct l2 as [|c l3]; [discriminate|]. unfold second3, second4. destruct (in_range 224 239 a) eqn:E3.
  { destruct (cont b), (cont c), ((a =? 224) && (b <? 160)), ((a =? 237) && (159 <? b)); cbn; try discriminate.
    apply Hrec. cbn. lia. }
  destruct l3 as [|d l4]; [discriminate|]. destruct (in_range 240 244 a) eqn:E4; [|discriminate].
  destruct (cont b), (cont c), (cont d), ((a =? 240) && (b <? 144)), ((a =? 244) && (143 <? b)); cbn; try discriminate.
  apply Hrec. cbn. lia.
Qed.

(** Process 7 of user 5 runs [pty run]; process 1 is root's. *)
Definition demo_reads (p : Z) : ProcReads :=
  if p =? 7
  then mkReads (Ok (str "State:" ++ [9] ++ str "S (sleeping)" ++ [10] ++ str "Uid:" ++ [9] ++ str "5 5 5 5" ++ [10]))
         (Err ReadRefused) (Ok (str "pty" ++ [0] ++ str "run" ++ [0])) (Err ReadRefused)
  else mkReads (Ok (str "State:" ++ [9] ++ str "S" ++ [10] ++ str "Uid:" ++ [9] ++ str "0 0 0 0" ++ [10]))
         (Err ReadRefused) (Err ReadRefused) (Err ReadRefused).
Definition demo_dir : option (list (Result bytes unit)) := Some [Ok (str "self"); Ok (str "1"); Ok (str "7")].

Lemma argv_scan_exhaustive_witness :
  exists r, r ∈ scan_rows (scan_linux 4096 5 7 demo_dir demo_reads) /\
    argv_pid r = 7 /\ argv r = [str "pty"; str "run"].
Proof.
  destruct (argv_scan_exhaustive 4096 5 7 demo_dir demo_reads ltac:(vm_compute; reflexivity))
    as (es & Hes & _ & H).
  assert (E : es = [Ok (str "self"); Ok (str "1"); Ok (str "7")]) by (unfold demo_dir in Hes; congruence).
  assert (H7 : Ok (str "7") ∈ es) by (rewrite E; right; right; left).
  destruct (H _ H7) as (name & Hn & Hp). assert (En : name = str "7") by congruence. subst name.
  destruct (Hp 7 ltac:(vm_compute; reflexivity)) as [[Hg|st k Ho|o k Hz|o st k Ho Hk]|(r & b & Hin & Hr & Hb & _ & Ha)].
  - exfalso. vm_compute in Hg. destruct Hg as [Hg|[Hg|[Hg|Hg]]]; discriminate.
  - exfalso. vm_compute in Ho. discriminate.
  - exfalso. vm_compute in Hz. destruct Hz as [Hz|Hz]; discriminate.
  - exfalso. vm_compute in Ho. assert (Ek : k = None) by congruence. subst k.
    destruct Hk as [Hk|(_ & t & Ht & _)]; [discriminate|]. vm_compute in Ht. discriminate.
  - exists r. split; [exact Hin|]. split; [exact Hr|]. rewrite Ha. assert (Eb : b = str "pty" ++ [0] ++ str "run" ++ [0]) by (change (Ok (str "pty" ++ [0] ++ str "run" ++ [0]) = (Ok b : Result bytes ReadFailure)) in Hb; congruence).
    rewrite Eb. vm_compute. reflexivity.
Defined.
