(* ===== verification/ProcessTree.v ===== *)
(** Ending a process tree exactly: [crates/pty-core/src/process_tree.rs] and the one
    call to [kill(2)], [crates/pty-core/src/kill.rs].

    A tree is read from a process table, whose map is iterated in some order; a
    process is named by its pid and start identity.  Clocks, tables and the
    outcomes of system calls are functions of the number of reads so far. *)
From S2P Require Import Prelude Order ProcTable.

(** ** [kill(2)] *)

Inductive Target : Type := TargetProcess (pid : Z) | TargetGroup (pgid : Z).

Definition SIGKILL : Z := 9.
Definition SIGTERM : Z := 15.

Definition raw_target (target : Target) (signal : Z) : option Z :=
  match target with
  | TargetProcess pid => if (1 <? pid) || ((pid =? 1) && (signal =? 0)) then Some pid else None
  | TargetGroup pgid => if 1 <? pgid then Some (- pgid) else None
  end.

(** [send]: [None] is the refusal ([EINVAL]); [kill raw signal] is the call's success. *)
Definition send (kill : Z -> Z -> bool) (target : Target) (signal : Z) : option bool :=
  match raw_target target signal with None => None | Some raw => Some (kill raw signal) end.

(** ** The tree *)

(** The order in which a [HashMap] of rows is iterated: any order of its values. *)
Class HashOrder : Type := order : gmap Z Row -> list Row.
Class HashOrderLaws (HO : HashOrder) : Prop :=
  order_values m : order m ≡ₚ (map_to_list m).*2.

#[export] Instance key_order : HashOrder | 100 := fun m => (map_to_list m).*2.
#[export] Instance key_order_laws : HashOrderLaws key_order.
Proof. intros m. done. Qed.

Record ProcessIdentity : Type := mkIdentity { id_pid : Z; id_identity : bytes; id_depth : Z }.

Section Tree.
Context `{HO : HashOrder}.

Definition rows_of (t : ProcTable) : list Row := order (table_rows t).
Definition children (rows : list Row) (pid : Z) : list Z :=
  map row_pid (List.filter (fun r => ppid r =? pid) rows).

(** One round of the loop takes one pid off the queue; the fuel is what is left. *)
Fixpoint walk_loop (fuel : nat) (rows : list Row) (seen : gset Z) (queue : list (Z * Z))
  (out : list (Z * Z)) : list (Z * Z) :=
  match fuel with
  | O => out
  | S f =>
      match queue with
      | [] => out
      | (pid, depth) :: queue =>
          if base.decide (pid ∈ seen) then walk_loop f rows seen queue out
          else walk_loop f rows ({[pid]} ∪ seen)
                 (queue ++ map (fun c => (c, depth + 1)) (children rows pid)) (out ++ [(pid, depth)])
      end
  end.
(** Every row is pushed at most once, by its parent. *)
Definition walk (root : Z) (t : ProcTable) : list (Z * Z) :=
  let rows := rows_of t in
  walk_loop (S (length rows)) rows {[root]} (map (fun c => (c, 1)) (children rows root)) [].

Definition pgid_of (t : ProcTable) (pid : Z) : option Z := pgid <$> table_rows t !! pid.
Definition add_group (root_group : option Z) (t : ProcTable) (groups : list Z) (pd : Z * Z) : list Z :=
  match pgid_of t (fst pd) with
  | Some g =>
      if negb (bool_decide (Some g = root_group)) && (1 <? g) && negb (existsb (Z.eqb g) groups)
      then groups ++ [g] else groups
  | None => groups
  end.
Definition groups_in_tree (root : Z) (t : ProcTable) : list Z :=
  sort_by Z.leb (foldl (add_group (pgid_of t root) t) [] (walk root t)).

Definition members_of_groups (groups : list Z) (t : ProcTable) : list Z :=
  sort_by Z.leb
    (map row_pid
      (List.filter (fun r => negb (is_zombie r) && negb (is_exiting r) && existsb (Z.eqb (pgid r)) groups)
         (rows_of t))).

(** Deepest first, then the higher pid. *)
Definition deeper (a b : ProcessIdentity) : bool :=
  (id_depth b <? id_depth a) || ((id_depth a =? id_depth b) && (id_pid b <=? id_pid a)).

Definition snapshot_from_table (root : Z) (t : ProcTable) : list ProcessIdentity :=
  sort_by deeper
    (omap (fun pd => (fun i => mkIdentity (fst pd) i (snd pd)) <$> known (table_identity t (fst pd)))
       (walk root t)).

Inductive TreeSnapshot : Type :=
  | Complete (ids : list ProcessIdentity)
  | Unavailable (reason : bytes) (ids : list ProcessIdentity).
Definition identities (s : TreeSnapshot) : list ProcessIdentity :=
  match s with Complete ids => ids | Unavailable _ ids => ids end.

Definition observe (t : ProcTable) (pd : Z * Z) : option ProcessIdentity :=
  let? r := known (row t (fst pd)) in
  if is_zombie r then None
  else (fun i => mkIdentity (fst pd) i (snd pd)) <$> identity r.
Definition observed_identities (root : Z) (t : ProcTable) : list ProcessIdentity :=
  sort_by deeper (omap (observe t) (walk root t)).

Definition unnamed (t : ProcTable) (pd : Z * Z) : bool :=
  match known (row t (fst pd)) with
  | Some r => negb (is_zombie r) && bool_decide (identity r = None)
  | None => false
  end.
Definition root_ok (root : Z) (t : ProcTable) : bool :=
  match known (row t root) with
  | Some r => negb (is_zombie r) && bool_decide (identity r <> None)
  | None => false
  end.
Definition complete_snapshot_from_table (root : Z) (t : ProcTable) : TreeSnapshot :=
  if negb (readable t) then Unavailable (str "process-table-unreadable") []
  else
    let observed := observed_identities root t in
    if negb (is_complete t) then Unavailable (str "process-table-incomplete") observed
    else if negb (root_ok root t) then Unavailable (str "root-identity-unavailable") observed
    else match List.find (unnamed t) (walk root t) with
         | Some (pid, _) => Unavailable (str "process-identity-unavailable:" ++ dec pid) observed
         | None => Complete observed
         end.

(** ** Freezing it *)

Definition same_process (a b : ProcessIdentity) : bool :=
  (id_pid a =? id_pid b) && beq (id_identity a) (id_identity b).
Definition merge_one (into : list ProcessIdentity) (candidate : ProcessIdentity) : list ProcessIdentity :=
  if existsb (fun known => same_process known candidate) into then into else into ++ [candidate].
Definition merge_identities (into more : list ProcessIdentity) : list ProcessIdentity :=
  sort_by deeper (foldl merge_one into more).

Definition same_identities (a b : list ProcessIdentity) : bool :=
  (length a =? length b)%nat && forallb (fun p => same_process (fst p) (snd p)) (zip a b).

Fixpoint still_live (t : ProcTable) (observed : list ProcessIdentity)
  : Result (list ProcessIdentity) Z :=
  match observed with
  | [] => Ok []
  | i :: rest =>
      match row t (id_pid i) with
      | Known r =>
          if is_zombie r then still_live t rest
          else match identity r with
               | Some current =>
                   if beq current (id_identity i)
                   then try l := still_live t rest in Ok (i :: l)
                   else still_live t rest
               | None => Err (id_pid i)
               end
      | NotPresent => still_live t rest
      | AnswerUnknown _ => Err (id_pid i)
      end
  end.
Definition still_live_identities (observed : list ProcessIdentity) (t : ProcTable)
  : Result (list ProcessIdentity) Z :=
  try l := still_live t observed in Ok (sort_by deeper l).

Definition stopped_in (t : ProcTable) (pid : Z) : bool :=
  match known (row t pid) with Some r => is_stopped r | None => false end.
Definition all_stopped (root : Z) (ids : list ProcessIdentity) (t : ProcTable) : bool :=
  forallb (stopped_in t) (root :: map id_pid ids).

Definition FREEZE_ATTEMPTS : nat := 16.

Definition failed_to_stop (t : ProcTable) (targeted ids : list ProcessIdentity) (signalled : list Z) : bool :=
  existsb (fun target =>
    existsb (fun live =>
      same_process live target && negb (existsb (Z.eqb (id_pid live)) signalled)
      && negb (stopped_in t (id_pid live))) ids) targeted.

(** [read k] is the [k]th table, [stop k ids] the pids the [k]th stop signalled.
    Besides the snapshot: what each stop was asked to stop. *)
Fixpoint freeze_loop (n : nat) (root : Z) (read : nat -> ProcTable)
  (stop : nat -> list ProcessIdentity -> list Z) (first : option bytes) (k : nat)
  (observed : list ProcessIdentity) (previous : option (list ProcessIdentity)) (running : bool)
  (log : list (list ProcessIdentity)) : TreeSnapshot * list (list ProcessIdentity) :=
  match n with
  | O =>
      (Unavailable (match first with
                    | Some reason => reason
                    | None => if running then str "process-tree-not-stopped"
                              else str "process-tree-did-not-quiesce"
                    end) observed, log)
  | S n' =>
      let targeted := observed in
      let signalled := stop k targeted in
      let log := log ++ [targeted] in
      let t := read (S k) in
      let next := complete_snapshot_from_table root t in
      let observed := merge_identities observed (identities next) in
      match next with
      | Unavailable reason _ => (Unavailable reason observed, log)
      | Complete _ =>
          match still_live_identities observed t with
          | Err pid => (Unavailable (str "observed-identity-unavailable:" ++ dec pid) observed, log)
          | Ok ids =>
              if failed_to_stop t targeted ids signalled
              then (Unavailable (str "descendant-freeze-unverified") observed, log)
              else if all_stopped root ids t
              then
                if match previous with Some p => same_identities p ids | None => false end
                then (match first with
                      | Some reason => Unavailable reason observed
                      | None => Complete ids
                      end, log)
                else freeze_loop n' root read stop first (S k) observed (Some ids) running log
              else freeze_loop n' root read stop first (S k) observed None true log
          end
      end
  end.
Definition freeze_descendants (root : Z) (stop_root : bool) (read : nat -> ProcTable)
  (stop : nat -> list ProcessIdentity -> list Z) : TreeSnapshot * list (list ProcessIdentity) :=
  let first := complete_snapshot_from_table root (read 0%nat) in
  let unavailable := match first with Complete _ => None | Unavailable reason _ => Some reason end in
  if negb stop_root then (Unavailable (str "root-freeze-failed") (identities first), [])
  else freeze_loop (match unavailable with Some _ => 1%nat | None => FREEZE_ATTEMPTS end)
         root read stop unavailable 0 (identities first) None false [].
End Tree.

(** ** Waiting *)

(** A loop that asks again while something is pending and its deadline has not
    passed: [expired k] is the clock after [k] rounds. *)
Section Poll.
Context {S_ : Type} (pending : S_ -> bool) (next : nat -> S_ -> S_) (expired : nat -> bool).
Fixpoint poll (fuel : nat) (k : nat) (s : S_) : option S_ :=
  if negb (pending s) || expired k then Some s
  else match fuel with
       | O => None
       | S f => poll f (S k) (next k s)
       end.
End Poll.

(** ** Groups *)

Definition is_empty {A} (l : list A) : bool := match l with [] => true | _ => false end.

(** [live k groups]: the [k]th answer.  The result, and the signals sent in order;
    [None] is a wait whose deadline never passes. *)
Definition sweep_groups (fuel : nat) (groups : list Z) (own_group : Z)
  (live : nat -> list Z -> list Z) (term_expired kill_expired : nat -> bool)
  : option (list Z * list (Z * Z)) :=
  let targets := List.filter (fun g => (1 <? g) && negb (g =? own_group)) groups in
  if is_empty targets then Some (live 0%nat groups, [])
  else
    let terms := map (fun g => (g, SIGTERM)) targets in
    let? r := poll (fun s => negb (is_empty (snd s))) (fun _ s => (S (fst s), live (fst s) targets))
                term_expired fuel 0 (1%nat, live 0%nat targets) in
    let '(n, remaining) := r in
    if is_empty remaining then Some ([], terms)
    else
      let kills := map (fun g => (g, SIGKILL)) targets in
      let? r := poll (fun s => negb (is_empty (snd s))) (fun _ s => (S (fst s), live (fst s) targets))
                  kill_expired fuel 0 (S n, live n targets) in
      Some (snd r, terms ++ kills).

Definition group_exists (kill0 : Z -> Result unit bool) (pgid : Z) : bool :=
  if pgid <=? 1 then false
  else match kill0 pgid with Ok _ => true | Err eperm => eperm end.

(** [terminate_process_group_with]: [exists_ k] is the [k]th answer. *)
Definition group_round (fuel : nat) (exists_ : nat -> bool) (expired : nat -> bool) (n : nat)
  : option nat :=
  fst <$> poll (fun s : nat * bool => snd s) (fun _ s => (S (fst s), exists_ (fst s))) expired
            fuel 0 (S n, exists_ n).
Definition terminate_process_group_with (fuel : nat) (pgid : Z) (exists_ : nat -> bool)
  (term_expired kill_expired : nat -> bool) : option (bool * list (Z * Z)) :=
  if negb (exists_ 0%nat) then Some (true, [])
  else
    let? n := group_round fuel exists_ term_expired 1 in
    if negb (exists_ n) then Some (true, [(pgid, SIGTERM)])
    else
      let? n := group_round fuel exists_ kill_expired (S n) in
      Some (negb (exists_ n), [(pgid, SIGTERM); (pgid, SIGKILL)]).

(** ** Exact processes *)

(** [ask k pid] is what the [k]th query of one process answers; [n] counts them. *)
Definition is_same_process (ask : nat -> Z -> Answer Row) (n : nat) (i : ProcessIdentity) : bool :=
  match ask n (id_pid i) with
  | Known r => negb (is_zombie r) && bool_decide (identity r = Some (id_identity i))
  | _ => false
  end.
(** The signals sent, each with the number of the query just before it, and the
    pids whose call succeeded ([delivered k]). *)
Fixpoint signal_process_identities (ask : nat -> Z -> Answer Row) (delivered : nat -> bool)
  (signal : Z) (n : nat) (ids : list ProcessIdentity) : list (nat * Target * Z) * list Z :=
  match ids with
  | [] => ([], [])
  | i :: rest =>
      let '(log, signalled) := signal_process_identities ask delivered signal (S n) rest in
      if is_same_process ask n i
      then ((n, TargetProcess (id_pid i), signal) :: log,
            if bool_decide (raw_target (TargetProcess (id_pid i)) signal <> None) && delivered n
            then id_pid i :: signalled else signalled)
      else (log, signalled)
  end.

(** [retain], one query per identity. *)
Fixpoint retain_same (ask : nat -> Z -> Answer Row) (n : nat) (ids : list ProcessIdentity)
  : list ProcessIdentity :=
  match ids with
  | [] => []
  | i :: rest =>
      if is_same_process ask n i then i :: retain_same ask (S n) rest else retain_same ask (S n) rest
  end.
Definition wait_for_identities_to_exit (fuel : nat) (ask : nat -> Z -> Answer Row) (expired : nat -> bool)
  (n : nat) (ids : list ProcessIdentity) : option (nat * list ProcessIdentity) :=
  poll (fun s => negb (is_empty (snd s)))
    (fun _ s => ((fst s + length (snd s))%nat, retain_same ask (fst s) (snd s)))
    expired fuel 0 ((n + length ids)%nat, retain_same ask n ids).

Record Grace : Type := mkGrace { term_expired : nat -> bool; kill_expired : nat -> bool }.
Definition terminate_process_identities (fuel : nat) (ask : nat -> Z -> Answer Row)
  (delivered : nat -> bool) (g : Grace) (n : nat) (ids : list ProcessIdentity)
  : option (list ProcessIdentity * list (nat * Target * Z)) :=
  if is_empty ids then Some ([], [])
  else
    let '(terms, _) := signal_process_identities ask delivered SIGTERM n ids in
    let? r := wait_for_identities_to_exit fuel ask (term_expired g) (n + length ids) ids in
    let '(n, after_term) := r in
    if is_empty after_term then Some ([], terms)
    else
      let '(kills, _) := signal_process_identities ask delivered SIGKILL n after_term in
      let? r := wait_for_identities_to_exit fuel ask (kill_expired g) (n + length after_term) after_term in
      Some (snd r, terms ++ kills).
Definition terminate_process_identities_after_hangup (fuel : nat) (ask : nat -> Z -> Answer Row)
  (delivered : nat -> bool) (hup_expired : nat -> bool) (g : Grace) (ids : list ProcessIdentity)
  : option (list ProcessIdentity * list (nat * Target * Z)) :=
  let? r := wait_for_identities_to_exit fuel ask hup_expired 0 ids in
  let '(n, survivors) := r in
  terminate_process_identities fuel ask delivered g n survivors.

(** ** Lemmas: the walk *)

Section TreeLemmas.
Context `{HO : HashOrder} {HL : HashOrderLaws HO}.

(** Each row under the pid it names. *)
Definition keyed (t : ProcTable) : Prop := forall p r, table_rows t !! p = Some r -> row_pid r = p.

(** [p] is below [root], [d] parents away: the chain of parents reaches the root
    without passing through it before. *)
Inductive descends (t : ProcTable) (root : Z) : Z -> Z -> Prop :=
  | descends_child p r :
      table_rows t !! p = Some r -> p <> root -> ppid r = root -> descends t root p 1
  | descends_step p r d :
      table_rows t !! p = Some r -> p <> root -> descends t root (ppid r) d ->
      descends t root p (d + 1).

Lemma descends_not_root t root p d : descends t root p d -> p <> root.
Proof. destruct 1; done. Qed.

Lemma descends_unique t root p d1 : descends t root p d1 -> forall d2, descends t root p d2 -> d1 = d2.
Proof.
  induction 1 as [p r Hr Hne Hp|p r d Hr Hne Hd IH]; intros d2 H2.
  - inversion H2 as [? r' Hr' _ Hp'|? r' d' Hr' _ Hd']; subst; [done|].
    rewrite Hr in Hr'. injection Hr' as <-. apply descends_not_root in Hd'. done.
  - inversion H2 as [? r' Hr' _ Hp'|? r' d' Hr' _ Hd']; subst; rewrite Hr in Hr'; injection Hr' as <-.
    + apply descends_not_root in Hd. done.
    + f_equal. apply IH, Hd'.
Qed.

Lemma elem_of_rows t r : r ∈ rows_of t <-> exists p, table_rows t !! p = Some r.
Proof.
  unfold rows_of. rewrite (order_values (table_rows t)), list_elem_of_fmap. split.
  - intros ([p r'] & -> & Hin). apply elem_of_map_to_list in Hin. eauto.
  - intros [p Hp]. exists (p, r). split; [done|]. apply elem_of_map_to_list, Hp.
Qed.

Lemma elem_of_children t p c :
  keyed t -> c ∈ children (rows_of t) p <-> exists r, table_rows t !! c = Some r /\ ppid r = p.
Proof.
  intros Hk. unfold children. rewrite elem_of_map. split.
  - intros (r & -> & [Hp Hin]%elem_of_filterb). apply elem_of_rows in Hin as [q Hq].
    pose proof (Hk _ _ Hq). subst q. apply Z.eqb_eq in Hp. eauto.
  - intros (r & Hr & Hp). exists r. split; [symmetry; apply Hk, Hr|].
    apply elem_of_filterb. split; [apply Z.eqb_eq, Hp|apply elem_of_rows; eauto].
Qed.

(** The rounds left: what is queued, and the rows whose parent is not expanded. *)
Definition unexpanded (rows : list Row) (seen : gset Z) : list Row :=
  List.filter (fun r => negb (bool_decide (ppid r ∈ seen))) rows.
Definition rounds (rows : list Row) (seen : gset Z) (queue : list (Z * Z)) : nat :=
  (length queue + length (unexpanded rows seen))%nat.

Lemma unexpanded_add rows seen p :
  p ∉ seen ->
  length (unexpanded rows seen) =
  (length (children rows p) + length (unexpanded rows ({[p]} ∪ seen)))%nat.
Proof.
  intros Hp. unfold unexpanded, children. rewrite length_map.
  induction rows as [|r rows IH]; cbn [List.filter length]; [done|].
  destruct (Z.eqb_spec (ppid r) p) as [->|Hne].
  - rewrite bool_decide_false by done. rewrite bool_decide_true by set_solver. cbn. lia.
  - destruct (bool_decide_reflect (ppid r ∈ seen)) as [Hs|Hs].
    + rewrite bool_decide_true by set_solver. cbn. lia.
    + rewrite bool_decide_false by set_solver. cbn. lia.
Qed.

(** The loop's invariant: what is out descends from the root and each pid is out
    once; what is queued is a child of something expanded; and every child of what
    is expanded is out, queued or the root. *)
Record walking (t : ProcTable) (root : Z) (seen : gset Z) (queue out : list (Z * Z)) : Prop := {
  wk_seen p : p ∈ seen <-> p = root \/ p ∈ out.*1;
  wk_nodup : NoDup (out.*1);
  wk_out p d : (p, d) ∈ out -> descends t root p d;
  wk_queue p d : (p, d) ∈ queue -> p <> root -> descends t root p d;
  wk_closed p r : table_rows t !! p = Some r -> ppid r ∈ seen -> p ∈ seen \/ p ∈ queue.*1
}.

Lemma walking_skip t root seen queue out p d :
  p ∈ seen -> walking t root seen ((p, d) :: queue) out -> walking t root seen queue out.
Proof.
  intros Hp [H1 H2 H3 H4 H5]. split; try done.
  - intros q e Hq. apply H4. right. done.
  - intros q r Hq Hr. destruct (H5 q r Hq Hr) as [|Hin]; [auto|]. cbn in Hin.
    apply elem_of_cons in Hin. destruct Hin as [->|]; auto.
Qed.

Lemma walking_take t root seen queue out p d :
  keyed t -> p ∉ seen -> walking t root seen ((p, d) :: queue) out ->
  walking t root ({[p]} ∪ seen)
    (queue ++ map (fun c => (c, d + 1)) (children (rows_of t) p)) (out ++ [(p, d)]).
Proof.
  intros Hk Hp [H1 H2 H3 H4 H5].
  assert (Hroot : p <> root) by (intros ->; apply Hp, H1; auto).
  assert (Hd : descends t root p d) by (apply H4; [left|done]).
  split.
  - intros q. rewrite fmap_app, elem_of_app. cbn. rewrite list_elem_of_singleton.
    rewrite elem_of_union, elem_of_singleton, H1. tauto.
  - rewrite fmap_app. apply NoDup_app. split; [done|]. split; [|apply NoDup_singleton].
    intros q Hq Hq'. cbn in Hq'. apply list_elem_of_singleton in Hq'. subst q. apply Hp, H1. auto.
  - intros q e. rewrite elem_of_app, list_elem_of_singleton. intros [Hq|[= -> ->]]; [apply H3, Hq|done].
  - intros q e. rewrite elem_of_app. intros [Hq|Hq] Hne; [apply H4; [right|]; done|].
    apply elem_of_map in Hq as (c & [= -> ->] & Hc). apply elem_of_children in Hc as (r & Hr & Hpp); [|done].
    apply (descends_step _ _ _ r); [done|done|]. rewrite Hpp. done.
  - intros q r Hq Hr. apply elem_of_union in Hr. rewrite elem_of_singleton in Hr.
    assert (Hcase : q ∈ {[p]} ∪ seen \/ q ∈ queue.*1 \/ ppid r = p).
    { destruct Hr as [Hr|Hr]; [auto|]. destruct (H5 q r Hq Hr) as [Hs|Hs]; [left; set_solver|].
      cbn in Hs. apply elem_of_cons in Hs. destruct Hs as [->|Hs]; [left; set_solver|auto]. }
    rewrite fmap_app, elem_of_app. destruct Hcase as [?|[?|Hpp]]; [auto|auto|]. right. right.
    apply list_elem_of_fmap. exists (q, d + 1). split; [done|]. apply elem_of_map. exists q. split; [done|]. apply elem_of_children; eauto.
Qed.

Lemma walk_loop_walking t root fuel seen queue out :
  keyed t -> (rounds (rows_of t) seen queue < fuel)%nat -> walking t root seen queue out ->
  exists seen', walking t root seen' [] (walk_loop fuel (rows_of t) seen queue out).
Proof.
  intros Hk. revert seen queue out. induction fuel as [|f IH]; intros seen queue out Hf Hw; [lia|].
  cbn [walk_loop]. destruct queue as [|[p d] queue]; [eauto|].
  destruct (base.decide (p ∈ seen)) as [Hin|Hni].
  - apply IH; [unfold rounds in *; cbn in *; lia|]. eapply walking_skip; done.
  - apply IH; [|apply walking_take; done].
    unfold rounds in *. cbn [length] in Hf. rewrite length_app, length_map.
    rewrite (unexpanded_add _ _ _ Hni) in Hf. lia.
Qed.

Lemma walking_start t root :
  keyed t -> walking t root {[root]} (map (fun c => (c, 1)) (children (rows_of t) root)) [].
Proof.
  intros Hk. split.
  - intros p. cbn. rewrite elem_of_singleton, elem_of_nil. tauto.
  - constructor.
  - intros p d Hp. apply elem_of_nil in Hp. done.
  - intros p d Hp Hne. apply elem_of_map in Hp as (c & [= -> ->] & Hc).
    apply elem_of_children in Hc as (r & Hr & Hpp); [|done]. apply (descends_child _ _ _ r); done.
  - intros p r Hp Hr. apply elem_of_singleton in Hr. right. apply list_elem_of_fmap.
    exists (p, 1). split; [done|]. apply elem_of_map. exists p. split; [done|].
    apply elem_of_children; eauto.
Qed.

Lemma walk_walking t root : keyed t -> exists seen, walking t root seen [] (walk root t).
Proof.
  intros Hk. apply walk_loop_walking; [done| |apply walking_start, Hk].
  unfold rounds. rewrite length_map.
  assert (H := unexpanded_add (rows_of t) ∅ root ltac:(set_solver)).
  replace ({[root]} ∪ ∅ : gset Z) with ({[root]} : gset Z) in H by set_solver.
  assert (Hall : length (unexpanded (rows_of t) ∅) = length (rows_of t)).
  { clear. unfold unexpanded. induction (rows_of t) as [|r l IH]; cbn; [done|].
    rewrite bool_decide_false by set_solver. cbn. lia. }
  lia.
Qed.

Lemma walk_descends t root p d : keyed t -> (p, d) ∈ walk root t <-> descends t root p d.
Proof.
  intros Hk. destruct (walk_walking t root Hk) as (seen & [H1 H2 H3 H4 H5]). split; [apply H3|].
  assert (Hin : forall q e, descends t root q e -> q ∈ (walk root t).*1).
  { induction 1 as [q r Hr Hne Hpp|q r e Hr Hne Hd IH].
    - destruct (H5 q r Hr) as [Hs|Hs]; [apply H1; auto| |inversion Hs].
      apply H1 in Hs. destruct Hs; done.
    - destruct (H5 q r Hr) as [Hs|Hs]; [apply H1; auto| |inversion Hs].
      apply H1 in Hs. destruct Hs; done. }
  intros Hd. pose proof (Hin _ _ Hd) as Hq. apply list_elem_of_fmap in Hq as ([q e] & -> & Hq).
  cbn in *. pose proof (H3 _ _ Hq) as He. rewrite (descends_unique _ _ _ _ Hd _ He). done.
Qed.

Lemma walk_nodup t root : keyed t -> NoDup ((walk root t).*1).
Proof. intros Hk. destruct (walk_walking t root Hk) as (seen & [_ H2 _ _ _]). done. Qed.
End TreeLemmas.

(** ** Lemmas: snapshots *)

Lemma deeper_total a b : deeper a b = true \/ deeper b a = true.
Proof.
  unfold deeper. destruct (Z.ltb_spec (id_depth b) (id_depth a)), (Z.ltb_spec (id_depth a) (id_depth b)); auto.
  assert (E : id_depth a = id_depth b) by lia. rewrite E, Z.eqb_refl. cbn.
  destruct (Z.leb_spec (id_pid b) (id_pid a)); [auto|]. right. apply Z.leb_le. lia.
Qed.

Lemma deeper_spec a b :
  deeper a b = true <-> id_depth b < id_depth a \/ (id_depth a = id_depth b /\ id_pid b <= id_pid a).
Proof. unfold deeper. rewrite orb_true_iff, andb_true_iff, Z.ltb_lt, Z.eqb_eq, Z.leb_le. done. Qed.

Lemma deeper_trans a b c : deeper a b = true -> deeper b c = true -> deeper a c = true.
Proof. rewrite !deeper_spec. lia. Qed.

Lemma NoDup_omap_fst {A B} (f : A -> option B) (g : A -> Z) (h : B -> Z) l :
  (forall x y, f x = Some y -> h y = g x) -> NoDup (map g l) -> NoDup (map h (omap f l)).
Proof.
  intros Hf. induction l as [|x l IH]; cbn [map]; intros Hn; [constructor|].
  inversion Hn as [|? ? Hx Hl]; subst. cbn [omap list_omap]. destruct (f x) as [y|] eqn:E; [|auto].
  constructor; [|auto]. rewrite (Hf _ _ E). intros Hin. apply Hx.
  apply elem_of_map in Hin as (z & Hz & Hin). apply list_elem_of_omap in Hin as (w & Hw & Hfw).
  rewrite Hz, (Hf _ _ Hfw). apply elem_of_map. eauto.
Qed.

Section Snapshots.
Context `{HO : HashOrder} {HL : HashOrderLaws HO}.

(** The process [i] is in the table, is no zombie, and has that identity. *)
Definition alive_in (t : ProcTable) (i : ProcessIdentity) : Prop :=
  exists r, table_rows t !! id_pid i = Some r /\ is_zombie r = false /\ identity r = Some (id_identity i).
Definition live_descendant (t : ProcTable) (root : Z) (i : ProcessIdentity) : Prop :=
  alive_in t i /\ descends t root (id_pid i) (id_depth i).

Lemma known_row t p r :
  readable t = true -> known (row t p) = Some r <-> table_rows t !! p = Some r.
Proof. intros Hr. unfold row. rewrite Hr. destruct (table_rows t !! p); cbn; split; congruence. Qed.

Lemma elem_of_observed t root i :
  keyed t -> readable t = true -> i ∈ observed_identities root t <-> live_descendant t root i.
Proof.
  intros Hk Hr. unfold observed_identities. rewrite elem_of_sort_by, list_elem_of_omap. split.
  - intros ([p d] & Hin & Ho). apply walk_descends in Hin; [|done]. unfold observe in Ho. cbn in Ho.
    destruct (known (row t p)) as [r|] eqn:E; [|discriminate]. apply known_row in E; [|done].
    cbn in Ho. destruct (is_zombie r) eqn:Ez; [discriminate|].
    destruct (identity r) as [tok|] eqn:Ei; [|discriminate]. injection Ho as <-.
    split; [exists r|]; done.
  - intros [(r & Hrow & Hz & Hi) Hd]. exists (id_pid i, id_depth i).
    split; [apply walk_descends; done|]. unfold observe. cbn.
    rewrite (proj2 (known_row t _ r Hr) Hrow). cbn. rewrite Hz, Hi. destruct i. done.
Qed.

Lemma observed_nodup t root : keyed t -> NoDup (map id_pid (observed_identities root t)).
Proof.
  intros Hk. unfold observed_identities. rewrite (sort_by_perm deeper).
  apply NoDup_omap_fst with (g := fst).
  - intros [p d] y. unfold observe. cbn. destruct (known _) as [r|]; [|discriminate]. cbn.
    destruct (is_zombie r); [discriminate|]. destruct (identity r); [|discriminate]. intros [= <-]. done.
  - apply (walk_nodup t root Hk).
Qed.

(** What a complete snapshot says of its table. *)
Record contained (t : ProcTable) (root : Z) (ids : list ProcessIdentity) : Prop := {
  ct_complete : is_complete t = true;
  ct_root : exists r i, table_rows t !! root = Some r /\ is_zombie r = false /\ identity r = Some i;
  ct_named p d r : descends t root p d -> table_rows t !! p = Some r -> is_zombie r = false ->
    identity r <> None;
  ct_elements i : i ∈ ids <-> live_descendant t root i;
  ct_nodup : NoDup (map id_pid ids);
  ct_sorted : sorted deeper ids
}.

Lemma root_ok_spec t root :
  readable t = true ->
  root_ok root t = true <->
  exists r i, table_rows t !! root = Some r /\ is_zombie r = false /\ identity r = Some i.
Proof.
  intros Hr. unfold root_ok. destruct (known (row t root)) as [r|] eqn:E.
  - apply known_row in E; [|done]. rewrite andb_true_iff, negb_true_iff, bool_decide_eq_true. split.
    + intros [Hz Hi]. destruct (identity r) as [i|] eqn:Ei; [|done]. exists r, i. done.
    + intros (r' & i & Hr' & Hz & Hi). assert (r' = r) by congruence. subst. rewrite Hi. done.
  - split; [discriminate|]. intros (r & i & H & _). apply known_row in H; [|done]. congruence.
Qed.

Lemma unnamed_none t root :
  keyed t -> readable t = true ->
  List.find (unnamed t) (walk root t) = None <->
  forall p d r, descends t root p d -> table_rows t !! p = Some r -> is_zombie r = false -> identity r <> None.
Proof.
  intros Hk Hr. split.
  - intros Hf p d r Hd Hrow Hz Hi. apply (walk_descends _ _ _ _ Hk) in Hd.
    pose proof (find_none _ _ Hf (p, d) (proj1 (list_elem_of_In _ _) Hd)) as Hu. unfold unnamed in Hu.
    cbn in Hu. rewrite (proj2 (known_row t p r Hr) Hrow), Hz, bool_decide_true in Hu by done. done.
  - intros H. destruct (List.find _ _) as [[p d]|] eqn:Hf; [exfalso|done].
    apply find_some in Hf as [Hin Hu]. apply list_elem_of_In, walk_descends in Hin; [|done].
    unfold unnamed in Hu. cbn in Hu. destruct (known (row t p)) as [r|] eqn:E; [|done].
    apply known_row in E; [|done]. bprop. apply bool_decide_eq_true in H1. apply (H p d r); done.
Qed.

Lemma contained_unique t root l1 l2 : contained t root l1 -> contained t root l2 -> l1 = l2.
Proof.
  intros [_ _ _ E1 N1 S1] [_ _ _ E2 N2 S2]. apply (sorted_unique deeper); try done.
  - intros a b Ha Hb Hab Hba. apply deeper_spec in Hab, Hba. apply E1 in Ha as [(r & R1 & _ & I1) _].
    apply E1 in Hb as [(r' & R2 & _ & I2) _]. destruct a, b. cbn in *.
    assert (id_pid0 = id_pid1 /\ id_depth0 = id_depth1) as [-> ->] by lia. congruence.
  - apply NoDup_Permutation; [eapply NoDup_fmap_1, N1|eapply NoDup_fmap_1, N2|].
    intros i. rewrite E1, E2. done.
Qed.

Lemma complete_snapshot_iff t root ids :
  keyed t -> complete_snapshot_from_table root t = Complete ids <-> contained t root ids.
Proof.
  intros Hk. unfold complete_snapshot_from_table.
  assert (Hobs : readable t = true -> is_complete t = true -> root_ok root t = true ->
     List.find (unnamed t) (walk root t) = None -> contained t root (observed_identities root t)).
  { intros Hr Hc Ho Hf. split; [done|apply root_ok_spec; done|apply unnamed_none; done| | |].
    - intros i. apply elem_of_observed; done.
    - apply observed_nodup, Hk.
    - apply sort_by_sorted; [apply deeper_total|apply deeper_trans]. }
  split.
  - destruct (readable t) eqn:Hr; cbn [negb]; [|discriminate].
    destruct (is_complete t) eqn:Hc; cbn [negb]; [|discriminate].
    destruct (root_ok root t) eqn:Ho; cbn [negb]; [|discriminate].
    destruct (List.find _ _) as [[p d]|] eqn:Hf; [discriminate|]. intros [= <-]. apply Hobs; done.
  - intros Hct. pose proof Hct as [Hc Hroot Hnamed _ _ _].
    assert (Hr : readable t = true) by (unfold is_complete in Hc; apply andb_prop in Hc; tauto).
    apply root_ok_spec in Hroot; [|done]. apply unnamed_none in Hnamed; [|done|done].
    rewrite Hr, Hc, Hroot, Hnamed. cbn [negb]. f_equal. apply (contained_unique t root); [|done].
    apply Hobs; done.
Qed.

(** A complete snapshot is the whole tree.  The snapshot of a table is complete
    with exactly these identities when, and only when, the table is whole, the root
    is live and named, every live descendant is named, and the identities are
    exactly the root's live descendants, each once at its depth, deepest first.  A
    descendant is what a chain of parents links to the root, however long, past
    zombies and through any order of the table; so the answer is one and the same
    for every order of the map. *)
Theorem complete_snapshot_spec t root ids :
  keyed t -> complete_snapshot_from_table root t = Complete ids <-> contained t root ids.
Proof. apply complete_snapshot_iff. Qed.
End Snapshots.

(** ** Freezing *)

Section Freeze.
Context `{HO : HashOrder} {HL : HashOrderLaws HO}.

Lemma same_process_eq a b :
  same_process a b = true <-> id_pid a = id_pid b /\ id_identity a = id_identity b.
Proof. unfold same_process. rewrite andb_true_iff, Z.eqb_eq, beq_eq. done. Qed.

Lemma merge_sound into more i : i ∈ merge_identities into more -> i ∈ into \/ i ∈ more.
Proof.
  unfold merge_identities. rewrite elem_of_sort_by. revert into.
  induction more as [|m more IH]; intros into; cbn; [auto|]. intros [Hi|Hi]%IH; [|right; right; done].
  unfold merge_one in Hi. destruct (existsb _ _); [auto|]. apply elem_of_app in Hi.
  destruct Hi as [|Hi]; [auto|]. apply list_elem_of_singleton in Hi. subst. right. left.
Qed.

Lemma foldl_merge_covers into more i :
  i ∈ into \/ i ∈ more -> exists j, j ∈ foldl merge_one into more /\ same_process j i = true.
Proof.
  revert into i. induction more as [|m more IH]; intros into i; cbn [foldl].
  - intros [Hi|Hi]; [|inversion Hi]. exists i. split; [done|]. apply same_process_eq. done.
  - intros Hi. assert (Hin : forall x, x ∈ into -> x ∈ merge_one into m).
    { intros x Hx. unfold merge_one. destruct (existsb _ _); [done|]. apply elem_of_app. auto. }
    destruct Hi as [Hi|Hi]; [apply IH; auto|]. apply elem_of_cons in Hi. destruct Hi as [ -> |Hi]; [|apply IH; auto].
    assert (Hm : exists x, x ∈ merge_one into m /\ same_process x m = true).
    { unfold merge_one. destruct (existsb _ into) eqn:E.
      - apply existsb_elem in E as (x & Hx & Hs). eauto.
      - exists m. split; [apply elem_of_app; right; apply list_elem_of_singleton|apply same_process_eq]; done. }
    destruct Hm as (x & Hx & Hs). destruct (IH _ x (or_introl Hx)) as (j & Hj & Hjx).
    exists j. split; [done|]. apply same_process_eq in Hs as [], Hjx as []. apply same_process_eq.
    split; congruence.
Qed.

Lemma merge_covers into more i :
  i ∈ into \/ i ∈ more -> exists j, j ∈ merge_identities into more /\ same_process j i = true.
Proof.
  intros Hi. destruct (foldl_merge_covers _ _ _ Hi) as (j & Hj & Hs). exists j. split; [|done].
  unfold merge_identities. apply elem_of_sort_by, Hj.
Qed.

Lemma row_known t p r : row t p = Known r <-> readable t = true /\ table_rows t !! p = Some r.
Proof. unfold row. destruct (readable t), (table_rows t !! p); split; try (intros [? ?]); try split; congruence. Qed.

Lemma still_live_spec t observed ids i :
  readable t = true -> still_live_identities observed t = Ok ids ->
  i ∈ ids <-> i ∈ observed /\ alive_in t i.
Proof.
  intros Hr. unfold still_live_identities. destruct (still_live t observed) as [l|] eqn:E; cbn; [|discriminate].
  intros [= <-]. rewrite elem_of_sort_by. revert l E.
  induction observed as [|o rest IH]; cbn [still_live]; intros l E.
  { injection E as <-. rewrite elem_of_nil. tauto. }
  rewrite elem_of_cons.
  assert (Hskip : ~ alive_in t o -> forall l, still_live t rest = Ok l ->
    i ∈ l <-> (i = o \/ i ∈ rest) /\ alive_in t i).
  { intros Hn l' E'. rewrite (IH _ E'). split; [tauto|]. intros [[->|] ?]; [contradiction|tauto]. }
  destruct (row t (id_pid o)) as [r| |why] eqn:Er; [|apply Hskip; [|done]|discriminate].
  2:{ intros (r & Hrow & _). unfold row in Er. rewrite Hr, Hrow in Er. done. }
  apply row_known in Er as [_ Er]. destruct (is_zombie r) eqn:Ez.
  { apply Hskip; [|done]. intros (r' & Hrow & Hz & _). congruence. }
  destruct (identity r) as [tok|] eqn:Ei; [|discriminate].
  destruct (beq tok (id_identity o)) eqn:Eb.
  - apply beq_eq in Eb. subst tok. destruct (still_live t rest) as [l'|]; cbn in E; [|discriminate].
    injection E as <-. rewrite elem_of_cons, (IH _ eq_refl). split; [|tauto].
    intros [->|]; [|tauto]. split; [auto|]. exists r. done.
  - apply Hskip; [|done]. intros (r' & Hrow & Hz & Hi). assert (r' = r) by congruence. subst.
    assert (tok = id_identity o) by congruence. subst. rewrite beq_refl in Eb. done.
Qed.

(** One read in which the tree is held: the table is whole, the root is stopped, the
    identities are alive and stopped, and no live descendant is missing. *)
Record held (t : ProcTable) (root : Z) (ids : list ProcessIdentity) : Prop := {
  hd_complete : is_complete t = true;
  hd_root : stopped_in t root = true;
  hd_ids i : i ∈ ids -> alive_in t i /\ stopped_in t (id_pid i) = true;
  hd_all i : live_descendant t root i -> exists j, j ∈ ids /\ same_process j i = true
}.

Lemma alive_same t i j : same_process i j = true -> alive_in t i -> alive_in t j.
Proof. intros [E1 E2]%same_process_eq (r & H1 & H2 & H3). exists r. rewrite <- E1, <- E2. done. Qed.

Lemma same_identities_in a b i :
  same_identities a b = true -> i ∈ b -> exists j, j ∈ a /\ same_process j i = true.
Proof.
  unfold same_identities. revert b. induction a as [|x a IH]; intros [|y b]; cbn; try discriminate;
    [intros _ H; inversion H|]. intros H Hin. rewrite !andb_true_iff in H. destruct H as (Hl & Hxy & Hr).
  apply elem_of_cons in Hin. destruct Hin as [->|Hin]; [exists x; split; [left|done]|].
  destruct (IH b) as (j & Hj & Hs); [rewrite andb_true_iff; done|done|]. exists j. split; [right|]; done.
Qed.

Lemma same_identities_sym a b : same_identities a b = true -> same_identities b a = true.
Proof.
  unfold same_identities. revert b. induction a as [|x a IH]; intros [|y b]; cbn; try discriminate; [done|].
  rewrite !andb_true_iff. intros (Hl & Hxy & Hr).
  specialize (IH b). rewrite !andb_true_iff in IH. destruct (IH (conj Hl Hr)) as [H1 H2].
  repeat split; try done. apply same_process_eq in Hxy as [? ?]. apply same_process_eq. done.
Qed.

Lemma held_same t root a b : same_identities a b = true -> held t root a -> held t root b.
Proof.
  intros Hs [H1 H2 H3 H4]. split; try done.
  - intros i Hi. destruct (same_identities_in _ _ _ Hs Hi) as (j & Hj & Hji).
    destruct (H3 j Hj) as [Ha Hst]. split; [eapply alive_same; done|].
    apply same_process_eq in Hji as [E _]. rewrite <- E. done.
  - intros i Hi. destruct (H4 i Hi) as (j & Hj & Hji).
    destruct (same_identities_in _ _ _ (same_identities_sym _ _ Hs) Hj) as (k & Hk & Hkj).
    exists k. split; [done|]. apply same_process_eq in Hji as [], Hkj as []. apply same_process_eq.
    split; congruence.
Qed.

Lemma held_read t root observed ids :
  keyed t -> (exists l, complete_snapshot_from_table root t = Complete l /\
                forall i, i ∈ l -> exists j, j ∈ observed /\ same_process j i = true) ->
  still_live_identities observed t = Ok ids -> all_stopped root ids t = true -> held t root ids.
Proof.
  intros Hk (l & Hc & Hcov) Hs Hall. apply (complete_snapshot_iff _ _ _ Hk) in Hc as [Hc _ _ He _ _].
  assert (Hr : readable t = true) by (unfold is_complete in Hc; apply andb_prop in Hc; tauto).
  unfold all_stopped in Hall. cbn [forallb] in Hall. apply andb_prop in Hall as [Hroot Hst].
  rewrite forallb_elem in Hst. split; try done.
  - intros i Hi. split; [apply (still_live_spec _ _ _ i Hr Hs), Hi|]. apply Hst, elem_of_map. eauto.
  - intros i Hi. pose proof Hi as [Ha _]. apply He in Hi. destruct (Hcov i Hi) as (j & Hj & Hji).
    exists j. split; [|done]. apply (still_live_spec _ _ _ j Hr Hs). split; [done|].
    apply (alive_same t i j); [|done]. apply same_process_eq in Hji as []. apply same_process_eq. done.
Qed.

Lemma snapshot_identities t root i :
  keyed t -> i ∈ identities (complete_snapshot_from_table root t) -> live_descendant t root i.
Proof.
  intros Hk. destruct (readable t) eqn:Hr.
  - assert (E : identities (complete_snapshot_from_table root t) = observed_identities root t).
    { unfold complete_snapshot_from_table. rewrite Hr. cbn [negb].
      destruct (is_complete t), (root_ok root t); cbn [negb]; try done.
      destruct (List.find _ _) as [[? ?]|]; done. }
    rewrite E. apply elem_of_observed; done.
  - unfold complete_snapshot_from_table. rewrite Hr. cbn. intros H. inversion H.
Qed.

Section Run.
Context (root : Z) (read : nat -> ProcTable) (stop : nat -> list ProcessIdentity -> list Z).
Hypothesis Hkeyed : forall k, keyed (read k).

(** What is known before round [k]: the identities observed come from the reads so
    far and cover them; the tree was held at the last read if that is remembered. *)
Record freezing (k : nat) (observed : list ProcessIdentity)
  (previous : option (list ProcessIdentity)) (log : list (list ProcessIdentity)) : Prop := {
  fz_sound i : i ∈ observed -> exists j, (j <= k)%nat /\ live_descendant (read j) root i;
  fz_covers j i : (j <= k)%nat -> i ∈ identities (complete_snapshot_from_table root (read j)) ->
    exists i', i' ∈ observed /\ same_process i' i = true;
  fz_previous p : previous = Some p -> (1 <= k)%nat /\ held (read k) root p;
  fz_log ts i : ts ∈ log -> i ∈ ts -> exists j, live_descendant (read j) root i
}.

Lemma freezing_read k observed previous log :
  freezing k observed previous log ->
  freezing (S k) (merge_identities observed (identities (complete_snapshot_from_table root (read (S k)))))
    None (log ++ [observed]).
Proof.
  intros [F1 F2 F3 F4]. split.
  - intros i [Hi|Hi]%merge_sound.
    + destruct (F1 i Hi) as (j & Hj & H). exists j. split; [lia|done].
    + exists (S k). split; [done|]. apply snapshot_identities; [apply Hkeyed|done].
  - intros j i Hj Hi. destruct (Nat.eq_dec j (S k)) as [->|Hne]; [apply merge_covers; auto|].
    destruct (F2 j i ltac:(lia) Hi) as (i' & Hi' & Hs).
    destruct (merge_covers observed (identities (complete_snapshot_from_table root (read (S k)))) i' (or_introl Hi'))
      as (i2 & Hi2 & Hs2). exists i2. split; [done|].
    apply same_process_eq in Hs as [], Hs2 as []. apply same_process_eq. split; congruence.
  - discriminate.
  - intros ts i Hts Hi. apply elem_of_app in Hts. rewrite list_elem_of_singleton in Hts.
    destruct Hts as [Hts| ->]; [eapply F4; done|]. destruct (F1 i Hi) as (j & _ & H). eauto.
Qed.

Lemma freezing_held k observed log p :
  (1 <= k)%nat -> freezing k observed None log -> held (read k) root p -> freezing k observed (Some p) log.
Proof. intros Hk [F1 F2 _ F4] Hh. split; try done. intros q [= <-]. done. Qed.

(** The outcome of the loop: every stop named an observed descendant; the tree was
    held by two reads in a row when the result is complete; an incomplete result
    still carries everything observed. *)
Definition outcome (first : option bytes) (n k : nat) (r : TreeSnapshot * list (list ProcessIdentity)) : Prop :=
  (forall ts i, ts ∈ snd r -> i ∈ ts -> exists j, live_descendant (read j) root i) /\
  match fst r with
  | Complete ids =>
      first = None /\ exists m, (k <= m)%nat /\ (1 <= m)%nat /\ (m < k + n)%nat /\
        held (read m) root ids /\ held (read (S m)) root ids /\
        forall j i, (j <= S m)%nat -> i ∈ identities (complete_snapshot_from_table root (read j)) ->
          alive_in (read (S m)) i -> exists i', i' ∈ ids /\ same_process i' i = true
  | Unavailable _ ids => forall i, i ∈ ids -> exists j, live_descendant (read j) root i
  end.

Lemma outcome_unavailable first n k reason observed previous log :
  freezing k observed previous log -> outcome first n k (Unavailable reason observed, log).
Proof.
  intros [F1 F2 F3 F4]. split; [exact F4|]. cbn. intros i Hi. destruct (F1 i Hi) as (j & _ & H). eauto.
Qed.

Lemma outcome_later first n k r : outcome first n (S k) r -> outcome first (S n) k r.
Proof.
  unfold outcome. intros [H1 H2]. split; [done|]. destruct (fst r); [|done].
  destruct H2 as [Hf (m & ? & ? & ? & H)]. split; [done|]. exists m. repeat (split; [lia|]). exact H.
Qed.

Lemma freeze_loop_outcome n first k observed previous running log :
  freezing k observed previous log ->
  outcome first n k (freeze_loop n root read stop first k observed previous running log).
Proof.
  revert k observed previous running log. induction n as [|n IH]; intros k observed previous running log Hf;
    cbn [freeze_loop]; [eapply outcome_unavailable, Hf|].
  pose proof (freezing_read _ _ _ _ Hf) as Hr. pose proof (Hkeyed (S k)) as Hk.
  destruct (complete_snapshot_from_table root (read (S k))) as [l|reason l] eqn:Ec;
    [|split; [apply (fz_log _ _ _ _ Hr)|]; cbn; intros i Hi; destruct (fz_sound _ _ _ _ Hr i Hi) as (j & _ & ?); eauto].
  cbn [identities] in *. set (obs := merge_identities observed l) in *.
  assert (Hun : forall reason, outcome first (S n) k (Unavailable reason obs, log ++ [observed])).
  { intros reason. apply outcome_later, (outcome_unavailable _ _ _ _ _ _ _ Hr). }
  destruct (still_live_identities obs (read (S k))) as [ids|] eqn:El; [|apply Hun].
  destruct (failed_to_stop _ _ _ _); [apply Hun|].
  destruct (all_stopped root ids (read (S k))) eqn:Ea; [|apply outcome_later, IH, Hr].
  assert (Hh : held (read (S k)) root ids).
  { apply (held_read _ _ obs); try done. exists l. split; [done|]. intros i Hi. apply merge_covers. auto. }
  destruct previous as [p|]; [destruct (same_identities p ids) eqn:Es|].
  2,3: apply outcome_later, IH, freezing_held; [lia|done|done].
  destruct first as [reason|]; [apply Hun|].
  destruct (fz_previous _ _ _ _ Hf p eq_refl) as [Hk1 Hp].
  split; [apply (fz_log _ _ _ _ Hr)|]. cbn [fst]. split; [done|]. exists k. repeat (split; [lia|]).
  split; [apply (held_same _ _ _ _ Es Hp)|]. split; [done|]. intros j i Hj Hi Ha.
  destruct (fz_covers _ _ _ _ Hr j i Hj) as (i' & Hi' & Hs); [|].
  { exact Hi. }
  exists i'. split; [|done]. apply (still_live_spec _ _ _ i'
    (proj1 (andb_prop _ _ (hd_complete _ _ _ Hh))) El). split; [done|].
  apply (alive_same _ i i'); [|done]. apply same_process_eq in Hs as []. apply same_process_eq. done.
Qed.
End Run.

Lemma freeze_outcome root stop_root read stop :
  (forall k, keyed (read k)) ->
  let first := match complete_snapshot_from_table root (read 0%nat) with
               | Complete _ => None | Unavailable reason _ => Some reason end in
  (stop_root = false -> exists r, freeze_descendants root stop_root read stop = (Unavailable r (identities (complete_snapshot_from_table root (read 0%nat))), [])) /\
  (stop_root = true ->
     outcome root read first (match first with Some _ => 1%nat | None => FREEZE_ATTEMPTS end) 0
       (freeze_descendants root stop_root read stop)).
Proof.
  intros Hk first. unfold freeze_descendants. fold first. destruct stop_root; split; try discriminate; cbn [negb].
  - intros _. apply (freeze_loop_outcome root read stop Hk). split.
    + intros i Hi. exists 0%nat. split; [lia|]. apply snapshot_identities; [apply Hk|done].
    + intros j i Hj Hi. assert (j = 0%nat) by lia. subst. exists i. split; [done|]. apply same_process_eq. done.
    + discriminate.
    + intros ts i Hts. inversion Hts.
  - intros _. eauto.
Qed.

(** C9: A tree called contained was held still.  Freezing stops the root and only
    processes it has observed below it.  If the answer is complete, the root was
    stopped and the first read was complete already; and two reads in a row, within
    the sixteen it allows itself, were whole tables in which the root and every
    identity of the answer are alive and stopped and no live descendant is missing
    from it; in particular whatever was ever observed and is still alive is in the
    answer, wherever it was reparented.  Otherwise everything it reports was really
    observed below the root. *)
Theorem freeze_sound root stop_root read stop :
  (forall k, keyed (read k)) ->
  let '(answer, stops) := freeze_descendants root stop_root read stop in
  (forall ts i, ts ∈ stops -> i ∈ ts -> exists j, live_descendant (read j) root i) /\
  match answer with
  | Complete ids =>
      stop_root = true /\ (exists l, contained (read 0%nat) root l) /\
      exists m, (1 <= m < FREEZE_ATTEMPTS)%nat /\ held (read m) root ids /\ held (read (S m)) root ids /\
        forall j i, (j <= S m)%nat -> live_descendant (read j) root i -> is_complete (read j) = true ->
          alive_in (read (S m)) i -> exists i', i' ∈ ids /\ same_process i' i = true
  | Unavailable _ ids => forall i, i ∈ ids -> exists j, live_descendant (read j) root i
  end.
Proof.
  intros Hk. destruct (freeze_outcome root stop_root read stop Hk) as [Hf Ht].
  destruct stop_root.
  - specialize (Ht eq_refl). destruct (freeze_descendants root true read stop) as [answer stops].
    destruct Ht as [Hlog Ht]. split; [exact Hlog|]. cbn [fst] in Ht. destruct answer as [ids|]; [|done].
    destruct Ht as [Hfirst (m & _ & Hm1 & Hm2 & H1 & H2 & H3)].
    destruct (complete_snapshot_from_table root (read 0%nat)) as [l|] eqn:E0; [|discriminate].
    split; [done|]. split; [exists l; apply complete_snapshot_iff; [apply Hk|done]|].
    exists m. split; [unfold FREEZE_ATTEMPTS in *; lia|]. repeat (split; [done|]).
    intros j i Hj Hi Hc Ha. apply (H3 j i Hj); [|done].
    assert (Hr : readable (read j) = true) by (unfold is_complete in Hc; apply andb_prop in Hc; tauto).
    apply (elem_of_observed _ root i (Hk j) Hr) in Hi. unfold complete_snapshot_from_table.
    rewrite Hr, Hc. cbn [negb]. destruct (root_ok root (read j)); cbn [negb]; [|done].
    destruct (List.find _ _) as [[? ?]|]; done.
  - destruct (Hf eq_refl) as [r ->]. split; [intros ts i Hts; inversion Hts|]. intros i Hi.
    exists 0%nat. apply snapshot_identities; [apply Hk|done].
Qed.
End Freeze.

(** ** Signals *)

(** Which processes [kill(2)] reaches with a raw argument: one process, the caller's
    group, every process, or a group. *)
Definition reaches (own_group : Z) (group_of : Z -> Z) (raw p : Z) : Prop :=
  if 0 <? raw then p = raw
  else if raw =? 0 then group_of p = own_group
  else if raw =? -1 then True
  else group_of p = - raw.

Lemma raw_target_reaches own group_of t signal raw :
  raw_target t signal = Some raw ->
  forall p, reaches own group_of raw p <->
    match t with TargetProcess q => p = q | TargetGroup g => group_of p = g end.
Proof.
  unfold raw_target, reaches. destruct t as [q|g]; intros H p.
  - destruct ((1 <? q) || _) eqn:E; [|discriminate]. injection H as <-.
    assert (0 < q) by (bprop; destruct E as [E|E]; bprop; lia).
    destruct (Z.ltb_spec 0 q); [done|lia].
  - destruct (Z.ltb_spec 1 g); [|discriminate]. injection H as <-.
    destruct (Z.ltb_spec 0 (- g)); [lia|]. destruct (Z.eqb_spec (- g) 0); [lia|].
    destruct (Z.eqb_spec (- g) (-1)); [lia|]. rewrite Z.opp_involutive. done.
Qed.

Section Polling.
Context {S_ : Type} (pending : S_ -> bool) (next : nat -> S_ -> S_) (expired : nat -> bool).

(** A wait keeps what every round keeps, and ends at rest or past its deadline. *)
Lemma poll_inv (P : S_ -> Prop) fuel k s s' :
  (forall j x, P x -> pending x = true -> P (next j x)) ->
  P s -> poll pending next expired fuel k s = Some s' -> P s'.
Proof.
  intros Hn. revert k s. induction fuel as [|f IH]; intros k s Hs; cbn [poll];
    destruct (pending s) eqn:Ep; cbn [negb orb]; try (intros [= <-]; done);
    destruct (expired k); try (intros [= <-]; done); try discriminate.
  apply IH, Hn; done.
Qed.

Lemma poll_total fuel k m s :
  expired m = true -> (k <= m)%nat -> (m - k <= fuel)%nat -> is_Some (poll pending next expired fuel k s).
Proof.
  intros Hm. revert k s. induction fuel as [|f IH]; intros k s Hk Hf; cbn [poll].
  - replace k with m by lia. rewrite Hm, orb_true_r. eauto.
  - destruct (negb (pending s) || expired k) eqn:E; [eauto|]. apply IH; [|lia].
    destruct (Nat.eq_dec k m) as [->|]; [|lia]. rewrite Hm, orb_true_r in E. discriminate.
Qed.
End Polling.

Lemma is_empty_spec {A} (l : list A) : is_empty l = true <-> l = [].
Proof. destruct l; split; done. Qed.

Definition sweep_targets (groups : list Z) (own : Z) : list Z :=
  List.filter (fun g => (1 <? g) && negb (g =? own)) groups.

Lemma sweep_wait (live : nat -> list Z -> list Z) targets expired fuel k s n remaining :
  (exists j, snd s = live j targets) ->
  poll (fun s : nat * list Z => negb (is_empty (snd s))) (fun _ s => (S (fst s), live (fst s) targets))
    expired fuel k s = Some (n, remaining) ->
  exists j, remaining = live j targets.
Proof.
  intros Hs H. apply (poll_inv _ _ _ (fun s => exists j, snd s = live j targets)) in H; [done| |done].
  intros j x _ _. eexists. done.
Qed.

(** What a sweep that returns has done. *)
Lemma sweep_groups_if fuel groups own live term_expired kill_expired left log :
  sweep_groups fuel groups own live term_expired kill_expired = Some (left, log) ->
  (forall g s, (g, s) ∈ log ->
     g ∈ groups /\ 1 < g /\ g <> own /\ (s = SIGTERM \/ s = SIGKILL)) /\
  (forall g, (g, SIGKILL) ∈ log ->
     (g, SIGTERM) ∈ log /\ exists n, live n (sweep_targets groups own) <> []) /\
  exists n, left = live n (if is_empty (sweep_targets groups own) then groups else sweep_targets groups own).
Proof.
  unfold sweep_groups. fold (sweep_targets groups own). set (targets := sweep_targets groups own).
  assert (Ht : forall g, g ∈ targets -> g ∈ groups /\ 1 < g /\ g <> own).
  { intros g [Hg Hin]%elem_of_filterb. bprop. done. }
  assert (Hin : forall sig g s : Z, (g, s) ∈ map (fun g => (g, sig)) targets -> g ∈ targets /\ s = sig).
  { intros sig g s Hg. apply elem_of_map in Hg as (x & [= -> ->] & Hx). done. }
  destruct (is_empty targets) eqn:Ee.
  { intros [= <- <-]. split; [intros g s H; inversion H|]. split; [intros g H; inversion H|]. eauto. }
  destruct (poll _ _ term_expired _ _ _) as [[n remaining]|] eqn:E1; [|discriminate]. cbn [mbind option_bind].
  apply sweep_wait in E1 as [n1 E1]; [|eexists; done].
  destruct (is_empty remaining) eqn:Er.
  { intros [= <- <-]. apply is_empty_spec in Er. split; [|split].
    - intros g s [Hg ->]%Hin. destruct (Ht g Hg) as (? & ? & ?). auto.
    - intros g [_ Hg]%Hin. discriminate.
    - exists n1. congruence. }
  destruct (poll _ _ kill_expired _ _ _) as [[n2 left2]|] eqn:E2; [|discriminate].
  cbn [mbind option_bind]. intros [= <- <-].
  apply sweep_wait in E2 as [n3 E3]; [|eexists; done].
  split; [|split; [|eauto]].
  - intros g s. rewrite elem_of_app. intros [[Hg ->]%Hin|[Hg ->]%Hin]; destruct (Ht g Hg) as (? & ? & ?); auto.
  - intros g. rewrite !elem_of_app. intros [[_ Hg]%Hin|[Hg _]%Hin]; [discriminate|]. split.
    + left. apply elem_of_map. eauto.
    + exists n1. rewrite <- E1. intros ->. discriminate.
Qed.

(** A sweep ends and reports the machine, not its signals.  When its two waits
    are bounded by their deadlines, it returns.  Only groups it was given are
    signalled, never the caller's own and never group 1 or below; SIGKILL is sent,
    after SIGTERM, only when the groups still had members once the SIGTERM wait was
    over; and what it returns is an answer of the process table itself, so an empty
    result means the table showed them empty. *)
Theorem sweep_groups_spec fuel groups own live term_expired kill_expired m1 m2 :
  term_expired m1 = true -> kill_expired m2 = true -> (m1 <= fuel)%nat -> (m2 <= fuel)%nat ->
  exists left log, sweep_groups fuel groups own live term_expired kill_expired = Some (left, log) /\
  (forall g s, (g, s) ∈ log ->
     g ∈ groups /\ 1 < g /\ g <> own /\ (s = SIGTERM \/ s = SIGKILL)) /\
  (forall g, (g, SIGKILL) ∈ log ->
     (g, SIGTERM) ∈ log /\ exists n, live n (sweep_targets groups own) <> []) /\
  exists n, left = live n (if is_empty (sweep_targets groups own) then groups else sweep_targets groups own).
Proof.
  intros H1 H2 Hf1 Hf2.
  assert (E : is_Some (sweep_groups fuel groups own live term_expired kill_expired)).
  { unfold sweep_groups. fold (sweep_targets groups own). destruct (is_empty _); [eauto|].
    destruct (poll_total (fun s : nat * list Z => negb (is_empty (snd s)))
      (fun _ s => (S (fst s), live (fst s) (sweep_targets groups own))) term_expired fuel 0 m1
      (1%nat, live 0%nat (sweep_targets groups own)) H1 ltac:(lia) ltac:(lia)) as [[n remaining] ->].
    cbn [mbind option_bind]. destruct (is_empty remaining); [eauto|].
    destruct (poll_total (fun s : nat * list Z => negb (is_empty (snd s)))
      (fun _ s => (S (fst s), live (fst s) (sweep_targets groups own))) kill_expired fuel 0 m2
      (S n, live n (sweep_targets groups own)) H2 ltac:(lia) ltac:(lia)) as [? ->].
    cbn [mbind option_bind]. eauto. }
  destruct E as [[left log] E]. exists left, log. split; [exact E|]. eapply sweep_groups_if, E.
Qed.

Lemma signal_exact ask delivered signal n ids :
  forall m t s, (m, t, s) ∈ fst (signal_process_identities ask delivered signal n ids) ->
    s = signal /\ exists i, i ∈ ids /\ t = TargetProcess (id_pid i) /\ is_same_process ask m i = true.
Proof.
  revert n. induction ids as [|i ids IH]; intros n m t s; cbn [signal_process_identities].
  { intros H. inversion H. }
  specialize (IH (S n)). destruct (signal_process_identities ask delivered signal (S n) ids) as [log sg].
  cbn [fst] in IH. destruct (is_same_process ask n i) eqn:E; cbn [fst].
  - rewrite elem_of_cons. intros [[= -> -> ->]|Hin].
    + split; [done|]. exists i. split; [left|done].
    + destruct (IH m t s Hin) as (Hs & j & Hj & H). split; [done|]. exists j. split; [right|]; done.
  - intros Hin. destruct (IH m t s Hin) as (Hs & j & Hj & H). split; [done|]. exists j. split; [right|]; done.
Qed.

Lemma retain_in ask n ids i :
  i ∈ retain_same ask n ids -> i ∈ ids /\ exists m, is_same_process ask m i = true.
Proof.
  revert n. induction ids as [|x ids IH]; intros n; cbn [retain_same]; [intros H; inversion H|].
  destruct (is_same_process ask n x) eqn:E.
  - rewrite !elem_of_cons. intros [->|Hi]; [eauto|]. destruct (IH _ Hi); auto.
  - intros Hi. destruct (IH _ Hi) as [? ?]. split; [right|]; done.
Qed.

Lemma retain_out ask n ids i :
  i ∈ ids -> i ∈ retain_same ask n ids \/ exists m, is_same_process ask m i = false.
Proof.
  revert n. induction ids as [|x ids IH]; intros n; [intros H; inversion H|]. cbn [retain_same].
  rewrite elem_of_cons. intros [->|Hi].
  - destruct (is_same_process ask n x) eqn:E; [left; left|eauto].
  - destruct (IH (S n) Hi) as [H|H]; [|auto]. destruct (is_same_process ask n x); [left; right|left]; done.
Qed.

(** What a wait over [ids] has established when [left] are still there. *)
Definition awaited (ask : nat -> Z -> Answer Row) (ids left : list ProcessIdentity) : Prop :=
  (forall i, i ∈ left -> i ∈ ids /\ exists m, is_same_process ask m i = true) /\
  (forall i, i ∈ ids -> i ∈ left \/ exists m, is_same_process ask m i = false).

Lemma awaited_trans ask a b c : awaited ask a b -> awaited ask b c -> awaited ask a c.
Proof.
  intros [H1 H2] [H3 H4]. split.
  - intros i Hi. destruct (H3 i Hi) as [Hb Hm]. split; [apply H1, Hb|done].
  - intros i Hi. destruct (H2 i Hi) as [Hb|]; auto.
Qed.

Lemma retain_awaited ask n ids : awaited ask ids (retain_same ask n ids).
Proof. split; [apply retain_in|apply retain_out]. Qed.

Lemma wait_awaited fuel ask expired n ids m left :
  wait_for_identities_to_exit fuel ask expired n ids = Some (m, left) -> awaited ask ids left.
Proof.
  unfold wait_for_identities_to_exit. intros H.
  apply (poll_inv _ _ _ (fun s => awaited ask ids (snd s))) in H; [done| |apply retain_awaited].
  intros j x Hx _. cbn. eapply awaited_trans; [exact Hx|apply retain_awaited].
Qed.

(** What a teardown that returns has done. *)
Lemma terminate_exact_if fuel ask delivered g n ids left log :
  terminate_process_identities fuel ask delivered g n ids = Some (left, log) ->
  (forall m t s, (m, t, s) ∈ log -> exists i, i ∈ ids /\ t = TargetProcess (id_pid i) /\
     is_same_process ask m i = true /\ (s = SIGTERM \/ s = SIGKILL)) /\
  (forall m t, (m, t, SIGKILL) ∈ log -> exists i survivors, i ∈ survivors /\ t = TargetProcess (id_pid i) /\
     awaited ask ids survivors /\ awaited ask survivors left) /\
  awaited ask ids left.
Proof.
  unfold terminate_process_identities. destruct (is_empty ids) eqn:Ei.
  { apply is_empty_spec in Ei. subst ids. intros [= <- <-].
    split; [intros m t s H; inversion H|]. split; [intros m t H; inversion H|].
    split; intros i H; inversion H. }
  pose proof (signal_exact ask delivered SIGTERM n ids) as HT.
  destruct (signal_process_identities ask delivered SIGTERM n ids) as [terms ?]. cbn [fst] in HT.
  destruct (wait_for_identities_to_exit _ _ (ProcessTree.term_expired g) _ _) as [[n1 after]|] eqn:E1; [|discriminate].
  cbn [mbind option_bind]. apply wait_awaited in E1. destruct (is_empty after) eqn:Ea.
  { apply is_empty_spec in Ea. subst after. intros [= <- <-]. split; [|split; [|done]].
    - intros m t s H. destruct (HT m t s H) as (-> & i & Hi & Ht & Hs). exists i. auto.
    - intros m t H. destruct (HT m t SIGKILL H) as [Hs _]. discriminate. }
  pose proof (signal_exact ask delivered SIGKILL n1 after) as HK.
  destruct (signal_process_identities ask delivered SIGKILL n1 after) as [kills ?]. cbn [fst] in HK.
  destruct (wait_for_identities_to_exit _ _ (ProcessTree.kill_expired g) _ _) as [[n2 left2]|] eqn:E2; [|discriminate].
  cbn [mbind option_bind snd]. apply wait_awaited in E2. intros [= <- <-].
  split; [|split; [|eapply awaited_trans; done]].
  - intros m t s. rewrite elem_of_app. intros [H|H].
    + destruct (HT m t s H) as (-> & i & Hi & Ht & Hs). exists i. auto.
    + destruct (HK m t s H) as (-> & i & Hi & Ht & Hs). exists i. destruct E1 as [E1 _].
      split; [apply E1, Hi|auto].
  - intros m t. rewrite elem_of_app. intros [H|H].
    + destruct (HT m t SIGKILL H) as [Hs _]. discriminate.
    + destruct (HK m t SIGKILL H) as (_ & i & Hi & Ht & _). exists i, after. auto.
Qed.

(** Every teardown ends: its two waits are bounded by their deadlines. *)
Lemma wait_total fuel ask expired n ids m :
  expired m = true -> (m <= fuel)%nat -> is_Some (wait_for_identities_to_exit fuel ask expired n ids).
Proof. intros Hm Hf. apply (poll_total _ _ _ fuel 0 m); [done|lia|lia]. Qed.

Lemma terminate_total fuel ask delivered g n ids m1 m2 :
  ProcessTree.term_expired g m1 = true -> ProcessTree.kill_expired g m2 = true ->
  (m1 <= fuel)%nat -> (m2 <= fuel)%nat ->
  is_Some (terminate_process_identities fuel ask delivered g n ids).
Proof.
  intros H1 H2 Hf1 Hf2. unfold terminate_process_identities. destruct (is_empty ids); [eauto|].
  destruct (signal_process_identities _ _ _ n ids) as [terms ?].
  destruct (wait_total fuel ask _ (n + length ids) ids _ H1 Hf1) as [[n1 after] ->].
  cbn [mbind option_bind]. destruct (is_empty after); [eauto|].
  destruct (signal_process_identities _ _ _ n1 after) as [kills ?].
  destruct (wait_total fuel ask _ (n1 + length after) after _ H2 Hf2) as [[n2 left] ->]. cbn. eauto.
Qed.

Lemma is_same_process_true ask m i : is_same_process ask m i = true ->
  exists r, ask m (id_pid i) = Known r /\ is_zombie r = false /\ identity r = Some (id_identity i).
Proof.
  unfold is_same_process. destruct (ask m (id_pid i)) as [r| |]; try discriminate.
  intros [Hz Hi]%andb_prop. apply bool_decide_eq_true in Hi. apply negb_true_iff in Hz. eauto.
Qed.

(** Teardown ends, signals exact processes and reports exact survivors.  When its two grace
    periods end, it returns.  Every signal
    goes to the pid of an identity it was given, right after a query showed that very
    process, same start identity and not a zombie, so never to a pid that was
    reused; SIGKILL goes only to one that was still there after the SIGTERM wait.  Whoever
    is reported as surviving was seen alive, and whoever is not was seen gone or
    replaced.  (Not seen alive, for a process that could not be read.) *)
Theorem terminate_exact fuel ask delivered g n ids m1 m2 :
  ProcessTree.term_expired g m1 = true -> ProcessTree.kill_expired g m2 = true ->
  (m1 <= fuel)%nat -> (m2 <= fuel)%nat ->
  exists left log, terminate_process_identities fuel ask delivered g n ids = Some (left, log) /\
  (forall m t s, (m, t, s) ∈ log -> exists i, i ∈ ids /\ t = TargetProcess (id_pid i) /\
     (exists r, ask m (id_pid i) = Known r /\ is_zombie r = false /\ identity r = Some (id_identity i)) /\
     (s = SIGTERM \/ s = SIGKILL)) /\
  (forall m t, (m, t, SIGKILL) ∈ log -> exists i survivors, i ∈ survivors /\ t = TargetProcess (id_pid i) /\
     awaited ask ids survivors /\ awaited ask survivors left) /\
  awaited ask ids left.
Proof.
  intros H1 H2 Hf1 Hf2. destruct (terminate_total fuel ask delivered g n ids m1 m2 H1 H2 Hf1 Hf2) as [[left log] E].
  exists left, log. split; [exact E|]. destruct (terminate_exact_if _ _ _ _ _ _ _ _ E) as (Hs & H).
  split; [|exact H]. intros m t s Hin. destruct (Hs m t s Hin) as (i & Hi & Ht & Hq & Hsig).
  exists i. repeat (split; [assumption|]). split; [apply is_same_process_true, Hq|exact Hsig].
Qed.

(** ** A daemon, its child, a zombie and the zombie's own child *)

Definition demo_row (pid pp pg : Z) (st : string) : Row :=
  mkRow pid pp pg (str st) None None (Some (str "linux:" ++ dec pid)).
Definition demo_tree (st : string) : ProcTable :=
  from_rows [demo_row 300 250 200 st; demo_row 100 1 100 st; demo_row 250 200 200 "Z";
             demo_row 200 100 200 st; demo_row 900 1 900 "S"].
Definition demo_ids : list ProcessIdentity :=
  [mkIdentity 300 (str "linux:300") 3; mkIdentity 200 (str "linux:200") 1].

Lemma keyed_from_rows rows : keyed (from_rows rows).
Proof. intros p r H. apply from_rows_lookup in H. tauto. Qed.

Lemma complete_snapshot_spec_witness : keyed (demo_tree "S") /\ contained (demo_tree "S") 100 demo_ids.
Proof.
  split; [apply keyed_from_rows|].
  apply (complete_snapshot_spec (demo_tree "S") 100 demo_ids (keyed_from_rows _)). vm_compute. reflexivity.
Defined.

(** The stop takes effect at the second read. *)
Definition demo_read (k : nat) : ProcTable := demo_tree (match k with O => "S" | S _ => "T" end)%string.

Lemma freeze_sound_witness :
  fst (freeze_descendants 100 true demo_read (fun _ ids => map id_pid ids)) = Complete demo_ids /\
  exists m, held (demo_read m) 100 demo_ids /\ held (demo_read (S m)) 100 demo_ids.
Proof.
  pose proof (freeze_sound 100 true demo_read (fun _ ids => map id_pid ids) (fun k => keyed_from_rows _)) as H.
  assert (E : freeze_descendants 100 true demo_read (fun _ ids => map id_pid ids)
              = (Complete demo_ids, [demo_ids; demo_ids])) by (vm_compute; reflexivity).
  rewrite E in H |- *. destruct H as (_ & _ & _ & m & _ & H1 & H2 & _).
  split; [reflexivity|]. exists m. split; [exact H1|exact H2].
Defined.

(** Group 200 outlives SIGTERM and not SIGKILL. *)
Lemma sweep_groups_spec_witness : exists n,
  [] = (fun k (_ : list Z) => if (k <? 3)%nat then [300] else []) n [200].
Proof.
  destruct (sweep_groups_spec 5 [1; 100; 200] 100 (fun k _ => if (k <? 3)%nat then [300] else [])
    (Nat.leb 1) (Nat.leb 4) 1 4 eq_refl eq_refl ltac:(lia) ltac:(lia)) as (left & log & E & _ & _ & n & Hn).
  assert (E' : Some (left, log) = Some ([], [(200, SIGTERM); (200, SIGKILL)])).
  { rewrite <- E. vm_compute. reflexivity. }
  injection E' as -> ->. exists n. exact Hn.
Defined.

(** Process 200 dies of SIGTERM; pid 300 has been reused. *)
Definition demo_ask (k : nat) (p : Z) : Answer Row :=
  if p =? 200 then (if (k <? 5)%nat then Known (demo_row 200 100 200 "S") else NotPresent)
  else Known (demo_row 301 1 301 "S").
Lemma terminate_exact_witness :
  awaited demo_ask demo_ids [] /\
  exists i r, i ∈ demo_ids /\ TargetProcess 200 = TargetProcess (id_pid i) /\ demo_ask 1 (id_pid i) = Known r.
Proof.
  destruct (terminate_exact 5 demo_ask (fun _ => true) (mkGrace (Nat.leb 4) (Nat.leb 4)) 0 demo_ids 4 4
    eq_refl eq_refl ltac:(lia) ltac:(lia)) as (left & log & E & H1 & _ & H3).
  assert (E' : Some (left, log) = Some ([], [(1%nat, TargetProcess 200, SIGTERM)])).
  { rewrite <- E. vm_compute. reflexivity. }
  injection E' as -> ->.
  split; [exact H3|]. destruct (H1 1%nat (TargetProcess 200) SIGTERM) as (i & Hi & Ht & (r & Hr & _) & _); [left|].
  exists i, r. split; [exact Hi|]. split; [exact Ht|exact Hr].
Defined.
