(* ===== verification/Identity.v ===== *)
(** Whose process is it: the identity checks of [crates/pty-core/src/registry/list.rs].
    A registry record names a daemon by pid, start token and boot identity; the
    checks say whether the process now holding the pid is that daemon, is another
    one, is gone, or cannot be told.

    What the kernel answers is the class [Host]: the leader of a pid, its start
    token, the boot identity, and what is asked again when a token cannot be read.
    It has one instance for [/proc] and one for macOS.  The process-wide counters of
    [record_daemon_identity_check] are only counted here, not threaded through. *)
From S2P Require Import Prelude Json Metadata Time Names Text ProcTable.

(** [std::io::Error], as far as the registry looks at it. *)
Record IoError : Type := mkIo { not_found : bool; raw_os_error : option Z }.
Definition EPERM : Z := 1.
Definition ESRCH : Z := 3.
Definition process_status_is_gone (e : IoError) : bool :=
  not_found e || bool_decide (raw_os_error e = Some ESRCH).

(** [kill0 pid] is [kill(pid, 0)]. *)
Definition pid_alive (kill0 : Z -> Result unit IoError) (pid : Z) : bool :=
  if pid <=? 0 then false
  else match kill0 pid with
       | Ok _ => true
       | Err e => bool_decide (raw_os_error e = Some EPERM)
       end.

Inductive DaemonIdentityCheck : Type := Match | Mismatch | Gone | Unknown.
#[export] Instance DaemonIdentityCheck_eq_dec : EqDecision DaemonIdentityCheck.
Proof. solve_decision. Defined.

Record DaemonIdentityCounters : Type :=
  mkCounters { matched : Z; mismatched : Z; gone : Z; unknown : Z }.
(** [fetch_add] of a 64-bit counter wraps. *)
Definition bump (c : Z) : Z := (c + 1) mod (USIZE_MAX + 1).
Definition record_daemon_identity_check (r : DaemonIdentityCheck) (c : DaemonIdentityCounters)
  : DaemonIdentityCounters :=
  match r with
  | Match => mkCounters (bump (matched c)) (mismatched c) (gone c) (unknown c)
  | Mismatch => mkCounters (matched c) (bump (mismatched c)) (gone c) (unknown c)
  | Gone => mkCounters (matched c) (mismatched c) (bump (gone c)) (unknown c)
  | Unknown => mkCounters (matched c) (mismatched c) (gone c) (bump (unknown c))
  end.

(** ** What a platform answers *)

Inductive Leader : Type := LeaderOther | LeaderExited | LeaderRunning | LeaderGone | LeaderUnreadable.

(** [after_lost_token]: the answer when the record names a token and the live one
    cannot be read; [without_token]: when the record names none.  For the latter
    two only [Some] answers are evidence. *)
Class Host : Type := {
  leader : Z -> Leader;
  start_token : Z -> option bytes;
  boot_id : option bytes;
  after_lost_token : Z -> option DaemonIdentityCheck;
  without_token : Z -> option DaemonIdentityCheck;
  read_process_start_token : Z -> option bytes
}.

(** *** [/proc] *)

Definition field (name status : bytes) : option bytes := head (omap (strip_prefix name) (lines status)).
Definition linux_leader_status (read : Result bytes IoError) : Result (option Z * bool) IoError :=
  try status := read in
  let tgid := let? v := field (str "Tgid:") status in parse_i32 (trim is_trim_space v) in
  let exited := match trim_start is_trim_space <$> field (str "State:") status with
                | Some s => starts_with [90] s || starts_with [88] s
                | None => false
                end in
  Ok (tgid, exited).
Definition linux_thread_group (read : Result bytes IoError) : Result (option Z) IoError :=
  try r := linux_leader_status read in Ok (fst r).

(** [stat.get(stat.rfind(')')? + 2..)]: the byte after the parenthesis is skipped. *)
Definition read_linux_leader_start_token (stat : option bytes) : option bytes :=
  let? stat := stat in
  let? after := after_last 41 stat in
  let? tail := match after with [] => None | _ :: t => Some t end in
  let? start := split_whitespace tail !! 19%nat in
  Some (str "linux:" ++ start).

(** [/proc/<pid>/status] is read first, and once more if the token is lost. *)
Record LinuxReads : Type := mkLinuxReads {
  rd_status : Result bytes IoError;
  rd_stat : option bytes;
  rd_status_again : Result bytes IoError
}.

Definition linux_leader (pid : Z) (read : Result bytes IoError) : Leader :=
  match linux_leader_status read with
  | Ok (Some tgid, exited) =>
      if negb (tgid =? pid) then LeaderOther else if exited then LeaderExited else LeaderRunning
  | Ok (None, _) => LeaderUnreadable
  | Err e => if process_status_is_gone e then LeaderGone else LeaderUnreadable
  end.
Definition linux_lost_token (pid : Z) (read : Result bytes IoError) : option DaemonIdentityCheck :=
  match linux_thread_group read with
  | Ok (Some tgid) => if negb (tgid =? pid) then Some Mismatch else None
  | Ok None => None
  | Err e => if process_status_is_gone e then Some Gone else None
  end.
Definition linux_process_start_token (pid : Z) (rd : LinuxReads) : option bytes :=
  if pid <=? 0 then None
  else match linux_thread_group (rd_status rd) with
       | Ok (Some tgid) => if tgid =? pid then read_linux_leader_start_token (rd_stat rd) else None
       | _ => None
       end.
Definition linux_host (reads : Z -> LinuxReads) (boot : option bytes) : Host := {|
  leader pid := linux_leader pid (rd_status (reads pid));
  start_token pid := read_linux_leader_start_token (rd_stat (reads pid));
  boot_id := boot;
  after_lost_token pid := linux_lost_token pid (rd_status_again (reads pid));
  without_token _ := None;
  read_process_start_token pid := linux_process_start_token pid (reads pid)
|}.

(** *** macOS *)

(** [process]'s answer, what [ps -o lstart=] printed if it ran, and [kill(pid, 0)]. *)
Record MacReads : Type := mkMacReads {
  rd_process : Answer Row;
  rd_lstart : option bytes;
  rd_alive : bool
}.
Definition mac_leader (a : Answer Row) : Leader :=
  match a with
  | NotPresent => LeaderGone
  | AnswerUnknown _ => LeaderUnreadable
  | Known row => if is_zombie row then LeaderExited else LeaderRunning
  end.
(** [lossy] is [String::from_utf8_lossy]. *)
Definition mac_process_start_token (lossy : bytes -> bytes) (pid : Z) (lstart : option bytes) : option bytes :=
  if pid <=? 0 then None
  else
    let? out := lstart in
    let started := trim is_trim_space (lossy out) in
    if is_nonempty started then Some (str "darwin:" ++ started) else None.
Definition mac_host (lossy : bytes -> bytes) (reads : Z -> MacReads) (boot : option bytes) : Host := {|
  leader pid := mac_leader (rd_process (reads pid));
  start_token pid := mac_process_start_token lossy pid (rd_lstart (reads pid));
  boot_id := boot;
  after_lost_token pid := if rd_alive (reads pid) then None else Some Gone;
  without_token pid := if rd_alive (reads pid) then None else Some Gone;
  read_process_start_token pid := mac_process_start_token lossy pid (rd_lstart (reads pid))
|}.

(** ** The checks *)

(** [Option::filter(|s| !s.is_empty())]. *)
Definition filled (o : option bytes) : option bytes :=
  match o with Some [] => None | _ => o end.
Definition DARWIN_LEGACY : bytes := str "darwin:{".

Definition check_boot_identity (m : SessionMetadata) (live_boot_id : option bytes) : DaemonIdentityCheck :=
  match filled (daemon_boot_id m) with
  | None => Unknown
  | Some recorded =>
      if starts_with DARWIN_LEGACY recorded then Unknown
      else match live_boot_id with
           | Some live =>
               if starts_with DARWIN_LEGACY live then Unknown
               else if beq live recorded then Match else Mismatch
           | None => Unknown
           end
  end.

(** [Some(a) if a != b]. *)
Definition other_pid (recorded : option Z) (pid : Z) : bool :=
  match recorded with Some r => negb (r =? pid) | None => false end.

Definition SessionMetadata_default : SessionMetadata :=
  mkMeta None None None None None [] [] [] [] None None None [] None None None None None None None None
    None None None None None None None None [].

Section Checks.
Context {H : Host}.

Definition check_daemon_identity_evidence (pid : Z) (m : SessionMetadata) : DaemonIdentityCheck :=
  if pid <=? 0 then Gone
  else if other_pid (daemon_pid m) pid then Mismatch
  else match filled (exact_start_token m) with
       | None => default Unknown (without_token pid)
       | Some expected =>
           match start_token pid with
           | Some live => if negb (beq live expected) then Mismatch else check_boot_identity m boot_id
           | None => default Unknown (after_lost_token pid)
           end
       end.

Definition check_daemon_identity (pid : Z) (m : SessionMetadata) : DaemonIdentityCheck :=
  if pid <=? 0 then Gone
  else match leader pid with
       | LeaderOther => Mismatch
       | LeaderExited => Gone
       | LeaderRunning => check_daemon_identity_evidence pid m
       | LeaderGone => Gone
       | LeaderUnreadable => Unknown
       end.

Inductive ControlIdentityCheck : Type :=
  | ControlMatch | LegacyVerified | ControlMismatch | ControlGone | ControlUnknown.

Definition check_legacy_control_identity_with (pid : Z) (m : SessionMetadata) : ControlIdentityCheck :=
  match start_token pid with
  | Some live =>
      match exact_start_token m with
      | Some expected => if beq expected live then LegacyVerified else ControlMismatch
      | None => ControlUnknown
      end
  | None =>
      match after_lost_token pid with
      | Some Mismatch => ControlMismatch
      | Some Gone => ControlGone
      | _ => ControlUnknown
      end
  end.

Definition check_control_identity (pid : Z) (m : SessionMetadata) : ControlIdentityCheck :=
  match daemon_boot_id m with
  | Some _ =>
      match check_daemon_identity pid m with
      | Match => ControlMatch
      | Mismatch => ControlMismatch
      | Gone => ControlGone
      | Unknown => ControlUnknown
      end
  | None =>
      if pid <=? 0 then ControlGone
      else if other_pid (daemon_pid m) pid then ControlMismatch
      else match leader pid with
           | LeaderOther => ControlMismatch
           | LeaderExited => ControlGone
           | LeaderRunning => check_legacy_control_identity_with pid m
           | LeaderGone => ControlGone
           | LeaderUnreadable => ControlUnknown
           end
  end.

(** [sidecar.or(recorded)]. *)
Definition pid_or (sidecar recorded : option Z) : option Z :=
  match sidecar with Some p => Some p | None => recorded end.
(** [(Some(a), Some(b)) if a != b]. *)
Definition conflict (sidecar recorded : option Z) : bool :=
  match sidecar, recorded with Some a, Some b => negb (a =? b) | _, _ => false end.

Definition check_record_identity (sidecar : option Z) (m : option SessionMetadata) : DaemonIdentityCheck :=
  let recorded := m ≫= daemon_pid in
  if conflict sidecar recorded then Unknown
  else match pid_or sidecar recorded with
       | None => Unknown
       | Some pid => check_daemon_identity pid (default SessionMetadata_default m)
       end.

(** [absent_pid], [absent_socket]: [lstat] of the companion says not found. *)
Definition check_record_identity_in (absent_pid absent_socket : bool) (sidecar : option Z)
  (m : option SessionMetadata) : DaemonIdentityCheck :=
  let unnamed := match m with Some r => bool_decide (daemon_pid r = None) | None => false end in
  if bool_decide (sidecar = None) && unnamed && absent_pid && absent_socket then Gone
  else check_record_identity sidecar m.

Definition read_pid_with_in (sidecar : option Z) (retained : option SessionMetadata) : option Z :=
  let? m := retained in
  let? pid := pid_or sidecar (daemon_pid m) in
  if bool_decide (check_record_identity sidecar (Some m) = Match) then Some pid else None.

(** The tail of [read_explicit_control_authority_in], after its two reads:
    [clean] says the strict scanner met no error. *)
Definition explicit_control_authority (clean child_signal : bool) (sidecar : option Z) (m : SessionMetadata)
  : option (Z * ControlIdentityCheck) :=
  if negb clean || conflict sidecar (daemon_pid m) then None
  else
    let? pid := pid_or sidecar (daemon_pid m) in
    let? _ := match daemon_boot_id m with
              | Some _ => Some tt
              | None =>
                  if child_signal
                  then let? _ := daemon_pid m in let? _ := exact_start_token m in Some tt
                  else match sidecar with
                       | Some _ => Some tt
                       | None =>
                           let? expected := process_start_token m in
                           if bool_decide (read_process_start_token pid = Some expected) then Some tt else None
                       end
              end in
    match check_control_identity pid m with
    | ControlMatch => Some (pid, ControlMatch)
    | LegacyVerified => Some (pid, LegacyVerified)
    | _ => None
    end.
End Checks.

(** ** Waiting for an exit *)

(** [alive k]: the [k]th [pid_alive]; [table] is [proctable::has_exited]. *)
Definition has_process_exited_for_reap (alive_before : bool) (table : Answer bool) (alive_after : bool) : bool :=
  if negb alive_before then true
  else match table with
       | Known exited => exited
       | NotPresent => true
       | AnswerUnknown _ => negb alive_after
       end.
Definition reaped_from_ps_state (state : bytes) (still_alive : bool) : bool :=
  let state := trim is_trim_space state in
  if starts_with [90] state then true
  else negb (is_nonempty state) && negb still_alive.

(** [exited k] is the [k]th query, [expired k] whether the timeout had elapsed
    before it. *)
Fixpoint wait_for_process_exit (fuel : nat) (expired exited : nat -> bool) (k : nat) : option bool :=
  if expired k then Some (exited k)
  else if exited k then Some true
  else match fuel with
       | O => None
       | S f => wait_for_process_exit f expired exited (S k)
       end.

(** ** What the answers mean *)

(** What a platform may answer: a lost token proves at most a loss. *)
Class HostLaws `{Host} : Prop := {
  lost_token_laws pid : after_lost_token pid <> Some Match /\ after_lost_token pid <> Some Unknown;
  without_token_laws pid : without_token pid = None \/ without_token pid = Some Gone
}.
#[export] Instance linux_host_laws reads boot : @HostLaws (linux_host reads boot).
Proof.
  split; intros pid; cbn; [|auto]. unfold linux_lost_token.
  destruct (linux_thread_group _) as [[t|]|e]; [destruct (negb _)| |destruct (process_status_is_gone e)];
    split; discriminate.
Qed.
#[export] Instance mac_host_laws lossy reads boot : @HostLaws (mac_host lossy reads boot).
Proof. split; intros pid; cbn; destruct (rd_alive _); auto; split; discriminate. Qed.

Lemma filled_Some o t : filled o = Some t <-> o = Some t /\ t <> [].
Proof. destruct o as [[|x l]|]; cbn; split; try discriminate; try (intros [= <-]); try (intros [[= <-] H]); done. Qed.

Lemma other_pid_false o pid : other_pid o pid = false <-> o = None \/ o = Some pid.
Proof.
  destruct o as [r|]; cbn; [|split; auto].
  rewrite negb_false_iff, Z.eqb_eq. split; [intros ->; auto|intros [|[= ->]]; done].
Qed.

Section Evidence.
Context {H : Host} {HL : HostLaws}.

(** The record's daemon is the process at [pid]. *)
Record proven (pid : Z) (m : SessionMetadata) : Prop := {
  proven_pid : 0 < pid;
  proven_leader : leader pid = LeaderRunning;
  proven_recorded : daemon_pid m = None \/ daemon_pid m = Some pid;
  proven_token : exists t, t <> [] /\ exact_start_token m = Some t /\ start_token pid = Some t;
  proven_boot : exists b, b <> [] /\ starts_with DARWIN_LEGACY b = false /\
                  daemon_boot_id m = Some b /\ boot_id = Some b
}.

(** It is some other process. *)
Inductive disproven (pid : Z) (m : SessionMetadata) : Prop :=
  | DisGroup : leader pid = LeaderOther -> disproven pid m
  | DisPid p : daemon_pid m = Some p -> p <> pid -> disproven pid m
  | DisToken t live : exact_start_token m = Some t -> start_token pid = Some live -> live <> t -> disproven pid m
  | DisLost : start_token pid = None -> after_lost_token pid = Some Mismatch -> disproven pid m
  | DisBoot b live : daemon_boot_id m = Some b -> b <> [] -> boot_id = Some live -> live <> b -> disproven pid m.

(** There is no process. *)
Inductive absent_process (pid : Z) : Prop :=
  | AbsPid : pid <= 0 -> absent_process pid
  | AbsExited : leader pid = LeaderExited -> absent_process pid
  | AbsGone : leader pid = LeaderGone -> absent_process pid
  | AbsLost : start_token pid = None -> after_lost_token pid = Some Gone -> absent_process pid
  | AbsUnnamed : without_token pid = Some Gone -> absent_process pid.

Lemma check_boot_Match m live :
  check_boot_identity m live = Match <->
  exists b, b <> [] /\ starts_with DARWIN_LEGACY b = false /\ daemon_boot_id m = Some b /\ live = Some b.
Proof.
  unfold check_boot_identity. destruct (filled (daemon_boot_id m)) as [b|] eqn:E.
  - apply filled_Some in E as [E Hb]. rewrite E. split.
    + destruct (starts_with _ b) eqn:Eb; [discriminate|]. destruct live as [l|]; [|discriminate].
      destruct (starts_with _ l); [discriminate|]. destruct (beq l b) eqn:El; [|discriminate].
      apply beq_eq in El. subst. eauto.
    + intros (b' & _ & Hd & [= <-] & ->). rewrite Hd, beq_refl. done.
  - split; [discriminate|]. intros (b & Hb & _ & E' & _).
    rewrite (proj2 (filled_Some _ b) (conj E' Hb)) in E. discriminate.
Qed.

Lemma check_boot_other m live :
  check_boot_identity m live <> Gone /\
  (check_boot_identity m live = Mismatch ->
   exists b l, daemon_boot_id m = Some b /\ b <> [] /\ live = Some l /\ l <> b).
Proof.
  unfold check_boot_identity. destruct (filled (daemon_boot_id m)) as [b|] eqn:E; [|split; discriminate].
  apply filled_Some in E as [E Hb]. destruct (starts_with _ b); [split; discriminate|].
  destruct live as [l|]; [|split; discriminate]. destruct (starts_with _ l); [split; discriminate|].
  destruct (beq l b) eqn:El; (split; [discriminate|]); [discriminate|]. intros _.
  exists b, l. repeat split; try done. intros ->. rewrite beq_refl in El. discriminate.
Qed.

Lemma evidence_Match pid m :
  0 < pid -> leader pid = LeaderRunning ->
  check_daemon_identity_evidence pid m = Match <-> proven pid m.
Proof.
  intros Hp Hl. unfold check_daemon_identity_evidence. rewrite (proj2 (Z.leb_gt pid 0)) by lia.
  destruct (other_pid _ _) eqn:Eo.
  { split; [discriminate|]. intros [_ _ Hr _ _]. apply other_pid_false in Hr. congruence. }
  apply other_pid_false in Eo. destruct (filled (exact_start_token m)) as [t|] eqn:Et.
  - apply filled_Some in Et as [Et Ht]. destruct (start_token pid) as [l|] eqn:El.
    + destruct (beq l t) eqn:Elt; cbn [negb].
      * apply beq_eq in Elt. subst l. rewrite check_boot_Match. split; [intros Hb|intros []; done].
        constructor; [done|done|done| |done]. exists t. done.
      * split; [discriminate|]. intros [_ _ _ (t' & _ & E1 & E2) _]. assert (t' = t /\ t' = l) as [-> ->] by (split; congruence).
        rewrite beq_refl in Elt. discriminate.
    + destruct (lost_token_laws pid) as [H1 _].
      split; [destruct (after_lost_token pid) as [[]|]; done|].
      intros [_ _ _ (t' & _ & _ & E2) _]. congruence.
  - split.
    + destruct (without_token_laws pid) as [-> | ->]; discriminate.
    + intros [_ _ _ (t & Ht & E1 & _) _]. rewrite (proj2 (filled_Some _ t) (conj E1 Ht)) in Et. discriminate.
Qed.

Lemma evidence_other pid m :
  0 < pid ->
  (check_daemon_identity_evidence pid m = Mismatch -> disproven pid m) /\
  (check_daemon_identity_evidence pid m = Gone -> absent_process pid).
Proof.
  intros Hp. unfold check_daemon_identity_evidence. rewrite (proj2 (Z.leb_gt pid 0)) by lia.
  destruct (other_pid _ _) eqn:Eo.
  { split; [|discriminate]. intros _. destruct (daemon_pid m) as [p|] eqn:Ep; [|discriminate].
    cbn in Eo. apply (DisPid _ _ p); [done|]. rewrite negb_true_iff, Z.eqb_neq in Eo. done. }
  destruct (filled (exact_start_token m)) as [t|] eqn:Et.
  - apply filled_Some in Et as [Et Ht]. destruct (start_token pid) as [l|] eqn:El.
    + destruct (beq l t) eqn:Elt; cbn [negb].
      * destruct (check_boot_other m boot_id) as [Hg Hm]. split; [|intros E; destruct (Hg E)].
        intros (b & lb & E1 & E2 & E3 & E4)%Hm. eapply DisBoot; done.
      * split; [|discriminate]. intros _. apply (DisToken _ _ t l); [done|done|].
        intros ->. rewrite beq_refl in Elt. discriminate.
    + destruct (after_lost_token pid) as [[]|] eqn:Ea; cbn; split; intros E; try discriminate.
      * apply DisLost; done.
      * apply AbsLost; done.
  - destruct (without_token_laws pid) as [E | E]; rewrite E; cbn; split; intros E'; try discriminate.
    apply AbsUnnamed. done.
Qed.

Lemma not_proven_pid pid m : pid <= 0 -> ~ proven pid m.
Proof. intros H1 [H2 _ _ _ _]. lia. Qed.
Lemma not_proven_leader pid m : leader pid <> LeaderRunning -> ~ proven pid m.
Proof. intros H1 [_ H2 _ _ _]. done. Qed.

Lemma daemon_identity_cases pid m :
  (check_daemon_identity pid m = Match <-> proven pid m) /\
  (check_daemon_identity pid m = Mismatch -> disproven pid m) /\
  (check_daemon_identity pid m = Gone -> absent_process pid).
Proof.
  unfold check_daemon_identity. destruct (pid <=? 0) eqn:Ep.
  { apply Z.leb_le in Ep. split; [split; [discriminate|intros X; destruct (not_proven_pid _ _ Ep X)]|].
    split; [discriminate|]. intros _. apply AbsPid. done. }
  apply Z.leb_gt in Ep. destruct (leader pid) eqn:El;
    try (split; [split; [discriminate|intros X; exfalso; eapply not_proven_leader; [|exact X]; congruence]|];
         split; try discriminate; intros _).
  - apply DisGroup. done.
  - apply AbsExited. done.
  - split; [apply evidence_Match; done|]. apply evidence_other. done.
  - apply AbsGone. done.
Qed.

(** Identity is decided by evidence alone.  A record's daemon matches exactly when a
    live, unexited process leader holds its pid with the recorded, non-empty start
    token, on the recorded boot, and the record names no other pid.  A mismatch or
    an absence is only ever answered on a positive reading of the kernel that says
    so.  When the leader cannot be read at all, the answer is neither. *)
Theorem daemon_identity_evidence pid m :
  (check_daemon_identity pid m = Match <-> proven pid m) /\
  (check_daemon_identity pid m = Mismatch -> disproven pid m) /\
  (check_daemon_identity pid m = Gone -> absent_process pid) /\
  (0 < pid -> leader pid = LeaderUnreadable -> check_daemon_identity pid m = Unknown).
Proof.
  destruct (daemon_identity_cases pid m) as (H1 & H2 & H3). repeat (split; [assumption|]).
  intros Hp Hl. unfold check_daemon_identity. rewrite (proj2 (Z.leb_gt pid 0)), Hl by lia. done.
Qed.

(** The legacy policy's proof: a live leader with the recorded token, and no boot
    evidence to contradict it. *)
Record legacy_proven (pid : Z) (m : SessionMetadata) : Prop := {
  legacy_pid : 0 < pid;
  legacy_leader : leader pid = LeaderRunning;
  legacy_recorded : daemon_pid m = None \/ daemon_pid m = Some pid;
  legacy_token : exists t, exact_start_token m = Some t /\ start_token pid = Some t;
  legacy_no_boot : daemon_boot_id m = None
}.

Lemma control_identity_cases pid m :
  (check_control_identity pid m = ControlMatch <-> proven pid m) /\
  (check_control_identity pid m = LegacyVerified <-> legacy_proven pid m).
Proof.
  unfold check_control_identity. destruct (daemon_boot_id m) as [b|] eqn:Eb.
  - destruct (daemon_identity_cases pid m) as (Hm & _ & _). split.
    + rewrite <- Hm. destruct (check_daemon_identity pid m); split; congruence.
    + split; [destruct (check_daemon_identity pid m); discriminate|]. intros []. congruence.
  - assert (Hn : ~ proven pid m) by (intros [_ _ _ _ (b & _ & _ & Eb' & _)]; congruence).
    destruct (pid <=? 0) eqn:Ep.
    { apply Z.leb_le in Ep. split; (split; [discriminate|]); [done|]. intros []. lia. }
    apply Z.leb_gt in Ep. destruct (other_pid _ _) eqn:Eo.
    { split; (split; [discriminate|]); [done|]. intros [_ _ Hr _ _].
      apply other_pid_false in Hr. congruence. }
    apply other_pid_false in Eo.
    destruct (leader pid) eqn:El; try (split; (split; [discriminate|]); [done|]; intros []; congruence).
    unfold check_legacy_control_identity_with. destruct (start_token pid) as [l|] eqn:Et.
    + destruct (exact_start_token m) as [e|] eqn:Ee.
      * destruct (beq e l) eqn:Eel; (split; [split; [discriminate|done]|]).
        -- apply beq_eq in Eel. subst. split; [intros _|done]. constructor; eauto.
        -- split; [discriminate|]. intros [_ _ _ (t & E1 & E2) _]. assert (e = l) by congruence. subst.
           rewrite beq_refl in Eel. discriminate.
      * split; (split; [discriminate|]); [done|]. intros [_ _ _ (t & E1 & E2) _]. congruence.
    + assert (Hl : ~ legacy_proven pid m) by (intros [_ _ _ (t & E1 & E2) _]; congruence).
      destruct (after_lost_token pid) as [[]|]; split; (split; [discriminate|done]).
Qed.
End Evidence.

Section Authority.
Context {H : Host} {HL : HostLaws}.

Lemma conflict_false a b : conflict a b = false <-> forall x y, a = Some x -> b = Some y -> x = y.
Proof.
  destruct a as [x|], b as [y|]; cbn; try (split; [discriminate|done]).
  rewrite negb_false_iff, Z.eqb_eq. split; [intros -> ? ? [= <-] [= <-]; done|auto].
Qed.

(** What an explicit control is allowed on. *)
Record authorized (child_signal : bool) (sidecar : option Z) (m : SessionMetadata) (pid : Z)
  (a : ControlIdentityCheck) : Prop := {
  auth_named : pid_or sidecar (daemon_pid m) = Some pid;
  auth_recorded : daemon_pid m = None \/ daemon_pid m = Some pid;
  auth_proof : (a = ControlMatch /\ proven pid m) \/ (a = LegacyVerified /\ legacy_proven pid m);
  auth_signal : a = LegacyVerified -> child_signal = true -> daemon_pid m = Some pid;
  auth_stop : a = LegacyVerified -> child_signal = false -> sidecar = None ->
    exists t, process_start_token m = Some t /\ read_process_start_token pid = Some t
}.

Lemma proven_has_boot pid m : proven pid m -> daemon_boot_id m <> None.
Proof. intros [_ _ _ _ (b & _ & _ & E & _)]. congruence. Qed.

(** A control command acts only on proof.  The target of an explicit attach, stop,
    signal or remove is the process named by the pid file or the record, never by
    two that disagree, and only if both files could be read without error; a record
    with boot evidence needs the full match and never falls back; one from before
    boot evidence needs a live leader with its recorded start token, and then a
    child signal also needs the pid in the record and a stop without a pid file
    the recovery token.  Whatever meets this is accepted. *)
Theorem control_authority clean child_signal sidecar m pid a :
  explicit_control_authority clean child_signal sidecar m = Some (pid, a) <->
  clean = true /\ authorized child_signal sidecar m pid a.
Proof.
  unfold explicit_control_authority. destruct clean; cbn [negb orb]; [|split; [discriminate|intros [[=] _]]].
  destruct (conflict sidecar (daemon_pid m)) eqn:Ec.
  { split; [discriminate|]. intros [_ [Hn Hr _ _ _]]. destruct sidecar as [s|], (daemon_pid m) as [p|]; try discriminate.
    cbn in Hn, Ec. destruct Hr as [|Hr]; [done|]. assert (s = p) by congruence. subst. rewrite Z.eqb_refl in Ec. discriminate. }
  destruct (pid_or sidecar (daemon_pid m)) as [p|] eqn:En; cbn [mbind option_bind].
  2: { split; [discriminate|]. intros [_ [Hn _ _ _ _]]. congruence. }
  assert (Hrec : daemon_pid m = None \/ daemon_pid m = Some p).
  { destruct sidecar as [s|]; cbn in En; [|auto]. destruct (daemon_pid m) as [r|] eqn:Er; [|auto].
    rewrite conflict_false in Ec. rewrite (Ec s r eq_refl eq_refl) in En. auto. }
  destruct (control_identity_cases p m) as [Hm Hl].
  match goal with |- context [mbind ?k ?g] => destruct g as [[]|] eqn:Eg end; cbn [mbind option_bind].
  - split.
    + destruct (check_control_identity p m) eqn:Ek; try discriminate; intros [= <- <-]; (split; [done|]);
        constructor; try done.
      * left. split; [done|]. apply Hm. done.
      * right. split; [done|]. apply Hl. done.
      * intros _ ->. pose proof (legacy_no_boot _ _ (proj1 Hl eq_refl)) as Hb. rewrite Hb in Eg.
        destruct Hrec as [Hrec|Hrec]; [|done]. rewrite Hrec in Eg. discriminate.
      * intros _ -> ->. pose proof (legacy_no_boot _ _ (proj1 Hl eq_refl)) as Hb. rewrite Hb in Eg.
        destruct (process_start_token m) as [t|]; [|discriminate]. cbn in Eg.
        destruct (bool_decide _) eqn:Ed; [|discriminate]. apply bool_decide_eq_true in Ed. eauto.
    + intros [_ [Hn _ Hp _ _]]. assert (p = pid) by congruence. subst p.
      destruct Hp as [[-> Hp]|[-> Hp]]; [apply Hm in Hp|apply Hl in Hp]; rewrite Hp; done.
  - split; [discriminate|]. intros [_ [Hn _ Hp Hs Ht]]. assert (p = pid) by congruence. subst p. exfalso.
    destruct Hp as [[-> Hp]|[-> Hp]].
    + apply proven_has_boot in Hp. destruct (daemon_boot_id m); [discriminate|done].
    + rewrite (legacy_no_boot _ _ Hp) in Eg. destruct child_signal.
      * rewrite (Hs eq_refl eq_refl) in Eg. destruct (legacy_token _ _ Hp) as (t & Et & _). rewrite Et in Eg. discriminate.
      * destruct sidecar as [s|]; [discriminate|]. destruct (Ht eq_refl eq_refl eq_refl) as (t & E1 & E2).
        rewrite E1 in Eg. cbn in Eg. rewrite E2, bool_decide_eq_true_2 in Eg; [discriminate|done].
Qed.

(** A pid file that contradicts the record decides nothing; a match is the record's
    own process. *)
Lemma record_identity_Match sidecar m :
  check_record_identity sidecar m = Match ->
  exists r pid, m = Some r /\ pid_or sidecar (daemon_pid r) = Some pid /\ proven pid r /\
    (forall s, sidecar = Some s -> s = pid).
Proof.
  unfold check_record_identity. destruct (conflict _ _) eqn:Ec; [discriminate|].
  destruct (pid_or sidecar (m ≫= daemon_pid)) as [pid|] eqn:En; [|discriminate]. intros Hm.
  apply daemon_identity_cases in Hm. destruct m as [r|]; cbn in *.
  - exists r, pid. repeat (split; [done|]). intros s ->. cbn in En. congruence.
  - destruct Hm as [_ _ _ (t & _ & E & _) _]. discriminate.
Qed.

Lemma record_identity_in_Match ap asock sidecar m :
  check_record_identity_in ap asock sidecar m = Match -> check_record_identity sidecar m = Match.
Proof. unfold check_record_identity_in. destruct (_ && _); [discriminate|done]. Qed.

Lemma read_pid_proven sidecar retained pid :
  read_pid_with_in sidecar retained = Some pid -> exists m, retained = Some m /\ proven pid m.
Proof.
  unfold read_pid_with_in. destruct retained as [m|]; [|discriminate]. cbn.
  destruct (pid_or sidecar (daemon_pid m)) as [p|] eqn:Ep; [|discriminate]. cbn.
  destruct (bool_decide _) eqn:Eb; [|discriminate]. intros [= <-]. exists m. split; [done|].
  apply bool_decide_eq_true in Eb. apply record_identity_Match in Eb as (r & q & [= <-] & Hq & Hp & _).
  congruence.
Qed.
End Authority.

(** ** Waiting *)

(** The wait ends once its timeout has passed, and reports the last query. *)
Lemma wait_for_process_exit_total fuel expired exited k m :
  expired m = true -> (k <= m)%nat -> (m - k <= fuel)%nat ->
  exists b, wait_for_process_exit fuel expired exited k = Some b /\
    exists j, (k <= j <= m)%nat /\ exited j = b /\ (b = false -> expired j = true).
Proof.
  intros Hm. revert k. induction fuel as [|f IH]; intros k Hk Hf; cbn [wait_for_process_exit].
  - assert (k = m) by lia. subst. rewrite Hm. exists (exited m). split; [done|]. exists m. split; [lia|done].
  - destruct (expired k) eqn:Ek; [exists (exited k); split; [done|]; exists k; split; [lia|done]|].
    destruct (exited k) eqn:Ex; [exists true; split; [done|]; exists k; split; [lia|done]|].
    assert (k <> m) by (intros ->; congruence).
    destruct (IH (S k)) as (b & E & j & Hj & Hb); [lia|lia|]. exists b. split; [done|]. exists j. split; [lia|done].
Qed.

Lemma exited_for_reap_evidence before table after :
  has_process_exited_for_reap before table after = true <->
  before = false \/ table = Known true \/ table = NotPresent \/ ((exists w, table = AnswerUnknown w) /\ after = false).
Proof.
  unfold has_process_exited_for_reap. destruct before; cbn [negb].
  - destruct table as [[]| |w]; try (split; [auto|intros _; done]).
    + split; [discriminate|]. intros [|[|[|[[w ?] _]]]]; discriminate.
    + rewrite negb_true_iff. split; [intros ->; eauto 6|].
      intros [|[|[|[_ ?]]]]; try discriminate. done.
  - split; auto.
Qed.

(** ** A daemon on Linux, its record, and a pid that was reused *)

Definition demo_status : bytes := str "Name:	pty
State:	S (sleeping)
Tgid:	4242
Pid:	4242
".
Definition demo_stat (start : string) : bytes :=
  str "4242 (pty run) S 1 4242 4242 0 -1 4194560 0 0 0 0 1 2 0 0 20 0 1 0 " ++ str start ++ str " 9999 25".
Definition demo_host (start : string) : Host :=
  linux_host (fun p => if p =? 4242
                       then mkLinuxReads (Ok demo_status) (Some (demo_stat start)) (Ok demo_status)
                       else mkLinuxReads (Err (mkIo true None)) None (Err (mkIo true None)))
    (Some (str "linux:boot-a")).
Definition demo_record : SessionMetadata :=
  default SessionMetadata_default
    (from_map [(str "daemonPid", VNum (NInt 4242)); (str "daemonStartToken", VStr (str "linux:8811"));
               (str "daemonBootId", VStr (str "linux:boot-a"))]).

Example demo_matches : @check_daemon_identity (demo_host "8811") 4242 demo_record = Match.
Proof. vm_compute. reflexivity. Qed.
Example demo_reused : @check_daemon_identity (demo_host "9000") 4242 demo_record = Mismatch.
Proof. vm_compute. reflexivity. Qed.

Lemma daemon_identity_evidence_witness : @proven (demo_host "8811") 4242 demo_record.
Proof. apply (@daemon_identity_evidence (demo_host "8811") _ 4242 demo_record). vm_compute. reflexivity. Defined.

Lemma control_authority_witness :
  @authorized (demo_host "8811") true (Some 4242) demo_record 4242 ControlMatch.
Proof.
  apply (@control_authority (demo_host "8811") _ true true (Some 4242) demo_record 4242 ControlMatch).
  vm_compute. reflexivity.
Defined.
