(* ===== verification/MetadataCache.v ===== *)
(** Reading records for a listing: [crates/pty-core/src/registry/list_metadata.rs], the
    parse with or without retained payloads, and
    [registry/list/metadata_cache.rs], the cache of parsed records.

    [serde_json] is an argument: [json] gives the entries of an object's text in order,
    duplicates included, every nested value resolved.  What one call reads of a file
    (the clock, the descriptor's stat before and after, the bytes) is a value. *)
From S2P Require Import Prelude Json Metadata Time Names Text Identity.

(** ** [list_metadata.rs] *)

(** The last value of a key stands at the key's first place. *)
Definition last_fields (raw : list (bytes * Value)) : IndexMap Value :=
  foldl (fun m kv => minsert (fst kv) (snd kv) m) [] raw.

(** A payload must have its shape, and is dropped. *)
Definition discard {A} (dec : Value -> option A) (k : bytes) (fields : IndexMap Value)
  : option (IndexMap Value) :=
  let? _ := opt_field dec k fields in Some (shift_remove k fields).

Definition parse_with_payloads (json : bytes -> option (list (bytes * Value))) (b : bytes) (full : bool)
  : option SessionMetadata :=
  let? raw := json b in
  let fields := last_fields raw in
  let? fields :=
    if full then Some fields
    else
      let? fields := discard dec_strs (str "lastLines") fields in
      let? fields := discard dec_map (str "extraEnv") fields in
      discard dec_map (str "sessionEnv") fields in
  from_map fields.

(** The record an ordinary listing keeps. *)
Definition without_payloads (m : SessionMetadata) : SessionMetadata :=
  mkMeta
    (generation m) (daemon_pid m) (daemon_start_token m) (daemon_boot_id m)
    (recovery m) (command m) (args m) (display_command m) (cwd m) (rows m) (cols m)
    (ephemeral m) (created_at m) (display_name m) (tags m) (publication_binding m)
    (publication_root_id m) (publication_capability m) (isolate_env m) None
    None (unset_env m) (env m) (exit_code m) (exited_at m) None
    (last_attach_at m) (last_output_at_ms m) (client_generation m) (extra m).

(** ** Paths *)

(** [Path::join] of one component, [Path::file_name], [Path::parent], [Path::file_stem]. *)
Definition path_join (root name : bytes) : bytes :=
  match root with
  | [] => name
  | _ => if bool_decide (last root = Some 47) then root ++ name else root ++ 47 :: name
  end.
Definition file_name (p : bytes) : bytes := match after_last 47 p with Some f => f | None => p end.
Definition parent (p : bytes) : bytes :=
  match after_last 47 p with
  | Some f => take (length p - length f - 1) p
  | None => []
  end.
(** The part before the last dot, unless that dot starts the name. *)
Definition file_stem (p : bytes) : bytes :=
  let f := file_name p in
  match after_last 46 f with
  | Some ext => match take (length f - length ext - 1) f with [] => f | stem => stem end
  | None => f
  end.

(** ** The cache *)

(** [struct Identity]; a time is seconds and nanoseconds. *)
Record Stamp : Type := mkStamp {
  dev : Z; ino : Z; size : Z; mtime : Z * Z; ctime : Z * Z
}.
#[export] Instance Stamp_eq_dec : EqDecision Stamp.
Proof. solve_decision. Defined.

Definition TICK_MARGIN : Z := 50000000.
Definition COARSE_TICK_MARGIN : Z := 2000000000.
Definition tick (s : Stamp) : Z :=
  if (snd (mtime s) =? 0) && (snd (ctime s) =? 0) then COARSE_TICK_MARGIN else TICK_MARGIN.
Definition ctime_ns (s : Stamp) : Z := fst (ctime s) * 1000000000 + snd (ctime s).
(** [now]: nanoseconds since the epoch; before it, nothing is settled. *)
Definition settled (s : Stamp) (now : Z) : bool := (0 <=? now) && (tick s <? now - ctime_ns s).

Record CacheEntry : Type := mkCacheEntry { ce_identity : Stamp; ce_metadata : SessionMetadata }.
Abbreviation RegistryListCache := (gmap bytes CacheEntry).

Definition retain (root : bytes) (names : list bytes) (c : RegistryListCache) : RegistryListCache :=
  filter (fun kv => beq (parent (fst kv)) root && negb (existsb (beq (file_stem (fst kv))) names) = false) c.

Inductive InventoryErrorKind : Type :=
  | RootMissing | RootUnreadable | EntryUnreadable | MetadataUnreadable | MetadataMalformed
  | PidUnreadable | PidMalformed | ProbeTimeout | IdentityUnknown.
#[export] Instance InventoryErrorKind_eq_dec : EqDecision InventoryErrorKind.
Proof. solve_decision. Defined.

(** What one call reads: the descriptor's stat ([None]: not a regular file), the
    same again, the bytes through the descriptor or (if not regular) by path, and
    the stat after them. *)
Record Opened : Type := mkOpened {
  rd_before : Result (option Stamp) IoError;
  rd_again : Result (option Stamp) IoError;
  rd_bytes : Result bytes IoError;
  rd_bytes_by_path : Result bytes IoError;
  rd_after : Result (option Stamp) IoError
}.

Definition cached (c : RegistryListCache) (path : bytes) (before : option Stamp) : option SessionMetadata :=
  let? e := c !! path in
  if bool_decide (before = Some (ce_identity e)) then Some (ce_metadata e) else None.

(** [Ok m]: a hit.  [Err (bytes, stamp)]: the bytes read, and what to retain them under. *)
Definition cache_miss (before : option Stamp) (now : Z) (o : Opened)
  : Result (Result SessionMetadata (bytes * option Stamp)) IoError :=
  try b := (if bool_decide (before = None) then rd_bytes_by_path o else rd_bytes o) in
  try after := rd_after o in
  Ok (Err (b, match before with
              | Some s => if bool_decide (after = Some s) && settled s now then Some s else None
              | None => None
              end)).
Definition cache_read (c : RegistryListCache) (path : bytes) (now : Z) (opened : Result Opened IoError)
  : Result (Result SessionMetadata (bytes * option Stamp)) IoError :=
  try o := opened in
  try before := rd_before o in
  match cached c path before with
  | Some m =>
      try again := rd_again o in
      if bool_decide (again = before) then Ok (Ok m) else cache_miss before now o
  | None => cache_miss before now o
  end.

(** The entry is forgotten on every path that is not a hit. *)
Definition cache_finish (json : bytes -> option (list (bytes * Value))) (path : bytes)
  (read : Result (Result SessionMetadata (bytes * option Stamp)) IoError) (c : RegistryListCache)
  : Result SessionMetadata InventoryErrorKind * RegistryListCache :=
  match read with
  | Ok (Ok m) => (Ok m, c)
  | Ok (Err (b, stamp)) =>
      let c := delete path c in
      match parse_with_payloads json b false with
      | None => (Err MetadataMalformed, c)
      | Some m => (Ok m, match stamp with Some s => <[path := mkCacheEntry s m]> c | None => c end)
      end
  | Err _ => (Err MetadataUnreadable, delete path c)
  end.
Definition cache_metadata (json : bytes -> option (list (bytes * Value))) (path : bytes) (now : Z)
  (opened : Result Opened IoError) (c : RegistryListCache)
  : Result SessionMetadata InventoryErrorKind * RegistryListCache :=
  cache_finish json path (cache_read c path now opened) c.

(** ** The light parse *)

Lemma opt_field_removed {A} (dec : Value -> option A) k k' m :
  k <> k' -> opt_field dec k (shift_remove k' m) = opt_field dec k m.
Proof. intros H. unfold opt_field. rewrite mget_shift_remove_ne by done. done. Qed.
Lemma def_field_removed {A} (dec : Value -> option A) d k k' m :
  k <> k' -> def_field dec d k (shift_remove k' m) = def_field dec d k m.
Proof. intros H. unfold def_field. rewrite mget_shift_remove_ne by done. done. Qed.
Lemma opt_field_gone {A} (dec : Value -> option A) k m :
  NoDup (mkeys m) -> opt_field dec k (shift_remove k m) = Some None.
Proof. intros H. unfold opt_field. rewrite mget_shift_remove_eq by done. done. Qed.

Lemma unknown_removed k m : is_known k = true -> unknown_entries (shift_remove k m) = unknown_entries m.
Proof.
  intros Hk. unfold unknown_entries. induction m as [|[k0 v0] m IH]; [done|]. cbn [shift_remove].
  key_case k k0.
  - rewrite filter_cons. cbn [fst]. rewrite decide_False by congruence. done.
  - rewrite !filter_cons. cbn [fst]. rewrite IH. done.
Qed.

Definition strip_payloads (m : IndexMap Value) : IndexMap Value :=
  shift_remove (str "sessionEnv") (shift_remove (str "extraEnv") (shift_remove (str "lastLines") m)).

Lemma NoDup_last_fields raw : NoDup (mkeys (last_fields raw)).
Proof.
  unfold last_fields. assert (H : NoDup (mkeys (@nil (bytes * Value)))) by constructor. revert H.
  generalize (@nil (bytes * Value)) as m. induction raw as [|[k v] raw IH]; intros m H; [done|].
  cbn [foldl fst snd]. apply IH, NoDup_minsert, H.
Qed.

Ltac other_key := apply beq_neq; vm_compute; reflexivity.
Ltac field_step :=
  repeat first [rewrite opt_field_removed by other_key | rewrite def_field_removed by other_key].

Lemma unknown_stripped m : unknown_entries (strip_payloads m) = unknown_entries m.
Proof. unfold strip_payloads. rewrite !unknown_removed by (vm_compute; reflexivity). done. Qed.

Lemma decodes_light m s : NoDup (mkeys m) -> decodes m s -> decodes (strip_payloads m) (without_payloads s).
Proof.
  intros Hd []. constructor; cbn -[opt_field def_field shift_remove str unknown_entries]; unfold strip_payloads;
    field_step; try assumption.
  - apply opt_field_gone, NoDup_shift_remove, Hd.
  - apply opt_field_gone. apply NoDup_shift_remove, NoDup_shift_remove, Hd.
  - apply opt_field_gone, Hd.
  - rewrite d_extra. symmetry. apply unknown_stripped.
Qed.

Definition with_payloads (l : option (list bytes)) (e s : option (IndexMap bytes)) (m : SessionMetadata)
  : SessionMetadata :=
  mkMeta
    (generation m) (daemon_pid m) (daemon_start_token m) (daemon_boot_id m)
    (recovery m) (command m) (args m) (display_command m) (cwd m) (rows m) (cols m)
    (ephemeral m) (created_at m) (display_name m) (tags m) (publication_binding m)
    (publication_root_id m) (publication_capability m) (isolate_env m) e
    s (unset_env m) (env m) (exit_code m) (exited_at m) l
    (last_attach_at m) (last_output_at_ms m) (client_generation m) (extra m).

Lemma decodes_full m s l e n :
  opt_field dec_strs (str "lastLines") m = Some l -> opt_field dec_map (str "extraEnv") m = Some e ->
  opt_field dec_map (str "sessionEnv") m = Some n ->
  decodes (strip_payloads m) s -> decodes m (with_payloads l e n s).
Proof.
  intros Hl He Hn []. unfold strip_payloads in *.
  repeat match goal with H : _ = Some _ |- _ => progress (
    repeat first [rewrite opt_field_removed in H by other_key
                 |rewrite def_field_removed in H by other_key]) end.
  constructor; cbn -[opt_field def_field shift_remove str unknown_entries]; try assumption.
  rewrite d_extra. apply unknown_stripped.
Qed.

(** A listing's records are the real ones without their payloads.  Parsing a record
    for a listing accepts exactly the texts a full parse accepts, payloads of the
    wrong shape refused too, and yields the same record with only its last lines
    and its two environments left out. *)
Theorem light_parse_projection json b :
  parse_with_payloads json b false = without_payloads <$> parse_with_payloads json b true.
Proof.
  unfold parse_with_payloads. destruct (json b) as [raw|]; [|done]. cbn [mbind option_bind].
  pose proof (NoDup_last_fields raw) as Hd. set (m := last_fields raw) in *. clearbody m.
  unfold discard. cbv iota. change (mbind from_map (Some m)) with (from_map m).
  destruct (from_map m) as [s|] eqn:Ef; cbn [fmap option_fmap option_map].
  - apply from_map_decodes in Ef. pose proof Ef as [].
    rewrite d_last_lines. cbn [mbind option_bind]. rewrite opt_field_removed by other_key.
    rewrite d_extra_env. cbn [mbind option_bind]. field_step. rewrite d_session_env. cbn [mbind option_bind].
    apply from_map_decodes, (decodes_light m s Hd Ef).
  - destruct (opt_field dec_strs _ m) as [l|] eqn:El; [|done]. cbn [mbind option_bind].
    rewrite opt_field_removed by other_key.
    destruct (opt_field dec_map (str "extraEnv") m) as [e|] eqn:Ee; [|done]. cbn [mbind option_bind]. field_step.
    destruct (opt_field dec_map (str "sessionEnv") m) as [n|] eqn:En; [|done]. cbn [mbind option_bind].
    change (from_map (strip_payloads m) = None).
    destruct (from_map (strip_payloads m)) as [s|] eqn:Es; [|done]. apply from_map_decodes in Es.
    pose proof (decodes_full m s l e n El Ee En Es) as Hf. apply from_map_decodes in Hf. congruence.
Qed.

(** ** The cache never serves a stale record *)

(** A registry seen over time.  A [File] is one inode from its creation to its end,
    with a version that grows with every change of its contents. *)
Section Coherence.
Context (json : bytes -> option (list (bytes * Value))).
Context {File : Type} (clock : nat -> Z) (stat : nat -> File -> option Stamp)
        (version : nat -> File -> Z) (body : File -> Z -> bytes).

(** The kernel stamps what it changes: contents seen later under a stamp that was
    already seen are the same contents, or were made at some moment in between and
    carry a change time no older than that moment, up to the clock's tick. *)
Record stamping : Prop := {
  clock_mono t t' : (t <= t')%nat -> clock t <= clock t';
  version_mono t t' x : (t <= t')%nat -> version t x <= version t' x;
  stamped t t' x y s : (t <= t')%nat -> stat t x = Some s -> stat t' y = Some s ->
    (x = y /\ version t x = version t' y) \/
    exists k, (t < k <= t')%nat /\ clock k - tick s <= ctime_ns s
}.

Definition parse_at (t : nat) (x : File) : option SessionMetadata :=
  parse_with_payloads json (body x (version t x)) false.

(** One call: the clock at [t0], then the file [x] opened and looked at, at [t1],
    [t2] and [t3].  Any read may fail. *)
Record call (t0 t1 t2 t3 : nat) (x : File) (now : Z) (o : Opened) : Prop := {
  call_order : (t0 <= t1 <= t2)%nat /\ (t2 <= t3)%nat;
  call_now : now = clock t0;
  call_before r : rd_before o = Ok r -> r = stat t1 x;
  call_again r : rd_again o = Ok r -> r = stat t2 x;
  call_bytes b : rd_bytes o = Ok b -> b = body x (version t2 x);
  call_after r : rd_after o = Ok r -> r = stat t3 x
}.

(** What an entry stands for. *)
Definition vouched (t : nat) (e : CacheEntry) : Prop :=
  exists t0 t1 x, (t0 <= t1 <= t)%nat /\ stat t1 x = Some (ce_identity e) /\
    settled (ce_identity e) (clock t0) = true /\ parse_at t1 x = Some (ce_metadata e).
Definition coherent (t : nat) (c : RegistryListCache) : Prop :=
  forall path e, c !! path = Some e -> vouched t e.

Lemma coherent_later t t' c : (t <= t')%nat -> coherent t c -> coherent t' c.
Proof.
  intros Ht Hc path e He. destruct (Hc _ _ He) as (t0 & t1 & x & H & ?). exists t0, t1, x. split; [lia|done].
Qed.
Lemma coherent_delete t path c : coherent t c -> coherent t (delete path c).
Proof. intros Hc p e He. apply lookup_delete_Some in He as [_ He]. apply (Hc _ _ He). Qed.
Lemma coherent_retain t root names c : coherent t c -> coherent t (retain root names c).
Proof. intros Hc p e He. apply map_lookup_filter_Some in He as [He _]. apply (Hc _ _ He). Qed.

(** The states and moments of a cache in use, one call or sweep at a time. *)
Inductive used : nat -> RegistryListCache -> Prop :=
  | UsedNew : used 0 ∅
  | UsedRead t c t0 t1 t2 t3 x now o path : used t c -> (t <= t0)%nat -> call t0 t1 t2 t3 x now o ->
      used t3 (snd (cache_metadata json path now (Ok o) c))
  | UsedUnopened t c path now e : used t c -> used t (snd (cache_metadata json path now (Err e) c))
  | UsedRetain t c root names : used t c -> used t (retain root names c).

Hypothesis Hs : stamping.

(** A settled stamp pins the contents it was seen with. *)
Lemma settled_pins t0 t t' x y s :
  (t0 <= t <= t')%nat -> settled s (clock t0) = true -> stat t x = Some s -> stat t' y = Some s ->
  x = y /\ version t x = version t' y.
Proof.
  intros Ht Hset Hx Hy. destruct (stamped Hs t t' x y s ltac:(lia) Hx Hy) as [|(k & Hk & Hc)]; [done|].
  unfold settled in Hset. apply andb_prop in Hset as [_ Hset]. apply Z.ltb_lt in Hset.
  pose proof (clock_mono Hs t0 k ltac:(lia)). lia.
Qed.

Lemma hit_fresh t c path before m t' x :
  coherent t c -> (t <= t')%nat -> before = stat t' x -> cached c path before = Some m -> parse_at t' x = Some m.
Proof.
  intros Hc Ht Hb. unfold cached. destruct (c !! path) as [e|] eqn:Ee; [|discriminate]. cbn.
  destruct (bool_decide _) eqn:Ed; [|discriminate]. intros [= <-]. apply bool_decide_eq_true in Ed.
  destruct (Hc _ _ Ee) as (t0 & t1 & x0 & Hle & Hst & Hset & Hp).
  destruct (settled_pins t0 t1 t' x0 x (ce_identity e)) as [-> Hv]; try done; [lia|congruence|].
  unfold parse_at in *. rewrite <- Hv. done.
Qed.

(** What one call returns and leaves behind. *)
Definition answered (t1 t3 : nat) (x : File) (o : Opened) (r : Result SessionMetadata InventoryErrorKind) : Prop :=
  match r with
  | Ok m => (exists t, (t1 <= t <= t3)%nat /\ parse_at t x = Some m) \/
            (exists b, rd_before o = Ok None /\ rd_bytes_by_path o = Ok b /\ parse_with_payloads json b false = Some m)
  | Err MetadataMalformed =>
      (exists t, (t1 <= t <= t3)%nat /\ parse_at t x = None) \/
      (exists b, rd_before o = Ok None /\ rd_bytes_by_path o = Ok b /\ parse_with_payloads json b false = None)
  | Err k => k = MetadataUnreadable /\
      ((exists e, rd_before o = Err e) \/ (exists e, rd_again o = Err e) \/ (exists e, rd_bytes o = Err e) \/
       (exists e, rd_bytes_by_path o = Err e) \/ (exists e, rd_after o = Err e))
  end.

Lemma cache_miss_call t c t0 t1 t2 t3 x now o path before :
  coherent t c -> (t <= t0)%nat -> call t0 t1 t2 t3 x now o -> rd_before o = Ok before ->
  let r := cache_finish json path (cache_miss before now o) c in
  answered t1 t3 x o (fst r) /\ coherent t3 (snd r).
Proof.
  intros Hc Ht [[Ho Ho'] Hn Hb Ha Hby Haf] Eb. specialize (Hb _ Eb).
  assert (Hcd : coherent t3 (delete path c)) by (apply coherent_delete, (coherent_later t); [lia|done]).
  unfold cache_miss. destruct (bool_decide (before = None)) eqn:Ebn.
  - apply bool_decide_eq_true in Ebn. clear Hb. subst before.
    destruct (rd_bytes_by_path o) as [b|e] eqn:Er; cbn [rbind]; [|split; [split; eauto 8|exact Hcd]].
    destruct (rd_after o) as [after|e] eqn:Eaf; cbn [rbind]; [|split; [split; eauto 10|exact Hcd]].
    cbn [cache_finish]. destruct (parse_with_payloads json b false) eqn:Ep; (split; [right; eauto|exact Hcd]).
  - destruct (rd_bytes o) as [b|e] eqn:Er; cbn [rbind]; [|split; [split; eauto 8|exact Hcd]].
    specialize (Hby _ eq_refl).
    destruct (rd_after o) as [after|e] eqn:Eaf; cbn [rbind]; [|split; [split; eauto 10|exact Hcd]].
    specialize (Haf _ eq_refl). cbn [cache_finish].
    assert (Hp : parse_at t2 x = parse_with_payloads json b false) by (unfold parse_at; congruence).
    destruct (parse_with_payloads json b false) as [m|] eqn:Ep;
      (split; [left; exists t2; split; [lia|exact Hp]|]); [|exact Hcd].
    cbn [snd]. destruct before as [s|]; [|done].
    destruct (bool_decide (after = Some s) && settled s now) eqn:Es; [|exact Hcd].
    apply andb_prop in Es as [Es1 Es2]. apply bool_decide_eq_true in Es1.
    intros p e He. rewrite lookup_insert_Some in He. destruct He as [[_ <-]|[_ He]]; [|apply (Hcd _ _ He)].
    exists t0, t1, x. cbn [ce_identity ce_metadata]. rewrite Hn in Es2.
    split; [lia|]. split; [done|]. split; [done|].
    destruct (settled_pins t0 t1 t3 x x s) as [_ Hv]; [lia|done|done|congruence|].
    pose proof (version_mono Hs t1 t2 x ltac:(lia)). pose proof (version_mono Hs t2 t3 x ltac:(lia)).
    assert (Hv2 : version t1 x = version t2 x) by lia. unfold parse_at in *. rewrite Hv2. done.
Qed.

Lemma cache_call t c t0 t1 t2 t3 x now o path :
  coherent t c -> (t <= t0)%nat -> call t0 t1 t2 t3 x now o ->
  answered t1 t3 x o (fst (cache_metadata json path now (Ok o) c)) /\
  coherent t3 (snd (cache_metadata json path now (Ok o) c)).
Proof.
  intros Hc Ht Hcall. pose proof (cache_miss_call t c t0 t1 t2 t3 x now o path) as Hmiss.
  pose proof Hcall as [[Ho Ho'] Hn Hb _ _ _].
  assert (Hct : coherent t3 c) by (apply (coherent_later t); [lia|done]).
  unfold cache_metadata, cache_read. cbn [rbind].
  destruct (rd_before o) as [before|e] eqn:Eb; cbn [rbind].
  2: { split; [split; eauto|]. apply coherent_delete. done. }
  specialize (Hb _ eq_refl). specialize (Hmiss before Hc Ht Hcall eq_refl).
  destruct (cached c path before) as [m|] eqn:Ec; [|exact Hmiss].
  destruct (rd_again o) as [again|e] eqn:Ea; cbn [rbind].
  2: { split; [split; eauto 6|]. apply coherent_delete. done. }
  destruct (bool_decide (again = before)); [|exact Hmiss]. split; [|done].
  left. exists t1. split; [lia|]. eapply hit_fresh; [exact Hc| |exact Hb|exact Ec]. lia.
Qed.

Lemma used_coherent t c : used t c -> coherent t c.
Proof.
  induction 1 as [|t c t0 t1 t2 t3 x now o path Hu IH Ht Hcall|t c path now e Hu IH|t c root names Hu IH].
  - intros p e He. rewrite lookup_empty in He. discriminate.
  - apply (cache_call t c t0 t1 t2 t3 x now o path IH Ht Hcall).
  - cbn. apply coherent_delete, IH.
  - apply coherent_retain, IH.
Qed.

(** C20: The cache never serves a stale record.  Whatever calls and sweeps came before, and
    however files were changed, replaced or had their inodes reused in between, what
    a call answers is what parsing the file it opened gives at some moment between
    its open and its last look (or, for a file that is not regular, what parsing the
    bytes it read gives).  It answers malformed only when such a parse fails, and
    unreadable only when a read failed. *)
Theorem cache_never_stale t c t0 t1 t2 t3 x now o path :
  used t c -> (t <= t0)%nat -> call t0 t1 t2 t3 x now o ->
  answered t1 t3 x o (fst (cache_metadata json path now (Ok o) c)).
Proof. intros Hu Ht Hc. apply (cache_call t c t0 t1 t2 t3 x now o path (used_coherent t c Hu) Ht Hc). Qed.
End Coherence.

(** ** A record replaced by a rename that reuses its inode, at its own length *)

Definition demo_json (b : bytes) : option (list (bytes * Value)) := Some [(str "command", VStr b)].
Definition demo_clock (t : nat) : Z := Z.of_nat t * 1000000000.
Definition demo_stamp (at_ : Z) : Stamp := mkStamp 1 77 3 (at_, 5) (at_, 5).
Definition demo_stat (t : nat) (new : bool) : option Stamp :=
  if new then (if (10 <=? t)%nat then Some (demo_stamp 10) else None)
  else (if (10 <=? t)%nat then None else Some (demo_stamp 0)).
Definition demo_body (new : bool) (v : Z) : bytes := if new then str "new" else str "old".
Definition demo_opened (t1 t2 t3 : nat) (new : bool) : Opened :=
  mkOpened (Ok (demo_stat t1 new)) (Ok (demo_stat t2 new)) (Ok (demo_body new 0)) (Ok [])
    (Ok (demo_stat t3 new)).
Definition demo_cache : RegistryListCache :=
  snd (cache_metadata demo_json (str "/r/a.json") (demo_clock 5) (Ok (demo_opened 6 7 8 false)) ∅).

Lemma demo_stamping : stamping demo_clock demo_stat (fun _ _ => 0).
Proof.
  split; [unfold demo_clock; lia|lia|]. intros t t' x y s _ Hx Hy. left.
  assert (demo_stamp 0 <> demo_stamp 10) by (vm_compute; congruence).
  unfold demo_stat in *. destruct x, y, (10 <=? t)%nat, (10 <=? t')%nat; try discriminate; split; congruence.
Qed.

Example demo_retained : ce_identity <$> demo_cache !! str "/r/a.json" = Some (demo_stamp 0).
Proof. vm_compute. reflexivity. Qed.

Lemma cache_never_stale_witness :
  answered demo_json (fun _ _ => 0) demo_body 12 14 true (demo_opened 12 13 14 true)
    (fst (cache_metadata demo_json (str "/r/a.json") (demo_clock 11) (Ok (demo_opened 12 13 14 true)) demo_cache)).
Proof.
  apply (cache_never_stale demo_json demo_clock demo_stat (fun _ _ => 0) demo_body demo_stamping
           8 demo_cache 11 12 13 14); [|lia|].
  - apply (UsedRead _ _ _ _ _ 0 ∅ 5 6 7 8 false); [apply UsedNew|lia|].
    constructor; [lia|reflexivity|..]; cbn; congruence.
  - constructor; [lia|reflexivity|..]; cbn; congruence.
Defined.
