(* ===== verification/Ptyfile.v ===== *)
(** The manifest [pty.toml]: [crates/pty-core/src/ptyfile.rs].  Paths as [std::path] takes
    them apart, the sessions a manifest declares, and the shell text that starts one. *)
From S2P Require Import Prelude Json Metadata Time Names Text MetadataCache.

(** ** Paths *)

Inductive Component : Type := RootDir | CurDir | ParentDir | Normal (name : bytes).
#[export] Instance Component_eq_dec : EqDecision Component.
Proof. solve_decision. Defined.

Definition is_absolute (p : bytes) : bool := starts_with [47] p.
(** [Path::components]: a [.] counts only at the start of a relative path. *)
Definition component_of (part : bytes) : Component :=
  if beq part [46] then CurDir else if beq part [46; 46] then ParentDir else Normal part.
Definition not_cur (c : Component) : bool := negb (bool_decide (c = CurDir)).
Definition components (p : bytes) : list Component :=
  let parts := component_of <$> List.filter is_nonempty (split_on (Z.eqb 47) p) in
  if is_absolute p then RootDir :: List.filter not_cur parts
  else match parts with
       | CurDir :: rest => CurDir :: List.filter not_cur rest
       | _ => List.filter not_cur parts
       end.
Definition component_text (c : Component) : bytes :=
  match c with RootDir => [47] | CurDir => [46] | ParentDir => [46; 46] | Normal name => name end.
(** [PathBuf::push]. *)
Definition push (p : bytes) (c : Component) : bytes :=
  match c with RootDir => [47] | _ => path_join p (component_text c) end.
Definition collect (cs : list Component) : bytes := foldl push [] cs.
(** [Path::parent]. *)
Definition path_parent (p : bytes) : option bytes :=
  match List.rev (components p) with
  | [] | RootDir :: _ => None
  | _ :: rest => Some (collect (List.rev rest))
  end.
Definition join (base p : bytes) : bytes := if is_absolute p then p else path_join base p.

(** The components kept so far, the last one first. *)
Definition normalize_step (out : list Component) (c : Component) : list Component :=
  match c with
  | ParentDir => match out with Normal _ :: rest => rest | _ => c :: out end
  | CurDir => out
  | _ => c :: out
  end.
Definition normalize (p : bytes) : bytes := collect (List.rev (foldl normalize_step [] (components p))).
Definition resolve_against (base p : bytes) : bytes := normalize (join base p).

(** ** The manifest *)

(** A TOML value; a float, a date and an array by their texts. *)
Inductive Toml : Type :=
  | TStr (s : bytes)
  | TInt (n : Z)
  | TFloat (text : bytes)
  | TBool (b : bool)
  | TTable (m : IndexMap Toml)
  | TOther (text : bytes).
Definition t_str (v : Toml) : option bytes := match v with TStr s => Some s | _ => None end.
Definition t_table (v : Toml) : option (IndexMap Toml) := match v with TTable m => Some m | _ => None end.
Definition filled_str (v : Toml) : option bytes :=
  let? s := t_str v in if is_nonempty s then Some s else None.

Record PtySessionDef : Type := mkDef {
  display_name : bytes;
  short_name : bytes;
  def_id : option bytes;
  command : bytes;
  def_cwd : option bytes;
  def_tags : option (IndexMap bytes);
  def_env : option (IndexMap bytes)
}.
Record PtyFile : Type := mkFile {
  dir : bytes;
  prefix : option bytes;
  sessions : list PtySessionDef
}.

Section Manifest.
(** [table_text]: a table written as a value. *)
Context (table_text : IndexMap Toml -> bytes).

Definition value_to_string (v : Toml) : bytes :=
  match v with
  | TStr s => s
  | TInt n => dec n
  | TFloat text => text
  | TBool b => if b then str "true" else str "false"
  | TTable m => table_text m
  | TOther text => text
  end.

Definition quoted (s : bytes) : bytes := 34 :: s ++ [34].
Definition session_error (display path what : bytes) : bytes :=
  str "Session " ++ quoted display ++ str " in " ++ path ++ str ": " ++ what.
(** An optional string that must not be empty. *)
Definition optional_text (display path key : bytes) (d : IndexMap Toml) : Result (option bytes) bytes :=
  match mget key d with
  | None => Ok None
  | Some v => match filled_str v with
              | Some s => Ok (Some s)
              | None => Err (session_error display path (quoted key ++ str " must be a non-empty string"))
              end
  end.
Fixpoint env_strings (display path : bytes) (t : IndexMap Toml) (m : IndexMap bytes)
  : Result (IndexMap bytes) bytes :=
  match t with
  | [] => Ok m
  | (k, v) :: rest =>
      match t_str v with
      | Some s => env_strings display path rest (minsert k s m)
      | None => Err (session_error display path (str "env." ++ k ++ str " must be a string"))
      end
  end.
Definition read_tags (d : IndexMap Toml) : option (IndexMap bytes) :=
  let? t := mget (str "tags") d ≫= t_table in
  Some (foldl (fun m kv => minsert (fst kv) (value_to_string (snd kv)) m) [] t).
Definition read_env (display path : bytes) (d : IndexMap Toml) : Result (option (IndexMap bytes)) bytes :=
  match mget (str "env") d with
  | None => Ok None
  | Some v => match t_table v with
              | None => Err (session_error display path (quoted (str "env") ++ str " must be a table of string values"))
              | Some t => try m := env_strings display path t [] in Ok (Some m)
              end
  end.

(** One entry of [sessions]: the first thing wrong with it, or its definition. *)
Definition read_session (resolved_dir path : bytes) (prefix : option bytes) (raw_name : bytes) (def : Toml)
  : Result PtySessionDef bytes :=
  let default_display := match prefix with Some p => p ++ 45 :: raw_name | None => raw_name end in
  match t_table def with
  | None => Err (str "Invalid session " ++ quoted default_display ++ str " in " ++ path ++ str ": expected a table")
  | Some d =>
      match mget (str "command") d ≫= filled_str with
      | None => Err (str "Session " ++ quoted default_display ++ str " in " ++ path ++ str " is missing a "
                     ++ quoted (str "command") ++ str " field")
      | Some command =>
          try shown := optional_text default_display path (str "display_name") d in
          try id := optional_text default_display path (str "id") d in
          let tags := read_tags d in
          try env := read_env default_display path d in
          try cwd := optional_text default_display path (str "cwd") d in
          Ok (mkDef (default default_display shown) raw_name id command
                (resolve_against resolved_dir <$> cwd) tags env)
      end
  end.
Fixpoint read_sessions (resolved_dir path : bytes) (prefix : option bytes) (tbl : IndexMap Toml)
  : Result (list PtySessionDef) bytes :=
  match tbl with
  | [] => Ok []
  | (raw_name, def) :: rest =>
      try s := read_session resolved_dir path prefix raw_name def in
      try more := read_sessions resolved_dir path prefix rest in
      Ok (s :: more)
  end.

(** [current_dir] and [read_to_string], whose [None] is a missing file; [parse]: the TOML parser. *)
Definition read_pty_file (current_dir : Result bytes bytes) (read_text : bytes -> Result bytes (option bytes))
  (parse : bytes -> Result (IndexMap Toml) bytes) (at_dir : option bytes) : Result PtyFile bytes :=
  try resolved_dir := (match at_dir with
                       | Some d => if is_absolute d then Ok (normalize d)
                                   else try cwd := current_dir in Ok (normalize (join cwd d))
                       | None => current_dir
                       end) in
  let file_path := join resolved_dir (str "pty.toml") in
  match read_text file_path with
  | Err None => Err (str "No pty.toml found in " ++ resolved_dir)
  | Err (Some cause) => Err cause
  | Ok content =>
      match parse content with
      | Err cause => Err (str "Invalid pty.toml in " ++ resolved_dir ++ str ": " ++ cause)
      | Ok parsed =>
          let prefix := mget (str "prefix") parsed ≫= filled_str in
          let tbl := default [] (mget (str "sessions") parsed ≫= t_table) in
          try found := read_sessions resolved_dir file_path prefix tbl in
          if negb (is_nonempty found) then Err (str "No sessions defined in " ++ file_path)
          else Ok (mkFile resolved_dir prefix found)
      end
  end.
End Manifest.

(** ** Starting a session by the shell *)

(** [v.replace('\'', "'\\''")]. *)
Fixpoint escape_quotes (v : bytes) : bytes :=
  match v with
  | [] => []
  | c :: rest => if c =? 39 then 39 :: 92 :: 39 :: 39 :: escape_quotes rest else c :: escape_quotes rest
  end.
Definition export_text (kv : bytes * bytes) : bytes :=
  str "export " ++ fst kv ++ 61 :: 39 :: escape_quotes (snd kv) ++ [39].
Fixpoint join_with (sep : bytes) (parts : list bytes) : bytes :=
  match parts with
  | [] => []
  | [p] => p
  | p :: rest => p ++ sep ++ join_with sep rest
  end.
Definition command_with_env_exports (sess : PtySessionDef) : bytes :=
  match def_env sess with
  | Some ((_ :: _) as e) => join_with (str "; ") (map export_text e) ++ str "; " ++ command sess
  | _ => command sess
  end.

(** ** What a POSIX shell reads back *)

(** Literal words only: quotes and backslashes, up to an unquoted blank or [;]. *)
Definition ends_word (c : Z) : bool := (c =? 32) || (c =? 59) || (c =? 10).
Definition expands (c : Z) : bool := memb c (str "$`&|<>()*?[#~" ++ [34]).
Fixpoint sh_word (quoted : bool) (s : bytes) : option (bytes * bytes) :=
  match s with
  | [] => if quoted then None else Some ([], [])
  | c :: rest =>
      let put c r := let? wr := r in Some (c :: fst wr, snd wr) in
      if quoted then if c =? 39 then sh_word false rest else put c (sh_word true rest)
      else if c =? 39 then sh_word true rest
      else if c =? 92 then match rest with d :: rest => put d (sh_word false rest) | [] => None end
      else if ends_word c then Some ([], s)
      else if expands c then None
      else put c (sh_word false rest)
  end.
(** A variable's name: letters, digits and underscores, no digit first. *)
Definition name_char (c : Z) : bool := is_ascii_alphanumeric c || (c =? 95).
Definition shell_name (k : bytes) : bool :=
  match k with c :: _ => negb (is_ascii_digit c) && forallb name_char k | [] => false end.
(** [n] assignments, each by [export] and each followed by a semicolon and a space.  An
    operand of [export] is a name, an unquoted equals sign, and a word. *)
Fixpoint sh_exports (n : nat) (s : bytes) : option (IndexMap bytes * bytes) :=
  match n with
  | O => Some ([], s)
  | S n =>
      let? s := strip_prefix (str "export ") s in
      let '(name, s) := span name_char s in
      if negb (shell_name name) then None
      else
        let? s := strip_prefix [61] s in
        let? wr := sh_word false s in
        let? s := strip_prefix (str "; ") (snd wr) in
        let? more := sh_exports n s in
        Some ((name, fst wr) :: fst more, snd more)
  end.

Lemma sh_word_escaped v rest :
  sh_word true (escape_quotes v ++ 39 :: 59 :: rest) = Some (v, 59 :: rest).
Proof.
  induction v as [|c v IH]; [done|]. cbn [escape_quotes]. destruct (c =? 39) eqn:Q.
  - apply Z.eqb_eq in Q. subst c. cbn [app sh_word Z.eqb]. cbn. rewrite IH. done.
  - cbn [app sh_word]. rewrite Q, IH. done.
Qed.
Lemma sh_exports_one n k v s : shell_name k = true ->
  sh_exports (S n) (export_text (k, v) ++ str "; " ++ s)
  = let? more := sh_exports n s in Some ((k, v) :: fst more, snd more).
Proof.
  intros Hk. unfold export_text. cbn [fst snd sh_exports]. rewrite <- !app_assoc.
  rewrite (proj2 (strip_prefix_Some (str "export ") _ _) eq_refl). cbn [mbind option_bind].
  rewrite <- app_comm_cons, span_all; [|by destruct k as [|c k]; [done|apply andb_prop in Hk as [_ Hk]]|by intros ? ? [= <- <-]].
  rewrite Hk. cbn [negb]. cbn [strip_prefix Z.eqb Pos.eqb mbind option_bind sh_word].
  rewrite <- app_comm_cons, <- app_assoc. change ([39] ++ str "; " ++ s) with (39 :: 59 :: 32 :: s). cbn.
  rewrite sh_word_escaped. done.
Qed.

(** C25: The shell text that starts a session hands the shell its environment byte for
    byte, when its keys are names a shell takes (nothing checks that they are): read by
    the shell's rules, it is one [export] for each variable with exactly the manifest's
    value, quotes included, and then the manifest's command. *)
Theorem exports_read_back sess e :
  def_env sess = Some e -> forallb shell_name (e.*1) = true ->
  sh_exports (length e) (command_with_env_exports sess) = Some (e, command sess).
Proof.
  intros He Hk. unfold command_with_env_exports. rewrite He. clear He. destruct e as [|kv e]; [done|].
  revert kv Hk. induction e as [|kv' e IH]; intros [k v] Hk; cbn [fmap list_fmap forallb fst] in Hk; apply andb_prop in Hk as [Hk He].
  - cbn [map join_with length]. rewrite sh_exports_one by done. done.
  - change (join_with (str "; ") (map export_text ((k, v) :: kv' :: e)))
      with (export_text (k, v) ++ str "; " ++ join_with (str "; ") (map export_text (kv' :: e))).
    rewrite <- !app_assoc. cbn [length]. rewrite sh_exports_one by done.
    change (S (length e)) with (length (kv' :: e)). by rewrite IH.
Qed.

(** ** Normal paths *)

Definition is_name (c : Component) : bool :=
  match c with
  | Normal n => is_nonempty n && negb (memb 47 n) && negb (beq n [46]) && negb (beq n [46; 46])
  | ParentDir => true
  | _ => false
  end.
Definition canonical_cs (cs : list Component) : bool :=
  match cs with RootDir :: rest => forallb is_name rest | _ => forallb is_name cs end.

Lemma split_on_name n : memb 47 n = false -> split_on (Z.eqb 47) n = [n].
Proof.
  induction n as [|c n IH]; [done|]. unfold memb in *. cbn [existsb]. intros H. bprop.
  cbn [split_on]. rewrite (Z.eqb_sym 47 c). destruct (c =? 47) eqn:E; [apply Z.eqb_eq in E; congruence|].
  rewrite IH by done. done.
Qed.
Lemma split_on_cons (a : bytes) : split_on (Z.eqb 47) a <> [].
Proof. destruct a as [|c a]; [done|]. cbn [split_on]. destruct (47 =? c), (split_on (Z.eqb 47) a); done. Qed.
Lemma split_on_app_sep (a b : bytes) : split_on (Z.eqb 47) (a ++ 47 :: b) = split_on (Z.eqb 47) a ++ split_on (Z.eqb 47) b.
Proof.
  induction a as [|c a IH]; [done|]. cbn [app split_on]. destruct (47 =? c); [rewrite IH; done|].
  rewrite IH. destruct (split_on (Z.eqb 47) a) as [|h t] eqn:E; [destruct (split_on_cons a E)|done].
Qed.
Lemma component_of_text c : is_name c = true -> component_of (component_text c) = c.
Proof.
  destruct c as [| | |n]; try done. cbn [is_name component_text]. intros H. bprop. unfold component_of.
  repeat match goal with E : beq _ _ = false |- _ => rewrite E; clear E end. done.
Qed.
Lemma text_of_name c : is_name c = true ->
  is_nonempty (component_text c) = true /\ memb 47 (component_text c) = false /\ is_absolute (component_text c) = false.
Proof.
  destruct c as [| | |n]; try done. cbn [is_name component_text]. intros H. bprop. split; [done|]. split; [done|].
  destruct n as [|x n]; [done|]. unfold memb in *. cbn [existsb] in *. bprop.
  unfold is_absolute, starts_with, strip_prefix. destruct (Z.eqb_spec 47 x); [congruence|done].
Qed.

(** What a path is made of, apart from its root. *)
Definition parts (p : bytes) : list Component := component_of <$> List.filter is_nonempty (split_on (Z.eqb 47) p).

Lemma parts_sep a b : parts (a ++ 47 :: b) = parts a ++ parts b.
Proof. unfold parts. rewrite split_on_app_sep, List.filter_app, fmap_app. done. Qed.
Lemma parts_text c : is_name c = true -> parts (component_text c) = [c].
Proof.
  intros H. destruct (text_of_name c H) as (N & S & _). unfold parts. rewrite split_on_name by done. cbn. rewrite N.
  cbn. rewrite component_of_text; done.
Qed.
Lemma is_absolute_cons x p : is_absolute (x :: p) = (47 =? x).
Proof. unfold is_absolute, starts_with, strip_prefix. destruct (47 =? x); done. Qed.
Lemma parts_join p c : is_name c = true ->
  parts (path_join p (component_text c)) = parts p ++ [c] /\ is_absolute (path_join p (component_text c)) = is_absolute p.
Proof.
  intros H. destruct (text_of_name c H) as (_ & _ & A). rewrite <- (parts_text c H).
  destruct p as [|x p]; [split; [done|exact A]|]. unfold path_join. destruct (bool_decide _) eqn:L.
  - apply bool_decide_eq_true_1, last_Some in L as [q Eq]. rewrite Eq, <- app_assoc. split.
    + cbn [app]. rewrite !parts_sep. change (parts []) with (@nil Component). rewrite app_nil_r. done.
    + destruct q as [|y q]; [done|]. rewrite <- !app_comm_cons, !is_absolute_cons. done.
  - rewrite parts_sep. split; [done|]. rewrite <- app_comm_cons, !is_absolute_cons. done.
Qed.
Lemma parts_pushed cs p : forallb is_name cs = true ->
  parts (foldl push p cs) = parts p ++ cs /\ is_absolute (foldl push p cs) = is_absolute p.
Proof.
  revert p. induction cs as [|c cs IH]; intros p H; [rewrite app_nil_r; done|]. cbn [forallb] in H. bprop.
  assert (E : push p c = path_join p (component_text c)) by (destruct c; done).
  cbn [foldl]. rewrite E. destruct (IH (path_join p (component_text c))) as [-> ->]; [done|].
  destruct (parts_join p c) as [-> ->]; [done|]. rewrite <- app_assoc. done.
Qed.
Lemma names_not_cur cs : forallb is_name cs = true -> List.filter not_cur cs = cs.
Proof.
  induction cs as [|c cs IH]; [done|]. cbn [forallb]. intros H. bprop. cbn.
  replace (not_cur c) with true by (destruct c; done). rewrite IH; done.
Qed.
Lemma components_names p cs : parts p = cs -> forallb is_name cs = true ->
  components p = (if is_absolute p then [RootDir] else []) ++ cs.
Proof.
  intros E H. unfold components. fold (parts p). rewrite E, names_not_cur by done. destruct (is_absolute p); [done|].
  destruct cs as [|[| | |] cs]; done.
Qed.

(** Taking apart what canonical components were put together as. *)
Lemma components_collect cs : canonical_cs cs = true -> components (collect cs) = cs.
Proof.
  assert (Rel : forall cs, forallb is_name cs = true -> components (collect cs) = cs).
  { intros cs' H. destruct (parts_pushed cs' [] H) as [P A]. unfold collect. rewrite (components_names _ cs') by done.
    rewrite A. done. }
  destruct cs as [|[| | |] cs]; intros H; try (apply Rel; exact H). cbn [canonical_cs] in H.
  destruct (parts_pushed cs [47] H) as [P A]. unfold collect. cbn [foldl push].
  rewrite (components_names _ cs) by done. rewrite A. done.
Qed.

(** *** The components of any path *)

Lemma split_on_no_sep p part : part ∈ split_on (Z.eqb 47) p -> memb 47 part = false.
Proof.
  revert part. induction p as [|c p IH]; intros part; cbn [split_on].
  { rewrite list_elem_of_singleton. intros ->. done. }
  destruct (47 =? c) eqn:E.
  - rewrite elem_of_cons. intros [-> |H]; [done|apply IH, H].
  - assert (M : forall s, memb 47 s = false -> memb 47 (c :: s) = false)
      by (intros s Hs; unfold memb in *; cbn [existsb]; rewrite E, Hs; done).
    destruct (split_on (Z.eqb 47) p) as [|h t].
    + rewrite list_elem_of_singleton. intros ->. apply M. done.
    + rewrite elem_of_cons. intros [-> |H]; [apply M, IH; left|apply IH; right; exact H].
Qed.
Lemma parts_names p : forallb (fun c => is_name c || negb (not_cur c)) (parts p) = true.
Proof.
  apply forallb_elem. intros c (part & -> & H)%list_elem_of_fmap. apply elem_of_filterb in H as [N H].
  apply split_on_no_sep in H. unfold component_of.
  destruct (beq part [46]) eqn:B1; [done|]. destruct (beq part [46; 46]) eqn:B2; [done|].
  cbn [is_name]. rewrite N, H, B1, B2. done.
Qed.
Lemma filtered_names cs : forallb (fun c => is_name c || negb (not_cur c)) cs = true ->
  forallb is_name (List.filter not_cur cs) = true.
Proof.
  induction cs as [|c cs IH]; [done|]. cbn [forallb List.filter]. intros H. bprop.
  destruct (not_cur c) eqn:N; [cbn [forallb]; rewrite IH by done; bprop|apply IH; done].
  cbn in H. destruct H as [H|H]; [rewrite H; done|discriminate].
Qed.
(** The root, a leading [.], and names. *)
Definition lead (p : bytes) : list Component := if is_absolute p then [RootDir] else [].
Lemma components_shape p : exists names, forallb is_name names = true /\
  (components p = lead p ++ names \/ components p = CurDir :: names /\ is_absolute p = false).
Proof.
  unfold components, lead. fold (parts p). pose proof (parts_names p) as H.
  destruct (is_absolute p) eqn:A.
  { exists (List.filter not_cur (parts p)). split; [apply filtered_names, H|left; done]. }
  destruct (parts p) as [|c rest]; [exists []; split; [done|left; done]|].
  cbn [forallb] in H. apply andb_prop in H as [Hc H].
  assert (F : forallb is_name (List.filter not_cur rest) = true) by (apply filtered_names, H).
  destruct c as [| | |n]; [discriminate| | |].
  - exists (List.filter not_cur rest). split; [done|right; done].
  - exists (ParentDir :: List.filter not_cur rest). split; [exact F|left; done].
  - exists (Normal n :: List.filter not_cur rest). split; [|left; done].
    cbn [forallb]. rewrite F. cbn in Hc. rewrite orb_false_r in Hc. cbn [is_name]. rewrite Hc. done.
Qed.

(** *** What [normalize] keeps *)

Definition is_normal (c : Component) : bool := match c with Normal _ => is_name c | _ => false end.
Definition parents (k : nat) : list Component := repeat ParentDir k.

Lemma normalize_steps names base a k :
  forallb is_name names = true -> (base = [] \/ base = [RootDir]) -> forallb is_normal a = true ->
  exists a' k', forallb is_normal a' = true /\
    foldl normalize_step (a ++ parents k ++ base) names = a' ++ parents k' ++ base.
Proof.
  intros H Hb. revert a k. induction names as [|c names IH]; intros a k Ha; [exists a, k; done|].
  cbn [forallb] in H. bprop. cbn [foldl]. destruct c as [| | |n]; try done.
  - destruct a as [|[| | |x] a]; cbn [app]; try done.
    + cbn [normalize_step]. replace (match parents k ++ base with Normal _ :: rest => rest | _ => ParentDir :: parents k ++ base end)
        with ([] ++ parents (S k) ++ base); [apply IH; done|].
      destruct k; [destruct Hb; subst; done|done].
    + cbn [normalize_step]. apply IH; [done|]. cbn [forallb] in Ha. bprop. done.
  - cbn [normalize_step]. change (Normal n :: a ++ parents k ++ base) with ((Normal n :: a) ++ parents k ++ base).
    apply IH; [done|]. cbn [forallb]. rewrite Ha. cbn [is_normal]. rewrite andb_true_r. done.
Qed.
Lemma normalize_settled k names base : (base = [] \/ base = [RootDir]) -> forallb is_normal names = true ->
  foldl normalize_step base (parents k ++ names) = List.rev names ++ parents k ++ base.
Proof.
  intros Hb H. rewrite foldl_app.
  assert (P : forall j, foldl normalize_step (parents j ++ base) (parents k) = parents (j + k) ++ base).
  { induction k as [|k IH]; intros j; [rewrite Nat.add_0_r; done|]. cbn [parents repeat foldl].
    replace (normalize_step (parents j ++ base) ParentDir) with (parents (S j) ++ base).
    - fold (parents k). rewrite IH. f_equal. f_equal. lia.
    - destruct j; [destruct Hb; subst; done|done]. }
  change base with (parents 0 ++ base) at 1. rewrite (P 0%nat). cbn [Nat.add]. clear P. generalize (parents k ++ base). induction names as [|c names IH]; intros l; [done|].
  cbn [forallb] in H. bprop. cbn [foldl]. replace (normalize_step l c) with (c :: l) by (destruct c; done).
  rewrite IH by done. cbn [List.rev]. rewrite <- app_assoc. done.
Qed.

Lemma normal_names a : forallb is_normal a = true -> forallb is_name a = true.
Proof.
  induction a as [|c a IH]; [done|]. cbn [forallb]. intros (Hc & H)%andb_prop. rewrite IH by done.
  destruct c; try done. cbn [is_normal] in Hc. rewrite Hc. done.
Qed.
Lemma rev_parents k : List.rev (parents k) = parents k.
Proof.
  unfold parents. induction k as [|k IH]; [done|]. cbn [repeat List.rev]. rewrite IH.
  symmetry. apply (repeat_cons k ParentDir).
Qed.
Lemma forallb_rev {A} (p : A -> bool) l : forallb p (List.rev l) = forallb p l.
Proof.
  apply eq_bool_prop_intro. rewrite !Is_true_true, !forallb_forall.
  split; intros H x Hx; apply H; [rewrite <- in_rev|rewrite in_rev]; done.
Qed.
Lemma parents_names k : forallb is_name (parents k) = true.
Proof. induction k; done. Qed.

Lemma canonical_shape p k names : forallb is_normal names = true -> canonical_cs (lead p ++ parents k ++ names) = true.
Proof.
  intros Hn. assert (N : forallb is_name (parents k ++ names) = true)
    by (rewrite forallb_app, parents_names; cbn; apply normal_names, Hn).
  unfold lead. destruct (is_absolute p); cbn [app canonical_cs]; [exact N|].
  destruct (parents k ++ names) as [|[| | |] l]; done.
Qed.
Lemma normalize_shape p : exists k names,
  forallb is_normal names = true /\ normalize p = collect (lead p ++ parents k ++ names).
Proof.
  destruct (components_shape p) as (ns & Hn & Hc).
  assert (E : exists a k, forallb is_normal a = true
    /\ foldl normalize_step [] (components p) = a ++ parents k ++ lead p).
  { destruct Hc as [ -> | [ -> A ] ].
    - rewrite foldl_app. unfold lead. destruct (is_absolute p); cbn [foldl normalize_step].
      + destruct (normalize_steps ns [RootDir] [] 0) as (a & k & Ha & E); auto. exists a, k. done.
      + destruct (normalize_steps ns [] [] 0) as (a & k & Ha & E); auto. exists a, k. done.
    - unfold lead. rewrite A. cbn [foldl normalize_step]. destruct (normalize_steps ns [] [] 0) as (a & k & Ha & E); auto.
      exists a, k. done. }
  destruct E as (a & k & Ha & E). exists k, (List.rev a). rewrite forallb_rev. split; [done|].
  unfold normalize. rewrite E, !rev_app_distr, rev_parents, <- app_assoc.
  unfold lead. destruct (is_absolute p); done.
Qed.

(** A manifest's paths are brought into normal form: no [.] or repeated slash, and
    [..] only before the names, where nothing is left to go up from; the form keeps the
    root, and normalizing again changes nothing. *)
Theorem normalize_normal p :
  (exists k names, forallb is_normal names = true /\ components (normalize p) = lead p ++ parents k ++ names)
  /\ normalize (normalize p) = normalize p.
Proof.
  destruct (normalize_shape p) as (k & names & Hn & E).
  assert (C : components (normalize p) = lead p ++ parents k ++ names)
    by (rewrite E; apply components_collect, canonical_shape, Hn).
  split; [exists k, names; done|]. rewrite E at 2. unfold normalize at 1. rewrite C. f_equal.
  rewrite foldl_app. unfold lead. destruct (is_absolute p); cbn [foldl normalize_step];
    rewrite normalize_settled, !rev_app_distr, rev_involutive, rev_parents, <- app_assoc by auto; done.
Qed.

(** ** What a manifest that reads has *)

Section Read.
Context (table_text : IndexMap Toml -> bytes).

Lemma filled_str_some v s : filled_str v = Some s -> s <> [].
Proof.
  unfold filled_str. destruct (t_str v) as [x|]; [|done]. cbn. destruct x; [discriminate|]. intros [= <-]. done.
Qed.
(** The session's command is there, and its directory is a normal path of the manifest's. *)
Record declared (at_dir : bytes) (s : PtySessionDef) : Prop := {
  has_command : command s <> [];
  cwd_resolved : forall c, def_cwd s = Some c -> exists text, text <> [] /\ c = resolve_against at_dir text;
  id_filled : def_id s <> Some []
}.
Lemma optional_text_some display path key d s :
  optional_text display path key d = Ok (Some s) -> s <> [].
Proof.
  unfold optional_text. destruct (mget key d) as [v|]; [|discriminate].
  destruct (filled_str v) eqn:F; [|discriminate]. intros [= <-]. eapply filled_str_some, F.
Qed.
Lemma read_session_ok at_dir path prefix raw def s :
  read_session table_text at_dir path prefix raw def = Ok s -> short_name s = raw /\ declared at_dir s.
Proof.
  unfold read_session. destruct (t_table def) as [d|]; [|discriminate].
  destruct (mget _ d ≫= filled_str) as [cmd|] eqn:C; [|discriminate].
  destruct (optional_text _ _ (str "display_name") d) as [shown|]; [|discriminate]. cbn [rbind].
  destruct (optional_text _ _ (str "id") d) as [id|] eqn:I; [|discriminate]. cbn [rbind].
  destruct (read_env _ _ d) as [env|]; [|discriminate]. cbn [rbind].
  destruct (optional_text _ _ (str "cwd") d) as [cwd|] eqn:W; [|discriminate]. cbn [rbind].
  intros [= <-]. split; [done|]. split; cbn [command def_cwd def_id].
  - destruct (mget _ d) as [v|]; [|discriminate]. apply filled_str_some in C. exact C.
  - intros c Hc. destruct cwd as [text|]; [|discriminate]. injection Hc as <-. exists text.
    split; [eapply optional_text_some, W|done].
  - intros ->. apply optional_text_some in I. done.
Qed.
Lemma read_sessions_ok at_dir path prefix tbl ss :
  read_sessions table_text at_dir path prefix tbl = Ok ss ->
  map short_name ss = map fst tbl /\ Forall (declared at_dir) ss.
Proof.
  revert ss. induction tbl as [|[raw def] tbl IH]; intros ss; cbn [read_sessions].
  { intros [= <-]. split; [done|constructor]. }
  destruct (read_session _ _ _ _ raw def) as [s|] eqn:S; [|discriminate]. cbn [rbind].
  destruct (read_sessions _ _ _ _ tbl) as [more|]; [|discriminate]. cbn [rbind]. intros [= <-].
  apply read_session_ok in S as [N D]. destruct (IH more eq_refl) as [Ns Ds].
  cbn [map fst]. rewrite N, Ns. split; [done|constructor; done].
Qed.

(** A manifest that reads declares at least one session, one for each entry of its
    table and in its order, and each has a command to run; one bad entry refuses the
    whole manifest. *)
Theorem read_pty_file_ok current_dir read_text parse at_dir f :
  read_pty_file table_text current_dir read_text parse at_dir = Ok f ->
  sessions f <> [] /\ Forall (declared (dir f)) (sessions f) /\
  exists content parsed, read_text (join (dir f) (str "pty.toml")) = Ok content /\ parse content = Ok parsed
    /\ map short_name (sessions f) = map fst (default [] (mget (str "sessions") parsed ≫= t_table)).
Proof.
  unfold read_pty_file. match goal with |- rbind ?r _ = _ -> _ => destruct r as [d|]; [|discriminate] end.
  cbn [rbind]. destruct (read_text _) as [content|[cause|]] eqn:R; try discriminate.
  destruct (parse content) as [parsed|] eqn:P; [|discriminate].
  destruct (read_sessions _ _ _ _ _) as [found|] eqn:F; [|discriminate]. cbn [rbind].
  destruct found as [|s found]; [discriminate|]. cbn [is_nonempty negb]. intros [= <-]. cbn [sessions dir].
  apply read_sessions_ok in F as [N D]. split; [done|]. split; [done|]. exists content, parsed. done.
Qed.
End Read.

(** ** Examples *)

Definition demo_manifest : IndexMap Toml :=
  [(str "prefix", TStr (str "app"));
   (str "sessions", TTable [(str "web", TTable [(str "command", TStr (str "node s.js")); (str "cwd", TStr (str "../x"));
                                                 (str "env", TTable [(str "Q", TStr (str "it's"))])])])].
Definition demo_read (m : IndexMap Toml) : Result PtyFile bytes :=
  read_pty_file (fun _ => []) (Ok (str "/w")) (fun _ => Ok []) (fun _ => Ok m) (Some (str "/w/./a/")).
Definition demo_session : PtySessionDef :=
  mkDef (str "app-web") (str "web") None (str "node s.js") (Some (str "/w/x")) None (Some [(str "Q", str "it's")]).

Example demo_manifest_read :
  demo_read demo_manifest = Ok (mkFile (str "/w/a") (Some (str "app")) [demo_session]).
Proof. vm_compute. reflexivity. Qed.
Example demo_exports : command_with_env_exports demo_session = str "export Q='it'\''s'; node s.js".
Proof. vm_compute. reflexivity. Qed.
(** Above the root there is still a [..]. *)
Example above_the_root : normalize (str "/../x") = str "/../x".
Proof. vm_compute. reflexivity. Qed.

Lemma exports_read_back_witness :
  sh_exports 1 (command_with_env_exports demo_session) = Some ([(str "Q", str "it's")], str "node s.js").
Proof. apply (exports_read_back demo_session [(str "Q", str "it's")]); reflexivity. Defined.
(** A key that is no name goes to the shell as it stands: here it ends the [export]. *)
Example key_not_checked :
  command_with_env_exports (mkDef (str "app-web") (str "web") None (str "node s.js") None None (Some [(str "X;id #", str "v")]))
  = str "export X;id #='v'; node s.js".
Proof. vm_compute. reflexivity. Qed.
Lemma read_pty_file_ok_witness : Forall (declared (str "/w/a")) [demo_session].
Proof.
  pose proof (read_pty_file_ok (fun _ => []) (Ok (str "/w")) (fun _ => Ok []) (fun _ => Ok demo_manifest)
    (Some (str "/w/./a/")) (mkFile (str "/w/a") (Some (str "app")) [demo_session])) as H.
  apply H. vm_compute. reflexivity.
Defined.
