(* ===== verification/Inventory.v ===== *)
(** Observing the registry: the directory scan of
    [crates/pty-core/src/registry/list.rs], its strict and tolerant forms, the rule
    for socket names of [registry/root.rs], and the resolution of session
    references.

    The directory, the files behind it and the process table are a value ([Registry],
    [Host]): each path answers the same throughout one scan, but the listing and the
    reads need not agree.  The texts of errors are left out. *)
From S2P Require Import Prelude Json Metadata Time Names Text Order ProcTable Argv Identity MetadataCache.

(** [parseInt(s, 10)] of [registry/lock.rs]. *)
Definition parse_leading_int (s : bytes) : option Z :=
  let s := trim_start is_trim_space s in
  let '(neg, digits) :=
    match strip_prefix [45] s with
    | Some rest => (true, rest)
    | None => (false, match strip_prefix [43] s with Some rest => rest | None => s end)
    end in
  match fst (span is_ascii_digit digits) with
  | [] => None
  | ds =>
      let? value := parse_unsigned I64_MAX ds in
      let value := if (neg : bool) then - value else value in
      if in_range I32_MIN I32_MAX value then Some value else None
  end.

(** [registry/atomic.rs]: [file_name.contains(".tmp.")]. *)
Fixpoint contains_str (needle s : bytes) : bool :=
  starts_with needle s || match s with [] => false | _ :: s' => contains_str needle s' end.
Definition is_tmp_name (file_name : bytes) : bool := contains_str (str ".tmp.") file_name.

Inductive SessionStatus : Type := Running | Exited | Vanished.
#[export] Instance SessionStatus_eq_dec : EqDecision SessionStatus.
Proof. solve_decision. Defined.
Definition SessionStatus_as_str (s : SessionStatus) : bytes :=
  match s with Running => str "running" | Exited => str "exited" | Vanished => str "vanished" end.
Definition is_gone (s : SessionStatus) : bool := negb (bool_decide (s = Running)).

Record SessionInfo : Type := mkInfo {
  name : bytes;
  socket_path : bytes;
  info_pid : option Z;
  info_status : SessionStatus;
  info_identity : DaemonIdentityCheck;
  info_metadata : option SessionMetadata
}.
Definition info_display_name (s : SessionInfo) : option bytes :=
  let? m := info_metadata s in display_name m.

Record InventoryError : Type := mkError { err_kind : InventoryErrorKind; err_path : bytes }.
Record Inventory : Type := mkInventory {
  inv_root : bytes;
  inv_complete : bool;
  entries : list SessionInfo;
  errors : list InventoryError
}.

(** ** The directory *)

Inductive DirEntry : Type := EntryName (file : bytes) | EntryNotUtf8 (path : bytes) | EntryFailed.

(** [reg_open]: whether the file is regular, and its bytes.  [reg_lstat]: whether it is
    a socket.  [reg_link], [reg_canonical]: [read_link] and [canonicalize] of the root. *)
Record Registry : Type := mkRegistry {
  reg_dir : Result (list DirEntry) IoError;
  reg_open : bytes -> Result (bool * Result bytes IoError) IoError;
  reg_lstat : bytes -> Result bool IoError;
  reg_link : option bytes;
  reg_canonical : option bytes
}.

Definition is_ok {A E} (r : Result A E) : bool := match r with Ok _ => true | Err _ => false end.
Definition is_some {A} (o : option A) : bool := match o with Some _ => true | None => false end.

(** *** Socket names: [registry/root.rs] *)

Definition hex_digit (d : Z) : Z := if d <? 10 then 48 + d else 87 + d.
Definition hex2 (b : Z) : bytes := [hex_digit (b / 16); hex_digit (b mod 16)].

Section Sockets.
Context (sha256 : bytes -> bytes).

Definition socket_filenames (nm : bytes) : bytes * bytes :=
  (nm ++ str ".sock",
   str "@" ++ concat (map hex2 (take 16 (sha256 nm))) ++ str ".sock").

(** The file name a published socket has, or a new one would get. *)
Definition socket_filename (reg : Registry) (root nm : bytes) : bytes :=
  let '(readable, bounded) := socket_filenames nm in
  let is_socket p := match reg_lstat reg p with Ok b => b | Err _ => false end in
  if is_socket (path_join root bounded) then bounded
  else if is_socket (path_join root readable) then readable
  else if blen (path_join root readable) <=? SUN_PATH_MAX then readable else bounded.

(** [target.into_iter().chain(root.canonicalize().ok())]. *)
Definition link_target (root target : bytes) : bytes :=
  if starts_with [47] target then target
  else path_join (if beq root (str "/") || beq root [] then str "." else parent root) target.
Definition real_roots (reg : Registry) (root : bytes) : list bytes :=
  match reg_link reg with Some t => [link_target root t] | None => [] end
  ++ match reg_canonical reg with Some c => [c] | None => [] end.

Definition socket_path_in (reg : Registry) (root nm : bytes) : bytes :=
  let '(readable, bounded) := socket_filenames nm in
  let file := socket_filename reg root nm in
  let path := path_join root file in
  let is_socket p := match reg_lstat reg p with Ok b => b | Err _ => false end in
  if is_socket (path_join root bounded) || is_socket (path_join root readable)
  then
    if SUN_PATH_MAX <? blen path
    then match List.find (fun p => blen p <=? SUN_PATH_MAX)
                 (map (fun real_root => path_join real_root file) (real_roots reg root)) with
         | Some real_path => real_path
         | None => path
         end
    else path
  else path.
End Sockets.

(** ** Reading companions *)

Section Reads.
Context (json : bytes -> option (list (bytes * Value))) (reg : Registry).

Definition scanner_error (strict : bool) (kind : InventoryErrorKind) (path : bytes) : list InventoryError :=
  if strict then [mkError kind path] else [].

Definition read_optional (strict : bool) (path : bytes) (kind : InventoryErrorKind) (observed : bool)
  : option bytes * list InventoryError :=
  let read :=
    try f := reg_open reg path in
    let '(regular, contents) := f in
    if strict && negb regular then Err (mkIo false None) else contents in
  match read with
  | Ok b => (Some b, [])
  | Err e =>
      (None, if strict && (observed || negb (not_found e) || is_ok (reg_lstat reg path))
             then scanner_error strict kind path else [])
  end.

Definition read_metadata (strict full : bool) (path : bytes) (observed : bool)
  : option SessionMetadata * list InventoryError :=
  let '(read, errs) := read_optional strict path MetadataUnreadable observed in
  match read with
  | None => (None, errs)
  | Some b => match parse_with_payloads json b full with
              | Some m => (Some m, errs)
              | None => (None, errs ++ scanner_error strict MetadataMalformed path)
              end
  end.

(** [Scanner::metadata]: through the cache when there is one.  [cache_reads path] is
    the clock and what opening the file gave. *)
Definition scanner_metadata (strict full : bool) (cache_reads : bytes -> Z * Result Opened IoError)
  (cache : option RegistryListCache) (path : bytes) (observed : bool)
  : option SessionMetadata * list InventoryError * option RegistryListCache :=
  match cache with
  | None => (read_metadata strict full path observed, None)
  | Some c =>
      let '(now, opened) := cache_reads path in
      match cache_metadata json path now opened c with
      | (Ok m, c) => ((Some m, []), Some c)
      | (Err kind, c) => ((None, scanner_error strict kind path), Some c)
      end
  end.

Definition scanner_pid (strict : bool) (path : bytes) (observed : bool) : option Z * list InventoryError :=
  let '(read, errs) := read_optional strict path PidUnreadable observed in
  match read with
  | None => (None, errs)
  | Some b =>
      match from_utf8 b with
      | None => (None, errs ++ scanner_error strict PidMalformed path)
      | Some text =>
        let content := trim is_trim_space text in
        let proper := is_nonempty content && forallb is_ascii_digit content
                      && match parse_i32 content with Some p => 0 <? p | None => false end in
        (parse_leading_int content,
         errs ++ if strict && negb proper then scanner_error strict PidMalformed path else [])
      end
  end.

Definition read_session_pid_at (path : bytes) : option Z :=
  match reg_open reg path with
  | Ok (_, Ok b) => let? text := from_utf8 b in parse_leading_int (trim is_trim_space text)
  | _ => None
  end.

(** A whole observation of one record, or nothing. *)
Definition read_identity_record (root nm : bytes) : option (SessionMetadata * option Z) :=
  let '(metadata, e1) := read_metadata true true (path_join root (nm ++ str ".json")) false in
  let? m := metadata in
  let '(sidecar, e2) := scanner_pid true (path_join root (nm ++ str ".pid")) false in
  if is_nonempty (e1 ++ e2) then None else Some (m, sidecar).

(** [given]: the record the caller already has. *)
Definition read_pid_in {H : Host} (root nm : bytes) (given on_disk : option SessionMetadata) : option Z :=
  read_pid_with_in (read_session_pid_at (path_join root (nm ++ str ".pid")))
    match given with Some m => Some m | None => on_disk end.

Definition read_explicit_control_authority_in {H : Host} (root nm : bytes) (given : option SessionMetadata)
  (child_signal : bool) : option (Z * ControlIdentityCheck) :=
  let '(retained, e1) :=
    match given with
    | Some m => (Some m, [])
    | None => read_metadata true true (path_join root (nm ++ str ".json")) false
    end in
  let? m := retained in
  let '(sidecar, e2) := scanner_pid true (path_join root (nm ++ str ".pid")) false in
  explicit_control_authority (negb (is_nonempty (e1 ++ e2))) child_signal sidecar m.
End Reads.

(** ** The scan *)

Section Scan.
Context (sha256 : bytes -> bytes) (json : bytes -> option (list (bytes * Value))) {H : Host}
        (reg : Registry) (root : bytes) (cache_reads : bytes -> Z * Result Opened IoError).

Definition json_name (nm : bytes) : bytes := nm ++ str ".json".
Definition pid_name (nm : bytes) : bytes := nm ++ str ".pid".
Definition sock_path (nm : bytes) : bytes := socket_path_in sha256 reg root nm.
Definition sock_file (nm : bytes) : bytes := file_name (sock_path nm).

(** The names of the listing, in-flight writes left out. *)
Definition dir_entry (strict : bool) (acc : list bytes * list InventoryError) (e : DirEntry)
  : list bytes * list InventoryError :=
  let '(names, errs) := acc in
  match e with
  | EntryName f => if is_tmp_name f then acc else (names ++ [f], errs)
  | EntryNotUtf8 p => (names, errs ++ scanner_error strict EntryUnreadable p)
  | EntryFailed => (names, errs ++ scanner_error strict EntryUnreadable root)
  end.

(** [only]'s three companions. *)
Definition companions_of (only : bytes) : list bytes := [sock_file only; json_name only; pid_name only].
Definition keep_only (only : option bytes) (entries : list bytes) : list bytes :=
  match only with
  | Some o => List.filter (fun e => existsb (beq e) (companions_of o)) entries
  | None => entries
  end.

Definition reserved_companion (e : bytes) : bool :=
  starts_with (str "@") e && (is_some (strip_suffix (str ".json") e) || is_some (strip_suffix (str ".pid") e)).
Definition reserved_errors (strict : bool) (entries : list bytes) : list InventoryError :=
  concat (map (fun e => if reserved_companion e then scanner_error strict EntryUnreadable (path_join root e) else [])
            entries).

(** [entry.strip_suffix(".json").or_else(|| entry.strip_suffix(".pid"))]. *)
Definition companion_stem (e : bytes) : option bytes :=
  match strip_suffix (str ".json") e with Some n => Some n | None => strip_suffix (str ".pid") e end.
(** A later name replaces an earlier one of the same socket. *)
Definition socket_names (entries : list bytes) : gmap bytes bytes :=
  foldl (fun m n => <[sock_file n := n]> m) ∅ (omap companion_stem entries).

Definition socket_entry (strict : bool) (names : gmap bytes bytes) (e : bytes)
  : option bytes * list InventoryError :=
  let error := scanner_error strict EntryUnreadable (path_join root e) in
  match strip_suffix (str ".sock") e with
  | None => (None, [])
  | Some stem =>
      let canonical n := if beq (sock_file n) e then (Some n, []) else (None, error) in
      match names !! e with
      | Some n => canonical n
      | None => if starts_with (str "@") stem then (None, error) else canonical stem
      end
  end.

Definition record_stem (strict : bool) (e : bytes) : option bytes :=
  match strip_suffix (str ".json") e with
  | Some n => Some n
  | None => if strict then strip_suffix (str ".pid") e else None
  end.

Definition absent (path : bytes) : bool :=
  match reg_lstat reg path with Err e => not_found e | Ok _ => false end.

Definition classify_status (m : option SessionMetadata) (retained : bool) : SessionStatus :=
  if match m with Some r => Metadata.has_exited r || is_some (exit_code r) | None => false end then Exited
  else if retained then Running else Vanished.

(** One round of the scan's loop: the session, if it is one, its errors, its socket
    if that is to be probed, and the cache. *)
Definition scan_name (strict full : bool) (entries socket_ids : list bytes) (cache : option RegistryListCache)
  (nm : bytes) : option SessionInfo * list InventoryError * list bytes * option RegistryListCache :=
  let observed e := existsb (beq e) entries in
  let meta_path := path_join root (json_name nm) in
  let pid_path := path_join root (pid_name nm) in
  let '(metadata, e1, cache) :=
    scanner_metadata json reg strict full cache_reads cache meta_path (observed (json_name nm)) in
  let has_socket := existsb (beq nm) socket_ids in
  if negb strict && negb (is_some metadata) && negb has_socket then (None, e1, [], cache)
  else
    let '(sidecar, e2) := scanner_pid reg strict pid_path (observed (pid_name nm)) in
    let pid := pid_or sidecar (metadata ≫= daemon_pid) in
    if negb (is_some metadata) && negb has_socket then
      (None,
       e1 ++ e2 ++
       (if strict && is_some sidecar && negb (is_nonempty e2)
           && bool_decide (check_record_identity sidecar None = Unknown)
        then scanner_error strict IdentityUnknown pid_path else []),
       [], cache)
    else
      let identity := check_record_identity_in (absent pid_path) (absent (sock_path nm)) sidecar metadata in
      let unproven := bool_decide (identity = Unknown) in
      let retained := bool_decide (identity = Match) || unproven in
      (Some (mkInfo nm (sock_path nm) (if retained then pid else None)
                    (classify_status metadata retained) identity metadata),
       e1 ++ e2 ++ (if unproven then scanner_error strict IdentityUnknown meta_path else []),
       if unproven && strict && has_socket then [sock_path nm] else [],
       cache).

Record ScanState : Type := mkScanState {
  sc_sessions : list SessionInfo;
  sc_errors : list InventoryError;
  sc_uncertain : list bytes;
  sc_cache : option RegistryListCache
}.
Definition scan_round (strict full : bool) (entries socket_ids : list bytes) (st : ScanState) (nm : bytes)
  : ScanState :=
  let '(session, errs, uncertain, cache) := scan_name strict full entries socket_ids (sc_cache st) nm in
  mkScanState (sc_sessions st ++ match session with Some s => [s] | None => [] end)
    (sc_errors st ++ errs) (sc_uncertain st ++ uncertain) cache.

Definition ENOENT : Z := 2.
Definition ECONNREFUSED : Z := 111.
(** A socket that did not answer in time, or failed for a reason of its own. *)
Definition probe_errors (strict : bool) (diagnostics : gmap bytes (Result unit IoError)) (path : bytes)
  : list InventoryError :=
  match diagnostics !! path with
  | None => scanner_error strict ProbeTimeout path
  | Some (Err e) =>
      if bool_decide (raw_os_error e = Some ENOENT) || bool_decide (raw_os_error e = Some ECONNREFUSED)
      then [] else scanner_error strict EntryUnreadable path
  | Some (Ok _) => []
  end.

Definition retain_cache (names : list bytes) (cache : option RegistryListCache) : option RegistryListCache :=
  retain root names <$> cache.

Definition by_name (a b : SessionInfo) : bool := bytes_leb (name a) (name b).

(** [budget] is the probe's, in nanoseconds. *)
Definition scan_sessions_with_probe (budget : Z) (strict : bool) (only : option bytes) (full : bool)
  (cache : option RegistryListCache) (probe : list bytes -> Z -> gmap bytes (Result unit IoError))
  : Inventory * option RegistryListCache :=
  match reg_dir reg with
  | Err e =>
      let errs := scanner_error strict (if not_found e then RootMissing else RootUnreadable) root in
      (mkInventory root (negb (is_nonempty errs)) [] errs, retain_cache [] cache)
  | Ok dir =>
      let '(listed, dir_errors) := foldl (dir_entry strict) ([], []) dir in
      let candidates := keep_only only listed in
      let reserved := reserved_errors strict candidates in
      let entries := sort_by bytes_leb (List.filter (fun e => negb (reserved_companion e)) candidates) in
      let sockets := map (socket_entry strict (socket_names entries)) entries in
      let socket_ids := btree_set (omap fst sockets) in
      let names := btree_set (omap (record_stem strict) entries ++ socket_ids) in
      let st := foldl (scan_round strict full entries socket_ids)
                  (mkScanState [] (dir_errors ++ reserved ++ concat (map snd sockets)) []
                     (retain_cache names cache)) names in
      let diagnostics := probe (sc_uncertain st) budget in
      let errs := sc_errors st ++ concat (map (probe_errors strict diagnostics) (sc_uncertain st)) in
      (mkInventory root (negb (is_nonempty errs)) (sort_by by_name (sc_sessions st)) errs, sc_cache st)
  end.

Context (budget : Z) (probe : list bytes -> Z -> gmap bytes (Result unit IoError)).
Definition scan_sessions (strict : bool) (only : option bytes) (full : bool)
  (cache : option RegistryListCache) : Inventory * option RegistryListCache :=
  scan_sessions_with_probe budget strict only full cache probe.
Definition list_sessions_in : list SessionInfo := entries (fst (scan_sessions false None false None)).
Definition list_sessions_full : list SessionInfo := entries (fst (scan_sessions false None true None)).
Definition list_sessions_strict_in : Inventory := fst (scan_sessions true None false None).
Definition observe_session_strict_in (nm : bytes) : Inventory :=
  fst (scan_sessions true (Some nm) false None).
Definition cache_list (cache : RegistryListCache) : list SessionInfo * option RegistryListCache :=
  let '(inv, cache) := scan_sessions false None false (Some cache) in (entries inv, cache).
Definition get_session_by_name (nm : bytes) : option SessionInfo :=
  head (entries (fst (scan_sessions false (Some nm) true None))).
End Scan.

(** ** References *)

(** [join("\n")]. *)
Fixpoint join_lines (l : list bytes) : bytes :=
  match l with
  | [] => []
  | [x] => x
  | x :: l' => x ++ 10 :: join_lines l'
  end.
Definition ambiguous_reference_message (reference : bytes) (ids : list bytes) : bytes :=
  str "Session reference " ++ 34 :: reference ++ 34 :: str " is ambiguous. Matching stable session IDs:"
  ++ 10 :: join_lines (map (fun id => str "  " ++ id) (sort_by bytes_leb ids))
  ++ 10 :: str "Use a stable session ID instead.".

(** [sessions]: a full listing. *)
Definition get_session (sessions : list SessionInfo) (reference : bytes) : Result (option SessionInfo) bytes :=
  match List.find (fun s => beq (name s) reference) sessions with
  | Some s => Ok (Some s)
  | None =>
      let by_display := List.filter (fun s => bool_decide (info_display_name s = Some reference)) sessions in
      match by_display with
      | [] => Ok None
      | [s] => Ok (Some s)
      | _ => Err (ambiguous_reference_message reference (map name by_display))
      end
  end.
Definition all_session_names (sessions : list SessionInfo) : list bytes := btree_set (map name sessions).
Definition resolve_ref (sessions : list SessionInfo) (reference : bytes) : option bytes :=
  match get_session sessions reference with Ok (Some s) => Some (name s) | _ => None end.
Definition session_exists (there : bytes -> bool) (root nm : bytes) : bool :=
  there (path_join root (json_name nm)).

(** ** What a scan finds *)

Lemma strip_suffix_Some p l r : strip_suffix p l = Some r <-> l = r ++ p.
Proof.
  unfold strip_suffix. split.
  - destruct (strip_prefix (rev p) (rev l)) as [x|] eqn:E; [|discriminate]. intros [= <-].
    apply strip_prefix_Some in E. rewrite <- (rev_involutive l), E, rev_app_distr, rev_involutive. done.
  - intros ->. rewrite rev_app_distr.
    rewrite (proj2 (strip_prefix_Some (rev p) (rev p ++ rev r) (rev r)) eq_refl). rewrite rev_involutive. done.
Qed.

Lemma scanner_error_nil strict k p : scanner_error strict k p = [] <-> strict = false.
Proof. destruct strict; cbn; split; done. Qed.

Section ScanFacts.
Context (sha256 : bytes -> bytes) (json : bytes -> option (list (bytes * Value))) {H : Host}
        (reg : Registry) (root : bytes) (cache_reads : bytes -> Z * Result Opened IoError).

Abbreviation scan_name_ := (scan_name sha256 json reg root cache_reads).
Abbreviation scan_round_ := (scan_round sha256 json reg root cache_reads).

(** Without a cache every round stands alone. *)
Definition seen (strict full : bool) (es ids : list bytes) (nm : bytes) : option SessionInfo :=
  fst (fst (fst (scan_name_ strict full es ids None nm))).
Definition seen_errors (strict full : bool) (es ids : list bytes) (nm : bytes) : list InventoryError :=
  snd (fst (fst (scan_name_ strict full es ids None nm))).
Definition seen_uncertain (strict full : bool) (es ids : list bytes) (nm : bytes) : list bytes :=
  snd (fst (scan_name_ strict full es ids None nm)).

Lemma scan_name_no_cache strict full es ids nm :
  scan_name_ strict full es ids None nm =
    (seen strict full es ids nm, seen_errors strict full es ids nm, seen_uncertain strict full es ids nm, None).
Proof.
  unfold seen, seen_errors, seen_uncertain. destruct (scan_name_ strict full es ids None nm) as [[[a b] c] d] eqn:E.
  cbn. f_equal. unfold scan_name, scanner_metadata in E.
  destruct (read_metadata json reg strict full _ _) as [md e1].
  destruct (negb strict && _ && _); [congruence|]. destruct (scanner_pid _ _ _ _) as [sc e2].
  destruct (negb (is_some md) && _); congruence.
Qed.

Lemma scan_rounds strict full es ids names st :
  sc_cache st = None ->
  foldl (scan_round_ strict full es ids) st names =
    mkScanState (sc_sessions st ++ omap (seen strict full es ids) names)
      (sc_errors st ++ concat (map (seen_errors strict full es ids) names))
      (sc_uncertain st ++ concat (map (seen_uncertain strict full es ids) names)) None.
Proof.
  revert st. induction names as [|n names IH]; intros st Hc.
  { destruct st as [a b c d]. cbn in *. subst. rewrite !app_nil_r. done. }
  cbn [foldl]. unfold scan_round at 2. rewrite Hc, scan_name_no_cache.
  rewrite IH by done. cbn. rewrite <- !app_assoc. destruct (seen strict full es ids n); done.
Qed.

Lemma seen_name strict full es ids nm s : seen strict full es ids nm = Some s -> name s = nm.
Proof.
  unfold seen, scan_name. destruct (scanner_metadata _ _ _ _ _ _ _ _) as [[md e1] c].
  destruct (negb strict && _ && _); [discriminate|]. destruct (scanner_pid _ _ _ _) as [sc e2].
  destruct (negb (is_some md) && _); [discriminate|]. intros [= <-]. done.
Qed.

Lemma names_seen strict full es ids names :
  map name (omap (seen strict full es ids) names)
    = List.filter (fun n => is_some (seen strict full es ids n)) names.
Proof.
  induction names as [|n names IH]; cbn; [done|]. destruct (seen strict full es ids n) as [s|] eqn:E; cbn.
  - rewrite (seen_name _ _ _ _ _ _ E), <- IH. done.
  - exact IH.
Qed.

Lemma sorted_by_name l : sorted by_name l <-> sorted bytes_leb (map name l).
Proof.
  unfold sorted. induction l as [|x l IH]; cbn; [split; constructor|].
  split; intros Hs; inversion Hs as [|? ? Hs1 Hs2]; subst; constructor; try (apply IH, Hs1).
  - apply Forall_forall. intros y (z & -> & Hz)%elem_of_map. rewrite Forall_forall in Hs2. apply (Hs2 z), Hz.
  - apply Forall_forall. intros y Hy. rewrite Forall_forall in Hs2. apply Hs2. apply elem_of_map. eauto.
Qed.

(** The sessions come out of the loop in order, one per name. *)
Lemma seen_sorted strict full es ids l :
  sort_by by_name (omap (seen strict full es ids) (btree_set l)) = omap (seen strict full es ids) (btree_set l).
Proof.
  assert (Hs : sorted by_name (omap (seen strict full es ids) (btree_set l))).
  { apply sorted_by_name. rewrite names_seen. apply filter_sorted, btree_set_sorted. }
  symmetry. apply (sorted_unique by_name).
  - intros a b Ha Hb. rewrite elem_of_omap in Ha, Hb. destruct Ha as (x & _ & Ha), Hb as (y & _ & Hb).
    intros H1 H2. pose proof (bytes_leb_antisym _ _ H1 H2) as E.
    rewrite (seen_name _ _ _ _ _ _ Ha), (seen_name _ _ _ _ _ _ Hb) in E. congruence.
  - exact Hs.
  - apply sort_by_sorted; unfold by_name; [intros; apply bytes_leb_total|intros ? ? ?; apply bytes_leb_trans].
  - symmetry. apply sort_by_perm.
Qed.

(** The parts of a scan without a cache, by name. *)
Definition listed_name (e : DirEntry) : option bytes :=
  match e with EntryName f => if is_tmp_name f then None else Some f | _ => None end.
Definition entry_errors (strict : bool) (e : DirEntry) : list InventoryError :=
  match e with
  | EntryName _ => []
  | EntryNotUtf8 p => scanner_error strict EntryUnreadable p
  | EntryFailed => scanner_error strict EntryUnreadable root
  end.
Definition candidates_of (only : option bytes) (dir : list DirEntry) : list bytes :=
  keep_only sha256 reg root only (omap listed_name dir).
Definition entries_of (only : option bytes) (dir : list DirEntry) : list bytes :=
  sort_by bytes_leb (List.filter (fun e => negb (reserved_companion e)) (candidates_of only dir)).
Definition socket_of (strict : bool) (es : list bytes) (e : bytes) : option bytes * list InventoryError :=
  socket_entry sha256 reg root strict (socket_names sha256 reg root es) e.
Definition ids_of (strict : bool) (es : list bytes) : list bytes :=
  btree_set (omap fst (map (socket_of strict es) es)).
Definition names_of (strict : bool) (es : list bytes) : list bytes :=
  btree_set (omap (record_stem strict) es ++ ids_of strict es).

Lemma listing_parts strict dir names errs :
  foldl (dir_entry root strict) (names, errs) dir
    = (names ++ omap listed_name dir, errs ++ concat (map (entry_errors strict) dir)).
Proof.
  revert names errs. induction dir as [|e dir IH]; intros names errs; cbn; [rewrite !app_nil_r; done|].
  destruct e as [f|p|]; cbn [listed_name]; [destruct (is_tmp_name f)|..]; rewrite IH; cbn; rewrite <- ?app_assoc; done.
Qed.

Definition errors_of (budget : Z) (probe : list bytes -> Z -> gmap bytes (Result unit IoError))
  (strict full : bool) (only : option bytes) (dir : list DirEntry) : list InventoryError :=
  let es := entries_of only dir in
  let ids := ids_of strict es in
  let uncertain := concat (map (seen_uncertain strict full es ids) (names_of strict es)) in
  concat (map (entry_errors strict) dir) ++ reserved_errors root strict (candidates_of only dir)
  ++ concat (map snd (map (socket_of strict es) es))
  ++ concat (map (seen_errors strict full es ids) (names_of strict es))
  ++ concat (map (probe_errors strict (probe uncertain budget)) uncertain).

Lemma scan_parts budget probe strict only full dir :
  reg_dir reg = Ok dir ->
  let errs := errors_of budget probe strict full only dir in
  let es := entries_of only dir in
  fst (scan_sessions sha256 json reg root cache_reads budget probe strict only full None) =
    mkInventory root (negb (is_nonempty errs))
      (omap (seen strict full es (ids_of strict es)) (names_of strict es)) errs.
Proof.
  intros Hd. unfold scan_sessions, scan_sessions_with_probe. rewrite Hd, listing_parts. cbn [app].
  fold (candidates_of only dir). fold (entries_of only dir).
  set (es := entries_of only dir). fold (socket_of strict es). fold (ids_of strict es).
  fold (names_of strict es). rewrite scan_rounds by done. cbn [sc_sessions sc_errors sc_uncertain sc_cache app fst].
  unfold names_of. rewrite seen_sorted. unfold errors_of. fold es. rewrite <- !app_assoc. done.
Qed.

(** A listing names each session once, in order.  Whatever the directory holds and
    whatever order it is read in, the sessions of a scan come sorted by their ids, no id
    twice, each of them from a record or a published socket of its own name. *)
Theorem scan_sorted_unique budget probe strict only full :
  let l := entries (fst (scan_sessions sha256 json reg root cache_reads budget probe strict only full None)) in
  sorted bytes_leb (map name l) /\ NoDup (map name l) /\
  forall s, s ∈ l -> exists dir, reg_dir reg = Ok dir /\
    name s ∈ names_of strict (entries_of only dir) /\
    (info_metadata s <> None \/ name s ∈ ids_of strict (entries_of only dir)).
Proof.
  destruct (reg_dir reg) as [dir|e] eqn:Hd.
  2: { unfold scan_sessions, scan_sessions_with_probe. rewrite Hd. cbn.
       split; [constructor|]. split; [constructor|]. intros s Hs. inversion Hs. }
  rewrite (scan_parts budget probe strict only full dir Hd). cbn [entries]. rewrite names_seen.
  split; [apply filter_sorted, btree_set_sorted|]. split; [apply filter_NoDup, NoDup_btree_set|].
  intros s Hs. exists dir. split; [done|]. rewrite elem_of_omap in Hs. destruct Hs as (n & Hn & Hs).
  rewrite (seen_name _ _ _ _ _ _ Hs). split; [done|].
  revert Hs. unfold seen, scan_name. destruct (scanner_metadata _ _ _ _ _ _ _ _) as [[md e1] c].
  destruct (negb strict && _ && _); [discriminate|]. destruct (scanner_pid _ _ _ _) as [sc e2].
  destruct (is_some md) eqn:Em; cbn [negb andb].
  - intros [= <-]. left. cbn. destruct md; done.
  - destruct (existsb (beq n) (ids_of strict (entries_of only dir))) eqn:Ei; cbn [negb]; [|discriminate].
    intros [= <-]. right. apply existsb_elem in Ei as (x & Hx & E). apply beq_eq in E. subst. done.
Qed.
End ScanFacts.

(** ** A complete strict inventory lost nothing *)

Lemma read_optional_clean reg path kind b :
  read_optional reg true path kind true = (Some b, []) -> reg_open reg path = Ok (true, Ok b).
Proof.
  unfold read_optional. destruct (reg_open reg path) as [[regular contents]|e]; cbn [rbind].
  - destruct regular; cbn [andb negb].
    + destruct contents; [congruence|discriminate].
    + discriminate.
  - discriminate.
Qed.

Lemma read_optional_errors reg strict path kind observed :
  fst (read_optional reg strict path kind observed) = None -> observed = true -> strict = true ->
  snd (read_optional reg strict path kind observed) <> [].
Proof.
  unfold read_optional. destruct (try f := reg_open reg path in _) as [b|e]; cbn; [discriminate|].
  intros _ -> ->. cbn. discriminate.
Qed.

Lemma read_metadata_clean json reg full path :
  snd (read_metadata json reg true full path true) = [] ->
  exists m b, read_metadata json reg true full path true = (Some m, []) /\
    reg_open reg path = Ok (true, Ok b) /\ parse_with_payloads json b full = Some m.
Proof.
  unfold read_metadata. destruct (read_optional _ _ _ _ _) as [read errs] eqn:E.
  pose proof (read_optional_errors reg true path MetadataUnreadable true) as He. rewrite E in He. cbn in He.
  destruct read as [b|].
  - destruct (parse_with_payloads json b full) as [m|] eqn:Ep; cbn.
    + intros ->. apply read_optional_clean in E. eauto.
    + intros [_ [=]]%app_eq_nil.
  - cbn. intros ->. destruct (He eq_refl eq_refl eq_refl eq_refl).
Qed.

(** A text of digits only is the pid it spells, to both readers. *)
Lemma digit_cases d : is_ascii_digit d = true ->
  d = 48 \/ d = 49 \/ d = 50 \/ d = 51 \/ d = 52 \/ d = 53 \/ d = 54 \/ d = 55 \/ d = 56 \/ d = 57.
Proof. unfold is_ascii_digit, in_range. lia. Qed.
Lemma parse_leading_digits c p :
  is_nonempty c = true -> forallb is_ascii_digit c = true -> parse_i32 c = Some p -> 0 < p ->
  parse_leading_int c = Some p.
Proof.
  destruct c as [|d c]; [discriminate|]. intros _ Hd Hi Hp. pose proof Hd as Hall.
  cbn [forallb] in Hd. apply andb_prop in Hd as [Hd _].
  assert (Hs : span is_ascii_digit (d :: c) = (d :: c, [])).
  { rewrite <- (app_nil_r (d :: c)) at 1. apply span_all; [done|discriminate]. }
  assert (Hu : parse_unsigned I32_MAX (d :: c) = Some p /\ parse_leading_int (d :: c) =
    (let? value := parse_unsigned I64_MAX (d :: c) in
     if in_range I32_MIN I32_MAX value then Some value else None)).
  { assert (Ht : trim_start is_trim_space (d :: c) = d :: c /\ strip_prefix [45] (d :: c) = None
                 /\ strip_prefix [43] (d :: c) = None /\ parse_i32 (d :: c) = parse_unsigned I32_MAX (d :: c)).
    { destruct (digit_cases d Hd) as [->|[->|[->|[->|[->|[->|[->|[->|[->| ->]]]]]]]]]; done. }
    destruct Ht as (Ht & H45 & H43 & Hp32). split; [congruence|].
    unfold parse_leading_int. rewrite Ht, H45, H43, Hs. done. }
  destruct Hu as [Hu ->]. unfold parse_unsigned in *.
  assert (Hw : forall max, (let l' := match d :: c with 43 :: r => r | _ => d :: c end in
     match l' with [] => None | _ => match digits_value 0 l' with
       | Some v => if v <=? max then Some v else None | None => None end end)
     = match digits_value 0 (d :: c) with Some v => if v <=? max then Some v else None | None => None end).
  { intros max. destruct (digit_cases d Hd) as [->|[->|[->|[->|[->|[->|[->|[->|[->| ->]]]]]]]]]; done. }
  rewrite Hw in *. destruct (digits_value 0 (d :: c)) as [v|]; [|discriminate].
  destruct (v <=? I32_MAX) eqn:E1; [|discriminate]. injection Hu as ->.
  unfold I32_MAX, I64_MAX, I32_MIN in *. rewrite (proj2 (Z.leb_le _ _)) by lia.
  cbn [mbind option_bind]. unfold in_range. rewrite !(proj2 (Z.leb_le _ _)) by lia. done.
Qed.

(** A pid file read without error holds a positive pid. *)
Lemma scanner_pid_clean reg path :
  snd (scanner_pid reg true path true) = [] -> exists p, fst (scanner_pid reg true path true) = Some p /\ 0 < p.
Proof.
  unfold scanner_pid. destruct (read_optional _ _ _ _ _) as [read errs] eqn:E.
  pose proof (read_optional_errors reg true path PidUnreadable true) as He. rewrite E in He. cbn in He.
  destruct read as [b|]; [|cbn; intros ->; destruct (He eq_refl eq_refl eq_refl eq_refl)].
  destruct (from_utf8 b) as [text|]; [|cbn; intros [_ [=]]%app_eq_nil]. cbn [fst snd].
  set (c := trim is_trim_space text). intros [_ Hp]%app_eq_nil. cbn [andb] in Hp.
  destruct (is_nonempty c && forallb is_ascii_digit c && _) eqn:Ec; [|discriminate]. clear Hp.
  apply andb_prop in Ec as [Ec Hp]. apply andb_prop in Ec as [Hn Hd].
  destruct (parse_i32 c) as [p|] eqn:Ei; [|discriminate]. apply Z.ltb_lt in Hp. exists p. split; [|done].
  apply parse_leading_digits; done.
Qed.

Section Complete.
Context (sha256 : bytes -> bytes) (json : bytes -> option (list (bytes * Value))) {H : Host} {HL : HostLaws}
        (reg : Registry) (root : bytes) (cache_reads : bytes -> Z * Result Opened IoError).

Abbreviation seen_ := (seen sha256 json reg root cache_reads true).
Abbreviation seen_errors_ := (seen_errors sha256 json reg root cache_reads true).

Lemma observed_in f es : existsb (beq f) es = true <-> f ∈ es.
Proof.
  rewrite existsb_elem. split; [intros (x & Hx & E); apply beq_eq in E; congruence|].
  intros Hf. exists f. split; [done|apply beq_refl].
Qed.

(** A round of the strict scan, with its readings named. *)
Lemma strict_round full es ids nm :
  let meta := read_metadata json reg true full (path_join root (json_name nm)) (existsb (beq (json_name nm)) es) in
  let side := scanner_pid reg true (path_join root (pid_name nm)) (existsb (beq (pid_name nm)) es) in
  let there := is_some (fst meta) || existsb (beq nm) ids in
  let identity := check_record_identity_in (absent reg (path_join root (pid_name nm)))
                    (absent reg (sock_path sha256 reg root nm)) (fst side) (fst meta) in
  (seen_errors_ full es ids nm = [] -> snd meta = [] /\ snd side = []) /\
  (there = true -> exists s, seen_ full es ids nm = Some s /\ info_metadata s = fst meta /\
     info_identity s = identity /\
     info_pid s = (if bool_decide (identity = Match) || bool_decide (identity = Unknown)
                   then pid_or (fst side) (fst meta ≫= daemon_pid) else None) /\
     info_status s = classify_status (fst meta) (bool_decide (identity = Match) || bool_decide (identity = Unknown)) /\
     (seen_errors_ full es ids nm = [] -> identity <> Unknown)) /\
  (there = false -> seen_ full es ids nm = None /\
     (seen_errors_ full es ids nm = [] -> is_some (fst side) = true -> check_record_identity (fst side) None <> Unknown)).
Proof.
  cbv zeta. unfold seen, seen_errors, scan_name, scanner_metadata.
  destruct (read_metadata _ _ _ _ _ _) as [md e1]. destruct (scanner_pid _ _ _ _) as [sc e2]. cbn [fst snd negb andb].
  destruct (is_some md) eqn:Em; cbn [negb andb orb].
  - cbn [fst snd]. split; [intros [-> [-> _]%app_eq_nil]%app_eq_nil; done|]. split; [|discriminate].
    intros _. eexists. split; [reflexivity|]. cbn. repeat (split; [done|]).
    intros [_ [_ Hu]%app_eq_nil]%app_eq_nil. destruct (bool_decide (_ = Unknown)) eqn:Eu; [discriminate|].
    apply bool_decide_eq_false in Eu. done.
  - destruct (existsb (beq nm) ids); cbn [negb fst snd].
    + split; [intros [-> [-> _]%app_eq_nil]%app_eq_nil; done|]. split; [|discriminate].
      intros _. eexists. split; [reflexivity|]. cbn. repeat (split; [done|]).
      intros [_ [_ Hu]%app_eq_nil]%app_eq_nil. destruct (bool_decide (_ = Unknown)) eqn:Eu; [discriminate|].
      apply bool_decide_eq_false in Eu. done.
    + split; [intros [-> [-> _]%app_eq_nil]%app_eq_nil; done|]. split; [discriminate|].
      intros _. split; [done|]. intros [_ [-> Hu]%app_eq_nil]%app_eq_nil Hs. rewrite Hs in Hu. cbn in Hu.
      destruct (bool_decide (_ = Unknown)) eqn:Eu; [discriminate|]. apply bool_decide_eq_false in Eu. done.
Qed.

(** What is told of a session that a clean round found. *)
Definition told (s : SessionInfo) : Prop :=
  info_identity s <> Unknown /\
  (info_status s = Running -> exists m pid, info_metadata s = Some m /\ info_pid s = Some pid /\ proven pid m).

Lemma told_clean full es ids nm s :
  seen_errors_ full es ids nm = [] -> seen_ full es ids nm = Some s -> told s.
Proof.
  intros He Hs. destruct (strict_round full es ids nm) as (_ & Ht & Hf).
  set (there := is_some _ || _) in *. destruct there; [|destruct (Hf eq_refl); congruence].
  destruct (Ht eq_refl) as (s' & Hs' & Hm & Hi & Hp & Hst & Hu). assert (s' = s) by congruence. subst s'.
  specialize (Hu He). split; [congruence|]. intros Hr. rewrite Hst in Hr. unfold classify_status in Hr.
  match type of Hr with (if ?x then _ else _) = _ => destruct x; [discriminate|] end.
  rewrite (bool_decide_eq_false_2 _ Hu), orb_false_r in Hr, Hp.
  match type of Hr with (if bool_decide ?x then _ else _) = _ => destruct (bool_decide x) eqn:Ed; [|discriminate] end.
  apply bool_decide_eq_true in Ed. apply record_identity_in_Match, record_identity_Match in Ed.
  destruct Ed as (r & pid & Er & Epid & Hproven & _). exists r, pid.
  split; [congruence|]. split; [|done]. rewrite Hp, Er. done.
Qed.

Context (budget : Z) (probe : list bytes -> Z -> gmap bytes (Result unit IoError)).
Abbreviation inventory := (list_sessions_strict_in sha256 json reg root cache_reads budget probe).

(** What is known of a scan that reported nothing. *)
Abbreviation es_ dir := (entries_of sha256 reg root None dir).
Abbreviation names_ dir := (names_of sha256 reg root true (es_ dir)).
Abbreviation ids_ dir := (ids_of sha256 reg root true (es_ dir)).
Record clean_scan (dir : list DirEntry) : Prop := {
  cs_dir : reg_dir reg = Ok dir;
  cs_named e : e ∈ dir -> exists f, e = EntryName f;
  cs_listed f : EntryName f ∈ dir -> is_tmp_name f = false -> f ∈ es_ dir;
  cs_socket f : f ∈ es_ dir -> snd (socket_of sha256 reg root true (es_ dir) f) = [];
  cs_round n : n ∈ names_ dir -> seen_errors_ false (es_ dir) (ids_ dir) n = [];
  cs_found n s : n ∈ names_ dir -> seen_ false (es_ dir) (ids_ dir) n = Some s -> s ∈ entries inventory;
  cs_entry s : s ∈ entries inventory -> exists n, n ∈ names_ dir /\ seen_ false (es_ dir) (ids_ dir) n = Some s
}.

Lemma complete_clean : inv_complete inventory = true -> exists dir, clean_scan dir.
Proof.
  unfold list_sessions_strict_in. destruct (reg_dir reg) as [dir|e] eqn:Hd.
  2: { unfold scan_sessions, scan_sessions_with_probe. rewrite Hd. cbn. discriminate. }
  pose proof (scan_parts sha256 json reg root cache_reads budget probe true None false dir Hd) as Hp.
  assert (Hent : entries inventory = omap (seen_ false (es_ dir) (ids_ dir)) (names_ dir)).
  { unfold list_sessions_strict_in. rewrite Hp. done. }
  rewrite Hp. cbn [inv_complete]. set (errs := errors_of _ _ _ _ _ _ _ _ _ _ _). intros Hc.
  assert (He : errs = []) by (destruct errs; [done|discriminate]). unfold errs, errors_of in He.
  apply app_eq_nil in He as [He1 He]. apply app_eq_nil in He as [He2 He].
  apply app_eq_nil in He as [He3 He]. apply app_eq_nil in He as [He4 _].
  rewrite concat_nil in He1, He3, He4. unfold reserved_errors in He2. rewrite concat_nil in He2.
  exists dir. constructor; rewrite ?Hent; try done.
  - intros e He. specialize (He1 (entry_errors root true e)). destruct e as [f|p|]; [eauto|..];
      discriminate He1; apply elem_of_map; eexists; split; [|exact He| |exact He]; done.
  - intros f Hf Ht. unfold entries_of. rewrite elem_of_sort_by.
    assert (Hin : f ∈ candidates_of sha256 reg root None dir).
    { apply elem_of_omap. exists (EntryName f). split; [done|]. cbn. rewrite Ht. done. }
    apply elem_of_filterb. split; [|done]. destruct (reserved_companion f) eqn:Er; [|done].
    specialize (He2 [mkError EntryUnreadable (path_join root f)]). discriminate He2.
    apply elem_of_map. exists f. rewrite Er. done.
  - intros f Hf. apply He3. apply elem_of_map. eexists. split; [done|]. apply elem_of_map. eauto.
  - intros n Hn. apply He4. apply elem_of_map. eauto.
  - intros n s Hn Hs. apply elem_of_omap. eauto.
  - intros s Hs. apply elem_of_omap in Hs as (n & Hn & Hs). eauto.
Qed.

Lemma stem_named dir f n : f ∈ es_ dir -> record_stem true f = Some n -> n ∈ names_ dir.
Proof.
  intros Hf Hn. unfold names_of. rewrite elem_of_btree_set, elem_of_app. left. apply elem_of_omap. eauto.
Qed.
Lemma stem_json nm : record_stem true (json_name nm) = Some nm.
Proof. unfold record_stem, json_name. rewrite (proj2 (strip_suffix_Some _ _ nm) eq_refl). done. Qed.
Lemma stem_pid nm : record_stem true (pid_name nm) = Some nm.
Proof.
  unfold record_stem, pid_name. destruct (strip_suffix (str ".json") (nm ++ str ".pid")) as [x|] eqn:E.
  - apply strip_suffix_Some in E. apply (f_equal last) in E. rewrite !last_app in E. discriminate.
  - rewrite (proj2 (strip_suffix_Some _ _ nm) eq_refl). done.
Qed.

Lemma clean_record dir nm :
  clean_scan dir -> EntryName (json_name nm) ∈ dir -> is_tmp_name (json_name nm) = false ->
  exists s m b, s ∈ entries inventory /\ name s = nm /\ info_metadata s = Some m /\
    reg_open reg (path_join root (json_name nm)) = Ok (true, Ok b) /\ parse_with_payloads json b false = Some m.
Proof.
  intros Hcs Hj Ht. pose proof (cs_listed _ Hcs _ Hj Ht) as Hin.
  pose proof (stem_named dir _ nm Hin (stem_json nm)) as Hn.
  destruct (strict_round false (es_ dir) (ids_ dir) nm) as (Hr & Hthere & _).
  destruct (Hr (cs_round _ Hcs _ Hn)) as [Hm _].
  rewrite (proj2 (observed_in _ _) Hin) in *. apply read_metadata_clean in Hm as (m & b & Em & Hopen & Hparse).
  rewrite Em in *. destruct (Hthere eq_refl) as (s & Hs & Hmeta & _).
  exists s, m, b. split; [apply (cs_found _ Hcs nm); done|]. split; [eapply seen_name, Hs|]. done.
Qed.

Lemma socket_of_clean es f :
  snd (socket_of sha256 reg root true es f) = [] -> is_some (strip_suffix (str ".sock") f) = true ->
  exists n, fst (socket_of sha256 reg root true es f) = Some n /\ sock_file sha256 reg root n = f.
Proof.
  unfold socket_of, socket_entry. destruct (strip_suffix (str ".sock") f) as [stem|]; [|discriminate].
  intros Hnil _. revert Hnil. destruct (socket_names sha256 reg root es !! f) as [n|].
  - destruct (beq (sock_file sha256 reg root n) f) eqn:E; [|discriminate]. apply beq_eq in E. eauto.
  - destruct (starts_with _ stem); [discriminate|].
    destruct (beq (sock_file sha256 reg root stem) f) eqn:E; [|discriminate]. apply beq_eq in E. eauto.
Qed.

Lemma clean_socket dir f :
  clean_scan dir -> EntryName f ∈ dir -> is_tmp_name f = false -> is_some (strip_suffix (str ".sock") f) = true ->
  exists s, s ∈ entries inventory /\ sock_file sha256 reg root (name s) = f.
Proof.
  intros Hcs Hf Ht Hsock. pose proof (cs_listed _ Hcs _ Hf Ht) as Hin.
  destruct (socket_of_clean _ _ (cs_socket _ Hcs _ Hin) Hsock) as (n & Hfst & Hfile).
  assert (Hids : n ∈ ids_ dir).
  { unfold ids_of. rewrite elem_of_btree_set. apply elem_of_omap. eexists. split; [|exact Hfst].
    apply elem_of_map. eauto. }
  assert (Hn : n ∈ names_ dir) by (unfold names_of; rewrite elem_of_btree_set, elem_of_app; right; done).
  destruct (strict_round false (es_ dir) (ids_ dir) n) as (_ & Hthere & _).
  rewrite (proj2 (observed_in n _) Hids), orb_true_r in Hthere.
  destruct (Hthere eq_refl) as (s & Hs & _). exists s. split; [apply (cs_found _ Hcs n); done|].
  assert (name s = n) as -> by (eapply seen_name, Hs). done.
Qed.

Lemma clean_pid dir nm :
  clean_scan dir -> EntryName (pid_name nm) ∈ dir -> is_tmp_name (pid_name nm) = false ->
  (exists s, s ∈ entries inventory /\ name s = nm) \/
  (exists p, 0 < p /\ check_record_identity (Some p) None <> Unknown).
Proof.
  intros Hcs Hp Ht. pose proof (cs_listed _ Hcs _ Hp Ht) as Hin.
  pose proof (stem_named dir _ nm Hin (stem_pid nm)) as Hn.
  destruct (strict_round false (es_ dir) (ids_ dir) nm) as (Hr & Hthere & Hnot).
  pose proof (cs_round _ Hcs _ Hn) as Hclean. destruct (Hr Hclean) as [_ Hside].
  rewrite (proj2 (observed_in (pid_name nm) _) Hin) in *.
  apply scanner_pid_clean in Hside as (p & Ep & Hpos). rewrite Ep in *.
  destruct (is_some _ || _) eqn:Eth.
  - destruct (Hthere eq_refl) as (s & Hs & _). left. exists s.
    split; [apply (cs_found _ Hcs nm); done|eapply seen_name, Hs].
  - destruct (Hnot eq_refl) as [_ Hu]. right. exists p. split; [done|]. apply Hu; done.
Qed.

(** A complete inventory has lost nothing.  When the strict scan calls itself
    complete, every name in the directory could be read; every record file is a
    session whose metadata is what that file holds; every socket is the address of
    a session; every pid file belongs to a session, or names a process proven not
    to be one; no session's owner is unknown; and a session is called running only
    if its record's daemon was proven to be the process at the pid given. *)
Theorem strict_inventory_complete :
  inv_complete inventory = true ->
  exists dir, reg_dir reg = Ok dir /\
  (forall e, e ∈ dir -> exists f, e = EntryName f) /\
  (forall nm, EntryName (json_name nm) ∈ dir -> is_tmp_name (json_name nm) = false ->
     exists s m b, s ∈ entries inventory /\ name s = nm /\ info_metadata s = Some m /\
       reg_open reg (path_join root (json_name nm)) = Ok (true, Ok b) /\
       parse_with_payloads json b false = Some m) /\
  (forall f, EntryName f ∈ dir -> is_tmp_name f = false -> is_some (strip_suffix (str ".sock") f) = true ->
     exists s, s ∈ entries inventory /\ sock_file sha256 reg root (name s) = f) /\
  (forall nm, EntryName (pid_name nm) ∈ dir -> is_tmp_name (pid_name nm) = false ->
     (exists s, s ∈ entries inventory /\ name s = nm) \/
     (exists p, 0 < p /\ check_record_identity (Some p) None <> Unknown)) /\
  (forall s, s ∈ entries inventory -> told s).
Proof.
  intros Hc. destruct (complete_clean Hc) as [dir Hcs]. exists dir.
  split; [apply (cs_dir _ Hcs)|]. split; [apply (cs_named _ Hcs)|].
  split; [intros nm; apply (clean_record dir nm Hcs)|]. split; [intros f; apply (clean_socket dir f Hcs)|].
  split; [intros nm; apply (clean_pid dir nm Hcs)|].
  intros s Hs. destruct (cs_entry _ Hcs s Hs) as (n & Hn & Hs'). eapply told_clean; [apply (cs_round _ Hcs n Hn)|exact Hs'].
Qed.
End Complete.

(** ** Observing one session *)

Lemma file_name_join root f : 47 ∉ f -> file_name (path_join root f) = f.
Proof.
  intros Hf. assert (Hno : existsb (Z.eqb 47) f = false).
  { destruct (existsb (Z.eqb 47) f) eqn:E; [|done]. apply existsb_eqb in E. done. }
  assert (Hn : after_last 47 f = None).
  { clear Hf. induction f as [|x f IH]; cbn [after_last existsb] in *; [done|].
    apply orb_false_iff in Hno as [Hx Hno]. rewrite IH by done. rewrite Z.eqb_sym, Hx. done. }
  assert (Hcons : forall l, after_last 47 (l ++ 47 :: f) = Some f) by (intros l; apply after_last_app, Hno).
  unfold file_name, path_join. destruct root as [|x r]; [rewrite Hn; done|].
  destruct (bool_decide (last (x :: r) = Some 47)) eqn:E; [|rewrite Hcons; done].
  apply bool_decide_eq_true, last_Some in E as [l ->]. rewrite <- app_assoc. cbn [app]. rewrite Hcons. done.
Qed.

Section One.
Context (sha256 : bytes -> bytes) (json : bytes -> option (list (bytes * Value))) {H : Host}
        (reg : Registry) (root : bytes) (cache_reads : bytes -> Z * Result Opened IoError)
        (nm : bytes) (dir : list DirEntry).

Hypothesis sha256_bytes : forall x b, b ∈ sha256 x -> 0 <= b < 256.
(** An id holds no separator and does not start the digests' name space. *)
Hypothesis nm_slash : 47 ∉ nm.
Hypothesis nm_at : starts_with (str "@") nm = false.

Abbreviation file := (sock_file sha256 reg root).
Abbreviation whole := (entries_of sha256 reg root None dir).
Abbreviation part := (entries_of sha256 reg root (Some nm) dir).

(** No other record's socket has this session's address: readable names are
    distinct, so this is about digests. *)
Hypothesis no_collision : forall x, x ∈ omap companion_stem whole -> file x = file nm -> x = nm.

Lemma hex_no_slash d : 0 <= d < 16 -> hex_digit d <> 47.
Proof. unfold hex_digit. destruct (d <? 10) eqn:E; lia. Qed.

Lemma sock_file_form : file nm = nm ++ str ".sock" \/ exists h, file nm = str "@" ++ h ++ str ".sock".
Proof.
  unfold sock_file, sock_path. assert (Hj : forall r, file_name (path_join r (socket_filename sha256 reg root nm))
    = socket_filename sha256 reg root nm).
  { intros r. apply file_name_join. unfold socket_filename, socket_filenames.
    assert (Hr : 47 ∉ nm ++ str ".sock").
    { rewrite elem_of_app. intros [Hx|Hx]; [done|]. revert Hx. apply (bool_decide_eq_true_1 _). reflexivity. }
    assert (Hb : 47 ∉ str "@" ++ concat (map hex2 (take 16 (sha256 nm))) ++ str ".sock").
    { rewrite !elem_of_app. intros [Hx|[Hx|Hx]].
      - revert Hx. apply (bool_decide_eq_true_1 _). reflexivity.
      - apply list_elem_of_In, in_concat in Hx as (l & Hl & Hx). apply list_elem_of_In, elem_of_map in Hl.
        destruct Hl as (b & -> & Hin). apply elem_of_take in Hin as (i & Hin & _). apply list_elem_of_lookup_2 in Hin.
        pose proof (sha256_bytes _ _ Hin) as Hb. destruct Hx as [E|[E|[]]]; revert E; apply hex_no_slash.
        + split; [apply Z.div_pos; lia|apply Z.div_lt_upper_bound; lia].
        + apply Z.mod_pos_bound. lia.
      - revert Hx. apply (bool_decide_eq_true_1 _). reflexivity. }
    repeat match goal with |- context [if ?x then _ else _] => destruct x end; done. }
  assert (Hs : file_name (socket_path_in sha256 reg root nm) = socket_filename sha256 reg root nm).
  { unfold socket_path_in. cbn [socket_filenames]. unfold socket_filenames.
    repeat match goal with |- context [if ?x then _ else _] => destruct x end; rewrite ?Hj; try done.
    destruct (List.find _ _) as [p|] eqn:Ef; [|apply Hj]. apply find_some in Ef as [Hin _].
    apply in_map_iff in Hin as (r & <- & _). apply Hj. }
  rewrite Hs. unfold socket_filename, socket_filenames.
  repeat match goal with |- context [if ?x then _ else _] => destruct x end; eauto.
Qed.

Lemma part_spec f : f ∈ part <-> f ∈ whole /\ f ∈ companions_of sha256 reg root nm.
Proof.
  unfold entries_of. rewrite !elem_of_sort_by, !elem_of_filterb. unfold candidates_of, keep_only.
  rewrite elem_of_filterb, observed_in. tauto.
Qed.
Lemma part_json : existsb (beq (json_name nm)) part = existsb (beq (json_name nm)) whole.
Proof. apply eq_true_iff_eq. rewrite !observed_in, part_spec. split; [tauto|]. split; [done|right; left]. Qed.
Lemma part_pid : existsb (beq (pid_name nm)) part = existsb (beq (pid_name nm)) whole.
Proof. apply eq_true_iff_eq. rewrite !observed_in, part_spec. split; [tauto|]. split; [done|right; right; left]. Qed.

Lemma companion_stem_cases f x : companion_stem f = Some x -> f = json_name x \/ f = pid_name x.
Proof.
  unfold companion_stem. destruct (strip_suffix (str ".json") f) as [y|] eqn:E.
  - intros [= ->]. left. apply strip_suffix_Some, E.
  - intros E2. right. apply strip_suffix_Some, E2.
Qed.
Lemma stem_part x : x ∈ omap companion_stem part -> x ∈ omap companion_stem whole.
Proof.
  rewrite !elem_of_omap. intros (f & Hf & E). apply part_spec in Hf as [Hf _]. eauto.
Qed.
Lemma stem_nm : nm ∈ omap companion_stem part <-> nm ∈ omap companion_stem whole.
Proof.
  split; [apply stem_part|]. rewrite !elem_of_omap. intros (f & Hf & E). exists f. split; [|done].
  apply part_spec. split; [done|]. apply companion_stem_cases in E as [-> | ->]; [right; left|right; right; left].
Qed.

Lemma socket_names_lookup (l : list bytes) (m0 : gmap bytes bytes) (f : bytes) :
  match foldl (fun m n => <[file n := n]> m) m0 l !! f with
  | Some x => (x ∈ l /\ file x = f) \/ (m0 !! f = Some x /\ forall y, y ∈ l -> file y <> f)
  | None => m0 !! f = None /\ forall y, y ∈ l -> file y <> f
  end.
Proof.
  revert m0. induction l as [|n l IH]; intros m0; cbn [foldl].
  { destruct (m0 !! f); [right|]; (split; [done|]); intros y Hy; inversion Hy. }
  specialize (IH (<[file n := n]> m0)). destruct (foldl _ _ l !! f) as [x|].
  - destruct IH as [[Hx Hf]|[Hm Hn]]; [left; split; [right|]; done|].
    rewrite lookup_insert_Some in Hm. destruct Hm as [[Hf ->]|[Hf Hm]]; [left; split; [left|]; done|].
    right. split; [done|]. intros y Hy. apply elem_of_cons in Hy. destruct Hy as [->|Hy]; auto.
  - destruct IH as [Hm Hn]. rewrite lookup_insert_None in Hm. destruct Hm as [Hm Hf]. split; [done|].
    intros y Hy. apply elem_of_cons in Hy. destruct Hy as [->|Hy]; auto.
Qed.

Lemma address_lookup (es : list bytes) :
  (forall x, x ∈ omap companion_stem es -> x ∈ omap companion_stem whole) ->
  socket_names sha256 reg root es !! file nm =
    if bool_decide (nm ∈ omap companion_stem es) then Some nm else None.
Proof.
  intros Hsub. unfold socket_names. pose proof (socket_names_lookup (omap companion_stem es) ∅ (file nm)) as Hl.
  destruct (foldl _ _ _ !! file nm) as [x|].
  - destruct Hl as [[Hx Hf]|[Hm _]]; [|rewrite lookup_empty in Hm; discriminate].
    pose proof (no_collision x (Hsub x Hx) Hf). subst x. rewrite bool_decide_eq_true_2 by done. done.
  - destruct Hl as [_ Hn]. rewrite bool_decide_eq_false_2; [done|]. intros Hin. apply (Hn nm Hin). done.
Qed.

Lemma socket_of_nm :
  socket_of sha256 reg root true part (file nm) = socket_of sha256 reg root true whole (file nm).
Proof.
  unfold socket_of, socket_entry. rewrite !address_lookup; [|done|apply stem_part].
  rewrite (bool_decide_ext _ _ stem_nm). done.
Qed.

Abbreviation ids_whole := (ids_of sha256 reg root true whole).
Abbreviation ids_part := (ids_of sha256 reg root true part).

Lemma socket_of_canonical es f x : fst (socket_of sha256 reg root true es f) = Some x -> file x = f.
Proof.
  unfold socket_of, socket_entry. destruct (strip_suffix (str ".sock") f) as [stem|]; [|discriminate].
  destruct (socket_names sha256 reg root es !! f) as [n|].
  - destruct (beq (file n) f) eqn:E; [|discriminate]. intros [= <-]. apply beq_eq, E.
  - destruct (starts_with _ stem); [discriminate|].
    destruct (beq (file stem) f) eqn:E; [|discriminate]. intros [= <-]. apply beq_eq, E.
Qed.
Lemma elem_of_ids es x :
  x ∈ ids_of sha256 reg root true es <-> exists f, f ∈ es /\ fst (socket_of sha256 reg root true es f) = Some x.
Proof.
  unfold ids_of. rewrite elem_of_btree_set, elem_of_omap. split.
  - intros (r & Hr & E). apply elem_of_map in Hr as (f & -> & Hf). eauto.
  - intros (f & Hf & E). eexists. split; [apply elem_of_map; exists f; done|done].
Qed.

(** The only socket looked at is this session's. *)
Lemma part_sockets f :
  f ∈ part -> socket_of sha256 reg root true part f = socket_of sha256 reg root true whole f.
Proof.
  intros Hf. apply part_spec in Hf as [_ Hf]. unfold companions_of in Hf. apply elem_of_cons in Hf.
  destruct Hf as [->|Hf]; [apply socket_of_nm|].
  assert (Hs : strip_suffix (str ".sock") f = None).
  { destruct (strip_suffix (str ".sock") f) as [x|] eqn:E; [|done]. apply strip_suffix_Some in E.
    apply elem_of_cons in Hf. destruct Hf as [Hf|Hf]; [|apply list_elem_of_singleton in Hf];
      rewrite Hf in E; apply (f_equal last) in E; unfold json_name, pid_name in E; rewrite !last_app in E; discriminate. }
  unfold socket_of, socket_entry. rewrite Hs. done.
Qed.
Lemma ids_part_only x : x ∈ ids_part -> x = nm.
Proof.
  rewrite elem_of_ids. intros (f & Hf & E). pose proof (socket_of_canonical _ _ _ E) as Hx.
  apply part_spec in Hf as [_ Hf]. unfold socket_of, socket_entry in E.
  destruct (strip_suffix (str ".sock") f) as [stem|] eqn:Es; [|discriminate]. apply strip_suffix_Some in Es.
  assert (Hfile : f = file nm).
  { unfold companions_of in Hf. apply elem_of_cons in Hf. destruct Hf as [->|Hf]; [done|].
    apply elem_of_cons in Hf. destruct Hf as [Hf|Hf]; [|apply list_elem_of_singleton in Hf];
      rewrite Hf in Es; apply (f_equal last) in Es; unfold json_name, pid_name in Es; rewrite !last_app in Es; discriminate. }
  rewrite Hfile in E, Es. rewrite address_lookup in E by apply stem_part.
  destruct (bool_decide _).
  - destruct (beq (file nm) (file nm)); [|discriminate]. injection E as <-. done.
  - destruct (starts_with (str "@") stem) eqn:Ea; [discriminate|].
    destruct (beq (file stem) (file nm)); [|discriminate]. injection E as <-.
    destruct sock_file_form as [Hform|[h Hform]]; rewrite Hform in Es.
    + apply app_inv_tail in Es. done.
    + rewrite app_assoc in Es. apply app_inv_tail in Es. rewrite <- Es in Ea. discriminate.
Qed.
Lemma ids_part_iff : nm ∈ ids_part <-> nm ∈ ids_whole.
Proof.
  rewrite !elem_of_ids. split.
  - intros (f & Hf & E). exists f. rewrite <- part_sockets by done. split; [|done]. apply part_spec in Hf. tauto.
  - intros (f & Hf & E). pose proof (socket_of_canonical _ _ _ E) as Hx.
    assert (Hp : f ∈ part) by (apply part_spec; split; [done|rewrite <- Hx; left]).
    exists f. rewrite part_sockets by done. done.
Qed.

Abbreviation names_whole := (names_of sha256 reg root true whole).
Abbreviation names_part := (names_of sha256 reg root true part).

Lemma record_stem_cases f x : record_stem true f = Some x -> f = json_name x \/ f = pid_name x.
Proof. apply companion_stem_cases. Qed.

Lemma elem_of_names es x :
  x ∈ names_of sha256 reg root true es <->
  x ∈ omap companion_stem es \/ x ∈ ids_of sha256 reg root true es.
Proof. unfold names_of. rewrite elem_of_btree_set, elem_of_app. done. Qed.

Lemma json_name_inj a b : json_name a = json_name b -> a = b.
Proof. apply app_inv_tail. Qed.
Lemma pid_name_inj a b : pid_name a = pid_name b -> a = b.
Proof. apply app_inv_tail. Qed.
Lemma json_pid a b : json_name a <> pid_name b.
Proof. intros E. apply (f_equal last) in E. unfold json_name, pid_name in E. rewrite !last_app in E. discriminate. Qed.

Lemma names_part_only x : x ∈ names_part -> x = nm.
Proof.
  rewrite elem_of_names. intros [Hx|Hx]; [|apply ids_part_only, Hx].
  apply elem_of_omap in Hx as (f & Hf & E). apply part_spec in Hf as [_ Hf].
  unfold companions_of in Hf. apply elem_of_cons in Hf. destruct Hf as [Hf|Hf].
  - exfalso. assert (Hs : exists y, f = y ++ str ".sock").
    { rewrite Hf. destruct sock_file_form as [-> |[h ->]]; [eauto|]. exists (str "@" ++ h). rewrite app_assoc. done. }
    destruct Hs as [y ->]. apply companion_stem_cases in E as [E|E]; apply (f_equal last) in E;
      unfold json_name, pid_name in E; rewrite !last_app in E; discriminate.
  - apply elem_of_cons in Hf. destruct Hf as [Hf|Hf]; [|apply list_elem_of_singleton in Hf]; subst f;
      apply companion_stem_cases in E as [E|E].
    + symmetry. apply json_name_inj, E.
    + destruct (json_pid _ _ E).
    + symmetry in E. destruct (json_pid _ _ E).
    + symmetry. apply pid_name_inj, E.
Qed.
Lemma names_part_iff : nm ∈ names_part <-> nm ∈ names_whole.
Proof. rewrite !elem_of_names, stem_nm, ids_part_iff. done. Qed.

(** The round for this session reads the same things in both scans. *)
Lemma scan_name_part full :
  scan_name sha256 json reg root cache_reads true full part ids_part None nm
  = scan_name sha256 json reg root cache_reads true full whole ids_whole None nm.
Proof.
  assert (Hi : existsb (beq nm) ids_part = existsb (beq nm) ids_whole).
  { apply eq_true_iff_eq. rewrite !observed_in. apply ids_part_iff. }
  unfold scan_name. rewrite part_json, part_pid, Hi. done.
Qed.

Lemma filter_seen strict full es ids (l : list bytes) :
  List.filter (fun s => beq (name s) nm) (omap (seen sha256 json reg root cache_reads strict full es ids) l)
  = omap (seen sha256 json reg root cache_reads strict full es ids) (List.filter (fun x => beq x nm) l).
Proof.
  induction l as [|x l IH]; cbn; [done|].
  destruct (seen sha256 json reg root cache_reads strict full es ids x) as [s|] eqn:E; cbn.
  - assert (name s = x) as -> by (eapply seen_name, E). destruct (beq x nm); cbn; rewrite ?E; f_equal; exact IH.
  - rewrite IH. destruct (beq x nm); cbn; rewrite ?E; done.
Qed.

Context (budget : Z) (probe : list bytes -> Z -> gmap bytes (Result unit IoError)).
(** Each socket answers the probe for itself. *)
Hypothesis probe_each : forall l l' p b, p ∈ l -> p ∈ l' -> probe l b !! p = probe l' b !! p.
Hypothesis dir_read : reg_dir reg = Ok dir.

Abbreviation observe := (observe_session_strict_in sha256 json reg root cache_reads budget probe nm).
Abbreviation inventory := (list_sessions_strict_in sha256 json reg root cache_reads budget probe).
Abbreviation errors_ only := (errors_of sha256 json reg root cache_reads budget probe true false only dir).

Lemma rounds_agree {B} (f : list bytes -> list bytes -> bytes -> B) (Hf : f part ids_part nm = f whole ids_whole nm) x :
  x ∈ names_part -> x ∈ names_whole /\ f part ids_part x = f whole ids_whole x.
Proof. intros Hx. pose proof (names_part_only x Hx). subst x. split; [apply names_part_iff, Hx|exact Hf]. Qed.

Lemma uncertain_part p :
  p ∈ concat (map (seen_uncertain sha256 json reg root cache_reads true false part ids_part) names_part) ->
  p ∈ concat (map (seen_uncertain sha256 json reg root cache_reads true false whole ids_whole) names_whole).
Proof.
  apply concat_map_sub. intros a Ha.
  destruct (rounds_agree (seen_uncertain sha256 json reg root cache_reads true false)) with (x := a) as [Hw He];
    [unfold seen_uncertain; rewrite scan_name_part; done|exact Ha|]. split; [exact Hw|]. rewrite He. done.
Qed.

Lemma errors_part e : e ∈ errors_ (Some nm) -> e ∈ errors_ None.
Proof.
  unfold errors_of. rewrite !elem_of_app. intros [He|[He|[He|[He|He]]]].
  - left. exact He.
  - right. left. revert He. apply concat_map_sub. intros a Ha. split; [|done].
    unfold candidates_of, keep_only in *. apply elem_of_filterb in Ha. apply Ha.
  - right. right. left. revert He. rewrite !map_map. apply concat_map_sub. intros a Ha.
    rewrite part_sockets by done. split; [|done]. apply part_spec in Ha. apply Ha.
  - right. right. right. left. revert He. apply concat_map_sub. intros a Ha.
    destruct (rounds_agree (seen_errors sha256 json reg root cache_reads true false)) with (x := a) as [Hw Hr];
      [unfold seen_errors; rewrite scan_name_part; done|exact Ha|]. split; [exact Hw|]. rewrite Hr. done.
  - right. right. right. right. revert He. apply concat_map_sub. intros a Ha.
    pose proof (uncertain_part a Ha) as Hw. split; [exact Hw|]. unfold probe_errors.
    rewrite (probe_each _ _ a budget Ha Hw). done.
Qed.

(** Observing one session is the whole scan, restricted to it.  The strict
    observation of one id gives exactly the entry, or the absence, that a strict
    scan of the whole root would give for that id, and reports no error that the
    whole scan would not report. *)
Theorem observe_is_restriction :
  entries observe = List.filter (fun s => beq (name s) nm) (entries inventory) /\
  forall e, e ∈ errors observe -> e ∈ errors inventory.
Proof.
  unfold observe_session_strict_in, list_sessions_strict_in.
  rewrite !(scan_parts sha256 json reg root cache_reads budget probe true _ false dir dir_read).
  cbn [entries errors]. split; [|apply errors_part].
  rewrite filter_seen, filter_one by apply NoDup_btree_set.
  rewrite (sole_element nm names_part); [|apply NoDup_btree_set|apply names_part_only].
  rewrite (bool_decide_ext _ _ names_part_iff). destruct (bool_decide _); [|done]. cbn.
  unfold seen. rewrite scan_name_part. done.
Qed.
End One.

(** ** References *)

Lemma named_unique sessions a b :
  NoDup (map name sessions) -> a ∈ sessions -> b ∈ sessions -> name a = name b -> a = b.
Proof.
  induction sessions as [|x l IH]; cbn; [intros _ Ha; inversion Ha|].
  intros [Hx Hl]%NoDup_cons Ha Hb E. apply elem_of_cons in Ha, Hb.
  destruct Ha as [->|Ha], Hb as [->|Hb]; [done| | |auto].
  - destruct Hx. apply elem_of_map. eauto.
  - destruct Hx. apply elem_of_map. eauto.
Qed.

(** A reference means one session or none.  An id is looked up first; only when no
    session has it does a display name count, and then only if exactly one session
    bears it.  A shared display name is refused with the ids it could mean; nothing is
    found only when neither an id nor a display name matches. *)
Theorem get_session_spec sessions reference :
  NoDup (map name sessions) ->
  match get_session sessions reference with
  | Ok (Some s) => s ∈ sessions /\
      (name s = reference \/
       (forall x, x ∈ sessions -> name x <> reference) /\ info_display_name s = Some reference /\
       forall x, x ∈ sessions -> info_display_name x = Some reference -> x = s)
  | Ok None => forall x, x ∈ sessions -> name x <> reference /\ info_display_name x <> Some reference
  | Err message => (forall x, x ∈ sessions -> name x <> reference) /\
      exists a b ids, a ∈ sessions /\ b ∈ sessions /\ name a <> name b /\
        info_display_name a = Some reference /\ info_display_name b = Some reference /\
        (forall id, id ∈ ids <-> exists x, x ∈ sessions /\ name x = id /\ info_display_name x = Some reference) /\
        message = ambiguous_reference_message reference ids
  end.
Proof.
  intros Hn. unfold get_session. destruct (List.find _ sessions) as [s|] eqn:Ef.
  { apply find_some in Ef as [Hin E]. apply list_elem_of_In in Hin. apply beq_eq in E. auto. }
  assert (Hno : forall x, x ∈ sessions -> name x <> reference).
  { intros x Hx E. apply list_elem_of_In in Hx. pose proof (find_none _ _ Ef x Hx) as E'. cbn in E'.
    rewrite E, beq_refl in E'. discriminate. }
  set (by_display := List.filter _ sessions).
  assert (Hby : forall x, x ∈ by_display <-> info_display_name x = Some reference /\ x ∈ sessions).
  { intros x. unfold by_display. rewrite elem_of_filterb, bool_decide_eq_true. done. }
  assert (Hnd : NoDup by_display).
  { apply filter_NoDup. clear -Hn. induction sessions as [|x l IH]; [constructor|]. cbn in Hn.
    apply NoDup_cons in Hn as [Hx Hn]. constructor; [|auto]. intros Hin. apply Hx. apply elem_of_map. eauto. }
  destruct by_display as [|a [|b l]].
  - intros x Hx. split; [apply Hno, Hx|]. intros E. assert (Hin : x ∈ []) by (apply Hby; done). inversion Hin.
  - destruct (proj1 (Hby a) ltac:(left)) as [Ha Hin]. split; [done|]. right. split; [done|]. split; [done|].
    intros x Hx E. assert (Hi : x ∈ [a]) by (apply Hby; done). apply list_elem_of_singleton in Hi. done.
  - split; [done|]. destruct (proj1 (Hby a) ltac:(left)) as [Ha Hina].
    destruct (proj1 (Hby b) ltac:(right; left)) as [Hb Hinb].
    exists a, b, (map name (a :: b :: l)). repeat (split; [done|]). split; [|split; [done|split; [done|split; [|done]]]].
    + intros E. pose proof (named_unique _ a b Hn Hina Hinb E). subst b.
      apply NoDup_cons in Hnd as [Hnot _]. apply Hnot. left.
    + intros id. rewrite elem_of_map. split.
      * intros (x & -> & Hx). apply Hby in Hx as [Hd Hx]. eauto.
      * intros (x & Hx & <- & Hd). exists x. split; [done|]. apply Hby. done.
Qed.

(** ** A registry with a running daemon, an ended one and a pid that was reused *)

Definition demo_text (b : bytes) : option (list (bytes * Value)) :=
  if beq b (str "live") then
    Some [(str "daemonPid", VNum (NInt 4242)); (str "daemonStartToken", VStr (str "linux:8811"));
          (str "daemonBootId", VStr (str "linux:boot-a")); (str "displayName", VStr (str "work"))]
  else if beq b (str "ended") then
    Some [(str "daemonPid", VNum (NInt 999)); (str "exitCode", VNum (NInt 0)); (str "displayName", VStr (str "work"))]
  else None.
Definition demo_files (p : bytes) : Result (bool * Result bytes IoError) IoError :=
  if beq p (str "/r/a.json") then Ok (true, Ok (str "live"))
  else if beq p (str "/r/b.json") then Ok (true, Ok (str "ended"))
  else if beq p (str "/r/a.pid") then Ok (true, Ok (str "4242"))
  else Err (mkIo true (Some 2)).
Definition demo_lstat (p : bytes) : Result bool IoError :=
  if beq p (str "/r/a.sock") then Ok true
  else match demo_files p with Ok _ => Ok false | Err e => Err e end.
Definition demo_registry : Registry :=
  mkRegistry (Ok (map EntryName [str "b.json"; str "a.sock"; str "a.pid"; str "x.tmp.1.2"; str "a.json"]))
    demo_files demo_lstat None None.
Definition demo_sha (_ : bytes) : bytes := replicate 32 7.
Definition demo_reads (_ : bytes) : Z * Result Opened IoError := (0, Err (mkIo false None)).
Definition demo_probe (_ : list bytes) (_ : Z) : gmap bytes (Result unit IoError) := ∅.
Definition demo_inventory : Inventory :=
  @list_sessions_strict_in demo_sha demo_text (demo_host "8811") demo_registry (str "/r") demo_reads 0 demo_probe.

Example demo_listed :
  map (fun s => (name s, info_status s, info_pid s)) (entries demo_inventory)
  = [(str "a", Running, Some 4242); (str "b", Exited, None)].
Proof. vm_compute. reflexivity. Qed.

Lemma scan_sorted_unique_witness : NoDup (map name (entries demo_inventory)).
Proof.
  apply (@scan_sorted_unique demo_sha demo_text (demo_host "8811") demo_registry (str "/r") demo_reads 0 demo_probe true None false).
Defined.

Lemma strict_inventory_complete_witness :
  inv_complete demo_inventory = true /\ exists dir, reg_dir demo_registry = Ok dir.
Proof.
  assert (E : inv_complete demo_inventory = true) by (vm_compute; reflexivity). split; [exact E|].
  destruct (@strict_inventory_complete demo_sha demo_text (demo_host "8811") _ demo_registry (str "/r") demo_reads
    0 demo_probe E) as (dir & Hd & _). exists dir. exact Hd.
Defined.

Lemma observe_is_restriction_witness :
  entries (@observe_session_strict_in demo_sha demo_text (demo_host "8811") demo_registry (str "/r") demo_reads
             0 demo_probe (str "a"))
  = List.filter (fun s => beq (name s) (str "a")) (entries demo_inventory).
Proof.
  apply (@observe_is_restriction demo_sha demo_text (demo_host "8811") demo_registry (str "/r") demo_reads (str "a")
    (map EntryName [str "b.json"; str "a.sock"; str "a.pid"; str "x.tmp.1.2"; str "a.json"])); try reflexivity.
  - intros x b. unfold demo_sha. intros [-> _]%elem_of_replicate. lia.
  - apply (bool_decide_eq_true_1 _). vm_compute. reflexivity.
  - apply (proj1 (Forall_forall (fun x => sock_file demo_sha demo_registry (str "/r") x =
      sock_file demo_sha demo_registry (str "/r") (str "a") -> x = str "a") _)).
    apply (bool_decide_eq_true_1 _). vm_compute. reflexivity.
Defined.

Lemma get_session_spec_witness :
  NoDup (map name (entries demo_inventory)) /\
  forall x, x ∈ entries demo_inventory -> name x <> str "work".
Proof.
  assert (Hn : NoDup (map name (entries demo_inventory))) by (apply (bool_decide_eq_true_1 _); vm_compute; reflexivity).
  split; [exact Hn|]. pose proof (get_session_spec (entries demo_inventory) (str "work") Hn) as Hs.
  destruct (get_session (entries demo_inventory) (str "work")) as [[s|]|m] eqn:E.
  - exfalso. revert E. vm_compute. discriminate.
  - exfalso. revert E. vm_compute. discriminate.
  - exact (proj1 Hs).
Defined.
