(* ===== verification/Keyed.v ===== *)
(** One session observed by its exact name: [crates/pty-core/src/registry/keyed.rs].  The
    companions are read twice below one opened root and bound to one live process; a
    change in between is uncertainty, never absence.

    The trait [KeyedAccess] is the record [Access]: every call takes the moment it is made
    at.  [os_access] is the implementation for Linux over the answers of the system. *)
From S2P Require Import Prelude Json Metadata Time Names Text ProcTable Identity MetadataCache Inventory.

Definition METADATA_LIMIT : Z := 1024 * 1024.
Definition PID_LIMIT : Z := 64.
Definition DEFAULT_ATTEMPTS : nat := 3.

Inductive KeyedSessionErrorKind : Type :=
  | KInvalidName | KRootUnreadable | KEntryUnreadable | KEntryUnsafe | KMetadataMalformed | KPidMalformed
  | KProcessIdentity | KSocketProbe | KChanged.
(** The text of the detail is left out. *)
Record KeyedSessionError : Type := mkKeyedError { k_kind : KeyedSessionErrorKind; k_path : option bytes }.
Inductive KeyedSession : Type := Found (i : SessionInfo) | Missing | Indeterminate (err : KeyedSessionError).
Definition retryable (err : KeyedSessionError) : bool :=
  match k_kind err with
  | KEntryUnreadable | KMetadataMalformed | KPidMalformed | KProcessIdentity | KSocketProbe | KChanged => true
  | KInvalidName | KRootUnreadable | KEntryUnsafe => false
  end.

Record Stamp : Type := mkStamp { s_device : Z; s_inode : Z; s_mode : Z; s_uid : Z; s_size : Z }.
#[export] Instance Stamp_eq : EqDecision Stamp.
Proof. solve_decision. Defined.
Record Companion : Type := mkCompanion { c_stamp : Stamp; c_bytes : bytes }.
#[export] Instance Companion_eq : EqDecision Companion.
Proof. solve_decision. Defined.
Record ProcessEvidence : Type := mkProcess { live_identity : bytes; is_leader : bool }.
#[export] Instance ProcessEvidence_eq : EqDecision ProcessEvidence.
Proof. solve_decision. Defined.
Record Capture : Type := mkCapture {
  cap_metadata : option Companion;
  cap_pid : option Companion;
  cap_readable : option Stamp;
  cap_bounded : option Stamp
}.
#[export] Instance Capture_eq : EqDecision Capture.
Proof. solve_decision. Defined.

Abbreviation Answered A := (Result A KeyedSessionError).
Record Access : Type := {
  open_root : nat -> Answered bool;
  read_companion : nat -> bytes -> Z -> Answered (option Companion);
  stat_socket : nat -> bytes -> Answered (option Stamp);
  address : nat -> bytes -> Answered bytes;
  process_at : nat -> Z -> Answered (option ProcessEvidence);
  boot_at : nat -> option bytes;
  matches : bytes -> bytes -> bool;
  probe_socket : nat -> bytes -> Stamp -> Answered bool
}.
(** A fallible program of accesses, by the moment it has come to. *)
Definition K (A : Type) : Type := nat -> Answered A * nat.
#[export] Instance K_ret : MRet K := fun A a n => (Ok a, n).
#[export] Instance K_bind : MBind K := fun A B f m n =>
  match m n with (Ok a, n') => f a n' | (Err err, n') => (Err err, n') end.
Definition access {A} (f : nat -> Answered A) : K A := fun n => (f n, S n).
Definition answer {A} (r : Answered A) : K A := fun n => (r, n).

(** ** Parsing what was captured *)

Section Parsing.
Context (json : bytes -> option (list (bytes * Value))).

Definition parse_metadata (c : option Companion) (path : bytes) : Answered (option SessionMetadata) :=
  match c with
  | None => Ok None
  | Some c =>
      match parse_with_payloads json (c_bytes c) true with
      | Some m => Ok (Some m)
      | None => Err (mkKeyedError KMetadataMalformed (Some path))
      end
  end.
Definition parse_pid (c : option Companion) (path : bytes) : Answered (option Z) :=
  match c with
  | None => Ok None
  | Some c =>
      match (let? text := from_utf8 (c_bytes c) in
             let content := trim is_trim_space text in
             if is_nonempty content && forallb is_ascii_digit content then
               let? pid := parse_i32 content in if 0 <? pid then Some pid else None
             else None) with
      | Some pid => Ok (Some pid)
      | None => Err (mkKeyedError KPidMalformed (Some path))
      end
  end.
End Parsing.

Section Keyed.
Context (sha256 : bytes -> bytes) (json : bytes -> option (list (bytes * Value))) (a : Access) (root : bytes).

(** ** One attempt *)

Definition capture (nm : bytes) : K Capture :=
  let '(readable, bounded) := socket_filenames sha256 nm in
  metadata ← access (fun n => read_companion a n (json_name nm) METADATA_LIMIT);
  pid ← access (fun n => read_companion a n (pid_name nm) PID_LIMIT);
  r ← access (fun n => stat_socket a n readable);
  b ← access (fun n => stat_socket a n bounded);
  mret (mkCapture metadata pid r b).
Definition selected_socket (nm : bytes) (c : Capture) : K bytes :=
  let '(readable, bounded) := socket_filenames sha256 nm in
  match cap_bounded c, cap_readable c with
  | Some _, _ => mret bounded
  | None, Some _ => mret readable
  | None, None =>
      path ← access (fun n => address a n readable);
      mret (if blen path <=? SUN_PATH_MAX then readable else bounded)
  end.
Definition no_socket (c : Capture) : bool := bool_decide (cap_readable c = None) && bool_decide (cap_bounded c = None).
Definition nothing_captured (c : Capture) : bool :=
  bool_decide (cap_metadata c = None) && bool_decide (cap_pid c = None) && no_socket c.

(** The registry's identity rule on a capture and one answer about its process. *)
Definition keyed_identity (metadata : option SessionMetadata) (pid : option Z) (process : option ProcessEvidence)
  (without_socket : bool) (boot : option bytes) (path : bytes) : Answered DaemonIdentityCheck :=
  match pid, process with
  | Some _, Some p =>
      if negb (is_leader p) then Ok Mismatch
      else
        match (let? m := metadata in let? t := exact_start_token m in Some (m, t)) with
        | None => Err (mkKeyedError KProcessIdentity (Some path))
        | Some (m, expected) =>
            if matches a (live_identity p) expected then Ok (check_boot_identity m boot)
            else Err (mkKeyedError KProcessIdentity (Some path))
        end
  | Some _, None => Ok Gone
  | None, _ => if bool_decide (is_Some metadata) && without_socket then Ok Gone else Ok Unknown
  end.
Definition has_ended (metadata : option SessionMetadata) : bool :=
  match metadata with Some m => Metadata.has_exited m || is_some (exit_code m) | None => false end.
(** Only a record that names no pid is probed. *)
Definition keyed_status (metadata : option SessionMetadata) (pid : option Z) (identity : DaemonIdentityCheck)
  (sock path : bytes) (expected : option Stamp) : K SessionStatus :=
  if has_ended metadata then mret Exited
  else match identity with
  | Match => mret Running
  | Mismatch | Gone => mret Vanished
  | Unknown =>
      match pid, expected with
      | Some _, _ => mret Running
      | None, None => answer (Err (mkKeyedError KChanged None))
      | None, Some expected =>
          alive ← access (fun n => probe_socket a n sock expected);
          if (alive : bool) then mret Running else answer (Err (mkKeyedError KChanged (Some path)))
      end
  end.
Definition ask_process (pid : option Z) : K (option ProcessEvidence) :=
  match pid with Some pid => access (fun n => process_at a n pid) | None => mret None end.
(** The second reading: nothing may have moved. *)
Definition confirm (nm : bytes) (first : Capture) (pid : option Z) (process : option ProcessEvidence) : K unit :=
  second ← capture nm;
  if bool_decide (first <> second) then answer (Err (mkKeyedError KChanged (Some root)))
  else
    again ← ask_process pid;
    if bool_decide (process <> again) then answer (Err (mkKeyedError KChanged None)) else mret tt.
Definition observed_pid (identity : DaemonIdentityCheck) (pid : option Z) : option Z :=
  match identity with Match | Unknown => pid | _ => None end.

(** A session some of whose artifacts are there. *)
Definition present (nm : bytes) (first : Capture) (sock path : bytes) : K SessionInfo :=
  let meta_path := path_join root (json_name nm) in
  let pid_path := path_join root (pid_name nm) in
  metadata ← answer (parse_metadata json (cap_metadata first) meta_path);
  sidecar ← answer (parse_pid (cap_pid first) pid_path);
  let recorded := metadata ≫= daemon_pid in
  if conflict sidecar recorded then answer (Err (mkKeyedError KProcessIdentity (Some pid_path)))
  else
    let pid := pid_or sidecar recorded in
    process ← ask_process pid;
    if bool_decide (metadata = None) && no_socket first then answer (Err (mkKeyedError KProcessIdentity (Some root)))
    else
      boot ← access (fun n => Ok (boot_at a n));
      identity ← answer (keyed_identity metadata pid process (no_socket first) boot meta_path);
      let expected := if beq sock (snd (socket_filenames sha256 nm)) then cap_bounded first else cap_readable first in
      status ← keyed_status metadata pid identity sock path expected;
      _ ← confirm nm first pid process;
      mret (mkInfo nm path (observed_pid identity pid) status identity metadata).
Definition attempt (nm : bytes) : K (option SessionInfo) :=
  first ← capture nm;
  sock ← selected_socket nm first;
  path ← access (fun n => address a n sock);
  if SUN_PATH_MAX <? blen path then answer (Err (mkKeyedError KInvalidName (Some path)))
  else if nothing_captured first then
    second ← capture nm;
    if bool_decide (first = second) then mret None else answer (Err (mkKeyedError KChanged (Some root)))
  else
    i ← present nm first sock path;
    mret (Some i).

(** ** The bounded retry *)

(** [left]: the attempts left, this one included. *)
Fixpoint observe_loop (left : nat) (nm : bytes) (n : nat) : KeyedSession * nat :=
  match left with
  | O => (Missing, n)
  | S rest =>
      match attempt nm n with
      | (Ok (Some i), n') => (Found i, n')
      | (Ok None, n') => (Missing, n')
      | (Err err, n') => if retryable err && (0 <? rest)%nat then observe_loop rest nm n' else (Indeterminate err, n')
      end
  end.
Definition observe_with (attempts : nat) (nm : bytes) (n : nat) : KeyedSession * nat :=
  match open_root a n with
  | Err err => (Indeterminate err, S n)
  | Ok false => (Missing, S n)
  | Ok true => observe_loop (Nat.max attempts 1) nm (S n)
  end.
Definition observe_session_in (attempts : nat) (nm : bytes) (n : nat) : KeyedSession * nat :=
  match validate_name_lexical nm with
  | Err _ => (Indeterminate (mkKeyedError KInvalidName None), n)
  | Ok _ => observe_with attempts nm n
  end.
End Keyed.

(** ** The implementation for Linux *)

Definition S_IFMT : Z := 61440.
Definition S_IFSOCK : Z := 49152.
Definition S_IFDIR : Z := 16384.
Definition S_IFREG : Z := 32768.
Definition file_type (s : Stamp) : Z := Z.land (s_mode s) S_IFMT.
Definition ELOOP : Z := 40.

(** What the system answers: opening the root and its [fstat]; the link of its
    descriptor; an entry below it opened without following, with its [fstat] and its
    bytes; [fstatat]; [stat] of a path; the two files of [/proc]; the boot id; the socket
    opened as a path, the probe's outcome, and its [fstat] after it. *)
Record Os : Type := {
  os_root : nat -> Result (option Stamp) IoError;
  os_link : nat -> option bytes;
  os_entry : nat -> bytes -> Result (option Stamp * option bytes) IoError;
  os_fstatat : nat -> bytes -> Result Stamp IoError;
  os_metadata : nat -> bytes -> option Stamp;
  os_stat : nat -> Z -> Result bytes ReadFailure;
  os_status : nat -> Z -> Result bytes IoError;
  os_boot : nat -> option bytes;
  os_leaf : nat -> bytes -> option (option Stamp);
  os_probe : nat -> option (Result unit IoError);
  os_leaf_after : nat -> option Stamp;
  os_sysconf : Z
}.
Record OpenRoot : Type := mkOpenRoot { or_path : bytes; or_pinned : bytes; or_device : Z; or_inode : Z; or_uid : Z }.

Section OsAccess.
Context (os : Os) (root : bytes).

Definition has_nul (name : bytes) : bool := existsb (Z.eqb 0) name.
Definition open_root_os (n : nat) : Answered (option OpenRoot) :=
  let refused := Err (mkKeyedError KRootUnreadable (Some root)) in
  if has_nul root then refused
  else match os_root os n with
  | Err err => if not_found err then Ok None else refused
  | Ok None => Err (mkKeyedError KEntryUnreadable (Some root))
  | Ok (Some stat) =>
      if negb (file_type stat =? S_IFDIR) then refused
      else match os_link os n with
           | Some pinned => Ok (Some (mkOpenRoot root pinned (s_device stat) (s_inode stat) (s_uid stat)))
           | None => refused
           end
  end.

Context (r : OpenRoot).
Definition read_companion_os (n : nat) (file : bytes) (limit : Z) : Answered (option Companion) :=
  let path := path_join (or_path r) file in
  let refused kind := Err (mkKeyedError kind (Some path)) in
  if has_nul file then refused KEntryUnreadable
  else match os_entry os n file with
  | Err err =>
      if not_found err then Ok None
      else refused (if bool_decide (raw_os_error err = Some ELOOP) then KEntryUnsafe else KEntryUnreadable)
  | Ok (None, _) => refused KEntryUnreadable
  | Ok (Some stat, content) =>
      if negb (file_type stat =? S_IFREG) || negb (s_uid stat =? or_uid r) then refused KEntryUnsafe
      else if (s_size stat <? 0) || (limit <? s_size stat) then refused KEntryUnsafe
      else match content with
           | None => refused KEntryUnreadable
           | Some b =>
               let b := take (Z.to_nat (limit + 1)) b in
               if limit <? blen b then refused KEntryUnsafe else Ok (Some (mkCompanion stat b))
           end
  end.
Definition stat_socket_os (n : nat) (file : bytes) : Answered (option Stamp) :=
  let path := path_join (or_path r) file in
  if has_nul file then Err (mkKeyedError KEntryUnreadable (Some path))
  else match os_fstatat os n file with
  | Err err => if not_found err then Ok None else Err (mkKeyedError KEntryUnreadable (Some path))
  | Ok stat =>
      if negb (file_type stat =? S_IFSOCK) || negb (s_uid stat =? or_uid r) then Err (mkKeyedError KEntryUnsafe (Some path))
      else Ok (Some stat)
  end.
Definition reporting_root (n : nat) : bytes :=
  match os_metadata os n (or_path r) with
  | Some m => if (s_device m =? or_device r) && (s_inode m =? or_inode r) && (file_type m =? S_IFDIR)
              then or_path r else or_pinned r
  | None => or_pinned r
  end.
Definition socket_path_os (n : nat) (file : bytes) : Answered bytes :=
  let configured := path_join (reporting_root n) file in
  if blen configured <=? SUN_PATH_MAX then Ok configured else Ok (path_join (or_pinned r) file).
Definition process_os (n : nat) (pid : Z) : Answered (option ProcessEvidence) :=
  let refused := Err (mkKeyedError KProcessIdentity None) in
  match ProcTable.process (os_sysconf os) (os_stat os n) pid with
  | Known row =>
      match ProcTable.identity row with
      | None => refused
      | Some identity =>
          match linux_thread_group (os_status os n pid) with
          | Ok (Some tgid) => Ok (Some (mkProcess identity (tgid =? pid)))
          | Ok None | Err _ => refused
          end
      end
  | NotPresent => Ok None
  | AnswerUnknown _ => refused
  end.
(** A refusal is never absence. *)
Definition probe_result (path : bytes) (outcome : option (Result unit IoError)) : Answered bool :=
  match outcome with
  | Some (Ok _) => Ok true
  | Some (Err err) =>
      if bool_decide (raw_os_error err = Some ENOENT) then Ok false else Err (mkKeyedError KSocketProbe (Some path))
  | None => Err (mkKeyedError KSocketProbe (Some path))
  end.
Definition open_socket_leaf (n : nat) (file : bytes) (expected : Stamp) : Answered unit :=
  let path := path_join (or_pinned r) file in
  if has_nul file then Err (mkKeyedError KSocketProbe (Some path))
  else match os_leaf os n file with
  | None => Err (mkKeyedError KChanged (Some path))
  | Some None => Err (mkKeyedError KEntryUnreadable (Some path))
  | Some (Some observed) => if bool_decide (observed = expected) then Ok tt else Err (mkKeyedError KChanged (Some path))
  end.
Definition probe_socket_os (n : nat) (file : bytes) (expected : Stamp) : Answered bool :=
  let path := path_join (or_pinned r) file in
  try _leaf := open_socket_leaf n file expected in
  match os_leaf_after os n with
  | None => Err (mkKeyedError KEntryUnreadable (Some path))
  | Some observed =>
      if bool_decide (observed = expected) then probe_result path (os_probe os n)
      else Err (mkKeyedError KChanged (Some path))
  end.
End OsAccess.

Definition os_access (os : Os) (root : bytes) (r : OpenRoot) : Access := {|
  open_root n := match open_root_os os root n with Ok (Some _) => Ok true | Ok None => Ok false | Err err => Err err end;
  read_companion := read_companion_os os r;
  stat_socket := stat_socket_os os r;
  address := socket_path_os os r;
  process_at := process_os os;
  boot_at := os_boot os;
  matches := matches_linux;
  probe_socket := probe_socket_os os r
|}.
(** The root opened once; the rest goes by what was opened. *)
Definition observe_os (sha256 : bytes -> bytes) (json : bytes -> option (list (bytes * Value))) (os : Os) (root : bytes)
  (attempts : nat) (nm : bytes) (n : nat) : KeyedSession * nat :=
  match validate_name_lexical nm with
  | Err _ => (Indeterminate (mkKeyedError KInvalidName None), n)
  | Ok _ =>
      match open_root_os os root n with
      | Err err => (Indeterminate err, S n)
      | Ok None => (Missing, S n)
      | Ok (Some r) => observe_loop sha256 json (os_access os root r) root (Nat.max attempts 1) nm (S n)
      end
  end.

(** ** What an answer proves *)

Lemma K_bind_ok {A B} (m : K A) (f : A -> K B) n b n' :
  (m ≫= f) n = (Ok b, n') -> exists a n1, m n = (Ok a, n1) /\ f a n1 = (Ok b, n').
Proof. unfold mbind, K_bind. destruct (m n) as [[a|err] n1]; [eauto|discriminate]. Qed.
Lemma K_access_ok {A} (f : nat -> Answered A) n b n' : access f n = (Ok b, n') -> f n = Ok b /\ n' = S n.
Proof. unfold access. intros [= H <-]. done. Qed.
Lemma K_answer_ok {A} (r : Answered A) n b n' : answer r n = (Ok b, n') -> r = Ok b /\ n' = n.
Proof. unfold answer. intros [= H <-]. done. Qed.
Lemma K_ret_ok {A} (x b : A) n n' : (mret x : K A) n = (Ok b, n') -> x = b /\ n' = n.
Proof. unfold mret, K_ret. intros [= H <-]. done. Qed.
Tactic Notation "run_ok" hyp(H) ident(x) ident(n) :=
  apply K_bind_ok in H; destruct H as (x & n & ? & H).
Ltac accessed :=
  repeat match goal with
  | H : access _ _ = (Ok _, _) |- _ => apply K_access_ok in H as [H ?]
  | H : answer _ _ = (Ok _, _) |- _ => apply K_answer_ok in H as [H ?]
  | H : @mret K _ _ _ _ = (Ok _, _) |- _ => apply K_ret_ok in H as [H ?]
  end.

Section Proven.
Context (sha256 : bytes -> bytes) (json : bytes -> option (list (bytes * Value))) (a : Access) (root : bytes).
Implicit Types (nm : bytes) (n : nat) (c : Capture) (i : SessionInfo).

Lemma capture_time nm n c n' : capture sha256 a nm n = (Ok c, n') -> n' = (n + 4)%nat.
Proof.
  unfold capture. destruct (socket_filenames sha256 nm) as [r b]. intros H.
  run_ok H x1 n1. run_ok H x2 n2. run_ok H x3 n3. run_ok H x4 n4. accessed. lia.
Qed.
(** Twice the same, the first time at [n], the second after it and before [n']. *)
Definition captured_twice nm n c n' : Prop :=
  fst (capture sha256 a nm n) = Ok c /\ exists n2, (n + 4 <= n2)%nat /\ (n2 + 4 <= n')%nat /\ fst (capture sha256 a nm n2) = Ok c.
(** The process of a pid, asked twice with one answer; without a pid there is none. *)
Definition process_twice (pid : option Z) (p : option ProcessEvidence) n n' : Prop :=
  match pid with
  | Some pid => exists n1 n2, (n <= n1)%nat /\ (n1 < n2)%nat /\ (n2 < n')%nat /\ process_at a n1 pid = Ok p /\ process_at a n2 pid = Ok p
  | None => p = None
  end.
Definition status_of nm c (m : option SessionMetadata) (pid : option Z) (identity : DaemonIdentityCheck) (status : SessionStatus) : Prop :=
  if has_ended m then status = Exited
  else match identity with
       | Match => status = Running
       | Mismatch | Gone => status = Vanished
       | Unknown => status = Running /\ (pid = None -> exists n sock stamp,
                      (cap_bounded c = Some stamp \/ cap_readable c = Some stamp) /\ probe_socket a n sock stamp = Ok true)
       end.
(** Everything a session found rests on. *)
Record proven nm i n n' c (sidecar : option Z) (process : option ProcessEvidence) : Prop := {
  pv_name : name i = nm;
  pv_captured : captured_twice nm n c n';
  pv_present : nothing_captured c = false;
  pv_metadata : parse_metadata json (cap_metadata c) (path_join root (json_name nm)) = Ok (info_metadata i);
  pv_sidecar : parse_pid (cap_pid c) (path_join root (pid_name nm)) = Ok sidecar;
  pv_agree : conflict sidecar (info_metadata i ≫= daemon_pid) = false;
  pv_process : process_twice (pid_or sidecar (info_metadata i ≫= daemon_pid)) process n n';
  pv_named : bool_decide (info_metadata i = None) && no_socket c = false;
  pv_identity : exists k, keyed_identity a (info_metadata i) (pid_or sidecar (info_metadata i ≫= daemon_pid)) process
    (no_socket c) (boot_at a k) (path_join root (json_name nm)) = Ok (info_identity i);
  pv_pid : info_pid i = observed_pid (info_identity i) (pid_or sidecar (info_metadata i ≫= daemon_pid));
  pv_status : status_of nm c (info_metadata i) (pid_or sidecar (info_metadata i ≫= daemon_pid)) (info_identity i) (info_status i)
}.

Lemma ask_process_ok pid n p n' :
  ask_process a pid n = (Ok p, n') -> (n <= n')%nat /\ match pid with Some x => n' = S n /\ process_at a n x = Ok p | None => p = None end.
Proof. destruct pid; cbn [ask_process]; intros H; accessed; [split; [lia|done]|split; [lia|congruence]]. Qed.
Lemma keyed_status_ok nm c m pid identity sock path expected n st n' :
  (forall stamp, expected = Some stamp -> cap_bounded c = Some stamp \/ cap_readable c = Some stamp) ->
  keyed_status a m pid identity sock path expected n = (Ok st, n') -> (n <= n')%nat /\ status_of nm c m pid identity st.
Proof.
  intros He. unfold keyed_status, status_of. destruct (has_ended m); [intros H; accessed; subst; split; [lia|done]|].
  destruct identity; try (intros H; accessed; subst; split; [lia|done]).
  destruct pid as [pid|]; [intros H; accessed; subst; split; [lia|done]|].
  destruct expected as [stamp|]; [|discriminate]. intros H. run_ok H alive n1. accessed.
  destruct alive; [|discriminate]. accessed. subst. split; [lia|]. split; [done|]. intros _. exists n, sock, stamp. split; [apply He; done|done].
Qed.
Lemma confirm_ok nm c pid p n n' :
  confirm sha256 a root nm c pid p n = (Ok tt, n') ->
  exists n1, capture sha256 a nm n = (Ok c, n1) /\ (n1 <= n')%nat /\
    match pid with Some x => n' = S n1 /\ process_at a n1 x = Ok p | None => p = None end.
Proof.
  unfold confirm. intros H. run_ok H c2 n1. destruct (bool_decide (c <> c2)) eqn:E; [discriminate|].
  apply bool_decide_eq_false_1, dec_stable in E. subst c2. run_ok H p2 n2.
  destruct (bool_decide (p <> p2)) eqn:F; [discriminate|]. apply bool_decide_eq_false_1, dec_stable in F. subst p2.
  accessed. subst. exists n1. split; [done|]. match goal with A : ask_process _ _ _ = _ |- _ => apply ask_process_ok in A as [A B] end.
  split; [lia|]. exact B.
Qed.
Lemma present_proven nm c sock path n0 n i n' :
  fst (capture sha256 a nm n0) = Ok c -> (n0 + 4 <= n)%nat -> nothing_captured c = false ->
  present sha256 json a root nm c sock path n = (Ok i, n') -> exists sidecar process, proven nm i n0 n' c sidecar process.
Proof.
  intros C Hn Hp H. unfold present in H. cbv zeta in H. run_ok H m n1. run_ok H sidecar n2. accessed. subst n1 n2.
  destruct (conflict sidecar _) eqn:Cf; [discriminate|]. run_ok H p n3.
  match goal with A : ask_process _ _ _ = _ |- _ => apply ask_process_ok in A as [A1 A2] end.
  destruct (bool_decide (m = None) && no_socket c) eqn:Nm; [discriminate|]. run_ok H boot n4. accessed. subst n4.
  run_ok H identity n5. accessed. subst n5. run_ok H st n6.
  match goal with A : keyed_status _ _ _ _ _ _ _ _ = _ |- _ => apply (keyed_status_ok nm c) in A as [A3 A4] end.
  2: { intros stamp. destruct (beq sock _); auto. }
  run_ok H u n7. destruct u. accessed. subst n7. match goal with A : confirm _ _ _ _ _ _ _ _ = _ |- _ => apply confirm_ok in A as (n8 & B1 & B2 & B3) end.
  pose proof (capture_time _ _ _ _ B1) as T. subst i. exists sidecar, p. cbn. split; cbn; try done.
  - split; [exact C|]. exists n6. rewrite B1. split; [lia|]. split; [lia|done].
  - unfold process_twice. destruct (pid_or sidecar (m ≫= daemon_pid)) as [x|]; [|done].
    destruct A2 as [-> A2], B3 as [B3 B4]. exists n, n8. split; [lia|]. split; [lia|]. split; [lia|]. done.
  - match goal with E : Ok _ = Ok boot |- _ => injection E as E; rewrite <- E in * end. eexists. eassumption.
Qed.
Lemma attempt_ok nm n r n' :
  attempt sha256 json a root nm n = (Ok r, n') ->
  match r with
  | Some i => exists c sidecar process, proven nm i n n' c sidecar process
  | None => exists c, nothing_captured c = true /\ captured_twice nm n c n'
  end.
Proof.
  unfold attempt. intros H. run_ok H c n1. match goal with A : capture _ _ _ _ = _ |- _ => rename A into C end.
  pose proof (capture_time _ _ _ _ C) as T. run_ok H sock n2.
  assert (T2 : (n1 <= n2)%nat).
  { match goal with A : selected_socket _ _ _ _ _ = _ |- _ => revert A end. unfold selected_socket. destruct (socket_filenames sha256 nm).
    destruct (cap_bounded c); [intros A; accessed; lia|]. destruct (cap_readable c); [intros A; accessed; lia|].
    intros A. run_ok A x n4. accessed. lia. }
  run_ok H path n3. accessed. destruct (_ <? _); [discriminate|]. destruct (nothing_captured c) eqn:N.
  - run_ok H c2 n4. destruct (bool_decide (c = c2)) eqn:E; [|discriminate]. apply bool_decide_eq_true_1 in E. subst c2. accessed. subst r n4 n3.
    match goal with A : capture _ _ _ (S n2) = _ |- _ => rename A into C2 end. pose proof (capture_time _ _ _ _ C2) as T3.
    exists c. split; [exact N|]. split; [rewrite C; done|]. exists (S n2). rewrite C2. split; [lia|]. split; [lia|done].
  - run_ok H i n4. accessed. subst r n4. match goal with A : present _ _ _ _ _ _ _ _ _ = _ |- _ => rename A into P end.
    exists c. eapply (present_proven nm c sock path n n3); [rewrite C; done|lia|exact N|exact P].
Qed.
(** Moments only go forward. *)
Definition forward {A} (m : K A) : Prop := forall n, (n <= snd (m n))%nat.
Lemma forward_bind {A B} (m : K A) (f : A -> K B) : forward m -> (forall x, forward (f x)) -> forward (m ≫= f).
Proof.
  intros Hm Hf n. unfold mbind, K_bind. specialize (Hm n). destruct (m n) as [[x|err] n1]; cbn [snd] in *; [|exact Hm].
  specialize (Hf x n1). lia.
Qed.
Lemma forward_access {A} (f : nat -> Answered A) : forward (access f).
Proof. intros n. cbn. lia. Qed.
Lemma forward_answer {A} (r : Answered A) : forward (answer r).
Proof. intros n. cbn. lia. Qed.
Lemma forward_ret {A} (x : A) : forward (mret x).
Proof. intros n. cbn. lia. Qed.
Ltac forwards :=
  repeat first [apply forward_access | apply forward_answer | apply forward_ret | apply forward_bind; [|intros ?]
               | match goal with |- forward (match ?x with _ => _ end) => destruct x end].
Lemma attempt_forward nm : forward (attempt sha256 json a root nm).
Proof.
  unfold attempt, capture, selected_socket, present, capture, keyed_status, confirm, ask_process. cbv zeta.
  destruct (socket_filenames sha256 nm). forwards.
Qed.

(** Found and missing are proofs: a session found was read twice with one result, below
    one root, and its process answered twice alike; a session is missing only without a
    root or when none of its four entries was there, twice. *)
Lemma observe_loop_proven left nm n :
  let n' := snd (observe_loop sha256 json a root left nm n) in
  match fst (observe_loop sha256 json a root left nm n) with
  | Found i => exists n1 c sidecar process, (n <= n1)%nat /\ proven nm i n1 n' c sidecar process
  | Missing => left = 0%nat \/ exists n1 n2 c, nothing_captured c = true /\ captured_twice nm n1 c n2
  | Indeterminate _ => True
  end.
Proof.
  cbv zeta. revert n. induction left as [|rest IH]; intros n; cbn [observe_loop]; [left; done|].
  pose proof (attempt_forward nm n) as F.
  destruct (attempt sha256 json a root nm n) as [[[i|]|err] n'] eqn:A; cbn [fst snd] in *.
  - apply attempt_ok in A as (c & sidecar & process & P). exists n, c, sidecar, process. split; [lia|exact P].
  - apply attempt_ok in A as (c & N & C). right. exists n, n', c. done.
  - destruct (retryable err && (0 <? rest)%nat) eqn:R; [|done]. specialize (IH n'). destruct (fst _); [| |done].
    + destruct IH as (n1 & c & sidecar & process & Hn & P). exists n1, c, sidecar, process. split; [lia|exact P].
    + destruct IH as [->|IH]; [rewrite andb_false_r in R; discriminate|right; exact IH].
Qed.
Theorem keyed_proven attempts nm n :
  match fst (observe_session_in sha256 json a root attempts nm n) with
  | Found i => exists n1 n2 c sidecar process, proven nm i n1 n2 c sidecar process
  | Missing => open_root a n = Ok false \/ exists n1 n2 c, nothing_captured c = true /\ captured_twice nm n1 c n2
  | Indeterminate _ => True
  end.
Proof.
  unfold observe_session_in. destruct (validate_name_lexical nm); [|done]. unfold observe_with.
  destruct (open_root a n) as [[|]|]; [|left; done|done]. pose proof (observe_loop_proven (Nat.max attempts 1) nm (S n)) as P.
  cbv zeta in P. destruct (fst _); [| |done].
  - destruct P as (n1 & c & sidecar & process & _ & P). eexists n1, _, c, sidecar, process. exact P.
  - destruct P as [P|P]; [lia|right; exact P].
Qed.
End Proven.

(** ** Against the listing *)

Section Agree.
Context (sha256 : bytes -> bytes) (json : bytes -> option (list (bytes * Value))) (root : bytes) (os : Os).

(** What the listing is told of the process of a pid, at one moment: the same two files. *)
Definition host_of (n : nat) : Host :=
  linux_host (fun pid => mkLinuxReads (os_status os n pid) (match os_stat os n pid with Ok t => Some t | Err _ => None end)
                           (os_status os n pid)) (os_boot os n).
(** [/proc]: a process without one file has not the other, a name is followed by a
    space, and the boot does not change. *)
Record ProcLaws : Prop := {
  proc_together : forall n pid, os_stat os n pid = Err ProcessGone ->
    exists err, os_status os n pid = Err err /\ process_status_is_gone err = true;
  proc_spaced : forall n pid t, os_stat os n pid = Ok t -> forall after, after_last 41 t = Some after -> exists rest, after = 32 :: rest;
  boot_constant : forall n k, os_boot os n = os_boot os k
}.
Context (L : ProcLaws).

Lemma split_whitespace_blank rest : split_whitespace (32 :: rest) = split_whitespace rest.
Proof. unfold split_whitespace. cbn [split_on]. replace (is_trim_space 32) with true by reflexivity. reflexivity. Qed.
(** Both readers of [/proc/<pid>/stat] name the same start. *)
Lemma same_token n pid t row :
  os_stat os n pid = Ok t -> parse_proc_stat (os_sysconf os) pid t = Some row ->
  ProcTable.identity row = read_linux_leader_start_token (Some t).
Proof.
  intros S P. unfold parse_proc_stat in P. unfold read_linux_leader_start_token. cbn [mbind option_bind].
  destruct (after_last 41 t) as [after|] eqn:A; [|discriminate]. cbn [mbind option_bind] in P |- *.
  destruct (proc_spaced L _ _ _ S _ A) as [rest ->]. rewrite split_whitespace_blank in P.
  destruct (split_whitespace rest !! 0%nat); [|discriminate]. cbn in P.
  destruct (split_whitespace rest !! 1%nat) as [t1|]; [|discriminate]. cbn in P. destruct (parse_i32 t1); [|discriminate]. cbn in P.
  destruct (split_whitespace rest !! 2%nat) as [t2|]; [|discriminate]. cbn in P. destruct (parse_i32 t2); [|discriminate]. cbn in P.
  destruct (split_whitespace rest !! 19%nat) as [start|] eqn:T; [|discriminate]. cbn in P. injection P as <-. cbn. rewrite T. reflexivity.
Qed.

(** Whether the leader of the pid has exited without being reaped. *)
Definition unreaped (n : nat) (pid : Z) : Prop :=
  match linux_leader_status (os_status os n pid) with Ok (_, exited) => exited = true | Err _ => False end.
Lemma keyed_identity_agrees r n k metadata sidecar process without_socket path identity :
  conflict sidecar (metadata ≫= daemon_pid) = false ->
  match pid_or sidecar (metadata ≫= daemon_pid) with
  | Some pid => process_os os n pid = Ok process /\ ~ unreaped n pid /\ (sidecar = Some pid -> 0 < pid)
  | None => process = None
  end ->
  keyed_identity (os_access os root r) metadata (pid_or sidecar (metadata ≫= daemon_pid)) process without_socket
    (os_boot os k) path = Ok identity ->
  @check_record_identity_in (host_of n) (bool_decide (sidecar = None)) without_socket sidecar metadata = identity.
Proof.
  intros Cf P K. unfold check_record_identity_in, check_record_identity. rewrite Cf.
  destruct (pid_or sidecar (metadata ≫= daemon_pid)) as [pid|] eqn:Pid.
  - destruct P as (P & Alive & Pos). 
    assert (U : bool_decide (sidecar = None) && match metadata with Some r => bool_decide (daemon_pid r = None) | None => false end
                && bool_decide (sidecar = None) && without_socket = false).
    { destruct sidecar; [done|]. cbn [pid_or] in Pid. destruct metadata as [m|]; [|discriminate]. cbn in Pid. rewrite Pid. done. }
    rewrite U. unfold process_os, ProcTable.process in P. unfold check_daemon_identity.
    destruct (pid <=? 0) eqn:Z0.
    { injection P as <-. cbn in K. injection K as <-. done. }
    unfold stat_answer in P. destruct (os_stat os n pid) as [t|[|]] eqn:S; [|..|discriminate].
    2: { injection P as <-. cbn in K. injection K as <-. destruct (proc_together L n pid S) as (err & E & G).
         cbn [leader host_of linux_host rd_status]. unfold linux_leader, linux_leader_status. rewrite E. cbn. rewrite G. done. }
    destruct (parse_proc_stat (os_sysconf os) pid t) as [row|] eqn:Row; [|discriminate].
    pose proof (same_token n pid t row S Row) as T. destruct (ProcTable.identity row) as [live|]; [|discriminate].
    unfold linux_thread_group in P. unfold unreaped in Alive. cbn [leader host_of linux_host rd_status]. unfold linux_leader.
    destruct (linux_leader_status (os_status os n pid)) as [[[tgid|] exited]|] eqn:St; cbn in P; try discriminate.
    injection P as <-. cbn [keyed_identity is_leader live_identity] in K. destruct (tgid =? pid); cbn [negb] in K |- *; [|injection K as <-; done].
    destruct exited; [destruct Alive; done|]. destruct metadata as [m|]; [|discriminate]. cbn in K.
    destruct (exact_start_token m) as [expected|] eqn:X; [|discriminate]. cbn in K. unfold matches_linux in K.
    destruct (beq live expected) eqn:B; [|discriminate]. injection K as <-. change (default SessionMetadata_default (Some m)) with m.
    unfold check_daemon_identity_evidence. rewrite Z0.
    assert (O : other_pid (daemon_pid m) pid = false).
    { unfold other_pid. destruct (daemon_pid m) as [q|] eqn:D; [|done]. destruct sidecar as [sc|]; cbn in Pid, Cf.
      - rewrite D in Cf. injection Pid as <-. rewrite Z.eqb_sym. exact Cf.
      - rewrite D in Pid. injection Pid as <-. rewrite Z.eqb_refl. done. }
    rewrite O. apply beq_eq in B. subst live. rewrite X. cbn [start_token host_of linux_host rd_stat boot_id]. rewrite S, <- T.
    assert (F : filled (Some expected) = Some expected).
    { cbn. destruct expected; [|done]. exfalso. revert T. unfold read_linux_leader_start_token. cbn. destruct (after_last 41 t) as [[|? ?]|]; try done.
      cbn. destruct (_ !! 19%nat); done. }
    rewrite F. rewrite beq_refl. cbn [negb]. rewrite (boot_constant L n k). done.
  - subst process. unfold keyed_identity in K. destruct sidecar; [discriminate|]. cbn [pid_or] in Pid.
    destruct metadata as [m|]; cbn in Pid, K |- *; [|injection K as <-; done]. rewrite Pid.
    destruct without_socket; cbn in K |- *; injection K as <-; done.
Qed.

Lemma parse_pid_absent c path sidecar : parse_pid c path = Ok sidecar -> bool_decide (sidecar = None) = bool_decide (c = None).
Proof.
  destruct c as [c|]; cbn; [|intros [= <-]; done]. intros H.
  match type of H with match ?x with Some _ => _ | None => _ end = _ => destruct x; [injection H as <-; done|discriminate] end.
Qed.
Lemma parse_pid_positive c path pid : parse_pid c path = Ok (Some pid) -> 0 < pid.
Proof.
  destruct c as [c|]; cbn [parse_pid]; [|discriminate]. destruct (from_utf8 (c_bytes c)); [|discriminate]. cbn [mbind option_bind].
  destruct (_ && _); [|discriminate]. destruct (parse_i32 _) as [p|]; [|discriminate]. cbn. destruct (Z.ltb_spec 0 p); [|discriminate].
  intros [= <-]. done.
Qed.
Lemma status_classified a nm c m pid identity status :
  status_of a nm c m pid identity status ->
  status = classify_status m (bool_decide (identity = Match) || bool_decide (identity = Unknown)).
Proof.
  unfold status_of, classify_status, has_ended. destruct m as [m|]; [destruct (_ || _); [done|]|]; destruct identity; cbn; tauto.
Qed.
(** The registry as a listing reads it shows the captured companions: their bytes, and
    whether the pid file and the socket are there. *)
Record same_companions (reg : Registry) nm (c : Capture) : Prop := {
  sc_record : forall x, cap_metadata c = Some x -> reg_open reg (path_join root (json_name nm)) = Ok (true, Ok (c_bytes x));
  sc_no_record : cap_metadata c = None -> exists err, reg_open reg (path_join root (json_name nm)) = Err err;
  sc_sidecar : forall x, cap_pid c = Some x -> reg_open reg (path_join root (pid_name nm)) = Ok (true, Ok (c_bytes x));
  sc_no_sidecar : cap_pid c = None -> exists err, reg_open reg (path_join root (pid_name nm)) = Err err;
  sc_pid_there : absent reg (path_join root (pid_name nm)) = bool_decide (cap_pid c = None);
  sc_socket_there : absent reg (sock_path sha256 reg root nm) = no_socket c
}.
Lemma listed_metadata reg nm c strict observed m :
  same_companions reg nm c -> parse_metadata json (cap_metadata c) (path_join root (json_name nm)) = Ok m ->
  fst (read_metadata json reg strict true (path_join root (json_name nm)) observed) = m.
Proof.
  intros [R NR _ _ _ _] P. unfold read_metadata, read_optional. destruct (cap_metadata c) as [x|]; cbn in P.
  - rewrite (R x eq_refl). cbn. rewrite andb_false_r. destruct (parse_with_payloads json (c_bytes x) true); [injection P as <-; done|discriminate].
  - injection P as <-. destruct (NR eq_refl) as [err ->]. cbn. done.
Qed.
Lemma listed_pid reg nm c strict observed sidecar :
  same_companions reg nm c -> parse_pid (cap_pid c) (path_join root (pid_name nm)) = Ok sidecar ->
  fst (scanner_pid reg strict (path_join root (pid_name nm)) observed) = sidecar.
Proof.
  intros [_ _ R NR _ _] P. unfold scanner_pid, read_optional. destruct (cap_pid c) as [x|]; cbn [parse_pid] in P.
  - rewrite (R x eq_refl). cbn [rbind negb]. rewrite andb_false_r. destruct (from_utf8 (c_bytes x)) as [text|]; cbn [mbind option_bind] in P; [|discriminate].
    cbn [fst]. set (content := trim is_trim_space text) in *.
    destruct (is_nonempty content && forallb is_ascii_digit content) eqn:D; [|discriminate]. apply andb_prop in D as [D1 D2].
    destruct (parse_i32 content) as [p|] eqn:E; cbn [mbind option_bind] in P; [|discriminate]. destruct (Z.ltb_spec 0 p); [|discriminate].
    injection P as <-. exact (parse_leading_digits content p D1 D2 E ltac:(assumption)).
  - injection P as <-. destruct (NR eq_refl) as [err ->]. cbn. done.
Qed.

(** C16: What the exact observation finds is what a listing reports.  It finds a session
    by one capture of its four companions, read at [n1] and read again alike before the
    answer at [n'], and one answer of its process, given twice in between.  A round of the
    listing's own loop for that name, over a registry that shows these same companions and at
    any moment the process answers like that, reports the same id, pid, status,
    identity and record; unless the daemon has exited and was not reaped yet. *)
Theorem keyed_agrees_with_list attempts nm n i n' :
  observe_os sha256 json os root attempts nm n = (Found i, n') ->
  exists r n1 c sidecar process,
    let pid := pid_or sidecar (info_metadata i ≫= daemon_pid) in
    open_root_os os root n = Ok (Some r) /\ (n < n1)%nat
    /\ captured_twice sha256 (os_access os root r) nm n1 c n'
    /\ parse_pid (cap_pid c) (path_join root (pid_name nm)) = Ok sidecar
    /\ process_twice (os_access os root r) pid process n1 n'
    /\ forall reg strict es ids reads k,
         same_companions reg nm c -> (no_socket c = false -> existsb (beq nm) ids = true) ->
         (forall x, pid = Some x -> process_os os k x = Ok process /\ ~ unreaped k x) ->
         exists j, @seen sha256 json (host_of k) reg root reads strict true es ids nm = Some j
           /\ name j = name i /\ info_pid j = info_pid i /\ info_status j = info_status i
           /\ info_identity j = info_identity i /\ info_metadata j = info_metadata i.
Proof.
  unfold observe_os. destruct (validate_name_lexical nm); [|discriminate].
  destruct (open_root_os os root n) as [[r|]|] eqn:Or; try discriminate.
  intros H. pose proof (observe_loop_proven sha256 json (os_access os root r) root (Nat.max attempts 1) nm (S n)) as P.
  cbv zeta in P. rewrite H in P. cbn [fst snd] in P.
  destruct P as (n1 & c & sidecar & process & Hn & [P1 P2 P3 P4 P5 P6 P7 P8 (k0 & P9) P10 P11]).
  exists r, n1, c, sidecar, process. cbv zeta. split; [done|]. split; [lia|]. split; [exact P2|]. split; [exact P5|].
  split; [exact P7|]. intros reg strict es ids reads k Same Ids Proc.
  assert (Idn : @check_record_identity_in (host_of k) (absent reg (path_join root (pid_name nm)))
                  (absent reg (sock_path sha256 reg root nm)) sidecar (info_metadata i) = info_identity i).
  { rewrite (sc_pid_there _ _ _ Same), (sc_socket_there _ _ _ Same), <- (parse_pid_absent _ _ _ P5).
    eapply keyed_identity_agrees; [exact P6| |exact P9]. destruct (pid_or sidecar _) as [x|] eqn:X; [|exact P7].
    destruct (Proc x eq_refl) as [A B]. split; [exact A|]. split; [exact B|]. intros ->. exact (parse_pid_positive _ _ _ P5). }
  pose proof (status_classified _ _ _ _ _ _ _ P11) as St.
  unfold seen, scan_name, scanner_metadata.
  pose proof (listed_metadata reg nm c strict (existsb (beq (json_name nm)) es) _ Same P4) as M.
  pose proof (listed_pid reg nm c strict (existsb (beq (pid_name nm)) es) _ Same P5) as Sd.
  destruct (read_metadata json reg strict true _ _) as [m e1]. destruct (scanner_pid reg strict _ _) as [sc e2].
  cbn [fst] in M, Sd. subst m sc.
  assert (There : negb (is_some (info_metadata i)) && negb (existsb (beq nm) ids) = false).
  { destruct (info_metadata i); [done|]. cbn in P8 |- *. rewrite (Ids P8). done. }
  rewrite <- andb_assoc, There, andb_false_r. cbn [fst]. eexists. split; [reflexivity|]. cbn [name info_pid info_status info_identity info_metadata].
  rewrite Idn. split; [congruence|]. split; [|split; [rewrite St; done|done]].
  rewrite P10. destruct (info_identity i); done.
Qed.
End Agree.

(** ** A daemon, alive and unreaped *)

Definition keyed_os (state : string) : Os := {|
  os_root := fun _ => Ok (Some (mkStamp 1 2 16832 1000 0)); os_link := fun _ => Some (str "/r");
  os_entry := fun _ f => if beq f (str "a.json") then Ok (Some (mkStamp 1 3 33152 1000 4), Some (str "live"))
                         else Err (mkIo true (Some 2));
  os_fstatat := fun _ f => if beq f (str "a.sock") then Ok (mkStamp 1 4 49600 1000 0) else Err (mkIo true (Some 2));
  os_metadata := fun _ _ => Some (mkStamp 1 2 16832 1000 0);
  os_stat := fun _ pid => if pid =? 4242 then Ok (str "4242 (pty) " ++ str state ++ str " 1 4242 4242 0 -1 4 0 0 0 0 0 0 0 0 20 0 1 0 8811 0 0")
                          else Err ProcessGone;
  os_status := fun _ pid => if pid =? 4242 then Ok (str "State:" ++ [9] ++ str state ++ [10] ++ str "Tgid:" ++ [9] ++ str "4242" ++ [10])
                            else Err (mkIo true (Some 2));
  os_boot := fun _ => Some (str "linux:boot-a");
  os_leaf := fun _ _ => None; os_probe := fun _ => None; os_leaf_after := fun _ => None; os_sysconf := 4096
|}.
Definition keyed_demo (state : string) : KeyedSession :=
  fst (observe_os demo_sha demo_text (keyed_os state) (str "/r") 3 (str "a") 0).
Definition verdict (s : KeyedSession) : option (SessionStatus * DaemonIdentityCheck) :=
  match s with Found i => Some (info_status i, info_identity i) | _ => None end.

Example keyed_alive : verdict (keyed_demo "S") = Some (Running, Match).
Proof. vm_compute. reflexivity. Qed.
(** Killed and not reaped, the daemon still counts as running here; a listing says it is
    gone. *)
Example keyed_unreaped :
  verdict (keyed_demo "Z") = Some (Running, Match)
  /\ match demo_text (str "live") with
     | Some fields => @check_record_identity_in (host_of (keyed_os "Z") 0) true false None (from_map (last_fields fields)) = Gone
     | None => False
     end.
Proof. vm_compute. auto. Qed.
Lemma demo_proc : ProcLaws (keyed_os "S").
Proof.
  split; [| |done].
  - intros n pid. cbn. destruct (pid =? 4242); [discriminate|]. intros _. eexists. done.
  - intros n pid t. cbn. destruct (pid =? 4242); [|discriminate]. intros [= <-] after A. vm_compute in A. injection A as <-. eexists. reflexivity.
Qed.
(** The same files, as a listing of the root reads them. *)
Definition keyed_registry : Registry := {|
  reg_dir := Ok [EntryName (str "a.json"); EntryName (str "a.sock")];
  reg_open := fun p => if beq p (str "/r/a.json") then Ok (true, Ok (str "live")) else Err (mkIo true (Some 2));
  reg_lstat := fun p => if beq p (str "/r/a.json") then Ok false else if beq p (str "/r/a.sock") then Ok true else Err (mkIo true (Some 2));
  reg_link := None; reg_canonical := None
|}.
Definition listing_round (k : nat) : option SessionInfo :=
  @seen demo_sha demo_text (host_of (keyed_os "S") k) keyed_registry (str "/r") (fun _ => (0, Err (mkIo true (Some 2)))) false true
    [str "a.json"; str "a.sock"] [str "a"] (str "a").
Lemma keyed_agrees_with_list_witness :
  exists i j, keyed_demo "S" = Found i /\ listing_round 0 = Some j
    /\ info_pid j = info_pid i /\ info_status j = info_status i /\ info_identity j = info_identity i.
Proof.
  destruct (observe_os demo_sha demo_text (keyed_os "S") (str "/r") 3 (str "a") 0) as [[i| |] n'] eqn:E; [|vm_compute in E; discriminate..].
  destruct (keyed_agrees_with_list demo_sha demo_text (str "/r") (keyed_os "S") demo_proc 3 (str "a") 0 i n' E)
    as (r & n1 & c & sidecar & process & Or & _ & (C & _) & Sd & Tw & H). cbv zeta in *.
  assert (Er : r = mkOpenRoot (str "/r") (str "/r") 1 2 1000) by (vm_compute in Or; injection Or as <-; reflexivity). subst r.
  assert (Ec : c = mkCapture (Some (mkCompanion (mkStamp 1 3 33152 1000 4) (str "live"))) None (Some (mkStamp 1 4 49600 1000 0)) None)
    by (vm_compute in C; injection C as <-; reflexivity). subst c. injection Sd as <-.
  assert (Ep : forall x, pid_or None (info_metadata i ≫= daemon_pid) = Some x -> process_os (keyed_os "S") 0 x = Ok process).
  { intros x Hx. rewrite Hx in Tw. destruct Tw as (n2 & n3 & _ & _ & _ & P & _). exact P. }
  destruct (H keyed_registry false [str "a.json"; str "a.sock"] [str "a"] (fun _ => (0, Err (mkIo true (Some 2)))) 0%nat)
    as (j & J & _ & J1 & J2 & J3 & _).
  - split.
    + intros x [= <-]. vm_compute. reflexivity.
    + intros [=].
    + intros x [=].
    + intros _. exists (mkIo true (Some 2)). vm_compute. reflexivity.
    + vm_compute. reflexivity.
    + vm_compute. reflexivity.
  - done.
  - intros x Hx. split; [exact (Ep x Hx)|]. unfold unreaped. cbn [os_status keyed_os]. destruct (x =? 4242); [|exact id].
    vm_compute. discriminate.
  - exists i, j. unfold keyed_demo. rewrite E. split; [reflexivity|]. split; [exact J|]. auto.
Defined.
