(* ===== verification/Flapping.v ===== *)
(** The decisions of garbage collection that read only a record:
    [classify_flapping], [classify_abandoned] and the parsers of
    [crates/pty-lifecycle/src/gc.rs].  A permanent session is respawned until it
    fails fast too often, and given up on when its directory is gone or nobody
    attached for long. *)
From S2P Require Import Prelude Json Metadata Time Names Text Identity MetadataCache Inventory.

Abbreviation TagMap := (IndexMap bytes).

Definition is_permanent (m : SessionMetadata) : bool :=
  obeq (tag_of (str "strategy") (tags m)) (Some (str "permanent")).

(** [js_parse_int]: as [parseInt], within an [i64]. *)
Definition js_parse_int (s : bytes) : option Z :=
  let s := trim_start is_trim_space s in
  let '(neg, rest) :=
    match strip_prefix [45] s with
    | Some rest => (true, rest)
    | None => (false, match strip_prefix [43] s with Some rest => rest | None => s end)
    end in
  match fst (span is_ascii_digit rest) with
  | [] => None
  | ds => let? value := parse_unsigned I64_MAX ds in Some (if (neg : bool) then - value else value)
  end.

Definition positive (o : option Z) : option Z := let? v := o in if 0 <? v then Some v else None.
Definition or_else (a b : option Z) : option Z := match a with Some _ => a | None => b end.
Definition saturating_mul (a b : Z) : Z := Z.max I64_MIN (Z.min I64_MAX (a * b)).
Definition saturating_add (a b : Z) : Z := Z.max I64_MIN (Z.min I64_MAX (a + b)).

(** ** Abandonment *)

Definition MAX_CWD_PROBES : Z := 8.
(** [cwd_is_gone_with]: [spawned] is whether the probe's thread could start, [answer]
    what it sent within the timeout.  The count of probes falls when one ends. *)
Definition cwd_is_gone_with (active : Z) (spawned : bool) (answer : option bool) : bool * Z :=
  if negb (active <? MAX_CWD_PROBES) then (false, active)
  else if negb spawned then (false, active)
  else (match answer with Some gone => gone | None => false end, active + 1).

Inductive AbandonReason : Type := CwdGone | Idle.
Record AbandonDecision : Type := mkAbandon { ab_reason : AbandonReason; ab_idle_days : option Z }.

(** [cwd_gone] is the probe's answer for the record's directory. *)
Definition classify_abandoned (cwd_gone : bool) (m : SessionMetadata) (global_idle_days : option Z)
  (now_ms : Z) : option AbandonDecision :=
  let cwd_opted_out := obeq (tag_of (str "strategy.abandon-if-cwd-gone") (tags m)) (Some (str "false")) in
  if is_nonempty (cwd m) && negb cwd_opted_out && cwd_gone then Some (mkAbandon CwdGone None)
  else
    let tagged := positive (tag_of (str "strategy.idle-days") (tags m) ≫= js_parse_int) in
    let? effective := or_else tagged (positive global_idle_days) in
    let? last_attach := last_attach_at m ≫= parse_iso8601_ms in
    let age_days := (now_ms - last_attach) / 86400000 in
    if effective <=? age_days then Some (mkAbandon Idle (Some age_days)) else None.

(** ** Flapping *)

Definition DEFAULT_FAST_FAIL_WINDOW : Z := 60.
Definition DEFAULT_FAST_FAIL_LIMIT : Z := 3.

Inductive FlappingAction : Type := Respawn | Flap | Skip.
#[export] Instance FlappingAction_eq_dec : EqDecision FlappingAction.
Proof. solve_decision. Defined.

Record FlappingDecision : Type := mkFlapping {
  fl_action : FlappingAction;
  effective_window : Z;
  effective_limit : Z;
  fl_counter : Z;
  bookkeeping : TagMap
}.

(** The command and its arguments, a zero byte after the command and between
    arguments, hashed. *)
Fixpoint join_args (args : list bytes) : bytes :=
  match args with
  | [] => []
  | [a] => a
  | a :: rest => a ++ 0 :: join_args rest
  end.
Definition command_fingerprint (sha256 : bytes -> bytes) (command : bytes) (args : list bytes) : bytes :=
  take 16 (concat (map hex2 (sha256 (command ++ 0 :: join_args args)))).

Definition WINDOW_TAG : bytes := str "strategy.fast-fail-window".
Definition LIMIT_TAG : bytes := str "strategy.fast-fail-limit".
Definition STATUS_TAG : bytes := str "strategy.status".
Definition HASH_TAG : bytes := str "strategy.command-hash".
Definition FAILS_TAG : bytes := str "strategy.consecutive-fast-fails".
Definition LAST_TAG : bytes := str "strategy.last-respawn-at".
Definition FLAPPING : bytes := str "flapping".

Definition insert_tags (more : TagMap) (tags : TagMap) : TagMap :=
  foldl (fun m kv => minsert (fst kv) (snd kv) m) tags more.

Definition positive_tag (m : SessionMetadata) (key : bytes) : option Z :=
  positive (tag_of key (tags m) ≫= js_parse_int).
(** A run that ended within the window of its start. *)
Definition was_fast (m : SessionMetadata) (window : Z) : bool :=
  match tag_of LAST_TAG (tags m) ≫= parse_iso8601_ms, exited_at m ≫= parse_iso8601_ms with
  | Some start, Some end_ =>
      let live_ms := end_ - start in (0 <=? live_ms) && (live_ms <? saturating_mul window 1000)
  | _, _ => false
  end.

Definition classify_flapping (sha256 : bytes -> bytes) (m : SessionMetadata) (command : bytes)
  (args : list bytes) (now_ms : Z) (global_window global_limit : option Z) : FlappingDecision :=
  let window := default DEFAULT_FAST_FAIL_WINDOW
                  (or_else (positive_tag m WINDOW_TAG) (positive global_window)) in
  let limit := default DEFAULT_FAST_FAIL_LIMIT
                 (or_else (positive_tag m LIMIT_TAG) (positive global_limit)) in
  let current_hash := command_fingerprint sha256 command args in
  let command_changed := match tag_of HASH_TAG (tags m) with
                         | Some h => negb (beq h current_hash)
                         | None => false
                         end in
  let previous_counter := default 0 (tag_of FAILS_TAG (tags m) ≫= js_parse_int) in
  if obeq (tag_of STATUS_TAG (tags m)) (Some FLAPPING) && negb command_changed
  then mkFlapping Skip window limit previous_counter []
  else
    let counter := if command_changed then 0
                   else if was_fast m window then saturating_add previous_counter 1
                   else 0 in
    if limit <=? counter then
      let kept := [(STATUS_TAG, FLAPPING); (FAILS_TAG, dec counter); (HASH_TAG, current_hash)] in
      mkFlapping Flap window limit counter
        (insert_tags (kept ++ match tag_of LAST_TAG (tags m) with
                              | Some last => [(LAST_TAG, last)]
                              | None => []
                              end) [])
    else
      mkFlapping Respawn window limit counter
        (insert_tags [(LAST_TAG, iso8601_from_epoch_ms now_ms); (FAILS_TAG, dec counter);
                      (HASH_TAG, current_hash)] []).

(** ** Names of temporary files and layout tags *)

(** [rsplit_once(".tmp.")]. *)
Fixpoint rsplit_once (needle s : bytes) : option (bytes * bytes) :=
  match s with
  | [] => match needle with [] => Some ([], []) | _ => None end
  | c :: s' =>
      match rsplit_once needle s' with
      | Some (a, b) => Some (c :: a, b)
      | None => match strip_prefix needle s with Some b => Some ([], b) | None => None end
      end
  end.
Definition is_lower_hex (b : Z) : bool := is_ascii_digit b || in_range 97 102 b.
Definition atomic_temp_pid (filename : bytes) : option Z :=
  let? cut := rsplit_once (str ".tmp.") filename in
  let? rest := split_once 46 (snd cut) in
  let '(pid, random) := rest in
  let leading := match pid with c :: _ => is_ascii_digit c && negb (c =? 48) | [] => false end in
  if negb leading || negb (forallb is_ascii_digit pid)
     || negb (length random =? 16)%nat || negb (forallb is_lower_hex random)
  then None else parse_i32 pid.

(** [Some None]: the shape is there, its number is not an [i64]. *)
Definition orphan_layout_tag_pid (key : bytes) : option (option Z) :=
  let? rest := strip_prefix (str ":l") key in
  let '(digits, after) := span is_ascii_digit rest in
  if negb (is_nonempty digits) then None
  else
    let? tail := strip_prefix [45] after in
    if negb (is_nonempty tail) || negb (forallb (fun b => is_ascii_lowercase b || is_ascii_digit b) tail)
    then None
    else Some (parse_unsigned I64_MAX digits).

(** ** A session that keeps crashing *)

Section Streak.
Context (sha256 : bytes -> bytes) (command : bytes) (args : list bytes)
        (global_window global_limit : option Z).

Abbreviation classify m now := (classify_flapping sha256 m command args now global_window global_limit).
Abbreviation hash := (command_fingerprint sha256 command args).

(** What a gc pass leaves of the record's tags and exit, by its decision: a respawn
    drops the status, adds the bookkeeping and starts a run that has not ended; giving up adds
    the bookkeeping; skipping leaves all as it is. *)
Definition reconciled (m : SessionMetadata) (now : Z) : FlappingAction * SessionMetadata :=
  let d := classify m now in
  let current := default [] (tags m) in
  (fl_action d,
   match fl_action d with
   | Skip => m
   | Flap => set_tags (Some (insert_tags (bookkeeping d) current)) m
   | Respawn => set_exited_at None (set_tags (Some (insert_tags (bookkeeping d) (shift_remove STATUS_TAG current))) m)
   end).

(** One gc pass per entry, at its first time; a respawned session ends at the second. *)
Fixpoint crash_loop (m : SessionMetadata) (passes : list (Z * Z)) : list FlappingAction :=
  match passes with
  | [] => []
  | (now, ended) :: rest =>
      let '(a, m) := reconciled m now in
      a :: crash_loop (if bool_decide (a = Respawn) then set_exited_at (Some (iso8601_from_epoch_ms ended)) m else m)
             rest
  end.

Lemma parse_digits ds : is_nonempty ds = true -> forallb is_ascii_digit ds = true ->
  js_parse_int ds = parse_unsigned I64_MAX ds.
Proof.
  destruct ds as [|d ds]; [discriminate|]. intros _ Hall. pose proof Hall as Hd.
  cbn [forallb] in Hd. apply andb_prop in Hd as [Hd _].
  assert (Hs : span is_ascii_digit (d :: ds) = (d :: ds, [])).
  { rewrite <- (app_nil_r (d :: ds)) at 1. apply span_all; [done|discriminate]. }
  assert (Ht : trim_start is_trim_space (d :: ds) = d :: ds /\ strip_prefix [45] (d :: ds) = None
               /\ strip_prefix [43] (d :: ds) = None).
  { destruct (digit_cases d Hd) as [->|[->|[->|[->|[->|[->|[->|[->|[->| ->]]]]]]]]]; done. }
  destruct Ht as (Ht & H45 & H43). unfold js_parse_int. rewrite Ht, H45, H43, Hs. cbn [fst].
  destruct (parse_unsigned I64_MAX (d :: ds)); done.
Qed.

Lemma js_parse_dec n : 0 <= n <= I64_MAX -> js_parse_int (dec n) = Some n.
Proof.
  intros Hn. assert (Hneg : (n <? 0) = false) by lia.
  rewrite <- (parse_unsigned_dec I64_MAX n) by done. unfold dec. rewrite Hneg. apply parse_digits.
  - destruct (dec_nat_cons n) as (d & l & ->). done.
  - apply dec_nat_digits.
Qed.

Lemma tag_of_insert k k' v t : tag_of k (Some (minsert k' v t)) = if beq k k' then Some v else tag_of k (Some t).
Proof. cbn. apply mget_minsert. Qed.
Lemma tag_of_removed k k' t : k <> k' -> tag_of k (Some (shift_remove k' t)) = tag_of k (Some t).
Proof. intros Hk. cbn. apply mget_shift_remove_ne, Hk. Qed.
Lemma tag_of_default k o : tag_of k (Some (default [] o)) = tag_of k o.
Proof. destruct o; done. Qed.

(** The tags after the respawn number [k] of a streak, at time [t]. *)
Record streak (limit window : Z) (m : SessionMetadata) (k t : Z) : Prop := {
  st_limit : default DEFAULT_FAST_FAIL_LIMIT (or_else (positive_tag m LIMIT_TAG) (positive global_limit)) = limit;
  st_window : default DEFAULT_FAST_FAIL_WINDOW (or_else (positive_tag m WINDOW_TAG) (positive global_window)) = window;
  st_status : tag_of STATUS_TAG (tags m) = None;
  st_hash : tag_of HASH_TAG (tags m) = Some hash;
  st_fails : tag_of FAILS_TAG (tags m) = Some (dec k);
  st_last : tag_of LAST_TAG (tags m) = Some (iso8601_from_epoch_ms t)
}.

(** What a respawn writes. *)
Lemma respawn_tags m k now : fl_action (classify m now) = Respawn -> fl_counter (classify m now) = k ->
  bookkeeping (classify m now) = insert_tags [(LAST_TAG, iso8601_from_epoch_ms now); (FAILS_TAG, dec k);
                      (HASH_TAG, hash)] [].
Proof.
  unfold classify_flapping. destruct (obeq _ _ && _); [discriminate|].
  match goal with |- context [?l <=? ?c] => destruct (l <=? c) end; [discriminate|]. cbn. intros _ <-. done.
Qed.

Lemma limit_positive m : 0 < default DEFAULT_FAST_FAIL_LIMIT (or_else (positive_tag m LIMIT_TAG) (positive global_limit)).
Proof.
  unfold positive_tag, positive, or_else, DEFAULT_FAST_FAIL_LIMIT.
  destruct (tag_of _ _ ≫= js_parse_int) as [v|]; cbn.
  - destruct (0 <? v) eqn:E; cbn; [lia|]. destruct global_limit as [g|]; cbn; [|lia].
    destruct (0 <? g) eqn:E'; cbn; lia.
  - destruct global_limit as [g|]; cbn; [|lia]. destruct (0 <? g) eqn:E'; cbn; lia.
Qed.

Lemma keys_differ (a b : bytes) : bool_decide (a = b) = false -> a <> b.
Proof. apply bool_decide_eq_false_1. Qed.

Lemma reconciled_respawn m now k :
  NoDup (mkeys (default [] (tags m))) ->
  fl_action (classify m now) = Respawn -> fl_counter (classify m now) = k ->
  let m' := snd (reconciled m now) in
  streak (effective_limit (classify m now)) (effective_window (classify m now)) m' k now /\
  NoDup (mkeys (default [] (tags m'))).
Proof.
  intros Hd Ha Hk. unfold reconciled. rewrite Ha, (respawn_tags m k now Ha Hk). cbn [snd].
  assert (El : effective_limit (classify m now) =
    default DEFAULT_FAST_FAIL_LIMIT (or_else (positive_tag m LIMIT_TAG) (positive global_limit)) /\
    effective_window (classify m now) =
    default DEFAULT_FAST_FAIL_WINDOW (or_else (positive_tag m WINDOW_TAG) (positive global_window))).
  { unfold classify_flapping. destruct (obeq _ _ && _); [done|].
    match goal with |- context [?l <=? ?c] => destruct (l <=? c) end; done. }
  destruct El as [-> ->]. set (old := default [] (tags m)) in *.
  set (new := insert_tags _ _). assert (Hnew : new =
    minsert HASH_TAG hash (minsert FAILS_TAG (dec k) (minsert LAST_TAG (iso8601_from_epoch_ms now)
      (shift_remove STATUS_TAG old)))) by done.
  change (tags (set_exited_at None (set_tags (Some new) m))) with (Some new). split.
  - assert (Hother : forall key, key <> HASH_TAG -> key <> FAILS_TAG -> key <> LAST_TAG -> key <> STATUS_TAG ->
      positive_tag (set_exited_at None (set_tags (Some new) m)) key = positive_tag m key).
    { intros key H1 H2 H3 H4. unfold positive_tag.
      change (tags (set_exited_at None (set_tags (Some new) m))) with (Some new). rewrite Hnew, !tag_of_insert.
      rewrite !(proj2 (beq_neq _ _)) by done. rewrite tag_of_removed by done. unfold old. rewrite tag_of_default. done. }
    constructor; try (rewrite Hother by (apply keys_differ; vm_compute; reflexivity); done);
      change (tags (set_exited_at None (set_tags (Some new) m))) with (Some new); rewrite Hnew, !tag_of_insert.
    + rewrite !(proj2 (beq_neq _ _)) by (apply keys_differ; vm_compute; reflexivity).
      cbn. apply mget_shift_remove_eq, Hd.
    + rewrite beq_refl. done.
    + rewrite beq_refl, (proj2 (beq_neq _ _)) by (apply keys_differ; vm_compute; reflexivity). done.
    + rewrite beq_refl, !(proj2 (beq_neq _ _)) by (apply keys_differ; vm_compute; reflexivity). done.
  - cbn [default]. rewrite Hnew. do 3 apply NoDup_minsert. apply NoDup_shift_remove, Hd.
Qed.

Definition iso_range (t : Z) : Prop := -62167219200000 <= t <= 253402300799999.

(** A streak goes on: the next decision counts one more. *)
Lemma streak_next limit window m k t ended now :
  streak limit window m k t -> exited_at m = Some (iso8601_from_epoch_ms ended) ->
  iso_range t -> iso_range ended -> 0 <= ended - t < saturating_mul window 1000 -> 0 <= k < I64_MAX ->
  let d := classify m now in
  fl_counter d = k + 1 /\ effective_limit d = limit /\ effective_window d = window /\
  fl_action d = (if limit <=? k + 1 then Flap else Respawn).
Proof.
  intros [Hl Hw Hs Hh Hf Hla] He Ht Hended Hfast Hk. unfold classify_flapping. rewrite Hl, Hw, Hs, Hh.
  cbn [obeq andb]. rewrite beq_refl. cbn [negb].
  assert (Hwas : was_fast m window = true).
  { unfold was_fast. rewrite Hla, He. cbn [mbind option_bind].
    rewrite !iso8601_roundtrip by done. apply andb_true_intro. lia. }
  rewrite Hwas, Hf. cbn [mbind option_bind]. rewrite js_parse_dec by lia. cbn [default].
  assert (Hsat : saturating_add k 1 = k + 1) by (unfold saturating_add, I64_MAX, I64_MIN in *; lia).
  cbn [from_option id]. rewrite Hsat. destruct (limit <=? k + 1); done.
Qed.

(** What giving up writes. *)
Lemma flap_tags m now current : fl_action (classify m now) = Flap ->
  let new := insert_tags (bookkeeping (classify m now)) current in
  tag_of STATUS_TAG (Some new) = Some FLAPPING /\ tag_of HASH_TAG (Some new) = Some hash.
Proof.
  unfold classify_flapping. destruct (obeq _ _ && _); [discriminate|].
  match goal with |- context [?l <=? ?c] => destruct (l <=? c) end; [|discriminate]. intros _. cbn zeta.
  cbn [bookkeeping].
  assert (Hn : forall n last, insert_tags (insert_tags ([(STATUS_TAG, FLAPPING); (FAILS_TAG, dec n); (HASH_TAG, hash)] ++
    match last with Some last => [(LAST_TAG, last)] | None => [] end) []) current
    = match last with
      | Some l => minsert LAST_TAG l (minsert HASH_TAG hash (minsert FAILS_TAG (dec n) (minsert STATUS_TAG FLAPPING current)))
      | None => minsert HASH_TAG hash (minsert FAILS_TAG (dec n) (minsert STATUS_TAG FLAPPING current))
      end) by (intros n [l|]; done).
  rewrite Hn. destruct (tag_of LAST_TAG _) as [l|]; rewrite !tag_of_insert, !beq_refl;
    rewrite !(proj2 (beq_neq _ _)) by (apply keys_differ; vm_compute; reflexivity); done.
Qed.

(** Once given up on, it is skipped while its command stays the same. *)
Lemma flapped_skipped m now now' :
  fl_action (classify m now) = Flap -> fl_action (classify (snd (reconciled m now)) now') = Skip.
Proof.
  intros Ha. destruct (flap_tags m now (default [] (tags m)) Ha) as [Hs Hh].
  unfold reconciled. rewrite Ha. cbn [snd].
  set (new := insert_tags (bookkeeping (classify m now)) (default [] (tags m))) in *. clearbody new.
  unfold classify_flapping. change (tags (set_tags (Some new) m)) with (Some new). rewrite Hs, Hh. cbn [obeq]. rewrite !beq_refl. done.
Qed.

Lemma skip_loop m passes :
  (forall now, fl_action (classify m now) = Skip) -> crash_loop m passes = replicate (length passes) Skip.
Proof.
  intros Hs. induction passes as [|[now ended] passes IH]; [done|]. cbn [crash_loop length replicate].
  unfold reconciled. rewrite Hs. f_equal. exact IH.
Qed.

(** [n] decisions of a session given up on after [j] more respawns. *)
Fixpoint gives_up (j n : nat) {struct n} : list FlappingAction :=
  match n, j with
  | O, _ => []
  | S n, O => Flap :: replicate n Skip
  | S n, S j => Respawn :: gives_up j n
  end.

Definition fast_passes (window : Z) (passes : list (Z * Z)) : Prop :=
  Forall (fun p => iso_range (fst p) /\ iso_range (snd p) /\
                   0 <= snd p - fst p < saturating_mul window 1000) passes.

Lemma streak_loop limit window j passes :
  fast_passes window passes -> forall m k t ended,
  streak limit window m k t -> exited_at m = Some (iso8601_from_epoch_ms ended) ->
  NoDup (mkeys (default [] (tags m))) ->
  iso_range t -> iso_range ended -> 0 <= ended - t < saturating_mul window 1000 ->
  0 <= k < limit -> limit <= I64_MAX -> Z.of_nat j = limit - (k + 1) ->
  crash_loop m passes = gives_up j (length passes).
Proof.
  intros Hf. revert j. induction Hf as [|[now e2] passes (Hn & He2 & Hfast2) Hf IH]; [done|].
  intros j m k t ended Hst He Hd Ht Hended Hfast Hk HL Hj.
  destruct (streak_next limit window m k t ended now Hst He Ht Hended Hfast ltac:(lia)) as (Hc & Hlim & Hwin & Ha).
  cbn [crash_loop length]. destruct (limit <=? k + 1) eqn:El.
  - assert (j = 0%nat) as -> by lia. cbn [gives_up]. unfold reconciled at 1. rewrite Ha. cbn [fst snd].
    f_equal. rewrite bool_decide_eq_false_2 by discriminate. apply skip_loop.
    intros now'. pose proof (flapped_skipped m now now' Ha) as Hs. unfold reconciled in Hs. rewrite Ha in Hs. exact Hs.
  - destruct j as [|j]; [lia|]. pose proof (reconciled_respawn m now (k + 1) Hd Ha Hc) as [Hst' Hd'].
    destruct (reconciled m now) as [a m'] eqn:Er. cbn [snd] in Hst', Hd'.
    assert (a = Respawn) as ->.
    { unfold reconciled in Er. rewrite Ha in Er. congruence. }
    rewrite bool_decide_eq_true_2 by done. cbn [gives_up]. f_equal. rewrite Hlim, Hwin in Hst'.
    apply (IH j (set_exited_at (Some (iso8601_from_epoch_ms e2)) m') (k + 1) now e2); try done; try lia.
    destruct Hst'. constructor; assumption.
Qed.

Definition limit_of (m : SessionMetadata) : Z :=
  default DEFAULT_FAST_FAIL_LIMIT (or_else (positive_tag m LIMIT_TAG) (positive global_limit)).
Definition window_of (m : SessionMetadata) : Z :=
  default DEFAULT_FAST_FAIL_WINDOW (or_else (positive_tag m WINDOW_TAG) (positive global_window)).

(** A session without a streak is respawned with a count of zero; so is one whose
    command changed, whatever its status. *)
Lemma starts_over m now :
  (tag_of LAST_TAG (tags m) = None /\ obeq (tag_of STATUS_TAG (tags m)) (Some FLAPPING) = false) \/
  (exists h, tag_of HASH_TAG (tags m) = Some h /\ h <> hash) ->
  let d := classify m now in
  fl_action d = Respawn /\ fl_counter d = 0 /\ effective_limit d = limit_of m /\ effective_window d = window_of m.
Proof.
  pose proof (limit_positive m) as Hpos. fold (limit_of m) in Hpos.
  intros Hstart. unfold classify_flapping. fold (limit_of m) (window_of m).
  set (changed := match tag_of HASH_TAG (tags m) with Some h => negb (beq h hash) | None => false end).
  assert (Hc : obeq (tag_of STATUS_TAG (tags m)) (Some FLAPPING) && negb changed = false /\
               (changed = true \/ was_fast m (window_of m) = false)).
  { destruct Hstart as [[Hl Hs]|(h & Hh & Hne)].
    - rewrite Hs. split; [done|]. right. unfold was_fast. rewrite Hl. done.
    - unfold changed. rewrite Hh, (proj2 (beq_neq _ _) Hne). rewrite andb_false_r. auto. }
  destruct Hc as [-> Hc]. assert (Hz : (if changed then 0 else if was_fast m (window_of m) then
    saturating_add (default 0 (tag_of FAILS_TAG (tags m) ≫= js_parse_int)) 1 else 0) = 0).
  { destruct Hc as [-> | ->]; [done|]. destruct changed; done. }
  rewrite Hz. rewrite (proj2 (Z.leb_gt _ _)) by lia. done.
Qed.

(** A crashing session is respawned a bounded number of times.  A permanent session
    with no fast failures behind it, or whose command has changed, that then fails
    within the window after every start, is respawned exactly as many times as the
    limit says, then given up on once, and from then on skipped at every pass for
    as long as its command stays the same. *)
Theorem flapping_bounded m passes :
  NoDup (mkeys (default [] (tags m))) -> limit_of m <= I64_MAX ->
  (tag_of LAST_TAG (tags m) = None /\ obeq (tag_of STATUS_TAG (tags m)) (Some FLAPPING) = false) \/
  (exists h, tag_of HASH_TAG (tags m) = Some h /\ h <> hash) ->
  fast_passes (window_of m) passes ->
  crash_loop m passes = gives_up (Z.to_nat (limit_of m)) (length passes).
Proof.
  intros Hd HL Hstart Hf. pose proof (limit_positive m) as Hpos. fold (limit_of m) in Hpos.
  destruct passes as [|[now ended] passes]; [done|]. apply Forall_cons in Hf as [(Hn & He & Hfast) Hf].
  destruct (starts_over m now Hstart) as (Ha & Hc & Hl & Hw).
  destruct (reconciled_respawn m now 0 Hd Ha Hc) as [Hst Hd']. rewrite Hl, Hw in Hst.
  cbn [crash_loop length]. destruct (reconciled m now) as [a m'] eqn:Er. cbn [snd] in Hst, Hd'.
  assert (a = Respawn) as -> by (unfold reconciled in Er; rewrite Ha in Er; congruence).
  rewrite bool_decide_eq_true_2 by done.
  destruct (Z.to_nat (limit_of m)) as [|j] eqn:Ej; [lia|]. cbn [gives_up]. f_equal.
  apply (streak_loop (limit_of m) (window_of m) j passes Hf (set_exited_at (Some (iso8601_from_epoch_ms ended)) m') 0 now ended);
    try done; try lia.
  destruct Hst. constructor; assumption.
Qed.
End Streak.

(** ** A session that dies a second after each start *)

Definition demo_crasher : SessionMetadata := set_tags (Some [(str "strategy", str "permanent")]) SessionMetadata_default.
Definition demo_passes : list (Z * Z) :=
  map (fun i => (1775384103123 + i * 60000, 1775384103123 + i * 60000 + 1000)) [0; 1; 2; 3; 4; 5].
Lemma flapping_bounded_witness :
  crash_loop demo_sha (str "sh") [] None None demo_crasher demo_passes = [Respawn; Respawn; Respawn; Flap; Skip; Skip].
Proof.
  rewrite (flapping_bounded demo_sha (str "sh") [] None None demo_crasher demo_passes).
  - vm_compute. reflexivity.
  - apply (bool_decide_eq_true_1 _). vm_compute. reflexivity.
  - vm_compute. discriminate.
  - left. split; vm_compute; reflexivity.
  - unfold fast_passes, demo_passes. repeat (apply Forall_cons_2; [cbn; unfold iso_range; vm_compute; repeat split; discriminate|]).
    apply Forall_nil_2.
Defined.

Example demo_temp : atomic_temp_pid (str "a.json.tmp.4242.0123456789abcdef") = Some 4242.
Proof. reflexivity. Qed.
Example demo_layout : orphan_layout_tag_pid (str ":l4242-x1") = Some (Some 4242).
Proof. reflexivity. Qed.
