(* ===== verification/Locks.v ===== *)
(** The registry's file locks: [crates/pty-core/src/registry/lock.rs].  A claim is one
    complete record, linked into place; a stale one is stolen under an advisory lock on
    the inode that was inspected; a release that meets such a checker leaves it to the
    checker to finish.

    Each operation is a program over system calls ([Sys]), and threads of several
    processes interleave call by call on one lock path ([FS]).  Inodes are never reused:
    the code compares an inode only with one it holds open.  Reads of an open record
    fail only on text that is not UTF-8, random nonces do not repeat, and a claim's
    token has a path of its own.  Delegated claims and pins are not modelled. *)
From S2P Require Import Prelude Json Metadata Time Names Text Order ProcTable Argv Identity MetadataCache Inventory.

Definition record_nonce (record : bytes) : option bytes := split_whitespace record !! 1%nat.

(** ** System calls *)

(** Inodes and threads are numbers.  [creator] is the thread that linked it; a record
    found at the start has none. *)
Record Inode : Type := mkInode { content : bytes; creator : option nat }.

(** [flocks]: the thread holding an inode's advisory lock.  [live]: the process of each
    live thread.  [drawn] and [claims] are not on disk: who drew a nonce, and the claim
    a thread published and has not begun to release. *)
Record FS : Type := mkFS {
  path : option nat;
  inodes : gmap nat Inode;
  flocks : gmap nat nat;
  tokens : gmap bytes Z;
  live : gmap nat Z;
  born : gset nat;
  drawn : gmap bytes (option nat);
  claims : gmap nat nat
}.
#[export] Instance FS_eta : Settable FS := fun f =>
  mkFS (path f) (inodes f) (flocks f) (tokens f) (live f) (born f) (drawn f) (claims f).

(** A call's answer.  [Ok None] of [OpenPath] and [StatPath]: not found. *)
Inductive Sys : Type -> Type :=
  | EnsureDir : Sys (Result unit unit)
  | Random : Sys bytes
  | LinkNew (record : bytes) : Sys (Result bool unit)
  | OpenPath : Sys (Result (option nat) unit)
  | StatPath : Sys (Result (option nat) unit)
  | Fstat (i : nat) : Sys (Result unit unit)
  | ReadInode (i : nat) : Sys (Result bytes unit)
  | ReadPath : Sys (Result bytes unit)
  | Flock (i : nat) (wait : bool) : Sys (Result bool unit)
  | Unflock (i : nat) : Sys unit
  | PidAlive (p : Z) : Sys bool
  | Unlink : Sys (Result unit unit)
  | TokenOpen (n : bytes) : Sys (Result bool unit)
  | TokenPublish (n : bytes) (v : Z) : Sys (Result unit unit)
  | TokenWrite (n : bytes) (v : Z) : Sys unit
  | TokenRead (n : bytes) : Sys (option Z)
  | TokenExists (n : bytes) : Sys bool
  | TokenRemove (n : bytes) : Sys unit.

Inductive Prog (A : Type) : Type :=
  | Ret (a : A)
  | Call {R : Type} (c : Sys R) (k : R -> Prog A).
Arguments Ret {A} a.
Arguments Call {A R} c k.

Fixpoint pbind {A B} (f : A -> Prog B) (p : Prog A) : Prog B :=
  match p with
  | Ret a => f a
  | Call c k => Call c (fun r => pbind f (k r))
  end.
#[export] Instance Prog_bind : MBind Prog := @pbind.
Definition sys {R} (c : Sys R) : Prog R := Call c Ret.

(** What a call cannot control. *)
Record Oracle : Type := mkOracle { o_fail : bool; o_ino : nat; o_nonce : bytes; o_alive : bool }.

Definition is_nonce (n : bytes) : bool :=
  (length n =? 16)%nat && forallb (fun b => is_ascii_digit b || in_range 97 102 b) n.
Definition someone_has (fs : FS) (p : Z) : bool := bool_decide (p ∈ (map_to_list (live fs)).*2).

(** [None]: the call blocks, or the oracle's choice is not one. *)
Definition exec (t : nat) (o : Oracle) {R} (c : Sys R) (fs : FS) : option (R * FS) :=
  match c in Sys R return option (R * FS) with
  | EnsureDir => Some (if o_fail o then Err tt else Ok tt, fs)
  | Random =>
      if is_nonce (o_nonce o) && bool_decide (drawn fs !! o_nonce o = None)
      then Some (o_nonce o, fs <| drawn ::= <[o_nonce o := Some t]> |>) else None
  | LinkNew record =>
      if o_fail o then Some (Err tt, fs)
      else match path fs with
           | Some _ => Some (Ok false, fs)
           | None =>
               if bool_decide (inodes fs !! o_ino o = None)
               then Some (Ok true, fs <| path := Some (o_ino o) |>
                                      <| inodes ::= <[o_ino o := mkInode record (Some t)]> |>
                                      <| claims ::= <[t := o_ino o]> |>)
               else None
           end
  | OpenPath | StatPath => Some (if o_fail o then Err tt else Ok (path fs), fs)
  | Fstat _ => Some (if o_fail o then Err tt else Ok tt, fs)
  | ReadInode i =>
      match inodes fs !! i with
      | Some d => Some (match from_utf8 (content d) with Some text => Ok text | None => Err tt end, fs)
      | None => None
      end
  | ReadPath =>
      Some (match path fs ≫= (fun i => inodes fs !! i) with
            | Some d => if o_fail o then Err tt
                        else match from_utf8 (content d) with Some text => Ok text | None => Err tt end
            | None => Err tt
            end, fs)
  | Flock i wait =>
      if o_fail o then Some (Err tt, fs)
      else match flocks fs !! i with
           | None => Some (Ok true, fs <| flocks ::= <[i := t]> |>)
           | Some _ => if wait then None else Some (Ok false, fs)
           end
  | Unflock i =>
      Some (tt, if bool_decide (flocks fs !! i = Some t) then fs <| flocks ::= delete i |> else fs)
  | PidAlive p => Some ((0 <? p) && (someone_has fs p || o_alive o), fs)
  | Unlink =>
      Some (match path fs with
            | Some _ => if o_fail o then (Err tt, fs) else (Ok tt, fs <| path := None |>)
            | None => (Err tt, fs)
            end)
  | TokenOpen n =>
      Some (if o_fail o then Err tt else Ok (match tokens fs !! n with Some _ => true | None => false end), fs)
  | TokenPublish n v =>
      Some (if o_fail o then (Err tt, fs)
            else match tokens fs !! n with
                 | Some _ => (Ok tt, fs)
                 | None => (Ok tt, fs <| tokens ::= <[n := v]> |>)
                 end)
  | TokenWrite n v =>
      Some (tt, match tokens fs !! n with
                | Some _ => if o_fail o then fs else fs <| tokens ::= <[n := v]> |>
                | None => fs
                end)
  | TokenRead n => Some (if o_fail o then None else tokens fs !! n, fs)
  | TokenExists n => Some (match tokens fs !! n with Some _ => true | None => false end, fs)
  | TokenRemove n => Some (tt, if o_fail o then fs else fs <| tokens ::= delete n |>)
  end.

(** ** The operations *)

(** [b"0"]: the claim was withdrawn. *)
Definition WITHDRAWN : Z := 48.

Definition record_of (pid : Z) (nonce : bytes) : bytes := dec pid ++ 32 :: nonce.

Definition try_create (pid : Z) : Prog (Result bool unit) :=
  nonce ← sys Random; sys (LinkNew (record_of pid nonce)).

(** The closure [guard]: the claim's nonce, read back from its path. *)
Definition read_guard : Prog (Result bytes unit) :=
  r ← sys ReadPath;
  Ret (try record := r in
       match record_nonce record with Some n => Ok n | None => Err tt end).

(** [WithdrawnClaimCleanup::drop], armed. *)
Definition cleanup (i : nat) (legacy_nonce : option (Z * bytes)) : Prog unit :=
  opened ← sys (Fstat i);
  current ← sys StatPath;
  match opened, current with
  | Ok _, Ok (Some j) =>
      if negb (i =? j)%nat then Ret tt
      else
        r ← sys (ReadInode i);
        match r with
        | Err _ => Ret tt
        | Ok record =>
            let legacy := let? l := legacy_nonce in
                          if bool_decide (parse_leading_int record = Some (fst l)) then Some (snd l) else None in
            match (match record_nonce record with Some n => Some n | None => legacy end) with
            | None => Ret tt
            | Some nonce =>
                value ← sys (TokenRead nonce);
                if bool_decide (value = Some WITHDRAWN)
                then
                  removed ← sys Unlink;
                  match removed with Ok _ => sys (TokenRemove nonce) | Err _ => Ret tt end
                else Ret tt
            end
        end
  | _, _ => Ret tt
  end.

Definition holder_is_alive (i : nat) : Prog bool :=
  r ← sys (ReadInode i);
  match r with
  | Ok record => match parse_leading_int (trim is_trim_space record) with
                 | Some p => sys (PidAlive p)
                 | None => Ret false
                 end
  | Err _ => Ret false
  end.

(** [steal_locked_inode], without what its drops do. *)
Definition steal_body (pid : Z) (i : nat) : Prog (Result bool unit) :=
  opened ← sys (Fstat i);
  match opened with
  | Err e => Ret (Err e)
  | Ok _ =>
      current ← sys StatPath;
      match current with
      | Err e => Ret (Err e)
      | Ok None => try_create pid
      | Ok (Some j) =>
          if negb (i =? j)%nat then Ret (Ok false)
          else
            alive ← holder_is_alive i;
            if (alive : bool) then Ret (Ok false)
            else
              r ← sys ReadPath;
              _ ← (match (match r with Ok record => record_nonce record | Err _ => None end) with
                   | Some n => sys (TokenRemove n)
                   | None => Ret tt
                   end);
              removed ← sys Unlink;
              match removed with Ok _ => try_create pid | Err e => Ret (Err e) end
      end
  end.
Definition steal_opened_lock (pid : Z) (i : nat) : Prog (Result bool unit) :=
  locked ← sys (Flock i false);
  match locked with
  | Err e => Ret (Err e)
  | Ok false => Ret (Ok false)
  | Ok true =>
      acquired ← steal_body pid i;
      _ ← cleanup i None;
      _ ← sys (Unflock i);
      Ret acquired
  end.

(** [acquired.then(|| guard(path)).transpose()]. *)
Definition then_guard (acquired : Result bool unit) : Prog (Result (option bytes) unit) :=
  match acquired with
  | Ok true => g ← read_guard; Ret (try n := g in Ok (Some n))
  | Ok false => Ret (Ok None)
  | Err e => Ret (Err e)
  end.
Definition try_acquire_file_lock (pid : Z) : Prog (Result (option bytes) unit) :=
  ready ← sys EnsureDir;
  match ready with
  | Err e => Ret (Err e)
  | Ok _ =>
      created ← try_create pid;
      match created with
      | Err e => Ret (Err e)
      | Ok true => then_guard (Ok true)
      | Ok false =>
          opened ← sys OpenPath;
          match opened with
          | Err e => Ret (Err e)
          | Ok None => again ← try_create pid; then_guard again
          | Ok (Some i) => acquired ← steal_opened_lock pid i; then_guard acquired
          end
      end
  end.

(** [events]: whether the path ends in [.events.lock]. *)
Definition withdraw_claim (nonce : bytes) : Prog unit :=
  file ← sys (TokenOpen nonce);
  match file with
  | Ok true => sys (TokenWrite nonce WITHDRAWN)
  | Ok false =>
      published ← sys (TokenPublish nonce WITHDRAWN);
      match published with
      | Err _ => Ret tt
      | Ok _ =>
          again ← sys (TokenOpen nonce);
          match again with Ok true => sys (TokenWrite nonce WITHDRAWN) | _ => Ret tt end
      end
  | Err _ => Ret tt
  end.

Definition names_us (pid : Z) (nonce owner : bytes) : bool :=
  bool_decide (parse_leading_int (trim is_trim_space owner) = Some pid)
  && bool_decide (record_nonce owner = Some nonce).

(** [release_file_lock_checked_nonce] under the inode's lock. *)
Definition release_body (events : bool) (pid : Z) (nonce : bytes) (i : nat) : Prog bool :=
  r ← sys (ReadInode i);
  match r with
  | Err _ => Ret false
  | Ok owner =>
      if negb (names_us pid nonce owner) then Ret false
      else
        opened ← sys (Fstat i);
        current ← sys StatPath;
        match opened, current with
        | Ok _, Ok (Some j) =>
            if negb (i =? j)%nat then Ret false
            else
              removed ← sys Unlink;
              match removed with
              | Err _ => Ret false
              | Ok _ => _ ← (if events then Ret tt else sys (TokenRemove nonce)); Ret true
              end
        | _, _ => Ret false
        end
  end.
Definition release_file_lock_checked_nonce (events : bool) (pid : Z) (nonce : bytes) : Prog bool :=
  opened ← sys OpenPath;
  match opened with
  | Ok (Some i) =>
      r ← sys (ReadInode i);
      match r with
      | Err _ => Ret false
      | Ok owner =>
          if negb (names_us pid nonce owner) then Ret false
          else
            token ← (if events then sys (TokenExists nonce) else Ret true);
            locked ← sys (Flock i (events && negb token));
            match locked with
            | Ok true =>
                released ← release_body events pid nonce i;
                _ ← cleanup i (Some (pid, nonce));
                _ ← sys (Unflock i);
                Ret released
            | _ => Ret false
            end
      end
  | _ => Ret false
  end.
(** [LockGuard::release], and its drop. *)
Definition release (events : bool) (pid : Z) (nonce : bytes) : Prog bool :=
  _ ← (if events then Ret tt else withdraw_claim nonce);
  release_file_lock_checked_nonce events pid nonce.

(** ** Threads *)

Inductive Thread : Type :=
  | Idle
  | Acquiring (p : Prog (Result (option bytes) unit))
  | Holding (nonce : bytes)
  | Releasing (p : Prog bool).

(** One call of a program. *)
Definition advance (t : nat) (o : Oracle) {A} (p : Prog A) (fs : FS) : option (Prog A * FS) :=
  match p with
  | Ret _ => None
  | Call c k => match exec t o c fs with Some (r, fs) => Some (k r, fs) | None => None end
  end.

Record World : Type := mkWorld { fs : FS; threads : gmap nat Thread }.

Definition gave_up (t : nat) (f : FS) : FS := f <| claims ::= delete t |>.
(** A process dies with its threads, and the kernel drops their advisory locks. *)
Definition survivors (p : Z) (f : FS) : gmap nat Z := filter (fun kv => snd kv <> p) (live f).
Definition die (p : Z) (f : FS) : FS :=
  let alive t := bool_decide (is_Some (survivors p f !! t)) in
  f <| live := survivors p f |>
    <| flocks ::= filter (fun kv => alive (snd kv) = true) |>
    <| claims ::= filter (fun kv => alive (fst kv) = true) |>.

Inductive step (events : bool) (w : World) : World -> Prop :=
  | step_begin t p : live (fs w) !! t = Some p -> threads w !! t = Some Idle ->
      step events w (mkWorld (fs w) (<[t := Acquiring (try_acquire_file_lock p)]> (threads w)))
  | step_acquire t o a a' f' : threads w !! t = Some (Acquiring a) -> is_Some (live (fs w) !! t) ->
      advance t o a (fs w) = Some (a', f') ->
      step events w (mkWorld f' (<[t := Acquiring a']> (threads w)))
  | step_acquired t n : threads w !! t = Some (Acquiring (Ret (Ok (Some n)))) -> is_Some (live (fs w) !! t) ->
      step events w (mkWorld (fs w) (<[t := Holding n]> (threads w)))
  | step_refused t r : threads w !! t = Some (Acquiring (Ret r)) -> is_Some (live (fs w) !! t) ->
      (forall n, r <> Ok (Some n)) ->
      step events w (mkWorld (fs w) (<[t := Idle]> (threads w)))
  | step_release t p n : live (fs w) !! t = Some p -> threads w !! t = Some (Holding n) ->
      step events w (mkWorld (gave_up t (fs w)) (<[t := Releasing (release events p n)]> (threads w)))
  | step_releasing t o r r' f' : threads w !! t = Some (Releasing r) -> is_Some (live (fs w) !! t) ->
      advance t o r (fs w) = Some (r', f') ->
      step events w (mkWorld f' (<[t := Releasing r']> (threads w)))
  | step_released t b : threads w !! t = Some (Releasing (Ret b)) -> is_Some (live (fs w) !! t) ->
      step events w (mkWorld (fs w) (<[t := Idle]> (threads w)))
  | step_spawn t p : t ∉ born (fs w) -> 0 < p <= I32_MAX ->
      step events w (mkWorld ((fs w) <| live ::= <[t := p]> |> <| born ::= fun b => {[t]} ∪ b |>)
                             (<[t := Idle]> (threads w)))
  | step_die p : step events w (mkWorld (die p (fs w)) (threads w)).

Definition nonce_of (d : Inode) : option bytes := let? text := from_utf8 (content d) in record_nonce text.

(** A lock path as it may be found: free, or with a record whose nonce, like those of
    the tokens left behind, is not drawn again. *)
Record found (w : World) : Prop := {
  found_path : forall i, path (fs w) = Some i -> is_Some (inodes (fs w) !! i);
  found_inodes : forall i d, inodes (fs w) !! i = Some d -> creator d = None /\ path (fs w) = Some i;
  found_drawn : forall i d n, inodes (fs w) !! i = Some d -> nonce_of d = Some n ->
                drawn (fs w) !! n = Some None;
  found_tokens : forall n v, tokens (fs w) !! n = Some v -> is_Some (drawn (fs w) !! n);
  found_owners : forall n x, drawn (fs w) !! n = Some x -> x = None;
  found_flocks : flocks (fs w) = ∅;
  found_claims : claims (fs w) = ∅;
  found_live : live (fs w) = ∅;
  found_threads : threads w = ∅
}.

Inductive reachable (events : bool) : World -> Prop :=
  | reach_found w : found w -> reachable events w
  | reach_step w w' : reachable events w -> step events w w' -> reachable events w'.

(** ** The invariant *)

Definition unclaimed (f : FS) (i : nat) : Prop := forall t, claims f !! t <> Some i.
Definition has_nonce (f : FS) (i : nat) (n : bytes) : Prop :=
  exists d, inodes f !! i = Some d /\ nonce_of d = Some n.

Record Inv (f : FS) : Prop := {
  inv_claim t i : claims f !! t = Some i ->
    path f = Some i /\ is_Some (live f !! t) /\ exists d, inodes f !! i = Some d /\ creator d = Some t;
  inv_path i : path f = Some i -> is_Some (inodes f !! i);
  inv_record i d t : inodes f !! i = Some d -> creator d = Some t ->
    t ∈ born f /\ exists p n, content d = record_of p n /\ is_nonce n = true /\ 0 < p <= I32_MAX /\
      (is_Some (live f !! t) -> live f !! t = Some p);
  inv_nonce i d n : inodes f !! i = Some d -> nonce_of d = Some n ->
    drawn f !! n = Some (creator d);
  inv_unique i j n : has_nonce f i n -> has_nonce f j n -> i = j;
  inv_token n : is_Some (tokens f !! n) -> is_Some (drawn f !! n);
  inv_withdrawn n i : tokens f !! n = Some WITHDRAWN -> has_nonce f i n -> unclaimed f i;
  inv_fresh n t : is_Some (tokens f !! n) -> drawn f !! n = Some (Some t) -> exists i, has_nonce f i n;
  inv_flock i t : flocks f !! i = Some t -> is_Some (live f !! t);
  inv_drawn n t : drawn f !! n = Some (Some t) -> t ∈ born f;
  inv_live t p : live f !! t = Some p -> t ∈ born f /\ 0 < p <= I32_MAX
}.

(** What other threads leave as it was. *)
Record Rely (t : nat) (f f' : FS) : Prop := {
  rely_inode i d : inodes f !! i = Some d -> inodes f' !! i = Some d;
  rely_new i d : inodes f' !! i = Some d -> inodes f !! i = Some d \/ creator d <> Some t;
  rely_flock i : flocks f !! i = Some t -> flocks f' !! i = Some t;
  rely_path i : flocks f !! i = Some t -> path f = Some i -> path f' = Some i;
  rely_unclaimed i : is_Some (inodes f !! i) -> unclaimed f i -> unclaimed f' i;
  rely_claims : claims f' !! t = claims f !! t;
  rely_drawn n x : drawn f !! n = Some x -> drawn f' !! n = Some x;
  rely_live : live f' !! t = live f !! t
}.

(** What a call must know before it is made. *)
Definition pre (t : nat) (p : Z) {R} (c : Sys R) (f : FS) : Prop :=
  match c with
  | LinkNew record => exists n, record = record_of p n /\ is_nonce n = true /\
      drawn f !! n = Some (Some t) /\ forall i, ~ has_nonce f i n
  | Unlink => forall i, path f = Some i -> flocks f !! i = Some t /\ unclaimed f i
  | TokenPublish n v | TokenWrite n v => exists i, has_nonce f i n /\ unclaimed f i
  | _ => True
  end.

(** A program run by [t] among others, from [f]: every call finds its precondition. *)
Fixpoint wp (t : nat) (p : Z) {A} (m : Prog A) (Q : A -> FS -> Prop) (f : FS) : Prop :=
  forall f', Rely t f f' -> Inv f' ->
  match m with
  | Ret a => Q a f'
  | Call c k => pre t p c f' /\
      forall o r f'', exec t o c f' = Some (r, f'') -> wp t p (k r) Q f''
  end.

(** ** A record as written is read back *)

Lemma nonce_char b : is_ascii_digit b || in_range 97 102 b = true ->
  in_range 0 127 b = true /\ is_trim_space b = false.
Proof. unfold is_ascii_digit, in_range, is_trim_space. intros H. unfold in_range. lia. Qed.

Lemma nonce_chars n : is_nonce n = true -> n <> [] /\ forall b, b ∈ n -> in_range 0 127 b = true /\ is_trim_space b = false.
Proof.
  unfold is_nonce. intros [Hl Hc]%andb_prop. split; [intros ->; discriminate|].
  intros b Hb. apply nonce_char. exact (proj1 (forallb_elem _ _) Hc b Hb).
Qed.

Lemma nonce_is_field n : is_nonce n = true -> is_field n = true.
Proof.
  intros [Hne Hc]%nonce_chars. unfold is_field. apply andb_true_iff. split; [destruct n; done|].
  apply forallb_elem. intros b Hb. rewrite (proj2 (Hc b Hb)). done.
Qed.

Lemma dec_pos p : 0 < p -> dec p = dec_nat p.
Proof. intros Hp. unfold dec. rewrite (proj2 (Z.ltb_ge p 0)) by lia. done. Qed.

Lemma leading_int_app c r : is_nonempty c = true -> forallb is_ascii_digit c = true ->
  parse_leading_int (c ++ 32 :: r) = parse_leading_int c.
Proof.
  intros Hne Hd. destruct c as [|d c]; [discriminate|]. pose proof Hd as Hall.
  cbn [forallb] in Hd. apply andb_prop in Hd as [Hd _].
  assert (Hs : forall s, (forall x t, s = x :: t -> is_ascii_digit x = false) ->
    parse_leading_int ((d :: c) ++ s) = let? value := parse_unsigned I64_MAX (d :: c) in
                              if in_range I32_MIN I32_MAX value then Some value else None).
  { intros s Hn. unfold parse_leading_int.
    assert (Ht : trim_start is_trim_space ((d :: c) ++ s) = (d :: c) ++ s
      /\ strip_prefix [45] ((d :: c) ++ s) = None /\ strip_prefix [43] ((d :: c) ++ s) = None).
    { destruct (digit_cases d Hd) as [->|[->|[->|[->|[->|[->|[->|[->|[->| ->]]]]]]]]]; done. }
    destruct Ht as (-> & -> & ->). rewrite span_all by done. done. }
  rewrite Hs by (intros x t [= <- <-]; done). rewrite <- (app_nil_r (d :: c)) at 2. rewrite Hs by discriminate. done.
Qed.

Lemma trim_field_ends a b : is_field a = true -> is_field b = true ->
  trim is_trim_space (a ++ 32 :: b) = a ++ 32 :: b.
Proof.
  unfold is_field. intros [Ha Hca]%andb_prop [Hb Hcb]%andb_prop.
  destruct a as [|x a]; [discriminate|]. destruct (rev b) as [|y r] eqn:Er.
  { apply (f_equal (@rev Z)) in Er. rewrite rev_involutive in Er. subst. discriminate. }
  assert (Hx : is_trim_space x = false) by (cbn in Hca; apply andb_prop in Hca as [Hca _]; apply negb_true_iff, Hca).
  assert (Hy : is_trim_space y = false).
  { apply negb_true_iff. apply (proj1 (forallb_elem _ _) Hcb). apply list_elem_of_In, in_rev. rewrite Er. left. done. }
  unfold trim. assert (H1 : snd (span is_trim_space ((x :: a) ++ 32 :: b)) = (x :: a) ++ 32 :: b) by (cbn; rewrite Hx; done).
  rewrite H1, rev_app_distr. cbn [rev]. rewrite Er. cbn. rewrite Hy. cbn.
  change (rev ((((r ++ [32]) ++ rev a ++ [x]))) ++ [y] = x :: a ++ 32 :: b).
  rewrite !rev_app_distr, rev_involutive. cbn. rewrite <- app_assoc. do 2 f_equal. cbn. f_equal.
  rewrite <- (rev_involutive b), Er. done.
Qed.

Lemma record_read p n : 0 < p <= I32_MAX -> is_nonce n = true ->
  from_utf8 (record_of p n) = Some (record_of p n) /\
  record_nonce (record_of p n) = Some n /\
  parse_leading_int (record_of p n) = Some p /\
  trim is_trim_space (record_of p n) = record_of p n.
Proof.
  intros Hp Hn. pose proof (nonce_is_field n Hn) as Hf. unfold record_of. split; [|split; [|split]].
  - apply from_utf8_ascii. apply forallb_elem. intros b Hb. apply elem_of_app in Hb. destruct Hb as [Hb|Hb].
    + rewrite dec_pos in Hb by lia. pose proof (proj1 (forallb_elem _ _) (dec_nat_digits p) b Hb) as Hd.
      unfold is_ascii_digit, in_range in *. lia.
    + apply elem_of_cons in Hb. destruct Hb as [->|Hb]; [done|]. apply nonce_chars in Hn. apply (proj2 Hn b Hb).
  - unfold record_nonce. rewrite split_whitespace_cons by (apply dec_field || done).
    rewrite split_whitespace_one by done. done.
  - assert (Hne : is_nonempty (dec p) = true /\ forallb is_ascii_digit (dec p) = true).
    { rewrite dec_pos by lia. split; [destruct (dec_nat_cons p) as (d & l & ->); done|apply dec_nat_digits]. }
    destruct Hne as [Hne Hd]. rewrite leading_int_app by done. apply parse_leading_digits; [done..| |lia].
    apply parse_signed_dec; unfold I32_MIN, I32_MAX in *; lia.
  - apply trim_field_ends; [apply dec_field|done].
Qed.

(** ** Every call keeps the invariant, and what other threads rely on *)

Lemma rely_refl t f : Rely t f f.
Proof. split; auto. Qed.
Lemma rely_trans t f g h : Rely t f g -> Rely t g h -> Rely t f h.
Proof.
  intros [A1 A2 A3 A4 A5 A6 A7 A8] [B1 B2 B3 B4 B5 B6 B7 B8]. split; intros; eauto; try congruence.
  - destruct (B2 i d) as [Hi|Hi]; eauto.
  - apply B5; [|eauto]. match goal with H : is_Some _ |- _ => destruct H as [d Hd] end. eauto.
Qed.

Lemma has_nonce_mono f f' i n :
  (forall d, inodes f !! i = Some d -> inodes f' !! i = Some d) -> has_nonce f i n -> has_nonce f' i n.
Proof. intros HR (d & Hd & Hn). exists d. auto. Qed.

Lemma someone_has_elem f t p : live f !! t = Some p -> someone_has f p = true.
Proof.
  intros H. apply bool_decide_eq_true. apply list_elem_of_fmap. exists (t, p). split; [done|].
  apply elem_of_map_to_list, H.
Qed.

(** A claim's inode is held by no other thread's claim. *)
Lemma claim_unique f t t' i j : Inv f -> claims f !! t = Some i -> claims f !! t' = Some j -> t = t'.
Proof.
  intros HI H1 H2. destruct (inv_claim f HI _ _ H1) as (Hp1 & _ & d & Hd & Hc).
  destruct (inv_claim f HI _ _ H2) as (Hp2 & _ & d' & Hd' & Hc'). congruence.
Qed.

Lemma unclaimed_by_creator f i d : Inv f -> inodes f !! i = Some d ->
  (forall t, creator d = Some t -> claims f !! t <> Some i) -> unclaimed f i.
Proof. intros HI Hd Hc t Ht. destruct (inv_claim f HI _ _ Ht) as (_ & _ & d' & Hd' & Hc'). apply (Hc t); congruence. Qed.

Lemma link_inv t p o n f :
  Inv f -> live f !! t = Some p -> path f = None -> inodes f !! o = None ->
  is_nonce n = true -> drawn f !! n = Some (Some t) -> (forall i, ~ has_nonce f i n) ->
  Inv (f <| path := Some o |> <| inodes ::= <[o := mkInode (record_of p n) (Some t)]> |> <| claims ::= <[t := o]> |>).
Proof.
  intros HI Hl Hpath Ho Hn Hd Hfresh. pose proof (inv_live f HI t p Hl) as [Hb Hp].
  destruct (record_read p n Hp Hn) as (Hu & Hr & _ & _).
  assert (Hno : forall t' i, claims f !! t' <> Some i).
  { intros t' i Hc. destruct (inv_claim f HI _ _ Hc) as (Hx & _). congruence. }
  assert (Hnew : nonce_of (mkInode (record_of p n) (Some t)) = Some n).
  { unfold nonce_of. cbn. rewrite Hu. exact Hr. }
  assert (Hhas : forall i m, has_nonce (f <| inodes ::= <[o := mkInode (record_of p n) (Some t)]> |>) i m ->
            (i = o /\ m = n) \/ (i <> o /\ has_nonce f i m)).
  { intros i m (d & Hd' & Hm). cbn in Hd'. destruct (base.decide (i = o)) as [->|Hne].
    - rewrite lookup_insert_eq in Hd'. left. split; congruence.
    - rewrite lookup_insert_ne in Hd' by done. right. split; [done|]. exists d. done. }
  constructor; cbn.
  - intros t' i Hc. destruct (base.decide (t' = t)) as [->|Hne].
    + rewrite lookup_insert_eq in Hc. injection Hc as <-. split; [done|]. split; [eauto|].
      eexists. rewrite lookup_insert_eq. done.
    + rewrite lookup_insert_ne in Hc by done. destruct (Hno _ _ Hc).
  - intros i [= <-]. rewrite lookup_insert_eq. eauto.
  - intros i d t' Hi Hc. destruct (base.decide (i = o)) as [->|Hne].
    + rewrite lookup_insert_eq in Hi. injection Hi as <-. injection Hc as <-. split; [done|].
      exists p, n. cbn. split; [done|]. split; [done|]. split; [done|]. intros _. done.
    + rewrite lookup_insert_ne in Hi by done. apply (inv_record f HI _ _ _ Hi Hc).
  - intros i d m Hi Hm. destruct (base.decide (i = o)) as [->|Hne].
    + rewrite lookup_insert_eq in Hi. injection Hi as <-. assert (m = n) by congruence. subst. done.
    + rewrite lookup_insert_ne in Hi by done. apply (inv_nonce f HI _ _ _ Hi Hm).
  - intros i j m Hi Hj. apply Hhas in Hi, Hj. destruct Hi as [[-> ->]|[Hi Hi']], Hj as [[-> Hm]|[Hj Hj']];
      try subst; try done; [destruct (Hfresh _ Hj')|destruct (Hfresh _ Hi')|]. apply (inv_unique f HI _ _ _ Hi' Hj').
  - apply (inv_token f HI).
  - intros m i Ht Hi t' Hc. cbn in Hc. apply Hhas in Hi. destruct Hi as [[-> ->]|[Hi Hi']].
    + destruct (inv_fresh f HI n t) as (i & Hx); [rewrite Ht; eauto|done|]. destruct (Hfresh _ Hx).
    + destruct (base.decide (t' = t)) as [->|Hne].
      * rewrite lookup_insert_eq in Hc. congruence.
      * rewrite lookup_insert_ne in Hc by done. destruct (Hno _ _ Hc).
  - intros m t' Ht Hdr. destruct (inv_fresh f HI m t' Ht Hdr) as (i & Hi). exists i.
    destruct Hi as (d & Hi & Hm). exists d. cbn. rewrite lookup_insert_ne by congruence. done.
  - apply (inv_flock f HI).
  - apply (inv_drawn f HI).
  - apply (inv_live f HI).
Qed.

(** Changing tokens, advisory locks or the record of nonces. *)
Lemma tokens_inv f tk : Inv f ->
  (forall n, is_Some (tk !! n) -> is_Some (drawn f !! n)) ->
  (forall n i, tk !! n = Some WITHDRAWN -> has_nonce f i n -> unclaimed f i) ->
  (forall n t, is_Some (tk !! n) -> drawn f !! n = Some (Some t) -> exists i, has_nonce f i n) ->
  Inv (f <| tokens := tk |>).
Proof. intros [] H1 H2 H3. constructor; cbn; try assumption. Qed.

Lemma token_set_inv f n v i : Inv f -> has_nonce f i n -> unclaimed f i ->
  Inv (f <| tokens ::= <[n := v]> |>).
Proof.
  intros HI Hi Hu. apply tokens_inv; [done|..].
  - intros m. destruct (base.decide (m = n)) as [->|Hne].
    + intros _. destruct Hi as (d & Hd & Hn). rewrite (inv_nonce f HI _ _ _ Hd Hn). eauto.
    + rewrite lookup_insert_ne by done. apply (inv_token f HI).
  - intros m j. destruct (base.decide (m = n)) as [->|Hne].
    + intros _ Hj. rewrite (inv_unique f HI _ _ _ Hj Hi). done.
    + rewrite lookup_insert_ne by done. apply (inv_withdrawn f HI).
  - intros m t. destruct (base.decide (m = n)) as [->|Hne]; [eauto|].
    rewrite lookup_insert_ne by done. apply (inv_fresh f HI).
Qed.
Lemma token_remove_inv f n : Inv f -> Inv (f <| tokens ::= delete n |>).
Proof.
  intros HI. apply tokens_inv; [done|..].
  - intros m [v Hv]. apply lookup_delete_Some in Hv as [_ Hv]. apply (inv_token f HI). eauto.
  - intros m j Hv. apply lookup_delete_Some in Hv as [_ Hv]. apply (inv_withdrawn f HI _ _ Hv).
  - intros m t [v Hv]. apply lookup_delete_Some in Hv as [_ Hv]. apply (inv_fresh f HI). eauto.
Qed.
Lemma flocks_inv f fl : Inv f -> (forall i t, fl !! i = Some t -> is_Some (live f !! t)) ->
  Inv (f <| flocks := fl |>).
Proof. intros [] H1. constructor; cbn; try assumption. Qed.
Lemma unlink_inv f i : Inv f -> path f = Some i -> unclaimed f i -> Inv (f <| path := None |>).
Proof.
  intros HI Hp Hu. assert (Hno : forall t j, claims f !! t <> Some j).
  { intros t j Hc. destruct (inv_claim f HI _ _ Hc) as (Hp' & _). apply (Hu t). congruence. }
  destruct HI. constructor; cbn; try assumption; [|discriminate].
  intros t j Hc. destruct (Hno _ _ Hc).
Qed.
Lemma draw_inv f t p n : Inv f -> live f !! t = Some p -> drawn f !! n = None ->
  Inv (f <| drawn ::= <[n := Some t]> |>).
Proof.
  intros HI Hl Hn.
  assert (Hnone : forall i, ~ has_nonce f i n).
  { intros i (d & Hd & Hm). rewrite (inv_nonce f HI _ _ _ Hd Hm) in Hn. discriminate. }
  constructor; cbn; try apply HI.
  - intros i d m Hd Hm. rewrite lookup_insert_ne; [apply (inv_nonce f HI _ _ _ Hd Hm)|].
    intros ->. apply (Hnone i). exists d. done.
  - intros m Hm. destruct (base.decide (m = n)) as [->|Hne]; [rewrite lookup_insert_eq; eauto|].
    rewrite lookup_insert_ne by done. apply (inv_token f HI _ Hm).
  - intros m t' Hm. destruct (base.decide (m = n)) as [->|Hne].
    + apply (inv_token f HI) in Hm. rewrite Hn in Hm. destruct Hm. discriminate.
    + rewrite lookup_insert_ne by done. apply (inv_fresh f HI _ _ Hm).
  - intros m t'. destruct (base.decide (m = n)) as [->|Hne].
    + rewrite lookup_insert_eq. intros [= <-]. apply (inv_live f HI t p Hl).
    + rewrite lookup_insert_ne by done. apply (inv_drawn f HI).
Qed.

(** One call of a live thread. *)
Lemma exec_inv t p o {R} (c : Sys R) f r f' :
  Inv f -> live f !! t = Some p -> pre t p c f -> exec t o c f = Some (r, f') -> Inv f'.
Proof.
  intros HI Hl Hpre He. destruct c; cbn in He, Hpre; repeat case_match; simplify_eq; try done.
  - bprop. apply (draw_inv f t p); [done..|]. eapply bool_decide_eq_true_1. eassumption.
  - destruct Hpre as (n & -> & Hn & Hd & Hf). apply link_inv; try done. eapply bool_decide_eq_true_1. eassumption.
  - apply flocks_inv; [done|]. intros j t'. destruct (base.decide (j = i)) as [->|Hne].
    + rewrite lookup_insert_eq. intros [= <-]. eauto.
    + rewrite lookup_insert_ne by done. apply (inv_flock f HI).
  - apply flocks_inv; [done|]. intros j t' Hj. apply lookup_delete_Some in Hj as [_ Hj]. apply (inv_flock f HI _ _ Hj).
  - eapply unlink_inv; [done..|]. apply Hpre. done.
  - destruct Hpre as (i & Hi & Hu). apply (token_set_inv f n v i); done.
  - destruct Hpre as (i & Hi & Hu). apply (token_set_inv f n v i); done.
  - apply token_remove_inv. done.
Qed.

Lemma exec_rely t p o {R} (c : Sys R) f r f' t' :
  Inv f -> live f !! t = Some p -> pre t p c f -> exec t o c f = Some (r, f') -> t' <> t -> Rely t' f f'.
Proof.
  intros HI Hl Hpre He Hne. destruct c; cbn in He, Hpre; repeat case_match; simplify_eq;
    try apply rely_refl; try (split; cbn; auto; fail).
  - bprop. match goal with H : bool_decide _ = true |- _ => apply bool_decide_eq_true in H; rename H into Hn end.
    split; cbn; auto. intros m x Hm. rewrite lookup_insert_ne by congruence. done.
  - match goal with H : bool_decide _ = true |- _ => apply bool_decide_eq_true in H; rename H into Hn end.
    split; cbn; auto; try congruence.
    + intros i d Hi. rewrite lookup_insert_ne by congruence. done.
    + intros i d Hi. destruct (base.decide (i = o_ino o)) as [->|Hio].
      * rewrite lookup_insert_eq in Hi. injection Hi as <-. right. cbn. congruence.
      * rewrite lookup_insert_ne in Hi by done. auto.
    + intros i [d Hd] Hu u Hc. cbn in Hc. destruct (base.decide (u = t)) as [->|Hut].
      * rewrite lookup_insert_eq in Hc. congruence.
      * rewrite lookup_insert_ne in Hc by done. apply (Hu u Hc).
    + rewrite lookup_insert_ne by congruence. done.
  - split; cbn; auto. intros j Hj. rewrite lookup_insert_ne by congruence. done.
  - split; cbn; auto. intros j Hj. rewrite lookup_delete_ne; [done|].
    match goal with H : bool_decide _ = true |- _ => apply bool_decide_eq_true in H end. congruence.
  - split; cbn; auto. intros i Hf Hp. destruct (Hpre i) as [Hf' _]; congruence.
Qed.

(** ** Reasoning about one thread's program *)

Section Programs.
Context (t : nat) (p : Z).

Lemma wp_rely {A} (m : Prog A) Q f f' : Rely t f f' -> wp t p m Q f -> wp t p m Q f'.
Proof. destruct m; cbn; intros HR Hw f1 HR1 HI; apply Hw; eauto using rely_trans. Qed.

Lemma wp_bind {A B} (m : Prog A) (k : A -> Prog B) Q f :
  wp t p m (fun a g => wp t p (k a) Q g) f -> wp t p (m ≫= k) Q f.
Proof.
  revert f. induction m as [a|R c h IH]; intros f Hw.
  - cbn. destruct (k a) eqn:E; cbn; intros f' HR HI; specialize (Hw f' HR HI); cbn in Hw; rewrite E in Hw;
      apply Hw; eauto using rely_refl.
  - cbn. intros f' HR HI. destruct (Hw f' HR HI) as [Hp Hk]. split; [exact Hp|].
    intros o r f'' He. apply IH, (Hk o r f'' He).
Qed.

Lemma wp_mono {A} (m : Prog A) (Q Q' : A -> FS -> Prop) f :
  (forall a g, Q a g -> Q' a g) -> wp t p m Q f -> wp t p m Q' f.
Proof.
  intros HQ. revert f. induction m as [a|R c h IH]; intros f Hw; cbn; intros f' HR HI.
  - apply HQ, Hw; done.
  - destruct (Hw f' HR HI) as [Hp Hk]. split; [done|]. intros o r f'' He. apply IH, (Hk o r f'' He).
Qed.

(** What the thread knows, and other threads do not take from it. *)
Definition Stable (P : FS -> Prop) : Prop := forall f f', Rely t f f' -> Inv f' -> P f -> P f'.

Lemma wp_ret {A} (a : A) (Q : A -> FS -> Prop) P f :
  Stable P -> P f -> (forall g, P g -> Inv g -> Q a g) -> wp t p (Ret a) Q f.
Proof. intros HS HP HQ f' HR HI. apply HQ; [apply (HS f f' HR HI HP)|exact HI]. Qed.

Lemma wp_sys {R A} (c : Sys R) (k : R -> Prog A) (P : FS -> Prop) Q f :
  Stable P -> P f -> (forall g, P g -> Inv g -> pre t p c g) ->
  (forall g o r g', P g -> Inv g -> exec t o c g = Some (r, g') -> wp t p (k r) Q g') ->
  wp t p (Call c k) Q f.
Proof.
  intros HS HP Hpre Hk f' HR HI. pose proof (HS f f' HR HI HP) as HP'.
  split; [apply Hpre; done|]. intros o r f'' He. apply (Hk f' o r f'' HP' HI He).
Qed.

(** The thread lives; it holds the advisory lock of [o]; its claim is [x]. *)
Definition knows (o : option nat) (f : FS) : Prop :=
  live f !! t = Some p /\
  forall i, o = Some i -> flocks f !! i = Some t /\ is_Some (inodes f !! i).
Definition knows_claim (o : option nat) (x : option nat) (f : FS) : Prop :=
  knows o f /\ claims f !! t = x.
(** And the path leads to [i]. *)
Definition leads (i : nat) (x : option nat) (f : FS) : Prop :=
  knows_claim (Some i) x f /\ path f = Some i.
Definition removable (i : nat) (x : option nat) (f : FS) : Prop :=
  leads i x f /\ unclaimed f i.

Lemma knows_stable o : Stable (knows o).
Proof.
  intros f f' HR HI [Hl Hk]. split; [rewrite (rely_live _ _ _ HR); done|]. intros i Hi.
  destruct (Hk i Hi) as [Hf [d Hd]]. split; [apply (rely_flock _ _ _ HR i Hf)|]. exists d.
  apply (rely_inode _ _ _ HR i d Hd).
Qed.
Lemma knows_claim_stable o x : Stable (knows_claim o x).
Proof.
  intros f f' HR HI [Hk Hc]. split; [apply (knows_stable o f f' HR HI Hk)|]. rewrite (rely_claims _ _ _ HR). done.
Qed.
Lemma leads_stable i x : Stable (leads i x).
Proof.
  intros f f' HR HI [Hk Hp]. split; [apply (knows_claim_stable _ _ f f' HR HI Hk)|].
  destruct Hk as [[_ Hk] _]. apply (rely_path _ _ _ HR); [apply (Hk i eq_refl)|done].
Qed.
Lemma removable_stable i x : Stable (removable i x).
Proof.
  intros f f' HR HI [Hk Hu]. split; [apply (leads_stable _ _ f f' HR HI Hk)|].
  destruct Hk as [[[_ Hk] _] _]. apply (rely_unclaimed _ _ _ HR); [apply (Hk i eq_refl)|done].
Qed.
Lemma removable_pre i x f : removable i x f -> pre t p Unlink f.
Proof. intros [[[[_ Hk] _] Hp] Hu] j Hj. assert (j = i) by congruence. subst. split; [apply (Hk i eq_refl)|done]. Qed.
Lemma inode_stable i d : Stable (fun g => inodes g !! i = Some d).
Proof. intros f f' HR _. apply (rely_inode _ _ _ HR). Qed.
Lemma stable_and (P Q : FS -> Prop) : Stable P -> Stable Q -> Stable (fun g => P g /\ Q g).
Proof. intros HP HQ f f' HR HI [H1 H2]. eauto. Qed.
#[local] Hint Resolve stable_and inode_stable knows_stable knows_claim_stable leads_stable removable_stable removable_pre : pty.

(** One call from what is known before it: [g] and [h] the disk before and after, [HP]
    and [HI] what holds before, [He] what the call did. *)
Tactic Notation "call" constr(P) ident(g) ident(h) ident(HP) ident(HI) ident(He) :=
  cbn [mbind Prog_bind pbind sys];
  eapply (wp_sys _ _ P);
  [ solve [eauto with pty]
  | try (first [assumption | unfold removable, leads, knows_claim in *; tauto])
  | intros ? Hpre ?; try exact I; try solve [eauto with pty]
  | intros g ? ? h HP HI He; cbn [exec] in He; cbn [mbind Prog_bind pbind sys] ].
Tactic Notation "ret" constr(P) :=
  eapply (wp_ret _ _ P); [solve [eauto with pty] | try assumption | intros ? ? ?; try solve [eauto]].

(** A withdrawn record, or one no thread has published, is nobody's claim. *)
Lemma not_published_unclaimed f i d text :
  Inv f -> inodes f !! i = Some d -> from_utf8 (content d) = Some text -> record_nonce text = None -> unclaimed f i.
Proof.
  intros HI Hd Ht Hr. apply (unclaimed_by_creator f i d HI Hd). intros u Hu _.
  destruct (inv_record f HI i d u Hd Hu) as (_ & q & n & Hc & Hn & Hq & _).
  destruct (record_read q n Hq Hn) as (Hu8 & Hrn & _). rewrite Hc, Hu8 in Ht. congruence.
Qed.

Lemma cleanup_ok i legacy x f :
  knows_claim (Some i) x f ->
  wp t p (cleanup i legacy) (fun _ g => knows_claim (Some i) x g) f.
Proof.
  intros Hk. unfold cleanup. call (knows_claim (Some i) x) g0 h0 HP0 HI0 He0. injection He0 as <- <-.
  call (knows_claim (Some i) x) g1 h1 HP1 HI1 He1. injection He1 as <- <-.
  match goal with |- context [match ?r with Ok _ => _ | Err _ => _ end] => destruct r as [[]|] end;
    [|ret (knows_claim (Some i) x)].
  match goal with |- context [match ?r with Ok _ => _ | Err _ => _ end] => destruct r as [[j|]|] eqn:Hr end;
    try (ret (knows_claim (Some i) x)).
  destruct (Nat.eqb_spec i j) as [<-|]; cbn [negb]; [|ret (knows_claim (Some i) x)].
  assert (Hl : leads i x g1) by (split; [done|]; case_in Hr; congruence).
  call (leads i x) g2 h2 HP2 HI2 He2.
  destruct (inodes g2 !! i) as [d|] eqn:Hd; [|discriminate]. injection He2 as <- <-.
  destruct (from_utf8 (content d)) as [text|] eqn:Ht; [|ret (leads i x); apply H].
  match goal with |- context [match ?r with Some _ => _ | None => _ end] => destruct r as [n|] eqn:Hn end;
    [|ret (leads i x); apply H].
  call (fun g => leads i x g /\ inodes g !! i = Some d) g3 h3 HP3 HI3 He3. injection He3 as <- <-.
  destruct HP3 as [Hl3 Hd3].
  destruct (bool_decide _) eqn:Hv; [|ret (leads i x); apply H]. apply bool_decide_eq_true_1 in Hv.
  assert (Hu : unclaimed g3 i).
  { destruct (record_nonce text) as [m|] eqn:Hm.
    - injection Hn as ->. apply (inv_withdrawn g3 HI3 n); [case_in Hv; congruence|].
      exists d. unfold nonce_of. rewrite Ht. done.
    - eapply not_published_unclaimed; eauto. }
  call (removable i x) g4 h4 HP4 HI4 He4.
  destruct HP4 as [[Hk4 Hp4] Hu4]. rewrite Hp4 in He4.
  case_in He4; injection He4 as <- <-; [ret (knows_claim (Some i) x)|].
  call (knows_claim (Some i) x) g5 h5 HP5 HI5 He5. injection He5 as <- <-.
  ret (knows_claim (Some i) x). case_goal; exact HP5.
Qed.

(** A nonce this thread drew and has not written. *)
Definition unused (n : bytes) (f : FS) : Prop :=
  is_nonce n = true /\ drawn f !! n = Some (Some t) /\ forall i, ~ has_nonce f i n.
Lemma unused_stable n : Stable (unused n).
Proof.
  intros f f' HR HI (Hn & Hd & Hf). split; [done|]. pose proof (rely_drawn _ _ _ HR _ _ Hd) as Hd'.
  split; [done|]. intros i (d & Hi & Hr). destruct (rely_new _ _ _ HR _ _ Hi) as [Hi'|Hc].
  - apply (Hf i). exists d. done.
  - rewrite (inv_nonce f' HI _ _ _ Hi Hr) in Hd'. congruence.
Qed.
#[local] Hint Resolve unused_stable : pty.

Definition created (o : option nat) (r : Result bool unit) (g : FS) : Prop :=
  knows o g /\ (r = Ok true -> exists i, claims g !! t = Some i).

Lemma knows_drawn o f n : knows o f -> knows o (f <| drawn ::= <[n := Some t]> |>).
Proof. intros H. exact H. Qed.

Lemma try_create_ok o f : knows o f -> wp t p (try_create p) (created o) f.
Proof.
  intros Hk. unfold try_create. call (knows o) g0 h0 HP0 HI0 He0.
  case_in He0; [|discriminate]. injection He0 as <- <-. bprop.
  match goal with H : bool_decide _ = true |- _ => apply bool_decide_eq_true_1 in H; rename H into Hn end.
  set (n := o_nonce o0) in *.
  call (fun g => knows o g /\ unused n g) g1 h1 HP1 HI1 He1.
  - split; [exact HP0|]. split; [done|]. cbn. rewrite lookup_insert_eq. split; [done|].
    intros i (d & Hd & Hr). rewrite (inv_nonce g0 HI0 _ _ _ Hd Hr) in Hn. discriminate.
  - destruct Hpre as [_ (H2 & H3 & H4)]. exists n. done.
  - destruct HP1 as [Hk1 _]. case_in He1; [|case_in He1; [|case_in He1; [|discriminate]]]; injection He1 as <- <-.
    + ret (knows o). intros. split; [done|discriminate].
    + ret (knows o). intros. split; [done|discriminate].
    + match goal with H : bool_decide _ = true |- _ => apply bool_decide_eq_true_1 in H; rename H into Ho end.
      ret (knows_claim o (Some (o_ino o1))); [|split; [apply H0|intros _; eexists; apply H0]].
      split; [|cbn; rewrite lookup_insert_eq; done]. destruct Hk1 as [Hl Hk1]. split; [done|].
      intros i Hi. cbn. destruct (Hk1 i Hi) as [Hf [d Hd]]. split; [done|]. exists d.
      rewrite lookup_insert_ne by congruence. done.
Qed.

(** A holder found dead, or no holder to find, leaves the record unclaimed. *)
Lemma holder_is_alive_ok i f :
  leads i (claims f !! t) f ->
  wp t p (holder_is_alive i) (fun b g => leads i (claims g !! t) g /\ (b = false -> unclaimed g i)) f.
Proof.
  intros Hl. set (x := claims f !! t) in *. unfold holder_is_alive.
  assert (HQ : forall b g, leads i x g -> (b = false -> unclaimed g i) ->
    leads i (claims g !! t) g /\ (b = false -> unclaimed g i)).
  { intros b g H Hu. split; [|done]. destruct H as [[? E] ?]. rewrite E. split; [split|]; done. }
  call (leads i x) g0 h0 HP0 HI0 He0.
  destruct (inodes g0 !! i) as [d|] eqn:Hd; [|discriminate]. injection He0 as <- <-.
  assert (Hno : from_utf8 (content d) = None \/
    (exists text, from_utf8 (content d) = Some text /\ parse_leading_int (trim is_trim_space text) = None) ->
    unclaimed g0 i).
  { intros Hbad. apply (unclaimed_by_creator g0 i d HI0 Hd). intros u Hu _.
    destruct (inv_record g0 HI0 i d u Hd Hu) as (_ & q & n & Hc & Hn & Hq & _).
    destruct (record_read q n Hq Hn) as (Hu8 & _ & Hlead & Htrim). rewrite Hc in Hbad.
    destruct Hbad as [Hbad|(text & Ht & Hbad)]; [congruence|].
    rewrite Hu8 in Ht. injection Ht as <-. rewrite Htrim in Hbad. congruence. }
  destruct (from_utf8 (content d)) as [text|] eqn:Ht.
  2: { ret (removable i x); [split; [done|]; auto|]. apply HQ; [apply H|intros _; apply H]. }
  destruct (parse_leading_int (trim is_trim_space text)) as [q|] eqn:Hq.
  2: { ret (removable i x); [split; [done|]; eauto|]. apply HQ; [apply H|intros _; apply H]. }
  call (fun g => leads i x g /\ inodes g !! i = Some d) g1 h1 HP1 HI1 He1. injection He1 as <- <-.
  destruct HP1 as [Hl1 Hd1].
  destruct ((0 <? q) && _) eqn:Ha; [ret (leads i x); apply HQ; done|].
  ret (removable i x); [|apply HQ; [apply H|intros _; apply H]]. split; [done|].
  apply (unclaimed_by_creator g1 i d HI1 Hd1). intros u Hu Hcl.
  destruct (inv_claim g1 HI1 _ _ Hcl) as (_ & [q' Hlive] & _).
  destruct (inv_record g1 HI1 i d u Hd1 Hu) as (_ & q2 & n & Hc & Hn & Hq2 & Hsame).
  destruct (record_read q2 n Hq2 Hn) as (Hu8 & _ & Hlead & Htrim).
  rewrite Hc, Hu8 in Ht. injection Ht as <-. rewrite Htrim, Hlead in Hq. injection Hq as <-.
  rewrite (someone_has_elem g1 u q2) in Ha by (apply Hsame; eauto).
  rewrite (proj2 (Z.ltb_lt 0 q2)) in Ha by lia. discriminate.
Qed.

Lemma steal_body_ok i f : knows (Some i) f -> wp t p (steal_body p i) (created (Some i)) f.
Proof.
  intros Hk. unfold steal_body.
  assert (Hret : forall r g, r <> Ok true -> knows (Some i) g -> wp t p (Ret r) (created (Some i)) g).
  { intros r g Hr Hg. ret (knows (Some i)). intros. split; done. }
  call (knows (Some i)) g0 h0 HP0 HI0 He0. injection He0 as <- <-.
  match goal with |- context [match ?r with Ok _ => _ | Err _ => _ end] => destruct r as [[]|] end;
    [|apply Hret; done].
  call (knows (Some i)) g1 h1 HP1 HI1 He1. injection He1 as <- <-.
  match goal with |- context [match ?r with Ok _ => _ | Err _ => _ end] => destruct r as [[j|]|] eqn:Hr end;
    [|apply try_create_ok; done|apply Hret; done].
  destruct (Nat.eqb_spec i j) as [<-|]; cbn [negb]; [|apply Hret; done].
  assert (Hl : leads i (claims g1 !! t) g1).
  { split; [split; done|]. case_in Hr; congruence. }
  apply wp_bind. eapply wp_mono; [|apply holder_is_alive_ok, Hl].
  intros alive g [Hlg Hug]. destruct alive; [apply Hret; [done|apply Hlg]|].
  set (x := claims g !! t) in *. assert (Hrm : removable i x g) by (split; auto).
  call (removable i x) g2 h2 HP2 HI2 He2. injection He2 as <- <-.
  assert (Hrest : forall g, removable i x g -> wp t p
    (Call Unlink (fun r => match r with Ok _ => try_create p | Err e => Ret (Err e) end)) (created (Some i)) g).
  { intros g3 Hg3. call (removable i x) g4 h4 HP4 HI4 He4.
    destruct HP4 as [[[Hk4 Hc4] Hp4] Hu4]. rewrite Hp4 in He4.
    case_in He4; injection He4 as <- <-; [apply Hret; done|]. apply try_create_ok. done. }
  match goal with |- context [match ?r with Some _ => _ | None => _ end] => destruct r as [n|] end.
  - call (removable i x) g3 h3 HP3 HI3 He3. injection He3 as <- <-. apply Hrest. case_goal; exact HP3.
  - cbn [pbind]. apply Hrest. exact HP2.
Qed.

Lemma steal_opened_lock_ok i f :
  live f !! t = Some p -> is_Some (inodes f !! i) ->
  wp t p (steal_opened_lock p i) (created None) f.
Proof.
  intros Hl Hi. unfold steal_opened_lock.
  assert (Hn : forall g o, knows o g -> knows None g) by (intros g o [? _]; split; [done|discriminate]).
  assert (Hret : forall r g, r <> Ok true -> live g !! t = Some p -> wp t p (Ret r) (created None) g).
  { intros r g Hr Hg. ret (knows None); [split; [done|discriminate]|]. split; done. }
  destruct Hi as [d Hd].
  call (fun g => knows None g /\ inodes g !! i = Some d) g0 h0 HP0 HI0 He0.
  { split; [split; [done|discriminate]|done]. }
  destruct HP0 as [[Hl0 _] Hd0].
  case_in He0; [injection He0 as <- <-; apply Hret; done|].
  case_in He0; injection He0 as <- <-; [apply Hret; done|].
  apply wp_bind. eapply wp_mono; [|apply steal_body_ok].
  2: { split; [done|]. cbn. intros j [= <-]. rewrite lookup_insert_eq. eauto. }
  intros r g [Hkg Hc]. apply wp_bind.
  eapply wp_mono; [|apply (cleanup_ok i None (claims g !! t)); split; done].
  intros [] g1 Hg1. call (knows_claim (Some i) (claims g !! t)) g2 h2 HP2 HI2 He2. injection He2 as <- <-.
  ret (knows_claim None (claims g !! t)).
  - destruct HP2 as [[Hl2 _] Hc2]. case_goal; (split; [split; [exact Hl2|discriminate]|exact Hc2]).
  - destruct H as [Hk2 Hc2]. split; [done|]. intros Hr. rewrite Hc2. auto.
Qed.

(** The claim a grant stands for. *)
Definition owns (n : bytes) (f : FS) : Prop := exists i, claims f !! t = Some i /\ has_nonce f i n.
Definition granted (r : Result (option bytes) unit) (g : FS) : Prop :=
  forall n, r = Ok (Some n) -> owns n g.

Lemma then_guard_ok r f : created None r f -> wp t p (then_guard r) granted f.
Proof.
  intros [Hk Hr]. unfold then_guard.
  destruct r as [[]|e]; [|ret (knows None); intros n [=]..].
  destruct (Hr eq_refl) as [i Hc]. unfold read_guard.
  call (knows_claim None (Some i)) g0 h0 HP0 HI0 He0.
  destruct HP0 as [Hk0 Hc0]. destruct (inv_claim g0 HI0 _ _ Hc0) as (Hp0 & _ & d & Hd & _).
  injection He0 as <- <-. rewrite Hp0. cbn [mbind option_bind]. rewrite Hd.
  ret (fun g => knows_claim None (Some i) g /\ inodes g !! i = Some d); [done|].
  intros n Hn. destruct H as [[_ Hcg] Hdg].
  exists i. split; [done|]. exists d. split; [done|]. unfold nonce_of.
  match type of Hn with context [o_fail ?o] => destruct (o_fail o) end; [discriminate|].
  destruct (from_utf8 (content d)) as [text|]; [|discriminate]. cbn [rbind mbind option_bind] in *.
  destruct (record_nonce text); cbn in *; congruence.
Qed.

Lemma try_acquire_ok f : live f !! t = Some p -> wp t p (try_acquire_file_lock p) granted f.
Proof.
  intros Hl. unfold try_acquire_file_lock. assert (Hk : knows None f) by (split; [done|discriminate]).
  assert (Hret : forall r g, (forall n, r <> Ok (Some n)) -> knows None g -> wp t p (Ret r) granted g).
  { intros r g Hr Hg. ret (knows None). intros n Hn. destruct (Hr n Hn). }
  call (knows None) g0 h0 HP0 HI0 He0. injection He0 as <- <-.
  match goal with |- context [match ?r with Ok _ => _ | Err _ => _ end] => destruct r as [[]|] end;
    [|apply Hret; done].
  apply wp_bind. eapply wp_mono; [|apply try_create_ok, HP0].
  intros r g Hg. destruct r as [[]|e]; [apply then_guard_ok, Hg| |apply Hret; [done|apply Hg]].
  destruct Hg as [Hkg _].
  call (knows None) g1 h1 HP1 HI1 He1. injection He1 as <- <-.
  match goal with |- context [match ?r with Ok _ => _ | Err _ => _ end] => destruct r as [[j|]|] eqn:Hr end.
  - assert (Hj : is_Some (inodes g1 !! j)) by (apply (inv_path g1 HI1); case_in Hr; congruence).
    apply wp_bind. eapply wp_mono; [|apply steal_opened_lock_ok; [apply HP1|exact Hj]].
    intros r g2 Hg2. apply then_guard_ok, Hg2.
  - apply wp_bind. eapply wp_mono; [|apply try_create_ok, HP1]. intros r g2 Hg2. apply then_guard_ok, Hg2.
  - apply Hret; done.
Qed.

(** A claim being released: the thread has none, and the record with this nonce is its own. *)
Definition leaving (i : nat) (n : bytes) (f : FS) : Prop :=
  knows_claim None None f /\
  exists d, inodes f !! i = Some d /\ nonce_of d = Some n /\ creator d = Some t.
Lemma leaving_stable i n : Stable (leaving i n).
Proof.
  intros f f' HR HI (Hk & d & Hd & Hn). split; [apply (knows_claim_stable _ _ f f' HR HI Hk)|].
  exists d. split; [apply (rely_inode _ _ _ HR _ _ Hd)|done].
Qed.
#[local] Hint Resolve leaving_stable : pty.
Lemma leaving_unclaimed i n f : Inv f -> leaving i n f -> unclaimed f i.
Proof.
  intros HI ([_ Hc] & d & Hd & _ & Hcr). apply (unclaimed_by_creator f i d HI Hd). intros u Hu. congruence.
Qed.
Lemma leaving_has i n f : leaving i n f -> has_nonce f i n.
Proof. intros (_ & d & Hd & Hn & _). exists d. done. Qed.
Lemma leaving_token i n v f : Inv f -> leaving i n f -> pre t p (TokenWrite n v) f /\ pre t p (TokenPublish n v) f.
Proof. intros HI Hl. split; exists i; (split; [eapply leaving_has, Hl|eapply leaving_unclaimed, Hl; done]). Qed.

Lemma withdraw_claim_ok i n f : leaving i n f -> wp t p (withdraw_claim n) (fun _ g => leaving i n g) f.
Proof.
  intros Hl. unfold withdraw_claim.
  assert (Hwrite : forall g, leaving i n g -> wp t p (Call (TokenWrite n WITHDRAWN) Ret) (fun _ g => leaving i n g) g).
  { intros g Hg. call (leaving i n) g1 h1 HP1 HI1 He1.
    - apply (leaving_token i n); done.
    - injection He1 as <- <-. ret (leaving i n). repeat case_goal; exact HP1. }
  call (leaving i n) g0 h0 HP0 HI0 He0. injection He0 as <- <-.
  match goal with |- context [match ?r with Ok _ => _ | Err _ => _ end] => destruct r as [[]|] end;
    [apply Hwrite; done| |ret (leaving i n)].
  call (leaving i n) g1 h1 HP1 HI1 He1; [apply (leaving_token i n); done|].
  assert (Hh1 : leaving i n h1) by (repeat case_in He1; injection He1 as <- <-; exact HP1).
  match goal with |- context [match ?r with Ok _ => _ | Err _ => _ end] => destruct r as [[]|] end;
    [|ret (leaving i n)].
  call (leaving i n) g2 h2 HP2 HI2 He2. injection He2 as <- <-.
  match goal with |- context [match ?r with Ok _ => _ | Err _ => _ end] => destruct r as [[]|] end;
    [apply Hwrite; done|ret (leaving i n)..].
Qed.

Lemma nonce_of_text d text : from_utf8 (content d) = Some text -> nonce_of d = record_nonce text.
Proof. intros H. unfold nonce_of. rewrite H. done. Qed.

(** Only the record with our nonce passes the release's test, and it is ours. *)
Lemma names_us_ours f i0 i n d text :
  Inv f -> leaving i0 n f -> inodes f !! i = Some d -> from_utf8 (content d) = Some text ->
  names_us p n text = true -> i = i0.
Proof.
  intros HI Hl Hd Ht Hn. unfold names_us in Hn. bprop. apply (inv_unique f HI i i0 n); [|eapply leaving_has, Hl].
  exists d. split; [done|]. rewrite (nonce_of_text d text Ht). eapply bool_decide_eq_true_1. eassumption.
Qed.

Definition locked_leaving (i : nat) (n : bytes) (f : FS) : Prop := knows_claim (Some i) None f /\ leaving i n f.

Lemma release_body_ok events i n f :
  locked_leaving i n f ->
  wp t p (release_body events p n i) (fun _ g => knows_claim (Some i) None g) f.
Proof.
  intros Hl. unfold release_body.
  assert (Hst : Stable (locked_leaving i n)) by (apply stable_and; eauto with pty).
  assert (Hret : forall (b : bool) g, locked_leaving i n g ->
    wp t p (Ret b) (fun _ g => knows_claim (Some i) None g) g) by (intros b g [Hg _]; ret (knows_claim (Some i) None)).
  eapply (wp_sys _ _ (locked_leaving i n)); [done..|]. intros g0 o0 r0 h0 HP0 HI0 He0. cbn [exec] in He0.
  destruct (inodes g0 !! i) as [d|] eqn:Hd; [|discriminate]. injection He0 as <- <-.
  destruct (from_utf8 (content d)) as [text|]; [|apply Hret; done].
  destruct (names_us p n text); cbn [negb]; [|apply Hret; done].
  cbn [mbind Prog_bind pbind sys].
  eapply (wp_sys _ _ (locked_leaving i n)); [done..|]. intros g1 o1 r1 h1 HP1 HI1 He1. injection He1 as <- <-.
  eapply (wp_sys _ _ (locked_leaving i n)); [done..|]. intros g2 o2 r2 h2 HP2 HI2 He2. injection He2 as <- <-.
  cbn [mbind Prog_bind pbind sys].
  match goal with |- context [match ?r with Ok _ => _ | Err _ => _ end] => destruct r as [[]|] end;
    [|apply Hret; done].
  match goal with |- context [match ?r with Ok _ => _ | Err _ => _ end] => destruct r as [[j|]|] eqn:Hr end;
    try (apply Hret; done).
  destruct (Nat.eqb_spec i j) as [<-|]; cbn [negb]; [|apply Hret; done].
  assert (Hrm : removable i None g2).
  { destruct HP2 as [HP2 Hlv]. split; [split; [done|case_in Hr; congruence]|].
    eapply leaving_unclaimed, Hlv. done. }
  call (removable i None) g3 h3 HP3 HI3 He3.
  destruct HP3 as [[Hk3 Hp3] Hu3]. rewrite Hp3 in He3.
  case_in He3; injection He3 as <- <-; [ret (knows_claim (Some i) None)|].
  destruct events; cbn [pbind]; [ret (knows_claim (Some i) None); exact Hk3|].
  call (knows_claim (Some i) None) g4 h4 HP4 HI4 He4. injection He4 as <- <-.
  ret (knows_claim (Some i) None). case_goal; exact HP4.
Qed.

Lemma release_ok events i n f :
  leaving i n f -> wp t p (release events p n) (fun _ _ => True) f.
Proof.
  intros Hl. unfold release.
  assert (Hret : forall (b : bool) g, leaving i n g -> wp t p (Ret b) (fun _ _ => True) g).
  { intros b g Hg f' _ _. done. }
  assert (Hrest : forall g, leaving i n g ->
    wp t p (release_file_lock_checked_nonce events p n) (fun _ _ => True) g).
  2: { apply wp_bind. destruct events; [ret (leaving i n)|].
       eapply wp_mono; [|apply withdraw_claim_ok, Hl]. intros u g Hg. apply Hrest, Hg. }
  clear f Hl. intros f Hl. unfold release_file_lock_checked_nonce.
  call (leaving i n) g0 h0 HP0 HI0 He0. injection He0 as <- <-.
  match goal with |- context [match ?r with Ok _ => _ | Err _ => _ end] => destruct r as [[j|]|] eqn:Hr end;
    try (apply Hret; done).
  assert (Hj : is_Some (inodes g0 !! j)) by (apply (inv_path g0 HI0); case_in Hr; congruence).
  destruct Hj as [d Hd]. call (fun g => leaving i n g /\ inodes g !! j = Some d) g1 h1 HP1 HI1 He1.
  destruct HP1 as [Hl1 Hd1]. rewrite Hd1 in He1. injection He1 as <- <-.
  destruct (from_utf8 (content d)) as [text|] eqn:Ht; [|apply Hret; done].
  destruct (names_us p n text) eqn:Hn; cbn [negb]; [|apply Hret; done].
  pose proof (names_us_ours g1 i j n d text HI1 Hl1 Hd1 Ht Hn) as ->.
  assert (Hlock : forall wait g, leaving i n g -> wp t p (Call (Flock i wait) (fun locked => match locked with
      | Ok true => released ← release_body events p n i; _ ← cleanup i (Some (p, n)); _ ← sys (Unflock i); Ret released
      | _ => Ret false end)) (fun _ _ => True) g).
  2: { destruct events; [|apply Hlock, Hl1].
       call (leaving i n) g2 h2 HP2 HI2 He2. injection He2 as <- <-. apply Hlock. done. }
  intros wait g Hg.
  call (leaving i n) g2 h2 HP2 HI2 He2.
  case_in He2; [injection He2 as <- <-; apply Hret; done|].
  case_in He2; [case_in He2; [discriminate|]; injection He2 as <- <-; apply Hret; done|].
  injection He2 as <- <-. destruct HP2 as [[[Hlive _] Hcl] (d' & Hd' & Hnd & Hcr)].
  apply wp_bind. eapply wp_mono; [|apply (release_body_ok events i n)].
  2: { split; [split; [split; [done|]|done]|split; [split; [split; [done|discriminate]|done]|]].
       - intros k [= <-]. cbn. rewrite lookup_insert_eq. eauto.
       - exists d'. done. }
  intros b g3 Hg3. apply wp_bind. eapply wp_mono; [|apply cleanup_ok, Hg3].
  intros u g4 Hg4. call (knows_claim (Some i) None) g5 h5 HP5 HI5 He5. intros f' _ _. done.
Qed.
End Programs.

(** ** Every thread at once *)

Definition thread_ok (f : FS) (t : nat) (p : Z) (s : Thread) : Prop :=
  match s with
  | Idle => True
  | Acquiring m => wp t p m (granted t) f
  | Holding n => owns t n f
  | Releasing m => wp t p m (fun _ _ => True) f
  end.
Record sound (w : World) : Prop := {
  sound_inv : Inv (fs w);
  sound_threads t p s : live (fs w) !! t = Some p -> threads w !! t = Some s -> thread_ok (fs w) t p s
}.

Lemma owns_rely t n f f' : Rely t f f' -> owns t n f -> owns t n f'.
Proof.
  intros HR (i & Hc & Hn). exists i. rewrite (rely_claims _ _ _ HR). split; [done|].
  eapply has_nonce_mono; [|exact Hn]. apply (rely_inode _ _ _ HR).
Qed.
Lemma thread_ok_rely f f' t p s : Rely t f f' -> thread_ok f t p s -> thread_ok f' t p s.
Proof. intros HR. destruct s; cbn; eauto using wp_rely, owns_rely. Qed.

(** One thread moves, the others stay as they were. *)
Lemma sound_move w t p s f' s' :
  sound w -> live (fs w) !! t = Some p -> threads w !! t = Some s ->
  Inv f' -> (forall t', t' <> t -> Rely t' (fs w) f') -> live f' = live (fs w) -> thread_ok f' t p s' ->
  sound (mkWorld f' (<[t := s']> (threads w))).
Proof.
  intros [HI Hth] Hl Hs HI' HR Hlive Hok. split; [done|]. cbn. intros t' p' u Hl' Hu.
  rewrite Hlive in Hl'. destruct (base.decide (t' = t)) as [->|Hne].
  - rewrite lookup_insert_eq in Hu. simplify_eq. congruence.
  - rewrite lookup_insert_ne in Hu by done. eapply thread_ok_rely; [apply HR, Hne|]. eauto.
Qed.
Lemma sound_stay w t p s s' :
  sound w -> live (fs w) !! t = Some p -> threads w !! t = Some s -> thread_ok (fs w) t p s' ->
  sound (mkWorld (fs w) (<[t := s']> (threads w))).
Proof. intros Hw Hl Hs Hok. eapply sound_move; eauto using rely_refl. apply Hw. Qed.

Lemma exec_live t o {R} (c : Sys R) f r f' : exec t o c f = Some (r, f') -> live f' = live f.
Proof. destruct c; cbn; intros He; repeat case_match; simplify_eq; done. Qed.

(** A program whose thread is sound makes its next call soundly. *)
Lemma advance_ok t p o {A} (m m' : Prog A) Q f f' :
  Inv f -> live f !! t = Some p -> wp t p m Q f -> advance t o m f = Some (m', f') ->
  Inv f' /\ (forall t', t' <> t -> Rely t' f f') /\ live f' = live f /\ wp t p m' Q f'.
Proof.
  intros HI Hl Hw Ha. destruct m as [a|R c k]; cbn in Ha; [discriminate|].
  destruct (exec t o c f) as [[r g]|] eqn:He; [|discriminate]. injection Ha as <- <-.
  destruct (Hw f (rely_refl t f) HI) as [Hpre Hk].
  split; [apply (exec_inv t p o c f r g HI Hl Hpre He)|]. split.
  { intros t' Hne. apply (exec_rely t p o c f r g t' HI Hl Hpre He Hne). }
  split; [apply (exec_live t o c f r g He)|]. apply (Hk o r g He).
Qed.

Lemma gave_up_ok t f : Inv f ->
  Inv (gave_up t f) /\ forall t', t' <> t -> Rely t' f (gave_up t f).
Proof.
  intros HI. split.
  - destruct HI. constructor; cbn; try assumption.
    + intros u i Hu. apply lookup_delete_Some in Hu as [_ Hu]. eauto.
    + intros n i Ht Hi u Hu. cbn in Hu. apply lookup_delete_Some in Hu as [_ Hu]. apply (inv_withdrawn0 n i Ht Hi u Hu).
  - intros t' Hne. split; cbn; auto.
    + intros i _ Hu u Hc. cbn in Hc. apply lookup_delete_Some in Hc as [_ Hc]. apply (Hu u Hc).
    + rewrite lookup_delete_ne by done. done.
Qed.

Lemma owns_leaving t p n f : Inv f -> live f !! t = Some p -> owns t n f -> exists i, leaving t p i n (gave_up t f).
Proof.
  intros HI Hl (i & Hc & d & Hd & Hn). exists i. destruct (inv_claim f HI _ _ Hc) as (_ & _ & d' & Hd' & Hcr).
  split; [split; [split; [done|discriminate]|cbn; rewrite lookup_delete_eq; done]|].
  exists d. split; [done|]. split; [done|]. congruence.
Qed.

Lemma spawn_ok t p f : Inv f -> t ∉ born f -> 0 < p <= I32_MAX ->
  let f' := f <| live ::= <[t := p]> |> <| born ::= fun b => {[t]} ∪ b |> in
  Inv f' /\ forall t', t' <> t -> Rely t' f f'.
Proof.
  intros HI Ht Hp f'. assert (Hnew : live f !! t = None).
  { destruct (live f !! t) as [q|] eqn:E; [|done]. destruct (inv_live f HI _ _ E) as [Hb _]. done. }
  assert (Hkeep : forall u, is_Some (live f !! u) -> is_Some (live f' !! u)).
  { intros u [q Hu]. cbn. rewrite lookup_insert_ne by congruence. eauto. }
  split.
  - constructor; cbn; try apply HI.
    + intros u i Hc. destruct (inv_claim f HI _ _ Hc) as (H1 & H2 & H3). split; [done|]. split; [apply Hkeep, H2|done].
    + intros i d u Hi Hc. destruct (inv_record f HI _ _ _ Hi Hc) as (Hb & q & n & E & Hn & Hq & Hsame).
      split; [set_solver|]. exists q, n. split_and!; try done; try lia. intros [q' Hq'].
      rewrite lookup_insert_ne in * by (intros ->; done). apply Hsame. eauto.
    + intros i u Hf. apply Hkeep, (inv_flock f HI _ _ Hf).
    + intros n u Hd. pose proof (inv_drawn f HI _ _ Hd). set_solver.
    + intros u q Hu. destruct (base.decide (u = t)) as [->|Hne].
      * rewrite lookup_insert_eq in Hu. injection Hu as <-. split; [set_solver|done].
      * rewrite lookup_insert_ne in Hu by done. destruct (inv_live f HI _ _ Hu). split; [set_solver|done].
  - intros u Hne. split; cbn; auto. rewrite lookup_insert_ne by done. done.
Qed.

Lemma die_ok p f : Inv f -> Inv (die p f) /\ forall t q, live (die p f) !! t = Some q -> live f !! t = Some q /\ Rely t f (die p f).
Proof.
  intros HI.
  assert (Hlive : forall t q, survivors p f !! t = Some q <-> live f !! t = Some q /\ q <> p).
  { intros t q. unfold survivors. rewrite map_lookup_filter_Some. done. }
  assert (Hfl : forall i t, flocks (die p f) !! i = Some t <-> flocks f !! i = Some t /\ is_Some (survivors p f !! t)).
  { intros i t. cbn. rewrite map_lookup_filter_Some. cbn. rewrite bool_decide_eq_true. done. }
  assert (Hcl : forall t i, claims (die p f) !! t = Some i <-> claims f !! t = Some i /\ is_Some (survivors p f !! t)).
  { intros t i. cbn. rewrite map_lookup_filter_Some. cbn. rewrite bool_decide_eq_true. done. }
  split.
  - constructor; try (cbn; apply HI).
    + intros t i Hc. apply Hcl in Hc as [Hc Ha]. destruct (inv_claim f HI _ _ Hc) as (H1 & _ & H3). done.
    + cbn. intros i d t Hi Hc. destruct (inv_record f HI _ _ _ Hi Hc) as (Hb & q & n & E & Hn & Hq & Hsame).
      split; [done|]. exists q, n. split_and!; try done; try lia. intros [q' Hq']. rewrite Hq'.
      apply Hlive in Hq' as [Hq' _]. rewrite <- Hq'. apply Hsame. eauto.
    + intros n i Ht Hi u Hu. apply Hcl in Hu as [Hu _]. apply (inv_withdrawn f HI n i Ht Hi u Hu).
    + intros i t Hf. apply Hfl in Hf as [_ Hf]. done.
    + cbn. intros t q Ht. apply Hlive in Ht as [Ht _]. apply (inv_live f HI _ _ Ht).
  - intros t q Ht. cbn in Ht. pose proof (proj1 (Hlive t q) Ht) as [Hl _]. split; [done|].
    assert (Ha : is_Some (survivors p f !! t)) by eauto.
    split; try (cbn; auto; fail).
    + intros i Hf. apply Hfl. done.
    + intros i _ Hu u Hc. apply Hcl in Hc as [Hc _]. apply (Hu u Hc).
    + destruct (claims f !! t) as [i|] eqn:E.
      * apply Hcl. done.
      * destruct (claims (die p f) !! t) as [i|] eqn:E'; [|done]. apply Hcl in E' as [E' _]. congruence.
    + cbn. congruence.
Qed.

Lemma found_sound w : found w -> sound w.
Proof.
  intros []. split.
  2: { intros t p s Hl. rewrite found_live0, lookup_empty in Hl. discriminate. }
  assert (Hno : forall i d t, inodes (fs w) !! i = Some d -> creator d <> Some t).
  { intros i d t Hi. destruct (found_inodes0 i d Hi). congruence. }
  constructor.
  - intros t i Hc. rewrite found_claims0, lookup_empty in Hc. discriminate.
  - done.
  - intros i d t Hi Hc. destruct (Hno _ _ _ Hi Hc).
  - intros i d n Hi Hn. rewrite (found_drawn0 _ _ _ Hi Hn). destruct (found_inodes0 _ _ Hi) as [-> _]. done.
  - intros i j n (d & Hd & _) (d' & Hd' & _). destruct (found_inodes0 _ _ Hd), (found_inodes0 _ _ Hd'). congruence.
  - intros n [v Hv]. eauto.
  - intros n i _ _ t. rewrite found_claims0, lookup_empty. done.
  - intros n t _ Hd. pose proof (found_owners0 _ _ Hd). discriminate.
  - intros i t. rewrite found_flocks0, lookup_empty. done.
  - intros n t Hd. pose proof (found_owners0 _ _ Hd). discriminate.
  - intros t p. rewrite found_live0, lookup_empty. done.
Qed.

Lemma sound_step events w w' : sound w -> step events w w' -> sound w'.
Proof.
  intros Hw Hs. pose proof (sound_inv w Hw) as HI. pose proof (sound_threads w Hw) as Hth.
  destruct Hs as [t p Hl Ht|t o a a' f' Ht [p Hl] Ha|t n Ht [p Hl]|t r Ht [p Hl] Hr|t p n Hl Ht
                 |t o r r' f' Ht [p Hl] Ha|t b Ht [p Hl]|t p Ht Hp|p].
  - eapply sound_stay; eauto. apply try_acquire_ok, Hl.
  - destruct (advance_ok t p o a a' (granted t) (fs w) f' HI Hl (Hth _ _ _ Hl Ht) Ha) as (H1 & H2 & H3 & H4).
    eapply sound_move; eauto.
  - eapply sound_stay; eauto. apply (Hth _ _ _ Hl Ht (fs w) (rely_refl t _) HI n eq_refl).
  - eapply sound_stay; eauto. done.
  - destruct (gave_up_ok t (fs w) HI) as [H1 H2]. destruct (owns_leaving t p n (fs w) HI Hl (Hth _ _ _ Hl Ht)) as [i Hi].
    eapply sound_move; eauto. apply release_ok with (i := i), Hi.
  - destruct (advance_ok t p o r r' _ (fs w) f' HI Hl (Hth _ _ _ Hl Ht) Ha) as (H1 & H2 & H3 & H4).
    eapply sound_move; eauto.
  - eapply sound_stay; eauto. done.
  - destruct (spawn_ok t p (fs w) HI Ht Hp) as [H1 H2]. split; [done|]. intros u q s Hl Hu.
    cbn [fs threads] in *. destruct (base.decide (u = t)) as [->|Hne].
    + rewrite lookup_insert_eq in Hu. injection Hu as <-. done.
    + rewrite lookup_insert_ne in Hu by done. cbn in Hl. rewrite lookup_insert_ne in Hl by done.
      eapply thread_ok_rely; [apply H2, Hne|]. eauto.
  - destruct (die_ok p (fs w) HI) as [H1 H2]. split; [done|]. cbn [fs threads]. intros u q s Hl Hu.
    destruct (H2 _ _ Hl) as [Hl' HR]. eapply thread_ok_rely; [exact HR|]. eauto.
Qed.

Lemma reachable_sound events w : reachable events w -> sound w.
Proof. induction 1; eauto using found_sound, sound_step. Qed.

(** C2: A lock has one holder.  However threads of any processes interleave their
    acquisitions, thefts and releases call by call, whatever calls fail, whichever
    processes die or pids are reused, and whatever stale record the path began with: two
    live threads never hold the lock at once, and while one holds it the path leads to
    its own record, naming its process and the nonce it will release with. *)
Theorem lock_mutual_exclusion events w t n p :
  reachable events w -> threads w !! t = Some (Holding n) -> live (fs w) !! t = Some p ->
  (exists i d, path (fs w) = Some i /\ inodes (fs w) !! i = Some d /\ content d = record_of p n) /\
  forall t' n', threads w !! t' = Some (Holding n') -> is_Some (live (fs w) !! t') -> t' = t.
Proof.
  intros Hr Ht Hl. pose proof (reachable_sound _ _ Hr) as [HI Hth].
  pose proof (Hth _ _ _ Hl Ht) as (i & Hc & d & Hd & Hn). split.
  - destruct (inv_claim _ HI _ _ Hc) as (Hp & _ & d' & Hd' & Hcr). simplify_eq.
    exists i, d. split; [done|]. split; [done|].
    destruct (inv_record _ HI _ _ _ Hd Hcr) as (_ & q & m & E & Hm & Hq & Hsame).
    assert (p = q) by (rewrite Hsame in Hl by eauto; congruence). subst q.
    destruct (record_read p m Hq Hm) as (Hu & Hrn & _).
    unfold nonce_of in Hn. rewrite E, Hu in Hn. cbn in Hn. congruence.
  - intros t' n' Ht' [p' Hl']. pose proof (Hth _ _ _ Hl' Ht') as (j & Hcj & _). eapply claim_unique; eauto.
Qed.

(** ** A thread running alone *)

Fixpoint run (t : nat) (os : nat -> Oracle) (k : nat) {A} (m : Prog A) (f : FS) : option (A * FS) :=
  match m with
  | Ret a => Some (a, f)
  | Call c h => match exec t (os k) c f with Some (r, f) => run t os (S k) (h r) f | None => None end
  end.

Section Alone.
Context (t : nat) (p : Z) (inos : nat -> nat) (nonces : nat -> bytes) (alive : bool).

(** No call fails; inodes are new, and so are the nonces of the first calls. *)
Definition CALLS : nat := 32.
Definition calm (k : nat) : Oracle := mkOracle false (inos k) (nonces k) alive.
Record supply (f : FS) : Prop := {
  supply_live : live f !! t = Some p;
  supply_inos k : inodes f !! inos k = None;
  supply_nonces k : (k < CALLS)%nat -> is_nonce (nonces k) = true /\ drawn f !! nonces k = None;
  supply_distinct j k : (j < CALLS)%nat -> (k < CALLS)%nat -> nonces j = nonces k -> j = k
}.

Definition holder_lives (f : FS) (d : Inode) : bool :=
  match from_utf8 (content d) with
  | Some text => match parse_leading_int (trim is_trim_space text) with
                 | Some q => (0 <? q) && (someone_has f q || alive)
                 | None => false
                 end
  | None => false
  end.
Definition withdrawn (f : FS) (d : Inode) : Prop := exists n, nonce_of d = Some n /\ tokens f !! n = Some WITHDRAWN.

Lemma run_bind {A B} (m : Prog A) (h : A -> Prog B) os k f a f' :
  run t os k m f = Some (a, f') -> exists j, run t os k (m ≫= h) f = run t os j (h a) f'.
Proof.
  revert k f. induction m as [x|R c g IH]; intros k f Hr; cbn in *.
  - injection Hr as <- <-. eauto.
  - destruct (exec t (os k) c f) as [[r f1]|]; [|discriminate]. apply IH, Hr.
Qed.

Lemma run_call os k {R A} (c : Sys R) (h : R -> Prog A) f r f1 :
  exec t (os k) c f = Some (r, f1) -> run t os k (Call c h) f = run t os (S k) (h r) f1.
Proof. intros E. cbn [run]. rewrite E. done. Qed.
Ltac go := cbn [mbind Prog_bind pbind sys]; erewrite run_call; cycle 1.

Lemma run_assoc {A B C} (m : Prog A) (g : A -> Prog B) (h : B -> Prog C) os k f :
  run t os k ((m ≫= g) ≫= h) f = run t os k (x ← m; g x ≫= h) f.
Proof.
  revert k f. induction m as [a|R c u IH]; intros k f; cbn; [done|].
  destruct (exec t (os k) c f) as [[r f1]|]; [apply IH|done].
Qed.

Lemma exec_random k f : is_nonce (nonces k) = true -> drawn f !! nonces k = None ->
  exec t (calm k) Random f = Some (nonces k, f <| drawn ::= <[nonces k := Some t]> |>).
Proof. intros Hn Hd. cbn [exec calm o_nonce]. rewrite Hn, bool_decide_eq_true_2 by done. done. Qed.
Lemma exec_link k r f : path f = None -> inodes f !! inos k = None ->
  exec t (calm k) (LinkNew r) f =
    Some (Ok true, f <| path := Some (inos k) |> <| inodes ::= <[inos k := mkInode r (Some t)]> |>
                     <| claims ::= <[t := inos k]> |>).
Proof. intros Hp Hi. cbn [exec calm o_fail o_ino]. rewrite Hp, bool_decide_eq_true_2 by done. done. Qed.
Lemma exec_link_taken k r f i : path f = Some i -> exec t (calm k) (LinkNew r) f = Some (Ok false, f).
Proof. intros Hp. cbn [exec calm o_fail]. rewrite Hp. done. Qed.
Lemma exec_read_path k f i d : path f = Some i -> inodes f !! i = Some d ->
  exec t (calm k) ReadPath f =
    Some (match from_utf8 (content d) with Some text => Ok text | None => Err tt end, f).
Proof. intros Hp Hd. cbn [exec calm o_fail]. rewrite Hp. cbn [mbind option_bind]. rewrite Hd. done. Qed.
Lemma exec_read_inode k f i d : inodes f !! i = Some d ->
  exec t (calm k) (ReadInode i) f =
    Some (match from_utf8 (content d) with Some text => Ok text | None => Err tt end, f).
Proof. intros Hd. cbn [exec]. rewrite Hd. done. Qed.

(** A free path is claimed, and the claim read back, after nonces this thread drew. *)
Definition grabs (m : Prog (Result (option bytes) unit)) (k : nat) (f : FS) : Prop :=
  exists n f', run t calm k m f = Some (Ok (Some n), f') /\ owns t n f'.

Lemma guard_alone k f i n : 0 < p <= I32_MAX -> is_nonce n = true -> path f = Some i ->
  inodes f !! i = Some (mkInode (record_of p n) (Some t)) -> claims f !! t = Some i ->
  grabs (then_guard (Ok true)) k f.
Proof.
  intros Hp Hn Hpath Hi Hc. destruct (record_read p n Hp Hn) as (Hu & Hrn & _).
  unfold grabs, then_guard, read_guard. go; [eapply exec_read_path; done|].
  cbn [content]. rewrite Hu. cbn [rbind mbind Prog_bind pbind]. rewrite Hrn. cbn [rbind run].
  exists n, f. split; [done|]. exists i. split; [done|]. eexists. split; [done|].
  unfold nonce_of. cbn [content]. rewrite Hu. exact Hrn.
Qed.

(** The answer of a contender that meets a free, a stale, a live and a withdrawn claim. *)
Definition answered (f : FS) (r : Result (option bytes) unit) (f' : FS) : Prop :=
  match path f with
  | None => exists n, r = Ok (Some n) /\ owns t n f'
  | Some i =>
      match flocks f !! i with
      | Some _ => r = Ok None /\ path f' = path f
      | None =>
          forall d, inodes f !! i = Some d ->
          if holder_lives f d
          then r = Ok None /\ (withdrawn f d -> path f' = None) /\ (~ withdrawn f d -> path f' = path f)
          else exists n, r = Ok (Some n) /\ owns t n f'
      end
  end.
Lemma grabs_answer m k f : grabs m k f ->
  exists r f', run t calm k m f = Some (r, f') /\ exists n, r = Ok (Some n) /\ owns t n f'.
Proof. intros (n & f' & Hr & Ho). eauto 10. Qed.

(** What follows the body of a theft. *)
Definition finish (i : nat) (m : Prog (Result bool unit)) : Prog (Result (option bytes) unit) :=
  acquired ← (acquired ← m; _ ← cleanup i None; _ ← sys (Unflock i); Ret acquired); then_guard acquired.

Lemma theft_alone f i k :
  live f !! t = Some p -> 0 < p <= I32_MAX -> path f = Some i -> is_Some (inodes f !! i) ->
  (forall j, inodes f !! inos j = None) ->
  is_nonce (nonces (S k)) = true -> drawn f !! nonces (S k) = None ->
  grabs (finish i (Call Unlink (fun removed =>
           match removed with Ok _ => try_create p | Err e => Ret (Err e) end))) k f.
Proof.
  intros Hl Hp Hpath [d Hd] Hi Hn Hdr. unfold finish.
  unfold grabs. go; [cbn [exec calm o_fail]; rewrite Hpath; reflexivity|].
  unfold try_create. go; [apply exec_random; done|]. go; [apply exec_link; [done|apply Hi]|].
  unfold cleanup. go; [cbn [exec calm o_fail]; reflexivity|]. go; [cbn [exec calm o_fail]; reflexivity|].
  assert (Hne : (i =? inos (S (S k)))%nat = false).
  { apply Nat.eqb_neq. intros ->. rewrite Hi in Hd. discriminate. }
  match goal with |- context [path ?x] => change (path x) with (Some (inos (S (S k)))) end.
  cbv beta iota. rewrite Hne. cbn [negb]. go; [reflexivity|].
  case_bool_decide; apply (guard_alone _ _ (inos (S (S k))) (nonces (S k)) Hp Hn);
    first [reflexivity | apply lookup_insert_eq].
Qed.

Lemma exec_alive k q f : exec t (calm k) (PidAlive q) f = Some ((0 <? q) && (someone_has f q || alive), f).
Proof. reflexivity. Qed.

(** The cleanup of a claim removes it exactly when it was withdrawn. *)
Lemma cleanup_alone k f i d {B} (h : unit -> Prog B) :
  path f = Some i -> inodes f !! i = Some d ->
  exists j f', run t calm k (x ← cleanup i None; h x) f = run t calm j (h tt) f' /\
    (withdrawn f d -> path f' = None) /\ (~ withdrawn f d -> path f' = Some i).
Proof.
  intros Hpath Hd. unfold cleanup. go; [reflexivity|]. go; [reflexivity|].
  cbn [calm o_fail]. rewrite Hpath. cbv beta iota. rewrite Nat.eqb_refl. cbn [negb].
  go; [apply exec_read_inode, Hd|].
  assert (Hstay : (forall n, nonce_of d = Some n -> tokens f !! n <> Some WITHDRAWN) ->
    (withdrawn f d -> path f = None) /\ (~ withdrawn f d -> path f = Some i)).
  { intros Hno. split; [|done]. intros (n & Hn & Ht). destruct (Hno n Hn Ht). }
  destruct (from_utf8 (content d)) as [text|] eqn:Hu.
  2: { eexists _, f. split; [reflexivity|]. apply Hstay. unfold nonce_of. rewrite Hu. discriminate. }
  destruct (record_nonce text) as [n|] eqn:Hn.
  2: { eexists _, f. split; [reflexivity|]. apply Hstay. unfold nonce_of. rewrite Hu. cbn. rewrite Hn. discriminate. }
  assert (Hnd : nonce_of d = Some n) by (unfold nonce_of; rewrite Hu; done).
  go; [reflexivity|]. cbn [calm o_fail]. case_bool_decide as Hw.
  - go; [cbn [exec calm o_fail]; rewrite Hpath; reflexivity|]. go; [reflexivity|].
    eexists _, _. split; [reflexivity|]. split; [done|]. intros Hc. destruct Hc. exists n. done.
  - eexists _, f. split; [reflexivity|]. apply Hstay. congruence.
Qed.

Lemma acquire_alone_cases f : Inv f -> supply f ->
  exists r f', run t calm 0 (try_acquire_file_lock p) f = Some (r, f') /\ answered f r f'.
Proof.
  intros HI HS. pose proof (supply_live f HS) as Hl. destruct (inv_live f HI _ _ Hl) as [_ Hp].
  assert (Hnon : forall j, (j < CALLS)%nat -> is_nonce (nonces j) = true) by apply HS.
  assert (Hdrw : forall j, (j < CALLS)%nat -> drawn f !! nonces j = None) by apply HS.
  unfold CALLS in *. unfold try_acquire_file_lock. go; [cbn [exec calm o_fail]; reflexivity|]. unfold answered, try_create.
  go; [apply exec_random; [apply Hnon|apply Hdrw]; lia|].
  destruct (path f) as [i|] eqn:Hpath.
  2: { go; [apply exec_link; [done|apply (supply_inos f HS)]|]. apply grabs_answer.
       apply (guard_alone _ _ (inos 2) (nonces 1) Hp (Hnon 1%nat ltac:(lia))); first [reflexivity | apply lookup_insert_eq]. }
  go; [eapply exec_link_taken, Hpath|]. go; [cbn [exec calm o_fail]; reflexivity|].
  match goal with |- context [path ?x] => change (path x) with (path f); rewrite Hpath end.
  cbv beta iota. unfold steal_opened_lock.
  destruct (flocks f !! i) as [u|] eqn:Hfl.
  { go; [cbn [exec calm o_fail]; match goal with |- context [flocks ?x !! i] => change (flocks x) with (flocks f) end;
         rewrite Hfl; reflexivity|]. cbn [pbind then_guard run]. eauto. }
  go; [cbn [exec calm o_fail]; match goal with |- context [flocks ?x !! i] => change (flocks x) with (flocks f) end;
         rewrite Hfl; reflexivity|].
  set (g := f <| drawn ::= _ |> <| flocks ::= _ |>). destruct (inv_path f HI i Hpath) as [d Hd].
  unfold steal_body. go; [cbn [exec calm o_fail]; reflexivity|]. go; [cbn [exec calm o_fail]; reflexivity|].
  change (path g) with (path f). rewrite Hpath. cbv beta iota. rewrite Nat.eqb_refl. cbn [negb].
  unfold holder_is_alive. go; [apply exec_read_inode, Hd|].
  assert (Hstale : forall k, (1 <= k < 20)%nat -> exists r f', run t calm k
      (finish i (r ← sys ReadPath;
       _ ← (match (match r with Ok record => record_nonce record | Err _ => None end) with
            | Some n => sys (TokenRemove n) | None => Ret tt end);
       removed ← sys Unlink;
       match removed with Ok _ => try_create p | Err e => Ret (Err e) end)) g = Some (r, f') /\
      exists n, r = Ok (Some n) /\ owns t n f').
  { intros k Hk. apply grabs_answer.
    assert (Hg : forall j h, (1 <= j < 30)%nat -> live h = live f -> path h = path f -> inodes h = inodes f ->
      drawn h = drawn g -> grabs (finish i (Call Unlink (fun removed =>
           match removed with Ok _ => try_create p | Err e => Ret (Err e) end))) j h).
    { intros j h Hj E1 E2 E3 E4. apply theft_alone; rewrite ?E1, ?E2, ?E3, ?E4; [done|done|done|eauto|apply (supply_inos f HS)|apply Hnon; lia|].
      cbn. rewrite lookup_insert_ne; [apply Hdrw; lia|]. intros E. apply (supply_distinct f HS) in E; unfold CALLS; lia. }
    unfold grabs, finish. go; [eapply exec_read_path; [exact Hpath|exact Hd]|].
    match goal with |- context [match ?r with Some _ => _ | None => _ end] => destruct r end.
    - go; [reflexivity|]. apply Hg; [lia|done..].
    - apply Hg; [lia|done..]. }
  assert (Hdone : forall k, exists r f', run t calm k
      (finish i (Ret (Ok false))) g = Some (r, f') /\
      r = Ok None /\ (withdrawn f d -> path f' = None) /\ (~ withdrawn f d -> path f' = Some i)).
  { intros k. unfold finish. cbn [mbind Prog_bind pbind]. rewrite run_assoc.
    match goal with |- context [x ← cleanup i None; @?h x] =>
      destruct (cleanup_alone k g i d h Hpath Hd) as (j & h' & -> & H1 & H2) end. go; [reflexivity|]. cbn [pbind then_guard run].
    eexists _, _. split; [reflexivity|]. split; [done|]. case_bool_decide; done. }
  assert (Hanswer : forall k (lives : bool) (m : Prog (Result bool unit)), holder_lives f d = lives ->
    (exists r f', run t calm k (finish i m) g = Some (r, f') /\
       if lives then r = Ok None /\ (withdrawn f d -> path f' = None) /\ (~ withdrawn f d -> path f' = Some i)
       else exists n, r = Ok (Some n) /\ owns t n f') ->
    exists r f', run t calm k (finish i m) g = Some (r, f') /\
      forall d0, inodes f !! i = Some d0 ->
      if holder_lives f d0 then r = Ok None /\ (withdrawn f d0 -> path f' = None) /\ (~ withdrawn f d0 -> path f' = Some i)
      else exists n, r = Ok (Some n) /\ owns t n f').
  { intros k lives m E (r & f' & Hr & Ha). exists r, f'. split; [exact Hr|]. intros d0 Hd0.
    assert (d0 = d) by congruence. subst d0. rewrite E. exact Ha. }
  unfold holder_lives at 1 in Hanswer.
  destruct (from_utf8 (content d)) as [text|].
  2: { apply (Hanswer _ false); [done|]. apply Hstale. lia. }
  destruct (parse_leading_int (trim is_trim_space text)) as [q|].
  2: { apply (Hanswer _ false); [done|]. apply Hstale. lia. }
  go; [apply exec_alive|]. change (someone_has g q) with (someone_has f q).
  destruct ((0 <? q) && (someone_has f q || alive)) eqn:E.
  - apply (Hanswer _ true); [done|]. apply Hdone.
  - apply (Hanswer _ false); [done|]. apply Hstale. lia.
Qed.

(** C21: A contender gets an answer, and the right one.  With no other thread running and no
    call failing, an acquisition ends: it takes a free path, takes over a record whose holder is not
    alive, refuses while the holder lives or the inode is being checked, and even then
    clears away a claim whose holder withdrew it. *)
Theorem contender_answered events w :
  reachable events w -> supply (fs w) ->
  exists r f', run t calm 0 (try_acquire_file_lock p) (fs w) = Some (r, f') /\ answered (fs w) r f'.
Proof. intros Hr HS. apply acquire_alone_cases, HS. apply (reachable_sound _ _ Hr). Qed.

Lemma names_us_record n : 0 < p <= I32_MAX -> is_nonce n = true -> names_us p n (record_of p n) = true.
Proof.
  intros Hp Hn. destruct (record_read p n Hp Hn) as (_ & Hrn & Hlead & Htrim).
  unfold names_us. rewrite Htrim, Hlead, Hrn, !bool_decide_eq_true_2 by done. done.
Qed.

(** The token of a withdrawn claim says so, whatever it said before. *)
Lemma withdraw_alone k n f {B} (h : unit -> Prog B) :
  exists j f', run t calm k (x ← withdraw_claim n; h x) f = run t calm j (h tt) f' /\
    tokens f' !! n = Some WITHDRAWN /\ path f' = path f /\ inodes f' = inodes f /\ flocks f' = flocks f.
Proof.
  unfold withdraw_claim.
  assert (Hwrite : forall j g, tokens g !! n <> None -> inodes g = inodes f -> path g = path f -> flocks g = flocks f ->
    exists j' f', run t calm j (pbind h (Call (TokenWrite n WITHDRAWN) Ret)) g = run t calm j' (h tt) f' /\
      tokens f' !! n = Some WITHDRAWN /\ path f' = path f /\ inodes f' = inodes f /\ flocks f' = flocks f).
  { intros j g Ht E1 E2 E3. destruct (tokens g !! n) as [v|] eqn:Ev; [|done].
    go; [cbn [exec calm o_fail]; rewrite Ev; reflexivity|]. eexists _, _. split; [reflexivity|].
    cbn. rewrite lookup_insert_eq. done. }
  destruct (tokens f !! n) as [v|] eqn:Ev.
  - go; [cbn [exec calm o_fail]; rewrite Ev; reflexivity|]. apply Hwrite; congruence.
  - go; [cbn [exec calm o_fail]; rewrite Ev; reflexivity|].
    go; [cbn [exec calm o_fail]; rewrite Ev; reflexivity|].
    go; [cbn [exec calm o_fail tokens set_field]; reflexivity|].
    assert (E : tokens (f <| tokens ::= <[n := WITHDRAWN]> |>) !! n = Some WITHDRAWN) by apply lookup_insert_eq.
    cbn [tokens set_field] in E. rewrite lookup_insert_eq. cbv beta iota.
    apply Hwrite; [cbn; rewrite lookup_insert_eq|..]; done.
Qed.

Lemma exec_flock k i wait f : flocks f !! i = None ->
  exec t (calm k) (Flock i wait) f = Some (Ok true, f <| flocks ::= <[i := t]> |>).
Proof. intros H. cbn [exec calm o_fail]. rewrite H. done. Qed.
Lemma exec_path k f : exec t (calm k) OpenPath f = Some (Ok (path f), f) /\
                      exec t (calm k) StatPath f = Some (Ok (path f), f).
Proof. done. Qed.
Lemma exec_unlink k i f : path f = Some i -> exec t (calm k) Unlink f = Some (Ok tt, f <| path := None |>).
Proof. intros H. cbn [exec calm o_fail]. rewrite H. done. Qed.

Lemma checked_alone events n k g i d : 0 < p <= I32_MAX -> is_nonce n = true ->
  path g = Some i -> inodes g !! i = Some d -> content d = record_of p n -> flocks g !! i = None ->
  exists f', run t calm k (release_file_lock_checked_nonce events p n) g = Some (true, f') /\ path f' = None.
Proof.
  intros Hp Hn Hpath Hd Hc Hf. destruct (record_read p n Hp Hn) as (Hu & _ & _ & _).
  unfold release_file_lock_checked_nonce. go; [apply exec_path|]. rewrite Hpath. cbv beta iota.
  go; [apply exec_read_inode, Hd|]. rewrite Hc, Hu. rewrite names_us_record by done. cbn [negb].
  assert (Hrest : forall wait k, exists f', run t calm k (Call (Flock i wait) (fun locked => match locked with
      | Ok true => released ← release_body events p n i; _ ← cleanup i (Some (p, n)); _ ← sys (Unflock i); Ret released
      | _ => Ret false end)) g = Some (true, f') /\ path f' = None).
  2: { destruct events; [go; [reflexivity|]|]; apply Hrest. }
  clear k. intros wait k. go; [apply exec_flock, Hf|]. unfold release_body.
  go; [apply exec_read_inode, Hd|]. rewrite Hc, Hu. rewrite names_us_record by done. cbn [negb].
  go; [reflexivity|]. go; [apply exec_path|].
  match goal with |- context [path ?x] => change (path x) with (path g); rewrite Hpath end.
  cbn [calm o_fail]. cbv beta iota. rewrite Nat.eqb_refl. cbn [negb].
  go; [eapply exec_unlink, Hpath|].
  assert (Hend : forall k h, path h = None -> exists f',
    run t calm k (_ ← cleanup i (Some (p, n)); _ ← sys (Unflock i); Ret true) h = Some (true, f') /\ path f' = None).
  { intros j h Hh. unfold cleanup. go; [reflexivity|]. go; [apply exec_path|]. rewrite Hh.
    cbn [calm o_fail]. cbv beta iota. go; [reflexivity|]. eexists. split; [reflexivity|]. case_bool_decide; done. }
  destruct events; [apply Hend; done|]. go; [reflexivity|]. apply Hend. done.
Qed.

(** A release frees the lock, or leaves that to the thread in its way.  With no other
    thread running and no call failing, a holder's release removes its own record; if another
    thread is checking the inode of a creation lock at that moment, the release does not wait, and
    leaves the record withdrawn, for the next contender to clear. *)
Theorem release_frees events w n :
  reachable events w -> threads w !! t = Some (Holding n) -> live (fs w) !! t = Some p ->
  let f := gave_up t (fs w) in
  exists i d, path f = Some i /\ inodes f !! i = Some d /\
    (flocks f !! i = None -> exists f', run t calm 0 (release events p n) f = Some (true, f') /\ path f' = None) /\
    (events = false -> flocks f !! i <> None ->
       exists f', run t calm 0 (release events p n) f = Some (false, f') /\ path f' = Some i /\ withdrawn f' d).
Proof.
  intros Hr Ht Hl f. pose proof (reachable_sound _ _ Hr) as [HI Hth].
  pose proof (Hth _ _ _ Hl Ht) as (i & Hcl & d & Hd & Hn).
  destruct (inv_claim _ HI _ _ Hcl) as (Hpath & _ & d' & Hd' & Hcr). simplify_eq.
  destruct (inv_record _ HI _ _ _ Hd Hcr) as (_ & q & m & E & Hm & Hq & Hsame).
  assert (q = p) by (rewrite Hsame in Hl by eauto; congruence). subst q.
  destruct (record_read p m Hq Hm) as (Hu & Hrn & _).
  assert (Hmn : m = n) by (unfold nonce_of in Hn; rewrite E, Hu in Hn; cbn in Hn; congruence). subst m.
  exists i, d. split; [done|]. split; [done|]. unfold release. split.
  - intros Hf. destruct events; [apply (checked_alone _ _ _ _ i d); done|].
    destruct (withdraw_alone 0 n f (fun _ => release_file_lock_checked_nonce false p n)) as (j & g & -> & _ & E1 & E2 & E3).
    apply (checked_alone _ _ _ _ i d); rewrite ?E1, ?E2, ?E3; done.
  - intros -> Hf.
    destruct (withdraw_alone 0 n f (fun _ => release_file_lock_checked_nonce false p n)) as (j & g & -> & Htok & E1 & E2 & E3).
    unfold release_file_lock_checked_nonce. go; [apply exec_path|]. rewrite E1. change (path f) with (path (fs w)).
    rewrite Hpath. cbv beta iota. go; [apply exec_read_inode; rewrite E2; exact Hd|]. rewrite E, Hu.
    rewrite names_us_record by done. cbn [negb andb]. destruct (flocks f !! i) as [u|] eqn:Hfl; [|done].
    go; [cbn [exec calm o_fail]; rewrite E3, Hfl; reflexivity|]. cbn [run]. eexists. split; [reflexivity|].
    split; [rewrite E1; exact Hpath|]. exists n. done.
Qed.
End Alone.

(** ** Two processes and a record left by a dead one *)

Inductive Move : Type :=
  | Spawn (t : nat) (p : Z) | Begin (t : nat) | CallOnce (t : nat) (o : Oracle)
  | Finish (t : nat) | LetGo (t : nat) | Die (p : Z).

Definition play1 (events : bool) (m : Move) (w : World) : option World :=
  match m with
  | Spawn t p =>
      if bool_decide (t ∈ born (fs w)) || negb (in_range 1 I32_MAX p) then None
      else Some (mkWorld ((fs w) <| live ::= <[t := p]> |> <| born ::= fun b => {[t]} ∪ b |>)
                         (<[t := Idle]> (threads w)))
  | Begin t =>
      match live (fs w) !! t, threads w !! t with
      | Some p, Some Idle => Some (mkWorld (fs w) (<[t := Acquiring (try_acquire_file_lock p)]> (threads w)))
      | _, _ => None
      end
  | CallOnce t o =>
      match live (fs w) !! t, threads w !! t with
      | Some _, Some (Acquiring a) =>
          match advance t o a (fs w) with
          | Some (a', f') => Some (mkWorld f' (<[t := Acquiring a']> (threads w)))
          | None => None
          end
      | Some _, Some (Releasing r) =>
          match advance t o r (fs w) with
          | Some (r', f') => Some (mkWorld f' (<[t := Releasing r']> (threads w)))
          | None => None
          end
      | _, _ => None
      end
  | Finish t =>
      match live (fs w) !! t, threads w !! t with
      | Some _, Some (Acquiring (Ret (Ok (Some n)))) => Some (mkWorld (fs w) (<[t := Holding n]> (threads w)))
      | Some _, Some (Acquiring (Ret _)) | Some _, Some (Releasing (Ret _)) =>
          Some (mkWorld (fs w) (<[t := Idle]> (threads w)))
      | _, _ => None
      end
  | LetGo t =>
      match live (fs w) !! t, threads w !! t with
      | Some p, Some (Holding n) =>
          Some (mkWorld (gave_up t (fs w)) (<[t := Releasing (release events p n)]> (threads w)))
      | _, _ => None
      end
  | Die p => Some (mkWorld (die p (fs w)) (threads w))
  end.
Fixpoint play (events : bool) (ms : list Move) (w : World) : option World :=
  match ms with [] => Some w | m :: ms => let? w := play1 events m w in play events ms w end.

Lemma play1_step events m w w' : play1 events m w = Some w' -> step events w w'.
Proof.
  destruct m; cbn; intros H.
  - case_match eqn:E; [discriminate|]. injection H as <-. apply orb_false_iff in E as [E1 E2].
    apply bool_decide_eq_false_1 in E1. unfold in_range in E2. bprop. apply step_spawn; [done|lia].
  - repeat case_match; try discriminate. injection H as <-. eapply step_begin; eauto.
  - repeat case_match; try discriminate; injection H as <-; [eapply step_acquire|eapply step_releasing]; eauto.
  - repeat case_match; try discriminate; injection H as <-;
      first [solve [apply step_acquired; eauto] | solve [eapply step_released; eauto]
            | eapply step_refused; eauto; intros ? [=]].
  - repeat case_match; try discriminate. injection H as <-. eapply step_release; eauto.
  - injection H as <-. apply step_die.
Qed.
Lemma play_reachable events ms w w' : reachable events w -> play events ms w = Some w' -> reachable events w'.
Proof.
  revert w. induction ms as [|m ms IH]; cbn; intros w Hr H; [congruence|].
  destruct (play1 events m w) as [w1|] eqn:E; [|discriminate]. apply (IH w1); [|exact H].
  eapply reach_step; [exact Hr|]. apply play1_step with m, E.
Qed.

Definition demo_stale : World :=
  mkWorld (mkFS (Some 0%nat) {[0%nat := mkInode (str "77 00112233445566ff") None]} ∅ ∅ ∅ ∅
             {[str "00112233445566ff" := None]} ∅) ∅.
Lemma demo_found : found demo_stale.
Proof.
  constructor; try done.
  - intros i [= <-]. eexists. vm_compute. reflexivity.
  - cbn. intros i d H. apply lookup_singleton_Some in H as [<- <-]. done.
  - cbn. intros i d n H Hn. apply lookup_singleton_Some in H as [<- <-]. vm_compute in Hn.
    injection Hn as <-. vm_compute. done.
  - cbn. intros n x H. apply lookup_singleton_Some in H as [_ <-]. done.
Qed.

Definition hex_nonce (k : nat) : bytes :=
  replicate 14 (48 : Z) ++ [48 + Z.of_nat k / 10; 48 + Z.of_nat k mod 10].
Definition demo_call (t k : nat) : Move := CallOnce t (mkOracle false k (hex_nonce k) false).
(** Both processes find the stale record; the first steals it while the second, late,
    finds its inode checked, then replaced. *)
Definition demo_moves : list Move :=
  [Spawn 1 500; Spawn 2 600; Begin 1; Begin 2]
  ++ map (demo_call 1) (seq 1 4) ++ map (demo_call 2) (seq 5 4)
  ++ map (demo_call 1) (replicate 14 9%nat) ++ [Finish 1]
  ++ map (demo_call 2) (replicate 6 10%nat) ++ [Finish 2].
Definition demo_world : World := default demo_stale (play false demo_moves demo_stale).
Lemma demo_reachable : reachable false demo_world.
Proof.
  unfold demo_world. destruct (play false demo_moves demo_stale) as [w|] eqn:E; [|apply reach_found, demo_found].
  exact (play_reachable _ _ _ _ (reach_found false _ demo_found) E).
Qed.
Lemma demo_holding : threads demo_world !! 1%nat = Some (Holding (hex_nonce 9)) /\
  live (fs demo_world) !! 1%nat = Some 500 /\ live (fs demo_world) !! 2%nat = Some 600.
Proof. vm_compute. done. Qed.

Lemma lock_mutual_exclusion_witness :
  (exists i d, path (fs demo_world) = Some i /\ inodes (fs demo_world) !! i = Some d /\
     content d = record_of 500 (hex_nonce 9)) /\
  forall t' n', threads demo_world !! t' = Some (Holding n') -> is_Some (live (fs demo_world) !! t') -> t' = 1%nat.
Proof.
  apply (lock_mutual_exclusion false demo_world 1 (hex_nonce 9) 500);
    [apply demo_reachable|apply demo_holding|apply demo_holding].
Defined.

Lemma hex_nonce_inj j k : hex_nonce j = hex_nonce k -> j = k.
Proof.
  unfold hex_nonce. generalize (Z.of_nat j) (Nat2Z.id j) (Z.of_nat k) (Nat2Z.id k). intros a <- b <- E.
  injection E as E2 E3. assert (a = b); [|congruence].
  rewrite (Z.div_mod a 10), (Z.div_mod b 10) by done. lia.
Qed.

(** The second process asks again, and is refused. *)
Definition late_nonce (k : nat) : bytes := hex_nonce (40 + k).
Lemma demo_supply : supply 2 600 (fun k => (100 + k)%nat) late_nonce (fs demo_world).
Proof.
  constructor.
  - apply demo_holding.
  - intros k. assert (H : forallb (fun kv => (fst kv <? 100)%nat) (map_to_list (inodes (fs demo_world))) = true)
      by (vm_compute; done).
    destruct (inodes (fs demo_world) !! (100 + k)%nat) as [d|] eqn:E; [|done].
    apply elem_of_map_to_list in E. apply (proj1 (forallb_elem _ _) H) in E. apply Nat.ltb_lt in E. cbn in E. lia.
  - intros k Hk. unfold CALLS in Hk. do 32 (destruct k as [|k]; [vm_compute; done|]). lia.
  - intros j k Hj Hk E. apply hex_nonce_inj in E. lia.
Qed.
Lemma contender_answered_witness :
  exists r f', run 2 (calm (fun k => (100 + k)%nat) late_nonce false) 0 (try_acquire_file_lock 600) (fs demo_world)
    = Some (r, f') /\ answered 2 false (fs demo_world) r f'.
Proof. apply (contender_answered 2 600 _ _ false false demo_world demo_reachable demo_supply). Defined.

Lemma release_frees_witness :
  let f := gave_up 1 (fs demo_world) in
  exists i d, path f = Some i /\ inodes f !! i = Some d /\
    (flocks f !! i = None -> exists f', run 1 (calm (fun k => (100 + k)%nat) late_nonce false) 0
       (release false 500 (hex_nonce 9)) f = Some (true, f') /\ path f' = None) /\
    (false = false -> flocks f !! i <> None -> exists f', run 1 (calm (fun k => (100 + k)%nat) late_nonce false) 0
       (release false 500 (hex_nonce 9)) f = Some (false, f') /\ path f' = Some i /\ withdrawn f' d).
Proof.
  apply (release_frees 1 500 (fun k => (100 + k)%nat) late_nonce false false demo_world (hex_nonce 9) demo_reachable);
    apply demo_holding.
Defined.

(** The window the last comment of [lock.rs] on withdrawal leaves open: the checker looks at
    the token before the holder withdraws it, the holder's release then finds the inode
    locked and returns, and the checker unlocks.  Nobody runs any more, and a released
    record of a live process stands until the next contender. *)
Definition missed_moves : list Move :=
  demo_moves ++ [Begin 2] ++ map (demo_call 2) (seq 11 13)
  ++ [LetGo 1] ++ map (demo_call 1) (replicate 7 30%nat) ++ [Finish 1]
  ++ map (demo_call 2) [31%nat] ++ [Finish 2].
Definition missed_world : World := default demo_stale (play false missed_moves demo_stale).
Lemma release_missed :
  reachable false missed_world /\ threads missed_world !! 1%nat = Some Idle /\
  threads missed_world !! 2%nat = Some Idle /\ path (fs missed_world) = Some 9%nat /\
  tokens (fs missed_world) !! hex_nonce 9 = Some WITHDRAWN /\ live (fs missed_world) !! 1%nat = Some 500.
Proof.
  split; [|vm_compute; done].
  unfold missed_world. destruct (play false missed_moves demo_stale) as [w|] eqn:E; [|apply reach_found, demo_found].
  exact (play_reachable _ _ _ _ (reach_found false _ demo_found) E).
Qed.
