(* ===== verification/Files.v ===== *)
(** The registry's files as one process changes them: the paths of
    [crates/pty-core/src/registry/root.rs], reading and writing records
    ([metadata.rs]), taking both locks ([lock.rs]) and removing a session's files
    ([cleanup.rs]).

    The disk maps paths to files.  The process is a state monad over it; before every
    reading other processes may change anything except the files of a session whose locks
    this process holds ([Locks.v] is why there is one holder).  Clocks, the process
    table and failures are the environment [Env], asked by moment. *)
From S2P Require Import Prelude Json Metadata Time Names Text Order ProcTable Identity MetadataCache Inventory Mutate.

(** ** Paths: [root.rs] *)

Definition pid_path (root nm : bytes) : bytes := path_join root (nm ++ str ".pid").
Definition metadata_path (root nm : bytes) : bytes := path_join root (nm ++ str ".json").
Definition events_path (root nm : bytes) : bytes := path_join root (nm ++ str ".events.jsonl").
Definition lock_path (root nm : bytes) : bytes := path_join root (nm ++ str ".lock").
Definition event_lock_path (root nm : bytes) : bytes := path_join root (nm ++ str ".events.lock").
Definition recovery_revision_path (root nm : bytes) : bytes :=
  path_join (path_join root (str ".recovery")) (nm ++ str ".revision.json").
Definition output_activity_path (root nm : bytes) : bytes :=
  path_join (path_join root (str ".activity")) (nm ++ str ".json").

(** FNV-1a, in 64 bits, and [{:016x}]. *)
Definition U64_MODULUS : Z := 18446744073709551616.
Definition fnv1a (host : bytes) : Z :=
  foldl (fun hash byte => (Z.lxor hash byte * 1099511628211) mod U64_MODULUS) 14695981039346656037 host.
Fixpoint hex_digits (n : nat) (v : Z) : bytes :=
  match n with O => [] | S n => hex_digits n (v / 16) ++ [hex_digit (v mod 16)] end.
Definition default_session_dir_for_host (home host : bytes) : bytes :=
  path_join (path_join home (str ".local/state/pty")) (str "h-" ++ hex_digits 16 (fnv1a host)).

Inductive RootSource : Type := Scoped | PtyRoot | PtySessionDir | DefaultRoot.
Definition RootSource_as_str (s : RootSource) : bytes :=
  match s with
  | Scoped => str "scoped"
  | PtyRoot => str "PTY_ROOT"
  | PtySessionDir => str "PTY_SESSION_DIR"
  | DefaultRoot => str "default"
  end.
(** [env_non_empty]: a variable that is unset, empty or not UTF-8 does not count. *)
Definition env_non_empty (v : option bytes) : option bytes := filled v.
(** The directory and its source; the notices on standard error are left out. *)
Definition resolve_session_dir (scoped pty_root pty_session_dir : option bytes) (default_dir : bytes)
  : bytes * RootSource :=
  match scoped with
  | Some root => (root, Scoped)
  | None =>
      match env_non_empty pty_root with
      | Some root => (root, PtyRoot)
      | None =>
          match env_non_empty pty_session_dir with
          | Some legacy => (legacy, PtySessionDir)
          | None => (default_dir, DefaultRoot)
          end
      end
  end.
Definition root_length_check (pty_root pty_session_dir : option bytes) : option bytes :=
  let? resolved := match env_non_empty pty_root with Some r => Some r | None => env_non_empty pty_session_dir end in
  let SOCK_SUFFIX_BYTES := 1 + 8 + 5 in
  let root_bytes := blen resolved in
  if SUN_PATH_MAX <? root_bytes + SOCK_SUFFIX_BYTES then
    let usable := SUN_PATH_MAX - SOCK_SUFFIX_BYTES in
    Some (str "pty: PTY_ROOT is too long " ++ [226; 128; 148] ++ str " " ++ dec root_bytes
          ++ str " bytes; must be " ++ [226; 137; 164] ++ str " " ++ dec usable
          ++ str " bytes for the socket path to fit the " ++ dec SUN_PATH_MAX ++ str "-byte kernel limit."
          ++ 10 :: str "  root: " ++ resolved
          ++ 10 :: str "  Shorten the root (or use `pty --root <shorter-path>` for a one-off).")
  else None.

(** ** The disk *)

Inductive File : Type := Regular (b : bytes) | SocketFile | OtherFile.
#[export] Instance File_eq_dec : EqDecision File.
Proof. solve_decision. Defined.
Abbreviation Disk := (gmap bytes File).

Definition ENXIO : Z := 6.
Definition NOT_FOUND : IoError := mkIo true (Some ENOENT).

(** A path under the root's target is the same file as under the root. *)
Definition resolve (root : bytes) (link canonical : option bytes) (p : bytes) : bytes :=
  let aliases := match link with Some t => [link_target root t] | None => [] end
                 ++ match canonical with Some c => [c] | None => [] end in
  if existsb (beq (parent p)) aliases then path_join root (file_name p) else p.

(** The registry a scan reads: the root's own entries, and the files behind the paths. *)
Definition registry_of (root : bytes) (link canonical : option bytes) (dir : option IoError) (d : Disk)
  : Registry := {|
  reg_dir := match dir with
             | Some e => Err e
             | None => Ok (omap (fun p => let f := file_name p in
                                  if beq (path_join root f) p then Some (EntryName f) else None)
                             ((map_to_list d).*1))
             end;
  reg_open p := match d !! resolve root link canonical p with
                | Some (Regular b) => Ok (true, Ok b)
                | Some SocketFile => Err (mkIo false (Some ENXIO))
                | Some OtherFile => Ok (false, Err (mkIo false None))
                | None => Err NOT_FOUND
                end;
  reg_lstat p := match d !! resolve root link canonical p with
                 | Some f => Ok (bool_decide (f = SocketFile))
                 | None => Err NOT_FOUND
                 end;
  reg_link := link;
  reg_canonical := canonical
|}.

(** A creation or event lock that was not taken. *)
Inductive LockRefusal : Type := LockHeld | Unavailable (cause : bytes).
Inductive LockBusy : Type := BusyEvents | BusyMetadata | BusyUnavailable (cause : bytes).
Definition event_busy_message (nm : bytes) : bytes :=
  str "Session id " ++ 34 :: nm ++ 34 :: str " event log is busy. Retry the operation.".
Definition metadata_busy_message (nm : bytes) : bytes :=
  str "Session id " ++ 34 :: nm ++ 34 :: str " metadata is busy. Retry the operation.".
Definition LockBusy_message (nm : bytes) (b : LockBusy) : bytes :=
  match b with
  | BusyEvents => event_busy_message nm
  | BusyMetadata => metadata_busy_message nm
  | BusyUnavailable cause => cause
  end.

(** [json]: the entries of a JSON object's text.  [render]: [pretty_json]. *)
Record Env : Type := {
  root : bytes;
  sha256 : bytes -> bytes;
  json : bytes -> option (list (bytes * Value));
  render : IndexMap Value -> bytes;
  link : option bytes;
  canonical : option bytes;
  others : nat -> Disk -> Disk;
  dir_at : nat -> option IoError;
  host_at : nat -> Host;
  lock_at : nat -> bytes -> Result unit LockRefusal;
  now_at : nat -> Z;
  write_at : nat -> bool;
  unlink_at : nat -> bytes -> bool
}.

(** What the process did that others can see. *)
Inductive Action : Type :=
  | Cleaned (nm : bytes) (at_ : nat) (before : Disk)
  | Retired (nm : bytes) (at_ : nat) (before : Disk)
  | Wrote (nm : bytes) (m : IndexMap Value) (at_ : nat) (before : Disk)
  | Logged (nm : bytes) (line : bytes)
  | Signalled (nm : bytes) (pinned : nat) (signal : Z) (at_ : nat)
  | Spawned (nm : bytes) (at_ : nat) (before : Disk)
  | Killed (pid signal : Z) (at_ : nat)
  | Swept (file : bytes).

(** [past]: the disk at each moment so far; the programs do not read it. *)
Record World : Type := MkWorld {
  disk : Disk; moment : nat; held : list bytes; done_ : list Action; past : list (nat * Disk)
}.
#[export] Instance World_eta : Settable World := fun w => MkWorld (disk w) (moment w) (held w) (done_ w) (past w).
Definition mkWorld (d : Disk) (k : nat) (h : list bytes) (l : list Action) : World := MkWorld d k h l [].

(** ** One process *)

Definition M (A : Type) : Type := World -> A * World.
#[export] Instance M_ret : MRet M := fun A a w => (a, w).
#[export] Instance M_bind : MBind M := fun A B f m w => let '(a, w) := m w in f a w.

Section Process.
Context (e : Env) `{U : Unicode}.

Definition reg (k : nat) (d : Disk) : Registry := registry_of (root e) (link e) (canonical e) (dir_at e k) d.
Definition socket_of_name (d : Disk) (nm : bytes) : bytes :=
  socket_path_in (sha256 e) (reg 0 d) (root e) nm.

Definition at_root (p : bytes) : bytes := resolve (root e) (link e) (canonical e) p.

(** The files a session's locks guard: both names its socket may have, and the rest. *)
Definition sockets_of (nm : bytes) : list bytes :=
  let '(readable, bounded) := socket_filenames (sha256 e) nm in
  [at_root (path_join (root e) readable); at_root (path_join (root e) bounded)].
Definition companions (nm : bytes) : list bytes :=
  map at_root [pid_path (root e) nm; metadata_path (root e) nm; events_path (root e) nm;
               recovery_revision_path (root e) nm; output_activity_path (root e) nm] ++ sockets_of nm.
Definition guarded (names : list bytes) (p : bytes) : bool :=
  existsb (fun nm => existsb (beq p) (companions nm)) names.

(** What the others do, within the locks. *)
Definition mix (names : list bytes) (d d' : Disk) : Disk :=
  filter (fun kv => guarded names (fst kv) = true) d
  ∪ filter (fun kv => guarded names (fst kv) = false) d'.
Definition breathe (w : World) : World :=
  let d := mix (held w) (disk w) (others e (moment w) (disk w)) in
  MkWorld d (S (moment w)) (held w) (done_ w) ((S (moment w), d) :: past w).

(** A reading of the disk and of the world at one moment. *)
Definition observe {A} (f : nat -> Disk -> A) : M A := fun w =>
  let w := breathe w in (f (moment w) (disk w), w).
Definition act (a : nat -> Disk -> Action) : M unit := fun w =>
  (tt, w <| done_ := done_ w ++ [a (moment w) (disk w)] |>).
Definition change (f : nat -> Disk -> Disk) : M unit := fun w => (tt, w <| disk := f (moment w) (disk w) |>).

(** ** Reading records *)

Definition read_metadata_map (d : Disk) (nm : bytes) : option (IndexMap Value) :=
  match d !! at_root (metadata_path (root e) nm) with
  | Some (Regular b) => last_fields <$> json e b
  | _ => None
  end.
Definition read_metadata (d : Disk) (nm : bytes) : option SessionMetadata :=
  let? m := read_metadata_map d nm in from_map m.
Definition read_session_pid (d : Disk) (nm : bytes) : option Z :=
  read_session_pid_at (reg 0 d) (pid_path (root e) nm).
Definition absent_path (d : Disk) (p : bytes) : bool := bool_decide (d !! at_root p = None).
Definition daemon_identity (k : nat) (d : Disk) (nm : bytes) (m : SessionMetadata) : DaemonIdentityCheck :=
  @check_record_identity_in (host_at e k) (absent_path d (pid_path (root e) nm))
    (absent_path d (socket_of_name d nm)) (read_session_pid d nm) (Some m).
Definition known_owner_lost (c : DaemonIdentityCheck) : bool :=
  match c with Gone | Mismatch => true | _ => false end.

(** ** Locks: [with_both_locks] *)

Definition lock_or_refusal (p : bytes) : M (Result unit LockRefusal) := observe (fun k _ => lock_at e k p).
Definition hold (nm : bytes) : M unit := fun w => (tt, w <| held ::= fun l => nm :: l |>).
Definition let_go (nm : bytes) : M unit := fun w =>
  (tt, w <| held ::= List.filter (fun n => negb (beq n nm)) |>).

(** The event lock, then the creation lock; neither waits. *)
Definition with_both_locks {A} (nm : bytes) (f : M A) : M (Result A LockBusy) :=
  events ← lock_or_refusal (event_lock_path (root e) nm);
  match events with
  | Err LockHeld => mret (Err BusyEvents)
  | Err (Unavailable cause) => mret (Err (BusyUnavailable cause))
  | Ok _ =>
      metadata ← lock_or_refusal (lock_path (root e) nm);
      match metadata with
      | Err LockHeld => mret (Err BusyMetadata)
      | Err (Unavailable cause) => mret (Err (BusyUnavailable cause))
      | Ok _ =>
          _ ← hold nm;
          out ← f;
          _ ← let_go nm;
          mret (Ok out)
      end
  end.
Definition unwrap_or_false (r : Result bool LockBusy) : bool := match r with Ok b => b | Err _ => false end.

(** ** Removing files: [cleanup.rs] *)

(** [remove_file] of a path: what is there may refuse to go. *)
Definition remove (p : bytes) : M (Result unit IoError) := fun w =>
  match disk w !! at_root p with
  | None => (Err NOT_FOUND, w)
  | Some _ => if unlink_at e (moment w) p then (Ok tt, w <| disk ::= delete (at_root p) |>) else (Err (mkIo false None), w)
  end.
Definition unlink (p : bytes) : M unit := _ ← remove p; mret tt.
Definition socket_now (nm : bytes) : M bytes := fun w => (socket_of_name (disk w) nm, w).

Definition cleanup_socket (nm : bytes) : M unit :=
  sock ← socket_now nm;
  _ ← unlink sock;
  unlink (pid_path (root e) nm).
Definition cleanup_all_while_locked (nm : bytes) : M unit :=
  _ ← act (Cleaned nm);
  _ ← cleanup_socket nm;
  _ ← unlink (metadata_path (root e) nm);
  _ ← unlink (events_path (root e) nm);
  _ ← unlink (recovery_revision_path (root e) nm);
  unlink (output_activity_path (root e) nm).
Definition cleanup_all (nm : bytes) : M (Result unit LockBusy) :=
  with_both_locks nm (cleanup_all_while_locked nm).

Record SessionGenerationOwner : Type := mkOwner { owner_generation : bytes; owner_pid : Z }.
Definition is_current_generation_owner (d : Disk) (nm : bytes) (owner : SessionGenerationOwner) : bool :=
  negb (match (let? m := read_metadata d nm in Metadata.generation m) with
        | Some g => negb (beq g (owner_generation owner))
        | None => false
        end)
  && negb (other_pid (read_session_pid d nm) (owner_pid owner)).

(** Under the creation lock alone: the socket and the pid file. *)
Definition cleanup_owned_socket (nm : bytes) (owner : SessionGenerationOwner) : M bool :=
  lock ← lock_or_refusal (lock_path (root e) nm);
  match lock with
  | Err _ => mret false
  | Ok _ =>
      _ ← hold nm;
      mine ← observe (fun _ d => is_current_generation_owner d nm owner);
      out ← (if (mine : bool) then _ ← cleanup_socket nm; mret true else mret false);
      _ ← let_go nm;
      mret out
  end.
Definition cleanup_owned_all (nm : bytes) (owner : SessionGenerationOwner) : M bool :=
  r ← with_both_locks nm
    (mine ← observe (fun _ d => is_current_generation_owner d nm owner);
     if (mine : bool) then _ ← cleanup_all_while_locked nm; mret true else mret false);
  mret (unwrap_or_false r).

(** ** Retiring records of an earlier boot *)

Definition record_has_stale_boot_identity (current_boot_id : option bytes) (m : SessionMetadata) : bool :=
  match filled (daemon_boot_id m) with
  | None => false
  | Some recorded =>
      if starts_with DARWIN_LEGACY recorded then false
      else match current_boot_id with
           | Some current => negb (starts_with DARWIN_LEGACY current) && negb (beq current recorded)
           | None => false
           end
  end.

(** [read_identity_record]. *)
Definition read_identity (k : nat) (d : Disk) (nm : bytes) : option (SessionMetadata * option Z) :=
  read_identity_record (json e) (reg k d) (root e) nm.
Definition is_permanent_tag (m : SessionMetadata) : bool :=
  obeq (tag_of (str "strategy") (tags m)) (Some (str "permanent")).

Definition remove_all (paths : list bytes) : M bool :=
  foldr (fun p rest =>
    r ← remove p;
    match r with
    | Ok _ => rest
    | Err err => if not_found err then rest else mret false
    end) (mret true) paths.

(** Under both locks, with the observation found again: whether it may be retired. *)
Definition may_retire (k : nat) (d : Disk) (nm : bytes) (observed : SessionMetadata) (observed_pid : option Z)
  : bool :=
  match read_identity k d nm with
  | None => false
  | Some (current, current_pid) =>
      value_eqb (VObj (to_map current)) (VObj (to_map observed)) && bool_decide (current_pid = observed_pid)
      && negb (is_keep_requested (tags current)) && negb (is_permanent_tag current)
      && match pid_or observed_pid (daemon_pid current) with None => false | Some _ => true end
      && match @check_record_identity (host_at e k) observed_pid (Some current) with
         | Mismatch => true
         | Gone => record_has_stale_boot_identity (@boot_id (host_at e k)) current
         | _ => false
         end
  end.

Definition retire_stale_daemon_observation (nm : bytes) (observed : SessionMetadata) (observed_pid : option Z)
  : M bool :=
  r ← with_both_locks nm
    (may ← observe (fun k d => may_retire k d nm observed observed_pid);
     if negb may then mret false
     else
       _ ← act (Retired nm);
       sock ← socket_now nm;
       remove_all [sock; pid_path (root e) nm; events_path (root e) nm;
                   recovery_revision_path (root e) nm; output_activity_path (root e) nm;
                   metadata_path (root e) nm]);
  mret (unwrap_or_false r).

Definition name_ok (nm : bytes) (d : Disk) : bool :=
  is_ok (validate_name (fun n => blen (socket_of_name d n)) nm).
Definition retire_stale_daemon_record (nm : bytes) (observed : SessionMetadata) : M bool :=
  seen ← observe (fun k d => if name_ok nm d then read_identity k d nm else None);
  match seen with
  | None => mret false
  | Some (current, observed_pid) =>
      if value_eqb (VObj (to_map current)) (VObj (to_map observed))
      then retire_stale_daemon_observation nm observed observed_pid
      else mret false
  end.

(** One entry of the listing, in the order the directory gave them. *)
Definition retire_entry (starting_name : bytes) (entry : DirEntry) : M nat :=
  match entry with
  | EntryName file =>
      match (if is_tmp_name file then None else strip_suffix (str ".json") file) with
      | None => mret 0%nat
      | Some nm =>
          seen ← observe (fun k d => if beq nm starting_name || negb (name_ok nm d) then None
                                     else read_identity k d nm);
          match seen with
          | None => mret 0%nat
          | Some (observed, observed_pid) =>
              retired ← retire_stale_daemon_observation nm observed observed_pid;
              mret (if (retired : bool) then 1%nat else 0%nat)
          end
      end
  | _ => mret 0%nat
  end.
Fixpoint sum_entries (starting_name : bytes) (entries : list DirEntry) : M nat :=
  match entries with
  | [] => mret 0%nat
  | x :: rest => n ← retire_entry starting_name x; m ← sum_entries starting_name rest; mret (n + m)%nat
  end.
Definition retire_stale_daemon_records (starting_name : bytes) : M nat :=
  dir ← observe (fun k d => reg_dir (reg k d));
  match dir with
  | Err _ => mret 0%nat
  | Ok entries => sum_entries starting_name entries
  end.
End Process.

(** ** Reasoning about the process *)

(** [Q] of the answer and of the world it is given in. *)
Definition wpm {A} (m : M A) (Q : A -> World -> Prop) (w : World) : Prop := Q (fst (m w)) (snd (m w)).

Lemma wpm_ret {A} (a : A) Q w : Q a w -> wpm (mret a) Q w.
Proof. auto. Qed.
Lemma wpm_bind {A B} (m : M A) (f : A -> M B) Q w :
  wpm m (fun a w => wpm (f a) Q w) w -> wpm (m ≫= f) Q w.
Proof. unfold wpm, mbind, M_bind. destruct (m w) as [a w']. auto. Qed.
Lemma wpm_mono {A} (m : M A) (Q R : A -> World -> Prop) w :
  wpm m Q w -> (forall a w, Q a w -> R a w) -> wpm m R w.
Proof. unfold wpm. auto. Qed.
Lemma wpm_act a Q w : Q tt (w <| done_ := done_ w ++ [a (moment w) (disk w)] |>) -> wpm (act a) Q w.
Proof. auto. Qed.
Lemma wpm_change f Q w : Q tt (w <| disk := f (moment w) (disk w) |>) -> wpm (change f) Q w.
Proof. auto. Qed.
Lemma wpm_hold nm Q w : Q tt (w <| held ::= fun l => nm :: l |>) -> wpm (hold nm) Q w.
Proof. auto. Qed.
Lemma wpm_let_go nm Q w :
  Q tt (w <| held ::= List.filter (fun n => negb (beq n nm)) |>) -> wpm (let_go nm) Q w.
Proof. auto. Qed.
Lemma wpm_eq {A} (m : M A) Q w a w' : m w = (a, w') -> Q a w' -> wpm m Q w.
Proof. unfold wpm. intros ->. auto. Qed.
Lemma wpm_run {A} (m : M A) Q w a w' : wpm m Q w -> m w = (a, w') -> Q a w'.
Proof. unfold wpm. intros H E. rewrite E in H. exact H. Qed.

(** Every action of the log has [P]. *)
Definition logged (P : Action -> Prop) (w : World) : Prop := Forall P (done_ w).
(** A program whose actions all have [P]. *)
Definition keeps (P : Action -> Prop) {A} (m : M A) : Prop :=
  forall w, logged P w -> wpm m (fun _ => logged P) w.

Lemma keeps_ret P {A} (a : A) : keeps P (mret a).
Proof. intros w H. exact H. Qed.
Lemma keeps_bind P {A B} (m : M A) (f : A -> M B) : keeps P m -> (forall a, keeps P (f a)) -> keeps P (m ≫= f).
Proof.
  intros Hm Hf w H. apply wpm_bind. eapply wpm_mono; [exact (Hm w H)|]. intros a w' H'. exact (Hf a w' H').
Qed.
Lemma keeps_observe (P : Action -> Prop) (e : Env) {A} (f : nat -> Disk -> A) : keeps P (observe e f).
Proof. intros w H. exact H. Qed.
Lemma logged_act P (a : Action) w : P a -> logged P w -> logged P (w <| done_ := done_ w ++ [a] |>).
Proof. intros Ha H. apply Forall_app. split; [exact H|]. constructor; [exact Ha|constructor]. Qed.
#[export] Hint Resolve keeps_ret keeps_observe : pty.

Section Reasoning.
Context (e : Env) `{U : Unicode}.
#[local] Arguments at_root : simpl never.
#[local] Arguments socket_of_name : simpl never.
Implicit Types (w : World) (nm p q : bytes) (d : Disk).

Lemma wpm_observe {A} (f : nat -> Disk -> A) Q w :
  Q (f (moment (breathe e w)) (disk (breathe e w))) (breathe e w) -> wpm (observe e f) Q w.
Proof. auto. Qed.

(** Time goes on and what was is not forgotten. *)
Record since w w' : Prop := mkSince {
  since_moment : (moment w <= moment w')%nat;
  since_past : incl (past w) (past w')
}.
Lemma since_refl w w' : moment w' = moment w -> past w' = past w -> since w w'.
Proof. intros E1 E2. split; [rewrite E1; done|rewrite E2; apply incl_refl]. Qed.
Lemma since_trans w1 w2 w3 : since w1 w2 -> since w2 w3 -> since w1 w3.
Proof. intros [M1 P1] [M2 P2]. split; [lia|exact (incl_tran P1 P2)]. Qed.
Lemma since_breathe w : since w (breathe e w).
Proof. split; [cbn; lia|]. apply incl_tl, incl_refl. Qed.
(** The disk of a moment of this run. *)
Definition disk_at w (k : nat) (d : Disk) : Prop := In (k, d) (past w).
Lemma disk_at_since w w' k d : since w w' -> disk_at w k d -> disk_at w' k d.
Proof. intros [_ P]. apply P. Qed.
Lemma disk_at_breathe w : disk_at (breathe e w) (moment (breathe e w)) (disk (breathe e w)).
Proof. left. reflexivity. Qed.

(** What a lock guards does not move while it is held. *)
Lemma mix_guarded names d d' p : guarded e names p = true -> mix e names d d' !! p = d !! p.
Proof.
  intros G. unfold mix. destruct (d !! p) as [x|] eqn:E.
  - apply lookup_union_Some_l. apply map_lookup_filter_Some. split; [exact E|exact G].
  - apply lookup_union_None. split.
    + apply map_lookup_filter_None. left. exact E.
    + apply map_lookup_filter_None. right. cbn. intros x _. rewrite G. discriminate.
Qed.
Lemma mix_free names d d' p : guarded e names p = false -> mix e names d d' !! p = d' !! p.
Proof.
  intros G. unfold mix. rewrite lookup_union_r.
  - destruct (d' !! p) as [x|] eqn:E.
    + apply map_lookup_filter_Some. auto.
    + apply map_lookup_filter_None. auto.
  - apply map_lookup_filter_None. right. cbn. intros x _. rewrite G. discriminate.
Qed.
Lemma breathe_held nm p w : In nm (held w) -> In p (companions e nm) -> disk (breathe e w) !! p = disk w !! p.
Proof.
  intros Hn Hp. apply mix_guarded. apply existsb_exists. exists nm. split; [exact Hn|].
  apply existsb_exists. exists p. split; [exact Hp|]. apply beq_refl.
Qed.

(** A section under both locks: refused with nothing done, or run with the name held. *)
Lemma wpm_with_both_locks {A} nm (f : M A) (Q : Result A LockBusy -> World -> Prop) w :
  (forall busy w', done_ w' = done_ w -> held w' = held w -> Q (Err busy) w') ->
  (forall w', done_ w' = done_ w -> held w' = nm :: held w ->
     wpm f (fun a w => Q (Ok a) (w <| held ::= List.filter (fun n => negb (beq n nm)) |>)) w') ->
  wpm (with_both_locks e nm f) Q w.
Proof.
  intros Refused Run. apply wpm_bind, wpm_observe.
  destruct (lock_at e _ _) as [?|[|cause]]; try (apply wpm_ret, Refused; reflexivity).
  apply wpm_bind, wpm_observe.
  destruct (lock_at e _ _) as [?|[|cause]]; try (apply wpm_ret, Refused; reflexivity).
  apply wpm_bind, wpm_hold, wpm_bind.
  eapply wpm_mono; [apply Run; reflexivity|]. intros x w2 H.
  apply wpm_bind, wpm_let_go, wpm_ret, H.
Qed.
Lemma keeps_with_both_locks P {A} nm (f : M A) : keeps P f -> keeps P (with_both_locks e nm f).
Proof.
  intros Hf w H. apply wpm_with_both_locks.
  - intros busy w' E _. unfold logged. rewrite E. exact H.
  - intros w' E _. eapply wpm_mono; [apply Hf; unfold logged; rewrite E; exact H|]. auto.
Qed.

(** Removing paths one after the other, each refusal ignored. *)
Fixpoint clears (k : nat) (ps : list bytes) (d : Disk) : Disk :=
  match ps with
  | [] => d
  | p :: ps => clears k ps (if unlink_at e k p then delete (at_root e p) d else d)
  end.
Definition goes (k : nat) (ps : list bytes) (q : bytes) : bool :=
  existsb (fun p => unlink_at e k p && beq (at_root e p) q) ps.

Lemma clears_lookup k ps d q : clears k ps d !! q = if goes k ps q then None else d !! q.
Proof.
  revert d. induction ps as [|p ps IH]; intros d; [reflexivity|]. cbn. rewrite IH.
  destruct (unlink_at e k p); [|reflexivity]. cbn.
  destruct (beq (at_root e p) q) eqn:B; cbn.
  - apply beq_eq in B. subst q. rewrite lookup_delete_eq. destruct (goes k ps _); reflexivity.
  - rewrite lookup_delete_ne; [reflexivity|]. intros E. rewrite E, beq_refl in B. discriminate.
Qed.

Lemma remove_eq p w :
  remove e p w
  = match disk w !! at_root e p with
    | None => (Err NOT_FOUND, w)
    | Some _ => if unlink_at e (moment w) p then (Ok tt, w <| disk := delete (at_root e p) (disk w) |>)
                else (Err (mkIo false None), w)
    end.
Proof. unfold remove. destruct (disk w !! _); [|reflexivity]. destruct (unlink_at _ _ _); reflexivity. Qed.
Lemma unlink_eq p w : unlink e p w = (tt, w <| disk := clears (moment w) [p] (disk w) |>).
Proof.
  unfold unlink, mbind, M_bind. rewrite remove_eq. cbn.
  destruct (disk w !! at_root e p) eqn:E.
  - destruct (unlink_at e (moment w) p); destruct w; reflexivity.
  - assert (N : (if unlink_at e (moment w) p then delete (at_root e p) (disk w) else disk w) = disk w)
      by (destruct (unlink_at _ _ _); [apply delete_id; exact E|reflexivity]).
    rewrite N. destruct w; reflexivity.
Qed.

(** The six paths of a session, in the order [cleanup_all] removes them. *)
Definition paths_of (d : Disk) nm : list bytes :=
  [socket_of_name e d nm; pid_path (root e) nm; metadata_path (root e) nm; events_path (root e) nm;
   recovery_revision_path (root e) nm; output_activity_path (root e) nm].
Lemma cleanup_socket_eq nm w :
  cleanup_socket e nm w
  = (tt, w <| disk := clears (moment w) [socket_of_name e (disk w) nm; pid_path (root e) nm] (disk w) |>).
Proof.
  unfold cleanup_socket, mbind, M_bind, socket_now. rewrite unlink_eq, unlink_eq.
  destruct w; reflexivity.
Qed.
Lemma cleanup_all_eq nm w :
  cleanup_all_while_locked e nm w
  = (tt, w <| done_ := done_ w ++ [Cleaned nm (moment w) (disk w)] |>
           <| disk := clears (moment w) (paths_of (disk w) nm) (disk w) |>).
Proof.
  unfold cleanup_all_while_locked, mbind, M_bind, act. rewrite cleanup_socket_eq, !unlink_eq.
  destruct w; reflexivity.
Qed.

(** What was removed before a refusal stays removed; the rest is as it was. *)
Lemma remove_all_outcome ps w ok w' :
  remove_all e ps w = (ok, w') ->
  done_ w' = done_ w /\ moment w' = moment w /\ held w' = held w
  /\ (forall q, disk w' !! q = disk w !! q \/ disk w' !! q = None)
  /\ (ok = true -> forall p, In p ps -> disk w' !! at_root e p = None)
  /\ (forall q, (forall p, In p ps -> at_root e p <> q) -> disk w' !! q = disk w !! q).
Proof.
  revert w. induction ps as [|p ps IH]; intros w H; cbn in H.
  { injection H as <- <-. repeat split; auto. contradiction. }
  unfold mbind, M_bind in H. rewrite remove_eq in H.
  assert (Go : forall w0, (w0 = w \/ w0 = w <| disk := delete (at_root e p) (disk w) |>) ->
                disk w0 !! at_root e p = None -> remove_all e ps w0 = (ok, w') ->
    done_ w' = done_ w /\ moment w' = moment w /\ held w' = held w
    /\ (forall q, disk w' !! q = disk w !! q \/ disk w' !! q = None)
    /\ (ok = true -> forall q, In q (p :: ps) -> disk w' !! at_root e q = None)
    /\ (forall q, (forall x, In x (p :: ps) -> at_root e x <> q) -> disk w' !! q = disk w !! q)).
  { intros w0 W0 Gone0 R. destruct (IH w0 R) as (D & Mo & He & Sh & Al & Un).
    assert (L : forall q, disk w0 !! q = disk w !! q \/ disk w0 !! q = None).
    { intros q. destruct W0 as [ W0 | W0 ]; rewrite W0; [left; reflexivity|]. cbn.
      destruct (base.decide (at_root e p = q)) as [ <- |N];
        [right; apply lookup_delete_eq|left; apply lookup_delete_ne, N]. }
    assert (F : done_ w0 = done_ w /\ moment w0 = moment w /\ held w0 = held w)
      by (destruct W0 as [ E0 | E0 ]; rewrite E0; auto).
    destruct F as (F1 & F2 & F3). rewrite D, Mo, He, F1, F2, F3. repeat split.
    - intros q. destruct (Sh q) as [S|S]; [rewrite S; apply L|right; exact S].
    - intros Eok q [ <- |Hq]; [|exact (Al Eok q Hq)].
      destruct (Sh (at_root e p)) as [S|S]; [rewrite S; exact Gone0|exact S].
    - intros q N. rewrite Un by (intros x Hx; apply N; right; exact Hx).
      destruct W0 as [ W0 | W0 ]; rewrite W0; [reflexivity|]. cbn. apply lookup_delete_ne. apply N. left. reflexivity. }
  destruct (disk w !! at_root e p) eqn:E.
  - destruct (unlink_at e (moment w) p).
    + eapply Go; [right; reflexivity|cbn; apply lookup_delete_eq|exact H].
    + cbn in H. injection H as <- <-. repeat split; auto. discriminate.
  - eapply Go; [left; reflexivity|exact E|exact H].
Qed.
Lemma remove_all_last ps p w ok w' :
  remove_all e (ps ++ [p]) w = (ok, w') -> (forall q, In q ps -> at_root e q <> at_root e p) ->
  ok = false -> disk w' !! at_root e p = disk w !! at_root e p.
Proof.
  revert w. induction ps as [|q ps IH]; intros w H Apart Eok; cbn in H; unfold mbind, M_bind in H; rewrite remove_eq in H.
  - destruct (disk w !! at_root e p) eqn:E; [|injection H as <- <-; discriminate].
    destruct (unlink_at e (moment w) p); cbn in H; injection H as <- <-; [discriminate|exact E].
  - assert (Ap : forall x, In x ps -> at_root e x <> at_root e p) by (intros x Hx; apply Apart; right; exact Hx).
    destruct (disk w !! at_root e q) eqn:E.
    + destruct (unlink_at e (moment w) q).
      * rewrite (IH _ H Ap Eok). cbn. apply lookup_delete_ne. apply Apart. left. reflexivity.
      * cbn in H. injection H as <- <-. reflexivity.
    + exact (IH _ H Ap Eok).
Qed.

(** ** What removal promises *)

(** The sidecar files that are not the record: the record's path is none of theirs. *)
Definition record_apart nm : Prop :=
  forall d q, In q [socket_of_name e d nm; pid_path (root e) nm; events_path (root e) nm;
                    recovery_revision_path (root e) nm; output_activity_path (root e) nm] ->
  at_root e q <> at_root e (metadata_path (root e) nm).

(** The verdict a retirement needs: the record found is the observed one. *)
Definition retirement_due (k : nat) (d : Disk) nm (observed : SessionMetadata) (pid : option Z) : Prop :=
  exists m, read_identity e k d nm = Some (m, pid)
    /\ value_eqb (VObj (to_map m)) (VObj (to_map observed)) = true
    /\ is_keep_requested (tags m) = false /\ is_permanent_tag m = false
    /\ pid_or pid (daemon_pid m) <> None
    /\ (@check_record_identity (host_at e k) pid (Some m) = Mismatch
        \/ @check_record_identity (host_at e k) pid (Some m) = Gone
           /\ record_has_stale_boot_identity (@boot_id (host_at e k)) m = true).
Lemma may_retire_due k d nm observed pid : may_retire e k d nm observed pid = true <-> retirement_due k d nm observed pid.
Proof.
  unfold may_retire, retirement_due. destruct (read_identity e k d nm) as [[m p]|] eqn:E.
  2: { split; [discriminate|]. intros (m & H & _). discriminate. }
  rewrite !andb_true_iff, !negb_true_iff, bool_decide_eq_true. split.
  - intros (((((V & P) & K) & S) & L) & C). subst pid. exists m. repeat split; auto.
    + intros N. rewrite N in L. discriminate.
    + destruct (check_record_identity _ _); try discriminate; auto.
  - intros (m' & [= <- <-] & V & K & S & L & C). repeat split; auto.
    + destruct (pid_or p (daemon_pid m)); [done|contradiction].
    + destruct C as [->|[-> C]]; [done|exact C].
Qed.
(** The two locks, asked for one after the other from moment [j] on. *)
Definition both_taken (j : nat) nm : Prop :=
  lock_at e (S j) (event_lock_path (root e) nm) = Ok tt /\ lock_at e (S (S j)) (lock_path (root e) nm) = Ok tt.

Lemma retire_observation nm observed pid w :
  wpm (retire_stale_daemon_observation e nm observed pid) (fun ok w' =>
    ok = false /\ done_ w' = done_ w
      /\ (~ both_taken (moment w) nm \/ exists d, disk_at w' (3 + moment w) d /\ may_retire e (3 + moment w) d nm observed pid = false)
    \/ exists d, done_ w' = done_ w ++ [Retired nm (3 + moment w) d] /\ both_taken (moment w) nm
         /\ may_retire e (3 + moment w) d nm observed pid = true
         /\ (forall q, disk w' !! q = d !! q \/ disk w' !! q = None)
         /\ (if (ok : bool) then forall q, In q (paths_of d nm) -> disk w' !! at_root e q = None
             else record_apart nm -> disk w' !! at_root e (metadata_path (root e) nm)
                                     = d !! at_root e (metadata_path (root e) nm))) w.
Proof.
  apply wpm_bind. unfold with_both_locks, lock_or_refusal, both_taken. apply wpm_bind, wpm_observe.
  destruct (lock_at e _ (event_lock_path _ _)) as [[]|[|c]] eqn:L1;
    try (apply wpm_ret, wpm_ret; left; split; [done|]; split; [done|]; left; intros [? _]; congruence).
  apply wpm_bind, wpm_observe.
  destruct (lock_at e _ (lock_path _ _)) as [[]|[|c]] eqn:L2;
    try (apply wpm_ret, wpm_ret; left; split; [done|]; split; [done|]; left; intros [_ ?]; congruence).
  apply wpm_bind, wpm_hold, wpm_bind, wpm_bind, wpm_observe. set (w1 := breathe e _).
  assert (D1 : done_ w1 = done_ w) by reflexivity. assert (K1 : moment w1 = (3 + moment w)%nat) by reflexivity.
  assert (P1 : disk_at w1 (moment w1) (disk w1)) by apply disk_at_breathe. clearbody w1. cbv beta.
  destruct (may_retire _ _ _ _ _ _) eqn:May; cbn [negb].
  2: { apply wpm_ret, wpm_bind, wpm_let_go, wpm_ret, wpm_ret. left. split; [done|]. split; [exact D1|]. right.
       exists (disk w1). rewrite <- K1. split; [exact P1|exact May]. }
  apply wpm_bind, wpm_act, wpm_bind. unfold socket_now.
  eapply wpm_eq; [reflexivity|]. cbn [disk].
  match goal with |- wpm (remove_all e ?ps) _ ?w1 => destruct (remove_all e ps w1) as [ok1 w1'] eqn:R end.
  eapply wpm_eq; [exact R|]. cbn beta. apply wpm_bind, wpm_let_go, wpm_ret, wpm_ret. right. exists (disk w1).
  destruct (remove_all_outcome _ _ _ _ R) as (DR & _ & _ & Shrinks & All & _).
  rewrite <- K1. cbn in DR |- *. split; [rewrite DR, D1; reflexivity|]. split; [split; assumption || reflexivity|].
  split; [exact May|]. split; [intros q; exact (Shrinks q)|].
  destruct ok1.
  - intros q Hq. apply (All eq_refl). cbn in Hq |- *. intuition.
  - intros Apart. refine (remove_all_last [_; _; _; _; _] _ _ _ _ R _ eq_refl). apply Apart.
Qed.

(** C6: A stale daemon's files go only under both locks and only on a verdict: the record
    found once both are taken still equals the observed one, with the observed pid, asks
    for neither [keep] nor permanence, and names a process that is another one now, or
    gone since an earlier boot.  A success leaves none of the six files; a file that will
    not go leaves the record, so the session stays listed; and nothing at all is done only
    when a lock is not to be had or the verdict is against it. *)
Theorem retirement_leaves_record nm observed pid w :
  let k := (3 + moment w)%nat in
  wpm (retire_stale_daemon_observation e nm observed pid) (fun ok w' => exists d,
    (done_ w' = done_ w ++ [Retired nm k d] /\ both_taken (moment w) nm /\ retirement_due k d nm observed pid
     /\ if ok then forall q, In q (paths_of d nm) -> disk w' !! at_root e q = None
        else record_apart nm -> disk w' !! at_root e (metadata_path (root e) nm)
                                = d !! at_root e (metadata_path (root e) nm))
    \/ ok = false /\ done_ w' = done_ w
       /\ (both_taken (moment w) nm -> disk_at w' k d /\ ~ retirement_due k d nm observed pid)) w.
Proof.
  eapply wpm_mono; [apply retire_observation|]. cbn beta.
  intros ok w' [(-> & D & N)|(d & D & T & May & _ & F)].
  - destruct N as [N|(d & At & May)].
    + exists (disk w). right. split; [done|]. split; [exact D|]. intros T. contradiction.
    + exists d. right. split; [done|]. split; [exact D|]. intros _. split; [exact At|].
      rewrite <- may_retire_due, May. discriminate.
  - apply may_retire_due in May. exists d. left. split; [exact D|]. split; [exact T|]. split; [exact May|exact F].
Qed.

(** The sweep at a session's start retires only what it may, and never the session
    that starts. *)
Theorem sweep_retires_only_the_stale starting_name w :
  wpm (retire_stale_daemon_records e starting_name) (fun n w' =>
    exists retired, done_ w' = done_ w ++ retired /\ (n <= length retired)%nat
      /\ forall a, In a retired -> exists nm k d,
           a = Retired nm k d /\ nm <> starting_name /\ (exists m pid, retirement_due k d nm m pid)) w.
Proof.
  assert (None_ : forall w, exists retired, done_ w = done_ w ++ retired /\ (0 <= length retired)%nat
            /\ forall a, In a retired -> exists nm k d,
                 a = Retired nm k d /\ nm <> starting_name /\ exists m pid, retirement_due k d nm m pid).
  { intros w0. exists []. rewrite app_nil_r. repeat split; auto. contradiction. }
  apply wpm_bind, wpm_observe. destruct (reg_dir _) as [entries|err]; [|apply wpm_ret, (None_ w)].
  change (done_ w) with (done_ (breathe e w)). generalize (breathe e w). clear w.
  induction entries as [|x rest IH]; intros w; [apply wpm_ret, None_|].
  apply wpm_bind. apply wpm_mono with (fun n w' => exists retired, done_ w' = done_ w ++ retired
    /\ (n <= length retired)%nat /\ forall a, In a retired -> exists nm k d,
       a = Retired nm k d /\ nm <> starting_name /\ exists m pid, retirement_due k d nm m pid).
  - unfold retire_entry. destruct x as [file| |]; try apply wpm_ret, None_.
    destruct (if is_tmp_name file then _ else _) as [nm|]; [|apply wpm_ret, None_].
    apply wpm_bind, wpm_observe. destruct (beq nm starting_name || _) eqn:B; [apply wpm_ret, (None_ w)|].
    destruct (read_identity _ _ _ _) as [[m p]|]; [|apply wpm_ret, (None_ w)].
    apply orb_false_iff in B as [B _].
    apply wpm_bind. eapply wpm_mono; [apply retire_observation|]. cbn beta.
    intros ok w' [(-> & D & _)|(d & D & _ & May & _)]; apply wpm_ret.
    + exists []. rewrite app_nil_r. repeat split; auto. contradiction.
    + exists [Retired nm (3 + moment (breathe e w)) d]. split; [exact D|]. split; [destruct ok; cbn; lia|].
      intros a [<-|[]]. exists nm, (3 + moment (breathe e w))%nat, d. split; [reflexivity|]. split; [apply beq_neq, B|].
      apply may_retire_due in May. eauto.
  - intros n w1 (l1 & D1 & L1 & A1). apply wpm_bind. eapply wpm_mono; [apply IH|]. cbn beta.
    intros m w2 (l2 & D2 & L2 & A2). apply wpm_ret. exists (l1 ++ l2).
    split; [rewrite D2, D1; symmetry; apply app_assoc|]. split; [rewrite length_app; lia|].
    intros a [Ha|Ha]%in_app_or; auto.
Qed.

(** A session that leaves removes its files only while they are its own: under both
    locks, unless a record with another generation or a pid file with another pid has
    taken their place.  Then each of the six goes, if the file system lets it. *)
Theorem cleanup_owned_all_spec nm owner w :
  wpm (cleanup_owned_all e nm owner) (fun ok w' =>
    match ok with
    | false => done_ w' = done_ w
    | true => exists k d, done_ w' = done_ w ++ [Cleaned nm k d]
        /\ is_current_generation_owner e d nm owner = true
        /\ forall q, disk w' !! q = if goes k (paths_of d nm) q then None else d !! q
    end) w.
Proof.
  apply wpm_bind, wpm_with_both_locks; [intros busy w' D _; exact D|].
  intros w0 D Held. apply wpm_bind, wpm_observe. destruct (is_current_generation_owner _ _ _ _) eqn:Own.
  - apply wpm_bind. eapply wpm_eq; [apply cleanup_all_eq|]. apply wpm_ret, wpm_ret.
    exists (moment (breathe e w0)), (disk (breathe e w0)).
    split; [cbn; rewrite D; reflexivity|]. split; [exact Own|]. intros q. apply clears_lookup.
  - apply wpm_ret, wpm_ret. exact D.
Qed.
End Reasoning.

(** ** Time and the log *)

Section Growth.
Context (e : Env) `{U : Unicode}.
Implicit Types (w : World) (P Q : Action -> Prop).

(** The log grows by entries with [P]. *)
Record grows (P : Action -> Prop) w w' : Prop := mkGrows {
  grows_time : since w w';
  grows_log : exists new, done_ w' = done_ w ++ new /\ Forall P new
}.
Definition adds (P : Action -> Prop) {A} (m : M A) : Prop := forall w, wpm m (fun _ => grows P w) w.

Lemma grows_refl P w : grows P w w.
Proof. split; [apply since_refl; done|]. exists []. rewrite app_nil_r. done. Qed.
Lemma grows_trans P w1 w2 w3 : grows P w1 w2 -> grows P w2 w3 -> grows P w1 w3.
Proof.
  intros [M1 (l1 & E1 & F1)] [M2 (l2 & E2 & F2)]. split; [exact (since_trans _ _ _ M1 M2)|]. exists (l1 ++ l2).
  rewrite E2, E1, app_assoc. split; [done|]. apply Forall_app. done.
Qed.
Lemma grows_weaken (P Q : Action -> Prop) w w' : (forall a, P a -> Q a) -> grows P w w' -> grows Q w w'.
Proof. intros H [M1 (l & E & F)]. split; [exact M1|]. exists l. split; [exact E|]. eapply Forall_impl; eauto. Qed.
Lemma grows_same P w w' : moment w' = moment w -> past w' = past w -> done_ w' = done_ w -> grows P w w'.
Proof. intros E1 E3 E2. split; [apply since_refl; done|]. exists []. rewrite app_nil_r. done. Qed.
Lemma grows_breathe P w : grows P w (breathe e w).
Proof. split; [apply since_breathe|]. exists []. rewrite app_nil_r. done. Qed.
(** What was done, judged by what is known at the end. *)
Class Lasting (J : World -> Action -> Prop) : Prop :=
  lasting w w' a : grows (fun _ => True) w w' -> J w a -> J w' a.
Definition gains (J : World -> Action -> Prop) w w' : Prop := grows (J w') w w'.
Lemma gains_grows (J : World -> Action -> Prop) (Q : Action -> Prop) w w' :
  (forall a, Q a -> J w' a) -> grows Q w w' -> gains J w w'.
Proof. apply grows_weaken. Qed.
Lemma gains_any (J : World -> Action -> Prop) w w' : gains J w w' -> grows (fun _ => True) w w'.
Proof. apply grows_weaken. done. Qed.
Lemma gains_trans (J : World -> Action -> Prop) `{!Lasting J} w1 w2 w3 : gains J w1 w2 -> gains J w2 w3 -> gains J w1 w3.
Proof.
  intros G1 G2. apply (grows_trans _ w1 w2 w3); [|exact G2]. eapply grows_weaken; [|exact G1]. intros a. apply lasting.
  exact (gains_any _ _ _ G2).
Qed.
Lemma gains_refl (J : World -> Action -> Prop) w : gains J w w.
Proof. apply grows_refl. Qed.
Lemma gains_breathe (J : World -> Action -> Prop) w : gains J w (breathe e w).
Proof. apply grows_breathe. Qed.
Lemma gains_then (J : World -> Action -> Prop) `{!Lasting J} {A} (m : M A) w0 w : gains J w0 w -> wpm m (fun _ => gains J w) w -> wpm m (fun _ => gains J w0) w.
Proof. intros G H. eapply wpm_mono; [exact H|]. intros a w' G'. exact (gains_trans J _ _ _ G G'). Qed.
Lemma gains_disk (J : World -> Action -> Prop) w w' k d : gains J w w' -> disk_at w k d -> disk_at w' k d.
Proof. intros [Sn _]. apply disk_at_since, Sn. Qed.
Lemma any_disk (P : Action -> Prop) w w' k d : grows P w w' -> disk_at w k d -> disk_at w' k d.
Proof. intros [Sn _]. apply disk_at_since, Sn. Qed.
Lemma any_done (P : Action -> Prop) w w' a : grows P w w' -> In a (done_ w) -> In a (done_ w').
Proof. intros [_ (new & E & _)] H. rewrite E. apply in_or_app. left. exact H. Qed.
Lemma adds_ret P {A} (a : A) : adds P (mret a).
Proof. intros w. apply grows_refl. Qed.
Lemma adds_bind P {A B} (m : M A) (f : A -> M B) : adds P m -> (forall a, adds P (f a)) -> adds P (m ≫= f).
Proof.
  intros Hm Hf w. apply wpm_bind. eapply wpm_mono; [apply Hm|]. intros a w1 G1.
  eapply wpm_mono; [apply Hf|]. intros b w2 G2. exact (grows_trans _ _ _ _ G1 G2).
Qed.
Lemma adds_observe P {A} (f : nat -> Disk -> A) : adds P (observe e f).
Proof. intros w. apply grows_breathe. Qed.
Lemma adds_act (P : Action -> Prop) a : (forall k d, P (a k d)) -> adds P (act a).
Proof.
  intros H w. split; [apply since_refl; done|]. eexists. split; [done|]. constructor; [apply H|constructor].
Qed.
Lemma adds_weaken (P Q : Action -> Prop) {A} (m : M A) : (forall a, P a -> Q a) -> adds P m -> adds Q m.
Proof. intros H Hm w. eapply wpm_mono; [apply Hm|]. intros a w' G. exact (grows_weaken _ _ _ _ H G). Qed.
Lemma adds_remove P p : adds P (remove e p).
Proof.
  intros w. unfold wpm. rewrite remove_eq. destruct (disk w !! _); [destruct (unlink_at _ _ _)|];
    apply grows_same; done.
Qed.

Lemma adds_hold P nm : adds P (hold nm).
Proof. intros w. apply grows_same; done. Qed.
Lemma adds_let_go P nm : adds P (let_go nm).
Proof. intros w. apply grows_same; done. Qed.
Lemma adds_cleanup_socket P nm : adds P (cleanup_socket e nm).
Proof. intros w. unfold wpm. rewrite cleanup_socket_eq. apply grows_same; done. Qed.
Lemma adds_cleanup_owned_socket P nm o : adds P (cleanup_owned_socket e nm o).
Proof.
  unfold cleanup_owned_socket, lock_or_refusal. apply adds_bind; [apply adds_observe|]. intros [?|?]; [|apply adds_ret].
  apply adds_bind; [apply adds_hold|]. intros _. apply adds_bind; [apply adds_observe|]. intros mine.
  apply adds_bind; [|intros out; apply adds_bind; [apply adds_let_go|intros; apply adds_ret]].
  destruct mine; [|apply adds_ret]. apply adds_bind; [apply adds_cleanup_socket|intros; apply adds_ret].
Qed.
Lemma grows_log_P P w w' : grows P w w' -> logged P w -> logged P w'.
Proof. intros [_ (new & E & F)] H. unfold logged. rewrite E. apply Forall_app. done. Qed.
Lemma adds_with_both_locks P {A} nm (f : M A) : adds P f -> adds P (with_both_locks e nm f).
Proof.
  intros Hf. unfold with_both_locks, lock_or_refusal. apply adds_bind; [apply adds_observe|].
  intros [t1|[|c1]]; [|apply adds_ret ..]. apply adds_bind; [apply adds_observe|].
  intros [t2|[|c2]]; [|apply adds_ret ..]. apply adds_bind; [apply adds_hold|]. intros _.
  apply adds_bind; [exact Hf|]. intros out. apply adds_bind; [apply adds_let_go|]. intros _. apply adds_ret.
Qed.
End Growth.

(** ** A root with a session whose pid another process has taken *)

Definition demo_unicode : Unicode := {| to_lowercase := map to_ascii_lowercase |}.
Definition demo_disk : Disk :=
  list_to_map [(str "/r/a.json", Regular (str "live")); (str "/r/a.pid", Regular (str "4242"));
               (str "/r/a.sock", SocketFile); (str "/r/new.json", Regular (str "live"))].
Definition demo_env (start : string) (stuck : bytes) : Env := {|
  root := str "/r"; sha256 := demo_sha; json := demo_text; render := fun _ => []; link := None; canonical := None;
  others := fun _ d => d; dir_at := fun _ => None; host_at := fun _ => demo_host start;
  lock_at := fun _ _ => Ok tt; now_at := fun _ => 0; write_at := fun _ => true;
  unlink_at := fun _ p => negb (beq p stuck)
|}.
Definition demo_world : World := mkWorld demo_disk 0 [] [].

Example demo_swept : fst (@retire_stale_daemon_records (demo_env "9000" []) demo_unicode (str "new") demo_world) = 1%nat.
Proof. vm_compute. reflexivity. Qed.
Example demo_live_kept : fst (@retire_stale_daemon_records (demo_env "8811" []) demo_unicode [] demo_world) = 0%nat.
Proof. vm_compute. reflexivity. Qed.
(** A pid file that will not go: the session is not retired and its record stays. *)
Example demo_stuck :
  let out := @retire_stale_daemon_records (demo_env "9000" (str "/r/a.pid")) demo_unicode (str "new") demo_world in
  fst out = 0%nat /\ disk (snd out) !! str "/r/a.json" = Some (Regular (str "live")) /\ length (done_ (snd out)) = 1%nat.
Proof. vm_compute. auto. Qed.

Definition retire_demo (start : string) (stuck : bytes) : option (bool * Files.World) :=
  let? seen := read_identity (demo_env start stuck) 0 demo_disk (str "a") in
  Some (@retire_stale_daemon_observation (demo_env start stuck) demo_unicode (str "a") (fst seen) (snd seen) demo_world).
Lemma retirement_leaves_record_witness :
  match retire_demo "9000" [] with
  | Some (ok, w') => ok = true /\ disk w' !! str "/r/a.json" = None
  | None => False
  end.
Proof.
  unfold retire_demo. destruct (read_identity _ _ _ _) as [[m pid]|] eqn:E; [|vm_compute in E; discriminate].
  pose proof (@retirement_leaves_record (demo_env "9000" []) demo_unicode (str "a") m pid demo_world) as H.
  vm_compute in E. injection E as <- <-. revert H. unfold wpm. cbn [fst snd mbind option_bind].
  match goal with |- context [@retire_stale_daemon_observation ?e ?u ?n ?m ?p ?w] =>
    remember (@retire_stale_daemon_observation e u n m p w) as r eqn:R end.
  assert (O : fst r = true) by (rewrite R; vm_compute; reflexivity). destruct r as [ok w']. cbn [fst snd] in O |- *. rewrite O.
  intros [d [(_ & _ & _ & F)|(N & _)]]; [|discriminate N]. split; [reflexivity|].
  apply (F (str "/r/a.json")). right. right. left. reflexivity.
Defined.

Lemma sweep_retires_only_the_stale_witness :
  exists nm k d, In (Retired nm k d)
    (done_ (snd (@retire_stale_daemon_records (demo_env "9000" []) demo_unicode (str "new") demo_world)))
    /\ nm <> str "new".
Proof.
  pose proof (@sweep_retires_only_the_stale (demo_env "9000" []) demo_unicode (str "new") demo_world) as H.
  revert H. unfold wpm. replace (fst _) with 1%nat by (vm_compute; reflexivity).
  intros ([|a l] & D & L & A); [cbn in L; lia|]. destruct (A a (or_introl eq_refl)) as (nm & k & d & -> & Hn & _).
  exists nm, k, d. split; [|exact Hn]. rewrite D. apply in_or_app. right. left. reflexivity.
Defined.

Lemma cleanup_owned_all_spec_witness :
  done_ (snd (@cleanup_owned_all (demo_env "8811" []) (str "a") (mkOwner (str "g") 1) demo_world)) = [].
Proof.
  pose proof (@cleanup_owned_all_spec (demo_env "8811" []) (str "a") (mkOwner (str "g") 1) demo_world) as H.
  revert H. unfold wpm. replace (fst _) with false by (vm_compute; reflexivity). auto.
Defined.
