(* ===== verification/Events.v ===== *)
(** The event log of [crates/pty-core/src/events/mod.rs] and its follower
    [events/follow.rs]: records and their JSON lines, retention, the one-shot writer and
    the daemon's batched one, the readers, the texts [pty events] prints.

    A log is the bytes of its file; every write replaces the file as a whole, so it is
    the list of published contents that matters to a reader.  [print] is
    [serde_json::to_string] and [parse] reads a JSON text. *)
From S2P Require Import Prelude Json Metadata Time Names Text Argv.

(** ** Records *)

Definition BELL : bytes := str "bell".
Definition TITLE_CHANGE : bytes := str "title_change".
Definition NOTIFICATION : bytes := str "notification".
Definition FOCUS_REQUEST : bytes := str "focus_request".
Definition CURSOR_VISIBLE : bytes := str "cursor_visible".
Definition SESSION_START : bytes := str "session_start".
Definition SESSION_EXIT : bytes := str "session_exit".
Definition SESSION_EXEC : bytes := str "session_exec".
Definition SESSION_RESPAWN : bytes := str "session_respawn".
Definition SESSION_DESCENDANTS_SURVIVED : bytes := str "session_descendants_survived".
Definition SESSION_ABANDONED : bytes := str "session_abandoned".
Definition SESSION_FLAPPING : bytes := str "session_flapping".
Definition DISPLAY_NAME_CHANGE : bytes := str "display_name_change".
Definition TAGS_CHANGE : bytes := str "tags_change".
Definition METADATA_CHANGE : bytes := str "metadata_change".
Definition USER_PREFIX : bytes := str "user.".

Inductive NotificationSource : Type := Osc9 | Osc99 | Osc777.
Definition NotificationSource_as_str (s : NotificationSource) : bytes :=
  match s with Osc9 => str "osc9" | Osc99 => str "osc99" | Osc777 => str "osc777" end.

Record Event : Type := mkEvent {
  ev_session : bytes;
  ev_type : bytes;
  ev_ts : bytes;
  ev_payload : IndexMap Value
}.

(** [f64 as i64]: towards zero, saturating, NaN is 0. *)
Definition f64_as_i64 (bits : Z) : Z :=
  let negative := Z.testbit bits 63 in
  let exponent := Z.land (Z.shiftr bits 52) 2047 in
  let fraction := Z.land bits 4503599627370495 in
  if (exponent =? 2047) && negb (fraction =? 0) then 0
  else
    let magnitude :=
      if exponent =? 2047 then I64_MAX + 1
      else if exponent =? 0 then 0
      else Z.shiftl (fraction + 4503599627370496) (exponent - 1075) in
    Z.max I64_MIN (Z.min I64_MAX (if negative then - magnitude else magnitude)).

Section Records.
Context (print : Value -> bytes) (now : bytes).

Definition Event_new (session type : bytes) : Event := mkEvent session type now [].
Definition with_ts (ts : bytes) (e : Event) : Event := mkEvent (ev_session e) (ev_type e) ts (ev_payload e).
Definition with_field (key : bytes) (v : Value) (e : Event) : Event :=
  mkEvent (ev_session e) (ev_type e) (ev_ts e) (minsert key v (ev_payload e)).
Definition get (e : Event) (key : bytes) : option Value := mget key (ev_payload e).
Definition get_str (e : Event) (key : bytes) : option bytes :=
  match get e key with Some (VStr s) => Some s | _ => None end.
Definition is_user_event (e : Event) : bool := starts_with USER_PREFIX (ev_type e).

(** The flattened object: the three fields, then the payload. *)
Definition Event_value (e : Event) : Value :=
  VObj ((str "session", VStr (ev_session e)) :: (str "type", VStr (ev_type e))
        :: (str "ts", VStr (ev_ts e)) :: ev_payload e).
Definition to_json (e : Event) : bytes := print (Event_value e).

Definition tag_map_value (tags : IndexMap bytes) : Value := VObj (map (fun kv => (fst kv, VStr (snd kv))) tags).
Definition opt_with (key : bytes) (v : option Value) (e : Event) : Event :=
  match v with Some v => with_field key v e | None => e end.
Definition or_null (o : option bytes) : Value := match o with Some s => VStr s | None => VNull end.

Definition bell (session : bytes) : Event := Event_new session BELL.
Definition title_change (session value : bytes) : Event :=
  with_field (str "value") (VStr value) (Event_new session TITLE_CHANGE).
Definition notification (session : bytes) (title body : option bytes) (source : option NotificationSource) : Event :=
  opt_with (str "source") (VStr ∘ NotificationSource_as_str <$> source)
    (opt_with (str "body") (VStr <$> body)
       (opt_with (str "title") (VStr <$> title) (Event_new session NOTIFICATION))).
Definition focus_request (session : bytes) : Event := Event_new session FOCUS_REQUEST.
Definition cursor_visible (session : bytes) : Event := Event_new session CURSOR_VISIBLE.
Definition session_start (session : bytes) (tags : option (IndexMap bytes)) : Event :=
  opt_with (str "tags") (let? t := tags in if is_nonempty t then Some (tag_map_value t) else None)
    (Event_new session SESSION_START).
Definition session_exit (session : bytes) (exit_code : Z) (signal : option Z) : Event :=
  opt_with (str "signal") (let? s := signal in if s =? 0 then None else Some (enc_int s))
    (with_field (str "exitCode") (enc_int exit_code) (Event_new session SESSION_EXIT)).
Definition session_descendants_survived (session : bytes) (pids : list Z) : Event :=
  with_field (str "data") (VObj [(str "pids", VArr (map enc_int pids))])
    (Event_new session SESSION_DESCENDANTS_SURVIVED).
Definition session_exec (session previous_command command : bytes) : Event :=
  with_field (str "command") (VStr command)
    (with_field (str "previousCommand") (VStr previous_command) (Event_new session SESSION_EXEC)).
Definition session_respawn (session : bytes) : Event := Event_new session SESSION_RESPAWN.
Definition session_abandoned (session reason : bytes) (idle_days : option Z) : Event :=
  opt_with (str "idleDays") (enc_int <$> idle_days)
    (with_field (str "reason") (VStr reason) (Event_new session SESSION_ABANDONED)).
Definition session_flapping (session : bytes) (counter limit window : Z) : Event :=
  with_field (str "window") (enc_int window)
    (with_field (str "limit") (enc_int limit)
       (with_field (str "counter") (enc_int counter) (Event_new session SESSION_FLAPPING))).
Definition user (session type : bytes) (data : option Value) (text : option bytes) : Event :=
  opt_with (str "text") (VStr <$> text) (opt_with (str "data") data (Event_new session type)).
Definition display_name_change (session : bytes) (previous value : option bytes) : Event :=
  with_field (str "value") (or_null value)
    (with_field (str "previous") (or_null previous) (Event_new session DISPLAY_NAME_CHANGE)).
Definition tags_change (session : bytes) (previous value : IndexMap bytes) : Event :=
  with_field (str "value") (tag_map_value value)
    (with_field (str "previous") (tag_map_value previous) (Event_new session TAGS_CHANGE)).

(** [None]: valid. *)
Definition validate_user_event_type (type : bytes) : option bytes :=
  match type with
  | [] => Some (str "event type must be a non-empty string")
  | _ =>
      if negb (starts_with USER_PREFIX type) then
        Some (str "custom events must start with " ++ 34 :: str "user." ++ 34 :: str " (got "
              ++ print (VStr type) ++ str ")")
      else if beq type USER_PREFIX then
        Some (str "event type " ++ 34 :: str "user." ++ 34 :: str " needs a suffix (e.g. " ++ 34
              :: str "user.build-done" ++ 34 :: str ")")
      else if existsb (fun c => is_js_whitespace c || (c <? 32)) type then
        Some (str "event type may not contain whitespace or control characters")
      else None
  end.

(** *** Reading a record *)

(** [ts_from_string_or_number]. *)
Definition ts_of (v : Value) : bytes :=
  match v with
  | VStr s => s
  | VNum (NInt n) => iso8601_from_epoch_ms (Z.min I64_MAX n)
  | VNum (NFloat bits) => iso8601_from_epoch_ms (f64_as_i64 bits)
  | other => print other
  end.
Definition sole {A} (key : bytes) (fields : list (bytes * A)) : option A :=
  match List.filter (fun kv => beq key (fst kv)) fields with [(_, v)] => Some v | _ => None end.
Definition is_envelope (key : bytes) : bool :=
  beq key (str "session") || beq key (str "type") || beq key (str "ts").
(** The derived reader: each of the three fields once, the rest into the payload. *)
Definition Event_of_fields (fields : list (bytes * Value)) : option Event :=
  match sole (str "session") fields, sole (str "type") fields, sole (str "ts") fields with
  | Some (VStr session), Some (VStr type), Some ts =>
      Some (mkEvent session type (ts_of ts)
              (foldl (fun m kv => if is_envelope (fst kv) then m else minsert (fst kv) (snd kv) m) [] fields))
  | _, _, _ => None
  end.
End Records.

(** ** Retention *)

Definition MAX_LINES : nat := 1000.
Definition KEEP_LINES : nat := 500.
Definition TRUNCATE_CHECK_INTERVAL : Z := 100.
Definition TRUNCATE_SIZE_THRESHOLD : Z := Z.of_nat MAX_LINES * 40.
Definition DEFAULT_RECENT_EVENTS : Z := 50.

(** [char::len_utf8]. *)
Definition len_utf8 (c : Z) : Z := if c <? 128 then 1 else if c <? 2048 then 2 else if c <? 65536 then 3 else 4.
Definition text_len (s : bytes) : Z := foldr (fun c n => len_utf8 c + n) 0 s.
Definition trim_end (p : Z -> bool) (s : bytes) : bytes := rev (trim_start p (rev s)).

(** The offset of line [i] is what the lines before it take, each with its newline. *)
Definition line_offset (lines : list bytes) (i : nat) : Z :=
  foldr (fun l n => text_len l + 1 + n) 0 (take i lines).
Definition retained_suffix (content : bytes) : option bytes :=
  let? text := from_utf8 content in
  let lines := split_on (Z.eqb 10) (trim_end is_trim_space text) in
  if (length lines <? MAX_LINES)%nat then None
  else Some (drop (Z.to_nat (line_offset lines (length lines - KEEP_LINES))) content).

Section Log.
Context (print : Value -> bytes).
Abbreviation line e := (to_json print e ++ [10]).

(** What [append_line] publishes over the content it read. *)
Definition append_line (content : bytes) (e : Event) (should_check_retention : Z -> bool) : bytes :=
  let content := content ++ line e in
  if should_check_retention (blen content) then default content (retained_suffix content) else content.
(** [append_event_locked], with the event lock held. *)
Definition append_event_locked (content : bytes) (e : Event) : bytes :=
  append_line content e (fun size => TRUNCATE_SIZE_THRESHOLD <=? size).

(** [append_batch]: the snapshots published, in order, and the count. *)
Record Batch : Type := mkBatch {
  b_content : bytes;
  b_published_len : Z;
  b_dirty : bool;
  b_count : Z;
  b_published : list bytes
}.
Definition append_one (b : Batch) (e : Event) : Batch :=
  let content := b_content b ++ line e in
  let count := b_count b + 1 in
  if TRUNCATE_CHECK_INTERVAL <=? count then
    match retained_suffix content with
    | Some suffix =>
        let full := if b_published_len b <=? blen suffix then [content] else [] in
        mkBatch suffix (blen suffix) false 0 (b_published b ++ full ++ [suffix])
    | None => mkBatch content (b_published_len b) true 0 (b_published b)
    end
  else mkBatch content (b_published_len b) true count (b_published b).
Definition append_batch (content : bytes) (events : list Event) (append_count : Z) : list bytes * Z :=
  let b := foldl append_one (mkBatch content (blen content) false append_count []) events in
  (if b_dirty b then b_published b ++ [b_content b] else b_published b, b_count b).

(** [EventWriter]'s thread: [pending] records, the checks' count, the log's
    publications.  [lock] is whether the event lock came in time and [write] how many
    writes succeed before one fails ([None]: all). *)
Record Writer : Type := mkWriter {
  w_pending : list Event;
  w_count : Z;
  w_deadline : option Z;
  w_log : bytes
}.
Definition last_or (d : bytes) (l : list bytes) : bytes := List.last l d.
Definition publish (lock : bool) (write : option nat) (w : Writer) : Writer :=
  match w_pending w with
  | [] => w
  | events =>
      if lock then
        let '(published, next_count) := append_batch (w_log w) events (w_count w) in
        match write with
        | Some n => if (n <? length published)%nat
                    then mkWriter [] (w_count w) (w_deadline w) (last_or (w_log w) (take n published))
                    else mkWriter [] next_count (w_deadline w) (last_or (w_log w) published)
        | None => mkWriter [] next_count (w_deadline w) (last_or (w_log w) published)
        end
      else mkWriter [] (w_count w) (w_deadline w) (w_log w)
  end.
Inductive WriterMsg : Type := Append (e : Event) | Flush | Timeout | Disconnected.
Definition no_deadline (w : Writer) : Writer := mkWriter (w_pending w) (w_count w) None (w_log w).
(** One turn of the loop, from its deadline check at [now] to the handling of the message
    that [arrived]; [true]: the loop ends. *)
Definition writer_turn (lock1 lock2 : bool) (write1 write2 : option nat) (now arrived : Z) (msg : WriterMsg)
  (w : Writer) : Writer * bool :=
  let w := match w_deadline w with
           | Some until => if until <=? now then no_deadline (publish lock1 write1 w) else w
           | None => w
           end in
  match msg with
  | Append e =>
      let exiting := beq (ev_type e) SESSION_EXIT in
      let w := mkWriter (w_pending w ++ [e]) (w_count w)
                 (Some (default (arrived + 250) (w_deadline w))) (w_log w) in
      (if exiting then no_deadline (publish lock2 write2 w) else w, false)
  | Flush | Timeout => (no_deadline (publish lock2 write2 w), false)
  | Disconnected => (publish lock2 write2 w, true)
  end.
End Log.

(** ** Readers *)

Section Readers.
Context (print : Value -> bytes) (parse : bytes -> option (list (bytes * Value))).

Definition parse_event (line : bytes) : option Event :=
  let? fields := parse line in Event_of_fields print fields.

(** The newest lines first, until [count] are found; a line that is not an event
    empties the answer. *)
Fixpoint newest (count : nat) (type : option bytes) (lines : list bytes) (out : list Event)
  : option (list Event) :=
  match lines with
  | [] => Some out
  | l :: lines =>
      let? e := parse_event l in
      if match type with Some t => beq (ev_type e) t | None => true end then
        if (S (length out) =? count)%nat then Some (e :: out) else newest count type lines (e :: out)
      else newest count type lines out
  end.
Definition read_recent_events_at (content : option bytes) (count : nat) (type : option bytes) : list Event :=
  match count with
  | O => []
  | _ =>
      match content ≫= from_utf8 with
      | None => []
      | Some text =>
          default [] (newest count type
            (rev (List.filter is_nonempty (split_on (Z.eqb 10) (trim_end is_trim_space text)))) [])
      end
  end.
Definition read_all_events_at (content : option bytes) : list Event :=
  match content ≫= from_utf8 with
  | None => []
  | Some text => omap parse_event (List.filter is_nonempty (lines text))
  end.

(** *** The follower *)

(** [identity]: device and inode. *)
Record Tracked : Type := mkTracked { offset : nat; snapshot : bytes; identity : option (Z * Z) }.
Definition Tracked_existing (content : option bytes) : Tracked :=
  let snapshot := default [] content in mkTracked (length snapshot) snapshot None.
Definition Tracked_new : Tracked := mkTracked 0 [] None.

(** [content.iter().rposition(..)]. *)
Fixpoint rposition (p : Z -> bool) (l : bytes) : option nat :=
  match l with
  | [] => None
  | x :: l => match rposition p l with
              | Some i => Some (S i)
              | None => if p x then Some O else None
              end
  end.
Definition events_of_text (text : bytes) : list Event :=
  omap parse_event (List.filter is_nonempty (split_on (Z.eqb 10) text)).

(** [seen]: the opened file's identity and content. *)
Definition read_new_lines (t : Tracked) (seen : option ((Z * Z) * bytes)) : list Event * Tracked :=
  match seen with
  | None => ([], t)
  | Some (id, content) =>
      if bool_decide (identity t = Some id) && (length content =? length (snapshot t))%nat then ([], t)
      else
        let off := if (length content <? offset t)%nat
                      || negb (beq (take (offset t) (snapshot t)) (take (offset t) content))
                   then O else offset t in
        match rposition (Z.eqb 10) (drop off content) with
        | None => ([], mkTracked off content (Some id))
        | Some last_newline =>
            let end_ := (off + last_newline + 1)%nat in
            let chunk := from_utf8_lossy (take (end_ - off) (drop off content)) in
            (events_of_text chunk, mkTracked end_ content (Some id))
        end
  end.

(** One pass over a named source: whether it is still followed.  Each read of the log,
    the record's presence and the registry's answers are arguments, as they come. *)
Definition follow_named (t : Tracked) (registry_seen : bool) (read1 read2 read3 : option ((Z * Z) * bytes))
  (present lock_held present_again : bool) (record : option SessionMetadata) (vanished : bool)
  : list Event * option (Tracked * bool) :=
  let '(events1, t) := read_new_lines t read1 in
  let exited := existsb (fun e => beq (ev_type e) SESSION_EXIT) events1 in
  let removed := registry_seen && negb present && (negb lock_held && negb present_again) in
  let registry_seen := registry_seen || present in
  let retained_exit := match record with
                       | Some m => Metadata.has_exited m || bool_decide (exit_code m <> None)
                       | None => false
                       end in
  let '(events2, t) := if retained_exit then read_new_lines t read2 else ([], t) in
  if exited || removed || retained_exit then (events1 ++ events2, None)
  else
    let '(events3, t) := if vanished then read_new_lines t read3 else ([], t) in
    (events1 ++ events2 ++ events3, if vanished then None else Some (t, registry_seen)).
End Readers.

(** ** The texts of [pty events] *)

(** [hms]: the local wall-clock time of an instant. *)
Section Format.
Context (print : Value -> bytes) (hms : Z -> bytes).

(** [`${v}`] and the truth of a value, as JavaScript has them. *)
Fixpoint js_string (v : Value) : bytes :=
  match v with
  | VStr s => s
  | VNull => str "null"
  | VBool b => if b then str "true" else str "false"
  | VNum n => print (VNum n)
  | VArr items =>
      (fix go (items : list Value) : bytes :=
         match items with
         | [] => []
         | [v] => js_string v
         | v :: rest => js_string v ++ 44 :: go rest
         end) items
  | VObj _ => str "[object Object]"
  end.
Definition js_truthy (v : option Value) : bool :=
  match v with
  | None | Some VNull => false
  | Some (VBool b) => b
  | Some (VNum (NInt z)) => negb (z =? 0)
  | Some (VNum (NFloat bits)) => negb (is_zero_bits bits)
  | Some (VStr s) => is_nonempty s
  | Some (VArr _) | Some (VObj _) => true
  end.
Definition js_stringify (v : option Value) : bytes :=
  match v with None => str "undefined" | Some v => print v end.
Definition js_field (v : option Value) : bytes :=
  match v with Some v => js_string v | None => str "undefined" end.

Fixpoint sep_by (sep : bytes) (parts : list bytes) : bytes :=
  match parts with
  | [] => []
  | [p] => p
  | p :: rest => p ++ sep ++ sep_by sep rest
  end.
Definition key_values (m : IndexMap Value) : bytes :=
  sep_by (str " ") (map (fun kv => fst kv ++ str "=" ++ js_string (snd kv)) m).
Definition kv_listing (v : option Value) : bytes :=
  match v with
  | Some (VObj (x :: m)) => key_values (x :: m)
  | _ => str "{}"
  end.

Definition quoted (s : bytes) : bytes := 34 :: s ++ [34].
Definition format_event (e : Event) : bytes :=
  let time := match parse_iso8601_ms (ev_ts e) with Some ms => hms ms | None => str "Invalid Date" end in
  let prefix := str "[" ++ time ++ str "] " ++ ev_session e ++ str ":" in
  let field := get e in
  let line body := prefix ++ str " " ++ body in
  let kind t := beq (ev_type e) t in
  if kind BELL then line (str "bell")
  else if kind TITLE_CHANGE then line (str "title -> " ++ quoted (js_field (field (str "value"))))
  else if kind NOTIFICATION then
    let part key f := if js_truthy (field key) then [f (js_field (field key))] else [] in
    sep_by (str " ") ([prefix; str "notification"]
                       ++ part (str "title") (fun s => str "-- " ++ quoted s) ++ part (str "body") id)
  else if kind FOCUS_REQUEST then line (str "focus requested")
  else if kind CURSOR_VISIBLE then line (str "cursor restored")
  else if kind SESSION_START then
    line (str "started" ++ match field (str "tags") with
                           | Some (VObj tags) => str " " ++ key_values tags
                           | _ => []
                           end)
  else if kind SESSION_EXIT then
    let code := js_field (field (str "exitCode")) in
    if js_truthy (field (str "signal"))
    then line (str "killed by signal " ++ js_field (field (str "signal")) ++ str " (code " ++ code ++ str ")")
    else line (str "exited (code " ++ code ++ str ")")
  else if kind SESSION_EXEC then
    line (str "exec " ++ js_field (field (str "command")) ++ str " (was "
          ++ js_field (field (str "previousCommand")) ++ str ")")
  else if kind SESSION_RESPAWN then line (str "respawned")
  else if kind SESSION_ABANDONED then
    let reason := js_field (field (str "reason")) in
    match field (str "idleDays") with
    | Some days => if beq reason (str "idle") then line (str "abandoned (idle " ++ js_string days ++ str "d)")
                   else line (str "abandoned (" ++ reason ++ str ")")
    | None => line (str "abandoned (" ++ reason ++ str ")")
    end
  else if kind DISPLAY_NAME_CHANGE then
    line (str "display_name -> " ++ js_stringify (field (str "value")) ++ str " (was "
          ++ js_stringify (field (str "previous")) ++ str ")")
  else if kind TAGS_CHANGE then
    line (str "tags -> " ++ kv_listing (field (str "value")) ++ str " (was "
          ++ kv_listing (field (str "previous")) ++ str ")")
  else if kind METADATA_CHANGE then
    line (str "metadata -> " ++ js_stringify (field (str "value")) ++ str " (was "
          ++ js_stringify (field (str "previous")) ++ str ")")
  else
    let suffix := match field (str "text"), field (str "data") with
                  | Some VNull, Some data | None, Some data => str " " ++ print data
                  | Some VNull, None | None, None => []
                  | Some text, _ => str " " ++ quoted (js_string text)
                  end in
    line (ev_type e ++ suffix).
End Format.

(** ** Complete logs *)

(** A text whose every line ends: nothing, or a text that ends in a newline. *)
Definition joined (ls : list bytes) : bytes := concat (map (fun l => l ++ [10]) ls).

(** The bytes of a line: well-formed text without a newline whose last character is no
    whitespace. *)
Definition is_line (l t : bytes) : Prop :=
  from_utf8 l = Some t /\ forallb (fun c => negb (10 =? c)) t = true
  /\ exists t0 c, t = t0 ++ [c] /\ is_trim_space c = false.
Definition lines_as (ls ts : list bytes) : Prop := Forall2 is_line ls ts.
Definition complete (content : bytes) : Prop := exists ls ts, lines_as ls ts /\ content = joined ls.

Lemma fmap_cons_app (f : Z) (o : option bytes) (x b : bytes) :
  cons f <$> (app x <$> o) = app (f :: x) <$> o.
Proof. destruct o; reflexivity. Qed.

Lemma from_utf8_app a : forall x b, from_utf8 a = Some x -> from_utf8 (a ++ b) = app x <$> from_utf8 b.
Proof.
  induction a as [a IH] using (induction_ltof1 _ (@length Z)). unfold ltof in IH.
  destruct a as [|a l1]; intros x r.
  { intros [= <-]. cbn. destruct (from_utf8 r); done. }
  assert (Hrec : forall f m, (length m < length (a :: l1))%nat -> cons f <$> from_utf8 m = Some x ->
            cons f <$> from_utf8 (m ++ r) = app x <$> from_utf8 r).
  { intros f m Hm. destruct (from_utf8 m) as [y|] eqn:E; cbn; [|discriminate]. intros [= <-].
    rewrite (IH m Hm y r E). destruct (from_utf8 r); done. }
  cbn [from_utf8 app].
  destruct (in_range 0 127 a); [apply Hrec; cbn; lia|].
  destruct l1 as [|b l2]; [discriminate|]. cbn [app].
  destruct (in_range 194 223 a); [destruct (cont b); [|discriminate]; apply Hrec; cbn; lia|].
  destruct l2 as [|c l3]; [discriminate|]. cbn [app].
  destruct (in_range 224 239 a); [destruct (_ && _); [|discriminate]; apply Hrec; cbn; lia|].
  destruct l3 as [|d l4]; [discriminate|]. cbn [app].
  destruct (_ && _); [|discriminate]. apply Hrec. cbn. lia.
Qed.

(** What decoding yields takes as many bytes as it was decoded from. *)
Lemma text_len_utf8 a : forall x, from_utf8 a = Some x -> text_len x = blen a.
Proof.
  induction a as [a IH] using (induction_ltof1 _ (@length Z)). unfold ltof in IH.
  destruct a as [|a l1]; intros x; [intros [= <-]; done|].
  assert (Hrec : forall f m n, len_utf8 f = n -> blen (a :: l1) = n + blen m -> 0 < n ->
            cons f <$> from_utf8 m = Some x -> text_len x = blen (a :: l1)).
  { intros f m n Hf Hn Hp. destruct (from_utf8 m) as [y|] eqn:E; cbn [fmap option_fmap option_map]; [|discriminate].
    intros Hx. injection Hx as <-. cbn [text_len foldr]. change (foldr (fun c n => len_utf8 c + n) 0 y) with (text_len y).
    rewrite (IH m) by (done || unfold blen in *; cbn [length] in *; lia). lia. }
  assert (L : forall y (l : bytes), blen (y :: l) = 1 + blen l) by (intros; unfold blen; cbn [length]; lia).
  unfold len_utf8 in Hrec. cbn [from_utf8]. unfold cont, in_range in *.
  destruct (_ && _) eqn:E1; [apply Hrec with 1; [destruct (a <? 128) eqn:E; lia|apply L|lia]|].
  destruct l1 as [|b l2]; [discriminate|].
  destruct ((194 <=? a) && _) eqn:E2.
  { match goal with |- context [if ?g then cons _ <$> _ else None] => destruct g eqn:C end; [|discriminate]. apply Hrec with 2; [|rewrite !L; lia|lia].
    unfold scalar2 in *. repeat match goal with |- context [?u <? ?v] => destruct (Z.ltb_spec u v) end; lia. }
  destruct l2 as [|c l3]; [discriminate|].
  destruct ((224 <=? a) && _) eqn:E3.
  { match goal with |- context [if ?g then cons _ <$> _ else None] => destruct g eqn:C end; [|discriminate]. apply Hrec with 3; [|rewrite !L; lia|lia].
    unfold scalar3 in *. repeat match goal with |- context [?u <? ?v] => destruct (Z.ltb_spec u v) end; lia. }
  destruct l3 as [|d l4]; [discriminate|].
  match goal with |- context [if ?g then cons _ <$> _ else None] => destruct g eqn:C end; [|discriminate]. apply Hrec with 4; [|rewrite !L; lia|lia].
  unfold scalar4 in *. repeat match goal with |- context [?u <? ?v] => destruct (Z.ltb_spec u v) end; lia.
Qed.

Lemma joined_app xs ys : joined (xs ++ ys) = joined xs ++ joined ys.
Proof. unfold joined. rewrite map_app, concat_app. done. Qed.
Lemma joined_utf8 ls ts : lines_as ls ts -> from_utf8 (joined ls) = Some (joined ts).
Proof.
  induction 1 as [|l t ls ts (Ht & _) _ IH]; [done|]. cbn [joined map concat]. rewrite <- app_assoc.
  rewrite (from_utf8_app _ _ _ Ht). cbn [app from_utf8]. change (in_range 0 127 10) with true. cbn iota.
  unfold joined in IH. rewrite IH. cbn. rewrite <- app_assoc. done.
Qed.
Lemma lines_as_app ls ts ls' ts' : lines_as ls ts -> lines_as ls' ts' -> lines_as (ls ++ ls') (ts ++ ts').
Proof. apply Forall2_app. Qed.
Lemma lines_as_drop n ls ts : lines_as ls ts -> lines_as (drop n ls) (drop n ts).
Proof. apply Forall2_drop. Qed.

Lemma trim_end_joined l t (H : is_line l t) (before : list bytes) :
  trim_end is_trim_space (joined before ++ t ++ [10]) = joined before ++ t.
Proof.
  destruct H as (_ & _ & t0 & c & -> & Hc). unfold trim_end. rewrite !rev_app_distr. cbn [rev app].
  unfold trim_start. cbn [span]. change (is_trim_space 10) with true. cbn iota.
  rewrite Hc. cbn [snd]. cbn [rev]. rewrite !rev_app_distr, !rev_involutive.
  rewrite <- app_assoc. done.
Qed.
Lemma split_joined ts t :
  Forall (fun t => forallb (fun c => negb (10 =? c)) t = true) (ts ++ [t]) ->
  split_on (Z.eqb 10) (joined ts ++ t) = ts ++ [t].
Proof.
  induction ts as [|x ts IH]; cbn [app joined map concat]; intros H.
  - apply split_on_none. inversion H; auto.
  - inversion H; subst. rewrite <- !app_assoc. cbn [app]. rewrite split_on_app by done. f_equal. apply IH. done.
Qed.
Lemma lines_no_newline ls ts : lines_as ls ts -> Forall (fun t => forallb (fun c => negb (10 =? c)) t = true) ts.
Proof. induction 1 as [|l t ls ts (_ & Hn & _) _ IH]; constructor; auto. Qed.

(** The text lines of a complete log. *)
Lemma split_trimmed ls ts : lines_as ls ts -> ls <> [] ->
  split_on (Z.eqb 10) (trim_end is_trim_space (joined ts)) = ts.
Proof.
  intros H Hne. destruct (exists_last Hne) as (ls0 & l & ->).
  apply Forall2_app_inv_l in H as (ts0 & tl & H0 & Hl & ->). inversion Hl as [|? t ? ? Ht Hnil]; subst.
  inversion Hnil; subst. rewrite joined_app. cbn [joined map concat]. rewrite app_nil_r.
  rewrite (trim_end_joined l t Ht). apply split_joined.
  apply Forall_app. split; [exact (lines_no_newline _ _ H0)|]. constructor; [apply Ht|constructor].
Qed.
Lemma line_offset_joined ls ts n : lines_as ls ts -> line_offset ts n = blen (joined (take n ls)).
Proof.
  intros H. revert n. induction H as [|l t ls ts (Ht & _) _ IH]; intros [|n]; try done.
  unfold line_offset in *. cbn [take foldr joined map concat]. rewrite IH, (text_len_utf8 _ _ Ht).
  unfold blen. rewrite !length_app. cbn [length]. unfold joined. lia.
Qed.
Lemma drop_joined n ls : drop (length (joined (take n ls))) (joined ls) = joined (drop n ls).
Proof.
  rewrite <- (take_drop n ls) at 2. rewrite joined_app. apply drop_app_length.
Qed.

(** Retention on a complete log: its last lines, once there are enough. *)
Lemma retained_suffix_joined ls ts : lines_as ls ts ->
  retained_suffix (joined ls) = if (length ls <? MAX_LINES)%nat then None
                                else Some (joined (drop (length ls - KEEP_LINES) ls)).
Proof.
  intros H. unfold retained_suffix. rewrite (joined_utf8 _ _ H). cbn [mbind option_bind].
  destruct ls as [|l ls]; [inversion H; subst; reflexivity|].
  rewrite (split_trimmed _ _ H) by done. rewrite (Forall2_length _ _ _ H).
  destruct (_ <? _)%nat; [done|]. rewrite (line_offset_joined _ _ _ H). unfold blen.
  rewrite Nat2Z.id, drop_joined. done.
Qed.

(** What the text of a JSON object is: one line of UTF-8 that ends in a brace. *)
Class JsonText (print : Value -> bytes) : Prop :=
  print_line : forall fields, exists t, is_line (print (VObj fields)) t.

Section Writing.
Context (print : Value -> bytes) {P : JsonText print}.
Abbreviation json := (to_json print).
Implicit Types (ls ts : list bytes) (es : list Event) (b : Batch) (w : Writer).

Lemma json_line e : exists t, is_line (json e) t.
Proof. apply print_line. Qed.

(** *** The log as a list of lines *)

Definition retain ls : list bytes :=
  if (length ls <? MAX_LINES)%nat then ls else drop (length ls - KEEP_LINES) ls.
Definition log_step (s : list bytes * Z) (e : Event) : list bytes * Z :=
  let '(ls, count) := s in
  if TRUNCATE_CHECK_INTERVAL <=? count + 1 then (retain (ls ++ [json e]), 0) else (ls ++ [json e], count + 1).

Lemma append_lines ls ts e : lines_as ls ts ->
  exists t, lines_as (ls ++ [json e]) (ts ++ [t]) /\ joined ls ++ json e ++ [10] = joined (ls ++ [json e]).
Proof.
  intros H. destruct (json_line e) as [t Ht]. exists t. split; [apply lines_as_app; [done|repeat constructor; apply Ht]|].
  rewrite joined_app. cbn [joined map concat]. rewrite app_nil_r. done.
Qed.
Lemma complete_drop n ls ts : lines_as ls ts -> complete (joined (drop n ls)).
Proof. intros H. exists (drop n ls), (drop n ts). split; [apply lines_as_drop, H|done]. Qed.

Lemma drop_bytes n ls : (0 < n)%nat -> (0 < length ls)%nat -> blen (joined (drop n ls)) < blen (joined ls).
Proof.
  intros Hn Hl. rewrite <- (take_drop n ls) at 2. rewrite joined_app. unfold blen. rewrite length_app.
  destruct n as [|n]; [lia|]. destruct ls as [|l ls]; [cbn in Hl; lia|].
  cbn [take joined map concat]. rewrite !length_app. cbn [length]. lia.
Qed.

(** The last snapshot published, and what a reader sees between two of them. *)
Definition follows (p q : bytes) : Prop := (exists more, q = p ++ more) \/ blen q < blen p.
Fixpoint publications (p : bytes) (qs : list bytes) : Prop :=
  match qs with [] => True | q :: qs => follows p q /\ publications q qs end.
Lemma publications_app p qs rs :
  publications p (qs ++ rs) <-> publications p qs /\ publications (List.last qs p) rs.
Proof.
  revert p. induction qs as [|q qs IH]; intros p; [cbn; tauto|]. cbn [app publications]. rewrite IH.
  assert (E : List.last (q :: qs) p = List.last qs q).
  { clear. revert q p. induction qs as [|x qs IH]; intros q p; [done|].
    change (List.last (x :: qs) p = List.last (x :: qs) q). rewrite !IH. done. }
  rewrite E. tauto.
Qed.

(** The state of a batch over a log of lines. *)
Record batch_of (start : bytes) b ls (count : Z) : Prop := {
  bo_lines : exists ts, lines_as ls ts;
  bo_content : b_content b = joined ls;
  bo_count : b_count b = count;
  bo_len : b_published_len b = blen (List.last (b_published b) start);
  bo_more : exists more, b_content b = List.last (b_published b) start ++ more;
  bo_clean : b_dirty b = false -> b_content b = List.last (b_published b) start;
  bo_order : publications start (b_published b);
  bo_complete : Forall complete (b_published b)
}.

Lemma last_snoc (l : list bytes) x d : List.last (l ++ [x]) d = x.
Proof. apply last_last. Qed.

Lemma append_one_step start b ls count e : batch_of start b ls count ->
  batch_of start (append_one print b e) (fst (log_step (ls, count) e)) (snd (log_step (ls, count) e)).
Proof.
  intros [[ts Hts] Hc Hn Hl [more Hm] Hd Ho Hcp]. destruct (append_lines ls ts e Hts) as (t & Hls & Hj).
  set (ls1 := ls ++ [json e]) in *.
  assert (Hext : exists more, joined ls1 = List.last (b_published b) start ++ more).
  { exists (more ++ json e ++ [10]). rewrite <- Hj, <- Hc, Hm, <- app_assoc. done. }
  unfold append_one, log_step. rewrite Hc, Hn, Hj. fold ls1. destruct (TRUNCATE_CHECK_INTERVAL <=? count + 1) eqn:E.
  2: { split; cbn; eauto; done. }
  rewrite (retained_suffix_joined _ _ Hls). unfold retain. destruct (length ls1 <? MAX_LINES)%nat eqn:E2.
  { split; cbn; eauto; done. }
  apply Nat.ltb_ge in E2. set (kept := drop (length ls1 - KEEP_LINES) ls1).
  assert (Hshort : blen (joined kept) < blen (joined ls1)).
  { apply drop_bytes; unfold MAX_LINES, KEEP_LINES in *; lia. }
  assert (Hk : exists ts, lines_as kept ts) by (eexists; apply lines_as_drop, Hls).
  assert (Ck : complete (joined kept)) by (destruct Hk; eexists _, _; eauto).
  assert (C1 : complete (joined ls1)) by (eexists _, _; eauto).
  assert (Hll : forall f, List.last (b_published b ++ f ++ [joined kept]) start = joined kept)
    by (intros f; rewrite app_assoc; apply last_snoc).
  split; cbn [b_content b_published_len b_dirty b_count b_published fst snd]; rewrite ?Hll; auto.
  - exists []. rewrite app_nil_r. done.
  - apply publications_app. split; [done|]. destruct (b_published_len b <=? _) eqn:E3; cbn [app publications].
    + split; [left; exact Hext|]. split; [right; exact Hshort|done].
    + split; [right|done]. apply Z.leb_gt in E3. rewrite Hl in E3. exact E3.
  - apply Forall_app. split; [done|]. apply Forall_app.
    split; [destruct (b_published_len b <=? _)|]; repeat constructor; auto.
Qed.

Lemma append_all start es b ls count : batch_of start b ls count ->
  batch_of start (foldl (append_one print) b es) (fst (foldl log_step (ls, count) es)) (snd (foldl log_step (ls, count) es)).
Proof.
  revert b ls count. induction es as [|e es IH]; intros b ls count H; [exact H|]. cbn [foldl].
  apply (append_one_step _ _ _ _ e) in H. rewrite (surjective_pairing (log_step (ls, count) e)). apply IH, H.
Qed.
Lemma batch_start ls ts count : lines_as ls ts ->
  batch_of (joined ls) (mkBatch (joined ls) (blen (joined ls)) false count []) ls count.
Proof. intros H. split; cbn; eauto. exists []. rewrite app_nil_r. done. Qed.

(** A batch: the log ends as if each record had been written alone, and every
    snapshot on the way is a complete log that extends the one before or is shorter. *)
Lemma append_batch_spec ls ts count es : lines_as ls ts -> es <> [] ->
  let '(published, next_count) := append_batch print (joined ls) es count in
  last_or (joined ls) published = joined (fst (foldl log_step (ls, count) es))
  /\ next_count = snd (foldl log_step (ls, count) es)
  /\ publications (joined ls) published /\ Forall complete published
  /\ exists ts', lines_as (fst (foldl log_step (ls, count) es)) ts'.
Proof.
  intros H Hne. unfold append_batch.
  pose proof (append_all _ es _ _ _ (batch_start ls ts count H)) as B.
  set (b := foldl (append_one print) _ es) in *. destruct B as [Hts Hc Hn Hl Hm Hd Ho Hcp].
  destruct (b_dirty b) eqn:D.
  - unfold last_or. rewrite last_snoc. repeat split; auto.
    + apply publications_app. cbn. split; [done|]. split; [left; exact Hm|done].
    + apply Forall_app. split; [done|]. constructor; [|constructor]. rewrite Hc. destruct Hts. eexists _, _; eauto.
  - unfold last_or. rewrite <- Hd by done. repeat split; auto.
Qed.

(** C14: Batching does not change the log: one batch leaves what the same records written
    one at a time leave, retention included.  Every snapshot a reader can see on the way
    is made of whole lines, and it extends the one before or is shorter, so a follower
    never takes a retention rewrite for new records. *)
Theorem batch_is_sequential ls ts count es : lines_as ls ts -> es <> [] ->
  let '(published, next_count) := append_batch print (joined ls) es count in
  (last_or (joined ls) published, next_count)
    = (let '(ls', count') := foldl log_step (ls, count) es in (joined ls', count'))
  /\ publications (joined ls) published /\ Forall complete published.
Proof.
  intros H Hne. pose proof (append_batch_spec ls ts count es H Hne) as S.
  destruct (append_batch _ _ _ _) as [published next]. destruct S as (-> & -> & Ho & Hc & _).
  destruct (foldl log_step (ls, count) es). auto.
Qed.

(** *** The writer thread *)

Record Turn : Type := mkTurn { tn_lock1 : bool; tn_lock2 : bool; tn_now : Z; tn_arrived : Z; tn_msg : WriterMsg }.
Definition turn w (t : Turn) : Writer :=
  fst (writer_turn print (tn_lock1 t) (tn_lock2 t) None None (tn_now t) (tn_arrived t) (tn_msg t) w).
Definition appended (t : Turn) : list Event := match tn_msg t with Append e => [e] | _ => [] end.
Definition locks_come (t : Turn) : bool := tn_lock1 t && tn_lock2 t.

(** The log holds [kept], as if each record had been written alone. *)
Record wrote (ls0 : list bytes) (count0 : Z) (kept : list Event) w : Prop := {
  wr_log : w_log w = joined (fst (foldl log_step (ls0, count0) kept));
  wr_count : w_count w = snd (foldl log_step (ls0, count0) kept);
  wr_lines : exists ts, lines_as (fst (foldl log_step (ls0, count0) kept)) ts
}.
Lemma publish_wrote ls0 count0 kept lock w : wrote ls0 count0 kept w ->
  w_pending (publish print lock None w) = []
  /\ wrote ls0 count0 (kept ++ if lock then w_pending w else []) (publish print lock None w).
Proof.
  intros [Hl Hc [ts Hts]]. unfold publish. destruct (w_pending w) as [|e es] eqn:Ep.
  { rewrite Ep. split; [done|]. destruct lock; rewrite app_nil_r; split; eauto. }
  destruct lock; [|rewrite app_nil_r; split; [done|]; split; cbn; eauto].
  pose proof (append_batch_spec _ ts (w_count w) (e :: es) Hts ltac:(done)) as S. rewrite <- Hl in S.
  destruct (append_batch _ _ _ _) as [published next]. destruct S as (S1 & S2 & _ & _ & S3).
  rewrite Hc in S1, S2, S3. rewrite <- surjective_pairing, <- foldl_app in S1, S2, S3.
  split; [done|]. split; [exact S1|exact S2|exact S3].
Qed.
Lemma wrote_more ls0 count0 kept w w' :
  w_log w' = w_log w -> w_count w' = w_count w -> wrote ls0 count0 kept w -> wrote ls0 count0 kept w'.
Proof. intros E1 E2 [A B C]. split; [rewrite E1; exact A|rewrite E2; exact B|exact C]. Qed.

(** What is in the log and what is still pending, against all that was appended. *)
Definition accounted (ls0 : list bytes) (count0 : Z) (sent : list Event) (all_locks : bool) w : Prop :=
  exists kept, wrote ls0 count0 kept w /\ sublist (kept ++ w_pending w) sent
    /\ (all_locks = true -> kept ++ w_pending w = sent).

Lemma publish_accounted ls0 count0 sent all lock w : accounted ls0 count0 sent all w ->
  accounted ls0 count0 sent (all && lock) (publish print lock None w)
  /\ w_pending (publish print lock None w) = [].
Proof.
  intros (kept & Hw & Hsub & Hall). destruct (publish_wrote _ _ _ lock _ Hw) as [Hp Hw'].
  split; [|exact Hp]. exists (kept ++ if lock then w_pending w else []). split; [exact Hw'|].
  rewrite Hp, app_nil_r. destruct lock.
  - split; [exact Hsub|]. rewrite andb_true_r. exact Hall.
  - rewrite app_nil_r, andb_false_r. split; [|done].
    etransitivity; [|exact Hsub]. apply sublist_inserts_r. done.
Qed.
Lemma accounted_no_deadline ls0 count0 sent all w :
  accounted ls0 count0 sent all w -> accounted ls0 count0 sent all (no_deadline w).
Proof. intros (kept & Hw & H). exists kept. split; [eapply wrote_more; [| |exact Hw]; reflexivity|exact H]. Qed.

Lemma turn_accounted ls0 count0 sent all w t : accounted ls0 count0 sent all w ->
  accounted ls0 count0 (sent ++ appended t) (all && locks_come t) (turn w t)
  /\ match tn_msg t with
     | Append e => ev_type e = SESSION_EXIT -> w_pending (turn w t) = []
     | _ => w_pending (turn w t) = []
     end.
Proof.
  intros H. unfold turn, writer_turn, locks_come, appended. destruct t as [l1 l2 now arrived msg]. cbn [tn_lock1 tn_lock2 tn_now tn_arrived tn_msg].
  set (w1 := match w_deadline w with Some _ => _ | None => w end).
  assert (H1 : accounted ls0 count0 sent (all && l1) w1).
  { assert (Weak : accounted ls0 count0 sent (all && l1) w).
    { destruct H as (kept & Hw & Hs & Ha). exists kept. repeat split; auto; try apply Hw.
      intros [A _]%andb_prop. auto. }
    unfold w1. destruct (w_deadline w) as [until|]; [|exact Weak]. destruct (until <=? now); [|exact Weak].
    apply accounted_no_deadline, publish_accounted, H. }
  clearbody w1. clear H. rewrite andb_assoc.
  destruct msg as [e| | |]; cbn [fst].
  - set (w2 := mkWriter _ _ _ _).
    assert (H2 : accounted ls0 count0 (sent ++ [e]) (all && l1) w2).
    { destruct H1 as (kept & Hw & Hs & Ha). exists kept. split; [eapply wrote_more; [| |exact Hw]; reflexivity|].
      cbn [w_pending w2]. rewrite app_assoc. split; [apply sublist_app; done|]. intros A. rewrite Ha; done. }
    destruct (beq (ev_type e) SESSION_EXIT) eqn:Ex.
    + apply publish_accounted with (lock := l2) in H2 as [H2 Hp]. split; [apply accounted_no_deadline, H2|]. intros _. exact Hp.
    + split; [|intros Et; rewrite Et, beq_refl in Ex; done].
      destruct H2 as (kept & Hw & Hs & Ha). exists kept. repeat split; auto; try apply Hw.
      intros [A _]%andb_prop. auto.
  - rewrite app_nil_r. apply publish_accounted with (lock := l2) in H1 as [H1 Hp].
    split; [apply accounted_no_deadline, H1|exact Hp].
  - rewrite app_nil_r. apply publish_accounted with (lock := l2) in H1 as [H1 Hp].
    split; [apply accounted_no_deadline, H1|exact Hp].
  - rewrite app_nil_r. apply publish_accounted with (lock := l2) in H1 as [H1 Hp].
    split; [exact H1|exact Hp].
Qed.

(** The daemon's writer thread against writing each record alone.  After any turns the
    log is what single appends of some of the records, in their order, would have left,
    and the pending ones follow them; when no wait for the lock fails it is all of them.
    A flush, a deadline, the end and an exit record leave nothing pending. *)
Theorem writer_is_unbatched ls ts count deadline (turns : list Turn) t :
  lines_as ls ts ->
  let w := foldl turn (mkWriter [] count deadline (joined ls)) (turns ++ [t]) in
  let sent := concat (map appended (turns ++ [t])) in
  exists kept, sublist (kept ++ w_pending w) sent
    /\ (forallb locks_come (turns ++ [t]) = true -> kept ++ w_pending w = sent)
    /\ (w_log w, w_count w) = (let '(ls', count') := foldl log_step (ls, count) kept in (joined ls', count'))
    /\ match tn_msg t with
       | Append e => ev_type e = SESSION_EXIT -> w_pending w = []
       | _ => w_pending w = []
       end.
Proof.
  intros H w sent.
  assert (A : forall turns, accounted ls count (concat (map appended turns)) (forallb locks_come turns)
                (foldl turn (mkWriter [] count deadline (joined ls)) turns)).
  { clear w sent turns t. intros turns. induction turns as [|t turns IH] using rev_ind.
    - exists []. split; [split; cbn; eauto|]. split; [done|done].
    - rewrite foldl_app, map_app, concat_app, forallb_app. cbn [foldl map concat forallb].
      rewrite app_nil_r, andb_true_r. apply turn_accounted, IH. }
  pose proof (turn_accounted _ _ _ _ _ t (A turns)) as [_ Hp]. specialize (A (turns ++ [t])).
  destruct A as (kept & [Hl Hc _] & Hs & Ha). exists kept. split; [exact Hs|]. split; [exact Ha|].
  split.
  - fold w in Hl, Hc. rewrite Hl, Hc. destruct (foldl log_step (ls, count) kept). done.
  - unfold w. rewrite foldl_app. exact Hp.
Qed.

(** *** Bounds *)

(** The processes that write one log: the daemon's batches and one-shot appends. *)
Inductive LogOp : Type := OneShot (e : Event) | Batched (es : list Event).
Definition log_op (s : bytes * Z) (op : LogOp) : bytes * Z :=
  let '(content, count) := s in
  match op with
  | OneShot e => (append_event_locked print content e, count)
  | Batched [] => s
  | Batched es => let '(published, next_count) := append_batch print content es count in
                  (last_or content published, next_count)
  end.

Definition within (ls : list bytes) (count : Z) : Prop :=
  0 <= count < TRUNCATE_CHECK_INTERVAL
  /\ exists old recent, ls = old ++ recent /\ blen recent <= count
     /\ ((length old < MAX_LINES)%nat \/ blen (joined old) < TRUNCATE_SIZE_THRESHOLD).

Lemma retain_short ls : (length (retain ls) < MAX_LINES)%nat.
Proof.
  unfold retain. destruct (length ls <? MAX_LINES)%nat eqn:E; [apply Nat.ltb_lt, E|].
  rewrite length_drop. apply Nat.ltb_ge in E. unfold MAX_LINES, KEEP_LINES in *. lia.
Qed.
Lemma within_all ls count : 0 <= count < TRUNCATE_CHECK_INTERVAL ->
  (length ls < MAX_LINES)%nat \/ blen (joined ls) < TRUNCATE_SIZE_THRESHOLD -> within ls count.
Proof.
  intros Hc H. split; [exact Hc|]. exists ls, []. rewrite app_nil_r. repeat split; [|exact H].
  unfold blen. cbn. lia.
Qed.

Lemma log_step_within ls count e : within ls count ->
  within (fst (log_step (ls, count) e)) (snd (log_step (ls, count) e)).
Proof.
  intros [Hc (old & recent & -> & Hr & Ho)]. unfold log_step.
  destruct (TRUNCATE_CHECK_INTERVAL <=? count + 1) eqn:E; cbn [fst snd].
  - apply within_all; [unfold TRUNCATE_CHECK_INTERVAL; lia|]. left. apply retain_short.
  - apply Z.leb_gt in E. split; [lia|]. exists old, (recent ++ [json e]). rewrite app_assoc.
    repeat split; [|exact Ho]. unfold blen in *. rewrite length_app. cbn [length]. lia.
Qed.
Lemma log_op_within ls ts count op : lines_as ls ts -> within ls count ->
  exists ls' ts', lines_as ls' ts' /\ fst (log_op (joined ls, count) op) = joined ls'
    /\ within ls' (snd (log_op (joined ls, count) op)).
Proof.
  intros H Hw. destruct op as [e|[|e es]]; cbn [log_op].
  - destruct (append_lines ls ts e H) as (t & Hls & Hj). cbn [fst snd]. destruct Hw as [Hc _].
    unfold append_event_locked, append_line. rewrite Hj.
    destruct (TRUNCATE_SIZE_THRESHOLD <=? blen _) eqn:E.
    + rewrite (retained_suffix_joined _ _ Hls). destruct (_ <? MAX_LINES)%nat eqn:E2; cbn [default].
      * eexists _, _. split; [exact Hls|]. split; [reflexivity|]. apply within_all; [exact Hc|]. left. apply Nat.ltb_lt, E2.
      * eexists _, _. split; [apply lines_as_drop, Hls|]. split; [reflexivity|]. apply within_all; [exact Hc|].
        left. rewrite length_drop. apply Nat.ltb_ge in E2. unfold MAX_LINES, KEEP_LINES in *. lia.
    + eexists _, _. split; [exact Hls|]. split; [reflexivity|]. apply within_all; [exact Hc|]. right. lia.
  - eauto.
  - pose proof (append_batch_spec ls ts count (e :: es) H ltac:(done)) as S.
    destruct (append_batch _ _ _ _) as [published next]. destruct S as (-> & -> & _ & _ & ts' & Hts').
    cbn [fst snd]. eexists _, ts'. split; [exact Hts'|]. split; [reflexivity|].
    clear - Hw. revert ls count Hw. generalize (e :: es). intros l. induction l as [|x l IH]; intros ls count Hw; [exact Hw|].
    cbn [foldl]. apply (log_step_within _ _ x) in Hw. rewrite (surjective_pairing (log_step (ls, count) x)).
    apply IH, Hw.
Qed.

(** However the daemon's batches and one-shot appends take turns at the event lock, the
    log stays bounded: apart from the records the daemon has counted since its last
    check, fewer than a hundred, it has fewer than [MAX_LINES] lines or fewer bytes than
    [TRUNCATE_SIZE_THRESHOLD]. *)
Theorem log_bounded (ops : list LogOp) :
  let '(content, count) := foldl log_op ([], 0) ops in
  0 <= count < TRUNCATE_CHECK_INTERVAL /\
  exists old recent, content = joined (old ++ recent) /\ blen recent <= count /\ complete content
    /\ ((length old < MAX_LINES)%nat \/ blen (joined old) < TRUNCATE_SIZE_THRESHOLD).
Proof.
  assert (H : exists ls ts, lines_as ls ts /\ fst (foldl log_op ([], 0) ops) = joined ls
                /\ within ls (snd (foldl log_op ([], 0) ops))).
  { induction ops as [|op ops IH] using rev_ind.
    - exists [], []. split; [constructor|]. split; [reflexivity|]. apply within_all; [unfold TRUNCATE_CHECK_INTERVAL; cbn; lia|].
      left. unfold MAX_LINES. cbn. lia.
    - rewrite foldl_app. cbn [foldl]. destruct IH as (ls & ts & H & E & W).
      rewrite (surjective_pairing (foldl log_op _ ops)), E. exact (log_op_within _ _ _ op H W). }
  destruct (foldl log_op ([], 0) ops) as [content count]. destruct H as (ls & ts & H & E & [Hc (old & recent & El & Hr & Ho)]).
  cbn [fst snd] in *. split; [exact Hc|]. exists old, recent. rewrite <- El. repeat split; auto. exists ls, ts. auto.
Qed.
End Writing.

(** ** The follower *)

Section Following.
Context (print : Value -> bytes) (parse : bytes -> option (list (bytes * Value))).
Abbreviation Seen := (option ((Z * Z) * bytes)).
Implicit Types (c h : bytes) (t : Tracked) (reads : list Seen).

(** The events a log holds. *)
Definition log_events c : list Event := events_of_text print parse (default [] (from_utf8 c)).
Definition follow_step (s : list Event * Tracked) (seen : Seen) : list Event * Tracked :=
  let '(events, t) := read_new_lines print parse (snd s) seen in (fst s ++ events, t).
(** The last content that could be read. *)
Definition last_seen h reads : bytes :=
  foldl (fun c seen => match seen with Some (_, c) => c | None => c end) h reads.
(** A log is replaced, never written in place: an inode keeps its content. *)
Definition replaced_whole reads : Prop :=
  forall id c c', In (Some (id, c)) reads -> In (Some (id, c')) reads -> length c = length c' -> c = c'.
Definition complete_reads reads : Prop := forall id c, In (Some (id, c)) reads -> complete c.
(** Every content extends the one before. *)
Fixpoint growing h reads : Prop :=
  match reads with
  | [] => True
  | Some (_, c) :: reads => (exists more, c = h ++ more) /\ growing c reads
  | None :: reads => growing h reads
  end.

Lemma split_complete ts y :
  Forall (fun x => forallb (fun b => negb (10 =? b)) x = true) ts ->
  split_on (Z.eqb 10) (joined ts ++ y) = ts ++ split_on (Z.eqb 10) y.
Proof.
  induction 1 as [|x ts Hx _ IH]; [done|]. cbn [joined map concat app]. rewrite <- !app_assoc. cbn [app].
  rewrite split_on_app by done. f_equal. apply IH.
Qed.
Lemma events_of_text_app ls ts y : lines_as ls ts ->
  events_of_text print parse (joined ts ++ y) = events_of_text print parse (joined ts) ++ events_of_text print parse y.
Proof.
  intros H. pose proof (lines_no_newline _ _ H) as Hn. unfold events_of_text.
  rewrite (split_complete ts y Hn). rewrite <- (app_nil_r (joined ts)) at 1. rewrite (split_complete ts [] Hn).
  rewrite !List.filter_app, !omap_app. cbn. rewrite app_nil_r. done.
Qed.
(** What is appended to a complete log is what its reader finds new. *)
Lemma log_events_app c more : complete c -> complete (c ++ more) ->
  log_events (c ++ more) = log_events c ++ events_of_text print parse (from_utf8_lossy more).
Proof.
  intros (ls & ts & H & ->) (ls' & ts' & H' & E). unfold log_events. pose proof (joined_utf8 _ _ H) as U.
  rewrite U. cbn [default]. pose proof (joined_utf8 _ _ H') as U'. rewrite <- E in U'.
  rewrite (from_utf8_app _ _ _ U) in *. destruct (from_utf8 more) as [y|] eqn:Ey; [|discriminate U'].
  cbn [fmap option_fmap option_map default from_option id]. rewrite (lossy_of_utf8 _ _ Ey).
  apply (events_of_text_app _ _ y H).
Qed.
Lemma complete_lossy c : complete c -> events_of_text print parse (from_utf8_lossy c) = log_events c.
Proof.
  intros (ls & ts & H & ->). unfold log_events. rewrite (joined_utf8 _ _ H), (lossy_of_utf8 _ _ (joined_utf8 _ _ H)). done.
Qed.

Lemma rposition_last p l x : p x = true -> rposition p (l ++ [x]) = Some (length l).
Proof. intros Hx. induction l as [|y l IH]; cbn; [rewrite Hx; done|]. rewrite IH. done. Qed.
Lemma complete_ends c : complete c -> c = [] \/ exists c0, c = c0 ++ [10].
Proof.
  intros (ls & ts & _ & ->). destruct ls as [|l ls] using rev_ind; [left; done|right].
  rewrite joined_app. cbn [joined map concat]. rewrite app_nil_r. exists (joined ls ++ l). rewrite app_assoc. done.
Qed.

(** A follower that has read all of a complete log. *)
Definition caught_up t c : Prop := snapshot t = c /\ offset t = length c /\ complete c.

Lemma read_caught_up t c id c' : caught_up t c -> complete c' ->
  (identity t = Some id -> length c' = length c -> c' = c) ->
  let '(events, t') := read_new_lines print parse t (Some (id, c')) in
  caught_up t' c' /\ (identity t' = Some id)
  /\ (exists forgotten, log_events c ++ events = forgotten ++ log_events c')
  /\ ((exists more, c' = c ++ more) -> log_events c ++ events = log_events c').
Proof.
  intros (Es & Eo & Hc) Hc' Same. unfold read_new_lines. rewrite Es, Eo.
  destruct (bool_decide (identity t = Some id) && _) eqn:Skip.
  { apply andb_prop in Skip as [Hid Hlen]. apply bool_decide_eq_true_1 in Hid. apply Nat.eqb_eq in Hlen.
    rewrite (Same Hid Hlen) in *. rewrite app_nil_r. repeat split; auto. exists []. done. }
  clear Skip Same. rewrite firstn_all.
  assert (Whole : forall off more, drop off c' = more -> (off <= length c')%nat ->
            match rposition (Z.eqb 10) more with
            | None => more = []
            | Some i => off + i + 1 = length c' /\ take (off + i + 1 - off) more = more
            end%nat).
  { intros off more <- Hoff. destruct (complete_ends c' Hc') as [->|[c0 ->]].
    { rewrite drop_nil. done. }
    destruct (base.decide (off = length (c0 ++ [10]))) as [->|Hne]; [rewrite drop_all; done|].
    rewrite length_app in *. cbn [length] in *. rewrite drop_app_le by lia. rewrite rposition_last by done.
    rewrite length_drop. split; [lia|]. apply take_ge. rewrite length_app, length_drop. cbn [length]. lia. }
  destruct ((length c' <? length c)%nat || _) eqn:Restart.
  - pose proof (Whole O c' eq_refl ltac:(lia)) as W. cbn [drop] in *. rewrite drop_0 in *.
    destruct (rposition (Z.eqb 10) c') as [i|].
    + destruct W as [E1 E2]. cbn [Nat.add] in *. rewrite E2, (complete_lossy _ Hc').
      split; [split; [done|split; [cbn; lia|done]]|]. split; [done|]. split; [eexists; reflexivity|].
      intros [more ->]. exfalso. apply orb_prop in Restart as [R|R].
      * apply Nat.ltb_lt in R. rewrite length_app in R. lia.
      * rewrite take_app_length, beq_refl in R. discriminate.
    + rewrite W in *. repeat split; cbn [snapshot offset identity]; auto.
      * exists (log_events c). done.
      * intros [more E]. symmetry in E. apply app_eq_nil in E as [-> _]. done.
  - apply orb_false_iff in Restart as [R1 R2]. apply Nat.ltb_ge in R1. apply negb_false_iff, beq_eq in R2.
    assert (E : c' = c ++ drop (length c) c').
    { rewrite <- (take_drop (length c) c') at 1. f_equal. symmetry. exact R2. }
    pose proof (Whole (length c) _ eq_refl R1) as W. set (more := drop (length c) c') in *.
    assert (Ev : log_events c' = log_events c ++ events_of_text print parse (from_utf8_lossy more)).
    { rewrite E at 1. apply log_events_app; [done|]. rewrite <- E. done. }
    destruct (rposition (Z.eqb 10) more) as [i|].
    + destruct W as [W1 W2]. rewrite W2. split; [split; [done|split; [exact W1|done]]|]. split; [done|].
      split; [exists []; cbn; congruence|intros _; congruence].
    + rewrite W in E, Ev. rewrite app_nil_r in E |- *. cbn in Ev. rewrite app_nil_r in Ev.
      split; [split; [done|split; [cbn; congruence|done]]|]. split; [done|].
      split; [exists []; cbn; congruence|intros _; congruence].
Qed.

(** C15: A follower misses nothing.  Its start reads the log's end; then it reads whatever the
    log holds at each wake-up, across retention rewrites, truncations and
    replacements.  The records now in the log are always the last of those it started
    behind and those it delivered, in order; while the log only grows, it has delivered
    each new record exactly once. *)
Theorem follower_misses_nothing h reads :
  complete h -> complete_reads reads -> replaced_whole reads ->
  let '(delivered, t) := foldl follow_step ([], Tracked_existing (Some h)) reads in
  (exists forgotten, log_events h ++ delivered = forgotten ++ log_events (last_seen h reads))
  /\ (growing h reads -> log_events h ++ delivered = log_events (last_seen h reads)).
Proof.
  intros Hh Hreads Hwhole.
  assert (Inv : forall done_ todo, reads = done_ ++ todo ->
    let '(delivered, t) := foldl follow_step ([], Tracked_existing (Some h)) done_ in
    caught_up t (last_seen h done_)
    /\ (forall id, identity t = Some id -> In (Some (id, last_seen h done_)) done_)
    /\ (exists forgotten, log_events h ++ delivered = forgotten ++ log_events (last_seen h done_))
    /\ (growing h done_ -> log_events h ++ delivered = log_events (last_seen h done_))).
  { induction done_ as [|r done_ IH] using rev_ind; intros todo E.
    - cbn. repeat split; auto; [discriminate| |]; rewrite app_nil_r; [exists []|]; done.
    - rewrite <- app_assoc in E. specialize (IH _ E). rewrite foldl_app. unfold last_seen in *. rewrite foldl_app.
      destruct (foldl follow_step _ done_) as [delivered t]. cbn [foldl follow_step fst snd].
      destruct IH as (Up & Id & (forgotten & F) & G). set (c := foldl _ h done_) in *.
      assert (Grow : growing h (done_ ++ [r]) -> growing h done_
                /\ match r with Some (_, c') => exists more, c' = c ++ more | None => True end).
      { unfold c. clear. revert h. induction done_ as [|x l IHl]; intros h; cbn [app growing foldl].
        - destruct r as [[id c']|]; tauto.
        - destruct x as [[id cx]|]; [|exact (IHl h)]. intros [A B]. destruct (IHl cx B). tauto. }
      destruct r as [[id c']|].
      2: { cbn. rewrite app_nil_r. repeat split; auto; try apply Up.
           - intros id Hid. apply in_or_app. left. auto.
           - eauto.
           - intros Hg. apply G, Grow, Hg. }
      assert (Hin : In (Some (id, c')) reads) by (rewrite E; apply in_or_app; right; left; done).
      pose proof (read_caught_up t c id c' Up (Hreads _ _ Hin)) as R.
      unfold follow_step. cbn [fst snd].
      destruct (read_new_lines print parse t (Some (id, c'))) as [events t'].
      destruct R as (Up' & Id' & (fo & Fo) & Ex).
      { intros Hid Hlen. apply (Hwhole id c' c Hin); [|exact Hlen]. rewrite E. apply in_or_app. left. auto. }
      cbv beta iota. split; [exact Up'|]. split; [|split].
      + intros id0 Hid0. rewrite Id' in Hid0. injection Hid0 as <-. apply in_or_app. right. left. done.
      + exists (forgotten ++ fo). rewrite app_assoc, F, <- !app_assoc, Fo. done.
      + intros Hg. apply Grow in Hg as [Hg Hm]. rewrite app_assoc, (G Hg). apply Ex, Hm. }
  specialize (Inv reads []). rewrite app_nil_r in Inv. specialize (Inv eq_refl).
  destruct (foldl follow_step _ reads) as [delivered t]. tauto.
Qed.
End Following.

(** ** A log of small records *)

Definition demo_print (v : Value) : bytes :=
  match v with VObj fields => 123 :: dec_nat (blen fields) ++ [125] | _ => [] end.
#[export] Instance demo_print_line : JsonText demo_print.
Proof.
  intros fields. cbn [demo_print]. set (text := 123 :: dec_nat (blen fields) ++ [125]).
  pose proof (dec_nat_digits (blen fields)) as Hd.
  assert (Ht : from_utf8 text = Some text).
  { apply from_utf8_ascii. unfold text. cbn [forallb]. rewrite forallb_app. apply andb_true_intro. split; [done|].
    apply andb_true_intro. split; [|done]. apply forallb_forall. intros x Hx.
    pose proof (proj1 (forallb_forall _ _) Hd x Hx) as H. unfold is_ascii_digit, in_range in *. lia. }
  exists text. split; [exact Ht|]. split.
  - unfold text. cbn [forallb]. rewrite forallb_app. apply andb_true_intro. split; [done|].
    apply andb_true_intro. split; [|done]. apply forallb_forall. intros x Hx.
    pose proof (proj1 (forallb_forall _ _) Hd x Hx) as H. unfold is_ascii_digit, in_range in H. lia.
  - exists (123 :: dec_nat (blen fields)), 125. split; [|done]. done.
Qed.
Definition demo_parse (line : bytes) : option (list (bytes * Value)) :=
  Some [(str "session", VStr line); (str "type", VStr BELL); (str "ts", VNum (NFloat 4696837146684686336))].
Definition demo_bell : Event := bell (str "2026-01-01T00:00:00.000Z") (str "s").

Example demo_ts : ev_ts <$> Event_of_fields demo_print [(str "session", VStr []); (str "type", VStr BELL);
    (str "ts", VNum (NFloat 4696837146684686336))] = Some (iso8601_from_epoch_ms 1000000).
Proof. vm_compute. reflexivity. Qed.
(** The hundredth record of a batch over a full log: two snapshots, the second shorter. *)
Example demo_rotation :
  let full := joined (replicate 999 (str "{}")) in
  let '(published, count) := append_batch demo_print full [demo_bell] 99 in
  (map blen published, count) = ([1501], 0).
Proof. vm_compute. reflexivity. Qed.

Lemma batch_is_sequential_witness :
  lines_as [] [] /\ [demo_bell] <> [] /\
  Forall complete (fst (append_batch demo_print (joined []) [demo_bell] 0)).
Proof.
  assert (H : lines_as [] []) by constructor. assert (Hne : [demo_bell] <> []) by discriminate.
  split; [exact H|]. split; [exact Hne|].
  pose proof (batch_is_sequential demo_print [] [] 0 [demo_bell] H Hne) as S.
  destruct (append_batch _ _ _ _) as [published next]. exact (proj2 (proj2 S)).
Defined.

Definition exit_turn : Turn := mkTurn true true 5 6 (Append (session_exit (str "t") (str "s") 0 None)).
Lemma writer_is_unbatched_witness :
  lines_as [] [] /\ w_pending (foldl (turn demo_print) (mkWriter [] 0 None (joined []))
                                 ([mkTurn true true 1 2 (Append demo_bell)] ++ [exit_turn])) = [].
Proof.
  assert (H : lines_as [] []) by constructor. split; [exact H|].
  destruct (writer_is_unbatched demo_print [] [] 0 None [mkTurn true true 1 2 (Append demo_bell)] exit_turn H)
    as (kept & _ & _ & _ & E). exact (E eq_refl).
Defined.

Lemma log_bounded_witness :
  complete (fst (foldl (log_op demo_print) ([], 0) [OneShot demo_bell; Batched [demo_bell; demo_bell]])).
Proof.
  pose proof (log_bounded demo_print [OneShot demo_bell; Batched [demo_bell; demo_bell]]) as B.
  destruct (foldl _ _ _) as [content count]. destruct B as (_ & old & recent & _ & _ & C & _). exact C.
Defined.

Lemma one_line (l t : bytes) : is_line l t -> complete (l ++ [10]).
Proof.
  intros H. exists [l], [t]. split; [repeat constructor; apply H|]. cbn. rewrite app_nil_r. done.
Qed.
Definition demo_reads : list (option ((Z * Z) * bytes)) :=
  [Some ((1, 7), str "b" ++ [10]); None; Some ((1, 7), str "b" ++ [10]); Some ((1, 9), str "c" ++ [10])].
Lemma follower_misses_nothing_witness :
  exists forgotten,
    log_events demo_print demo_parse (str "a" ++ [10])
      ++ fst (foldl (follow_step demo_print demo_parse) ([], Tracked_existing (Some (str "a" ++ [10]))) demo_reads)
    = forgotten ++ log_events demo_print demo_parse (str "c" ++ [10]).
Proof.
  assert (L : forall x : Z, in_range 97 99 x = true -> complete ([x] ++ [10])).
  { intros x Hx. unfold in_range in Hx. apply one_line with [x]. split; [|split].
    - apply from_utf8_ascii. cbn [forallb]. unfold in_range. lia.
    - cbn [forallb]. rewrite andb_true_r. apply negb_true_iff, Z.eqb_neq. lia.
    - exists [], x. split; [done|]. assert (x = 97 \/ x = 98 \/ x = 99) as E by lia.
      destruct E as [->|[-> | ->]]; done. }
  pose proof (follower_misses_nothing demo_print demo_parse (str "a" ++ [10]) demo_reads) as H.
  destruct (foldl _ _ _) as [delivered t]. apply H.
  - apply (L 97). done.
  - intros id c Hc. cbn in Hc. destruct Hc as [[= _ <-]|[E|[[= _ <-]|[[= _ <-]|[]]]]]; [apply (L 98); done|discriminate|apply (L 98); done|apply (L 99); done].
  - intros id c c' Hc Hc' _. cbn in Hc, Hc'.
    destruct Hc as [[= <- <-]|[E|[[= <- <-]|[[= <- <-]|[]]]]]; try discriminate;
      destruct Hc' as [E'|[E'|[E'|[E'|[]]]]]; try discriminate; inversion E'; subst; reflexivity.
Defined.
