(* ===== verification/Operation.v ===== *)
(** The operation record of [crates/pty-core/src/operation/record.rs] and its
    store: the record's data and consistency check, the liveness of a recorded
    process against a process table, exclusive creation and compare-and-swap.

    A record file holds a decoded record: its JSON text is [serde_json]'s.  Every
    write takes how far it got as an argument, and the history of a store is a
    relation over the writes of all its users. *)
From S2P Require Import Prelude Json Names Frames ProcTable.

Definition RECORD_SCHEMA : bytes := str "pty.launch-operation.v1".

Definition is_none {A} (o : option A) : bool := match o with None => true | Some _ => false end.
Definition is_some {A} (o : option A) : bool := negb (is_none o).

(** [pid as i32]. *)
Definition as_i32 (pid : Z) : Z := if pid <? 2147483648 then pid else pid - 4294967296.

(** ** Identities and liveness *)

Record ProcessId : Type := mkProcess { pid : Z; start_token : bytes; boot_id : bytes; uid : Z }.
#[export] Instance ProcessId_eq_dec : EqDecision ProcessId.
Proof. solve_decision. Defined.

Inductive Liveness : Type := Live | Gone | Unknown (why : bytes).
#[export] Instance Liveness_eq_dec : EqDecision Liveness.
Proof. solve_decision. Defined.

Definition liveness (self : ProcessId) (table : ProcTable) (boot : option bytes) : Liveness :=
  match boot with
  | None => Unknown (str "boot-identity-unavailable")
  | Some boot =>
      let legacy := starts_with (str "darwin:{") (boot_id self) in
      if negb (beq boot (boot_id self)) && negb legacy then Gone
      else
        match row table (as_i32 (pid self)) with
        | Known r =>
            match identity r with
            | Some i =>
                if negb (beq i (start_token self)) then Gone
                else if is_zombie r then Gone
                else if is_exiting r then Unknown (str "exiting")
                else if legacy then Unknown (str "boot-identity-legacy")
                else Live
            | None => Unknown (str "start-identity-unreadable")
            end
        | NotPresent =>
            if is_complete table then Gone else Unknown (str "process-table-incomplete")
        | AnswerUnknown _ => Unknown (str "process-table-unreadable")
        end
  end.

(** [liveness_after_exit_with]: the table is read again until it proves the process
    gone or the deadline passes.  [expired n] is the clock after the [n]th read;
    [None] is a deadline that never passes within [fuel] reads. *)
Fixpoint liveness_after_exit_with (fuel : nat) (self : ProcessId) (boot : option bytes)
  (read : nat -> ProcTable) (expired : nat -> bool) (n : nat) : option Liveness :=
  match fuel with
  | O => None
  | S f =>
      let l := liveness self (read n) boot in
      if bool_decide (l = Gone) || expired n then Some l
      else liveness_after_exit_with f self boot read expired (S n)
  end.

(** ** The record *)

Inductive WriterRole : Type := RoleNone | RoleLauncher | RoleProducer | RoleRecovery.
#[export] Instance WriterRole_eq_dec : EqDecision WriterRole.
Proof. solve_decision. Defined.

Record Writer : Type := mkWriter { w_role : WriterRole; w_id : option ProcessId }.
#[export] Instance Writer_eq_dec : EqDecision Writer.
Proof. solve_decision. Defined.
Definition none : Writer := mkWriter RoleNone None.
Definition of_role (r : WriterRole) (id : ProcessId) : Writer := mkWriter r (Some id).

Inductive State : Type := Reserved | Pending | Cancelled | Launched | Transferred.
#[export] Instance State_eq_dec : EqDecision State.
Proof. solve_decision. Defined.
Definition state_str (s : State) : bytes :=
  match s with
  | Reserved => str "reserved"
  | Pending => str "pending"
  | Cancelled => str "cancelled"
  | Launched => str "launched"
  | Transferred => str "transferred"
  end.

Inductive Phase : Type :=
  | PhReserved | Claimed | DaemonForking | DaemonGated | ChildForking | ChildPreparing | Held.
#[export] Instance Phase_eq_dec : EqDecision Phase.
Proof. solve_decision. Defined.

Inductive Cause : Type :=
  | Cancel | OwnerEof | Malformed | Occupied | PredecessorMismatch | Withdrawn | ProducerLost
  | Launch | Refused.
#[export] Instance Cause_eq_dec : EqDecision Cause.
Proof. solve_decision. Defined.

Record Decision : Type := mkDecision {
  cause : Cause;
  d_at : bytes;
  d_request_id : option bytes;
  observed : option bytes
}.
#[export] Instance Decision_eq_dec : EqDecision Decision.
Proof. solve_decision. Defined.

Record Participants : Type := mkParticipants {
  launcher : option ProcessId;
  producer : option ProcessId;
  p_child : option ProcessId
}.
#[export] Instance Participants_eq_dec : EqDecision Participants.
Proof. solve_decision. Defined.
Definition no_participants : Participants := mkParticipants None None None.

Record Incarnation : Type := mkIncarnation {
  inc_id : bytes;
  runtime_id : bytes;
  inc_generation : bytes;
  daemon : ProcessId;
  inc_child : option ProcessId
}.
#[export] Instance Incarnation_eq_dec : EqDecision Incarnation.
Proof. solve_decision. Defined.

Inductive RetirementPhase : Type := Requested | Verified | Incomplete.
#[export] Instance RetirementPhase_eq_dec : EqDecision RetirementPhase.
Proof. solve_decision. Defined.

Record Retirement : Type := mkRetirement {
  rt_request_id : bytes;
  rt_phase : RetirementPhase;
  evidence : Value
}.

Record Transfer : Type := mkTransfer {
  tr_request_id : bytes;
  committed_at : bytes;
  released : option bool
}.
#[export] Instance Transfer_eq_dec : EqDecision Transfer.
Proof. solve_decision. Defined.

Record OperationRecord : Type := mkRecord {
  schema : bytes;
  revision : Z;
  updated_at : bytes;
  operation_id : bytes;
  envelope : Value;
  envelope_sha256 : bytes;
  writer : Writer;
  state : State;
  phase : Phase;
  decision : option Decision;
  participants : Participants;
  incarnation : option Incarnation;
  retirement : option Retirement;
  transfer : option Transfer
}.
#[export] Instance OperationRecord_settable : Settable OperationRecord :=
  fun r => mkRecord (schema r) (revision r) (updated_at r) (operation_id r) (envelope r)
    (envelope_sha256 r) (writer r) (state r) (phase r) (decision r) (participants r)
    (incarnation r) (retirement r) (transfer r).
#[export] Instance Participants_settable : Settable Participants :=
  fun p => mkParticipants (launcher p) (producer p) (p_child p).
#[export] Instance Incarnation_settable : Settable Incarnation :=
  fun i => mkIncarnation (inc_id i) (runtime_id i) (inc_generation i) (daemon i) (inc_child i).
#[export] Instance Transfer_settable : Settable Transfer :=
  fun t => mkTransfer (tr_request_id t) (committed_at t) (released t).

(** [PartialEq]: JSON objects compare as maps. *)
Definition retirement_eqb (a b : Retirement) : bool :=
  beq (rt_request_id a) (rt_request_id b) && bool_decide (rt_phase a = rt_phase b)
  && value_eqb (evidence a) (evidence b).
Definition option_eqb {A} (eqb : A -> A -> bool) (a b : option A) : bool :=
  match a, b with
  | Some x, Some y => eqb x y
  | None, None => true
  | _, _ => false
  end.
Definition record_eqb (a b : OperationRecord) : bool :=
  beq (schema a) (schema b) && (revision a =? revision b) && beq (updated_at a) (updated_at b)
  && beq (operation_id a) (operation_id b) && value_eqb (envelope a) (envelope b)
  && beq (envelope_sha256 a) (envelope_sha256 b) && bool_decide (writer a = writer b)
  && bool_decide (state a = state b) && bool_decide (phase a = phase b)
  && bool_decide (decision a = decision b) && bool_decide (participants a = participants b)
  && bool_decide (incarnation a = incarnation b)
  && option_eqb retirement_eqb (retirement a) (retirement b)
  && bool_decide (transfer a = transfer b).

(** [OperationRecord::reserved]. *)
Definition reserved (now : bytes) (e : Envelope) : OperationRecord :=
  mkRecord RECORD_SCHEMA 1 now (e_operation_id e) (value e) (sha256 e) none Reserved PhReserved
    None no_participants None None None.

Definition incarnation_id (r : OperationRecord) : option bytes := inc_id <$> incarnation r.

(** ** [check] *)

Definition fail (what : string) : Result unit bytes := Err (str "inconsistent record: " ++ str what).

Definition role_is (r : OperationRecord) (w : WriterRole) : bool := bool_decide (w_role (writer r) = w).
Definition phase_in (r : OperationRecord) (l : list Phase) : bool :=
  existsb (fun p => bool_decide (phase r = p)) l.
Definition is_requested (r : OperationRecord) : bool :=
  bool_decide (rt_phase <$> retirement r = Some Requested).
Definition is_terminal (r : OperationRecord) : bool :=
  match rt_phase <$> retirement r with
  | Some Verified | Some Incomplete => true
  | _ => false
  end.

(** The [let ok = match self.state] of [check]. *)
Definition state_ok (r : OperationRecord) : bool :=
  let cause := cause <$> decision r in
  match state r with
  | Reserved =>
      bool_decide (phase r = PhReserved) && is_none cause && is_none (incarnation r)
      && is_none (transfer r) && bool_decide (participants r = no_participants)
      && (role_is r RoleNone || role_is r RoleRecovery) && negb (is_terminal r)
  | Pending =>
      phase_in r [Claimed; DaemonForking; DaemonGated] && is_none cause
      && is_none (incarnation r) && is_none (transfer r)
      && is_some (launcher (participants r)) && negb (role_is r RoleNone)
      && negb (is_terminal r)
  | Cancelled =>
      match cause with Some c => negb (bool_decide (c = Launch)) | None => false end
      && is_none (incarnation r) && is_none (transfer r) && role_is r RoleNone
      && negb (is_requested r)
  | Launched =>
      bool_decide (cause = Some Launch) && is_some (incarnation r) && is_none (transfer r)
      && phase_in r [DaemonGated; ChildForking; ChildPreparing; Held]
      && (negb (role_is r RoleNone) || is_terminal r) && negb (role_is r RoleLauncher)
  | Transferred =>
      bool_decide (cause = Some Launch) && is_some (incarnation r) && is_some (transfer r)
      && bool_decide (phase r = Held) && is_none (retirement r)
      && (role_is r RoleProducer || role_is r RoleNone)
  end.

Definition check (r : OperationRecord) : Result unit bytes :=
  if negb (Bool.eqb (role_is r RoleNone) (is_none (w_id (writer r))))
  then fail "writer role and id disagree"
  else if role_is r RoleRecovery && negb (is_requested r)
  then fail "a recovery writer without a requested retirement"
  else if role_is r RoleNone && is_requested r
  then fail "a requested retirement without a writer"
  else if is_terminal r && negb (role_is r RoleNone)
  then fail "a finished retirement still has a writer"
  else if state_ok r then Ok tt
  else fail "state, phase, writer and fields disagree".

(** ** The store *)

(** What a record file holds. *)
Inductive RecordFile : Type :=
  | FileUnreadable
  | FileMalformed
  | FileRecord (r : OperationRecord).

(** [<root>/operations]: the record files and the lock files, by digest. *)
Record OperationStore : Type := mkStore {
  records : gmap bytes RecordFile;
  locks : gset bytes
}.

Inductive ReadError : Type :=
  | ReadIo
  | ReadMalformed (error : bytes).

Definition read_file (f : option RecordFile) : Result (option OperationRecord) ReadError :=
  match f with
  | None => Ok None
  | Some FileUnreadable => Err ReadIo
  | Some FileMalformed => Err (ReadMalformed (str "invalid JSON"))
  | Some (FileRecord r) =>
      if negb (beq (schema r) RECORD_SCHEMA) then Err (ReadMalformed (str "unsupported schema"))
      else match check r with
           | Err e => Err (ReadMalformed e)
           | Ok _ => Ok (Some r)
           end
  end.
Definition read (s : OperationStore) (digest : bytes) : Result (option OperationRecord) ReadError :=
  read_file (records s !! digest).

(** How far a write's own system calls got: through, not as far as the link or
    rename, or that far and then failing to sync the directory. *)
Inductive WriteIo : Type := IoOk | IoBefore | IoUnsynced.

Inductive CreateError : Type := CreateExists | CreateIo.

(** [create_exclusive]: the directory and the lock file first ([prepared]), then the
    record by [link]. *)
Definition create_exclusive (prepared : bool) (io : WriteIo) (s : OperationStore) (digest : bytes)
  (r : OperationRecord) : Result unit CreateError * OperationStore :=
  if negb prepared then (Err CreateIo, s)
  else
    let s := mkStore (records s) ({[digest]} ∪ locks s) in
    match io with
    | IoBefore => (Err CreateIo, s)
    | _ =>
        match records s !! digest with
        | Some _ => (Err CreateExists, s)
        | None =>
            let s := mkStore (<[digest := FileRecord r]> (records s)) (locks s) in
            (match io with IoUnsynced => Err CreateIo | _ => Ok tt end, s)
        end
    end.

Inductive WriteError : Type :=
  | Stale (obs : OperationRecord)
  | Missing
  | WriteRead (e : ReadError)
  | WriteFailed
  | Inconsistent (e : bytes).

Definition U64 : Z := 18446744073709551616.

(** The record [write_cas_as] writes: its revision and time are the store's. *)
Definition stamped (now : bytes) (expected next : OperationRecord) : OperationRecord :=
  (next <| revision := (revision expected + 1) mod U64 |>) <| updated_at := now |>.

Definition write_cas_as (io : WriteIo) (now : bytes) (s : OperationStore) (digest : bytes)
  (expected next : OperationRecord) : Result OperationRecord WriteError * OperationStore :=
  match check next with
  | Err e => (Err (Inconsistent e), s)
  | Ok _ =>
      match read s digest with
      | Err e => (Err (WriteRead e), s)
      | Ok None => (Err Missing, s)
      | Ok (Some current) =>
          if negb (record_eqb current expected) then (Err (Stale current), s)
          else
            let next := stamped now expected next in
            match io with
            | IoBefore => (Err WriteFailed, s)
            | _ =>
                let s := mkStore (<[digest := FileRecord next]> (records s)) (locks s) in
                (match io with IoUnsynced => Err WriteFailed | _ => Ok next end, s)
            end
      end
  end.

(** One write by any user of the store: a reservation or a compare-and-swap. *)
Inductive store_step : OperationStore -> OperationStore -> Prop :=
  | step_reserve prepared io s digest now e :
      store_step s (snd (create_exclusive prepared io s digest (reserved now e)))
  | step_write io now s digest expected next :
      schema next = RECORD_SCHEMA ->
      store_step s (snd (write_cas_as io now s digest expected next)).

(** The store after [n] more writes. *)
Inductive store_steps (s : OperationStore) : nat -> OperationStore -> Prop :=
  | steps_none : store_steps s 0 s
  | steps_more n s' s'' : store_steps s n s' -> store_step s' s'' -> store_steps s (S n) s''.

Definition new_store : OperationStore := mkStore ∅ ∅.

(** ** Lemmas: liveness *)

(** What proves a recorded process gone: another boot, another start identity in
    its pid's row, a dead row, or a whole table without it. *)
Definition proven_gone (self : ProcessId) (t : ProcTable) (boot : bytes) : Prop :=
  boot <> boot_id self \/
  match row t (as_i32 (pid self)) with
  | Known r => exists i, identity r = Some i /\ (i <> start_token self \/ is_zombie r = true)
  | NotPresent => readable t = true /\ complete t = true
  | AnswerUnknown _ => False
  end.

Lemma liveness_gone self t boot :
  liveness self t boot = Gone -> exists b, boot = Some b /\ proven_gone self t b.
Proof.
  unfold liveness, proven_gone. destruct boot as [b|]; [|discriminate]. intros H. exists b. split; [done|].
  destruct (beq b (boot_id self)) eqn:Eb; cbn [negb andb] in H; [|left; apply beq_neq, Eb].
  right. destruct (row t _) as [r| |w]; [|destruct (is_complete t) eqn:E; [|discriminate]|discriminate].
  - destruct (identity r) as [i|]; [|discriminate]. exists i. split; [done|].
    destruct (beq i (start_token self)) eqn:Ei; cbn [negb] in H; [|left; apply beq_neq, Ei].
    right. destruct (is_zombie r); [done|]. destruct (is_exiting r); [discriminate|].
    destruct (starts_with _ _); discriminate.
  - unfold is_complete in E. bprop. done.
Qed.

(** Waiting for an exit to show ends: once the deadline has passed at some read,
    no more reads than that are made, the answer is that of a table actually read,
    and it is [Gone] or that of a read after the deadline. *)
Theorem liveness_after_exit_ends self boot read expired m n fuel :
  (n <= m)%nat -> expired m = true -> (m - n < fuel)%nat ->
  exists k, (n <= k <= m)%nat /\
    liveness_after_exit_with fuel self boot read expired n = Some (liveness self (read k) boot) /\
    (liveness self (read k) boot = Gone \/ expired k = true).
Proof.
  revert n. induction fuel as [|f IH]; intros n Hn Hm Hf; [lia|]. cbn [liveness_after_exit_with].
  destruct (bool_decide _) eqn:Eg; cbn [orb].
  - apply bool_decide_eq_true in Eg. exists n. eauto with lia.
  - destruct (expired n) eqn:E; [exists n; eauto with lia|].
    assert (n <> m) by congruence.
    destruct (IH (S n)) as (k & Hk & Hr); [lia|done|lia|]. exists k. split; [lia|done].
Qed.

(** ** Lemmas: the store *)

Lemma check_stamped now e r : check (stamped now e r) = check r.
Proof. reflexivity. Qed.

Lemma record_eqb_revision a b : record_eqb a b = true -> revision a = revision b.
Proof. unfold record_eqb. intros H. bprop. done. Qed.

Lemma record_eqb_refl r :
  wf_value (envelope r) -> (forall rt, retirement r = Some rt -> wf_value (evidence rt)) ->
  record_eqb r r = true.
Proof.
  intros He Hr. unfold record_eqb. rewrite !beq_refl, Z.eqb_refl, value_eqb_refl by done.
  rewrite !bool_decide_eq_true_2 by done. cbn [andb]. rewrite andb_true_r.
  destruct (retirement r) as [rt|]; [|done]. cbn [option_eqb]. unfold retirement_eqb.
  rewrite beq_refl, bool_decide_eq_true_2, value_eqb_refl by eauto. done.
Qed.

(** Every record file was written by this store, at most [n] revisions ago. *)
Definition intact (n : nat) (s : OperationStore) : Prop :=
  forall d f, records s !! d = Some f -> exists r,
    f = FileRecord r /\ schema r = RECORD_SCHEMA /\ check r = Ok tt /\
    1 <= revision r <= Z.of_nat n.

Lemma read_intact n s d r : intact n s -> records s !! d = Some (FileRecord r) -> read s d = Ok (Some r).
Proof.
  intros Hi Hd. destruct (Hi _ _ Hd) as (r' & [= <-] & Hs & Hc & _).
  unfold read. rewrite Hd. cbn [read_file]. rewrite Hs, beq_refl, Hc. done.
Qed.

Lemma read_record s d r : read s d = Ok (Some r) -> records s !! d = Some (FileRecord r) /\ check r = Ok tt.
Proof.
  unfold read. destruct (records s !! d) as [[| |r']|]; cbn [read_file]; try discriminate.
  destruct (negb _); [discriminate|]. destruct (check r') as [[]|e] eqn:E; [|discriminate].
  intros [= <-]. done.
Qed.

(** What one write may do to one record file. *)
Definition file_step (a b : option RecordFile) : Prop :=
  b = a \/
  (exists now e, a = None /\ b = Some (FileRecord (reserved now e))) \/
  (exists r now e next, a = Some (FileRecord r) /\ revision e = revision r /\
     schema next = RECORD_SCHEMA /\ check next = Ok tt /\
     b = Some (FileRecord (stamped now e next))).

Lemma store_step_file s s' d : store_step s s' -> file_step (records s !! d) (records s' !! d).
Proof.
  intros H. destruct H as [prepared io s d' now e | io now s d' e next Hsch].
  - unfold create_exclusive. destruct prepared; [cbn [negb]|left; done].
    destruct io; [|left; done|]; cbn [records]; (destruct (records s !! d') eqn:E; [left; done|];
      cbn [snd records]; destruct (decide (d' = d)) as [->|Hne];
      [right; left; rewrite lookup_insert_eq; eauto | left; rewrite lookup_insert_ne; done]).
  - unfold write_cas_as. destruct (check next) as [[]|] eqn:Ec; [|left; done].
    destruct (read s d') as [[cur|]|] eqn:Er; [|left; done|left; done].
    destruct (record_eqb cur e) eqn:Ee; cbn [negb]; [|left; done].
    apply read_record in Er as [Er _].
    destruct io; [|left; done|]; cbn [snd records]; (destruct (decide (d' = d)) as [->|Hne];
      [right; right; rewrite lookup_insert_eq, Er; apply record_eqb_revision in Ee; eauto 10
      | left; rewrite lookup_insert_ne; done]).
Qed.

Lemma file_step_intact n a b :
  (forall f, a = Some f -> exists r, f = FileRecord r /\ schema r = RECORD_SCHEMA /\
     check r = Ok tt /\ 1 <= revision r <= Z.of_nat n) ->
  Z.of_nat n + 1 < U64 -> file_step a b ->
  (forall f, b = Some f -> exists r, f = FileRecord r /\ schema r = RECORD_SCHEMA /\
     check r = Ok tt /\ 1 <= revision r <= Z.of_nat (S n)) /\
  (forall r, a = Some (FileRecord r) -> exists r', b = Some (FileRecord r') /\
     (r' = r \/ revision r < revision r')).
Proof.
  intros Ha Hn [-> | [(now & e & -> & ->) | (r & now & e & nx & -> & He & Hs & Hc & ->)]].
  - split; [|eauto]. intros f Hf. destruct (Ha f Hf) as (r & ? & ? & ? & ?). exists r. repeat split; try done; lia.
  - split; [|discriminate]. intros f [= <-]. exists (reserved now e). repeat split; cbn; lia.
  - destruct (Ha _ eq_refl) as (r' & [= <-] & _ & _ & Hr).
    assert (Hrev : revision (stamped now e nx) = revision r + 1).
    { change (revision (stamped now e nx)) with ((revision e + 1) mod U64).
      rewrite He. apply Z.mod_small. unfold U64 in *. lia. }
    split.
    + intros f [= <-]. exists (stamped now e nx). rewrite check_stamped, Hrev. repeat split; try done; lia.
    + intros r0 [= <-]. exists (stamped now e nx). rewrite Hrev. split; [done|right; lia].
Qed.

Lemma store_step_intact n s s' :
  intact n s -> Z.of_nat n + 1 < U64 -> store_step s s' ->
  intact (S n) s' /\
  forall d r, records s !! d = Some (FileRecord r) -> exists r',
    records s' !! d = Some (FileRecord r') /\ (r' = r \/ revision r < revision r').
Proof.
  intros Hi Hn Hs. split.
  - intros d. exact (proj1 (file_step_intact n _ _ (Hi d) Hn (store_step_file s s' d Hs))).
  - intros d. exact (proj2 (file_step_intact n _ _ (Hi d) Hn (store_step_file s s' d Hs))).
Qed.

Lemma store_steps_intact n m s s' :
  intact n s -> Z.of_nat (n + m) < U64 -> store_steps s m s' ->
  intact (n + m) s' /\
  forall d r, records s !! d = Some (FileRecord r) -> exists r',
    records s' !! d = Some (FileRecord r') /\ (r' = r \/ revision r < revision r').
Proof.
  intros Hi Hn H. induction H as [|m s' s'' Hs IH Hst].
  - rewrite Nat.add_0_r. split; [done|eauto].
  - destruct IH as [Hi' Hm]; [lia|].
    destruct (store_step_intact (n + m) s' s'' Hi' ltac:(lia) Hst) as [Hi'' Hm'].
    rewrite Nat.add_succ_r. split; [done|]. intros d r Hd.
    destruct (Hm d r Hd) as (r1 & H1 & Hr1). destruct (Hm' d r1 H1) as (r2 & H2 & Hr2).
    exists r2. split; [done|]. destruct Hr1 as [->|], Hr2 as [->|]; auto; right; lia.
Qed.

Lemma stale_refused io now s d r r' next :
  read s d = Ok (Some r') -> revision r' <> revision r ->
  snd (write_cas_as io now s d r next) = s /\
  match fst (write_cas_as io now s d r next) with Ok _ => False | Err _ => True end.
Proof.
  intros Hr Hne. unfold write_cas_as. destruct (check next); [|done]. rewrite Hr.
  destruct (record_eqb r' r) eqn:E; [apply record_eqb_revision in E; done|done].
Qed.

Lemma taken_refused prepared io s d f r :
  records s !! d = Some f ->
  records (snd (create_exclusive prepared io s d r)) = records s /\
  match fst (create_exclusive prepared io s d r) with Ok _ => False | Err _ => True end.
Proof.
  intros Hd. unfold create_exclusive. destruct prepared, io; cbn [negb records]; rewrite ?Hd; done.
Qed.

(** ** The store's contract *)

(** C18: No write is lost and no operation is reserved twice.  In every history of a
    store, whoever writes and wherever writes fail, a record once there stays
    there and readable, with a revision that only grows; when it has moved, every
    compare-and-swap that expected the old record is refused and changes nothing;
    and reserving the operation again always fails and leaves the records alone.
    (Fewer than 2^64 writes.) *)
Theorem store_no_lost_update n m s s' d r :
  store_steps new_store n s -> store_steps s m s' -> Z.of_nat (n + m) < U64 ->
  read s d = Ok (Some r) ->
  exists r', read s' d = Ok (Some r') /\
    (r' = r \/
     revision r < revision r' /\ forall io now next,
       snd (write_cas_as io now s' d r next) = s' /\
       match fst (write_cas_as io now s' d r next) with Ok _ => False | Err _ => True end) /\
    forall prepared io now e,
      records (snd (create_exclusive prepared io s' d (reserved now e))) = records s' /\
      match fst (create_exclusive prepared io s' d (reserved now e)) with Ok _ => False | Err _ => True end.
Proof.
  intros Hn Hm Hlt Hr.
  assert (H0 : intact 0 new_store) by (intros d0 f; cbn; rewrite lookup_empty; discriminate).
  destruct (store_steps_intact 0 n _ _ H0 ltac:(cbn; lia) Hn) as [Hi _]. cbn [Nat.add] in Hi.
  destruct (store_steps_intact n m _ _ Hi Hlt Hm) as [Hi' Hmono].
  destruct (read_record _ _ _ Hr) as [Hd _]. destruct (Hmono d r Hd) as (r' & Hd' & Hcase).
  pose proof (read_intact _ _ _ _ Hi' Hd') as Hr'. exists r'. split; [done|]. split.
  - destruct Hcase as [->|Hlt']; [left; done|right]. split; [done|]. intros. apply (stale_refused io now s' d r r' next Hr'). lia.
  - intros. eapply taken_refused, Hd'.
Qed.

(** A process still exiting at the first read, and gone from a complete table at
    the next. *)
Definition demo_reads (k : nat) : ProcTable :=
  match k with
  | O => from_rows [mkRow 7 1 7 (str "E") None None (Some (str "linux:100"))]
  | S _ => from_rows []
  end.

(** A reservation that a launcher has claimed. *)
Definition demo_envelope : Envelope := 
  mkEnvelope [] (str "e1") (VObj []) (str "op-1") (str "me") (str "here") (str "it") (str "s1") None.
Definition demo_me : ProcessId := mkProcess 7 (str "linux:100") (str "boot-1") 1000.
Definition demo_reserved : OperationRecord := reserved (str "t0") demo_envelope.
Definition demo_claim : OperationRecord :=
  ((((demo_reserved <| state := Pending |>) <| phase := Claimed |>)
    <| writer := of_role RoleLauncher demo_me |>)
    <| participants ::= fun p => p <| launcher := Some demo_me |> |>).
Definition demo_store : OperationStore :=
  snd (create_exclusive true IoOk new_store (str "h1") demo_reserved).
Definition demo_claimed : OperationStore :=
  snd (write_cas_as IoOk (str "t1") demo_store (str "h1") demo_reserved demo_claim).

(** A process still exiting at the first read and gone from a complete table at the
    second, before the deadline. *)
Lemma liveness_after_exit_ends_witness : exists k, (0 <= k <= 3)%nat /\
  liveness_after_exit_with 5 demo_me (Some (str "boot-1")) demo_reads (Nat.leb 3) 0
    = Some (liveness demo_me (demo_reads k) (Some (str "boot-1"))) /\
  (liveness demo_me (demo_reads k) (Some (str "boot-1")) = Gone \/ Nat.leb 3 k = true).
Proof.
  apply (liveness_after_exit_ends demo_me (Some (str "boot-1")) demo_reads (Nat.leb 3) 3 0 5);
    [lia|reflexivity|lia].
Defined.

Lemma store_no_lost_update_witness : exists r',
  read demo_claimed (str "h1") = Ok (Some r') /\ revision r' = 2 /\
  fst (write_cas_as IoOk (str "t2") demo_claimed (str "h1") demo_reserved demo_claim)
    = Err (Stale r').
Proof.
  pose (h1 := steps_more new_store 0 _ _ (steps_none _)
    (step_reserve true IoOk new_store (str "h1") (str "t0") demo_envelope)).
  pose (h2 := steps_more demo_store 0 _ _ (steps_none _)
    (step_write IoOk (str "t1") demo_store (str "h1") demo_reserved demo_claim eq_refl)).
  destruct (store_no_lost_update 1 1 demo_store demo_claimed (str "h1") demo_reserved h1 h2
    ltac:(vm_compute; reflexivity) ltac:(vm_compute; reflexivity)) as (r' & Hr & _).
  exists r'. split; [exact Hr|].
  assert (E : read demo_claimed (str "h1") = Ok (Some (stamped (str "t1") demo_reserved demo_claim)))
    by (vm_compute; reflexivity).
  rewrite E in Hr. injection Hr as <-. split; vm_compute; reflexivity.
Defined.
