(* ===== verification/Effects.v ===== *)
(** The registry's other operations as steps of the process of [Files.v]: listing
    sessions ([list.rs]), writing a record ([metadata.rs]), appending to a log
    ([events/mod.rs]) and changing tags ([mutate.rs]), each by the definitions of the file
    that models it, on the files of the disk. *)
From S2P Require Import Prelude Json Metadata Time Names Text Identity MetadataCache Inventory Mutate Patch Files Events.

(** What a listing takes besides the registry: the cache's reads and the socket probe. *)
Record Scans : Type := {
  print : Value -> bytes;
  cache_reads_at : nat -> bytes -> Z * Result Opened IoError;
  probe_budget : Z;
  probe_at : nat -> list bytes -> Z -> gmap bytes (Result unit IoError)
}.

Section Effects.
Context (e : Env) (s : Scans) `{U : Unicode}.

(** One scan, taken as an observation at one moment. *)
Definition list_sessions_full_now (k : nat) (d : Disk) : list SessionInfo :=
  @list_sessions_full (sha256 e) (json e) (host_at e k) (reg e k d) (root e) (cache_reads_at s k)
    (probe_budget s) (probe_at s k).
Definition list_sessions_now (k : nat) (d : Disk) : list SessionInfo :=
  @list_sessions_in (sha256 e) (json e) (host_at e k) (reg e k d) (root e) (cache_reads_at s k)
    (probe_budget s) (probe_at s k).
Definition get_session_by_name_now (nm : bytes) (k : nat) (d : Disk) : option SessionInfo :=
  @get_session_by_name (sha256 e) (json e) (host_at e k) (reg e k d) (root e) (cache_reads_at s k)
    (probe_budget s) (probe_at s k) nm.

(** [write_metadata_map]: the record replaced as a whole, or left as it was. *)
Definition write_metadata_map (nm : bytes) (m : IndexMap Value) : M bool := fun w =>
  if write_at e (moment w) then
    (true, w <| disk ::= <[at_root e (metadata_path (root e) nm) := Regular (render e m)]> |>
             <| done_ := done_ w ++ [Wrote nm m (moment w) (disk w)] |>)
  else (false, w).
Definition write_metadata (nm : bytes) (m : SessionMetadata) : M bool :=
  write_metadata_map nm (publication_map m).

(** The log's bytes: no file is an empty log, anything else cannot be read. *)
Definition log_content (d : Disk) (nm : bytes) : option bytes :=
  match d !! at_root e (events_path (root e) nm) with
  | None => Some []
  | Some (Regular b) => Some b
  | Some _ => None
  end.
Definition append_event (nm : bytes) (event : Events.Event) : M unit := fun w =>
  match log_content (disk w) nm with
  | Some content =>
      if write_at e (moment w) then
        (tt, w <| disk ::= <[at_root e (events_path (root e) nm) :=
                               Regular (Events.append_event_locked (print s) content event)]> |>
               <| done_ := done_ w ++ [Logged nm (to_json (print s) event)] |>)
      else (tt, w)
  | None => (tt, w)
  end.

(** [update_tags], run on the one record by the definitions of [Patch.v]. *)
Definition refused (l : Result unit LockRefusal) : bool := negb (is_ok l).
Definition weather (k : nat) (nm : bytes) : Weather := {|
  lock_granted _ := is_ok (lock_at e k (lock_path (root e) nm));
  event_lock _ := match lock_at e k (event_lock_path (root e) nm) with
                  | Ok _ => Ok tt
                  | Err LockHeld => Err (event_busy_message nm)
                  | Err (Unavailable cause) => Err cause
                  end;
  Mutate.others w := w;
  write_ok := write_at e k
|}.
Definition record_world (d : Disk) (nm : bytes) : Mutate.World :=
  Mutate.mkWorld (match read_metadata_map e d nm with Some m => {[nm := VObj m]} | None => ∅ end) ∅ [].
(** A tag patch logs no other event. *)
Definition record_events (now : bytes) (events : list Mutate.Event) : list Events.Event :=
  omap (fun ev => match ev with
                  | Mutate.tags_change id previous value => Some (Events.tags_change now id previous value)
                  | _ => None
                  end) events.
Definition now_text (k : nat) : bytes := iso8601_from_epoch_ms (now_at e k).
Fixpoint append_events (nm : bytes) (events : list Events.Event) : M unit :=
  match events with
  | [] => mret tt
  | ev :: rest => _ ← append_event nm ev; append_events nm rest
  end.
Definition update_tags (nm : bytes) (updates : IndexMap bytes) (removals : list bytes) : M bool :=
  out ← observe e (fun k d =>
    let '(w, r) := Patch.update_tags (weather k nm) (record_world d nm) nm updates removals in
    (match files w !! nm with
     | Some (VObj m) => if bool_decide (events w = []) then None else Some m
     | _ => None
     end, record_events (now_text k) (events w), is_ok r));
  let '(record, events, ok) := out in
  match record with
  | Some m => _ ← write_metadata_map nm m; _ ← append_events nm events; mret ok
  | None => mret ok
  end.

(** ** What they add to the log *)

Implicit Types (P : Action -> Prop).
Lemma adds_write_metadata_map P nm m : (forall k d, P (Wrote nm m k d)) -> adds P (write_metadata_map nm m).
Proof.
  intros H w. unfold wpm, write_metadata_map. destruct (write_at e _); [|apply grows_refl].
  split; [apply since_refl; done|]. eexists. split; [done|]. constructor; [apply H|constructor].
Qed.
Lemma adds_append_event P nm ev : (forall l, P (Logged nm l)) -> adds P (append_event nm ev).
Proof.
  intros H w. unfold wpm, append_event. destruct (log_content _ _); [|apply grows_refl].
  destruct (write_at e _); [|apply grows_refl].
  split; [apply since_refl; done|]. eexists. split; [done|]. constructor; [apply H|constructor].
Qed.
Lemma adds_append_events P nm evs : (forall l, P (Logged nm l)) -> adds P (append_events nm evs).
Proof.
  intros H. induction evs; cbn [append_events]; [apply adds_ret|]. apply adds_bind; [apply adds_append_event, H|auto].
Qed.
Lemma adds_update_tags P nm up rm :
  (forall m k d, P (Wrote nm m k d)) -> (forall l, P (Logged nm l)) -> adds P (update_tags nm up rm).
Proof.
  intros Hw Hl. apply adds_bind; [apply adds_observe|]. intros [[[m|] evs] ok]; [|apply adds_ret].
  apply adds_bind; [apply adds_write_metadata_map; intros; apply Hw|]. intros _.
  apply adds_bind; [apply adds_append_events, Hl|]. intros _. apply adds_ret.
Qed.
End Effects.
