(* ===== verification/Evidence.v ===== *)
(** Terminal evidence and fenced removal: [crates/pty-core/src/registry/evidence.rs].  What a
    finished generation left, read under its creation lock, and the removal of one
    generation's files under both locks. *)
From S2P Require Import Prelude Json Metadata Time Names Text Identity MetadataCache Inventory Files.

Definition METADATA_MAX_BYTES : Z := 1024 * 1024.

Inductive EvidenceUnavailableReason : Type := RMissing | RRunning | RBusy | RGenerationUnavailable | RInvalidMetadata.
Inductive SessionExitStatus : Type := EvExited | EvVanished.
(** [SessionExitEvidence]; the stream is always [Combined]. *)
Record SessionExitEvidence : Type := mkEvidence {
  ev_name : bytes;
  ev_generation : bytes;
  ev_status : SessionExitStatus;
  ev_exit_code : option Z;
  ev_tail : option (list bytes)
}.
Inductive SessionExitEvidenceResult : Type :=
  | Snapshot (snapshot : SessionExitEvidence)
  | EvUnavailable (reason : EvidenceUnavailableReason).
Inductive RemoveSessionGenerationResult : Type :=
  | Removed | RemMissing | GenerationMismatch | NotTerminal | InvalidMetadata | RemBusy.

Record EvidenceMetadata : Type := mkEvidenceMetadata {
  em_generation : bytes;
  em_daemon_pid : option Z;
  em_daemon_start_token : option bytes;
  em_daemon_boot_id : option bytes;
  em_exited_at : option bytes;
  em_exit_code : option Z;
  em_last_lines : option (list bytes)
}.
#[export] Instance EvidenceMetadata_eq : EqDecision EvidenceMetadata.
Proof. solve_decision. Defined.
(** The record with the identity alone. *)
Definition em_identity (m : EvidenceMetadata) : SessionMetadata :=
  mkMeta None (em_daemon_pid m) (em_daemon_start_token m) (em_daemon_boot_id m) None [] [] [] [] None None None [] None None
    None None None None None None None None None None None None None None [].
Inductive EvidenceMetadataRead : Type :=
  | EvValid (m : EvidenceMetadata)
  | EvMissing
  | EvGenerationUnavailable
  | EvInvalid.

(** ** One record *)

(** An optional field: absent, of the right form, or neither. *)
Definition checked {A} (read : Value -> option A) (k : bytes) (m : IndexMap Value) : option (option A) :=
  match mget k m with
  | None => Some None
  | Some v => match read v with Some a => Some (Some a) | None => None end
  end.
Definition filled_text (v : Value) : option bytes :=
  let? s := as_str v in if is_nonempty s then Some s else None.
Definition positive_pid (v : Value) : option Z := let? pid := dec_i32 v in if 0 <? pid then Some pid else None.
Definition recovery_token (m : IndexMap Value) : option bytes :=
  match mget (str "recovery") m with
  | Some (VObj r) => let? v := mget (str "processStartToken") r in filled_text v
  | _ => None
  end.
Definition line_texts (v : Value) : option (list bytes) :=
  match v with
  | VArr lines => if blen lines <=? SESSION_EXIT_LAST_LINES_LIMIT then mapM as_str lines else None
  | _ => None
  end.
Definition evidence_of (m : IndexMap Value) : EvidenceMetadataRead :=
  match mget (str "generation") m with
  | None => EvGenerationUnavailable
  | Some v =>
      match (let? generation := filled_text v in
             let? pid := checked positive_pid (str "daemonPid") m in
             let? token := checked filled_text (str "daemonStartToken") m in
             let? boot := checked filled_text (str "daemonBootId") m in
             let? exited_at := checked filled_text (str "exitedAt") m in
             let? exit_code := checked dec_i32 (str "exitCode") m in
             if negb (Bool.eqb (bool_decide (is_Some exited_at)) (bool_decide (is_Some exit_code))) then None
             else
               let? lines := checked line_texts (str "lastLines") m in
               let token := match token with Some t => Some t | None => recovery_token m end in
               Some (mkEvidenceMetadata generation pid token boot exited_at exit_code lines)) with
      | Some m => EvValid m
      | None => EvInvalid
      end
  end.

Section Evidence.
Context (e : Env).

Definition read_evidence_metadata (d : Disk) (nm : bytes) : EvidenceMetadataRead :=
  match d !! at_root e (metadata_path (root e) nm) with
  | None => EvMissing
  | Some (Regular b) =>
      if METADATA_MAX_BYTES <? blen b then EvInvalid
      else match json e b with
           | Some fields => evidence_of (last_fields fields)
           | None => EvInvalid
           end
  | Some _ => EvInvalid
  end.
Definition generation_identity (nm : bytes) (m : EvidenceMetadata) (k : nat) (d : Disk) : DaemonIdentityCheck :=
  daemon_identity e k d nm (em_identity m).

(** The creation lock alone. *)
Definition with_creation_lock {A} (nm : bytes) (f : M A) : M (option A) :=
  lock ← lock_or_refusal e (lock_path (root e) nm);
  match lock with
  | Err _ => mret None
  | Ok _ => _ ← hold nm; out ← f; _ ← let_go nm; mret (Some out)
  end.
Definition snapshot_of (nm : bytes) (m : EvidenceMetadata) : SessionExitEvidence :=
  mkEvidence nm (em_generation m) (if bool_decide (is_Some (em_exited_at m)) then EvExited else EvVanished)
    (em_exit_code m) (em_last_lines m).
Definition evidence_locked (nm : bytes) : M SessionExitEvidenceResult :=
  read ← observe e (fun _ d => read_evidence_metadata d nm);
  match read with
  | EvMissing => mret (EvUnavailable RMissing)
  | EvGenerationUnavailable => mret (EvUnavailable RGenerationUnavailable)
  | EvInvalid => mret (EvUnavailable RInvalidMetadata)
  | EvValid m =>
      check ← observe e (generation_identity nm m);
      mret (match check with
            | Match => EvUnavailable RRunning
            | Unknown => EvUnavailable RInvalidMetadata
            | Mismatch | Gone => Snapshot (snapshot_of nm m)
            end)
  end.
Definition get_session_exit_evidence (nm : bytes) : M SessionExitEvidenceResult :=
  valid ← observe e (fun _ d => name_ok e nm d);
  if negb valid then mret (EvUnavailable RInvalidMetadata)
  else
    r ← with_creation_lock nm (evidence_locked nm);
    mret (default (EvUnavailable RBusy) r).

(** [unlink_if_present] of each path, up to the first that fails. *)
Fixpoint unlink_all (paths : list bytes) : M (Result unit IoError) :=
  match paths with
  | [] => mret (Ok tt)
  | p :: rest =>
      r ← remove e p;
      match r with
      | Ok _ => unlink_all rest
      | Err err => if not_found err then unlink_all rest else mret (Err err)
      end
  end.
Definition proven_lost (nm : bytes) (m : EvidenceMetadata) (k : nat) (d : Disk) : bool :=
  known_owner_lost (generation_identity nm m k d).
Definition remove_generation_files (nm : bytes) : M (Result RemoveSessionGenerationResult IoError) :=
  _ ← act (Cleaned nm);
  sock ← socket_now e nm;
  r ← unlink_all [sock; pid_path (root e) nm; events_path (root e) nm; recovery_revision_path (root e) nm;
                  output_activity_path (root e) nm; metadata_path (root e) nm];
  mret (match r with Ok _ => Ok Removed | Err err => Err err end).
(** The record read again must be the same. *)
Definition remove_second (nm expected : bytes) (first : EvidenceMetadata) : M (Result RemoveSessionGenerationResult IoError) :=
  read ← observe e (fun _ d => read_evidence_metadata d nm);
  match read with
  | EvMissing => mret (Ok RemMissing)
  | EvGenerationUnavailable => mret (Ok GenerationMismatch)
  | EvInvalid => mret (Ok InvalidMetadata)
  | EvValid second =>
      if negb (beq (em_generation second) expected) then mret (Ok GenerationMismatch)
      else
        lost ← observe e (proven_lost nm second);
        if bool_decide (second <> first) || negb lost then mret (Ok NotTerminal) else remove_generation_files nm
  end.
Definition remove_locked (nm expected : bytes) : M (Result RemoveSessionGenerationResult IoError) :=
  read ← observe e (fun _ d => read_evidence_metadata d nm);
  match read with
  | EvMissing => mret (Ok RemMissing)
  | EvGenerationUnavailable => mret (Ok GenerationMismatch)
  | EvInvalid => mret (Ok InvalidMetadata)
  | EvValid first =>
      if negb (beq (em_generation first) expected) then mret (Ok GenerationMismatch)
      else
        lost ← observe e (proven_lost nm first);
        if negb lost then mret (Ok NotTerminal) else remove_second nm expected first
  end.
Definition remove_session_generation (nm expected : bytes) : M (Result RemoveSessionGenerationResult IoError) :=
  valid ← observe e (fun _ d => name_ok e nm d);
  if negb valid then mret (Ok InvalidMetadata)
  else
    r ← with_both_locks e nm (remove_locked nm expected);
    mret (match r with Ok out => out | Err _ => Ok RemBusy end).

(** ** What they promise *)

#[local] Arguments at_root : simpl never.
#[local] Arguments socket_of_name : simpl never.
Implicit Types (w : World) (nm : bytes) (k : nat) (d : Disk).

Lemma unlink_all_remove_all ps w : (let '(r, w') := unlink_all ps w in (is_ok r, w')) = remove_all e ps w.
Proof.
  revert w. induction ps as [|p ps IH]; intros w; [reflexivity|]. cbn [unlink_all remove_all foldr].
  unfold mbind, M_bind. rewrite remove_eq. destruct (disk w !! at_root e p); [|apply IH].
  destruct (unlink_at e (moment w) p); [apply IH|reflexivity].
Qed.
Lemma evidence_held nm w : In nm (held w) -> read_evidence_metadata (disk (breathe e w)) nm = read_evidence_metadata (disk w) nm.
Proof.
  intros H. unfold read_evidence_metadata. rewrite (breathe_held e nm); [reflexivity|exact H|].
  unfold companions. apply in_or_app. left. right. left. reflexivity.
Qed.
(** The files of one generation, proven to have no owner, at the moment they go. *)
Record removable_generation nm (expected : bytes) k d : Prop := {
  rg_read : exists m, read_evidence_metadata d nm = EvValid m /\ em_generation m = expected /\ proven_lost nm m k d = true
}.
Definition removal nm (expected : bytes) (r : Result RemoveSessionGenerationResult IoError) w w' : Prop :=
  match r with
  | Ok Removed => exists k d, done_ w' = done_ w ++ [Cleaned nm k d] /\ removable_generation nm expected k d
                    /\ forall p, In p (paths_of e d nm) -> disk w' !! at_root e p = None
  | Ok _ => done_ w' = done_ w
  | Err _ => exists k d, done_ w' = done_ w ++ [Cleaned nm k d] /\ removable_generation nm expected k d
               /\ (record_apart e nm -> read_evidence_metadata (disk w') nm = read_evidence_metadata d nm)
  end.
Lemma files_removed nm expected w :
  removable_generation nm expected (moment w) (disk w) -> wpm (remove_generation_files nm) (fun r w' => removal nm expected r w w') w.
Proof.
  intros H. unfold remove_generation_files. apply wpm_bind, wpm_act, wpm_bind. eapply wpm_eq; [reflexivity|]. cbn [disk].
  apply wpm_bind. match goal with |- wpm (unlink_all ?ps) _ ?w1 => destruct (unlink_all ps w1) as [r w2] eqn:R;
    pose proof (unlink_all_remove_all ps w1) as A end.
  eapply wpm_eq; [exact R|]. rewrite R in A. symmetry in A. apply wpm_ret.
  destruct (remove_all_outcome _ _ _ _ _ A) as (D & _ & _ & _ & All & _).
  destruct r as [u|err]; cbn [is_ok] in *; exists (moment w), (disk w); (split; [exact D|split; [exact H|]]).
  - intros p Hp. apply (All eq_refl). cbn in Hp |- *. intuition.
  - intros Apart. unfold read_evidence_metadata.
    rewrite (remove_all_last e [_; _; _; _; _] _ _ _ _ A); [reflexivity|apply Apart|reflexivity].
Qed.
(** A generation's files go only under both locks, and only while the record read there,
    twice, is that generation's and its owner is proven lost each time.  [Removed] leaves
    none of the six; a file that will not go leaves the record as it was, for another
    try; any other answer does nothing. *)
Theorem removal_fenced nm expected w :
  wpm (remove_session_generation nm expected) (fun r w' => removal nm expected r w w') w.
Proof.
  unfold remove_session_generation. apply wpm_bind, wpm_observe. destruct (negb _); [apply wpm_ret; done|].
  apply wpm_bind. set (w0 := breathe e w). apply wpm_with_both_locks; [intros busy w' D _; apply wpm_ret; exact D|].
  intros w1 D1 Hd. assert (Hh : In nm (held w1)) by (rewrite Hd; left; reflexivity).
  change (done_ w0) with (done_ w) in D1. clear Hd.
  assert (Step : wpm (remove_locked nm expected) (fun r w' => removal nm expected r w w') w1).
  2: { eapply wpm_mono; [exact Step|]. intros r w2 R. apply wpm_ret. destruct r as [[]|]; exact R. }
  unfold remove_locked. apply wpm_bind, wpm_observe. set (w2 := breathe e w1).
  destruct (read_evidence_metadata (disk w2) nm) as [first| | |]; try (apply wpm_ret; exact D1).
  destruct (beq (em_generation first) expected); cbn [negb]; [|apply wpm_ret; exact D1].
  apply wpm_bind, wpm_observe. set (w3 := breathe e w2). cbv beta zeta.
  destruct (proven_lost nm first (moment w3) (disk w3)); cbn [negb]; [|apply wpm_ret; exact D1].
  unfold remove_second. apply wpm_bind, wpm_observe. set (w4 := breathe e w3).
  destruct (read_evidence_metadata (disk w4) nm) as [second| | |] eqn:R; try (apply wpm_ret; exact D1).
  destruct (beq (em_generation second) expected) eqn:G; cbn [negb]; [|apply wpm_ret; exact D1].
  apply wpm_bind, wpm_observe. set (w5 := breathe e w4). cbv beta zeta.
  destruct (proven_lost nm second (moment w5) (disk w5)) eqn:L; cbn [negb]; [|rewrite orb_true_r; apply wpm_ret; exact D1].
  destruct (bool_decide (second <> first)); cbn [orb]; [apply wpm_ret; exact D1|].
  eapply wpm_mono; [apply (files_removed nm expected)|].
  - split. exists second. split; [|split; [apply beq_eq; exact G|exact L]]. rewrite <- R. apply evidence_held. exact Hh.
  - intros r w6 H. assert (E : done_ w5 = done_ w) by exact D1. unfold removal in *. rewrite E in H. exact H.
Qed.

(** Evidence is handed out only for a generation whose owner was proven lost while its
    creation lock was held, and says what that record says. *)
Theorem evidence_terminal nm w :
  wpm (get_session_exit_evidence nm) (fun r w' => done_ w' = done_ w /\
    match r with
    | Snapshot s => exists m k d, read_evidence_metadata d nm = EvValid m /\ proven_lost nm m k d = true /\ s = snapshot_of nm m
    | EvUnavailable _ => True
    end) w.
Proof.
  unfold get_session_exit_evidence. apply wpm_bind, wpm_observe. destruct (negb _); [apply wpm_ret; done|].
  apply wpm_bind. unfold with_creation_lock, lock_or_refusal. apply wpm_bind, wpm_observe.
  destruct (lock_at e _ _); [|apply wpm_ret, wpm_ret; done]. apply wpm_bind, wpm_hold, wpm_bind.
  set (w1 := set_field _ _ _). assert (Hh : In nm (held w1)) by (left; reflexivity).
  apply wpm_mono with (fun r w' => done_ w' = done_ w /\ match r with
    | Snapshot s => exists m k d, read_evidence_metadata d nm = EvValid m /\ proven_lost nm m k d = true /\ s = snapshot_of nm m
    | EvUnavailable _ => True end).
  2: { intros r w2 H. apply wpm_bind, wpm_let_go, wpm_ret, wpm_ret. exact H. }
  unfold evidence_locked. apply wpm_bind, wpm_observe. set (w2 := breathe e w1).
  destruct (read_evidence_metadata (disk w2) nm) as [m| | |] eqn:R; try (apply wpm_ret; done).
  apply wpm_bind, wpm_observe, wpm_ret. set (w3 := breathe e w2). split; [done|]. cbv beta zeta.
  destruct (generation_identity nm m (moment w3) (disk w3)) eqn:G; try done;
    exists m, (moment w3), (disk w3); (split; [rewrite <- R; apply evidence_held; exact Hh|]); unfold proven_lost; rewrite G; done.
Qed.
End Evidence.

(** ** A finished generation *)

Definition ev_fields : list (bytes * Value) :=
  [(str "generation", VStr (str "g1")); (str "daemonPid", VNum (NInt 4242)); (str "daemonStartToken", VStr (str "linux:8811"));
   (str "daemonBootId", VStr (str "linux:boot-a")); (str "exitedAt", VStr (str "2025-01-01T00:00:05.000Z"));
   (str "exitCode", VNum (NInt 3)); (str "lastLines", VArr [VStr (str "bye")])].
(** The pid is another process's when [start] is not the recorded token. *)
Definition ev_env (start : string) (stuck : bytes) : Env := {|
  root := str "/r"; sha256 := demo_sha; json t := if beq t (str "done") then Some ev_fields else None; render := fun _ => [];
  link := None; canonical := None; others := fun _ d => d; dir_at := fun _ => None; host_at := fun _ => demo_host start;
  lock_at := fun _ _ => Ok tt; now_at := fun _ => 0; write_at := fun _ => true; unlink_at := fun _ p => negb (beq p stuck)
|}.
Definition ev_world : World :=
  mkWorld (list_to_map [(str "/r/a.json", Regular (str "done")); (str "/r/a.events.jsonl", Regular [])]) 0 [] [].

Example ev_snapshot :
  fst (get_session_exit_evidence (ev_env "9000" []) (str "a") ev_world)
  = Snapshot (mkEvidence (str "a") (str "g1") EvExited (Some 3) (Some [str "bye"])).
Proof. vm_compute. reflexivity. Qed.
Example ev_running : fst (get_session_exit_evidence (ev_env "8811" []) (str "a") ev_world) = EvUnavailable RRunning.
Proof. vm_compute. reflexivity. Qed.
Example ev_removed :
  let '(r, w) := remove_session_generation (ev_env "9000" []) (str "a") (str "g1") ev_world in
  r = Ok Removed /\ map_to_list (disk w) = [].
Proof. vm_compute. auto. Qed.
Example ev_other_generation :
  fst (remove_session_generation (ev_env "9000" []) (str "a") (str "g2") ev_world) = Ok GenerationMismatch.
Proof. vm_compute. reflexivity. Qed.
(** A log that will not go leaves the record for another try. *)
Example ev_stuck :
  let '(r, w) := remove_session_generation (ev_env "9000" (str "/r/a.events.jsonl")) (str "a") (str "g1") ev_world in
  is_ok r = false /\ disk w !! str "/r/a.json" = Some (Regular (str "done")).
Proof. vm_compute. auto. Qed.
