(* ===== verification/Stop.v ===== *)
(** Stopping a session: [crates/pty-client/src/stop.rs] and the pinned signals of
    [crates/pty-core/src/operation/exact.rs], on Linux.

    A pid names a process only for a while, so the kernel gives each process a number of
    its own, its incarnation; a pidfd is one.  Every read of the kernel happens at a
    moment, and between two of them processes may end and pids be used again. *)
From S2P Require Import Prelude Json Metadata Time Names Text Order Events ProcTable ProcessTree Operation Identity MetadataCache Inventory Files Effects.

(** [row_at], [table_at]: [proctable::process] and [ProcTable::read].  [pidfd_open] answers
    an incarnation or an error number; [pidfd_send] fails with one; [pidfd_readable] is a
    poll that lasts for the timeout.  [clock] is monotonic, in milliseconds. *)
Record Kernel : Type := {
  row_at : nat -> Z -> Answer Row;
  table_at : nat -> ProcTable;
  boot_at : nat -> option bytes;
  my_uid : Z;
  own_group : Z;
  clock : nat -> Z;
  pidfd_open : nat -> Z -> Result nat (option Z);
  pidfd_send : nat -> nat -> Z -> Result unit (option Z);
  pidfd_readable : nat -> nat -> bool
}.

Definition ESRCH : Z := 3.
Definition ENOSYS : Z := 38.
Definition UNSUPPORTED : bytes := str "identity-safe-signal-unavailable".

Definition SHUTDOWN_WAIT : Z := 7000.
Definition ESCALATE_TERM_WAIT : Z := 2000.
Definition ESCALATE_KILL_WAIT : Z := 1000.

Inductive StopError : Type :=
  | StopNotFound
  | StopGenerationChanged (expected : bytes) (actual : option bytes)
  | StopNotRunning
  | SignalFailed
  | DaemonStillRunning (pid : Z) (socket : bytes).
Definition StopError_text (nm : bytes) (e : StopError) : bytes :=
  let session := str "Session " ++ 34 :: nm ++ [34] in
  match e with
  | StopNotFound => session ++ str " not found."
  | StopGenerationChanged expected actual =>
      session ++ match actual with
                 | Some actual => str " is generation " ++ actual
                 | None => str " has no generation"
                 end ++ str ", not " ++ expected ++ str ": it was replaced."
  | StopNotRunning =>
      session ++ str " is not running. Use " ++ 34 :: str "pty rm " ++ nm ++ 34 :: str " to remove it."
  | SignalFailed => str "Failed to kill session " ++ 34 :: nm ++ 34 :: str "."
  | DaemonStillRunning pid socket =>
      str "Failed to kill session " ++ 34 :: nm ++ 34 :: str ": daemon PID " ++ dec pid
      ++ str " is still running after 7s. Socket " ++ socket ++ str " may still be owned."
  end.

Record Aftermath : Type := mkAftermath { survived : list Z; unknown : list Z }.
Definition all_gone (a : Aftermath) : bool := negb (is_nonempty (survived a)) && negb (is_nonempty (unknown a)).
Definition verified_empty_of (after : Aftermath) (escalated : option (list Z)) : bool :=
  all_gone after && match escalated with Some pids => negb (is_nonempty pids) | None => true end.

Record Stopped : Type := mkStopped {
  st_name : bytes;
  st_aftermath : Aftermath;
  st_escalated : option (list Z);
  st_was_permanent : bool;
  st_ptyfile : option bytes;
  st_identity : ControlIdentityCheck
}.
Definition verified_empty (s : Stopped) : bool := verified_empty_of (st_aftermath s) (st_escalated s).

#[export] Instance ControlIdentityCheck_eq_dec : EqDecision ControlIdentityCheck.
Proof. solve_decision. Defined.

Section Stop.
Context (e : Env) (s : Scans) (kn : Kernel) `{U : Unicode} `{HO : HashOrder}.

(** ** Pinned processes: [exact.rs] *)

Definition table_of (k : nat) (pid : Z) : ProcTable :=
  match row_at kn k pid with
  | Known r => from_rows [r]
  | NotPresent => from_rows []
  | AnswerUnknown _ => unreadable
  end.
(** [ProcessId::of]; its two readings are one. *)
Definition process_id_of (k : nat) (pid : Z) : Result ProcessId unit :=
  match boot_at kn k, row_at kn k pid with
  | Some boot, Known r =>
      match ProcTable.identity r with
      | Some token => Ok (mkProcess pid token boot (my_uid kn))
      | None => Err tt
      end
  | _, _ => Err tt
  end.

Definition pin_pid (pid : Z) : M (Result (option nat) bytes) :=
  r ← observe e (fun k _ => pidfd_open kn k pid);
  mret (match r with
        | Ok fd => Ok (Some fd)
        | Err errno =>
            if bool_decide (errno = Some ESRCH) then Ok None
            else if bool_decide (errno = Some ENOSYS) then Err UNSUPPORTED
            else Err (str "pidfd-unavailable")
        end).
(** [Exact::pin]: the identity is checked after pinning. *)
Definition pin (id : ProcessId) (boot : option bytes) : M (Result (option nat) bytes) :=
  pinned ← pin_pid (Operation.pid id);
  match pinned with
  | Ok (Some fd) =>
      alive ← observe e (fun k _ => liveness id (table_of k (Operation.pid id)) boot);
      mret (match alive with
            | Operation.Live => Ok (Some fd)
            | Operation.Gone => Ok None
            | Operation.Unknown why => Err why
            end)
  | other => mret other
  end.
Definition send_pinned (nm : bytes) (fd : nat) (signal : Z) : M (Result unit unit) :=
  r ← observe e (fun k _ => pidfd_send kn k fd signal);
  _ ← act (fun k d => Signalled nm fd signal k);
  mret (match r with
        | Ok _ => Ok tt
        | Err errno => if bool_decide (errno = Some ESRCH) then Ok tt else Err tt
        end).
Definition wait_exit (fd : nat) : M bool := observe e (fun k _ => pidfd_readable kn k fd).

(** ** The daemon's handle *)

Record DaemonHandle : Type := mkHandle { h_fd : nat; h_explicit : bool; h_identity : ControlIdentityCheck }.

Definition identity_now (nm : bytes) (pid : Z) (m : SessionMetadata) (explicit_control : bool)
  (k : nat) (d : Disk) : Result ControlIdentityCheck StopError :=
  if negb explicit_control then
    if bool_decide (@check_daemon_identity (host_at e k) pid m = Match) then Ok ControlMatch
    else Err SignalFailed
  else
    match @read_explicit_control_authority_in (json e) (reg e k d) (host_at e k) (root e) nm (Some m) false with
    | Some (target, authority) => if target =? pid then Ok authority else Err SignalFailed
    | None => Err SignalFailed
    end.
Definition require_identity (nm : bytes) (pid : Z) (m : SessionMetadata) (explicit_control : bool)
  : M (Result ControlIdentityCheck StopError) :=
  observe e (identity_now nm pid m explicit_control).
Definition handle_require_identity (h : DaemonHandle) (nm : bytes) (pid : Z) (m : SessionMetadata)
  : M (Result unit StopError) :=
  r ← require_identity nm pid m (h_explicit h);
  mret (match r with
        | Ok found => if bool_decide (found = h_identity h) then Ok tt else Err SignalFailed
        | Err err => Err err
        end).
Definition open_with (nm : bytes) (pid : Z) (m : SessionMetadata) (explicit_control : bool)
  : M (Result DaemonHandle StopError) :=
  r ← require_identity nm pid m explicit_control;
  match r with
  | Err err => mret (Err err)
  | Ok found =>
      owner ← observe e (fun k _ => process_id_of k pid);
      match owner with
      | Err _ => mret (Err SignalFailed)
      | Ok owner =>
          let boot := default (Operation.boot_id owner) (daemon_boot_id m) in
          pinned ← pin owner (Some boot);
          match pinned with
          | Ok (Some fd) =>
              let h := mkHandle fd explicit_control found in
              again ← handle_require_identity h nm pid m;
              mret (match again with Ok _ => Ok h | Err err => Err err end)
          | _ => mret (Err SignalFailed)
          end
      end
  end.
Definition handle_signal (h : DaemonHandle) (nm : bytes) (pid : Z) (m : SessionMetadata)
  : M (Result unit StopError) :=
  r ← handle_require_identity h nm pid m;
  match r with
  | Err err => mret (Err err)
  | Ok _ =>
      sent ← send_pinned nm (h_fd h) SIGTERM;
      mret (match sent with Ok _ => Ok tt | Err _ => Err SignalFailed end)
  end.
Definition signal_daemon (nm : bytes) (pid : Z) (m : SessionMetadata) : M (Result DaemonHandle StopError) :=
  h ← open_with nm pid m false;
  match h with
  | Err err => mret (Err err)
  | Ok h =>
      sent ← handle_signal h nm pid m;
      mret (match sent with Ok _ => Ok h | Err err => Err err end)
  end.

(** ** What a stop leaves *)

Definition aftermath_with (before : list ProcessIdentity) (read_identity : Z -> option bytes)
  (exited : Z -> bool) : Aftermath :=
  foldl (fun out i =>
    if exited (id_pid i) then out
    else match read_identity (id_pid i) with
         | Some found => if beq found (id_identity i) then mkAftermath (survived out ++ [id_pid i]) (unknown out)
                         else out
         | None => mkAftermath (survived out) (unknown out ++ [id_pid i])
         end) (mkAftermath [] []) before.
Definition table_exited (t : ProcTable) (pid : Z) : bool :=
  match is_running t pid with
  | Known running => negb running
  | NotPresent => true
  | AnswerUnknown _ => false
  end.
Definition aftermath_in (before : list ProcessIdentity) (t : ProcTable) : Aftermath :=
  aftermath_with before (fun pid => known (table_identity t pid)) (table_exited t).
Definition aftermath (before : list ProcessIdentity) : M Aftermath :=
  observe e (fun k _ => aftermath_in before (table_at kn k)).

(** ** The escalation *)

Definition is_member (group : Z) (i : ProcessIdentity) (a : Answer Row) : bool :=
  match a with
  | Known r => (pgid r =? group) && bool_decide (ProcTable.identity r = Some (id_identity i))
  | _ => false
  end.
(** A [find] by pid. *)
Definition original (before : list ProcessIdentity) (pid : Z) : option ProcessIdentity :=
  List.find (fun i => id_pid i =? pid) before.
Definition group_is_owned_with (group : Z) (before : list ProcessIdentity) (t : ProcTable)
  (fresh_match : ProcessIdentity -> bool) : bool :=
  if negb (is_complete t) then false
  else
    let members := members_of_groups [group] t in
    is_nonempty members
    && forallb (fun pid => existsb (fun i => (id_pid i =? pid)
                            && bool_decide (known (table_identity t pid) = Some (id_identity i))
                            && fresh_match i) before) members.
Definition group_is_owned (group : Z) (before : list ProcessIdentity) (t : ProcTable) : M bool :=
  observe e (fun k _ => group_is_owned_with group before t (fun i => is_member group i (row_at kn k (id_pid i)))).

(** The pins of every member, or none. *)
Fixpoint pin_members (group : Z) (before : list ProcessIdentity) (boot : bytes) (pids : list Z)
  : M (option (list nat)) :=
  match pids with
  | [] => mret (Some [])
  | pid :: rest =>
      match original before pid with
      | None => mret None
      | Some i =>
          owner ← observe e (fun k _ => process_id_of k pid);
          match owner with
          | Err _ => mret None
          | Ok owner =>
              if negb (beq (Operation.start_token owner) (id_identity i)) || negb (beq (Operation.boot_id owner) boot)
              then mret None
              else
                pinned ← pin owner (Some boot);
                match pinned with
                | Ok (Some fd) =>
                    same ← observe e (fun k _ => is_member group i (row_at kn k pid));
                    if negb same then mret None
                    else
                      others ← pin_members group before boot rest;
                      mret ((fun fds => fd :: fds) <$> others)
                | _ => mret None
                end
          end
      end
  end.
Fixpoint send_all (nm : bytes) (fds : list nat) (signal : Z) : M unit :=
  match fds with
  | [] => mret tt
  | fd :: rest => _ ← send_pinned nm fd signal; send_all nm rest signal
  end.
Definition signal_pinned_members (nm : bytes) (group signal : Z) (before : list ProcessIdentity) (t : ProcTable)
  : M unit :=
  boot ← observe e (fun k _ => boot_at kn k);
  match boot with
  | None => mret tt
  | Some boot =>
      fds ← pin_members group before boot (members_of_groups [group] t);
      match fds with
      | None => mret tt
      | Some fds => send_all nm fds signal
      end
  end.
Definition signal_owned_group (nm : bytes) (before : list ProcessIdentity) (signal group : Z) : M unit :=
  t ← observe e (fun k _ => table_at kn k);
  owned ← group_is_owned group before t;
  if (owned : bool) then signal_pinned_members nm group signal before t else mret tt.
Fixpoint signal_groups (nm : bytes) (before : list ProcessIdentity) (signal : Z) (groups : list Z) : M unit :=
  match groups with
  | [] => mret tt
  | g :: rest => _ ← signal_owned_group nm before signal g; signal_groups nm before signal rest
  end.
Definition live_members (groups : list Z) : M (list Z) :=
  observe e (fun k _ => members_of_groups groups (table_at kn k)).
(** Until nobody is left or the deadline passes; [None]: more rounds than the fuel. *)
Fixpoint wait_members (fuel : nat) (deadline : Z) (targets remaining : list Z) : M (option (list Z)) :=
  if negb (is_nonempty remaining) then mret (Some [])
  else
    now ← observe e (fun k _ => clock kn k);
    if negb (now <? deadline) then mret (Some remaining)
    else match fuel with
         | O => mret None
         | S f => remaining ← live_members targets; wait_members f deadline targets remaining
         end.
Definition wait_round (fuel : nat) (wait : Z) (targets : list Z) : M (option (list Z)) :=
  started ← observe e (fun k _ => clock kn k);
  remaining ← live_members targets;
  wait_members fuel (started + wait) targets remaining.
(** [sweep_groups] with the members pinned for each signal. *)
Definition escalate_over_groups (fuel : nat) (nm : bytes) (groups : list Z) (before : list ProcessIdentity)
  : M (option (list Z)) :=
  let targets := List.filter (fun g => (1 <? g) && negb (g =? own_group kn)) groups in
  if negb (is_nonempty targets) then live ← live_members groups; mret (Some live)
  else
    _ ← signal_groups nm before SIGTERM targets;
    remaining ← wait_round fuel ESCALATE_TERM_WAIT targets;
    match remaining with
    | None => mret None
    | Some [] => mret (Some [])
    | Some _ =>
        _ ← signal_groups nm before SIGKILL targets;
        wait_round fuel ESCALATE_KILL_WAIT targets
    end.

(** ** [stop] *)

Definition is_running_status (st : SessionStatus) : bool := bool_decide (st = Running).
Definition is_permanent_session (m : SessionMetadata) : bool :=
  obeq (tag_of (str "strategy") (tags m)) (Some (str "permanent")).

(** After the daemon has gone: clean up, look again, escalate; [None]: out of fuel. *)
Definition finish_stop (fuel : nat) (nm : bytes) (pid : Z) (m : SessionMetadata) (h : DaemonHandle)
  (groups : list Z) (before : list ProcessIdentity) (was_permanent : bool) (ptyfile : option bytes)
  : M (option (Result Stopped StopError)) :=
  let owner := mkOwner (default [] (Metadata.generation m)) pid in
  cleaned ← cleanup_owned_socket e nm owner;
  after ← aftermath before;
  left ← (if all_gone after then live_members groups else mret []);
  r ← (if negb (all_gone after) || is_nonempty left then
         escalated ← escalate_over_groups fuel nm groups before;
         match escalated with
         | None => mret None
         | Some pids => after ← aftermath before; mret (Some (after, Some pids))
         end
       else mret (Some (after, None)));
  match r with
  | None => mret None
  | Some (after, escalated) =>
      mret (Some (if negb cleaned then Err SignalFailed
                  else Ok (mkStopped nm after escalated was_permanent ptyfile (h_identity h))))
  end.

Definition stop_session (fuel : nat) (nm : bytes) (m : SessionMetadata) (pid : Z)
  : M (option (Result Stopped StopError)) :=
  handle ← open_with nm pid m true;
  match handle with
  | Err err => mret (Some (Err err))
  | Ok h =>
      let was_permanent := is_permanent_session m in
      _ ← (if was_permanent then update_tags e s nm [] [str "strategy"] else mret true);
      let ptyfile := if was_permanent then tag_of (str "ptyfile") (tags m) else None in
      r1 ← handle_require_identity h nm pid m;
      match r1 with
      | Err err => mret (Some (Err err))
      | Ok _ =>
          table ← observe e (fun k _ => table_at kn k);
          let before := snapshot_from_table pid table in
          let groups := List.filter (fun g => negb (g =? own_group kn)) (groups_in_tree pid table) in
          r2 ← handle_require_identity h nm pid m;
          match r2 with
          | Err err => mret (Some (Err err))
          | Ok _ =>
              sent ← handle_signal h nm pid m;
              match sent with
              | Err err => mret (Some (Err err))
              | Ok _ =>
                  gone ← wait_exit (h_fd h);
                  if negb gone then
                    sock ← observe e (fun _ d => socket_of_name e d nm);
                    mret (Some (Err (DaemonStillRunning pid sock)))
                  else finish_stop fuel nm pid m h groups before was_permanent ptyfile
              end
          end
      end
  end.

Definition stop_checked (fuel : nat) (nm : bytes) (session : SessionInfo) : M (option (Result Stopped StopError)) :=
  match is_running_status (info_status session), info_pid session with
  | true, Some pid =>
      match info_metadata session with
      | None => mret (Some (Err SignalFailed))
      | Some m =>
          target ← observe e (fun k d =>
            @read_explicit_control_authority_in (json e) (reg e k d) (host_at e k) (root e) nm (Some m) false);
          match target with
          | Some (target, _) => if negb (target =? pid) then mret (Some (Err SignalFailed))
                                else stop_session fuel nm m pid
          | None => mret (Some (Err SignalFailed))
          end
      end
  | _, _ => mret (Some (Err StopNotRunning))
  end.
Definition stop (fuel : nat) (nm : bytes) (expected_generation : option bytes)
  : M (option (Result Stopped StopError)) :=
  session ← observe e (get_session_by_name_now e s nm);
  match session with
  | None => mret (Some (Err StopNotFound))
  | Some session =>
      let generation := info_metadata session ≫= Metadata.generation in
      match expected_generation with
      | Some expected =>
          if negb (obeq generation (Some expected))
          then mret (Some (Err (StopGenerationChanged expected generation)))
          else stop_checked fuel nm session
      | None => stop_checked fuel nm session
      end
  end.
End Stop.

(** ** What a stop is about *)

Section Run.
Context (e : Env) (s : Scans) (kn : Kernel) `{U : Unicode} `{HO : HashOrder}.
Implicit Types (w : Files.World) (nm : bytes) (m : SessionMetadata) (pid : Z) (j k : nat).

(** The record and the pid of the running session of that name, as a stop begun in [w]
    finds them first; the record has the generation the caller expects. *)
Record asked_for (expected : option bytes) nm w m pid : Prop := {
  af_session : exists session, get_session_by_name_now e s nm (moment (breathe e w)) (disk (breathe e w)) = Some session
    /\ info_status session = Running /\ info_metadata session = Some m /\ info_pid session = Some pid;
  af_generation g : expected = Some g -> Metadata.generation m = Some g
}.
(** The identity check accepted the pid as that of the record's daemon. *)
Definition accepted w nm m pid j : Prop :=
  exists d found, disk_at w j d /\ identity_now e nm pid m true j d = Ok found.
Lemma accepted_later P w w' nm m pid j : grows P w w' -> accepted w nm m pid j -> accepted w' nm m pid j.
Proof. intros G (d & found & D & H). exists d, found. split; [exact (any_disk _ _ _ _ _ G D)|exact H]. Qed.

Lemma stop_begins expected fuel nm w (Q : option (Result Stopped StopError) -> Files.World -> Prop) :
  (forall err w', grows (fun _ => False) w w' -> Q (Some (Err err)) w') ->
  (forall m pid w', asked_for expected nm w m pid -> grows (fun _ => False) w w' ->
     wpm (stop_session e s kn fuel nm m pid) Q w') ->
  wpm (stop e s kn fuel nm expected) Q w.
Proof.
  intros Refuse Go. unfold stop. apply wpm_bind, wpm_observe. assert (G1 := grows_breathe e (fun _ => False) w).
  destruct (get_session_by_name_now _ _ _ _ _) as [session|] eqn:Es; [|apply wpm_ret, Refuse, G1].
  assert (Checked : (forall g, expected = Some g -> info_metadata session ≫= Metadata.generation = Some g) ->
            wpm (stop_checked e s kn fuel nm session) Q (breathe e w)).
  { intros Hg. unfold stop_checked. destruct (is_running_status _) eqn:Er; [|apply wpm_ret, Refuse, G1].
    apply bool_decide_eq_true_1 in Er. destruct (info_pid session) as [pid|] eqn:Ep; [|apply wpm_ret, Refuse, G1].
    destruct (info_metadata session) as [m|] eqn:Em; [|apply wpm_ret, Refuse, G1].
    apply wpm_bind, wpm_observe. assert (G2 := grows_trans _ _ _ _ G1 (grows_breathe e _ (breathe e w))).
    destruct (read_explicit_control_authority_in _ _ _ _ _ _) as [[target a]|]; [|apply wpm_ret, Refuse, G2].
    destruct (negb _); [apply wpm_ret, Refuse, G2|]. apply Go; [|exact G2]. split; [exists session; done|exact Hg]. }
  destruct expected as [g|]; [|apply Checked; discriminate].
  destruct (obeq _ _) eqn:Eg; cbn [negb]; [|apply wpm_ret, Refuse, G1].
  apply Checked. intros g' [= <-]. destruct (info_metadata session ≫= Metadata.generation) as [g0|]; [|discriminate].
  cbn in Eg. apply beq_eq in Eg. congruence.
Qed.
End Run.

(** ** Who a signal can reach *)

(** The process that holds a pid at a moment.  An open pidfd names the holder of the pid
    when it was opened, and a process keeps its pid for as long as it exists. *)
Class Incarnations (kn : Kernel) : Type := {
  holder : nat -> Z -> option nat;
  open_holder k pid i : pidfd_open kn k pid = Ok i -> holder k pid = Some i;
  holder_kept k1 k2 j pid pid' i :
    (k1 <= j <= k2)%nat -> holder k1 pid = Some i -> holder k2 pid' = Some i -> holder j pid = Some i
}.

Section Exact.
Context (e : Env) (s : Scans) (kn : Kernel) {I : Incarnations kn} `{U : Unicode} `{HO : HashOrder}.
Implicit Types (w : Files.World) (k j : nat) (P Q : Action -> Prop).

Definition exists_at k (fd : nat) : Prop := exists pid, holder k pid = Some fd.

(** *** Programs that send no signal *)

Definition no_signal (a : Action) : Prop := match a with Signalled _ _ _ _ => False | _ => True end.
Lemma adds_quiet_update_tags nm up rm : adds no_signal (update_tags e s nm up rm).
Proof. apply adds_update_tags; done. Qed.

(** *** The daemon's signal *)

(** Why a signal may be sent to [fd] by a stop begun in [w0] of the session with the
    record [m] and the daemon [pid]: it holds the daemon's pid while the check accepts
    that pid; or it was in the tree below that pid, read between two checks that accepted
    the pid and before the daemon was signalled, and is found again with the same start
    identity in a group of that tree that is not the caller's own. *)
Inductive entitled w0 w nm (m : SessionMetadata) (pid : Z) (fd : nat) k : Z -> Prop :=
  | EntDaemon j :
      (moment w0 < j <= k)%nat -> holder j pid = Some fd -> accepted e w nm m pid j ->
      entitled w0 w nm m pid fd k SIGTERM
  | EntMember j0 daemon_fd kd j i r signal :
      (moment w0 < pred j0)%nat -> accepted e w nm m pid (pred j0) -> accepted e w nm m pid (S j0) ->
      In (Signalled nm daemon_fd SIGTERM kd) (done_ w) -> (S j0 < kd <= j)%nat -> (j <= k)%nat ->
      In i (snapshot_from_table pid (table_at kn j0)) ->
      holder j (id_pid i) = Some fd -> row_at kn j (id_pid i) = Known r ->
      ProcTable.identity r = Some (id_identity i) ->
      In (pgid r) (groups_in_tree pid (table_at kn j0)) -> pgid r <> own_group kn -> 1 < pgid r ->
      signal = SIGTERM \/ signal = SIGKILL -> entitled w0 w nm m pid fd k signal.
Definition sound w0 nm m pid w (a : Action) : Prop :=
  match a with
  | Signalled target fd signal k => target = nm /\ (exists_at k fd -> entitled w0 w nm m pid fd k signal)
  | _ => True
  end.
#[local] Instance sound_lasting w0 nm m pid : Lasting (sound w0 nm m pid).
Proof.
  intros w w' a G. destruct a; cbn; try done. intros [E H]. split; [exact E|]. intros Hx.
  destruct (H Hx) as [j Hj Hh A|j0 dfd kd j i r sg Hj A0 A Hd]; [eapply EntDaemon|eapply EntMember]; try eassumption;
    eauto using accepted_later, any_done.
Qed.
Lemma quiet_sound w0 nm m pid w w' : grows no_signal w w' -> gains (sound w0 nm m pid) w w'.
Proof. apply gains_grows. intros []; done. Qed.
Lemma adds_sound w0 nm m pid {A} (f : M A) w : adds no_signal f -> wpm f (fun _ => gains (sound w0 nm m pid) w) w.
Proof. intros H. eapply wpm_mono; [apply H|]. intros a w'. apply quiet_sound. Qed.

Lemma wpm_pin P id boot w :
  wpm (pin e kn id boot) (fun r w' => grows P w w' /\
    match r with
    | Ok (Some fd) => exists k1, (moment w <= k1 <= moment w')%nat /\ holder k1 (Operation.pid id) = Some fd
    | _ => True
    end) w.
Proof.
  unfold pin, pin_pid. apply wpm_bind, wpm_bind, wpm_observe. apply wpm_ret.
  set (k1 := moment (breathe e w)).
  destruct (pidfd_open kn k1 (Operation.pid id)) as [fd|errno] eqn:Eo.
  2: { destruct (bool_decide (errno = Some ESRCH)); [|destruct (bool_decide _)]; apply wpm_ret;
       (split; [apply grows_breathe|done]). }
  apply wpm_bind, wpm_observe. apply wpm_ret.
  split; [exact (grows_trans _ _ _ _ (grows_breathe e _ w) (grows_breathe e _ _))|].
  destruct (liveness _ _ _); [|done|done]. exists k1. split; [subst k1; cbn; lia|]. apply open_holder, Eo.
Qed.

(** A handle whose pid was held by its process at a moment that has passed. *)
Definition pinned_before (h : DaemonHandle) (pid : Z) k : Prop :=
  exists k1, (k1 <= k)%nat /\ holder k1 pid = Some (h_fd h).

Lemma wpm_handle_require h nm pid m w :
  wpm (handle_require_identity e h nm pid m) (fun r w' => w' = breathe e w /\
    match r with
    | Ok _ => identity_now e nm pid m (h_explicit h) (moment w') (disk w') = Ok (h_identity h)
    | Err _ => True
    end) w.
Proof.
  apply wpm_bind, wpm_observe. apply wpm_ret. split; [done|].
  destruct (identity_now _ _ _ _ _ _ _) as [found|]; [|done].
  destruct (bool_decide _) eqn:B; [|done]. apply bool_decide_eq_true_1 in B. congruence.
Qed.

Lemma wpm_open_with P nm pid m explicit w :
  wpm (open_with e kn nm pid m explicit) (fun r w' => grows P w w' /\
    match r with Ok h => pinned_before h pid (moment w') /\ h_explicit h = explicit | Err _ => True end) w.
Proof.
  apply wpm_bind, wpm_observe. destruct (identity_now _ _ _ _ _ _ _) as [found|err].
  2: { apply wpm_ret. split; [apply grows_breathe|done]. }
  apply wpm_bind, wpm_observe. destruct (process_id_of kn _ pid) as [owner|] eqn:Eo.
  2: { apply wpm_ret. split; [|done]. exact (grows_trans _ _ _ _ (grows_breathe e _ w) (grows_breathe e _ _)). }
  assert (Epid : Operation.pid owner = pid).
  { unfold process_id_of in Eo. destruct (boot_at _ _); [|discriminate].
    destruct (row_at _ _ _) as [r| |]; try discriminate. destruct (ProcTable.identity r); [|discriminate].
    injection Eo as <-. done. }
  set (w2 := breathe e (breathe e w)). apply wpm_bind. eapply wpm_mono; [apply (wpm_pin P)|]. cbn beta.
  intros r w3 [G3 H3].
  assert (G : grows P w w3).
  { eapply grows_trans; [apply grows_breathe|]. eapply grows_trans; [apply grows_breathe|exact G3]. }
  destruct r as [[fd|]|]; try (apply wpm_ret; done).
  apply wpm_bind. eapply wpm_mono; [apply wpm_handle_require|]. cbn beta. intros r w4 [-> _]. apply wpm_ret.
  split; [eapply grows_trans; [exact G|apply grows_breathe]|]. destruct r; [|done]. split; [|done].
  destruct H3 as (k1 & Hk & Hh). exists k1. rewrite Epid in Hh. split; [cbn; lia|exact Hh].
Qed.

Lemma wpm_send_pinned nm fd signal w (Q : Result unit unit -> Files.World -> Prop) :
  (forall r w', since w w' -> moment w' = S (moment w) -> done_ w' = done_ w ++ [Signalled nm fd signal (S (moment w))] -> Q r w') ->
  wpm (send_pinned e kn nm fd signal) Q w.
Proof.
  intros H. apply wpm_bind, wpm_observe, wpm_bind, wpm_act, wpm_ret. apply H; [|done..].
  eapply since_trans; [apply (since_breathe e w)|apply since_refl; done].
Qed.

Lemma handle_signal_sound w0 h nm pid m w :
  (moment w0 <= moment w)%nat -> h_explicit h = true -> pinned_before h pid (moment w) ->
  wpm (handle_signal e kn h nm pid m) (fun r w' => gains (sound w0 nm m pid) w w' /\
    match r with
    | Ok _ => exists kd, (moment w < kd <= moment w')%nat /\ In (Signalled nm (h_fd h) SIGTERM kd) (done_ w')
    | Err _ => True
    end) w.
Proof.
  intros H0 Hx (k1 & Hk & Hh). apply wpm_bind. eapply wpm_mono; [apply wpm_handle_require|]. cbn beta.
  intros r w1 [-> Hid]. destruct r as [_u|err]; [|apply wpm_ret; split; [apply gains_breathe|done]].
  apply wpm_bind. apply wpm_send_pinned. intros sent w2 Sn Em Ed. apply wpm_ret. split.
  - split; [exact (since_trans _ _ _ (since_breathe e w) Sn)|]. eexists. split; [rewrite Ed; cbn; reflexivity|].
    constructor; [|constructor]. split; [done|]. intros [p' Hp']. rewrite Hx in Hid.
    eapply EntDaemon with (j := S (moment w)); [lia| |].
    + apply (holder_kept k1 (S (S (moment w))) _ pid p'); [lia|exact Hh|exact Hp'].
    + eexists _, _. split; [|exact Hid]. apply (disk_at_since _ _ _ _ Sn), disk_at_breathe.
  - destruct sent; [|done]. exists (S (S (moment w))). rewrite Em, Ed. split; [cbn; lia|]. apply in_or_app. right. left. done.
Qed.

(** *** The escalation's signals *)

(** Members found in a snapshot of the daemon's tree at [j0], before it was signalled. *)
Record snapshot_of w0 nm m (pid : Z) (j0 : nat) (before : list ProcessIdentity) (groups : list Z) w : Prop := {
  so_before : before = snapshot_from_table pid (table_at kn j0);
  so_groups : forall g, In g groups -> In g (groups_in_tree pid (table_at kn j0)) /\ g <> own_group kn /\ 1 < g;
  so_moment : (moment w0 < pred j0)%nat;
  so_checked : accepted e w nm m pid (pred j0);
  so_accepted : accepted e w nm m pid (S j0);
  so_signal : exists fd kd, In (Signalled nm fd SIGTERM kd) (done_ w) /\ (S j0 < kd <= moment w)%nat
}.
Lemma snapshot_later P w0 nm m pid j0 before groups w w' :
  grows P w w' -> snapshot_of w0 nm m pid j0 before groups w -> snapshot_of w0 nm m pid j0 before groups w'.
Proof.
  intros G [B Gr M A0 A (fd & kd & Hd & Hk)].
  split; try done; [exact (accepted_later _ _ _ _ _ _ _ _ G A0)|exact (accepted_later _ _ _ _ _ _ _ _ G A)|].
  exists fd, kd. split; [exact (any_done _ _ _ _ G Hd)|]. destruct G as [[Mw _] _]. lia.
Qed.
Definition member_pin (root : Z) (j0 lo : nat) (group : Z) (fd : nat) k : Prop :=
  exists i k1 j r, (lo <= k1 <= j)%nat /\ (j <= k)%nat /\ In i (snapshot_from_table root (table_at kn j0))
    /\ holder k1 (id_pid i) = Some fd /\ row_at kn j (id_pid i) = Known r
    /\ ProcTable.identity r = Some (id_identity i) /\ pgid r = group.

Lemma member_pin_later root j0 lo group fd k k' :
  (k <= k')%nat -> member_pin root j0 lo group fd k -> member_pin root j0 lo group fd k'.
Proof. intros Hk (i & k1 & j & r & H & Hj & Hx). exists i, k1, j, r. split; [exact H|]. split; [lia|exact Hx]. Qed.

Lemma original_in before pid i : original before pid = Some i -> In i before /\ id_pid i = pid.
Proof. intros H. apply find_some in H as [H E]. apply Z.eqb_eq in E. done. Qed.

Lemma wpm_pin_members root j0 lo group before boot pids w :
  before = snapshot_from_table root (table_at kn j0) -> (lo <= moment w)%nat ->
  wpm (pin_members e kn group before boot pids) (fun r w' => grows no_signal w w' /\
    match r with Some fds => Forall (fun fd => member_pin root j0 lo group fd (moment w')) fds | None => True end) w.
Proof.
  intros -> Hj0. revert w Hj0. induction pids as [|pid rest IH]; intros w Hj0; cbn [pin_members].
  { apply wpm_ret. split; [apply grows_refl|constructor]. }
  destruct (original _ pid) as [i|] eqn:Eo; [|apply wpm_ret; split; [apply grows_refl|done]].
  apply original_in in Eo as [Hin Hpid]. apply wpm_bind, wpm_observe.
  destruct (process_id_of kn _ pid) as [owner|] eqn:Ew; [|apply wpm_ret; split; [apply grows_breathe|done]].
  assert (Epid : Operation.pid owner = pid).
  { unfold process_id_of in Ew. destruct (boot_at _ _); [|discriminate].
    destruct (row_at _ _ _) as [r| |]; try discriminate. destruct (ProcTable.identity r); [|discriminate].
    injection Ew as <-. done. }
  destruct (_ || _); [apply wpm_ret; split; [apply grows_breathe|done]|].
  set (w1 := breathe e w). apply wpm_bind. eapply wpm_mono; [apply (wpm_pin no_signal)|]. cbn beta. intros r w2 [G2 H2].
  assert (G : grows no_signal w w2) by (eapply grows_trans; [apply grows_breathe|exact G2]).
  destruct r as [[fd|]|]; try (apply wpm_ret; done).
  destruct H2 as (k1 & Hk & Hh). rewrite Epid in Hh. apply wpm_bind, wpm_observe.
  destruct (is_member group i _) eqn:Em; cbn [negb].
  2: { apply wpm_ret. split; [eapply grows_trans; [exact G|apply grows_breathe]|done]. }
  unfold is_member in Em. destruct (row_at kn _ pid) as [r| |] eqn:Er; try discriminate.
  apply andb_prop in Em as [Eg Ei]. apply Z.eqb_eq in Eg. apply bool_decide_eq_true_1 in Ei.
  set (w3 := breathe e w2). assert (G3 : grows no_signal w w3) by (eapply grows_trans; [exact G|apply grows_breathe]).
  apply wpm_bind. eapply wpm_mono; [apply IH; destruct G3 as [[? _] _]; lia|]. cbn beta. intros fds w4 [G4 H4]. apply wpm_ret.
  split; [exact (grows_trans _ _ _ _ G3 G4)|]. destruct fds as [fds|]; cbn [fmap option_fmap option_map]; [|done].
  constructor; [|exact H4]. exists i, k1, (moment w3), r. destruct G4 as [[M4 _] _]. subst w1 w3. cbn [moment breathe] in *.
  rewrite Hpid. repeat split; try done; lia.
Qed.

Section Escalation.
Context (w0 : Files.World) (nm : bytes) (m : SessionMetadata) (pid : Z) (j0 : nat) (before : list ProcessIdentity) (groups : list Z).

Lemma send_all_sound group fds signal w kd fd0 :
  snapshot_of w0 nm m pid j0 before groups w -> In group groups -> signal = SIGTERM \/ signal = SIGKILL ->
  In (Signalled nm fd0 SIGTERM kd) (done_ w) -> (S j0 < kd)%nat ->
  Forall (fun fd => member_pin pid j0 kd group fd (moment w)) fds ->
  wpm (send_all e kn nm fds signal) (fun _ => gains (sound w0 nm m pid) w) w.
Proof.
  intros So Hg Hs Hd Hkd. revert w So Hd. induction fds as [|fd rest IH]; intros w So Hd Hp; cbn [send_all].
  { apply wpm_ret, gains_refl. }
  inversion Hp as [|? ? Hfd Hrest]; subst. apply wpm_bind, wpm_send_pinned. intros r w1 Sn Em Ed.
  assert (Any : grows (fun _ => True) w w1) by (split; [exact Sn|]; eexists; split; [exact Ed|]; constructor; done).
  assert (So1 := snapshot_later _ _ _ _ _ _ _ _ _ _ Any So). assert (Hd1 := any_done _ _ _ _ Any Hd).
  assert (G1 : gains (sound w0 nm m pid) w w1).
  { split; [exact Sn|]. eexists. split; [exact Ed|]. constructor; [|constructor]. split; [done|]. intros [p' Hp'].
    destruct Hfd as (i & k1 & j & row & Hj & Hk & Hin & Hh & Hrow & Hi & Hgr).
    destruct (so_groups _ _ _ _ _ _ _ _ So group Hg) as (Ht & Ho & H1). rewrite <- Hgr in Ht, Ho, H1.
    eapply EntMember with (j := j) (j0 := j0); try eassumption; [apply So1|apply So1|apply So1|lia|lia|].
    apply (holder_kept k1 (S (moment w)) j (id_pid i) p'); [lia|exact Hh|exact Hp']. }
  apply gains_then; [apply _|exact G1|]. apply IH; [exact So1|exact Hd1|].
  eapply Forall_impl; [exact Hrest|]. intros fd' H. apply (member_pin_later _ _ _ _ _ (moment w)); [lia|exact H].
Qed.
Lemma signal_owned_group_sound signal g w : snapshot_of w0 nm m pid j0 before groups w -> In g groups -> signal = SIGTERM \/ signal = SIGKILL ->
  wpm (signal_owned_group e kn nm before signal g) (fun _ => gains (sound w0 nm m pid) w) w.
Proof.
  intros So Hg Hs. unfold signal_owned_group. apply wpm_bind, wpm_observe. unfold group_is_owned.
  apply wpm_bind, wpm_observe. set (w2 := breathe e (breathe e w)).
  assert (G2 : grows no_signal w w2) by (eapply grows_trans; apply grows_breathe).
  destruct (group_is_owned_with _ _ _ _); [|apply wpm_ret, quiet_sound, G2].
  unfold signal_pinned_members. apply wpm_bind, wpm_observe. set (w3 := breathe e w2).
  assert (G3 : grows no_signal w w3) by (eapply grows_trans; [exact G2|apply grows_breathe]).
  destruct (boot_at kn _) as [boot|]; [|apply wpm_ret, quiet_sound, G3].
  destruct (so_signal _ _ _ _ _ _ _ _ So) as (fd0 & kd & Hd & Hkd & Hk2).
  apply wpm_bind. eapply wpm_mono; [apply (wpm_pin_members pid j0 kd g); [apply So|destruct G3 as [[? _] _]; lia]|]. cbn beta.
  intros fds w4 [G4 H4]. assert (G := grows_trans _ _ _ _ G3 G4).
  destruct fds as [fds|]; [|apply wpm_ret, quiet_sound, G]. apply gains_then; [apply _|apply quiet_sound, G|].
  apply (send_all_sound g fds signal w4 kd fd0); try done; [exact (snapshot_later _ _ _ _ _ _ _ _ _ _ G So)|].
  exact (any_done _ _ _ _ G Hd).
Qed.
Lemma signal_groups_sound signal gs w : snapshot_of w0 nm m pid j0 before groups w -> (forall g, In g gs -> In g groups) -> signal = SIGTERM \/ signal = SIGKILL ->
  wpm (signal_groups e kn nm before signal gs) (fun _ => gains (sound w0 nm m pid) w) w.
Proof.
  revert w. induction gs as [|g gs IH]; intros w So Hin Hs; cbn [signal_groups]; [apply wpm_ret, gains_refl|].
  apply wpm_bind. eapply wpm_mono; [apply signal_owned_group_sound; [exact So|apply Hin; left; done|exact Hs]|].
  intros u w1 G1. apply gains_then; [apply _|exact G1|].
  apply IH; [exact (snapshot_later _ _ _ _ _ _ _ _ _ _ G1 So)|intros g' Hg'; apply Hin; right; exact Hg'|exact Hs].
Qed.
Lemma adds_wait_members fuel deadline targets remaining : adds no_signal (wait_members e kn fuel deadline targets remaining).
Proof.
  revert remaining. induction fuel as [|f IH]; intros remaining; cbn [wait_members];
    (destruct (negb (is_nonempty remaining)); [apply adds_ret|]); (apply adds_bind; [apply adds_observe|]); intros now;
    (destruct (negb (now <? deadline)); [apply adds_ret|]); [apply adds_ret|].
  apply adds_bind; [apply adds_observe|]. intros rem. apply IH.
Qed.
Lemma adds_wait_round fuel wait targets : adds no_signal (wait_round e kn fuel wait targets).
Proof.
  apply adds_bind; [apply adds_observe|]. intros started. apply adds_bind; [apply adds_observe|]. intros rem.
  apply adds_wait_members.
Qed.
Lemma escalate_sound fuel w : snapshot_of w0 nm m pid j0 before groups w ->
  wpm (escalate_over_groups e kn fuel nm groups before) (fun _ => gains (sound w0 nm m pid) w) w.
Proof.
  intros So. unfold escalate_over_groups. set (targets := List.filter _ groups).
  assert (Ht : forall g, In g targets -> In g groups) by (intros g H; apply List.filter_In in H; tauto).
  destruct (negb (is_nonempty targets)).
  { apply wpm_bind, wpm_observe. apply wpm_ret, gains_breathe. }
  apply wpm_bind. eapply wpm_mono; [apply signal_groups_sound; [exact So|exact Ht|auto]|]. intros u w1 G1.
  apply wpm_bind. eapply wpm_mono.
  { apply gains_then; [apply _|exact G1|]. exact (adds_sound w0 nm m pid _ w1 (adds_wait_round fuel ESCALATE_TERM_WAIT targets)). }
  intros remaining w2 G2. destruct remaining as [[|p ps]|]; [apply wpm_ret; exact G2| |apply wpm_ret; exact G2].
  apply wpm_bind. eapply wpm_mono.
  { apply gains_then; [apply _|exact G2|].
    apply signal_groups_sound; [exact (snapshot_later _ _ _ _ _ _ _ _ _ _ G2 So)|exact Ht|auto]. }
  intros u' w3 G3. apply gains_then; [apply _|exact G3|]. apply adds_sound, adds_wait_round.
Qed.
End Escalation.

Lemma groups_above_one rt t g : In g (groups_in_tree rt t) -> 1 < g.
Proof.
  unfold groups_in_tree. intros H. apply list_elem_of_In in H.
  rewrite sort_by_perm in H.
  assert (F : forall l acc, (forall x, x ∈ acc -> 1 < x) -> forall x, x ∈ foldl (add_group (pgid_of t rt) t) acc l -> 1 < x).
  { induction l as [|pd l IH]; intros acc Ha x Hx; [exact (Ha x Hx)|]. cbn [foldl] in Hx. revert x Hx. apply IH.
    intros x Hx. unfold add_group in Hx. destruct (pgid_of t pd.1) as [g'|]; [|auto].
    destruct (_ && _) eqn:B; [|auto]. apply elem_of_app in Hx as [Hx|Hx]; [auto|].
    apply list_elem_of_singleton in Hx. subst x. lia. }
  refine (F _ _ _ _ H). intros x Hx. apply not_elem_of_nil in Hx. done.
Qed.

Lemma finish_stop_sound w0 fuel nm pid m h groups before wp pf j0 w :
  snapshot_of w0 nm m pid j0 before groups w ->
  wpm (finish_stop e kn fuel nm pid m h groups before wp pf) (fun _ => gains (sound w0 nm m pid) w) w.
Proof.
  intros So. unfold finish_stop. apply wpm_bind.
  eapply wpm_mono; [apply (adds_cleanup_owned_socket e no_signal)|]. intros cleaned w1 G1.
  apply wpm_bind, wpm_observe. set (w2 := breathe e w1). assert (G2 := grows_trans _ _ _ _ G1 (grows_breathe e _ w1)).
  apply wpm_bind. apply wpm_mono with (fun _ => grows no_signal w).
  { destruct (all_gone _); [apply wpm_observe|apply wpm_ret; exact G2]. exact (grows_trans _ _ _ _ G2 (grows_breathe e _ w2)). }
  intros left w3 G3. apply wpm_bind. apply wpm_mono with (fun _ => gains (sound w0 nm m pid) w).
  - destruct (_ || _); [|apply wpm_ret, quiet_sound, G3]. apply wpm_bind. eapply wpm_mono.
    { apply gains_then; [apply _|apply quiet_sound, G3|].
      apply (escalate_sound w0 nm m pid j0); exact (snapshot_later _ _ _ _ _ _ _ _ _ _ G3 So). }
    intros escalated w4 G4. destruct escalated as [pids|]; [|apply wpm_ret; exact G4].
    apply wpm_bind, wpm_observe, wpm_ret. apply (gains_trans _ _ _ _ G4), gains_breathe.
  - intros r w4 G4. destruct r as [[after escalated]|]; apply wpm_ret; exact G4.
Qed.
Lemma stop_session_sound w0 fuel nm m pid w : (moment w0 <= moment w)%nat ->
  wpm (stop_session e s kn fuel nm m pid) (fun _ => gains (sound w0 nm m pid) w) w.
Proof.
  intros H0. unfold stop_session. apply wpm_bind. eapply wpm_mono; [apply (wpm_open_with no_signal)|]. cbn beta.
  intros handle w1 [G1 H1]. destruct handle as [h|err]; [|apply wpm_ret, quiet_sound, G1]. destruct H1 as [(k1 & Hk & Hh) Hx].
  apply wpm_bind.
  assert (U1 : wpm (if is_permanent_session m then update_tags e s nm [] [str "strategy"] else mret true)
                 (fun _ => grows no_signal w1) w1).
  { destruct (is_permanent_session m); [apply adds_quiet_update_tags|apply adds_ret]. }
  eapply wpm_mono; [exact U1|]. intros u w2 G2. assert (G02 := grows_trans _ _ _ _ G1 G2).
  apply wpm_bind. eapply wpm_mono; [apply wpm_handle_require|]. cbn beta. intros r1 w3 [-> Hid1].
  assert (G03 := grows_trans _ _ _ _ G02 (grows_breathe e _ w2)).
  destruct r1 as [u1|err]; [|apply wpm_ret, quiet_sound, G03]. apply wpm_bind, wpm_observe.
  set (w4 := breathe e (breathe e w2)). set (table := table_at kn _).
  assert (G04 := grows_trans _ _ _ _ G03 (grows_breathe e _ (breathe e w2))). fold w4 in G04.
  apply wpm_bind. eapply wpm_mono; [apply wpm_handle_require|]. cbn beta. intros r2 w5' [-> Hid].
  assert (G05 := grows_trans _ _ _ _ G04 (grows_breathe e _ w4)).
  destruct r2 as [u2|err]; [|apply wpm_ret, quiet_sound, G05].
  set (w5 := breathe e w4) in *.
  assert (M5 : (moment w1 <= moment w5)%nat) by (destruct G2 as [[? _] _]; subst w5 w4; cbn [moment breathe]; lia).
  assert (M0 : (moment w <= moment w1)%nat) by (destruct G1 as [[? _] _]; lia).
  apply wpm_bind. eapply wpm_mono.
  { apply (handle_signal_sound w0); [lia|exact Hx|]. exists k1. split; [lia|exact Hh]. }
  intros sent w6 [G6 Hd]. assert (G06 := gains_trans _ _ _ _ (quiet_sound w0 nm m pid _ _ G05) G6).
  destruct sent as [u3|err]; [|apply wpm_ret; exact G06].
  apply wpm_bind, wpm_observe. set (w7 := breathe e w6). assert (G07 := gains_trans _ _ _ _ G06 (gains_breathe e _ w6)).
  destruct (negb (pidfd_readable kn _ _)).
  { apply wpm_bind, wpm_observe, wpm_ret. apply (gains_trans _ _ _ _ G07), gains_breathe. }
  apply gains_then; [apply _|exact G07|]. apply (finish_stop_sound w0 fuel nm pid m h _ _ _ _ (moment w4)). split.
  - done.
  - intros g Hin. apply List.filter_In in Hin as [Hin Ho]. apply negb_true_iff, Z.eqb_neq in Ho.
    split; [exact Hin|]. split; [exact Ho|exact (groups_above_one _ _ _ Hin)].
  - subst w4. cbn [moment breathe pred]. destruct G02 as [[? _] _]. lia.
  - rewrite Hx in Hid1. exists (disk (breathe e w2)), (h_identity h). split; [|exact Hid1].
    assert (G27 : gains (sound w0 nm m pid) (breathe e w2) w7).
    { apply (gains_trans _ _ _ _ (gains_breathe e _ (breathe e w2))), (gains_trans _ _ _ _ (gains_breathe e _ w4)).
      exact (gains_trans _ _ _ _ G6 (gains_breathe e _ w6)). }
    apply (gains_disk (sound w0 nm m pid) (breathe e w2) _ _ _ G27), disk_at_breathe.
  - rewrite Hx in Hid. exists (disk w5), (h_identity h). split; [|exact Hid].
    apply (gains_disk (sound w0 nm m pid) w5); [|apply disk_at_breathe].
    exact (gains_trans _ _ _ _ G6 (gains_breathe e _ w6)).
  - destruct Hd as (kd & Hkd & Hd). exists (h_fd h), kd. split; [exact Hd|]. subst w7 w5. cbn [moment breathe] in *. lia.
Qed.

(** C3: Stopping a session signals exact processes only, in its own name.  The record and the
    pid are those the stop finds first under that name, for the generation the caller
    expects.  Whatever pids were reused meanwhile, a process that still exists when a signal
    is sent to it either holds that pid, after it had been pinned, at a moment when the
    identity check accepts it as the record's daemon; or it was in the tree below that pid,
    read during this stop between two such checks and before the daemon was signalled, and
    is found after that with the same start identity in a group of that tree which is not
    the caller's own. *)
Theorem stop_signals_exact fuel nm expected w :
  wpm (stop e s kn fuel nm expected) (fun _ w' => exists new, done_ w' = done_ w ++ new /\
    forall target fd signal k, In (Signalled target fd signal k) new ->
      exists m pid, asked_for e s expected nm w m pid /\ target = nm
        /\ (exists_at k fd -> entitled w w' nm m pid fd k signal)) w.
Proof.
  apply stop_begins.
  - intros err w' [_ (new & E & F)]. exists new. split; [exact E|]. intros target fd signal k Hin.
    rewrite List.Forall_forall in F. destruct (F _ Hin).
  - intros m pid w1 Asked G1. eapply wpm_mono; [apply (stop_session_sound w); destruct G1 as [[? _] _]; lia|].
    intros r w' G. assert (G' : gains (sound w nm m pid) w w').
    { apply (gains_trans _ w w1); [|exact G]. eapply gains_grows; [|exact G1]. done. }
    destruct G' as [_ (new & E & F)]. exists new. split; [exact E|]. intros target fd signal k Hin.
    rewrite List.Forall_forall in F. destruct (F _ Hin) as [-> Ent]. exists m, pid. done.
Qed.
End Exact.

(** ** What a finished stop says *)

Section Verified.
Context (e : Env) (s : Scans) (kn : Kernel) `{U : Unicode} `{HO : HashOrder}.
Implicit Types (w : Files.World).

(** The table shows the process exited, absent, or replaced at its pid. *)
Definition gone_in (t : ProcTable) (i : ProcessIdentity) : Prop :=
  table_exited t (id_pid i) = true
  \/ exists found, known (table_identity t (id_pid i)) = Some found /\ found <> id_identity i.

Lemma wpm_true {A} (m : M A) w : wpm m (fun _ _ => True) w.
Proof. done. Qed.
Lemma adds_send_pinned nm fd signal : adds (fun _ => True) (send_pinned e kn nm fd signal).
Proof.
  apply adds_bind; [apply adds_observe|]. intros r. apply adds_bind; [apply adds_act; done|]. intros u. apply adds_ret.
Qed.
Lemma adds_handle_signal h nm pid m : adds (fun _ => True) (handle_signal e kn h nm pid m).
Proof.
  apply adds_bind.
  { apply adds_bind; [apply adds_observe|]. intros r. apply adds_ret. }
  intros r. destruct r; [|apply adds_ret]. apply adds_bind; [apply adds_send_pinned|]. intros sent. apply adds_ret.
Qed.
Lemma adds_pin id boot : adds (fun _ => True) (pin e kn id boot).
Proof.
  unfold pin. apply adds_bind; [apply adds_bind; [apply adds_observe|intros r; apply adds_ret]|].
  intros [[fd|]|err]; try apply adds_ret. apply adds_bind; [apply adds_observe|]. intros alive. apply adds_ret.
Qed.
Lemma adds_pin_members group before boot pids : adds (fun _ => True) (pin_members e kn group before boot pids).
Proof.
  induction pids as [|pid rest IH]; cbn [pin_members]; [apply adds_ret|].
  destruct (original before pid); [|apply adds_ret]. apply adds_bind; [apply adds_observe|]. intros owner.
  destruct owner; [|apply adds_ret]. destruct (_ || _); [apply adds_ret|].
  apply adds_bind; [apply adds_pin|]. intros [[fd|]|err]; try apply adds_ret.
  apply adds_bind; [apply adds_observe|]. intros same. destruct (negb same); [apply adds_ret|].
  apply adds_bind; [exact IH|]. intros others. apply adds_ret.
Qed.
Lemma adds_send_all nm fds signal : adds (fun _ => True) (send_all e kn nm fds signal).
Proof. induction fds; cbn [send_all]; [apply adds_ret|]. apply adds_bind; [apply adds_send_pinned|auto]. Qed.
Lemma adds_signal_groups nm before signal gs : adds (fun _ => True) (signal_groups e kn nm before signal gs).
Proof.
  induction gs as [|g gs IH]; cbn [signal_groups]; [apply adds_ret|]. apply adds_bind; [|auto].
  apply adds_bind; [apply adds_observe|]. intros t. apply adds_bind; [apply adds_observe|]. intros owned.
  destruct owned; [|apply adds_ret]. apply adds_bind; [apply adds_observe|]. intros boot.
  destruct boot; [|apply adds_ret]. apply adds_bind; [apply adds_pin_members|]. intros fds.
  destruct fds; [|apply adds_ret]. apply adds_send_all.
Qed.
Lemma adds_escalate fuel nm groups before : adds (fun _ => True) (escalate_over_groups e kn fuel nm groups before).
Proof.
  unfold escalate_over_groups. destruct (negb _); [apply adds_bind; [apply adds_observe|intros; apply adds_ret]|].
  assert (W : forall wait targets, adds (fun _ => True) (wait_round e kn fuel wait targets)).
  { intros wait targets. eapply adds_weaken; [|apply adds_wait_round]. done. }
  apply adds_bind; [apply adds_signal_groups|]. intros u. apply adds_bind; [apply W|].
  intros [[|p ps]|]; try apply adds_ret. apply adds_bind; [apply adds_signal_groups|]. intros u'. apply W.
Qed.
Lemma nonempty_snoc {A} (l : list A) x : is_nonempty (l ++ [x]) = true.
Proof. destruct l; done. Qed.
Lemma all_gone_aftermath before t : all_gone (aftermath_in before t) = true -> Forall (gone_in t) before.
Proof.
  unfold aftermath_in, aftermath_with. induction before as [|i before IH] using rev_ind; [constructor|].
  rewrite foldl_app. cbn [foldl]. set (out := foldl _ _ before) in *. intros H.
  destruct (table_exited t (id_pid i)) eqn:Ex.
  { apply Forall_app. split; [auto|]. repeat constructor. exact Ex. }
  destruct (known (table_identity t (id_pid i))) as [found|] eqn:Ek.
  - destruct (beq found (id_identity i)) eqn:Eb.
    + unfold all_gone in H. cbn in H. rewrite nonempty_snoc in H. discriminate.
    + apply Forall_app. split; [auto|]. constructor; [|constructor]. right. exists found. split; [done|].
      intros ->. rewrite beq_refl in Eb. discriminate.
  - unfold all_gone in H. cbn in H. rewrite nonempty_snoc, andb_false_r in H. discriminate.
Qed.

Lemma wpm_opened nm pid m explicit w :
  wpm (open_with e kn nm pid m explicit) (fun r w' => grows (fun _ => True) w w' /\
    match r with Ok h => h_explicit h = explicit | Err _ => True end) w.
Proof.
  assert (G := grows_breathe e (fun _ => True)). apply wpm_bind, wpm_observe.
  destruct (identity_now _ _ _ _ _ _ _) as [found|err]; [|apply wpm_ret; done].
  apply wpm_bind, wpm_observe. assert (G2 := grows_trans _ _ _ _ (G w) (G (breathe e w))).
  destruct (process_id_of _ _ _) as [owner|]; [|apply wpm_ret; done].
  apply wpm_bind. eapply wpm_mono; [apply adds_pin|]. intros r w3 G3. assert (G4 := grows_trans _ _ _ _ G2 G3).
  destruct r as [[fd|]|]; try (apply wpm_ret; done). apply wpm_bind. eapply wpm_mono; [apply wpm_handle_require|]. cbn beta.
  intros r w4 [-> _]. apply wpm_ret. split; [exact (grows_trans _ _ _ _ G4 (G w3))|]. destruct r; done.
Qed.
Lemma wpm_sent h nm pid m w :
  wpm (handle_signal e kn h nm pid m) (fun r w' => grows (fun _ => True) w w' /\
    match r with Ok _ => exists kd, (moment w < kd <= moment w')%nat /\ In (Signalled nm (h_fd h) SIGTERM kd) (done_ w')
               | Err _ => True end) w.
Proof.
  apply wpm_bind. eapply wpm_mono; [apply wpm_handle_require|]. cbn beta.
  intros [u|err] w1 [-> _]; [|apply wpm_ret; split; [apply grows_breathe|done]].
  apply wpm_bind. apply wpm_send_pinned. intros sent w2 Sn Em Ed. apply wpm_ret. split.
  - split; [exact (since_trans _ _ _ (since_breathe e w) Sn)|]. eexists. split; [rewrite Ed; reflexivity|]. constructor; done.
  - destruct sent; [|done]. exists (S (S (moment w))). rewrite Em, Ed. split; [cbn; lia|]. apply in_or_app. right. left. done.
Qed.
(** The members of the groups at a moment after [lo] that has passed. *)
Definition read_members (lo : nat) (groups : list Z) (pids : list Z) w : Prop :=
  exists j, (lo < j <= moment w)%nat /\ pids = members_of_groups groups (table_at kn j).
Lemma read_members_later lo groups pids w w' : (moment w <= moment w')%nat -> read_members lo groups pids w -> read_members lo groups pids w'.
Proof. intros M (j & Hj & E). exists j. split; [lia|exact E]. Qed.
Lemma wait_members_read lo fuel deadline targets remaining w : read_members lo targets remaining w ->
  wpm (wait_members e kn fuel deadline targets remaining)
    (fun r w' => match r with Some pids => read_members lo targets pids w' | None => True end) w.
Proof.
  revert remaining w. induction fuel as [|f IH]; intros remaining w R; cbn [wait_members];
    (destruct remaining as [|p ps]; cbn [is_nonempty negb]; [apply wpm_ret; exact R|]); apply wpm_bind, wpm_observe;
    (assert (R1 := read_members_later lo targets _ w (breathe e w) (Nat.le_succ_diag_r _) R));
    (destruct (negb _); [apply wpm_ret; exact R1|]); [apply wpm_ret; done|].
  apply wpm_bind, wpm_observe, IH. exists (moment (breathe e (breathe e w))).
  destruct R as (j & Hj & _). cbn [moment breathe]. split; [lia|done].
Qed.
Lemma wait_round_read lo fuel wait targets w : (lo <= moment w)%nat ->
  wpm (wait_round e kn fuel wait targets) (fun r w' => match r with Some pids => read_members lo targets pids w' | None => True end) w.
Proof.
  intros Hlo. apply wpm_bind, wpm_observe, wpm_bind, wpm_observe, wait_members_read.
  exists (moment (breathe e (breathe e w))). cbn [moment breathe]. split; [lia|done].
Qed.
Lemma escalate_read lo fuel nm groups before w :
  (lo <= moment w)%nat -> (forall g, In g groups -> g <> own_group kn /\ 1 < g) ->
  wpm (escalate_over_groups e kn fuel nm groups before)
    (fun r w' => match r with Some pids => read_members lo groups pids w' | None => True end) w.
Proof.
  intros Hlo Hg. unfold escalate_over_groups.
  replace (List.filter _ groups) with groups.
  2: { symmetry. apply forallb_filter_id, forallb_forall. intros g Hin. destruct (Hg g Hin) as [H1 H2].
       apply andb_true_intro. split; [lia|]. apply negb_true_iff, Z.eqb_neq, H1. }
  destruct (negb (is_nonempty groups)).
  { apply wpm_bind, wpm_observe, wpm_ret. exists (moment (breathe e w)). cbn [moment breathe]. split; [lia|done]. }
  apply wpm_bind. eapply wpm_mono; [apply adds_signal_groups|]. intros u w1 [[M1 _] _].
  apply wpm_bind. eapply wpm_mono; [apply (wait_round_read lo); lia|]. intros [[|p ps]|] w2 R2; try (apply wpm_ret; done).
  apply wpm_bind. eapply wpm_mono; [apply adds_signal_groups|]. intros u' w3 [[M3 _] _].
  apply wait_round_read. destruct R2 as (j & Hj & _). lia.
Qed.

(** The daemon's tree and its groups other than the caller's, as the table shows them. *)
Definition tree_at (pid : Z) (j : nat) : list ProcessIdentity := snapshot_from_table pid (table_at kn j).
Definition groups_at (pid : Z) (j : nat) : list Z :=
  List.filter (fun g => negb (g =? own_group kn)) (groups_in_tree pid (table_at kn j)).
(** What a stop begun in [w0] reports and has seen, in this order: the tree at [j0],
    between two checks that accept the pid; the signal at [kd]; the exit of the signalled
    process at [kx]; the tree's processes again at [j1], and its groups.  *)
Definition reported w0 w nm m pid (st : Stopped) : Prop :=
  exists j0 fd kd kx j1,
    (moment w0 < pred j0)%nat /\ accepted e w nm m pid (pred j0) /\ accepted e w nm m pid (S j0)
    /\ (S j0 < kd)%nat /\ In (Signalled nm fd SIGTERM kd) (done_ w)
    /\ (kd < kx)%nat /\ pidfd_readable kn kx fd = true
    /\ (kx < j1 <= moment w)%nat /\ st_name st = nm /\ st_aftermath st = aftermath_in (tree_at pid j0) (table_at kn j1)
    /\ match st_escalated st with
       | Some pids => read_members kx (groups_at pid j0) pids w
       | None => read_members kx (groups_at pid j0) [] w
       end.

Lemma finish_stop_read fuel nm pid m h groups before wp pf w :
  (forall g, In g groups -> g <> own_group kn /\ 1 < g) ->
  wpm (finish_stop e kn fuel nm pid m h groups before wp pf)
    (fun r w' => since w w' /\ match r with
       | Some (Ok st) => incl (done_ w) (done_ w') /\ st_name st = nm /\ exists j1, (moment w < j1 <= moment w')%nat
           /\ st_aftermath st = aftermath_in before (table_at kn j1)
           /\ match st_escalated st with
              | Some pids => read_members (moment w) groups pids w'
              | None => read_members (moment w) groups [] w'
              end
       | _ => True
       end) w.
Proof.
  intros Hg. unfold finish_stop. apply wpm_bind.
  eapply wpm_mono; [apply (adds_cleanup_owned_socket e (fun _ => True))|]. intros cleaned w1 G1.
  apply wpm_bind, wpm_observe. set (w2 := breathe e w1). set (after := aftermath_in before _).
  assert (G2 := grows_trans _ _ _ _ G1 (grows_breathe e _ w1)). fold w2 in G2.
  assert (K2 : (moment w < moment w2)%nat) by (destruct G1 as [[? _] _]; subst w2; cbn [moment breathe]; lia).
  apply wpm_bind. apply wpm_mono with (fun left w3 => grows (fun _ => True) w2 w3
      /\ (all_gone after = true -> read_members (moment w) groups left w3)).
  { destruct (all_gone after); [|apply wpm_ret; split; [apply grows_refl|discriminate]].
    apply wpm_observe. split; [apply grows_breathe|]. intros _. exists (moment (breathe e w2)). cbn [moment breathe].
    split; [lia|done]. }
  intros left w3 [G3 L3]. assert (G13 := grows_trans _ _ _ _ G2 G3). apply wpm_bind.
  assert (Go : forall w', grows (fun _ => True) w w' -> incl (done_ w) (done_ w')).
  { intros w' G a. exact (any_done _ _ _ _ G). }
  apply wpm_mono with (fun r w' => grows (fun _ => True) w w' /\ match r with
     | Some (after, escalated) => exists j1, (moment w < j1 <= moment w')%nat /\ after = aftermath_in before (table_at kn j1)
         /\ match escalated with
            | Some pids => read_members (moment w) groups pids w'
            | None => read_members (moment w) groups [] w'
            end
     | None => True end).
  2: { intros r w' [G H]. destruct r as [[after' escalated]|]; apply wpm_ret; (split; [apply G|]); [|done].
       destruct (negb cleaned); [done|]. split; [exact (Go _ G)|]. split; [done|exact H]. }
  destruct (negb (all_gone after) || is_nonempty left) eqn:B.
  - apply wpm_bind. apply wpm_mono with (fun r w4 => grows (fun _ => True) w w4
      /\ match r with Some pids => read_members (moment w) groups pids w4 | None => True end).
    { unfold wpm. split; [exact (grows_trans _ _ _ _ G13 (adds_escalate fuel nm groups before w3))|].
      apply (escalate_read (moment w) fuel nm groups before w3); [destruct G13 as [[? _] _]; lia|exact Hg]. }
    intros [pids|] w4 [G4 R4]; [|apply wpm_ret; done]. apply wpm_bind, wpm_observe, wpm_ret.
    assert (G5 := grows_trans _ _ _ _ G4 (grows_breathe e _ w4)). split; [exact G5|].
    exists (moment (breathe e w4)). destruct G4 as [[? _] _]. cbn [moment breathe]. split; [lia|]. split; [done|].
    apply (read_members_later _ _ _ w4); [cbn; lia|exact R4].
  - apply wpm_ret. split; [exact G13|]. apply orb_false_iff in B as [A B]. apply negb_false_iff in A.
    exists (moment w2). destruct G3 as [[? _] _]. split; [lia|]. split; [done|].
    destruct left; [exact (L3 A)|discriminate B].
Qed.

(** C4: A stop reports what it has seen.  It asks about the record and the pid it finds first
    under that name; after the check that accepts the pid it reads the daemon's tree,
    checks again, signals the daemon and sees that very process exit on its pidfd; what it
    reports of the tree is a reading of the process table after that, and what it reports
    of the tree's groups is a reading after that too.  When it reports that nothing is
    left, that reading shows every process of the tree exited, absent or replaced by
    another at its pid, and the groups empty. *)
Theorem stop_verified fuel nm expected w :
  wpm (stop e s kn fuel nm expected) (fun r w' => match r with
    | Some (Ok st) => exists m pid, asked_for e s expected nm w m pid /\ reported w w' nm m pid st
        /\ (verified_empty st = true -> exists j0 j1 j2, (moment w < j0 < j1)%nat /\ (j0 < j2)%nat
             /\ Forall (gone_in (table_at kn j1)) (tree_at pid j0)
             /\ members_of_groups (groups_at pid j0) (table_at kn j2) = [])
    | _ => True end) w.
Proof.
  apply stop_begins; [done|]. intros m pid w0 Asked G0.
  apply wpm_mono with (fun r w' => match r with Some (Ok st) => reported w w' nm m pid st | _ => True end).
  2: { intros [[st|err]|] w' R; [|done..]. exists m, pid. split; [exact Asked|]. split; [exact R|]. intros V.
       destruct R as (j0 & fd & kd & kx & j1 & H0 & _ & _ & Hkd & _ & Hkx & _ & Hj1 & _ & A & Gr).
       unfold verified_empty, verified_empty_of in V. apply andb_prop in V as [V E]. rewrite A in V.
       assert (R : read_members kx (groups_at pid j0) [] w').
       { destruct (st_escalated st) as [[|p ps]|]; [exact Gr|discriminate E|exact Gr]. }
       destruct R as (j2 & Hj2 & R). exists j0, j1, j2. split; [lia|]. split; [lia|].
       split; [exact (all_gone_aftermath _ _ V)|symmetry; exact R]. }
  unfold stop_session. apply wpm_bind. eapply wpm_mono; [apply wpm_opened|]. cbn beta.
  intros [h|err] w1 [G1 Hx]; [|apply wpm_ret; done]. apply wpm_bind.
  apply wpm_mono with (fun _ => grows (fun _ => True) w1).
  { destruct (is_permanent_session m); [apply adds_update_tags; done|apply adds_ret]. }
  intros u w2 G2. apply wpm_bind. eapply wpm_mono; [apply wpm_handle_require|]. cbn beta. intros r1 w3 [-> Hid1].
  destruct r1 as [u1|err]; [|apply wpm_ret; done]. apply wpm_bind, wpm_observe.
  set (w4 := breathe e (breathe e w2)). apply wpm_bind. eapply wpm_mono; [apply wpm_handle_require|].
  cbn beta. intros r2 w5' [-> Hid]. destruct r2 as [u2|err]; [|apply wpm_ret; done]. set (w5 := breathe e w4) in *.
  apply wpm_bind. eapply wpm_mono; [apply wpm_sent|]. cbn beta. intros sent w6 [G6 Hd].
  destruct sent as [u3|err]; [|apply wpm_ret; done]. apply wpm_bind, wpm_observe. set (w7 := breathe e w6).
  destruct (pidfd_readable kn _ _) eqn:Rd; cbn [negb].
  2: { apply wpm_bind, wpm_observe. apply wpm_ret. done. }
  eapply wpm_mono; [apply finish_stop_read|].
  { intros g Hin. apply List.filter_In in Hin as [Hin Ho]. apply negb_true_iff, Z.eqb_neq in Ho.
    split; [exact Ho|exact (groups_above_one _ _ _ Hin)]. }
  intros [[st|err]|] w8 [Sn H]; [|done..]. destruct H as (Inc & Hn & j1 & Hj1 & A & R). destruct Hd as (kd & Hkd & Hd).
  exists (moment w4), (h_fd h), kd, (moment w7), j1.
  assert (K4 : (moment w < pred (moment w4))%nat).
  { destruct G0 as [[? _] _], G1 as [[? _] _], G2 as [[? _] _]. subst w4. cbn [moment breathe pred]. lia. }
  split; [exact K4|]. split.
  { rewrite Hx in Hid1. exists (disk (breathe e w2)), (h_identity h). split; [|exact Hid1].
    apply (disk_at_since w7 _ _ _ Sn). apply (any_disk (fun _ => True) (breathe e w2)); [|apply disk_at_breathe].
    apply (grows_trans _ _ _ _ (grows_breathe e _ (breathe e w2))), (grows_trans _ _ _ _ (grows_breathe e _ w4)).
    exact (grows_trans _ _ _ _ G6 (grows_breathe e _ w6)). }
  split.
  { rewrite Hx in Hid. exists (disk w5), (h_identity h). split; [|exact Hid].
    apply (disk_at_since w7 _ _ _ Sn). apply (any_disk (fun _ => True) w5); [|apply disk_at_breathe].
    exact (grows_trans _ _ _ _ G6 (grows_breathe e _ w6)). }
  subst w7 w5. cbn [moment breathe] in *. split; [lia|]. split; [exact (Inc _ Hd)|]. split; [lia|]. split; [exact Rd|].
  split; [exact Hj1|]. split; [exact Hn|]. split; [exact A|exact R].
Qed.

(** *** A stop comes to an end *)

Lemma wait_members_ends (tick : forall k, clock kn k < clock kn (S k)) fuel deadline targets remaining w :
  deadline - clock kn (moment w) <= Z.of_nat fuel ->
  wpm (wait_members e kn fuel deadline targets remaining) (fun r _ => r <> None) w.
Proof.
  revert remaining w. induction fuel as [|f IH]; intros remaining w Hd; cbn [wait_members];
    (destruct (negb (is_nonempty remaining)); [apply wpm_ret; done|]); apply wpm_bind, wpm_observe;
    cbn [moment breathe]; pose proof (tick (moment w)) as T1; destruct (clock kn (S (moment w)) <? deadline) eqn:E;
    cbn [negb]; try (apply wpm_ret; done); [lia|].
  apply wpm_bind, wpm_observe. apply IH. cbn [moment breathe]. pose proof (tick (S (moment w))). lia.
Qed.
Lemma wait_round_ends (tick : forall k, clock kn k < clock kn (S k)) fuel wait targets w :
  0 <= wait <= Z.of_nat fuel -> wpm (wait_round e kn fuel wait targets) (fun r _ => r <> None) w.
Proof.
  intros Hw. apply wpm_bind, wpm_observe, wpm_bind, wpm_observe. apply wait_members_ends; [exact tick|].
  cbn [moment breathe]. pose proof (tick (S (moment w))). lia.
Qed.

(** C5: Its waits have deadlines: on a clock that advances between two readings, two
    thousand rounds are enough for [stop] to answer, whatever the processes do. *)
Theorem stop_answers fuel nm expected w :
  (forall k, clock kn k < clock kn (S k)) -> 2000 <= Z.of_nat fuel ->
  wpm (stop e s kn fuel nm expected) (fun r _ => r <> None) w.
Proof.
  intros tick Hf. apply stop_begins; [done|]. intros m pid w0 _ _.
  unfold stop_session. apply wpm_bind. eapply wpm_mono; [apply wpm_true|]. intros handle w1 _.
  destruct handle as [h|err]; [|apply wpm_ret; done].
  apply wpm_bind. eapply wpm_mono; [apply wpm_true|]. intros u w2 _.
  apply wpm_bind. eapply wpm_mono; [apply wpm_true|]. intros r1 w3 _.
  destruct r1 as [u1|err]; [|apply wpm_ret; done]. apply wpm_bind, wpm_observe.
  apply wpm_bind. eapply wpm_mono; [apply wpm_true|]. intros r2 w5 _. destruct r2 as [u2|err]; [|apply wpm_ret; done].
  apply wpm_bind. eapply wpm_mono; [apply wpm_true|]. intros sent w6 _.
  destruct sent as [u3|err]; [|apply wpm_ret; done]. apply wpm_bind, wpm_observe.
  destruct (negb _); [apply wpm_bind, wpm_observe; apply wpm_ret; done|].
  unfold finish_stop. apply wpm_bind. eapply wpm_mono; [apply wpm_true|]. intros cleaned w7 _.
  apply wpm_bind, wpm_observe. apply wpm_bind. eapply wpm_mono; [apply wpm_true|]. intros left w8 _.
  apply wpm_bind. apply wpm_mono with (fun r _ => r <> None).
  2: { intros r w9 Hr. destruct r as [[after escalated]|]; apply wpm_ret; done. }
  destruct (_ || _); [|apply wpm_ret; done]. apply wpm_bind.
  apply wpm_mono with (fun r _ => r <> None).
  2: { intros r w9 Hr. destruct r; [|done]. apply wpm_bind, wpm_observe. apply wpm_ret. done. }
  unfold escalate_over_groups. set (targets := List.filter _ _).
  destruct (negb (is_nonempty targets)); [apply wpm_bind, wpm_observe; apply wpm_ret; done|].
  apply wpm_bind. eapply wpm_mono; [apply wpm_true|]. intros v w9 _. apply wpm_bind.
  eapply wpm_mono; [apply wait_round_ends; [exact tick|unfold ESCALATE_TERM_WAIT; lia]|].
  intros remaining w10 Hr. destruct remaining as [[|p ps]|]; [apply wpm_ret; done| |done].
  apply wpm_bind. eapply wpm_mono; [apply wpm_true|]. intros v' w11 _.
  apply wait_round_ends; [exact tick|unfold ESCALATE_KILL_WAIT; lia].
Qed.
End Verified.

(** ** A daemon that goes on SIGTERM *)

Definition demo_scans : Scans := {|
  print := demo_print; cache_reads_at := fun _ => demo_reads; probe_budget := 0; probe_at := fun _ => demo_probe
|}.
Definition demo_row (pid ppid : Z) (token : string) : Row := mkRow pid ppid 4242 (str "S") None None (Some (str token)).
(** Process 4242 and its child 4243 end at moment [gone]. *)
Definition demo_kernel (gone : nat) : Kernel := {|
  row_at := fun k pid => if (pid =? 4242) && (k <? gone)%nat then Known (demo_row 4242 1 "linux:8811") else NotPresent;
  table_at := fun k => if (k <? gone)%nat
                       then from_rows [demo_row 4242 1 "linux:8811"; demo_row 4243 4242 "linux:8820"]
                       else from_rows [];
  boot_at := fun _ => Some (str "linux:boot-a");
  my_uid := 1000;
  own_group := 1;
  clock := fun k => Z.of_nat k;
  pidfd_open := fun _ pid => if pid =? 4242 then Ok 7%nat else Err (Some ESRCH);
  pidfd_send := fun _ _ _ => Ok tt;
  pidfd_readable := fun k _ => (gone <=? k)%nat
|}.
#[export] Instance demo_incarnations gone : Incarnations (demo_kernel gone).
Proof.
  refine {| holder := fun _ pid => if pid =? 4242 then Some 7%nat else None |}.
  - intros k pid i H. cbn in H. destruct (pid =? 4242); [congruence|discriminate].
  - intros k1 k2 j pid pid' i _ H _. exact H.
Defined.
Definition demo_stop (gone : nat) :=
  @stop (demo_env "8811" []) demo_scans (demo_kernel gone) key_order 2000 (str "a") None demo_world.

Example demo_stopped :
  match fst (demo_stop 11) with
  | Some (Ok st) => verified_empty st = true /\ st_escalated st = None /\ st_identity st = ControlMatch
  | _ => False
  end.
Proof. vm_compute. auto. Qed.
Example demo_one_signal :
  omap (fun a => match a with Signalled _ fd signal _ => Some (fd, signal) | _ => None end)
    (done_ (snd (demo_stop 11))) = [(7%nat, SIGTERM)].
Proof. vm_compute. reflexivity. Qed.
Example demo_stubborn :
  match fst (demo_stop 100) with Some (Err (DaemonStillRunning pid _)) => pid = 4242 | _ => False end.
Proof. vm_compute. reflexivity. Qed.

Lemma stop_signals_exact_witness :
  exists new, done_ (snd (demo_stop 11)) = done_ demo_world ++ new /\ new <> [].
Proof.
  destruct (@stop_signals_exact (demo_env "8811" []) demo_scans (demo_kernel 11) (demo_incarnations 11)
              key_order 2000 (str "a") None demo_world) as (new & E & _).
  exists new. split; [exact E|]. intros ->. revert E. vm_compute. discriminate.
Defined.
Lemma stop_verified_witness :
  exists st, fst (demo_stop 11) = Some (Ok st) /\ exists j0 j1, (j0 < j1)%nat
    /\ Forall (gone_in (table_at (demo_kernel 11) j1)) (tree_at (demo_kernel 11) 4242 j0).
Proof.
  pose proof (@stop_verified (demo_env "8811" []) demo_scans (demo_kernel 11) key_order 2000 (str "a")
                None demo_world) as H.
  revert H. unfold wpm. fold (demo_stop 11).
  destruct (fst (demo_stop 11)) as [[st|err]|] eqn:E; intros H.
  - exists st. split; [reflexivity|]. destruct H as (m & pid & Asked & _ & V).
    assert (P : pid = 4242).
    { destruct Asked as [(i & Ei & _ & _ & Ep) _]. vm_compute in Ei. injection Ei as <-. vm_compute in Ep.
      injection Ep as <-. reflexivity. }
    subst pid. destruct V as (j0 & j1 & j2 & Hj & _ & F & _).
    + pose proof demo_stopped as D. rewrite E in D. apply D.
    + exists j0, j1. split; [lia|exact F].
  - exfalso. pose proof demo_stopped as D. rewrite E in D. exact D.
  - exfalso. pose proof demo_stopped as D. rewrite E in D. exact D.
Defined.
Lemma stop_answers_witness : fst (demo_stop 11) <> None.
Proof.
  apply (@stop_answers (demo_env "8811" []) demo_scans (demo_kernel 11) key_order 2000 (str "a") None demo_world).
  - intros k. cbn. lia.
  - lia.
Defined.
