(* ===== verification/Launch.v ===== *)
(** Launching a session daemon: its configuration ([crates/pty-lifecycle/src/config.rs]),
    the parameters of a launch and the wait for the daemon to publish ([launch.rs]), and
    the startup lease it arms ([startup.rs]).

    The configuration goes to the daemon as a JSON text on an inherited descriptor.  The
    launch itself is a program of [Files.v]; what fork, exec and the pipes answer is an
    environment. *)
From S2P Require Import Prelude Json Metadata Time Names Text Order Events ProcessTree Identity MetadataCache Inventory Files.

(** ** The startup lease *)

Record StartupLeaseOptions : Type := mkLeaseOptions {
  l_timeout_ms : option Z;
  l_lifecycle_tag : bytes
}.
Record ArmedStartupLease : Type := mkArmed {
  al_generation : bytes;
  al_lifecycle_tag : bytes;
  al_boot_id : bytes;
  al_deadline_monotonic_ns : option Z;
  al_starting_value : bytes
}.
Definition MAX_SAFE_INTEGER : Z := 9007199254740991.
Definition arm_startup_lease (print : Value -> bytes) (boot_identity : option bytes) (monotonic_now : option Z)
  (o : StartupLeaseOptions) (gen : bytes) : Result ArmedStartupLease bytes :=
  let bad := match l_timeout_ms o with Some t => (t =? 0) || (MAX_SAFE_INTEGER <? t) | None => false end in
  if bad then Err (str "startup lease timeoutMs must be a positive safe integer")
  else if negb (is_nonempty (l_lifecycle_tag o)) then Err (str "startup lease lifecycleTag must not be empty")
  else match filled boot_identity with
  | None => Err (str "startup lease boot identity is unavailable")
  | Some boot_id =>
      try deadline := (match l_timeout_ms o with
                       | None => Ok None
                       | Some t => match monotonic_now with
                                   | Some now => Ok (Some (now + t * 1000000))
                                   | None => Err (str "startup lease monotonic clock is unavailable")
                                   end
                       end) in
      let starting := [(str "_tag", VStr (str "starting")); (str "generation", VStr gen); (str "bootId", VStr boot_id)]
                      ++ match deadline with
                         | Some d => [(str "deadlineMonotonicNs", VStr (dec d))]
                         | None => []
                         end in
      Ok (mkArmed gen (l_lifecycle_tag o) boot_id deadline (print (VObj starting)))
  end.

(** ** Parameters and configuration *)

Record CreationClaimDelegate : Type := mkDelegate { owner_pid : Z; nonce : bytes }.
Record SpawnParams : Type := mkParams {
  p_name : bytes;
  p_command : bytes;
  p_args : list bytes;
  p_display_command : bytes;
  p_cwd : bytes;
  p_rows : Z;
  p_cols : Z;
  p_ephemeral : bool;
  p_tags : IndexMap bytes;
  p_publication_binding : option PublicationBinding;
  p_publication_root_id : option bytes;
  p_display_name : option bytes;
  p_isolate_env : bool;
  p_extra_env : IndexMap bytes;
  p_session_env : option (IndexMap bytes);
  p_unset_env : list bytes;
  p_env : option (IndexMap bytes);
  p_startup_lease : option StartupLeaseOptions;
  p_scrub_env : list bytes;
  p_creation_lock_delegate : option CreationClaimDelegate;
  p_bind_to_spawner_lifetime : bool;
  p_start_timeout : option Z;
  p_respawn : bool
}.
#[export] Instance SpawnParams_eta : Settable SpawnParams := fun p =>
  mkParams (p_name p) (p_command p) (p_args p) (p_display_command p) (p_cwd p) (p_rows p) (p_cols p) (p_ephemeral p)
    (p_tags p) (p_publication_binding p) (p_publication_root_id p) (p_display_name p) (p_isolate_env p) (p_extra_env p)
    (p_session_env p) (p_unset_env p) (p_env p) (p_startup_lease p) (p_scrub_env p) (p_creation_lock_delegate p)
    (p_bind_to_spawner_lifetime p) (p_start_timeout p) (p_respawn p).

Fixpoint join_words (words : list bytes) : bytes :=
  match words with
  | [] => []
  | [w] => w
  | w :: rest => w ++ 32 :: join_words rest
  end.
(** [size]: the terminal's rows and columns, or 24 and 80; [here]: the working directory. *)
Definition SpawnParams_new (size : Z * Z) (here : option bytes) (nm command : bytes) (args : list bytes) : SpawnParams :=
  mkParams nm command args (join_words (command :: args)) (default (str "/") here) (fst size) (snd size)
    false [] None None None false [] None [] None None [] None false None false.

Definition or_keep {A} (o : option A) (a : A) : A := match o with Some x => x | None => a end.
Definition filled_map {A} (o : option (list A)) (a : list A) : list A :=
  match o with Some ((_ :: _) as l) => l | _ => a end.
Definition apply_persisted_launch_options (p : SpawnParams) (m : SessionMetadata) : SpawnParams :=
  p <| p_publication_binding := publication_binding m |>
    <| p_publication_root_id := publication_root_id m |>
    <| p_rows ::= or_keep (rows m) |>
    <| p_cols ::= or_keep (cols m) |>
    <| p_ephemeral ::= or_keep (ephemeral m) |>
    <| p_isolate_env ::= fun b => bool_decide (isolate_env m = Some true) || b |>
    <| p_extra_env ::= filled_map (extra_env m) |>
    <| p_session_env := session_env m |>
    <| p_unset_env ::= filled_map (unset_env m) |>
    <| p_env ::= fun o => match env m with Some e => Some e | None => o end |>.

Record DaemonConfig : Type := mkConfig {
  c_name : bytes;
  c_command : bytes;
  c_args : list bytes;
  c_display_command : bytes;
  c_cwd : option bytes;
  c_rows : option Z;
  c_cols : option Z;
  c_ephemeral : bool;
  c_tags : option (IndexMap bytes);
  c_publication_binding : option PublicationBinding;
  c_publication_root_id : option bytes;
  c_display_name : option bytes;
  c_isolate_env : option bool;
  c_extra_env : option (IndexMap bytes);
  c_session_env : option (IndexMap bytes);
  c_unset_env : option (list bytes);
  c_env : option (IndexMap bytes);
  c_generation : option bytes;
  c_startup_lease : option StartupLeaseOptions;
  c_respawn : bool
}.
Definition unless_empty {A} (l : list A) : option (list A) := if is_nonempty l then Some l else None.
Definition config_for (p : SpawnParams) : DaemonConfig :=
  mkConfig (p_name p) (p_command p) (p_args p) (p_display_command p) (Some (p_cwd p)) (Some (p_rows p)) (Some (p_cols p))
    (p_ephemeral p) (unless_empty (p_tags p)) (p_publication_binding p) (p_publication_root_id p)
    (filled (p_display_name p)) (if p_isolate_env p then Some true else None) (unless_empty (p_extra_env p))
    (p_session_env p) (unless_empty (p_unset_env p)) (p_env p) None (p_startup_lease p) (p_respawn p).

(** *** What the daemon reads *)

Definition cfg_cwd (here : option bytes) (c : DaemonConfig) : bytes :=
  match c_cwd c with Some d => d | None => default (str "/") here end.
Definition cfg_rows (c : DaemonConfig) : Z := default 24 (c_rows c).
Definition cfg_cols (c : DaemonConfig) : Z := default 80 (c_cols c).
Definition cfg_tags (c : DaemonConfig) : option (IndexMap bytes) := let? t := c_tags c in unless_empty t.
Definition cfg_display_name (c : DaemonConfig) : option bytes := filled (c_display_name c).
Definition cfg_isolate_env (c : DaemonConfig) : bool := bool_decide (c_isolate_env c = Some true).
Definition cfg_extra_env (c : DaemonConfig) : option (IndexMap bytes) := let? e := c_extra_env c in unless_empty e.
Definition cfg_unset_env (c : DaemonConfig) : list bytes := default [] (c_unset_env c).

(** [root_id] and [check] of [revocation.rs], by their answers at one moment. *)
Class Fence : Type := {
  root_id : Result bytes bytes;
  fence_check : bytes -> option PublicationBinding -> option bytes -> Result unit bytes
}.
Definition START_OPERATION : bytes := str "st3.start-operation".
Definition check_publication `{Fence} (c : DaemonConfig) : Result unit bytes :=
  let mutable_tag := match c_startup_lease c with
                     | Some lease => beq (l_lifecycle_tag lease) START_OPERATION
                     | None => false
                     end in
  if bool_decide (is_Some (c_publication_binding c)) && mutable_tag
  then Err (str "publication operation tag cannot be a mutable lifecycle tag")
  else
    try _ := (match c_publication_binding c, c_publication_root_id c with
              | Some _, Some expected =>
                  try actual := root_id in
                  if beq actual expected then Ok tt else Err (str "publication root identity changed")
              | None, None => Ok tt
              | _, _ => Err (str "publication binding and root identity are required together")
              end) in
    fence_check (c_name c) (c_publication_binding c) (tag_of START_OPERATION (cfg_tags c)).

(** *** The JSON object *)

Definition enc_lease (o : StartupLeaseOptions) : Value :=
  VObj (present [(str "timeoutMs", enc_int <$> l_timeout_ms o); (str "lifecycleTag", Some (VStr (l_lifecycle_tag o)))]).
Definition config_fields (c : DaemonConfig) : list (bytes * option Value) :=
  [(str "name", Some (VStr (c_name c)));
   (str "command", Some (VStr (c_command c)));
   (str "args", Some (enc_strs (c_args c)));
   (str "displayCommand", Some (VStr (c_display_command c)));
   (str "cwd", VStr <$> c_cwd c);
   (str "rows", enc_int <$> c_rows c);
   (str "cols", enc_int <$> c_cols c);
   (str "ephemeral", Some (VBool (c_ephemeral c)));
   (str "tags", enc_map <$> c_tags c);
   (str "publicationBinding", enc_binding <$> c_publication_binding c);
   (str "publicationRootId", VStr <$> c_publication_root_id c);
   (str "displayName", VStr <$> c_display_name c);
   (str "isolateEnv", VBool <$> c_isolate_env c);
   (str "extraEnv", enc_map <$> c_extra_env c);
   (str "sessionEnv", enc_map <$> c_session_env c);
   (str "unsetEnv", enc_strs <$> c_unset_env c);
   (str "env", enc_map <$> c_env c);
   (str "generation", VStr <$> c_generation c);
   (str "startupLease", enc_lease <$> c_startup_lease c);
   (str "respawn", if c_respawn c then Some (VBool true) else None)].
Definition to_config_map (c : DaemonConfig) : IndexMap Value := present (config_fields c).

(** [lifecycle_tag] has no default: a lease without it is refused. *)
Definition dec_lease (v : Value) : option StartupLeaseOptions :=
  match v with
  | VObj m =>
      let? timeout := opt_field dec_u64 (str "timeoutMs") m in
      let? tag := mget (str "lifecycleTag") m in
      let? tag := as_str tag in
      Some (mkLeaseOptions timeout tag)
  | VArr [timeout; tag] =>
      let? timeout := opt_field dec_u64 [] [([], timeout)] in
      let? tag := as_str tag in
      Some (mkLeaseOptions timeout tag)
  | _ => None
  end.
Definition from_config_map (m : IndexMap Value) : option DaemonConfig :=
  let? x1 := def_field as_str [] (str "name") m in
  let? x2 := def_field as_str [] (str "command") m in
  let? x3 := def_field dec_strs [] (str "args") m in
  let? x4 := def_field as_str [] (str "displayCommand") m in
  let? x5 := opt_field as_str (str "cwd") m in
  let? x6 := opt_field dec_u16 (str "rows") m in
  let? x7 := opt_field dec_u16 (str "cols") m in
  let? x8 := def_field dec_bool false (str "ephemeral") m in
  let? x9 := opt_field dec_map (str "tags") m in
  let? x10 := opt_field dec_binding (str "publicationBinding") m in
  let? x11 := opt_field as_str (str "publicationRootId") m in
  let? x12 := opt_field as_str (str "displayName") m in
  let? x13 := opt_field dec_bool (str "isolateEnv") m in
  let? x14 := opt_field dec_map (str "extraEnv") m in
  let? x15 := opt_field dec_map (str "sessionEnv") m in
  let? x16 := opt_field dec_strs (str "unsetEnv") m in
  let? x17 := opt_field dec_map (str "env") m in
  let? x18 := opt_field as_str (str "generation") m in
  let? x19 := opt_field dec_lease (str "startupLease") m in
  let? x20 := def_field dec_bool false (str "respawn") m in
  Some (mkConfig x1 x2 x3 x4 x5 x6 x7 x8 x9 x10 x11 x12 x13 x14 x15 x16 x17 x18 x19 x20).

Definition config_keys : list bytes := mkeys (config_fields (mkConfig [] [] [] [] None None None false None None None None
  None None None None None None None false)).
Definition CONFIG_REQUIRED : bytes := str "PTY_SERVER_CONFIG env var required".
(** [DaemonConfig::parse]; [json] gives the entries of an object's text, and a field
    that comes twice is an error. *)
Definition duplicate_field (entries : list (bytes * Value)) : bool :=
  existsb (fun k => (2 <=? length (List.filter (fun kv => beq k (fst kv)) entries))%nat) config_keys.
Definition parse_config (json : bytes -> option (list (bytes * Value))) (text : bytes) : Result DaemonConfig bytes :=
  match (let? entries := json text in
         if duplicate_field entries then None else from_config_map (last_fields entries)) with
  | None => Err CONFIG_REQUIRED
  | Some c => if negb (is_nonempty (c_name c)) || negb (is_nonempty (c_command c)) then Err CONFIG_REQUIRED else Ok c
  end.
(** [from_process]: the variable, or the descriptor. *)
Definition from_process (json : bytes -> option (list (bytes * Value))) (var on_fd : option bytes)
  : Result DaemonConfig bytes :=
  match var, on_fd with
  | Some text, _ => parse_config json text
  | None, Some text => parse_config json text
  | None, None => Err CONFIG_REQUIRED
  end.

(** ** The publisher's image, on Linux *)

(** What the chosen executable's descriptor answers: [open]; whether it is a regular
    file, with its mode; its first four bytes; the pinned descriptor; and the turns of
    the probe's loop, each with a read of at most 4096 bytes, whether the probe's process
    has ended, and whether the two seconds have passed. *)
Inductive ReadAnswer : Type := ReadBytes (b : bytes) | WouldBlock | Interrupted | ReadFailed (cause : bytes).
Record Turn : Type := mkTurn { t_read : ReadAnswer; t_status : Result (option bool) bytes; t_late : bool }.
Record Image : Type := mkImage {
  im_open : option bytes;
  im_metadata : Result (bool * Z) bytes;
  im_magic : Result bytes bytes;
  im_dup : Result Z bytes;
  im_spawn : option bytes;
  im_turns : list Turn
}.
Definition PROBE_OUTPUT : Z := 65536.

(** [None]: the loop had not ended when the turns were used up. *)
Fixpoint probe_loop (turns : list Turn) (got : bytes) (status : option bool) : option (Result (bytes * bool) bytes) :=
  match turns with
  | [] => None
  | t :: rest =>
      let turn ended got :=
        match (match status with Some s => Ok (Some s) | None => t_status t end) with
        | Err cause => Some (Err cause)
        | Ok status =>
            match ended, status with
            | true, Some success => Some (Ok (got, success))
            | _, _ => if t_late t then Some (Err (str "managed publisher capability probe timed out"))
                      else probe_loop rest got status
            end
        end in
      match t_read t with
      | ReadBytes [] => turn true got
      | ReadBytes b => if PROBE_OUTPUT <? blen got + blen b
                       then Some (Err (str "managed publisher capability output is oversized"))
                       else turn false (got ++ b)
      | WouldBlock => turn false got
      | Interrupted => probe_loop rest got status
      | ReadFailed cause => Some (Err cause)
      end
  end.

Definition MAGICS : list bytes :=
  [127 :: str "ELF"; [254; 237; 250; 206]; [206; 250; 237; 254]; [254; 237; 250; 207]; [207; 250; 237; 254];
   [202; 254; 186; 190]; [190; 186; 254; 202]].
Definition is_native (magic : bytes) : bool := existsb (beq magic) MAGICS.
Definition is_one (v : Value) : bool := value_eqb v (enc_int 1).
Definition has_one (v : option Value) : bool := match v with Some (VArr l) => existsb is_one l | _ => false end.
Definition is_true (v : option Value) : bool := match v with Some (VBool b) => b | _ => false end.
Definition supports_revocation (capabilities : option Value) : bool :=
  match (let? v := capabilities in let? v := vget (str "capabilities") v in vget (str "publication-revocation") v) with
  | Some v => has_one (vget (str "versions") v) && has_one (vget (str "recordSchemas") v)
              && is_true (vget (str "atomicNamePublication") v) && is_true (vget (str "managedImmutableBinding") v)
  | None => false
  end.

Record PreparedDaemon : Type := mkPrepared { executable : bytes; image : bool }.

(** ** Errors *)

Record SpawnedDaemon : Type := mkSpawned { sd_pid : Z; sd_generation : bytes }.
Inductive SpawnError : Type :=
  | EnvExclusive
  | DaemonExited (code : option Z) (stderr : bytes)
  | SocketTimeout (nm : bytes)
  | PublicationTimeout (nm : bytes)
  | AlreadyPublished (nm : bytes)
  | Io (msg : bytes).
Definition SpawnError_text (err : SpawnError) : bytes :=
  match err with
  | EnvExclusive =>
      str "SpawnDaemonOptions.env is mutually exclusive with isolateEnv/extraEnv/unsetEnv. Use env for verbatim control, or inherited environment policy options "
      ++ [226; 128; 148] ++ str " not both."
  | DaemonExited code stderr =>
      let msg := str "Daemon process exited immediately (code " ++ match code with Some c => dec c | None => str "unknown" end
                 ++ str ")." in
      if is_nonempty stderr then msg ++ 10 :: stderr else msg ++ str " Is the command valid?"
  | SocketTimeout nm => str "Timeout waiting for session " ++ 34 :: nm ++ 34 :: str " to start"
  | PublicationTimeout nm => str "Timed out waiting for daemon publication for session " ++ 34 :: nm ++ 34 :: str "."
  | AlreadyPublished nm =>
      str "Session " ++ 34 :: nm ++ 34 :: str " is already running. Use " ++ 34 :: str "pty attach " ++ nm ++ 34
      :: str " to connect."
  | Io msg => msg
  end.

(** ** Starting the daemon *)

(** [start_at]: fork and exec of the daemon, giving its pid.  [try_wait_at] is the
    child's status once it has ended, [ready_at] a readiness byte received,
    [reaped_at] that a recorded owner has exited, a zombie included.  [revoked_at] is
    [revocation::read].  [clock_at] is monotonic, in milliseconds. *)
Record Starter : Type := {
  image_at : nat -> bytes -> Image;
  start_at : nat -> bytes -> SpawnParams -> Result Z bytes;
  try_wait_at : nat -> Z -> option (option Z);
  stderr_at : nat -> Z -> bytes;
  ready_at : nat -> Z -> bool;
  reaped_at : nat -> Z -> bool;
  revoked_at : nat -> bytes -> bytes -> Result bool bytes;
  clock_at : nat -> Z
}.
Definition DEFAULT_START_TIMEOUT : Z := 30000.
Definition as_i32 (pid : Z) : Z := let r := pid mod 4294967296 in if r <=? I32_MAX then r else r - 4294967296.

Section Launching.
Context (e : Env) (st : Starter).

(** [prepare_daemon]; [None]: the probe was still running. *)
Definition prepare_daemon (exe : bytes) (p : SpawnParams) (im : Image) : option (Result PreparedDaemon SpawnError) :=
  match p_publication_binding p with
  | None => Some (Ok (mkPrepared exe false))
  | Some _ =>
      match im_open im with
      | Some cause => Some (Err (Io (str "cannot pin managed publisher: " ++ cause)))
      | None =>
          match im_metadata im, im_magic im with
          | Err cause, _ | Ok _, Err cause => Some (Err (Io cause))
          | Ok (is_file, mode), Ok magic =>
              if negb is_file || (Z.land mode 73 =? 0) || negb (is_native magic)
              then Some (Err (Io (str "managed publisher must be a native executable, not a wrapper")))
              else
                match im_dup im with
                | Err cause => Some (Err (Io cause))
                | Ok fd =>
                    match im_spawn im with
                    | Some cause => Some (Err (Io (str "cannot verify managed publisher: " ++ cause)))
                    | None =>
                        let? result := probe_loop (im_turns im) [] None in
                        Some (match result with
                              | Err cause => Err (Io cause)
                              | Ok (output, success) =>
                                  if success && supports_revocation ((fun fields => VObj (last_fields fields)) <$> json e output)
                                  then Ok (mkPrepared (str "/proc/self/fd/" ++ dec fd) true)
                                  else Err (Io (str "managed publisher lacks publication-revocation v1"))
                              end)
                    end
                end
          end
      end
  end.

(** *** Publication *)

Definition text_field (k : bytes) (v : IndexMap Value) : option bytes := mget k v ≫= as_str.
Definition is_start_line (nm created_at : bytes) (line : bytes) : bool :=
  match json e line with
  | None => false
  | Some fields =>
      let v := last_fields fields in
      obeq (text_field (str "session") v) (Some nm) && obeq (text_field (str "type") v) (Some SESSION_START)
      && match text_field (str "ts") v with Some ts => bytes_leb created_at ts | None => false end
  end.
Definition has_published_session_start (d : Disk) (nm created_at : bytes) : bool :=
  match d !! at_root e (events_path (root e) nm) with
  | Some (Regular b) =>
      match from_utf8 b with
      | Some text => existsb (is_start_line nm created_at) (split_on (Z.eqb 10) (trim_end is_trim_space text))
      | None => false
      end
  | _ => false
  end.
Definition published_generation_by (d : Disk) (nm : bytes) (pid : Z) : option bytes :=
  let? m := read_metadata e d nm in
  if bool_decide (daemon_pid m = Some (as_i32 pid)) && has_published_session_start d nm (created_at m)
  then Some (default [] (generation m)) else None.
Definition published_elsewhere (owner : option Z) (mine : Z) (alive : Z -> bool) (published : bool) : bool :=
  match owner with
  | Some owner => negb (owner =? as_i32 mine) && alive owner && published
  | None => false
  end.
Definition published_by_another (k : nat) (d : Disk) (nm : bytes) (mine : Z) : bool :=
  let m := read_metadata e d nm in
  published_elsewhere (m ≫= daemon_pid) mine (fun pid => negb (reaped_at st k pid))
    (match m with Some m => has_published_session_start d nm (created_at m) | None => false end).

Definition check_early_exit (pid : Z) : M (Result unit SpawnError) :=
  observe e (fun k _ => match try_wait_at st k pid with
                        | Some code => Err (DaemonExited code (trim is_trim_space (stderr_at st k pid)))
                        | None => Ok tt
                        end).
Definition elapsed (since : Z) : M Z := observe e (fun k _ => clock_at st k - since).
Definition exists_now (p : bytes) : M bool := observe e (fun _ d => bool_decide (is_Some (d !! at_root e p))).

(** The rounds of the two waits; [None]: more rounds than the fuel. *)
Fixpoint wait_for_socket (fuel : nat) (nm sock : bytes) (timeout start pid : Z) : M (option (Result unit SpawnError)) :=
  early ← check_early_exit pid;
  match early with
  | Err err => mret (Some (Err err))
  | Ok _ =>
      gone ← elapsed start;
      if timeout <? gone then mret (Some (Err (SocketTimeout nm)))
      else
        there ← exists_now sock;
        if (there : bool) then mret (Some (Ok tt))
        else match fuel with O => mret None | S f => wait_for_socket f nm sock timeout start pid end
  end.
Definition acknowledged (nm : bytes) (pid : Z) : M (option bytes) :=
  mine ← observe e (fun _ d => published_generation_by d nm pid);
  match mine with
  | Some generation => ready ← observe e (fun k _ => ready_at st k pid); mret (if (ready : bool) then Some generation else None)
  | None => mret None
  end.
Fixpoint wait_published (fuel : nat) (nm : bytes) (timeout started pid : Z)
  : M (option (Result SpawnedDaemon SpawnError)) :=
  mine ← acknowledged nm pid;
  match mine with
  | Some generation => mret (Some (Ok (mkSpawned pid generation)))
  | None =>
      taken ← observe e (fun k d => published_by_another k d nm pid);
      if (taken : bool) then mret (Some (Err (AlreadyPublished nm)))
      else
        early ← check_early_exit pid;
        match early with
        | Err err => mret (Some (Err err))
        | Ok _ =>
            gone ← elapsed started;
            if timeout <=? gone then mret (Some (Err (PublicationTimeout nm)))
            else match fuel with O => mret None | S f => wait_published f nm timeout started pid end
        end
  end.
Definition wait_for_publication (fuel : nat) (nm : bytes) (pid timeout : Z)
  : M (option (Result SpawnedDaemon SpawnError)) :=
  started ← observe e (fun k _ => clock_at st k);
  sock ← observe e (fun _ d => socket_of_name e d nm);
  start ← observe e (fun k _ => clock_at st k);
  socket ← wait_for_socket fuel nm sock timeout start pid;
  match socket with
  | Some (Ok _) => wait_published fuel nm timeout started pid
  | Some (Err err) => mret (Some (Err err))
  | None => mret None
  end.

Definition env_exclusive (p : SpawnParams) : bool :=
  bool_decide (is_Some (p_env p))
  && (p_isolate_env p || is_nonempty (p_extra_env p) || is_nonempty (p_unset_env p)).
(** [executable_for_spawn] and [start_daemon_process], without a launch operation. *)
Definition start_daemon_process (publisher : PreparedDaemon) (p : SpawnParams) : M (Result Z SpawnError) :=
  if env_exclusive p then mret (Err EnvExclusive)
  else if bool_decide (is_Some (p_publication_binding p)) && negb (image publisher)
  then mret (Err (Io (str "managed publisher was not verified")))
  else
    started ← observe e (fun k _ => start_at st k (executable publisher) p);
    match started with
    | Err cause => mret (Err (Io cause))
    | Ok pid => _ ← act (Spawned (p_name p)); mret (Ok pid)
    end.
Definition is_exit (err : SpawnError) : bool := match err with DaemonExited _ _ => true | _ => false end.

Definition spawn_prepared_daemon (fuel : nat) (publisher : PreparedDaemon) (p : SpawnParams)
  : M (option (Result SpawnedDaemon SpawnError)) :=
  revoked ← (match p_publication_binding p with
             | Some b => observe e (fun k _ => revoked_at st k (p_name p) (operation b))
             | None => mret (Ok false)
             end);
  match revoked with
  | Err cause => mret (Some (Err (Io cause)))
  | Ok true => mret (Some (Err (Io (str "operation-revoked"))))
  | Ok false =>
      started ← start_daemon_process publisher p;
      match started with
      | Err err => mret (Some (Err err))
      | Ok pid =>
          outcome ← wait_for_publication fuel (p_name p) pid (default DEFAULT_START_TIMEOUT (p_start_timeout p));
          _ ← (match outcome with
               | Some (Err err) => if is_exit err then mret tt else act (fun k _ => Killed pid SIGTERM k)
               | _ => mret tt
               end);
          mret outcome
      end
  end.
Definition spawn_daemon (fuel : nat) (exe : bytes) (p : SpawnParams) : M (option (Result SpawnedDaemon SpawnError)) :=
  prepared ← observe e (fun k _ => prepare_daemon exe p (image_at st k exe));
  match prepared with
  | None => mret None
  | Some (Err err) => mret (Some (Err err))
  | Some (Ok publisher) => spawn_prepared_daemon fuel publisher p
  end.
End Launching.

(** ** The daemon reads what the launcher wrote *)

Lemma last_fields_id m : NoDup (mkeys m) -> last_fields m = m.
Proof.
  unfold last_fields. intros H. enough (E : forall acc, (forall k, k ∈ mkeys acc -> k ∉ mkeys m) ->
    foldl (fun m kv => minsert (fst kv) (snd kv) m) acc m = acc ++ m) by (apply E; intros k Hk; inversion Hk).
  induction m as [|[k v] m IH]; intros acc Ha; [rewrite app_nil_r; done|]. cbn [mkeys fmap list_fmap fst] in H, Ha.
  apply NoDup_cons in H as [Hn H]. cbn [foldl fst snd].
  assert (F : minsert k v acc = acc ++ [(k, v)]).
  { assert (Hk : k ∉ mkeys acc) by (intros Hk; apply (Ha k Hk); left). clear -Hk.
    induction acc as [|[k0 v0] acc IHa]; [done|]. cbn [mkeys fmap list_fmap fst] in Hk.
    apply not_elem_of_cons in Hk as [Hne Hk]. cbn [minsert]. rewrite (proj2 (beq_neq k k0) Hne). cbn [app].
    f_equal. apply IHa, Hk. }
  rewrite F, IH; [rewrite <- app_assoc; done|done|]. intros x Hx Hin. unfold mkeys in Hx. rewrite fmap_app in Hx.
  apply elem_of_app in Hx as [Hx|Hx]; [apply (Ha x Hx); right; exact Hin|].
  apply list_elem_of_singleton in Hx. cbn in Hx. subst x. done.
Qed.
Lemma opt_present {A} (enc : A -> Value) (dec : Value -> option A) k (o : option A) l :
  NoDup (mkeys l) -> mget k l = Some (enc <$> o) ->
  match o with Some x => dec (enc x) = Some x /\ enc x <> VNull | None => True end ->
  opt_field dec k (present l) = Some o.
Proof.
  intros Hd Hk Ho. unfold opt_field. rewrite mget_present, Hk by done. destruct o as [x|]; [|done].
  destruct Ho as [Ho Hn]. cbn [fmap option_fmap option_map]. destruct (enc x) eqn:E; try done; rewrite Ho; done.
Qed.
Lemma def_present {A} (enc : A -> Value) (dec : Value -> option A) d k (x : A) l :
  NoDup (mkeys l) -> mget k l = Some (Some (enc x)) -> dec (enc x) = Some x -> def_field dec d k (present l) = Some x.
Proof. intros Hd Hk Hx. unfold def_field. rewrite mget_present, Hk by done. exact Hx. Qed.

Definition wf_lease (o : StartupLeaseOptions) : Prop := in_opt 0 USIZE_MAX (l_timeout_ms o).
Definition wf_config (c : DaemonConfig) : Prop :=
  in_opt 0 U16_MAX (c_rows c) /\ in_opt 0 U16_MAX (c_cols c) /\
  match c_startup_lease c with Some o => wf_lease o | None => True end.

Lemma config_keys_nodup c : NoDup (mkeys (config_fields c)).
Proof. apply (bool_decide_eq_true_1 (NoDup _)). vm_compute. reflexivity. Qed.
Lemma dec_lease_enc o : wf_lease o -> dec_lease (enc_lease o) = Some o.
Proof.
  destruct o as [[t|] tag]; unfold wf_lease; cbn [l_timeout_ms in_opt]; [|done]. intros H.
  assert (E : opt_field dec_u64 (str "timeoutMs") (present [(str "timeoutMs", Some (enc_int t)); (str "lifecycleTag", Some (VStr tag))])
              = Some (Some t)).
  { apply (opt_present enc_int dec_u64 _ (Some t)); [|reflexivity|split; [apply dec_int_enc, H|done]].
    apply (bool_decide_eq_true_1 (NoDup _)). vm_compute. reflexivity. }
  unfold enc_lease, dec_lease. cbn [l_timeout_ms l_lifecycle_tag fmap option_fmap option_map]. rewrite E. done.
Qed.

(** The daemon reads the configuration its launcher wrote: every field of the JSON
    object comes back as it was, whichever fields are absent. *)
Theorem config_roundtrip (c : DaemonConfig) : wf_config c -> from_config_map (to_config_map c) = Some c.
Proof.
  intros (W1 & W2 & W3). pose proof (config_keys_nodup c) as Hd.
  unfold from_config_map, to_config_map.
  repeat match goal with
  | |- context [def_field as_str [] ?k _] => erewrite (def_present VStr as_str [] k); [|exact Hd|reflexivity|reflexivity]
  | |- context [def_field dec_strs [] ?k _] =>
      erewrite (def_present enc_strs dec_strs [] k); [|exact Hd|reflexivity|apply dec_strs_enc]
  | |- context [def_field dec_bool false (str "ephemeral") _] =>
      erewrite (def_present VBool dec_bool false (str "ephemeral")); [|exact Hd|reflexivity|reflexivity]
  | |- context [opt_field as_str ?k _] => erewrite (opt_present VStr as_str k); [|exact Hd|reflexivity|decoded]
  | |- context [opt_field dec_u16 ?k _] => erewrite (opt_present enc_int dec_u16 k); [|exact Hd|reflexivity|]
  | |- context [opt_field dec_map ?k _] => erewrite (opt_present enc_map dec_map k); [|exact Hd|reflexivity|decoded]
  | |- context [opt_field dec_strs ?k _] => erewrite (opt_present enc_strs dec_strs k); [|exact Hd|reflexivity|decoded]
  | |- context [opt_field dec_bool ?k _] => erewrite (opt_present VBool dec_bool k); [|exact Hd|reflexivity|decoded]
  | |- context [opt_field dec_binding ?k _] =>
      erewrite (opt_present enc_binding dec_binding k); [|exact Hd|reflexivity|decoded]
  | |- context [opt_field dec_lease ?k _] => erewrite (opt_present enc_lease dec_lease k); [|exact Hd|reflexivity|]
  end.
  all: try match goal with
  | |- match c_startup_lease ?x with _ => _ end =>
      destruct (c_startup_lease x); [split; [apply dec_lease_enc, W3|done]|done]
  | |- match c_rows ?x with _ => _ end => destruct (c_rows x); [split; [apply dec_int_enc, W1|done]|done]
  | |- match c_cols ?x with _ => _ end => destruct (c_cols x); [split; [apply dec_int_enc, W2|done]|done]
  end.
  assert (E : def_field dec_bool false (str "respawn") (present (config_fields c)) = Some (c_respawn c)).
  { unfold def_field. rewrite mget_present by exact Hd. cbn. destruct (c_respawn c); done. }
  rewrite E. destruct c. reflexivity.
Qed.

(** ** What a launch may do *)

Section Admission.
Context (e : Env) (st : Starter).
Implicit Types (w : World) (p : SpawnParams) (P : Action -> Prop).

(** A managed publisher that was checked: a native executable whose own probe ended well
    and named the capability. *)
Record verified (im : Image) : Prop := mkVerified {
  v_opened : im_open im = None;
  v_executable : exists mode, im_metadata im = Ok (true, mode) /\ Z.land mode 73 <> 0;
  v_native : exists magic, im_magic im = Ok magic /\ is_native magic = true;
  v_capable : exists output, probe_loop (im_turns im) [] None = Some (Ok (output, true))
                /\ supports_revocation ((fun fields => VObj (last_fields fields)) <$> json e output) = true
}.
Lemma prepare_daemon_verified exe p im pub b :
  prepare_daemon e exe p im = Some (Ok pub) -> p_publication_binding p = Some b -> verified im.
Proof.
  intros H B. unfold prepare_daemon in H. rewrite B in H.
  destruct (im_open im) eqn:O; [discriminate|].
  destruct (im_metadata im) as [[file mode]|] eqn:Me; [|discriminate].
  destruct (im_magic im) as [magic|] eqn:Ma; [|discriminate].
  destruct (_ || _ || _) eqn:C; [discriminate|]. apply orb_false_iff in C as [C N]. apply orb_false_iff in C as [F X].
  apply negb_false_iff in F, N. apply Z.eqb_neq in X. subst file.
  destruct (im_dup im); [|discriminate]. destruct (im_spawn im); [discriminate|].
  destruct (probe_loop _ _ _) as [[[output success]|]|] eqn:Pr; [|discriminate..]. cbn in H.
  destruct success; [|discriminate]. cbn [andb] in H. destruct (supports_revocation _) eqn:S; [|discriminate].
  split; [exact O|exists mode; done|exists magic; done|exists output; done].
Qed.

(** The launches of [p] by [exe], and the signals to the child one started. *)
Definition admitted (exe : bytes) p (a : Action) : Prop :=
  match a with
  | Spawned nm _ _ =>
      nm = p_name p /\ env_exclusive p = false /\
      forall b, p_publication_binding p = Some b ->
        (exists j, verified (image_at st j exe)) /\ exists j, revoked_at st j (p_name p) (operation b) = Ok false
  | Killed pid signal _ => signal = SIGTERM /\ exists j publisher, start_at st j publisher p = Ok pid
  | _ => False
  end.

Lemma adds_check_early_exit P pid : adds P (check_early_exit e st pid).
Proof. apply adds_observe. Qed.
Lemma adds_elapsed P since : adds P (elapsed e st since).
Proof. apply adds_observe. Qed.
Lemma adds_wait_for_socket P fuel nm sock timeout start pid : adds P (wait_for_socket e st fuel nm sock timeout start pid).
Proof.
  induction fuel as [|f IH]; cbn [wait_for_socket]; (apply adds_bind; [apply adds_check_early_exit|]);
    (intros [?|?]; [|apply adds_ret]); (apply adds_bind; [apply adds_elapsed|]); intros gone;
    (destruct (timeout <? gone); [apply adds_ret|]); (apply adds_bind; [apply adds_observe|]);
    (intros [|]; [apply adds_ret|]); [apply adds_ret|exact IH].
Qed.
Lemma adds_acknowledged P nm pid : adds P (acknowledged e st nm pid).
Proof.
  apply adds_bind; [apply adds_observe|]. intros [g|]; [|apply adds_ret].
  apply adds_bind; [apply adds_observe|intros; apply adds_ret].
Qed.
Lemma adds_wait_published P fuel nm timeout started pid : adds P (wait_published e st fuel nm timeout started pid).
Proof.
  induction fuel as [|f IH]; cbn [wait_published]; (apply adds_bind; [apply adds_acknowledged|]);
    (intros [g|]; [apply adds_ret|]); (apply adds_bind; [apply adds_observe|]); (intros [|]; [apply adds_ret|]);
    (apply adds_bind; [apply adds_check_early_exit|]); (intros [?|?]; [|apply adds_ret]);
    (apply adds_bind; [apply adds_elapsed|]); intros gone; (destruct (timeout <=? gone); [apply adds_ret|]);
    [apply adds_ret|exact IH].
Qed.
Lemma adds_wait_for_publication P fuel nm pid timeout : adds P (wait_for_publication e st fuel nm pid timeout).
Proof.
  apply adds_bind; [apply adds_observe|]. intros started. apply adds_bind; [apply adds_observe|]. intros sock.
  apply adds_bind; [apply adds_observe|]. intros start. apply adds_bind; [apply adds_wait_for_socket|].
  intros [[u|err]|]; [apply adds_wait_published|apply adds_ret..].
Qed.

(** A pid that [start_at] gave to a launch of [p]. *)
Definition started_pid p (pid : Z) : Prop := exists j publisher, start_at st j publisher p = Ok pid.
(** The same from a moment on. *)
Definition launching (exe : bytes) p (k0 : nat) (a : Action) : Prop :=
  admitted exe p a /\ match a with Spawned _ k _ | Killed _ _ k => (k0 <= k)%nat | _ => True end.
Lemma spawn_prepared_timed fuel exe pub p w :
  (forall b, p_publication_binding p = Some b -> exists j, verified (image_at st j exe)) ->
  wpm (spawn_prepared_daemon e st fuel pub p) (fun _ => grows (launching exe p (moment w)) w) w.
Proof.
  intros V. unfold spawn_prepared_daemon. apply wpm_bind.
  apply wpm_mono with (fun r w' => grows (launching exe p (moment w)) w w' /\
    (r = Ok false -> forall b, p_publication_binding p = Some b -> exists j, revoked_at st j (p_name p) (operation b) = Ok false)).
  { destruct (p_publication_binding p) as [b|] eqn:B.
    - apply wpm_observe. split; [apply grows_breathe|]. intros R b' [= <-]. eexists. exact R.
    - apply wpm_ret. split; [apply grows_refl|discriminate]. }
  intros revoked w1 [G1 R]. destruct revoked as [[|]|cause]; try (apply wpm_ret; exact G1).
  specialize (R eq_refl). unfold start_daemon_process. destruct (env_exclusive p) eqn:X.
  { apply wpm_bind, wpm_ret, wpm_ret. exact G1. }
  destruct (_ && _). { apply wpm_bind, wpm_ret, wpm_ret. exact G1. }
  apply wpm_bind, wpm_bind, wpm_observe. destruct (start_at st _ _ p) as [pid|cause] eqn:S.
  2: { apply wpm_ret, wpm_ret. eapply grows_trans; [exact G1|apply grows_breathe]. }
  assert (Pid : started_pid p pid) by (eexists _, _; exact S).
  apply wpm_bind, wpm_act, wpm_ret. set (w2 := set_field _ _ _).
  assert (G2 : grows (launching exe p (moment w)) w w2).
  { eapply grows_trans; [exact G1|]. eapply grows_trans; [apply grows_breathe|]. split; [apply since_refl; done|].
    eexists. split; [reflexivity|]. constructor; [|constructor].
    split; [|destruct G1 as [[? _] _]; cbn; lia]. split; [done|]. split; [exact X|].
    intros b B. split; [exact (V b B)|exact (R b B)]. }
  apply wpm_bind. eapply wpm_mono; [apply (adds_wait_for_publication (launching exe p (moment w)))|]. intros outcome w3 G3.
  assert (G := grows_trans _ _ _ _ G2 G3). apply wpm_bind.
  destruct outcome as [[sd|err]|]; [apply wpm_ret, wpm_ret; exact G| |apply wpm_ret, wpm_ret; exact G].
  destruct (is_exit err); [apply wpm_ret, wpm_ret; exact G|]. apply wpm_act, wpm_ret.
  eapply grows_trans; [exact G|]. split; [apply since_refl; done|]. eexists. split; [reflexivity|]. constructor; [|constructor].
  split; [split; [done|exact Pid]|destruct G as [[? _] _]; cbn; lia].
Qed.

(** A launch is admitted before anything starts: a verbatim environment with no
    other environment option, and for a managed session an image that is a native
    executable, probed itself and found capable, and an operation that is not revoked.
    The only other thing it does to the world is SIGTERM to the child it started. *)
Theorem spawn_admitted fuel exe p w :
  wpm (spawn_daemon e st fuel exe p) (fun _ => grows (admitted exe p) w) w.
Proof.
  unfold spawn_daemon. apply wpm_bind, wpm_observe.
  destruct (prepare_daemon e exe p _) as [[pub|err]|] eqn:Pr; [|apply wpm_ret, grows_breathe..].
  eapply wpm_mono; [apply (spawn_prepared_timed fuel exe)|].
  - intros b B. eexists. eapply prepare_daemon_verified; [exact Pr|exact B].
  - intros r w' G. eapply grows_trans; [apply grows_breathe|]. eapply grows_weaken; [|exact G]. intros a [H _]. exact H.
Qed.

(** *** What a success tells *)

Definition published (sd : SpawnedDaemon) (nm : bytes) (d : Disk) : Prop :=
  exists m, read_metadata e d nm = Some m /\ daemon_pid m = Some (as_i32 (sd_pid sd))
    /\ sd_generation sd = default [] (generation m)
    /\ has_published_session_start e d nm (created_at m) = true.
Lemma published_generation_spec d nm pid g :
  published_generation_by e d nm pid = Some g -> published (mkSpawned pid g) nm d.
Proof.
  unfold published_generation_by, published. destruct (read_metadata e d nm) as [m|]; [|discriminate]. cbn.
  destruct (bool_decide _) eqn:B; [|discriminate]. apply bool_decide_eq_true_1 in B.
  destruct (has_published_session_start _ _ _ _) eqn:S; [|discriminate]. intros [= <-]. exists m. done.
Qed.
Lemma wpm_acknowledged nm pid w :
  wpm (acknowledged e st nm pid) (fun r _ => match r with
    | Some g => exists d j, published (mkSpawned pid g) nm d /\ ready_at st j pid = true
    | None => True
    end) w.
Proof.
  apply wpm_bind, wpm_observe. destruct (published_generation_by _ _ _ _) as [g|] eqn:G; [|apply wpm_ret; done].
  apply wpm_bind, wpm_observe, wpm_ret. destruct (ready_at _ _ _) eqn:R; [|done]. apply published_generation_spec in G. eauto.
Qed.
Definition tells nm (r : option (Result SpawnedDaemon SpawnError)) (w : World) : Prop :=
  match r with
  | Some (Ok sd) => exists d j, published sd nm d /\ ready_at st j (sd_pid sd) = true
  | _ => True
  end.
Lemma wait_published_tells fuel nm timeout started pid w :
  wpm (wait_published e st fuel nm timeout started pid) (tells nm) w.
Proof.
  revert w. induction fuel as [|f IH]; intros w; cbn [wait_published]; apply wpm_bind;
    (eapply wpm_mono; [apply wpm_acknowledged|]); intros [g|] w1 H; try (apply wpm_ret; exact H);
    apply wpm_bind, wpm_observe; destruct (published_by_another _ _ _ _ _ _); try (apply wpm_ret; done);
    apply wpm_bind, wpm_observe; destruct (try_wait_at _ _ _); try (apply wpm_ret; done);
    apply wpm_bind, wpm_observe; destruct (timeout <=? _); try (apply wpm_ret; done). apply IH.
Qed.
Lemma wpm_top {A} (m : M A) w : wpm m (fun _ _ => True) w.
Proof. exact I. Qed.

(** A launch that succeeds names the daemon it started: a record with that pid and
    that generation had been published, with a [session_start] no older than the record,
    and the daemon had sent its readiness byte. *)
Theorem spawn_published fuel exe p w : wpm (spawn_daemon e st fuel exe p) (tells (p_name p)) w.
Proof.
  unfold spawn_daemon. apply wpm_bind, wpm_observe.
  destruct (prepare_daemon e exe p _) as [[pub|err]|]; [|apply wpm_ret; done..].
  unfold spawn_prepared_daemon. apply wpm_bind. eapply wpm_mono; [apply wpm_top|]. intros [[|]|cause] w1 _; try (apply wpm_ret; done).
  apply wpm_bind. eapply wpm_mono; [apply wpm_top|]. intros [pid|err] w2 _; [|apply wpm_ret; done].
  apply wpm_bind. apply wpm_mono with (tells (p_name p)).
  - unfold wait_for_publication. apply wpm_bind, wpm_observe, wpm_bind, wpm_observe, wpm_bind, wpm_observe, wpm_bind.
    eapply wpm_mono; [apply wpm_top|]. intros [[u|err]|] w3 _; [apply wait_published_tells|apply wpm_ret; done..].
  - intros outcome w3 H. apply wpm_bind. eapply wpm_mono; [apply wpm_top|]. intros u w4 _. apply wpm_ret. exact H.
Qed.

(** *** A launch comes to an end *)

Hypothesis tick : forall k, clock_at st k < clock_at st (S k).
Lemma clock_monotone j k : (j <= k)%nat -> clock_at st j + Z.of_nat (k - j) <= clock_at st k.
Proof.
  intros H. induction H as [|k H IH]; [lia|]. pose proof (tick k). lia.
Qed.
Lemma wait_for_socket_ends fuel nm sock timeout start pid w :
  timeout + start - clock_at st (moment w) < Z.of_nat fuel ->
  wpm (wait_for_socket e st fuel nm sock timeout start pid) (fun r w' => r <> None /\ (moment w <= moment w')%nat) w.
Proof.
  revert w. induction fuel as [|f IH]; intros w Hd; cbn [wait_for_socket]; apply wpm_bind, wpm_observe;
    (destruct (try_wait_at _ _ _); [apply wpm_ret; cbn; split; [done|lia]|]); apply wpm_bind, wpm_observe;
    cbn [moment breathe]; pose proof (clock_monotone (moment w) (S (S (moment w))) ltac:(lia)) as C;
    destruct (timeout <? clock_at st (S (S (moment w))) - start) eqn:T;
    try (apply wpm_ret; cbn; split; [done|lia]); apply wpm_bind, wpm_observe;
    (destruct (bool_decide _); [apply wpm_ret; cbn; split; [done|lia]|]).
  - exfalso. lia.
  - eapply wpm_mono; [apply IH; cbn [moment breathe]; pose proof (tick (S (S (moment w)))); lia|].
    intros r w' [H M]. cbn [moment breathe] in M. split; [exact H|lia].
Qed.
Lemma wait_published_ends fuel nm timeout started pid w :
  timeout + started - clock_at st (moment w) < Z.of_nat fuel ->
  wpm (wait_published e st fuel nm timeout started pid) (fun r _ => r <> None) w.
Proof.
  revert w. induction fuel as [|f IH]; intros w Hd; cbn [wait_published]; apply wpm_bind;
    (eapply wpm_mono; [exact (adds_acknowledged (fun _ => True) nm pid w)|]); intros [g|] w1 [[M1 _] _];
    try (apply wpm_ret; done); apply wpm_bind, wpm_observe;
    (destruct (published_by_another _ _ _ _ _ _); [apply wpm_ret; done|]); apply wpm_bind, wpm_observe;
    (destruct (try_wait_at _ _ _); [apply wpm_ret; done|]); apply wpm_bind, wpm_observe; cbn [moment breathe];
    pose proof (clock_monotone (moment w) (S (S (S (moment w1)))) ltac:(lia)) as C;
    destruct (timeout <=? clock_at st (S (S (S (moment w1)))) - started) eqn:T; try (apply wpm_ret; done).
  - exfalso. lia.
  - apply IH. cbn [moment breathe]. lia.
Qed.

(** A launch answers: on a clock that advances between two readings, as many rounds as
    the timeout has milliseconds, and two more, are enough. *)
Theorem spawn_answers fuel exe p w :
  (forall j, prepare_daemon e exe p (image_at st j exe) <> None) ->
  0 <= default DEFAULT_START_TIMEOUT (p_start_timeout p) -> default DEFAULT_START_TIMEOUT (p_start_timeout p) + 2 <= Z.of_nat fuel ->
  wpm (spawn_daemon e st fuel exe p) (fun r _ => r <> None) w.
Proof.
  intros Hp Ht Hf. unfold spawn_daemon. apply wpm_bind, wpm_observe.
  destruct (prepare_daemon e exe p _) as [[pub|err]|] eqn:Pr; [|apply wpm_ret; done|destruct (Hp _ Pr)].
  unfold spawn_prepared_daemon. apply wpm_bind. eapply wpm_mono; [apply wpm_top|]. intros [[|]|cause] w1 _; try (apply wpm_ret; done).
  apply wpm_bind. eapply wpm_mono; [apply wpm_top|]. intros [pid|err] w2 _; [|apply wpm_ret; done].
  apply wpm_bind. apply wpm_mono with (fun r _ => r <> None).
  - unfold wait_for_publication. apply wpm_bind, wpm_observe, wpm_bind, wpm_observe, wpm_bind, wpm_observe, wpm_bind.
    cbn [moment breathe]. set (T := default DEFAULT_START_TIMEOUT _) in *.
    eapply wpm_mono; [apply wait_for_socket_ends; cbn [moment breathe]; lia|]. cbn beta. intros [[u|err]|] w3 [H M3]; [|done|done].
    apply wait_published_ends. cbn [moment breathe] in M3.
    pose proof (clock_monotone (S (moment w2)) (moment w3) ltac:(lia)). lia.
  - intros outcome w3 H. apply wpm_bind. eapply wpm_mono; [apply wpm_top|]. intros u w4 _. apply wpm_ret. exact H.
Qed.
End Admission.

(** ** A launch that succeeds and one that finds the name taken *)

Definition demo_params : SpawnParams :=
  SpawnParams_new (24, 80) None (str "a") (str "/bin/sh") [str "-c"; str "true"].
(** The text [live] is the demo's record; a log's line is a record of its start. *)
Definition demo_json (text : bytes) : option (list (bytes * Value)) :=
  if beq text (str "start")
  then Some [(str "session", VStr (str "a")); (str "type", VStr SESSION_START); (str "ts", VStr (str "9"))]
  else demo_text text.
Definition demo_launch_env : Env := {|
  root := str "/r"; sha256 := demo_sha; json := demo_json; render := fun _ => []; link := None; canonical := None;
  others := fun _ d => d; dir_at := fun _ => None; host_at := fun _ => demo_host "8811";
  lock_at := fun _ _ => Ok tt; now_at := fun _ => 0; write_at := fun _ => true; unlink_at := fun _ _ => true
|}.
Definition demo_launch_world : World :=
  mkWorld (<[str "/r/a.events.jsonl" := Regular (str "start")]> demo_disk) 0 [] [].
Definition demo_starter (pid : Z) : Starter := {|
  image_at := fun _ _ => mkImage None (Err []) (Err []) (Err []) None [];
  start_at := fun _ _ _ => Ok pid; try_wait_at := fun _ _ => None; stderr_at := fun _ _ => [];
  ready_at := fun k _ => (30 <=? k)%nat; reaped_at := fun _ _ => false; revoked_at := fun _ _ _ => Ok false;
  clock_at := fun k => Z.of_nat k
|}.
Definition demo_spawn (pid : Z) :=
  spawn_daemon demo_launch_env (demo_starter pid) 100 (str "/pty")
    (demo_params <| p_start_timeout := Some 90 |>) demo_launch_world.

Example demo_launched : match fst (demo_spawn 4242) with Some (Ok sd) => sd_pid sd = 4242 | _ => False end.
Proof. vm_compute. reflexivity. Qed.
Example demo_taken : fst (demo_spawn 17) = Some (Err (AlreadyPublished (str "a"))).
Proof. vm_compute. reflexivity. Qed.
Example demo_termed : match done_ (snd (demo_spawn 17)) with [Spawned _ _ _; Killed 17 15 _] => True | _ => False end.
Proof. vm_compute. exact I. Qed.

Lemma config_roundtrip_witness : from_config_map (to_config_map (config_for demo_params)) = Some (config_for demo_params).
Proof. apply config_roundtrip. vm_compute. repeat split; discriminate. Defined.
Lemma demo_tick pid k : clock_at (demo_starter pid) k < clock_at (demo_starter pid) (S k).
Proof. cbn [clock_at demo_starter]. lia. Qed.
Lemma spawn_answers_witness :
  wpm (spawn_daemon demo_launch_env (demo_starter 4242) 100 (str "/pty") (demo_params <| p_start_timeout := Some 90 |>))
    (fun r _ => r <> None) demo_launch_world.
Proof.
  refine (spawn_answers demo_launch_env (demo_starter 4242) (demo_tick 4242) 100 _ _ _ _ _ _).
  - intros j. vm_compute. discriminate.
  - vm_compute. discriminate.
  - vm_compute. discriminate.
Defined.
