(* ===== verification/Gc.v ===== *)
(** Garbage collection: one pass of [crates/pty-lifecycle/src/gc.rs] over the registry, as
    a program of [Files.v], and the pruning of orphan layout tags.

    [Flapping.v] has the decisions that read only a record.  Here they meet the locks, the
    listings and the disk: debris, orphans, abandoned and permanent sessions, and finished
    ones. *)
From S2P Require Import Prelude Mutate Ptyfile Events ProcTable ProcessTree Operation Json Metadata Time Names Text Order Identity MetadataCache Inventory Flapping Files Effects Stop Launch.

Record GcOptions : Type := mkGcOptions {
  dry_run : bool;
  keep_max_age_ms : Z;
  idle_days : option Z;
  fast_fail_window : option Z;
  fast_fail_limit : option Z;
  daemon_executable : option bytes
}.
Definition GcOptions_default : GcOptions := mkGcOptions false DEFAULT_KEEP_MAX_AGE_MS None None None None.

Record OrphanKill : Type := mkOrphan { ok_name : bytes; ok_parent : bytes; ok_reason : bytes }.
Record ReapSkip : Type := mkSkip { rs_name : bytes; rs_operation : bytes; rs_reason : bytes; rs_signalled : bool }.
Record Abandoned : Type := mkAbandoned { an_name : bytes; an_decision : AbandonDecision }.
Record Respawned : Type := mkRespawned { rp_name : bytes; ptyfile_reread : bool }.
Record RespawnFailed : Type := mkRespawnFailed { rf_name : bytes; rf_error : bytes }.
Record Flapped : Type := mkFlapped { fp_name : bytes; fp_counter : Z; fp_limit : Z; fp_window : Z }.
Record GcResult : Type := mkGcResult {
  removed : list bytes;
  kept : list bytes;
  keep_expired : list bytes;
  killed_orphan_children : list OrphanKill;
  abandoned : list Abandoned;
  respawned : list Respawned;
  respawn_failed : list RespawnFailed;
  flapped : list Flapped;
  flapping_skipped : list bytes;
  reap_skipped : list ReapSkip
}.
#[export] Instance GcResult_eta : Settable GcResult := fun r =>
  mkGcResult (removed r) (kept r) (keep_expired r) (killed_orphan_children r) (abandoned r) (respawned r)
    (respawn_failed r) (flapped r) (flapping_skipped r) (reap_skipped r).
Definition GcResult_default : GcResult := mkGcResult [] [] [] [] [] [] [] [] [] [].
Definition push_to {A} (x : A) (l : list A) : list A := l ++ [x].

(** What a pass asks besides the registry: the probe of a directory ([cwd_is_gone]),
    [pid_alive], the manifest's file and parser, the terminal's size, the working
    directory, the publication fence, [resolve_command], the delegation of the creation
    lock, and whether a sidecar directory is there. *)
Record Surroundings : Type := {
  cwd_gone_at : nat -> bytes -> bool;
  alive_at : nat -> Z -> bool;
  table_text : IndexMap Toml -> bytes;
  read_text_at : nat -> bytes -> Result bytes (option bytes);
  toml : bytes -> Result (IndexMap Toml) bytes;
  size_at : nat -> Z * Z;
  here_at : nat -> Result bytes bytes;
  fence_at : nat -> Fence;
  resolve_command_at : nat -> bytes -> Result bytes bytes;
  delegate_at : nat -> bytes -> Result CreationClaimDelegate bytes;
  sidecar_at : nat -> bytes -> bool
}.

Definition AbandonReason_text (r : AbandonReason) : bytes :=
  match r with CwdGone => str "cwd-gone" | Idle => str "idle" end.
Inductive PermanentOutcome : Type :=
  | PoRespawned (reread : bool)
  | PoFailed (error : bytes)
  | PoFlapped (counter limit window : Z)
  | PoSkippedFlapping
  | PoStale.
Inductive ReapMode : Type := ModeOrphan | ModeAbandoned (global_idle_days : option Z).
Inductive Reap : Type :=
  | Reaped (decision : option AbandonDecision)
  | NotEligible
  | Skipped (reason : bytes) (signalled : bool).

Definition ok_or_none {A E} (r : Result A E) : option A := match r with Ok a => Some a | Err _ => None end.

Section Gc.
Context (e : Env) (s : Scans) (kn : Kernel) (st : Starter) (g : Surroundings) `{U : Unicode}.
(** The rounds a launch may wait. *)
Context (fuel : nat).

(** ** Temporary files *)

Definition entries_of (dir : bytes) (d : Disk) : list (bytes * File) :=
  List.filter (fun kv => beq (path_join dir (file_name (fst kv))) (fst kv)) (map_to_list d).
Definition root_entries (k : nat) (d : Disk) : option (list (bytes * File)) :=
  match dir_at e k with Some _ => None | None => Some (entries_of (root e) d) end.
Definition is_regular (f : File) : bool := match f with Regular _ => true | _ => false end.

Fixpoint sweep_temps (entries : list (bytes * File)) : M unit :=
  match entries with
  | [] => mret tt
  | (path, file) :: rest =>
      _ ← (match atomic_temp_pid (file_name path) with
           | None => mret tt
           | Some pid =>
               if negb (is_regular file) then mret tt
               else
                 alive ← observe e (fun k _ => alive_at g k pid);
                 if (alive : bool) then mret tt
                 else _ ← act (fun _ _ => Swept path); unlink e path
           end);
      sweep_temps rest
  end.
Definition cleanup_dead_atomic_temps (listing : nat -> Disk -> option (list (bytes * File))) : M unit :=
  found ← observe e listing;
  sweep_temps (default [] found).
Definition sidecar_entries (dir : bytes) (k : nat) (d : Disk) : option (list (bytes * File)) :=
  if sidecar_at g k dir then Some (entries_of dir d) else None.
Definition cleanup_dead_registry_temps : M unit :=
  _ ← cleanup_dead_atomic_temps root_entries;
  _ ← cleanup_dead_atomic_temps (sidecar_entries (path_join (root e) (str ".activity")));
  cleanup_dead_atomic_temps (sidecar_entries (path_join (root e) (str ".recovery"))).

(** ** Debris: a record that is no record, and nothing running behind it *)

Definition runtime_name (entry : bytes) : option bytes :=
  let first a b := match a with Some x => Some x | None => b end in
  let? nm := first (strip_suffix (str ".events.jsonl") entry)
               (first (strip_suffix (str ".sock") entry)
                  (first (strip_suffix (str ".pid") entry) (strip_suffix (str ".json") entry))) in
  if starts_with [64] nm then None else Some nm.
Definition metadata_is_malformed (d : Disk) (nm : bytes) : bool :=
  match d !! at_root e (metadata_path (root e) nm) with
  | Some (Regular b) => negb (bool_decide (is_Some (json e b)))
  | _ => false
  end.
Definition inventory_raw_cleanup_candidates (only : option bytes) (k : nat) (d : Disk) : list bytes :=
  match root_entries k d with
  | None => []
  | Some found =>
      let entries := map (fun kv => file_name (fst kv)) found in
      let has f := existsb (beq f) entries in
      let names := btree_set (omap (fun f =>
        if is_tmp_name f then None
        else let? nm := runtime_name f in
             if match only with Some o => beq o nm | None => true end then Some nm else None) entries) in
      List.filter (fun nm => has (nm ++ str ".json") && metadata_is_malformed d nm
                             && negb (has (nm ++ str ".pid")) && negb (has (file_name (socket_of_name e d nm)))) names
  end.
Definition is_debris (nm : bytes) (k : nat) (d : Disk) : bool :=
  existsb (beq nm) (inventory_raw_cleanup_candidates (Some nm) k d).
Definition cleanup_raw_candidate_guarded (nm : bytes) : M bool :=
  r ← with_both_locks e nm
    (again ← observe e (is_debris nm);
     if negb again then mret false
     else
       _ ← act (Cleaned nm);
       _ ← cleanup_socket e nm;
       _ ← unlink e (metadata_path (root e) nm);
       _ ← unlink e (events_path (root e) nm);
       _ ← unlink e (recovery_revision_path (root e) nm);
       _ ← unlink e (output_activity_path (root e) nm);
       mret true);
  mret (unwrap_or_false r).

(** ** Sessions whose owner is lost *)

Definition identity_of (nm : bytes) (m : SessionMetadata) (k : nat) (d : Disk) : DaemonIdentityCheck :=
  daemon_identity e k d nm m.
Definition removable_finished (k : nat) (d : Disk) (i : SessionInfo) : option SessionMetadata :=
  let? m := (if is_gone (info_status i) then info_metadata i else None) in
  if known_owner_lost (identity_of (name i) m k d) && negb (is_permanent m) then Some m else None.
Definition parent_of (i : SessionInfo) : option bytes :=
  let? p := (let? m := info_metadata i in tag_of (str "parent") (tags m)) in
  if is_nonempty p then Some p else None.

(** The record found under the locks is the observed one, and its owner is lost. *)
Definition still_lost (i : SessionInfo) (observed : SessionMetadata) (k : nat) (d : Disk) : bool :=
  match read_metadata e d (name i) with
  | Some current => metadata_matches_observation observed current
                    && known_owner_lost (identity_of (name i) current k d)
  | None => false
  end.
Definition cleanup_observed_session (i : SessionInfo) : M bool :=
  match info_metadata i with
  | None => mret false
  | Some observed =>
      r ← with_both_locks e (name i)
        (lost ← observe e (still_lost i observed);
         if (lost : bool) then _ ← cleanup_all_while_locked e (name i); mret true else mret false);
      mret (unwrap_or_false r)
  end.

Definition revalidate_abandonment (cwd_gone : bool) (observed current : SessionMetadata) (global : option Z)
  (now_ms : Z) : option AbandonDecision :=
  if negb (metadata_matches_observation observed current) || negb (is_permanent current) then None
  else classify_abandoned cwd_gone current global now_ms.

(** The first of the reap's two sections: what is decided and signalled. *)
Definition reap_signal (i : SessionInfo) (observed : SessionMetadata) (mode : ReapMode)
  : M (Result (option AbandonDecision * option DaemonHandle) bytes) :=
  let nm := name i in
  current ← observe e (fun _ d => read_metadata e d nm);
  match current with
  | None => mret (Err (str "stale"))
  | Some current =>
      policy ← (match mode with
                | ModeAbandoned global =>
                    decision ← observe e (fun k _ =>
                      revalidate_abandonment (cwd_gone_at g k (cwd current)) observed current global (now_at e k));
                    mret (match decision with
                          | Some decision => Ok (Some decision)
                          | None => Err (str "not-eligible")
                          end)
                | ModeOrphan =>
                    mret (if metadata_matches_observation observed current then Ok None else Err (str "stale"))
                end);
      match policy with
      | Err why => mret (Err why)
      | Ok decision =>
          check ← observe e (identity_of nm current);
          match check with
          | Match =>
              sidecar ← observe e (fun _ d => read_session_pid e d nm);
              match pid_or sidecar (daemon_pid current) with
              | None => mret (Err (str "pid-unavailable"))
              | Some pid =>
                  sent ← signal_daemon e kn nm pid current;
                  mret (match sent with
                        | Ok h => Ok (decision, Some h)
                        | Err _ => Err (str "identity-or-signal-failed")
                        end)
              end
          | Gone | Mismatch => mret (Ok (decision, None))
          | Unknown => mret (Err (str "identity-unknown"))
          end
      end
  end.
(** The second: the same record still, its owner lost by now. *)
Definition reap_remove (i : SessionInfo) (observed : SessionMetadata) (decision : option AbandonDecision) : M bool :=
  lost ← observe e (still_lost i observed);
  if negb lost then mret false
  else
    _ ← (match decision with
         | Some decision =>
             now ← observe e (fun k _ => now_text e k);
             append_event e s (name i) (session_abandoned now (name i) (AbandonReason_text (ab_reason decision))
                                          (ab_idle_days decision))
         | None => mret tt
         end);
    _ ← cleanup_all_while_locked e (name i);
    mret true.
Definition reap_observed_session (i : SessionInfo) (mode : ReapMode) : M Reap :=
  match info_metadata i with
  | None => mret (Skipped (str "stale") false)
  | Some observed =>
      first ← with_both_locks e (name i) (reap_signal i observed mode);
      match first with
      | Err _ => mret (Skipped (str "busy") false)
      | Ok (Err why) => mret (if beq why (str "not-eligible") then NotEligible else Skipped why false)
      | Ok (Ok (decision, handle)) =>
          gone ← (match handle with Some h => wait_exit e kn (h_fd h) | None => mret true end);
          let signalled := bool_decide (is_Some (h_fd <$> handle)) in
          if negb gone then mret (Skipped (str "shutdown-timeout") true)
          else
            second ← with_both_locks e (name i) (reap_remove i observed decision);
            mret (match second with
                  | Err _ => Skipped (str "busy") signalled
                  | Ok false => Skipped (str "stale") signalled
                  | Ok true => Reaped decision
                  end)
      end
  end.

(** ** Permanent sessions *)

(** The manifest's session a record is bound to, read at one moment. *)
Definition bound_session (k : nat) (path short : option bytes) : option (PtyFile * PtySessionDef) :=
  let? path := path in
  let? short := short in
  let? dir := path_parent path in
  let? file := ok_or_none (read_pty_file (table_text g) (here_at g k) (read_text_at g k) (toml g) (Some dir)) in
  let? session := List.find (fun d => beq (short_name d) short) (Ptyfile.sessions file) in
  Some (file, session).
Definition PTYFILE : bytes := str "ptyfile".
Definition PTYFILE_SESSION : bytes := str "ptyfile.session".
Definition PTYFILE_TAGS : bytes := str "ptyfile.tags".
Definition LAUNCH_CHANGED : bytes :=
  str "managed pty.toml launch inputs changed; a new operation and publication binding are required".

(** The tags the manifest had set and no longer does are dropped, its own are set. *)
Definition overlay_tags (session : PtySessionDef) (path short : bytes) (tags : TagMap) : TagMap :=
  let user_keys := sort_by bytes_leb (match def_tags session with Some m => mkeys m | None => [] end) in
  let previous_keys := List.filter is_nonempty
    (map (trim is_trim_space) (split_on (Z.eqb 44) (default [] (mget PTYFILE_TAGS tags)))) in
  let tags := foldl (fun t key => if existsb (beq key) user_keys then t else shift_remove key t) tags previous_keys in
  let tags := match def_tags session with Some m => insert_tags m tags | None => tags end in
  minsert PTYFILE_TAGS (join_with [44] user_keys) (minsert PTYFILE_SESSION short (minsert PTYFILE path tags)).

Record Inputs : Type := mkInputs { in_command : bytes; in_args : list bytes; in_display : bytes; in_cwd : bytes; in_tags : TagMap }.
Definition launch_inputs (k : nat) (m : SessionMetadata) : Result Inputs bytes :=
  let tags0 := default [] (tags m) in
  match mget PTYFILE tags0, mget PTYFILE_SESSION tags0 with
  | Some path, Some short =>
      match bound_session k (Some path) (Some short) with
      | Some (file, session) =>
          let command := str "/bin/sh" in
          let args := [str "-c"; command_with_env_exports session] in
          let cwd := default (Ptyfile.dir file) (def_cwd session) in
          if bool_decide (is_Some (publication_binding m))
             && (negb (beq command (Metadata.command m)) || negb (bool_decide (args = Metadata.args m))
                 || negb (beq cwd (Metadata.cwd m)))
          then Err LAUNCH_CHANGED
          else Ok (mkInputs command args (Ptyfile.command session) cwd (overlay_tags session path short tags0))
      | None => Ok (mkInputs (Metadata.command m) (Metadata.args m) (Metadata.display_command m) (Metadata.cwd m) tags0)
      end
  | _, _ => Ok (mkInputs (Metadata.command m) (Metadata.args m) (Metadata.display_command m) (Metadata.cwd m) tags0)
  end.
Definition respawn_params (nm : bytes) (m : SessionMetadata) (k : nat) : Result (SpawnParams * bool) bytes :=
  let reread := bool_decide (is_Some (tag_of PTYFILE (tags m))) in
  try i := launch_inputs k m in
  let p := SpawnParams_new (size_at g k) (ok_or_none (here_at g k)) nm (in_command i) (in_args i) in
  let p := p <| p_display_command := in_display i |>
             <| p_cwd := in_cwd i |>
             <| Launch.p_tags := shift_remove STATUS_TAG (in_tags i) |>
             <| Launch.p_display_name := Metadata.display_name m |> in
  Ok ((apply_persisted_launch_options p m) <| p_respawn := true |>, reread).

(** Giving up: the bookkeeping goes into the record as it is on disk. *)
Definition flap (nm : bytes) (current : SessionMetadata) (d : FlappingDecision) : M PermanentOutcome :=
  raw ← observe e (fun _ d => read_metadata_map e d nm);
  match (let? raw := raw in let? before := from_map raw in Some (raw, before)) with
  | None => mret PoStale
  | Some (raw, before) =>
      if negb (metadata_matches_observation current before) then mret PoStale
      else
        let after := set_tags (Some (insert_tags (bookkeeping d) (default [] (tags before)))) before in
        written ← write_metadata_map e nm (apply_metadata_diff before after raw);
        if negb written then mret PoStale
        else
          now ← observe e (fun k _ => now_text e k);
          _ ← append_event e s nm (session_flapping now nm (fl_counter d) (effective_limit d) (effective_window d));
          mret (PoFlapped (fl_counter d) (effective_limit d) (effective_window d))
  end.

Definition retry_record (current : SessionMetadata) (p : SpawnParams) : SessionMetadata :=
  set_tags (unless_empty (Launch.p_tags p)) current.
(** From the spawn on the record is the new daemon's to write: the event lock is free, and
    the creation lock's claim is delegated. *)
Definition launch_again (nm : bytes) (current : SessionMetadata) (prepared : PreparedDaemon) (p : SpawnParams) (reread : bool)
  : M (option PermanentOutcome) :=
  _ ← cleanup_all_while_locked e nm;
  _ ← let_go nm;
  spawn ← spawn_prepared_daemon e st fuel prepared p;
  match spawn with
  | None => mret None
  | Some (Ok _) => mret (Some (PoRespawned reread))
  | Some (Err err) =>
      left ← observe e (fun _ d => read_metadata e d nm);
      _ ← (match left with
           | None => write_metadata e nm (retry_record current p)
           | Some _ => mret true
           end);
      mret (Some (PoFailed (SpawnError_text err)))
  end.
Definition respawn (nm : bytes) (current : SessionMetadata) (exe : option bytes) (p : SpawnParams) (reread : bool)
  (d : FlappingDecision) : M (option PermanentOutcome) :=
  match exe with
  | None => mret (Some (PoFailed (str "daemon executable is required to respawn permanent sessions")))
  | Some exe =>
      prepared ← observe e (fun k _ => prepare_daemon e exe p (image_at st k exe));
      match prepared with
      | None => mret None
      | Some (Err err) => mret (Some (PoFailed (SpawnError_text err)))
      | Some (Ok prepared) =>
          let p := p <| Launch.p_tags ::= insert_tags (bookkeeping d) |> in
          found ← observe e (fun k _ => resolve_command_at g k (p_command p));
          match found with
          | Err cause => mret (Some (PoFailed cause))
          | Ok _ =>
              delegate ← observe e (fun k _ => delegate_at g k nm);
              match delegate with
              | Err cause => mret (Some (PoFailed cause))
              | Ok delegate =>
                  launch_again nm current prepared (p <| p_creation_lock_delegate := Some delegate |>) reread
              end
          end
      end
  end.
(** Under both locks; [None]: a wait used up its rounds. *)
Definition reconcile_locked (i : SessionInfo) (exe : option bytes) (window limit : option Z)
  : M (option PermanentOutcome) :=
  let nm := name i in
  current ← observe e (fun _ d => read_metadata e d nm);
  match current with
  | None => mret (Some PoStale)
  | Some current =>
      check ← observe e (identity_of nm current);
      let same := match info_metadata i with Some old => metadata_matches_observation old current | None => false end in
      if negb same || negb (is_permanent current) || negb (known_owner_lost check) then mret (Some PoStale)
      else
        params ← observe e (fun k _ => respawn_params nm current k);
        match params with
        | Err error => mret (Some (PoFailed error))
        | Ok (p, reread) =>
            admitted ← observe e (fun k _ => @check_publication (fence_at g k) (config_for p));
            match admitted with
            | Err error => mret (Some (PoFailed error))
            | Ok _ =>
                decision ← observe e (fun k _ =>
                  classify_flapping (sha256 e) current (p_command p) (p_args p) (now_at e k) window limit);
                match fl_action decision with
                | Skip => mret (Some PoSkippedFlapping)
                | Flap => out ← flap nm current decision; mret (Some out)
                | Respawn => respawn nm current exe p reread decision
                end
            end
        end
  end.
Definition reconcile_permanent (i : SessionInfo) (exe : option bytes) (window limit : option Z)
  : M (option PermanentOutcome) :=
  r ← with_both_locks e (name i) (reconcile_locked i exe window limit);
  mret (match r with Ok out => out | Err _ => Some PoStale end).

(** ** One pass *)

(** A step per session, in order, each adding to the result. *)
Fixpoint each {A} (step : A -> GcResult -> M GcResult) (l : list A) (r : GcResult) : M GcResult :=
  match l with
  | [] => mret r
  | x :: rest => r ← step x r; each step rest r
  end.
(** The same with steps that may use up their rounds. *)
Fixpoint each_opt {A} (step : A -> GcResult -> M (option GcResult)) (l : list A) (r : GcResult) : M (option GcResult) :=
  match l with
  | [] => mret (Some r)
  | x :: rest => out ← step x r; match out with Some r => each_opt step rest r | None => mret None end
  end.

Definition debris_step (nm : bytes) (r : GcResult) : M GcResult :=
  gone ← cleanup_raw_candidate_guarded nm;
  mret (if (gone : bool) then r <| removed ::= push_to nm |> else r).

(** The parent's record and what is known of its owner. *)
Definition parent_identity (parent : bytes) (k : nat) (d : Disk) : bool * DaemonIdentityCheck :=
  match read_metadata e d parent with
  | Some m => (true, identity_of parent m k d)
  | None => (false, if bool_decide (read_session_pid e d parent = None) && absent_path e d (socket_of_name e d parent)
                    then Gone else Unknown)
  end.
Definition orphan_step (dry : bool) (i : SessionInfo) (r : GcResult) : M GcResult :=
  match parent_of i with
  | None => mret r
  | Some parent =>
      parent_check ← observe e (parent_identity parent);
      let '(recorded, check) := (parent_check : bool * DaemonIdentityCheck) in
      if negb (known_owner_lost check) then mret r
      else
        own ← observe e (fun k d => match info_metadata i with
                                    | Some m => identity_of (name i) m k d
                                    | None => Unknown
                                    end);
        if bool_decide (own = Unknown) then mret r
        else
          let found := mkOrphan (name i) parent (if (recorded : bool) then str "dead" else str "missing") in
          if dry then mret (r <| killed_orphan_children ::= push_to found |>)
          else
            reap ← reap_observed_session i ModeOrphan;
            mret (match reap with
                  | Reaped _ => r <| killed_orphan_children ::= push_to found |>
                  | NotEligible => r
                  | Skipped why signalled => r <| reap_skipped ::= push_to (mkSkip (name i) (str "orphan") why signalled) |>
                  end)
  end.
Definition abandon_step (dry : bool) (global : option Z) (now_ms : Z) (i : SessionInfo) (r : GcResult) : M GcResult :=
  match info_metadata i with
  | None => mret r
  | Some m =>
      if negb (is_permanent m) then mret r
      else
        own ← (if dry then observe e (identity_of (name i) m) else mret Match);
        if dry && bool_decide (own = Unknown) then mret r
        else
          decision ← observe e (fun k _ => classify_abandoned (cwd_gone_at g k (cwd m)) m global now_ms);
          match decision with
          | None => mret r
          | Some decision =>
              if dry then mret (r <| abandoned ::= push_to (mkAbandoned (name i) decision) |>)
              else
                reap ← reap_observed_session i (ModeAbandoned global);
                mret (match reap with
                      | Reaped (Some decision) => r <| abandoned ::= push_to (mkAbandoned (name i) decision) |>
                      | Reaped None | NotEligible => r
                      | Skipped why signalled =>
                          r <| reap_skipped ::= push_to (mkSkip (name i) (str "abandoned") why signalled) |>
                      end)
          end
  end.
Definition note_permanent (nm : bytes) (out : PermanentOutcome) (r : GcResult) : GcResult :=
  match out with
  | PoRespawned reread => r <| respawned ::= push_to (mkRespawned nm reread) |>
  | PoFailed error => r <| respawn_failed ::= push_to (mkRespawnFailed nm error) |>
  | PoFlapped counter limit window => r <| flapped ::= push_to (mkFlapped nm counter limit window) |>
  | PoSkippedFlapping => r <| flapping_skipped ::= push_to nm |>
  | PoStale => r
  end.
(** A dry run takes the decision from the listing alone. *)
Definition plan_permanent (o : GcOptions) (nm : bytes) (m : SessionMetadata) : M PermanentOutcome :=
  params ← observe e (fun k _ => respawn_params nm m k);
  match params with
  | Err error => mret (PoFailed error)
  | Ok (p, reread) =>
      d ← observe e (fun k _ => classify_flapping (sha256 e) m (p_command p) (p_args p) (now_at e k)
                                  (fast_fail_window o) (fast_fail_limit o));
      mret (match fl_action d with
            | Skip => PoSkippedFlapping
            | Flap => PoFlapped (fl_counter d) (effective_limit d) (effective_window d)
            | Respawn => PoRespawned reread
            end)
  end.
Definition permanent_step (o : GcOptions) (excluded : list bytes) (i : SessionInfo) (r : GcResult) : M (option GcResult) :=
  match info_metadata i with
  | None => mret (Some r)
  | Some m =>
      if existsb (beq (name i)) excluded || negb (is_gone (info_status i)) || negb (is_permanent m) then mret (Some r)
      else
        own ← observe e (identity_of (name i) m);
        if negb (known_owner_lost own) then mret (Some r)
        else if dry_run o then out ← plan_permanent o (name i) m; mret (Some (note_permanent (name i) out r))
        else
          out ← reconcile_permanent i (daemon_executable o) (fast_fail_window o) (fast_fail_limit o);
          mret (match out with Some out => Some (note_permanent (name i) out r) | None => None end)
  end.
Definition finished_step (o : GcOptions) (now_ms : Z) (i : SessionInfo) (r : GcResult) : M GcResult :=
  finished ← observe e (fun k d => removable_finished k d i);
  match finished with
  | None => mret r
  | Some m =>
      let keep_requested := is_keep_requested (tags m) in
      if keep_requested && negb (is_keep_expired (Some m) now_ms (keep_max_age_ms o))
      then mret (r <| kept ::= push_to (name i) |>)
      else
        gone ← (if dry_run o then mret true else cleanup_observed_session i);
        mret (if (gone : bool)
              then if keep_requested then r <| keep_expired ::= push_to (name i) |>
                   else r <| removed ::= push_to (name i) |>
              else r)
  end.

Definition by_name : list SessionInfo -> list SessionInfo := sort_by (fun a b => bytes_leb (name a) (name b)).
Definition with_parent (l : list SessionInfo) : list SessionInfo :=
  by_name (List.filter (fun i => bool_decide (is_Some (parent_of i))) l).
(** A listing, or in a dry run the first one again. *)
Definition relist (o : GcOptions) (initial : list SessionInfo) : M (list SessionInfo) :=
  if dry_run o then mret initial else observe e (list_sessions_full_now e s).

(** The steps after the first listing; [None]: a launch used up its rounds. *)
Definition collect_debris (o : GcOptions) : M GcResult :=
  _ ← (if dry_run o then mret tt else cleanup_dead_registry_temps);
  raw ← observe e (inventory_raw_cleanup_candidates None);
  if dry_run o then mret (GcResult_default <| removed := raw |>)
  else each debris_step raw GcResult_default.
Definition excluded_names (r : GcResult) : list bytes := map an_name (abandoned r) ++ map ok_name (killed_orphan_children r).
Definition gc (o : GcOptions) : M (option GcResult) :=
  r ← collect_debris o;
  initial ← observe e (list_sessions_full_now e s);
  r ← each (orphan_step (dry_run o)) (with_parent initial) r;
  after_step1 ← relist o initial;
  now_ms ← observe e (fun k _ => now_at e k);
  r ← each (abandon_step (dry_run o) (idle_days o) now_ms) after_step1 r;
  after_step15 ← relist o initial;
  out ← each_opt (permanent_step o (excluded_names r)) after_step15 r;
  match out with
  | None => mret None
  | Some r =>
      final ← relist o initial;
      now_ms ← observe e (fun k _ => now_at e k);
      r ← each (finished_step o now_ms) final r;
      mret (Some r)
  end.

(** ** Layout tags of processes that are gone *)

Record PrunedTags : Type := mkPruned { pt_name : bytes; removed_keys : list bytes }.
Definition orphan_tag (k : nat) (key : bytes) : bool :=
  match orphan_layout_tag_pid key with
  | None => false
  | Some None => true
  | Some (Some pid) => (pid <=? 0) || negb (in_range I32_MIN I32_MAX pid && alive_at g k pid)
  end.
Definition prune_step (dry : bool) (i : SessionInfo) : M (option PrunedTags) :=
  if negb (is_running_status (info_status i)) || negb (bool_decide (info_identity i = Match)) then mret None
  else match (let? m := info_metadata i in tags m) with
  | None => mret None
  | Some tags =>
      to_remove ← observe e (fun k _ => List.filter (orphan_tag k) (mkeys tags));
      if negb (is_nonempty to_remove) then mret None
      else
        done ← (if dry then mret true else update_tags e s (name i) [] to_remove);
        mret (if (done : bool) then Some (mkPruned (name i) to_remove) else None)
  end.
Fixpoint prune_all (dry : bool) (l : list SessionInfo) : M (list PrunedTags) :=
  match l with
  | [] => mret []
  | i :: rest => p ← prune_step dry i; more ← prune_all dry rest; mret (match p with Some p => p :: more | None => more end)
  end.
Definition prune_orphan_layout_tags (dry : bool) : M (list PrunedTags) :=
  listed ← observe e (list_sessions_now e s);
  prune_all dry listed.
End Gc.
