(* ===== verification/GcSafe.v ===== *)
(** What a pass of garbage collection may do: every removal, signal, write and launch of
    [Gc.v] with the evidence that allows it, and a dry run that does nothing. *)
From S2P Require Import Prelude Mutate Ptyfile Events ProcTable ProcessTree Operation Json Metadata Time Names Text Order Identity MetadataCache Inventory Flapping Files Effects Stop Launch Gc.

(** ** Programs and what they leave *)

Lemma adds_each P {A} (step : A -> GcResult -> M GcResult) l r :
  (forall x r, adds P (step x r)) -> adds P (each step l r).
Proof.
  intros H. revert r. induction l as [|x l IH]; intros r; cbn [each]; [apply adds_ret|].
  apply adds_bind; [apply H|intros r'; apply IH].
Qed.
Lemma adds_each_opt P {A} (step : A -> GcResult -> M (option GcResult)) l r :
  (forall x r, adds P (step x r)) -> adds P (each_opt step l r).
Proof.
  intros H. revert r. induction l as [|x l IH]; intros r; cbn [each_opt]; [apply adds_ret|].
  apply adds_bind; [apply H|]. intros [r'|]; [apply IH|apply adds_ret].
Qed.

Lemma after_last_none s : 47 ∉ s -> after_last 47 s = None.
Proof.
  induction s as [|x s IH]; intros H; [done|]. apply not_elem_of_cons in H as [Hx H]. cbn [after_last].
  rewrite IH by done. destruct (Z.eqb_spec x 47); [congruence|done].
Qed.
Lemma after_last_suffix s suf : 47 ∉ suf -> after_last 47 (s ++ suf) = (fun t => t ++ suf) <$> after_last 47 s.
Proof.
  intros H. induction s as [|x s IH]; cbn [app after_last]; [rewrite after_last_none; done|]. rewrite IH.
  destruct (after_last 47 s); [done|]. cbn. destruct (x =? 47); done.
Qed.
Lemma file_name_suffix s suf : 47 ∉ suf -> file_name (s ++ suf) = file_name s ++ suf.
Proof. intros H. unfold file_name. rewrite after_last_suffix by done. destruct (after_last 47 s); done. Qed.
Lemma after_last_free s t : after_last 47 s = Some t -> 47 ∉ t.
Proof.
  revert t. induction s as [|x s IH]; intros t; [done|]. cbn [after_last]. destruct (after_last 47 s) as [u|] eqn:E.
  - intros [= <-]. apply IH. done.
  - destruct (x =? 47); [|done]. intros [= <-]. clear -E. induction s as [|y s IH]; [apply not_elem_of_nil|].
    cbn [after_last] in E. destruct (after_last 47 s) eqn:F; [discriminate|]. destruct (Z.eqb_spec y 47); [discriminate|].
    apply not_elem_of_cons. split; [congruence|apply IH; done].
Qed.
Lemma file_name_free s : 47 ∉ file_name s.
Proof.
  unfold file_name. destruct (after_last 47 s) as [t|] eqn:E; [exact (after_last_free s t E)|].
  induction s as [|y s IH]; [apply not_elem_of_nil|]. cbn [after_last] in E.
  destruct (after_last 47 s) eqn:F; [discriminate|]. destruct (Z.eqb_spec y 47); [discriminate|].
  apply not_elem_of_cons. split; [congruence|apply IH; done].
Qed.
Lemma file_name_at_root e p : file_name (at_root e p) = file_name p.
Proof.
  unfold at_root, resolve. destruct (existsb _ _); [|done]. apply file_name_join, file_name_free.
Qed.
Lemma path_join_suffix root nm suf : path_join root (nm ++ suf) = path_join root nm ++ suf.
Proof. destruct root as [|x root]; [done|]. unfold path_join. destruct (bool_decide _); rewrite <- app_assoc; done. Qed.
(** The event log and the record are different files. *)
Lemma events_apart e nm : at_root e (events_path (root e) nm) <> at_root e (metadata_path (root e) nm).
Proof.
  intros E. apply (f_equal file_name) in E. rewrite !file_name_at_root in E. unfold events_path, metadata_path in E.
  rewrite !path_join_suffix, !file_name_suffix in E by (apply (bool_decide_unpack (47 ∉ _)); vm_compute; exact I).
  apply app_inv_head in E. discriminate.
Qed.

Section Safe.
Context (e : Env) (s : Scans) (kn : Kernel) {I : Incarnations kn} (st : Starter) (g : Surroundings) `{U : Unicode}.
Context (fuel : nat).
#[local] Arguments at_root : simpl never.
Implicit Types (w : Files.World) (nm : bytes) (k j : nat) (d : Disk) (o : GcOptions) (P : Action -> Prop).

(** *** The record does not move under the locks *)

Lemma companion_record nm : In (at_root e (metadata_path (root e) nm)) (companions e nm).
Proof. unfold companions. apply in_or_app. left. right. left. reflexivity. Qed.
Lemma record_held nm w : In nm (held w) -> read_metadata e (disk (breathe e w)) nm = read_metadata e (disk w) nm.
Proof.
  intros H. unfold read_metadata, read_metadata_map. rewrite (breathe_held e nm) by (done || apply companion_record). done.
Qed.
Lemma record_appended nm ev w :
  read_metadata e (disk (snd (append_event e s nm ev w))) nm = read_metadata e (disk w) nm
  /\ held (snd (append_event e s nm ev w)) = held w.
Proof.
  unfold append_event. destruct (log_content e (disk w) nm); [|done]. destruct (write_at e (moment w)); [|done].
  unfold read_metadata, read_metadata_map. cbn. rewrite lookup_insert_ne by apply events_apart. done.
Qed.

(** *** The evidence *)

(** Listed by this run, at a moment up to [k]. *)
Definition listed w (i : SessionInfo) k : Prop :=
  exists j d, (j <= k)%nat /\ disk_at w j d /\ i ∈ list_sessions_full_now e s j d.
Definition same (i : SessionInfo) (m : SessionMetadata) : Prop :=
  exists observed, info_metadata i = Some observed /\ metadata_matches_observation observed m = true.
(** The record was on disk, with its owner lost. *)
Definition lost w nm (m : SessionMetadata) k : Prop :=
  exists j d, (j <= k)%nat /\ disk_at w j d /\ read_metadata e d nm = Some m /\ known_owner_lost (identity_of e nm m j d) = true.
(** The record on the disk [d] is the listed session's, and its owner was found lost. *)
Record found w (i : SessionInfo) (m : SessionMetadata) k d : Prop := {
  f_listed : listed w i k;
  f_record : read_metadata e d (name i) = Some m;
  f_same : same i m;
  f_lost : lost w (name i) m k
}.
(** Why a listed session may go: finished, not permanent and not kept, or no longer;
    its parent's owner lost; or abandoned, by the record found under the locks. *)
Inductive policy o w (i : SessionInfo) k : Prop :=
  | ByFinished observed j d jn dn :
      (j <= k)%nat -> disk_at w j d -> removable_finished e j d i = Some observed ->
      (jn <= k)%nat -> disk_at w jn dn ->
      (is_keep_requested (tags observed) = true ->
       is_keep_expired (Some observed) (now_at e jn) (keep_max_age_ms o) = true) -> policy o w i k
  | ByOrphan parent j d :
      (j <= k)%nat -> disk_at w j d -> parent_of i = Some parent ->
      known_owner_lost (snd (parent_identity e parent j d)) = true -> policy o w i k
  | ByAbandoned observed m j0 d j decision :
      (j0 <= j <= k)%nat -> disk_at w j0 d -> read_metadata e d (name i) = Some m ->
      info_metadata i = Some observed ->
      revalidate_abandonment (cwd_gone_at g j (cwd m)) observed m (idle_days o) (now_at e j) = Some decision ->
      policy o w i k.
(** A permanent session that can be started again from its record. *)
Definition respawnable nm (m : SessionMetadata) (p : SpawnParams) k : Prop :=
  is_permanent m = true
  /\ (exists j reread, (j <= k)%nat /\ respawn_params g nm m j = Ok (p, reread))
  /\ exists j, (j <= k)%nat /\ @check_publication (fence_at g j) (config_for p) = Ok tt.
Definition removable o w nm k d : Prop :=
  is_debris e nm k d = true
  \/ exists i m, name i = nm /\ found w i m k d /\ (policy o w i k \/ exists p, respawnable nm m p k).

(** The launch that follows the removal of a permanent session's files, for the record
    that was removed: its parameters, passed by the fence. *)
Definition relaunch w nm (m : SessionMetadata) (p : SpawnParams) k : Prop :=
  exists i k0 d0 p0, name i = nm /\ (k0 <= k)%nat /\ In (Cleaned nm k0 d0) (done_ w) /\ found w i m k0 d0
    /\ respawnable nm m p0 k0
    /\ p_command p = p_command p0 /\ p_args p = p_args p0 /\ p_cwd p = p_cwd p0
    /\ p_publication_binding p = p_publication_binding p0 /\ Launch.p_name p = nm.
(** SIGTERM, under a policy, to the process that was found to be the daemon of the record
    read for that session. *)
Definition to_daemon o w nm (fd : nat) (signal : Z) k : Prop :=
  signal = SIGTERM
  /\ exists i m j0 d, name i = nm /\ listed w i k /\ policy o w i k
     /\ (j0 <= k)%nat /\ disk_at w j0 d /\ read_metadata e d nm = Some m /\ same i m
     /\ (exists_at kn k fd -> exists j pid, (j0 <= j <= k)%nat /\ holder j pid = Some fd
           /\ @check_daemon_identity (host_at e j) pid m = Match).
(** A record is written to give up on a session that dies too fast, or when its launch
    failed and left none. *)
Inductive rewritten o w nm (written : IndexMap Value) k d : Prop :=
  | ByFlap i m p j reread jd raw before :
      name i = nm -> listed w i k -> same i m -> lost w nm m k -> is_permanent m = true ->
      (j <= k)%nat -> respawn_params g nm m j = Ok (p, reread) ->
      (jd <= k)%nat ->
      let fd := classify_flapping (sha256 e) m (p_command p) (p_args p) (now_at e jd) (fast_fail_window o) (fast_fail_limit o) in
      fl_action fd = Flap ->
      read_metadata_map e d nm = Some raw -> from_map raw = Some before -> metadata_matches_observation m before = true ->
      written = apply_metadata_diff before (set_tags (Some (insert_tags (bookkeeping fd) (default [] (tags before)))) before) raw ->
      rewritten o w nm written k d
  | ByRetry m p :
      relaunch w nm m p k -> read_metadata e d nm = None -> written = publication_map (retry_record m p) ->
      rewritten o w nm written k d.
Definition authorised o w (a : Action) : Prop :=
  match a with
  | Cleaned nm k d => removable o w nm k d
  | Signalled nm fd signal k => to_daemon o w nm fd signal k
  | Spawned nm k _ => exists exe m p, daemon_executable o = Some exe /\ relaunch w nm m p k /\ admitted e st exe p a
  | Killed _ _ k => exists exe m p nm, daemon_executable o = Some exe /\ relaunch w nm m p k /\ admitted e st exe p a
  | Wrote nm m k d => rewritten o w nm m k d
  | Logged _ _ => True
  | Swept path => exists pid j d, atomic_temp_pid (file_name path) = Some pid /\ disk_at w j d /\ alive_at g j pid = false
  | Retired _ _ _ => False
  end.

(** *** What is known stays known *)

Section Later.
Context (P : Action -> Prop) w w' (G : grows P w w').

Lemma listed_later i k k' : (k <= k')%nat -> listed w i k -> listed w' i k'.
Proof. intros Hk (j & d & Hj & D & H). exists j, d. split; [lia|]. split; [exact (any_disk _ _ _ _ _ G D)|exact H]. Qed.
Lemma lost_later nm m k k' : (k <= k')%nat -> lost w nm m k -> lost w' nm m k'.
Proof. intros Hk (j & d & Hj & D & H). exists j, d. split; [lia|]. split; [exact (any_disk _ _ _ _ _ G D)|exact H]. Qed.
Lemma found_later i m k k' d : (k <= k')%nat -> found w i m k d -> found w' i m k' d.
Proof. intros Hk [L R S Lo]. split; [exact (listed_later _ _ _ Hk L)|exact R|exact S|exact (lost_later _ _ _ _ Hk Lo)]. Qed.
Lemma policy_later o i k k' : (k <= k')%nat -> policy o w i k -> policy o w' i k'.
Proof.
  intros Hk [observed j d jn dn Hj D F Hn Dn K|parent j d Hj D F L|observed m j0 d j decision Hj D R F H].
  - eapply (ByFinished _ _ _ _ observed j d jn dn); try done; [lia|exact (any_disk _ _ _ _ _ G D)|lia|exact (any_disk _ _ _ _ _ G Dn)].
  - eapply (ByOrphan _ _ _ _ parent j d); try done; [lia|exact (any_disk _ _ _ _ _ G D)].
  - eapply (ByAbandoned _ _ _ _ observed m j0 d j decision); try done; [lia|exact (any_disk _ _ _ _ _ G D)].
Qed.
Lemma relaunch_later nm m p k k' : (k <= k')%nat -> relaunch w nm m p k -> relaunch w' nm m p k'.
Proof.
  intros Hk (i & k0 & d0 & p0 & Hn & H0 & Hd & F & H). exists i, k0, d0, p0. split; [exact Hn|]. split; [lia|].
  split; [exact (any_done _ _ _ _ G Hd)|]. split; [exact (found_later _ _ _ _ _ (Nat.le_refl _) F)|exact H].
Qed.
Lemma authorised_later o a : authorised o w a -> authorised o w' a.
Proof.
  assert (Le : forall k : nat, (k <= k)%nat) by (intros k; lia).
  destruct a as [nm k d|nm k d|nm m k d|nm l|nm fd sg k|nm k d|pid sg k|path]; cbn [authorised]; try done.
  - intros [H|(i & m & Hn & F & H)]; [left; exact H|]. right. exists i, m. split; [exact Hn|].
    split; [exact (found_later _ _ _ _ _ (Le k) F)|]. destruct H as [H|H]; [left; exact (policy_later _ _ _ _ (Le k) H)|right; exact H].
  - intros [i m0 p j reread jd raw before Hn L S Lo Pe Hj Rp Hjd fd Fl Rd Fm Mm W|m0 p R N W].
    + eapply (ByFlap o w' nm m k d i m0 p j reread jd raw before); try done;
        [exact (listed_later _ _ _ (Le k) L)|exact (lost_later _ _ _ _ (Le k) Lo)].
    + eapply (ByRetry o w' nm m k d m0 p); try done. exact (relaunch_later _ _ _ _ _ (Le k) R).
  - intros [Hs (i & m & j0 & d & Hn & L & Pol & Hj & D & R)]. split; [exact Hs|]. exists i, m, j0, d.
    split; [exact Hn|]. split; [exact (listed_later _ _ _ (Le k) L)|]. split; [exact (policy_later _ _ _ _ (Le k) Pol)|].
    split; [exact Hj|]. split; [exact (any_disk _ _ _ _ _ G D)|exact R].
  - intros (exe & m & p & He & R & A). exists exe, m, p. split; [exact He|]. split; [exact (relaunch_later _ _ _ _ _ (Le k) R)|exact A].
  - intros (exe & m & p & nm & He & R & A). exists exe, m, p, nm. split; [exact He|].
    split; [exact (relaunch_later _ _ _ _ _ (Le k) R)|exact A].
  - intros (pid & j & d & T & D & A). exists pid, j, d. split; [exact T|]. split; [exact (any_disk _ _ _ _ _ G D)|exact A].
Qed.
End Later.
#[local] Instance authorised_lasting o : Lasting (authorised o).
Proof. intros w w' a G. exact (authorised_later _ _ _ G o a). Qed.

(** Nothing but log lines. *)
Definition idle (a : Action) : Prop := match a with Logged _ _ => True | _ => False end.
Lemma idle_gains o w w' : grows idle w w' -> gains (authorised o) w w'.
Proof. apply gains_grows. intros []; done. Qed.
Lemma one_gains o w w' a : since w w' -> done_ w' = done_ w ++ [a] -> authorised o w' a -> gains (authorised o) w w'.
Proof. intros S E H. split; [exact S|]. exists [a]. split; [exact E|]. constructor; [exact H|constructor]. Qed.
Lemma idle_breathe w : grows idle w (breathe e w).
Proof. apply grows_breathe. Qed.
(** A step that adds only log lines, then the rest. *)
Lemma idle_bind o {A B} (m : M A) (f : A -> M B) w0 w :
  grows idle w0 w -> adds idle m -> (forall a w', grows idle w0 w' -> wpm (f a) (fun _ => gains (authorised o) w0) w') ->
  wpm (m ≫= f) (fun _ => gains (authorised o) w0) w.
Proof.
  intros G Hm Hf. apply wpm_bind. eapply wpm_mono; [apply Hm|]. intros a w' G'. apply Hf. exact (grows_trans _ _ _ _ G G').
Qed.
Definition gaining o {A} (m : M A) : Prop := forall w, wpm m (fun _ => gains (authorised o) w) w.
Lemma gaining_bind o {A B} (m : M A) (f : A -> M B) : gaining o m -> (forall a, gaining o (f a)) -> gaining o (m ≫= f).
Proof.
  intros Hm Hf w. apply wpm_bind. eapply wpm_mono; [apply Hm|]. intros a w1 G1. apply gains_then; [apply _|exact G1|apply Hf].
Qed.
Lemma gaining_idle o {A} (m : M A) : adds idle m -> gaining o m.
Proof. intros H w. eapply wpm_mono; [apply H|]. intros a w' G. apply idle_gains, G. Qed.
Lemma gaining_ret o {A} (a : A) : gaining o (mret a).
Proof. apply gaining_idle, adds_ret. Qed.
Lemma gaining_observe o {A} (f : nat -> Disk -> A) : gaining o (observe e f).
Proof. apply gaining_idle, adds_observe. Qed.
(** A section under both locks, run with the name held. *)
Lemma gains_with_locks o {A} nm (f : M A) (R : A -> Files.World -> Prop) w :
  (forall a w1 w2, moment w1 = moment w2 -> past w1 = past w2 -> done_ w1 = done_ w2 -> R a w1 -> R a w2) ->
  (forall w', grows idle w w' -> In nm (held w') -> wpm f (fun a w'' => gains (authorised o) w' w'' /\ R a w'') w') ->
  wpm (with_both_locks e nm f) (fun r w' => gains (authorised o) w w' /\ match r with Ok a => R a w' | Err _ => True end) w.
Proof.
  intros HR H. unfold with_both_locks, lock_or_refusal. apply wpm_bind, wpm_observe.
  destruct (lock_at e _ _) as [?|[|?]]; try (apply wpm_ret; split; [apply gains_breathe|done]).
  assert (G2 : grows idle w (breathe e (breathe e w))) by (eapply grows_trans; apply idle_breathe).
  apply wpm_bind, wpm_observe. destruct (lock_at e _ _) as [?|[|?]]; try (apply wpm_ret; split; [apply idle_gains, G2|done]).
  apply wpm_bind, wpm_hold. set (w3 := set_field _ _ _).
  assert (G3 : grows idle w w3) by (eapply grows_trans; [exact G2|apply grows_same; done]).
  apply wpm_bind. eapply wpm_mono; [apply H; [exact G3|left; reflexivity]|]. cbn beta. intros out w4 [G4 H4].
  apply wpm_bind, wpm_let_go, wpm_ret. split; [|apply (HR out w4); done].
  apply (gains_trans _ _ _ _ (idle_gains o _ _ G3)), (gains_trans _ _ _ _ G4). apply idle_gains, grows_same; done.
Qed.
Lemma gaining_with_locks o {A} nm (f : M A) : gaining o f -> gaining o (with_both_locks e nm f).
Proof.
  intros H w. eapply wpm_mono; [apply (gains_with_locks o nm f (fun _ _ => True)); [done|]|].
  - intros w' _ _. eapply wpm_mono; [apply H|]. intros a w'' G. split; [exact G|exact Logic.I].
  - intros r w' [G _]. exact G.
Qed.

(** *** Debris and temporary files *)

Lemma cleaned_gains o nm w :
  authorised o w (Cleaned nm (moment w) (disk w)) -> wpm (cleanup_all_while_locked e nm) (fun _ => gains (authorised o) w) w.
Proof.
  intros H. unfold wpm. rewrite cleanup_all_eq. set (w' := set_field _ _ _).
  assert (S : since w w') by (apply since_refl; done). eapply one_gains; [exact S|reflexivity|].
  apply (authorised_later (fun _ => True) w); [|exact H]. split; [exact S|]. eexists. split; [reflexivity|]. constructor; done.
Qed.
Lemma adds_unlink P p : adds P (unlink e p).
Proof. apply adds_bind; [apply adds_remove|intros; apply adds_ret]. Qed.
Lemma gaining_sweep_temps o entries : gaining o (sweep_temps e g entries).
Proof.
  induction entries as [|[path file] rest IH]; cbn [sweep_temps]; [apply gaining_ret|].
  apply gaining_bind; [|intros _; exact IH]. destruct (atomic_temp_pid (file_name path)) as [pid|] eqn:T; [|apply gaining_ret].
  destruct (negb (is_regular file)); [apply gaining_ret|]. intros w. apply wpm_bind, wpm_observe.
  destruct (alive_at g _ pid) eqn:A; [apply wpm_ret, gains_breathe|]. apply wpm_bind, wpm_act. set (w1 := set_field _ _ _).
  assert (S1 : since (breathe e w) w1) by (apply since_refl; done).
  apply gains_then; [apply _| |apply gaining_idle, adds_unlink].
  eapply one_gains; [exact (since_trans _ _ _ (since_breathe e w) S1)|reflexivity|].
  exists pid, (moment (breathe e w)), (disk (breathe e w)). split; [exact T|].
  split; [apply (disk_at_since _ _ _ _ S1), disk_at_breathe|exact A].
Qed.
Lemma gaining_registry_temps o : gaining o (cleanup_dead_registry_temps e g).
Proof.
  assert (H : forall l, gaining o (cleanup_dead_atomic_temps e g l)).
  { intros l. apply gaining_bind; [apply gaining_observe|]. intros found_. apply gaining_sweep_temps. }
  apply gaining_bind; [apply H|]. intros _. apply gaining_bind; [apply H|]. intros _. apply H.
Qed.
Lemma gaining_debris o nm : gaining o (cleanup_raw_candidate_guarded e nm).
Proof.
  apply gaining_bind; [apply gaining_with_locks|intros; apply gaining_ret].
  intros w. apply wpm_bind, wpm_observe. destruct (is_debris e nm _ _) eqn:D; cbn [negb]; [|apply wpm_ret, gains_breathe].
  apply wpm_bind, wpm_act. apply gains_then; [apply _| |].
  - eapply one_gains; [eapply since_trans; [apply (since_breathe e w)|apply since_refl; done]|reflexivity|]. left. exact D.
  - apply gaining_idle. apply adds_bind; [apply adds_cleanup_socket|]. intros _.
    repeat (apply adds_bind; [apply adds_unlink|intros _]). apply adds_ret.
Qed.

(** *** Finished sessions *)

Lemma still_lost_found i observed w :
  info_metadata i = Some observed -> listed w i (moment w) -> disk_at w (moment w) (disk w) ->
  still_lost e i observed (moment w) (disk w) = true -> exists m, found w i m (moment w) (disk w).
Proof.
  unfold still_lost. intros Hi L D H. destruct (read_metadata e _ (name i)) as [m|] eqn:R; [|discriminate].
  apply andb_prop in H as [Hm Hl]. exists m. split; [exact L|exact R|exists observed; done|].
  exists (moment w), (disk w). done.
Qed.
Lemma gains_cleanup_observed o i w : listed w i (moment w) -> policy o w i (moment w) ->
  wpm (cleanup_observed_session e i) (fun _ => gains (authorised o) w) w.
Proof.
  intros L Pol. unfold cleanup_observed_session. destruct (info_metadata i) as [observed|] eqn:Hi; [|apply wpm_ret, gains_refl].
  apply wpm_bind. eapply wpm_mono.
  { apply (gains_with_locks o (name i) _ (fun _ _ => True)); [done|]. intros w1 G1 _. apply wpm_bind, wpm_observe.
    set (w2 := breathe e w1). assert (G2 := grows_trans _ _ _ _ G1 (idle_breathe w1)). fold w2 in G2.
    destruct (still_lost e i observed _ _) eqn:Lo; [|apply wpm_ret; split; [apply gains_breathe|done]].
    assert (K : (moment w <= moment w2)%nat) by (destruct G2 as [[? _] _]; lia).
    apply still_lost_found in Lo as [m F]; [|exact Hi|exact (listed_later _ _ _ G2 _ _ _ K L)|apply disk_at_breathe].
    apply wpm_bind. eapply wpm_mono; [apply (cleaned_gains o)|].
    - right. exists i, m. split; [done|]. split; [exact F|]. left. exact (policy_later _ _ _ G2 _ _ _ _ K Pol).
    - intros u w' G. apply wpm_ret. split; [|done]. apply (gains_trans _ _ w2); [apply gains_breathe|exact G]. }
  cbn beta. intros r w' [G _]. apply wpm_ret. exact G.
Qed.
Lemma gains_finished_step o now jn dn i r w : dry_run o = false -> listed w i (moment w) ->
  now = now_at e jn -> (jn <= moment w)%nat -> disk_at w jn dn ->
  wpm (finished_step e o now i r) (fun _ => gains (authorised o) w) w.
Proof.
  intros Hd L -> Hj Dn. apply wpm_bind, wpm_observe. set (w1 := breathe e w).
  destruct (removable_finished e _ _ i) as [m|] eqn:F; [|apply wpm_ret, gains_breathe].
  cbv beta zeta. destruct (is_keep_requested (tags m) && negb (is_keep_expired (Some m) _ (keep_max_age_ms o))) eqn:K; [apply wpm_ret, gains_breathe|].
  rewrite Hd. assert (G1 := idle_breathe w). fold w1 in G1. apply wpm_bind. apply wpm_mono with (fun _ => gains (authorised o) w).
  2: { intros gone w' G. apply wpm_ret. exact G. }
  apply gains_then; [apply _|apply idle_gains, G1|]. apply gains_cleanup_observed.
  - apply (listed_later _ _ _ G1 _ (moment w)); [cbn; lia|exact L].
  - eapply (ByFinished _ _ _ _ m (moment w1) (disk w1) jn dn); [done|apply disk_at_breathe|exact F|cbn; lia|exact (any_disk _ _ _ _ _ G1 Dn)|].
    intros E. rewrite E in K. cbn in K. apply negb_false_iff in K. exact K.
Qed.

(** *** Signals *)

Lemma identity_now_match nm pid m k d x :
  identity_now e nm pid m false k d = Ok x -> @check_daemon_identity (host_at e k) pid m = Match.
Proof.
  unfold identity_now. cbn [negb]. destruct (bool_decide _) eqn:B; [|discriminate]. intros _.
  apply bool_decide_eq_true_1 in B. exact B.
Qed.
Lemma signal_daemon_gains o i pid m j0 d w :
  listed w i (moment w) -> policy o w i (moment w) -> same i m ->
  (j0 <= moment w)%nat -> disk_at w j0 d -> read_metadata e d (name i) = Some m ->
  wpm (signal_daemon e kn (name i) pid m) (fun _ => gains (authorised o) w) w.
Proof.
  intros L Pol Sm Hj D Rm. unfold signal_daemon. apply wpm_bind. eapply wpm_mono; [apply (wpm_open_with e kn idle)|]. cbn beta.
  intros [h|err] w1 [G1 H1]; [|apply wpm_ret, idle_gains, G1]. destruct H1 as [(k1 & Hk & Hh) X].
  apply wpm_bind. unfold handle_signal. apply wpm_bind. eapply wpm_mono; [apply wpm_handle_require|]. cbn beta.
  assert (G2 := grows_trans _ _ _ _ G1 (idle_breathe w1)).
  intros [u|err] w2 [-> Hid]; [|apply wpm_ret, wpm_ret, idle_gains, G2].
  rewrite X in Hid. apply identity_now_match in Hid. apply wpm_bind. apply wpm_send_pinned. intros sent w3 Sn Em Ed.
  assert (K1 : (moment w <= moment w1)%nat) by (destruct G1 as [[? _] _]; lia).
  assert (Any : grows (fun _ => True) w w3).
  { apply (grows_trans _ w (breathe e w1)); [eapply grows_weaken; [|exact G2]; done|]. split; [exact Sn|].
    eexists. split; [exact Ed|]. constructor; done. }
  assert (G3 : gains (authorised o) w w3).
  { apply (gains_trans _ _ _ _ (idle_gains o _ _ G2)). eapply one_gains; [exact Sn|exact Ed|]. split; [done|].
    exists i, m, j0, d. split; [done|]. cbn [moment breathe] in *.
    split; [apply (listed_later _ _ _ Any _ (moment w)); [lia|exact L]|].
    split; [apply (policy_later _ _ _ Any _ _ (moment w)); [lia|exact Pol]|]. split; [lia|].
    split; [exact (any_disk _ _ _ _ _ Any D)|]. split; [exact Rm|]. split; [exact Sm|].
    intros [p' Hp']. exists (S (moment w1)), pid. split; [lia|]. split; [|exact Hid].
    apply (holder_kept k1 (S (S (moment w1))) _ pid p'); [lia|exact Hh|exact Hp']. }
  destruct sent; apply wpm_ret; cbn; apply wpm_ret; exact G3.
Qed.

(** *** Reaping *)

(** The first section's answer comes from a policy that holds. *)
Definition mode_policy o w (i : SessionInfo) (mode : ReapMode) : Prop :=
  match mode with ModeOrphan => policy o w i (moment w) | ModeAbandoned global => global = idle_days o end.
Lemma reap_signal_gains o i observed mode w :
  info_metadata i = Some observed -> listed w i (moment w) -> mode_policy o w i mode ->
  wpm (reap_signal e kn g i observed mode) (fun r w' => gains (authorised o) w w' /\
    match r with Ok (decision, _) => policy o w' i (moment w') | Err _ => True end) w.
Proof.
  intros Hi L Hp. unfold reap_signal. apply wpm_bind, wpm_observe. destruct (read_metadata e _ (name i)) as [m|] eqn:Rm.
  2: { apply wpm_ret. split; [apply gains_breathe|done]. }
  apply wpm_bind. set (w1 := breathe e w). assert (G1 := idle_breathe w). fold w1 in G1.
  apply wpm_mono with (fun r w' => grows idle w1 w' /\ match r with Ok _ => policy o w' i (moment w') /\ same i m | Err _ => True end).
  { destruct mode as [|global].
    - apply wpm_ret. split; [apply grows_refl|]. destruct (metadata_matches_observation _ _) eqn:Mm; [|done].
      split; [|exists observed; done]. apply (policy_later _ _ _ G1 _ _ (moment w)); [cbn; lia|exact Hp].
    - cbn in Hp. subst global. apply wpm_bind, wpm_observe, wpm_ret. split; [apply idle_breathe|].
      destruct (revalidate_abandonment _ _ _ _ _) as [decision|] eqn:R; [|done]. split.
      + eapply (ByAbandoned _ _ _ _ observed m (moment w1) (disk w1) (moment (breathe e w1))); [cbn; lia| |exact Rm|exact Hi|exact R].
        apply (any_disk _ _ _ _ _ (idle_breathe w1)), disk_at_breathe.
      + exists observed. split; [exact Hi|]. unfold revalidate_abandonment in R.
        destruct (metadata_matches_observation observed m); [done|discriminate R]. }
  intros [decision|why] w2 [G12 Pol]; assert (G2 := grows_trans _ _ _ _ G1 G12);
    [|apply wpm_ret; split; [apply idle_gains, G2|done]]. destruct Pol as [Pol Sm]. apply wpm_bind, wpm_observe.
  set (w3 := breathe e w2). assert (G3 := grows_trans _ _ _ _ G2 (idle_breathe w2)). fold w3 in G3.
  assert (Pol3 : policy o w3 i (moment w3)) by (apply (policy_later _ _ _ (idle_breathe w2) _ _ (moment w2)); [cbn; lia|exact Pol]).
  destruct (identity_of e (name i) m _ _); try (apply wpm_ret; split; [apply idle_gains, G3|done]).
  apply wpm_bind, wpm_observe. set (w4 := breathe e w3). assert (G4 := grows_trans _ _ _ _ G3 (idle_breathe w3)). fold w4 in G4.
  assert (Pol4 : policy o w4 i (moment w4)) by (apply (policy_later _ _ _ (idle_breathe w3) _ _ (moment w3)); [cbn; lia|exact Pol3]).
  destruct (pid_or _ _) as [pid|]; [|apply wpm_ret; split; [apply idle_gains, G4|done]]. apply wpm_bind.
  assert (K1 : (moment w1 <= moment w4)%nat) by (destruct G12 as [[? _] _]; subst w4 w3; cbn [moment breathe]; lia).
  eapply wpm_mono.
  { apply (signal_daemon_gains o i pid m (moment w1) (disk w1)); [|exact Pol4|exact Sm|exact K1| |exact Rm].
    - apply (listed_later _ _ _ G4 _ (moment w)); [cbn [moment breathe w1] in K1; subst w1; cbn [moment breathe] in K1; lia|exact L].
    - assert (G14 : grows idle w1 w4).
      { apply (grows_trans _ _ _ _ G12), (grows_trans _ _ w3); apply idle_breathe. }
      apply (any_disk _ _ _ _ _ G14), disk_at_breathe. }
  intros sent w5 G5. apply wpm_ret. split; [exact (gains_trans _ _ _ _ (idle_gains o _ _ G4) G5)|].
  destruct sent; [|done]. destruct G5 as [[K5 Pa5] (new & E5 & _)].
  apply (policy_later (fun _ => True) w4 w5) with (k := moment w4); [|lia|exact Pol4].
  split; [split; [exact K5|exact Pa5]|]. exists new. split; [exact E5|]. apply Forall_forall. done.
Qed.
Lemma found_after i m w w' :
  grows idle w w' -> read_metadata e (disk w') (name i) = read_metadata e (disk w) (name i) ->
  found w i m (moment w) (disk w) -> found w' i m (moment w') (disk w').
Proof.
  intros G R F. assert (K : (moment w <= moment w')%nat) by (destruct G as [[? _] _]; lia).
  destruct (found_later _ _ _ G i m _ _ _ K F) as [L Rd Sm Lo]. split; [exact L|rewrite R; exact Rd|exact Sm|exact Lo].
Qed.
Lemma reap_remove_gains o i observed decision w :
  In (name i) (held w) -> info_metadata i = Some observed -> listed w i (moment w) -> policy o w i (moment w) ->
  wpm (reap_remove e s i observed decision) (fun _ => gains (authorised o) w) w.
Proof.
  intros Hh Hi L Pol. unfold reap_remove. apply wpm_bind, wpm_observe. set (w1 := breathe e w).
  assert (G1 := idle_breathe w). fold w1 in G1.
  destruct (still_lost e i observed _ _) eqn:Lo; cbn [negb]; [|apply wpm_ret, gains_breathe].
  apply still_lost_found in Lo as [m F];
    [|exact Hi|apply (listed_later _ _ _ G1 _ (moment w)); [cbn; lia|exact L]|apply disk_at_breathe].
  apply wpm_bind. apply wpm_mono with (fun _ w' => grows idle w w' /\ found w' i m (moment w') (disk w')).
  { destruct decision as [decision|]; [|apply wpm_ret; done]. apply wpm_bind, wpm_observe. set (w2 := breathe e w1).
    assert (F2 : found w2 i m (moment w2) (disk w2)) by (apply (found_after i m w1); [apply idle_breathe|apply record_held; exact Hh|exact F]).
    match goal with |- wpm (append_event e s (name i) ?ev) _ _ => set (event := ev) end.
    pose proof (adds_append_event e s idle (name i) event (fun _ => Logic.I) w2) as G3.
    pose proof (record_appended (name i) event w2) as [R _].
    unfold wpm in *. split; [exact (grows_trans _ _ _ _ G1 (grows_trans _ _ _ _ (idle_breathe w1) G3))|].
    apply (found_after i m w2); [exact G3|exact R|exact F2]. }
  intros u w3 [G3 F3]. apply wpm_bind. assert (K3 : (moment w <= moment w3)%nat) by (destruct G3 as [[? _] _]; lia).
  eapply wpm_mono; [apply (cleaned_gains o)|].
  - right. exists i, m. split; [done|]. split; [exact F3|]. left. exact (policy_later _ _ _ G3 _ _ _ _ K3 Pol).
  - intros u' w4 G4. apply wpm_ret. exact (gains_trans _ _ _ _ (idle_gains o _ _ G3) G4).
Qed.
Lemma reap_gains o i mode w : listed w i (moment w) -> mode_policy o w i mode ->
  wpm (reap_observed_session e s kn g i mode) (fun _ => gains (authorised o) w) w.
Proof.
  intros L Hp. unfold reap_observed_session. destruct (info_metadata i) as [observed|] eqn:Hi; [|apply wpm_ret, gains_refl].
  apply wpm_bind. eapply wpm_mono.
  { apply (gains_with_locks o (name i) _ (fun r w' => match r with Ok (decision, _) => policy o w' i (moment w') | Err _ => True end)).
    - intros [[decision h]|why] w1 w2 E1 E2 E3 H; [|done]. apply (policy_later (fun _ => True) w1 w2) with (k := moment w1); [|lia|exact H].
      split; [apply since_refl; congruence|]. exists []. rewrite app_nil_r. split; [congruence|constructor].
    - intros w1 G1 _. assert (K1 : (moment w <= moment w1)%nat) by (destruct G1 as [[? _] _]; lia).
      apply reap_signal_gains; [exact Hi|exact (listed_later _ _ _ G1 _ _ _ K1 L)|].
      destruct mode; [exact (policy_later _ _ _ G1 _ _ _ _ K1 Hp)|exact Hp]. }
  cbn beta. intros [[[decision handle]|why]|busy] w1 [G1 Pol]; try (apply wpm_ret; exact G1).
  apply wpm_bind. apply wpm_mono with (fun _ w' => grows idle w1 w').
  { destruct handle; [apply wpm_observe, idle_breathe|apply wpm_ret, grows_refl]. }
  intros gone w2 G12. assert (G2 := gains_trans _ _ _ _ G1 (idle_gains o _ _ G12)).
  destruct (negb gone); [apply wpm_ret; exact G2|]. apply wpm_bind. eapply wpm_mono.
  { apply (gains_with_locks o (name i) _ (fun _ _ => True)); [done|]. intros w3 G3 Hh.
    assert (G13 := grows_trans _ _ _ _ G12 G3).
    assert (K3 : (moment w1 <= moment w3)%nat) by (destruct G13 as [[? _] _]; lia).
    eapply wpm_mono; [apply (reap_remove_gains o i observed decision w3 Hh Hi)|intros b w4 G; done].
    - assert (K1 : (moment w <= moment w1)%nat) by (destruct G1 as [[? _] _]; lia).
      apply (listed_later _ _ _ G13 _ (moment w1)); [exact K3|].
      exact (listed_later _ _ _ (gains_any _ _ _ G1) _ _ _ K1 L).
    - exact (policy_later _ _ _ G13 _ _ _ _ K3 Pol). }
  cbn beta. intros second w3 [G3 _]. apply wpm_ret. exact (gains_trans _ _ _ _ G2 G3).
Qed.

(** *** Permanent sessions *)

(** Held, with this record, listed, whose owner is lost. *)
Record pinned i (m : SessionMetadata) w : Prop := {
  pn_held : In (name i) (held w);
  pn_found : found w i m (moment w) (disk w)
}.
Lemma pinned_breathe i m w : pinned i m w -> pinned i m (breathe e w).
Proof.
  intros [H F]. split; [exact H|]. apply (found_after i m w); [apply idle_breathe|apply record_held; exact H|exact F].
Qed.
Lemma respawn_params_name nm m k p reread : respawn_params g nm m k = Ok (p, reread) -> Launch.p_name p = nm.
Proof.
  unfold respawn_params. destruct (launch_inputs g k m) as [i|]; [|discriminate]. cbn [rbind]. intros [= <- _]. done.
Qed.
Lemma respawnable_name nm m p k : respawnable nm m p k -> Launch.p_name p = nm.
Proof. intros (_ & (j & reread & _ & R) & _). exact (respawn_params_name _ _ _ _ _ R). Qed.
Lemma respawnable_later nm m p k k' : (k <= k')%nat -> respawnable nm m p k -> respawnable nm m p k'.
Proof.
  intros Hk (Pe & (j & reread & Hj & R) & (j' & Hj' & C)). split; [exact Pe|]. split; [exists j, reread|exists j']; (split; [lia|done]).
Qed.

Section Respawn.
Context (o : GcOptions) (i : SessionInfo) (m : SessionMetadata) (p0 : SpawnParams).

Lemma flap_gains p j reread jd w : pinned i m w -> is_permanent m = true ->
  (j <= moment w)%nat -> respawn_params g (name i) m j = Ok (p, reread) -> (jd <= moment w)%nat ->
  let fd := classify_flapping (sha256 e) m (p_command p) (p_args p) (now_at e jd) (fast_fail_window o) (fast_fail_limit o) in
  fl_action fd = Flap -> wpm (flap e s (name i) m fd) (fun _ => gains (authorised o) w) w.
Proof.
  intros Pn Pe Hj Rp Hjd fd Fl. unfold flap. apply wpm_bind, wpm_observe. set (w1 := breathe e w).
  assert (G1 := idle_breathe w). fold w1 in G1. apply pinned_breathe in Pn. fold w1 in Pn. destruct Pn as [_ [L _ Sm Lo]].
  destruct (read_metadata_map e (disk w1) (name i)) as [raw|] eqn:Rd; cbn [mbind option_bind]; [|apply wpm_ret, gains_breathe].
  destruct (from_map raw) as [before|] eqn:F; cbn [mbind option_bind]; [|apply wpm_ret, gains_breathe].
  destruct (metadata_matches_observation m before) eqn:Mm; cbn [negb]; [|apply wpm_ret, gains_breathe]. cbv zeta.
  apply wpm_bind. apply wpm_mono with (fun _ => gains (authorised o) w).
  { apply gains_then; [apply _|apply idle_gains, G1|]. unfold write_metadata_map, wpm. destruct (write_at e (moment w1)); [|apply gains_refl].
    set (w2 := snd _). assert (S : since w1 w2) by (apply since_refl; done).
    eapply one_gains; [exact S|reflexivity|]. apply (authorised_later (fun _ => True) w1).
    { split; [exact S|]. eexists. split; [reflexivity|]. constructor; done. }
    eapply (ByFlap o w1 (name i) _ (moment w1) (disk w1) i m p j reread jd raw before); try done; cbn [moment breathe w1]; subst w1; cbn [moment breathe]; lia. }
  intros written w2 G2. destruct (negb written); [apply wpm_ret; exact G2|]. apply wpm_bind, wpm_observe.
  assert (G3 := gains_trans _ _ _ _ G2 (gains_breathe e (authorised o) w2)). apply wpm_bind. eapply wpm_mono.
  { apply gains_then; [apply _|exact G3|]. apply gaining_idle, adds_append_event. done. }
  intros u w4 G4. apply wpm_ret. exact G4.
Qed.

Lemma launch_again_gains exe prepared p reread w :
  daemon_executable o = Some exe -> respawnable (name i) m p0 (moment w) ->
  p_command p = p_command p0 -> p_args p = p_args p0 -> p_cwd p = p_cwd p0 ->
  p_publication_binding p = p_publication_binding p0 -> Launch.p_name p = Launch.p_name p0 ->
  (forall b, p_publication_binding p = Some b -> exists j, verified e (image_at st j exe)) -> pinned i m w ->
  wpm (launch_again e st fuel (name i) m prepared p reread) (fun _ => gains (authorised o) w) w.
Proof.
  intros He Rs E1 E2 E3 E4 E5 Hv Pn. unfold launch_again. set (k0 := moment w). set (d0 := disk w).
  assert (A0 : authorised o w (Cleaned (name i) k0 d0)).
  { right. exists i, m. split; [done|]. split; [exact (pn_found _ _ _ Pn)|]. right. exists p0. exact Rs. }
  apply wpm_bind. apply wpm_mono with (fun _ w1 => gains (authorised o) w w1 /\ relaunch w1 (name i) m p (moment w1)).
  { pose proof (cleaned_gains o (name i) w A0) as G1. unfold wpm in G1 |- *. split; [exact G1|]. clear G1.
    rewrite cleanup_all_eq. set (w1 := snd _). exists i, k0, d0, p0. split; [done|]. split; [cbn; lia|].
    split; [cbn; apply in_or_app; right; left; reflexivity|]. split.
    - apply (found_later (fun _ => True) w) with (k := k0); [|lia|exact (pn_found _ _ _ Pn)].
      split; [apply since_refl; done|]. eexists. split; [reflexivity|]. constructor; done.
    - split; [exact Rs|]. repeat (split; [assumption|]). rewrite E5. exact (respawnable_name _ _ _ _ Rs). }
  intros u w1 [G1 Re]. apply wpm_bind, wpm_let_go. set (w2 := set_field _ _ _).
  assert (G12 : grows idle w1 w2) by (apply grows_same; done).
  assert (G2 : gains (authorised o) w w2) by exact (gains_trans _ _ _ _ G1 (idle_gains o _ _ G12)).
  assert (Re2 : relaunch w2 (name i) m p (moment w2)) by (apply (relaunch_later _ _ _ G12 _ _ _ (moment w1)); [done|exact Re]).
  apply wpm_bind. apply wpm_mono with (fun _ w3 => gains (authorised o) w w3 /\ relaunch w3 (name i) m p (moment w3)).
  { eapply wpm_mono; [apply (spawn_prepared_timed e st fuel exe prepared p w2 Hv)|]. cbn beta. intros spawn w3 G3.
    assert (Any : grows (fun _ => True) w2 w3) by (eapply grows_weaken; [|exact G3]; done).
    assert (K3 : (moment w2 <= moment w3)%nat) by (destruct G3 as [[? _] _]; lia).
    split; [|exact (relaunch_later _ _ _ Any _ _ _ _ _ K3 Re2)]. apply (gains_trans _ _ _ _ G2).
    eapply gains_grows; [|exact G3]. intros a [Ha Hk]. destruct a as [| | | | |nm k d|pid sg k|]; cbn in Ha, Hk |- *; try done.
    - destruct Ha as [-> Ha]. replace (Launch.p_name p) with (name i) by (rewrite E5; symmetry; exact (respawnable_name _ _ _ _ Rs)).
      exists exe, m, p. split; [exact He|]. split; [exact (relaunch_later _ _ _ Any _ _ _ _ _ Hk Re2)|].
      split; [rewrite E5; symmetry; exact (respawnable_name _ _ _ _ Rs)|exact Ha].
    - exists exe, m, p, (name i). split; [exact He|]. split; [exact (relaunch_later _ _ _ Any _ _ _ _ _ Hk Re2)|exact Ha]. }
  intros spawn w3 [G3 Re3]. destruct spawn as [[sd|err]|]; try (apply wpm_ret; exact G3).
  apply wpm_bind, wpm_observe. set (w4 := breathe e w3). assert (G34 := idle_breathe w3). fold w4 in G34.
  assert (G4 := gains_trans _ _ _ _ G3 (idle_gains o _ _ G34)).
  destruct (read_metadata e (disk w4) (name i)) eqn:Rd; [apply wpm_bind, wpm_ret, wpm_ret; exact G4|].
  apply wpm_bind. apply wpm_mono with (fun _ => gains (authorised o) w); [|intros written w5 G5; apply wpm_ret; exact G5].
  apply gains_then; [apply _|exact G4|]. unfold write_metadata, write_metadata_map, wpm.
  destruct (write_at e (moment w4)); [|apply gains_refl]. set (w5 := snd _).
  assert (S : since w4 w5) by (apply since_refl; done). eapply one_gains; [exact S|reflexivity|].
  apply (authorised_later (fun _ => True) w4); [split; [exact S|]; eexists; split; [reflexivity|]; constructor; done|].
  eapply (ByRetry o w4 (name i) _ (moment w4) (disk w4) m p); [|exact Rd|reflexivity].
  apply (relaunch_later _ _ _ G34 _ _ _ (moment w3)); [cbn; lia|exact Re3].
Qed.
Lemma respawn_gains w reread0 fd : pinned i m w -> respawnable (name i) m p0 (moment w) ->
  wpm (respawn e st g fuel (name i) m (daemon_executable o) p0 reread0 fd) (fun _ => gains (authorised o) w) w.
Proof.
  intros Hp Rs. unfold respawn. destruct (daemon_executable o) as [exe|] eqn:He; [|apply wpm_ret, gains_refl].
  apply wpm_bind, wpm_observe. set (w1 := breathe e w). assert (P1 := pinned_breathe _ _ _ Hp).
  destruct (prepare_daemon e exe p0 _) as [[prepared|err]|] eqn:Pr; try (apply wpm_ret, gains_breathe).
  apply wpm_bind, wpm_observe. set (w2 := breathe e w1). assert (P2 := pinned_breathe _ _ _ P1).
  assert (G2 : grows idle w w2) by (eapply grows_trans; apply idle_breathe).
  destruct (resolve_command_at g _ _); [|apply wpm_ret, idle_gains, G2].
  apply wpm_bind, wpm_observe. set (w3 := breathe e w2). assert (P3 := pinned_breathe _ _ _ P2).
  assert (G3 := grows_trans _ _ _ _ G2 (idle_breathe w2)).
  destruct (delegate_at g _ _) as [delegate|]; [|apply wpm_ret, idle_gains, G3].
  apply gains_then; [apply _|apply idle_gains, G3|]. apply (launch_again_gains exe); try done.
  - apply (respawnable_later _ _ _ (moment w)); [cbn; lia|exact Rs].
  - intros b B. eexists. eapply prepare_daemon_verified; [exact Pr|]. exact B.
Qed.
End Respawn.

Lemma reconcile_locked_gains o i w : In (name i) (held w) -> listed w i (moment w) ->
  wpm (reconcile_locked e s st g fuel i (daemon_executable o) (fast_fail_window o) (fast_fail_limit o))
    (fun _ => gains (authorised o) w) w.
Proof.
  intros Hh Li. unfold reconcile_locked. apply wpm_bind, wpm_observe. set (w1 := breathe e w).
  assert (G1 := idle_breathe w). fold w1 in G1.
  destruct (read_metadata e (disk w1) (name i)) as [m|] eqn:R1; [|apply wpm_ret, idle_gains, G1].
  apply wpm_bind, wpm_observe. set (w2 := breathe e w1).
  assert (G2 := grows_trans _ _ _ _ G1 (idle_breathe w1)). fold w2 in G2.
  assert (R2 : read_metadata e (disk w2) (name i) = Some m) by (unfold w2; rewrite record_held by exact Hh; exact R1).
  destruct (negb _ || negb (is_permanent m) || negb _) eqn:C; [apply wpm_ret, idle_gains, G2|].
  apply orb_false_iff in C as [C L]. apply orb_false_iff in C as [Same Perm]. apply negb_false_iff in Same, Perm, L.
  assert (P2 : pinned i m w2).
  { split; [exact Hh|]. split; [apply (listed_later _ _ _ G2 _ (moment w)); [cbn; lia|exact Li]|exact R2| |].
    - destruct (info_metadata i) as [old|] eqn:Eo; [exists old; done|discriminate].
    - exists (moment w2), (disk w2). split; [done|]. split; [apply disk_at_breathe|done]. }
  apply wpm_bind, wpm_observe. set (w3 := breathe e w2). assert (P3 := pinned_breathe _ _ _ P2). fold w3 in P3.
  assert (G3 := grows_trans _ _ _ _ G2 (idle_breathe w2)). fold w3 in G3.
  destruct (respawn_params g (name i) m (moment w3)) as [[p reread]|error] eqn:Ep; [|apply wpm_ret, idle_gains, G3].
  apply wpm_bind, wpm_observe. set (w4 := breathe e w3). assert (P4 := pinned_breathe _ _ _ P3). fold w4 in P4.
  assert (G4 := grows_trans _ _ _ _ G3 (idle_breathe w3)). fold w4 in G4.
  destruct (check_publication _) as [[]|error] eqn:Ef; [|apply wpm_ret, idle_gains, G4].
  apply wpm_bind, wpm_observe. set (w5 := breathe e w4). assert (P5 := pinned_breathe _ _ _ P4). fold w5 in P5.
  assert (G5 := grows_trans _ _ _ _ G4 (idle_breathe w4)). fold w5 in G5.
  destruct (fl_action _) eqn:Fl; [| |apply wpm_ret, idle_gains, G5].
  - apply gains_then; [apply _|apply idle_gains, G5|]. apply respawn_gains; [exact P5|]. split; [exact Perm|].
    split; [exists (moment w3), reread; split; [cbn; lia|exact Ep]|exists (moment w4); split; [cbn; lia|exact Ef]].
  - apply wpm_bind. apply wpm_mono with (fun _ => gains (authorised o) w); [|intros out w6 G6; apply wpm_ret; exact G6].
    apply gains_then; [apply _|apply idle_gains, G5|].
    apply (flap_gains o i m p (moment w3) reread (moment w5)); try done; cbn; lia.
Qed.
Lemma reconcile_gains o i w : listed w i (moment w) ->
  wpm (reconcile_permanent e s st g fuel i (daemon_executable o) (fast_fail_window o) (fast_fail_limit o))
    (fun _ => gains (authorised o) w) w.
Proof.
  intros L. apply wpm_bind. eapply wpm_mono.
  { apply (gains_with_locks o (name i) _ (fun _ _ => True)); [done|]. intros w1 G1 Hh.
    assert (K1 : (moment w <= moment w1)%nat) by (destruct G1 as [[? _] _]; lia).
    eapply wpm_mono; [apply (reconcile_locked_gains o i w1 Hh), (listed_later _ _ _ G1 _ _ _ K1 L)|]. intros a w2 G. done. }
  cbn beta. intros r w1 [G _]. apply wpm_ret. exact G.
Qed.

(** *** The pass *)

Lemma gains_orphan_step o i r w : dry_run o = false -> listed w i (moment w) ->
  wpm (orphan_step e s kn g (dry_run o) i r) (fun _ => gains (authorised o) w) w.
Proof.
  intros Hd L. rewrite Hd. unfold orphan_step. destruct (parent_of i) as [parent|] eqn:Pa; [|apply wpm_ret, gains_refl].
  apply wpm_bind, wpm_observe. set (w1 := breathe e w). assert (G1 := idle_breathe w). fold w1 in G1.
  destruct (parent_identity e parent (moment w1) (disk w1)) as [recorded check] eqn:Pi.
  destruct (known_owner_lost check) eqn:Lo; cbn [negb]; [|apply wpm_ret, idle_gains, G1].
  apply wpm_bind, wpm_observe. set (w2 := breathe e w1). assert (G2 := grows_trans _ _ _ _ G1 (idle_breathe w1)). fold w2 in G2.
  destruct (bool_decide _); [apply wpm_ret, idle_gains, G2|]. apply wpm_bind.
  apply wpm_mono with (fun _ => gains (authorised o) w); [|intros reap w3 G3; apply wpm_ret; exact G3].
  apply gains_then; [apply _|apply idle_gains, G2|]. apply reap_gains.
  - apply (listed_later _ _ _ G2 _ (moment w)); [cbn; lia|exact L].
  - eapply (ByOrphan _ _ _ _ parent (moment w1) (disk w1)); [cbn; lia| |exact Pa|rewrite Pi; exact Lo].
    apply (any_disk _ _ _ _ _ (idle_breathe w1)), disk_at_breathe.
Qed.
Lemma gains_abandon_step o now i r w : dry_run o = false -> listed w i (moment w) ->
  wpm (abandon_step e s kn g (dry_run o) (idle_days o) now i r) (fun _ => gains (authorised o) w) w.
Proof.
  intros Hd L. rewrite Hd. unfold abandon_step. destruct (info_metadata i) as [m|]; [|apply wpm_ret, gains_refl].
  destruct (negb (is_permanent m)); [apply wpm_ret, gains_refl|]. apply wpm_bind, wpm_ret. cbn [andb].
  apply wpm_bind, wpm_observe. set (w1 := breathe e w). assert (G1 := idle_breathe w). fold w1 in G1.
  destruct (classify_abandoned _ _ _ _); [|apply wpm_ret, idle_gains, G1]. apply wpm_bind.
  apply wpm_mono with (fun _ => gains (authorised o) w); [|intros reap w3 G3; apply wpm_ret; exact G3].
  apply gains_then; [apply _|apply idle_gains, G1|]. apply (reap_gains o i (ModeAbandoned (idle_days o))); [|done].
  apply (listed_later _ _ _ G1 _ (moment w)); [cbn; lia|exact L].
Qed.
Lemma gains_permanent_step o excluded i r w : dry_run o = false -> listed w i (moment w) ->
  wpm (permanent_step e s st g fuel o excluded i r) (fun _ => gains (authorised o) w) w.
Proof.
  intros Hd L. unfold permanent_step. destruct (info_metadata i) as [m|]; [|apply wpm_ret, gains_refl].
  destruct (_ || _ || _); [apply wpm_ret, gains_refl|]. apply wpm_bind, wpm_observe. set (w1 := breathe e w).
  assert (G1 := idle_breathe w). fold w1 in G1.
  destruct (negb _); [apply wpm_ret, idle_gains, G1|]. rewrite Hd. apply wpm_bind.
  apply wpm_mono with (fun _ => gains (authorised o) w); [|intros out w3 G3; apply wpm_ret; exact G3].
  apply gains_then; [apply _|apply idle_gains, G1|]. apply reconcile_gains.
  apply (listed_later _ _ _ G1 _ (moment w)); [cbn; lia|exact L].
Qed.
(** The steps of a loop, each for a session that is known to be listed. *)
Definition known_all (l : list SessionInfo) w : Prop := forall i, i ∈ l -> listed w i (moment w).
Lemma known_later P l w w' : grows P w w' -> known_all l w -> known_all l w'.
Proof.
  intros G H i Hi. assert (K : (moment w <= moment w')%nat) by (destruct G as [[? _] _]; lia).
  exact (listed_later _ _ _ G _ _ _ K (H i Hi)).
Qed.
Lemma known_rest i l w : known_all (i :: l) w -> known_all l w.
Proof. intros H x Hx. apply H. right. exact Hx. Qed.
Lemma gains_each o K (step : SessionInfo -> GcResult -> M GcResult) l r w :
  (forall P w w', grows P w w' -> K w -> K w') ->
  (forall i r w, K w -> listed w i (moment w) -> wpm (step i r) (fun _ => gains (authorised o) w) w) ->
  K w -> known_all l w -> wpm (each step l r) (fun _ => gains (authorised o) w) w.
Proof.
  intros Hl Hs. revert r w. induction l as [|i l IH]; intros r w HK Kn; cbn [each]; [apply wpm_ret, gains_refl|].
  apply wpm_bind. eapply wpm_mono; [apply Hs; [exact HK|apply Kn; left]|]. intros r' w1 G1.
  apply gains_then; [apply _|exact G1|].
  apply IH; [exact (Hl _ _ _ (gains_any _ _ _ G1) HK)|]. exact (known_later _ _ _ _ (gains_any _ _ _ G1) (known_rest _ _ _ Kn)).
Qed.
Lemma gains_each_opt o (step : SessionInfo -> GcResult -> M (option GcResult)) l r w :
  (forall i r w, listed w i (moment w) -> wpm (step i r) (fun _ => gains (authorised o) w) w) ->
  known_all l w -> wpm (each_opt step l r) (fun _ => gains (authorised o) w) w.
Proof.
  intros Hs. revert r w. induction l as [|i l IH]; intros r w Kn; cbn [each_opt]; [apply wpm_ret, gains_refl|].
  apply wpm_bind. eapply wpm_mono; [apply Hs, Kn; left|]. intros [r'|] w1 G1; [|apply wpm_ret; exact G1].
  apply gains_then; [apply _|exact G1|]. apply IH. exact (known_later _ _ _ _ (gains_any _ _ _ G1) (known_rest _ _ _ Kn)).
Qed.
Lemma listing_known w : known_all (list_sessions_full_now e s (moment (breathe e w)) (disk (breathe e w))) (breathe e w).
Proof. intros i Hi. exists (moment (breathe e w)), (disk (breathe e w)). split; [done|]. split; [apply disk_at_breathe|exact Hi]. Qed.
Lemma with_parent_in l i : i ∈ with_parent l -> i ∈ l.
Proof.
  unfold with_parent, by_name. rewrite sort_by_perm. intros H. apply list_elem_of_In, List.filter_In in H as [H _].
  apply list_elem_of_In, H.
Qed.

(** A dry run only looks. *)
Definition nothing (a : Action) : Prop := False.
Lemma adds_dry o : dry_run o = true -> adds nothing (gc e s kn st g fuel o).
Proof.
  intros Hd. assert (Re : forall l, adds nothing (relist e s o l)) by (intros l; unfold relist; rewrite Hd; apply adds_ret).
  unfold gc. apply adds_bind.
  { unfold collect_debris. rewrite Hd. apply adds_bind; [apply adds_ret|]. intros _.
    apply adds_bind; [apply adds_observe|]. intros raw. apply adds_ret. }
  intros r1. apply adds_bind; [apply adds_observe|]. intros initial. apply adds_bind.
  { apply adds_each. intros i r. rewrite Hd. unfold orphan_step. destruct (parent_of i); [|apply adds_ret].
    apply adds_bind; [apply adds_observe|]. intros [recorded check]. destruct (negb _); [apply adds_ret|].
    apply adds_bind; [apply adds_observe|]. intros own. destruct (bool_decide _); apply adds_ret. }
  intros r2. apply adds_bind; [apply Re|]. intros l1. apply adds_bind; [apply adds_observe|]. intros now. apply adds_bind.
  { apply adds_each. intros i r. rewrite Hd. unfold abandon_step. destruct (info_metadata i) as [m|]; [|apply adds_ret].
    destruct (negb _); [apply adds_ret|]. apply adds_bind; [apply adds_observe|]. intros own.
    destruct (_ && _); [apply adds_ret|]. apply adds_bind; [apply adds_observe|]. intros [decision|]; apply adds_ret. }
  intros r3. apply adds_bind; [apply Re|]. intros l2. apply adds_bind.
  { apply adds_each_opt. intros i r. unfold permanent_step. destruct (info_metadata i) as [m|]; [|apply adds_ret].
    destruct (_ || _ || _); [apply adds_ret|]. apply adds_bind; [apply adds_observe|]. intros own.
    destruct (negb _); [apply adds_ret|]. rewrite Hd. apply adds_bind; [|intros out; apply adds_ret].
    apply adds_bind; [apply adds_observe|]. intros [[p reread]|error]; [|apply adds_ret].
    apply adds_bind; [apply adds_observe|]. intros fd. apply adds_ret. }
  intros [r4|]; [|apply adds_ret]. apply adds_bind; [apply Re|]. intros l3. apply adds_bind; [apply adds_observe|]. intros now2.
  apply adds_bind; [|intros r5; apply adds_ret]. apply adds_each. intros i r.
  apply adds_bind; [apply adds_observe|]. intros [m|]; [|apply adds_ret].
  cbv beta zeta. destruct (is_keep_requested (tags m) && _); [apply adds_ret|]. rewrite Hd.
  apply adds_bind; [apply adds_ret|]. intros gone. apply adds_ret.
Qed.
Lemma gaining_debris_pass o : dry_run o = false -> gaining o (collect_debris e g o).
Proof.
  intros Hd. unfold collect_debris. rewrite Hd. apply gaining_bind; [apply gaining_registry_temps|]. intros _.
  apply gaining_bind; [apply gaining_observe|]. intros raw. generalize GcResult_default.
  induction raw as [|nm raw IH]; intros r; cbn [each]; [apply gaining_ret|]. apply gaining_bind; [|exact IH].
  apply gaining_bind; [apply gaining_debris|]. intros gone. apply gaining_ret.
Qed.


(** A dry run has no effect: it removes, writes, signals and starts nothing. *)
Theorem dry_run_only_looks o w :
  dry_run o = true -> wpm (gc e s kn st g fuel o) (fun _ w' => done_ w' = done_ w) w.
Proof.
  intros Hd. eapply wpm_mono; [apply (adds_dry o Hd)|]. intros r w' [_ (new & E & F)].
  destruct new as [|a new]; [rewrite E; apply app_nil_r|]. inversion F as [|? ? []].
Qed.

(** *** What a respawn keeps *)

(** A managed session is started again only with the command, the arguments, the
    directory and the binding its record has: a manifest that says otherwise refuses. *)
Theorem managed_inputs_kept nm m k p reread b :
  respawn_params g nm m k = Ok (p, reread) -> publication_binding m = Some b ->
  p_command p = command m /\ p_args p = args m /\ p_cwd p = cwd m
  /\ p_publication_binding p = Some b /\ p_publication_root_id p = publication_root_id m.
Proof.
  intros H B. unfold respawn_params in H. destruct (launch_inputs g k m) as [i|] eqn:L; [|discriminate].
  cbn [rbind] in H. injection H as <- _. cbn. rewrite B.
  enough (in_command i = command m /\ in_args i = args m /\ in_cwd i = cwd m) by (repeat split; tauto).
  unfold launch_inputs in L. rewrite B in L.
  cbv zeta in L.
  destruct (mget PTYFILE (default [] (tags m))) as [path|],
    (mget PTYFILE_SESSION (default [] (tags m))) as [short|]; try (injection L as <-; done).
  destruct (bound_session g k (Some path) (Some short)) as [[file session]|]; [|injection L as <-; done].
  rewrite ?B, (bool_decide_eq_true_2 (is_Some (Some b))) in L by eauto. cbn [andb] in L.
  destruct (negb _ || negb _ || negb _) eqn:C in L; [discriminate|]. injection L as <-.
  apply orb_false_iff in C as [C C3]. apply orb_false_iff in C as [C1 C2].
  apply negb_false_iff in C1, C2, C3. apply beq_eq in C1, C3. apply bool_decide_eq_true_1 in C2. done.
Qed.

(** A launch that fails before a daemon published leaves the permanent session's record,
    to be tried again: it is there, or was there, or its writing was refused. *)
Theorem failed_launch_keeps_session nm m prepared p reread w :
  wpm (launch_again e st fuel nm m prepared p reread) (fun r w' =>
    match r with
    | Some (PoFailed _) =>
        (exists d m', read_metadata e d nm = Some m') \/ (exists k, write_at e k = false)
        \/ disk w' !! at_root e (metadata_path (root e) nm) = Some (Regular (render e (publication_map (retry_record m p))))
    | _ => True
    end) w.
Proof.
  unfold launch_again. apply wpm_bind. eapply wpm_mono; [apply wpm_top|]. intros u w1 _. apply wpm_bind, wpm_let_go.
  apply wpm_bind. eapply wpm_mono; [apply wpm_top|]. intros [[sd|err]|] w2 _; try (apply wpm_ret; done).
  apply wpm_bind, wpm_observe. destruct (read_metadata e (disk (breathe e w2)) nm) as [m'|] eqn:R.
  { apply wpm_bind, wpm_ret, wpm_ret. left. eauto. }
  apply wpm_bind. unfold write_metadata, write_metadata_map, wpm at 1.
  destruct (write_at e (moment (breathe e w2))) eqn:W; apply wpm_ret; [|right; left; eauto].
  right. right. cbn [snd disk set_field]. apply lookup_insert_eq.
Qed.
End Safe.

(** ** A finished session and a permanent one whose launch fails *)

Definition perm_fields : list (bytes * Value) :=
  [(str "daemonPid", VNum (NInt 4242)); (str "daemonStartToken", VStr (str "linux:8811"));
   (str "daemonBootId", VStr (str "linux:boot-a")); (str "command", VStr (str "/bin/sh")); (str "generation", VStr (str "g"));
   (str "exitedAt", VStr (str "2025-01-01T00:00:05.000Z"));
   (str "tags", VObj [(str "strategy", VStr (str "permanent")); (LAST_TAG, VStr (str "2025-01-01T00:00:00.000Z"));
                      (FAILS_TAG, VStr (str "1")); (HASH_TAG, VStr (str "0707070707070707"))])].
Definition gc_json (text : bytes) : option (list (bytes * Value)) :=
  if beq text (str "perm") then Some perm_fields else demo_text text.
Definition gc_env : Env := {|
  root := str "/r"; sha256 := demo_sha; json := gc_json; render := fun _ => str "perm"; link := None; canonical := None;
  others := fun _ d => d; dir_at := fun _ => None; host_at := fun _ => demo_host "9000";
  lock_at := fun _ _ => Ok tt; now_at := fun _ => 1735689660000; write_at := fun _ => true; unlink_at := fun _ _ => true
|}.
Definition gc_disk : Disk :=
  list_to_map [(str "/r/a.json", Regular (str "live")); (str "/r/p.json", Regular (str "perm"));
               (str "/r/bad.json", Regular (str "oops")); (str "/r/x.json.tmp.77.0123456789abcdef", Regular [])].
Definition gc_world : Files.World := mkWorld gc_disk 0 [] [].
Definition no_fence : Fence := {| root_id := Err []; fence_check := fun _ _ _ => Ok tt |}.
Definition gc_around : Surroundings := {|
  cwd_gone_at := fun _ _ => false; alive_at := fun _ _ => false; table_text := fun _ => []; read_text_at := fun _ _ => Err None;
  toml := fun _ => Err []; size_at := fun _ => (24, 80); here_at := fun _ => Ok (str "/"); fence_at := fun _ => no_fence;
  resolve_command_at := fun _ c => Ok c; delegate_at := fun _ _ => Ok (mkDelegate 1 []); sidecar_at := fun _ _ => false
|}.
Definition gc_starter : Starter := {|
  image_at := fun _ _ => mkImage None (Err []) (Err []) (Err []) None []; start_at := fun _ _ _ => Ok 17;
  try_wait_at := fun _ _ => Some (Some 1); stderr_at := fun _ _ => str "no"; ready_at := fun _ _ => false;
  reaped_at := fun _ _ => true; revoked_at := fun _ _ _ => Ok false; clock_at := fun k => Z.of_nat k
|}.
Definition gc_options (dry : bool) : GcOptions := mkGcOptions dry 0 None None None (Some (str "/pty")).
Definition demo_gc (dry : bool) :=
  @gc gc_env demo_scans (demo_kernel 0) gc_starter gc_around demo_unicode 10 (gc_options dry) gc_world.

Example demo_collected :
  match fst (demo_gc false) with
  | Some r => removed r = [str "bad"; str "a"] /\ map rf_name (respawn_failed r) = [str "p"]
  | None => False
  end.
Proof. vm_compute. auto. Qed.
Example demo_done :
  map (fun a => match a with Cleaned nm _ _ => nm | Swept _ => str "swept" | Spawned _ _ _ => str "spawned"
                | Wrote nm _ _ _ => str "wrote " ++ nm | _ => [] end) (done_ (snd (demo_gc false)))
  = [str "swept"; str "bad"; str "p"; str "spawned"; str "wrote p"; str "a"].
Proof. vm_compute. reflexivity. Qed.
(** The launch failed: the record is written again with the counter, but the next pass
    starts to count from zero, since the last exit is older than the last respawn. *)
Example failed_launch_uncounted :
  match omap (fun a => match a with Wrote _ m _ _ => from_map m | _ => None end) (done_ (snd (demo_gc false))) with
  | [m] => tag_of FAILS_TAG (tags m) = Some (str "2")
           /\ fl_counter (classify_flapping demo_sha m (command m) (args m) 1735689720000 None None) = 0
  | _ => False
  end.
Proof. vm_compute. auto. Qed.

Lemma dry_run_only_looks_witness : done_ (snd (demo_gc true)) = [].
Proof.
  exact (@dry_run_only_looks gc_env demo_scans (demo_kernel 0) gc_starter gc_around demo_unicode 10
           (gc_options true) gc_world eq_refl).
Defined.
