(* ===== verification/Retention.v ===== *)
(** Retention of finished records: [crates/pty-lifecycle/src/retention.rs], one sweep of a
    root as a program of [Files.v], and what such a sweep may do. *)
From S2P Require Import Prelude Mutate Ptyfile Events ProcTable ProcessTree Operation Json Metadata Time Names Text Order Identity MetadataCache Inventory Flapping Files Effects Stop Launch Gc GcSafe.

(** At most this many records are stamped or removed by one sweep. *)
Definition MAX_ACTIONS_PER_SWEEP : nat := 256.

Record RetentionResult : Type := mkRetention { ret_removed : list bytes; ret_stamped : list bytes }.
Definition RetentionResult_default : RetentionResult := mkRetention [] [].

(** [Action] of the source: what retention does to one finished record. *)
Inductive RetentionAction : Type := Stamp | Remove.
#[export] Instance RetentionAction_eq : EqDecision RetentionAction.
Proof. solve_decision. Defined.

(** When a finished record's owner was lost. *)
Inductive Anchor : Type := AnchorAt (lost_at : Z) | Unstamped | Unaged.

Definition loss_anchor (m : SessionMetadata) : Anchor :=
  match (let? at_ := exited_at m in if is_nonempty at_ then Some at_ else None) with
  | Some at_ => match parse_iso8601_ms at_ with Some t => AnchorAt t | None => Unaged end
  | None =>
      match parse_iso8601_ms (created_at m) with
      | None => Unaged
      | Some created =>
          match (let? v := tag_of RETENTION_LOST_AT_TAG (tags m) in parse_iso8601_ms v) with
          | Some lost_at => if created <=? lost_at then AnchorAt lost_at else Unstamped
          | None => Unstamped
          end
      end
  end.
(** The window that applies: a [keep] tag holds for the longer of the two. *)
Definition window_of `{Unicode} (m : SessionMetadata) (window_ms keep_ms : Z) : Z :=
  if is_keep_requested (tags m) then Z.max window_ms keep_ms else window_ms.
Definition retention_decide `{Unicode} (m : SessionMetadata) (now_ms window_ms keep_ms : Z) : option RetentionAction :=
  match loss_anchor m with
  | Unstamped => Some Stamp
  | AnchorAt lost_at => if window_of m window_ms keep_ms <=? now_ms - lost_at then Some Remove else None
  | Unaged => None
  end.
(** The record with its first sighting. *)
Definition stamped_record (now_ms : Z) (m : SessionMetadata) : SessionMetadata :=
  set_tags (Some (minsert RETENTION_LOST_AT_TAG (iso8601_from_epoch_ms now_ms) (default [] (tags m)))) m.

Section Retention.
Context (e : Env) (s : Scans) `{U : Unicode}.
(** Whether [stop_retention] has run. *)
Context (stopped_at : nat -> bool).

(** The record as it is under the locks, and whether it still calls for the action. *)
Definition reread (nm : bytes) (d : Disk) : option (IndexMap Value * SessionMetadata) :=
  let? raw := read_metadata_map e d nm in
  let? current := from_map raw in
  Some (raw, current).
Definition still_due (nm : bytes) (seen current : SessionMetadata) (action : RetentionAction) (now_ms window_ms keep_ms : Z)
  (k : nat) (d : Disk) : bool :=
  metadata_matches_observation seen current && known_owner_lost (identity_of e nm current k d)
  && negb (is_permanent current) && bool_decide (retention_decide current now_ms window_ms keep_ms = Some action).
Definition act_locked (nm : bytes) (seen : SessionMetadata) (action : RetentionAction) (now_ms window_ms keep_ms : Z) : M bool :=
  found ← observe e (fun _ d => reread nm d);
  match found with
  | None => mret false
  | Some (raw, current) =>
      due ← observe e (still_due nm seen current action now_ms window_ms keep_ms);
      if negb due then mret false
      else match action with
           | Remove => _ ← cleanup_all_while_locked e nm; mret true
           | Stamp => write_metadata_map e nm (apply_metadata_diff current (stamped_record now_ms current) raw)
           end
  end.
Definition act_on (i : SessionInfo) (action : RetentionAction) (now_ms window_ms keep_ms : Z) : M bool :=
  match info_metadata i with
  | None => mret false
  | Some seen =>
      r ← with_both_locks e (name i) (act_locked (name i) seen action now_ms window_ms keep_ms);
      mret (unwrap_or_false r)
  end.

Definition note_action (nm : bytes) (action : RetentionAction) (r : RetentionResult) : RetentionResult :=
  match action with
  | Stamp => mkRetention (ret_removed r) (push_to nm (ret_stamped r))
  | Remove => mkRetention (push_to nm (ret_removed r)) (ret_stamped r)
  end.
Definition actions_of (r : RetentionResult) : nat := (length (ret_removed r) + length (ret_stamped r))%nat.
Fixpoint sweep_list (now_ms window_ms keep_ms : Z) (l : list SessionInfo) (r : RetentionResult) : M RetentionResult :=
  match l with
  | [] => mret r
  | i :: rest =>
      if (MAX_ACTIONS_PER_SWEEP <=? actions_of r)%nat then mret r
      else
        chosen ← observe e (fun k d => let? m := removable_finished e k d i in
                                       retention_decide m now_ms window_ms keep_ms);
        match chosen with
        | None => sweep_list now_ms window_ms keep_ms rest r
        | Some action =>
            stopped ← observe e (fun k _ => stopped_at k);
            if (stopped : bool) then mret r
            else
              acted ← act_on i action now_ms window_ms keep_ms;
              sweep_list now_ms window_ms keep_ms rest (if (acted : bool) then note_action (name i) action r else r)
        end
  end.
(** [sweep_finished_gated]. *)
Definition sweep_finished (window_ms keep_ms : Z) : M RetentionResult :=
  if window_ms <=? 0 then mret RetentionResult_default
  else
    now_ms ← observe e (fun k _ => now_at e k);
    listed ← observe e (list_sessions_full_now e s);
    sweep_list now_ms window_ms keep_ms listed RetentionResult_default.
(** [spawn_retention_sweep]: the sweep its thread runs, for the value of [PTY_RETAIN_FINISHED]. *)
Definition retention_sweep (var : option bytes) : M RetentionResult :=
  match parse_retain_finished var with
  | None => mret RetentionResult_default
  | Some window_ms => sweep_finished window_ms DEFAULT_KEEP_MAX_AGE_MS
  end.
End Retention.

(** ** The decision *)

Section Decision.
Context `{U : Unicode}.

(** A record is removed only for a known time of loss the whole window ago. *)
Lemma remove_aged m now_ms window_ms keep_ms :
  retention_decide m now_ms window_ms keep_ms = Some Remove ->
  exists lost_at, loss_anchor m = AnchorAt lost_at /\ window_of m window_ms keep_ms <= now_ms - lost_at.
Proof.
  unfold retention_decide. destruct (loss_anchor m) as [t| |]; try discriminate.
  destruct (Z.leb_spec (window_of m window_ms keep_ms) (now_ms - t)); [|discriminate]. eauto.
Qed.
Lemma stamp_unaged m now_ms window_ms keep_ms :
  retention_decide m now_ms window_ms keep_ms = Some Stamp -> loss_anchor m = Unstamped.
Proof. unfold retention_decide. destruct (loss_anchor m); [destruct (_ <=? _); discriminate|done|discriminate]. Qed.
Lemma tag_stamped now_ms m :
  tag_of RETENTION_LOST_AT_TAG (tags (stamped_record now_ms m)) = Some (iso8601_from_epoch_ms now_ms).
Proof. cbn. apply mget_minsert_eq. Qed.
Lemma keep_stamped now_ms m : is_keep_requested (tags (stamped_record now_ms m)) = is_keep_requested (tags m).
Proof.
  unfold is_keep_requested, stamped_record. cbn [tags set_tags]. rewrite tag_of_insert.
  change (beq KEEP_TAG RETENTION_LOST_AT_TAG) with false. cbv iota. destruct (tags m); done.
Qed.

(** A vanished record's window starts with the sweep that first sees it: stamped then, it
    is left alone until the whole window, the longer one for a kept record, has passed
    since, and is due from that moment on. *)
Theorem stamp_starts_window m created now_ms later window_ms keep_ms :
  retention_decide m now_ms window_ms keep_ms = Some Stamp ->
  parse_iso8601_ms (created_at m) = Some created -> created <= now_ms ->
  -62167219200000 <= now_ms <= 253402300799999 ->
  retention_decide (stamped_record now_ms m) later window_ms keep_ms =
    if window_of m window_ms keep_ms <=? later - now_ms then Some Remove else None.
Proof.
  intros H C Hc Hn. apply stamp_unaged in H.
  assert (X : (let? at_ := exited_at m in if is_nonempty at_ then Some at_ else None) = None).
  { unfold loss_anchor in H. destruct (exited_at m) as [x|]; [|done]. cbn in H |- *.
    destruct (is_nonempty x); [|done]. destruct (parse_iso8601_ms x); discriminate. }
  unfold retention_decide. replace (loss_anchor (stamped_record now_ms m)) with (AnchorAt now_ms).
  - unfold window_of. rewrite keep_stamped. done.
  - unfold loss_anchor. change (exited_at (stamped_record now_ms m)) with (exited_at m).
    change (created_at (stamped_record now_ms m)) with (created_at m). rewrite X, C, tag_stamped. cbn [mbind option_bind].
    rewrite iso8601_roundtrip by exact Hn. destruct (Z.leb_spec created now_ms); [done|lia].
Qed.
End Decision.

(** ** What a sweep does *)

Section Sweep.
Context (e : Env) (s : Scans) `{U : Unicode} (stopped_at : nat -> bool).
#[local] Arguments at_root : simpl never.
Implicit Types (w : Files.World) (nm : bytes) (k j : nat) (d : Disk).

(** The record found at moment [k], on the disk [d]: it is the listed session's, is not
    permanent, has lost its owner and calls for the action. *)
Record due (now_ms window_ms keep_ms : Z) (i : SessionInfo) (action : RetentionAction)
  (raw : IndexMap Value) (m : SessionMetadata) k d : Prop := {
  due_gone : is_gone (info_status i) = true;
  due_seen : exists seen, info_metadata i = Some seen /\ metadata_matches_observation seen m = true;
  due_record : reread e (name i) d = Some (raw, m);
  due_lost : known_owner_lost (identity_of e (name i) m k d) = true;
  due_temporary : is_permanent m = false;
  due_decided : retention_decide m now_ms window_ms keep_ms = Some action
}.
(** The one thing done for a session, to the record as it then is. *)
Definition deed now_ms window_ms keep_ms (i : SessionInfo) (action : RetentionAction) (k : nat) (a : Files.Action) : Prop :=
  exists d raw m, due now_ms window_ms keep_ms i action raw m k d
    /\ a = match action with
           | Remove => Cleaned (name i) k d
           | Stamp => Wrote (name i) (apply_metadata_diff m (stamped_record now_ms m) raw) k d
           end.
(** The listed sessions taken one after the other from moment [j] on: a session is passed
    over, or, with the sweeps not stopped when it is taken up and both of its locks taken
    after that, the one thing is done for it before the next is taken up. *)
Inductive deeds (now_ms window_ms keep_ms : Z) : list SessionInfo -> nat -> list Files.Action -> Prop :=
  | deeds_end l j : deeds now_ms window_ms keep_ms l j []
  | deeds_pass i rest j acts : deeds now_ms window_ms keep_ms rest j acts -> deeds now_ms window_ms keep_ms (i :: rest) j acts
  | deeds_act i rest j gate action a acts :
      (j < gate)%nat -> stopped_at gate = false ->
      lock_at e (S gate) (event_lock_path (root e) (name i)) = Ok tt ->
      lock_at e (S (S gate)) (lock_path (root e) (name i)) = Ok tt ->
      deed now_ms window_ms keep_ms i action (4 + gate) a ->
      deeds now_ms window_ms keep_ms rest (4 + gate) acts -> deeds now_ms window_ms keep_ms (i :: rest) j (a :: acts).

Lemma deeds_later now_ms window_ms keep_ms l j j' acts :
  (j <= j')%nat -> deeds now_ms window_ms keep_ms l j' acts -> deeds now_ms window_ms keep_ms l j acts.
Proof.
  intros Hj H. revert j Hj. induction H as [| |i rest j0 gate action a acts Hg]; intros j1 Hj; [constructor|constructor; auto|].
  apply deeds_act with gate action; try done. lia.
Qed.
Lemma reread_held nm w : In nm (held w) -> reread e nm (disk (breathe e w)) = reread e nm (disk w).
Proof.
  intros H. unfold reread, read_metadata_map.
  rewrite (breathe_held e nm) by (done || apply companion_record). done.
Qed.
Lemma act_on_spec now_ms window_ms keep_ms i action w :
  is_gone (info_status i) = true ->
  wpm (act_on e i action now_ms window_ms keep_ms) (fun acted w' => (moment w <= moment w')%nat /\
    if acted then exists a, done_ w' = done_ w ++ [a] /\ deed now_ms window_ms keep_ms i action (4 + moment w) a
        /\ lock_at e (S (moment w)) (event_lock_path (root e) (name i)) = Ok tt
        /\ lock_at e (S (S (moment w))) (lock_path (root e) (name i)) = Ok tt /\ (4 + moment w <= moment w')%nat
    else done_ w' = done_ w) w.
Proof.
  intros Hg. unfold act_on. destruct (info_metadata i) as [seen|] eqn:Hi; [|apply wpm_ret; split; [lia|done]].
  apply wpm_bind. unfold with_both_locks, lock_or_refusal. apply wpm_bind, wpm_observe.
  destruct (lock_at e _ (event_lock_path _ _)) as [[]|[|?]] eqn:L1; try (apply wpm_ret, wpm_ret; split; [cbn; lia|done]).
  apply wpm_bind, wpm_observe.
  destruct (lock_at e _ (lock_path _ _)) as [[]|[|?]] eqn:L2; try (apply wpm_ret, wpm_ret; split; [cbn; lia|done]).
  apply wpm_bind, wpm_hold. set (w1 := set_field _ _ _).
  assert (Hh : In (name i) (held w1)) by (left; reflexivity). assert (M1 : moment w1 = S (S (moment w))) by reflexivity.
  assert (D1 : done_ w1 = done_ w) by reflexivity. clearbody w1. apply wpm_bind.
  apply wpm_mono with (fun acted w' => (moment w1 <= moment w')%nat /\
    if acted : bool then exists a, done_ w' = done_ w ++ [a] /\ deed now_ms window_ms keep_ms i action (4 + moment w) a
      /\ (4 + moment w <= moment w')%nat
    else done_ w' = done_ w).
  2: { intros acted w2 [Hm Hd]. apply wpm_bind, wpm_let_go, wpm_ret, wpm_ret. split; [cbn; lia|].
       destruct acted; [|exact Hd]. destruct Hd as (a & E & D & Hk). exists a. done. }
  unfold act_locked. apply wpm_bind, wpm_observe. set (w2 := breathe e w1).
  destruct (reread e (name i) (disk w2)) as [[raw m]|] eqn:R; [|apply wpm_ret; split; [cbn; lia|exact D1]].
  apply wpm_bind, wpm_observe. set (w3 := breathe e w2). cbv beta zeta.
  assert (M3 : moment w3 = (4 + moment w)%nat) by (cbn; lia).
  destruct (still_due e (name i) seen m action now_ms window_ms keep_ms (moment w3) (disk w3)) eqn:D;
    cbn [negb]; [|apply wpm_ret; split; [cbn; lia|exact D1]].
  unfold still_due in D. apply andb_prop in D as [D D4]. apply andb_prop in D as [D D3]. apply andb_prop in D as [D5 D2].
  apply negb_true_iff in D3. apply bool_decide_eq_true_1 in D4.
  assert (R3 : reread e (name i) (disk w3) = Some (raw, m)) by (rewrite <- R; apply reread_held; exact Hh).
  assert (Due : due now_ms window_ms keep_ms i action raw m (4 + moment w) (disk w3)).
  { rewrite <- M3. split; try done. exists seen. done. }
  destruct action.
  - unfold write_metadata_map, wpm. destruct (write_at e (moment w3)); [|split; [cbn; lia|exact D1]].
    split; [cbn; lia|]. eexists. split; [cbn; rewrite D1; reflexivity|]. split; [|cbn; lia].
    exists (disk w3), raw, m. split; [exact Due|]. rewrite <- M3. reflexivity.
  - apply wpm_bind. unfold wpm at 1. rewrite cleanup_all_eq. apply wpm_ret. split; [cbn; lia|]. eexists.
    split; [cbn; rewrite D1; reflexivity|]. split; [|cbn; lia]. exists (disk w3), raw, m. split; [exact Due|].
    rewrite <- M3. reflexivity.
Qed.

(** What the result reports, in the order it was done. *)
Definition cleaned_name (a : Files.Action) : option bytes := match a with Cleaned nm _ _ => Some nm | _ => None end.
Definition wrote_name (a : Files.Action) : option bytes := match a with Wrote nm _ _ _ => Some nm | _ => None end.
Definition reports (r0 r : RetentionResult) (new : list Files.Action) : Prop :=
  ret_removed r = ret_removed r0 ++ omap cleaned_name new /\ ret_stamped r = ret_stamped r0 ++ omap wrote_name new
  /\ actions_of r = (actions_of r0 + length new)%nat.
Lemma note_reports now_ms window_ms keep_ms i action k a r0 :
  deed now_ms window_ms keep_ms i action k a -> reports r0 (note_action (name i) action r0) [a].
Proof.
  destruct action; intros (d & raw & m & _ & ->); (split; [|split]); cbn; rewrite ?app_nil_r; try done;
    unfold actions_of; cbn; unfold push_to; rewrite length_app; cbn; lia.
Qed.
Lemma reports_trans r0 r1 r2 l1 l2 : reports r0 r1 l1 -> reports r1 r2 l2 -> reports r0 r2 (l1 ++ l2).
Proof.
  intros (A1 & B1 & C1) (A2 & B2 & C2). split; [|split].
  - rewrite A2, A1, omap_app, app_assoc. done.
  - rewrite B2, B1, omap_app, app_assoc. done.
  - rewrite C2, C1, length_app. lia.
Qed.
Lemma reports_nil r : reports r r [].
Proof. split; [|split]; cbn; rewrite ?app_nil_r; [done..|lia]. Qed.
(** What the rest of a sweep adds. *)
Definition swept now_ms window_ms keep_ms (l : list SessionInfo) (r0 r : RetentionResult) w w' : Prop :=
  exists new, done_ w' = done_ w ++ new /\ deeds now_ms window_ms keep_ms l (moment w) new
    /\ reports r0 r new /\ (actions_of r <= MAX_ACTIONS_PER_SWEEP)%nat.
Lemma swept_idle now_ms window_ms keep_ms l r w w' :
  done_ w' = done_ w -> (actions_of r <= MAX_ACTIONS_PER_SWEEP)%nat -> swept now_ms window_ms keep_ms l r r w w'.
Proof. intros E B. exists []. rewrite app_nil_r. split; [exact E|]. split; [constructor|]. split; [apply reports_nil|exact B]. Qed.
Lemma swept_pass now_ms window_ms keep_ms i rest r0 r w w1 w' :
  done_ w1 = done_ w -> (moment w <= moment w1)%nat -> swept now_ms window_ms keep_ms rest r0 r w1 w' ->
  swept now_ms window_ms keep_ms (i :: rest) r0 r w w'.
Proof.
  intros E M (new & E' & D & P). exists new. rewrite <- E. split; [exact E'|]. split; [|exact P].
  apply deeds_pass. exact (deeds_later _ _ _ _ _ _ _ M D).
Qed.
Lemma sweep_list_spec now_ms window_ms keep_ms l r0 w :
  (actions_of r0 <= MAX_ACTIONS_PER_SWEEP)%nat ->
  wpm (sweep_list e stopped_at now_ms window_ms keep_ms l r0) (fun r w' => swept now_ms window_ms keep_ms l r0 r w w') w.
Proof.
  revert r0 w. induction l as [|i rest IH]; intros r0 w B; cbn [sweep_list]; [apply wpm_ret, swept_idle; done|].
  destruct (Nat.leb_spec MAX_ACTIONS_PER_SWEEP (actions_of r0)) as [|Hlt]; [apply wpm_ret, swept_idle; done|].
  assert (Pass : forall w1, done_ w1 = done_ w -> (moment w <= moment w1)%nat ->
    wpm (sweep_list e stopped_at now_ms window_ms keep_ms rest r0) (fun r w' => swept now_ms window_ms keep_ms (i :: rest) r0 r w w') w1).
  { intros w1 E1 M1. eapply wpm_mono; [apply (IH r0 w1 B)|]. intros r w' S2. exact (swept_pass _ _ _ _ _ _ _ _ _ _ E1 M1 S2). }
  apply wpm_bind, wpm_observe. set (w1 := breathe e w). cbv beta zeta.
  destruct (removable_finished e (moment w1) (disk w1) i) as [seen|] eqn:F; cbn [mbind option_bind];
    [|apply Pass; [done|cbn; lia]].
  destruct (retention_decide seen now_ms window_ms keep_ms) as [action|]; [|apply Pass; [done|cbn; lia]].
  apply wpm_bind, wpm_observe. set (w2 := breathe e w1). cbv beta zeta.
  destruct (stopped_at (moment w2)) eqn:St; [apply wpm_ret, swept_idle; done|]. apply wpm_bind.
  assert (Hg : is_gone (info_status i) = true).
  { unfold removable_finished in F. destruct (is_gone (info_status i)); [done|discriminate F]. }
  eapply wpm_mono; [exact (act_on_spec now_ms window_ms keep_ms i action w2 Hg)|].
  intros [|] w3 [Hm H]; [|apply Pass; [exact H|cbn in Hm; lia]].
  destruct H as (a & E & D & L1 & L2 & M3). pose proof (note_reports _ _ _ _ _ _ _ r0 D) as P.
  eapply wpm_mono; [apply IH; destruct P as (_ & _ & P); rewrite P; cbn; lia|].
  intros r w' (new & E' & D' & P' & B'). exists (a :: new).
  split; [rewrite E', E, <- app_assoc; done|]. split; [|split; [exact (reports_trans _ _ _ [a] _ P P')|exact B']].
  apply deeds_act with (moment w2) action; try done; [cbn; lia|]. exact (deeds_later _ _ _ _ _ _ _ M3 D').
Qed.

(** C10: A retention sweep goes over the sessions it listed, once and in order.  It removes or
    stamps a record only when the sweeps were not stopped as that record was taken up,
    with both of its locks, and because the record it then finds is the listed session's,
    is not permanent, has lost its owner and calls for it at the time the sweep began.
    It does so for at most 256 records and reports exactly those.  A window that is not
    positive turns it off. *)
Theorem sweep_bounded window_ms keep_ms w :
  let begun := breathe e w in let listing := breathe e begun in
  wpm (sweep_finished e s stopped_at window_ms keep_ms) (fun r w' => exists new, done_ w' = done_ w ++ new
    /\ deeds (now_at e (moment begun)) window_ms keep_ms
         (list_sessions_full_now e s (moment listing) (disk listing)) (moment listing) new
    /\ ret_removed r = omap cleaned_name new /\ ret_stamped r = omap wrote_name new
    /\ (length new <= 256)%nat /\ (window_ms <= 0 -> new = [])) w.
Proof.
  intros begun listing. unfold sweep_finished. destruct (Z.leb_spec window_ms 0) as [W|W].
  { apply wpm_ret. exists []. rewrite app_nil_r. split; [done|]. split; [constructor|]. repeat split; cbn; lia. }
  apply wpm_bind, wpm_observe, wpm_bind, wpm_observe. fold begun. fold listing.
  eapply wpm_mono; [apply sweep_list_spec; cbn; unfold MAX_ACTIONS_PER_SWEEP; lia|].
  intros r w' (new & E & F & (A & B & C) & Hb). exists new. split; [exact E|]. split; [exact F|].
  split; [exact A|]. split; [exact B|]. split; [|lia]. unfold MAX_ACTIONS_PER_SWEEP in Hb. cbn in C. lia.
Qed.
End Sweep.

(** ** A finished session, alone and tagged after the scan *)

Definition ended_fields (more : list (bytes * Value)) : list (bytes * Value) :=
  [(str "daemonPid", VNum (NInt 4242)); (str "daemonStartToken", VStr (str "linux:8811"));
   (str "daemonBootId", VStr (str "linux:boot-a")); (str "command", VStr (str "/bin/sh")); (str "generation", VStr (str "g"));
   (str "createdAt", VStr (str "2025-01-01T00:00:00.000Z"))] ++ more.
Definition exit_at (text : string) : bytes * Value := (str "exitedAt", VStr (str text)).
Definition tag_field (k v : string) : bytes * Value := (str "tags", VObj [(str k, VStr (str v))]).
Definition ret_json (text : bytes) : option (list (bytes * Value)) :=
  if beq text (str "ended") then Some (ended_fields [exit_at "2025-01-01T00:00:05.000Z"])
  else if beq text (str "kept") then Some (ended_fields [exit_at "2025-01-01T00:00:05.000Z"; tag_field "keep" "true"])
  else if beq text (str "permanent") then Some (ended_fields [exit_at "2025-01-01T00:00:05.000Z"; tag_field "strategy" "permanent"])
  else if beq text (str "lost") then Some (ended_fields [])
  else None.
(** At the fourth moment another process may write the record again. *)
Definition ret_env (late : string) : Env := {|
  root := str "/r"; sha256 := demo_sha; json := ret_json; render := fun _ => str "stamped"; link := None; canonical := None;
  others := fun k d => if (k =? 4)%nat && negb (String.eqb late "") then <[str "/r/p.json" := Regular (str late)]> d else d;
  dir_at := fun _ => None; host_at := fun _ => demo_host "9000";
  lock_at := fun _ _ => Ok tt; now_at := fun _ => 1735689660000; write_at := fun _ => true; unlink_at := fun _ _ => true
|}.
Definition ret_world (text : string) : Files.World := mkWorld {[str "/r/p.json" := Regular (str text)]} 0 [] [].
Definition demo_sweep (late text : string) (window : Z) (stopped : bool) : RetentionResult :=
  fst (@sweep_finished (ret_env late) demo_scans demo_unicode (fun _ => stopped) window DEFAULT_KEEP_MAX_AGE_MS (ret_world text)).

Example sweep_removes : demo_sweep "" "ended" 55000 false = mkRetention [str "p"] [].
Proof. vm_compute. reflexivity. Qed.
Example sweep_waits : demo_sweep "" "ended" 55001 false = RetentionResult_default.
Proof. vm_compute. reflexivity. Qed.
Example sweep_keeps : demo_sweep "" "kept" 55000 false = RetentionResult_default.
Proof. vm_compute. reflexivity. Qed.
Example sweep_stamps : demo_sweep "" "lost" 1 false = mkRetention [] [str "p"].
Proof. vm_compute. reflexivity. Qed.
Example sweep_stopped : demo_sweep "" "ended" 55000 true = RetentionResult_default.
Proof. vm_compute. reflexivity. Qed.
(** A tag set between the listing and the locks holds the sweep back. *)
Example sweep_sees_late_tag :
  demo_sweep "kept" "ended" 55000 false = RetentionResult_default
  /\ demo_sweep "permanent" "ended" 55000 false = RetentionResult_default.
Proof. vm_compute. auto. Qed.
(** It does not hold back [gc]: the session is removed on the record it had when listed,
    although both tests would now refuse. *)
Definition demo_listed : list SessionInfo := @list_sessions_full_now (ret_env "") demo_scans 1 (disk (ret_world "ended")).
Definition gc_removes (text : string) : bool :=
  match demo_listed with
  | [i] => fst (@cleanup_observed_session (ret_env "") i (ret_world text))
  | _ => false
  end.
Example gc_misses_late_tag : gc_removes "kept" = true /\ gc_removes "permanent" = true.
Proof. vm_compute. auto. Qed.

Lemma stamp_starts_window_witness :
  option_map (fun m => @retention_decide demo_unicode (stamped_record 1735689660000 m) 1735689760000 86400000 0)
    (from_map (ended_fields [])) = Some None.
Proof.
  destruct (from_map (ended_fields [])) as [m|] eqn:E; [|discriminate E]. vm_compute in E. injection E as <-. cbn [option_map].
  rewrite (@stamp_starts_window demo_unicode _ 1735689600000); [vm_compute; reflexivity..|lia|lia].
Defined.
