(* ===== verification/Revocation.v ===== *)
(** Publication fences: [crates/pty-core/src/registry/revocation.rs].  A store of records
    beside the sessions, reached by descriptors alone and only ever added to, that says
    which launch operations may no longer publish a session.

    A directory's descriptor is its path, with the node found there: the store's
    directories are not renamed by anyone.  Each system call acts on the tree as the other
    processes have left it, and may fail. *)
From S2P Require Import Prelude Json Metadata Time Names Text MetadataCache Ptyfile Inventory Launch.

Definition MAX_BYTES : Z := 16 * 1024.
Definition STORE : bytes := str ".publication-revocations".
Definition V1 : bytes := str "v1".
Definition ROOT_JSON : bytes := str "root.json".

(** ** Errors *)

Inductive ErrorKind : Type :=
  | NotFound | AlreadyExists | PermissionDenied | InvalidData | WouldBlock | Unsupported | OtherKind.
#[export] Instance ErrorKind_eq : EqDecision ErrorKind.
Proof. solve_decision. Defined.
Record IoErr : Type := mkIoErr { io_kind : ErrorKind; io_errno : option Z; io_text : bytes }.
Definition invalid (message : bytes) : IoErr := mkIoErr InvalidData None message.
Definition denied (message : bytes) : IoErr := mkIoErr PermissionDenied None message.
Definition is_kind (k : ErrorKind) (err : IoErr) : bool := bool_decide (io_kind err = k).
(** What a system call says, by its number on Linux. *)
Definition ENOENT : IoErr := mkIoErr NotFound (Some 2) (str "No such file or directory").
Definition EEXIST : IoErr := mkIoErr AlreadyExists (Some 17) (str "File exists").
Definition ENOTDIR : IoErr := mkIoErr OtherKind (Some 20) (str "Not a directory").
Definition ELOOP : IoErr := mkIoErr OtherKind (Some 40) (str "Too many levels of symbolic links").
Definition RENAME_UNSUPPORTED : bytes :=
  str "publication revocation requires filesystem and kernel support for atomic no-replace rename (Linux renameat2 RENAME_NOREPLACE or macOS renameatx_np RENAME_EXCL); use a supported filesystem/kernel; no unsafe link/unlink fallback is permitted: ".
(** ENOSYS, EINVAL and EOPNOTSUPP. *)
Definition atomic_rename_error (err : IoErr) : IoErr :=
  match io_errno err with
  | Some n => if existsb (Z.eqb n) [38; 22; 95] then mkIoErr Unsupported None (RENAME_UNSUPPORTED ++ io_text err) else err
  | None => err
  end.

(** ** Records *)

Definition validate_operation (op : bytes) : Result unit IoErr :=
  if beq op [] || (1024 <? byte_len op) || existsb is_control op then Err (invalid (str "invalid publication operation"))
  else Ok tt.
Definition is_lower_hex (c : Z) : bool := is_ascii_digit c || in_range 97 102 c.
Definition validate_digest (d : bytes) : Result unit IoErr :=
  if negb (blen d =? 64) || negb (forallb is_lower_hex d) then Err (invalid (str "expected 64 lowercase hexadecimal digest"))
  else Ok tt.
Definition validate_binding (b : PublicationBinding) : Result unit IoErr :=
  try _u := validate_operation (operation b) in
  validate_digest (digest b).

Record PublicationRevocation : Type := mkRevocation {
  rv_schema : Z;
  rv_root_id : bytes;
  rv_name : bytes;
  rv_binding : PublicationBinding;
  rv_intent_digest : bytes;
  rv_capability_version : Z;
  rv_revoked : bool;
  rv_attestation : bytes;
  rv_writer_uid : Z;
  rv_recorded_at : bytes
}.
#[export] Instance PublicationBinding_eq : EqDecision PublicationBinding.
Proof. solve_decision. Defined.
#[export] Instance PublicationRevocation_eq : EqDecision PublicationRevocation.
Proof. solve_decision. Defined.
Record RootIdentity : Type := mkRootIdentity {
  ri_schema : Z;
  ri_root_id : bytes;
  ri_path : bytes;
  ri_device : Z;
  ri_inode : Z
}.

(** [deny_unknown_fields]: every key known, none twice. *)
Definition strict_fields (known : list bytes) (fields : list (bytes * Value)) : option (IndexMap Value) :=
  if forallb (fun k => existsb (beq k) known) (mkeys fields) && bool_decide (NoDup (mkeys fields)) then Some fields else None.
Definition str_field (k : bytes) (m : IndexMap Value) : option bytes := let? v := mget k m in as_str v.
Definition enc_revocation (r : PublicationRevocation) : Value :=
  VObj [(str "schema", enc_int (rv_schema r)); (str "rootId", VStr (rv_root_id r)); (str "name", VStr (rv_name r));
        (str "binding", enc_binding (rv_binding r)); (str "intentDigest", VStr (rv_intent_digest r));
        (str "capabilityVersion", enc_int (rv_capability_version r)); (str "revoked", VBool (rv_revoked r));
        (str "attestationReceiptOrIntentId", VStr (rv_attestation r)); (str "writerUid", enc_int (rv_writer_uid r));
        (str "recordedAt", VStr (rv_recorded_at r))].
Definition REVOCATION_FIELDS : list bytes :=
  map str ["schema"; "rootId"; "name"; "binding"; "intentDigest"; "capabilityVersion"; "revoked";
           "attestationReceiptOrIntentId"; "writerUid"; "recordedAt"].
Definition dec_revocation (fields : list (bytes * Value)) : option PublicationRevocation :=
  let? m := strict_fields REVOCATION_FIELDS fields in
  let? schema := (let? v := mget (str "schema") m in dec_u32 v) in
  let? root_id := str_field (str "rootId") m in
  let? nm := str_field (str "name") m in
  let? binding := (let? v := mget (str "binding") m in dec_binding v) in
  let? intent := str_field (str "intentDigest") m in
  let? version := (let? v := mget (str "capabilityVersion") m in dec_u32 v) in
  let? revoked := (let? v := mget (str "revoked") m in dec_bool v) in
  let? attestation := str_field (str "attestationReceiptOrIntentId") m in
  let? uid := (let? v := mget (str "writerUid") m in dec_u32 v) in
  let? recorded := str_field (str "recordedAt") m in
  Some (mkRevocation schema root_id nm binding intent version revoked attestation uid recorded).
Definition enc_root (r : RootIdentity) : Value :=
  VObj [(str "schema", enc_int (ri_schema r)); (str "rootId", VStr (ri_root_id r)); (str "path", VStr (ri_path r));
        (str "device", enc_int (ri_device r)); (str "inode", enc_int (ri_inode r))].
Definition dec_root (fields : list (bytes * Value)) : option RootIdentity :=
  let? m := strict_fields (map str ["schema"; "rootId"; "path"; "device"; "inode"]) fields in
  let? schema := (let? v := mget (str "schema") m in dec_u32 v) in
  let? root_id := str_field (str "rootId") m in
  let? path := str_field (str "path") m in
  let? device := (let? v := mget (str "device") m in dec_u64 v) in
  let? inode := (let? v := mget (str "inode") m in dec_u64 v) in
  Some (mkRootIdentity schema root_id path device inode).

(** ** The file system *)

Inductive NodeKind : Type := Directory | RegularFile (content : bytes) | Symlink | Special.
Record Node : Type := mkNode { n_kind : NodeKind; n_uid : Z; n_mode : Z; n_links : Z; n_dev : Z; n_ino : Z }.
Definition is_directory (n : Node) : bool := match n_kind n with Directory => true | _ => false end.
Definition file_content (n : Node) : option bytes := match n_kind n with RegularFile c => Some c | _ => None end.
(** By the names from [/] down. *)
Abbreviation Path := (list bytes).
Abbreviation Tree := (gmap Path Node).
(** The names of a canonical path. *)
Definition names_of (p : bytes) : Path :=
  omap (fun c => match c with Normal name => Some name | _ => None end) (components p).

(** What the calls meet: the other processes, which of the calls fail, the resolution of
    a path, the process's ids, random draws of sixteen hexadecimal digits, and the parts of
    the registry an installation asks. *)
Record StoreEnv : Type := {
  se_sha256 : bytes -> bytes;
  se_json : bytes -> option (list (bytes * Value));
  se_print : Value -> bytes;
  session_dir : bytes;
  socket_len : bytes -> Z;
  se_others : nat -> Tree -> Tree;
  fault_at : nat -> option IoErr;
  canonical_at : nat -> Tree -> bytes -> Result bytes IoErr;
  current_dir_at : nat -> Result bytes IoErr;
  euid : Z;
  self_pid : Z;
  random_hex16 : nat -> bytes;
  inode_at : nat -> Z * Z;
  now_iso_at : nat -> bytes;
  claim_at : nat -> bytes -> Result unit (option bytes);
  pin_at : nat -> Result unit IoErr;
  occupancy_at : nat -> bytes -> Inventory
}.
Record RWorld : Type := mkRWorld { tree : Tree; tick : nat }.
(** A fallible program over the tree. *)
Definition R (A : Type) : Type := RWorld -> Result A IoErr * RWorld.
#[export] Instance R_ret : MRet R := fun A a w => (Ok a, w).
#[export] Instance R_bind : MBind R := fun A B f m w =>
  match m w with (Ok a, w') => f a w' | (Err err, w') => (Err err, w') end.
Definition fail {A} (err : IoErr) : R A := fun w => (Err err, w).
Definition attempt {A} (m : R A) : R (Result A IoErr) := fun w => let '(r, w') := m w in (Ok r, w').
Definition from_result {A} (r : Result A IoErr) : R A := fun w => (r, w).

Section Store.
Context (s : StoreEnv).

(** One system call: the others first, then the call or its failure. *)
Definition sys {A} (f : nat -> Tree -> Result A IoErr * Tree) : R A := fun w =>
  let t := se_others s (tick w) (tree w) in
  match fault_at s (tick w) with
  | Some err => (Err err, mkRWorld t (S (tick w)))
  | None => let '(r, t') := f (tick w) t in (r, mkRWorld t' (S (tick w)))
  end.
(** A question that does not touch the tree. *)
Definition ask {A} (f : nat -> A) : R A := fun w =>
  (Ok (f (tick w)), mkRWorld (se_others s (tick w) (tree w)) (S (tick w))).

Record Handle : Type := mkHandle { h_path : Path; h_node : Node }.
Definition fstat (h : Handle) : R Node := sys (fun _ t => (Ok (default (h_node h) (t !! h_path h)), t)).
Definition sync_all (h : Handle) : R unit := sys (fun _ t => (Ok tt, t)).
Definition component (name : bytes) : Result bytes IoErr :=
  if existsb (Z.eqb 0) name then Err (invalid (str "NUL in filesystem component")) else Ok name.

Definition UNSAFE : bytes := str "unsafe publication revocation owner, type, or permissions".
Definition safe_node (directory : bool) (n : Node) : bool :=
  (n_uid n =? euid s) && (n_mode n =? (if directory then 448 else 384))
  && (if directory then is_directory n else bool_decide (is_Some (file_content n)) && (n_links n =? 1)).
Definition validate_file (h : Handle) (directory : bool) : R unit :=
  n ← fstat h;
  if safe_node directory n then mret tt else fail (denied UNSAFE).

(** [openat] without following a link. *)
Definition openat (parent : Path) (name : bytes) (directory : bool) : R Handle :=
  sys (fun _ t =>
    (match t !! (parent ++ [name]) with
     | None => Err ENOENT
     | Some n =>
         match n_kind n with
         | Symlink => Err ELOOP
         | Directory => Ok (mkHandle (parent ++ [name]) n)
         | RegularFile _ | Special => if directory then Err ENOTDIR else Ok (mkHandle (parent ++ [name]) n)
         end
     end, t)).
Definition open_at (parent : Handle) (name : bytes) (directory : bool) : R Handle :=
  name ← from_result (component name);
  h ← openat (h_path parent) name directory;
  _ ← validate_file h directory;
  mret h.
Definition mkdirat (parent : Path) (name : bytes) : R unit :=
  sys (fun k t =>
    match t !! (parent ++ [name]) with
    | Some _ => (Err EEXIST, t)
    | None => (Ok tt, <[parent ++ [name] := mkNode Directory (euid s) 448 2 (fst (inode_at s k)) (snd (inode_at s k))]> t)
    end).
Definition directory_at (parent : Handle) (name : bytes) (create : bool) : R Handle :=
  _ ← (if create then
         c_name ← from_result (component name);
         made ← attempt (mkdirat (h_path parent) c_name);
         (match made with
          | Err err => if is_kind AlreadyExists err then mret tt else fail err
          | Ok _ => mret tt
          end)
       else mret tt);
  directory ← open_at parent name true;
  _ ← (if create then sync_all parent else mret tt);
  mret directory.

(** *** The root *)

Definition canonicalize (p : bytes) : R bytes := sys (fun k t => (canonical_at s k t p, t)).
Definition is_parent_dir (c : Component) : bool := bool_decide (c = ParentDir).
Definition filled_parent (p : bytes) : bytes :=
  match path_parent p with Some q => if is_nonempty q then q else [46] | None => [46] end.
Fixpoint strip_components (prefix p : list Component) : option (list Component) :=
  match prefix, p with
  | [], _ => Some p
  | a :: prefix', b :: p' => if bool_decide (a = b) then strip_components prefix' p' else None
  | _ :: _, [] => None
  end.
(** The parent with its nearest existing ancestor resolved.  [/] always resolves: the
    rounds are the path's components. *)
Fixpoint canonical_parent (rounds : nat) (create : bool) (parent ancestor : bytes) : R bytes :=
  r ← attempt (canonicalize ancestor);
  match r with
  | Ok canonical =>
      match strip_components (components ancestor) (components parent) with
      | Some rest => mret (foldl push canonical rest)
      | None => fail (invalid (str "invalid registry root ancestor"))
      end
  | Err err =>
      match rounds with
      | S rounds' => if create && is_kind NotFound err then canonical_parent rounds' create parent (filled_parent ancestor)
                     else fail err
      | O => fail err
      end
  end.
Definition path_file_name (p : bytes) : option bytes :=
  match List.rev (components p) with Normal name :: _ => Some name | _ => None end.
Definition NO_PARENTS : bytes := str "registry root must not contain parent components".
(** Down from [/], never through a link; made on the way when asked. *)
Fixpoint descend (create : bool) (dir : Handle) (parts : list Component) : R Handle :=
  match parts with
  | [] => mret dir
  | (RootDir | CurDir) :: rest => descend create dir rest
  | ParentDir :: _ => fail (invalid NO_PARENTS)
  | Normal name :: rest =>
      if existsb (Z.eqb 0) name then fail (invalid (str "invalid registry root"))
      else
        _ ← (if create then
               made ← attempt (mkdirat (h_path dir) name);
               match made with
               | Err err => if is_kind AlreadyExists err then mret tt else fail err
               | Ok _ => sync_all dir
               end
             else mret tt);
        h ← openat (h_path dir) name true;
        descend create h rest
  end.
(** [File::open], which follows links. *)
Definition open_following (p : bytes) : R Handle :=
  sys (fun k t =>
    (match canonical_at s k t p with
     | Err err => Err err
     | Ok c => match t !! names_of c with Some n => Ok (mkHandle (names_of c) n) | None => Err ENOENT end
     end, t)).
Definition open_slash : R Handle :=
  sys (fun _ t => (match t !! [] with Some n => Ok (mkHandle [] n) | None => Err ENOENT end, t)).
Definition registry_path : R bytes :=
  if is_absolute (session_dir s) then mret (session_dir s)
  else here ← ask (current_dir_at s); here ← from_result here; mret (join here (session_dir s)).
Definition open_root (create : bool) : R Handle :=
  path ← registry_path;
  if existsb is_parent_dir (components path) then fail (invalid NO_PARENTS)
  else
    let parent := filled_parent path in
    canonical ← canonical_parent (length (components path)) create parent parent;
    path ← (match path_file_name path with
            | Some name => mret (join canonical name)
            | None => canonicalize path
            end);
    slash ← open_slash;
    directory ← descend create slash (components path);
    _ ← validate_file directory true;
    mret directory.

(** *** Records on disk *)

Definition OVERSIZED : bytes := str "oversized revocation record".
Definition node_len (n : Node) : Z := match file_content n with Some c => blen c | None => 4096 end.
(** The text of a parser's error is left out. *)
Definition read_json {T} (dec : list (bytes * Value) -> option T) (parent : Handle) (name : bytes) : R T :=
  file ← open_at parent name false;
  n ← fstat file;
  if MAX_BYTES <? node_len n then fail (invalid OVERSIZED)
  else
    content ← sys (fun _ t => (Ok (default [] (file_content (default (h_node file) (t !! h_path file)))), t));
    if MAX_BYTES <? blen content then fail (invalid OVERSIZED)
    else match (let? fields := se_json s content in dec fields) with
         | Some value => mret value
         | None => fail (invalid [])
         end.

Definition rename_noreplace (parent : Path) (temporary name : bytes) : R unit := fun w =>
  match sys (fun _ t =>
    match t !! (parent ++ [temporary]) with
    | None => (Err ENOENT, t)
    | Some n =>
        match t !! (parent ++ [name]) with
        | Some _ => (Err EEXIST, t)
        | None => (Ok tt, <[parent ++ [name] := n]> (delete (parent ++ [temporary]) t))
        end
    end) w with
  | (Err err, w') => (Err (atomic_rename_error err), w')
  | r => r
  end.
Definition create_exclusive (parent : Path) (name : bytes) : R Handle :=
  sys (fun k t =>
    match t !! (parent ++ [name]) with
    | Some _ => (Err EEXIST, t)
    | None => let n := mkNode (RegularFile []) (euid s) 384 1 (fst (inode_at s k)) (snd (inode_at s k)) in
              (Ok (mkHandle (parent ++ [name]) n), <[parent ++ [name] := n]> t)
    end).
Definition write_all (h : Handle) (b : bytes) : R unit :=
  sys (fun _ t => (Ok tt, <[h_path h := (let n := h_node h in
                     mkNode (RegularFile b) (n_uid n) (n_mode n) (n_links n) (n_dev n) (n_ino n))]> t)).
Definition unlinkat (parent : Path) (name : bytes) : R unit :=
  sys (fun _ t => match t !! (parent ++ [name]) with
                  | Some _ => (Ok tt, delete (parent ++ [name]) t)
                  | None => (Err ENOENT, t)
                  end).
Definition temporary_name (pid : Z) (random : bytes) : bytes := str ".tmp." ++ dec pid ++ [46] ++ random.
(** What is done once the temporary file is open; [false]: the name is taken. *)
Definition publish_into (parent : Handle) (file : Handle) (temporary name b : bytes) : R bool :=
  _ ← validate_file file false;
  _ ← write_all file b;
  _ ← sync_all file;
  renamed ← attempt (rename_noreplace (h_path parent) temporary name);
  match renamed with
  | Err err => if is_kind AlreadyExists err then mret false else fail err
  | Ok _ => mret true
  end.
Definition publish (parent : Handle) (name : bytes) (value : Value) : R bool :=
  let b := se_print s value in
  if MAX_BYTES <? blen b then fail (invalid OVERSIZED)
  else
    random ← ask (random_hex16 s);
    temporary ← from_result (component (temporary_name (self_pid s) random));
    name ← from_result (component name);
    file ← create_exclusive (h_path parent) temporary;
    result ← attempt (publish_into parent file temporary name b);
    _ ← (match result with
         | Ok true => mret tt
         | _ => unlinkat (h_path parent) temporary
         end);
    _ ← sync_all parent;
    from_result result.

Definition ROOT_MISMATCH : bytes :=
  str "publication revocation root identity mismatch; do not reset the store: see README publication root re-enrollment".
Definition draw_root_id : R bytes :=
  a ← ask (random_hex16 s);
  b ← ask (random_hex16 s);
  c ← ask (random_hex16 s);
  d ← ask (random_hex16 s);
  mret (a ++ b ++ c ++ d).
Definition enroll (version : Handle) (path : bytes) (stat : Node) : R RootIdentity :=
  id ← draw_root_id;
  _ ← publish version ROOT_JSON (enc_root (mkRootIdentity 1 id path (n_dev stat) (n_ino stat)));
  read_json dec_root version ROOT_JSON.
Definition store_at (root : Handle) (create : bool) : R (Handle * RootIdentity) :=
  base ← directory_at root STORE create;
  version ← directory_at base V1 create;
  stat ← fstat root;
  path ← canonicalize (session_dir s);
  found ← attempt (read_json dec_root version ROOT_JSON);
  identity ← (match found with
              | Ok identity => mret identity
              | Err err => if create && is_kind NotFound err then enroll version path stat else fail err
              end);
  _ ← from_result (validate_digest (ri_root_id identity));
  if negb (ri_schema identity =? 1) || negb (beq (ri_path identity) path)
     || negb (ri_device identity =? n_dev stat) || negb (ri_inode identity =? n_ino stat)
  then fail (invalid ROOT_MISMATCH)
  else mret (version, identity).
Definition store (create : bool) : R (Handle * RootIdentity) :=
  root ← open_root create;
  store_at root create.
Definition root_id_of_store : R bytes :=
  p ← store true;
  mret (ri_root_id (snd (p : Handle * RootIdentity))).

Definition hash (value : bytes) : bytes := concat (map hex2 (se_sha256 s value)).
Definition record_file (op : bytes) : bytes := hash op ++ str ".json".
Definition AUDIT_MISMATCH : bytes := str "publication revocation audit identity mismatch".
Definition RECORD_MISMATCH : bytes := str "publication revocation record identity mismatch".
Definition admit_record (identity : RootIdentity) (nm op : bytes) (r : PublicationRevocation) : Result PublicationRevocation IoErr :=
  try _b := validate_binding (rv_binding r) in
  try _d := validate_digest (rv_intent_digest r) in
  if negb (rv_capability_version r =? 1) || negb (rv_revoked r) || negb (beq (rv_attestation r) (rv_intent_digest r))
     || negb (rv_writer_uid r =? euid s) || negb (bool_decide (is_Some (parse_iso8601_ms (rv_recorded_at r))))
  then Err (invalid AUDIT_MISMATCH)
  else if negb (rv_schema r =? 1) || negb (beq (rv_root_id r) (ri_root_id identity)) || negb (beq (rv_name r) nm)
          || negb (beq (operation (rv_binding r)) op)
  then Err (invalid RECORD_MISMATCH)
  else Ok r.
Definition read_record (version : Handle) (identity : RootIdentity) (nm op : bytes) : R (option PublicationRevocation) :=
  opened ← attempt (directory_at version (hash nm) false);
  match opened with
  | Err err => if is_kind NotFound err then mret None else fail err
  | Ok directory =>
      found ← attempt (read_json dec_revocation directory (record_file op));
      match found with
      | Err err => if is_kind NotFound err then mret None else fail err
      | Ok r => r ← from_result (admit_record identity nm op r); mret (Some r)
      end
  end.

(** *** The operations *)

Definition validate_session (nm : bytes) : R unit :=
  from_result (match validate_name (socket_len s) nm with Ok _ => Ok tt | Err text => Err (invalid text) end).
(** Whether the store's entry is there, a link counting as there. *)
Definition store_present (root : Handle) : R bool :=
  name ← from_result (component STORE);
  found ← attempt (sys (fun _ t => (match t !! (h_path root ++ [name]) with Some _ => Ok tt | None => Err ENOENT end, t)));
  match found with
  | Ok _ => mret true
  | Err err => if is_kind NotFound err then mret false else fail err
  end.
Definition read_strict (nm op : bytes) : R (option PublicationRevocation) :=
  root ← open_root false;
  opened ← attempt (open_at root STORE true);
  match opened with
  | Err err => if is_kind NotFound err then mret None else fail err
  | Ok _ => p ← store_at root false; read_record (fst (p : Handle * RootIdentity)) (snd p) nm op
  end.
Definition read_with_root_policy (nm op : bytes) (managed : bool) : R (option PublicationRevocation) :=
  _ ← validate_session nm;
  _ ← from_result (validate_operation op);
  if managed then read_strict nm op
  else
    root ← open_following (session_dir s);
    present ← store_present root;
    if negb present then mret None else read_strict nm op.
Definition read (nm op : bytes) : R (option PublicationRevocation) := read_with_root_policy nm op false.

Record RevocationInstall : Type := mkInstall {
  in_record : PublicationRevocation;
  in_occupancy : list SessionInfo;
  in_already_installed : bool
}.
Definition CONFLICT : IoErr := mkIoErr AlreadyExists None (str "publication revocation conflicts with existing immutable record").
Definition claim_error (refusal : option bytes) : IoErr :=
  match refusal with
  | None => mkIoErr WouldBlock None (str "publication name is busy")
  | Some cause => mkIoErr OtherKind None (str "publication name lock unavailable: " ++ cause)
  end.
Definition new_record (identity : RootIdentity) (nm : bytes) (b : PublicationBinding) (intent recorded : bytes) : PublicationRevocation :=
  mkRevocation 1 (ri_root_id identity) nm b intent 1 true intent (euid s) recorded.
(** Under the name's creation lock: the record of before, or a new one read back. *)
Definition install_record (version : Handle) (identity : RootIdentity) (nm : bytes) (b : PublicationBinding) (intent : bytes)
  : R (PublicationRevocation * bool) :=
  existing ← read_record version identity nm (operation b);
  match existing with
  | Some r => if bool_decide (rv_binding r <> b) || negb (beq (rv_intent_digest r) intent) then fail CONFLICT else mret (r, true)
  | None =>
      recorded ← ask (now_iso_at s);
      let r := new_record identity nm b intent recorded in
      directory ← directory_at version (hash nm) true;
      _ ← publish directory (record_file (operation b)) (enc_revocation r);
      durable ← read_record version identity nm (operation b);
      match durable with
      | None => fail (invalid (str "installed revocation disappeared"))
      | Some d => if bool_decide (d <> r) then fail CONFLICT else mret (d, false)
      end
  end.
(** The text that lists the scan's errors is left out. *)
Definition OCCUPANCY : bytes := str "publication occupancy unavailable: ".
Definition install (nm : bytes) (b : PublicationBinding) (intent expected_root_id : bytes) : R RevocationInstall :=
  _ ← validate_session nm;
  _ ← from_result (validate_binding b);
  _ ← from_result (validate_digest intent);
  _ ← from_result (validate_digest expected_root_id);
  p ← store false;
  let version := fst (p : Handle * RootIdentity) in
  let identity := snd p in
  if negb (beq (ri_root_id identity) expected_root_id)
  then fail (denied (str "publication revocation expected root identity mismatch"))
  else
    claim ← ask (fun k => claim_at s k nm);
    _ ← from_result (match claim with Ok _ => Ok tt | Err refusal => Err (claim_error refusal) end);
    pin ← ask (pin_at s);
    _ ← from_result pin;
    durable ← install_record version identity nm b intent;
    again ← directory_at version (hash nm) false;
    _ ← sync_all again;
    seen ← ask (fun k => occupancy_at s k nm);
    if negb (inv_complete seen) || is_nonempty (errors seen) then fail (invalid OCCUPANCY)
    else mret (mkInstall (fst (durable : PublicationRevocation * bool)) (entries seen) (snd durable)).

Definition REVOKED : IoErr := denied (str "operation-revoked").
Definition check (nm : bytes) (binding : option PublicationBinding) (tag_operation : option bytes) : R unit :=
  _ ← validate_session nm;
  _ ← from_result (match binding with Some b => validate_binding b | None => Ok tt end);
  _ ← from_result (match tag_operation with Some op => validate_operation op | None => Ok tt end);
  fence ← (match (match binding with Some b => Some (operation b) | None => tag_operation end) with
           | Some op => read_with_root_policy nm op (bool_decide (is_Some binding))
           | None => mret None
           end);
  match fence with
  | Some _ => fail REVOKED
  | None =>
      match binding, tag_operation with
      | Some _, None => fail (denied (str "managed publication requires operation tag"))
      | Some b, Some op =>
          if beq (operation b) op then mret tt
          else fail (denied (str "publication binding and operation tag disagree"))
      | None, _ => mret tt
      end
  end.

(** The fence [Launch.v] asks, by what the store answers from one state on. *)
Definition fence_of (w : RWorld) : Fence := {|
  Launch.root_id := match fst (root_id_of_store w) with Ok id => Ok id | Err err => Err (io_text err) end;
  fence_check nm b t := match fst (check nm b t w) with Ok _ => Ok tt | Err err => Err (io_text err) end
|}.
End Store.

(** ** What stays *)

Section Fenced.
Context (s : StoreEnv) (root : Path).
Implicit Types (w : RWorld) (p : Path) (nm op : bytes) (t : Tree).

Definition permanent_name (x : bytes) : Prop := starts_with (str ".tmp.") x = false.
(** The root, and what has its final name in the store. *)
Definition fixed p : Prop := p = root \/ exists q, p = root ++ STORE :: q /\ Forall permanent_name q.
Definition kept t t' : Prop := forall p n, fixed p -> t !! p = Some n -> t' !! p = Some n.
Definition keep w w' : Prop := kept (tree w) (tree w').

(** The owner of the root keeps what is published; a missing or an existing name is not
    what a failing call is mistaken for; a digest is bytes. *)
Record Respectful : Prop := {
  others_keep : forall k t, kept t (se_others s k t);
  fault_kinds : forall k err, fault_at s k = Some err -> io_kind err <> NotFound;
  sha_bytes : forall v, Forall (fun b => 0 <= b < 256) (se_sha256 s v)
}.
(** The registry's path is absolute and its links do not move: whichever ancestor is
    resolved, the root is the same. *)
Record Rooted (own : bytes) : Prop := {
  ro_absolute : is_absolute (session_dir s) = true;
  ro_own : path_file_name (session_dir s) = Some own;
  ro_below : root <> [];
  ro_ancestor : forall k t a c rest, canonical_at s k t a = Ok c ->
    strip_components (components a) (components (filled_parent (session_dir s))) = Some rest ->
    components (join (foldl push c rest) own) = RootDir :: map Normal root;
  ro_self : forall k t c n, canonical_at s k t (session_dir s) = Ok c -> t !! root = Some n ->
    is_directory n = true -> names_of c = root
}.
Context (own : bytes) (Re : Respectful) (Ro : Rooted own).

Lemma kept_refl t : kept t t.
Proof. intros p n _ H. exact H. Qed.
Lemma kept_trans t1 t2 t3 : kept t1 t2 -> kept t2 t3 -> kept t1 t3.
Proof. intros H1 H2 p n F H. apply H2; [exact F|]. apply H1; done. Qed.
(** An insertion at a free name. *)
Lemma kept_insert t p n : t !! p = None -> kept t (<[p := n]> t).
Proof.
  intros H q m _ Hq. rewrite lookup_insert_ne; [exact Hq|]. intros ->. rewrite H in Hq. discriminate.
Qed.
Lemma kept_other t p n : ~ fixed p -> kept t (<[p := n]> t).
Proof. intros H q m F Hq. rewrite lookup_insert_ne; [exact Hq|]. intros ->. exact (H F). Qed.
Lemma kept_delete t p : ~ fixed p -> kept t (delete p t).
Proof. intros H q m F Hq. rewrite lookup_delete_ne; [exact Hq|]. intros ->. exact (H F). Qed.

(** A run: everything fixed stays, and the answer is as described. *)
Definition run {A} w (m : R A) (Q : A -> RWorld -> Prop) (E : IoErr -> Prop) : Prop :=
  keep w (snd (m w)) /\ match fst (m w) with Ok a => Q a (snd (m w)) | Err err => E err end.
Definition any : IoErr -> Prop := fun _ => True.

Lemma run_ret {A} w (a : A) (Q : A -> RWorld -> Prop) E : Q a w -> run w (mret a) Q E.
Proof. intros H. split; [apply kept_refl|exact H]. Qed.
Lemma run_fail {A} w err (Q : A -> RWorld -> Prop) (E : IoErr -> Prop) : E err -> run w (fail err) Q E.
Proof. intros H. split; [apply kept_refl|exact H]. Qed.
Lemma run_from_result {A} w (r : Result A IoErr) Q (E : IoErr -> Prop) :
  match r with Ok a => Q a w | Err err => E err end -> run w (from_result r) Q E.
Proof. intros H. split; [apply kept_refl|]. unfold from_result. destruct r; exact H. Qed.
Lemma frun_bind {A B} w (m : R A) (f : A -> R B) P Q (E : IoErr -> Prop) :
  run w m P E -> (forall a w1, keep w w1 -> P a w1 -> run w1 (f a) Q E) -> run w (m ≫= f) Q E.
Proof.
  unfold run, mbind, R_bind. intros [K H] Hf. destruct (m w) as [[a|err] w1]; cbn in *.
  - destruct (Hf a w1 K H) as [K1 H1]. split; [exact (kept_trans _ _ _ K K1)|exact H1].
  - split; [exact K|exact H].
Qed.
Lemma run_mono {A} w (m : R A) (P Q : A -> RWorld -> Prop) (E F : IoErr -> Prop) :
  run w m P E -> (forall a w1, keep w w1 -> P a w1 -> Q a w1) -> (forall err, E err -> F err) -> run w m Q F.
Proof. unfold run. intros [K H] HQ HE. split; [exact K|]. destruct (fst (m w)); auto. Qed.
Lemma run_attempt {A} w (m : R A) (Q : A -> RWorld -> Prop) (E : IoErr -> Prop) F :
  run w m Q E -> run w (attempt m) (fun r w1 => match r with Ok a => Q a w1 | Err err => E err end) F.
Proof. unfold run, attempt. destruct (m w) as [r w1]. cbn. auto. Qed.
Lemma run_try {A} w (m : R A) (Q : A -> RWorld -> Prop) F :
  run w m Q any -> run w (attempt m) (fun r w1 => match r with Ok a => Q a w1 | Err _ => True end) F.
Proof. apply run_attempt. Qed.
Lemma run_ask {A} w (f : nat -> A) (Q : A -> RWorld -> Prop) E : (forall a w1, Q a w1) -> run w (ask s f) Q E.
Proof. intros H. split; [apply (others_keep Re)|apply H]. Qed.
(** A system call. *)
Lemma run_sys {A} w (f : nat -> Tree -> Result A IoErr * Tree) (Q : A -> RWorld -> Prop) (E : IoErr -> Prop) :
  (forall err, io_kind err <> NotFound -> E err) ->
  (forall k t, kept (tree w) t -> kept t (snd (f k t)) /\
    match fst (f k t) with Ok a => forall w1, tree w1 = snd (f k t) -> Q a w1 | Err err => E err end) ->
  run w (sys s f) Q E.
Proof.
  intros HE H. unfold run, sys. set (t := se_others s (tick w) (tree w)).
  assert (K : kept (tree w) t) by apply (others_keep Re).
  destruct (fault_at s (tick w)) as [err|] eqn:F; [split; [exact K|apply HE; exact (fault_kinds Re _ _ F)]|].
  specialize (H (tick w) t K). destruct (f (tick w) t) as [r t']. cbn [fst snd] in *.
  destruct H as [K' H]. split; [exact (kept_trans _ _ _ K K')|]. cbn. destruct r; [apply H; reflexivity|exact H].
Qed.

(** *** Names *)

Lemma fixed_store q : Forall permanent_name q -> fixed (root ++ STORE :: q).
Proof. right. eauto. Qed.
Lemma fixed_root : fixed root.
Proof. left. reflexivity. Qed.
Lemma temporary_loose q pid random : ~ fixed ((root ++ STORE :: q) ++ [temporary_name pid random]).
Proof.
  rewrite <- app_assoc. cbn [app]. intros [H|(q' & H & F)].
  - apply (f_equal length) in H. rewrite length_app in H. cbn in H. lia.
  - apply app_inv_head in H. injection H as <-. apply Forall_app in F as [_ F]. inversion F as [|? ? F1 _].
    unfold permanent_name, temporary_name in F1. discriminate.
Qed.
Lemma hex_digit_high d : 0 <= d < 16 -> 48 <= hex_digit d.
Proof. unfold hex_digit. destruct (Z.ltb_spec d 10); lia. Qed.
Lemma permanent_cons c l : c <> 46 -> permanent_name (c :: l).
Proof.
  intros H. unfold permanent_name, starts_with. change (str ".tmp.") with (46 :: str "tmp.").
  cbn [strip_prefix]. destruct (Z.eqb_spec 46 c); [congruence|done].
Qed.
Lemma permanent_hash v suf : permanent_name suf -> permanent_name (hash s v ++ suf).
Proof.
  intros Hs. unfold hash. pose proof (sha_bytes Re v) as B. destruct (se_sha256 s v) as [|b l]; [exact Hs|].
  inversion B as [|? ? Hb _]. apply permanent_cons.
  assert (48 <= hex_digit (b / 16)); [|lia]. apply hex_digit_high.
  pose proof (Z.div_pos b 16). pose proof (Z.div_lt_upper_bound b 16 16). lia.
Qed.
Lemma permanent_dir nm : permanent_name (hash s nm).
Proof. rewrite <- (app_nil_r (hash s nm)). apply permanent_hash. reflexivity. Qed.
Lemma permanent_file op : permanent_name (record_file s op).
Proof. apply permanent_hash. reflexivity. Qed.

(** *** The operations keep what is fixed *)

Definition has p w : Prop := exists n, tree w !! p = Some n.
Definition has_dir p w : Prop := exists n, tree w !! p = Some n /\ is_directory n = true.
Definition not_missing p w (err : IoErr) : Prop := fixed p -> has p w -> io_kind err <> NotFound.
Lemma has_kept p w w1 : fixed p -> keep w w1 -> has p w -> has p w1.
Proof. intros F K [n H]. exists n. exact (K p n F H). Qed.
Lemma has_dir_kept p w w1 : fixed p -> keep w w1 -> has_dir p w -> has_dir p w1.
Proof. intros F K (n & H & D). exists n. split; [exact (K p n F H)|exact D]. Qed.
Lemma has_dir_has p w : has_dir p w -> has p w.
Proof. intros (n & H & _). exists n. exact H. Qed.

(** Opened at [p], which is there. *)
Definition opened (directory : bool) p (h : Handle) w : Prop :=
  h_path h = p /\ if directory then has_dir p w else has p w.
Lemma opened_kept d p h w w1 : fixed p -> keep w w1 -> opened d p h w -> opened d p h w1.
Proof.
  intros F K [E H]. split; [exact E|]. destruct d; [exact (has_dir_kept _ _ _ F K H)|exact (has_kept _ _ _ F K H)].
Qed.

(** A call that does not change the tree. *)
Lemma run_look {A} w (f : nat -> Tree -> Result A IoErr) (Q : A -> RWorld -> Prop) (E : IoErr -> Prop) :
  (forall err, io_kind err <> NotFound -> E err) ->
  (forall k w1, keep w w1 -> match f k (tree w1) with Ok a => Q a w1 | Err err => E err end) ->
  run w (sys s (fun k t => (f k t, t))) Q E.
Proof.
  intros HE H. apply run_sys; [exact HE|]. intros k t K. cbn [fst snd]. split; [apply kept_refl|].
  specialize (H k). destruct (f k t) as [a|err] eqn:X.
  - intros [t1 n1] W. cbn in W. subst t1. specialize (H (mkRWorld t n1) K). cbn in H. rewrite X in H. exact H.
  - specialize (H (mkRWorld t 0) K). cbn in H. rewrite X in H. exact H.
Qed.
Lemma run_sync w h (E : IoErr -> Prop) : (forall err, io_kind err <> NotFound -> E err) -> run w (sync_all s h) (fun _ w1 => keep w w1) E.
Proof. intros HE. apply (run_look w (fun _ _ => Ok tt)); [exact HE|]. intros _ w1 K. exact K. Qed.
Lemma run_validate w h d (E : IoErr -> Prop) :
  (forall err, io_kind err <> NotFound -> E err) -> run w (validate_file s h d) (fun _ w1 => keep w w1) E.
Proof.
  intros HE. eapply frun_bind.
  - apply (run_look w (fun _ t => Ok (default (h_node h) (t !! h_path h))) (fun _ w1 => keep w w1)); [exact HE|]. intros _ w1 K. exact K.
  - intros n w1 _ K. destruct (safe_node s d n); [apply run_ret; exact K|]. apply run_fail, HE. discriminate.
Qed.
Lemma run_openat w p name d (E : IoErr -> Prop) :
  (forall err, not_missing (p ++ [name]) w err -> E err) ->
  run w (openat s p name d) (opened d (p ++ [name])) E.
Proof.
  intros HE. apply run_look.
  - intros err Hk. apply HE. intros _ _. exact Hk.
  - intros k w1 K. destruct (tree w1 !! (p ++ [name])) as [n|] eqn:X.
    2: { apply HE. intros F [n Hn]. rewrite (K _ _ F Hn) in X. discriminate. }
    destruct (n_kind n) eqn:N; [| |apply HE; intros _ _; discriminate|].
    + split; [done|]. destruct d; [exists n|exists n; done]. split; [done|]. unfold is_directory. rewrite N. done.
    + destruct d; [apply HE; intros _ _; discriminate|]. split; [done|]. exists n. done.
    + destruct d; [apply HE; intros _ _; discriminate|]. split; [done|]. exists n. done.
Qed.
Lemma run_open_at w h name d (E : IoErr -> Prop) :
  fixed (h_path h ++ [name]) -> (forall err, not_missing (h_path h ++ [name]) w err -> E err) ->
  run w (open_at s h name d) (opened d (h_path h ++ [name])) E.
Proof.
  intros F HE. assert (HE' : forall err, io_kind err <> NotFound -> E err) by (intros err X; apply HE; intros _ _; exact X).
  unfold open_at. eapply frun_bind.
  - apply (run_from_result w _ (fun a w1 => a = name /\ w1 = w)). unfold component. destruct (existsb _ _); [apply HE'; discriminate|done].
  - intros a w1 _ [-> ->]. eapply frun_bind; [apply run_openat, HE|]. intros h1 w1 _ O. eapply frun_bind; [apply run_validate, HE'|].
    intros u w2 _ K. apply run_ret. exact (opened_kept _ _ _ _ _ F K O).
Qed.
Lemma run_mkdirat w p name : run w (mkdirat s p name) (fun _ _ => True) any.
Proof.
  apply run_sys; [done|]. intros k t K. destruct (t !! (p ++ [name])) eqn:X; cbn; [split; [apply kept_refl|done]|].
  split; [apply kept_insert; exact X|done].
Qed.
(** [mkdirat] where an existing directory does. *)
Lemma run_make w p name (next : R unit) :
  (forall w1, run w1 next (fun _ _ => True) any) ->
  run w (made ← attempt (mkdirat s p name);
         match made with
         | Err err => if is_kind AlreadyExists err then mret tt else fail err
         | Ok _ => next
         end) (fun _ _ => True) any.
Proof.
  intros Hn. eapply frun_bind.
  - apply (run_attempt w _ (fun _ _ => True) any any). apply run_mkdirat.
  - intros [u|err] w1 _ _; [apply Hn|]. destruct (is_kind AlreadyExists err); [apply run_ret|apply run_fail]; done.
Qed.
Lemma run_directory_at w h name create (E : IoErr -> Prop) :
  fixed (h_path h ++ [name]) -> (create = true -> E = any) ->
  (forall err, not_missing (h_path h ++ [name]) w err -> E err) ->
  run w (directory_at s h name create) (opened true (h_path h ++ [name])) E.
Proof.
  intros F HC HE. assert (HE' : forall err, io_kind err <> NotFound -> E err) by (intros err X; apply HE; intros _ _; exact X).
  unfold directory_at. apply frun_bind with (fun _ w1 => create = false -> w1 = w).
  - destruct create; [|apply run_ret; done]. rewrite (HC eq_refl). eapply frun_bind.
    + apply (run_from_result w _ (fun _ _ => True)). destruct (component name); done.
    + intros c w1 _ _. eapply run_mono; [apply (run_make w1 (h_path h) c (mret tt))|done|done]. intros w2. apply run_ret. done.
  - intros u w1 _ Same. eapply frun_bind.
    + apply (run_open_at w1 h name true E F). intros err. destruct create; [intros _; rewrite (HC eq_refl); done|].
      rewrite (Same eq_refl). apply HE.
    + intros d w2 _ O. apply frun_bind with (fun _ w3 => keep w2 w3).
      * destruct create; [apply run_sync, HE'|apply run_ret, kept_refl].
      * intros u2 w3 _ K. apply run_ret. exact (opened_kept _ _ _ _ _ F K O).
Qed.

(** *** The root and the store *)

Lemma run_canonicalize w (p : bytes) : run w (canonicalize s p) (fun c _ => exists k t, canonical_at s k t p = Ok c) any.
Proof. apply run_look; [done|]. intros k w1 _. destruct (canonical_at s k (tree w1) p) eqn:X; [eauto|done]. Qed.
Lemma run_canonical_parent rounds create a w :
  run w (canonical_parent s rounds create (filled_parent (session_dir s)) a)
    (fun c _ => components (join c own) = RootDir :: map Normal root) any.
Proof.
  revert a w. induction rounds as [|rounds IH]; intros a w; cbn [canonical_parent];
    (eapply frun_bind; [apply run_try, run_canonicalize|]);
    (intros [c|err] w1 _ H; [destruct (strip_components _ _) as [rest|] eqn:S; [|apply run_fail; done];
      destruct H as (k & t & H); apply run_ret; exact (ro_ancestor _ Ro _ _ _ _ _ H S)|]).
  - apply run_fail. done.
  - destruct (create && is_kind NotFound err); [apply IH|apply run_fail; done].
Qed.
Definition normals (parts : list Component) : Path :=
  omap (fun c => match c with Normal name => Some name | _ => None end) parts.
Lemma run_descend create parts : forall dir w,
  run w (descend s create dir parts) (fun h w1 => h_path h = h_path dir ++ normals parts
    /\ (normals parts = [] -> h = dir /\ w1 = w) /\ (normals parts <> [] -> has_dir (h_path h) w1)) any.
Proof.
  induction parts as [|[| | |name] parts IH]; intros dir w; cbn [descend].
  - apply run_ret. cbn. rewrite app_nil_r. done.
  - apply IH.
  - apply IH.
  - apply run_fail. done.
  - destruct (existsb _ _); [apply run_fail; done|]. apply frun_bind with (fun _ _ => True).
    { destruct create; [|apply run_ret; done]. apply run_make. intros w1.
      eapply run_mono; [apply (run_sync w1 dir any); done|done|done]. }
    intros u w1 _ _. eapply frun_bind; [apply run_openat; done|]. intros h w2 _ [E H].
    eapply run_mono; [apply IH| |done]. intros h' w3 _ (P & A & B). cbn [normals omap]. rewrite P, E, <- app_assoc.
    split; [done|]. split; [done|]. intros _. destruct (normals parts) as [|x l] eqn:N.
    + destruct (A eq_refl) as [-> ->]. rewrite app_nil_r. exact H.
    + rewrite E, <- app_assoc in P. rewrite <- P. apply B. done.
Qed.
Lemma normals_map l : normals (map Normal l) = l.
Proof. induction l as [|x l IH]; [done|]. cbn. f_equal. exact IH. Qed.
Lemma run_open_root create w : run w (open_root s create) (opened true root) any.
Proof.
  unfold open_root, registry_path. rewrite (ro_absolute _ Ro). eapply frun_bind; [apply (run_ret w _ (fun (x : bytes) _ => x = session_dir s)); done|].
  intros path w1 _ ->. destruct (existsb _ _); [apply run_fail; done|]. cbv zeta.
  eapply frun_bind; [apply run_canonical_parent|]. intros c w2 _ C. rewrite (ro_own _ Ro).
  eapply frun_bind; [apply (run_ret w2 _ (fun (x : bytes) _ => components x = RootDir :: map Normal root)); exact C|].
  intros path w3 _ E. eapply frun_bind; [apply (run_look w3 (fun _ t => match t !! [] with Some n => Ok (mkHandle [] n) | None => Err ENOENT end)
    (fun h _ => h_path h = []) any); [done|]|].
  { intros k w4 _. destruct (tree w4 !! []); done. }
  intros h w4 _ H. eapply frun_bind; [apply run_descend|]. intros d w5 _ (P & _ & D). rewrite E, H in P. rewrite E in D.
  change (normals (RootDir :: map Normal root)) with (normals (map Normal root)) in P, D. rewrite normals_map in P, D.
  cbn [app] in P. specialize (D (ro_below _ Ro)). rewrite P in D.
  eapply frun_bind; [apply (run_validate w5 d true any); done|]. intros u w6 _ K. apply run_ret.
  exact (opened_kept true root d w5 w6 fixed_root K (conj P D)).
Qed.

(** Reading keeps everything; it finds a file that is there. *)
Lemma run_read_json {T} (dec : list (bytes * Value) -> option T) w h name (E : IoErr -> Prop) :
  fixed (h_path h ++ [name]) -> (forall err, not_missing (h_path h ++ [name]) w err -> E err) ->
  run w (read_json s dec h name) (fun _ w1 => has (h_path h ++ [name]) w1) E.
Proof.
  intros F HE. assert (HE' : forall err, io_kind err <> NotFound -> E err) by (intros err X; apply HE; intros _ _; exact X).
  unfold read_json. eapply frun_bind; [apply run_open_at; [exact F|exact HE]|]. intros f w1 _ [_ O].
  eapply frun_bind.
  { apply (run_look w1 (fun _ t => Ok (default (h_node f) (t !! h_path f))) (fun _ w2 => has (h_path h ++ [name]) w2)); [exact HE'|].
    intros _ w2 K. exact (has_kept _ _ _ F K O). }
  intros n w2 _ O2. destruct (_ <? _); [apply run_fail, HE'; discriminate|].
  eapply frun_bind.
  { apply (run_look w2 (fun _ t => Ok (default [] (file_content (default (h_node f) (t !! h_path f)))))
      (fun _ w3 => has (h_path h ++ [name]) w3)); [exact HE'|]. intros _ w3 K. exact (has_kept _ _ _ F K O2). }
  intros c w3 _ O3. destruct (_ <? _); [apply run_fail, HE'; discriminate|].
  destruct (let? fields := se_json s c in dec fields); [apply run_ret; exact O3|apply run_fail, HE'; discriminate].
Qed.

(** Writing touches the temporary name alone, and a free one. *)
Lemma run_create_exclusive w p name : run w (create_exclusive s p name) (fun f _ => h_path f = p ++ [name]) any.
Proof.
  apply run_sys; [done|]. intros k t _. destruct (t !! (p ++ [name])) eqn:X; cbn [fst snd].
  - split; [apply kept_refl|done].
  - split; [apply kept_insert; exact X|done].
Qed.
Lemma run_write w f b : ~ fixed (h_path f) -> run w (write_all s f b) (fun _ _ => True) any.
Proof. intros L. apply run_sys; [done|]. intros k t _. split; [apply kept_other; exact L|done]. Qed.
Lemma run_unlink w p name : ~ fixed (p ++ [name]) -> run w (unlinkat s p name) (fun _ _ => True) any.
Proof.
  intros L. apply run_sys; [done|]. intros k t _. destruct (t !! (p ++ [name])); cbn [fst snd]; (split; [|done]).
  - apply kept_delete. exact L.
  - apply kept_refl.
Qed.
Lemma kept_rename t p q n : ~ fixed p -> t !! q = None -> kept t (<[q := n]> (delete p t)).
Proof.
  intros L Z. apply kept_trans with (delete p t); [apply kept_delete; exact L|]. apply kept_insert.
  destruct (base.decide (p = q)) as [<-|N]; [apply lookup_delete_eq|]. rewrite lookup_delete_ne; done.
Qed.
Lemma run_rename w p tmp name : ~ fixed (p ++ [tmp]) -> run w (rename_noreplace s p tmp name) (fun _ _ => True) any.
Proof.
  intros L. unfold rename_noreplace.
  match goal with |- run w (fun w => match sys s ?f w with _ => _ end) _ _ =>
    assert (X : run w (sys s f) (fun _ _ => True) any); [|unfold run in X |- *; destruct (sys s f w) as [[u|err] w1]; exact X] end.
  apply run_sys; [done|]. intros k t _. destruct (t !! (p ++ [tmp])) as [n|]; [|split; [apply kept_refl|done]].
  destruct (t !! (p ++ [name])) eqn:Z; cbn [fst snd]; (split; [|done]); [apply kept_refl|apply kept_rename; done].
Qed.
Lemma run_publish_into w h f tmp name b :
  h_path f = h_path h ++ [tmp] -> ~ fixed (h_path h ++ [tmp]) -> run w (publish_into s h f tmp name b) (fun _ _ => True) any.
Proof.
  intros Hf L. unfold publish_into. eapply frun_bind; [apply run_validate; done|]. intros _u w1 _ _.
  eapply frun_bind; [apply run_write; rewrite Hf; exact L|]. intros _u1 w2 _ _.
  eapply frun_bind; [apply run_sync; done|]. intros _u2 w3 _ _.
  eapply frun_bind; [apply run_try, run_rename, L|]. intros [u|err] w4 _ _; [apply run_ret; done|].
  destruct (is_kind _ _); [apply run_ret|apply run_fail]; done.
Qed.
Lemma run_component w name : run w (from_result (component name)) (fun x _ => x = name) any.
Proof. apply run_from_result. unfold component. destruct (existsb _ _); done. Qed.
(** Publishing in a directory of the store. *)
Lemma run_publish w h q name v : h_path h = root ++ STORE :: q -> run w (publish s h name v) (fun _ _ => True) any.
Proof.
  intros Hq. unfold publish. destruct (_ <? _); [apply run_fail; done|].
  eapply frun_bind; [apply (run_ask w _ (fun _ _ => True)); done|]. intros random w1 _ _.
  eapply frun_bind; [apply run_component|]. intros tmp w2 _ ->. eapply frun_bind; [apply run_component|]. intros ? w3 _ ->.
  assert (L : ~ fixed (h_path h ++ [temporary_name (self_pid s) random])) by (rewrite Hq; apply temporary_loose).
  eapply frun_bind; [apply run_create_exclusive|]. intros f w4 _ Hf.
  eapply frun_bind; [apply run_try, run_publish_into; [exact Hf|exact L]|]. intros r w5 _ _.
  apply frun_bind with (fun _ _ => True).
  { destruct r as [[|]|]; [apply run_ret; done|apply run_unlink; exact L..]. }
  intros _u w6 _ _. eapply frun_bind; [apply run_sync; done|]. intros _u1 w7 _ _. apply run_from_result. destruct r; done.
Qed.

Definition store_path : Path := root ++ [STORE].
Definition version_path : Path := root ++ [STORE; V1].
Definition name_path nm : Path := root ++ [STORE; V1; hash s nm].
Definition fence_path nm op : Path := root ++ [STORE; V1; hash s nm; record_file s op].
Lemma fixed_paths nm op : fixed store_path /\ fixed version_path /\ fixed (name_path nm) /\ fixed (fence_path nm op).
Proof.
  pose proof (permanent_dir nm). pose proof (permanent_file op). assert (permanent_name V1) by reflexivity.
  split; [|split; [|split]]; (eapply (fixed_store (_ : list bytes))); repeat (constructor; [assumption|]); constructor.
Qed.
Lemma below_store : root ++ [STORE] = store_path /\ store_path ++ [V1] = version_path.
Proof. split; [reflexivity|]. unfold store_path, version_path. rewrite <- app_assoc. reflexivity. Qed.
Lemma below_version nm op : version_path ++ [hash s nm] = name_path nm /\ name_path nm ++ [record_file s op] = fence_path nm op.
Proof. unfold version_path, name_path, fence_path. rewrite <- !app_assoc. split; reflexivity. Qed.

Lemma run_store_at w h create :
  opened true root h w -> run w (store_at s h create) (fun vi w1 => opened true version_path (fst vi) w1 /\ has_dir store_path w1) any.
Proof.
  intros [Hh Hr]. destruct (fixed_paths [] []) as (F1 & F2 & _). destruct below_store as [B1 B2].
  unfold store_at. eapply frun_bind; [apply run_directory_at; [rewrite Hh, B1; exact F1|done|done]|]. intros base w1 _ O1.
  rewrite Hh, B1 in O1. pose proof (proj1 O1) as Hb.
  eapply frun_bind; [apply run_directory_at; [rewrite Hb, B2; exact F2|done|done]|]. intros v w2 K2 O2. rewrite Hb, B2 in O2.
  assert (Both : forall w3, keep w2 w3 -> opened true version_path v w3 /\ has_dir store_path w3).
  { intros w3 K3. split; [exact (opened_kept _ _ _ _ _ F2 K3 O2)|]. apply (has_dir_kept _ w1); [exact F1|exact (kept_trans _ _ _ K2 K3)|exact (proj2 O1)]. }
  apply frun_bind with (fun _ w3 => keep w2 w3).
  { apply (run_look w2 (fun _ t => Ok (default (h_node h) (t !! h_path h)))); [done|]. intros _ w3 K. exact K. }
  intros stat w3 _ K3. eapply frun_bind; [apply run_canonicalize|]. intros path w4 K4 _.
  assert (RJ : forall w, run w (read_json s dec_root v ROOT_JSON) (fun _ _ => True) any).
  { intros w'. eapply run_mono; [apply run_read_json|done|].
    - rewrite (proj1 O2). unfold version_path. rewrite <- app_assoc. apply (fixed_store [V1; ROOT_JSON]).
      repeat (constructor; [reflexivity|]). constructor.
    - done.
    - done. }
  eapply frun_bind; [apply run_try, RJ|]. intros found w5 K5 _.
  apply frun_bind with (fun _ _ => True).
  { destruct found as [i|err]; [apply run_ret; done|]. destruct (create && is_kind NotFound err); [|apply run_fail; done].
    unfold enroll, draw_root_id. apply frun_bind with (fun _ _ => True).
    - do 4 (eapply frun_bind; [apply (run_ask _ _ (fun _ _ => True)); done|]; intros ? ? _ _). apply run_ret. done.
    - intros id w6 _ _. eapply frun_bind; [apply (run_publish w6 v [V1]); rewrite (proj1 O2); reflexivity|]. intros _b w7 _ _. apply RJ. }
  intros i w6 K6 _. apply frun_bind with (fun _ w7 => keep w6 w7).
  { apply run_from_result. destruct (validate_digest _); [apply kept_refl|done]. }
  intros _u w7 _ K7. destruct (_ || _); [apply run_fail; done|]. apply run_ret. cbn [fst]. apply Both.
  exact (kept_trans _ _ _ K3 (kept_trans _ _ _ K4 (kept_trans _ _ _ K5 (kept_trans _ _ _ K6 K7)))).
Qed.
Lemma run_store w create : run w (store s create) (fun vi w1 => opened true version_path (fst vi) w1 /\ has_dir store_path w1) any.
Proof. unfold store. eapply frun_bind; [apply run_open_root|]. intros h w1 _ O. apply run_store_at. exact O. Qed.

(** A record found is there; none is reported only where none is. *)
Definition found_record i nm op w (r : option PublicationRevocation) w1 : Prop :=
  match r with
  | Some rv => has_dir (name_path nm) w1 /\ has (fence_path nm op) w1 /\ admit_record s i nm op rv = Ok rv
  | None => ~ (has_dir (name_path nm) w /\ has (fence_path nm op) w)
  end.
Lemma run_read_record w v i nm op :
  h_path v = version_path -> run w (read_record s v i nm op) (found_record i nm op w) any.
Proof.
  intros Hv. destruct (fixed_paths nm op) as (_ & _ & F3 & F4). destruct (below_version nm op) as [B1 B2].
  unfold read_record. eapply frun_bind.
  { apply (run_attempt w (directory_at s v (hash s nm) false) (opened true (name_path nm)) (not_missing (name_path nm) w)).
    rewrite <- B1, <- Hv. apply run_directory_at; [rewrite Hv, B1; exact F3|done|done]. }
  intros [d|err] w1 K1 O1.
  2: { destruct (is_kind NotFound err) eqn:N; [|apply run_fail; done]. apply run_ret. intros [H _].
       apply bool_decide_eq_true_1 in N. exact (O1 F3 (has_dir_has _ _ H) N). }
  eapply frun_bind.
  { apply (run_attempt w1 (read_json s dec_revocation d (record_file s op)) (fun _ w2 => has (fence_path nm op) w2) (not_missing (fence_path nm op) w1)).
    rewrite <- B2, <- (proj1 O1). apply run_read_json; [rewrite (proj1 O1), B2; exact F4|done]. }
  intros [rv|err] w2 K2 O2.
  2: { destruct (is_kind NotFound err) eqn:N; [|apply run_fail; done]. apply run_ret. intros [_ H].
       apply bool_decide_eq_true_1 in N. exact (O2 F4 (has_kept _ _ _ F4 K1 H) N). }
  eapply frun_bind; [apply (run_from_result w2 _ (fun r w3 => w3 = w2 /\ admit_record s i nm op rv = Ok r)); destruct (admit_record _ _ _ _ _); done|].
  intros rv' w3 _ [-> A]. apply run_ret. split; [exact (has_dir_kept _ _ _ F3 K2 (proj2 O1))|]. split; [exact O2|].
  assert (rv' = rv) as ->; [|exact A]. revert A. unfold admit_record, rbind.
  destruct (validate_binding _); [|discriminate]. destruct (validate_digest _); [|discriminate].
  destruct (_ || _); [discriminate|]. destruct (_ || _); [discriminate|]. intros [= <-]. done.
Qed.

(** *** The fence stands *)

Definition installed nm op w : Prop :=
  has_dir root w /\ has_dir store_path w /\ has_dir (name_path nm) w /\ has (fence_path nm op) w.
Lemma installed_kept nm op w w1 : keep w w1 -> installed nm op w -> installed nm op w1.
Proof.
  intros K (A & B & C & D). destruct (fixed_paths nm op) as (F1 & F2 & F3 & F4).
  split; [exact (has_dir_kept _ _ _ fixed_root K A)|]. split; [exact (has_dir_kept _ _ _ F1 K B)|].
  split; [exact (has_dir_kept _ _ _ F3 K C)|exact (has_kept _ _ _ F4 K D)].
Qed.
Lemma run_check_result {A} w (r : Result A IoErr) : run w (from_result r) (fun _ w1 => w1 = w) any.
Proof. apply run_from_result. destruct r; done. Qed.

(** The record an installation vouches for. *)
Definition vouched i nm (b : PublicationBinding) (intent : bytes) (rv : PublicationRevocation) : Prop :=
  rv_binding rv = b /\ rv_intent_digest rv = intent /\ rv_name rv = nm /\ rv_root_id rv = ri_root_id i.
Lemma admitted_vouched i nm op rv b intent :
  admit_record s i nm op rv = Ok rv -> rv_binding rv = b -> rv_intent_digest rv = intent -> vouched i nm b intent rv.
Proof.
  intros A B I. split; [exact B|]. split; [exact I|]. revert A. unfold admit_record, rbind.
  destruct (validate_binding _); [|discriminate]. destruct (validate_digest _); [|discriminate].
  destruct (_ || _); [discriminate|]. destruct (_ || _) eqn:X; [discriminate|]. intros _.
  apply orb_false_iff in X as [X _]. apply orb_false_iff in X as [X X1]. apply orb_false_iff in X as [_ X2].
  apply negb_false_iff, beq_eq in X1, X2. done.
Qed.
Lemma run_install_record w v i nm b intent :
  h_path v = version_path ->
  run w (install_record s v i nm b intent)
    (fun rb w1 => has_dir (name_path nm) w1 /\ has (fence_path nm (operation b)) w1 /\ vouched i nm b intent (fst rb)) any.
Proof.
  intros Hv. unfold install_record. eapply frun_bind; [apply run_read_record; exact Hv|]. intros [rv|] w1 K1 F.
  - destruct F as (A & B & C). destruct (bool_decide (rv_binding rv <> b) || negb (beq (rv_intent_digest rv) intent)) eqn:X;
      [apply run_fail; done|]. apply orb_false_iff in X as [X Y]. apply bool_decide_eq_false_1, dec_stable in X.
    apply negb_false_iff, beq_eq in Y. apply run_ret. split; [exact A|]. split; [exact B|].
    apply (admitted_vouched i nm (operation b)); done.
  - eapply frun_bind; [apply (run_ask w1 _ (fun _ _ => True)); done|]. intros recorded w2 _ _. cbv zeta.
    destruct (fixed_paths nm (operation b)) as (_ & _ & F3 & _). destruct (below_version nm (operation b)) as [B1 _].
    eapply frun_bind; [apply run_directory_at; [rewrite Hv, B1; exact F3|done|done]|]. intros d w3 _ O.
    rewrite Hv, B1 in O. eapply frun_bind; [apply (run_publish w3 d [V1; hash s nm]); exact (proj1 O)|]. intros _b w4 _ _.
    eapply frun_bind; [apply run_read_record; exact Hv|]. intros [rv|] w5 _ G; [|apply run_fail; done].
    destruct G as (A & B & C). destruct (bool_decide _) eqn:X; [apply run_fail; done|].
    apply bool_decide_eq_false_1, dec_stable in X. apply run_ret. split; [exact A|]. split; [exact B|].
    apply (admitted_vouched i nm (operation b)); [exact C|rewrite X; done..].
Qed.
Lemma run_install w nm b intent expected :
  run w (install s nm b intent expected) (fun r w1 => installed nm (operation b) w1
    /\ rv_binding (in_record r) = b /\ rv_intent_digest (in_record r) = intent /\ rv_name (in_record r) = nm
    /\ rv_root_id (in_record r) = expected) any.
Proof.
  unfold install, validate_session, store. do 4 (eapply frun_bind; [apply run_check_result|]; intros _ ? _ ->).
  eapply frun_bind; [eapply frun_bind; [apply run_open_root|]; intros h wr _ O; eapply run_mono; [apply run_store_at; exact O| |done]|].
  { intros vi w2 K2 H. exact (conj H (has_dir_kept _ _ _ fixed_root K2 (proj2 O))). }
  intros [v i] w2 _ [[O S] D]. cbn [fst snd] in *. cbv zeta. destruct (beq (ri_root_id i) expected) eqn:X; [|apply run_fail; done].
  apply beq_eq in X. cbn [negb]. destruct (fixed_paths nm (operation b)) as (F1 & _ & F3 & F4).
  apply frun_bind with (fun _ w3 => keep w2 w3).
  { split; [apply (others_keep Re)|apply (others_keep Re)]. }
  intros claim w3 _ K3. eapply frun_bind; [apply run_check_result|]. intros _u w4 _ ->.
  apply frun_bind with (fun _ w4 => keep w3 w4).
  { split; [apply (others_keep Re)|apply (others_keep Re)]. }
  intros pin w5 _ K5. eapply frun_bind; [apply run_check_result|]. intros _u1 w6 _ ->.
  eapply frun_bind; [apply run_install_record; exact (proj1 O)|]. intros [rv already] w7 K7 (A & B & C1 & C2 & C3 & C4).
  destruct (below_version nm (operation b)) as [B1 _].
  eapply frun_bind; [apply run_directory_at; [rewrite (proj1 O), B1; exact F3|done|done]|]. intros again w8 K8 _.
  apply frun_bind with (fun _ w9 => keep w8 w9); [apply run_sync; done|]. intros _u2 w9 _ K9.
  apply frun_bind with (fun _ w10 => keep w9 w10).
  { split; [apply (others_keep Re)|apply (others_keep Re)]. }
  intros seen w10 _ K10. destruct (_ || _); [apply run_fail; done|]. apply run_ret. cbn [in_record fst] in *.
  split; [|rewrite <- X; done].
  assert (K1 : keep w7 w10) by exact (kept_trans _ _ _ K8 (kept_trans _ _ _ K9 K10)).
  assert (K2 : keep w2 w10) by exact (kept_trans _ _ _ K3 (kept_trans _ _ _ K5 (kept_trans _ _ _ K7 K1))).
  split; [exact (has_dir_kept _ _ _ fixed_root K2 D)|]. split; [exact (has_dir_kept _ _ _ F1 K2 S)|].
  split; [exact (has_dir_kept _ _ _ F3 K1 A)|exact (has_kept _ _ _ F4 K1 B)].
Qed.

Definition stands nm op w (r : option PublicationRevocation) : Prop := installed nm op w -> r <> None.
Lemma run_read_strict w nm op : run w (read_strict s nm op) (fun r _ => stands nm op w r) any.
Proof.
  destruct (fixed_paths nm op) as (F1 & _ & _ & _).
  unfold read_strict. eapply frun_bind; [apply run_open_root|]. intros h w1 K1 O.
  eapply frun_bind.
  { apply (run_attempt w1 (open_at s h STORE true) (opened true store_path) (not_missing store_path w1)).
    unfold store_path. rewrite <- (proj1 O). apply run_open_at; [rewrite (proj1 O); exact F1|done]. }
  intros [d|err] w2 K2 O2.
  - eapply frun_bind; [apply run_store_at; exact (opened_kept _ _ _ _ _ fixed_root K2 O)|]. intros [v i] w3 K3 [O3 _]. cbn [fst snd] in *.
    eapply run_mono; [apply run_read_record; exact (proj1 O3)| |done]. intros r w4 _ F H -> . apply F.
    apply (installed_kept nm op w w3) in H; [|exact (kept_trans _ _ _ K1 (kept_trans _ _ _ K2 K3))]. split; apply H.
  - destruct (is_kind NotFound err) eqn:N; [|apply run_fail; done]. apply run_ret. intros H. apply bool_decide_eq_true_1 in N.
    exfalso. apply (O2 F1); [|exact N]. apply (installed_kept nm op w w1) in H; [|exact K1]. apply has_dir_has, H.
Qed.
Lemma run_read_policy w nm op managed : run w (read_with_root_policy s nm op managed) (fun r _ => stands nm op w r) any.
Proof.
  unfold read_with_root_policy, validate_session. eapply frun_bind; [apply run_check_result|]. intros _u w1 _ ->.
  eapply frun_bind; [apply run_check_result|]. intros _u1 w2 _ ->. destruct managed; [apply run_read_strict|].
  apply frun_bind with (fun h w1 => has_dir root w -> h_path h = root).
  { apply run_look; [done|]. intros k w1 K. destruct (canonical_at s k (tree w1) (session_dir s)) as [c|] eqn:C; [|done].
    destruct (tree w1 !! names_of c); [|done]. intros H. apply (has_dir_kept _ _ w1 fixed_root K) in H as (n' & H & D).
    exact (ro_self _ Ro _ _ _ _ C H D). }
  intros h w1 K1 Hh. unfold store_present. apply frun_bind with (fun present w3 => installed nm op w -> present = true).
  - eapply frun_bind; [apply run_component|]. intros ? w2 K2 ->. eapply frun_bind.
    + apply (run_attempt w2 _ (fun _ _ => True) (fun err => installed nm op w -> io_kind err <> NotFound)). apply run_look; [done|].
      intros k w3 K3. destruct (tree w3 !! (h_path h ++ [STORE])) eqn:X; [done|]. intros H. exfalso.
      rewrite (Hh (proj1 H)) in X. apply (installed_kept nm op w w3) in H; [|exact (kept_trans _ _ _ K1 (kept_trans _ _ _ K2 K3))].
      destruct H as (_ & (n & H & _) & _). unfold store_path in H. rewrite H in X. discriminate.
    + intros [u|err] w3 _ H; [apply run_ret; done|]. destruct (is_kind NotFound err) eqn:N; [|apply run_fail; done].
      apply run_ret. intros I. apply bool_decide_eq_true_1 in N. destruct (H I N).
  - intros [|] w2 K2 P; cbn [negb]; [|apply run_ret; intros I; specialize (P I); discriminate].
    eapply run_mono; [apply run_read_strict| |done]. intros r w3 _ S I. apply S.
    exact (installed_kept nm op w w2 (kept_trans _ _ _ K1 K2) I).
Qed.

(** An operation a launch names, by its binding or its tag. *)
Definition names_operation (binding : option PublicationBinding) (tag_operation : option bytes) op : Prop :=
  (exists b, binding = Some b /\ operation b = op) \/ tag_operation = Some op.
Lemma run_check w nm binding tag :
  run w (check s nm binding tag) (fun _ _ => (forall op, names_operation binding tag op -> ~ installed nm op w)
    /\ forall b, binding = Some b -> tag = Some (operation b)) any.
Proof.
  unfold check, validate_session. do 3 (eapply frun_bind; [apply run_check_result|]; intros ? ? _ ->).
  destruct binding as [b|].
  - eapply frun_bind; [apply run_read_policy|]. intros [rv|] w1 _ S; [apply run_fail; done|].
    destruct tag as [op'|]; [|apply run_fail; done]. destruct (beq (operation b) op') eqn:X; [|apply run_fail; done].
    apply beq_eq in X. apply run_ret. split; [|intros b' [= <-]; congruence].
    intros op [(b' & [= <-] & <-)|[= <-]] I; [apply (S I); done|]. rewrite <- X in I. apply (S I). done.
  - destruct tag as [op'|].
    + eapply frun_bind; [apply run_read_policy|]. intros [rv|] w1 _ S; [apply run_fail; done|]. apply run_ret. split; [|done].
      intros op [(b' & ? & _)|[= <-]] I; [discriminate|]. apply (S I). done.
    + apply frun_bind with (fun r w1 => r = None /\ w1 = w); [apply run_ret; done|]. intros r w1 _ [-> ->]. apply run_ret.
      split; [|done]. intros op [(b' & ? & _)|?]; discriminate.
Qed.

(** *** Whoever calls, in whatever order *)

Inductive Call : Type :=
  | CallRootId
  | CallRead (nm op : bytes)
  | CallInstall (nm : bytes) (b : PublicationBinding) (intent expected : bytes)
  | CallCheck (nm : bytes) (binding : option PublicationBinding) (tag : option bytes).
Definition call (c : Call) w : RWorld :=
  match c with
  | CallRootId => snd (root_id_of_store s w)
  | CallRead nm op => snd (read s nm op w)
  | CallInstall nm b intent expected => snd (install s nm b intent expected w)
  | CallCheck nm binding tag => snd (check s nm binding tag w)
  end.
Definition run_calls (l : list Call) w : RWorld := foldl (fun w c => call c w) w l.
Lemma keep_calls l w : keep w (run_calls l w).
Proof.
  revert w. induction l as [|c l IH]; intros w; [apply kept_refl|]. eapply kept_trans; [|apply IH].
  destruct c as [|nm op|nm b intent expected|nm binding tag]; cbn [call].
  - unfold root_id_of_store. eapply (frun_bind w (store s true)); [apply run_store|]. intros vi w1 _ _.
    apply (run_ret w1 _ (fun _ _ => True) any). done.
  - apply run_read_policy.
  - apply run_install.
  - apply run_check.
Qed.

(** C19: Once an installation has answered, its record is the one asked for, and from then on,
    whatever calls are made in between and whatever the other processes do elsewhere, no
    publication of that session that names the operation is admitted: neither by [check]
    nor by the check a daemon makes on its configuration. *)
Theorem fence_stands w nm b intent expected calls r :
  fst (install s nm b intent expected w) = Ok r ->
  let w1 := run_calls calls (snd (install s nm b intent expected w)) in
  (rv_binding (in_record r) = b /\ rv_intent_digest (in_record r) = intent /\ rv_name (in_record r) = nm
   /\ rv_root_id (in_record r) = expected)
  /\ (forall binding tag, names_operation binding tag (operation b) -> fst (check s nm binding tag w1) <> Ok tt)
  /\ (forall c, c_name c = nm -> names_operation (c_publication_binding c) (tag_of START_OPERATION (cfg_tags c)) (operation b) ->
        @check_publication (fence_of s w1) c <> Ok tt).
Proof.
  intros H w1. destruct (run_install w nm b intent expected) as [_ I]. rewrite H in I. destruct I as [I Facts].
  split; [exact Facts|]. assert (I1 : installed nm (operation b) w1) by exact (installed_kept _ _ _ _ (keep_calls calls _) I).
  assert (No : forall binding tag, names_operation binding tag (operation b) -> fst (check s nm binding tag w1) <> Ok tt).
  { intros binding tag N E. destruct (run_check w1 nm binding tag) as [_ C]. rewrite E in C. destruct C as [C _]. exact (C _ N I1). }
  split; [exact No|]. intros c Hn N E. specialize (No _ _ N). revert E. unfold check_publication.
  destruct (_ && _); [discriminate|]. destruct (match c_publication_binding c with Some _ => _ | None => _ end) as [u|]; [|discriminate].
  cbn [rbind fence_check fence_of]. rewrite Hn. destruct (fst (check s nm _ _ w1)) as [[]|err]; [destruct (No eq_refl)|discriminate].
Qed.
(** A publication is admitted only when its binding and its operation tag agree. *)
Lemma check_agrees w nm b tag u : fst (check s nm (Some b) tag w) = Ok u -> tag = Some (operation b).
Proof. intros H. destruct (run_check w nm (Some b) tag) as [_ C]. rewrite H in C. apply C. reflexivity. Qed.
End Fenced.

(** ** A store at [/r] *)

Definition demo_id : bytes := str "0123456789abcdef0123456789abcdef0123456789abcdef0123456789abcdef".
Definition demo_binding : PublicationBinding := mkBinding (str "op-1") demo_id.
Definition demo_root_fields : list (bytes * Value) :=
  [(str "schema", enc_int 1); (str "rootId", VStr demo_id); (str "path", VStr (str "/r")); (str "device", enc_int 7); (str "inode", enc_int 2)].
Definition demo_record : PublicationRevocation :=
  mkRevocation 1 demo_id (str "a") demo_binding demo_id 1 true demo_id 1000 (str "2025-01-01T00:00:00.000Z").
Definition demo_dir (ino : Z) : Node := mkNode Directory 1000 448 2 7 ino.
Definition demo_store : StoreEnv := {|
  se_sha256 v := map (fun c => c mod 256) v;
  se_json t := if beq t (str "root") then Some demo_root_fields
               else if beq t (str "record") then match enc_revocation demo_record with VObj m => Some m | _ => None end else None;
  se_print v := match v with VObj m => if contains_key (str "device") m then str "root" else str "record" | _ => [] end;
  session_dir := str "/r"; socket_len := fun _ => 0;
  se_others := fun _ t => t; fault_at := fun _ => None;
  canonical_at := fun _ _ p => if beq p (str "/") || beq p (str "/r") then Ok p else Err ENOENT;
  current_dir_at := fun _ => Ok (str "/"); euid := 1000; self_pid := 77;
  random_hex16 := fun _ => str "0123456789abcdef"; inode_at := fun k => (7, Z.of_nat k);
  now_iso_at := fun _ => str "2025-01-01T00:00:00.000Z"; claim_at := fun _ _ => Ok tt; pin_at := fun _ => Ok tt;
  occupancy_at := fun _ _ => mkInventory (str "/r") true [] []
|}.
Definition demo_tree : Tree := list_to_map [([], demo_dir 1); ([str "r"], demo_dir 2)].
Definition demo_enrolled : RWorld := snd (root_id_of_store demo_store (mkRWorld demo_tree 0)).
Definition demo_install := install demo_store (str "a") demo_binding demo_id demo_id demo_enrolled.

Example demo_root_id : fst (root_id_of_store demo_store (mkRWorld demo_tree 0)) = Ok demo_id.
Proof. vm_compute. reflexivity. Qed.
Example demo_admitted : fst (check demo_store (str "a") (Some demo_binding) (Some (str "op-1")) demo_enrolled) = Ok tt.
Proof. vm_compute. reflexivity. Qed.
Example demo_installed : fst demo_install = Ok (mkInstall demo_record [] false).
Proof. vm_compute. reflexivity. Qed.
Example demo_again : fst (install demo_store (str "a") demo_binding demo_id demo_id (snd demo_install)) = Ok (mkInstall demo_record [] true).
Proof. vm_compute. reflexivity. Qed.
Example demo_refused : fst (check demo_store (str "a") (Some demo_binding) (Some (str "op-1")) (snd demo_install)) = Err REVOKED.
Proof. vm_compute. reflexivity. Qed.
Example demo_other : fst (check demo_store (str "a") None (Some (str "op-2")) (snd demo_install)) = Ok tt.
Proof. vm_compute. reflexivity. Qed.

Lemma demo_respectful : Respectful demo_store [str "r"].
Proof.
  split; [intros k t; apply kept_refl|discriminate|]. intros v. cbn [se_sha256 demo_store].
  apply Forall_map, Forall_forall. intros c _. apply Z.mod_pos_bound. lia.
Qed.
Lemma demo_rooted : Rooted demo_store [str "r"] (str "r").
Proof.
  split; [reflexivity..|discriminate| |].
  - intros k t a c rest C S. cbn [canonical_at demo_store] in C. destruct (beq a (str "/")) eqn:A.
    + apply beq_eq in A as ->. cbn [orb] in C. injection C as <-. vm_compute in S. injection S as <-. reflexivity.
    + destruct (beq a (str "/r")) eqn:B; [|discriminate]. apply beq_eq in B as ->. vm_compute in S. discriminate.
  - intros k t c n C _ _. vm_compute in C. injection C as <-. reflexivity.
Qed.
Lemma fence_stands_witness :
  let calls := [CallRead (str "a") (str "op-1"); CallInstall (str "b") demo_binding demo_id demo_id; CallRootId] in
  fst (check demo_store (str "a") None (Some (str "op-1")) (run_calls demo_store calls (snd demo_install))) <> Ok tt.
Proof.
  cbv zeta. refine (proj1 (proj2 (fence_stands demo_store [str "r"] (str "r") demo_respectful demo_rooted demo_enrolled (str "a")
    demo_binding demo_id demo_id _ _ demo_installed)) None (Some (str "op-1")) _). right. reflexivity.
Defined.
