(* ===== verification/Settle.v ===== *)
(** Recovery and closure of a launch operation: [crates/pty-core/src/operation/settle.rs].
    The occupancy rule of the launch decision, the birth marker, [settle] and
    [retire].

    What a verdict looks at (lock attempts, process table, argv scan, registry
    inventory) and how far [retire]'s own effects get are arguments.  Of a
    component's JSON detail only the reason the verdict repeats is kept. *)
From S2P Require Import Prelude MetadataCache Json Metadata ProcTable Argv Inventory Operation.

Definition MARKER_FIELD : bytes := str "launchOperation".
Definition MARKER_OPTION : bytes := str "--launch-operation".

(** ** The birth marker *)

(** [windows(2).any(p)]. *)
Fixpoint any_window2 {A} (p : A -> A -> bool) (l : list A) : bool :=
  match l with
  | x :: ((y :: _) as l') => p x y || any_window2 p l'
  | _ => false
  end.

Definition argv_carries_marker (argv : list bytes) (digest : bytes) : bool :=
  let options := match position (beq (str "--")) (drop 1 argv) with
                 | Some e => take e (drop 1 argv)
                 | None => drop 1 argv
                 end in
  match position (fun a => beq a (str "run") || beq a (str "__daemon")) options with
  | None => false
  | Some verb => any_window2 (fun a b => beq a MARKER_OPTION && beq b digest) (drop (S verb) options)
  end.

(** ** Occupancy *)

Inductive Occupancy : Type :=
  | Absent
  | OccLive (inc : option bytes)
  | Ended (inc : option bytes)
  | Unreadable (path : bytes).

(** Whether a companion file is there; [None] when that could not be told. *)
Record Companion : Type := mkCompanion { c_path : bytes; c_there : option bool }.

Definition incarnation_of (m : SessionMetadata) : option bytes :=
  match daemon_pid m with
  | Some pid =>
      if 0 <? pid
      then match created_at m with [] => None | c => Some (dec pid ++ [58] ++ c) end
      else None
  | None => None
  end.

(** The loop over the socket, metadata and pid file. *)
Fixpoint companions_occupancy (l : list Companion) : Occupancy :=
  match l with
  | [] => Absent
  | c :: l' =>
      match c_there c with
      | Some true => Ended None
      | Some false => companions_occupancy l'
      | None => Unreadable (c_path c)
      end
  end.

Definition observe_occupancy (inv : Inventory) (companions : list Companion) (nm : bytes) : Occupancy :=
  match errors inv with
  | e :: _ => if bool_decide (err_kind e = RootMissing) then Absent else Unreadable (err_path e)
  | [] =>
      match List.find (fun e => beq (name e) nm) (entries inv) with
      | Some e =>
          let inc := let? m := info_metadata e in incarnation_of m in
          match info_status e with Running => OccLive inc | _ => Ended inc end
      | None => companions_occupancy companions
      end
  end.

Definition or_unknown (o : option bytes) : bytes :=
  match o with Some b => b | None => str "unknown" end.

Definition occupancy_rule (occupancy : Occupancy) (expected : option bytes)
  : Result (option bytes) (Cause * bytes) :=
  match occupancy with
  | Absent => Ok None
  | Unreadable path => Err (Occupied, str "unreadable:" ++ path)
  | OccLive inc => Err (Occupied, str "live:" ++ or_unknown inc)
  | Ended inc =>
      let mismatch := Err (PredecessorMismatch, str "ended:" ++ or_unknown inc) in
      match expected, inc with
      | Some e, Some found => if beq e found then Ok (Some found) else mismatch
      | _, _ => mismatch
      end
  end.

(** ** Verdicts *)

Inductive RequestKind : Type := RequestSettle | RequestRetire.

(** [Status]. *)
Inductive Status : Type := StVerified | StPending | StUnknown.
#[export] Instance Status_eq_dec : EqDecision Status.
Proof. solve_decision. Defined.
Definition has (st : Status) (s : Status) : bool := bool_decide (s = st).

Record Component : Type := mkComponent { comp_name : bytes; status : Status; reason : option bytes }.

Record Verdict : Type := mkVerdict {
  verdict : bytes;
  kind : option bytes;
  no_further_effects : bool;
  v_record : option OperationRecord;
  v_request : RequestKind * option bytes;
  v_components : list Component
}.

Definition liveness_json (l : Liveness) : bytes :=
  match l with Live => str "live" | Gone => str "gone" | Unknown why => why end.

(** The writer a record names, if its role is not [None]. *)
Definition acting_writer (r : OperationRecord) : option ProcessId :=
  if role_is r RoleNone then None else w_id (writer r).

Definition writer_component (r : OperationRecord) (t : ProcTable) (boot : option bytes) : Component :=
  mkComponent (str "writer")
    match acting_writer r with
    | None => StVerified
    | Some id =>
        match liveness id t boot with Gone => StVerified | Live => StPending | Unknown _ => StUnknown end
    end None.

(** The participants, in order, each identity once. *)
Definition participant_ids (r : OperationRecord) : list ProcessId :=
  foldl (fun seen o => match o with
                       | Some id => if bool_decide (id ∈ seen) then seen else seen ++ [id]
                       | None => seen
                       end) []
    [launcher (participants r); producer (participants r); p_child (participants r);
     daemon <$> incarnation r; (let? i := incarnation r in inc_child i)].

Definition participant_status (t : ProcTable) (boot : option bytes) (st : Status) (id : ProcessId) : Status :=
  match liveness id t boot with
  | Live => StPending
  | Unknown _ => if has StVerified st then StUnknown else st
  | Gone => st
  end.

Definition participants_component (r : OperationRecord) (t : ProcTable) (boot : option bytes) : Component :=
  mkComponent (str "participants")
    (foldl (participant_status t boot) StVerified (participant_ids r)) None.

Definition marker_component (scan : ArgvScan) (digest : bytes) : Component :=
  mkComponent (str "marker-scan")
    (if existsb (fun r => argv_carries_marker (argv r) digest) (scan_rows scan) then StPending
     else if negb (is_whole scan) then StUnknown
     else StVerified) None.

(** A row that carries the digest in its marker field. *)
Definition carries (digest : bytes) (m : SessionMetadata) : bool :=
  match (let? marker := mget MARKER_FIELD (extra m) in
         let? d := vget (str "digest") marker in as_str d) with
  | Some d => beq d digest
  | None => false
  end.
Definition recorded_row (r : OperationRecord) (m : SessionMetadata) : bool :=
  match incarnation r with
  | Some inc => bool_decide (incarnation_of m = Some (inc_id inc))
                && bool_decide (generation m = Some (inc_generation inc))
  | None => false
  end.

Definition registry_status (digest : bytes) (r : OperationRecord) (st : Status) (e : SessionInfo) : Status :=
  match info_metadata e with
  | None => st
  | Some m =>
      if negb (carries digest m) then st
      else if negb (recorded_row r m) then StUnknown
      else if bool_decide (info_status e = Running) && negb (bool_decide (state r = Transferred))
              && has StVerified st
      then StPending else st
  end.

Definition registry_component (inv : Inventory) (digest : bytes) (r : OperationRecord) : Component :=
  mkComponent (str "registry")
    (if negb (inv_complete inv) then StUnknown
     else foldl (registry_status digest r) StVerified (entries inv)) None.

(** ** [settle] *)

(** One attempt at the read lock, with the write lock's holder when it is held. *)
Inductive LockAttempt : Type :=
  | LockGot
  | LockNotFound
  | LockError
  | LockHeld (holder : option Z).

(** What one snapshot reads; [scan_of] is the argv scan by uid. *)
Record Observation : Type := mkObs {
  attempts : nat -> LockAttempt;
  table : ProcTable;
  boot : option bytes;
  file_uid : option Z;
  getuid : Z;
  scan_of : Z -> ArgvScan;
  inventory : Inventory
}.

Definition WRITER_RELEASE_RETRIES : nat := 8.

(** Only a holder still there ends the retries; the last refusal stands. *)
Fixpoint shared_lock (retries : nat) (at_ : nat -> LockAttempt) (i : nat) : LockAttempt :=
  match retries with
  | O => LockHeld None
  | S k => match at_ i with
           | LockHeld None => shared_lock k at_ (S i)
           | a => a
           end
  end.

Definition scan_uid (o : Observation) (r : OperationRecord) : Z :=
  match launcher (participants r) with
  | Some l => uid l
  | None => match file_uid o with Some u => u | None => getuid o end
  end.

Definition record_component (rd : Result (option OperationRecord) ReadError)
  (op sha : bytes) : Component :=
  let unknown why := mkComponent (str "record") StUnknown (Some (str why)) in
  match rd with
  | Ok (Some r) =>
      if beq (operation_id r) op && beq (envelope_sha256 r) sha
      then mkComponent (str "record") StVerified None
      else unknown "record-mismatch"
  | Ok None => unknown "record-missing"
  | Err _ => unknown "record-unreadable"
  end.

Definition durable_end (r : OperationRecord) : bool :=
  match state r with
  | Cancelled => match decision r with
                 | Some d => negb (bool_decide (cause d = Launch))
                 | None => false
                 end
  | Launched => bool_decide (rt_phase <$> retirement r = Some Verified)
  | _ => false
  end.

Definition finish (req : RequestKind * option bytes) (v : string) (k : option bytes) (nfe : bool)
  (r : option OperationRecord) (cs : list Component) : Verdict :=
  mkVerdict (str v) k nfe r req cs.

(** The part of [settle] after its snapshot. *)
Definition judge (req : RequestKind * option bytes) (r : OperationRecord) (first : Component)
  (rest : list Component) : Verdict :=
  let components := first :: rest in
  let nfe := durable_end r && forallb (fun c => has StVerified (status c)) rest in
  let finish v k n := finish req v k n (Some r) components in
  if bool_decide (state r = Transferred) then finish "transferred" None false
  else
    match List.find (fun c => has StPending (status c)) components with
    | Some p => finish "live" (Some (comp_name p)) nfe
    | None =>
        match List.find (fun c => has StUnknown (status c)) components with
        | Some u => finish "unknown" (Some (comp_name u)) nfe
        | None =>
            match state r with
            | Reserved | Pending => finish "retire-required" (Some (state_str (state r))) false
            | Cancelled =>
                if durable_end r then finish "closed" (Some (str "never-launched")) nfe
                else finish "unknown" (Some (str "record")) false
            | Launched =>
                if durable_end r then finish "closed" (Some (str "retired")) nfe
                else finish "retire-required" (Some (str "launched")) false
            | Transferred => finish "unknown" (Some (str "record")) false
            end
        end
    end.

Definition settle (s : OperationStore) (digest op sha : bytes) (o : Observation)
  (req : RequestKind * option bytes) : Verdict :=
  match shared_lock WRITER_RELEASE_RETRIES (attempts o) 0 with
  | LockNotFound =>
      finish req "unknown" (Some (str "record-missing")) false None
        [mkComponent (str "record") StUnknown (Some (str "record-missing"))]
  | LockError =>
      finish req "unknown" (Some (str "writer")) false None [mkComponent (str "writer") StUnknown None]
  | LockHeld _ =>
      let rd := read s digest in
      finish req "live" (Some (str "writer")) false
        match rd with Ok r => r | Err _ => None end
        [record_component rd op sha; mkComponent (str "writer") StPending None]
  | LockGot =>
      let rd := read s digest in
      let rc := record_component rd op sha in
      match rd, status rc with
      | Ok (Some r), StVerified =>
          judge req r rc
            [writer_component r (table o) (boot o); participants_component r (table o) (boot o);
             marker_component (scan_of o (scan_uid o r)) digest;
             registry_component (inventory o) digest r]
      | _, _ =>
          finish req "unknown" (Some match reason rc with Some w => w | None => str "record" end) false
            match rd with Ok r => r | Err _ => None end [rc]
      end
  end.

(** ** [retire] *)

(** Why nothing was done. *)
Record RetireRefusal : Type := mkRefusal { code : bytes; detail : bytes }.

(** How [kill_recorded] fares: two looks at the child, the pin ([Ok false]: nothing
    to pin), the signal, whether its exit was seen, and the look after it. *)
Record KillWeather : Type := mkKill {
  look : Liveness;
  look_again : Liveness;
  pin : Result bool bytes;
  signalled : Result unit bytes;
  exit_seen : bool;
  after_exit : Liveness
}.

(** The answer, and whether [SIGKILL] was sent. *)
Definition kill_recorded (k : KillWeather) : Liveness * bool :=
  if negb (bool_decide (look k = Live)) then (look_again k, false)
  else match pin k with
       | Err why => (Unknown why, false)
       | Ok false => (look_again k, false)
       | Ok true =>
           match signalled k with
           | Err why => (Unknown why, true)
           | Ok _ => if exit_seen k then (after_exit k, true) else (Live, true)
           end
       end.

(** [str::parse::<i32>]. *)
Definition parse_i32 (l : bytes) : option Z :=
  match l with
  | 45 :: 43 :: _ => None
  | 45 :: r => Z.opp <$> parse_unsigned 2147483648 r
  | _ => parse_unsigned 2147483647 l
  end.

(** The row as both session locks show it; [owner] is the registry's current-owner
    test for a name, generation and pid. *)
Record RowWeather : Type := mkRowWeather {
  both_locks : bool;
  row_metadata : option SessionMetadata;
  row_socket : bool;
  row_pidfile : bool;
  owner : bytes -> bytes -> Z -> bool
}.

(** What it found, and whether the row's files were removed. *)
Definition unwind_row (w : RowWeather) (r : OperationRecord) : bytes * bool :=
  match incarnation r with
  | None => (str "absent", false)
  | Some inc =>
      match (let? i := position (Z.eqb 58) (inc_id inc) in parse_i32 (take i (inc_id inc))) with
      | None => (str "unknown-incarnation", false)
      | Some pid =>
          if negb (both_locks w) then (str "locks-busy", false)
          else if is_none (row_metadata w) && negb (row_socket w) && negb (row_pidfile w)
          then (str "absent", false)
          else if negb (owner w (runtime_id inc) (inc_generation inc) pid)
                  || match row_metadata w with
                     | Some m => negb (bool_decide (generation m = Some (inc_generation inc)))
                     | None => false
                     end
          then (str "other-generation", false)
          else (str "removed", true)
      end
  end.

Inductive LockOutcome : Type := Exclusive | LockBusy | LockMissing | LockUnavailable.

(** What [retire] meets: the lock, the machine, how far its two writes get and
    when, its effects' fate, and the snapshot after. *)
Record RetireWeather : Type := mkRetire {
  lock : LockOutcome;
  r_boot : option bytes;
  r_table : ProcTable;
  me : Result ProcessId bytes;
  io_requested : WriteIo;
  at_requested : bytes;
  decided_at : bytes;
  io_terminal : WriteIo;
  at_terminal : bytes;
  kill : KillWeather;
  the_row : RowWeather;
  afterwards : Observation
}.

(** What a retirement did, in order. *)
Inductive RetireEffect : Type :=
  | RecordWritten (r : OperationRecord)
  | ChildKilled (id : ProcessId)
  | RowRemoved (nm : bytes).

(** The recorded participants that could still act, with their roles. *)
Definition actors (r : OperationRecord) : list (bytes * ProcessId) :=
  omap (fun p => pair (fst p) <$> snd p)
    [(str "writer", w_id (writer r)); (str "launcher", launcher (participants r));
     (str "producer", producer (participants r)); (str "daemon", daemon <$> incarnation r)].

Fixpoint actors_gone (l : list (bytes * ProcessId)) (t : ProcTable) (b : option bytes)
  : Result unit RetireRefusal :=
  match l with
  | [] => Ok tt
  | (role, id) :: l' =>
      match liveness id t b with
      | Gone => actors_gone l' t b
      | Live => Err (mkRefusal (if beq role (str "writer") then str "live-writer"
                                else str "live-participant")
                               (role ++ str " pid " ++ dec (pid id)))
      | Unknown why => Err (mkRefusal (str "participant-unknown") (role ++ str ": " ++ why))
      end
  end.

(** The checks before any replay can answer: the exact tuple, and the incarnation. *)
Definition tuple_matches (r : OperationRecord) (op sha : bytes) (inc : option bytes)
  : Result unit RetireRefusal :=
  let refuse c d := Err (mkRefusal (str c) d) in
  if negb (beq (operation_id r) op) then refuse "record-mismatch" (str "operationId")
  else if negb (beq (envelope_sha256 r) sha) then refuse "wrong-envelope" (str "envelopeSha256")
  else match state r with
       | Transferred => refuse "transferred" (str "a transferred operation is steady state")
       | Launched =>
           let rec := match incarnation_id r with Some i => i | None => [] end in
           match inc with
           | None => refuse "incarnation-required" rec
           | Some g => if beq g rec then Ok tt else refuse "wrong-incarnation" rec
           end
       | _ =>
           match inc with
           | None => Ok tt
           | Some g => refuse "wrong-incarnation" (g ++ str ": nothing was launched")
           end
       end.

(** A finished retirement of this request, or a decision already made. *)
Definition already_answered (r : OperationRecord) (request : bytes) : bool :=
  let phase := rt_phase <$> retirement r in
  (match phase with
   | Some p => negb (bool_decide (p = Requested))
   | None => false
   end && bool_decide (rt_request_id <$> retirement r = Some request))
  || bool_decide (state r = Cancelled) || bool_decide (phase = Some Verified).

Definition requested (r : OperationRecord) (me : ProcessId) (request : bytes) : OperationRecord :=
  (r <| writer := of_role RoleRecovery me |>)
    <| retirement := Some (mkRetirement request Requested (VObj [])) |>.

(** The [match requested.state] of [retire]: the record so far, its evidence,
    whether everything was verified, and the effects. *)
Definition retire_effects (w : RetireWeather) (q : OperationRecord) (request : bytes)
  : OperationRecord * IndexMap Value * bool * list RetireEffect :=
  let cancelled c := (q <| state := Cancelled |>)
                       <| decision := Some (mkDecision c (decided_at w) (Some request) None) |> in
  match state q with
  | Reserved => (cancelled Withdrawn, [], true, [])
  | Pending => (cancelled ProducerLost, [], true, [])
  | _ =>
      let child := match (let? i := incarnation q in inc_child i) with
                   | Some c => Some c
                   | None => p_child (participants q)
                   end in
      let '(ev, ok, fx) :=
        match child with
        | Some c =>
            let '(l, sent) := kill_recorded (kill w) in
            (VObj [(str "pid", enc_int (pid c)); (str "status", VStr (liveness_json l))],
             bool_decide (l = Gone), if sent then [ChildKilled c] else [])
        | None => (VNull, true, [])
        end in
      let '(row, removed) := unwind_row (the_row w) q in
      let row_ok := beq row (str "removed") || beq row (str "absent")
                    || beq row (str "other-generation") in
      (q, [(str "child", ev); (str "row", VStr row)], ok && row_ok,
       fx ++ match incarnation q with
             | Some inc => if removed then [RowRemoved (runtime_id inc)] else []
             | None => []
             end)
  end.

Definition retired (t : OperationRecord) (request : bytes) (ev : IndexMap Value) (ok : bool)
  : OperationRecord :=
  (t <| writer := none |>)
    <| retirement := Some (mkRetirement request (if ok then Verified else Incomplete) (VObj ev)) |>.

(** [retire], once its lock is held and its record read. *)
Definition retire_record (w : RetireWeather) (s : OperationStore)
  (digest op sha request : bytes) (inc : option bytes) (r : OperationRecord)
  : list RetireEffect * OperationStore * Result Verdict RetireRefusal :=
  let snapshot s := Ok (settle s digest op sha (afterwards w) (RequestRetire, Some request)) in
  match tuple_matches r op sha inc with
  | Err e => ([], s, Err e)
  | Ok _ =>
      if already_answered r request then ([], s, snapshot s)
      else match actors_gone (actors r) (r_table w) (r_boot w) with
           | Err e => ([], s, Err e)
           | Ok _ =>
               match me w with
               | Err e => ([], s, Err (mkRefusal (str "identity-unavailable") e))
               | Ok self =>
                   match write_cas_as (io_requested w) (at_requested w) s digest r
                           (requested r self request) with
                   | (Err _, s) => ([], s, Err (mkRefusal (str "record-write") []))
                   | (Ok q, s) =>
                       let '(t, ev, ok, fx) := retire_effects w q request in
                       match write_cas_as (io_terminal w) (at_terminal w) s digest q
                               (retired t request ev ok) with
                       | (Err _, s) => (RecordWritten q :: fx, s, Err (mkRefusal (str "record-write") []))
                       | (Ok t, s) => (RecordWritten q :: fx ++ [RecordWritten t], s, snapshot s)
                       end
                   end
               end
           end
  end.

Definition retire (w : RetireWeather) (s : OperationStore) (digest op sha request : bytes)
  (inc : option bytes) : list RetireEffect * OperationStore * Result Verdict RetireRefusal :=
  let refuse c := ([], s, Err (mkRefusal (str c) [])) in
  match lock w with
  | LockBusy => refuse "live-writer"
  | LockMissing => refuse "record-missing"
  | LockUnavailable => refuse "lock-unavailable"
  | Exclusive =>
      match read s digest with
      | Err _ => refuse "record-unreadable"
      | Ok None => refuse "record-missing"
      | Ok (Some r) => retire_record w s digest op sha request inc r
      end
  end.

(** ** Lemmas: verdicts *)

Lemma has_true st s : has st s = true -> s = st.
Proof. unfold has. apply bool_decide_eq_true. Qed.

Lemma find_none {A} (p : A -> bool) l x : List.find p l = None -> x ∈ l -> p x = false.
Proof. intros H Hx. apply list_elem_of_In in Hx. exact (List.find_none p l H x Hx). Qed.

Lemma verified_when_neither l :
  List.find (fun c => has StPending (status c)) l = None ->
  List.find (fun c => has StUnknown (status c)) l = None ->
  forallb (fun c => has StVerified (status c)) l = true.
Proof.
  intros Hp Hu. apply forallb_forall. intros c Hc. apply list_elem_of_In in Hc.
  pose proof (find_none _ _ _ Hp Hc) as H1. pose proof (find_none _ _ _ Hu Hc) as H2.
  unfold has in *. destruct (status c); repeat case_bool_decide; done.
Qed.

Lemma find_verified st l :
  st <> StVerified -> forallb (fun c => has StVerified (status c)) l = true ->
  List.find (fun c => has st (status c)) l = None.
Proof.
  intros Hst Hl. destruct (List.find _ l) as [c|] eqn:E; [|done]. exfalso.
  apply List.find_some in E as [Hc Hs]. rewrite forallb_forall in Hl. specialize (Hl c Hc).
  apply has_true in Hl, Hs. congruence.
Qed.

(** "closed" and "no further effects" are one verdict. *)
Lemma judge_closed req r first rest :
  status first = StVerified ->
  (no_further_effects (judge req r first rest) = true <-> verdict (judge req r first rest) = str "closed").
Proof.
  intros Hf. unfold judge.
  destruct (durable_end r && forallb _ rest) eqn:En.
  - apply andb_prop in En as [Hd Hr].
    assert (Ha : forallb (fun c => has StVerified (status c)) (first :: rest) = true)
      by (cbn [forallb]; rewrite Hf; exact Hr).
    rewrite !find_verified by done. rewrite Hd. unfold durable_end in Hd.
    destruct (state r); try discriminate; cbn; done.
  - case_bool_decide; [cbn; split; discriminate|].
    destruct (List.find _ (first :: rest)) eqn:Ep; [cbn; split; discriminate|].
    destruct (List.find (fun c => has StUnknown _) (first :: rest)) eqn:Eu; [cbn; split; discriminate|].
    pose proof (verified_when_neither _ Ep Eu) as Hv. cbn [forallb] in Hv. apply andb_prop in Hv as [_ Hv].
    rewrite Hv, andb_true_r in En. rewrite En. destruct (state r); cbn; split; done.
Qed.

Lemma judge_effects req r first rest :
  no_further_effects (judge req r first rest) = true ->
  durable_end r = true /\ forallb (fun c => has StVerified (status c)) rest = true.
Proof.
  unfold judge. intros H.
  assert (Hn : durable_end r && forallb (fun c => has StVerified (status c)) rest = true).
  { repeat (case_in H; cbn in H; try discriminate; try done). }
  apply andb_prop in Hn. exact Hn.
Qed.

Lemma participants_gone t b ids st :
  foldl (participant_status t b) st ids = StVerified ->
  st = StVerified /\ forall id, id ∈ ids -> liveness id t b = Gone.
Proof.
  revert st. induction ids as [|x ids IH]; intros st; cbn [foldl].
  - intros ->. split; [done|]. intros id H. apply elem_of_nil in H. done.
  - intros H. apply IH in H as [Hst Hids]. unfold participant_status in Hst.
    destruct (liveness x t b) eqn:E; [discriminate| |].
    + split; [done|]. intros id [->|H]%elem_of_cons; auto.
    + destruct (has StVerified st) eqn:Eh; [discriminate|subst]. discriminate.
Qed.

Lemma seen_once ids (seen : list ProcessId) id :
  Some id ∈ ids \/ id ∈ seen ->
  id ∈ foldl (fun seen o => match o with
                            | Some id => if bool_decide (id ∈ seen) then seen else seen ++ [id]
                            | None => seen
                            end) seen ids.
Proof.
  revert seen. induction ids as [|o ids IH]; intros seen; cbn [foldl].
  - intros [H%elem_of_nil|H]; done.
  - intros [[<-|H]%elem_of_cons|H]; apply IH; auto; right.
    + case_bool_decide; [done|]. apply elem_of_app. right. apply list_elem_of_singleton. done.
    + destruct o as [x|]; [|done]. case_bool_decide; [done|]. apply elem_of_app. auto.
Qed.

(** Every process the record names but its writer. *)
Definition recorded_participant (r : OperationRecord) (id : ProcessId) : Prop :=
  launcher (participants r) = Some id \/ producer (participants r) = Some id \/
  p_child (participants r) = Some id \/
  exists inc, incarnation r = Some inc /\ (daemon inc = id \/ inc_child inc = Some id).

Lemma recorded_in r id : recorded_participant r id -> id ∈ participant_ids r.
Proof.
  intros H. apply seen_once. left.
  destruct H as [->|[->|[->|(inc & -> & [<-|Hc])]]]; cbn; rewrite ?Hc;
    apply list_elem_of_In; cbn; tauto.
Qed.

Lemma registry_verified digest r st es :
  foldl (registry_status digest r) st es = StVerified ->
  st = StVerified /\ forall e m, e ∈ es -> info_metadata e = Some m -> carries digest m = true ->
    recorded_row r m = true /\ (info_status e = Running -> state r = Transferred).
Proof.
  revert st. induction es as [|x es IH]; intros st; cbn [foldl].
  - intros ->. split; [done|]. intros e m H. apply elem_of_nil in H. done.
  - intros H. apply IH in H as [Hst Hes]. unfold registry_status in Hst.
    destruct (info_metadata x) as [mx|] eqn:Em.
    + destruct (carries digest mx) eqn:Ec; cbn [negb] in Hst.
      * destruct (recorded_row r mx) eqn:Er; cbn [negb] in Hst; [|discriminate].
        destruct (bool_decide (info_status x = Running) && _ && _) eqn:E; [discriminate|subst].
        split; [done|]. intros e m [->|He]%elem_of_cons Hm Hc; [|eauto].
        rewrite Em in Hm. injection Hm as <-. split; [done|]. intros Hr.
        rewrite bool_decide_eq_true_2 in E by done. cbn [andb has] in E.
        rewrite andb_true_r in E. apply negb_false_iff, bool_decide_eq_true in E. done.
      * split; [done|]. intros e m [->|He]%elem_of_cons Hm Hc; [congruence|eauto].
    + split; [done|]. intros e m [->|He]%elem_of_cons Hm Hc; [congruence|eauto].
Qed.

Lemma acting_writer_id r id : check r = Ok tt -> w_id (writer r) = Some id -> acting_writer r = Some id.
Proof.
  unfold check, acting_writer. intros H Hw. rewrite Hw in H.
  destruct (role_is r RoleNone); [discriminate|done].
Qed.

(** What a closed verdict is evidence of. *)
Record no_effects_left (s : OperationStore) (digest op sha : bytes) (o : Observation)
  (r : OperationRecord) : Prop := mkEvidence {
  ev_lock : shared_lock WRITER_RELEASE_RETRIES (attempts o) 0 = LockGot;
  ev_record : read s digest = Ok (Some r);
  ev_tuple : operation_id r = op /\ envelope_sha256 r = sha;
  ev_end : state r = Cancelled /\ cause <$> decision r <> Some Launch
           \/ state r = Launched /\ rt_phase <$> retirement r = Some Verified;
  ev_gone : forall id, w_id (writer r) = Some id \/ recorded_participant r id ->
              exists b, boot o = Some b /\ proven_gone id (table o) b;
  ev_scan : is_whole (scan_of o (scan_uid o r)) = true /\
              forall a, a ∈ scan_rows (scan_of o (scan_uid o r)) ->
                argv_carries_marker (argv a) digest = false;
  ev_registry : inv_complete (inventory o) = true /\
              forall e m, e ∈ entries (inventory o) -> info_metadata e = Some m ->
                carries digest m = true ->
                recorded_row r m = true /\ info_status e <> Running
}.

(** A closed verdict is the one that promises no further effects, and it is
    never an inference from silence: the record of that operation and envelope
    was read under the shared lock and is durably ended; every process it names
    (writer, launcher, producer, daemon, child) is proven gone by the table or
    the boot identity; a whole scan shows no process with its birth marker; and in
    a complete registry every row with the marker is the recorded incarnation,
    not running. *)
Theorem settle_closed_evidence s digest op sha o req :
  (no_further_effects (settle s digest op sha o req) = true
     <-> verdict (settle s digest op sha o req) = str "closed") /\
  (verdict (settle s digest op sha o req) = str "closed" ->
     exists r, no_effects_left s digest op sha o r).
Proof.
  unfold settle. destruct (shared_lock _ _ _) eqn:El;
    try (cbn; split; [split|]; discriminate).
  destruct (read s digest) as [[r|]|e] eqn:Er; try (cbn; split; [split|]; discriminate).
  destruct (status (record_component (Ok (Some r)) op sha)) eqn:Es;
    try (cbn [finish verdict no_further_effects]; split; [split|]; discriminate).
  split; [apply judge_closed, Es|]. intros Hc. apply judge_closed in Hc; [|done].
  apply judge_effects in Hc as [Hd Hall]. cbn [forallb status writer_component participants_component
    marker_component registry_component] in Hall. rewrite !andb_true_iff in Hall.
  destruct Hall as (Hw & Hp & Hm & Hr & _).
  pose proof (read_record _ _ _ Er) as [_ Hck].
  exists r. split; try done.
  - cbn in Es. destruct (beq _ op && beq _ sha) eqn:E; [|discriminate]. bprop.
    split; apply beq_eq; done.
  - unfold durable_end in Hd. destruct (state r); try discriminate; [left|right]; split; try done.
    + destruct (decision r) as [d|]; [|done]. apply negb_true_iff, bool_decide_eq_false in Hd. cbn. congruence.
    + apply bool_decide_eq_true in Hd. done.
  - intros id Hid. apply liveness_gone. destruct Hid as [Hid|Hid].
    + rewrite (acting_writer_id _ _ Hck Hid) in Hw. destruct (liveness id _ _); done.
    + apply has_true in Hp. apply participants_gone in Hp as [_ Hp]. apply Hp, recorded_in, Hid.
  - destruct (existsb _ _) eqn:Ex; [done|]. destruct (is_whole _) eqn:E; [|done]. split; [done|].
    intros a Ha. destruct (argv_carries_marker _ _) eqn:Ea; [|done]. exfalso.
    apply not_true_iff_false in Ex. apply Ex, existsb_exists. exists a. apply list_elem_of_In in Ha. done.
  - destruct (inv_complete _); [|done]. split; [done|]. cbn [negb] in Hr.
    apply has_true in Hr. apply registry_verified in Hr as [_ Hr].
    intros e m He Hme Hca. destruct (Hr e m He Hme Hca) as [H1 H2]. split; [done|]. intros Hrun.
    rewrite (H2 Hrun) in *. unfold durable_end in Hd. rewrite (H2 Hrun) in Hd. done.
Qed.

(** ** Lemmas: retirement *)

Lemma write_cas_ok io now s digest e next q s' :
  write_cas_as io now s digest e next = (Ok q, s') ->
  q = stamped now e next /\ check next = Ok tt /\
  s' = mkStore (<[digest := FileRecord q]> (records s)) (locks s).
Proof.
  unfold write_cas_as. destruct (check next) as [[]|]; [|discriminate].
  destruct (read s digest) as [[c|]|]; try discriminate. destruct (record_eqb c e); [|discriminate].
  destruct io; cbn [negb]; intros [= <- <-]; done.
Qed.

Lemma write_cas_lands now s digest e next :
  check next = Ok tt -> read s digest = Ok (Some e) -> record_eqb e e = true ->
  write_cas_as IoOk now s digest e next =
    (Ok (stamped now e next),
     mkStore (<[digest := FileRecord (stamped now e next)]> (records s)) (locks s)).
Proof. intros Hc Hr He. unfold write_cas_as. rewrite Hc, Hr, He. done. Qed.

Lemma actors_gone_all l t b :
  actors_gone l t b = Ok tt -> forall role id, (role, id) ∈ l ->
  exists boot, b = Some boot /\ proven_gone id t boot.
Proof.
  induction l as [|[role0 id0] l IH]; cbn [actors_gone]; intros H role id Hin.
  - apply elem_of_nil in Hin. done.
  - destruct (liveness id0 t b) eqn:E; try discriminate.
    apply elem_of_cons in Hin as [[= -> ->]|Hin]; [apply liveness_gone, E|eauto].
Qed.

(** The processes that could still act for a record; its held child is not one. *)
Definition could_act (r : OperationRecord) (id : ProcessId) : Prop :=
  w_id (writer r) = Some id \/ launcher (participants r) = Some id \/
  producer (participants r) = Some id \/ exists inc, incarnation r = Some inc /\ daemon inc = id.

Lemma could_act_in r id : could_act r id -> exists role, (role, id) ∈ actors r.
Proof.
  unfold actors. intros H.
  destruct H as [->|[->|[->|(inc & -> & <-)]]];
    [exists (str "writer")|exists (str "launcher")|exists (str "producer")|exists (str "daemon")];
    apply list_elem_of_omap;
    [exists (str "writer", Some id)|exists (str "launcher", Some id)|exists (str "producer", Some id)
    |exists (str "daemon", Some (daemon inc))];
    (split; [apply list_elem_of_In; cbn; tauto|done]).
Qed.

(** The held child a launched record names. *)
Definition held_child (r : OperationRecord) : option ProcessId :=
  match (let? i := incarnation r in inc_child i) with
  | Some c => Some c
  | None => p_child (participants r)
  end.

(** What an effect of a retirement may be about. *)
Definition allowed_effect (r : OperationRecord) (e : RetireEffect) : Prop :=
  match e with
  | RecordWritten _ => False
  | ChildKilled c => state r = Launched /\ held_child r = Some c
  | RowRemoved n => state r = Launched /\ runtime_id <$> incarnation r = Some n
  end.

Lemma retire_effects_allowed w q request t ev ok fx :
  retire_effects w q request = (t, ev, ok, fx) ->
  state q <> Cancelled -> state q <> Transferred -> Forall (allowed_effect q) fx.
Proof.
  unfold retire_effects. intros H Hc Ht.
  destruct (state q) eqn:Es; try done; try (injection H as <- <- <- <-; constructor).
  fold (held_child q) in H.
  destruct (match held_child q with Some _ => _ | None => _ end) as [[ev0 ok0] fx0] eqn:E.
  destruct (unwind_row (the_row w) q) as [row removed]. injection H as _ _ _ <-.
  apply Forall_app. split.
  - destruct (held_child q) as [c|] eqn:Ec; [|injection E as <- <- <-; constructor].
    destruct (kill_recorded (kill w)) as [l sent]. injection E as <- <- <-.
    destruct sent; [|constructor]. constructor; [|constructor]. done.
  - destruct (incarnation q) as [inc|] eqn:Ei; [|constructor]. destruct removed; [|constructor].
    constructor; [|constructor]. cbn. rewrite Ei. done.
Qed.

Lemma tuple_matches_ok r op sha inc :
  tuple_matches r op sha inc = Ok tt ->
  operation_id r = op /\ envelope_sha256 r = sha /\ state r <> Transferred /\
  (state r = Launched -> exists g, inc = Some g /\
     g = match incarnation_id r with Some i => i | None => [] end) /\
  (state r <> Launched -> inc = None).
Proof.
  unfold tuple_matches. destruct (beq (operation_id r) op) eqn:E1; [|discriminate].
  destruct (beq (envelope_sha256 r) sha) eqn:E2; [|discriminate]. cbn [negb].
  apply beq_eq in E1, E2. intros H. do 2 (split; [done|]).
  destruct (state r); destruct inc as [g|]; try discriminate; repeat split; try done.
  intros _. destruct (beq g _) eqn:Eg; [|discriminate]. apply beq_eq in Eg. eauto.
Qed.

Lemma not_answered r request :
  already_answered r request = false ->
  state r <> Cancelled /\ rt_phase <$> retirement r <> Some Verified.
Proof.
  unfold already_answered. intros H. bprop. split; eapply bool_decide_eq_false_1; done.
Qed.

(** ** [retire] is fenced *)

(** What [retire] has established when it first writes. *)
Record retire_cleared (w : RetireWeather) (s : OperationStore) (digest op sha : bytes)
  (inc : option bytes) (r : OperationRecord) : Prop := mkCleared {
  cl_lock : lock w = Exclusive;
  cl_read : read s digest = Ok (Some r);
  cl_tuple : operation_id r = op /\ envelope_sha256 r = sha;
  cl_incarnation : state r = Launched -> inc = incarnation_id r;
  cl_state : state r = Reserved \/ state r = Pending \/ state r = Launched;
  cl_open : rt_phase <$> retirement r <> Some Verified;
  cl_gone : forall id, could_act r id ->
    exists b, r_boot w = Some b /\ proven_gone id (r_table w) b
}.

Lemma launched_incarnation r : check r = Ok tt -> state r = Launched -> is_some (incarnation r) = true.
Proof.
  intros H HL. unfold check, state_ok in H. rewrite HL in H.
  do 4 (match type of H with (if ?b then _ else _) = _ => destruct b; [discriminate|] end).
  match type of H with (if ?b then _ else _) = _ => destruct b eqn:E; [|discriminate] end.
  bprop. done.
Qed.

Lemma retire_cleared_intro w s digest op sha request inc r :
  lock w = Exclusive -> read s digest = Ok (Some r) -> tuple_matches r op sha inc = Ok tt ->
  already_answered r request = false -> actors_gone (actors r) (r_table w) (r_boot w) = Ok tt ->
  retire_cleared w s digest op sha inc r.
Proof.
  intros El Er Et Ea Eg. destruct (tuple_matches_ok _ _ _ _ Et) as (Ho & Hs & Hnt & Hl & _).
  destruct (not_answered _ _ Ea) as [Hnc Hnv]. pose proof (read_record _ _ _ Er) as [_ Hck].
  split; try done.
  - intros HL. pose proof (launched_incarnation r Hck HL) as Hi.
    destruct (Hl HL) as (g & -> & ->). unfold incarnation_id. destruct (incarnation r); done.
  - destruct (state r); auto; done.
  - intros id Hid. destruct (could_act_in _ _ Hid) as [role Hin].
    exact (actors_gone_all _ _ _ Eg role id Hin).
Qed.

(** Retiring never acts on an operation that something can still act for, and
    records its request before any effect.  Whatever it meets, either it changed
    nothing, or it held the write lock and read a record of exactly the named
    operation, envelope and incarnation, neither cancelled, transferred nor
    already retired, whose writer, launcher, producer and daemon are all proven
    gone; then its first effect is the durable record of this request under its
    own name, and what follows touches only the recorded held child and the
    recorded row of a launched operation, before the final record. *)
Theorem retire_fenced w s digest op sha request inc :
  let '(log, s', _) := retire w s digest op sha request inc in
  (log = [] /\ s' = s) \/
  exists r self, retire_cleared w s digest op sha inc r /\ me w = Ok self /\
    (log = [] \/ exists fx last,
       log = RecordWritten (stamped (at_requested w) r (requested r self request)) :: fx ++ last /\
       Forall (allowed_effect r) fx /\
       (last = [] \/ exists t, last = [RecordWritten t] /\ records s' !! digest = Some (FileRecord t))).
Proof.
  unfold retire. destruct (lock w) eqn:El; try (left; done).
  destruct (read s digest) as [[r|]|] eqn:Er; try (left; done).
  unfold retire_record. destruct (tuple_matches r op sha inc) as [[]|] eqn:Et; [|left; done].
  destruct (already_answered r request) eqn:Ea; [left; done|].
  destruct (actors_gone _ _ _) as [[]|] eqn:Eg; [|left; done].
  destruct (me w) as [self|] eqn:Em; [|left; done].
  pose proof (retire_cleared_intro w s digest op sha request inc r El Er Et Ea Eg) as Hcl.
  destruct (write_cas_as (io_requested w) _ s digest r _) as [[q|] s1] eqn:E1;
    [|right; exists r, self; auto].
  destruct (write_cas_ok _ _ _ _ _ _ _ _ E1) as (Hq & _ & _).
  destruct (retire_effects w q request) as [[[t ev] ok] fx] eqn:Ef.
  assert (Hfx : Forall (allowed_effect r) fx).
  { destruct (not_answered _ _ Ea) as [Hnc _].
    destruct (tuple_matches_ok _ _ _ _ Et) as (_ & _ & Hnt & _).
    rewrite Hq in Ef. exact (retire_effects_allowed _ _ _ _ _ _ _ Ef Hnc Hnt). }
  destruct (write_cas_as (io_terminal w) _ s1 digest q _) as [[t'|] s2] eqn:E2;
    right; exists r, self; do 2 (split; [done|]); right; rewrite <- Hq.
  - exists fx, [RecordWritten t']. do 2 (split; [done|]). right. exists t'. split; [done|].
    destruct (write_cas_ok _ _ _ _ _ _ _ _ E2) as (_ & _ & ->). cbn [records]. apply lookup_insert_eq.
  - exists fx, []. rewrite app_nil_r. auto.
Qed.

(** ** [retire] completes *)

(** Split conjunctions of booleans, in hypotheses and in the goal. *)
Ltac bands :=
  repeat match goal with H : _ && _ = true |- _ => apply andb_prop in H; destruct H end;
  repeat (apply andb_true_iff; split).

Lemma check_facts r :
  check r = Ok tt ->
  state_ok r = true /\ role_is r RoleNone = is_none (w_id (writer r)).
Proof.
  unfold check. intros H.
  destruct (Bool.eqb _ _) eqn:E; [|discriminate]. apply eqb_prop in E. cbn [negb] in H.
  do 3 (match type of H with (if ?b then _ else _) = _ => destruct b; [discriminate|] end).
  destruct (state_ok r); done.
Qed.

(** Asking to retire any consistent record that is not decided is consistent. *)
Lemma check_requested r self request :
  check r = Ok tt -> state r <> Cancelled -> state r <> Transferred ->
  check (requested r self request) = Ok tt.
Proof.
  intros H Hc Ht. apply check_facts in H as [Hs _].
  assert (E : state_ok (requested r self request) = true).
  { unfold state_ok in *. cbn [requested set_field state phase decision incarnation transfer participants].
    change (state (requested r self request)) with (state r).
    destruct (state r); try done; cbn in Hs |- *; bands; done. }
  unfold check. rewrite E. done.
Qed.

(** Finishing the retirement of a requested record is consistent. *)
Lemma check_retired w q request t ev ok fx :
  check q = Ok tt -> state q <> Cancelled -> state q <> Transferred ->
  retire_effects w q request = (t, ev, ok, fx) ->
  check (retired t request ev ok) = Ok tt.
Proof.
  intros H Hc Ht E. apply check_facts in H as [Hs _].
  assert (Ht' : state_ok (retired t request ev ok) = true).
  { unfold retire_effects in E. unfold state_ok in Hs. destruct (state q) eqn:Es; try done.
    - injection E as <- <- <- <-. unfold state_ok. cbn. bands; done.
    - injection E as <- <- <- <-. unfold state_ok. cbn. bands; done.
    - assert (t = q) as ->.
      { destruct (match (match _ with Some _ => _ | None => _ end) with Some _ => _ | None => _ end) as [[? ?] ?].
        destruct (unwind_row _ _). injection E as <- <- <- <-. done. }
      clear E. unfold state_ok. cbn. rewrite Es. destruct ok; cbn; bands; done. }
  unfold check. rewrite Ht'. unfold role_is, is_requested, is_terminal. destruct ok; done.
Qed.

(** What a finished retirement of [r] leaves. *)
Definition retired_as (r t : OperationRecord) (request : bytes) : Prop :=
  writer t = none /\ incarnation t = incarnation r /\ operation_id t = operation_id r /\
  envelope_sha256 t = envelope_sha256 r /\
  (exists rt, retirement t = Some rt /\ rt_request_id rt = request /\ rt_phase rt <> Requested) /\
  match state r with
  | Reserved => state t = Cancelled /\ cause <$> decision t = Some Withdrawn
                /\ rt_phase <$> retirement t = Some Verified
  | Pending => state t = Cancelled /\ cause <$> decision t = Some ProducerLost
                /\ rt_phase <$> retirement t = Some Verified
  | _ => state t = Launched /\ decision t = decision r
  end.

Lemma retired_as_intro w q request t ev ok fx :
  retire_effects w q request = (t, ev, ok, fx) -> state q <> Cancelled -> state q <> Transferred ->
  retired_as q (retired t request ev ok) request.
Proof.
  intros E Hc Ht. unfold retire_effects in E. unfold retired_as.
  destruct (state q) eqn:Es; try done.
  - injection E as <- <- <- <-. cbn. repeat split; eauto.
  - injection E as <- <- <- <-. cbn. repeat split; eauto.
  - assert (t = q) as ->.
    { destruct (match (match _ with Some _ => _ | None => _ end) with Some _ => _ | None => _ end) as [[? ?] ?].
      destruct (unwind_row _ _). injection E as <- <- <- <-. done. }
    cbn. rewrite Es. repeat split; try done. eexists. split; [done|]. destruct ok; done.
Qed.

Section Completes.
Context (w : RetireWeather) (s : OperationStore) (digest op sha request : bytes)
  (inc : option bytes) (r : OperationRecord) (self : ProcessId).
Hypothesis Hlock : lock w = Exclusive.
Hypothesis Hread : read s digest = Ok (Some r).
Hypothesis Htuple : tuple_matches r op sha inc = Ok tt.
Hypothesis Hopen : already_answered r request = false.
Hypothesis Hgone : actors_gone (actors r) (r_table w) (r_boot w) = Ok tt.
Hypothesis Hself : me w = Ok self.
Hypothesis Hio : io_requested w = IoOk /\ io_terminal w = IoOk.
Hypothesis Hwf : wf_value (envelope r).
Hypothesis Hwf_rt : forall rt, retirement r = Some rt -> wf_value (evidence rt).

(** An operation nothing can act for can always be retired: neither write can
    be refused as stale or inconsistent, whatever consistent record was left, one
    half-way through an earlier retirement included.  With the disk working, it
    ends with a readable record of this request that has no writer: a reservation
    withdrawn, a pending launch cancelled as lost with its producer, or a launch
    kept with its incarnation and a finished retirement, verified or incomplete;
    and the answer is the verdict on that record. *)
Theorem retire_completes :
  exists log s' t,
    retire w s digest op sha request inc =
      (log, s', Ok (settle s' digest op sha (afterwards w) (RequestRetire, Some request))) /\
    read s' digest = Ok (Some t) /\ retired_as r t request /\
    revision t = ((revision r + 1) mod U64 + 1) mod U64.
Proof using All.
  pose proof (read_record _ _ _ Hread) as [Hrec Hck].
  destruct (not_answered _ _ Hopen) as [Hnc _].
  destruct (tuple_matches_ok _ _ _ _ Htuple) as (_ & _ & Hnt & _).
  destruct Hio as [Hio1 Hio2].
  pose proof (check_requested r self request Hck Hnc Hnt) as Hckq.
  unfold retire. rewrite Hlock, Hread. unfold retire_record. rewrite Htuple, Hopen, Hgone, Hself, Hio1.
  rewrite write_cas_lands by (try apply record_eqb_refl; done).
  set (q := stamped (at_requested w) r (requested r self request)).
  assert (Hsch : schema q = RECORD_SCHEMA).
  { change (schema q) with (schema r). clear -Hread Hrec. unfold read in Hread. rewrite Hrec in Hread.
    cbn [read_file] in Hread. destruct (beq _ _) eqn:E; [apply beq_eq, E|discriminate]. }
  assert (Hq : read (mkStore (<[digest:=FileRecord q]> (records s)) (locks s)) digest = Ok (Some q)).
  { unfold read. cbn [records]. rewrite lookup_insert_eq. cbn [read_file]. rewrite Hsch, beq_refl.
    change (check q) with (check (requested r self request)). rewrite Hckq. done. }
  destruct (retire_effects w q request) as [[[t ev] ok] fx] eqn:Ef.
  pose proof (check_retired w q request t ev ok fx Hckq Hnc Hnt Ef) as Hckt.
  pose proof (retired_as_intro w q request t ev ok fx Ef Hnc Hnt) as Has.
  rewrite Hio2, write_cas_lands; [|done|done|apply record_eqb_refl; [done|intros rt [= <-]; cbn; split; [constructor|done]]].
  set (t' := stamped (at_terminal w) q (retired t request ev ok)).
  eexists _, _, t'. split; [reflexivity|]. split; [|split; [exact Has|reflexivity]].
  unfold read. cbn [records]. rewrite lookup_insert_eq. cbn [read_file].
  assert (schema t' = RECORD_SCHEMA) as ->.
  { rewrite <- Hsch. clear -Ef. unfold retire_effects in Ef.
    destruct (state q); repeat (case_in Ef); injection Ef as <- <- <- <-; done. }
  rewrite beq_refl. change (check t') with (check (retired t request ev ok)). rewrite Hckt. done.
Qed.
End Completes.

(** ** A reservation whose owner never launched it *)

(** A whole machine on which only this process runs. *)
Definition demo_table : ProcTable :=
  from_rows [mkRow 9 1 9 (str "R") None None (Some (str "linux:200"))].
Definition demo_obs : Observation :=
  mkObs (fun _ => LockGot) demo_table (Some (str "boot-1")) (Some 1000) 1000
    (fun _ => mkScan 1000 SOURCE true true 1 0 0 [] [mkArgvRow 9 None [str "pty"; str "operation"]])
    (mkInventory [] true [] []).
Definition demo_weather : RetireWeather :=
  mkRetire Exclusive (Some (str "boot-1")) demo_table
    (Ok (mkProcess 9 (str "linux:200") (str "boot-1") 1000))
    IoOk (str "t1") (str "t1") IoOk (str "t2")
    (mkKill Gone Gone (Ok false) (Ok tt) false Gone)
    (mkRowWeather true None false false (fun _ _ _ => false)) demo_obs.
Definition demo_retired : OperationStore :=
  snd (fst (retire demo_weather demo_store (str "h1") (str "op-1") (str "e1") (str "req") None)).

Lemma retire_completes_witness : exists t,
  read demo_retired (str "h1") = Ok (Some t) /\ retired_as demo_reserved t (str "req") /\ revision t = 3.
Proof.
  assert (Hwf : wf_value (envelope demo_reserved)) by (cbn; split; [constructor|done]).
  destruct (retire_completes demo_weather demo_store (str "h1") (str "op-1") (str "e1") (str "req")
    None demo_reserved (mkProcess 9 (str "linux:200") (str "boot-1") 1000)
    eq_refl ltac:(vm_compute; reflexivity) eq_refl eq_refl eq_refl eq_refl (conj eq_refl eq_refl) Hwf
    ltac:(discriminate)) as (log & s' & t & Hr & Ht & Has & Hrev).
  exists t. assert (s' = demo_retired) as <- by (unfold demo_retired; rewrite Hr; reflexivity).
  split; [exact Ht|]. split; [exact Has|]. rewrite Hrev. vm_compute. reflexivity.
Defined.

Lemma settle_closed_evidence_witness : exists r,
  no_effects_left demo_retired (str "h1") (str "op-1") (str "e1") demo_obs r.
Proof.
  apply (proj2 (settle_closed_evidence demo_retired (str "h1") (str "op-1") (str "e1") demo_obs
    (RequestSettle, None))).
  vm_compute. reflexivity.
Defined.
