(* ===== verification/Actor.v ===== *)
(** The producer of a launch operation: [crates/pty/src/daemon/operation.rs] (its
    actor, its startup worker, and the channels between them).

    The actor's handlers are functions on its state; clocks, disk failures, test
    barriers and what the machine answers are an environment indexed by how often
    it was consulted ([ActorEnv]); effects are appended to the state's log.  The
    worker is a state machine, and the two run interleaved, joined by the actor's
    inbox, the worker's command queue and one reply at a time. *)
From S2P Require Import Prelude Json Metadata ProcTable Operation Settle Frames.

(** ** The actor's data *)

Inductive OwnerInput : Type := OwnerSent (f : OwnerFrame) | OwnerClosed.

Inductive Completion : Type := Published | Forked (pid : Z).

Inductive Ack : Type := Prepared | AckFailed (step : bytes) (errno : Z) | Lost.

Inductive ActorEvent : Type :=
  | Owner (i : OwnerInput)
  | Synced
  | Commit (ticket : Z)
  | Completed (ticket : Z) (result : Result Completion bytes)
  | ChildAck (a : Ack)
  | ReadyPoint
  | ChildExited
  | Shutdown
  | Released (barrier : bytes).

Inductive WorkerCmd : Type :=
  | Publish (ticket : Z) (generation created_at : bytes) (predecessor : option bytes)
  | ForkChild (ticket : Z)
  | GoReady
  | Stop (code : Z).

Inductive TicketKind : Type := KPublish | KForkChild.
Inductive TicketState : Type := Issued | Committed | TicketCompleted | Revoked.
#[export] Instance TicketState_eq_dec : EqDecision TicketState.
Proof. solve_decision. Defined.
Record Ticket : Type := mkTicket { ticket_id : Z; ticket_kind : TicketKind; ticket_state : TicketState }.

Inductive Stage : Type := Deciding | Starting | HeldStage | Ready | Done.
#[export] Instance Stage_eq_dec : EqDecision Stage.
Proof. solve_decision. Defined.

(** [Pending]: a step parked at a test barrier. *)
Inductive PendingStep : Type :=
  | PendDecide
  | PendTransferCommit (request_id : bytes)
  | PendTransferRelease
  | PendTransferAck (released : bool).

(** [ChildRecord]: its gate and substrate handle are named by its pid. *)
Record ChildRecord : Type := mkChild { ch_id : option ProcessId; ch_pid : Z }.

(** The fields that a frame of one kind adds. *)
Inductive FrameExtra : Type :=
  | NoExtra
  | XReject (code : RejectCode) (request_id : option bytes)
  | XDecision (d : option Decision)
  | XRetirement (r : option Retirement)
  | XTransfer (t : option Transfer).

Record Frame : Type := mkFrame {
  f_kind : bytes;
  f_seq : Z;
  f_record : OperationRecord;
  f_tickets : list Ticket;
  f_extra : FrameExtra
}.

(** Messages to the serving daemon. *)
Inductive DaemonMsg : Type := OperationEnd (code : Z) | OperationTransferred | ExternalKill.

Inductive Effect : Type :=
  | EFrame (f : Frame)
  | ESync
  | EClose
  | EMsg (m : DaemonMsg)
  | ECreationLockReleased
  | EGateShut (pid : Z)
  | EGateReleased (pid : Z)
  | ERowUnwound
  | EMarked
  | EWriteFailed (e : WriteError).

Record Actor : Type := mkActor {
  store : OperationStore;
  digest : bytes;
  locked : bool;
  record : OperationRecord;
  self : ProcessId;
  expected : option bytes;
  a_runtime_id : bytes;
  commands : list WorkerCmd;
  reply : option bool;
  transferred : bool;
  seq : Z;
  tickets : list Ticket;
  stage : Stage;
  retiring : bool;
  serving : bool;
  published : bool;
  child : option ChildRecord;
  a_generation : bytes;
  pending : option PendingStep;
  deferred_transfer : option bytes;
  syncing : bool;
  log : list Effect;
  ticks : nat
}.
#[export] Instance Actor_settable : Settable Actor :=
  fun a => mkActor (store a) (digest a) (locked a) (record a) (self a) (expected a) (a_runtime_id a)
    (commands a) (reply a) (transferred a) (seq a) (tickets a) (stage a) (retiring a) (serving a)
    (published a) (child a) (a_generation a) (pending a) (deferred_transfer a) (syncing a) (log a)
    (ticks a).

(** What the shut gate's child is seen to do ([verify_child_gone]'s observations):
    its exit seen at once or after the kill, the looks at the table, and whether
    the host can wait for an exit at all. *)
Record ChildWeather : Type := mkChildWeather {
  seen_at_once : bool;
  gone_before_kill : bool;
  seen_after_kill : bool;
  gone_after_kill : bool;
  wait_unsupported : bool;
  liveness_after : Liveness
}.

Inductive RowOutcome : Type := RowAbsent | RowOther | RowRemoved' | RowBusy.
Definition row_str (o : RowOutcome) : bytes :=
  match o with
  | RowAbsent => str "absent"
  | RowOther => str "other-generation"
  | RowRemoved' => str "removed"
  | RowBusy => str "locks-busy"
  end.

Class ActorEnv : Type := {
  now : nat -> bytes;
  disk : nat -> WriteIo;
  armed : nat -> bytes -> bool;
  holds_creation_lock : nat -> bool;
  occupancy : nat -> Occupancy;
  new_generation : nat -> bytes;
  identity_of : nat -> Z -> option ProcessId;
  child_weather : nat -> ChildWeather;
  row_outcome : nat -> RowOutcome;
  gate_written : nat -> bool
}.

(** ** The actor's operations *)

Section Handlers.
Context {EI : ActorEnv}.

Definition emit (e : Effect) (a : Actor) : Actor := a <| log ::= fun l => l ++ [e] |>.
Definition tick (a : Actor) : Actor := a <| ticks ::= S |>.
Definition send (c : WorkerCmd) (a : Actor) : Actor := a <| commands ::= fun l => l ++ [c] |>.

Definition decision_now (a : Actor) (c : Cause) (rid obs : option bytes) : Decision :=
  mkDecision c (now (ticks a)) rid obs.

Definition frame (kind : string) (more : FrameExtra) (a : Actor) : Actor :=
  let a := a <| seq ::= Z.succ |> in
  emit (EFrame (mkFrame (str kind) (seq a) (record a) (tickets a) more)) a.

Definition reject (code : RejectCode) (rid : option bytes) (a : Actor) : Actor :=
  frame "command-rejected" (XReject code rid) a.

Definition write (next : OperationRecord) (a : Actor) : bool * Actor :=
  if negb (locked a) then (false, a)
  else
    let t := ticks a in
    match write_cas_as (disk t) (now t) (store a) (digest a) (record a) next with
    | (Ok written, s) => (true, ((tick a) <| store := s |>) <| record := written |>)
    | (Err e, s) => (false, emit (EWriteFailed e) ((tick a) <| store := s |>))
    end.

(** The end of [abandon] and [finish]. *)
Definition stop (code : Z) (a : Actor) : Actor :=
  let a := ((emit EClose a) <| locked := false |>) <| stage := Done |> in
  if serving a then emit (EMsg (OperationEnd code)) a else send (Stop code) a.

Definition abandon (a : Actor) : Actor := stop 1 a.
Definition finish (code : Z) (a : Actor) : Actor := stop code a.

Definition hold (name : string) (p : PendingStep) (a : Actor) : bool * Actor :=
  let on := armed (ticks a) (str name) in
  let a := tick a in
  if on then (true, a <| pending := Some p |>) else (false, a).

Definition issue (k : TicketKind) (a : Actor) : Z * Actor :=
  let id := Z.of_nat (length (tickets a)) + 1 in
  (id, a <| tickets ::= fun l => l ++ [mkTicket id k Issued] |>).

Definition ticket (id : Z) (a : Actor) : option Ticket :=
  List.find (fun t => ticket_id t =? id) (tickets a).

(** Update the first ticket of an id. *)
Fixpoint set_ticket (id : Z) (st : TicketState) (l : list Ticket) : list Ticket :=
  match l with
  | [] => []
  | t :: l' => if ticket_id t =? id then mkTicket id (ticket_kind t) st :: l'
               else t :: set_ticket id st l'
  end.

Definition is_committed (t : Ticket) : bool := bool_decide (ticket_state t = Committed).
Definition committed_in_flight (a : Actor) : bool := existsb is_committed (tickets a).

Definition is_transferred (a : Actor) : bool := bool_decide (state (record a) = Transferred).

Definition begin_sync (a : Actor) : Actor := emit ESync (a <| syncing := true |>).

Definition cancel_before_launch (c : Cause) (rid obs : option bytes) (a : Actor) : Actor :=
  let cancelled := (((record a) <| state := Cancelled |>) <| writer := none |>)
                     <| decision := Some (decision_now a c rid obs) |> in
  match write cancelled a with
  | (false, a) => abandon a
  | (true, a) => finish 3 (emit ECreationLockReleased (frame "decision" (XDecision (decision (record a))) a))
  end.

(** [decide], once nothing withdrew the launch. *)
Definition decide_launch (predecessor : option bytes) (a : Actor) : Actor :=
  let created_at := now (ticks a) in
  let g := new_generation (ticks a) in
  let a := tick a in
  let '(t, a) := issue KPublish a in
  let launched := (((record a) <| state := Launched |>)
                     <| decision := Some (decision_now a Launch None predecessor) |>)
                     <| incarnation := Some (mkIncarnation (dec (pid (self a)) ++ [58] ++ created_at)
                                               (a_runtime_id a) g (self a) None) |> in
  match write launched a with
  | (false, a) => abandon a
  | (true, a) =>
      let a := (a <| a_generation := g |>) <| stage := Starting |> in
      send (Publish t g created_at predecessor) (frame "decision" (XDecision (decision (record a))) a)
  end.

Definition decide (a : Actor) : Actor :=
  let t := ticks a in
  let a := tick a in
  if negb (holds_creation_lock t)
  then cancel_before_launch Refused None (Some (str "creation-lock-not-delegated")) a
  else match occupancy_rule (occupancy t) (expected a) with
       | Err (c, obs) => cancel_before_launch c None (Some obs) a
       | Ok predecessor => decide_launch predecessor a
       end.

(** [verify_child_gone]. *)
Definition verify_child_gone (c : ChildRecord) (w : ChildWeather) : bytes :=
  match ch_id c with
  | None => str "unrecorded"
  | Some _ =>
      if seen_at_once w then liveness_json (liveness_after w)
      else if gone_before_kill w then str "gone"
      else if seen_after_kill w then liveness_json (liveness_after w)
      else if gone_after_kill w then str "gone"
      else if wait_unsupported w then str "exit-wait-unavailable" else str "live"
  end.

(** The effects of [complete_retirement]: the evidence, and whether all of it is
    what a retirement asks for. *)
Definition retire_child (a : Actor) : IndexMap Value * bool * Actor :=
  match child a with
  | None => ([], true, a)
  | Some c =>
      let outcome := verify_child_gone c (child_weather (ticks a)) in
      ([(str "child", VObj [(str "pid", enc_int (ch_pid c)); (str "status", VStr outcome)])],
       beq outcome (str "gone"), emit (EGateShut (ch_pid c)) (tick a))
  end.
Definition retire_row (a : Actor) : IndexMap Value * bool * Actor :=
  if published a
  then let row := row_outcome (ticks a) in
       ([(str "row", VStr (row_str row))], match row with RowBusy => false | _ => true end,
        emit ERowUnwound (tick a))
  else ([], true, a).

Definition complete_retirement (a : Actor) : Actor :=
  if negb (retiring a) || bool_decide (stage a = Done) then a
  else
    let '(ev1, ok1, a) := retire_child a in
    let a := emit ECreationLockReleased a in
    let '(ev2, ok2, a) := retire_row a in
    let rid := match retirement (record a) with Some r => rt_request_id r | None => [] end in
    let terminal := ((record a) <| writer := none |>)
                      <| retirement := Some (mkRetirement rid (if ok1 && ok2 then Verified else Incomplete)
                                               (VObj (ev1 ++ ev2))) |> in
    match write terminal a with
    | (false, a) => abandon a
    | (true, a) => finish 0 (frame "retirement" (XRetirement (retirement (record a))) a)
    end.

(** The losers of a retirement: a transfer not yet committed, issued tickets. *)
Definition reject_transfer (rid : option bytes) (a : Actor) : Actor :=
  match rid with Some r => reject NotHeld (Some r) a | None => a end.
Definition revoke (t : Ticket) : Ticket :=
  match ticket_state t with
  | Issued => mkTicket (ticket_id t) (ticket_kind t) Revoked
  | _ => t
  end.
Definition pending_transfer (p : option PendingStep) : option bytes :=
  match p with Some (PendTransferCommit r) => Some r | _ => None end.
Definition withdraw_transfer (a : Actor) : Actor :=
  let a := (reject_transfer (pending_transfer (pending a)) a) <| pending := None |> in
  let a := (reject_transfer (deferred_transfer a) a) <| deferred_transfer := None |> in
  a <| tickets ::= map revoke |>.

Definition retire (c : option Cause) (rid : bytes) (a : Actor) : Actor :=
  if retiring a || bool_decide (stage a = Done) || is_transferred a then a
  else
    let a := withdraw_transfer a in
    let requested := (record a) <| retirement := Some (mkRetirement rid Requested (VObj [])) |> in
    match write requested a with
    | (false, a) => abandon a
    | (true, a) =>
        let a := match c with
                 | Some c =>
                     let d := decision_now a c (if bool_decide (c = Cancel) then Some rid else None) None in
                     frame "decision" (XDecision (Some d)) a
                 | None => a
                 end in
        let a := a <| retiring := true |> in
        if committed_in_flight a then a else complete_retirement a
    end.

Definition finish_transfer (rel : bool) (a : Actor) : Actor :=
  let a := emit EMarked a in
  let done := ((record a) <| writer := none |>)
                <| transfer ::= fmap (fun t => t <| released := Some rel |>) |> in
  let '(_, a) := write done a in
  let a := frame "transferred" (XTransfer (transfer (record a))) a in
  ((emit EClose a) <| locked := false |>) <| stage := Done |>.

Definition release_transfer (a : Actor) : Actor :=
  let rel := match child a with Some _ => gate_written (ticks a) | None => false end in
  let a := match child a with
           | Some c => (emit (EGateReleased (ch_pid c)) (tick a)) <| child := None |>
           | None => a
           end in
  match hold "released-before-ack" (PendTransferAck rel) a with
  | (true, a) => a
  | (false, a) => finish_transfer rel a
  end.

Definition commit_transfer (rid : bytes) (a : Actor) : Actor :=
  if retiring a || bool_decide (stage a = Done) then reject NotHeld (Some rid) a
  else
    let committed := ((record a) <| state := Transferred |>)
                       <| transfer := Some (mkTransfer rid (now (ticks a)) None) |> in
    match write committed a with
    | (false, a) => abandon (reject NotHeld (Some rid) a)
    | (true, a) =>
        let a := emit (EMsg OperationTransferred) (a <| transferred := true |>) in
        match hold "transfer-committed-before-release" PendTransferRelease a with
        | (true, a) => a
        | (false, a) => release_transfer a
        end
    end.

Definition start_transfer (rid : bytes) (a : Actor) : Actor :=
  match hold "transfer-before-commit" (PendTransferCommit rid) a with
  | (true, a) => a
  | (false, a) => commit_transfer rid a
  end.

(** ** Events *)

Definition on_commit (id : Z) (a : Actor) : Actor :=
  match ticket id a with
  | None => a <| reply := Some false |>
  | Some t =>
      if bool_decide (ticket_state t = Issued) && negb (retiring a)
      then
        let a := a <| tickets ::= set_ticket id Committed |> in
        let a := match ticket_kind t with KPublish => a <| published := true |> | _ => a end in
        a <| reply := Some true |>
      else
        let a := if bool_decide (ticket_state t = Issued) then a <| tickets ::= set_ticket id Revoked |> else a in
        a <| reply := Some false |>
  end.

Definition on_ready_point (a : Actor) : Actor :=
  if bool_decide (stage a = HeldStage) && negb (retiring a)
  then
    let a := frame "ready" NoExtra ((a <| stage := Ready |>) <| serving := true |>) in
    let a := a <| reply := Some true |> in
    match deferred_transfer a with
    | Some rid => start_transfer rid (a <| deferred_transfer := None |>)
    | None => a
    end
  else a <| reply := Some false |>.

Definition on_released (name : bytes) (a : Actor) : Actor :=
  let named n := beq name (str n) in
  let taken := a <| pending := None |> in
  match pending a with
  | Some PendDecide =>
      if named "before-decision" && bool_decide (stage a = Deciding) then begin_sync taken else a
  | Some (PendTransferCommit rid) =>
      if named "transfer-before-commit" then commit_transfer rid taken else a
  | Some PendTransferRelease =>
      if named "transfer-committed-before-release" then release_transfer taken else a
  | Some (PendTransferAck rel) =>
      if named "released-before-ack" then finish_transfer rel taken else a
  | None => a
  end.

(** Before the decision any withdrawal wins at once. *)
Definition on_owner_deciding (i : OwnerInput) (a : Actor) : Actor :=
  match i with
  | OwnerClosed => cancel_before_launch OwnerEof None None a
  | OwnerSent FrameMalformed =>
      cancel_before_launch Malformed None None (reject MalformedCommand None a)
  | OwnerSent (FrameCommand (CancelCommand rid)) => cancel_before_launch Cancel (Some rid) None a
  | OwnerSent (FrameCommand c) => reject NotHeld (Some (request_id c)) a
  | OwnerSent (FrameRejected c rid) => reject c rid a
  end.

Definition on_transfer (rid inc g : bytes) (a : Actor) : Actor :=
  if is_transferred a then reject AlreadyTransferred (Some rid) a
  else if is_some (deferred_transfer a) || is_some (pending_transfer (pending a))
  then reject AlreadyDecided (Some rid) a
  else if retiring a || negb (bool_decide (phase (record a) = Held) && is_some (child a))
  then reject NotHeld (Some rid) a
  else if negb match incarnation (record a) with
               | Some i => beq (inc_id i) inc && beq (inc_generation i) g
               | None => false
               end
  then reject WrongIncarnation (Some rid) a
  else if bool_decide (stage a = HeldStage) then a <| deferred_transfer := Some rid |>
  else start_transfer rid a.

Definition on_owner (i : OwnerInput) (a : Actor) : Actor :=
  if bool_decide (stage a = Deciding) then on_owner_deciding i a
  else match i with
  | OwnerSent (FrameCommand (CancelCommand rid)) =>
      if is_transferred a then reject AlreadyTransferred (Some rid) a
      else if retiring a then reject AlreadyDecided (Some rid) a
      else retire (Some Cancel) rid a
  | OwnerSent (FrameCommand (TransferCommand rid inc g)) => on_transfer rid inc g a
  | OwnerSent (FrameRejected c rid) =>
      reject (if is_transferred a && negb (bool_decide (c = MalformedCommand))
              then AlreadyTransferred else c) rid a
  | OwnerSent FrameMalformed =>
      let a := reject MalformedCommand None a in
      if negb (is_transferred a) && negb (retiring a)
      then retire (Some Malformed) (str "owner:malformed") a else a
  | OwnerClosed =>
      if negb (is_transferred a) && negb (retiring a)
      then retire (Some OwnerEof) (str "owner:eof") a else a
  end.

(** The end of [on_completed]: a retirement that waited goes on. *)
Definition resume_retirement (a : Actor) : Actor :=
  if retiring a && negb (committed_in_flight a) then complete_retirement a else a.

Definition on_published (a : Actor) : Actor :=
  let a := emit ECreationLockReleased a in
  if retiring a then resume_retirement a
  else
    let '(t, a) := issue KForkChild a in
    match write ((record a) <| phase := ChildForking |>) a with
    | (true, a) => resume_retirement (send (ForkChild t) a)
    | (false, a) => abandon a
    end.

Definition on_forked (cpid : Z) (a : Actor) : Actor :=
  let id := identity_of (ticks a) cpid in
  let a := (tick a) <| child := Some (mkChild id cpid) |> in
  if retiring a then resume_retirement a
  else match id with
  | None => retire None (str "producer:child-exited") a
  | Some id =>
      let preparing := (((record a) <| phase := ChildPreparing |>)
                          <| participants ::= fun p => p <| p_child := Some id |> |>)
                          <| incarnation ::= fmap (fun i => i <| inc_child := Some id |>) |> in
      match write preparing a with
      | (true, a) => resume_retirement a
      | (false, a) => abandon a
      end
  end.

Definition on_completed (id : Z) (r : Result Completion bytes) (a : Actor) : Actor :=
  match ticket id a with
  | None => a
  | Some t =>
      let a := a <| tickets ::= set_ticket id TicketCompleted |> in
      match ticket_kind t, r with
      | KPublish, Ok _ => on_published a
      | KForkChild, Ok (Forked cpid) => on_forked cpid a
      | _, Ok _ => resume_retirement a
      | _, Err _ =>
          let a := if retiring a then a else retire None (str "producer:startup-failed") a in
          resume_retirement a
      end
  end.

Definition on_ack (k : Ack) (a : Actor) : Actor :=
  if retiring a || negb (bool_decide (stage a = Starting)) then a
  else match k with
  | Prepared =>
      match write ((record a) <| phase := Held |>) a with
      | (false, a) => abandon a
      | (true, a) => send GoReady (frame "held" NoExtra (a <| stage := HeldStage |>))
      end
  | AckFailed step _ => retire None (str "producer:prepare-" ++ step) a
  | Lost => retire None (str "producer:child-lost") a
  end.

Definition on_event (e : ActorEvent) (a : Actor) : Actor :=
  match e with
  | Synced =>
      if bool_decide (stage a = Deciding) && syncing a then decide (a <| syncing := false |>) else a
  | Released name => on_released name a
  | Commit t => on_commit t a
  | Completed t r => on_completed t r a
  | ChildAck k => on_ack k a
  | ReadyPoint => on_ready_point a
  | ChildExited =>
      if bool_decide (state (record a) = Launched)
      then retire None (str "producer:child-exited") a else a
  | Shutdown =>
      match state (record a) with
      | Launched => retire None (str "producer:terminated") a
      | Pending =>
          if bool_decide (stage a = Deciding)
          then cancel_before_launch Refused None (Some (str "producer:terminated")) a else a
      | Transferred => emit (EMsg ExternalKill) a
      | _ => a
      end
  | Owner i => on_owner i a
  end.

(** ** The daemon's start *)

(** [main]: the actor is made only for a record that names this daemon as the
    producer of its own operation and session. *)
Definition open_actor (operation_digest : bytes -> bytes) (cfg_name : bytes) (s : OperationStore)
  (dg : bytes) (l : LockOutcome) (me : Result ProcessId bytes) : option Actor :=
  match l, me, read s dg with
  | Exclusive, Ok me, Ok (Some r) =>
      let field k := let? v := vget (str k) (envelope r) in as_str v in
      match field "operationId", field "runtimeId" with
      | Some op, Some rt =>
          if bool_decide (state r = Pending) && bool_decide (phase r = DaemonGated)
             && role_is r RoleProducer && bool_decide (w_id (writer r) = Some me)
             && beq (operation_digest op) dg && beq rt cfg_name
          then Some (mkActor s dg true r me (field "expectedIncarnation") rt [] None false 0 []
                       Deciding false false false None [] None None false [] 0)
          else None
      | _, _ => None
      end
  | _, _, _ => None
  end.

(** The start of [run]. *)
Definition start (a : Actor) : Actor :=
  match hold "before-decision" PendDecide (frame "accepted" NoExtra a) with
  | (true, a) => a
  | (false, a) => begin_sync a
  end.

(** ** The worker and the two together *)

(** Where the worker's loop is; in [WPublishing] and [WForking] it is between the
    commit it was granted and the completion it reports. *)
Inductive Pc : Type :=
  | WIdle
  | WPublishCommit (t : Z)
  | WPublishing (t : Z)
  | WForkCommit (t : Z)
  | WForking (t : Z)
  | WAck
  | WReady
  | WServing
  | WExited (code : Z).

Record Worker : Type := mkWorker { pc : Pc; has_publication : bool; has_session : bool }.

Record Sys : Type := mkSys { actor : Actor; inbox : list ActorEvent; worker : Worker }.

(** The events only the worker sends. *)
Definition from_worker (e : ActorEvent) : bool :=
  match e with Commit _ | Completed _ _ | ChildAck _ | ReadyPoint => true | _ => false end.

Definition commit_granted (p : Pc) : Pc :=
  match p with WPublishCommit t => WPublishing t | WForkCommit t => WForking t | _ => p end.
Definition asks_commit (p : Pc) (t : Z) : Prop := p = WPublishCommit t \/ p = WForkCommit t.

Inductive sys_step : Sys -> Sys -> Prop :=
  | outside e a i w :
      from_worker e = false -> sys_step (mkSys a i w) (mkSys a (i ++ [e]) w)
  | actor_turn e a i w :
      stage a <> Done -> sys_step (mkSys a (e :: i) w) (mkSys (on_event e a) i w)
  | publish_unprepared t g c p cs m a i w :
      pc w = WIdle -> commands a = Publish t g c p :: cs ->
      sys_step (mkSys a i w) (mkSys (a <| commands := cs |>) (i ++ [Completed t (Err m)]) w)
  | publish_ask t g c p cs a i w :
      pc w = WIdle -> commands a = Publish t g c p :: cs ->
      sys_step (mkSys a i w)
        (mkSys (a <| commands := cs |>) (i ++ [Commit t])
           (mkWorker (WPublishCommit t) (has_publication w) (has_session w)))
  | fork_unready t cs m a i w :
      pc w = WIdle -> commands a = ForkChild t :: cs ->
      sys_step (mkSys a i w) (mkSys (a <| commands := cs |>) (i ++ [Completed t (Err m)]) w)
  | fork_ask t cs a i w :
      pc w = WIdle -> commands a = ForkChild t :: cs -> has_publication w = true ->
      sys_step (mkSys a i w)
        (mkSys (a <| commands := cs |>) (i ++ [Commit t])
           (mkWorker (WForkCommit t) (has_publication w) (has_session w)))
  | commit_answered t b a i w :
      asks_commit (pc w) t -> reply a = Some b ->
      sys_step (mkSys a i w)
        (mkSys (a <| reply := None |>) i
           (mkWorker (if b then commit_granted (pc w) else WIdle) (has_publication w) (has_session w)))
  | commit_lost t a i w :
      asks_commit (pc w) t -> reply a = None -> stage a = Done ->
      sys_step (mkSys a i w) (mkSys a i (mkWorker WIdle (has_publication w) (has_session w)))
  | publish_done t r a i w :
      pc w = WPublishing t -> (r = Ok Published \/ exists m, r = Err m) ->
      sys_step (mkSys a i w)
        (mkSys a (i ++ [Completed t r])
           (mkWorker WIdle match r with Ok _ => true | Err _ => has_publication w end (has_session w)))
  | fork_failed t keep m a i w :
      pc w = WForking t ->
      sys_step (mkSys a i w)
        (mkSys a (i ++ [Completed t (Err m)]) (mkWorker WIdle keep (has_session w)))
  | fork_done t cpid a i w :
      pc w = WForking t ->
      sys_step (mkSys a i w) (mkSys a (i ++ [Completed t (Ok (Forked cpid))]) (mkWorker WAck false true))
  | ack_read k a i w :
      pc w = WAck ->
      sys_step (mkSys a i w)
        (mkSys a (i ++ [ChildAck k]) (mkWorker WIdle (has_publication w) (has_session w)))
  | ready_ask cs a i w :
      pc w = WIdle -> commands a = GoReady :: cs ->
      sys_step (mkSys a i w)
        (mkSys (a <| commands := cs |>) (i ++ [ReadyPoint])
           (mkWorker WReady (has_publication w) (has_session w)))
  | ready_answered b a i w :
      pc w = WReady -> reply a = Some b ->
      sys_step (mkSys a i w)
        (mkSys (a <| reply := None |>) i
           (mkWorker (if b then if has_session w then WServing else WExited 1 else WIdle)
              (has_publication w) (has_session w)))
  | ready_lost a i w :
      pc w = WReady -> reply a = None -> stage a = Done ->
      sys_step (mkSys a i w) (mkSys a i (mkWorker WIdle (has_publication w) (has_session w)))
  | worker_stop code cs a i w :
      pc w = WIdle -> commands a = Stop code :: cs ->
      sys_step (mkSys a i w)
        (mkSys (a <| commands := cs |>) i (mkWorker (WExited code) (has_publication w) (has_session w)))
  | worker_hangup a i w :
      pc w = WIdle -> commands a = [] -> stage a = Done ->
      sys_step (mkSys a i w) (mkSys a i (mkWorker (WExited 1) (has_publication w) (has_session w))).

(** Every state a launch's producer can be in, from a record [main] accepts. *)
Inductive produced (a0 : Actor) : Sys -> Prop :=
  | produced_start : produced a0 (mkSys (start a0) [] (mkWorker WIdle false false))
  | produced_step s s' : produced a0 s -> sys_step s s' -> produced a0 s'.
End Handlers.
