(* ===== verification/Producer.v ===== *)
(** The launch operation's producer is safe: an invariant of the actor's handlers,
    kept by every turn, and its composition with the worker.  An operation that is
    over has no effect in flight, the held child is released only under a durable
    transfer and never after a retirement, and no write of the actor is refused
    but by the disk. *)
From S2P Require Import Prelude Json Metadata ProcTable Operation Settle Frames Actor.

(** ** Invariants of the actor *)

Section Invariant.
Context {EI : ActorEnv}.

Definition is_release (e : Effect) : bool := match e with EGateReleased _ => true | _ => false end.
Definition is_shut (e : Effect) : bool := match e with EGateShut _ => true | _ => false end.
(** A failed write whose record was consistent and current: the disk refused it. *)
Definition only_io (e : Effect) : bool :=
  match e with EWriteFailed WriteFailed => true | EWriteFailed _ => false | _ => true end.

Definition on_disk (a : Actor) : option RecordFile := records (store a) !! digest a.

Definition wf_record (r : OperationRecord) : Prop :=
  schema r = RECORD_SCHEMA /\ wf_value (envelope r) /\
  forall rt, retirement r = Some rt -> wf_value (evidence rt).

(** The actor is the writer of the record on disk. *)
Record live (a : Actor) : Prop := mkLive {
  l_locked : locked a = true;
  l_disk : on_disk a = Some (FileRecord (record a));
  l_check : check (record a) = Ok tt;
  l_wf : wf_record (record a);
  l_writer : role_is (record a) RoleProducer = true
}.

(** What its stage says of the record and of what is parked. *)
Definition staged (a : Actor) : Prop :=
  match stage a with
  | Deciding =>
      state (record a) = Pending /\ retirement (record a) = None /\ retiring a = false /\
      deferred_transfer a = None /\ (pending a = None \/ pending a = Some PendDecide) /\
      phase (record a) = DaemonGated /\ (syncing a = true -> pending a = None)
  | Starting =>
      state (record a) = Launched /\ phase (record a) <> Held /\ pending a = None /\
      deferred_transfer a = None
  | HeldStage => state (record a) = Launched /\ phase (record a) = Held /\ pending a = None
  | Ready =>
      phase (record a) = Held /\ deferred_transfer a = None /\
      (state (record a) = Launched /\ (pending a = None \/ is_some (pending_transfer (pending a)) = true) \/
       state (record a) = Transferred /\ retiring a = false /\ pending_transfer (pending a) = None)
  | Done => True
  end.
Definition retiring_says (a : Actor) : Prop :=
  if retiring a
  then rt_phase <$> retirement (record a) = Some Requested /\ pending a = None /\ deferred_transfer a = None
  else retirement (record a) = None.

Definition disk_is (a : Actor) (p : OperationRecord -> bool) : Prop :=
  exists r, on_disk a = Some (FileRecord r) /\ p r = true.
Definition is_state (s : State) (r : OperationRecord) : bool := bool_decide (state r = s).
Definition consistent (r : OperationRecord) : bool := match check r with Ok _ => true | Err _ => false end.
Definition transferred_record (r : OperationRecord) : bool := is_state Transferred r && consistent r.

Record inv (a : Actor) : Prop := mkInv {
  inv_io : forallb only_io (log a) = true;
  inv_live : stage a <> Done -> live a /\ staged a /\ retiring_says a;
  inv_shut_done : existsb is_shut (log a) = true ->
    stage a = Done /\ disk_is a (fun r => is_state Launched r && is_some (retirement r));
  inv_released : existsb is_release (log a) = true -> disk_is a transferred_record
}.

(** Nothing the invariant looks at differs. *)
Record same (a b : Actor) : Prop := mkSame {
  s_store : store b = store a;
  s_digest : digest b = digest a;
  s_locked : locked b = locked a;
  s_record : record b = record a;
  s_stage : stage b = stage a;
  s_retiring : retiring b = retiring a;
  s_pending : pending b = pending a;
  s_deferred : deferred_transfer b = deferred_transfer a;
  s_tickets : tickets b = tickets a;
  s_commands : commands b = commands a;
  s_reply : reply b = reply a;
  s_syncing : syncing b = syncing a;
  s_io : forallb only_io (log b) = forallb only_io (log a);
  s_shut : existsb is_shut (log b) = existsb is_shut (log a);
  s_release : existsb is_release (log b) = existsb is_release (log a)
}.

Lemma same_refl a : same a a.
Proof. split; reflexivity. Qed.
Lemma same_trans a b c : same a b -> same b c -> same a c.
Proof. intros [] []. split; congruence. Qed.

Definition plain (e : Effect) : bool :=
  match e with EWriteFailed _ | EGateShut _ | EGateReleased _ => false | _ => true end.
Lemma same_emit e a : plain e = true -> same a (emit e a).
Proof.
  intros He. split; try reflexivity; cbn [emit set_field log]; rewrite ?forallb_app, ?existsb_app; cbn;
    destruct e; try discriminate; cbn; rewrite ?andb_true_r, ?orb_false_r; reflexivity.
Qed.
Lemma same_tick a : same a (tick a).
Proof. split; reflexivity. Qed.
Lemma same_frame k x a : same a (frame k x a).
Proof. eapply same_trans; [|apply same_emit; reflexivity]. split; reflexivity. Qed.
Lemma same_reject c r a : same a (reject c r a).
Proof. apply same_frame. Qed.

Lemma same_inv a b : same a b -> inv a -> inv b.
Proof.
  intros [] [Hio Hl Hs Hr]. unfold disk_is, on_disk in *. split.
  - congruence.
  - rewrite s_stage0. intros Hd. destruct (Hl Hd) as ([] & Hst & Hre).
    unfold staged, retiring_says, on_disk in *.
    split; [|split].
    + split; unfold on_disk in *; congruence.
    + rewrite s_stage0, s_record0, s_retiring0, s_deferred0, s_pending0, s_syncing0. exact Hst.
    + rewrite s_retiring0, s_record0, s_deferred0, s_pending0. exact Hre.
  - rewrite s_shut0, s_stage0. unfold disk_is, on_disk. rewrite s_store0, s_digest0. exact Hs.
  - rewrite s_release0. unfold disk_is, on_disk. rewrite s_store0, s_digest0. exact Hr.
Qed.

(** ** Writing the record *)

(** A write that lands. *)
Definition written (q : OperationRecord) (st : OperationStore) (a : Actor) : Actor :=
  ((tick a) <| store := st |>) <| record := q |>.
Definition unwritten (st : OperationStore) (a : Actor) : Actor :=
  emit (EWriteFailed WriteFailed) ((tick a) <| store := st |>).

Lemma write_spec next a :
  live a -> check next = Ok tt ->
  let q := stamped (now (ticks a)) (record a) next in
  (exists st, records st !! digest a = Some (FileRecord q) /\ write next a = (true, written q st a)) \/
  (exists st, (records st !! digest a = on_disk a \/ records st !! digest a = Some (FileRecord q)) /\
     write next a = (false, unwritten st a)).
Proof.
  intros [Hl Hd Hc (Hs & He & Hr) Hw] Hn q. unfold write. rewrite Hl. cbn [negb].
  assert (Hrd : read (store a) (digest a) = Ok (Some (record a))).
  { unfold read. unfold on_disk in Hd. rewrite Hd. cbn [read_file]. rewrite Hs, beq_refl, Hc. done. }
  unfold write_cas_as. rewrite Hn, Hrd, record_eqb_refl by done. cbn [negb].
  destruct (disk (ticks a)).
  - left. eexists. split; [|reflexivity]. cbn [records]. apply lookup_insert_eq.
  - right. exists (store a). split; [left; reflexivity|reflexivity].
  - right. eexists. split; [|reflexivity]. right. cbn [records]. apply lookup_insert_eq.
Qed.

(** The end of the actor. *)
Lemma stop_stage c a : stage (stop c a) = Done.
Proof. unfold stop. cbn. destruct (serving a); reflexivity. Qed.
Lemma stop_disk c a : on_disk (stop c a) = on_disk a.
Proof. unfold stop. cbn. destruct (serving a); reflexivity. Qed.
Lemma stop_tickets c a : tickets (stop c a) = tickets a.
Proof. unfold stop. cbn. destruct (serving a); reflexivity. Qed.
Lemma stop_reply c a : reply (stop c a) = reply a.
Proof. unfold stop. cbn. destruct (serving a); reflexivity. Qed.
Lemma stop_log (p : Effect -> bool) c a :
  p EClose = false -> p (EMsg (OperationEnd c)) = false ->
  existsb p (log (stop c a)) = existsb p (log a).
Proof.
  intros H1 H2. unfold stop. cbn. destruct (serving a); cbn [set_field log emit send];
    rewrite ?existsb_app; cbn; rewrite ?H1, ?H2, ?orb_false_r; reflexivity.
Qed.
Lemma stop_io c a : forallb only_io (log (stop c a)) = forallb only_io (log a).
Proof.
  unfold stop. cbn. destruct (serving a); cbn [set_field log emit send];
    rewrite ?forallb_app; cbn; rewrite ?andb_true_r; reflexivity.
Qed.

(** ** Turns that leave the worker's work alone *)

Definition ended (r : OperationRecord) : bool := is_terminal r || is_state Cancelled r.
(** The record on disk says the operation is over. *)
Definition finished (a : Actor) : Prop := disk_is a ended.

(** A turn keeps the invariant and answers nobody; unless it is the actor's last it
    at most revokes tickets, and a turn that ends the operation had no committed
    effect in flight. *)
Record turn (a b : Actor) : Prop := mkTurn {
  t_inv : inv b;
  t_reply : reply b = reply a;
  t_done : stage b = Done -> finished b -> committed_in_flight a = false;
  t_tickets : stage b <> Done -> tickets b = tickets a \/ tickets b = map revoke (tickets a);
  t_commands : stage b <> Done -> commands b = commands a;
  t_deciding : stage b <> Done -> (stage b = Deciding <-> stage a = Deciding);
  t_starting : stage b <> Done -> stage a = Starting -> retiring b = false -> stage b = Starting;
  t_retiring : stage b <> Done -> retiring a = true -> retiring b = true
}.

Lemma turn_refl a : inv a -> stage a <> Done -> turn a a.
Proof. intros. split; auto; done. Qed.

Lemma committed_revoke l : existsb is_committed (map revoke l) = existsb is_committed l.
Proof.
  induction l as [|t l IH]; [done|]. cbn. rewrite IH. f_equal.
  unfold is_committed, revoke. destruct (ticket_state t) eqn:E; cbn; rewrite ?E; done.
Qed.
Lemma revoke_revoke l : map revoke (map revoke l) = map revoke l.
Proof.
  rewrite map_map. apply map_ext. intros t. unfold revoke.
  destruct (ticket_state t) eqn:E; cbn; rewrite ?E; done.
Qed.

Lemma turn_trans a b c : stage b <> Done -> turn a b -> turn b c -> turn a c.
Proof.
  intros Hd [_ ? _ Ht Hc Hs Hst Hre] [? ? Hdn Ht' Hc' Hs' Hst' Hre'].
  specialize (Ht Hd). specialize (Hc Hd). specialize (Hs Hd). specialize (Hst Hd). specialize (Hre Hd).
  split; auto.
  - congruence.
  - intros H H'. specialize (Hdn H H'). unfold committed_in_flight in *.
    destruct Ht as [E|E]; rewrite E, ?committed_revoke in Hdn; exact Hdn.
  - intros H. destruct Ht as [E|E], (Ht' H) as [E'|E']; rewrite E', E; auto.
    right. apply revoke_revoke.
  - intros H. rewrite Hc'; auto.
  - intros H. rewrite Hs'; auto.
  - intros H HS HR. apply Hst'; auto. apply Hst; auto.
    destruct (retiring b) eqn:E; [|done]. rewrite Hre' in HR; done.
Qed.

Lemma same_turn a b : same a b -> inv a -> stage a <> Done -> turn a b.
Proof.
  intros H Hi Hd. pose proof (same_inv _ _ H Hi) as Hb. destruct H.
  split; try done; try congruence; rewrite ?s_stage0; intros; auto; congruence.
Qed.

(** ** What a live record rules out *)

Lemma check_record r : check r = Ok tt ->
  state_ok r = true /\ (is_terminal r = true -> role_is r RoleNone = true) /\
  (role_is r RoleRecovery = true -> is_requested r = true).
Proof.
  unfold check. intros H. destruct (negb _); [discriminate|].
  destruct (role_is r RoleRecovery), (is_requested r); cbn [andb negb] in H; try discriminate;
    destruct (role_is r RoleNone), (is_terminal r); cbn in H; try discriminate;
    destruct (state_ok r); try discriminate; repeat split; done.
Qed.

Lemma role_is_none r : role_is r RoleProducer = true -> role_is r RoleNone = false.
Proof. unfold role_is. intros H. apply bool_decide_eq_true in H. rewrite H. done. Qed.

Lemma live_not_ended a : live a -> ended (record a) = false.
Proof.
  intros [_ _ Hc _ Hw]. destruct (check_record _ Hc) as (Hs & Ht & _). apply role_is_none in Hw.
  unfold ended. destruct (is_terminal (record a)); [rewrite Ht in Hw; done|]. cbn.
  unfold is_state. case_bool_decide as E; [|done]. unfold state_ok in Hs. rewrite E in Hs.
  bands. congruence.
Qed.

Lemma not_released a : inv a -> stage a <> Done -> state (record a) <> Transferred ->
  existsb is_release (log a) = false.
Proof.
  intros [_ Hl _ Hr] Hd Hs. destruct (existsb _ _); [|done]. destruct (Hr eq_refl) as (r & H1 & H2).
  destruct (Hl Hd) as ([_ Hdk _ _ _] & _). rewrite Hdk in H1. injection H1 as <-.
  apply andb_prop in H2 as [H2 _]. apply bool_decide_eq_true in H2. done.
Qed.

Lemma not_shut a : inv a -> stage a <> Done -> existsb is_shut (log a) = false.
Proof. intros [_ _ Hs _] Hd. destruct (existsb _ _); [|done]. destruct (Hs eq_refl). done. Qed.

(** ** Last turns *)

(** [stop] after [b], which the turn reached from [a]. *)
Lemma stop_turn c a b :
  forallb only_io (log b) = true ->
  (existsb is_shut (log b) = true -> disk_is b (fun r => is_state Launched r && is_some (retirement r))) ->
  (existsb is_release (log b) = true -> disk_is b transferred_record) ->
  reply b = reply a -> (finished b -> committed_in_flight a = false) ->
  turn a (stop c b).
Proof.
  intros Hio Hs Hr Hre Hf. split; rewrite ?stop_stage; try done.
  - split; rewrite ?stop_io; [done|rewrite stop_stage; done| |]; rewrite stop_log by done; intros H;
      [split; [apply stop_stage|]|]; unfold disk_is; rewrite stop_disk; first [exact (Hs H) | exact (Hr H)].
  - rewrite stop_reply. done.
  - intros _. unfold finished, disk_is. rewrite stop_disk. exact Hf.
Qed.

(** A write that fails, and the [abandon] that follows; [c] is what is left, a
    frame or two later. *)
Lemma abandon_turn a b c st next :
  inv b -> stage b <> Done -> reply b = reply a ->
  records st !! digest b = on_disk b \/
    records st !! digest b = Some (FileRecord (stamped (now (ticks b)) (record b) next)) ->
  is_state Transferred next = is_state Transferred (record b) \/ is_state Transferred next = true ->
  (ended next = true -> committed_in_flight a = false) -> check next = Ok tt ->
  same (unwritten st b) c ->
  turn a (abandon c).
Proof.
  intros Hi Hd Hre Hst Htr Hend Hck Hsame. pose proof (inv_live _ Hi Hd) as (Hl & _).
  assert (Hc : on_disk c = records st !! digest b).
  { destruct Hsame. unfold on_disk. rewrite s_store0, s_digest0. reflexivity. }
  assert (Hdisk : forall p, disk_is c p -> p (record b) = true \/
             p (stamped (now (ticks b)) (record b) next) = true).
  { intros p (r & H & Hp). rewrite Hc in H.
    destruct Hst as [E|E]; rewrite E in H; [rewrite (l_disk _ Hl) in H|]; injection H as <-; auto. }
  destruct Hsame. apply stop_turn.
  - rewrite s_io0. cbn. rewrite forallb_app. cbn. rewrite (inv_io _ Hi). done.
  - rewrite s_shut0. cbn. rewrite existsb_app. cbn. rewrite orb_false_r, (not_shut b Hi Hd). done.
  - rewrite s_release0. cbn. rewrite existsb_app. cbn. rewrite orb_false_r. intros Hr.
    destruct (inv_released _ Hi Hr) as (r & H1 & H2). rewrite (l_disk _ Hl) in H1. injection H1 as <-.
    unfold disk_is. rewrite Hc.
    destruct Hst as [E|E]; rewrite E; [rewrite (l_disk _ Hl)|]; eexists; (split; [reflexivity|]); [done|].
    change (is_state Transferred next && consistent next = true). unfold consistent. rewrite Hck, andb_true_r.
    apply andb_prop in H2 as [H2 _]. destruct Htr; congruence.
  - rewrite s_reply0. exact Hre.
  - intros H. destruct (Hdisk _ H) as [E|E]; [rewrite live_not_ended in E by done; done|exact (Hend E)].
Qed.

(** A consistent next record keeps the actor the live writer. *)
Lemma written_live a next st :
  live a -> check next = Ok tt -> wf_record next -> role_is next RoleProducer = true ->
  records st !! digest a = Some (FileRecord (stamped (now (ticks a)) (record a) next)) ->
  live (written (stamped (now (ticks a)) (record a) next) st a).
Proof. intros [] Hc Hw Hp Hs. split; try done. Qed.

Ltac checked Hc :=
  let Hs := fresh "Hs" in
  pose proof (proj1 (check_record _ Hc)) as Hs; unfold state_ok in Hs.

(** *** The decision *)

Lemma check_cancelled a d :
  live a -> state (record a) = Pending -> retirement (record a) = None -> cause d <> Launch ->
  check ((((record a) <| state := Cancelled |>) <| writer := none |>) <| decision := Some d |>) = Ok tt.
Proof.
  intros Hl Hp Hr Hd. checked (l_check _ Hl). rewrite Hp in Hs.
  assert (E : state_ok ((((record a) <| state := Cancelled |>) <| writer := none |>) <| decision := Some d |>) = true).
  { unfold state_ok, is_requested. cbn. rewrite Hr. cbn. rewrite bool_decide_eq_false_2 by done.
    bands; done. }
  unfold check. rewrite E. unfold is_requested, is_terminal, role_is. cbn. rewrite Hr. done.
Qed.


Lemma cancel_turn c rid obs a :
  inv a -> stage a = Deciding -> c <> Launch -> committed_in_flight a = false ->
  turn a (cancel_before_launch c rid obs a).
Proof.
  intros Hi Hs Hc Hf. assert (Hd : stage a <> Done) by congruence.
  destruct (inv_live _ Hi Hd) as (Hl & Hst & _). unfold staged in Hst. rewrite Hs in Hst.
  destruct Hst as (Hp & Hr & _). unfold cancel_before_launch.
  set (d := decision_now a c rid obs).
  pose proof (check_cancelled a d Hl Hp Hr Hc) as Hck.
  destruct (write_spec _ a Hl Hck) as [(st & Hst & ->)|(st & Hst & ->)].
  - set (b := written _ st a).
    pose proof (same_trans _ _ _ (same_frame "decision" (XDecision (decision (record b))) b)
      (same_emit ECreationLockReleased _ eq_refl)) as [].
    apply stop_turn.
    + rewrite s_io0. exact (inv_io _ Hi).
    + rewrite s_shut0. intros H. change (existsb is_shut (log a) = true) in H. rewrite not_shut in H; done.
    + rewrite s_release0. intros H. change (existsb is_release (log a) = true) in H.
      rewrite not_released in H; [done|done|done|congruence].
    + rewrite s_reply0. done.
    + done.
  - apply (abandon_turn a a _ st _ Hi Hd eq_refl Hst); [|done|exact Hck|apply same_refl].
    left. unfold is_state. rewrite Hp. done.
Qed.

(** *** Retirement *)

Lemma check_terminal a rt :
  live a -> state (record a) = Launched -> rt_phase rt <> Requested ->
  check (((record a) <| writer := none |>) <| retirement := Some rt |>) = Ok tt.
Proof.
  intros Hl Hs Hrt. checked (l_check _ Hl). rewrite Hs in *.
  assert (E : state_ok (((record a) <| writer := none |>) <| retirement := Some rt |>) = true).
  { unfold state_ok, is_terminal. cbn. rewrite Hs. destruct (rt_phase rt); try done; bands; done. }
  unfold check. rewrite E. unfold is_requested, is_terminal, role_is. cbn. destruct (rt_phase rt); done.
Qed.

(** The effects before the terminal write touch nothing but the log. *)
Record logged (a b : Actor) : Prop := mkLogged {
  g_same : store b = store a /\ digest b = digest a /\ record b = record a /\ locked b = locked a;
  g_reply : reply b = reply a;
  g_stage : stage b = stage a;
  g_io : forallb only_io (log b) = forallb only_io (log a);
  g_release : existsb is_release (log b) = existsb is_release (log a)
}.
Lemma logged_trans a b c : logged a b -> logged b c -> logged a c.
Proof. intros [(? & ? & ? & ?)] [(? & ? & ? & ?)]. split; repeat split; congruence. Qed.
Lemma logged_emit e a : is_release e = false -> only_io e = true -> logged a (emit e a).
Proof.
  intros H1 H2. split; try reflexivity; [done| |]; cbn [emit set_field log];
    rewrite ?forallb_app, ?existsb_app; cbn; rewrite ?H1, ?H2, ?andb_true_r, ?orb_false_r; done.
Qed.
Lemma logged_tick a : logged a (tick a).
Proof. split; reflexivity || done. Qed.
Lemma logged_child a : logged a (snd (retire_child a)).
Proof.
  unfold retire_child. destruct (child a); cbn [snd].
  - eapply logged_trans; [apply logged_tick|apply logged_emit; done].
  - split; reflexivity || done.
Qed.
Lemma logged_row a : logged a (snd (retire_row a)).
Proof.
  unfold retire_row. destruct (published a); cbn [snd].
  - eapply logged_trans; [apply logged_tick|apply logged_emit; done].
  - split; reflexivity || done.
Qed.

Lemma complete_retirement_turn a :
  inv a -> stage a <> Done -> retiring a = true -> committed_in_flight a = false ->
  turn a (complete_retirement a) /\ stage (complete_retirement a) = Done.
Proof.
  intros Hi Hd Hre Hf. destruct (inv_live _ Hi Hd) as (Hl & Hst & Hrs).
  assert (HL : state (record a) = Launched).
  { unfold staged in Hst. destruct (stage a); try tauto; [destruct Hst as (_ & _ & E & _); congruence|].
    destruct Hst as (_ & _ & [[E _]|(_ & E & _)]); congruence. }
  unfold retiring_says in Hrs. rewrite Hre in Hrs. destruct Hrs as (Hrq & _ & _).
  destruct (retirement (record a)) as [rt0|] eqn:Ert; [|done].
  unfold complete_retirement. rewrite Hre, bool_decide_eq_false_2 by done. cbn [negb orb].
  pose proof (logged_child a) as G1. destruct (retire_child a) as [[ev1 ok1] a1]. cbn [snd] in G1.
  pose proof (logged_trans _ _ _ G1 (logged_emit ECreationLockReleased a1 eq_refl eq_refl)) as G2.
  pose proof (logged_row (emit ECreationLockReleased a1)) as G3.
  destruct (retire_row (emit ECreationLockReleased a1)) as [[ev2 ok2] b]. cbn [snd] in G3.
  destruct (logged_trans _ _ _ G2 G3) as [(G4 & G5 & G6 & G7) Gr Gs Gio Grel]. clear G1 G2 G3.
  rewrite G6, Ert. set (rt := mkRetirement _ _ _).
  assert (Hlb : live b).
  { destruct Hl. split; unfold on_disk in *; rewrite ?G4, ?G5, ?G6, ?G7; done. }
  assert (Hck : check (((record b) <| writer := none |>) <| retirement := Some rt |>) = Ok tt).
  { apply check_terminal; [done|congruence|]. cbn. destruct (ok1 && ok2); done. }
  rewrite <- G6.
  assert (Hnr : existsb is_release (log b) = false).
  { rewrite Grel. apply not_released; auto; congruence. }
  destruct (write_spec _ b Hlb Hck) as [(st & Hw & ->)|(st & Hw & ->)]; (split; [|apply stop_stage]).
  - apply stop_turn; try done.
    + cbn. rewrite forallb_app. cbn. rewrite Gio, (inv_io _ Hi). done.
    + intros _. eexists. split; [exact Hw|]. unfold is_state. cbn. rewrite G6, HL. done.
    + cbn. rewrite existsb_app. cbn. rewrite orb_false_r, Hnr. done.
  - apply stop_turn; try done.
    + cbn. rewrite forallb_app. cbn. rewrite Gio, (inv_io _ Hi). done.
    + intros _. unfold disk_is. change (on_disk (unwritten st b)) with (records st !! digest b).
      destruct Hw as [E|E]; rewrite E.
      * rewrite (l_disk _ Hlb). eexists. split; [reflexivity|]. unfold is_state. rewrite G6, HL, Ert. done.
      * eexists. split; [reflexivity|]. unfold is_state. cbn. rewrite G6, HL. done.
    + cbn. rewrite existsb_app. cbn. rewrite orb_false_r, Hnr. done.
Qed.

Lemma check_asked a rt :
  live a -> state (record a) = Launched -> rt_phase rt = Requested ->
  check ((record a) <| retirement := Some rt |>) = Ok tt.
Proof.
  intros Hl Hs Hrt. pose proof (role_is_none _ (l_writer _ Hl)) as Hn.
  checked (l_check _ Hl). rewrite Hs in *.
  assert (E : state_ok ((record a) <| retirement := Some rt |>) = true).
  { unfold state_ok, is_terminal. cbn. rewrite Hs, Hrt. unfold role_is in *. cbn. rewrite Hn.
    cbn. bands; done. }
  destruct (check_facts _ (l_check _ Hl)) as [_ Hid]. unfold check. rewrite E.
  unfold is_requested, is_terminal, role_is in *. cbn. rewrite Hrt. cbn.
  rewrite <- Hid, eqb_reflx, Hn, andb_false_r. done.
Qed.

(** The transfers that lose, and the tickets revoked. *)
Lemma withdraw_facts a :
  let b := withdraw_transfer a in
  (store b = store a /\ digest b = digest a /\ locked b = locked a /\ record b = record a) /\
  (stage b = stage a /\ retiring b = retiring a /\ reply b = reply a /\ commands b = commands a) /\
  (pending b = None /\ deferred_transfer b = None /\ tickets b = map revoke (tickets a)) /\
  forallb only_io (log b) = forallb only_io (log a) /\
  existsb is_shut (log b) = existsb is_shut (log a) /\
  existsb is_release (log b) = existsb is_release (log a).
Proof.
  unfold withdraw_transfer.
  set (a1 := (reject_transfer (pending_transfer (pending a)) a) <| pending := None |>).
  assert (S1 : same a (reject_transfer (pending_transfer (pending a)) a)).
  { destruct (pending_transfer (pending a)); [apply same_reject|apply same_refl]. }
  assert (S2 : same a1 (reject_transfer (deferred_transfer a1) a1)).
  { destruct (deferred_transfer a1); [apply same_reject|apply same_refl]. }
  destruct S1, S2. cbn. unfold a1 in *. cbn in *. repeat split; congruence.
Qed.

Lemma retire_turn c rid a :
  inv a -> stage a <> Done -> stage a <> Deciding -> turn a (retire c rid a).
Proof.
  intros Hi Hd Hdec. destruct (inv_live _ Hi Hd) as (Hl & Hst & Hrs). unfold retire.
  destruct (retiring a) eqn:Hre; [apply turn_refl; done|].
  rewrite bool_decide_eq_false_2 by done. unfold is_transferred.
  case_bool_decide as Ht; [apply turn_refl; done|]. cbn [orb].
  assert (HL : state (record a) = Launched).
  { unfold staged in Hst. destruct (stage a); try tauto. }
  destruct (withdraw_facts a) as ((W1 & W2 & W3 & W4) & (W5 & W6 & W7 & W8) & (W9 & W10 & W11) & W12 & W13 & W14).
  set (b := withdraw_transfer a) in *. clearbody b.
  set (rt := mkRetirement rid Requested (VObj [])).
  assert (Hlb : live b).
  { destruct Hl. split; unfold on_disk in *; rewrite ?W1, ?W2, ?W3, ?W4; done. }
  assert (Hck : check ((record b) <| retirement := Some rt |>) = Ok tt) by (apply check_asked; [done|congruence|done]).
  assert (Hwf : wf_record ((record b) <| retirement := Some rt |>)).
  { destruct (l_wf _ Hlb) as (? & ? & _). repeat split; try done. intros r [= <-]. cbn. split; [constructor|done]. }
  destruct (write_spec _ b Hlb Hck) as [(st & Hw & ->)|(st & Hw & ->)].
  2:{ apply stop_turn; try done.
      - cbn. rewrite forallb_app. cbn. rewrite W12, (inv_io _ Hi). done.
      - cbn. rewrite existsb_app. cbn. rewrite W13, (not_shut a Hi Hd). done.
      - cbn. rewrite existsb_app. cbn. rewrite W14, (not_released a Hi Hd Ht). done.
      - intros (r & H1 & H2). change (on_disk (unwritten st b)) with (records st !! digest b) in H1.
        destruct Hw as [E|E]; rewrite E in H1; [rewrite (l_disk _ Hlb) in H1|]; injection H1 as <-.
        + rewrite live_not_ended in H2; done.
        + unfold ended, is_terminal, is_state in H2. cbn in H2. rewrite W4, HL in H2. done. }
  pose proof (written_live b _ st Hlb Hck Hwf (l_writer _ Hlb) Hw) as Hlw.
  set (q := stamped _ _ _) in *. set (b1 := written q st b) in *.
  match goal with |- context [if committed_in_flight ?x then _ else _] => set (b2 := x) end.
  assert (S : same (b1 <| retiring := true |>) b2).
  { unfold b2. destruct c; [|apply same_refl].
    match goal with |- same _ ((frame ?k ?x b1) <| retiring := true |>) =>
      exact (same_trans _ _ _ (same_frame k x (b1 <| retiring := true |>)) (same_refl _)) end. }
  clearbody b2.
  assert (Hi1 : inv (b1 <| retiring := true |>)).
  { split.
    - cbn. rewrite W12. exact (inv_io _ Hi).
    - intros _. split; [destruct Hlw; split; done|]. split.
      + unfold staged in *. cbn. rewrite W5, W9, W10, W4. destruct (stage a); tauto.
      + unfold retiring_says. cbn. rewrite W9, W10. done.
    - cbn. rewrite W13, (not_shut a Hi Hd). done.
    - cbn. rewrite W14, (not_released a Hi Hd Ht). done. }
  pose proof (same_inv _ _ S Hi1) as Hi2. destruct S. cbn in *.
  assert (Hd2 : stage b2 <> Done) by congruence.
  assert (T : turn a b2).
  { split; [exact Hi2|congruence|intros H; congruence|intros _; right; congruence|intros _; congruence| |
      intros _; congruence|intros _; congruence].
    intros _. rewrite s_stage0, W5. done. }
  destruct (committed_in_flight b2) eqn:Ef; [exact T|].
  eapply turn_trans; [exact Hd2|exact T|]. apply complete_retirement_turn; done.
Qed.

(** *** The transfer *)

Lemma transferred_facts a :
  live a -> state (record a) = Transferred ->
  retirement (record a) = None /\ ended (record a) = false.
Proof.
  intros Hl Hs. split; [|apply live_not_ended, Hl]. checked (l_check _ Hl). rewrite Hs in *. bands.
  destruct (retirement (record a)); done.
Qed.

Lemma check_released a rel :
  live a -> state (record a) = Transferred ->
  let next := ((record a) <| writer := none |>) <| transfer ::= fmap (fun t => t <| released := Some rel |>) |> in
  check next = Ok tt /\ ended next = false /\ is_state Transferred next = true.
Proof.
  intros Hl Hs next. destruct (transferred_facts a Hl Hs) as [Hr _].
  checked (l_check _ Hl). rewrite Hs in *.
  assert (E : state_ok next = true).
  { unfold state_ok, next. cbn. rewrite Hs, Hr in *. destruct (transfer (record a)); bands; done. }
  split; [|split].
  - unfold check. rewrite E. unfold next, is_requested, is_terminal, role_is. cbn. rewrite Hr. done.
  - unfold ended, is_terminal, is_state, next. cbn. rewrite Hr, Hs. done.
  - unfold is_state, next. cbn. rewrite Hs. done.
Qed.

(** The end of [finish_transfer]. *)
Definition close_done (a : Actor) : Actor := ((emit EClose a) <| locked := false |>) <| stage := Done |>.
Lemma close_done_turn a b :
  forallb only_io (log b) = true -> existsb is_shut (log b) = false ->
  disk_is b (fun r => transferred_record r && negb (ended r)) -> reply b = reply a ->
  turn a (close_done b).
Proof.
  intros Hio Hsh (r & Hr & Ht) Hre. apply andb_prop in Ht as [Ht He]. apply negb_true_iff in He.
  split; try done.
  - split; try done.
    + cbn. rewrite forallb_app. cbn. rewrite Hio. done.
    + cbn. rewrite existsb_app. cbn. rewrite Hsh. done.
    + intros _. exists r. done.
  - intros _ (r' & H1 & H2). change (on_disk (close_done b)) with (on_disk b) in H1. congruence.
Qed.

Lemma finish_transfer_turn rel a :
  inv a -> stage a <> Done -> state (record a) = Transferred -> turn a (finish_transfer rel a).
Proof.
  intros Hi Hd Hs. pose proof (same_inv _ _ (same_emit EMarked a eq_refl) Hi) as Hia.
  unfold finish_transfer. set (b := emit EMarked a) in *.
  destruct (inv_live b Hia Hd) as (Hl & _).
  destruct (check_released b rel Hl Hs) as (Hck & He & Ht). cbn zeta.
  set (next := ((record b) <| writer := none |>) <| transfer ::= _ |>) in *.
  pose proof (not_shut b Hia Hd) as Hsh.
  destruct (transferred_facts b Hl Hs) as [_ Hend].
  destruct (write_spec next b Hl Hck) as [(st & Hw & ->)|(st & Hw & ->)];
    match goal with |- turn a (((emit EClose ?x) <| locked := false |>) <| stage := Done |>) =>
      change (turn a (close_done x)) end.
  - pose proof (same_frame "transferred" (XTransfer (transfer (record (written (stamped (now (ticks b)) (record b) next) st b))))
      (written (stamped (now (ticks b)) (record b) next) st b)) as [].
    apply close_done_turn.
    + rewrite s_io0. exact (inv_io _ Hia).
    + rewrite s_shut0. exact Hsh.
    + exists (stamped (now (ticks b)) (record b) next). unfold on_disk. rewrite s_store0, s_digest0. split; [exact Hw|].
      change (transferred_record next && negb (ended next) = true). unfold transferred_record, consistent. rewrite Ht, He, Hck. done.
    + rewrite s_reply0. done.
  - pose proof (same_frame "transferred" (XTransfer (transfer (record (unwritten st b)))) (unwritten st b)) as [].
    apply close_done_turn.
    + rewrite s_io0. cbn. rewrite forallb_app. cbn. pose proof (inv_io _ Hia) as H. cbn in H. rewrite H. done.
    + rewrite s_shut0. cbn. rewrite existsb_app. cbn in Hsh |- *. rewrite Hsh. done.
    + unfold disk_is, on_disk. rewrite s_store0, s_digest0.
      change (exists r, records st !! digest b = Some (FileRecord r) /\ transferred_record r && negb (ended r) = true).
      destruct Hw as [E|E]; rewrite E; [rewrite (l_disk _ Hl)|]; eexists; (split; [reflexivity|]).
      * rewrite Hend. unfold transferred_record, is_state, consistent. pose proof (Hs : state (record b) = Transferred) as ->. rewrite (l_check _ Hl). done.
      * change (transferred_record next && negb (ended next) = true). unfold transferred_record, consistent. rewrite Ht, He, Hck. done.
    + rewrite s_reply0. done.
Qed.

(** Parking a step while nothing else is parked. *)
Lemma park_turn a p :
  inv a -> stage a = Ready -> retiring a = false ->
  (state (record a) = Launched -> p = None \/ is_some (pending_transfer p) = true) ->
  (state (record a) = Transferred -> pending_transfer p = None) ->
  turn a (a <| pending := p |>).
Proof.
  intros Hi Hs Hr HL HT. assert (Hd : stage a <> Done) by congruence.
  destruct (inv_live _ Hi Hd) as (Hl & Hst & Hrs).
  unfold staged, retiring_says in *. rewrite Hs in Hst. rewrite Hr in Hrs.
  assert (Hb : inv (a <| pending := p |>)).
  { split; [exact (inv_io _ Hi)| |exact (inv_shut_done _ Hi)|exact (inv_released _ Hi)].
    intros _. split; [destruct Hl; split; done|]. unfold staged, retiring_says. cbn. rewrite Hs, Hr. tauto. }
  split; try done; auto; intros H; cbn in H; congruence.
Qed.

Lemma tick_turn a : inv a -> stage a <> Done -> turn a (tick a).
Proof. intros. apply same_turn; [apply same_tick|done|done]. Qed.

Lemma hold_turn name p a :
  inv a -> stage a = Ready -> retiring a = false ->
  (state (record a) = Launched -> is_some (pending_transfer (Some p)) = true) ->
  (state (record a) = Transferred -> pending_transfer (Some p) = None) ->
  let '(on, b) := hold name p a in
  turn a b /\ stage b = Ready /\ record b = record a /\ retiring b = retiring a /\
  (on = false -> pending b = pending a).
Proof.
  intros Hi Hs Hr HL HT. unfold hold. assert (Hd : stage a <> Done) by congruence.
  pose proof (tick_turn a Hi Hd) as Tt.
  destruct (armed _ _); [|split; [exact Tt|done]].
  split; [|done]. eapply turn_trans; [|exact Tt|]; [done|].
  apply park_turn; try done; [apply Tt|auto].
Qed.

Lemma release_transfer_turn a :
  inv a -> stage a = Ready -> retiring a = false -> state (record a) = Transferred ->
  turn a (release_transfer a).
Proof.
  intros Hi Hs Hr Ht. assert (Hd : stage a <> Done) by congruence. unfold release_transfer.
  set (rel := match child a with Some _ => gate_written (ticks a) | None => false end).
  set (b := match child a with Some _ => _ | None => a end).
  assert (T : turn a b /\ stage b = Ready /\ record b = record a /\ retiring b = retiring a).
  { unfold b. destruct (child a) as [c|]; [|split; [apply turn_refl; done|done]]. split; [|done].
    destruct (inv_live _ Hi Hd) as (Hl & Hst & Hrs).
    assert (Hb : inv (((emit (EGateReleased (ch_pid c)) (tick a)) <| child := None |>))).
    { split.
      - cbn. rewrite forallb_app. cbn. rewrite (inv_io _ Hi). done.
      - intros _. split; [destruct Hl; split; done|done].
      - cbn. rewrite existsb_app. cbn. rewrite (not_shut a Hi Hd). done.
      - intros _. exists (record a). split; [apply Hl|]. unfold transferred_record, is_state, consistent. rewrite Ht, (l_check _ Hl). done. }
    split; try done; auto; intros H; cbn in H; congruence. }
  destruct T as (T & Hsb & Hrb & Hreb). clearbody b. pose proof (t_inv _ _ T) as Hib.
  assert (Hdb : stage b <> Done) by congruence.
  pose proof (hold_turn "released-before-ack" (PendTransferAck rel) b Hib Hsb ltac:(congruence)
    ltac:(rewrite Hrb, Ht; discriminate) ltac:(done)) as H.
  destruct (hold _ _ b) as [[] c]; destruct H as (Tc & Hsc & Hrc & _).
  - exact (turn_trans _ _ _ Hdb T Tc).
  - eapply turn_trans; [exact Hdb|exact T|]. eapply turn_trans; [|exact Tc|]; [congruence|].
    apply finish_transfer_turn; [apply Tc|congruence|congruence].
Qed.

Lemma check_committed a t :
  live a -> state (record a) = Launched -> phase (record a) = Held -> retirement (record a) = None ->
  let next := ((record a) <| state := Transferred |>) <| transfer := Some t |> in
  check next = Ok tt /\ wf_record next /\ ended next = false.
Proof.
  intros Hl Hs Hp Hr next. pose proof (role_is_none _ (l_writer _ Hl)) as Hn.
  destruct (check_facts _ (l_check _ Hl)) as [Hso Hid]. unfold state_ok in Hso. rewrite Hs in Hso.
  split; [|split].
  - assert (E : state_ok next = true).
    { unfold state_ok, next. cbn. rewrite Hr, Hp. pose proof (l_writer _ Hl) as Hw. unfold role_is in *.
      cbn. rewrite Hw. bands; done. }
    unfold check. rewrite E. unfold next, is_requested, is_terminal, role_is in *. cbn.
    rewrite <- Hid, eqb_reflx, Hn, Hr. cbn. rewrite andb_true_r.
    pose proof (l_writer _ Hl) as Hw. unfold role_is in Hw. apply bool_decide_eq_true in Hw. rewrite Hw. done.
  - apply (l_wf _ Hl).
  - unfold ended, is_terminal, is_state, next. cbn. rewrite Hr. done.
Qed.

Lemma commit_transfer_turn rid a :
  inv a -> stage a = Ready -> state (record a) = Launched -> pending a = None ->
  turn a (commit_transfer rid a).
Proof.
  intros Hi Hs HL Hp. assert (Hd : stage a <> Done) by congruence.
  destruct (inv_live _ Hi Hd) as (Hl & Hst & Hrs). unfold commit_transfer.
  destruct (retiring a) eqn:Hr; [apply same_turn; [apply same_reject|done|done]|].
  rewrite bool_decide_eq_false_2 by done. cbn [orb]. unfold staged in Hst. rewrite Hs in Hst.
  unfold retiring_says in Hrs. rewrite Hr in Hrs. destruct Hst as (Hph & Hdf & _).
  destruct (check_committed a (mkTransfer rid (now (ticks a)) None) Hl HL Hph Hrs) as (Hck & Hwf & He).
  set (next := ((record a) <| state := Transferred |>) <| transfer := _ |>) in *.
  destruct (write_spec next a Hl Hck) as [(st & Hw & ->)|(st & Hw & ->)].
  2:{ apply (abandon_turn a a _ st next Hi Hd eq_refl Hw); [right; done|congruence|exact Hck|apply same_reject]. }
  set (q := stamped (now (ticks a)) (record a) next) in *.
  set (b := emit (EMsg OperationTransferred) ((written q st a) <| transferred := true |>)).
  assert (Hib : inv b).
  { split.
    - cbn. rewrite forallb_app. cbn. rewrite (inv_io _ Hi). done.
    - intros _. split; [|split].
      + destruct (written_live a next st Hl Hck Hwf (l_writer _ Hl) Hw). split; done.
      + unfold staged. cbn. rewrite Hs, Hdf, Hp, Hr. do 2 (split; [done|]). right. done.
      + unfold retiring_says. cbn. rewrite Hr. done.
    - cbn. rewrite existsb_app. cbn. rewrite (not_shut a Hi Hd). done.
    - intros _. exists q. split; [exact Hw|]. change (transferred_record next = true).
      unfold transferred_record, consistent. rewrite Hck. done. }
  assert (T : turn a b).
  { split; try done; auto; intros H; cbn in H; congruence. }
  pose proof (hold_turn "transfer-committed-before-release" PendTransferRelease b Hib Hs Hr
    ltac:(cbn; discriminate) ltac:(done)) as H.
  destruct (hold _ _ b) as [[] c]; destruct H as (Tc & Hsc & Hrc & Hrec & _).
  - exact (turn_trans a b c Hd T Tc).
  - apply (turn_trans a b _ Hd T). eapply turn_trans; [|exact Tc|]; [congruence|].
    apply release_transfer_turn; [apply Tc|done|rewrite Hrec; exact Hr|rewrite Hrc; done].
Qed.

Lemma start_transfer_turn rid a :
  inv a -> stage a = Ready -> state (record a) = Launched -> retiring a = false -> pending a = None ->
  turn a (start_transfer rid a).
Proof.
  intros Hi Hs HL Hr Hp. unfold start_transfer.
  pose proof (hold_turn "transfer-before-commit" (PendTransferCommit rid) a Hi Hs Hr
    ltac:(done) ltac:(congruence)) as H.
  destruct (hold _ _ a) as [[] c]; destruct H as (Tc & Hsc & Hrc & Hrec & Hpc); [exact Tc|].
  eapply turn_trans; [|exact Tc|]; [congruence|].
  apply commit_transfer_turn; [apply Tc|done|congruence|rewrite Hpc; done].
Qed.

(** *** Events from outside *)

Lemma taken_turn a : inv a -> stage a <> Done -> turn a (a <| pending := None |>).
Proof.
  intros Hi Hd. destruct (inv_live _ Hi Hd) as (Hl & Hst & Hrs).
  assert (Hb : inv (a <| pending := None |>)).
  { split; [exact (inv_io _ Hi)| |exact (inv_shut_done _ Hi)|exact (inv_released _ Hi)].
    intros _. split; [destruct Hl; split; done|]. unfold staged, retiring_says in *. cbn.
    split; [destruct (stage a); tauto|destruct (retiring a); tauto]. }
  split; try done; auto.
Qed.

Lemma launched_stage a : inv a -> stage a <> Done -> state (record a) = Launched -> stage a <> Deciding.
Proof.
  intros Hi Hd Hs E. destruct (inv_live _ Hi Hd) as (_ & Hst & _). unfold staged in Hst.
  rewrite E in Hst. destruct Hst as [Hst _]. congruence.
Qed.

(** What is parked says which stage the actor is in. *)
Lemma parked_stage a p :
  inv a -> stage a <> Done -> pending a = Some p ->
  match p with
  | PendDecide => True
  | PendTransferCommit _ => stage a = Ready /\ state (record a) = Launched
  | _ => stage a = Ready /\ state (record a) = Transferred /\ retiring a = false
  end.
Proof.
  intros Hi Hd Hp. destruct (inv_live _ Hi Hd) as (_ & Hst & _). unfold staged in Hst.
  rewrite Hp in Hst. destruct (stage a); try done.
  - destruct Hst as (_ & _ & _ & _ & [?|[= ->]] & _); done.
  - destruct Hst as (_ & _ & ? & _). done.
  - destruct Hst as (_ & _ & ?). done.
  - destruct Hst as (_ & _ & [[HL [?|Hs]]|(HT & Hr & Hs)]); [done| |]; destruct p; done.
Qed.

Lemma owner_deciding_turn i a :
  inv a -> stage a = Deciding -> committed_in_flight a = false -> turn a (on_owner_deciding i a).
Proof.
  intros Hi Hs Hf. assert (Hd : stage a <> Done) by congruence.
  assert (R : forall c r, turn a (reject c r a)) by (intros; apply same_turn; [apply same_reject|done|done]).
  destruct i as [[[rid|rid x g]|c rid|]|]; cbn [on_owner_deciding]; auto;
    try (apply cancel_turn; done).
  eapply turn_trans; [|apply (R MalformedCommand None)|]; [done|].
  apply cancel_turn; try done. apply R.
Qed.

Lemma on_transfer_turn rid x g a :
  inv a -> stage a <> Done -> stage a <> Deciding -> turn a (on_transfer rid x g a).
Proof.
  intros Hi Hd Hdec. destruct (inv_live _ Hi Hd) as (Hl & Hst & Hrs). unfold on_transfer.
  assert (R : forall c, turn a (reject c (Some rid) a)) by (intros; apply same_turn; [apply same_reject|done|done]).
  unfold is_transferred. case_bool_decide as Ht; [apply R|].
  destruct (is_some (deferred_transfer a) || _) eqn:Ep; [apply R|]. bprop.
  destruct (retiring a) eqn:Hr; [apply R|]. cbn [orb].
  case_bool_decide as Hph; [|apply R]. destruct (is_some (child a)); [|apply R]. cbn [andb negb].
  destruct (negb _); [apply R|].
  unfold staged, retiring_says in *. rewrite Hr in Hrs.
  case_bool_decide as Hs.
  - rewrite Hs in Hst.
    assert (Hb : inv (a <| deferred_transfer := Some rid |>)).
    { split; [exact (inv_io _ Hi)| |exact (inv_shut_done _ Hi)|exact (inv_released _ Hi)].
      intros _. split; [destruct Hl; split; done|]. unfold staged, retiring_says. cbn. rewrite Hs, Hr. done. }
    split; try done; auto.
  - destruct (stage a) eqn:Es; try done; [destruct Hst as (_ & ? & _); done|].
    destruct Hst as (_ & _ & [[HL [Hpn|Hpn]]|[? _]]); [|congruence|done].
    apply start_transfer_turn; done.
Qed.

Lemma owner_turn i a :
  inv a -> stage a <> Done -> (stage a = Deciding -> committed_in_flight a = false) ->
  turn a (on_owner i a).
Proof.
  intros Hi Hd Hf. unfold on_owner. case_bool_decide as Hs; [apply owner_deciding_turn; auto|].
  assert (R : forall c r, turn a (reject c r a)) by (intros; apply same_turn; [apply same_reject|done|done]).
  pose proof (fun c r => retire_turn c r a Hi Hd Hs) as T.
  destruct i as [[[rid|rid x g]|c rid|]|].
  - repeat case_match; auto.
  - apply on_transfer_turn; done.
  - auto.
  - destruct (_ && _); [|apply R]. eapply turn_trans; [|apply (R MalformedCommand None)|]; [done|].
    apply retire_turn; [apply (R MalformedCommand None)|done|done].
  - destruct (_ && _); [apply T|apply turn_refl; done].
Qed.

Lemma sync_turn a : inv a -> stage a <> Done -> pending a = None -> turn a (begin_sync a).
Proof.
  intros Hi Hd Hp. destruct (inv_live _ Hi Hd) as (Hl & Hst & Hrs).
  assert (Hb : inv (a <| syncing := true |>)).
  { split; [exact (inv_io _ Hi)| |exact (inv_shut_done _ Hi)|exact (inv_released _ Hi)].
    intros _. split; [destruct Hl; split; done|]. split; [|exact Hrs]. unfold staged in *. cbn.
    destruct (stage a); tauto. }
  eapply (turn_trans a (a <| syncing := true |>)); [done| |apply same_turn; [apply same_emit; done|done|done]].
  split; try done; auto.
Qed.

Lemma released_turn name a : inv a -> stage a <> Done -> turn a (on_released name a).
Proof.
  intros Hi Hd. unfold on_released. pose proof (turn_refl a Hi Hd) as R.
  pose proof (taken_turn a Hi Hd) as T. pose proof (t_inv _ _ T) as Hit.
  destruct (pending a) as [p|] eqn:Hp; [|done]. pose proof (parked_stage a p Hi Hd Hp) as Hps.
  destruct p; repeat case_match; try done; (eapply turn_trans; [|exact T|]; [done|]).
  - apply sync_turn; done.
  - apply commit_transfer_turn; tauto || done.
  - apply release_transfer_turn; tauto || done.
  - apply finish_transfer_turn; tauto || done.
Qed.

(** Events that are not the worker's nor the end of the sync. *)
Lemma outside_turn e a :
  inv a -> stage a <> Done -> (stage a = Deciding -> committed_in_flight a = false) ->
  from_worker e = false -> e <> Synced -> turn a (on_event e a).
Proof.
  intros Hi Hd Hf He Hs. destruct e; try done; cbn [on_event].
  - apply owner_turn; done.
  - case_bool_decide as HL; [|apply turn_refl; done].
    apply retire_turn; [done|done|eapply launched_stage; eauto].
  - destruct (state (record a)) eqn:E; try (apply turn_refl; done).
    + case_bool_decide; [|apply turn_refl; done]. apply cancel_turn; auto.
    + apply retire_turn; [done|done|eapply launched_stage; eauto].
    + apply same_turn; [apply same_emit; done|done|done].
  - apply released_turn; done.
Qed.

(** *** The decision to launch *)

Lemma check_launched a d i :
  live a -> state (record a) = Pending -> phase (record a) = DaemonGated ->
  retirement (record a) = None -> cause d = Launch ->
  let next := (((record a) <| state := Launched |>) <| decision := Some d |>) <| incarnation := Some i |> in
  check next = Ok tt /\ wf_record next /\ ended next = false.
Proof.
  intros Hl Hs Hp Hr Hd next. pose proof (role_is_none _ (l_writer _ Hl)) as Hn.
  pose proof (l_writer _ Hl) as Hw. unfold role_is in Hw. apply bool_decide_eq_true in Hw.
  destruct (check_facts _ (l_check _ Hl)) as [Hso Hid]. unfold state_ok in Hso. rewrite Hs in Hso.
  split; [|split].
  - assert (E : state_ok next = true).
    { unfold state_ok, next, role_is, is_terminal in *. cbn. rewrite Hr, Hp, Hd, Hw. bands; done. }
    unfold check. rewrite E. unfold next, is_requested, is_terminal, role_is in *. cbn.
    rewrite <- Hid, eqb_reflx, Hw, Hr. done.
  - apply (l_wf _ Hl).
  - unfold ended, is_terminal, is_state, next. cbn. rewrite Hr. done.
Qed.

(** A new job for the worker, with its ticket issued. *)
Record hired (a b : Actor) (k : TicketKind) (c : WorkerCmd) : Prop := mkHired {
  h_inv : inv b;
  h_stage : stage b = Starting;
  h_tickets : tickets b = tickets a ++ [mkTicket (Z.of_nat (length (tickets a)) + 1) k Issued];
  h_commands : commands b = commands a ++ [c];
  h_reply : reply b = reply a
}.

(** The invariant sees neither tickets, commands, the reply, the child nor what is
    published. *)
Lemma inv_update a b :
  store b = store a -> digest b = digest a -> locked b = locked a -> record b = record a ->
  stage b = stage a -> retiring b = retiring a -> pending b = pending a ->
  deferred_transfer b = deferred_transfer a -> syncing b = syncing a -> log b = log a ->
  inv a -> inv b.
Proof.
  intros E1 E2 E3 E4 E5 E6 E7 E8 E9 E10 [Hio Hl Hs Hr]. unfold disk_is, on_disk in *.
  split; rewrite ?E10, ?E5; unfold disk_is, on_disk; rewrite ?E1, ?E2; auto.
  intros Hd. destruct (Hl Hd) as ([] & Hst & Hre). unfold on_disk in *. split; [|split].
  - split; unfold on_disk; rewrite ?E1, ?E2, ?E3, ?E4; done.
  - unfold staged. rewrite E5, E4, E6, E7, E8, E9. exact Hst.
  - unfold retiring_says. rewrite E6, E4, E7, E8. exact Hre.
Qed.

Lemma decide_launch_ok pred a :
  inv a -> stage a = Deciding -> pending a = None ->
  turn a (decide_launch pred a) \/
  exists g t, hired a (decide_launch pred a) KPublish (Publish (Z.of_nat (length (tickets a)) + 1) g t pred).
Proof.
  intros Hi Hs Hpn. assert (Hd : stage a <> Done) by congruence. unfold decide_launch.
  set (g := new_generation (ticks a)). set (t0 := now (ticks a)). cbn [issue].
  set (n := Z.of_nat (length (tickets (tick a))) + 1).
  set (b := (tick a) <| tickets ::= _ |>).
  destruct (inv_live _ Hi Hd) as (Hl & Hst & Hrs). unfold staged in Hst. rewrite Hs in Hst.
  destruct Hst as (HP & Hr & Hre & Hdf & _ & Hph & _).
  assert (Hib : inv b).
  { split; [exact (inv_io _ Hi)| |exact (inv_shut_done _ Hi)|exact (inv_released _ Hi)].
    intros _. split; [destruct Hl; split; done|exact (proj2 (inv_live _ Hi Hd))]. }
  destruct (inv_live _ Hib Hd) as (Hlb & _).
  set (d := decision_now b Launch None pred).
  set (i := mkIncarnation _ _ _ _ _).
  destruct (check_launched b d i Hlb HP Hph Hr eq_refl) as (Hck & Hwf & He).
  set (next := (((record b) <| state := Launched |>) <| decision := Some d |>) <| incarnation := Some i |>) in *.
  destruct (write_spec next b Hlb Hck) as [(st & Hw & ->)|(st & Hw & ->)].
  2:{ left. apply (abandon_turn a b _ st next Hib Hd eq_refl Hw); [|congruence|exact Hck|apply same_refl].
      left. unfold is_state. pose proof (HP : state (record b) = Pending) as ->. done. }
  right. exists g, t0. set (q := stamped _ _ _) in *.
  pose proof (written_live b next st Hlb Hck Hwf (l_writer _ Hlb) Hw) as Hlw.
  set (c := ((written q st b) <| a_generation := g |>) <| stage := Starting |>).
  assert (Hic : inv c).
  { split; [exact (inv_io _ Hi)| | |].
    - intros _. split; [destruct Hlw; split; done|]. split.
      + unfold staged. cbn. rewrite Hph, Hdf, Hpn. done.
      + unfold retiring_says. cbn. rewrite Hre. done.
    - cbn. rewrite (not_shut a Hi Hd). done.
    - cbn. rewrite (not_released a Hi Hd); [done|congruence]. }
  pose proof (same_frame "decision" (XDecision (decision (record c))) c) as S.
  pose proof (same_inv _ _ S Hic) as Hie. split; try done.
  eapply inv_update; [..|exact Hie]; done.
Qed.

Lemma decide_ok a :
  inv a -> stage a = Deciding -> pending a = None -> committed_in_flight a = false ->
  turn a (decide a) \/
  exists c, hired a (decide a) KPublish c /\ exists g t p, c = Publish (Z.of_nat (length (tickets a)) + 1) g t p.
Proof.
  intros Hi Hs Hpn Hf. assert (Hd : stage a <> Done) by congruence. unfold decide.
  pose proof (tick_turn a Hi Hd) as T. pose proof (t_inv _ _ T) as Hit.
  assert (Hcan : forall c r o, c <> Launch -> turn a (cancel_before_launch c r o (tick a))).
  { intros. eapply turn_trans; [|exact T|]; [done|]. apply cancel_turn; done. }
  destruct (holds_creation_lock _); [|left; apply Hcan; done]. cbn [negb].
  destruct (occupancy_rule _ _) as [pred|[c obs]] eqn:Eo.
  - destruct (decide_launch_ok pred (tick a) Hit Hs Hpn) as [H|(g & t & H)].
    + left. eapply turn_trans; [|exact T|exact H]. done.
    + right. eexists. split; [|eauto]. destruct H. split; done.
  - left. apply Hcan. unfold occupancy_rule in Eo.
    repeat (case_in Eo; try discriminate); congruence.
Qed.

(** *** The worker's events *)

Lemma set_ticket_last pre n k st st' :
  Forall (fun t => ticket_id t < n) pre ->
  set_ticket n st' (pre ++ [mkTicket n k st]) = pre ++ [mkTicket n k st'].
Proof.
  induction 1 as [|t l Ht Hl IH]; cbn.
  - rewrite Z.eqb_refl. done.
  - rewrite IH. destruct (Z.eqb_spec (ticket_id t) n); [lia|done].
Qed.

Lemma ticket_last a pre n k st :
  tickets a = pre ++ [mkTicket n k st] -> Forall (fun t => ticket_id t < n) pre ->
  ticket n a = Some (mkTicket n k st).
Proof.
  unfold ticket. intros ->. induction 1 as [|t l Ht Hl IH]; cbn.
  - rewrite Z.eqb_refl. done.
  - rewrite IH. destruct (Z.eqb_spec (ticket_id t) n); [lia|done].
Qed.

(** A record of a launched operation at another phase of its start. *)
Lemma check_phase a p pt inc :
  live a -> state (record a) = Launched -> retirement (record a) = None ->
  p = ChildForking \/ p = ChildPreparing \/ p = Held -> is_some inc = is_some (incarnation (record a)) ->
  let next := (((record a) <| phase := p |>) <| participants := pt |>) <| incarnation := inc |> in
  check next = Ok tt /\ wf_record next /\ ended next = false.
Proof.
  intros Hl Hs Hr Hp Hinc next. pose proof (role_is_none _ (l_writer _ Hl)) as Hn.
  pose proof (l_writer _ Hl) as Hw. unfold role_is in Hw. apply bool_decide_eq_true in Hw.
  destruct (check_facts _ (l_check _ Hl)) as [Hso Hid]. unfold state_ok in Hso. rewrite Hs in Hso.
  split; [|split].
  - assert (E : state_ok next = true).
    { unfold state_ok, next, role_is, is_terminal, phase_in in *. cbn. rewrite Hs, Hr, Hw, Hinc.
      bands; try done. destruct Hp as [->|[->| ->]]; done. }
    unfold check. rewrite E. unfold next, is_requested, is_terminal, role_is in *. cbn.
    rewrite <- Hid, eqb_reflx, Hw, Hr. done.
  - apply (l_wf _ Hl).
  - unfold ended, is_terminal, is_state, next. cbn. rewrite Hr, Hs. done.
Qed.

(** The last ticket is the worker's job; the earlier ones are completed. *)
Record job (a : Actor) (pre : list Ticket) (n : Z) (k : TicketKind) (st : TicketState) : Prop := mkJob {
  j_tickets : tickets a = pre ++ [mkTicket n k st];
  j_id : n = Z.of_nat (length pre) + 1;
  j_pre : Forall (fun t => ticket_id t < n /\ ticket_state t = TicketCompleted) pre
}.

Lemma job_ids a pre n k st : job a pre n k st -> Forall (fun t => ticket_id t < n) pre.
Proof. intros [_ _ H]. eapply Forall_impl; [exact H|]. intros t []. done. Qed.

Lemma job_in_flight a pre n k st :
  job a pre n k st -> committed_in_flight a = bool_decide (st = Committed).
Proof.
  intros [Ht _ Hp]. unfold committed_in_flight. rewrite Ht, existsb_app. cbn. rewrite orb_false_r.
  replace (existsb is_committed pre) with false; [done|]. symmetry.
  apply not_true_iff_false. intros (t & Hin & Hc)%existsb_exists.
  rewrite Forall_forall in Hp. apply list_elem_of_In in Hin. destruct (Hp t Hin) as [_ E].
  unfold is_committed in Hc. rewrite E in Hc. done.
Qed.

(** The answer to a commit: granted while the ticket is issued and nothing retires. *)
Lemma commit_ok a pre n k st :
  inv a -> job a pre n k st -> st = Issued \/ st = Revoked ->
  let b := on_commit n a in
  inv b /\ stage b = stage a /\ commands b = commands a /\ retiring b = retiring a /\
  exists g, reply b = Some g /\ job b pre n k (if g : bool then Committed else Revoked).
Proof.
  intros Hi Hj Hst. pose proof (job_ids _ _ _ _ _ Hj) as Hids. destruct Hj as [Ht Hn Hp].
  unfold on_commit. rewrite (ticket_last a pre n k st Ht Hids). cbn [ticket_state ticket_kind].
  assert (Hset : forall st', set_ticket n st' (tickets a) = pre ++ [mkTicket n k st']).
  { intros st'. rewrite Ht. apply set_ticket_last, Hids. }
  destruct Hst as [-> | ->]; [rewrite bool_decide_eq_true_2 by done|rewrite bool_decide_eq_false_2 by done];
    cbn [andb]; [destruct (retiring a) eqn:Er; cbn [negb]|].
  - split; [eapply inv_update; [..|exact Hi]; done|]. repeat (split; [done|]).
    exists false. split; [done|]. split; [apply Hset|done|done].
  - destruct k; (split; [eapply inv_update; [..|exact Hi]; done|]; repeat (split; [done|]);
      exists true; split; [done|]; split; [apply Hset|done|done]).
  - split; [eapply inv_update; [..|exact Hi]; done|]. repeat (split; [done|]).
    exists false. split; [done|]. split; done.
Qed.

Lemma resume_turn a :
  inv a -> stage a <> Done -> turn a (resume_retirement a).
Proof.
  intros Hi Hd. unfold resume_retirement. destruct (retiring a) eqn:Er; [|apply turn_refl; done].
  destruct (committed_in_flight a) eqn:Ef; [apply turn_refl; done|].
  apply complete_retirement_turn; done.
Qed.

(** A write that moves a launch along its start. *)
Lemma phase_write a p pt inc :
  inv a -> stage a = Starting -> retiring a = false ->
  p = ChildForking \/ p = ChildPreparing \/ p = Held -> is_some inc = is_some (incarnation (record a)) ->
  let next := (((record a) <| phase := p |>) <| participants := pt |>) <| incarnation := inc |> in
  (exists st, write next a = (false, unwritten st a) /\ turn a (abandon (unwritten st a))) \/
  (exists q st, write next a = (true, written q st a) /\ live (written q st a) /\
     state q = Launched /\ phase q = p /\ retirement q = None).
Proof.
  intros Hi Hs Hr Hp Hinc next. assert (Hd : stage a <> Done) by congruence.
  destruct (inv_live _ Hi Hd) as (Hl & Hst & Hrs). unfold staged, retiring_says in *.
  rewrite Hs in Hst. rewrite Hr in Hrs. destruct Hst as (HL & Hnh & Hpn & Hdf).
  destruct (check_phase a p pt inc Hl HL Hrs Hp Hinc) as (Hck & Hwf & He).
  change (check next = Ok tt) in Hck. change (ended next = false) in He. change (wf_record next) in Hwf.
  destruct (write_spec next a Hl Hck) as [(st & Hw & E)|(st & Hw & E)].
  - right. do 2 eexists. split; [exact E|].
    split; [exact (written_live a next st Hl Hck Hwf (l_writer _ Hl) Hw)|done].
  - left. exists st. split; [exact E|].
    apply (abandon_turn a a _ st next Hi Hd eq_refl Hw); [left; done|congruence|exact Hck|apply same_refl].
Qed.

(** Still starting, with the record written. *)
Lemma starting_inv a q st :
  inv a -> stage a = Starting -> retiring a = false -> live (written q st a) ->
  state q = Launched -> phase q <> Held -> retirement q = None -> inv (written q st a).
Proof.
  intros Hi Hs Hr Hl HL Hp Hret. assert (Hd : stage a <> Done) by congruence.
  destruct (inv_live _ Hi Hd) as (_ & Hst & _). unfold staged in Hst. rewrite Hs in Hst.
  destruct Hst as (HLa & _ & Hpn & Hdf). split.
  - exact (inv_io _ Hi).
  - intros _. split; [exact Hl|]. unfold staged, retiring_says. cbn. rewrite Hs, Hr. done.
  - cbn. rewrite (not_shut a Hi Hd). done.
  - cbn. rewrite (not_released a Hi Hd); [done|congruence].
Qed.

Definition with_completed (n : Z) (a : Actor) : Actor := a <| tickets ::= set_ticket n TicketCompleted |>.

Lemma with_completed_job a pre n k st :
  job a pre n k st -> job (with_completed n a) pre n k TicketCompleted.
Proof.
  intros Hj. pose proof (job_ids _ _ _ _ _ Hj) as Hids. destruct Hj as [Ht Hn Hp].
  split; [|done|done]. cbn. rewrite Ht. apply set_ticket_last, Hids.
Qed.

Lemma published_ok a :
  inv a -> stage a <> Done -> (retiring a = false -> stage a = Starting) ->
  turn a (on_published a) \/
  hired a (on_published a) KForkChild (ForkChild (Z.of_nat (length (tickets a)) + 1)).
Proof.
  intros Hi Hd Ho. unfold on_published. pose proof (same_emit ECreationLockReleased a eq_refl) as S.
  pose proof (same_inv _ _ S Hi) as Hie. set (e := emit ECreationLockReleased a) in *.
  assert (T : turn a e) by (apply same_turn; done).
  change (retiring e) with (retiring a). destruct (retiring a) eqn:Er.
  - left. apply (turn_trans a e _ Hd T), resume_turn; done.
  - specialize (Ho eq_refl). cbn [issue]. set (b := e <| tickets ::= _ |>).
    assert (Hib : inv b) by (eapply inv_update; [..|exact Hie]; done).
    assert (Hinc : is_some (incarnation (record b)) = is_some (incarnation (record b))) by done.
    pose proof (phase_write b ChildForking (participants (record b)) (incarnation (record b))
      Hib Ho Er ltac:(auto) Hinc) as H. cbn zeta in H.
    replace ((((record b) <| phase := ChildForking |>) <| participants := participants (record b) |>)
               <| incarnation := incarnation (record b) |>)
      with ((record b) <| phase := ChildForking |>) in H by (destruct (record b); reflexivity).
    destruct H as [(st & -> & H)|(q & st & -> & Hl & HL & Hp & Hret)].
    + left. destruct H as [Hai Har Had _ _ _ _ _].
      split; [exact Hai|exact Har| |intros Hn; exfalso; apply Hn, stop_stage..].
      intros Hs' Hf. specialize (Had Hs' Hf). unfold committed_in_flight in *. cbn in Had.
      rewrite existsb_app in Had. apply orb_false_iff in Had. tauto.
    + right. pose proof (starting_inv b q st Hib Ho Er Hl HL ltac:(congruence) Hret) as Hiw.
      unfold resume_retirement. change (retiring (send _ (written q st b))) with (retiring a).
      rewrite Er. cbn [andb]. split; try done. eapply inv_update; [..|exact Hiw]; done.
Qed.

Lemma forked_turn cpid a :
  inv a -> stage a <> Done -> stage a <> Deciding -> (retiring a = false -> stage a = Starting) ->
  turn a (on_forked cpid a).
Proof.
  intros Hi Hd Hdec Ho. unfold on_forked.
  set (b := (tick a) <| child := _ |>).
  assert (Hib : inv b) by (eapply inv_update; [..|exact Hi]; done).
  assert (T : turn a b) by (split; try done; auto).
  apply (turn_trans a b _ Hd T). change (retiring b) with (retiring a).
  destruct (retiring a) eqn:Er; [apply resume_turn; done|]. specialize (Ho eq_refl).
  destruct (identity_of _ _) as [id|]; [|apply retire_turn; done].
  pose proof (phase_write b ChildPreparing ((participants (record b)) <| p_child := Some id |>)
    (fmap (fun i => i <| inc_child := Some id |>) (incarnation (record b)))
    Hib Ho Er ltac:(auto) ltac:(destruct (incarnation (record b)); done)) as H. cbn zeta in H.
  change ((((record b) <| phase := ChildPreparing |>) <| participants := _ |>) <| incarnation := _ |>)
    with ((((record b) <| phase := ChildPreparing |>) <| participants ::= fun p => p <| p_child := Some id |> |>)
            <| incarnation ::= fmap (fun i => i <| inc_child := Some id |>) |>) in H.
  destruct H as [(st & E & H)|(q & st & E & Hl & HL & Hp & Hret)]; rewrite E; [exact H|].
  pose proof (starting_inv b q st Hib Ho Er Hl HL ltac:(congruence) Hret) as Hiw.
  assert (Tw : turn b (written q st b)).
  { split; try done; auto. }
  apply (turn_trans b (written q st b) _ Hd Tw), resume_turn; done.
Qed.

Lemma completed_ok a pre n k st r :
  inv a -> stage a <> Done -> stage a <> Deciding -> (retiring a = false -> stage a = Starting) ->
  job a pre n k st ->
  turn (with_completed n a) (on_completed n r a) \/
  k = KPublish /\ hired (with_completed n a) (on_completed n r a) KForkChild (ForkChild (n + 1)).
Proof.
  intros Hi Hd Hdec Ho Hj. pose proof (with_completed_job _ _ _ _ _ Hj) as Hj1.
  unfold on_completed. rewrite (ticket_last a pre n k st (j_tickets _ _ _ _ _ Hj) (job_ids _ _ _ _ _ Hj)).
  cbn [ticket_kind]. fold (with_completed n a). set (b := with_completed n a) in *.
  assert (Hib : inv b) by (eapply inv_update; [..|exact Hi]; done).
  assert (Hlen : Z.of_nat (length (tickets b)) = n).
  { rewrite (j_tickets _ _ _ _ _ Hj1), length_app, (j_id _ _ _ _ _ Hj). cbn. lia. }
  assert (Herr : turn b (resume_retirement (if retiring b then b
            else retire None (str "producer:startup-failed") b))).
  { destruct (retiring b) eqn:Er; [apply resume_turn; done|].
    pose proof (retire_turn None (str "producer:startup-failed") b Hib Hd Hdec) as T.
    set (c := retire _ _ b) in *. clearbody c.
    destruct (base.decide (stage c = Done)) as [E|E].
    - unfold resume_retirement, complete_retirement. rewrite E.
      rewrite (bool_decide_eq_true_2 (Done = Done)) by done. rewrite orb_true_r.
      destruct (_ && _); exact T.
    - apply (turn_trans _ _ _ E T), resume_turn; [apply T|done]. }
  destruct k, r as [[|cpid]|m]; try (left; exact Herr).
  - destruct (published_ok b Hib Hd Ho) as [T|H]; [left; exact T|right]. rewrite Hlen in H. done.
  - destruct (published_ok b Hib Hd Ho) as [T|H]; [left; exact T|right]. rewrite Hlen in H. done.
  - left. apply resume_turn; done.
  - left. apply forked_turn; done.
Qed.

(** The held child is prepared: the worker is told to ask for readiness. *)
Lemma ack_ok k a :
  inv a -> stage a <> Done -> stage a <> Deciding ->
  turn a (on_ack k a) \/
  let b := on_ack k a in
  inv b /\ stage b = HeldStage /\ tickets b = tickets a /\ commands b = commands a ++ [GoReady] /\
  reply b = reply a.
Proof.
  intros Hi Hd Hdec. unfold on_ack.
  destruct (retiring a) eqn:Er; [left; apply turn_refl; done|]. cbn [orb].
  case_bool_decide as Hs; [|left; apply turn_refl; done]. cbn [negb].
  destruct k; try (left; apply retire_turn; done).
  pose proof (phase_write a Held (participants (record a)) (incarnation (record a)) Hi Hs Er
    ltac:(auto) eq_refl) as H. cbn zeta in H.
  replace ((((record a) <| phase := Held |>) <| participants := participants (record a) |>)
             <| incarnation := incarnation (record a) |>)
    with ((record a) <| phase := Held |>) in H by (destruct (record a); reflexivity).
  destruct H as [(st & -> & H)|(q & st & -> & Hl & HL & Hp & Hret)]; [left; exact H|right].
  destruct (inv_live _ Hi Hd) as (_ & Hst & _). unfold staged in Hst. rewrite Hs in Hst.
  destruct Hst as (HLa & _ & Hpn & Hdf).
  set (b := (written q st a) <| stage := HeldStage |>).
  assert (Hib : inv b).
  { split.
    - exact (inv_io _ Hi).
    - intros _. split; [destruct Hl; split; done|]. unfold staged, retiring_says. cbn. rewrite Er. done.
    - cbn. rewrite (not_shut a Hi Hd). done.
    - cbn. rewrite (not_released a Hi Hd); [done|congruence]. }
  pose proof (same_inv _ _ (same_frame "held" NoExtra b) Hib) as Hif.
  cbn zeta. split; [|done]. eapply inv_update; [..|exact Hif]; done.
Qed.

Lemma no_deferred a : deferred_transfer a = None -> a <| deferred_transfer := None |> = a.
Proof. destruct a. cbn. intros ->. reflexivity. Qed.

(** Ready to serve, or not. *)
Lemma ready_ok a :
  inv a -> stage a <> Done -> stage a <> Deciding ->
  exists c g, reply c = Some g /\ stage c <> Done /\ stage c <> Deciding /\ tickets c = tickets a /\
    commands c = commands a /\ turn c (on_ready_point a).
Proof.
  intros Hi Hd Hdec. unfold on_ready_point.
  destruct (bool_decide (stage a = HeldStage) && negb (retiring a)) eqn:E.
  2:{ exists (a <| reply := Some false |>), false. repeat (split; [done|]).
      apply turn_refl; [|done]. eapply inv_update; [..|exact Hi]; done. }
  bprop. apply bool_decide_eq_true in H.
  destruct (inv_live _ Hi Hd) as (Hl & Hst & Hrs). unfold staged, retiring_says in *.
  rewrite H in Hst. rewrite H0 in Hrs. destruct Hst as (HL & Hp & Hpn).
  set (b := frame "ready" NoExtra ((a <| stage := Ready |>) <| serving := true |>)).
  set (c := b <| reply := Some true |>).
  assert (Hic : inv (c <| deferred_transfer := None |>)).
  { split.
    - pose proof (inv_io _ Hi) as Hio. cbn. rewrite forallb_app. cbn. rewrite Hio. done.
    - intros _. split; [destruct Hl; split; done|]. unfold staged, retiring_says. cbn. rewrite H0.
      repeat split; auto.
    - cbn. rewrite existsb_app. cbn. rewrite (not_shut a Hi Hd). done.
    - cbn. rewrite existsb_app. cbn. rewrite (not_released a Hi Hd); [done|congruence]. }
  exists (c <| deferred_transfer := None |>), true. repeat (split; [done|]).
  destruct (deferred_transfer c) as [rid|] eqn:Ed.
  - apply start_transfer_turn; done.
  - pose proof (no_deferred c Ed) as E. rewrite E in Hic |- *. apply turn_refl; done.
Qed.
End Invariant.
