(* ===== verification/LaunchSystem.v ===== *)
(** The launch operation's producer as a whole: the actor and its worker
    interleaved.  One piece of work is in the system at a time; an operation that
    is over has no effect running; the held child is released only under a durable
    transfer; no write is refused but by the disk. *)
From S2P Require Import Prelude Json Metadata ProcTable Operation Settle Frames Actor Producer.

Section System.
Context {EI : ActorEnv}.

(** ** The actor and the worker together *)

Definition ask_pc (n : Z) (k : TicketKind) : Pc :=
  match k with KPublish => WPublishCommit n | KForkChild => WForkCommit n end.
Definition run_pc (n : Z) (k : TicketKind) : Pc :=
  match k with KPublish => WPublishing n | KForkChild => WForking n end.
Definition cmd_for (n : Z) (k : TicketKind) (c : WorkerCmd) : Prop :=
  match k with
  | KPublish => exists g t p, c = Publish n g t p
  | KForkChild => c = ForkChild n
  end.

(** The worker's job is open: only while the launch starts, or while it retires. *)
Definition open_job (a : Actor) (n : Z) (k : TicketKind) (st : TicketState) : Prop :=
  (exists pre, job a pre n k st) /\ (retiring a = false -> stage a = Starting) /\ stage a <> Deciding.
Definition no_job (a : Actor) : Prop := committed_in_flight a = false /\ stage a <> Deciding.

(** Where the one piece of work in the system is: a command, a question in the
    inbox, its answer, the effect, its report, the child's word, the ready point.
    The list is the worker's events in the inbox. *)
Inductive flow (a : Actor) : list ActorEvent -> Pc -> Prop :=
  | fl_decide :
      tickets a = [] -> stage a = Deciding -> commands a = [] -> reply a = None -> flow a [] WIdle
  | fl_cmd n k st c :
      open_job a n k st -> st = Issued \/ st = Revoked -> cmd_for n k c ->
      commands a = [c] -> reply a = None -> flow a [] WIdle
  | fl_ask n k st :
      open_job a n k st -> st = Issued \/ st = Revoked ->
      commands a = [] -> reply a = None -> flow a [Commit n] (ask_pc n k)
  | fl_answer n k (g : bool) :
      open_job a n k (if g then Committed else Revoked) ->
      commands a = [] -> reply a = Some g -> flow a [] (ask_pc n k)
  | fl_run n k :
      open_job a n k Committed -> commands a = [] -> reply a = None -> flow a [] (run_pc n k)
  | fl_report n k st r :
      open_job a n k st -> k = KPublish \/ (exists m, r = Err m) ->
      commands a = [] -> reply a = None -> flow a [Completed n r] WIdle
  | fl_forked n c :
      open_job a n KForkChild Committed -> commands a = [] -> reply a = None ->
      flow a [Completed n (Ok (Forked c))] WAck
  | fl_forked_ack n c k :
      open_job a n KForkChild Committed -> commands a = [] -> reply a = None ->
      flow a [Completed n (Ok (Forked c)); ChildAck k] WIdle
  | fl_ack_wait : no_job a -> commands a = [] -> reply a = None -> flow a [] WAck
  | fl_ack k : no_job a -> commands a = [] -> reply a = None -> flow a [ChildAck k] WIdle
  | fl_ready_cmd : no_job a -> commands a = [GoReady] -> reply a = None -> flow a [] WIdle
  | fl_ready_ask : no_job a -> commands a = [] -> reply a = None -> flow a [ReadyPoint] WReady
  | fl_ready_answer g : no_job a -> commands a = [] -> reply a = Some g -> flow a [] WReady
  | fl_rest p :
      no_job a -> commands a = [] -> reply a = None ->
      p = WIdle \/ p = WServing \/ (exists c, p = WExited c) -> flow a [] p.

Definition in_effect (p : Pc) : Prop := exists t, p = WPublishing t \/ p = WForking t.
Definition granted (a : Actor) (p : Pc) : Prop := exists t, asks_commit p t /\ reply a = Some true.

Lemma flow_safe a l p :
  flow a l p -> committed_in_flight a = false -> ~ in_effect p /\ ~ granted a p.
Proof.
  intros Hf Hc. unfold in_effect, granted, asks_commit.
  assert (Hno : forall n k, open_job a n k Committed -> False).
  { intros n k [[pre Hj] _]. rewrite (job_in_flight _ _ _ _ _ Hj) in Hc.
    rewrite bool_decide_eq_true_2 in Hc; done. }
  destruct Hf; try (split; intros (t & Ht); intuition congruence).
  - split; intros (t & Ht); destruct k; cbn in *; intuition congruence.
  - split; intros (t & Ht); [destruct k; cbn in *; intuition congruence|].
    destruct Ht as [_ Ht]. rewrite H1 in Ht. injection Ht as ->. eauto.
  - exfalso. eauto.
  - destruct H2 as [->|[->|[c ->]]]; split; intros (t & Ht); intuition congruence.
Qed.

Lemma flow_reply a l p :
  flow a l p -> reply a <> None -> (exists t, asks_commit p t) \/ p = WReady.
Proof.
  intros Hf Hr. unfold asks_commit. destruct Hf; try done; [|auto].
  left. exists n. destruct k; auto.
Qed.

Lemma job_revoked a b pre n k st :
  job a pre n k st -> tickets b = map revoke (tickets a) ->
  job b pre n k (match st with Issued => Revoked | s => s end).
Proof.
  intros [Ht Hn Hp] Hb. split; [|done|done]. rewrite Hb, Ht, map_app. cbn. f_equal.
  - clear -Hp. induction Hp as [|t l [_ Ht] _ IH]; [done|]. cbn. rewrite IH. f_equal.
    unfold revoke. rewrite Ht. done.
  - unfold revoke. cbn. destruct st; done.
Qed.

Lemma open_job_turn a b n k st :
  turn a b -> stage b <> Done -> open_job a n k st ->
  open_job b n k st \/ (st = Issued /\ open_job b n k Revoked).
Proof.
  intros T Hd ([pre Hj] & Ho & Hdec).
  assert (Hrest : (retiring b = false -> stage b = Starting) /\ stage b <> Deciding).
  { split; [|rewrite (t_deciding _ _ T Hd); done].
    intros Hr. apply (t_starting _ _ T Hd); [|done]. apply Ho.
    destruct (retiring a) eqn:E; [|done]. rewrite (t_retiring _ _ T Hd E) in Hr. done. }
  destruct (t_tickets _ _ T Hd) as [E|E].
  - left. split; [|done]. exists pre. destruct Hj. split; try done. congruence.
  - pose proof (job_revoked _ b _ _ _ _ Hj E) as Hj'.
    destruct st; [right|left..]; try split; try done; eauto.
    split; [eauto|done].
Qed.

Lemma no_job_turn a b : turn a b -> stage b <> Done -> no_job a -> no_job b.
Proof.
  intros T Hd [Hc Hdec]. split; [|rewrite (t_deciding _ _ T Hd); done].
  unfold committed_in_flight in *. destruct (t_tickets _ _ T Hd) as [-> | ->]; rewrite ?committed_revoke; done.
Qed.

Lemma turn_flow a b l p : turn a b -> stage b <> Done -> flow a l p -> flow b l p.
Proof.
  intros T Hd Hf. pose proof (t_commands _ _ T Hd) as Hc. pose proof (t_reply _ _ T) as Hr.
  pose proof (fun n k st => open_job_turn a b n k st T Hd) as Ho.
  pose proof (no_job_turn a b T Hd) as Hn.
  assert (Hcom : forall n k, open_job a n k Committed -> open_job b n k Committed).
  { intros n k H. destruct (Ho _ _ _ H) as [?|[? _]]; done. }
  destruct Hf.
  - apply fl_decide; try congruence; [|rewrite (t_deciding _ _ T Hd); done].
    destruct (t_tickets _ _ T Hd) as [E|E]; rewrite E, H; done.
  - destruct (Ho _ _ _ H) as [H'|[_ H']]; eapply (fl_cmd _ _ _ _ _ H'); eauto; congruence.
  - destruct (Ho _ _ _ H) as [H'|[_ H']]; apply (fl_ask _ _ _ _ H'); auto; congruence.
  - apply (fl_answer _ n k g); [|congruence|congruence].
    destruct g; [auto|]. destruct (Ho _ _ _ H) as [?|[? _]]; done.
  - apply fl_run; auto; congruence.
  - destruct (Ho _ _ _ H) as [H'|[_ H']]; apply (fl_report _ _ _ _ _ H'); auto; congruence.
  - apply fl_forked; auto; congruence.
  - apply fl_forked_ack; auto; congruence.
  - apply fl_ack_wait; auto; congruence.
  - apply fl_ack; auto; congruence.
  - apply fl_ready_cmd; auto; congruence.
  - apply fl_ready_ask; auto; congruence.
  - apply (fl_ready_answer _ g); auto; congruence.
  - apply fl_rest; auto; congruence.
Qed.

Definition work (i : list ActorEvent) : list ActorEvent := List.filter from_worker i.

(** The invariant of the system: while the actor runs, one piece of work is
    somewhere; once it is done, an operation that is over has no effect running and
    none that may still start. *)
Inductive sys_inv : Sys -> Prop :=
  | sys_running a i w :
      inv a -> stage a <> Done -> flow a (work i) (pc w) -> sys_inv (mkSys a i w)
  | sys_over a i w :
      inv a -> stage a = Done ->
      (reply a <> None -> (exists t, asks_commit (pc w) t) \/ pc w = WReady) ->
      (finished a -> ~ in_effect (pc w) /\ ~ granted a (pc w)) ->
      sys_inv (mkSys a i w).

Lemma turn_sys a b i w : flow a (work i) (pc w) -> turn a b -> sys_inv (mkSys b i w).
Proof.
  intros Hf T. destruct (base.decide (stage b = Done)) as [E|E].
  - apply sys_over; [apply T|done| |].
    + rewrite (t_reply _ _ T). apply (flow_reply _ _ _ Hf).
    + intros Hfin. pose proof (flow_safe _ _ _ Hf (t_done _ _ T E Hfin)) as [H1 H2].
      split; [done|]. unfold granted. rewrite (t_reply _ _ T). exact H2.
  - apply sys_running; [apply T|done|]. apply (turn_flow _ _ _ _ T E Hf).
Qed.

(** *** A turn of the actor *)

Lemma completed_closed a n k st : open_job a n k st -> no_job (with_completed n a).
Proof.
  intros ([pre Hj] & _ & Hdec). split; [|exact Hdec].
  rewrite (job_in_flight _ _ _ _ _ (with_completed_job _ _ _ _ _ Hj)). done.
Qed.

Lemma completed_sys a n k st r i w :
  inv a -> stage a <> Done -> open_job a n k st ->
  (k = KPublish -> work i = [] /\ pc w = WIdle) ->
  flow (with_completed n a) (work i) (pc w) -> commands a = [] -> reply a = None ->
  sys_inv (mkSys (on_completed n r a) i w).
Proof.
  intros Hi Hd ([pre Hj] & Ho & Hdec) Hk Hf Hc Hr.
  destruct (completed_ok a pre n k st r Hi Hd Hdec Ho Hj) as [T|[-> [H1 H2 H3 H4 H5]]].
  - exact (turn_sys _ _ _ _ Hf T).
  - destruct (Hk eq_refl) as [Hw Hp]. apply sys_running; [done|congruence|]. rewrite Hw, Hp.
    pose proof (with_completed_job _ _ _ _ _ Hj) as [Ht Hn Hpre].
    assert (El : Z.of_nat (length (tickets (with_completed n a))) = n)
      by (rewrite Ht, length_app; cbn; lia).
    rewrite El in H3. cbn [with_completed] in H4, H5.
    apply (fl_cmd _ (n + 1) KForkChild Issued (ForkChild (n + 1))); auto; [|done| |].
    + split; [|split; [done|congruence]]. exists (tickets (with_completed n a)). split; [exact H3|lia|].
      rewrite Ht. apply Forall_app. split; [|constructor; [cbn; split; [lia|done]|done]].
      eapply Forall_impl; [exact Hpre|]. cbn. intros t [? ?]. split; [lia|done].
    + rewrite H4. change (commands (with_completed n a)) with (commands a). rewrite Hc. done.
    + rewrite H5. exact Hr.
Qed.

Lemma worker_turn e a i w :
  inv a -> stage a <> Done -> flow a (e :: work i) (pc w) ->
  sys_inv (mkSys (on_event e a) i w).
Proof.
  intros Hi Hd Hf. remember (e :: work i) as l eqn:El. remember (pc w) as p eqn:Ep.
  destruct Hf; try discriminate El; injection El as <- Ew; cbn [on_event].
  - destruct H as ([pre Hj] & Ho & Hdec).
    destruct (commit_ok a pre n k st Hi Hj H0) as (Hb & Hs & Hc & Hr & g & Hg & Hjb).
    apply sys_running; [done|congruence|]. rewrite <- Ew, <- Ep. apply (fl_answer _ n k g).
    + split; [eauto|]. rewrite Hr, Hs. done.
    + congruence.
    + done.
  - eapply completed_sys; eauto. rewrite <- Ew, <- Ep.
    apply fl_rest; auto. eapply completed_closed; eauto.
  - eapply completed_sys; eauto; [done|]. rewrite <- Ew, <- Ep.
    apply fl_ack_wait; auto. eapply completed_closed; eauto.
  - eapply completed_sys; eauto; [done|]. rewrite <- Ew, <- Ep.
    apply fl_ack; auto. eapply completed_closed; eauto.
  - assert (Hr : flow a (work i) (pc w)) by (rewrite <- Ew, <- Ep; apply fl_rest; auto).
    destruct (ack_ok k a Hi Hd (proj2 H)) as [T|(Hb & Hs & Ht & Hc & Hrp)]; [exact (turn_sys _ _ _ _ Hr T)|].
    apply sys_running; [done|congruence|]. rewrite <- Ew, <- Ep. apply fl_ready_cmd.
    + destruct H as [Hn _]. unfold no_job, committed_in_flight in *. rewrite Ht, Hs. done.
    + rewrite Hc, H0. done.
    + congruence.
  - destruct (ready_ok a Hi Hd (proj2 H)) as (c & g & Hg & Hcd & Hcdec & Ht & Hc & T).
    apply (turn_sys c); [|exact T]. rewrite <- Ew, <- Ep. apply (fl_ready_answer _ g).
    + destruct H as [Hn _]. unfold no_job, committed_in_flight in *. rewrite Ht. done.
    + congruence.
    + done.
Qed.

(** *** A turn on an outside event *)

Lemma flow_deciding a l p :
  flow a l p -> stage a = Deciding ->
  tickets a = [] /\ l = [] /\ p = WIdle /\ commands a = [] /\ reply a = None.
Proof.
  intros Hf Hs. destruct Hf; try done;
    try (destruct H as (_ & _ & ?); congruence); destruct H as [_ ?]; congruence.
Qed.

Lemma synced_sys a i w :
  inv a -> stage a <> Done -> flow a (work i) (pc w) -> sys_inv (mkSys (on_event Synced a) i w).
Proof.
  intros Hi Hd Hf. cbn [on_event]. destruct (bool_decide _ && _) eqn:E; [|apply sys_running; done].
  bprop. apply bool_decide_eq_true in H.
  destruct (flow_deciding _ _ _ Hf H) as (Ht & Hl & Hp & Hc & Hr).
  destruct (inv_live _ Hi Hd) as (Hli & Hst & Hrs). pose proof Hst as Hst0. unfold staged in Hst0.
  rewrite H in Hst0. destruct Hst0 as (_ & _ & _ & _ & _ & _ & Hpn). specialize (Hpn H0).
  set (b := a <| syncing := false |>).
  assert (Hib : inv b).
  { split; [exact (inv_io _ Hi)| |exact (inv_shut_done _ Hi)|exact (inv_released _ Hi)].
    intros _. split; [destruct Hli; split; done|]. split; [|exact Hrs].
    unfold staged in *. cbn. rewrite H in *. tauto. }
  assert (T : turn a b) by (split; try done; auto).
  destruct (decide_ok b Hib H Hpn) as [Tb|(c & [H1 H2 H3 H4 H5] & g & t & pr & Hcmd)].
  - unfold committed_in_flight. cbn. rewrite Ht. done.
  - exact (turn_sys a _ i w Hf (turn_trans a b _ Hd T Tb)).
  - apply sys_running; [done|congruence|]. rewrite Hl, Hp.
    assert (Et : tickets b = []) by exact Ht. assert (Ec : commands b = []) by exact Hc.
    rewrite Et in H3, Hcmd. rewrite Ec in H4. cbn in H3, H4, Hcmd.
    apply (fl_cmd _ 1 KPublish Issued c); auto; [|subst c; cbn; eauto|].
    + split; [|split; [done|congruence]]. exists []. split; [exact H3|done|constructor].
    + rewrite H5. exact Hr.
Qed.

Lemma actor_sys e a i w :
  inv a -> stage a <> Done -> flow a (work (e :: i)) (pc w) -> sys_inv (mkSys (on_event e a) i w).
Proof.
  intros Hi Hd Hf. unfold work in Hf. cbn [List.filter] in Hf. destruct (from_worker e) eqn:Ee.
  - apply worker_turn; done.
  - destruct (match e with Synced => true | _ => false end) eqn:Es.
    + destruct e; try discriminate. apply synced_sys; done.
    + apply (turn_sys a _ i w Hf). apply outside_turn; try done; [|intros ->; done].
      intros Hs. destruct (flow_deciding _ _ _ Hf Hs) as (Ht & _). unfold committed_in_flight. rewrite Ht. done.
Qed.

(** *** The worker's steps *)

Lemma flow_pop a l c cs :
  flow a l WIdle -> commands a = c :: cs ->
  cs = [] /\ l = [] /\ reply a = None /\
  ((exists n k st, open_job a n k st /\ (st = Issued \/ st = Revoked) /\ cmd_for n k c) \/
   (c = GoReady /\ no_job a)).
Proof.
  intros Hf Hc. remember WIdle as p eqn:Ep.
  destruct Hf; try congruence; try (destruct k; discriminate Ep).
  - assert (c0 = c /\ cs = []) as [-> ->] by (split; congruence).
    do 3 (split; [done|]). left. exists n, k, st. done.
  - assert (GoReady = c /\ cs = []) as [<- ->] by (split; congruence).
    do 3 (split; [done|]). right. done.
Qed.

Lemma flow_answered a l p t b :
  flow a l p -> asks_commit p t -> reply a = Some b ->
  exists k, p = ask_pc t k /\ l = [] /\ commands a = [] /\ open_job a t k (if b then Committed else Revoked).
Proof.
  intros Hf Ha Hr. unfold asks_commit in Ha. destruct Hf; try congruence; try (intuition congruence).
  - exists k. assert (g = b) as -> by congruence.
    assert (n = t) as -> by (destruct k; cbn in Ha; intuition congruence). done.
Qed.

Lemma flow_running a l n k :
  flow a l (run_pc n k) -> l = [] /\ open_job a n k Committed /\ commands a = [] /\ reply a = None.
Proof.
  intros Hf. remember (run_pc n k) as p eqn:Ep.
  destruct Hf; try (destruct k; discriminate Ep); try (destruct k, k0; discriminate Ep).
  - assert (n0 = n /\ k0 = k) as [-> ->] by (destruct k, k0; cbn in Ep; split; congruence). done.
  - destruct H2 as [->|[->|[? ->]]]; destruct k; discriminate Ep.
Qed.

Lemma flow_ack_pc a l :
  flow a l WAck -> (exists n c, l = [Completed n (Ok (Forked c))] /\ open_job a n KForkChild Committed) \/
                   (l = [] /\ no_job a).
Proof.
  intros Hf. remember WAck as p eqn:Ep. destruct Hf; try discriminate Ep; try (destruct k; discriminate Ep); eauto.
Qed.
Lemma flow_ack_quiet a l : flow a l WAck -> commands a = [] /\ reply a = None.
Proof.
  intros Hf. remember WAck as p eqn:Ep. destruct Hf; try discriminate Ep; try (destruct k; discriminate Ep); auto.
Qed.

Lemma flow_ready_pc a l g :
  flow a l WReady -> reply a = Some g -> l = [] /\ no_job a /\ commands a = [].
Proof.
  intros Hf Hr. remember WReady as p eqn:Ep. destruct Hf; try congruence; try (destruct k; discriminate Ep); auto.
Qed.

Lemma work_app i e : work (i ++ [e]) = work i ++ (if from_worker e then [e] else []).
Proof. unfold work. rewrite List.filter_app. done. Qed.

(** What only the commands, the reply and the log do not change. *)
Lemma open_job_same a b n k st :
  tickets b = tickets a -> retiring b = retiring a -> stage b = stage a ->
  open_job a n k st -> open_job b n k st.
Proof.
  intros Ht Hr Hs ([pre [H1 H2 H3]] & Ho & Hd). split; [|rewrite Hr, Hs; done].
  exists pre. split; [congruence|done|done].
Qed.
Lemma no_job_same a b : tickets b = tickets a -> stage b = stage a -> no_job a -> no_job b.
Proof. unfold no_job, committed_in_flight. intros -> ->. done. Qed.

(** The worker pops a command, or takes an answer. *)
Definition taken (cs : list WorkerCmd) (r : option bool) (a : Actor) : Actor :=
  (a <| commands := cs |>) <| reply := r |>.
Lemma taken_inv cs r a : inv a -> inv (taken cs r a).
Proof. intros H. eapply inv_update; [..|exact H]; done. Qed.
Lemma popped a cs : a <| commands := cs |> = taken cs (reply a) a.
Proof. destruct a. reflexivity. Qed.
Lemma answered a : a <| reply := None |> = taken (commands a) None a.
Proof. destruct a. reflexivity. Qed.
Lemma untouched a : a = taken (commands a) (reply a) a.
Proof. destruct a. reflexivity. Qed.

Lemma taken_running cs r a i w l p :
  inv a -> stage a <> Done -> work i = l -> pc w = p -> flow (taken cs r a) l p ->
  sys_inv (mkSys (taken cs r a) i w).
Proof. intros Hi Hd <- <- Hf. apply sys_running; [apply taken_inv, Hi|exact Hd|exact Hf]. Qed.

(** Once the actor is done the worker may only wind down. *)
Lemma taken_over cs r a i w :
  inv a -> stage a = Done ->
  (r <> None -> (exists t, asks_commit (pc w) t) \/ pc w = WReady) ->
  (finished a -> ~ in_effect (pc w) /\ ~ (exists t, asks_commit (pc w) t /\ r = Some true)) ->
  sys_inv (mkSys (taken cs r a) i w).
Proof. intros Hi Hd Hr Hf. apply sys_over; [apply taken_inv, Hi|exact Hd|exact Hr|exact Hf]. Qed.

Lemma sys_cases a i w :
  sys_inv (mkSys a i w) ->
  inv a /\ (stage a <> Done /\ flow a (work i) (pc w) \/
    stage a = Done /\ (reply a <> None -> (exists t, asks_commit (pc w) t) \/ pc w = WReady) /\
    (finished a -> ~ in_effect (pc w) /\ ~ granted a (pc w))).
Proof. intros H. inversion H; subst; auto. Qed.

Lemma idle_silent a i w :
  sys_inv (mkSys a i w) -> pc w = WIdle -> reply a = None.
Proof.
  intros (_ & [(_ & Hf)|(_ & Hr & _)])%sys_cases Hp; rewrite Hp in *.
  - destruct (reply a) eqn:E; [|done]. destruct (flow_reply _ _ _ Hf) as [[t [?|?]]|?]; congruence.
  - destruct (reply a) eqn:E; [|done]. destruct Hr as [[t [?|?]]|?]; congruence.
Qed.

(** The worker pops a command and its loop goes on at [p], with [e] in the inbox. *)
Lemma pop_sys c cs e a i w w' :
  sys_inv (mkSys a i w) -> pc w = WIdle -> commands a = c :: cs ->
  ~ in_effect (pc w') ->
  (forall n k st, open_job a n k st -> st = Issued \/ st = Revoked -> cmd_for n k c ->
     reply a = None -> flow (taken [] None a) (if from_worker e then [e] else []) (pc w')) ->
  (c = GoReady -> no_job a -> flow (taken [] None a) (if from_worker e then [e] else []) (pc w')) ->
  sys_inv (mkSys (a <| commands := cs |>) (i ++ [e]) w').
Proof.
  intros Hs Hp Hc He H1 H2. pose proof (idle_silent _ _ _ Hs Hp) as Hr. rewrite popped, Hr.
  destruct (sys_cases _ _ _ Hs) as (Hi & [(Hd & Hf)|(Hd & _ & Hfin)]); rewrite Hp in *.
  - destruct (flow_pop _ _ _ _ Hf Hc) as (-> & Hl & _ & [(n & k & st & Ho & Hst & Hcmd)|[-> Hn]]);
      (eapply taken_running; [done|done|rewrite work_app, Hl; reflexivity|reflexivity|]); eauto.
  - apply taken_over; try done. intros _. split; [done|]. intros (t & _ & ?). done.
Qed.

(** The worker reports [e] and goes on at [p]; no command is taken. *)
Lemma report_sys e a i w w' :
  sys_inv (mkSys a i w) -> ~ in_effect (pc w') -> (forall t, ~ asks_commit (pc w') t) ->
  (forall t, ~ asks_commit (pc w) t) -> pc w <> WReady ->
  (stage a <> Done -> flow a (work i) (pc w) -> flow a (work i ++ (if from_worker e then [e] else [])) (pc w')) ->
  sys_inv (mkSys a (i ++ [e]) w').
Proof.
  intros Hs He Ha Ha0 Hw Hf. destruct (sys_cases _ _ _ Hs) as (Hi & [(Hd & Hf0)|(Hd & Hr & Hfin)]).
  - apply sys_running; [done|done|]. rewrite work_app. auto.
  - apply sys_over; [done|done| |].
    + intros Hn. destruct (Hr Hn) as [[t Ht]|Ht]; [destruct (Ha0 t Ht)|done].
    + intros _. split; [done|]. intros (t & Ht & _). exact (Ha t Ht).
Qed.

(** The worker takes an answer. *)
Lemma answer_sys b a i w w' :
  sys_inv (mkSys a i w) -> reply a = Some b ->
  (finished a -> ~ in_effect (pc w) /\ ~ granted a (pc w) -> ~ in_effect (pc w')) ->
  (flow a (work i) (pc w) -> flow (taken (commands a) None a) (work i) (pc w')) ->
  sys_inv (mkSys (a <| reply := None |>) i w').
Proof.
  intros Hs Hb He Hf. rewrite answered. destruct (sys_cases _ _ _ Hs) as (Hi & [(Hd & Hf0)|(Hd & _ & Hfin)]).
  - eapply taken_running; [done|done|reflexivity|reflexivity|auto].
  - apply taken_over; try done. intros Hfi. split; [auto|]. intros (t & _ & ?). done.
Qed.

Lemma commit_answered_sys t b a i w :
  sys_inv (mkSys a i w) -> asks_commit (pc w) t -> reply a = Some b ->
  sys_inv (mkSys (a <| reply := None |>) i
    (mkWorker (if b then commit_granted (pc w) else WIdle) (has_publication w) (has_session w))).
Proof.
  intros Hs Ha Hb. apply (answer_sys b a i w); [done|done| |]; cbn [pc].
  - intros _ [He Hg] He'. destruct b; [apply Hg; exists t; done|]. destruct He' as (u & [?|?]); done.
  - intros Hf. destruct (flow_answered _ _ _ _ _ Hf Ha Hb) as (k & Hp & Hl & Hc & Ho).
    rewrite Hl, Hp, Hc. destruct b.
    + replace (commit_granted (ask_pc t k)) with (run_pc t k) by (destruct k; done).
      apply fl_run; [|done|done]. eapply open_job_same; [..|exact Ho]; done.
    + apply fl_rest; auto. destruct Ho as ([pre Hj] & _ & Hdec). split; [|exact Hdec].
      change (committed_in_flight (taken [] None a)) with (committed_in_flight a).
      rewrite (job_in_flight _ _ _ _ _ Hj). done.
Qed.

(** The worker stops, or asks in vain: the actor is done. *)
Lemma lost_sys p a i w :
  sys_inv (mkSys a i w) -> stage a = Done -> reply a = None -> p = WIdle \/ (exists c, p = WExited c) ->
  sys_inv (mkSys a i (mkWorker p (has_publication w) (has_session w))).
Proof.
  intros Hs Hd Hr Hp. destruct (sys_cases _ _ _ Hs) as (Hi & _).
  apply sys_over; try done. intros _. cbn [pc].
  split; [intros (t & [?|?])|intros (t & _ & ?)]; destruct Hp as [->|[c ->]]; congruence.
Qed.

Ltac no_pc :=
  unfold in_effect, asks_commit; cbn [pc]; intros;
  repeat match goal with
  | |- ~ _ => intros ?
  | H : exists _, _ |- _ => destruct H
  | H : _ \/ _ |- _ => destruct H
  end; congruence.

Lemma sys_inv_step s s' : sys_inv s -> sys_step s s' -> sys_inv s'.
Proof.
  intros Hs Hst. destruct Hst as
    [e a i w He | e a i w Hd | t g c p cs m a i w Hp Hc | t g c p cs a i w Hp Hc | t cs m a i w Hp Hc
    | t cs a i w Hp Hc _ | t b a i w Ha Hb | t a i w Ha Hb Hd | t r a i w Hp Hr | t keep m a i w Hp
    | t cpid a i w Hp | k a i w Hp | cs a i w Hp Hc | b a i w Hp Hb | a i w Hp Hb Hd
    | code cs a i w Hp Hc | a i w Hp Hc Hd].
  - destruct (sys_cases _ _ _ Hs) as (Hi & [(Hd & Hf)|(Hd & Hr & Hfin)]); [|apply sys_over; done].
    apply sys_running; try done. rewrite work_app, He, app_nil_r. exact Hf.
  - destruct (sys_cases _ _ _ Hs) as (Hi & [(_ & Hf)|(? & _)]); [apply actor_sys; done|done].
  - eapply pop_sys; eauto; [rewrite Hp; no_pc| |discriminate].
    intros n k st Ho Hst Hcmd _. rewrite Hp. destruct k; [|discriminate].
    destruct Hcmd as (? & ? & ? & [= -> -> -> ->]).
    eapply fl_report; [|auto|done|done]. eapply open_job_same; [..|exact Ho]; done.
  - eapply pop_sys; eauto; [no_pc| |discriminate].
    intros n k st Ho Hst Hcmd _. cbn [pc]. destruct k; [|discriminate].
    destruct Hcmd as (? & ? & ? & [= -> -> -> ->]).
    apply (fl_ask _ n KPublish st); try done. eapply open_job_same; [..|exact Ho]; done.
  - eapply pop_sys; eauto; [rewrite Hp; no_pc| |discriminate].
    intros n k st Ho Hst Hcmd _. rewrite Hp. destruct k; [destruct Hcmd as (? & ? & ? & ?); discriminate|].
    injection Hcmd as ->. eapply fl_report; [|eauto|done|done]. eapply open_job_same; [..|exact Ho]; done.
  - eapply pop_sys; eauto; [no_pc| |discriminate].
    intros n k st Ho Hst Hcmd _. cbn [pc]. destruct k; [destruct Hcmd as (? & ? & ? & ?); discriminate|].
    injection Hcmd as ->. apply (fl_ask _ n KForkChild st); try done. eapply open_job_same; [..|exact Ho]; done.
  - eapply commit_answered_sys; eauto.
  - apply lost_sys; auto.
  - eapply report_sys; eauto; rewrite ?Hp; try no_pc. intros _ Hf. cbn [pc].
    destruct (flow_running _ _ t KPublish Hf) as (-> & Ho & Hc & Hrp). eapply fl_report; eauto.
  - eapply report_sys; eauto; rewrite ?Hp; try no_pc. intros _ Hf. cbn [pc].
    destruct (flow_running _ _ t KForkChild Hf) as (-> & Ho & Hc & Hrp). eapply fl_report; eauto.
  - eapply report_sys; eauto; rewrite ?Hp; try no_pc. intros _ Hf. cbn [pc].
    destruct (flow_running _ _ t KForkChild Hf) as (-> & Ho & Hc & Hrp). apply fl_forked; done.
  - eapply report_sys; eauto; rewrite ?Hp; try no_pc. intros _ Hf. cbn [pc].
    destruct (flow_ack_quiet _ _ Hf) as [Hc Hrp].
    destruct (flow_ack_pc _ _ Hf) as [(n & c & -> & Ho)|[-> Hn]]; [apply fl_forked_ack|apply fl_ack]; done.
  - eapply pop_sys; eauto; [no_pc| |].
    + intros n k st _ _ Hcmd. destruct k; [destruct Hcmd as (? & ? & ? & ?)|]; discriminate.
    + intros _ Hn. apply fl_ready_ask; done.
  - eapply answer_sys; eauto; [intros _ _; destruct b, (has_session w); no_pc|].
    intros Hf. rewrite Hp in Hf. destruct (flow_ready_pc _ _ _ Hf Hb) as (-> & Hn & Hc). rewrite Hc. cbn [pc].
    apply fl_rest; [done|done|done|]. destruct b, (has_session w); eauto.
  - apply lost_sys; auto.
  - pose proof (idle_silent _ _ _ Hs Hp) as Hr. rewrite popped, Hr.
    destruct (sys_cases _ _ _ Hs) as (Hi & [(Hd & Hf)|(Hd & _ & Hfin)]); rewrite Hp in *.
    + destruct (flow_pop _ _ _ _ Hf Hc) as (_ & _ & _ & [(n & k & st & _ & _ & Hcmd)|[? _]]); [|discriminate].
      destruct k; [destruct Hcmd as (? & ? & ? & ?)|]; discriminate.
    + apply taken_over; try done. intros _. split; [no_pc|]. intros (t & _ & ?). done.
  - apply lost_sys; eauto. eapply idle_silent; eauto.
Qed.

(** ** From the daemon's start *)

Lemma open_actor_inv od nm s dg l me a0 :
  open_actor od nm s dg l me = Some a0 -> wf_value (envelope (record a0)) ->
  retirement (record a0) = None ->
  inv a0 /\ stage a0 = Deciding /\ pending a0 = None /\ syncing a0 = false /\
  tickets a0 = [] /\ commands a0 = [] /\ reply a0 = None.
Proof.
  unfold open_actor. intros H Hwf Hret. destruct l; try discriminate. destruct me as [me|]; [|discriminate].
  destruct (read s dg) as [[r|]|] eqn:Er; try discriminate.
  destruct (let? v := vget (str "operationId") (envelope r) in as_str v) as [op|]; [|discriminate].
  destruct (let? v := vget (str "runtimeId") (envelope r) in as_str v) as [rt|]; [|discriminate].
  destruct (_ && beq rt nm) eqn:E; [|discriminate]. injection H as <-. cbn in Hwf, Hret.
  bands. repeat match goal with H : bool_decide _ = true |- _ => apply bool_decide_eq_true in H end.
  destruct (read_record _ _ _ Er) as [Hr Hc].
  split; [|done]. split; try done. intros _. cbn [stage].
  assert (Hs : schema r = RECORD_SCHEMA).
  { unfold read in Er. rewrite Hr in Er. cbn in Er. destruct (beq (schema r) _) eqn:Es; [|discriminate].
    apply beq_eq, Es. }
  split; [|split; [|done]].
  - split; try done. split; [done|]. split; [done|]. cbn. rewrite Hret. done.
  - unfold staged. cbn. repeat split; auto.
Qed.

Lemma start_sys a :
  inv a -> stage a = Deciding -> pending a = None -> syncing a = false ->
  tickets a = [] -> commands a = [] -> reply a = None ->
  sys_inv (mkSys (start a) [] (mkWorker WIdle false false)).
Proof.
  intros Hi Hs Hp Hsy Ht Hc Hr. assert (Hd : stage a <> Done) by congruence.
  assert (Hf : flow a (work []) (pc (mkWorker WIdle false false))) by (apply fl_decide; done).
  apply (turn_sys a _ _ _ Hf). unfold start, hold.
  set (b := frame "accepted" NoExtra a).
  assert (T : turn a (tick b)).
  { eapply turn_trans; [|apply same_turn; [apply same_frame|done|done]|]; [done|].
    apply tick_turn; [|done]. exact (same_inv _ _ (same_frame "accepted" NoExtra a) Hi). }
  pose proof (t_inv _ _ T) as Hib. destruct (armed _ _).
  - destruct (inv_live _ Hib Hd) as (Hl & Hst & Hrs).
    assert (Hp' : inv ((tick b) <| pending := Some PendDecide |>)).
    { split; [exact (inv_io _ Hib)| |exact (inv_shut_done _ Hib)|exact (inv_released _ Hib)].
      intros _. split; [destruct Hl; split; done|]. unfold staged, retiring_says in *. cbn in *.
      rewrite Hs in *. destruct Hst as (H1 & H2 & H3 & H4 & _ & H6 & _). rewrite H3 in *.
      repeat split; auto. intros H. congruence. }
    apply (turn_trans a (tick b) _ Hd T). split; try done; auto.
  - apply (turn_trans a (tick b) _ Hd T), sync_turn; done.
Qed.

(** What the daemon is handed: a record the start accepts, read from JSON (object
    keys are unique), that nobody has asked to retire. *)
Definition accepted (a0 : Actor) : Prop :=
  (exists od nm s dg l me, open_actor od nm s dg l me = Some a0) /\
  wf_value (envelope (record a0)) /\ retirement (record a0) = None.

Lemma produced_inv a0 s : accepted a0 -> produced a0 s -> sys_inv s.
Proof.
  intros ((od & nm & st & dg & l & me & Ho) & Hwf & Hret) Hp. induction Hp as [|s s' _ IH Hst].
  - destruct (open_actor_inv _ _ _ _ _ _ _ Ho Hwf Hret) as (Hi & Hs & Hpn & Hsy & Ht & Hc & Hr).
    apply start_sys; done.
  - exact (sys_inv_step _ _ IH Hst).
Qed.

Lemma sys_inv_actor s : sys_inv s -> inv (actor s).
Proof. intros []; done. Qed.

(** ** Schedules

    An executable choice of the next step, for a worker whose effects succeed. *)
Inductive Choice : Type :=
  | Outside (e : ActorEvent)
  | ActorTurn
  | WorkerStep (child_pid : Z).

Definition worker_next (cpid : Z) (s : Sys) : option Sys :=
  let '(mkSys a i w) := s in
  let go p := mkWorker p (has_publication w) (has_session w) in
  match pc w, commands a, reply a with
  | WIdle, Publish t _ _ _ :: cs, _ => Some (mkSys (a <| commands := cs |>) (i ++ [Commit t]) (go (WPublishCommit t)))
  | WIdle, ForkChild t :: cs, _ =>
      if has_publication w
      then Some (mkSys (a <| commands := cs |>) (i ++ [Commit t]) (go (WForkCommit t))) else None
  | WIdle, GoReady :: cs, _ => Some (mkSys (a <| commands := cs |>) (i ++ [ReadyPoint]) (go WReady))
  | WIdle, Stop c :: cs, _ => Some (mkSys (a <| commands := cs |>) i (go (WExited c)))
  | WPublishCommit t, _, Some b =>
      Some (mkSys (a <| reply := None |>) i (go (if b then WPublishing t else WIdle)))
  | WForkCommit t, _, Some b =>
      Some (mkSys (a <| reply := None |>) i (go (if b then WForking t else WIdle)))
  | WPublishing t, _, _ => Some (mkSys a (i ++ [Completed t (Ok Published)]) (mkWorker WIdle true (has_session w)))
  | WForking t, _, _ => Some (mkSys a (i ++ [Completed t (Ok (Forked cpid))]) (mkWorker WAck false true))
  | WAck, _, _ => Some (mkSys a (i ++ [ChildAck Prepared]) (go WIdle))
  | WReady, _, Some b =>
      Some (mkSys (a <| reply := None |>) i
              (go (if b then if has_session w then WServing else WExited 1 else WIdle)))
  | _, _, _ => None
  end.

Definition next (c : Choice) (s : Sys) : option Sys :=
  match c with
  | Outside e => if from_worker e then None else Some (mkSys (actor s) (inbox s ++ [e]) (worker s))
  | ActorTurn =>
      match inbox s with
      | e :: i => if bool_decide (stage (actor s) = Done) then None
                  else Some (mkSys (on_event e (actor s)) i (worker s))
      | [] => None
      end
  | WorkerStep cpid => worker_next cpid s
  end.

Fixpoint schedule (l : list Choice) (s : Sys) : option Sys :=
  match l with
  | [] => Some s
  | c :: l' => let? s' := next c s in schedule l' s'
  end.

Lemma worker_next_step cpid s s' : worker_next cpid s = Some s' -> sys_step s s'.
Proof.
  destruct s as [a i w]. unfold worker_next. intros H.
  destruct (pc w) eqn:Hp; try discriminate.
  - destruct (commands a) as [|[] cs] eqn:Hc; try discriminate; try (injection H as <-).
    + eapply publish_ask; eauto.
    + destruct (has_publication w) eqn:Hh; [|discriminate]. injection H as <-. rewrite <- Hh. eapply fork_ask; eauto.
    + eapply ready_ask; eauto.
    + eapply worker_stop; eauto.
  - assert (exists b, reply a = Some b) as [b Hb] by (destruct (commands a), (reply a); eauto; discriminate).
    rewrite Hb in H. assert (s' = mkSys (a <| reply := None |>) i (mkWorker (if b then commit_granted (pc w) else WIdle)
      (has_publication w) (has_session w))) as -> by (rewrite Hp; destruct (commands a); injection H as <-; done).
    eapply commit_answered; [left; exact Hp|exact Hb].
  - assert (s' = mkSys a (i ++ [Completed t (Ok Published)]) (mkWorker WIdle true (has_session w))) as ->
      by (destruct (commands a); injection H as <-; done).
    exact (publish_done t (Ok Published) a i w Hp (or_introl eq_refl)).
  - assert (exists b, reply a = Some b) as [b Hb] by (destruct (commands a), (reply a); eauto; discriminate).
    rewrite Hb in H. assert (s' = mkSys (a <| reply := None |>) i (mkWorker (if b then commit_granted (pc w) else WIdle)
      (has_publication w) (has_session w))) as -> by (rewrite Hp; destruct (commands a); injection H as <-; done).
    eapply commit_answered; [right; exact Hp|exact Hb].
  - assert (s' = mkSys a (i ++ [Completed t (Ok (Forked cpid))]) (mkWorker WAck false true)) as ->
      by (destruct (commands a); injection H as <-; done).
    apply fork_done; done.
  - assert (s' = mkSys a (i ++ [ChildAck Prepared]) (mkWorker WIdle (has_publication w) (has_session w))) as ->
      by (destruct (commands a); injection H as <-; done).
    apply ack_read; done.
  - assert (exists b, reply a = Some b) as [b Hb] by (destruct (commands a), (reply a); eauto; discriminate).
    rewrite Hb in H. assert (s' = mkSys (a <| reply := None |>) i
      (mkWorker (if b then if has_session w then WServing else WExited 1 else WIdle)
         (has_publication w) (has_session w))) as -> by (destruct (commands a); injection H as <-; done).
    apply ready_answered; done.
Qed.

Lemma schedule_produced l a0 s s' : produced a0 s -> schedule l s = Some s' -> produced a0 s'.
Proof.
  revert s. induction l as [|c l IH]; intros s Hp; cbn [schedule]; [intros [= <-]; done|].
  destruct (next c s) as [s1|] eqn:En; [|discriminate]. apply IH. apply (produced_step _ s); [done|].
  destruct c; cbn [next] in En.
  - destruct (from_worker e) eqn:E; [discriminate|]. injection En as <-. destruct s. apply outside; done.
  - destruct (inbox s) as [|e i] eqn:Ei; [discriminate|]. case_bool_decide as Hd; [discriminate|].
    injection En as <-. destruct s as [a i0 w]. cbn in *. subst i0. apply actor_turn; done.
  - exact (worker_next_step _ _ _ En).
Qed.

(** ** The producer's contract *)

(** C7: A finished retirement never races an effect.  However the owner, the
    signals, the child, the disk and the worker interleave, once the record on disk
    says the operation is cancelled or its retirement has finished, the worker is
    neither publishing the session nor forking the child, and no commit that would
    let it begin is granted or on its way. *)
Theorem retirement_fenced a0 s :
  accepted a0 -> produced a0 s -> finished (actor s) ->
  ~ in_effect (pc (worker s)) /\ ~ granted (actor s) (pc (worker s)).
Proof.
  intros Ha Hp Hf. destruct (produced_inv _ _ Ha Hp) as [a i w Hi Hd Hfl|a i w Hi Hd Hr Hs]; [|auto].
  destruct (inv_live _ Hi Hd) as (Hl & _). destruct Hf as (r & H1 & H2). cbn in H1.
  rewrite (l_disk _ Hl) in H1. injection H1 as <-. rewrite live_not_ended in H2; done.
Qed.

(** C8: The user's command runs only under a durable transfer.  If the held child's
    gate was ever written to, the record on disk is a consistent transferred one, so
    no retirement is or ever was recorded on it, and the gate was not shut; and a
    gate that was shut leaves a launched operation whose retirement is recorded. *)
Theorem release_after_transfer a0 s :
  accepted a0 -> produced a0 s ->
  (forall p, EGateReleased p ∈ log (actor s) ->
     (exists r, on_disk (actor s) = Some (FileRecord r) /\ check r = Ok tt /\
        state r = Transferred /\ retirement r = None) /\
     forall p', EGateShut p' ∉ log (actor s)) /\
  (forall p, EGateShut p ∈ log (actor s) ->
     exists r, on_disk (actor s) = Some (FileRecord r) /\ state r = Launched /\ is_some (retirement r) = true).
Proof.
  intros Ha Hp. pose proof (sys_inv_actor _ (produced_inv _ _ Ha Hp)) as [_ _ Hs Hr].
  assert (Hin : forall (f : Effect -> bool) e, f e = true -> e ∈ log (actor s) -> existsb f (log (actor s)) = true).
  { intros f e He Hl. apply existsb_exists. exists e. apply list_elem_of_In in Hl. done. }
  assert (Hshut : forall p, EGateShut p ∈ log (actor s) -> exists r,
     on_disk (actor s) = Some (FileRecord r) /\ state r = Launched /\ is_some (retirement r) = true).
  { intros p Hl. destruct (Hs (Hin is_shut (EGateShut p) eq_refl Hl)) as (_ & r & H1 & H2). exists r.
    apply andb_prop in H2 as [H2 H3]. apply bool_decide_eq_true in H2. done. }
  split; [|exact Hshut]. intros p Hl. destruct (Hr (Hin is_release (EGateReleased p) eq_refl Hl)) as (r & H1 & H2).
  apply andb_prop in H2 as [H2 H3]. apply bool_decide_eq_true in H2.
  unfold consistent in H3. destruct (check r) as [[]|] eqn:Hc; [|discriminate].
  split.
  - exists r. repeat split; try done. pose proof (proj1 (check_record _ Hc)) as Hso.
    unfold state_ok in Hso. rewrite H2 in Hso. bands. destruct (retirement r); done.
  - intros p' Hl'. destruct (Hshut p' Hl') as (r' & H1' & H2' & _). congruence.
Qed.

(** The actor never writes a record that could be refused.  Whatever reaches it,
    every compare-and-swap it attempts is consistent and current: the only failed
    writes in its log are the disk's.  And while it runs it is the record's writer:
    the record on disk is exactly the one it holds, consistent, under its own role. *)
Theorem producer_writes a0 s :
  accepted a0 -> produced a0 s ->
  (forall e, EWriteFailed e ∈ log (actor s) -> e = WriteFailed) /\
  (stage (actor s) <> Done ->
     on_disk (actor s) = Some (FileRecord (record (actor s))) /\
     check (record (actor s)) = Ok tt /\ w_role (writer (record (actor s))) = RoleProducer).
Proof.
  intros Ha Hp. pose proof (sys_inv_actor _ (produced_inv _ _ Ha Hp)) as [Hio Hl _ _]. split.
  - intros e He. rewrite forallb_forall in Hio. apply list_elem_of_In in He. specialize (Hio _ He).
    destruct e; done.
  - intros Hd. destruct (Hl Hd) as ([_ H1 H2 _ H3] & _). apply bool_decide_eq_true in H3. done.
Qed.
End System.

(** ** A launch on a working host *)

Definition demo_host : ActorEnv := {|
  now := fun _ => str "t";
  disk := fun _ => IoOk;
  armed := fun _ _ => false;
  holds_creation_lock := fun _ => true;
  occupancy := fun _ => Absent;
  new_generation := fun _ => str "g1";
  identity_of := fun _ p => Some (mkProcess p (str "linux:300") (str "boot-1") 1000);
  child_weather := fun _ => mkChildWeather true false false false false Gone;
  row_outcome := fun _ => RowAbsent;
  gate_written := fun _ => true
|}.

(** The record a launcher hands over to process 9. *)
Definition demo_daemon : ProcessId := mkProcess 9 (str "linux:200") (str "boot-1") 1000.
Definition demo_gated : OperationRecord :=
  mkRecord RECORD_SCHEMA 4 (str "t3") (str "op-1")
    (VObj [(str "operationId", VStr (str "op-1")); (str "runtimeId", VStr (str "s1"))]) (str "e1")
    (of_role RoleProducer demo_daemon) Pending DaemonGated None
    (mkParticipants (Some demo_me) (Some demo_daemon) None) None None None.
Definition demo_actor : Actor :=
  mkActor (mkStore {[ str "h1" := FileRecord demo_gated ]} ∅) (str "h1") true demo_gated demo_daemon
    None (str "s1") [] None false 0 [] Deciding false false false None [] None None false [] 0.

Lemma demo_accepted : accepted demo_actor.
Proof.
  split; [|split].
  - exists (fun _ => str "h1"), (str "s1"), (mkStore {[ str "h1" := FileRecord demo_gated ]} ∅), (str "h1"),
      Exclusive, (Ok demo_daemon). vm_compute. reflexivity.
  - cbn. split; [|done]. vm_compute. repeat constructor; rewrite ?list_elem_of_In; cbn; intuition discriminate.
  - reflexivity.
Qed.

Definition demo_start : Sys := mkSys (start (EI := demo_host) demo_actor) [] (mkWorker WIdle false false).

(** The session is published, the child held, and the owner takes it over. *)
Definition demo_transfer : list Choice :=
  [Outside Synced; ActorTurn; WorkerStep 0; ActorTurn; WorkerStep 0; WorkerStep 0; ActorTurn;
   WorkerStep 0; ActorTurn; WorkerStep 0; WorkerStep 42; ActorTurn; WorkerStep 0; ActorTurn;
   Outside (Owner (OwnerSent (FrameCommand (TransferCommand (str "r") (str "9:t") (str "g1")))));
   ActorTurn; WorkerStep 0; ActorTurn; WorkerStep 0].
(** The owner closes its end while the session is being published. *)
Definition demo_withdrawn : list Choice :=
  [Outside Synced; ActorTurn; WorkerStep 0; ActorTurn; WorkerStep 0; Outside (Owner OwnerClosed);
   ActorTurn; WorkerStep 0; ActorTurn].

Lemma retirement_fenced_witness : exists s,
  schedule (EI := demo_host) demo_withdrawn demo_start = Some s /\ finished (actor s) /\
  ~ in_effect (pc (worker s)) /\ ~ granted (actor s) (pc (worker s)).
Proof.
  destruct (schedule (EI := demo_host) demo_withdrawn demo_start) as [s|] eqn:E; [|vm_compute in E; discriminate].
  assert (Hf : finished (actor s)).
  { revert E. vm_compute. intros [= <-]. eexists. split; vm_compute; reflexivity. }
  exists s. split; [reflexivity|]. split; [exact Hf|].
  exact (retirement_fenced (EI := demo_host) demo_actor s demo_accepted
    (schedule_produced _ _ _ _ (produced_start demo_actor) E) Hf).
Defined.

Lemma release_after_transfer_witness : exists s r,
  schedule (EI := demo_host) demo_transfer demo_start = Some s /\ EGateReleased 42 ∈ log (actor s) /\
  on_disk (actor s) = Some (FileRecord r) /\ state r = Transferred /\ retirement r = None.
Proof.
  destruct (schedule (EI := demo_host) demo_transfer demo_start) as [s|] eqn:E; [|vm_compute in E; discriminate].
  assert (Hl : EGateReleased 42 ∈ log (actor s)).
  { revert E. vm_compute. intros [= <-]. apply list_elem_of_In. cbn. tauto. }
  destruct (release_after_transfer (EI := demo_host) demo_actor s demo_accepted
    (schedule_produced _ _ _ _ (produced_start demo_actor) E)) as [H _].
  destruct (H 42 Hl) as ((r & H1 & _ & H2 & H3) & _). exists s, r. auto.
Defined.

Lemma producer_writes_witness : exists s,
  schedule (EI := demo_host) (take 12 demo_transfer) demo_start = Some s /\ stage (actor s) = Starting /\
  on_disk (actor s) = Some (FileRecord (record (actor s))).
Proof.
  destruct (schedule (EI := demo_host) (take 12 demo_transfer) demo_start) as [s|] eqn:E;
    [|vm_compute in E; discriminate].
  assert (Hs : stage (actor s) = Starting) by (revert E; vm_compute; intros [= <-]; reflexivity).
  destruct (producer_writes (EI := demo_host) demo_actor s demo_accepted
    (schedule_produced _ _ _ _ (produced_start demo_actor) E)) as [_ H].
  exists s. split; [reflexivity|]. split; [exact Hs|]. apply H. rewrite Hs. discriminate.
Defined.
