(* ===== verification/Client.v ===== *)
(** What the operations of [crates/pty-client] share: the failures of a client and the
    texts they print ([lib.rs]), and text as UTF-8 on a descriptor. *)
From S2P Require Import Prelude Time Names Text Argv Protocol.

(** ** Text on a descriptor *)

(** [String::as_bytes]: each scalar value in UTF-8. *)
Definition utf8_char (c : Z) : bytes :=
  if c <? 128 then [c]
  else if c <? 2048 then [192 + c / 64; 128 + c mod 64]
  else if c <? 65536 then [224 + c / 4096; 128 + c / 64 mod 64; 128 + c mod 64]
  else [240 + c / 262144; 128 + c / 4096 mod 64; 128 + c / 64 mod 64; 128 + c mod 64].
Definition to_utf8 (s : bytes) : bytes := concat (utf8_char <$> s).

(** [char]: a scalar value of Unicode. *)
Definition is_char (c : Z) : bool := in_range 0 55295 c || in_range 57344 1114111 c.

(** ** I/O errors *)

(** [io::Error]: a code of the system (the numbers are those of Linux), or a kind with
    a text. *)
Inductive Kind : Type :=
  | NotFound | ConnectionRefused | ConnectionReset | BrokenPipe | WouldBlock | Interrupted
  | KTimedOut | OtherKind.
#[export] Instance Kind_eq_dec : EqDecision Kind.
Proof. solve_decision. Defined.

Inductive IoErr : Type :=
  | Os (errno : Z)
  | Simple (kind : Kind) (text : bytes).

Definition ENOENT : Z := 2.
Definition EINTR : Z := 4.
Definition EAGAIN : Z := 11.
Definition EPIPE : Z := 32.
Definition ECONNRESET : Z := 104.
Definition ETIMEDOUT : Z := 110.
Definition ECONNREFUSED : Z := 111.

Definition raw_os_error (e : IoErr) : option Z := match e with Os n => Some n | Simple _ _ => None end.
(** [io::Error::kind], for the kinds the client asks for. *)
Definition kind (e : IoErr) : Kind :=
  match e with
  | Simple k _ => k
  | Os n =>
      if n =? ENOENT then NotFound
      else if n =? ECONNREFUSED then ConnectionRefused
      else if n =? ECONNRESET then ConnectionReset
      else if n =? EPIPE then BrokenPipe
      else if n =? EAGAIN then WouldBlock
      else if n =? EINTR then Interrupted
      else if n =? ETIMEDOUT then KTimedOut
      else OtherKind
  end.
Definition is_kind (k : Kind) (e : IoErr) : bool := bool_decide (kind e = k).
(** A read that gave nothing: the socket's timeout. *)
Definition timed_out_read (e : IoErr) : bool := is_kind WouldBlock e || is_kind KTimedOut e.

Inductive GoneSet : Type := Broad | Strict.
Definition is_broad (s : GoneSet) : bool := match s with Broad => true | Strict => false end.

Definition is_gone (err : IoErr) (set : GoneSet) : bool :=
  match raw_os_error err with
  | Some n =>
      if (n =? ENOENT) || (n =? ECONNREFUSED) then true
      else if (n =? ECONNRESET) || (n =? EPIPE) then is_broad set
      else is_kind NotFound err || is_kind ConnectionRefused err
           || is_broad set && (is_kind ConnectionReset err || is_kind BrokenPipe err)
  | None =>
      is_kind NotFound err || is_kind ConnectionRefused err
      || is_broad set && (is_kind ConnectionReset err || is_kind BrokenPipe err)
  end.

Definition errno_name (code : Z) : option bytes :=
  str <$> (List.find (fun p => fst p =? code)
    [(2, "ENOENT"); (111, "ECONNREFUSED"); (104, "ECONNRESET"); (32, "EPIPE"); (9, "EBADF");
     (13, "EACCES"); (11, "EAGAIN"); (22, "EINVAL"); (5, "EIO"); (21, "EISDIR"); (88, "ENOTSOCK");
     (1, "EPERM"); (110, "ETIMEDOUT"); (20, "ENOTDIR"); (107, "ENOTCONN"); (4, "EINTR");
     (28, "ENOSPC"); (36, "ENAMETOOLONG"); (24, "EMFILE")] ≫= fun p => Some (snd p))%Z.

Section Texts.
(** [Display] of an error of the system, the C library's text. *)
Variable os_text : Z -> bytes.

Definition display_io (e : IoErr) : bytes :=
  match e with Os n => os_text n | Simple _ text => text end.

Definition node_error_message (syscall : bytes) (path : option bytes) (err : IoErr) : bytes :=
  match (let? n := raw_os_error err in errno_name n), path with
  | Some code, Some p => syscall ++ str " " ++ code ++ str " " ++ p
  | Some code, None => syscall ++ str " " ++ code
  | None, _ => syscall ++ str " " ++ display_io err
  end.

(** ** [ClientError] *)

Inductive ClientError : Type :=
  | NotReachable (name : bytes) (remote : bool)
  | Connection (msg : bytes)
  | ClosedBeforeScreen (name : bytes)
  | StatsTimeout (name : bytes)
  | OutdatedClient (name : bytes)
  | InvalidStats (name : bytes)
  | ReadinessTimeout (name : bytes)
  | InvalidReadiness (name : bytes).

Definition quoted (name : bytes) : bytes := [34] ++ name ++ [34].

Definition display_client_error (e : ClientError) : bytes :=
  match e with
  | NotReachable name false => str "Session " ++ quoted name ++ str " not found or not running."
  | NotReachable name true => str "Remote session " ++ quoted name ++ str " not found or not running."
  | Connection msg => str "Connection error: " ++ msg
  | ClosedBeforeScreen name => str "Connection to " ++ quoted name ++ str " closed before screen received."
  | StatsTimeout name => str "Timeout querying stats for " ++ quoted name
  | OutdatedClient name =>
      str "Protocol version mismatch for " ++ quoted name
      ++ str ": the client is outdated; upgrade the client to talk to this daemon."
  | InvalidStats name => str "Invalid stats response from " ++ quoted name
  | ReadinessTimeout name => str "Timeout querying readiness control for " ++ quoted name
  | InvalidReadiness name => str "Invalid readiness control response from " ++ quoted name
  end.

Definition map_io_error (name : bytes) (remote : bool) (set : GoneSet) (syscall : bytes)
  (path : option bytes) (err : IoErr) : ClientError :=
  if is_gone err set then NotReachable name remote
  else Connection (node_error_message syscall path err).

End Texts.

(** The line printed when a peer declares an oversize packet; [err] is the reader's
    message. *)
Definition dropping_connection_line (err : bytes) : bytes :=
  str "pty client: dropping connection " ++ [8212] ++ str " " ++ err ++ [10].

(** ** Facts *)

(** Interactive commands count every error as gone that the programmatic ones do. *)
Lemma strict_gone_broad err : is_gone err Strict = true -> is_gone err Broad = true.
Proof.
  destruct err as [n|[] t]; cbn; try done. destruct ((n =? ENOENT) || _) eqn:A; [done|].
  destruct ((n =? ECONNRESET) || _); [done|]. rewrite !orb_false_r. intros [->| ->]%orb_prop; [done|].
  rewrite orb_true_r. done.
Qed.

Lemma utf8_char_decode c rest :
  is_char c = true -> from_utf8 (utf8_char c ++ rest) = cons c <$> from_utf8 rest.
Proof.
  intros V. unfold is_char, in_range in V. unfold utf8_char.
  destruct (Z.ltb_spec c 128) as [A|A].
  { cbn [app]. cbn [from_utf8]. replace (in_range 0 127 c) with true; [done|].
    unfold in_range. symmetry. apply andb_true_intro. split; apply Z.leb_le; [|lia].
    apply orb_prop in V as [V|V]; bprop; lia. }
  assert (R : 0 <= c <= 1114111 /\ ~ 55296 <= c <= 57343) by (apply orb_prop in V as [V|V]; bprop; lia).
  destruct (Z.ltb_spec c 2048) as [B|B]; [|destruct (Z.ltb_spec c 65536) as [C|C]]; cbn [app from_utf8].
  - assert (2 <= c / 64 <= 31) by (Z.to_euclidean_division_equations; lia).
    pose proof (Z.mod_pos_bound c 64 ltac:(lia)).
    replace (in_range 0 127 (192 + c / 64)) with false by (symmetry; unfold in_range; lia).
    replace (in_range 194 223 (192 + c / 64)) with true by (symmetry; unfold in_range; lia).
    replace (cont (128 + c mod 64)) with true by (symmetry; unfold cont, in_range; lia).
    replace (scalar2 (192 + c / 64) (128 + c mod 64)) with c; [done|].
    unfold scalar2. pose proof (Z.div_mod c 64). lia.
  - assert (0 <= c / 4096 <= 15) by (Z.to_euclidean_division_equations; lia).
    pose proof (Z.mod_pos_bound c 64 ltac:(lia)). pose proof (Z.mod_pos_bound (c / 64) 64 ltac:(lia)).
    assert (E : c = c / 4096 * 4096 + c / 64 mod 64 * 64 + c mod 64)
      by (Z.to_euclidean_division_equations; lia).
    replace (in_range 0 127 (224 + c / 4096)) with false by (symmetry; unfold in_range; lia).
    replace (in_range 194 223 (224 + c / 4096)) with false by (symmetry; unfold in_range; lia).
    replace (in_range 224 239 (224 + c / 4096)) with true by (symmetry; unfold in_range; lia).
    replace (_ && _ && _ && _) with true by (symmetry; unfold cont, in_range; lia).
    replace (scalar3 _ _ _) with c; [done|]. unfold scalar3. lia.
  - assert (0 <= c / 262144 <= 4) by (Z.to_euclidean_division_equations; lia).
    pose proof (Z.mod_pos_bound c 64 ltac:(lia)). pose proof (Z.mod_pos_bound (c / 64) 64 ltac:(lia)).
    pose proof (Z.mod_pos_bound (c / 4096) 64 ltac:(lia)).
    assert (E : c = c / 262144 * 262144 + c / 4096 mod 64 * 4096 + c / 64 mod 64 * 64 + c mod 64)
      by (Z.to_euclidean_division_equations; lia).
    replace (in_range 0 127 (240 + c / 262144)) with false by (symmetry; unfold in_range; lia).
    replace (in_range 194 223 (240 + c / 262144)) with false by (symmetry; unfold in_range; lia).
    replace (in_range 224 239 (240 + c / 262144)) with false by (symmetry; unfold in_range; lia).
    replace (_ && _ && _ && _ && _ && _) with true by (symmetry; unfold cont, in_range; lia).
    replace (scalar4 _ _ _ _) with c; [done|]. unfold scalar4. lia.
Qed.

(** Text written to a descriptor reads back as the text. *)
Lemma utf8_round_trip s : forallb is_char s = true -> from_utf8 (to_utf8 s) = Some s.
Proof.
  unfold to_utf8. induction s as [|c s IH]; cbn; [done|]. intros [V Vs]%andb_prop.
  rewrite utf8_char_decode, IH by done. done.
Qed.

(** Bytes below 128 stand for themselves alone. *)
Lemma utf8_char_high c : is_char c = true -> 128 <= c -> Forall (fun b => 128 <= b) (utf8_char c).
Proof.
  intros V H. unfold utf8_char. destruct (Z.ltb_spec c 128); [lia|].
  destruct (c <? 2048); [|destruct (c <? 65536)]; repeat constructor;
    Z.to_euclidean_division_equations; lia.
Qed.

(** ** Examples *)

Example refused_text :
  display_client_error (map_io_error (fun _ => []) (str "web") false Broad (str "connect") None (Os 111))
  = str "Session " ++ quoted (str "web") ++ str " not found or not running.".
Proof. reflexivity. Qed.

(** A reset is the session's end for a command, an error for a program. *)
Example reset_programmatic :
  map_io_error (fun _ => []) (str "web") false Strict (str "read") None (Os 104)
  = Connection (str "read ECONNRESET").
Proof. reflexivity. Qed.

Example utf8_dash : to_utf8 [8212] = [226; 128; 148].
Proof. reflexivity. Qed.
