(* ===== verification/Visible.v ===== *)
(** The text an output stream shows, for [pty peek --wait] and plain peeks: [VisibleText],
    [contains_any] and [strip_ansi] of [crates/pty-client/src/peek.rs]. *)
From S2P Require Import Prelude Time Names Text Argv Protocol Client.

(** ** Searching *)

(** [windows(p.len()).any(|w| w == p)], every text containing the empty one; also
    [str::contains]. *)
Fixpoint contains (text p : bytes) : bool :=
  starts_with p text || match text with [] => false | _ :: text' => contains text' p end.
Definition contains_any (haystack : bytes) (patterns : list bytes) : bool :=
  existsb (contains haystack) patterns.

(** ** The visible text of a stream *)

Inductive Escape : Type := Ground | Esc | Intermediate | Csi | TextString | TextEsc.
#[export] Instance Escape_eq_dec : EqDecision Escape.
Proof. solve_decision. Defined.

Record VisibleText : Type := mkVisible { state : Escape; tail : bytes }.
Definition visible_default : VisibleText := mkVisible Ground [].

(** The next state, whether the byte is text, and whether it ends a run of text. *)
Definition advance (s : Escape) (b : Z) : Escape * bool * bool :=
  match s with
  | Ground => if b =? 27 then (Esc, false, false) else (Ground, true, false)
  | Esc =>
      if b =? 91 then (Csi, false, false)
      else if memb b [93; 80; 88; 94; 95] then (TextString, false, false)
      else if in_range 32 47 b then (Intermediate, false, false)
      else (Ground, false, true)
  | Intermediate =>
      if in_range 32 47 b then (Intermediate, false, false) else (Ground, false, false)
  | Csi =>
      if b =? 109 then (Ground, false, false)
      else if in_range 64 126 b then (Ground, false, true)
      else (Csi, false, false)
  | TextString =>
      if b =? 7 then (Ground, false, false)
      else if b =? 27 then (TextEsc, false, false)
      else (TextString, false, false)
  | TextEsc => (Ground, false, false)
  end.

Definition feed_byte (patterns : list bytes) (acc : VisibleText * bool) (b : Z) : VisibleText * bool :=
  let '(v, found) := acc in
  let '(s, text, breaks) := advance (state v) b in
  let t := if text then tail v ++ [b] else tail v in
  if breaks then (mkVisible s [], found || contains_any t patterns) else (mkVisible s t, found).

(** One less than the longest pattern: what could still end in the next chunk. *)
Definition longest (patterns : list bytes) : nat := foldr (fun p n => Nat.max (length p) n) 0%nat patterns.
Definition feed (v : VisibleText) (chunk : bytes) (patterns : list bytes) : VisibleText * bool :=
  let '(v, found) := fold_left (feed_byte patterns) chunk (v, false) in
  let found := found || contains_any (tail v) patterns in
  let keep := (longest patterns - 1)%nat in
  (mkVisible (state v) (drop (length (tail v) - keep) (tail v)), found).

(** Every chunk of a stream in turn: was any pattern ever reported? *)
Fixpoint feed_chunks (v : VisibleText) (chunks : list bytes) (patterns : list bytes) : VisibleText * bool :=
  match chunks with
  | [] => (v, false)
  | c :: cs =>
      let '(v, f) := feed v c patterns in
      let '(v, f') := feed_chunks v cs patterns in (v, f || f')
  end.

(** ** What a stream shows, kept whole *)

(** The finished runs of text, the state and the run being drawn. *)
Record Drawn : Type := mkDrawn { runs : list bytes; d_state : Escape; current : bytes }.
Definition draw_byte (d : Drawn) (b : Z) : Drawn :=
  let '(s, text, breaks) := advance (d_state d) b in
  let cur := if text then current d ++ [b] else current d in
  if breaks then mkDrawn (runs d ++ [cur]) s [] else mkDrawn (runs d) s cur.
Definition draw (data : bytes) : Drawn := fold_left draw_byte data (mkDrawn [] Ground []).
Definition drawn_runs (d : Drawn) : list bytes := runs d ++ [current d].

(** Some pattern is in one run of the stream's text. *)
Definition shows (data : bytes) (patterns : list bytes) : bool :=
  existsb (fun r => contains_any r patterns) (drawn_runs (draw data)).

(** ** Plain text *)

Definition is_param (b : Z) : bool := is_ascii_digit b || (b =? 59).
(** What follows a sequence [ESC \[ … letter] at the head of the bytes. *)
Definition after_csi (l : bytes) : option bytes :=
  match strip_prefix [27; 91] l with
  | Some body =>
      match snd (span is_param body) with
      | f :: rest => if is_ascii_alphabetic f then Some rest else None
      | [] => None
      end
  | None => None
  end.
Fixpoint strip_ansi_fuel (fuel : nat) (l : bytes) : bytes :=
  match fuel, l with
  | S fuel, b :: l' =>
      match after_csi l with
      | Some rest => strip_ansi_fuel fuel rest
      | None => b :: strip_ansi_fuel fuel l'
      end
  | _, _ => l
  end.
(** On the bytes of a text; each turn takes at least one. *)
Definition strip_bytes (l : bytes) : bytes := strip_ansi_fuel (length l) l.
Definition strip_ansi (text : bytes) : bytes :=
  let out := strip_bytes (to_utf8 text) in
  match from_utf8 out with Some t => t | None => from_utf8_lossy out end.

(** ** Lemmas: searching *)

Lemma starts_with_app p l : starts_with p l = true <-> exists r, l = p ++ r.
Proof.
  unfold starts_with. destruct (strip_prefix p l) as [r|] eqn:E.
  - apply strip_prefix_Some in E. split; eauto.
  - split; [discriminate|]. intros [r H]. apply strip_prefix_Some in H. congruence.
Qed.

Lemma contains_spec l p : contains l p = true <-> exists a b, l = a ++ p ++ b.
Proof.
  induction l as [|x l IH]; cbn [contains].
  - rewrite orb_false_r, starts_with_app. split; [intros [r H]; exists [], r; done|].
    intros (a & b & H). symmetry in H. apply app_eq_nil in H as [-> H]. exists b. done.
  - rewrite orb_true_iff, starts_with_app, IH. split.
    + intros [[r H]|(a & b & ->)]; [exists [], r; done|exists (x :: a), b; done].
    + intros ([|y a] & b & H); [left; exists b; done|]. injection H as <- H. right. eauto.
Qed.

Lemma contains_app_l a b p : contains a p = true -> contains (a ++ b) p = true.
Proof.
  rewrite !contains_spec. intros (x & y & ->). exists x, (y ++ b). rewrite <- !app_assoc. done.
Qed.
Lemma contains_app_r a b p : contains b p = true -> contains (a ++ b) p = true.
Proof. rewrite !contains_spec. intros (x & y & ->). exists (a ++ x), y. rewrite <- !app_assoc. done. Qed.

Lemma contains_any_elem l ps : contains_any l ps = true <-> exists p, p ∈ ps /\ contains l p = true.
Proof. apply existsb_elem. Qed.
Lemma contains_any_app_l a b ps : contains_any a ps = true -> contains_any (a ++ b) ps = true.
Proof. rewrite !contains_any_elem. intros (p & I & H). eauto using contains_app_l. Qed.
Lemma contains_any_app_r a b ps : contains_any b ps = true -> contains_any (a ++ b) ps = true.
Proof. rewrite !contains_any_elem. intros (p & I & H). eauto using contains_app_r. Qed.

(** Nothing contained in the empty text is missed in another. *)
Lemma contains_any_nil l ps : contains_any [] ps = true -> contains_any l ps = true.
Proof. intros H. apply (contains_any_app_l [] l). done. Qed.

Lemma longest_le p ps : p ∈ ps -> (length p <= longest ps)%nat.
Proof.
  intros I. induction ps as [|q ps IH]; [by apply elem_of_nil in I|].
  change (longest (q :: ps)) with (Nat.max (length q) (longest ps)).
  apply elem_of_cons in I as [-> |I]; [lia|specialize (IH I); lia].
Qed.

(** A pattern that ends past [t] is found without what came before the last
    [longest - 1] bytes of [t]. *)
Lemma contains_overlap pre t x p :
  pre = [] \/ (length p - 1 <= length t)%nat ->
  contains (pre ++ t ++ x) p = true -> contains (pre ++ t) p = true \/ contains (t ++ x) p = true.
Proof.
  rewrite !contains_spec. intros [-> |L] (a & b & E); [right; exists a, b; done|].
  destruct (decide (length pre <= length a)%nat) as [Q|Q].
  - right. exists (drop (length pre) a), b. apply (app_inv_head pre).
    assert (T : take (length pre) (pre ++ t ++ x) = take (length pre) (a ++ p ++ b)) by (rewrite E; done).
    rewrite take_app_length, take_app_le in T by done.
    transitivity ((take (length pre) a ++ drop (length pre) a) ++ p ++ b); [rewrite take_drop; exact E|].
    rewrite <- T, <- app_assoc. done.
  - left. exists a, (drop (length a + length p) (pre ++ t)).
    assert (S : (length a + length p <= length (pre ++ t))%nat) by (rewrite length_app; lia).
    assert (T : take (length a + length p) (pre ++ t) = a ++ p).
    { rewrite app_assoc in E. apply (f_equal (take (length a + length p))) in E.
      rewrite take_app_le in E by done. rewrite E, app_assoc, take_app_le by (rewrite length_app; lia).
      rewrite <- length_app, firstn_all. done. }
    rewrite app_assoc. rewrite <- T, take_drop. done.
Qed.

(** ** Lemmas: chunks *)

Section Chunks.
Context (patterns : list bytes).

Definition keep : nat := longest patterns - 1.
Definition shown (d : Drawn) : bool := existsb (fun r => contains_any r patterns) (drawn_runs d).
#[local] Arguments shown : simpl never.

Lemma shown_spec d :
  shown d = true <->
  existsb (fun r => contains_any r patterns) (runs d) = true \/ contains_any (current d) patterns = true.
Proof.
  unfold shown, drawn_runs. rewrite existsb_app, orb_true_iff. cbn. rewrite orb_false_r. done.
Qed.

(** The reader agrees with the whole text: it knows the end of the run, and what it has
    not reported is still in its tail. *)
Record Agrees (v : VisibleText) (found : bool) (d : Drawn) : Prop := {
  ag_state : state v = d_state d;
  ag_tail : exists pre, current d = pre ++ tail v /\ (pre = [] \/ (keep <= length (tail v))%nat);
  ag_sound : found = true -> shown d = true;
  ag_complete : shown d = true -> found = true \/ contains_any (tail v) patterns = true
}.

Lemma agrees_byte v f d b :
  Agrees v f d ->
  Agrees (fst (feed_byte patterns (v, f) b)) (snd (feed_byte patterns (v, f) b)) (draw_byte d b).
Proof.
  intros [S (pre & C & K) So Co]. unfold feed_byte, draw_byte. rewrite S.
  destruct (advance (d_state d) b) as [[s text] breaks] eqn:A. rewrite C in *.
  assert (T : exists x, (if text then tail v ++ [b] else tail v) = tail v ++ x
              /\ (if text then (pre ++ tail v) ++ [b] else pre ++ tail v) = pre ++ tail v ++ x).
  { destruct text; [exists [b]; rewrite <- app_assoc|exists []; rewrite app_nil_r]; done. }
  destruct T as (x & -> & ->).
  assert (M : contains_any (pre ++ tail v ++ x) patterns = true ->
              f = true \/ contains_any (tail v ++ x) patterns = true).
  { rewrite contains_any_elem. intros (p & I & H).
    apply contains_overlap in H as [H|H].
    - destruct Co as [?|?]; [|by left|right; by apply contains_any_app_l].
      apply shown_spec. right. rewrite C. apply contains_any_elem. eauto.
    - right. apply contains_any_elem. eauto.
    - destruct K as [-> |K]; [by left|right]. apply longest_le in I. unfold keep in K. lia. }
  assert (F : f = true -> existsb (fun r => contains_any r patterns) (runs d) = true
                        \/ contains_any (pre ++ tail v ++ x) patterns = true).
  { intros H. apply So, shown_spec in H as [H|H]; [by left|right]. rewrite C in H.
    rewrite app_assoc. by apply contains_any_app_l. }
  destruct breaks; cbn [fst snd]; split; cbn; rewrite ?shown_spec; cbn.
  - done.
  - exists []. auto.
  - intros H. left. rewrite existsb_app. cbn. apply orb_true_iff. rewrite orb_false_r.
    apply orb_true_iff in H as [H|H]; [destruct (F H); auto|right; by apply contains_any_app_r].
  - rewrite existsb_app. cbn. rewrite orb_false_r, !orb_true_iff. intros [[H|H]|H].
    + left. destruct Co as [?|?]; [apply shown_spec; auto|by left|right; by apply contains_any_app_l].
    + left. auto.
    + left. right. by apply contains_any_nil.
  - done.
  - exists pre. split; [done|]. destruct K; [by left|right]. rewrite length_app. lia.
  - intros H. destruct (F H); auto.
  - intros [H|H]; [|auto]. destruct Co as [?|?]; [apply shown_spec; auto|by left|].
    right. by apply contains_any_app_l.
Qed.

Lemma agrees_fold chunk : forall v f d,
  Agrees v f d ->
  let r := fold_left (feed_byte patterns) chunk (v, f) in
  Agrees (fst r) (snd r) (fold_left draw_byte chunk d).
Proof.
  induction chunk as [|b chunk IH]; intros v f d A; cbn [fold_left]; [done|].
  pose proof (agrees_byte v f d b A) as B. destruct (feed_byte patterns (v, f) b) as [v' f'].
  apply IH. done.
Qed.

(** What a chunk reports is added to what was reported before. *)
Lemma fold_found chunk : forall v f,
  fold_left (feed_byte patterns) chunk (v, f)
  = (fst (fold_left (feed_byte patterns) chunk (v, false)),
     f || snd (fold_left (feed_byte patterns) chunk (v, false))).
Proof.
  assert (B : forall v f b, feed_byte patterns (v, f) b
    = (fst (feed_byte patterns (v, false) b), f || snd (feed_byte patterns (v, false) b))).
  { intros v f b. unfold feed_byte. destruct (advance (state v) b) as [[s t] []]; cbn; [done|].
    rewrite orb_false_r. done. }
  induction chunk as [|b chunk IH]; intros v f; cbn [fold_left]; [cbn; rewrite orb_false_r; done|].
  rewrite B. destruct (feed_byte patterns (v, false) b) as [v' f']; cbn [fst snd].
  rewrite IH, (IH v' f'). cbn. rewrite orb_assoc. done.
Qed.

Lemma agrees_feed v f d chunk :
  Agrees v f d ->
  let d' := fold_left draw_byte chunk d in
  Agrees (fst (feed v chunk patterns)) (f || snd (feed v chunk patterns)) d'
  /\ (shown d' = true -> f || snd (feed v chunk patterns) = true).
Proof.
  intros A. pose proof (agrees_fold chunk v f d A) as B. cbn zeta in B. rewrite fold_found in B.
  unfold feed. destruct (fold_left (feed_byte patterns) chunk (v, false)) as [w g]; cbn [fst snd] in *.
  destruct B as [S (pre & C & K) So Co].
  assert (Full : shown (fold_left draw_byte chunk d) = true -> f || (g || contains_any (tail w) patterns) = true).
  { intros H. destruct (Co H) as [H'|H']; [rewrite orb_assoc, H'|rewrite H', !orb_true_r]; done. }
  split; [|done]. split; cbn.
  - done.
  - exists (pre ++ take (length (tail w) - keep) (tail w)). split; [rewrite C, <- app_assoc, take_drop; done|].
    unfold keep in *. rewrite length_drop.
    destruct (decide (length (tail w) <= longest patterns - 1)%nat) as [L|L]; [|right; lia].
    replace (length (tail w) - (longest patterns - 1))%nat with 0%nat by lia. rewrite app_nil_r.
    destruct K; [by left|right; lia].
  - rewrite orb_assoc. intros [H|H]%orb_true_iff; [auto|]. apply shown_spec. right. rewrite C.
    by apply contains_any_app_r.
  - intros H. left. auto.
Qed.

Lemma agrees_chunks chunks : forall v f d,
  Agrees v f d -> chunks <> [] ->
  f || snd (feed_chunks v chunks patterns) = shown (fold_left draw_byte (concat chunks) d).
Proof.
  induction chunks as [|c cs IH]; intros v f d A N; [done|]. cbn [feed_chunks concat].
  rewrite fold_left_app. pose proof (agrees_feed v f d c A) as [B Full].
  destruct (feed v c patterns) as [w g]; cbn [fst snd] in *.
  destruct (decide (cs = [])) as [-> |M].
  - cbn. rewrite orb_false_r. apply eq_true_iff_eq. cbn in *. split; [eapply ag_sound; exact B|exact Full].
  - specialize (IH w (f || g) _ B M). destruct (feed_chunks w cs patterns) as [w' g']; cbn [snd] in *.
    rewrite orb_assoc. done.
Qed.
End Chunks.

Lemma agrees_start patterns : Agrees patterns visible_default false (mkDrawn [] Ground []).
Proof.
  split; [done|exists []; auto|done|]. intros H. right. apply shown_spec in H as [H|H]; done.
Qed.

(** ** Lemmas: stripping *)

Lemma span_length {A} (p : A -> bool) l : (length (snd (span p l)) <= length l)%nat.
Proof.
  induction l as [|x l IH]; cbn; [lia|]. destruct (p x); [|cbn; lia].
  destruct (span p l); cbn in *. lia.
Qed.

Lemma after_csi_split l rest :
  after_csi l = Some rest -> exists body f, l = 27 :: 91 :: body ++ f :: rest
    /\ forallb is_param body = true /\ is_ascii_alphabetic f = true.
Proof.
  unfold after_csi. destruct (strip_prefix [27; 91] l) as [body|] eqn:P; [|discriminate].
  apply strip_prefix_Some in P as ->. destruct (span is_param body) as [a r] eqn:S. cbn [snd].
  destruct r as [|f r]; [discriminate|]. destruct (is_ascii_alphabetic f) eqn:F; [|discriminate].
  intros [= <-]. exists a, f. destruct (span_spec is_param body) as (E & A & _). rewrite S in E, A.
  cbn [fst snd] in E, A. subst body. done.
Qed.

Lemma strip_fuel_enough n : forall m l, (length l <= n)%nat -> (length l <= m)%nat ->
  strip_ansi_fuel n l = strip_ansi_fuel m l.
Proof.
  induction n as [|n IH]; intros [|m] [|b l] Hn Hm; cbn [length] in *; try lia; try done.
  cbn [strip_ansi_fuel]. destruct (after_csi (b :: l)) as [rest|] eqn:A.
  - apply after_csi_split in A as (body & f & [= -> ->] & _). apply IH; len.
  - f_equal. apply IH; lia.
Qed.

Lemma strip_cons b l :
  strip_bytes (b :: l) =
  match after_csi (b :: l) with Some rest => strip_bytes rest | None => b :: strip_bytes l end.
Proof.
  unfold strip_bytes. cbn [length strip_ansi_fuel]. destruct (after_csi (b :: l)) as [rest|] eqn:A; [|done].
  apply after_csi_split in A as (body & f & [= -> ->] & _). apply strip_fuel_enough; len.
Qed.

Lemma to_utf8_cons c s : to_utf8 (c :: s) = utf8_char c ++ to_utf8 s.
Proof. done. Qed.

Lemma utf8_char_ascii c : c < 128 -> utf8_char c = [c].
Proof. intros H. unfold utf8_char. apply Z.ltb_lt in H as ->. done. Qed.

(** An ASCII prefix of a text's bytes is a prefix of the text. *)
Lemma to_utf8_prefix a : forall s rest,
  forallb is_char s = true -> Forall (fun b => b < 128) a -> to_utf8 s = a ++ rest ->
  exists r, s = a ++ r /\ rest = to_utf8 r.
Proof.
  induction a as [|x a IH]; intros s rest V A E; [exists s; done|].
  apply Forall_cons in A as [X A]. destruct s as [|c s]; [done|].
  cbn [forallb] in V. apply andb_prop in V as [Vc V]. rewrite to_utf8_cons in E.
  destruct (Z.lt_ge_cases c 128) as [L|L].
  - rewrite utf8_char_ascii in E by done. injection E as -> E.
    destruct (IH s rest V A E) as (r & -> & ->). exists r. done.
  - pose proof (utf8_char_high c Vc L) as H. unfold utf8_char in H, E.
    destruct (Z.ltb_spec c 128); [lia|].
    destruct (c <? 2048); [|destruct (c <? 65536)]; injection E as E _; apply Forall_cons in H as [H _]; lia.
Qed.

Lemma strip_high h : forall l, Forall (fun b => 128 <= b) h -> strip_bytes (h ++ l) = h ++ strip_bytes l.
Proof.
  induction h as [|b h IH]; intros l H; [done|]. apply Forall_cons in H as [B H].
  cbn [app]. rewrite strip_cons. replace (after_csi (b :: h ++ l)) with (@None bytes); [f_equal; auto|].
  unfold after_csi. cbn [strip_prefix]. destruct (Z.eqb_spec 27 b); [lia|done].
Qed.

Lemma csi_ascii body f :
  forallb is_param body = true -> is_ascii_alphabetic f = true ->
  Forall (fun b => b < 128) (27 :: 91 :: body ++ [f]).
Proof.
  intros B F. repeat constructor; [lia..|]. apply Forall_app. split; [|constructor; [|constructor]].
  - apply Forall_forall. intros b I. apply (proj1 (forallb_elem _ _) B) in I as P.
    unfold is_param, is_ascii_digit, in_range in P. lia.
  - unfold is_ascii_alphabetic, is_ascii_lowercase, is_ascii_uppercase, in_range in F. lia.
Qed.

(** Only whole characters are removed: the bytes left are the text of a subsequence. *)
Lemma strip_text n : forall s, (length s <= n)%nat -> forallb is_char s = true ->
  exists t, strip_bytes (to_utf8 s) = to_utf8 t /\ t `sublist_of` s.
Proof.
  induction n as [|n IH]; intros [|c s] L V; cbn [length] in L; try lia; try (exists []; done).
  pose proof V as V'. cbn [forallb] in V. apply andb_prop in V as [Vc V].
  destruct (IH s ltac:(lia) V) as (t & E & S).
  destruct (Z.lt_ge_cases c 128) as [A|A].
  - rewrite to_utf8_cons, utf8_char_ascii by done. cbn [app]. rewrite strip_cons.
    destruct (after_csi (c :: to_utf8 s)) as [rest|] eqn:C.
    + apply after_csi_split in C as (body & f & E' & B & F).
      destruct (to_utf8_prefix (27 :: 91 :: body ++ [f]) (c :: s) rest V' (csi_ascii body f B F)) as (r & Es & ->).
      { rewrite to_utf8_cons, utf8_char_ascii by done. cbn [app]. rewrite E'. cbn.
        rewrite <- app_assoc. done. }
      rewrite Es in V' |- *. destruct (IH r) as (u & -> & U).
      * apply (f_equal length) in Es. rewrite length_app in Es. len.
      * rewrite forallb_app in V'. apply andb_prop in V' as [_ ?]. done.
      * exists u. split; [done|]. by apply sublist_inserts_l.
    + exists (c :: t). rewrite to_utf8_cons, utf8_char_ascii, E by done. split; [done|by constructor].
  - exists (c :: t). rewrite !to_utf8_cons, strip_high, E by (by apply utf8_char_high).
    split; [done|by constructor].
Qed.

(** ** Theorems *)

(** Watching output in chunks, with only the end of the last one kept, reports a pattern
    exactly when it is in one run of the whole stream's text. *)
Theorem visible_chunking (c : bytes) (cs patterns : list bytes) :
  snd (feed_chunks visible_default (c :: cs) patterns) = shows (concat (c :: cs)) patterns
  /\ forall v, (length (tail (fst (feed v c patterns))) <= longest patterns - 1)%nat.
Proof.
  split.
  - apply (agrees_chunks patterns (c :: cs) visible_default false (mkDrawn [] Ground [])); [|done].
    apply agrees_start.
  - intros v. unfold feed. destruct (fold_left _ c (v, false)) as [w g]. cbn. rewrite length_drop. lia.
Qed.

(** A plain text is what is left of the characters, in order: the conversion back to a
    string cannot fail. *)
Theorem strip_ansi_text (s : bytes) :
  forallb is_char s = true ->
  from_utf8 (strip_bytes (to_utf8 s)) = Some (strip_ansi s) /\ strip_ansi s `sublist_of` s.
Proof.
  intros V. destruct (strip_text (length s) s (Nat.le_refl _) V) as (t & E & S).
  assert (T : forallb is_char t = true).
  { apply forallb_elem. intros x I. apply (proj1 (forallb_elem _ _) V).
    by eapply elem_of_sublist. }
  unfold strip_ansi. rewrite E, utf8_round_trip by done. done.
Qed.

Definition esc_text : bytes := [27; 91; 49; 109; 104; 105].
Lemma strip_ansi_text_witness :
  from_utf8 (strip_bytes (to_utf8 (esc_text ++ [8364]))) = Some [104; 105; 8364].
Proof.
  exact (proj1 (strip_ansi_text (esc_text ++ [8364]) eq_refl)).
Defined.

(** ** Examples *)

Definition s_ (x : string) : bytes := str x.

(** Text on both sides of a style change is joined, on both sides of a cursor move not. *)
Example joined_by_style : shows (s_ "rea" ++ [27] ++ s_ "[1mdy") [s_ "ready"] = true.
Proof. reflexivity. Qed.
Example split_by_move : shows (s_ "rea" ++ [27] ++ s_ "[2Cdy") [s_ "ready"] = false.
Proof. reflexivity. Qed.
Example split_chunks :
  snd (feed_chunks visible_default [s_ "re"; [27]; s_ "[3"; s_ "1mad"; s_ "y"] [s_ "ready"]) = true.
Proof. reflexivity. Qed.

(** A payload of an escape string is not text. *)
Example title_hidden : shows ([27] ++ s_ "]0;ready" ++ [7]) [s_ "ready"] = false.
Proof. reflexivity. Qed.

(** Stripping is not repeated: what a removed sequence leaves can be a sequence. *)
Example strip_once : strip_ansi ([27] ++ [27] ++ s_ "[mx" ++ s_ "") = [27] ++ s_ "x".
Proof. reflexivity. Qed.
Example strip_leaves_sequence : strip_ansi ([27; 27] ++ s_ "[m[m") = [27] ++ s_ "[m".
Proof. reflexivity. Qed.
