(* ===== verification/Tty.v ===== *)
(** Descriptors and the terminal of an interactive client: [crates/pty-client/src/tty.rs].
    The system calls answer from lists; what is modelled is the loops around them, the
    window's size and the spellings of the detach key. *)
From S2P Require Import Prelude Time Names Text Argv Protocol Client Visible.

(** What an interactive client does, in order: what it writes, and each read of the keyboard
    that gave bytes, with its moment. *)
Inductive Io : Type :=
  | ToStdout (b : bytes)
  | ToStderr (b : bytes)
  | ToSocket (b : bytes)
  | ToStream (b : bytes)
  | RawMode (on : bool)
  | CloseSocket
  | FromStdin (n : nat) (b : bytes).

(** One read of a socket or of a descriptor: bytes (none of them is the end), or a
    failure. *)
Inductive Read : Type := RdData (b : bytes) | RdErr (e : IoErr).

(** ** System calls restarted *)

(** [poll]: an interrupted wait is taken up again; [None] is a wait that goes on. *)
Fixpoint poll (calls : list (Result Z IoErr)) : option (Result Z IoErr) :=
  match calls with
  | [] => None
  | Ok n :: _ => Some (Ok n)
  | Err e :: calls => if is_kind Interrupted e then poll calls else Some (Err e)
  end.

Fixpoint read_fd (calls : list Read) : option Read :=
  match calls with
  | [] => None
  | RdErr e :: calls => if is_kind Interrupted e then read_fd calls else Some (RdErr e)
  | r :: _ => Some r
  end.

(** [write_all_fd]: each [write(2)] takes some of what is left, or fails; a full
    descriptor is waited for ([ready] is the answer of [poll]). *)
Inductive Write : Type := Wrote (n : nat) | Failed (e : IoErr) (ready : Result unit IoErr).
Fixpoint write_all_fd (buf : bytes) (calls : list Write) : option (bytes * Result unit IoErr) :=
  match buf with
  | [] => Some ([], Ok tt)
  | _ =>
      match calls with
      | [] => None
      | Wrote n :: calls =>
          '(out, r) ← write_all_fd (drop n buf) calls; Some (take n buf ++ out, r)
      | Failed e ready :: calls =>
          if is_kind Interrupted e then write_all_fd buf calls
          else if is_kind WouldBlock e then
            match ready with Ok _ => write_all_fd buf calls | Err e => Some ([], Err e) end
          else Some ([], Err e)
      end
  end.

(** ** The window *)

Record Winsize : Type := mkWinsize { ws_row : Z; ws_col : Z; ws_xpixel : Z; ws_ypixel : Z }.

Definition window_size_with_cell (ioctl : option Winsize) : option (Z * Z * Z * Z) :=
  let? ws := ioctl in
  let width := if 0 <? ws_col ws then ws_xpixel ws / ws_col ws else 0 in
  let height := if 0 <? ws_row ws then ws_ypixel ws / ws_row ws else 0 in
  Some (ws_row ws, ws_col ws, width, height).
Definition window_size (ioctl : option Winsize) : option (Z * Z) :=
  match window_size_with_cell ioctl with Some (rows, cols, _, _) => Some (rows, cols) | None => None end.
Definition size_or_default (ioctl : option Winsize) : Z * Z :=
  let '(rows, cols) := default (24, 80) (window_size ioctl) in
  (if rows =? 0 then 24 else rows, if cols =? 0 then 80 else cols).

(** ** The detach key *)

Definition DETACH_KEY : Z := 28.
Definition DOUBLE_TAP_MS : Z := 300.

Definition ENCODINGS : list bytes :=
  (fun x => 27 :: str x) <$> ["[92;5u"; "[92;69u"; "[92;133u"; "[92;197u"; "[27;5;92~"].

(** The first encoding the bytes start with, and what follows it. *)
Definition encoded (data : bytes) : option bytes :=
  match List.find (fun seq => starts_with seq data) ENCODINGS with
  | Some seq => Some (drop (length seq) data)
  | None => None
  end.
Fixpoint replace_encodings (fuel : nat) (data : bytes) : bytes :=
  match fuel, data with
  | S fuel, b :: rest =>
      match encoded data with
      | Some rest => DETACH_KEY :: replace_encodings fuel rest
      | None => b :: replace_encodings fuel rest
      end
  | _, _ => data
  end.
Definition normalize_detach_key (data : bytes) : bytes :=
  if negb (existsb (contains data) ENCODINGS) then data
  else replace_encodings (length data) data.

(** ** Facts *)

(** A write that succeeds has written every byte, in order; a failed one a prefix. *)
Lemma write_all_spec calls : forall buf out r,
  write_all_fd buf calls = Some (out, r) ->
  out `prefix_of` buf /\ (r = Ok tt -> out = buf).
Proof.
  induction calls as [|[n|e ready] calls IH]; intros [|b buf] out r; cbn [write_all_fd];
    try (intros [= <- <-]; split; [apply prefix_nil|done]); try discriminate.
  - destruct (write_all_fd (drop n (b :: buf)) calls) as [[o r']|] eqn:E; cbn; [|discriminate].
    intros [= <- <-]. apply IH in E as [P F]. rewrite <- (take_drop n (b :: buf)) at 2.
    split; [by apply prefix_app|]. intros H. rewrite (F H), take_drop. done.
  - destruct (is_kind Interrupted e); [apply IH|]. destruct (is_kind WouldBlock e); [|].
    + destruct ready as [u|e']; [apply IH|]. intros [= <- <-]. split; [apply prefix_nil|done].
    + intros [= <- <-]. split; [apply prefix_nil|done].
Qed.

Lemma starts_with_drop p l : starts_with p l = true -> l = p ++ drop (length p) l.
Proof. rewrite starts_with_app. intros [r ->]. rewrite drop_app_length. done. Qed.

Lemma encoded_spec data rest :
  encoded data = Some rest -> exists seq, seq ∈ ENCODINGS /\ data = seq ++ rest.
Proof.
  unfold encoded. destruct (List.find _ ENCODINGS) as [seq|] eqn:F; [|discriminate].
  intros [= <-]. apply List.find_some in F as [I S]. exists seq. split; [by apply list_elem_of_In|].
  by apply starts_with_drop.
Qed.

Lemma encoding_nonempty seq : seq ∈ ENCODINGS -> exists b l, seq = b :: l.
Proof.
  intros I. assert (H : forallb (fun s => match s with [] => false | _ => true end) ENCODINGS = true) by done.
  apply (proj1 (forallb_elem _ _) H) in I. destruct seq as [|b l]; [done|eauto].
Qed.

(** The search that skips the copy changes nothing: without an encoding in it the data
    is its own replacement. *)
Lemma replace_none fuel : forall data,
  existsb (contains data) ENCODINGS = false -> replace_encodings fuel data = data.
Proof.
  induction fuel as [|fuel IH]; intros [|b data] N; cbn [replace_encodings]; try done.
  destruct (encoded (b :: data)) as [rest|] eqn:E.
  - apply encoded_spec in E as (seq & I & E). rewrite E in N.
    assert (H : existsb (contains (seq ++ rest)) ENCODINGS = true); [|congruence].
    apply existsb_elem. exists seq. split; [done|]. apply contains_spec. exists [], rest. done.
  - f_equal. apply IH. destruct (existsb (contains data) ENCODINGS) eqn:H; [|done].
    apply existsb_elem in H as (seq & I & H).
    assert (H' : existsb (contains (b :: data)) ENCODINGS = true); [|congruence].
    apply existsb_elem. exists seq. split; [done|]. by apply (contains_app_r [b] data).
Qed.

Lemma normalize_slow data : normalize_detach_key data = replace_encodings (length data) data.
Proof.
  unfold normalize_detach_key. destruct (existsb (contains data) ENCODINGS) eqn:N; cbn; [done|].
  symmetry. by apply replace_none.
Qed.

Lemma replace_fuel n : forall m data, (length data <= n)%nat -> (length data <= m)%nat ->
  replace_encodings n data = replace_encodings m data.
Proof.
  induction n as [|n IH]; intros [|m] [|b data] Hn Hm; cbn [length] in *; try lia; try done.
  cbn [replace_encodings]. destruct (encoded (b :: data)) as [rest|] eqn:E; f_equal; [|apply IH; lia].
  apply encoded_spec in E as (seq & I & E). apply encoding_nonempty in I as (x & l & ->).
  injection E as -> ->. apply IH; len.
Qed.

(** One step of the normalised reading. *)
Lemma normalize_step b data :
  normalize_detach_key (b :: data) =
  match encoded (b :: data) with
  | Some rest => DETACH_KEY :: normalize_detach_key rest
  | None => b :: normalize_detach_key data
  end.
Proof.
  rewrite normalize_slow. cbn [length replace_encodings].
  destruct (encoded (b :: data)) as [rest|] eqn:E; f_equal; rewrite normalize_slow; [|done].
  apply encoded_spec in E as (seq & I & E). apply encoding_nonempty in I as (x & l & ->).
  injection E as -> ->. apply replace_fuel; len.
Qed.

(** Bytes without the escape byte are passed as they are. *)
Lemma normalize_plain data : memb 27 data = false -> normalize_detach_key data = data.
Proof.
  intros N. unfold normalize_detach_key. destruct (existsb (contains data) ENCODINGS) eqn:E; [|done].
  exfalso. apply existsb_elem in E as (seq & I & C). apply contains_spec in C as (a & b & ->).
  assert (H : forallb (memb 27) ENCODINGS = true) by done.
  apply (proj1 (forallb_elem _ _) H) in I. unfold memb in *.
  rewrite !existsb_app, I, orb_true_r in N. done.
Qed.

(** ** Examples *)

Example kitty_detach : normalize_detach_key (str "a" ++ 27 :: str "[92;5u" ++ str "b") = [97; 28; 98].
Proof. reflexivity. Qed.
Example other_key_kept : normalize_detach_key (27 :: str "[92;6u") = 27 :: str "[92;6u".
Proof. reflexivity. Qed.
Example zero_window : size_or_default (Some (mkWinsize 0 0 0 0)) = (24, 80).
Proof. reflexivity. Qed.
Example partial_write :
  write_all_fd [1; 2; 3] [Wrote 1; Failed (Os 4) (Ok tt); Failed (Os 11) (Ok tt); Wrote 2] = Some ([1; 2; 3], Ok tt).
Proof. reflexivity. Qed.
