(* ===== verification/Connection.v ===== *)
(** Sessions driven by a program: [crates/pty-client/src/connection.rs] (the blocking
    half) and [send.rs].

    The answers of the clock and of the socket come each at a moment of its own; a read is
    given the timeout the socket has then. *)
From S2P Require Import Prelude Json Metadata Time Names Text Argv Protocol Client Tty.

(** ** Events *)

Inductive SessionEvent : Type :=
  | EvGeometry (rows cols : Z)
  | EvScreen (b : bytes)
  | EvData (b : bytes)
  | EvExit (code : Z)
  | EvClosed.
#[export] Instance SessionEvent_eq_dec : EqDecision SessionEvent.
Proof. solve_decision. Defined.

Definition packet_event (p : Packet) : option SessionEvent :=
  match type_ p with
  | Geometry => let '(rows, cols) := decode_geometry (payload p) in Some (EvGeometry rows cols)
  | Screen => Some (EvScreen (payload p))
  | Data => Some (EvData (payload p))
  | Exit => Some (EvExit (decode_exit (payload p)))
  | _ => None
  end.

(** ** The connection *)

Record SessionConnection : Type := mkConn {
  socket : bool;
  read_timeout : option Z;       (* the socket's own, in nanoseconds *)
  reader : bytes;
  rows : Z;
  cols : Z;
  effective_rows : Z;
  effective_cols : Z;
  screen : bytes;
  pending : list SessionEvent;
  closed : bool;
  moment : nat;
  sent : list bytes;
  received : list bytes          (* the chunks read and decoded, in order *)
}.
#[export] Instance SessionConnection_eta : Settable SessionConnection := fun c =>
  mkConn (socket c) (read_timeout c) (reader c) (rows c) (cols c) (effective_rows c) (effective_cols c)
    (screen c) (pending c) (closed c) (moment c) (sent c) (received c).

Record ConnEnv : Type := mkConnEnv {
  e_now : nat -> Z;
  e_read : nat -> option Z -> Read;
  e_write : nat -> Result unit IoErr
}.

(** [UnixStream::set_read_timeout]: a zero timeout is refused, and the one before stays. *)
Definition set_read_timeout (t old : option Z) : option Z :=
  match t with Some d => if d =? 0 then old else Some d | None => None end.

(** One packet of a read: its geometry is applied at once, its event queued. *)
Definition queue_packet (c : SessionConnection) (p : Packet) : SessionConnection :=
  match packet_event p with
  | Some ev =>
      let c := match ev with
               | EvGeometry r k => c <| effective_rows := r |> <| effective_cols := k |>
               | _ => c
               end in
      c <| pending := pending c ++ [ev] |>
  | None => c
  end.
Definition queue_packets (c : SessionConnection) (ps : list Packet) : SessionConnection :=
  fold_left queue_packet ps c.

Definition pop_pending (c : SessionConnection) : option SessionEvent * SessionConnection :=
  match pending c with
  | ev :: rest => (Some ev, c <| pending := rest |>)
  | [] => (None, c)
  end.

Definition shut (c : SessionConnection) : SessionConnection := c <| closed := true |> <| socket := false |>.

Section Operations.
Context (e : ConnEnv) (os_text : Z -> bytes) (name : bytes) (socket_path : bytes).

Definition read_more (timeout : option Z) (c : SessionConnection)
  : Result (option SessionEvent) ClientError * SessionConnection :=
  match pending c with
  | ev :: rest => (Ok (Some ev), c <| pending := rest |>)
  | [] =>
      if closed c || negb (socket c) then (Ok (Some EvClosed), c)
      else
        let t := set_read_timeout timeout (read_timeout c) in
        let c := c <| read_timeout := t |> <| moment ::= S |> in
        match e_read e (Nat.pred (moment c)) t with
        | RdErr err =>
            if timed_out_read err then (Ok None, c)
            else (Err (map_io_error os_text name false Strict (str "read") None err), shut c)
        | RdData data =>
            if beq data [] then (Ok (Some EvClosed), shut c)
            else match Protocol.feed (reader c) data with
                 | (b, Err _) => (Ok (Some EvClosed), shut (c <| reader := b |>))
                 | (b, Ok ps) =>
                     let c := c <| reader := b |> <| received := received c ++ [data] |> in
                     let '(ev, c) := pop_pending (queue_packets c ps) in (Ok ev, c)
                 end
        end
  end.

(** What is left until a deadline, at the connection's moment. *)
Definition remaining (deadline : option Z) (c : SessionConnection) : option Z * SessionConnection :=
  match deadline with
  | Some d => (Some (Z.max 0 (d - e_now e (moment c))), c <| moment ::= S |>)
  | None => (None, c)
  end.

(** The loop of [attach_over], [before_screen] being what came before the first SCREEN. *)
Fixpoint await_screen (fuel : nat) (deadline : option Z) (before_screen : list SessionEvent)
  (c : SessionConnection) : option (Result SessionConnection ClientError) :=
  match fuel with
  | O => None
  | S fuel =>
      let '(left_, c) := remaining deadline c in
      if match left_ with Some 0 => true | _ => false end then Some (Err (ClosedBeforeScreen name))
      else match read_more left_ c with
           | (Err err, _) => Some (Err err)
           | (Ok (Some (EvScreen s)), c) =>
               Some (Ok (c <| screen := s |> <| pending := before_screen ++ pending c |>))
           | (Ok (Some EvClosed), _) => Some (Err (ClosedBeforeScreen name))
           | (Ok (Some (EvGeometry _ _)), c) | (Ok None, c) => await_screen fuel deadline before_screen c
           | (Ok (Some ev), c) => await_screen fuel deadline (before_screen ++ [ev]) c
           end
  end.

Definition new_connection (r k : Z) (n : nat) (out : list bytes) : SessionConnection :=
  mkConn true None [] r k r k [] [] false n out [].

Definition attach_over (fuel : nat) (r k : Z) (timeout : option Z) : option (Result SessionConnection ClientError) :=
  match e_write e 0 with
  | Err err => Some (Err (map_io_error os_text name false Strict (str "write") (Some socket_path) err))
  | Ok _ =>
      let deadline := (fun t => e_now e 1 + t) <$> timeout in
      await_screen fuel deadline [] (new_connection r k 2 [encode_attach r k])
  end.

Fixpoint next_event_loop (fuel : nat) (deadline : option Z) (c : SessionConnection)
  : option (Result (option SessionEvent) ClientError * SessionConnection) :=
  match fuel with
  | O => None
  | S fuel =>
      let '(left_, c) := remaining deadline c in
      match read_more left_ c with
      | (Err err, c) => Some (Err err, c)
      | (Ok (Some ev), c) => Some (Ok (Some ev), c)
      | (Ok None, c) =>
          if match left_ with Some 0 => true | _ => false end then Some (Ok None, c)
          else next_event_loop fuel deadline c
      end
  end.
Definition next_event (fuel : nat) (timeout : option Z) (c : SessionConnection)
  : option (Result (option SessionEvent) ClientError * SessionConnection) :=
  match timeout with
  | Some t => next_event_loop fuel (Some (e_now e (moment c) + t)) (c <| moment ::= S |>)
  | None => next_event_loop fuel None c
  end.

(** Requests: a closed connection drops them; a failed write is not told. *)
Definition put (b : bytes) (c : SessionConnection) : SessionConnection := c <| sent := sent c ++ [b] |>.
Definition write (data : bytes) (c : SessionConnection) : SessionConnection :=
  if closed c || negb (socket c) then c else put (encode_data data) c.
Definition reset_input_modes (c : SessionConnection) : SessionConnection :=
  if socket c then put (encode_packet ResetInputModes []) c else c.
Definition resize (r k : Z) (c : SessionConnection) : SessionConnection :=
  if closed c || negb (socket c) then c else put (encode_resize r k) (c <| rows := r |> <| cols := k |>).
Definition disconnect (c : SessionConnection) : SessionConnection :=
  let c := if socket c then put encode_detach (c <| socket := false |>) else c in c <| closed := true |>.
Definition connected (c : SessionConnection) : bool := socket c && negb (closed c).

(** ** One-shot requests *)

Definition BRACKETED_PASTE_START : bytes := 27 :: str "[200~".
Definition BRACKETED_PASTE_END : bytes := 27 :: str "[201~".

(** The packets of [send_data] and [send_over] and the pauses before them; [paste] is what
    the session's status says of bracketed paste, asked only when it matters. *)
Inductive Sending : Type := Pause (ms : Z) | Packet_ (b : bytes).
Definition send_plan (delay_ms : Z) (paste : bool) (items : list bytes) : list Sending :=
  (if paste then [Packet_ (encode_data BRACKETED_PASTE_START)] else [])
  ++ concat (imap (fun i item =>
       (if (0 <? i)%nat && (0 <? delay_ms) then [Pause delay_ms] else []) ++ [Packet_ (encode_data item)]) items)
  ++ (if paste then [Packet_ (encode_data BRACKETED_PASTE_END)] else []).

(** The writes in order up to the first failure. *)
Fixpoint perform (n : nat) (plan : list Sending) : list bytes * Result unit IoErr :=
  match plan with
  | [] => ([], Ok tt)
  | Pause _ :: plan => perform n plan
  | Packet_ b :: plan =>
      match e_write e n with
      | Ok _ => let '(out, r) := perform (S n) plan in (b :: out, r)
      | Err err => ([], Err err)
      end
  end.
Definition send_data (set : GoneSet) (remote paste_asked : bool) (bracketed : Result bool ClientError)
  (delay_ms : Z) (items : list bytes) : list bytes * Result unit ClientError :=
  let paste := if paste_asked && match items with [] => false | _ => true end then bracketed else Ok false in
  match paste with
  | Err err => ([], Err err)
  | Ok paste =>
      let '(out, r) := perform 0 (send_plan delay_ms paste items) in
      (out, match r with
            | Ok _ => Ok tt
            | Err err => Err (map_io_error os_text name remote set (str "write") (Some socket_path) err)
            end)
  end.

(** [peek_screen_bytes_over]: one PEEK, the first SCREEN, within five seconds. *)
Inductive PeekScreenReadError : Type := PeekClient (err : ClientError) | PeekTimedOut.
Definition into_client_error (err : PeekScreenReadError) : ClientError :=
  match err with PeekClient err => err | PeekTimedOut => ClosedBeforeScreen name end.
Definition first_screen (ps : list Packet) : option bytes :=
  payload <$> List.find (fun p => match type_ p with Screen => true | _ => false end) ps.

Fixpoint peek_screen_loop (fuel : nat) (deadline : Z) (buffer : bytes) (n : nat)
  : option (Result bytes PeekScreenReadError) :=
  match fuel with
  | O => None
  | S fuel =>
      let left_ := Z.max 0 (deadline - e_now e n) in
      if left_ =? 0 then Some (Err PeekTimedOut)
      else match e_read e (S n) (Some left_) with
           | RdErr err =>
               if timed_out_read err then Some (Err PeekTimedOut)
               else Some (Err (PeekClient (map_io_error os_text name false Strict (str "read") None err)))
           | RdData data =>
               if beq data [] then Some (Err (PeekClient (ClosedBeforeScreen name)))
               else match Protocol.feed buffer data with
                    | (_, Err m) => Some (Err (PeekClient (Connection m)))
                    | (buffer, Ok ps) =>
                        match first_screen ps with
                        | Some s => Some (Ok s)
                        | None => peek_screen_loop fuel deadline buffer (n + 2)
                        end
                    end
           end
  end.
Definition PEEK_SCREEN_TIMEOUT : Z := 5000000000.
Definition peek_screen_bytes_over (fuel : nat) (timeout : Z) : option (Result bytes PeekScreenReadError) :=
  match e_write e 1 with
  | Err err => Some (Err (PeekClient (map_io_error os_text name false Strict (str "write") (Some socket_path) err)))
  | Ok _ => peek_screen_loop fuel (e_now e 0 + timeout) [] 2
  end.

(** [retained_screen_bytes_in] of a session's record. *)
Definition retained_screen_bytes (record : option SessionMetadata) : option bytes :=
  let? m := record in
  let? lines := last_lines m in
  Some (concat ((fun l => to_utf8 l ++ [10]) <$> lines)).

(** [peek_screen_bytes_in]: a full peek of a session that is gone falls back to its
    record. *)
Definition peek_screen_bytes (full : bool) (peeked : Result bytes PeekScreenReadError)
  (record : option SessionMetadata) : Result bytes ClientError :=
  match peeked with
  | Err (PeekClient (NotReachable _ _ as err)) | Err (PeekClient (ClosedBeforeScreen _ as err)) =>
      if full then match retained_screen_bytes record with Some b => Ok b | None => Err err end else Err err
  | Err err => Err (into_client_error err)
  | Ok b => Ok b
  end.

End Operations.

(** ** What a client sees of a stream *)

Definition is_screen_event (ev : SessionEvent) : bool := match ev with EvScreen _ => true | _ => false end.
Definition not_geometry (ev : SessionEvent) : bool := match ev with EvGeometry _ _ => false | _ => true end.

(** The events of a stream in its order, without the first screen and the geometries
    before it. *)
Definition visible (evs : list SessionEvent) : list SessionEvent :=
  let '(pre, rest) := span (fun ev => negb (is_screen_event ev)) evs in
  List.filter not_geometry pre ++ match rest with [] => [] | _ :: post => post end.
Definition first_screen_event (evs : list SessionEvent) : option bytes :=
  match List.find is_screen_event evs with Some (EvScreen s) => Some s | _ => None end.

Definition last_geometry (evs : list SessionEvent) (d : Z * Z) : Z * Z :=
  fold_left (fun acc ev => match ev with EvGeometry r k => (r, k) | _ => acc end) evs d.

Lemma span_app_stop {A} (p : A -> bool) pre x post more :
  forallb p pre = true -> p x = false -> span p ((pre ++ x :: post) ++ more) = (pre, x :: post ++ more).
Proof.
  intros P X. induction pre as [|y pre IH]; cbn in *; [rewrite X; done|].
  apply andb_prop in P as [Y P]. rewrite Y, (IH P). done.
Qed.

Lemma visible_screen pre s post more :
  forallb (fun ev => negb (is_screen_event ev)) pre = true ->
  visible ((pre ++ EvScreen s :: post) ++ more) = List.filter not_geometry pre ++ post ++ more.
Proof. intros P. unfold visible. rewrite span_app_stop by done. done. Qed.

Lemma first_screen_app pre s post :
  forallb (fun ev => negb (is_screen_event ev)) pre = true ->
  first_screen_event (pre ++ EvScreen s :: post) = Some s.
Proof.
  unfold first_screen_event. induction pre as [|ev pre IH]; cbn; [done|].
  destruct (is_screen_event ev); [done|exact IH].
Qed.

Lemma queue_packets_spec ps : forall c,
  let c' := queue_packets c ps in
  pending c' = pending c ++ omap packet_event ps
  /\ (effective_rows c', effective_cols c')
     = last_geometry (omap packet_event ps) (effective_rows c, effective_cols c)
  /\ reader c' = reader c /\ socket c' = socket c /\ closed c' = closed c /\ moment c' = moment c
  /\ screen c' = screen c /\ received c' = received c.
Proof.
  unfold queue_packets. induction ps as [|p ps IH]; intros c; cbn zeta in *.
  - rewrite app_nil_r. done.
  - cbn [fold_left]. destruct (IH (queue_packet c p)) as (P & G & R). rewrite P, G.
    destruct R as (-> & -> & -> & -> & -> & ->). unfold queue_packet.
    change (omap packet_event (p :: ps)) with (match packet_event p with Some ev => ev :: omap packet_event ps | None => omap packet_event ps end).
    destruct (packet_event p) as [ev|]; [|done]. destruct ev; cbn; rewrite <- app_assoc; done.
Qed.

Section Order.
Context (e : ConnEnv) (os_text : Z -> bytes) (name : bytes) (r0 k0 : Z).
Abbreviation read_more := (read_more e os_text name).
Abbreviation next_event := (next_event e os_text name).

(** The connection has read these packets: what is not handed out is queued. *)
Definition streaming (c : SessionConnection) (evs : list SessionEvent) : Prop :=
  exists ps, feed_all [] (received c) = (reader c, Ok ps) /\ evs = omap packet_event ps
    /\ (effective_rows c, effective_cols c) = last_geometry evs (r0, k0).

Lemma feed_all_step chunks : forall buffer b ps d b' qs,
  feed_all buffer chunks = (b, Ok ps) -> Protocol.feed b d = (b', Ok qs) ->
  feed_all buffer (chunks ++ [d]) = (b', Ok (ps ++ qs)).
Proof.
  induction chunks as [|x chunks IH]; intros buffer b ps d b' qs; cbn [app feed_all].
  - intros [= <- <-] ->. rewrite app_nil_r. done.
  - destruct (Protocol.feed buffer x) as [b1 [q1|e1]]; [|discriminate].
    destruct (feed_all b1 chunks) as [b2 [q2|e2]] eqn:F; [|discriminate]. intros [= <- <-] D.
    rewrite (IH _ _ _ _ _ _ F D), app_assoc. done.
Qed.

Lemma last_geometry_app a b d : last_geometry (a ++ b) d = last_geometry b (last_geometry a d).
Proof. apply fold_left_app. Qed.

(** One event handed out is the next of the stream, or the end. *)
Lemma read_more_spec timeout c evs ev c' :
  streaming c evs -> read_more timeout c = (Ok (Some ev), c') ->
  (ev = EvClosed /\ pending c = []) \/ exists more, streaming c' (evs ++ more) /\ pending c ++ more = ev :: pending c'
                  /\ screen c' = screen c.
Proof.
  intros (ps & F & -> & G). unfold Connection.read_more.
  destruct (pending c) as [|x rest] eqn:P.
  - destruct (closed c || negb (socket c)); [intros [= <- <-]; by left|].
    set (c1 := c <| read_timeout := _ |> <| moment ::= S |>). cbn [moment Nat.pred] in *.
    change (Nat.pred (moment c1)) with (moment c).
    destruct (e_read e (moment c) _) as [d|err] eqn:D.
    + destruct (beq d []); [intros [= <- <-]; by left|]. change (reader c1) with (reader c).
      destruct (Protocol.feed (reader c) d) as [b [qs|m]] eqn:E; [|intros [= <- <-]; by left].
      set (c0 := c1 <| reader := b |> <| received := _ |>).
      destruct (queue_packets_spec qs c0) as (Q1 & Q2 & Q3 & _ & _ & _ & Q4 & Q5).
      set (c2 := queue_packets c0 qs) in *. unfold pop_pending.
      assert (Q1' : pending c2 = omap packet_event qs).
      { rewrite Q1. change (pending c ++ omap packet_event qs = omap packet_event qs). rewrite P. done. }
      rewrite Q1'. destruct (omap packet_event qs) as [|y rest] eqn:O; [discriminate|].
      intros [= <- <-]. right. exists (y :: rest). split; [|done].
      exists (ps ++ qs). split_and!.
      * cbn. rewrite Q3, Q5. cbn. by eapply feed_all_step.
      * rewrite omap_app, O. done.
      * cbn. rewrite last_geometry_app, <- G, <- O. rewrite Q2. rewrite O. done.
    + destruct (timed_out_read err); discriminate.
  - intros [= <- <-]. right. exists []. rewrite !app_nil_r. split; [|done]. exists ps. done.
Qed.

(** A read that gives no event changes the stream alone. *)
Lemma read_more_none timeout c evs c' :
  streaming c evs -> read_more timeout c = (Ok None, c') ->
  exists more, streaming c' (evs ++ more) /\ pending c ++ more = pending c' /\ screen c' = screen c.
Proof.
  intros (ps & F & -> & G). unfold Connection.read_more.
  destruct (pending c) as [|x rest] eqn:P; [|discriminate].
  destruct (closed c || negb (socket c)); [discriminate|].
  set (c1 := c <| read_timeout := _ |> <| moment ::= S |>). change (Nat.pred (moment c1)) with (moment c).
  destruct (e_read e (moment c) _) as [d|err] eqn:D.
  - destruct (beq d []); [discriminate|]. change (reader c1) with (reader c).
    destruct (Protocol.feed (reader c) d) as [b [qs|m]] eqn:E; [|discriminate].
    set (c0 := c1 <| reader := b |> <| received := _ |>).
      destruct (queue_packets_spec qs c0) as (Q1 & Q2 & Q3 & _ & _ & _ & Q4 & Q5).
    set (c2 := queue_packets c0 qs) in *. unfold pop_pending.
    assert (Q1' : pending c2 = omap packet_event qs).
    { rewrite Q1. change (pending c ++ omap packet_event qs = omap packet_event qs). rewrite P. done. }
    rewrite Q1'. destruct (omap packet_event qs) as [|y rest] eqn:O; [|discriminate].
    intros [= <-]. exists []. rewrite app_nil_r. split; [|rewrite Q1'; done].
    exists (ps ++ qs). split_and!.
    + rewrite Q3, Q5. by eapply feed_all_step.
    + rewrite omap_app, O, app_nil_r. done.
    + rewrite Q2. cbn. exact G.
  - destruct (timed_out_read err); [|discriminate]. intros [= <-]. exists []. rewrite app_nil_r.
    split; [|done]. exists ps. done.
Qed.

(** A connection that is up has handed out a prefix of what is visible, the rest queued. *)
Definition delivers (c : SessionConnection) (handed : list SessionEvent) : Prop :=
  exists pre s post, forallb (fun ev => negb (is_screen_event ev)) pre = true
    /\ streaming c (pre ++ EvScreen s :: post) /\ screen c = s
    /\ List.filter not_geometry pre ++ post = handed ++ pending c.

Lemma delivers_more c c' handed out more pre s post :
  forallb (fun ev => negb (is_screen_event ev)) pre = true ->
  List.filter not_geometry pre ++ post = handed ++ pending c -> screen c = s -> screen c' = screen c ->
  streaming c' ((pre ++ EvScreen s :: post) ++ more) -> pending c ++ more = out ++ pending c' ->
  delivers c' (handed ++ out).
Proof.
  intros N V S S' T P. exists pre, s, (post ++ more). split_and!; [done|by rewrite <- app_assoc in T|congruence|].
  rewrite app_assoc, V, <- !app_assoc, P. done.
Qed.

Lemma remaining_stream deadline c evs :
  streaming c evs -> streaming (snd (remaining e deadline c)) evs
  /\ pending (snd (remaining e deadline c)) = pending c /\ screen (snd (remaining e deadline c)) = screen c.
Proof. unfold remaining. destruct deadline; done. Qed.

Lemma await_screen_delivers fuel deadline : forall handed before c c',
  forallb (fun ev => negb (is_screen_event ev)) handed = true -> before = List.filter not_geometry handed ->
  streaming c (handed ++ pending c) ->
  await_screen e os_text name fuel deadline before c = Some (Ok c') -> delivers c' [].
Proof.
  induction fuel as [|fuel IH]; intros handed before c c' N -> T; cbn [await_screen]; [discriminate|].
  pose proof (remaining_stream deadline c _ T) as (T1 & P1 & _).
  destruct (remaining e deadline c) as [left_ c1]. cbn [snd] in *.
  destruct (match left_ with Some 0 => true | _ => false end); [discriminate|].
  destruct (read_more left_ c1) as [[[ev|]|err] c2] eqn:R; [| |discriminate].
  - apply (read_more_spec _ _ _ _ _ T1) in R as [[-> _]|(more & T2 & P2 & _)]; [discriminate|].
    rewrite P1 in P2. rewrite <- app_assoc, P2 in T2.
    assert (Next : forall before', is_screen_event ev = false ->
              before' = List.filter not_geometry (handed ++ [ev]) ->
              await_screen e os_text name fuel deadline before' c2 = Some (Ok c') -> delivers c' []).
    { intros before' E B A. eapply (IH (handed ++ [ev])); [|exact B| |exact A].
      - rewrite forallb_app, N. cbn. rewrite E. done.
      - rewrite <- app_assoc. done. }
    rewrite List.filter_app in Next. cbn [List.filter not_geometry] in Next.
    destruct ev as [r k|s|d|code|]; try discriminate; try (by apply Next).
    + intros A. apply (Next (List.filter not_geometry handed)); [done|symmetry; apply app_nil_r|exact A].
    + intros [= <-]. exists handed, s, (pending c2). split_and!; done.
  - apply (read_more_none _ _ _ _ T1) in R as (more & T2 & P2 & _). rewrite P1 in P2.
    rewrite <- app_assoc, P2 in T2. apply (IH handed); done.
Qed.

Lemma next_event_delivers fuel deadline : forall c handed r c',
  delivers c handed -> next_event_loop e os_text name fuel deadline c = Some (r, c') ->
  match r with
  | Ok (Some EvClosed) => True
  | Ok (Some ev) => delivers c' (handed ++ [ev])
  | Ok None => delivers c' handed
  | Err _ => True
  end.
Proof.
  induction fuel as [|fuel IH]; intros c handed r c' (pre & s & post & N & T & S & V); cbn [next_event_loop]; [discriminate|].
  pose proof (remaining_stream deadline c _ T) as (T1 & P1 & S1).
  destruct (remaining e deadline c) as [left_ c1]. cbn [snd] in *. rewrite <- P1 in V.
  destruct (read_more left_ c1) as [[[ev|]|err] c2] eqn:R.
  - intros [= <- <-]. apply (read_more_spec _ _ _ _ _ T1) in R as [[-> _]|(more & T2 & P2 & S2)]; [done|].
    assert (D : delivers c2 (handed ++ [ev])).
    { eapply (delivers_more c1 c2 handed [ev] more); try done; congruence. }
    destruct ev; done.
  - apply (read_more_none _ _ _ _ T1) in R as (more & T2 & P2 & S2).
    assert (D : delivers c2 handed).
    { rewrite <- (app_nil_r handed). eapply (delivers_more c1 c2 handed [] more); try done; congruence. }
    destruct (match left_ with Some 0 => true | _ => false end); [intros [= <- <-]; exact D|by apply IH].
  - intros [= <- _]. done.
Qed.
End Order.

(** [next_event] again and again, with these timeouts, until the end or a failure. *)
Fixpoint collect (e : ConnEnv) (os_text : Z -> bytes) (name : bytes) (fuel : nat) (timeouts : list (option Z))
  (c : SessionConnection) : list SessionEvent * SessionConnection :=
  match timeouts with
  | [] => ([], c)
  | t :: timeouts =>
      match next_event e os_text name fuel t c with
      | Some (Ok (Some EvClosed), _) | Some (Err _, _) | None => ([], c)
      | Some (Ok (Some ev), c) =>
          let '(evs, c) := collect e os_text name fuel timeouts c in (ev :: evs, c)
      | Some (Ok None, c) => collect e os_text name fuel timeouts c
      end
  end.

Lemma collect_delivers e os_text name r0 k0 fuel timeouts : forall c handed,
  delivers r0 k0 c handed ->
  delivers r0 k0 (snd (collect e os_text name fuel timeouts c))
    (handed ++ fst (collect e os_text name fuel timeouts c)).
Proof.
  induction timeouts as [|t timeouts IH]; intros c handed D; cbn [collect]; [rewrite app_nil_r; done|].
  destruct (next_event e os_text name fuel t c) as [[r c']|] eqn:N; [|cbn; rewrite app_nil_r; done].
  assert (K : match r with
    | Ok (Some EvClosed) => True
    | Ok (Some ev) => delivers r0 k0 c' (handed ++ [ev])
    | Ok None => delivers r0 k0 c' handed
    | Err _ => True
    end).
  { unfold next_event in N. destruct t as [d|].
    - refine (next_event_delivers e os_text name r0 k0 fuel _ _ handed r c' _ N).
      destruct D as (pre & s & post & D). exists pre, s, post. exact D.
    - exact (next_event_delivers e os_text name r0 k0 fuel None c handed r c' D N). }
  destruct r as [[ev|]|err]; [|apply IH, K|cbn; rewrite app_nil_r; done].
  assert (Go : delivers r0 k0 c' (handed ++ [ev]) ->
    delivers r0 k0 (snd (let '(evs, c) := collect e os_text name fuel timeouts c' in (ev :: evs, c)))
      (handed ++ fst (let '(evs, c) := collect e os_text name fuel timeouts c' in (ev :: evs, c)))).
  { intros D'. specialize (IH c' _ D'). destruct (collect e os_text name fuel timeouts c').
    cbn [fst snd] in *. rewrite <- app_assoc in IH. exact IH. }
  destruct ev; try (apply Go, K). cbn. rewrite app_nil_r. done.
Qed.

(** However the stream is cut into reads and the waits are timed, a program that attaches
    gets the first screen and then every event once, in the order sent: none is lost
    before the screen, none repeated after it; its grid is the last one sent. *)
Theorem session_in_order (e : ConnEnv) (os_text : Z -> bytes) (name socket_path : bytes) (r k : Z)
  (timeout : option Z) (fuel : nat) (timeouts : list (option Z)) (c : SessionConnection) :
  attach_over e os_text name socket_path fuel r k timeout = Some (Ok c) ->
  let '(evs, c') := collect e os_text name fuel timeouts c in
  exists ps, feed_all [] (received c') = (reader c', Ok ps)
    /\ first_screen_event (omap packet_event ps) = Some (screen c')
    /\ visible (omap packet_event ps) = evs ++ pending c'
    /\ (effective_rows c', effective_cols c') = last_geometry (omap packet_event ps) (r, k).
Proof.
  unfold attach_over. destruct (e_write e 0); [|discriminate]. intros A.
  assert (D : delivers r k c []).
  { eapply (await_screen_delivers e os_text name r k fuel _ [] []); [done|done| |exact A].
    exists []. done. }
  pose proof (collect_delivers e os_text name r k fuel timeouts c [] D) as K.
  destruct (collect e os_text name fuel timeouts c) as [evs c']. cbn [fst snd] in K.
  destruct K as (pre & s & post & N & (ps & F & E & G) & <- & V).
  exists ps. rewrite <- E. split_and!; try done.
  - by apply first_screen_app.
  - rewrite <- (app_nil_r (pre ++ _)), visible_screen, app_nil_r by done. exact V.
Qed.

(** ** Examples *)

Definition demo_reads : list bytes :=
  [take 3 (encode_geometry 30 100); drop 3 (encode_geometry 30 100) ++ encode_data [49] ++ encode_screen [36];
   encode_data [50] ++ encode_exit 0].
Definition demo_conn : ConnEnv :=
  mkConnEnv (fun n => Z.of_nat n * 1000) (fun n _ => RdData (default [] (demo_reads !! (n - 2)%nat))) (fun _ => Ok tt).

Definition demo_connected : SessionConnection :=
  match attach_over demo_conn (fun _ => []) (str "web") [] 9 24 80 None with
  | Some (Ok c) => c
  | _ => new_connection 0 0 0 []
  end.
Example session_collected :
  fst (collect demo_conn (fun _ => []) (str "web") 9 [None; None; None] demo_connected)
  = [EvData [49]; EvData [50]; EvExit 0].
Proof. vm_compute. reflexivity. Qed.

Lemma session_in_order_witness :
  let '(evs, c') := collect demo_conn (fun _ => []) (str "web") 9 [None; None; None] demo_connected in
  exists ps, feed_all [] (received c') = (reader c', Ok ps)
    /\ first_screen_event (omap packet_event ps) = Some (screen c')
    /\ visible (omap packet_event ps) = evs ++ pending c'
    /\ (effective_rows c', effective_cols c') = last_geometry (omap packet_event ps) (24, 80).
Proof.
  refine (session_in_order demo_conn (fun _ => []) (str "web") [] 24 80 None 9 [None; None; None] demo_connected _).
  vm_compute. reflexivity.
Defined.

(** A socket that waits for ever unless it has a timeout: what its read gives when it
    finally has data, or the timeout's error. *)
Definition slow : ConnEnv :=
  mkConnEnv (fun n => Z.of_nat n) (fun _ t => match t with None => RdData (encode_data [33]) | Some _ => RdErr (Os EAGAIN) end)
    (fun _ => Ok tt).

(** [next_event] waits "up to" its timeout, but a zero one cannot be set: the socket's
    read then waits as long as the one before, here for ever. *)
Example zero_timeout_waits :
  (fst <$> next_event slow (fun _ => []) [] 3 (Some 0) (new_connection 24 80 0 []), 
   fst <$> next_event slow (fun _ => []) [] 9 (Some 5) (new_connection 24 80 0 []))
  = (Some (Ok (Some (EvData [33]))), Some (Ok None)).
Proof. vm_compute. reflexivity. Qed.

Example paste_wrapped :
  fst (send_data slow (fun _ => []) [] [] Broad false true (Ok true) 300 [[97]; [98]])
  = [encode_data BRACKETED_PASTE_START; encode_data [97]; encode_data [98]; encode_data BRACKETED_PASTE_END].
Proof. vm_compute. reflexivity. Qed.
