(* ===== verification/Summary.v ===== *)
(** What a client prints about a session when it stops showing it:
    [crates/pty-client/src/summary.rs], with the terminal resets of [sanitize.rs].
    Texts are lists of scalar values; the ages and paths are those of [Time.v] and
    [Names.v]. *)
From S2P Require Import Prelude Json Metadata Time Names Text Identity MetadataCache Inventory.

(** ** Terminal resets *)

Definition ESC : Z := 27.
(** [ESC] and an ASCII text. *)
Definition esc (x : string) : bytes := ESC :: str x.

Definition TERMINAL_SANITIZE : bytes := concat
  [esc "[?1049l"; esc "[?1l"; esc "[?7h"; esc "[?6l"; esc "[?1000l"; esc "[?1002l"; esc "[?1003l";
   esc "[?1004l"; esc "[?1006l"; esc "[?25h"; esc "[?2004l"; esc "[4l"; esc "[r"; esc "[0m";
   esc "]104" ++ esc "\"; esc "]110" ++ esc "\"; esc "]111" ++ esc "\"; esc "]112" ++ esc "\";
   esc "[0 q"; esc ">"; esc "(B"; esc "[<99u"; esc "[>4m"; esc "[?5522l"].
Definition CURSOR_TO_BOTTOM : bytes := esc "[999;1H".
Definition CLEAR_SCREEN_HOME : bytes := esc "[2J" ++ esc "[H".

(** ** Summaries *)

Record SessionSummary : Type := mkSummary {
  s_id : bytes;
  s_display_name : option bytes;
  s_cwd : bytes;
  s_command : option bytes;
  s_tags : option (IndexMap bytes);
  s_created_at : option bytes;
  s_ephemeral : bool
}.

(** [Option::filter] of a non-empty text. *)
Definition filled (o : option bytes) : option bytes :=
  let? d := o in if beq d [] then None else Some d.

Definition from_metadata (id : bytes) (meta : SessionMetadata) : SessionSummary :=
  mkSummary id (filled (display_name meta)) (cwd meta) (Some (display_command meta))
    (tags meta) (filled (Some (created_at meta))) (default false (ephemeral meta)).

Definition from_info (info : SessionInfo) : SessionSummary :=
  match info_metadata info with
  | Some meta => from_metadata (Inventory.name info) meta
  | None => mkSummary (Inventory.name info) None [] None None None false
  end.

(** A row of a remote host's list; its tags come from an ordered map. *)
Record RemoteSessionRow : Type := mkRow {
  row_name : bytes;
  row_status : bytes;
  row_identity : option DaemonIdentityCheck;
  row_command : option bytes;
  row_cwd : option bytes;
  row_tags : option (IndexMap bytes);
  row_display_name : option bytes
}.

Definition from_remote_row (row : RemoteSessionRow) : SessionSummary :=
  mkSummary (row_name row) (filled (row_display_name row)) (default [] (row_cwd row))
    (row_command row) (row_tags row) None false.

(** ** One line *)

Definition obeq_str (o : option bytes) (x : string) : bool := obeq o (Some (str x)).

Fixpoint join (sep : bytes) (l : list bytes) : bytes :=
  match l with
  | [] => []
  | [x] => x
  | x :: l' => x ++ sep ++ join sep l'
  end.

Definition render_tags (tags : option (IndexMap bytes)) (show_all : bool) : bytes :=
  match tags with
  | None => []
  | Some tags =>
      let shown := List.filter (fun kv => show_all || negb (is_reserved_tag_key (fst kv))) tags in
      match (fun kv : bytes * bytes => str "#" ++ fst kv ++ str "=" ++ snd kv) <$> shown with
      | [] => []
      | entries => str " " ++ join (str " ") entries
      end
  end.

Definition strategy_marker (tags : option (IndexMap bytes)) : bytes :=
  if obeq_str (tag_of (str "strategy.status") tags) "flapping" then
    str " " ++ esc "[31m[flapping]" ++ esc "[0m"
  else if obeq_str (tag_of (str "strategy") tags) "permanent" then
    str " " ++ esc "[33m[permanent]" ++ esc "[0m"
  else [].

Definition render_label (dn : option bytes) (name bold : bytes) : bytes :=
  match dn with
  | Some dn => bold ++ dn ++ esc "[0m " ++ esc "[2m(" ++ name ++ str ")" ++ esc "[0m"
  | None => bold ++ name ++ esc "[0m"
  end.

Record LineStyle : Type := mkStyle {
  prefix : bytes;
  bold : bytes;
  status : bytes;
  show_all_tags : bool
}.
Definition TRAILER_LINE : LineStyle := mkStyle (str "  ") (esc "[1m") [] false.

(** An em dash between spaces. *)
Definition dash : bytes := [32; 8212; 32].

Definition plain_label (s : SessionSummary) : bytes :=
  match s_display_name s with
  | Some dn => dn ++ str " (" ++ s_id s ++ str ")"
  | None => s_id s
  end.

Inductive SessionEnd : Type :=
  | EndDetached
  | EndPeekDetached
  | EndExited (code : Z)
  | EndConnectionLost.
#[export] Instance SessionEnd_eq_dec : EqDecision SessionEnd.
Proof. solve_decision. Defined.

Record TrailerTarget : Type := mkTarget {
  t_id : bytes;
  t_peer : option bytes;
  t_summary : option SessionSummary
}.

Definition attach_command (t : TrailerTarget) : bytes :=
  match t_peer t with
  | Some peer => str "pty attach --remote " ++ peer ++ str " " ++ t_id t
  | None => str "pty attach " ++ t_id t
  end.

(** [format!("{code}")] of an [i32] is [dec]. *)
Definition age (s : SessionSummary) (now_ms : Z) : option bytes :=
  let? at_ := s_created_at s in
  let? start := parse_iso8601_ms at_ in
  Some (format_duration (now_ms - start)).

Definition trailer_header (end_ : SessionEnd) (target : TrailerTarget) (now_ms : Z) : bytes :=
  let id := t_id target in
  match end_ with
  | EndDetached | EndPeekDetached => str "[detached from " ++ id ++ str "]"
  | EndExited code =>
      match (let? s := t_summary target in age s now_ms) with
      | Some a => str "[" ++ id ++ str " exited with code " ++ dec code ++ str " after " ++ a ++ str "]"
      | None => str "[" ++ id ++ str " exited with code " ++ dec code ++ str "]"
      end
  | EndConnectionLost => str "[connection lost to " ++ id ++ str "]"
  end.

(** The home directory and [PTY_REAP_ON_EXIT] are read from the environment of the
    process. *)
Section Environment.
Context `{Unicode} (home : bytes) (reap_var : option bytes).

Definition kept_at_exit (s : SessionSummary) : bool :=
  negb (should_reap_at_exit (s_tags s) (s_ephemeral s) (reap_on_exit_default reap_var)).

Definition line (s : SessionSummary) (style : LineStyle) : bytes :=
  let cwd := if beq (s_cwd s) [] then [] else short_path home (s_cwd s) in
  prefix style ++ render_label (s_display_name s) (s_id s) (bold style)
    ++ strategy_marker (s_tags s) ++ render_tags (s_tags s) (show_all_tags style)
    ++ status style ++ dash ++ cwd ++ dash ++ esc "[2m" ++ default [] (s_command s) ++ esc "[0m".

Definition trailer_hint (end_ : SessionEnd) (target : TrailerTarget) : option bytes :=
  match end_ with
  | EndDetached => Some (str "reattach: " ++ attach_command target)
  | EndPeekDetached =>
      Some (match t_peer target with
            | Some peer => str "reattach: pty peek -f --remote " ++ peer ++ str " " ++ t_id target
            | None => str "reattach: pty peek -f " ++ t_id target
            end)
  | EndExited _ =>
      let kept := match t_summary target with Some s => kept_at_exit s | None => false end in
      if (match t_peer target with None => true | Some _ => false end) && kept
      then Some (str "restart: " ++ attach_command target) else None
  | EndConnectionLost => Some (str "reconnect: " ++ attach_command target)
  end.

Definition crlf : bytes := [13; 10].

Definition render_trailer (end_ : SessionEnd) (target : TrailerTarget) (now_ms : Z) : bytes :=
  crlf ++ trailer_header end_ target now_ms ++ crlf
    ++ match t_summary target with Some s => line s TRAILER_LINE ++ crlf | None => [] end
    ++ match trailer_hint end_ target with Some hint => str "  " ++ hint ++ crlf | None => [] end.

End Environment.

Definition attach_banner (id : bytes) (summary : option SessionSummary) : bytes :=
  let label := match summary with Some s => plain_label s | None => id end in
  str "[attached to " ++ label ++ dash ++ str "press Ctrl+\ to detach]" ++ [10].

(** [local_summary_provider]: the record read again now, else what was known at the
    start. *)
Definition local_summary (id : bytes) (at_start now : option SessionMetadata)
  : option SessionSummary :=
  match from_metadata id <$> now with
  | Some s => Some s
  | None => from_metadata id <$> at_start
  end.

(** ** Facts *)

(** A hint to restart is given for a session of this host alone, known to the client,
    whose record outlives its exit; every other end says how to come back. *)
Lemma hint_restart `{Unicode} var target code hint :
  trailer_hint var (EndExited code) target = Some hint ->
  t_peer target = None /\ exists s, t_summary target = Some s /\ kept_at_exit var s = true
    /\ hint = str "restart: pty attach " ++ t_id target.
Proof.
  cbn. unfold attach_command. destruct (t_peer target); [discriminate|].
  destruct (t_summary target) as [s|]; cbn; [|discriminate].
  destruct (kept_at_exit var s) eqn:K; [|discriminate]. intros [= <-]. eauto.
Qed.

Lemma hint_back `{Unicode} var end_ target :
  (forall code, end_ <> EndExited code) -> trailer_hint var end_ target <> None.
Proof. intros N. destruct end_; try discriminate. destruct (N code eq_refl). Qed.

(** Whatever a record says, a summary shows no empty name and no empty time. *)
Lemma summary_filled id meta :
  s_display_name (from_metadata id meta) <> Some []
  /\ s_created_at (from_metadata id meta) <> Some [].
Proof.
  assert (F : forall o, filled o <> Some []).
  { intros [[|c d]|]; discriminate. }
  split; apply F.
Qed.

(** ** Examples *)

Definition web : SessionSummary :=
  mkSummary (str "web-3f2a") (Some (str "My Web Server")) (str "/opt/proj") (Some (str "node app.js"))
    (Some [(str "role", str "web")]) (Some (str "2026-09-24T10:00:00.000Z")) false.

Example detach_trailer `{Unicode} :
  render_trailer [] None EndDetached (mkTarget (str "web-3f2a") None (Some web)) 0
  = crlf ++ str "[detached from web-3f2a]" ++ crlf ++ str "  " ++ esc "[1mMy Web Server" ++ esc "[0m "
    ++ esc "[2m(web-3f2a)" ++ esc "[0m #role=web" ++ dash ++ str "/opt/proj" ++ dash
    ++ esc "[2mnode app.js" ++ esc "[0m" ++ crlf ++ str "  reattach: pty attach web-3f2a" ++ crlf.
Proof. reflexivity. Qed.

Example exit_header :
  trailer_header (EndExited 1) (mkTarget (str "web-3f2a") None (Some web)) 1790252040000
  = str "[web-3f2a exited with code 1 after 2h14m]".
Proof. reflexivity. Qed.
