(* ===== verification/Peek.v ===== *)
(** Looking at a session: [crates/pty-client/src/peek.rs].  [peek] prints one screen,
    [follow] streams the output, [peek_wait] waits for a text to show.

    A connection is the list of what its reads give; an empty list is a read that waits.
    [peek_wait] polls: each look at the clock, the screen, the socket or the record
    happens at a moment of its own. *)
From S2P Require Import Prelude Json Metadata Time Names Text Argv Protocol Client Visible Tty Summary.

Record PeekParams : Type := mkPeek {
  p_name : bytes;
  p_plain : bool;
  p_full : bool;
  p_remote : bool;          (* over a socket given by the caller *)
  p_peer : option bytes
}.

Inductive PeekOutcome : Type := Printed | PeekExited (code : Z) | PeekDetached.

Section Operations.
Context `{Unicode} (os_text : Z -> bytes) (home : bytes) (reap_var : option bytes).
(** [registry::socket_path]. *)
Context (socket_path : bytes -> bytes).

Definition broad_error (p : PeekParams) (syscall : string) (path : option bytes) (e : IoErr) : ClientError :=
  map_io_error os_text (p_name p) (p_remote p) Broad (str syscall) path e.

(** [open]: a caller's socket, or a connection to the session's. *)
Definition open_socket (p : PeekParams) (connect : Result unit IoErr) : Result unit ClientError :=
  if p_remote p then Ok tt
  else match connect with
       | Ok _ => Ok tt
       | Err e => Err (map_io_error os_text (p_name p) false Broad (str "connect") (Some (socket_path (p_name p))) e)
       end.

(** The terminal reset of an ANSI peek. *)
Definition reset : list Io := [ToStdout TERMINAL_SANITIZE; ToStdout CURSOR_TO_BOTTOM].
Definition reset_unless_plain (p : PeekParams) : list Io := if p_plain p then [] else reset.

(** ** One screen *)

Fixpoint peek_packets (p : PeekParams) (ps : list Packet) : option (list Io * PeekOutcome) :=
  match ps with
  | [] => None
  | q :: ps =>
      match type_ q with
      | Screen => Some (ToStdout (payload q) :: reset_unless_plain p ++ [ToStdout [10]], Printed)
      | Exit => Some (reset_unless_plain p, PeekExited (decode_exit (payload q)))
      | _ => peek_packets p ps
      end
  end.

Fixpoint peek_loop (p : PeekParams) (buffer : bytes) (reads : list Read)
  : option (list Io * Result PeekOutcome ClientError) :=
  match reads with
  | [] => None
  | RdErr e :: _ => Some ([], Err (broad_error p "read" None e))
  | RdData data :: reads =>
      if beq data [] then Some ([], Err (NotReachable (p_name p) (p_remote p)))
      else match Protocol.feed buffer data with
           | (_, Err e) =>
               Some ([ToStderr (to_utf8 (dropping_connection_line e))],
                     Err (NotReachable (p_name p) (p_remote p)))
           | (buffer, Ok ps) =>
               match peek_packets p ps with
               | Some (io, outcome) => Some (io, Ok outcome)
               | None => peek_loop p buffer reads
               end
           end
  end.

Definition peek (p : PeekParams) (connect write : Result unit IoErr) (reads : list Read)
  : option (list Io * Result PeekOutcome ClientError) :=
  match open_socket p connect with
  | Err e => Some ([], Err e)
  | Ok _ =>
      match write with
      | Err e => Some ([], Err (broad_error p "write" (Some (socket_path (p_name p))) e))
      | Ok _ =>
          match peek_loop p [] reads with
          | Some (io, r) => Some (ToSocket (encode_peek (p_plain p) (p_full p)) :: io, r)
          | None => None
          end
      end
  end.

(** ** Following *)

(** What the trailer reads when it is printed. *)
Context (summary : option SessionSummary) (now_ms : Z).

Definition trailer (p : PeekParams) (end_ : SessionEnd) : bytes :=
  let text := render_trailer home reap_var end_ (mkTarget (p_name p) (p_peer p) summary) now_ms in
  if p_plain p then strip_ansi text else text.
Definition print_trailer (p : PeekParams) (end_ : SessionEnd) : list Io :=
  [ToStdout (to_utf8 (trailer p end_))].

(** [drop(raw)]. *)
Definition raw_off (raw : bool) : list Io := if raw then [RawMode false] else [].

Definition lost_line (detail : bytes) : list Io := [ToStderr (to_utf8 (str "Connection lost: " ++ detail ++ [10]))].
Definition connection_lost (p : PeekParams) (raw : bool) (detail : option bytes) : list Io :=
  raw_off raw ++ match detail with Some d => lost_line d | None => [] end
    ++ reset_unless_plain p ++ print_trailer p EndConnectionLost.

(** [ConnectionErrorReason::message] and the text for an unknown reason. *)
Definition connection_error_text (payload : bytes) : bytes :=
  match decode_connection_error payload with
  | Some ClientTooSlow => str "client too slow: outbound byte budget exceeded"
  | None => str "server rejected the attachment"
  end.

Fixpoint follow_packets (p : PeekParams) (raw : bool) (ps : list Packet) : list Io * option PeekOutcome :=
  match ps with
  | [] => ([], None)
  | q :: ps =>
      match type_ q with
      | ConnectionError =>
          (connection_lost p raw (Some (connection_error_text (payload q))), Some (PeekExited 1))
      | Screen => let '(io, r) := follow_packets p raw ps in (ToStdout (payload q) :: io, r)
      | Data =>
          let out := if p_plain p then to_utf8 (strip_ansi (from_utf8_lossy (payload q))) else payload q in
          let '(io, r) := follow_packets p raw ps in (ToStdout out :: io, r)
      | Exit =>
          let code := decode_exit (payload q) in
          (raw_off raw ++ [CloseSocket] ++ reset_unless_plain p ++ print_trailer p (EndExited code),
           Some (PeekExited code))
      | _ => follow_packets p raw ps
      end
  end.

(** One return of [poll]: its failure, or what the ready descriptors give. *)
Record Turn : Type := mkTurn {
  t_poll : Result unit bytes;
  t_stdin : option Read;
  t_socket : option Read
}.

(** The keyboard's part of a turn: is it still open, and was the detach key pressed? *)
Definition follow_stdin (stdin_open : bool) (turn : Turn) : bool * bool :=
  match (if stdin_open then t_stdin turn else None) with
  | Some (RdData data) =>
      if beq data [] then (false, false) else (true, memb DETACH_KEY (normalize_detach_key data))
  | Some (RdErr e) => (is_kind WouldBlock e, false)
  | None => (stdin_open, false)
  end.

Fixpoint follow_loop (p : PeekParams) (raw stdin_open : bool) (buffer : bytes) (turns : list Turn)
  : list Io * option (Result PeekOutcome ClientError) :=
  match turns with
  | [] => ([], None)
  | turn :: turns =>
      match t_poll turn with
      | Err e => (raw_off raw, Some (Err (Connection e)))
      | Ok _ =>
          let '(stdin_open, detach) := follow_stdin stdin_open turn in
          if detach then
            (raw_off raw ++ [CloseSocket] ++ reset ++ print_trailer p EndPeekDetached, Some (Ok PeekDetached))
          else
            match t_socket turn with
            | None => follow_loop p raw stdin_open buffer turns
            | Some (RdErr e) =>
                (connection_lost p raw (Some (node_error_message os_text (str "read") None e)),
                 Some (Ok (PeekExited 1)))
            | Some (RdData data) =>
                if beq data [] then (connection_lost p raw None, Some (Ok (PeekExited 1)))
                else match Protocol.feed buffer data with
                     | (_, Err e) =>
                         (ToStderr (to_utf8 (dropping_connection_line e)) :: raw_off raw,
                          Some (Ok (PeekExited 1)))
                     | (buffer, Ok ps) =>
                         match follow_packets p raw ps with
                         | (io, Some outcome) => (io, Some (Ok outcome))
                         | (io, None) =>
                             let '(io', r) := follow_loop p raw stdin_open buffer turns in (io ++ io', r)
                         end
                     end
            end
      end
  end.

(** [stdin_raw]: could the terminal be put in raw mode? *)
Definition follow (p : PeekParams) (connect write : Result unit IoErr) (stdin_raw : bool) (turns : list Turn)
  : list Io * option (Result PeekOutcome ClientError) :=
  match open_socket p connect with
  | Err e => ([], Some (Err e))
  | Ok _ =>
      match write with
      | Err e =>
          (lost_line (node_error_message os_text (str "write") (Some (socket_path (p_name p))) e)
             ++ reset_unless_plain p ++ print_trailer p EndConnectionLost, Some (Ok (PeekExited 1)))
      | Ok _ =>
          let '(io, r) := follow_loop p stdin_raw true [] turns in
          (ToSocket (encode_peek (p_plain p) (p_full p)) :: (if stdin_raw then [RawMode true] else []) ++ io, r)
      end
  end.

End Operations.

(** ** Waiting for a text *)

(** A number of seconds as the command line gives it, in nanoseconds when finite, with
    its text. *)
Inductive Seconds : Type := Finite (ns : Z) | NotFinite.

(** [Duration::from_secs_f64] panics from 2^64 seconds on: [None]. *)
Definition DURATION_MAX_NS : Z := 2 ^ 64 * 1000000000.
Definition wait_timeout (secs : Seconds) : option (option Z) :=
  match secs with
  | Finite ns => if 0 <? ns then (if DURATION_MAX_NS <=? ns then None else Some (Some ns)) else Some None
  | NotFinite => Some None
  end.

Inductive PeekWaitError : Type :=
  | TimedOut (timeout_secs patterns : bytes)
  | Missed (timeout_secs patterns : bytes) (watched : bool)
  | WaitExited (name : bytes) (exit_code : option Z) (patterns : bytes) (last_lines : list bytes).

Definition describe_patterns (patterns : list bytes) : bytes :=
  join (str " or ") (quoted <$> patterns).

Definition display_wait_error (e : PeekWaitError) : bytes :=
  match e with
  | TimedOut t p => str "Timed out after " ++ t ++ str "s waiting for " ++ p ++ str "."
  | Missed t p watched =>
      str "Timed out after " ++ t ++ str "s waiting for " ++ p ++ str "." ++ [10]
      ++ (if watched then str "It is in the scrollback from before the wait began, no longer on screen."
          else str "It is in the scrollback, but the wait lost the output stream and did not see it printed.")
  | WaitExited name code p lines =>
      str "Session " ++ quoted name ++ str " exited (code "
      ++ match code with Some c => dec c | None => str "?" end ++ str ") without matching " ++ p ++ str "."
      ++ match lines with
         | [] => []
         | _ => [10] ++ str "Last output:" ++ concat ((fun l => [10] ++ str "  " ++ l) <$> lines)
         end
  end.

(** What the wait asks, each at its moment: the clock, [peek_screen] with its [plain] and
    [full], the connection of the watch (opened and asked for the screen), its polls and
    reads, and the session's record. *)
Record WaitEnv : Type := mkWaitEnv {
  e_now : nat -> Z;
  e_screen : nat -> bool -> bool -> Result bytes ClientError;
  e_watch : nat -> bool;
  e_poll : nat -> Result bool IoErr;
  e_read : nat -> Read;
  e_record : nat -> option SessionMetadata
}.

Definition PEEK_WAIT_INTERVAL : Z := 200000000.

Inductive Watched : Type := Seen | Quiet | Lost.

Record OutputWatch : Type := mkWatch { w_reader : bytes; w_text : VisibleText; w_screen : bytes }.
Definition new_watch : OutputWatch := mkWatch [] visible_default [].

(** The packets of one read: the watch, and why it stopped at one of them. *)
Fixpoint watch_packets (patterns : list bytes) (w : OutputWatch) (ps : list Packet) : OutputWatch * option Watched :=
  match ps with
  | [] => (w, None)
  | q :: ps =>
      match type_ q with
      | Screen =>
          let w := mkWatch (w_reader w) (w_text w) (from_utf8_lossy (payload q)) in
          if contains_any (payload q) (to_utf8 <$> patterns) then (w, Some Seen)
          else watch_packets patterns w ps
      | Data =>
          let '(t, found) := feed (w_text w) (payload q) (to_utf8 <$> patterns) in
          let w := mkWatch (w_reader w) t (w_screen w) in
          if found then (w, Some Seen) else watch_packets patterns w ps
      | Exit | ConnectionError => (w, Some Lost)
      | _ => watch_packets patterns w ps
      end
  end.

Section Wait.
Context (e : WaitEnv).

(** [OutputWatch::wait_until] from moment [n]; each turn reads the clock twice. *)
Fixpoint wait_until (fuel : nat) (patterns : list bytes) (until : Z) (w : OutputWatch) (n : nat)
  : option (Watched * OutputWatch * nat) :=
  match fuel with
  | O => None
  | S fuel =>
      (* moment n: what is left of the time, for the poll's timeout *)
      match e_poll e (n + 1) with
      | Err _ => Some (Lost, w, (n + 2)%nat)
      | Ok false => Some (Quiet, w, (n + 2)%nat)
      | Ok true =>
          match e_read e (n + 2) with
          | RdErr _ => Some (Lost, w, (n + 3)%nat)
          | RdData data =>
              if beq data [] then Some (Lost, w, (n + 3)%nat)
              else match Protocol.feed (w_reader w) data with
                   | (b, Err _) => Some (Lost, mkWatch b (w_text w) (w_screen w), (n + 3)%nat)
                   | (b, Ok ps) =>
                       match watch_packets patterns (mkWatch b (w_text w) (w_screen w)) ps with
                       | (w, Some r) => Some (r, w, (n + 3)%nat)
                       | (w, None) =>
                           if until <=? e_now e (n + 3) then Some (Quiet, w, (n + 4)%nat)
                           else wait_until fuel patterns until w (n + 4)
                       end
                   end
          end
      end
  end.

(** [screen_now]: the screen asked for at moment [n], or what was seen last. *)
Definition screen_now (plain : bool) (last_screen watch_screen : bytes) (n : nat) : bytes :=
  match e_screen e n plain false with
  | Ok s => s
  | Err _ => if beq last_screen [] then watch_screen else last_screen
  end.

Definition matches_any (patterns : list bytes) (text : bytes) : bool := contains_any text patterns.

Definition timed_out (patterns : list bytes) (timeout_text : bytes) (watched : bool) (n : nat) : PeekWaitError :=
  let in_scrollback := match e_screen e n true true with Ok text => matches_any patterns text | Err _ => false end in
  if in_scrollback then Missed timeout_text (describe_patterns patterns) watched
  else TimedOut timeout_text (describe_patterns patterns).

Definition join_lines (l : list bytes) : bytes := join [10] l.

Record WaitState : Type := mkWait {
  watch : option OutputWatch;
  watched : bool;
  next_look : Z;
  last_screen : bytes;
  moment : nat
}.

Section Loop.
Context (name : bytes) (patterns : list bytes) (timeout : option Z) (timeout_text : bytes) (plain : bool).
Context (start : Z) (fuel : nat).

(** The look at the screen, or at the record of a session that does not answer. *)
Definition look (s : WaitState) : Result bytes PeekWaitError + WaitState :=
  let n := moment s in
  match e_screen e n true false with
  | Ok screen =>
      if matches_any patterns screen then
        if plain then inl (Ok screen)
        else match e_screen e (n + 1) false false with
             | Ok ansi => inl (Ok ansi)
             | Err _ => inl (Ok screen)
             end
      else inr (mkWait (watch s) (watched s) (next_look s) screen (n + 1))
  | Err _ =>
      match e_record e (n + 1) with
      | Some meta =>
          match exited_at meta, last_lines meta with
          | Some _, Some lines =>
              if matches_any patterns (join_lines lines) then inl (Ok (join_lines lines))
              else inl (Err (WaitExited name (exit_code meta) (describe_patterns patterns) lines))
          | _, _ => inr (mkWait (watch s) (watched s) (next_look s) (last_screen s) (n + 2))
          end
      | None => inr (mkWait (watch s) (watched s) (next_look s) (last_screen s) (n + 2))
      end
  end.

(** The watch until the next look, or sleep when there is none. *)
Definition wait_for_output (s : WaitState) : option (Result bytes PeekWaitError + WaitState) :=
  match watch s with
  | Some w =>
      '(r, w, n) ← wait_until fuel patterns (next_look s) w (moment s);
      Some (match r with
            | Seen => inl (Ok (screen_now plain (last_screen s) (w_screen w) n))
            | Quiet => inr (mkWait (Some w) (watched s) (next_look s) (last_screen s) n)
            | Lost => inr (mkWait None false (next_look s) (last_screen s) n)
            end)
  | None => Some (inr (mkWait None (watched s) (next_look s) (last_screen s) (moment s + 1)))
  end.

(** The deadline: what arrived since the last look still counts. *)
Definition at_deadline (s : WaitState) : option (Result bytes PeekWaitError) :=
  let no_answer_left n := Err (timed_out patterns timeout_text (watched s) n) in
  match watch s with
  | Some w =>
      '(r, w, n) ← wait_until fuel patterns (e_now e (moment s)) w (moment s + 1);
      Some (match r with
            | Seen => Ok (screen_now plain (last_screen s) (w_screen w) n)
            | _ => no_answer_left n
            end)
  | None => Some (no_answer_left (moment s))
  end.

Definition expired (s : WaitState) : bool :=
  match timeout with Some t => t <? e_now e (moment s) - start | None => false end.
Definition tick (s : WaitState) : WaitState :=
  mkWait (watch s) (watched s) (next_look s) (last_screen s) (S (moment s)).

(** One turn of the loop. *)
Definition wait_turn (s : WaitState) : option (Result bytes PeekWaitError + WaitState) :=
  if expired s then inl <$> at_deadline (tick s)
  else
    let s := match timeout with Some _ => tick s | None => s end in
    r ← wait_for_output s;
    Some (match r with
          | inl r => inl r
          | inr s =>
              if e_now e (moment s) <? next_look s then inr (tick s)
              else
                let s := mkWait (watch s) (watched s) (e_now e (S (moment s)) + PEEK_WAIT_INTERVAL)
                           (last_screen s) (moment s + 2) in
                look s
          end).

Fixpoint wait_loop (turns : nat) (s : WaitState) : option (Result bytes PeekWaitError) :=
  match turns with
  | O => None
  | S turns =>
      r ← wait_turn s;
      match r with inl r => Some r | inr s => wait_loop turns s end
  end.
End Loop.

(** [peek_wait]: [None] at the outside is the panic of a timeout too long for a
    [Duration], inside it a wait still going on. *)
Definition peek_wait (fuel turns : nat) (name : bytes) (patterns : list bytes) (secs : Seconds)
  (timeout_text : bytes) (plain : bool) : option (option (Result bytes PeekWaitError)) :=
  let start := e_now e 0 in
  timeout ← wait_timeout secs;
  let w := if e_watch e 1 then Some new_watch else None in
  let next := if e_watch e 1 then start + PEEK_WAIT_INTERVAL else start in
  Some (wait_loop name patterns timeout timeout_text plain start fuel turns
          (mkWait w (match w with Some _ => true | None => false end) next [] 2)).
End Wait.

(** ** Lemmas: following *)

(** Is the terminal raw after these effects? *)
Fixpoint raw_state (raw : bool) (io : list Io) : bool :=
  match io with
  | [] => raw
  | RawMode on :: io => raw_state on io
  | _ :: io => raw_state raw io
  end.

Lemma raw_state_app raw a b : raw_state raw (a ++ b) = raw_state (raw_state raw a) b.
Proof. revert raw. induction a as [|[] a IH]; intros raw; cbn; auto. Qed.

Lemma raw_state_off raw : raw_state raw (raw_off raw) = false.
Proof. destruct raw; done. Qed.

(** The bytes a list of turns delivers. *)
Definition socket_data (turns : list Turn) : list bytes :=
  omap (fun t => match t_socket t with Some (RdData d) => Some d | _ => None end) turns.

Section Following.
Context `{Unicode} (os_text : Z -> bytes) (home : bytes) (reap_var : option bytes).
Context (socket_path : bytes -> bytes) (summary : option SessionSummary) (now_ms : Z).
Abbreviation follow_packets := (follow_packets home reap_var summary now_ms).
Abbreviation follow_loop := (follow_loop os_text home reap_var summary now_ms).
Abbreviation connection_lost := (connection_lost home reap_var summary now_ms).

Lemma connection_lost_raw p raw d : raw_state raw (connection_lost p raw d) = false.
Proof.
  unfold Peek.connection_lost. rewrite raw_state_app, raw_state_off.
  destruct d, (p_plain p) eqn:P; unfold reset_unless_plain; rewrite ?P; done.
Qed.

Lemma follow_packets_spec p raw ps : forall io r,
  follow_packets p raw ps = (io, r) ->
  raw_state raw io = (match r with Some _ => false | None => raw end)
  /\ forall code, r = Some (PeekExited code) ->
       code = 1 \/ exists q, q ∈ ps /\ type_ q = Exit /\ decode_exit (payload q) = code.
Proof.
  induction ps as [|q ps IH]; intros io r; cbn [Peek.follow_packets]; [intros [= <- <-]; done|].
  assert (Skip : forall io', raw_state raw io' = raw ->
            (io, r) = (let '(io2, r2) := follow_packets p raw ps in (io' ++ io2, r2)) ->
            raw_state raw io = (match r with Some _ => false | None => raw end)
            /\ forall code, r = Some (PeekExited code) ->
               code = 1 \/ exists q', q' ∈ q :: ps /\ type_ q' = Exit /\ decode_exit (payload q') = code).
  { intros io' R. destruct (follow_packets p raw ps) as [io2 r2]. intros [= -> ->].
    destruct (IH _ _ eq_refl) as [A B]. rewrite raw_state_app, R. split; [done|].
    intros code C. destruct (B code C) as [?|(q' & I & D)]; [by left|right]. exists q'. split; [by right|done]. }
  destruct (type_ q) eqn:T;
    try (intros E; apply (Skip []); [done|rewrite <- E; by destruct (follow_packets p raw ps)]).
  - intros E. apply (Skip [ToStdout (if p_plain p then to_utf8 (strip_ansi (from_utf8_lossy (payload q))) else payload q)]);
      [done|]. rewrite <- E. by destruct (follow_packets p raw ps).
  - intros [= <- <-]. split.
    + rewrite raw_state_app, raw_state_off. unfold reset_unless_plain. destruct (p_plain p); done.
    + intros code [= <-]. right. exists q. split; [by left|done].
  - intros E. apply (Skip [ToStdout (payload q)]); [done|]. rewrite <- E. by destruct (follow_packets p raw ps).
  - intros [= <- <-]. split; [apply connection_lost_raw|]. intros code [= <-]. by left.
Qed.

Lemma follow_loop_spec p raw turns : forall so buffer io r,
  follow_loop p raw so buffer turns = (io, r) ->
  raw_state raw io = (match r with Some _ => false | None => raw end)
  /\ forall code, r = Some (Ok (PeekExited code)) ->
       code = 1 \/ exists chunks ps b q, chunks `prefix_of` socket_data turns
         /\ feed_all buffer chunks = (b, Ok ps) /\ q ∈ ps /\ type_ q = Exit /\ decode_exit (payload q) = code.
Proof.
  induction turns as [|turn turns IH]; intros so buffer io r; cbn [Peek.follow_loop]; [intros [= <- <-]; done|].
  destruct (t_poll turn) as [u|e]; [|intros [= <- <-]; split; [apply raw_state_off|done]].
  destruct (follow_stdin so turn) as [so' []].
  { intros [= <- <-]. rewrite raw_state_app, raw_state_off. done. }
  unfold socket_data. cbn [omap list_omap].
  destruct (t_socket turn) as [[data|e]|]; [|intros [= <- <-]; split; [apply connection_lost_raw|intros c [= <-]; by left]|apply IH].
  destruct (beq data []); [intros [= <- <-]; split; [apply connection_lost_raw|intros c [= <-]; by left]|].
  destruct (Protocol.feed buffer data) as [b' [ps|m]] eqn:F;
    [|intros [= <- <-]; split; [apply raw_state_off|intros c [= <-]; by left]].
  destruct (follow_packets p raw ps) as [io1 o] eqn:P. pose proof (follow_packets_spec p raw ps io1 o P) as [R X].
  destruct o as [o|].
  - intros [= <- <-]. split; [done|]. intros code [= ->]. destruct (X code eq_refl) as [?|(q & I & D)]; [by left|right].
    exists [data], ps, b', q. split; [by apply prefix_cons, prefix_nil|]. cbn [feed_all]. rewrite F, app_nil_r. done.
  - destruct (follow_loop p raw so' b' turns) as [io2 r2] eqn:L. intros [= <- <-].
    apply IH in L as [R2 X2]. rewrite raw_state_app, R. split; [done|].
    intros code C. destruct (X2 code C) as [?|(cs & ps2 & b2 & q & Pre & F2 & I & D)]; [by left|right].
    exists (data :: cs), (ps ++ ps2), b2, q. split; [by apply prefix_cons|]. cbn [feed_all]. rewrite F, F2.
    split; [done|]. split; [apply elem_of_app; by right|done].
Qed.

(** A follow that ends leaves the terminal as it was; one that reports an exit other than
    1 was told of it by an EXIT packet, in whatever pieces the stream came. *)
Theorem follow_ends (p : PeekParams) (connect write : Result unit IoErr) (stdin_raw : bool)
  (turns : list Turn) (io : list Io) (r : Result PeekOutcome ClientError) :
  follow os_text home reap_var socket_path summary now_ms p connect write stdin_raw turns = (io, Some r) ->
  raw_state false io = false
  /\ forall code, r = Ok (PeekExited code) -> code <> 1 ->
       exists chunks ps b q, chunks `prefix_of` socket_data turns
         /\ feed_all [] chunks = (b, Ok ps) /\ q ∈ ps /\ type_ q = Exit /\ decode_exit (payload q) = code.
Proof.
  unfold follow. destruct (open_socket _ _ p connect) as [u|err]; [|intros [= <- <-]; done].
  destruct write as [u'|err].
  - destruct (follow_loop p stdin_raw true [] turns) as [io' r'] eqn:L. intros [= <- ->].
    apply follow_loop_spec in L as [R X]. split.
    + cbn [raw_state]. rewrite raw_state_app. destruct stdin_raw; cbn in *; done.
    + intros code -> N. destruct (X code eq_refl); [done|done].
  - intros [= <- <-]. split; [unfold reset_unless_plain; destruct (p_plain p); done|].
    intros code [= <-] N. done.
Qed.
End Following.

Definition demo_params (plain : bool) : PeekParams := mkPeek (str "web") plain false false None.
Definition demo_unicode : Unicode := {| to_lowercase := map to_ascii_lowercase |}.
Definition exit_turn : Turn := mkTurn (Ok tt) None (Some (RdData (encode_data [104; 105] ++ encode_exit 3))).

Lemma follow_ends_witness :
  exists chunks ps b q, chunks `prefix_of` socket_data [exit_turn]
    /\ feed_all [] chunks = (b, Ok ps) /\ q ∈ ps /\ type_ q = Exit /\ decode_exit (payload q) = 3.
Proof.
  refine (proj2 (@follow_ends demo_unicode (fun _ => []) [] None (fun n => n) None 0 (demo_params true)
    (Ok tt) (Ok tt) true [exit_turn] _ _ eq_refl) 3 eq_refl _). lia.
Defined.

(** An escape sequence cut by a packet boundary reaches a plain follower's output. *)
Example plain_follow_leaks :
  fst (@follow_packets demo_unicode [] None None 0 (demo_params true) true
         [mkPacket Data [27; 91]; mkPacket Data (str "1mx")])
  = [ToStdout [27; 91]; ToStdout (str "1mx")].
Proof. reflexivity. Qed.
Example plain_follow_whole :
  fst (@follow_packets demo_unicode [] None None 0 (demo_params true) true
         [mkPacket Data ([27; 91] ++ str "1mx")]) = [ToStdout (str "x")].
Proof. reflexivity. Qed.

(** ** Lemmas: waiting *)

Definition datas (ps : list Packet) : list bytes :=
  omap (fun q => match type_ q with Data => Some (payload q) | _ => None end) ps.
Definition screens (ps : list Packet) : list bytes :=
  omap (fun q => match type_ q with Screen => Some (payload q) | _ => None end) ps.

Lemma datas_app a b : datas (a ++ b) = datas a ++ datas b.
Proof. apply omap_app. Qed.
Lemma screens_app a b : screens (a ++ b) = screens a ++ screens b.
Proof. apply omap_app. Qed.

(** A pattern is on a screen that came, or in the text of the output that came. *)
Definition told (patterns : list bytes) (ps : list Packet) : bool :=
  existsb (fun s => contains_any s patterns) (screens ps)
  || match datas ps with [] => false | ds => shows (concat ds) patterns end.

Lemma feed_chunks_app patterns a : forall b v,
  feed_chunks v (a ++ b) patterns =
  let '(v1, f1) := feed_chunks v a patterns in
  let '(v2, f2) := feed_chunks v1 b patterns in (v2, f1 || f2).
Proof.
  induction a as [|c a IH]; intros b v; cbn [app feed_chunks].
  - destruct (feed_chunks v b patterns); done.
  - destruct (feed v c patterns) as [w f]. rewrite IH. destruct (feed_chunks w a patterns) as [x g].
    destruct (feed_chunks x b patterns). rewrite orb_assoc. done.
Qed.

Lemma told_data patterns ps :
  existsb (fun s => contains_any s patterns) (screens ps) = false ->
  told patterns ps = snd (feed_chunks visible_default (datas ps) patterns).
Proof.
  intros N. unfold told. rewrite N. destruct (datas ps) as [|c cs]; [done|].
  symmetry. apply (agrees_chunks patterns (c :: cs) visible_default false (mkDrawn [] Ground [])); [|done].
  apply agrees_start.
Qed.

Lemma feed_all_snoc chunks : forall buffer b ps c,
  feed_all buffer chunks = (b, Ok ps) ->
  feed_all buffer (chunks ++ [c]) =
  match Protocol.feed b c with (b', Ok qs) => (b', Ok (ps ++ qs)) | (b', Err e) => (b', Err e) end.
Proof.
  induction chunks as [|d chunks IH]; intros buffer b ps c; cbn [app feed_all].
  - intros [= <- <-]. destruct (Protocol.feed buffer c) as [b' [qs|e]]; rewrite ?app_nil_r; done.
  - destruct (Protocol.feed buffer d) as [b1 [q1|e1]]; [|discriminate].
    destruct (feed_all b1 chunks) as [b2 [q2|e2]] eqn:F; [|discriminate]. intros [= <- <-].
    rewrite (IH _ _ _ c F). destruct (Protocol.feed b2 c) as [b3 [q3|e3]]; rewrite <- ?app_assoc; done.
Qed.

Section Waiting.
Context (e : WaitEnv) (patterns : list bytes).
Let pats := to_utf8 <$> patterns.

(** These packets came first on the watch's connection. *)
Definition received (ps : list Packet) : Prop :=
  exists chunks b qs, Forall (fun c => exists n, e_read e n = RdData c) chunks
    /\ feed_all [] chunks = (b, Ok (ps ++ qs)).

(** The screen the watch keeps: the last one that came. *)
Definition kept_screen (ps : list Packet) : bytes := default [] (from_utf8_lossy <$> last (screens ps)).
Lemma kept_snoc ps q : kept_screen (ps ++ [q]) = match type_ q with Screen => from_utf8_lossy (payload q) | _ => kept_screen ps end.
Proof.
  unfold kept_screen. rewrite screens_app. cbn [screens omap list_omap].
  destruct (type_ q); rewrite ?app_nil_r; try done. by rewrite last_snoc.
Qed.

(** What the watch has heard, in which no pattern showed. *)
Record Heard (w : OutputWatch) (ps : list Packet) : Prop := {
  heard_reads : exists chunks, Forall (fun c => exists n, e_read e n = RdData c) chunks
                  /\ feed_all [] chunks = (w_reader w, Ok ps);
  heard_text : feed_chunks visible_default (datas ps) pats = (w_text w, false);
  heard_screens : existsb (fun s => contains_any s pats) (screens ps) = false;
  heard_kept : w_screen w = kept_screen ps
}.

Lemma heard_new : Heard new_watch [].
Proof. split; [exists []; auto|done|done|done]. Qed.

Lemma heard_untold w ps : Heard w ps -> told pats ps = false.
Proof. intros [_ T S _]. rewrite told_data, T by done. done. Qed.

(** What the packets of a read make of it. *)
Definition watched_spec (w' : OutputWatch) (r : option Watched) (ps qs : list Packet) : Prop :=
  match r with
  | None => feed_chunks visible_default (datas (ps ++ qs)) pats = (w_text w', false)
            /\ existsb (fun s => contains_any s pats) (screens (ps ++ qs)) = false
            /\ w_screen w' = kept_screen (ps ++ qs)
  | Some Seen => exists q1 q2, qs = q1 ++ q2 /\ told pats (ps ++ q1) = true /\ w_screen w' = kept_screen (ps ++ q1)
  | Some Quiet => False
  | Some Lost => True
  end.

Lemma watch_packets_spec qs : forall w w' r ps,
  feed_chunks visible_default (datas ps) pats = (w_text w, false) ->
  existsb (fun s => contains_any s pats) (screens ps) = false -> w_screen w = kept_screen ps ->
  watch_packets patterns w qs = (w', r) -> w_reader w' = w_reader w /\ watched_spec w' r ps qs.
Proof.
  induction qs as [|q qs IH]; intros w w' r ps T S L; cbn [watch_packets].
  { intros [= <- <-]. unfold watched_spec. rewrite app_nil_r. done. }
  assert (Go : forall v, w_reader v = w_reader w ->
    feed_chunks visible_default (datas (ps ++ [q])) pats = (w_text v, false) ->
    existsb (fun s => contains_any s pats) (screens (ps ++ [q])) = false ->
    w_screen v = kept_screen (ps ++ [q]) ->
    watch_packets patterns v qs = (w', r) -> w_reader w' = w_reader w /\ watched_spec w' r ps (q :: qs)).
  { intros v R T' S' L' W. apply (IH v w' r (ps ++ [q]) T' S' L') in W as [-> W]. split; [done|].
    unfold watched_spec in *. rewrite <- app_assoc in W. destruct r as [[]|]; try done.
    destruct W as (q1 & q2 & -> & W). exists (q :: q1), q2. rewrite <- app_assoc in W. done. }
  rewrite datas_app, screens_app, kept_snoc in Go. cbn [datas screens omap list_omap] in Go.
  destruct (type_ q) eqn:K; try (apply (Go w eq_refl); rewrite ?app_nil_r; done).
  - rewrite feed_chunks_app, T in Go. cbn [feed_chunks] in Go.
    destruct (feed (w_text w) (payload q) (to_utf8 <$> patterns)) as [t found] eqn:F. unfold pats in Go at 1 2.
    rewrite F in Go. destruct found.
    + intros [= <- <-]. split; [done|]. exists [q], qs. split; [done|]. rewrite kept_snoc, K. split; [|exact L].
      rewrite told_data; rewrite ?datas_app, ?screens_app; cbn [datas screens omap list_omap]; rewrite K, ?app_nil_r; [|done].
      rewrite feed_chunks_app, T. cbn [feed_chunks]. unfold pats. rewrite F. done.
    + rewrite !app_nil_r in Go. apply (Go (mkWatch (w_reader w) t (w_screen w)) eq_refl eq_refl S L).
  - intros [= <- <-]. done.
  - destruct (contains_any (payload q) (to_utf8 <$> patterns)) eqn:C.
    + intros [= <- <-]. split; [done|]. exists [q], qs. split; [done|]. rewrite kept_snoc, K. split; [|done]. unfold told.
      rewrite screens_app, existsb_app. cbn [screens omap list_omap]. rewrite K. cbn [existsb]. unfold pats.
      rewrite C, orb_true_r. done.
    + apply (Go (mkWatch (w_reader w) (w_text w) (from_utf8_lossy (payload q))) eq_refl); [| |done].
      * rewrite app_nil_r. done.
      * rewrite existsb_app, S. cbn [existsb]. unfold pats. rewrite C. done.
  - intros [= <- <-]. done.
Qed.

Lemma heard_read w ps n data b qs :
  Heard w ps -> e_read e n = RdData data -> Protocol.feed (w_reader w) data = (b, Ok qs) ->
  exists chunks, Forall (fun c => exists n, e_read e n = RdData c) chunks
    /\ feed_all [] chunks = (b, Ok (ps ++ qs)).
Proof.
  intros [(chunks & R & F) _ _ _] D E. exists (chunks ++ [data]). split.
  - apply Forall_app. split; [done|]. constructor; [eauto|constructor].
  - rewrite (feed_all_snoc _ _ _ _ data F), E. done.
Qed.

Lemma wait_until_spec fuel until : forall w ps n r w' n',
  Heard w ps -> wait_until e fuel patterns until w n = Some (r, w', n') ->
  match r with
  | Quiet => exists qs, Heard w' (ps ++ qs)
  | Seen => exists qs, received (ps ++ qs) /\ told pats (ps ++ qs) = true /\ w_screen w' = kept_screen (ps ++ qs)
  | Lost => True
  end.
Proof.
  induction fuel as [|fuel IH]; intros w ps n r w' n' H; cbn [wait_until]; [discriminate|].
  destruct (e_poll e (n + 1)) as [[]|?];
    [|intros [= <- <- <-]; exists []; rewrite app_nil_r; done|intros [= <- _ _]; done].
  destruct (e_read e (n + 2)) as [data|?] eqn:D; [|intros [= <- _ _]; done].
  destruct (beq data []); [intros [= <- _ _]; done|].
  destruct (Protocol.feed (w_reader w) data) as [b [qs|m]] eqn:F; [|intros [= <- _ _]; done].
  destruct (heard_read w ps _ data b qs H D F) as (chunks & R & A).
  destruct (watch_packets patterns (mkWatch b (w_text w) (w_screen w)) qs) as [v o] eqn:W.
  apply (watch_packets_spec qs (mkWatch b (w_text w) (w_screen w)) v o ps (heard_text _ _ H) (heard_screens _ _ H) (heard_kept _ _ H)) in W as [E W].
  cbn [w_reader] in E.
  destruct o as [[]|]; try done.
  - intros [= <- <- _]. destruct W as (q1 & q2 & -> & T & L). exists q1. split; [|done].
    exists chunks, b, q2. rewrite <- app_assoc. done.
  - intros [= <- _ _]. done.
  - assert (H' : Heard v (ps ++ qs)).
    { destruct W as (T & S & L). split; [exists chunks; rewrite E; done|done..]. }
    destruct (until <=? e_now e (n + 3)).
    + intros [= <- <- _]. exists qs. done.
    + intros L. apply (IH _ _ _ _ _ _ H') in L. destruct r; try done;
        destruct L as [q2 L]; exists (qs ++ q2); rewrite app_assoc; done.
Qed.

Section Loop.
Context (name : bytes) (timeout : option Z) (timeout_text : bytes) (plain : bool) (start : Z) (fuel : nat).

(** What is printed when the watch has seen a pattern in the packets [ps]: the screen as it
    is then, or else the last one that was looked at, or else the watch's. *)
Definition screen_then (n : nat) (ps : list Packet) (text : bytes) : Prop :=
  e_screen e n plain false = Ok text
  \/ (exists err, e_screen e n plain false = Err err)
     /\ ((text <> [] /\ exists m, e_screen e m true false = Ok text) \/ text = kept_screen ps).

(** Why a text is printed: a pattern is on the screen, in the last lines of a session that
    does not answer and is recorded as ended, or in what the watch received. *)
Inductive Found (text : bytes) : Prop :=
  | on_screen n s : e_screen e n true false = Ok s -> matches_any patterns s = true ->
      (if plain then text = s
       else e_screen e (S n) false false = Ok text \/ (exists err, e_screen e (S n) false false = Err err) /\ text = s) ->
      Found text
  | in_record n err meta lines : e_screen e n true false = Err err -> e_record e (S n) = Some meta ->
      exited_at meta <> None -> last_lines meta = Some lines ->
      matches_any patterns (join_lines lines) = true -> text = join_lines lines -> Found text
  | in_output ps n : received ps -> told pats ps = true -> screen_then n ps text -> Found text.

Definition overdue : Prop := exists t n, timeout = Some t /\ t < e_now e n - start.

(** What a result says: a text was found, or the time was up and the scrollback was asked, or
    the session has ended without. *)
Definition justified (r : Result bytes PeekWaitError) : Prop :=
  match r with
  | Ok text => Found text
  | Err (TimedOut tx ps) =>
      overdue /\ tx = timeout_text /\ ps = describe_patterns patterns
      /\ exists n, forall text, e_screen e n true true = Ok text -> matches_any patterns text = false
  | Err (Missed tx ps _) =>
      overdue /\ tx = timeout_text /\ ps = describe_patterns patterns
      /\ exists n text, e_screen e n true true = Ok text /\ matches_any patterns text = true
  | Err (WaitExited nm code ps lines) =>
      nm = name /\ ps = describe_patterns patterns /\ matches_any patterns (join_lines lines) = false
      /\ exists n err meta, e_screen e n true false = Err err /\ e_record e (S n) = Some meta
           /\ exited_at meta <> None /\ last_lines meta = Some lines /\ code = exit_code meta
  end.

Definition watching (s : WaitState) : Prop :=
  match watch s with Some w => exists ps, Heard w ps | None => True end
  /\ (last_screen s = [] \/ exists m, e_screen e m true false = Ok (last_screen s)).

Lemma look_justified s :
  watching s ->
  match look e name patterns plain s with inl r => justified r | inr s' => watching s' end.
Proof.
  intros [W L]. unfold look. destruct (e_screen e (moment s) true false) as [screen|err] eqn:S.
  - destruct (matches_any patterns screen) eqn:M; [|split; [exact W|right; eauto]].
    assert (V : forall text, (if plain then text = screen else e_screen e (moment s + 1) false false = Ok text
        \/ (exists err, e_screen e (moment s + 1) false false = Err err) /\ text = screen) -> Found text)
      by (intros text; rewrite Nat.add_1_r; apply (on_screen _ _ _ S M)).
    destruct plain; [by apply V|]. destruct (e_screen e (moment s + 1) false false) as [ansi|err]; apply V; eauto.
  - assert (Go : watching (mkWait (watch s) (watched s) (next_look s) (last_screen s) (moment s + 2))) by done.
    destruct (e_record e (moment s + 1)) as [meta|] eqn:R; [|exact Go].
    destruct (exited_at meta) eqn:X; [|exact Go]. destruct (last_lines meta) as [lines|] eqn:Ll; [|exact Go].
    rewrite Nat.add_1_r in R. destruct (matches_any patterns (join_lines lines)) eqn:M.
    + assert (N : exited_at meta <> None) by (by rewrite X). exact (in_record _ _ _ _ _ S R N Ll M eq_refl).
    + split_and!; [done..|]. exists (moment s), err, meta. rewrite X. done.
Qed.

Lemma screen_now_then s n ps w : (last_screen s = [] \/ exists m, e_screen e m true false = Ok (last_screen s)) ->
  w_screen w = kept_screen ps -> screen_then n ps (screen_now e plain (last_screen s) (w_screen w) n).
Proof.
  intros L K. unfold screen_then, screen_now. destruct (e_screen e n plain false) as [t|err]; [by left|right].
  split; [eauto|]. destruct (beq (last_screen s) []) eqn:B; [by right|left].
  assert (N : last_screen s <> []) by (intros E; rewrite E in B; done). split; [done|]. destruct L as [L|L]; done.
Qed.

Lemma wait_for_output_justified s x :
  watching s -> wait_for_output e patterns plain fuel s = Some x ->
  match x with inl r => justified r | inr s' => watching s' end.
Proof.
  intros [W L]. unfold wait_for_output. destruct (watch s) as [w|]; [|intros [= <-]; done].
  destruct W as [ps H]. destruct (wait_until e fuel patterns (next_look s) w (moment s)) as [[[r v] n]|] eqn:U;
    [|discriminate]. intros [= <-]. apply (wait_until_spec _ _ _ _ _ _ _ _ H) in U.
  destruct r; [|destruct U as [qs U]; split; cbn; eauto|done].
  destruct U as (qs & R & T & K). exact (in_output _ _ n R T (screen_now_then s n _ v L K)).
Qed.

Lemma at_deadline_justified s r :
  overdue -> watching s -> at_deadline e patterns timeout_text plain fuel s = Some r -> justified r.
Proof.
  intros D [W L]. unfold at_deadline.
  assert (G : forall n, justified (Err (timed_out e patterns timeout_text (watched s) n))).
  { intros n. unfold timed_out. destruct (e_screen e n true true) as [text|err] eqn:S.
    - destruct (matches_any patterns text) eqn:M; cbn; split_and!; try done.
      + eauto.
      + exists n. intros t [= <-]%(eq_trans (eq_sym S)). done.
    - cbn. split_and!; try done. exists n. intros t E. congruence. }
  destruct (watch s) as [w|]; [|intros [= <-]; apply G].
  destruct W as [ps H]. destruct (wait_until _ _ _ _ _ _) as [[[o v] n]|] eqn:U; [|discriminate].
  intros [= <-]. apply (wait_until_spec _ _ _ _ _ _ _ _ H) in U. destruct o; try apply G.
  destruct U as (qs & R & T & K). exact (in_output _ _ n R T (screen_now_then s n _ v L K)).
Qed.

Lemma wait_turn_justified s x :
  watching s -> wait_turn e name patterns timeout timeout_text plain start fuel s = Some x ->
  match x with inl r => justified r | inr s' => watching s' end.
Proof.
  intros W.
  assert (O : forall s1 o, watching s1 -> wait_for_output e patterns plain fuel s1 = Some o ->
    match (match o with
           | inl r => inl r
           | inr s => if e_now e (moment s) <? next_look s then inr (tick s)
                      else look e name patterns plain (mkWait (watch s) (watched s) (e_now e (S (moment s)) + PEEK_WAIT_INTERVAL)
                             (last_screen s) (moment s + 2))
           end) with inl r => justified r | inr s' => watching s' end).
  { intros s1 o W1 O. apply (wait_for_output_justified s1 o W1) in O.
    destruct o as [r|s']; [done|]. destruct (_ <? _); [exact O|]. apply look_justified. exact O. }
  unfold wait_turn, expired. destruct timeout as [t|] eqn:T.
  - destruct (Z.ltb_spec t (e_now e (moment s) - start)) as [Late|Late].
    + destruct (at_deadline _ _ _ _ _ _) as [r|] eqn:A; [|discriminate]. intros [= <-].
      refine (at_deadline_justified (tick s) r _ W A). unfold overdue. rewrite T. eauto.
    + destruct (wait_for_output e patterns plain fuel (tick s)) as [o|] eqn:E; [|discriminate].
      cbn [mbind option_bind]. intros [= <-]. exact (O (tick s) o W E).
  - destruct (wait_for_output e patterns plain fuel s) as [o|] eqn:E; [|discriminate].
    cbn [mbind option_bind]. intros [= <-]. exact (O _ o W E).
Qed.

Lemma wait_loop_justified turns : forall s r,
  watching s -> wait_loop e name patterns timeout timeout_text plain start fuel turns s = Some r -> justified r.
Proof.
  induction turns as [|turns IH]; intros s r W; cbn [wait_loop]; [discriminate|].
  destruct (wait_turn _ _ _ _ _ _ _ _ s) as [x|] eqn:T; [|discriminate]. cbn [mbind option_bind].
  pose proof (wait_turn_justified s x W T) as J. destruct x as [r'|s']; [intros [= <-]; done|]. by apply IH.
Qed.
End Loop.

(** ** The wait ends *)

Section Ends.
Context (clock : forall n, e_now e n < e_now e (S n)).

Lemma clock_le m n : (m <= n)%nat -> e_now e m + Z.of_nat (n - m) <= e_now e n.
Proof.
  induction 1 as [|n L IH]; [rewrite Nat.sub_diag; lia|]. pose proof (clock n).
  replace (Z.of_nat (S n - m)) with (Z.of_nat (n - m) + 1) by lia. lia.
Qed.

Lemma wait_until_ends fuel until : forall w n,
  until - e_now e n < Z.of_nat fuel -> (1 <= fuel)%nat -> 
  exists r v m, wait_until e fuel patterns until w n = Some (r, v, m) /\ (n < m)%nat.
Proof.
  induction fuel as [|fuel IH]; intros w n L P; [lia|]. cbn [wait_until].
  destruct (e_poll e (n + 1)) as [[]|?]; [|do 3 eexists; split; [done|lia]..].
  destruct (e_read e (n + 2)) as [data|?]; [|do 3 eexists; split; [done|lia]].
  destruct (beq data []); [do 3 eexists; split; [done|lia]|].
  destruct (Protocol.feed (w_reader w) data) as [b [qs|m]]; [|do 3 eexists; split; [done|lia]].
  destruct (watch_packets _ _ qs) as [v [o|]]; [do 3 eexists; split; [done|lia]|].
  destruct (Z.leb_spec until (e_now e (n + 3))) as [U|U]; [do 3 eexists; split; [done|lia]|].
  pose proof (clock_le n (n + 3) ltac:(lia)). pose proof (clock_le n (n + 4) ltac:(lia)).
  destruct (IH v (n + 4)%nat) as (r & x & m & W & M); [lia..|]. do 3 eexists. split; [exact W|lia].
Qed.

Section Turns.
Context (name : bytes) (t : Z) (timeout_text : bytes) (plain : bool) (start : Z) (fuel : nat).
Context (enough : PEEK_WAIT_INTERVAL + 1 < Z.of_nat fuel).
Abbreviation turn := (wait_turn e name patterns (Some t) timeout_text plain start fuel).

(** The next look is never further away than the interval. *)
Definition near (s : WaitState) : Prop := next_look s <= e_now e (moment s) + PEEK_WAIT_INTERVAL.

Lemma near_later s s' :
  near s -> next_look s' = next_look s -> (moment s <= moment s')%nat -> near s'.
Proof. unfold near. intros N -> L. pose proof (clock_le _ _ L). lia. Qed.

Lemma look_later s :
  near s -> match look e name patterns plain s with inr s' => (moment s <= moment s')%nat /\ near s' | inl _ => True end.
Proof.
  intros N. unfold look.
  assert (L : forall w wd ls k, near (mkWait w wd (next_look s) ls (moment s + k))).
  { intros. eapply near_later; [exact N|done|cbn; lia]. }
  destruct (e_screen _ _ _ _); [destruct (matches_any _ _); [destruct plain; [done|by destruct (e_screen _ _ _ _)]|]|].
  - split; [cbn; lia|apply L].
  - destruct (e_record _ _) as [meta|]; [destruct (exited_at meta), (last_lines meta)|];
      try (split; [cbn; lia|apply L]). destruct (matches_any _ _); done.
Qed.

Lemma output_later s :
  near s -> exists x, wait_for_output e patterns plain fuel s = Some x
    /\ match x with inr s' => (moment s <= moment s')%nat /\ near s' | inl _ => True end.
Proof.
  intros N. unfold wait_for_output. destruct (watch s) as [w|].
  - unfold near in N. destruct (wait_until_ends fuel (next_look s) w (moment s)) as (r & v & m & -> & M); [lia|unfold PEEK_WAIT_INTERVAL in enough; lia|].
    eexists. split; [done|]. destruct r; [done| |]; (split; [cbn; lia|]); (eapply near_later; [exact N|done|cbn; lia]).
  - eexists. split; [done|]. split; [cbn; lia|]. eapply near_later; [exact N|done|cbn; lia].
Qed.

(** Every turn ends; one that goes on had time left, and time has passed. *)
Lemma turn_ends s :
  near s -> exists x, turn s = Some x
    /\ match x with
       | inr s' => (moment s < moment s')%nat /\ near s' /\ e_now e (moment s) - start <= t
       | inl _ => True
       end.
Proof.
  intros N. unfold wait_turn, expired. destruct (Z.ltb_spec t (e_now e (moment s) - start)) as [L|L].
  - unfold at_deadline. destruct (watch (tick s)) as [w|]; [|eexists; done].
    destruct (wait_until_ends fuel (e_now e (moment (tick s))) w (moment (tick s) + 1)) as (r & v & m & -> & M); [|unfold PEEK_WAIT_INTERVAL in enough; lia|eexists; done].
    pose proof (clock_le (moment (tick s)) (moment (tick s) + 1) ltac:(lia)). unfold PEEK_WAIT_INTERVAL in enough. lia.
  - assert (N' : near (tick s)) by (eapply near_later; [exact N|done|cbn; lia]).
    destruct (output_later (tick s) N') as (x & -> & X). cbn [mbind option_bind]. eexists. split; [done|].
    destruct x as [r|s']; [done|]. destruct X as [M X]. cbn [tick moment] in M.
    destruct (_ <? _).
    + split; [cbn; lia|]. split; [|done]. eapply near_later; [exact X|done|cbn; lia].
    + match goal with |- match look _ _ _ _ ?u with _ => _ end => pose proof (look_later u) as K; set (v := u) in * end.
      assert (V : near v).
      { unfold near, v. cbn [next_look moment]. pose proof (clock_le (S (moment s')) (moment s' + 2) ltac:(lia)). lia. }
      destruct (look _ _ _ _ v) as [r|s2]; [done|]. destruct (K V) as [K1 K2]. unfold v in K1. cbn [moment] in K1.
      split; [lia|done].
Qed.

Lemma loop_ends turns : forall s,
  near s -> t - (e_now e (moment s) - start) + 1 < Z.of_nat turns -> (1 <= turns)%nat ->
  exists r, wait_loop e name patterns (Some t) timeout_text plain start fuel turns s = Some r.
Proof.
  induction turns as [|turns IH]; intros s N L P; [lia|]. cbn [wait_loop].
  destruct (turn_ends s N) as (x & -> & X). cbn [mbind option_bind].
  destruct x as [r|s']; [eauto|]. destruct X as (M & N' & T). pose proof (clock_le _ _ (Nat.lt_le_incl _ _ M)).
  apply IH; [done|lia..].
Qed.
End Turns.
End Ends.
End Waiting.

(** ** Theorems on the wait *)


(** With a clock that advances, a wait with a deadline returns. *)
Theorem peek_wait_ends (e : WaitEnv) (name : bytes) (patterns : list bytes) (secs : Seconds)
  (timeout_text : bytes) (plain : bool) (t : Z) :
  (forall n, e_now e n < e_now e (S n)) -> wait_timeout secs = Some (Some t) ->
  exists fuel turns r, peek_wait e fuel turns name patterns secs timeout_text plain = Some (Some r).
Proof.
  intros clock T. exists (Z.to_nat (PEEK_WAIT_INTERVAL + 2)). unfold peek_wait. rewrite T. cbn [mbind option_bind].
  set (s0 := mkWait _ _ _ _ _). exists (Z.to_nat (Z.max 1 (t + 2))).
  pose proof (clock_le e clock 0 2 ltac:(lia)) as C.
  destruct (loop_ends e patterns clock name t timeout_text plain (e_now e 0) (Z.to_nat (PEEK_WAIT_INTERVAL + 2))
              ltac:(unfold PEEK_WAIT_INTERVAL; lia) (Z.to_nat (Z.max 1 (t + 2))) s0) as [r R].
  - unfold near, s0. cbn [next_look moment]. unfold PEEK_WAIT_INTERVAL. destruct (e_watch e 1); lia.
  - unfold s0. cbn [moment]. lia.
  - lia.
  - exists r. rewrite R. done.
Qed.

Definition demo_env : WaitEnv :=
  mkWaitEnv Z.of_nat (fun _ _ _ => Ok (str "$ ready")) (fun _ => true) (fun _ => Ok true)
    (fun _ => RdData (encode_screen (str "$ ready"))) (fun _ => None).


Lemma peek_wait_ends_witness :
  exists fuel turns r, peek_wait demo_env fuel turns (str "web") [str "never"] (Finite 5000) (str "0") true = Some (Some r).
Proof. apply (peek_wait_ends demo_env _ _ _ _ _ 5000); [intros n; cbn; lia|reflexivity]. Defined.

(** A timeout that no [Duration] holds panics, as an infinite one would; only the infinite
    one is caught. *)
Example huge_timeout_panics n fuel turns :
  peek_wait demo_env fuel turns n [str "x"] (Finite (10 ^ 20 * 1000000000)) (str "1e20") true = None.
Proof. reflexivity. Qed.
Example infinite_timeout_waits : wait_timeout NotFinite = Some None.
Proof. reflexivity. Qed.
