(* ===== verification/Attach.v ===== *)
(** The interactive attach: [crates/pty-client/src/attach.rs], with the machine stream of
    [stream.rs].  One thread and one [poll] set: the session's socket, the keyboard and
    the window's signal.

    Every answer from outside (the clock, the terminal, a read, a dial) is given at a
    moment of its own; what the client writes, and what it reads from the keyboard, is a
    log. *)
From S2P Require Import Prelude Json Metadata Time Names Text Argv Protocol Client Visible Tty Summary Peek.

(** ** The machine stream *)

Inductive StreamPhase : Type := AwaitGeometry | AwaitScreen | Ready.
#[export] Instance StreamPhase_eq_dec : EqDecision StreamPhase.
Proof. solve_decision. Defined.

Inductive StreamFailure : Type :=
  | Unsupported (what : bytes)
  | WriteFailed (fd : Z) (message : bytes).
Definition display_failure (f : StreamFailure) : bytes :=
  match f with
  | Unsupported what => str "pty attach: daemon does not support attach stream v1 (" ++ what ++ str ")"
  | WriteFailed fd message =>
      str "pty attach: machine stream descriptor " ++ dec fd ++ str " failed: " ++ message
  end.
Definition truncated_line (detail : bytes) : bytes :=
  str "pty attach: machine stream truncated before EXIT: " ++ detail ++ [10].

Inductive Accepted : Type := Skipped | Forwarded.

Definition is_stream_event (t : MessageType) : bool :=
  match t with Geometry | Screen | Data | Exit => true | _ => false end.
Definition is_geometry (t : MessageType) : bool := match t with Geometry => true | _ => false end.
Definition is_screen (t : MessageType) : bool := match t with Screen => true | _ => false end.

(** The part of [MachineStream::accept] before the write: what it does with a packet of
    this type, and the phase after it. *)
Definition accept_type (phase : StreamPhase) (t : MessageType) : Result (Accepted * StreamPhase) StreamFailure :=
  if negb (is_stream_event t) then Ok (Skipped, phase)
  else match phase with
       | AwaitGeometry =>
           if is_geometry t then Ok (Forwarded, AwaitScreen)
           else Err (Unsupported (str "expected GEOMETRY before terminal events"))
       | AwaitScreen =>
           if is_geometry t then Ok (Forwarded, AwaitScreen)
           else if is_screen t then Ok (Forwarded, Ready)
           else Err (Unsupported (str "expected SCREEN before "
                      ++ match t with Data => str "DATA" | _ => str "EXIT" end))
       | Ready => Ok (Forwarded, Ready)
       end.

(** ** The client's state *)

Inductive Phase : Type := Live | Reconnecting (attempt : nat) (next_at : Z).

Inductive AttachOutcome : Type := Exited (code : Z) | Detached.
#[export] Instance AttachOutcome_eq_dec : EqDecision AttachOutcome.
Proof. solve_decision. Defined.
(** [AttachOutcome::exit_code]. *)
Definition outcome_code (o : AttachOutcome) : Z := match o with Exited c => c | Detached => 0 end.

Record Attach : Type := mkAttach {
  socket : bool;
  reader : bytes;
  machine : option StreamPhase;
  raw : bool;
  exit_code : Z;
  session_exited : bool;
  dropped : bool;
  detach_armed : option Z;
  phase : Phase;
  stdin_open : bool;
  sigwinch : bool;
  moment : nat;
  log : list Io
}.
#[export] Instance Attach_eta : Settable Attach := fun a =>
  mkAttach (socket a) (reader a) (machine a) (raw a) (exit_code a) (session_exited a) (dropped a)
    (detach_armed a) (phase a) (stdin_open a) (sigwinch a) (moment a) (log a).

(** What [reconnect] answers: the host refused, a fresh socket, or no transport. *)
Inductive Dial : Type := Refused | Fresh | NoTransport.

Record AttachEnv : Type := mkAttachEnv {
  e_now : nat -> Z;                         (* [Instant::now], in nanoseconds *)
  e_now_ms : nat -> Z;                      (* [now_epoch_ms] *)
  e_raw : nat -> bool;                      (* [RawMode::enable_if_tty(stdin)] *)
  e_window : nat -> option Winsize;
  e_tty : nat -> option bytes;              (* [tty_name(stdin)] *)
  e_winch : nat -> bool;                    (* stdout is a terminal and the handler is installed *)
  e_poll : nat -> Z -> Result (bool * bool * bool) bytes;
  e_socket : nat -> Read;
  e_stdin : nat -> Read;
  e_drain : nat -> bool;
  e_dial : nat -> Dial;
  e_stream : nat -> option (nat * IoErr);   (* a write to the stream that failed, after some bytes *)
  e_summary : nat -> option SessionSummary
}.

#[export] Instance AttachEnv_eta : Settable AttachEnv := fun e =>
  mkAttachEnv (e_now e) (e_now_ms e) (e_raw e) (e_window e) (e_tty e) (e_winch e) (e_poll e) (e_socket e) (e_stdin e)
    (e_drain e) (e_dial e) (e_stream e) (e_summary e).

Definition M (A : Type) : Type := Attach -> A * Attach.
#[export] Instance M_ret : MRet M := fun A a s => (a, s).
#[export] Instance M_bind : MBind M := fun A B f m s => let '(a, s) := m s in f a s.

Definition ask {A} (f : nat -> A) : M A := fun s => (f (moment s), s <| moment ::= S |>).
Definition get {A} (f : Attach -> A) : M A := fun s => (f s, s).
Definition modify (f : Attach -> Attach) : M unit := fun s => (tt, f s).
Definition emit (io : Io) : M unit := modify (fun s => s <| log := log s ++ [io] |>).

(** ** The backoff *)

Definition RECONNECT_BACKOFF_MS : list Z := [100; 250; 500; 1000; 2000; 5000; 10000].
Definition RECONNECT_BACKOFF_CAP_MS : Z := 15000.
Definition ms (n : Z) : Z := n * 1000000.
Definition backoff (attempt : nat) : Z := ms (default RECONNECT_BACKOFF_CAP_MS (RECONNECT_BACKOFF_MS !! attempt)).

(** [PTY_RECONNECT_MAX_ATTEMPTS]: the number its text denotes, when it is a positive
    integer ([parse] is the reading of a float, given as an integer if it is one). *)
Definition reconnect_max_attempts (parse : bytes -> option (option Z)) (var : option bytes) : option Z :=
  let? raw := var in
  let t := trim is_trim_space raw in
  let? n := (if beq t [] then Some (Some 0) else parse t) in
  let? n := n in
  if 0 <? n then Some n else None.

Definition WINDOW : Z := ms DOUBLE_TAP_MS.
Definition RECONNECTING_LINE : bytes :=
  [13; 10] ++ str "[reconnecting" ++ [8230] ++ [32; 8212; 32] ++ str "Ctrl-\ or Ctrl-C to stop]" ++ [13; 10].

(** ** The handlers *)

Section Client.
Context `{Unicode} (e : AttachEnv) (os_text : Z -> bytes) (home : bytes) (reap_var : option bytes).
Context (name : bytes) (peer : option bytes) (pid : Z) (stream_fd : Z).
(** The identity's JSON text. *)
Context (identity_json : Z -> option bytes -> bytes).
(** Is there a [reconnect] callback, and its bound. *)
Context (reconnect : bool) (max_attempts : option nat) (stdin_was_tty : bool).

Definition stdout (b : bytes) : M unit := emit (ToStdout b).
Definition stderr (b : bytes) : M unit := emit (ToStderr b).

Definition socket_write (b : bytes) : M unit :=
  open ← get socket;
  if (open : bool) then emit (ToSocket b) else mret tt.

(** Drop the window's signal, the raw mode and the socket. *)
Definition drop_socket : M unit :=
  open ← get socket;
  if (open : bool) then modify (fun s => s <| socket := false |>) ;; emit CloseSocket else mret tt.
Definition clean_exit : M unit :=
  modify (fun s => s <| sigwinch := false |>) ;;
  r ← get raw;
  (if (r : bool) then modify (fun s => s <| raw := false |>) ;; emit (RawMode false) else mret tt) ;;
  drop_socket.

Definition trailer (end_ : SessionEnd) : M unit :=
  clean_exit ;;
  summary ← ask (e_summary e);
  let target := mkTarget name peer summary in
  now ← ask (e_now_ms e);
  m ← get machine;
  match (m : option StreamPhase) with
  | Some _ => stderr (to_utf8 (trailer_header end_ target now ++ [10]))
  | None =>
      stdout (to_utf8 (TERMINAL_SANITIZE ++ CURSOR_TO_BOTTOM ++ render_trailer home reap_var end_ target now))
  end.

(** Raw mode, ATTACH with the size of the window, the window's signal. *)
Definition on_ready : M unit :=
  r ← get raw;
  (if (r : bool) then mret tt
   else ok ← ask (e_raw e);
        if (ok : bool) then modify (fun s => s <| raw := true |>) ;; emit (RawMode true) else mret tt) ;;
  w ← ask (e_window e);
  tty ← ask (e_tty e);
  let '(rows, cols, cw, ch) := default (24, 80, 0, 0) (window_size_with_cell w) in
  socket_write (encode_attach_with_identity_and_cell identity_json rows cols cw ch pid (to_utf8 <$> tty)) ;;
  wired ← get sigwinch;
  if (wired : bool) then mret tt
  else ok ← ask (e_winch e);
       modify (fun s => s <| sigwinch := ok |>).

Definition finish (code : Z) : M AttachOutcome := clean_exit ;; mret (Exited code).

(** [MachineStream::write]: all of it, or some and a failure. *)
Definition stream_write (b : bytes) : M (Result unit StreamFailure) :=
  failed ← ask (e_stream e);
  match (failed : option (nat * IoErr)) with
  | None => emit (ToStream b) ;; mret (Ok tt)
  | Some (k, err) =>
      emit (ToStream (take k b)) ;;
      mret (Err (WriteFailed stream_fd (node_error_message os_text (str "write") None err)))
  end.

Definition accept (phase : StreamPhase) (p : Packet) : M (Result Accepted StreamFailure) :=
  match accept_type phase (type_ p) with
  | Err f => mret (Err f)
  | Ok (Skipped, _) => mret (Ok Skipped)
  | Ok (Forwarded, phase') =>
      modify (fun s => s <| machine := Some phase' |>) ;;
      r ← stream_write (encode p);
      mret (match (r : Result unit StreamFailure) with Ok _ => Ok Forwarded | Err f => Err f end)
  end.

Definition finish_detach : M AttachOutcome :=
  m ← get machine;
  match (m : option StreamPhase) with
  | Some _ =>
      r ← stream_write encode_detach;
      match (r : Result unit StreamFailure) with
      | Err f => stderr (to_utf8 (display_failure f ++ [10])) ;; clean_exit ;; mret (Exited 1)
      | Ok _ => socket_write encode_detach ;; clean_exit ;; mret Detached
      end
  | None => socket_write encode_detach ;; clean_exit ;; trailer EndDetached ;; mret Detached
  end.

Definition exited (p : Packet) : M Z :=
  modify (fun s => s <| exit_code := decode_exit (payload p) |> <| session_exited := true |>) ;;
  mret (decode_exit (payload p)).

(** One packet from the daemon; an outcome ends the client. *)
Definition handle_packet (p : Packet) : M (option AttachOutcome) :=
  m ← get machine;
  match type_ p, (m : option StreamPhase) with
  | ConnectionError, _ =>
      clean_exit ;;
      stderr (to_utf8 (str "Connection lost: " ++ connection_error_text (payload p) ++ [10])) ;;
      trailer EndConnectionLost ;;
      o ← finish 1; mret (Some o)
  | t, Some ph =>
      r ← accept ph p;
      match (r : Result Accepted StreamFailure) with
      | Err f => stderr (to_utf8 (display_failure f ++ [10])) ;; o ← finish 1; mret (Some o)
      | Ok Skipped => mret None
      | Ok Forwarded =>
          match t with
          | Exit => code ← exited p; o ← finish code; mret (Some o)
          | _ => mret None
          end
      end
  | Data, None => stdout (payload p) ;; mret None
  | Screen, None => stdout (CLEAR_SCREEN_HOME ++ payload p) ;; mret None
  | Exit, None => code ← exited p; trailer (EndExited code) ;; o ← finish code; mret (Some o)
  | _, None => mret None
  end.

Fixpoint handle_packets (ps : list Packet) : M (option AttachOutcome) :=
  match ps with
  | [] => mret None
  | p :: ps =>
      o ← handle_packet p;
      match (o : option AttachOutcome) with Some o => mret (Some o) | None => handle_packets ps end
  end.

Definition start_reconnect : M unit :=
  m ← get machine;
  match (m : option StreamPhase) with
  | Some _ => stderr (to_utf8 RECONNECTING_LINE)
  | None => stdout (to_utf8 (esc "[?5522l" ++ RECONNECTING_LINE))
  end ;;
  now ← ask (e_now e);
  modify (fun s => s <| phase := Reconnecting 0 (now + backoff 0) |>).

(** [err]: a failed read; [None] is the end of the stream. *)
Definition on_disconnect (err : option IoErr) : M (option AttachOutcome) :=
  drop_socket ;;
  s ← get (fun s => s);
  if reconnect && negb (session_exited s) then start_reconnect ;; mret None
  else
    let in_stream := match machine s with Some _ => negb (session_exited s) | None => false end in
    match err with
    | Some err =>
        clean_exit ;;
        let detail := node_error_message os_text (str "read") None err in
        if in_stream then stderr (to_utf8 (truncated_line detail)) ;; o ← finish 1; mret (Some o)
        else
          stderr (to_utf8 (str "Connection lost: " ++ detail ++ [10])) ;;
          trailer EndConnectionLost ;;
          o ← finish 1; mret (Some o)
    | None =>
        if in_stream then
          stderr (to_utf8 (truncated_line (str "connection closed"))) ;; o ← finish 1; mret (Some o)
        else
          (if negb (session_exited s) && negb (dropped s) then trailer EndConnectionLost else mret tt) ;;
          o ← finish (if session_exited s then exit_code s else 1); mret (Some o)
    end.

Definition handle_socket_readable : M (option AttachOutcome) :=
  open ← get socket;
  if negb (open : bool) then mret None
  else
    r ← ask (e_socket e);
    match (r : Read) with
    | RdData data =>
        if beq data [] then on_disconnect None
        else
          b ← get reader;
          match Protocol.feed b data with
          | (b, Ok ps) => modify (fun s => s <| reader := b |>) ;; handle_packets ps
          | (b, Err m) =>
              modify (fun s => s <| reader := b |>) ;;
              stderr (to_utf8 (dropping_connection_line m)) ;;
              drop_socket ;;
              modify (fun s => s <| dropped := true |>) ;;
              on_disconnect None
          end
    | RdErr err =>
        if is_kind WouldBlock err || is_kind Interrupted err then mret None
        else on_disconnect (Some err)
    end.

Definition try_reconnect : M (option AttachOutcome) :=
  ph ← get phase;
  match (ph : Phase) with
  | Live => mret None
  | Reconnecting attempt _ =>
      if negb reconnect then mret None
      else
        r ← ask (e_dial e);
        match (r : Dial) with
        | Refused =>
            modify (fun s => s <| phase := Live |>) ;;
            trailer EndConnectionLost ;;
            o ← finish 1; mret (Some o)
        | Fresh =>
            modify (fun s => s <| socket := true |> <| reader := [] |> <| dropped := false |>
                               <| machine ::= fmap (fun _ => AwaitGeometry) |> <| phase := Live |>) ;;
            on_ready ;;
            mret None
        | NoTransport =>
            let next := S attempt in
            if match max_attempts with Some max => (max <=? next)%nat | None => false end then
              modify (fun s => s <| phase := Live |>) ;;
              trailer EndConnectionLost ;;
              o ← finish 1; mret (Some o)
            else
              now ← ask (e_now e);
              modify (fun s => s <| phase := Reconnecting next (now + backoff next) |>) ;;
              mret None
        end
  end.

(** One byte of keyboard input: what is forwarded so far. *)
Definition tap (forward : bytes) (b : Z) : M bytes :=
  if b =? DETACH_KEY then
    now ← ask (e_now e);
    armed ← get detach_armed;
    match (armed : option Z) with
    | Some t =>
        if now - t <? WINDOW then
          modify (fun s => s <| detach_armed := None |>) ;; mret (forward ++ [DETACH_KEY])
        else modify (fun s => s <| detach_armed := Some now |>) ;; mret forward
    | None => modify (fun s => s <| detach_armed := Some now |>) ;; mret forward
    end
  else mret (forward ++ [b]).
Fixpoint taps (forward data : bytes) : M bytes :=
  match data with
  | [] => mret forward
  | b :: data => forward ← tap forward b; taps forward data
  end.
Definition process_input (input : bytes) : M unit :=
  let data := normalize_detach_key input in
  if negb (memb DETACH_KEY data) then socket_write (encode_data data)
  else
    forward ← taps [] data;
    if beq forward [] then mret tt else socket_write (encode_data forward).

Definition handle_stdin_readable : M unit :=
  n ← get moment;
  r ← ask (e_stdin e);
  match (r : Read) with
  | RdData data =>
      if beq data [] then modify (fun s => s <| stdin_open := false |>)
      else emit (FromStdin n data) ;; process_input data
  | RdErr err =>
      if is_kind WouldBlock err then mret tt else modify (fun s => s <| stdin_open := false |>)
  end.

Definition handle_sigwinch : M unit :=
  arrived ← ask (e_drain e);
  if (arrived : bool) then
    w ← ask (e_window e);
    match window_size_with_cell w with
    | Some (rows, cols, cw, ch) => socket_write (encode_resize_with_cell rows cols cw ch)
    | None => mret tt
    end
  else mret tt.

(** ** The loop *)

Definition deadline (s : Attach) : option Z :=
  let d := (fun t => t + WINDOW) <$> detach_armed s in
  match phase s with
  | Reconnecting _ next_at => Some (match d with Some d => Z.min d next_at | None => next_at end)
  | Live => d
  end.

(** [i32::MAX] milliseconds at most, rounded up from microseconds. *)
Definition poll_timeout (deadline : option Z) (now : Z) : Z :=
  match deadline with
  | Some d => Z.min ((Z.max 0 (d - now) / 1000 + 999) / 1000) I32_MAX
  | None => -1
  end.

Definition turn : M (option AttachOutcome) :=
  now ← ask (e_now e);
  s ← get (fun s => s);
  if match detach_armed s with Some t => t + WINDOW <=? now | None => false end then
    o ← finish_detach; mret (Some o)
  else if match phase s with Reconnecting _ next_at => next_at <=? now | Live => false end then
    try_reconnect
  else if negb (socket s) && negb (stdin_open s) && negb (sigwinch s)
          && match deadline s with None => true | Some _ => false end then
    o ← finish (exit_code s); mret (Some o)
  else
    timeout ← (match deadline s with
               | Some d => now ← ask (e_now e); mret (poll_timeout (Some d) now)
               | None => mret (poll_timeout None 0)
               end);
    r ← ask (fun n => e_poll e n timeout);
    match (r : Result (bool * bool * bool) bytes) with
    | Err m =>
        clean_exit ;;
        stderr (to_utf8 (str "Connection error: poll " ++ m ++ [10])) ;;
        mret (Some (Exited 1))
    | Ok (at_socket, at_stdin, at_winch) =>
        o ← (if socket s && at_socket then handle_socket_readable else mret None);
        match (o : option AttachOutcome) with
        | Some o => mret (Some o)
        | None =>
            o ← (if stdin_open s && at_stdin then
                   handle_stdin_readable ;;
                   open ← get stdin_open;
                   if stdin_was_tty && negb (open : bool) then o ← finish 0; mret (Some o) else mret None
                 else mret None);
            match (o : option AttachOutcome) with
            | Some o => mret (Some o)
            | None => (if sigwinch s && at_winch then handle_sigwinch else mret tt) ;; mret None
            end
        end
    end.

Fixpoint run (turns : nat) : M (option AttachOutcome) :=
  match turns with
  | O => mret None
  | S turns =>
      o ← turn;
      match (o : option AttachOutcome) with Some o => mret (Some o) | None => run turns end
  end.

Definition initial (machine_stream : bool) : Attach :=
  mkAttach true [] (if machine_stream then Some AwaitGeometry else None) false 0 false false None Live
    true false 0 [].

(** [attach]: [None] is a client still attached after [turns] turns of its loop. *)
Definition attach (machine_stream : bool) (turns : nat) : option AttachOutcome * Attach :=
  (on_ready ;; run turns) (initial machine_stream).

End Client.

(** ** A program logic for the client *)

Definition wp {A} (m : M A) (Q : A -> Attach -> Prop) (s : Attach) : Prop := let '(a, s') := m s in Q a s'.

Lemma cwp_mono {A} (m : M A) (P Q : A -> Attach -> Prop) s :
  wp m P s -> (forall a s', P a s' -> Q a s') -> wp m Q s.
Proof. unfold wp. destruct (m s). auto. Qed.
Lemma cwp_ret {A} (a : A) (Q : A -> Attach -> Prop) s : Q a s -> wp (mret a) Q s.
Proof. done. Qed.
Lemma cwp_bind {A B} (m : M A) (f : A -> M B) (Q : B -> Attach -> Prop) s :
  wp m (fun a => wp (f a) Q) s -> wp (m ≫= f) Q s.
Proof. unfold wp, mbind, M_bind. destruct (m s). done. Qed.
Lemma wp_ask {A} (f : nat -> A) (Q : A -> Attach -> Prop) s :
  Q (f (moment s)) (s <| moment ::= S |>) -> wp (ask f) Q s.
Proof. done. Qed.
Lemma wp_get {A} (f : Attach -> A) (Q : A -> Attach -> Prop) s : Q (f s) s -> wp (get f) Q s.
Proof. done. Qed.
Lemma wp_modify f (Q : unit -> Attach -> Prop) s : Q tt (f s) -> wp (modify f) Q s.
Proof. done. Qed.
Lemma wp_emit io (Q : unit -> Attach -> Prop) s :
  Q tt (s <| log := log s ++ [io] |>) -> wp (emit io) Q s.
Proof. done. Qed.
Lemma wp_if {A} (b : bool) (m k : M A) (Q : A -> Attach -> Prop) s :
  (b = true -> wp m Q s) -> (b = false -> wp k Q s) -> wp (if b then m else k) Q s.
Proof. destruct b; auto. Qed.

(** The keyboard's reads, as the log has them. *)
Definition keyboard (l : list Io) : list (nat * bytes) :=
  omap (fun io => match io with FromStdin n b => Some (n, b) | _ => None end) l.
Lemma keyboard_app a b : keyboard (a ++ b) = keyboard a ++ keyboard b.
Proof. apply omap_app. Qed.

(** The log tells whether the terminal is raw, and what was read so far. *)
Definition Logged (K : list (nat * bytes)) (s : Attach) : Prop := raw_state false (log s) = raw s /\ keyboard (log s) = K.
(** The terminal is as it was found and nothing is open. *)
Definition Shut (s : Attach) : Prop :=
  raw s = false /\ socket s = false /\ sigwinch s = false /\ raw_state false (log s) = false.
Definition Closed (K : list (nat * bytes)) (s : Attach) : Prop := Shut s /\ keyboard (log s) = K.

Definition is_quiet (io : Io) : bool := match io with RawMode _ | FromStdin _ _ => false | _ => true end.

Lemma quiet_snoc r l io : is_quiet io = true ->
  raw_state r (l ++ [io]) = raw_state r l /\ keyboard (l ++ [io]) = keyboard l.
Proof. intros N. rewrite raw_state_app, keyboard_app. destruct io; try done; by rewrite app_nil_r. Qed.

Lemma closed_logged K s : Closed K s -> Logged K s.
Proof. intros [(R & _ & _ & L) E]. split; [congruence|done]. Qed.

Lemma terminal_emit K io (Q : unit -> Attach -> Prop) s :
  is_quiet io = true -> Logged K s -> (forall s', Logged K s' -> Q tt s') -> wp (emit io) Q s.
Proof.
  intros N [L E] G. apply wp_emit, G. destruct (quiet_snoc false (log s) io N) as [R Y].
  split; [exact (eq_trans R L)|exact (eq_trans Y E)].
Qed.

Lemma closed_emit K io (Q : unit -> Attach -> Prop) s :
  is_quiet io = true -> Closed K s -> (forall s', Closed K s' -> Q tt s') -> wp (emit io) Q s.
Proof.
  intros N [(R & S & W & L) E] G. apply wp_emit, G. destruct (quiet_snoc false (log s) io N) as [R' Y].
  split; [split_and!; try done; exact (eq_trans R' L)|exact (eq_trans Y E)].
Qed.

Lemma logged_socket_write K b (Q : unit -> Attach -> Prop) s :
  Logged K s -> (forall s', Logged K s' -> Q tt s') -> wp (socket_write b) Q s.
Proof.
  intros L G. apply cwp_bind, wp_get. destruct (socket s); [|by apply cwp_ret, G]. by apply (terminal_emit K).
Qed.

Lemma drop_socket_spec s :
  exists l, drop_socket s = (tt, s <| socket := false |> <| log := log s ++ l |>) /\ (forall r, raw_state r l = r)
            /\ keyboard l = [].
Proof.
  unfold drop_socket, mbind, M_bind, get. destruct s as [[] ? ? ? ? ? ? ? ? ? ? ? ?]; cbn.
  - exists [CloseSocket]. done.
  - exists []. rewrite app_nil_r. done.
Qed.

(** What a leaving client changes. *)
Lemma closed_clean_exit K (Q : unit -> Attach -> Prop) s :
  Logged K s -> (forall s', Closed K s' -> Q tt s') -> wp clean_exit Q s.
Proof.
  intros [L E] G.
  assert (W : exists s', clean_exit s = (tt, s') /\ Closed K s').
  { unfold clean_exit, mbind, M_bind, modify, get, emit.
    destruct (raw s) eqn:R; cbn; rewrite R; cbn;
      match goal with |- context [drop_socket ?u] => destruct (drop_socket_spec u) as (l & -> & P & Y) end;
      (eexists; split; [done|]); split; try (split_and!; try done); cbn;
      rewrite ?raw_state_app, ?keyboard_app, ?Y, ?E, ?P, ?app_nil_r, ?L; done. }
  destruct W as (s' & W & C). unfold wp. rewrite W. by apply G.
Qed.

(** ** The detach key *)

(** Taps are taken in pairs from the first: two within the window are one key typed; the
    last tap, if it is in no pair, still waits for its second. *)
Fixpoint unpaired (ts : list Z) : option Z :=
  match ts with
  | [] => None
  | t :: ts' => match ts' with
                | [] => Some t
                | u :: rest => if u - t <? WINDOW then unpaired rest else unpaired ts'
                end
  end.
Definition arm (armed : option Z) (t : Z) : option Z :=
  match armed with Some a => if t - a <? WINDOW then None else Some t | None => Some t end.
Lemma unpaired_snoc t : forall n ts, (length ts <= n)%nat -> unpaired (ts ++ [t]) = arm (unpaired ts) t.
Proof.
  induction n as [|n IH]; intros [|a [|b ts]] L; cbn [length] in L; try lia; try done.
  change (unpaired (a :: b :: ts ++ [t]) = arm (unpaired (a :: b :: ts)) t). cbn [unpaired].
  destruct (b - a <? WINDOW); [apply IH; lia|]. apply (IH (b :: ts)). cbn. lia.
Qed.
Lemma unpaired_app us : forall ts, unpaired (ts ++ us) = fold_left arm us (unpaired ts).
Proof.
  induction us as [|u us IH]; intros ts; [by rewrite app_nil_r|]. cbn [fold_left].
  rewrite <- (unpaired_snoc u (length ts) ts), <- IH, <- (assoc_L (++)) by lia. done.
Qed.

Section Taps.
Context (e : AttachEnv).

(** When the detach keys of a read are taken: one look at the clock for each, after it. *)
Definition detach_keys (data : bytes) : nat := length (List.filter (Z.eqb DETACH_KEY) data).
Definition times (n k : nat) : list Z := (fun i => e_now e (n + i)) <$> List.seq 0 k.
Definition taps_of (r : nat * bytes) : list Z := times (S (fst r)) (detach_keys (normalize_detach_key (snd r))).
Definition taps_made (rs : list (nat * bytes)) : list Z := concat (taps_of <$> rs).

Lemma times_cons n k : times n (S k) = e_now e n :: times (S n) k.
Proof.
  unfold times. cbn [List.seq fmap list_fmap]. rewrite Nat.add_0_r. f_equal.
  rewrite <- List.seq_shift. rewrite <- list_fmap_compose. apply list_fmap_ext. intros i x _. cbn. f_equal. lia.
Qed.

Lemma taps_spec data : forall forward s, exists f,
  taps e forward data s = (f, s <| moment := (detach_keys data + moment s)%nat |>
                                <| detach_armed := fold_left arm (times (moment s) (detach_keys data)) (detach_armed s) |>).
Proof.
  induction data as [|b data IH]; intros forward s.
  - exists forward. destruct s. done.
  - cbn [taps]. change (exists f, (let '(fw, s) := tap e forward b s in taps e fw data s) = (f, s <| moment := (detach_keys (b :: data) + moment s)%nat |>
        <| detach_armed := fold_left arm (times (moment s) (detach_keys (b :: data))) (detach_armed s) |>)).
    unfold detach_keys. cbn [List.filter]. rewrite (Z.eqb_sym DETACH_KEY b). unfold tap.
    destruct (b =? DETACH_KEY); [|exact (IH (forward ++ [b]) s)].
    cbn [length]. rewrite times_cons. cbn [fold_left].
    assert (A : forall fw s1, s1 = s <| moment ::= S |> <| detach_armed := arm (detach_armed s) (e_now e (moment s)) |> ->
      exists f, taps e fw data s1 = (f, s <| moment := S (length (List.filter (Z.eqb DETACH_KEY) data) + moment s) |>
        <| detach_armed := fold_left arm (times (S (moment s)) (length (List.filter (Z.eqb DETACH_KEY) data)))
                             (arm (detach_armed s) (e_now e (moment s))) |>)).
    { intros fw s1 ->. destruct (IH fw (s <| moment ::= S |> <| detach_armed := arm (detach_armed s) (e_now e (moment s)) |>)) as [f ->].
      exists f. cbn. unfold detach_keys. by rewrite Nat.add_succ_r. }
    unfold mbind, M_bind, ask, get, modify, mret, M_ret. cbn. unfold arm in A |- *.
    destruct (detach_armed s) as [t|] eqn:D; [destruct (_ <? _) eqn:Wd|]; apply A; cbn; rewrite ?D, ?Wd; done.
Qed.
End Taps.

Section Invariant.
Context `{Unicode} (e : AttachEnv) (os_text : Z -> bytes) (home : bytes) (reap_var : option bytes).
Context (name : bytes) (peer : option bytes) (pid : Z) (stream_fd : Z).
Context (identity_json : Z -> option bytes -> bytes).
Context (reconnect : bool) (max_attempts : option nat) (stdin_was_tty : bool).
Abbreviation trailer := (trailer e home reap_var name peer).
Abbreviation handle_packet := (handle_packet e os_text home reap_var name peer stream_fd).
Abbreviation turn := (turn e os_text home reap_var name peer pid stream_fd identity_json reconnect max_attempts stdin_was_tty).

Lemma closed_trailer K end_ (Q : unit -> Attach -> Prop) s :
  Logged K s -> (forall s', Closed K s' -> Q tt s') -> wp (trailer end_) Q s.
Proof.
  intros L G. apply cwp_bind, (closed_clean_exit K); [done|]. intros s1 S1.
  apply cwp_bind, wp_ask, cwp_bind, wp_ask, cwp_bind, wp_get.
  destruct (machine _); apply (closed_emit K); try done; destruct S1 as [(? & ? & ? & ?) ?]; done.
Qed.

Lemma closed_finish K code (Q : option AttachOutcome -> Attach -> Prop) s :
  Logged K s -> (forall s', Closed K s' -> Q (Some (Exited code)) s') ->
  wp (o ← finish code; mret (Some o)) Q s.
Proof.
  intros L G. apply cwp_bind, cwp_bind, (closed_clean_exit K); [done|]. intros s1 S1. apply cwp_ret, cwp_ret, G, S1.
Qed.

(** These packets came on the connection, the reader holding what is left. *)
Definition heard (b : bytes) (ps : list Packet) : Prop :=
  exists chunks, Forall (fun c => exists n, e_socket e n = RdData c) chunks /\ feed_all [] chunks = (b, Ok ps).
Definition came (p : Packet) : Prop := exists b ps, heard b ps /\ p ∈ ps.

(** Dials that found no host, one after the other, before moment [n]. *)
Definition failed_dials (k n : nat) : Prop :=
  exists ns, length ns = k /\ NoDup ns /\ Forall (fun m => (m < n)%nat /\ e_dial e m = NoTransport) ns.

(** The keyboard gave no more: the end, or a failure. *)
Definition input_ended : Prop :=
  exists n, e_stdin e n = RdData [] \/ exists err, e_stdin e n = RdErr err /\ is_kind WouldBlock err = false.

(** The invariant of the loop, and of the steps of a disconnection: before the socket is
    closed, and before a dial is set. *)
Inductive Stage : Type := Steady | Broken | Down.
Record InvIf (stage : Stage) (s : Attach) : Prop := {
  inv_raw : raw_state false (log s) = raw s;
  inv_running : session_exited s = false /\ exit_code s = 0;
  inv_heard : stage = Steady -> socket s = true -> exists ps, heard (reader s) ps;
  inv_armed : detach_armed s = unpaired (taps_made e (keyboard (log s)));
  inv_read : Forall (fun r => e_stdin e (fst r) = RdData (snd r)) (keyboard (log s));
  inv_input : stdin_open s = false -> input_ended;
  inv_connected : stage = Steady -> phase s = Live -> socket s = true;
  inv_down : stage = Down -> socket s = false;
  inv_dials : forall a t, phase s = Reconnecting a t -> reconnect = true /\ failed_dials a (moment s)
}.
Abbreviation Inv := (InvIf Steady).

(** Why a client whose session did not end gives up. *)
Inductive Lost : Prop :=
  | lost_error p : came p -> type_ p = ConnectionError -> Lost
  | lost_contract ph p f : came p -> accept_type ph (type_ p) = Err f -> Lost
  | lost_stream n k err : e_stream e n = Some (k, err) -> Lost
  | lost_closed n : reconnect = false -> e_socket e n = RdData [] -> Lost
  | lost_failed n err : reconnect = false -> e_socket e n = RdErr err ->
      is_kind WouldBlock err = false -> is_kind Interrupted err = false -> Lost
  | lost_garbled n b ps data b' m : reconnect = false -> heard b ps -> e_socket e n = RdData data ->
      Protocol.feed b data = (b', Err m) -> Lost
  | lost_refused n : reconnect = true -> e_dial e n = Refused -> Lost
  | lost_host k n max : reconnect = true -> max_attempts = Some max -> (max <= k)%nat -> failed_dials k n -> Lost
  | lost_poll n t m : e_poll e n t = Err m -> Lost.

(** Why the client ended: the session's exit, the end of a terminal's input, or a loss; or a
    tap of the detach key, the last one, that no other answered within the window. *)
Definition why (o : AttachOutcome) (l : list Io) : Prop :=
  match o with
  | Exited code =>
      (exists p, came p /\ type_ p = Exit /\ decode_exit (payload p) = code)
      \/ (code = 0 /\ stdin_was_tty = true /\ input_ended)
      \/ (code = 1 /\ Lost)
  | Detached =>
      Forall (fun r => e_stdin e (fst r) = RdData (snd r)) (keyboard l)
      /\ exists t n, unpaired (taps_made e (keyboard l)) = Some t /\ t + WINDOW <= e_now e n
  end.
Definition Post (o : option AttachOutcome) (s : Attach) : Prop :=
  match o with Some o => Shut s /\ why o (log s) | None => Inv s end.

Lemma inv_logged c s : InvIf c s -> Logged (keyboard (log s)) s.
Proof. intros I. split; [apply I|done]. Qed.
Lemma inv_weak s : Inv s -> InvIf Broken s.
Proof. intros []; split; done. Qed.
Lemma why_lost l : Lost -> why (Exited 1) l.
Proof. cbn. auto. Qed.

Lemma post_finish K code s : Logged K s -> (forall l, why (Exited code) l) -> wp (o ← finish code; mret (Some o)) Post s.
Proof. intros L W. apply (closed_finish K); [done|]. intros s' [S _]. split; [done|apply W]. Qed.

Lemma post_lost K s :
  Logged K s -> Lost -> wp (trailer EndConnectionLost ;; o ← finish 1; mret (Some o)) Post s.
Proof.
  intros L W. apply cwp_bind, (closed_trailer K); [done|]. intros s1 S1. apply (post_finish K); [by apply closed_logged|].
  intros l. by apply why_lost.
Qed.
Lemma post_said K b s : Logged K s -> Lost -> wp (stderr b ;; o ← finish 1; mret (Some o)) Post s.
Proof.
  intros L W. apply cwp_bind, (terminal_emit K); [done..|]. intros s2 L2. apply (post_finish K); [done|].
  intros l. by apply why_lost.
Qed.

(** An update that the invariant does not see. *)
Lemma inv_emit c io (Q : unit -> Attach -> Prop) s :
  is_quiet io = true -> InvIf c s -> (forall s', InvIf c s' -> Q tt s') -> wp (emit io) Q s.
Proof.
  intros N I G. apply wp_emit, G. destruct (quiet_snoc false (log s) io N) as [R Y].
  destruct I as [L1 L2 L3 L4 L5 L6 L7 L8 L9]. split; try done.
  - exact (eq_trans R L1).
  - exact (eq_trans L4 (f_equal (fun k => unpaired (taps_made e k)) (eq_sym Y))).
  - exact (eq_ind_r (Forall _) L5 Y).
Qed.
Lemma dials_later a m n : (m <= n)%nat -> failed_dials a m -> failed_dials a n.
Proof.
  intros L (ns & A & B & C). exists ns. split; [done|]. split; [done|].
  eapply Forall_impl; [exact C|]. intros x [X Y]. split; [lia|done].
Qed.
Lemma inv_tick c s : InvIf c s -> InvIf c (s <| moment ::= S |>).
Proof.
  intros [L1 L2 L3 L4 L5 L6 L7 L8 L9]. split; cbn; try done. intros a t P. destruct (L9 a t P) as [R D].
  split; [done|]. eapply dials_later; [|exact D]. lia.
Qed.
Lemma inv_ask c {A} (f : nat -> A) (Q : A -> Attach -> Prop) s :
  InvIf c s -> (forall s', InvIf c s' -> Q (f (moment s)) s') -> wp (ask f) Q s.
Proof. intros I G. by apply wp_ask, G, inv_tick. Qed.
Lemma inv_socket_write c b (Q : unit -> Attach -> Prop) s :
  InvIf c s -> (forall s', InvIf c s' -> Q tt s') -> wp (socket_write b) Q s.
Proof. intros I G. apply cwp_bind, wp_get. destruct (socket s); [|by apply cwp_ret, G]. by apply (inv_emit c). Qed.

Lemma logged_stream_write K b (Q : Result unit StreamFailure -> Attach -> Prop) s :
  Logged K s -> (forall r s', Logged K s' -> (match r with Err _ => Lost | Ok _ => True end) -> Q r s') -> wp (stream_write e os_text stream_fd b) Q s.
Proof.
  intros L G. apply cwp_bind, wp_ask. destruct (e_stream e (moment s)) as [[k err]|] eqn:W;
    apply cwp_bind, (terminal_emit K); try done; intros s1 L1; apply cwp_ret, G; try done.
  by eapply lost_stream.
Qed.
Lemma inv_stream_write b (Q : Result unit StreamFailure -> Attach -> Prop) s :
  Inv s -> (forall r s', Inv s' -> (match r with Err _ => Lost | Ok _ => True end) -> Q r s') -> wp (stream_write e os_text stream_fd b) Q s.
Proof.
  intros I G. apply cwp_bind, (inv_ask Steady); [done|]. intros s1 I1. destruct (e_stream e (moment s)) as [[k err]|] eqn:W;
    apply cwp_bind, (inv_emit Steady); try done; intros s2 I2; apply cwp_ret, G; try done.
  by eapply lost_stream.
Qed.

Lemma post_exited p s end_ :
  Inv s -> came p -> type_ p = Exit ->
  wp (code ← exited p; (match end_ : option unit with Some _ => trailer (EndExited code) | None => mret tt end) ;;
      o ← finish code; mret (Some o)) Post s.
Proof.
  intros I C T. apply cwp_bind, cwp_bind, wp_modify, cwp_ret. set (K := keyboard (log s)).
  assert (L : forall c x, Logged K (s <| exit_code := c |> <| session_exited := x |>)) by (intros; split; [apply I|done]).
  assert (W : forall l, why (Exited (decode_exit (payload p))) l) by (intros l; left; eauto).
  apply cwp_bind. destruct end_.
  - apply (closed_trailer K); [apply L|]. intros s1 S1. apply (post_finish K); [by apply closed_logged|done].
  - apply cwp_ret, (post_finish K); [apply L|done].
Qed.

Lemma handle_packet_post p s : Inv s -> came p -> wp (handle_packet p) Post s.
Proof.
  intros I C. apply cwp_bind, wp_get. set (t := type_ p). assert (T : t = type_ p) by done. set (K := keyboard (log s)).
  assert (Gone : t = ConnectionError -> wp (clean_exit ;;
      stderr (to_utf8 (str "Connection lost: " ++ connection_error_text (payload p) ++ [10])) ;;
      trailer EndConnectionLost ;; o ← finish 1; mret (Some o)) Post s).
  { intros Ty. apply cwp_bind, (closed_clean_exit K); [apply (inv_logged _ _ I)|]. intros s1 S1. apply cwp_bind, (closed_emit K); [done..|].
    intros s2 S2. apply (post_lost K); [by apply closed_logged|]. apply (lost_error p); congruence. }
  destruct (machine s) as [ph|] eqn:Mach.
  - assert (Go : wp (r ← accept e os_text stream_fd ph p;
      match (r : Result Accepted StreamFailure) with
      | Err f => stderr (to_utf8 (display_failure f ++ [10])) ;; o ← finish 1; mret (Some o)
      | Ok Skipped => mret None
      | Ok Forwarded =>
          match t with Exit => code ← exited p; o ← finish code; mret (Some o) | _ => mret None end
      end) Post s).
    { apply cwp_bind. unfold accept. destruct (accept_type ph (type_ p)) as [[[] ph']|f] eqn:Ac.
      - by apply cwp_ret.
      - apply cwp_bind, wp_modify, cwp_bind, inv_stream_write; [destruct I; split; done|].
        intros [u|f] s1 I1 F; apply cwp_ret; [|exact (post_said _ _ _ (inv_logged _ _ I1) F)].
        destruct t eqn:E; try exact I1. apply (post_exited p s1 None I1 C). congruence.
      - apply cwp_ret, (post_said _ _ _ (inv_logged _ _ I)). by eapply lost_contract. }
    destruct t; try exact Go. by apply Gone.
  - destruct t eqn:E; try (by apply cwp_ret); try (by apply Gone);
      try (apply cwp_bind, (inv_emit Steady); [done..|]; intros s1 I1; by apply cwp_ret).
    apply (post_exited p s (Some tt) I C). congruence.
Qed.

Lemma handle_packets_post ps : forall s,
  Inv s -> (forall p, p ∈ ps -> came p) ->
  wp (handle_packets e os_text home reap_var name peer stream_fd ps) Post s.
Proof.
  induction ps as [|p ps IH]; intros s I C; [by apply cwp_ret|].
  apply cwp_bind. eapply cwp_mono; [apply handle_packet_post; [done|apply C; by left]|].
  intros [o|] s1 P; [by apply cwp_ret|]. apply IH; [done|]. intros q Q. apply C. by right.
Qed.

Lemma drop_socket_inv (Q : unit -> Attach -> Prop) s :
  InvIf Broken s -> (forall s', InvIf Down s' -> Q tt s') -> wp drop_socket Q s.
Proof.
  intros I G. destruct (drop_socket_spec s) as (l & E & R & Y). unfold wp. rewrite E. apply G.
  destruct I as [L1 L2 L3 L4 L5 L6 L7 L8 L9].
  assert (Ky : keyboard (log s ++ l) = keyboard (log s)) by (by rewrite keyboard_app, Y, app_nil_r).
  split; try done.
  - cbn. by rewrite raw_state_app, R.
  - exact (eq_trans L4 (f_equal (fun k => unpaired (taps_made e k)) (eq_sym Ky))).
  - exact (eq_ind_r (Forall _) L5 Ky).
Qed.

Lemma start_reconnect_inv s : InvIf Down s -> reconnect = true -> wp (start_reconnect e) (fun _ s' => Inv s') s.
Proof.
  intros I R.
  assert (K : forall s2, InvIf Down s2 -> wp (now ← ask (e_now e); modify (fun s => s <| phase := Reconnecting 0 (now + backoff 0) |>))
                                   (fun _ s' => Inv s') s2).
  { intros s2 I2. apply cwp_bind, (inv_ask Down); [done|]. intros s3 [L1 L2 L3 L4 L5 L6 L7 L8 L9]. apply wp_modify. split; try done.
    { intros _. cbn. rewrite L8 by done. done. }
    intros a t [= <- _]. split; [done|]. exists []. split; [done|]. split; constructor. }
  apply cwp_bind, wp_get, cwp_bind. destruct (machine s); apply (inv_emit Down); try done; intros s2 I2; by apply K.
Qed.

Lemma on_disconnect_post err s :
  InvIf Broken s -> (reconnect = false -> Lost) ->
  wp (on_disconnect e os_text home reap_var name peer reconnect err) Post s.
Proof.
  intros I W. apply cwp_bind, drop_socket_inv; [done|]. intros s1 I1. apply cwp_bind, wp_get.
  destruct (inv_running _ _ I1) as [X _]. rewrite X. cbn [negb]. rewrite andb_true_r.
  set (K := keyboard (log s1)). assert (L1 : Logged K s1) by (apply (inv_logged _ _ I1)).
  destruct reconnect eqn:R.
  - apply cwp_bind. eapply cwp_mono; [apply start_reconnect_inv; done|]. intros u s3 I3. by apply cwp_ret.
  - specialize (W eq_refl). destruct err as [err|].
    + apply cwp_bind, (closed_clean_exit K); [done|]. intros s2 S2.
      destruct (match machine s1 with Some _ => true | None => false end); [apply (post_said K); [by apply closed_logged|done]|].
      apply cwp_bind, (closed_emit K); [done..|]. intros s3 S3. apply (post_lost K); [by apply closed_logged|done].
    + destruct (match machine s1 with Some _ => true | None => false end); [by apply (post_said K)|].
      apply cwp_bind. destruct (true && negb (dropped s1)).
      * apply (closed_trailer K); [done|]. intros s2 S2. apply (post_finish K); [by apply closed_logged|]. intros l. by apply why_lost.
      * apply cwp_ret, (post_finish K); [done|]. intros l. by apply why_lost.
Qed.

Lemma handle_socket_post s :
  Inv s -> wp (handle_socket_readable e os_text home reap_var name peer stream_fd reconnect) Post s.
Proof.
  intros I. apply cwp_bind, wp_get. destruct (socket s) eqn:O; cbn [negb]; [|by apply cwp_ret].
  apply cwp_bind, wp_ask. set (s1 := s <| moment ::= S |>). assert (I1 : Inv s1) by (by apply inv_tick).
  destruct (e_socket e (moment s)) as [data|err] eqn:D.
  - destruct (beq data []) eqn:B.
    { apply beq_eq in B as ->. apply on_disconnect_post; [exact (inv_weak _ I1)|]. intros R. exact (lost_closed _ R D). }
    apply cwp_bind, wp_get. change (reader s1) with (reader s).
    destruct (inv_heard _ _ I eq_refl O) as (ps & chunks & Rd & F).
    destruct (Protocol.feed (reader s) data) as [b [qs|m]] eqn:P.
    + assert (Hd : heard b (ps ++ qs)).
      { exists (chunks ++ [data]). split; [apply Forall_app; split; [done|constructor; eauto]|].
        rewrite (feed_all_snoc _ _ _ _ data F), P. done. }
      apply cwp_bind, wp_modify, handle_packets_post.
      * destruct I1; split; try done. intros _. eauto.
      * intros q Q. exists b, (ps ++ qs). split; [done|]. apply elem_of_app. by right.
    + assert (W : reconnect = false -> Lost).
      { intros R. refine (lost_garbled _ (reader s) ps data b m R _ D P). by exists chunks. }
      apply cwp_bind, wp_modify, cwp_bind. apply (inv_emit Broken); [done|destruct I1; split; done|].
      intros s2 I2. apply cwp_bind, drop_socket_inv; [done|]. intros s3 I3. apply cwp_bind, wp_modify.
      apply on_disconnect_post; [|done]. destruct I3 as [L1 L2 L3 L4 L5 L6 L7 L8 L9]. split; done.
  - destruct (is_kind WouldBlock err || is_kind Interrupted err) eqn:Kd; [by apply cwp_ret|].
    apply orb_false_elim in Kd as [K1 K2]. apply on_disconnect_post; [exact (inv_weak _ I1)|].
    intros R. by eapply lost_failed.
Qed.

Lemma on_ready_inv s : Inv s -> wp (on_ready e pid identity_json) (fun _ s' => Inv s') s.
Proof.
  intros I. apply cwp_bind, wp_get.
  assert (K : forall s1, Inv s1 -> wp (w ← ask (e_window e); tty ← ask (e_tty e);
    let '(rows, cols, cw, ch) := default (24, 80, 0, 0) (window_size_with_cell w) in
    socket_write (encode_attach_with_identity_and_cell identity_json rows cols cw ch pid (to_utf8 <$> tty)) ;;
    wired ← get sigwinch;
    if (wired : bool) then mret tt else ok ← ask (e_winch e); modify (fun s => s <| sigwinch := ok |>))
    (fun _ s' => Inv s') s1).
  { intros s1 I1. apply cwp_bind, (inv_ask Steady); [done|]. intros s2 I2. apply cwp_bind, (inv_ask Steady); [done|]. intros s3 I3.
    destruct (default _ _) as [[[rows cols] cw] ch]. apply cwp_bind, (inv_socket_write Steady); [done|]. intros s4 I4.
    apply cwp_bind, wp_get. destruct (sigwinch s4); [by apply cwp_ret|]. apply cwp_bind, (inv_ask Steady); [done|].
    intros s5 I5. apply wp_modify. destruct I5; split; done. }
  apply cwp_bind. destruct (raw s) eqn:R; [apply cwp_ret, K, I|].
  apply cwp_bind, wp_ask. apply inv_tick in I. destruct (e_raw e (moment s)).
  - apply cwp_bind, wp_modify, wp_emit, K. destruct I as [L1 L2 L3 L4 L5 L6 L7 L8 L9]. cbn in *.
    split; cbn; rewrite ?raw_state_app, ?keyboard_app, ?app_nil_r; done.
  - by apply cwp_ret, K.
Qed.

Lemma try_reconnect_post s :
  Inv s -> wp (try_reconnect e home reap_var name peer pid identity_json reconnect max_attempts) Post s.
Proof.
  intros I. apply cwp_bind, wp_get. destruct (phase s) as [|attempt next_at] eqn:Ph; [by apply cwp_ret|].
  destruct (inv_dials _ _ I _ _ Ph) as [R (ns & Len & Nd & Fd)]. rewrite R. cbn [negb].
  apply cwp_bind, wp_ask. pose proof (inv_tick _ _ I) as I1. set (s1 := s <| moment ::= S |>) in *.
  destruct (e_dial e (moment s)) eqn:D.
  - apply cwp_bind, wp_modify, (post_lost (keyboard (log s))); [split; [apply I1|done]|]. by eapply lost_refused.
  - apply cwp_bind, wp_modify, cwp_bind. eapply cwp_mono; [apply on_ready_inv|].
    + destruct I1 as [L1 L2 L3 L4 L5 L6 L7 L8 L9]. split; try done. intros _. exists [], []. done.
    + intros u s2 I2. by apply cwp_ret.
  - assert (F : failed_dials (S attempt) (S (moment s))).
    { exists (moment s :: ns). split; [cbn; by rewrite Len|]. rewrite Forall_forall in Fd. split.
      - constructor; [|done]. intros M%Fd. lia.
      - constructor; [split; [lia|done]|]. apply Forall_forall. intros x [X Y]%Fd. split; [lia|done]. }
    destruct (match max_attempts with Some _ => _ | None => _ end) eqn:Mx.
    + apply cwp_bind, wp_modify, (post_lost (keyboard (log s))); [split; [apply I1|done]|].
      destruct max_attempts as [mx|] eqn:E; [|done]. apply Nat.leb_le in Mx. by apply (lost_host _ _ mx R E Mx F).
    + apply cwp_bind, wp_ask, cwp_bind, wp_modify, cwp_ret. apply inv_tick in I1.
      destruct I1 as [L1 L2 L3 L4 L5 L6 L7 L8 L9]. split; try done. intros a t [= <- _]. split; [done|].
      eapply dials_later; [|exact F]. cbn. lia.
Qed.

Lemma handle_stdin_inv s : Inv s -> wp (handle_stdin_readable e) (fun _ s' => Inv s') s.
Proof.
  intros I. apply cwp_bind, wp_get, cwp_bind, wp_ask. pose proof (inv_tick _ _ I) as I1. set (s1 := s <| moment ::= S |>) in *.
  assert (C : input_ended -> Inv (s1 <| stdin_open := false |>)) by (destruct I1; split; done).
  destruct (e_stdin e (moment s)) as [data|err] eqn:D.
  2: { destruct (is_kind WouldBlock err) eqn:Kd; [by apply cwp_ret|apply wp_modify, C]. exists (moment s). eauto. }
  destruct (beq data []) eqn:B; [apply wp_modify, C; apply beq_eq in B as ->; exists (moment s); auto|].
  apply cwp_bind, wp_emit. set (s2 := s1 <| log := log s1 ++ [FromStdin (moment s) data] |>).
  set (k := detach_keys (normalize_detach_key data)).
  assert (Y : keyboard (log s ++ [FromStdin (moment s) data]) = keyboard (log s) ++ [(moment s, data)]) by apply keyboard_app.
  assert (J : forall m a, (S (moment s) <= m)%nat -> a = fold_left arm (times e (S (moment s)) k) (detach_armed s) ->
    Inv (s2 <| moment := m |> <| detach_armed := a |>)).
  { intros m a Lm ->. destruct I as [L1 L2 L3 L4 L5 L6 L7 L8 L9]. split; try done.
    - refine (eq_trans (raw_state_app false (log s) [FromStdin (moment s) data]) _). exact L1.
    - change (fold_left arm (times e (S (moment s)) k) (detach_armed s)
              = unpaired (taps_made e (keyboard (log s ++ [FromStdin (moment s) data])))).
      rewrite Y, L4. unfold taps_made at 2. rewrite fmap_app, concat_app. cbn [fmap list_fmap concat].
      rewrite app_nil_r, unpaired_app. done.
    - refine (eq_ind_r (Forall _) _ Y). apply Forall_app. split; [done|]. constructor; [exact D|constructor].
    - intros a t P. destruct (L9 a t P) as [Rc Dl]. split; [done|]. eapply dials_later; [|exact Dl].
      change (moment s <= m)%nat. lia. }
  unfold process_input. destruct (memb DETACH_KEY (normalize_detach_key data)) eqn:T; cbn [negb].
  - apply cwp_bind. destruct (taps_spec e (normalize_detach_key data) [] s2) as [f E]. unfold wp at 1. rewrite E.
    fold k. assert (I3 : Inv (s2 <| moment := (k + moment s2)%nat |>
       <| detach_armed := fold_left arm (times e (moment s2) k) (detach_armed s2) |>)) by (apply J; [cbn; lia|done]).
    destruct (beq f []); [by apply cwp_ret|by apply (inv_socket_write Steady)].
  - assert (Z0 : k = 0%nat).
    { unfold k, detach_keys. destruct (List.filter _ _) as [|x l] eqn:F; [done|]. exfalso.
      assert (M : In x (List.filter (Z.eqb DETACH_KEY) (normalize_detach_key data))) by (rewrite F; by left).
      apply List.filter_In in M as [M1 M2]. revert T. unfold memb. rewrite (proj2 (existsb_exists _ _)); [done|].
      exists x. split; [done|exact M2]. }
    assert (I3 : Inv (s2 <| moment := S (moment s) |> <| detach_armed := detach_armed s |>)) by (apply J; [lia|by rewrite Z0]).
    apply (inv_socket_write Steady); [destruct I3; split; done|done].
Qed.

Lemma finish_detach_post s t n :
  Inv s -> detach_armed s = Some t -> t + WINDOW <= e_now e n ->
  wp (o ← finish_detach e os_text home reap_var name peer stream_fd; mret (Some o)) Post s.
Proof.
  intros I T L. set (K := keyboard (log s)). pose proof (inv_logged _ _ I) as L0.
  assert (W : forall s', Closed K s' -> Shut s' /\ why Detached (log s')).
  { intros s' [Sh E]. split; [done|]. cbn. rewrite E. split; [apply I|]. exists t, n. split; [|done].
    unfold K. rewrite <- (inv_armed _ _ I). done. }
  apply cwp_bind, cwp_bind, wp_get. destruct (machine s).
  - apply cwp_bind, (logged_stream_write K); [done|]. intros [u|f] s1 L1 F.
    + apply cwp_bind, (logged_socket_write K); [done|]. intros s2 L2. apply cwp_bind, (closed_clean_exit K); [done|].
      intros s3 S3. apply cwp_ret, cwp_ret. by apply W.
    + apply cwp_bind, (terminal_emit K); [done..|]. intros s2 L2. apply cwp_bind, (closed_clean_exit K); [done|].
      intros s3 [S3 _]. apply cwp_ret, cwp_ret. split; [done|]. by apply why_lost.
  - apply cwp_bind, (logged_socket_write K); [done|]. intros s1 L1. apply cwp_bind, (closed_clean_exit K); [done|].
    intros s2 S2. apply cwp_bind, (closed_trailer K); [by apply closed_logged|]. intros s3 S3. apply cwp_ret, cwp_ret. by apply W.
Qed.

Lemma turn_post s : Inv s -> wp turn Post s.
Proof.
  intros I. apply cwp_bind, (inv_ask Steady); [done|]. intros s1 I1. apply cwp_bind, wp_get.
  apply wp_if.
  { destruct (detach_armed s1) as [t|] eqn:A; [|done]. intros T%Z.leb_le. by eapply finish_detach_post. }
  intros _. apply wp_if; [intros _; by apply try_reconnect_post|]. intros _.
  apply wp_if.
  { intros N. exfalso. unfold deadline in N. bprop. pose proof (inv_connected _ _ I1 eq_refl) as C.
    destruct (phase s1); [|done]. rewrite C in * by done. done. }
  intros _.
  assert (K : forall timeout s2, Inv s2 -> wp (
    r ← ask (fun n => e_poll e n timeout);
    match (r : Result (bool * bool * bool) bytes) with
    | Err m => clean_exit ;; stderr (to_utf8 (str "Connection error: poll " ++ m ++ [10])) ;; mret (Some (Exited 1))
    | Ok (at_socket, at_stdin, at_winch) =>
        o ← (if socket s1 && at_socket
             then handle_socket_readable e os_text home reap_var name peer stream_fd reconnect else mret None);
        match (o : option AttachOutcome) with
        | Some o => mret (Some o)
        | None =>
            o ← (if stdin_open s1 && at_stdin then
                   handle_stdin_readable e ;;
                   open ← get stdin_open;
                   if stdin_was_tty && negb (open : bool) then o ← finish 0; mret (Some o) else mret None
                 else mret None);
            match (o : option AttachOutcome) with
            | Some o => mret (Some o)
            | None => (if sigwinch s1 && at_winch then handle_sigwinch e else mret tt) ;; mret None
            end
        end
    end) Post s2).
  { intros timeout s2 I2. apply cwp_bind, wp_ask. apply inv_tick in I2.
    destruct (e_poll e (moment s2) timeout) as [[[sk si] wi]|m] eqn:Po.
    - apply cwp_bind. eapply cwp_mono with (P := Post).
      { destruct (socket s1 && sk); [by apply handle_socket_post|by apply cwp_ret]. }
      intros [o|] s4 P4; [by apply cwp_ret|]. apply cwp_bind. eapply cwp_mono with (P := Post).
      { destruct (stdin_open s1 && si); [|by apply cwp_ret]. apply cwp_bind. eapply cwp_mono; [by apply handle_stdin_inv|].
        intros u s5 I5. apply cwp_bind, wp_get. destruct (stdin_was_tty && negb (stdin_open s5)) eqn:Te; [|by apply cwp_ret].
        apply andb_prop in Te as [Te Op]. apply negb_true_iff in Op.
        apply (post_finish _ _ _ (inv_logged _ _ I5)). intros l. right. left. split; [done|]. split; [done|]. by apply (inv_input _ _ I5). }
      intros [o|] s5 P5; [by apply cwp_ret|]. apply cwp_bind. destruct (sigwinch s1 && wi); [|by apply cwp_ret, cwp_ret].
      apply cwp_bind, (inv_ask Steady); [done|]. intros s6 I6. destruct (e_drain e (moment s5)); [|by apply cwp_ret, cwp_ret].
      apply cwp_bind, (inv_ask Steady); [done|]. intros s7 I7. destruct (window_size_with_cell _) as [[[[? ?] ?] ?]|];
        [|by apply cwp_ret, cwp_ret]. apply (inv_socket_write Steady); [done|]. intros s8 I8. by apply cwp_ret.
    - apply cwp_bind, (closed_clean_exit _ _ _ (inv_logged _ _ I2)). intros s4 S4. apply cwp_bind. eapply closed_emit; [done|exact S4|].
      intros s5 [S5 _]. apply cwp_ret. split; [done|]. by eapply why_lost, lost_poll. }
  apply cwp_bind. destruct (deadline s1).
  - apply cwp_bind, wp_ask, cwp_ret, K; by apply inv_tick.
  - by apply cwp_ret, K.
Qed.

Lemma run_post turns : forall s,
  Inv s -> wp (run e os_text home reap_var name peer pid stream_fd identity_json reconnect max_attempts stdin_was_tty turns) Post s.
Proof.
  induction turns as [|turns IH]; intros s I; [by apply cwp_ret|]. apply cwp_bind.
  eapply cwp_mono; [by apply turn_post|]. intros [o|] s1 P1; [by apply cwp_ret|]. by apply IH.
Qed.

Lemma initial_inv m : Inv (initial m).
Proof. split; try done. intros _. exists [], []. done. Qed.

(** C26: An attach that ends leaves the terminal as it was and closes its socket, and says why.
    Its exit code is the one of an EXIT packet; or 0, when the input was a terminal and has
    ended; or 1, when the session was lost: an error packet, a stream out of contract or
    not writable, a connection ended or garbled that nobody dials again, a host that
    refused or did not answer as often as allowed, a failed poll.  It detaches only when
    the last tap of the detach key among all that was read from the keyboard is not the
    second of two, and no second came within the window. *)
Theorem attach_ends (machine_stream : bool) (turns : nat) (o : AttachOutcome) (s : Attach) :
  attach e os_text home reap_var name peer pid stream_fd identity_json reconnect max_attempts stdin_was_tty
    machine_stream turns = (Some o, s) ->
  Shut s /\ why o (log s).
Proof.
  intros A. assert (W : wp (on_ready e pid identity_json ;;
    run e os_text home reap_var name peer pid stream_fd identity_json reconnect max_attempts stdin_was_tty turns)
    Post (initial machine_stream)).
  { apply cwp_bind. eapply cwp_mono; [apply on_ready_inv, initial_inv|]. intros u s1 I1. by apply run_post. }
  unfold wp in W. unfold attach in A. rewrite A in W. exact W.
Qed.
End Invariant.

(** ** The machine stream's order *)

(** A connection's packets against the contract: the phase after them and the events
    passed on, or refusal. *)
Fixpoint accept_all (phase : StreamPhase) (ps : list Packet) : option (StreamPhase * list Packet) :=
  match ps with
  | [] => Some (phase, [])
  | p :: ps =>
      match accept_type phase (type_ p) with
      | Err _ => None
      | Ok (a, phase) =>
          '(ph, out) ← accept_all phase ps;
          Some (ph, match a with Skipped => out | Forwarded => p :: out end)
      end
  end.

Definition is_event (p : Packet) : bool := is_stream_event (type_ p).
(** Geometries, at least one before anything else, then a screen, then anything. *)
Definition ordered (events : list Packet) : bool :=
  match span (fun p => is_geometry (type_ p)) events with
  | ([], []) => true
  | ([], _ :: _) => false
  | (_, []) => true
  | (_, p :: _) => is_screen (type_ p)
  end.

Definition after_geometry (events : list Packet) : bool :=
  match snd (span (fun p => is_geometry (type_ p)) events) with [] => true | p :: _ => is_screen (type_ p) end.
Definition allowed (phase : StreamPhase) (events : list Packet) : bool :=
  match phase with AwaitGeometry => ordered events | AwaitScreen => after_geometry events | Ready => true end.

Lemma allowed_cons phase p events :
  is_event p = true ->
  allowed phase (p :: events) =
  match accept_type phase (type_ p) with Ok (_, phase') => allowed phase' events | Err _ => false end.
Proof.
  unfold is_event, accept_type. intros ->. cbn [negb].
  destruct phase; cbn [allowed]; unfold ordered, after_geometry; cbn [span]; [| |done];
    destruct (is_geometry (type_ p)) eqn:G.
  - cbn [allowed]. unfold after_geometry. destruct (span _ events) as [a [|q r]]; done.
  - destruct events; done.
  - cbn [allowed]. unfold after_geometry. destruct (span _ events); done.
  - cbn [snd]. destruct (is_screen (type_ p)); done.
Qed.

Lemma accept_all_spec ps : forall phase,
  match accept_all phase ps with
  | Some (_, out) => out = List.filter is_event ps /\ allowed phase (List.filter is_event ps) = true
  | None => allowed phase (List.filter is_event ps) = false
  end.
Proof.
  induction ps as [|p ps IH]; intros phase; cbn [accept_all List.filter]; [by destruct phase|].
  destruct (is_event p) eqn:V.
  - rewrite allowed_cons by done. destruct (accept_type phase (type_ p)) as [[a ph]|f] eqn:A; [|done].
    assert (a = Forwarded) as ->.
    { unfold is_event in V. unfold accept_type in A. rewrite V in A. cbn [negb] in A.
      destruct phase; repeat case_in A; congruence. }
    pose proof (IH ph) as K. destruct (accept_all ph ps) as [[ph' out]|]; cbn [mbind option_bind]; [|done].
    destruct K as [-> K]. done.
  - unfold is_event in V. unfold accept_type. rewrite V. cbn [negb].
    pose proof (IH phase) as K. destruct (accept_all phase ps) as [[ph' out]|]; cbn [mbind option_bind]; done.
Qed.

(** The descriptor gets exactly the stream's events, in order and whole, as long as they
    come in the contract's order, and the reader of the descriptor decodes them again;
    other packets never reach it. *)
Theorem stream_contract (ps : list Packet) :
  (match accept_all AwaitGeometry ps with
   | Some (_, out) => out = List.filter is_event ps /\ ordered out = true
   | None => ordered (List.filter is_event ps) = false
   end)
  /\ forall phase out, accept_all AwaitGeometry ps = Some (phase, out) -> Forall wf_packet ps ->
       Protocol.feed [] (concat (encode <$> out)) = ([], Ok out).
Proof.
  pose proof (accept_all_spec ps AwaitGeometry) as K.
  destruct (accept_all AwaitGeometry ps) as [[ph out]|]; [|done]. destruct K as [-> K]. split; [done|].
  intros phase out [= <- <-] W.
  assert (W' : Forall wf_packet (List.filter is_event ps)).
  { clear K. induction W as [|p ps Wp W IH]; cbn; [constructor|]. destruct (is_event p); [by constructor|done]. }
  revert W'. generalize (List.filter is_event ps). intros out W'. unfold Protocol.feed. cbn [app]. rewrite feed_loop_encodes by (done || lia). done.
Qed.

Definition stream_sample : list Packet :=
  [mkPacket Geometry (size_payload 24 80); mkPacket Status [1]; mkPacket Screen [104; 105]; mkPacket Data [33]].
Lemma stream_contract_witness :
  Protocol.feed [] (concat (encode <$> List.filter is_event stream_sample))
  = ([], Ok (List.filter is_event stream_sample)).
Proof.
  apply (proj2 (stream_contract stream_sample) Ready); [reflexivity|].
  repeat constructor; vm_compute; try reflexivity; discriminate.
Defined.

Lemma wp_true {A} (m : M A) s : wp m (fun _ _ => True) s.
Proof. unfold wp. destruct (m s). done. Qed.
(** What comes first does not matter. *)
Lemma wp_then {A B} (m : M A) (k : M B) (Q : B -> Attach -> Prop) s :
  (forall s', wp k Q s') -> wp (m ;; k) Q s.
Proof. intros K. apply cwp_bind. eapply cwp_mono; [apply wp_true|]. intros a s' T. apply K. Qed.
Lemma finish_some code s : wp (o ← finish code; mret (Some o)) (fun o _ => o <> None) s.
Proof. apply cwp_bind, wp_then. intros s'. apply cwp_ret, cwp_ret. done. Qed.

Section Refinement.
Context `{Unicode} (e : AttachEnv) (os_text : Z -> bytes) (home : bytes) (reap_var : option bytes).
Context (name : bytes) (peer : option bytes) (stream_fd : Z).
Context (writes : forall n, e_stream e n = None).

Definition passed (ph : StreamPhase) (ps : list Packet) (s s' : Attach) : Prop :=
  exists ph' out, accept_all ph ps = Some (ph', out) /\ machine s' = Some ph'
    /\ log s' = log s ++ ((fun p => ToStream (encode p)) <$> out).

Lemma handle_packet_stream p ph s :
  machine s = Some ph ->
  wp (handle_packet e os_text home reap_var name peer stream_fd p)
     (fun o s' => o = None -> passed ph [p] s s') s.
Proof.
  intros Mach. unfold handle_packet. apply cwp_bind, wp_get. rewrite Mach.
  assert (Ends : forall m : M (option AttachOutcome), wp m (fun o _ => o <> None) s -> wp m (fun o s' => o = None -> passed ph [p] s s') s).
  { intros m W. eapply cwp_mono; [exact W|]. intros o s' N E. congruence. }
  assert (Go : type_ p <> ConnectionError -> wp (r ← accept e os_text stream_fd ph p;
      match (r : Result Accepted StreamFailure) with
      | Err f => stderr (to_utf8 (display_failure f ++ [10])) ;; o ← finish 1; mret (Some o)
      | Ok Skipped => mret None
      | Ok Forwarded =>
          match type_ p with Exit => code ← exited p; o ← finish code; mret (Some o) | _ => mret None end
      end) (fun o s' => o = None -> passed ph [p] s s') s).
  { intros _. unfold accept. destruct (accept_type ph (type_ p)) as [[[] ph']|f] eqn:A.
    - assert (ph' = ph) as ->.
      { unfold accept_type in A. destruct (is_stream_event (type_ p)); cbn [negb] in A; [|congruence].
        destruct ph; repeat case_in A; congruence. }
      apply cwp_bind, cwp_ret, cwp_ret. intros _. exists ph, []. cbn. rewrite A. cbn. rewrite app_nil_r. done.
    - apply cwp_bind, cwp_bind, wp_modify, cwp_bind, cwp_bind, wp_ask. rewrite writes.
      apply cwp_bind, wp_emit, cwp_ret, cwp_ret.
      match goal with |- wp _ _ ?u => set (v := u) end.
      assert (P : passed ph [p] s v).
      { exists ph', [p]. cbn [accept_all]. rewrite A. done. }
      destruct (type_ p); try (by apply cwp_ret).
      eapply cwp_mono; [apply cwp_bind; eapply cwp_mono; [apply wp_true|]; intros code s1 T; apply finish_some|].
      intros o s' N E. congruence.
    - apply cwp_bind, cwp_ret, Ends. clear Ends. apply wp_then. intros s'. apply finish_some. }
  destruct (type_ p) eqn:T; try (by apply Go).
  apply Ends. clear. do 3 (apply wp_then; intros ?s). apply finish_some.
Qed.

(** While the client goes on and its descriptor takes every write, the packets of a read
    were passed on as the contract says, and nothing else was written anywhere. *)
Lemma handle_packets_stream ps : forall ph s,
  machine s = Some ph ->
  wp (handle_packets e os_text home reap_var name peer stream_fd ps)
     (fun o s' => o = None -> passed ph ps s s') s.
Proof.
  induction ps as [|p ps IH]; intros ph s Mach.
  { apply cwp_ret. intros _. exists ph, []. cbn. rewrite app_nil_r. done. }
  apply cwp_bind. eapply cwp_mono; [apply handle_packet_stream, Mach|]. intros [o|] s1 P; [by apply cwp_ret|].
  destruct (P eq_refl) as (ph1 & out1 & A & M1 & L1). cbn [accept_all] in A.
  destruct (accept_type ph (type_ p)) as [[a ph0]|f] eqn:T; [|discriminate]. cbn [mbind option_bind] in A.
  injection A as -> <-. eapply cwp_mono; [apply IH, M1|]. intros o s2 Q E.
  destruct (Q E) as (ph2 & out2 & B & M2 & L2). unfold passed. cbn [accept_all]. rewrite T, B. cbn [mbind option_bind].
  eexists _, _. split; [done|]. split; [done|]. rewrite L2, L1. destruct a; rewrite <- app_assoc; done.
Qed.
End Refinement.

(** ** A client without a host gives up *)

Section GivesUp.
Context `{Unicode} (e : AttachEnv) (os_text : Z -> bytes) (home : bytes) (reap_var : option bytes).
Context (name : bytes) (peer : option bytes) (pid : Z) (stream_fd : Z).
Context (identity_json : Z -> option bytes -> bytes) (max : nat) (stdin_was_tty : bool).
Abbreviation run := (run e os_text home reap_var name peer pid stream_fd identity_json true (Some max) stdin_was_tty).
Abbreviation turn := (turn e os_text home reap_var name peer pid stream_fd identity_json true (Some max) stdin_was_tty).

(** Waiting for the dial after [attempt] failures. *)
Definition dialing (attempt : nat) (at_ : Z) (s : Attach) : Prop :=
  phase s = Reconnecting attempt at_ /\ socket s = false.
(** The same wait, later. *)
Definition later (s s' : Attach) : Prop :=
  phase s' = phase s /\ socket s' = socket s /\ (moment s <= moment s')%nat.

Lemma later_refl s : later s s.
Proof. done. Qed.
Lemma later_trans s1 s2 s3 : later s1 s2 -> later s2 s3 -> later s1 s3.
Proof. intros (A & B & C) (D & E & F). split_and!; [congruence..|lia]. Qed.

Lemma later_emit io s : wp (emit io) (fun _ => later s) s.
Proof. apply wp_emit. done. Qed.
Lemma later_socket_write b s : wp (socket_write b) (fun _ => later s) s.
Proof. apply cwp_bind, wp_get. destruct (socket s) eqn:E; [apply later_emit|by apply cwp_ret]. Qed.

Lemma later_taps data : forall forward s, wp (taps e forward data) (fun _ => later s) s.
Proof.
  induction data as [|b data IH]; intros forward s; [by apply cwp_ret|]. apply cwp_bind. unfold tap.
  destruct (b =? DETACH_KEY); [|apply cwp_ret, IH]. apply cwp_bind, wp_ask, cwp_bind, wp_get.
  assert (K : forall f v, later s v -> wp (taps e f data) (fun _ => later s) v).
  { intros f v L. eapply cwp_mono; [apply IH|]. intros a s' L'. by eapply later_trans. }
  assert (L : forall o, later s (s <| moment ::= S |> <| detach_armed := o |>)) by (intros; split_and!; cbn; [done..|lia]).
  destruct (detach_armed _) as [t|]; [destruct (_ <? _)|]; apply cwp_bind, wp_modify, cwp_ret, K, L.
Qed.

Lemma later_stdin s : wp (handle_stdin_readable e) (fun _ => later s) s.
Proof.
  apply cwp_bind, wp_get, cwp_bind, wp_ask. set (s0 := s <| moment ::= S |>).
  assert (L0 : later s s0) by (split_and!; cbn; [done..|lia]).
  destruct (e_stdin e (moment s)) as [data|err]; [|destruct (is_kind _ _); [by apply cwp_ret|by apply wp_modify]].
  destruct (beq data []); [by apply wp_modify|]. apply cwp_bind, wp_emit.
  set (s1 := s0 <| log := log s0 ++ [FromStdin (moment s) data] |>). assert (L1 : later s s1) by exact L0. unfold process_input.
  destruct (negb _); [eapply cwp_mono; [apply later_socket_write|]; intros a s' L; exact (later_trans _ _ _ L1 L)|].
  apply cwp_bind. eapply cwp_mono; [apply later_taps|]. intros f s2 L2.
  destruct (beq f []); [apply cwp_ret; exact (later_trans _ _ _ L1 L2)|].
  eapply cwp_mono; [apply later_socket_write|]. intros a s3 L3. exact (later_trans _ _ _ (later_trans _ _ _ L1 L2) L3).
Qed.

Lemma later_sigwinch s : wp (handle_sigwinch e) (fun _ => later s) s.
Proof.
  apply cwp_bind, wp_ask. destruct (e_drain e (moment s)); [|apply cwp_ret; split_and!; cbn; [done..|lia]].
  apply cwp_bind, wp_ask. destruct (window_size_with_cell _) as [[[[? ?] ?] ?]|]; [|apply cwp_ret; split_and!; cbn; [done..|lia]].
  eapply cwp_mono; [apply later_socket_write|]. intros a s' (A & B & C). split_and!; [done..|]. cbn in C. lia.
Qed.

Context (clock : forall n, e_now e n < e_now e (S n)) (no_host : forall n, e_dial e n = NoTransport).

Lemma clock_later m n : (m <= n)%nat -> e_now e m + Z.of_nat (n - m) <= e_now e n.
Proof.
  induction 1 as [|n L IH]; [rewrite Nat.sub_diag; lia|]. pose proof (clock n).
  replace (Z.of_nat (S n - m)) with (Z.of_nat (n - m) + 1) by lia. lia.
Qed.

(** A turn of a client that waits for its dial ends it, dials, or passes time. *)
Lemma dialing_turn attempt at_ s :
  dialing attempt at_ s ->
  wp turn (fun o s' => o <> None
     \/ (exists at', dialing (S attempt) at' s' /\ (S attempt < max)%nat)
     \/ (dialing attempt at_ s' /\ (moment s < moment s')%nat /\ e_now e (moment s) < at_)) s.
Proof.
  intros [P O]. apply cwp_bind, wp_ask, cwp_bind, wp_get. set (s1 := s <| moment ::= S |>).
  apply wp_if.
  { intros _. apply cwp_bind. eapply cwp_mono; [apply wp_true|]. intros o s' T. apply cwp_ret. by left. }
  intros _. change (phase s1) with (phase s). rewrite P. apply wp_if.
  - intros _. unfold try_reconnect. apply cwp_bind, wp_get. change (phase s1) with (phase s). rewrite P. cbn [negb].
    apply cwp_bind, wp_ask. rewrite no_host. cbn [default]. destruct (Nat.leb_spec max (S attempt)) as [L|L].
    + apply wp_then. intros s2. apply wp_then. intros s3. eapply cwp_mono; [apply finish_some|]. auto.
    + apply cwp_bind, wp_ask, cwp_bind, wp_modify, cwp_ret. right. left. eexists. split; [split; done|done].
  - intros N%Z.leb_gt. unfold deadline. change (phase s1) with (phase s). rewrite P. cbn [andb].
    rewrite andb_false_r. apply cwp_bind, cwp_bind, wp_ask, cwp_ret, cwp_bind, wp_ask.
    destruct (e_poll e _ _) as [[[sk si] wi]|m].
    + change (socket s1) with (socket s). rewrite O. cbn [andb]. apply cwp_bind, cwp_ret.
      match goal with |- wp _ _ ?u => set (v := u) end.
      assert (V : later s v /\ (moment s < moment v)%nat) by (unfold v; split; [split_and!; cbn; [done..|lia]|cbn; lia]).
      assert (Keep : forall s', later v s' -> dialing attempt at_ s' /\ (moment s < moment s')%nat /\ e_now e (moment s) < at_).
      { intros s' (A & B & C). destruct V as [(D & E & F) G]. split_and!; [split; congruence|lia|done]. }
      apply cwp_bind. eapply cwp_mono with (P := fun o s' => o <> None \/ later v s').
      { destruct (stdin_open s1 && si); [|apply cwp_ret; right; done]. apply cwp_bind.
        eapply cwp_mono; [apply later_stdin|]. intros u s2 L2. apply cwp_bind, wp_get.
        destruct (stdin_was_tty && _); [|apply cwp_ret; by right].
        eapply cwp_mono; [apply finish_some|]. auto. }
      intros [o|] s2 L2; [apply cwp_ret; by left|]. destruct L2 as [?|L2]; [done|].
      apply cwp_bind. destruct (sigwinch s1 && wi).
      * eapply cwp_mono; [apply later_sigwinch|]. intros u s3 L3. apply cwp_ret. right. right.
        apply Keep. by eapply later_trans.
      * apply cwp_ret, cwp_ret. right. right. by apply Keep.
    + apply wp_then. intros s2. apply wp_then. intros s3. apply cwp_ret. by left.
Qed.

Lemma dialing_ends k : forall d attempt at_ s,
  dialing attempt at_ s -> (max - attempt <= k)%nat -> (Z.to_nat (at_ - e_now e (moment s)) <= d)%nat ->
  exists turns, fst (run turns s) <> None.
Proof.
  induction k as [k IHk] using lt_wf_ind. induction d as [d IHd] using lt_wf_ind.
  intros attempt at_ s D K T. pose proof (dialing_turn attempt at_ s D) as W.
  unfold wp in W. destruct (turn s) as [o s'] eqn:E.
  assert (Next : o = None -> forall turns, fst (run turns s') <> None -> fst (run (S turns) s) <> None).
  { intros -> turns N. cbn [Attach.run]. unfold mbind, M_bind. rewrite E. exact N. }
  destruct o as [o|].
  { exists 1%nat. cbn [Attach.run]. unfold mbind, M_bind. rewrite E. done. }
  destruct W as [N|[(at' & D' & L)|(D' & M' & N)]]; [done| |].
  - destruct (IHk (max - S attempt)%nat ltac:(lia) _ (S attempt) at' s' D' ltac:(lia) (Nat.le_refl _)) as [turns R].
    exists (S turns). by apply Next.
  - pose proof (clock_later _ _ (Nat.lt_le_incl _ _ M')).
    destruct (IHd (Z.to_nat (at_ - e_now e (moment s'))) ltac:(lia) attempt at_ s' D' K (Nat.le_refl _)) as [turns R].
    exists (S turns). by apply Next.
Qed.
End GivesUp.

(** With a bound on its attempts, a client whose host cannot be reached gives up (or is
    ended by its user before that): it does not dial for ever. *)
Theorem reconnect_gives_up `{Unicode} (e : AttachEnv) os_text home reap_var name peer pid stream_fd
  identity_json (max : nat) (stdin_was_tty : bool) (attempt : nat) (at_ : Z) (s : Attach) :
  (forall n, e_now e n < e_now e (S n)) -> (forall n, e_dial e n = NoTransport) ->
  phase s = Reconnecting attempt at_ -> socket s = false ->
  exists turns, fst (run e os_text home reap_var name peer pid stream_fd identity_json true (Some max)
                       stdin_was_tty turns s) <> None.
Proof. intros C N P S. eapply dialing_ends; [done|done|by split|apply Nat.le_refl|apply Nat.le_refl]. Qed.

(** ** Witnesses and examples *)

Definition demo_env : AttachEnv :=
  mkAttachEnv (fun n => ms (Z.of_nat n)) (fun _ => 0) (fun _ => true) (fun _ => Some (mkWinsize 24 80 0 0))
    (fun _ => None) (fun _ => false) (fun _ _ => Ok (true, false, false))
    (fun _ => RdData (encode_screen [104; 105] ++ encode_exit 7)) (fun _ => RdData [3]) (fun _ => false)
    (fun _ => NoTransport) (fun _ => None) (fun _ => None).
Abbreviation demo_attach reconnect :=
  (@attach demo_unicode demo_env (fun _ => []) [] None (str "web") None 9 3 (fun _ _ => [])
     reconnect (Some 2%nat) true).

Lemma attach_ends_witness :
  Shut (snd (demo_attach false false 2)) /\ why demo_env false (Some 2%nat) true (Exited 7) (log (snd (demo_attach false false 2))).
Proof.
  refine (@attach_ends demo_unicode demo_env (fun _ => []) [] None (str "web") None 9 3 (fun _ _ => []) false
            (Some 2%nat) true false 2 (Exited 7) _ _).
  vm_compute. reflexivity.
Defined.

Definition waiting : Attach :=
  (initial false) <| socket := false |> <| raw := true |> <| phase := Reconnecting 0 (ms 100) |>.
Lemma reconnect_gives_up_witness :
  exists turns, fst (@run demo_unicode demo_env (fun _ => []) [] None (str "web") None 9 3 (fun _ _ => [])
                       true (Some 2%nat) true turns waiting) <> None.
Proof.
  apply (@reconnect_gives_up demo_unicode demo_env (fun _ => []) [] None (str "web") None 9 3 (fun _ _ => [])
           2 true 0 (ms 100)); [intros n; cbn; unfold ms; lia|done|done|done].
Defined.

(** One tap, and nothing more from the keyboard: the client detaches. *)
Definition tap_env : AttachEnv :=
  demo_env <| e_poll := fun n _ => Ok (false, bool_decide (n < 8)%nat, false) |> <| e_stdin := fun _ => RdData [28] |>
           <| e_now := fun n => ms (400 * Z.of_nat n) |>.
Example one_tap_detaches :
  fst (@attach demo_unicode tap_env (fun _ => []) [] None (str "web") None 9 3 (fun _ _ => []) false None true false 3)
  = Some Detached.
Proof. vm_compute. reflexivity. Qed.

(** Two taps within the window send one key; the second tap alone re-arms after it. *)
Example double_tap :
  fst (taps demo_env [] [97; 28; 28; 98] (initial false)) = [97; 28; 98].
Proof. reflexivity. Qed.
Example lone_tap :
  detach_armed (snd (process_input demo_env [28] (initial false))) = Some 0.
Proof. reflexivity. Qed.

(** While the client reconnects it says that Ctrl-C stops it.  The terminal is still raw,
    so the key is a byte of input, and it is dropped: nothing but the clock changes. *)
Example ctrl_c_does_not_stop : process_input demo_env [3] waiting = (tt, waiting).
Proof. reflexivity. Qed.
Example reconnecting_is_raw :
  raw (snd (start_reconnect demo_env ((initial false) <| raw := true |>))) = true.
Proof. reflexivity. Qed.
