(* ===== verification/Keys.v ===== *)
(** Key specs such as [ctrl+c] or [shift-tab] and the bytes a terminal sends for them:
    [crates/pty-core/src/keys.rs].  Texts are lists of scalar values. *)
From S2P Require Import Prelude Names Text Order Client Summary.

(** ** Names of keys *)

Definition esc_ (x : string) : bytes := 27 :: str x.

(** [key_map]: the names and what they send without a modifier. *)
Definition KEYS : list (bytes * bytes) :=
  [(str "return", [13]); (str "enter", [13]); (str "tab", [9]); (str "escape", [27]); (str "esc", [27]);
   (str "space", [32]); (str "backspace", [127]); (str "delete", esc_ "[3~"); (str "up", esc_ "[A");
   (str "down", esc_ "[B"); (str "right", esc_ "[C"); (str "left", esc_ "[D"); (str "home", esc_ "[H");
   (str "end", esc_ "[F"); (str "pageup", esc_ "[5~"); (str "pagedown", esc_ "[6~"); (str "f1", esc_ "OP");
   (str "f2", esc_ "OQ"); (str "f3", esc_ "OR"); (str "f4", esc_ "OS"); (str "f5", esc_ "[15~");
   (str "f6", esc_ "[17~"); (str "f7", esc_ "[18~"); (str "f8", esc_ "[19~"); (str "f9", esc_ "[20~");
   (str "f10", esc_ "[21~"); (str "f11", esc_ "[23~"); (str "f12", esc_ "[24~"); (str "/", [47])].
Definition key_map (name : bytes) : option bytes := snd <$> List.find (fun kv => beq (fst kv) name) KEYS.

Definition csi_u_keycode (name : bytes) : option Z :=
  if beq name (str "return") || beq name (str "enter") then Some 13
  else if beq name (str "tab") then Some 9
  else if beq name (str "escape") || beq name (str "esc") then Some 27
  else if beq name (str "space") then Some 32
  else if beq name (str "backspace") then Some 127
  else None.

Definition CTRL : bytes := str "ctrl".
Definition ALT : bytes := str "alt".
Definition SHIFT : bytes := str "shift".
Definition is_modifier (m : bytes) : bool := beq m CTRL || beq m ALT || beq m SHIFT.

Definition named_keys : bytes := join (str ", ") (sort_by bytes_leb (fst <$> KEYS)).
Definition key_spec_help : bytes :=
  str "Use ctrl+u, ctrl-u, ctrl_u, or C-u; supported modifiers are ctrl, alt, and shift; supported keys are a-z, "
  ++ named_keys ++ str ".".

Definition is_separator (c : Z) : bool := (c =? 43) || (c =? 95) || (c =? 45).

(** A leading [C-] is readline's spelling of [ctrl+]. *)
Definition normalize_modifier (m : bytes) (index : nat) (spec : bytes) : bytes :=
  let leading_c_dash := match spec with c :: 45 :: _ => to_ascii_lowercase c =? 99 | _ => false end in
  if beq m (str "c") && (index =? 0)%nat && leading_c_dash then CTRL else m.

Definition letter (base : bytes) : option Z :=
  match base with [c] => if is_ascii_lowercase c then Some c else None | _ => None end.
Definition is_supported_base (base : bytes) : bool := bool_decide (is_Some (key_map base)) || bool_decide (is_Some (letter base)).

(** A set of modifiers, by what the code asks of it. *)
Record Mods : Type := mkMods { m_ctrl : bool; m_alt : bool; m_shift : bool }.
#[export] Instance Mods_eq_dec : EqDecision Mods.
Proof. solve_decision. Defined.
Definition mods_of (l : list bytes) : Mods :=
  mkMods (existsb (beq CTRL) l) (existsb (beq ALT) l) (existsb (beq SHIFT) l).
Definition b2z (b : bool) (v : Z) : Z := if b then v else 0.
Definition modifier_param (m : Mods) : Z := 1 + b2z (m_shift m) 1 + b2z (m_alt m) 2 + b2z (m_ctrl m) 4.

(** ** Resolving a spec *)

Definition quote (s : bytes) : bytes := [34] ++ s ++ [34].
Definition msg (head : bytes) (spec : bytes) (tail : bytes) : bytes :=
  head ++ quote spec ++ tail ++ [32] ++ key_spec_help.

(** [ESC \[ digits ~] and [ESC prefix letter]: the two forms that take a parameter. *)
Definition tilde_digits (mapped : bytes) : option bytes :=
  let? s := strip_prefix (esc_ "[") mapped in
  let? ds := strip_suffix [126] s in
  if is_nonempty ds && forallb is_ascii_digit ds then Some ds else None.
Definition final_letter (prefix mapped : bytes) : option bytes :=
  let? l := strip_prefix prefix mapped in
  match l with [c] => if is_ascii_uppercase c then Some l else None | _ => None end.

Definition letter_bytes (m : Mods) (c : Z) : bytes :=
  let c := if m_shift m then to_ascii_uppercase c else c in
  let c := if m_ctrl m then to_ascii_lowercase c - 96 else c in
  if m_alt m then [27; c] else [c].

(** A chord of valid modifiers and a named key other than the slash. *)
Definition named_bytes (m : Mods) (base mapped : bytes) : bytes :=
  let p := dec (modifier_param m) in
  if bool_decide (m = mkMods false false false) then mapped
  else if beq base (str "tab") && (modifier_param m =? 2) then esc_ "[Z"
  else match tilde_digits mapped with
       | Some ds => esc_ "[" ++ ds ++ [59] ++ p ++ [126]
       | None =>
       match final_letter (esc_ "[") mapped with
       | Some l => esc_ "[1;" ++ p ++ l
       | None =>
       match final_letter (esc_ "O") mapped with
       | Some l => esc_ "[1;" ++ p ++ l
       | None =>
       match csi_u_keycode base with
       | Some k => esc_ "[" ++ dec k ++ [59] ++ p ++ [117]
       | None => mapped
       end end end end.

Definition chord_bytes (spec : bytes) (m : Mods) (base : bytes) : Result bytes bytes :=
  match letter base with
  | Some c => Ok (letter_bytes m c)
  | None =>
  match key_map base with
  | None => Err (msg (str "Unknown key: " ++ quote base ++ str " in key spec ") spec (str "."))
  | Some mapped =>
      if beq base (str "/") then
        if m_shift m then Err (str "Unsupported slash chord: " ++ quote spec ++ str ".")
        else let slash := if m_ctrl m then 31 else 47 in
             Ok (if m_alt m then [27; slash] else [slash])
      else Ok (named_bytes m base mapped)
  end end.

(** The pieces of a spec: the modifiers before the last piece, and the base. *)
Definition pieces (spec lower : bytes) : list bytes * list bytes * bytes :=
  let parts := if existsb is_separator lower then split_on is_separator lower else [lower] in
  let base := List.last parts [] in
  let mods := removelast parts in
  (mods, imap (fun i m => normalize_modifier m i spec) mods, base).

(** [order] is the order in which a [HashSet] gives its elements: which unknown modifier
    an error names. *)
Section Resolve.
Context `{Unicode} (order : list bytes -> list bytes).

Definition resolve_key (spec : bytes) : Result bytes bytes :=
  let lower := to_lowercase spec in
  let '(raw, mods, base) := pieces spec lower in
  let is_valid_chord :=
    is_nonempty base && is_nonempty mods && forallb (fun m => is_nonempty m && is_modifier m) mods
    && is_supported_base base in
  if existsb is_separator lower && bool_decide (is_Some (key_map lower)) && is_valid_chord then
    Err (msg (str "Ambiguous key spec ") spec (str ": it is both a named key and a modifier chord."))
  else match (if is_valid_chord then None else key_map lower) with
       | Some mapped => Ok mapped
       | None =>
           if negb (is_nonempty base) || existsb (fun p => negb (is_nonempty p)) raw then
             Err (msg (str "Incomplete key spec ") spec (str "."))
           else match List.find (fun m => negb (is_modifier m)) (order mods) with
                | Some m => Err (msg (str "Unknown modifier: " ++ quote m ++ str " in key spec ") spec (str "."))
                | None => chord_bytes spec (mods_of mods) base
                end
       end.

Definition parse_seq_value (value : bytes) : Result bytes bytes :=
  match strip_prefix (str "key:") value with
  | Some rest => resolve_key rest
  | None => Ok value
  end.
End Resolve.

(** ** Specs *)

(** The text of a spec: each modifier as it is spelled, with the separator after it, then
    the key. *)
Definition spec_text (mods : list (bytes * Z)) (base : bytes) : bytes :=
  concat ((fun ms => fst ms ++ [snd ms]) <$> mods) ++ base.
(** The modifiers that are meant, and whether all are ones. *)
Definition meant (spec : bytes) (mods : list (bytes * Z)) : list bytes := imap (fun i m => normalize_modifier m i spec) (fst <$> mods).
Definition valid_mods (spec : bytes) (mods : list (bytes * Z)) : bool :=
  forallb is_separator (snd <$> mods) && forallb is_modifier (meant spec mods).
Definition plain_text (s : bytes) : bool := is_nonempty s && forallb (fun c => negb (is_separator c)) s.

Lemma find_key name out : key_map name = Some out -> exists kv, kv ∈ KEYS /\ fst kv = name /\ snd kv = out.
Proof.
  unfold key_map. destruct (List.find _ KEYS) as [[k v]|] eqn:F; [|done]. cbn. intros [= <-].
  apply List.find_some in F as [I E]. cbn in E. apply beq_eq in E as <-.
  exists (k, v). split; [by apply list_elem_of_In|done].
Qed.

(** No named key holds a separator: the check for an ambiguous spec never fires. *)
Lemma key_plain name out : key_map name = Some out -> plain_text name = true.
Proof.
  intros (kv & I & <- & _)%find_key.
  assert (A : forallb (fun kv => plain_text (fst kv)) KEYS = true) by reflexivity.
  exact (proj1 (forallb_elem _ _) A kv I).
Qed.
Lemma key_alone spec name out : key_map name = Some out -> chord_bytes spec (mods_of []) name = Ok out.
Proof.
  intros (kv & I & <- & <-)%find_key. revert kv I. apply Forall_forall.
  repeat (apply Forall_cons; split); [reflexivity..|constructor].
Qed.
Lemma letter_plain base c : letter base = Some c -> base = [c] /\ plain_text base = true.
Proof.
  unfold letter. destruct base as [|x [|]]; try done. destruct (is_ascii_lowercase x) eqn:L; [|done].
  intros [= ->]. split; [done|]. cbn. unfold is_ascii_lowercase, is_separator, in_range in *.
  destruct (Z.eqb_spec c 43), (Z.eqb_spec c 95), (Z.eqb_spec c 45); bprop; cbn; try done; lia.
Qed.
Lemma supported_plain base : is_supported_base base = true -> plain_text base = true.
Proof.
  unfold is_supported_base. intros [B|B]%orb_prop; apply bool_decide_eq_true in B as [x B];
  [by eapply key_plain|by eapply letter_plain].
Qed.

Lemma modifier_cases m : is_modifier m = true -> m ∈ [CTRL; ALT; SHIFT].
Proof.
  unfold is_modifier. intros [[H|H]%orb_prop|H]%orb_prop; apply beq_eq in H as ->; set_solver.
Qed.
Lemma modifier_plain m : is_modifier m = true -> plain_text m = true /\ beq m (str "c") = false.
Proof.
  intros I%modifier_cases. revert m I. apply Forall_forall. repeat constructor.
Qed.

Lemma normalize_key_plain m i spec : is_modifier (normalize_modifier m i spec) = true -> plain_text m = true.
Proof.
  unfold normalize_modifier. destruct (beq m (str "c")) eqn:C; [apply beq_eq in C as ->; intros _; reflexivity|].
  cbn [andb]. intros M. exact (proj1 (modifier_plain _ M)).
Qed.
Lemma valid_plain spec mods : valid_mods spec mods = true ->
  forallb (fun ms => is_separator (snd ms) && plain_text (fst ms)) mods = true.
Proof.
  intros [S M]%andb_prop. apply forallb_elem. intros ms I.
  rewrite (proj1 (forallb_elem _ _) S (snd ms)) by (by apply list_elem_of_fmap_2).
  apply list_elem_of_lookup in I as [i L]. apply (normalize_key_plain _ i spec).
  apply (proj1 (forallb_elem _ _) M). apply list_elem_of_lookup_2 with i.
  unfold meant. by rewrite list_lookup_imap, list_lookup_fmap, L.
Qed.

Lemma split_spec mods base : forallb (fun ms => is_separator (snd ms) && plain_text (fst ms)) mods = true ->
  plain_text base = true -> split_on is_separator (spec_text mods base) = (fst <$> mods) ++ [base].
Proof.
  intros V B. apply andb_prop in B as [_ B]. induction mods as [|[m s] mods IH]; cbn [fmap list_fmap].
  - by apply split_on_none.
  - apply andb_prop in V as [[S M]%andb_prop V]. cbn [fst snd] in *. unfold spec_text in *. cbn.
    rewrite <- !app_assoc. cbn [app]. apply andb_prop in M as [_ M].
    rewrite split_on_app by done. by rewrite IH.
Qed.
Lemma separated mods base : forallb is_separator (snd <$> mods) = true -> plain_text base = true ->
  existsb is_separator (spec_text mods base) = is_nonempty mods.
Proof.
  intros V [_ B]%andb_prop. destruct mods as [|[m s] mods].
  - cbn. apply not_true_is_false. intros (c & I & S)%existsb_elem.
    apply (proj1 (forallb_elem _ _) B) in I. rewrite S in I. done.
  - apply andb_prop in V as [S _]. apply existsb_elem. exists s. split; [|done].
    unfold spec_text. cbn. set_solver.
Qed.
Lemma pieces_spec spec mods base : valid_mods spec mods = true -> plain_text base = true ->
  pieces spec (spec_text mods base) = (fst <$> mods, meant spec mods, base).
Proof.
  intros V B. pose proof (valid_plain _ _ V) as P. apply andb_prop in V as [V _].
  unfold pieces. rewrite separated by done.
  replace (if is_nonempty mods then _ else _) with ((fst <$> mods) ++ [base]).
  - by rewrite List.last_last, removelast_last.
  - destruct mods; [done|]. symmetry. by apply split_spec.
Qed.

(** The spelling of the modifiers, their order and repetitions of one do not matter. *)
Lemma resolve_chord `{Unicode} order spec mods base :
  (forall l x, x ∈ order l -> x ∈ l) -> to_lowercase spec = spec_text mods base ->
  valid_mods spec mods = true -> is_supported_base base = true ->
  resolve_key order spec = chord_bytes spec (mods_of (meant spec mods)) base.
Proof.
  intros O L V B. pose proof (supported_plain base B) as P. pose proof (valid_plain _ _ V) as T. unfold resolve_key.
  rewrite L, (pieces_spec spec mods base V P). apply andb_prop in V as [S M].
  rewrite separated, B, andb_true_r by done. pose proof (proj1 (forallb_elem _ _) M) as M'.
  assert (N : forallb (fun m => is_nonempty m && is_modifier m) (meant spec mods) = true).
  { apply forallb_elem. intros m I. specialize (M' m I). rewrite M', andb_true_r.
    apply modifier_plain in M' as [[M' _]%andb_prop _]. exact M'. }
  rewrite N, andb_true_r. pose proof P as [-> _]%andb_prop. cbn [andb negb orb].
  assert (E : existsb (fun p => negb (is_nonempty p)) (fst <$> mods) = false).
  { apply not_true_is_false. intros (m & (ms & -> & I)%list_elem_of_fmap & E)%existsb_elem.
    apply (proj1 (forallb_elem _ _) T) in I. apply andb_prop in I as [_ [I _]%andb_prop]. rewrite I in E. done. }
  assert (F : List.find (fun m => negb (is_modifier m)) (order (meant spec mods)) = None).
  { destruct (List.find _ _) as [m|] eqn:F; [|done]. apply List.find_some in F as [I F].
    apply list_elem_of_In, O, M' in I. rewrite I in F. done. }
  rewrite E, F. destruct mods as [|ms mods].
  - cbn [fmap list_fmap is_nonempty andb meant imap]. change (spec_text [] base) with base.
    destruct (key_map base) as [out|] eqn:K; [|done]. by rewrite (key_alone spec base out K).
  - unfold meant. cbn [fmap list_fmap imap is_nonempty]. rewrite andb_true_r.
    destruct (key_map (spec_text (ms :: mods) base)) as [out|] eqn:K; [|done].
    apply key_plain in K as [_ K]%andb_prop. pose proof (separated (ms :: mods) base S P) as Q.
    cbn [is_nonempty] in Q. apply existsb_elem in Q as (c & I & Q). apply (proj1 (forallb_elem _ _) K) in I.
    rewrite Q in I. done.
Qed.

(** ** Examples *)

Definition ascii_unicode : Unicode := {| to_lowercase := map to_ascii_lowercase |}.
Definition resolved (spec : string) : option bytes :=
  match @resolve_key ascii_unicode (fun l => l) (str spec) with Ok out => Some out | Err _ => None end.
(** Readline's [C-u] is [ctrl+u]; with another separator it is not. *)
Example readline_spelling : (resolved "C-u", resolved "C+u", resolved "Ctrl_Shift-Tab")
  = (Some [21], None, Some (esc_ "[9;6u")).
Proof. reflexivity. Qed.
