(* ===== verification/Input.v ===== *)
(** What a terminal's input bytes mean: the two decoders of keys and mouse reports,
    [crates/pty-core/src/input.rs] (Module [Core]) and [crates/pty-tui/src/input.rs]
    (Module [Tui]).  The characters still to read are a list; a step gives the events of
    one sequence and what is left.  Both files declare the same key event; here it is one
    record, as is the mouse event, whose coordinates are [i32] in one and [u16] in the
    other. *)
From S2P Require Import Prelude Names Text Argv Client Keys.

(** ** Events *)

Record KeyEvent : Type := mkKey { k_name : bytes; k_char : option bytes; k_ctrl : bool; k_alt : bool; k_shift : bool }.
Inductive MouseButton : Type := BLeft | BMiddle | BRight | BNone.
Inductive MouseAction : Type := Press | Release | Drag | Move | ScrollUp | ScrollDown.
Record MouseEvent : Type := mkMouse {
  action : MouseAction; button : MouseButton; x_ : Z; y_ : Z; u_ctrl : bool; u_alt : bool; u_shift : bool }.
Inductive InputEvent : Type := IKey (k : KeyEvent) | IMouse (m : MouseEvent).
#[export] Instance MouseButton_eq_dec : EqDecision MouseButton.
Proof. solve_decision. Defined.
#[export] Instance MouseAction_eq_dec : EqDecision MouseAction.
Proof. solve_decision. Defined.
#[export] Instance KeyEvent_eq_dec : EqDecision KeyEvent.
Proof. solve_decision. Defined.
#[export] Instance MouseEvent_eq_dec : EqDecision MouseEvent.
Proof. solve_decision. Defined.
#[export] Instance InputEvent_eq_dec : EqDecision InputEvent.
Proof. solve_decision. Defined.

Definition named (name : bytes) (ctrl alt shift : bool) : InputEvent := IKey (mkKey name None ctrl alt shift).
Definition printable (ch : bytes) (ctrl alt shift : bool) : InputEvent := IKey (mkKey ch (Some ch) ctrl alt shift).

(** The names of a final letter, of a digit before a tilde, of a CSI-u code. *)
Definition letter_to_name (c : Z) : option bytes :=
  if c =? 65 then Some (str "up") else if c =? 66 then Some (str "down") else if c =? 67 then Some (str "right")
  else if c =? 68 then Some (str "left") else if c =? 72 then Some (str "home") else if c =? 70 then Some (str "end")
  else None.
Definition tilde_name (c : Z) : option bytes :=
  if c =? 51 then Some (str "delete") else if c =? 53 then Some (str "pageup")
  else if c =? 54 then Some (str "pagedown") else None.
Definition kitty_codepoint_name (cp : Z) : option bytes :=
  if cp =? 27 then Some (str "escape") else if cp =? 13 then Some (str "return")
  else if cp =? 9 then Some (str "tab") else if cp =? 127 then Some (str "backspace") else None.

(** Shift, alt and ctrl of a modifier parameter. *)
Definition kitty_mods (wire : Z) : bool * bool * bool :=
  let mods := Z.max 0 (wire - 1) in
  (negb (Z.land mods 1 =? 0), negb (Z.land mods 2 =? 0), negb (Z.land mods 4 =? 0)).
Definition named_mods (name : bytes) (wire : Z) : InputEvent :=
  let '(shift, alt, ctrl) := kitty_mods wire in named name ctrl alt shift.

(** A mouse report's kind and button. *)
Definition mouse_kind (code : Z) (release : bool) : MouseAction * MouseButton :=
  let low := Z.land code 3 in
  if negb (Z.land code 64 =? 0) then (if low =? 0 then ScrollUp else ScrollDown, BNone)
  else
    let button := if low =? 0 then BLeft else if low =? 1 then BMiddle else if low =? 2 then BRight else BNone in
    let action := if release then Release
                  else if negb (Z.land code 32 =? 0)
                       then (if bool_decide (button = BNone) then Move else Drag) else Press in
    (action, button).
Definition mouse_event (code x y : Z) (release : bool) : MouseEvent :=
  let '(action, button) := mouse_kind code release in
  mkMouse action button x y (negb (Z.land code 16 =? 0)) (negb (Z.land code 8 =? 0)) (negb (Z.land code 4 =? 0)).

(** An unknown CSI is skipped up to its final character, [@] to [~]. *)
Fixpoint skip_csi (l : bytes) : bytes :=
  match l with [] => [] | c :: l => if in_range 64 126 c then l else skip_csi l end.

(** This character, and what follows it. *)
Definition expect (k : Z) (l : bytes) : option bytes :=
  match l with c :: rest => if c =? k then Some rest else None | [] => None end.

(** What both do outside a CSI. *)
Definition control_event (code : Z) : list InputEvent :=
  if code =? 13 then [named (str "return") false false false]
  else if code =? 9 then [named (str "tab") false false false]
  else if code =? 127 then [named (str "backspace") false false false]
  else if code =? 28 then [named [92] true false false]
  else if in_range 1 26 code then [named [code + 96] true false false]
  else if 32 <=? code then [printable [code] false false false]
  else [].
Definition plain_step (csi : bytes -> list InputEvent * bytes) (l : bytes) : list InputEvent * bytes :=
  match l with
  | [] => ([], [])
  | c :: rest =>
      if c =? 27 then
        match expect 91 rest with
        | Some body => csi body
        | None =>
            match rest with
            | d :: rest' =>
                if 32 <=? d then ([printable [d] false true false], rest')
                else ([named (str "escape") false false false], rest)
            | [] => ([named (str "escape") false false false], [])
            end
        end
      else (control_event c, rest)
  end.
Fixpoint steps (csi : bytes -> list InputEvent * bytes) (fuel : nat) (l : bytes) : list InputEvent :=
  match fuel with
  | O => []
  | S fuel => match l with
              | [] => []
              | _ => let '(evs, rest) := plain_step csi l in evs ++ steps csi fuel rest
              end
  end.

(** The first form that fits. *)
Definition orelse {A} (a b : option A) : option A := match a with Some x => Some x | None => b end.
Declare Scope input_scope.
Notation "a <|> b" := (orelse a b) (at level 80, right associativity) : input_scope.
Open Scope input_scope.
Definition Parsed : Type := option (list InputEvent * bytes).

(** Forms without a number. *)
Definition arrow (body : bytes) : Parsed :=
  match body with
  | c :: rest => let? name := letter_to_name c in Some ([named name false false false], rest)
  | [] => None
  end.
Definition backtab (body : bytes) : Parsed :=
  let? rest := expect 90 body in Some ([named (str "backtab") false false true], rest).
Definition tilde (body : bytes) : Parsed :=
  match body with
  | c :: l => let? rest := expect 126 l in let? name := tilde_name c in Some ([named name false false false], rest)
  | [] => None
  end.

Module Core.
(** The digits at the head, as a [u32] if they are one, and what follows them. *)
Definition take_digits (l : bytes) : option Z * bytes :=
  let '(ds, rest) := span is_ascii_digit l in
  match ds with [] => (None, l) | _ => (parse_u32 ds, rest) end.

(** [as i32], and its subtraction, which wraps in a release build. *)
Definition wrap_i32 (v : Z) : Z := (v + 2147483648) mod 4294967296 - 2147483648.
Definition decode_mouse (code x y : Z) (release : bool) : MouseEvent :=
  mouse_event code (Z.max 0 (wrap_i32 (wrap_i32 x - 1))) (Z.max 0 (wrap_i32 (wrap_i32 y - 1))) release.

Definition number (l : bytes) : option (Z * bytes) :=
  match take_digits l with (Some v, rest) => Some (v, rest) | (None, _) => None end.

Definition mouse (body : bytes) : Parsed :=
  let? l := expect 60 body in
  let? '(b, l) := number l in let? l := expect 59 l in
  let? '(x, l) := number l in let? l := expect 59 l in
  let? '(y, l) := number l in
  match l with
  | fin :: rest => if (fin =? 77) || (fin =? 109) then Some ([IMouse (decode_mouse b x y (fin =? 109))], rest) else None
  | [] => None
  end.

Definition modified_arrow (body : bytes) : Parsed :=
  let? l := expect 49 body in let? l := expect 59 l in
  let? '(mods, l) := number l in
  match l with
  | c :: rest => let? name := letter_to_name c in Some ([named_mods name mods], rest)
  | [] => None
  end.

Definition kitty_event (code wire : Z) : list InputEvent :=
  let '(shift, alt, ctrl) := kitty_mods wire in
  if (code =? 9) && shift then [named (str "backtab") ctrl alt shift]
  else match kitty_codepoint_name code with
       | Some name => [named name ctrl alt shift]
       | None => if is_char code then [printable [code] ctrl alt shift] else []
       end.
Definition kitty (body : bytes) : Parsed :=
  let? '(code, l) := number body in
  let? '(wire, l) := match expect 59 l with Some l => number l | None => Some (1, l) end in
  let? rest := expect 117 l in Some (kitty_event code wire, rest).

Definition csi (body : bytes) : list InputEvent * bytes :=
  default ([], skip_csi body)
    (mouse body <|> arrow body <|> modified_arrow body <|> backtab body <|> tilde body <|> kitty body).
Definition parse_input (data : bytes) : list InputEvent :=
  let s := from_utf8_lossy data in steps csi (length s) s.
Definition parse_key (data : bytes) : list KeyEvent :=
  omap (fun ev => match ev with IKey k => Some k | IMouse _ => None end) (parse_input data).
End Core.

Module Tui.
(** The digits at the head, a [u32] that saturates. *)
Definition saturating (v d : Z) : Z := Z.min U32_MAX (Z.min U32_MAX (v * 10) + (d - 48)).
Definition digits (l : bytes) : option (Z * bytes) :=
  let '(ds, rest) := span is_ascii_digit l in
  match ds with [] => None | _ => Some (fold_left saturating ds 0, rest) end.

Definition decode_mouse (code x y : Z) (release : bool) : MouseEvent :=
  mouse_event code (Z.min (Z.max 0 (x - 1)) U16_MAX) (Z.min (Z.max 0 (y - 1)) U16_MAX) release.

Definition mouse (body : bytes) : Parsed :=
  let? l := expect 60 body in
  let? '(b, l) := digits l in let? l := expect 59 l in
  let? '(x, l) := digits l in let? l := expect 59 l in
  let? '(y, l) := digits l in
  match l with
  | fin :: rest => if (fin =? 77) || (fin =? 109) then Some ([IMouse (decode_mouse b x y (fin =? 109))], rest) else None
  | [] => None
  end.

Definition modified_arrow (body : bytes) : Parsed :=
  let? l := expect 49 body in let? l := expect 59 l in
  let? '(mods, l) := digits l in
  match l with
  | c :: rest => let? name := letter_to_name c in Some ([named_mods name mods], rest)
  | [] => None
  end.

Definition kitty_event (code : Z) (wire : option Z) : list InputEvent :=
  let '(shift, alt, ctrl) := kitty_mods (default 1 wire) in
  if (code =? 9) && shift then [named (str "backtab") ctrl alt shift]
  else match kitty_codepoint_name code with
       | Some name => [named name ctrl alt shift]
       | None => [printable (if is_char code then [code] else []) ctrl alt shift]
       end.
Definition kitty (body : bytes) : Parsed :=
  let? '(code, l) := digits body in
  let '(mods, l) := match expect 59 l with
                    | Some r => match digits r with Some (m, r) => (Some m, r) | None => (None, l) end
                    | None => (None, l)
                    end in
  let? rest := expect 117 l in Some (kitty_event code mods, rest).

Definition csi (body : bytes) : list InputEvent * bytes :=
  default ([], skip_csi body)
    (mouse body <|> arrow body <|> modified_arrow body <|> backtab body <|> tilde body <|> kitty body).
Definition parse_input (data : bytes) : list InputEvent :=
  let s := from_utf8_lossy data in steps csi (length s) s.
Definition parse_key (data : bytes) : list KeyEvent :=
  omap (fun ev => match ev with IKey k => Some k | IMouse _ => None end) (parse_input data).
End Tui.

(** ** crossterm's events *)

(** The events of the crossterm library that have a name here. *)
Inductive KeyCode : Type :=
| KUp | KDown | KLeft | KRight | KHome | KEnd | KPageUp | KPageDown | KDelete | KTab | KBackTab | KEnter | KEsc
| KBackspace | KChar (c : Z) | KOther.
Record CtMods : Type := mkCtMods { c_control : bool; c_alt : bool; c_shift : bool }.

Definition from_crossterm_key (code : KeyCode) (m : CtMods) : option InputEvent :=
  let n x := Some (named (str x) (c_control m) (c_alt m) (c_shift m)) in
  match code with
  | KUp => n "up" | KDown => n "down" | KLeft => n "left" | KRight => n "right" | KHome => n "home" | KEnd => n "end"
  | KPageUp => n "pageup" | KPageDown => n "pagedown" | KDelete => n "delete" | KTab => n "tab"
  | KBackTab => Some (named (str "backtab") (c_control m) (c_alt m) true)
  | KEnter => n "return" | KEsc => n "escape" | KBackspace => n "backspace"
  | KChar c =>
      if c_control m then Some (named [to_ascii_lowercase c] true (c_alt m) (c_shift m))
      else Some (printable [c] false (c_alt m) (c_shift m))
  | KOther => None
  end.

Inductive CtMouseKind : Type :=
| Down (b : MouseButton) | Up (b : MouseButton) | Dragged (b : MouseButton) | Moved
| CtScrollUp | CtScrollDown | ScrollLeft | ScrollRight.
Definition from_crossterm_mouse (kind : CtMouseKind) (column row : Z) (m : CtMods) : option MouseEvent :=
  let ev a b := Some (mkMouse a b column row (c_control m) (c_alt m) (c_shift m)) in
  match kind with
  | Down b => ev Press b | Up b => ev Release b | Dragged b => ev Drag b | Moved => ev Move BNone
  | CtScrollUp => ev ScrollUp BNone | CtScrollDown => ev ScrollDown BNone
  | ScrollLeft | ScrollRight => None
  end.

(** What an application asks of a key: [KeyEvent::is_plain], [is_ctrl], [typed]. *)
Definition is_plain (k : KeyEvent) (name : bytes) : bool :=
  beq (k_name k) name && negb (k_ctrl k) && negb (k_alt k) && negb (k_shift k).
Definition is_ctrl (k : KeyEvent) (name : bytes) : bool := beq (k_name k) name && k_ctrl k && negb (k_alt k).
Definition typed (k : KeyEvent) : option bytes := if k_ctrl k || k_alt k then None else k_char k.

(** ** Progress *)

Lemma span_split {A} (p : A -> bool) (l : list A) : l = fst (span p l) ++ snd (span p l).
Proof. induction l as [|x l IH]; cbn; [done|]. destruct (p x); [|done]. destruct (span p l). cbn in *. by rewrite <- IH. Qed.

Lemma skip_csi_suffix l : exists p, l = p ++ skip_csi l.
Proof.
  induction l as [|c l [p IH]]; cbn; [by exists []|]. destruct (in_range 64 126 c); [by exists [c]|].
  exists (c :: p). cbn. by rewrite <- IH.
Qed.

Lemma take_digits_suffix l : exists p, l = p ++ snd (Core.take_digits l).
Proof.
  unfold Core.take_digits. pose proof (span_split is_ascii_digit l) as S.
  destruct (span is_ascii_digit l) as [[|d ds] rest]; [by exists []|]. by exists (d :: ds).
Qed.
Lemma digits_suffix l v rest : Tui.digits l = Some (v, rest) -> exists p, l = p ++ rest.
Proof.
  unfold Tui.digits. pose proof (span_split is_ascii_digit l) as S.
  destruct (span is_ascii_digit l) as [[|d ds] rest']; [done|]. intros [= <- <-]. by exists (d :: ds).
Qed.

(** ** The same numbers *)

(** A text in which every number, from wherever it is read, is a scalar value that a
    coordinate can hold. *)
Definition small (ds : bytes) : bool :=
  let v := default 0 (digits_value 0 ds) in is_char v && (v <=? 65536).
Fixpoint tame (l : bytes) : bool :=
  match l with [] => true | _ :: l' => small (fst (span is_ascii_digit l)) && tame l' end.

Lemma tame_suffix p l : tame (p ++ l) = true -> tame l = true.
Proof. induction p as [|c p IH]; [done|]. cbn [app tame]. intros [_ T]%andb_prop. by apply IH. Qed.

Lemma span_digits_all {A} (p : A -> bool) l : forallb p (fst (span p l)) = true.
Proof. induction l as [|x l IH]; cbn; [done|]. destruct (p x) eqn:P; [|done]. destruct (span p l). cbn in *. by rewrite P. Qed.

Definition value (acc : Z) (ds : bytes) : Z := fold_left (fun v d => v * 10 + (d - 48)) ds acc.
Lemma digits_value_value ds : forall acc, forallb is_ascii_digit ds = true -> digits_value acc ds = Some (value acc ds).
Proof. induction ds as [|d ds IH]; intros acc; cbn; [done|]. intros [-> D]%andb_prop. by apply IH. Qed.
Lemma value_mono ds : forall acc, 0 <= acc -> forallb is_ascii_digit ds = true -> acc <= value acc ds.
Proof.
  induction ds as [|d ds IH]; intros acc A; cbn; [lia|]. intros [D Ds]%andb_prop. unfold is_ascii_digit, in_range in D. bprop.
  specialize (IH (acc * 10 + (d - 48)) ltac:(lia) Ds). unfold value in IH. lia.
Qed.
Lemma saturating_value ds : forall acc, 0 <= acc -> forallb is_ascii_digit ds = true ->
  fold_left Tui.saturating ds (Z.min U32_MAX acc) = Z.min U32_MAX (value acc ds).
Proof.
  induction ds as [|d ds IH]; intros acc A; cbn [fold_left value forallb]; [done|]. intros [D Ds]%andb_prop.
  unfold is_ascii_digit, in_range in D. bprop.
  replace (Tui.saturating (Z.min U32_MAX acc) d) with (Z.min U32_MAX (acc * 10 + (d - 48))).
  - rewrite IH by (done || lia). done.
  - unfold Tui.saturating, U32_MAX. lia.
Qed.

(** On a tame text both read the same number. *)
Lemma digits_agree l : tame l = true ->
  match Tui.digits l with
  | Some (v, rest) => Core.take_digits l = (Some v, rest) /\ is_char v = true /\ 0 <= v <= 65536
  | None => Core.take_digits l = (None, l)
  end.
Proof.
  intros T. unfold Tui.digits, Core.take_digits.
  assert (S : small (fst (span is_ascii_digit l)) = true).
  { destruct l; [done|]. by apply andb_prop in T as [S _]. }
  pose proof (span_digits_all is_ascii_digit l) as D.
  destruct (span is_ascii_digit l) as [[|d ds] rest]; [done|]. cbn [fst] in *.
  unfold small in S. rewrite (digits_value_value _ 0 D) in S. cbn [default from_option id] in S.
  apply andb_prop in S as [C B]. bprop.
  assert (E : fold_left Tui.saturating (d :: ds) 0 = value 0 (d :: ds)).
  { rewrite <- (Z.min_r U32_MAX 0) at 1 by (unfold U32_MAX; lia). rewrite saturating_value by (done || lia).
    unfold U32_MAX. lia. }
  rewrite E. split; [|split; [done|]].
  - f_equal. unfold parse_u32, parse_unsigned.
    destruct (decide (d = 43)) as [->|N]; [cbn in D; discriminate|].
    assert (X : match d :: ds with 43 :: r => r | _ => d :: ds end = d :: ds).
    { destruct d as [|q|q]; try done. do 6 (destruct q as [q|q|]; try done). }
    rewrite X, (digits_value_value _ 0 D). unfold U32_MAX.
    destruct (Z.leb_spec (value 0 (d :: ds)) 4294967295); [done|lia].
  - split; [|done]. apply (value_mono (d :: ds) 0); [lia|done].
Qed.

Lemma expect_suffix k l rest : expect k l = Some rest -> l = k :: rest.
Proof. destruct l as [|c l]; cbn; [done|]. destruct (Z.eqb_spec c k) as [->|]; [|done]. by intros [= ->]. Qed.

(** Both go on alike after a character, and after a number. *)
Lemma expect_agrees {A} k (f g : bytes -> option A) l : tame l = true ->
  (forall r, tame r = true -> f r = g r) -> mbind f (expect k l) = mbind g (expect k l).
Proof.
  intros T E. destruct (expect k l) as [r|] eqn:X; [|done]. apply expect_suffix in X as ->.
  cbn. apply E. by apply (tame_suffix [k]).
Qed.
Lemma number_agrees {A} (f g : Z * bytes -> option A) l : tame l = true ->
  (forall v r, is_char v = true -> 0 <= v <= 65536 -> tame r = true -> f (v, r) = g (v, r)) ->
  mbind f (Core.number l) = mbind g (Tui.digits l).
Proof.
  intros T E. pose proof (digits_agree l T) as A1. unfold Core.number.
  destruct (Tui.digits l) as [[v r]|] eqn:D; [|by rewrite A1].
  destruct A1 as (-> & C & B). cbn. apply E; try done. apply digits_suffix in D as [p ->].
  by eapply tame_suffix.
Qed.

Lemma coordinate_agrees v : 0 <= v <= 65536 ->
  Z.max 0 (Core.wrap_i32 (Core.wrap_i32 v - 1)) = Z.min (Z.max 0 (v - 1)) U16_MAX.
Proof.
  intros V. unfold Core.wrap_i32, U16_MAX.
  rewrite (Z.mod_small (v + _)) by lia. rewrite Z.mod_small by lia. lia.
Qed.

Lemma mouse_agrees l : tame l = true -> Core.mouse l = Tui.mouse l.
Proof.
  intros T. apply expect_agrees; [done|]. intros l1 T1. apply number_agrees; [done|]. intros b l2 _ _ T2.
  apply expect_agrees; [done|]. intros l3 T3. apply number_agrees; [done|]. intros x l4 _ X T4.
  apply expect_agrees; [done|]. intros l5 T5. apply number_agrees; [done|]. intros y l6 _ Y T6.
  destruct l6 as [|c l6]; [done|]. unfold Core.decode_mouse, Tui.decode_mouse. rewrite !coordinate_agrees by done. done.
Qed.
Lemma modified_arrow_agrees l : tame l = true -> Core.modified_arrow l = Tui.modified_arrow l.
Proof.
  intros T. apply expect_agrees; [done|]. intros l1 T1. apply expect_agrees; [done|]. intros l2 T2.
  by apply number_agrees.
Qed.
Lemma kitty_agrees l : tame l = true -> Core.kitty l = Tui.kitty l.
Proof.
  intros T. apply number_agrees; [done|]. intros code l1 C _ T1.
  assert (K : forall w, Core.kitty_event code (default 1 w) = Tui.kitty_event code w).
  { intros w. unfold Core.kitty_event, Tui.kitty_event. rewrite C. done. }
  destruct (expect 59 l1) as [l2|] eqn:E; [|cbn [mbind option_bind]; rewrite <- K; done].
  apply expect_suffix in E as ->.
  pose proof (digits_agree l2 (tame_suffix [59] _ T1)) as A. unfold Core.number.
  destruct (Tui.digits l2) as [[m l3]|]; [destruct A as [-> _]|rewrite A; done].
  cbn [mbind option_bind]. rewrite <- K. done.
Qed.

Lemma csi_agrees l : tame l = true -> Core.csi l = Tui.csi l.
Proof. intros T. unfold Core.csi, Tui.csi. rewrite mouse_agrees, modified_arrow_agrees, kitty_agrees by done. done. Qed.

(** ** Progress *)

Class Consumes (f : bytes -> list InputEvent * bytes) : Prop :=
  leaves_suffix : forall l, exists p, l = p ++ snd (f l).

Definition ends_in (l : bytes) (r : Parsed) : Prop := forall evs rest, r = Some (evs, rest) -> exists p, l = p ++ rest.
Lemma ends_orelse l a b : ends_in l a -> ends_in l b -> ends_in l (a <|> b).
Proof. destruct a; [done|]. done. Qed.
Lemma ends_expect k (f : bytes -> Parsed) l : (forall r, ends_in r (f r)) -> ends_in l (mbind f (expect k l)).
Proof.
  intros F evs rest. destruct (expect k l) as [r|] eqn:X; [|done]. apply expect_suffix in X as ->.
  intros E. destruct (F r _ _ E) as [p ->]. by exists (k :: p).
Qed.
Lemma ends_digits (f : Z * bytes -> Parsed) l : (forall v r, ends_in r (f (v, r))) -> ends_in l (mbind f (Tui.digits l)).
Proof.
  intros F evs rest. destruct (Tui.digits l) as [[v r]|] eqn:X; [|done]. apply digits_suffix in X as [p ->].
  intros E. destruct (F v r _ _ E) as [q ->]. exists (p ++ q). by rewrite <- app_assoc.
Qed.
Lemma ends_number (f : Z * bytes -> Parsed) l : (forall v r, ends_in r (f (v, r))) -> ends_in l (mbind f (Core.number l)).
Proof.
  intros F evs rest. unfold Core.number. destruct (take_digits_suffix l) as [p E].
  destruct (Core.take_digits l) as [[v|] r]; [|done]. cbn [snd] in E. subst l.
  intros E. destruct (F v r _ _ E) as [q ->]. exists (p ++ q). by rewrite <- app_assoc.
Qed.
Lemma ends_final (g : Z -> bytes -> Parsed) l : (forall c r evs rest, g c r = Some (evs, rest) -> rest = r) ->
  ends_in l (match l with c :: r => g c r | [] => None end).
Proof. intros G evs rest. destruct l as [|c r]; [done|]. intros E. apply G in E as ->. by exists [c]. Qed.
Lemma ends_here evs l : ends_in l (Some (evs, l)).
Proof. intros ? ? [= <- <-]. by exists []. Qed.

Create HintDb input discriminated.
#[export] Hint Resolve ends_orelse ends_expect ends_digits ends_number ends_here : input.

Lemma arrow_ends l : ends_in l (arrow l).
Proof. apply (ends_final (fun c rest => let? name := letter_to_name c in Some (_, rest))). intros c r evs rest. destruct (letter_to_name c); [by intros [= _ ->]|done]. Qed.
Lemma backtab_ends l : ends_in l (backtab l).
Proof. apply ends_expect. intros r. apply ends_here. Qed.
Lemma tilde_ends l : ends_in l (tilde l).
Proof.
  intros evs rest. destruct l as [|c l]; [done|]. cbn [tilde].
  destruct (expect 126 l) as [r|] eqn:X; [|done]. apply expect_suffix in X as ->. cbn.
  destruct (tilde_name c); [|done]. intros [= _ <-]. by exists [c; 126].
Qed.
#[export] Hint Resolve arrow_ends backtab_ends tilde_ends : input.

Lemma last_of_mouse b x y (dm : Z -> Z -> Z -> bool -> MouseEvent) l : ends_in l
  (match l with
   | fin :: rest => if (fin =? 77) || (fin =? 109) then Some ([IMouse (dm b x y (fin =? 109))], rest) else None
   | [] => None
   end).
Proof. apply (ends_final (fun fin rest => if (fin =? 77) || (fin =? 109) then Some ([IMouse (dm b x y (fin =? 109))], rest) else None)). intros c r evs rest. destruct ((c =? 77) || (c =? 109)); [by intros [= _ ->]|done]. Qed.
Lemma last_of_arrow mods l : ends_in l
  (match l with
   | c :: rest => let? name := letter_to_name c in Some ([named_mods name mods], rest)
   | [] => None
   end).
Proof. apply (ends_final (fun c rest => let? name := letter_to_name c in Some (_, rest))). intros c r evs rest. destruct (letter_to_name c); [by intros [= _ ->]|done]. Qed.
#[export] Hint Resolve last_of_mouse last_of_arrow : input.

Lemma core_kitty_ends l : ends_in l (Core.kitty l).
Proof.
  apply ends_number. intros code l1. intros evs rest.
  destruct (expect 59 l1) as [l2|] eqn:E; [apply expect_suffix in E as ->|]; intros K.
  - assert (X : ends_in l2 (let? '(wire, l) := Core.number l2 in let? rest := expect 117 l in Some (Core.kitty_event code wire, rest))).
    { apply ends_number. intros w r. apply ends_expect. intros r'. apply ends_here. }
    destruct (X _ _ K) as [p ->]. by exists (59 :: p).
  - cbn in K. destruct (expect 117 l1) as [r|] eqn:E'; [|done]. apply expect_suffix in E' as ->.
    injection K as _ <-. by exists [117].
Qed.
Lemma tui_kitty_ends l : ends_in l (Tui.kitty l).
Proof.
  apply ends_digits. intros code l1. intros evs rest.
  assert (U : forall w l, ends_in l (let? rest := expect 117 l in Some (Tui.kitty_event code w, rest))).
  { intros w l0. apply ends_expect. intros r. apply ends_here. }
  destruct (expect 59 l1) as [l2|] eqn:E; [apply expect_suffix in E as ->|apply U].
  destruct (Tui.digits l2) as [[m l3]|] eqn:D; [|apply U].
  apply digits_suffix in D as [p ->]. intros K. destruct (U _ _ _ _ K) as [q ->].
  exists (59 :: p ++ q). cbn. by rewrite <- app_assoc.
Qed.

Lemma ends_default l r : ends_in l r -> exists p, l = p ++ snd (default ([], skip_csi l) r).
Proof.
  intros E. destruct r as [[evs rest]|]; [exact (E evs rest eq_refl)|]. apply skip_csi_suffix.
Qed.
#[export] Instance core_consumes : Consumes Core.csi.
Proof.
  intros l. apply ends_default. repeat apply ends_orelse; eauto using core_kitty_ends with input;
  unfold Core.mouse, Core.modified_arrow; eauto 20 with input.
Qed.
#[export] Instance tui_consumes : Consumes Tui.csi.
Proof.
  intros l. apply ends_default. repeat apply ends_orelse; eauto using tui_kitty_ends with input;
  unfold Tui.mouse, Tui.modified_arrow; eauto 20 with input.
Qed.

(** A step takes at least one character, whatever the input. *)
Lemma plain_step_progress csi `{!Consumes csi} c l : exists p, c :: l = c :: p ++ snd (plain_step csi (c :: l)).
Proof.
  cbn [plain_step]. destruct (c =? 27); [|by exists []]. destruct (expect 91 l) as [body|] eqn:E.
  - apply expect_suffix in E as ->. destruct (leaves_suffix body) as [p E]. exists (91 :: p). cbn. by rewrite <- E.
  - destruct l as [|d l]; [by exists []|]. destruct (32 <=? d); [by exists [d]|by exists []].
Qed.

(** ** The loops *)

Lemma steps_fuel csi `{!Consumes csi} n : forall l m, (length l <= n)%nat -> (length l <= m)%nat ->
  steps csi n l = steps csi m l.
Proof.
  induction n as [|n IH]; intros [|c l] m L M; cbn [length] in *; try lia; [by destruct m..|].
  destruct m as [|m]; [lia|]. cbn [steps]. destruct (plain_step_progress csi c l) as [p E].
  destruct (plain_step csi (c :: l)) as [evs rest]. cbn [snd] in E. f_equal.
  injection E as E. apply IH; apply (f_equal length) in E; rewrite length_app in E; lia.
Qed.

(** One sequence, then the rest. *)
Lemma steps_cons csi `{!Consumes csi} evs rest l n :
  l <> [] -> plain_step csi l = (evs, rest) -> (length l <= n)%nat ->
  steps csi n l = evs ++ steps csi (length rest) rest.
Proof.
  intros N E L. destruct l as [|c l]; [done|]. destruct (plain_step_progress csi c l) as [p P].
  rewrite E in P. cbn [snd] in P. injection P as P. destruct n as [|n]; [cbn in L; lia|].
  cbn [steps]. rewrite E. f_equal. apply (f_equal length) in P. rewrite length_app in P. cbn in L.
  by apply steps_fuel; [done|lia|].
Qed.

Lemma plain_step_agrees l : tame l = true -> plain_step Core.csi l = plain_step Tui.csi l.
Proof.
  destruct l as [|c l]; [done|]. intros T. cbn [plain_step]. destruct (c =? 27); [|done].
  destruct (expect 91 l) as [body|] eqn:E; [|done]. apply expect_suffix in E as ->.
  apply csi_agrees. by apply (tame_suffix [c; 91]).
Qed.

Lemma steps_agree n : forall l, tame l = true -> steps Core.csi n l = steps Tui.csi n l.
Proof.
  induction n as [|n IH]; intros [|c l] T; try done. cbn [steps]. rewrite <- (plain_step_agrees _ T).
  destruct (plain_step_progress Core.csi c l) as [p E].
  destruct (plain_step Core.csi (c :: l)) as [evs rest]. cbn [snd] in E. f_equal. apply IH.
  rewrite E in T. by apply (tame_suffix (c :: p)).
Qed.

(** ** Keys read back *)

(** The chord's own key, where both decoders see it. *)
Definition own (m : Mods) (base : bytes) : option InputEvent :=
  let any := negb (bool_decide (m = mkMods false false false)) in
  let on (name : string) := Some (named (str name) (m_ctrl m) (m_alt m) (m_shift m)) in
  let nm (x : string) := beq base (str x) in
  match letter base with
  | Some c =>
      if m_ctrl m then
        if m_alt m || m_shift m || (c =? 105) || (c =? 109) then None else Some (named [c] true false false)
      else Some (printable [if m_shift m then to_ascii_uppercase c else c] false (m_alt m) false)
  | None =>
      if nm "up" then on "up" else if nm "down" then on "down" else if nm "left" then on "left"
      else if nm "right" then on "right" else if nm "home" then on "home" else if nm "end" then on "end"
      else if nm "return" || nm "enter" then on "return" else if nm "backspace" then on "backspace"
      else if nm "tab" then if m_shift m then on "backtab" else on "tab"
      else if nm "escape" || nm "esc" then on "escape"
      else if nm "space" then Some (printable [32] (m_ctrl m) (m_alt m) (m_shift m))
      else if nm "/" then if m_ctrl m || m_shift m then None else Some (printable [47] false (m_alt m) false)
      else if any then None
      else if nm "delete" then on "delete" else if nm "pageup" then on "pageup"
      else if nm "pagedown" then on "pagedown" else None
  end.
(** What they see of the others: of a letter under [ctrl] neither [shift] nor [alt], which is
    an escape before it, and [ctrl+i] is a tab and [ctrl+m] a return; [ctrl+/] is nothing;
    [f1] to [f4] are two letters; the other function keys, and a modified [delete],
    [pageup] or [pagedown], are nothing. *)
Definition garbled (m : Mods) (base : bytes) : list InputEvent :=
  let escape := if m_alt m then [named (str "escape") false false false] else [] in
  match letter base with
  | Some c => escape ++ [if c =? 105 then named (str "tab") false false false
                         else if c =? 109 then named (str "return") false false false
                         else named [c] true false false]
  | None =>
      if beq base (str "/") then escape
      else match base with
           | [102; n] => if bool_decide (m = mkMods false false false) && in_range 49 52 n
                         then [printable [79] false true false; printable [n + 31] false false false] else []
           | _ => []
           end
  end.
Definition seen (k : Mods * bytes) : list InputEvent :=
  match own (fst k) (snd k) with Some ev => [ev] | None => garbled (fst k) (snd k) end.

(** A shifted slash is refused.  A bare escape starts whatever sequence comes after it. *)
Definition refused (k : Mods * bytes) : bool := m_shift (fst k) && beq (snd k) (str "/").
Definition bare_escape (k : Mods * bytes) : bool :=
  bool_decide (fst k = mkMods false false false) && (beq (snd k) (str "escape") || beq (snd k) (str "esc")).

Definition LETTERS : list bytes := (fun n => [97 + Z.of_nat n]) <$> seq 0 26.
Definition BASES : list bytes := LETTERS ++ (fst <$> KEYS).

(** A decoder reads these bytes as these events, whatever follows. *)
Inductive reads_as (csi : bytes -> list InputEvent * bytes) : bytes -> list InputEvent -> Prop :=
  | reads_last out evs : out <> [] -> (forall rest, plain_step csi (out ++ rest) = (evs, rest)) -> reads_as csi out evs
  | reads_more out evs mid evs' : out <> [] -> (forall rest, plain_step csi (out ++ rest) = (evs, mid ++ rest)) ->
      reads_as csi mid evs' -> reads_as csi out (evs ++ evs').

Ltac read_one := apply reads_last; [discriminate|intros rest; vm_compute; reflexivity].
(** The first [n] bytes give the first [k] events. *)
Ltac read_more out evs n k :=
  apply (reads_more _ out (take k evs) (drop n out) (drop k evs));
  [discriminate|intros rest; vm_compute; reflexivity|read_one].
Ltac reads :=
  match goal with
  | |- reads_as _ ?out ?evs => first [read_one | read_more out evs 1%nat 1%nat | read_more out evs 2%nat 1%nat]
  end.

Lemma seen_table base m spec : base ∈ BASES -> refused (m, base) = false -> bare_escape (m, base) = false ->
  exists out, chord_bytes spec m base = Ok out /\ forallb (in_range 0 127) out = true
    /\ reads_as Core.csi out (seen (m, base)) /\ reads_as Tui.csi out (seen (m, base)).
Proof.
  intros I. revert m. pattern base. revert base I. apply Forall_forall.
  repeat (apply Forall_cons; split); [..|constructor].
  all: intros [[] [] []] R B; first [discriminate R | discriminate B | clear R B].
  all: eexists; split; [vm_compute; reflexivity|]; split; [reflexivity|].
  all: match goal with |- context [seen ?k] => let evs := eval vm_compute in (seen k) in change (seen k) with evs end.
  all: split; reads.
Qed.

Lemma supported_in_bases base : is_supported_base base = true -> base ∈ BASES.
Proof.
  unfold is_supported_base. intros [B|B]%orb_prop; apply bool_decide_eq_true in B as [x B].
  - apply find_key in B as (kv & I & <- & _). apply elem_of_app. right. by apply list_elem_of_fmap_2.
  - apply elem_of_app. left. unfold letter in B. destruct base as [|c [|]]; try done.
    destruct (is_ascii_lowercase c) eqn:L; [|done]. unfold is_ascii_lowercase, in_range in L. bprop.
    apply list_elem_of_fmap. exists (Z.to_nat (c - 97)). split; [f_equal; lia|].
    apply elem_of_seq. lia.
Qed.
Lemma reads_as_steps csi `{!Consumes csi} out evs rest : reads_as csi out evs ->
  steps csi (length (out ++ rest)) (out ++ rest) = evs ++ steps csi (length rest) rest.
Proof.
  induction 1 as [out evs N E|out evs mid evs' N E _ IH].
  - apply (steps_cons csi evs rest); [by destruct out|done|lia].
  - rewrite (steps_cons csi evs (mid ++ rest)) by (done || lia || by destruct out).
    by rewrite IH, (assoc_L (++)).
Qed.

(** Keys of which only the last may be a bare escape. *)
Inductive key_bytes (spec : bytes) (k : Mods * bytes) (out : bytes) : Prop :=
  | key_out : chord_bytes spec (fst k) (snd k) = Ok out -> forallb (in_range 0 127) out = true ->
      (if bare_escape k then out = [27] /\ seen k = [named (str "escape") false false false]
       else reads_as Core.csi out (seen k) /\ reads_as Tui.csi out (seen k)) -> key_bytes spec k out.
Lemma key_bytes_of spec k : is_supported_base (snd k) = true -> refused k = false -> exists out, key_bytes spec k out.
Proof.
  destruct k as [m base]. intros I%supported_in_bases R. cbn [fst snd] in *. destruct (bare_escape (m, base)) eqn:B.
  - pose proof B as B'. apply andb_prop in B as [M%bool_decide_eq_true B]. cbn [fst snd] in *. subst m. exists [27].
    apply orb_prop in B as [B|B]; apply beq_eq in B as ->; constructor; rewrite ?B'; try done; by vm_compute.
  - destruct (seen_table base m spec I R B) as (out & E & A & C & T). exists out. constructor; rewrite ?B; done.
Qed.
Lemma keys_read csi `{!Consumes csi} keys outs :
  Forall2 (fun k out => if bare_escape k then out = [27] /\ seen k = [named (str "escape") false false false]
                        else reads_as csi out (seen k)) keys outs ->
  forallb (fun k => negb (bare_escape k)) (removelast keys) = true ->
  steps csi (length (concat outs)) (concat outs) = concat (seen <$> keys).
Proof.
  induction 1 as [|k out keys outs K F IH]; [done|]. intros L. cbn [concat fmap list_fmap].
  destruct keys as [|k2 keys].
  - inversion F; subst. cbn [concat fmap list_fmap]. destruct (bare_escape k).
    + destruct K as [-> ->]. done.
    + rewrite (reads_as_steps csi out _ [] K). done.
  - cbn [removelast forallb] in L. apply andb_prop in L as [N L]. apply negb_true_iff in N. rewrite N in K.
    rewrite (reads_as_steps csi out _ _ K), IH; done.
Qed.

Lemma ascii_text s : forallb (in_range 0 127) s = true -> to_utf8 s = s /\ from_utf8_lossy s = s.
Proof.
  intros A. split; [|apply lossy_of_utf8, from_utf8_ascii, A].
  induction s as [|c s IH]; [done|]. cbn in A. apply andb_prop in A as [C A].
  unfold to_utf8 in *. cbn. rewrite (IH A). unfold utf8_char, in_range in *. bprop.
  destruct (Z.ltb_spec c 128); [done|lia].
Qed.

(** ** What an event may be *)

(** The names of the keys that type nothing. *)
Definition NAMES : list bytes :=
  (str <$> ["up"; "down"; "right"; "left"; "home"; "end"; "delete"; "pageup"; "pagedown"; "backtab"; "return";
            "tab"; "escape"; "backspace"; "\"]) ++ LETTERS.
Definition well_typed (lone : bool) (far : Z) (ev : InputEvent) : bool :=
  match ev with
  | IKey k => match k_char k with
              | Some ch => beq (k_name k) ch
                           && match ch with [c] => is_char c | [] => lone | _ => false end
              | None => existsb (beq (k_name k)) NAMES
              end
  | IMouse m => in_range 0 far (x_ m) && in_range 0 far (y_ m)
  end.
Class Typed (lone : bool) (far : Z) (csi : bytes -> list InputEvent * bytes) : Prop :=
  csi_typed : forall l, forallb (well_typed lone far) (fst (csi l)) = true.

Lemma lossy_chars l : forallb (in_range 0 255) l = true -> forallb is_char (from_utf8_lossy l) = true.
Proof.
  induction l as [l IH] using (induction_ltof1 _ (@length Z)). unfold ltof in IH.
  destruct l as [|a l1]; intros V; [done|]. cbn [from_utf8_lossy].
  assert (R : forall f p m, a :: l1 = p :: f ++ m -> forallb is_char (from_utf8_lossy m) = true).
  { intros f p m E. apply IH; [rewrite E; cbn; rewrite length_app; lia|].
    rewrite E in V. cbn in V. rewrite forallb_app in V. bprop. done. }
  destruct (in_range 0 127 a) eqn:E1.
  { cbn [forallb]. rewrite (R [] a l1 eq_refl). unfold is_char, in_range in *. lia. }
  destruct (in_range 194 223 a) eqn:E2.
  { destruct l1 as [|b l2]; [done|]. destruct (cont b) eqn:C.
    - cbn [forallb]. rewrite (R [b] a l2 eq_refl). unfold is_char, in_range, cont, scalar2, in_range in *. lia.
    - cbn [forallb]. by rewrite (R [] a (b :: l2) eq_refl). }
  destruct (in_range 224 239 a) eqn:E3.
  { destruct l1 as [|b l2]; [done|]. destruct (second3 a b) eqn:S3; [|cbn [forallb]; by rewrite (R [] a (b :: l2) eq_refl)].
    destruct l2 as [|c l3]; [done|]. destruct (cont c) eqn:C; [|cbn [forallb]; by rewrite (R [b] a (c :: l3) eq_refl)].
    cbn [forallb]. rewrite (R [b; c] a l3 eq_refl). unfold is_char, in_range, second3, cont, scalar3, in_range in *. lia. }
  destruct (in_range 240 244 a) eqn:E4; [|cbn [forallb]; by rewrite (R [] a l1 eq_refl)].
  destruct l1 as [|b l2]; [done|]. destruct (second4 a b) eqn:S4; [|cbn [forallb]; by rewrite (R [] a (b :: l2) eq_refl)].
  destruct l2 as [|c l3]; [done|]. destruct (cont c) eqn:C; [|cbn [forallb]; by rewrite (R [b] a (c :: l3) eq_refl)].
  destruct l3 as [|d l4]; [done|]. destruct (cont d) eqn:D; [|cbn [forallb]; by rewrite (R [b; c] a (d :: l4) eq_refl)].
  cbn [forallb]. rewrite (R [b; c; d] a l4 eq_refl). unfold is_char, in_range, second4, cont, scalar4, in_range in *. lia.
Qed.

Lemma letter_names c : match letter_to_name c with Some n => existsb (beq n) NAMES = true | None => True end.
Proof. unfold letter_to_name. repeat (destruct (_ =? _); [done|]). done. Qed.
Lemma tilde_names c : match tilde_name c with Some n => existsb (beq n) NAMES = true | None => True end.
Proof. unfold tilde_name. repeat (destruct (_ =? _); [done|]). done. Qed.
Lemma kitty_names c : match kitty_codepoint_name c with Some n => existsb (beq n) NAMES = true | None => True end.
Proof. unfold kitty_codepoint_name. repeat (destruct (_ =? _); [done|]). done. Qed.

(** What a parsed form holds. *)
Definition holds (lone : bool) (far : Z) (r : Parsed) : Prop :=
  forall evs rest, r = Some (evs, rest) -> forallb (well_typed lone far) evs = true.
Lemma holds_orelse lone far a b : holds lone far a -> holds lone far b -> holds lone far (a <|> b).
Proof. by destruct a. Qed.
Lemma holds_bind {A} lone far (m : option A) (f : A -> Parsed) : (forall x, holds lone far (f x)) -> holds lone far (mbind f m).
Proof. intros F. destruct m; [apply F|done]. Qed.
Lemma holds_some lone far evs rest : forallb (well_typed lone far) evs = true -> holds lone far (Some (evs, rest)).
Proof. by intros H ? ? [= <- <-]. Qed.
Lemma holds_named lone far name ctrl alt shift rest : existsb (beq name) NAMES = true ->
  holds lone far (Some ([named name ctrl alt shift], rest)).
Proof. intros N. apply holds_some. cbn [forallb well_typed named k_char k_name]. by rewrite N. Qed.
Lemma holds_letter lone far c (g : bytes -> InputEvent) rest : (forall n, exists a b d, g n = named n a b d) ->
  holds lone far (let? name := letter_to_name c in Some ([g name], rest)).
Proof.
  intros G. pose proof (letter_names c) as N. destruct (letter_to_name c) as [n|]; [|done]. cbn [mbind option_bind].
  destruct (G n) as (a & b & d & ->). by apply holds_named.
Qed.
Lemma named_mods_named n w : exists a b d, named_mods n w = named n a b d.
Proof. unfold named_mods. destruct (kitty_mods w) as [[s a] c]. by eauto. Qed.
Lemma holds_mouse lone far ev l : well_typed lone far (IMouse ev) = true -> holds lone far (Some ([IMouse ev], l)).
Proof. intros W. apply holds_some. cbn [forallb]. by rewrite W. Qed.
Lemma holds_default lone far l r : holds lone far r -> forallb (well_typed lone far) (fst (default ([], skip_csi l) r)) = true.
Proof. intros H. destruct r as [[evs rest]|]; [exact (H evs rest eq_refl)|done]. Qed.

Lemma holds_arrow lone far l : holds lone far (arrow l).
Proof. destruct l as [|c l]; [done|]. apply (holds_letter _ _ _ (fun n => named n false false false)). eauto. Qed.
Lemma holds_backtab lone far l : holds lone far (backtab l).
Proof. apply holds_bind. intros r. by apply holds_named. Qed.
Lemma holds_tilde lone far l : holds lone far (tilde l).
Proof.
  destruct l as [|c l]; [done|]. apply holds_bind. intros r. pose proof (tilde_names c) as N.
  destruct (tilde_name c); [by apply holds_named|done].
Qed.
Lemma holds_modified lone far (m : Z) (l : bytes) :
  holds lone far (match l with
                  | c :: rest => let? name := letter_to_name c in Some ([named_mods name m], rest)
                  | [] => None
                  end).
Proof. destruct l as [|c l]; [done|]. apply (holds_letter _ _ _ (fun n => named_mods n m)). intros n. apply named_mods_named. Qed.
Lemma mouse_event_typed lone far code x y release : 0 <= x <= far -> 0 <= y <= far ->
  well_typed lone far (IMouse (mouse_event code x y release)) = true.
Proof. intros X Y. unfold mouse_event. destruct (mouse_kind code release). cbn. unfold in_range. lia. Qed.
Lemma wrapped_coordinate v : 0 <= Z.max 0 (Core.wrap_i32 v) <= 2147483647.
Proof. unfold Core.wrap_i32. pose proof (Z.mod_pos_bound (v + 2147483648) 4294967296). lia. Qed.

Lemma holds_final lone far (g : Z -> bytes -> Parsed) l : (forall c r, holds lone far (g c r)) ->
  holds lone far (match l with c :: r => g c r | [] => None end).
Proof. destruct l; [done|]. intros G. apply G. Qed.
Lemma core_mouse_holds lone l : holds lone 2147483647 (Core.mouse l).
Proof.
  unfold Core.mouse. apply holds_bind; intros l1. apply holds_bind; intros [b l2]. apply holds_bind; intros l3.
  apply holds_bind; intros [x l4]. apply holds_bind; intros l5. apply holds_bind; intros [y l6].
  apply (holds_final _ _ (fun fin rest => if (fin =? 77) || (fin =? 109) then Some (_, rest) else None)). intros c r.
  destruct (_ || _); [|done]. apply holds_mouse, mouse_event_typed; apply wrapped_coordinate.
Qed.
Lemma tui_mouse_holds lone l : holds lone 65535 (Tui.mouse l).
Proof.
  unfold Tui.mouse. apply holds_bind; intros l1. apply holds_bind; intros [b l2]. apply holds_bind; intros l3.
  apply holds_bind; intros [x l4]. apply holds_bind; intros l5. apply holds_bind; intros [y l6].
  apply (holds_final _ _ (fun fin rest => if (fin =? 77) || (fin =? 109) then Some (_, rest) else None)). intros c r.
  destruct (_ || _); [|done]. apply holds_mouse, mouse_event_typed; unfold U16_MAX; lia.
Qed.
Lemma core_kitty_typed lone far code wire : forallb (well_typed lone far) (Core.kitty_event code wire) = true.
Proof.
  unfold Core.kitty_event. destruct (kitty_mods wire) as [[s a] c]. destruct ((code =? 9) && s); [done|].
  pose proof (kitty_names code) as N. destruct (kitty_codepoint_name code); [cbn [forallb well_typed named k_char k_name]; by rewrite N|].
  destruct (is_char code) eqn:C; [|done]. cbn. by rewrite Z.eqb_refl, C.
Qed.
Lemma tui_kitty_typed far code wire : forallb (well_typed true far) (Tui.kitty_event code wire) = true.
Proof.
  unfold Tui.kitty_event. destruct (kitty_mods _) as [[s a] c]. destruct ((code =? 9) && s); [done|].
  pose proof (kitty_names code) as N. destruct (kitty_codepoint_name code); [cbn [forallb well_typed named k_char k_name]; by rewrite N|].
  destruct (is_char code) eqn:C; [|done]. cbn. by rewrite Z.eqb_refl, C.
Qed.

#[export] Instance core_typed : Typed false 2147483647 Core.csi.
Proof.
  intros l. apply holds_default. repeat apply holds_orelse; auto using holds_arrow, holds_backtab, holds_tilde, core_mouse_holds.
  - apply holds_bind; intros l1. apply holds_bind; intros l2. apply holds_bind; intros [m l3]. apply holds_modified.
  - apply holds_bind; intros [code l1]. apply holds_bind; intros [w l2]. apply holds_bind; intros r.
    apply holds_some, core_kitty_typed.
Qed.
#[export] Instance tui_typed : Typed true 65535 Tui.csi.
Proof.
  intros l. apply holds_default. repeat apply holds_orelse; auto using holds_arrow, holds_backtab, holds_tilde, tui_mouse_holds.
  - apply holds_bind; intros l1. apply holds_bind; intros l2. apply holds_bind; intros [m l3]. apply holds_modified.
  - apply holds_bind; intros [code l1]. destruct (match expect 59 l1 with Some _ => _ | None => _ end) as [w l2].
    apply holds_bind; intros r. apply holds_some, tui_kitty_typed.
Qed.

Lemma control_typed lone far c : is_char c = true -> forallb (well_typed lone far) (control_event c) = true.
Proof.
  intros C. unfold control_event. repeat (destruct (_ =? _); [done|]). destruct (in_range 1 26 c) eqn:R.
  - cbn [forallb well_typed named k_char k_name]. rewrite andb_true_r. unfold NAMES. rewrite existsb_app.
    apply orb_true_intro. right. apply existsb_elem. exists [c + 96]. split; [|apply beq_refl].
    unfold LETTERS. apply list_elem_of_fmap. exists (Z.to_nat (c - 1)). unfold in_range in R. split; [f_equal; lia|].
    apply elem_of_seq. lia.
  - destruct (32 <=? c); [|done]. cbn. by rewrite Z.eqb_refl, C.
Qed.
Lemma steps_typed lone far csi `{!Consumes csi, !Typed lone far csi} n : forall l, forallb is_char l = true ->
  forallb (well_typed lone far) (steps csi n l) = true.
Proof.
  induction n as [|n IH]; intros [|c l] V; try done. cbn [steps].
  destruct (plain_step_progress csi c l) as [p E].
  assert (W : forallb (well_typed lone far) (fst (plain_step csi (c :: l))) = true).
  { cbn [plain_step]. cbn [forallb] in V. bprop. destruct (c =? 27); [|by apply control_typed].
    destruct (expect 91 l) as [body|]; [apply csi_typed|]. destruct l as [|d l]; [done|].
    destruct (32 <=? d); [|done]. cbn [forallb] in *. bprop. cbn. rewrite Z.eqb_refl. cbn. by rewrite andb_true_r. }
  destruct (plain_step csi (c :: l)) as [evs rest]. cbn [fst snd] in *. rewrite forallb_app, W. apply IH.
  rewrite E in V. change (c :: p ++ rest) with ((c :: p) ++ rest) in V. rewrite forallb_app in V. bprop. done.
Qed.

(** ** Theorems *)

(** C28: A sequence of key specs, however each is spelled, is sent as bytes that both decoders
    read as what [seen] says of each, in order, so that keys do not run into each other:
    its own key, or, for the chords it lists, the other keys they are taken for.  Only a
    bare escape needs to be the last, and only a shifted slash is refused. *)
Theorem keys_read_back `{Unicode} (order : list bytes -> list bytes) (specs : list bytes)
  (chords : list (list (bytes * Z) * bytes)) :
  (forall l x, x ∈ order l -> x ∈ l) ->
  Forall2 (fun spec c => to_lowercase spec = spec_text (fst c) (snd c)) specs chords ->
  let keys := zip_with (fun spec c => (mods_of (meant spec (fst c)), snd c)) specs chords in
  Forall2 (fun spec c => valid_mods spec (fst c) = true /\ is_supported_base (snd c) = true) specs chords ->
  forallb (fun k => negb (refused k)) keys = true ->
  forallb (fun k => negb (bare_escape k)) (removelast keys) = true ->
  exists outs, Forall2 (fun spec out => resolve_key order spec = Ok out) specs outs
    /\ Core.parse_input (to_utf8 (concat outs)) = concat (seen <$> keys)
    /\ Tui.parse_input (to_utf8 (concat outs)) = concat (seen <$> keys).
Proof.
  intros O S keys V R B.
  assert (X : exists outs, Forall2 (fun spec out => resolve_key order spec = Ok out) specs outs
                           /\ Forall2 (fun k out => exists spec, key_bytes spec k out) keys outs).
  { clear B. unfold keys in *. clear keys. revert R. induction S as [|spec [mods base] specs chords L S IH]; intros R.
    - exists []. split; constructor.
    - inversion V as [|? ? ? ? [Vm Vb] V']; subst. cbn [zip_with forallb fst snd] in *.
      apply andb_prop in R as [R1 R]. apply negb_true_iff in R1. destruct (IH V' R) as (outs & A & K).
      destruct (key_bytes_of spec (mods_of (meant spec mods), base) Vb R1) as [out Ko]. exists (out :: outs). split; constructor; eauto.
      rewrite (resolve_chord order spec mods base) by done. by destruct Ko. }
  destruct X as (outs & A & K). exists outs. split; [done|].
  assert (As : forallb (in_range 0 127) (concat outs) = true).
  { clear -K. induction K as [|k out ks outs [spec []] _ IH]; [done|]. cbn [concat]. by rewrite forallb_app, IH, andb_true_r. }
  apply ascii_text in As as [-> E]. unfold Core.parse_input, Tui.parse_input. rewrite E.
  split; (apply keys_read; [apply _| |exact B]); (eapply Forall2_impl; [exact K|]); intros k out [spec [_ _ H1]].
  all: destruct (bare_escape k); [done|by destruct H1].
Qed.

Lemma keys_read_back_witness :
  let events := [named (str "up") true true false; named [117] true false false; printable [79] false true false;
                 printable [80] false false false; printable [120] false false false; named (str "escape") false false false] in
  exists outs, Forall2 (fun spec out => @resolve_key ascii_unicode (fun l => l) spec = Ok out)
                 [str "Ctrl+Alt-Up"; str "C-u"; str "f1"; str "x"; str "esc"] outs
    /\ Core.parse_input (to_utf8 (concat outs)) = events /\ Tui.parse_input (to_utf8 (concat outs)) = events.
Proof.
  apply (@keys_read_back ascii_unicode (fun l => l) [str "Ctrl+Alt-Up"; str "C-u"; str "f1"; str "x"; str "esc"]
           [([(CTRL, 43); (ALT, 45)], str "up"); ([(str "c", 45)], str "u"); ([], str "f1"); ([], str "x"); ([], str "esc")]);
    [done|repeat constructor..].
Defined.

(** C29: Whatever bytes come, every event is well formed: a key that types something is named
    by what it types, one scalar value, any other is one of the known names, and a mouse
    report is on the grid, its coordinates within their machine type.  (The toolkit's
    decoder alone also reports a key that types the empty text, for a code that is no
    character.) *)
Theorem events_well_typed (data : bytes) :
  forallb (in_range 0 255) data = true ->
  forallb (well_typed false 2147483647) (Core.parse_input data) = true
  /\ forallb (well_typed true 65535) (Tui.parse_input data) = true.
Proof. intros B%lossy_chars. split; by apply steps_typed; try apply _. Qed.
Lemma events_well_typed_witness :
  forallb (well_typed false 2147483647) (Core.parse_input [27; 91; 60; 48; 59; 57; 59; 57; 77; 195; 169]) = true.
Proof. apply events_well_typed. reflexivity. Defined.

(** Both decoders give the same events for the same bytes, as long as no number in them
    overflows: where they differ is a number that is no scalar value or too large for a
    coordinate. *)
Theorem decoders_agree (data : bytes) :
  tame (from_utf8_lossy data) = true -> Core.parse_input data = Tui.parse_input data.
Proof. intros T. apply steps_agree, T. Qed.

Lemma decoders_agree_witness :
  Core.parse_input (esc_ "[<0;10;5M" ++ esc_ "[9;2u" ++ [97; 195; 169])
  = Tui.parse_input (esc_ "[<0;10;5M" ++ esc_ "[9;2u" ++ [97; 195; 169]).
Proof. apply decoders_agree. reflexivity. Defined.

(** A decoder consumes all it is given, whatever that is: more fuel changes nothing. *)
Lemma parse_input_total csi `{!Consumes csi} (s : bytes) (n : nat) :
  (length s <= n)%nat -> steps csi n s = steps csi (length s) s.
Proof. intros L. by apply steps_fuel. Qed.

(** ** Examples *)

(** A key the library sends for a modified delete or a function key is not one it reads. *)
Example shift_delete_unread :
  (resolved "shift+delete", Core.parse_input (esc_ "[3;2~"), Core.parse_input (esc_ "OP"))
  = (Some (esc_ "[3;2~"), [], [printable [79] false true false; printable [80] false false false]).
Proof. reflexivity. Qed.

(** A report with a coordinate of 2^31 wraps around to the far edge. *)
Example coordinate_wraps :
  (x_ (Core.decode_mouse 0 2147483648 1 false), x_ (Core.decode_mouse 0 2147483649 1 false),
   x_ (Tui.decode_mouse 0 2147483648 1 false)) = (2147483647, 0, 65535).
Proof. reflexivity. Qed.

(** A CSI-u code that is no scalar value: an empty key in one decoder, nothing in the other. *)
Example surrogate_code :
  (Core.parse_input (esc_ "[55296u"), Tui.parse_input (esc_ "[55296u"))
  = ([], [printable [] false false false]).
Proof. reflexivity. Qed.
