(* ===== verification/LineEdit.v ===== *)
(** A line being edited: [crates/pty-tui/src/line_edit.rs].  A text is a list of scalar
    values and the cursor counts them.  [alphanumeric] is [char::is_alphanumeric], which
    comes from the standard library's Unicode tables.

    The editor is proved to be one over a line split at the cursor, where each key does
    what its name says. *)
From S2P Require Import Prelude Text Input.

(** ** The field *)

Record TextFieldState : Type := mkField { text : bytes; cursor : nat }.
#[export] Instance TextFieldState_eq_dec : EqDecision TextFieldState.
Proof. solve_decision. Defined.

Definition new_field (t : bytes) : TextFieldState := mkField t (length t).

Section Editing.
Context (alphanumeric : Z -> bool).

Definition is_word_char (c : Z) : bool := alphanumeric c || (c =? 95).

(** One loop of a boundary search: back, or on, while the characters are of this kind. *)
Fixpoint back_while (p : Z -> bool) (chars : bytes) (i : nat) : nat :=
  match i with
  | O => O
  | S j => match chars !! j with
           | Some c => if p c then back_while p chars j else i
           | None => i
           end
  end.
Fixpoint on_while (p : Z -> bool) (l : bytes) : nat :=
  match l with [] => O | c :: l => if p c then S (on_while p l) else O end.

Definition prev_word_boundary (t : bytes) (pos : nat) : nat :=
  let i := Nat.min pos (length t) in
  let i := back_while (fun c => negb (is_word_char c)) t i in
  back_while is_word_char t i.
Definition next_word_boundary (t : bytes) (pos : nat) : nat :=
  let i := Nat.min pos (length t) in
  let i := (i + on_while (fun c => negb (is_word_char c)) (drop i t))%nat in
  (i + on_while is_word_char (drop i t))%nat.

(** [Vec::remove]: out of range it panics; it is called in range. *)
Definition remove (i : nat) (l : bytes) : bytes := take i l ++ drop (S i) l.

Definition apply_text_key (state : TextFieldState) (key : KeyEvent) : option TextFieldState :=
  let chars := text state in
  let len := length chars in
  let cur := Nat.min (cursor state) len in
  let name := k_name key in
  let at_ c := Some (mkField chars c) in
  if beq name (str "backspace") then
    if (cur =? 0)%nat then Some state else Some (mkField (remove (cur - 1) chars) (cur - 1))
  else if beq name (str "delete") then
    if (len <=? cur)%nat then Some state else Some (mkField (remove cur chars) cur)
  else if beq name (str "left") then
    if k_alt key then at_ (prev_word_boundary chars cur)
    else if (cur =? 0)%nat then Some state else at_ (cur - 1)%nat
  else if beq name (str "right") then
    if k_alt key then at_ (next_word_boundary chars cur)
    else if (len <=? cur)%nat then Some state else at_ (cur + 1)%nat
  else
  let ch := k_char key in
  if k_alt key && bool_decide (ch = Some (str "b")) then at_ (prev_word_boundary chars cur)
  else if k_alt key && bool_decide (ch = Some (str "f")) then at_ (next_word_boundary chars cur)
  else if beq name (str "home") || (beq name (str "a") && k_ctrl key) then at_ O
  else if beq name (str "end") || (beq name (str "e") && k_ctrl key) then at_ len
  else if beq name (str "u") && k_ctrl key then Some (mkField (drop cur chars) 0)
  else if beq name (str "w") && k_ctrl key then
    let start := prev_word_boundary chars cur in
    Some (mkField (take start chars ++ drop cur chars) start)
  else if beq name (str "k") && k_ctrl key then Some (mkField (take cur chars) cur)
  else match ch with
       | Some c =>
           if is_nonempty c && negb (k_ctrl key) && negb (k_alt key)
           then Some (mkField (take cur chars ++ c ++ drop cur chars) (cur + length c)%nat)
           else None
       | None => None
       end.

(** ** Rendering *)

Definition render_field_text (t : bytes) (cur : nat) (active : bool) : bytes :=
  if active then let cur := Nat.min cur (length t) in take cur t ++ [9608] ++ drop cur t else t.
(** The spans, each with whether it is inverse. *)
Definition render_field_spans (t : bytes) (cur : nat) (active : bool) : list (bytes * bool) :=
  if active then
    let cur := Nat.min cur (length t) in
    let under := match t !! cur with Some c => [c] | None => [32] end in
    [(take cur t, false); (under, true); (drop (Nat.min (cur + 1) (length t)) t, false)]
  else [(t, false)].

(** ** A line split at the cursor *)

(** What is before the cursor, nearest last, and what is from it on. *)
Record Split : Type := mkSplit { before : bytes; after : bytes }.
Definition view (z : Split) : TextFieldState := mkField (before z ++ after z) (length (before z)).

(** Without the word at the end of a text, and the blanks after it; the other way round. *)
Definition drop_word_end (l : bytes) : bytes :=
  rev (snd (span is_word_char (snd (span (fun c => negb (is_word_char c)) (rev l))))).
Definition to_word_end (l : bytes) : bytes :=
  let '(blanks, rest) := span (fun c => negb (is_word_char c)) l in blanks ++ fst (span is_word_char rest).

(** The keys, over a split line. *)
Inductive Edit : Type :=
| EBackspace | EDelete | ELeft | ERight | EWordLeft | EWordRight | EHome | EEnd | EKillStart | EKillWord | EKillEnd
| EInsert (c : bytes).
Definition edit_of (key : KeyEvent) : option Edit :=
  let nm x := beq (k_name key) (str x) in
  let char_is x := bool_decide (k_char key = Some (str x)) in
  if nm "backspace" then Some EBackspace else if nm "delete" then Some EDelete
  else if nm "left" then Some (if k_alt key then EWordLeft else ELeft)
  else if nm "right" then Some (if k_alt key then EWordRight else ERight)
  else if k_alt key && char_is "b" then Some EWordLeft
  else if k_alt key && char_is "f" then Some EWordRight
  else if nm "home" || (nm "a" && k_ctrl key) then Some EHome
  else if nm "end" || (nm "e" && k_ctrl key) then Some EEnd
  else if nm "u" && k_ctrl key then Some EKillStart
  else if nm "w" && k_ctrl key then Some EKillWord
  else if nm "k" && k_ctrl key then Some EKillEnd
  else match k_char key with
       | Some c => if is_nonempty c && negb (k_ctrl key) && negb (k_alt key) then Some (EInsert c) else None
       | None => None
       end.
Definition edit (z : Split) (e : Edit) : Split :=
  let '(mkSplit b a) := z in
  match e with
  | EBackspace => mkSplit (removelast b) a
  | EDelete => mkSplit b (List.tl a)
  | ELeft => mkSplit (removelast b) (drop (length b - 1) b ++ a)
  | ERight => mkSplit (b ++ take 1 a) (drop 1 a)
  | EWordLeft => let b' := drop_word_end b in mkSplit b' (drop (length b') b ++ a)
  | EWordRight => let w := to_word_end a in mkSplit (b ++ w) (drop (length w) a)
  | EHome => mkSplit [] (b ++ a)
  | EEnd => mkSplit (b ++ a) []
  | EKillStart => mkSplit [] a
  | EKillWord => mkSplit (drop_word_end b) a
  | EKillEnd => mkSplit b []
  | EInsert c => mkSplit (b ++ c) a
  end.

(** ** The boundaries *)

Lemma back_while_spec p l i : (i <= length l)%nat ->
  back_while p l i = length (snd (span p (rev (take i l)))).
Proof.
  induction i as [|i IH]; intros L; [done|]. cbn [back_while].
  destruct (lookup_lt_is_Some_2 l i ltac:(lia)) as [c C]. rewrite C, (take_S_r l i c C), rev_unit. cbn [span].
  destruct (p c).
  - rewrite IH by lia. destruct (span p (rev (take i l))). done.
  - cbn [snd length]. rewrite length_rev, length_take. lia.
Qed.
Lemma on_while_spec p l : on_while p l = length (fst (span p l)).
Proof. induction l as [|c l IH]; cbn; [done|]. destruct (p c); [|done]. rewrite IH. by destruct (span p l). Qed.

Lemma span_take {A} (p : A -> bool) l : fst (span p l) = take (length (fst (span p l))) l.
Proof. rewrite (Input.span_split p l) at 3. by rewrite take_app_length. Qed.
Lemma span_drop {A} (p : A -> bool) l : snd (span p l) = drop (length (fst (span p l))) l.
Proof. rewrite (Input.span_split p l) at 3. by rewrite drop_app_length. Qed.

Lemma drop_word_end_prefix b : exists w, b = drop_word_end b ++ w.
Proof.
  unfold drop_word_end. set (p := fun c => negb (is_word_char c)).
  exists (rev (fst (span is_word_char (snd (span p (rev b))))) ++ rev (fst (span p (rev b)))).
  rewrite <- (rev_involutive b) at 1. rewrite (Input.span_split p (rev b)) at 1. rewrite rev_app_distr.
  rewrite (Input.span_split is_word_char (snd (span p (rev b)))) at 1.
  rewrite rev_app_distr, <- app_assoc. done.
Qed.
Lemma drop_word_end_take b : drop_word_end b = take (length (drop_word_end b)) b.
Proof. destruct (drop_word_end_prefix b) as [w E]. rewrite E at 3. by rewrite take_app_length. Qed.

Lemma prev_boundary b a : prev_word_boundary (b ++ a) (length b) = length (drop_word_end b).
Proof.
  unfold prev_word_boundary, drop_word_end. rewrite length_app, Nat.min_l by lia.
  rewrite (back_while_spec (fun c => negb (is_word_char c)) (b ++ a) (length b)) by (rewrite length_app; lia).
  rewrite take_app_length.
  set (q := snd (span _ (rev b))).
  assert (E : take (length q) (b ++ a) = rev q).
  { assert (X : b = rev q ++ rev (fst (span (fun c => negb (is_word_char c)) (rev b)))).
    { rewrite <- rev_app_distr. unfold q. rewrite <- Input.span_split. by rewrite rev_involutive. }
    rewrite X, <- app_assoc, <- (length_rev q). by rewrite take_app_length. }
  assert (Q : (length q <= length (b ++ a))%nat).
  { apply (f_equal length) in E. rewrite length_take, length_rev, length_app in E. rewrite length_app. lia. }
  rewrite back_while_spec, E, rev_involutive, length_rev by done. done.
Qed.

Lemma next_boundary b a : next_word_boundary (b ++ a) (length b) = (length b + length (to_word_end a))%nat.
Proof.
  unfold next_word_boundary, to_word_end. rewrite length_app, Nat.min_l by lia.
  rewrite drop_app_length, on_while_spec. rewrite <- drop_drop, drop_app_length.
  rewrite on_while_spec, <- span_drop. destruct (span _ a) as [x y]. cbn [fst snd].
  rewrite length_app. lia.
Qed.
Lemma to_word_end_take a : to_word_end a = take (length (to_word_end a)) a.
Proof.
  unfold to_word_end. pose proof (Input.span_split (fun c => negb (is_word_char c)) a) as S.
  destruct (span _ a) as [x y]. cbn [fst snd] in S. subst a.
  rewrite length_app, take_app, take_ge by lia.
  replace (length x + length (fst (span is_word_char y)) - length x)%nat with (length (fst (span is_word_char y))) by lia.
  f_equal. apply span_take.
Qed.

(** ** Theorems *)

(** The field's line split at its cursor. *)
Definition split_at (s : TextFieldState) : Split := mkSplit (take (cursor s) (text s)) (drop (cursor s) (text s)).
Lemma view_split s : (cursor s <= length (text s))%nat -> view (split_at s) = s.
Proof. destruct s as [t c]. cbn. intros C. unfold view. cbn. rewrite take_drop, length_take, Nat.min_l by done. done. Qed.

Lemma removelast_take {A} (b : list A) : removelast b = take (length b - 1) b.
Proof.
  induction b as [|x b _] using rev_ind; [done|].
  rewrite removelast_last, length_app, take_app_le, take_ge by (cbn; lia). done.
Qed.

Lemma view_back b b' w a : b = b' ++ w -> view (mkSplit b' (drop (length b') b ++ a)) = mkField (b ++ a) (length b').
Proof. intros ->. unfold view. cbn. rewrite drop_app_length, app_assoc. done. Qed.

(** What one edit does to the field: the left sides are the code's, the right sides the
    split line's. *)
Lemma do_backspace b a :
  (if (length b =? 0)%nat then mkField (b ++ a) (length b) else mkField (remove (length b - 1) (b ++ a)) (length b - 1))
  = view (edit (mkSplit b a) EBackspace).
Proof.
  destruct b as [|x b _] using rev_ind; [done|]. cbn [edit]. rewrite removelast_last.
  rewrite length_app. cbn [length]. destruct (Nat.eqb_spec (length b + 1) 0); [lia|].
  replace (length b + 1 - 1)%nat with (length b) by lia. unfold view, remove. cbn [before after].
  rewrite <- app_assoc, take_app_length. f_equal. f_equal. rewrite drop_app_ge by lia.
  by replace (S (length b) - length b)%nat with 1%nat by lia.
Qed.
Lemma do_delete b a :
  (if (length b + length a <=? length b)%nat then mkField (b ++ a) (length b) else mkField (remove (length b) (b ++ a)) (length b))
  = view (edit (mkSplit b a) EDelete).
Proof.
  cbn [edit]. destruct a as [|x a]; cbn [length].
  - rewrite Nat.add_0_r, Nat.leb_refl. done.
  - destruct (Nat.leb_spec (length b + S (length a)) (length b)); [lia|].
    unfold view, remove. cbn [before after List.tl]. rewrite take_app_length, drop_app_ge by lia.
    by replace (S (length b) - length b)%nat with 1%nat by lia.
Qed.
Lemma do_left b a :
  (if (length b =? 0)%nat then mkField (b ++ a) (length b) else mkField (b ++ a) (length b - 1))
  = view (edit (mkSplit b a) ELeft).
Proof.
  cbn [edit]. rewrite removelast_take. destruct (Nat.eqb_spec (length b) 0) as [Z|Z].
  - apply nil_length_inv in Z as ->. done.
  - unfold view. cbn [before after]. rewrite app_assoc, take_drop, length_take. f_equal. lia.
Qed.
Lemma do_right b a :
  (if (length b + length a <=? length b)%nat then mkField (b ++ a) (length b) else mkField (b ++ a) (length b + 1))
  = view (edit (mkSplit b a) ERight).
Proof.
  cbn [edit]. destruct a as [|x a]; cbn [length].
  - rewrite Nat.add_0_r, Nat.leb_refl. unfold view. cbn. by rewrite !app_nil_r.
  - destruct (Nat.leb_spec (length b + S (length a)) (length b)); [lia|].
    unfold view. cbn. rewrite drop_0, <- app_assoc, length_app. done.
Qed.
Lemma do_word_left b a : mkField (b ++ a) (length (drop_word_end b)) = view (edit (mkSplit b a) EWordLeft).
Proof.
  cbn [edit]. destruct (drop_word_end_prefix b) as [w W]. unfold view. cbn [before after]. cbv zeta.
  revert W. generalize (drop_word_end b). intros b' ->. by rewrite drop_app_length, app_assoc.
Qed.
Lemma do_word_right b a : mkField (b ++ a) (length b + length (to_word_end a)) = view (edit (mkSplit b a) EWordRight).
Proof.
  cbn [edit]. unfold view. cbn [before after]. rewrite <- app_assoc, length_app. f_equal. f_equal.
  rewrite to_word_end_take at 1. by rewrite take_drop.
Qed.
Lemma do_kill_word b a :
  mkField (take (length (drop_word_end b)) (b ++ a) ++ drop (length b) (b ++ a)) (length (drop_word_end b))
  = view (edit (mkSplit b a) EKillWord).
Proof.
  cbn [edit]. unfold view. cbn [before after]. rewrite drop_app_length. f_equal. f_equal.
  destruct (drop_word_end_prefix b) as [w W]. revert W. generalize (drop_word_end b). intros b' ->.
  by rewrite <- app_assoc, take_app_length.
Qed.

Lemma if_some {A} (c : bool) (x y : A) : (if c then Some x else Some y) = Some (if c then x else y).
Proof. by destruct c. Qed.

(** Each key on a split line, with the cursor where the field says. *)
Lemma key_on_view b a key :
  apply_text_key (view (mkSplit b a)) key = (fun e => view (edit (mkSplit b a) e)) <$> edit_of key.
Proof.
  change (view (mkSplit b a)) with (mkField (b ++ a) (length b)) at 1.
  unfold apply_text_key, edit_of. cbn [text cursor].
  rewrite length_app, Nat.min_l, prev_boundary, next_boundary by lia.
  rewrite !if_some, do_backspace, do_delete, do_left, do_right, do_word_left, do_word_right, do_kill_word.
  rewrite !drop_app_length, !take_app_length.
  repeat (case_goal; [solve [done | destruct (k_alt key); done | cbn; unfold view; cbn; rewrite ?app_nil_r, ?length_app; done]|]).
  destruct (k_char key) as [c|]; [|done].
  destruct (is_nonempty c && negb (k_ctrl key) && negb (k_alt key)); [|done].
  cbn. unfold view. cbn. rewrite <- app_assoc, length_app. done.
Qed.

(** C30: The editor is the one on split lines: each key does what its name says to the text on
    the two sides of the cursor, any other key is left to the caller, and the cursor stays
    within the text. *)
Theorem editor_refines (s : TextFieldState) (key : KeyEvent) :
  (cursor s <= length (text s))%nat ->
  apply_text_key s key = (fun e => view (edit (split_at s) e)) <$> edit_of key
  /\ forall s', apply_text_key s key = Some s' -> (cursor s' <= length (text s'))%nat.
Proof.
  intros C. pose proof (key_on_view (take (cursor s) (text s)) (drop (cursor s) (text s)) key) as K.
  change (mkSplit _ _) with (split_at s) in K. rewrite (view_split s C) in K. split; [exact K|].
  rewrite K. intros s'. destruct (edit_of key) as [e|]; [|done].
  intros [= <-]. unfold view. cbn. rewrite length_app. lia.
Qed.

(** An active field shows its whole text, the character at the cursor inverse. *)
Lemma spans_show_text t cur :
  (cur <= length t)%nat ->
  concat (fst <$> render_field_spans t cur true) = t ++ (if (cur =? length t)%nat then [32] else [])
  /\ fst <$> List.filter snd (render_field_spans t cur true) = [match drop cur t with c :: _ => [c] | [] => [32] end].
Proof.
  intros C. unfold render_field_spans. rewrite Nat.min_l by done. cbn.
  destruct (Nat.eqb_spec cur (length t)) as [->|N].
  - rewrite lookup_ge_None_2, !drop_ge, take_ge by lia. done.
  - destruct (lookup_lt_is_Some_2 t cur ltac:(lia)) as [c L]. rewrite L, (drop_S t c cur L).
    rewrite Nat.min_l by lia. rewrite Nat.add_1_r, !app_nil_r. split; [|done].
    cbn. rewrite <- (drop_S t c cur L). apply take_drop.
Qed.

(** What is typed can be taken back. *)
Lemma backspace_undoes (s : Split) (c : Z) : edit (edit s (EInsert [c])) EBackspace = s.
Proof. destruct s as [b a]. cbn. by rewrite removelast_last. Qed.
End Editing.

(** ** Witness *)

Definition demo_field : TextFieldState := mkField (str "one two") 7.
Definition ctrl_key (x : string) : KeyEvent := mkKey (str x) None true false false.
Lemma editor_refines_witness :
  apply_text_key is_ascii_alphanumeric demo_field (ctrl_key "w") = Some (mkField (str "one ") 4).
Proof. rewrite (proj1 (editor_refines is_ascii_alphanumeric demo_field (ctrl_key "w") (le_n 7))). reflexivity. Defined.

Example word_motion :
  (prev_word_boundary is_ascii_alphanumeric (str "one two  ") 9, next_word_boundary is_ascii_alphanumeric (str "one two") 3)
  = (4, 7)%nat.
Proof. reflexivity. Qed.
