(* ===== verification/Scroll.v ===== *)
(** The scroll region behind selectable lists and the grouped list's rows:
    [crates/pty-tui/src/scroll.rs].  Offsets and counts are [usize]s far below their
    bound. *)
From S2P Require Import Prelude.
#[local] Open Scope nat_scope.

Record ScrollRegion : Type := mkRegion { offset : nat; selected : nat; total : nat; viewport : nat }.
#[export] Instance ScrollRegion_eta : Settable ScrollRegion := fun r =>
  mkRegion (offset r) (selected r) (total r) (viewport r).
#[export] Instance ScrollRegion_eq_dec : EqDecision ScrollRegion.
Proof. solve_decision. Defined.

Definition new (total viewport : nat) : ScrollRegion := mkRegion 0 0 total viewport.

Definition ensure_visible (r : ScrollRegion) : ScrollRegion :=
  let o := if (selected r <? offset r) then selected r
           else if (offset r + viewport r <=? selected r) then selected r + 1 - viewport r
           else offset r in
  r <| offset := Nat.min o (total r - viewport r) |>.

Definition update (total_ : nat) (viewport_ : option nat) (r : ScrollRegion) : ScrollRegion :=
  ensure_visible (r <| total := total_ |> <| viewport := default (viewport r) viewport_ |>
                    <| selected := Nat.min (selected r) (total_ - 1) |>).
Definition scroll_up (r : ScrollRegion) : ScrollRegion :=
  if selected r =? 0 then r else ensure_visible (r <| selected := selected r - 1 |>).
Definition scroll_down (r : ScrollRegion) : ScrollRegion :=
  if total r <=? selected r + 1 then r else ensure_visible (r <| selected := selected r + 1 |>).
Definition page_up (r : ScrollRegion) : ScrollRegion := ensure_visible (r <| selected := selected r - viewport r |>).
Definition page_down (r : ScrollRegion) : ScrollRegion :=
  ensure_visible (r <| selected := Nat.min (selected r + viewport r) (total r - 1) |>).
Definition to_top (r : ScrollRegion) : ScrollRegion := ensure_visible (r <| selected := 0 |>).
Definition to_bottom (r : ScrollRegion) : ScrollRegion := ensure_visible (r <| selected := total r - 1 |>).

(** [&items\[start..end\]]: it panics when the end comes before the start. *)
Definition slice {A} (start end_ : nat) (l : list A) : option (list A) :=
  if end_ <? start then None else Some (take (end_ - start) (drop start l)).
Definition visible_slice {A} (r : ScrollRegion) (items : list A) : option (list A) :=
  slice (Nat.min (offset r) (length items)) (Nat.min (offset r + viewport r) (length items)) items.

(** ** Grouped lists *)

Inductive GroupedRow : Type := Spacer | Header (group : nat) | Item (group item index : nat) (is_selected : bool).
Record GroupedLayout : Type := mkLayout { rows : list GroupedRow; g_offset : nat; g_total : nat }.

(** The state of the loop over groups: the rows so far, the next index, the row of the
    selected item.  A group is given by how many items it has. *)
Record Walk : Type := mkWalk { w_rows : list GroupedRow; w_index : nat; w_row : nat }.
Definition add_item (sel group : nat) (w : Walk) (item : nat) : Walk :=
  let here := w_index w =? sel in
  mkWalk (w_rows w ++ [Item group item (w_index w) here]) (S (w_index w)) (if here then length (w_rows w) else w_row w).
Definition add_group (sel : nat) (show_headers : bool) (w : Walk) (g : nat * nat) : Walk :=
  let '(group, items) := g in
  let rows_ :=
    if show_headers then w_rows w ++ (match w_rows w with [] => [] | _ => [Spacer] end) ++ [Header group] else w_rows w in
  fold_left (add_item sel group) (seq 0 items) (mkWalk rows_ (w_index w) (w_row w)).
Definition layout (r : ScrollRegion) (groups : list nat) (show_headers : bool) : GroupedLayout :=
  let w := fold_left (add_group (selected r) show_headers) (imap pair groups) (mkWalk [] 0 0) in
  mkLayout (w_rows w) (if viewport r <=? w_row w then w_row w + 2 - viewport r else 0) (w_index w).
Definition visible (l : GroupedLayout) (viewport_ : nat) : option (list GroupedRow) :=
  slice (Nat.min (g_offset l) (length (rows l))) (Nat.min (g_offset l + viewport_) (length (rows l))) (rows l).
Definition find_item (pred : nat -> nat -> bool) (l : GroupedLayout) : option nat :=
  head (omap (fun row => match row with Item g i index _ => if pred g i then Some index else None | _ => None end) (rows l)).

(** ** What a region keeps *)

(** The selection is an item, on a row of the viewport, and the viewport does not go past
    the end of a list that fills it. *)
Record Shown (r : ScrollRegion) : Prop := {
  selects : selected r < total r;
  above : offset r <= selected r;
  below : selected r < offset r + viewport r;
  filled : offset r <= total r - viewport r }.

Lemma ensure_visible_shown r : selected r < total r -> 0 < viewport r -> Shown (ensure_visible r).
Proof.
  intros S V. unfold ensure_visible. set (o := if _ <? _ then _ else _).
  assert (O : o <= selected r < o + viewport r).
  { unfold o. destruct (Nat.ltb_spec (selected r) (offset r)); [lia|].
    destruct (Nat.leb_spec (offset r + viewport r) (selected r)); lia. }
  split; cbn; lia.
Qed.

(** What a program does with a region; the list may change its length under it. *)
Inductive Move : Type := MUpdate (total : nat) (viewport : option nat) | MUp | MDown | MPageUp | MPageDown | MTop | MBottom.
Definition move (m : Move) (r : ScrollRegion) : ScrollRegion :=
  match m with
  | MUpdate t v => update t v r | MUp => scroll_up r | MDown => scroll_down r | MPageUp => page_up r
  | MPageDown => page_down r | MTop => to_top r | MBottom => to_bottom r
  end.
(** The list is not empty, and its viewport has a row. *)
Definition sensible (m : Move) : bool :=
  match m with MUpdate t v => (0 <? t) && (0 <? default 1 v) | _ => true end.

Lemma move_shown m r : sensible m = true -> Shown r -> Shown (move m r).
Proof.
  intros G [S A B F]. destruct m; cbn [move sensible] in *.
  - apply andb_prop in G as [T V]. apply Nat.ltb_lt in T, V. apply ensure_visible_shown; cbn; [lia|].
    destruct viewport0; cbn in *; lia.
  - unfold scroll_up. destruct (selected r =? 0); [done|]. apply ensure_visible_shown; cbn; lia.
  - unfold scroll_down. destruct (Nat.leb_spec (total r) (selected r + 1)); [done|]. apply ensure_visible_shown; cbn; lia.
  - apply ensure_visible_shown; cbn; lia.
  - apply ensure_visible_shown; cbn; lia.
  - apply ensure_visible_shown; cbn; lia.
  - apply ensure_visible_shown; cbn; lia.
Qed.

(** Where the selection goes. *)
Definition destination (m : Move) (r : ScrollRegion) : nat :=
  match m with
  | MUpdate t _ => Nat.min (selected r) (t - 1) | MUp => selected r - 1
  | MDown => Nat.min (selected r + 1) (total r - 1) | MPageUp => selected r - viewport r
  | MPageDown => Nat.min (selected r + viewport r) (total r - 1) | MTop => 0 | MBottom => total r - 1
  end.
Lemma move_destination m r : Shown r -> selected (move m r) = destination m r.
Proof.
  intros [S A B F]. destruct m; cbn; try done.
  - unfold scroll_up. destruct (Nat.eqb_spec (selected r) 0); cbn; lia.
  - unfold scroll_down. destruct (Nat.leb_spec (total r) (selected r + 1)); cbn; lia.
Qed.

(** ** The rows of a grouped list *)

Definition index_of (row : GroupedRow) : option nat := match row with Item _ _ i _ => Some i | _ => None end.
Definition flagged (sel : nat) (row : GroupedRow) : bool :=
  match row with Item _ _ i s => Bool.eqb s (i =? sel) | _ => true end.

(** A walk has numbered its items in order, and knows the row of the selected one. *)
Record Numbered (sel : nat) (w : Walk) : Prop := {
  numbers : omap index_of (w_rows w) = seq 0 (w_index w);
  flags : forallb (flagged sel) (w_rows w) = true;
  found : sel < w_index w -> exists g i, w_rows w !! w_row w = Some (Item g i sel true) }.

Lemma add_item_numbered sel g w i : Numbered sel w -> Numbered sel (add_item sel g w i).
Proof.
  intros [N F S]. unfold add_item. split; cbn [w_rows w_index w_row].
  - rewrite omap_app, N, seq_S. done.
  - rewrite forallb_app, F. cbn. by rewrite eqb_reflx.
  - intros L. destruct (Nat.eqb_spec (w_index w) sel) as [->|E].
    + exists g, i. by rewrite lookup_app_r, Nat.sub_diag by done.
    + destruct S as (g' & i' & S); [lia|]. exists g', i'. by apply lookup_app_l_Some.
Qed.
Lemma add_items_numbered sel g l : forall w, Numbered sel w -> Numbered sel (fold_left (add_item sel g) l w).
Proof. induction l as [|i l IH]; intros w N; [done|]. by apply IH, add_item_numbered. Qed.
Lemma add_items_index sel g l : forall w, w_index (fold_left (add_item sel g) l w) = w_index w + length l.
Proof. induction l as [|i l IH]; intros w; cbn; [lia|]. rewrite IH. cbn. lia. Qed.

Lemma add_group_numbered sel h w g : Numbered sel w -> Numbered sel (add_group sel h w g).
Proof.
  intros [N F S]. destruct g as [g n]. unfold add_group. apply add_items_numbered. destruct h; [|by split].
  assert (X : exists ex, omap index_of ex = [] /\ forallb (flagged sel) ex = true /\
    (match w_rows w with [] => [] | _ => [Spacer] end) ++ [Header g] = ex).
  { destruct (w_rows w); eexists; (split_and!; [| |reflexivity]; reflexivity). }
  destruct X as (ex & X1 & X2 & ->). split; cbn.
  - by rewrite omap_app, N, X1, app_nil_r.
  - by rewrite forallb_app, F, X2.
  - intros L. destruct (S L) as (g' & i' & S'). exists g', i'. by apply lookup_app_l_Some.
Qed.
Lemma add_groups_numbered sel h l : forall w, Numbered sel w ->
  Numbered sel (fold_left (add_group sel h) l w)
  /\ w_index (fold_left (add_group sel h) l w) = w_index w + sum_list (snd <$> l).
Proof.
  induction l as [|[g n] l IH]; intros w N; cbn [fold_left fmap list_fmap sum_list]; [split; [done|cbn; lia]|].
  destruct (IH _ (add_group_numbered sel h w (g, n) N)) as [K1 K2]. split; [done|]. rewrite K2.
  unfold add_group. rewrite add_items_index, length_seq. cbn. lia.
Qed.

Lemma slice_elem {A} start n (l : list A) k x :
  l !! k = Some x -> start <= k < start + n ->
  exists out, slice (Nat.min start (length l)) (Nat.min (start + n) (length l)) l = Some out /\ x ∈ out /\ length out <= n.
Proof.
  intros L K. pose proof (lookup_lt_Some _ _ _ L) as B. unfold slice. rewrite (Nat.min_l start) by lia.
  destruct (Nat.ltb_spec (Nat.min (start + n) (length l)) start); [lia|]. eexists. split; [done|]. split.
  - apply list_elem_of_lookup. exists (k - start). rewrite lookup_take_lt by lia. rewrite lookup_drop.
    by replace (start + (k - start)) with k by lia.
  - rewrite length_take. lia.
Qed.

(** ** Theorems *)

(** Whatever keys are pressed and however the list changes, as long as it has an item and
    its viewport a row, the selected item is one of the rows drawn. *)
Theorem selection_stays_visible {A} (moves : list Move) (n v : nat) (items : list A) :
  0 < n -> 0 < v -> forallb sensible moves = true ->
  let r := fold_left (fun r m => move m r) moves (new n v) in
  length items = total r ->
  Shown r /\ exists drawn x, visible_slice r items = Some drawn /\ items !! selected r = Some x /\ x ∈ drawn
            /\ length drawn <= viewport r.
Proof.
  intros N V M r L. assert (S : Shown r).
  { unfold r. clear L r. assert (S0 : Shown (new n v)) by (split; cbn; lia). revert S0 M. generalize (new n v).
    induction moves as [|m moves IH]; intros r S M; [done|].
    cbn in M |- *. apply andb_prop in M as [M1 M2]. apply IH; [by apply move_shown|done]. }
  split; [done|]. destruct S as [S A1 B F].
  destruct (lookup_lt_is_Some_2 items (selected r) ltac:(lia)) as [x X].
  destruct (slice_elem (offset r) (viewport r) items (selected r) x X ltac:(lia)) as (out & O & E & K).
  exists out, x. done.
Qed.

(** A grouped list numbers its items in order over all groups, marks exactly the selected
    one, and draws it when the viewport has at least two rows. *)
Theorem grouped_selection_drawn (r : ScrollRegion) (groups : list nat) (show_headers : bool) :
  let l := layout r groups show_headers in
  omap index_of (rows l) = seq 0 (g_total l) /\ g_total l = sum_list groups
  /\ forallb (flagged (selected r)) (rows l) = true
  /\ (2 <= viewport r -> selected r < g_total l ->
      exists drawn g i, visible l (viewport r) = Some drawn /\ Item g i (selected r) true ∈ drawn
        /\ length drawn <= viewport r).
Proof.
  unfold layout. cbn zeta.
  destruct (add_groups_numbered (selected r) show_headers (imap pair groups) (mkWalk [] 0 0)) as [[N F S] T].
  { split; [done|done|]. cbn. lia. }
  set (w := fold_left _ _ _) in *. cbn [rows g_total g_offset]. split_and!; [done| |done|].
  - rewrite T. cbn. rewrite fmap_imap. f_equal. clear. generalize O.
    induction groups as [|g groups IH]; intros k; [done|]. cbn. f_equal.
    rewrite <- (IH 0) at 2. done.
  - intros V L. destruct (S L) as (g & i & R). unfold visible. cbn [rows g_offset].
    destruct (slice_elem (if viewport r <=? w_row w then w_row w + 2 - viewport r else 0) (viewport r) (w_rows w) (w_row w) _ R)
      as (out & O & E & K).
    { destruct (Nat.leb_spec (viewport r) (w_row w)); lia. }
    exists out, g, i. done.
Qed.

(** ** Witnesses and examples *)

Definition demo_moves : list Move := [MPageDown; MDown; MUpdate 7 (Some 2); MBottom; MUp].
Lemma selection_stays_visible_witness :
  Shown (fold_left (fun r m => move m r) demo_moves (new 20 4)).
Proof. apply (selection_stays_visible demo_moves 20 4 (seq 0 7)); [lia|lia|reflexivity|reflexivity]. Defined.

Lemma grouped_selection_drawn_witness :
  exists drawn g i, visible (layout (mkRegion 0 3 5 2) [2; 3] true) 2 = Some drawn /\ Item g i 3 true ∈ drawn
    /\ length drawn <= 2.
Proof. apply (grouped_selection_drawn (mkRegion 0 3 5 2) [2; 3] true); cbn; lia. Defined.

(** With a viewport of one row the row after the selected one is drawn. *)
Example one_row_misses :
  visible (layout (mkRegion 3 3 5 1) [5] false) 1 = Some [Item 0 4 4 false].
Proof. reflexivity. Qed.
Example two_rows_show :
  visible (layout (mkRegion 3 3 5 2) [5] false) 2 = Some [Item 0 3 3 true; Item 0 4 4 false].
Proof. reflexivity. Qed.
