(* ===== verification/Cells.v ===== *)
(** Texts in terminal cells: [crates/pty-tui/src/text.rs].  The width of a character is
    the code's own table. *)
From S2P Require Import Prelude Text.

Definition in_any (code : Z) (ranges : list (Z * Z)) : bool := existsb (fun r => in_range (fst r) (snd r) code) ranges.
Definition WIDE_SYMBOLS : list (Z * Z) :=
  [(9748, 9749); (9800, 9811); (9855, 9855); (9875, 9875); (9888, 9889); (9898, 9899); (9917, 9918); (9924, 9925);
   (9940, 9940); (9962, 9962); (9970, 9971); (9973, 9973); (9978, 9978); (9981, 9981)].
Definition WIDE : list (Z * Z) :=
  [(11904, 40959); (44032, 55215); (63744, 64255); (65040, 65135); (65281, 65376); (65504, 65510); (126976, 130047);
   (131072, 262143)].
Definition char_width (code : Z) : nat :=
  if code <? 32 then 0
  else if code <? 9472 then 1
  else if in_range 9472 9727 code then 1
  else if in_range 9728 9983 code then (if in_any code WIDE_SYMBOLS then 2 else 1)
  else if in_range 9984 10175 code then 1
  else if in_any code WIDE then 2 else 1.

(** One pass that drops each [ESC], [\[] and what follows up to a final character. *)
Fixpoint strip_from (in_csi : bool) (s : bytes) : bytes :=
  match s with
  | [] => []
  | c :: s' =>
      if in_csi then strip_from (negb (in_range 64 126 c)) s'
      else match s' with
           | d :: s'' => if (c =? 27) && (d =? 91) then strip_from true s'' else c :: strip_from false s'
           | [] => [c]
           end
  end.
Definition strip_ansi (s : bytes) : bytes := strip_from false s.

Definition text_width (s : bytes) : nat := sum_list (char_width <$> s).
Definition visible_width (s : bytes) : nat := text_width (strip_ansi s).

(** The characters of [truncate] that fit before the ellipsis. *)
Fixpoint fitting (w max_width : nat) (s : bytes) : bytes :=
  match s with
  | [] => []
  | c :: s => if (max_width <? w + char_width c + 1)%nat then [] else c :: fitting (w + char_width c) max_width s
  end.
Definition truncate (s : bytes) (max_width : nat) : bytes :=
  if (visible_width s <=? max_width)%nat then s
  else if (max_width <=? 1)%nat then take max_width s
  else fitting 0 max_width s ++ [8230].

(** The inner loop of [wrap_text]: how many characters from [pos] the line takes, and the
    last place to break it, both counted from [pos]. *)
Fixpoint fill (max_width line_width n : nat) (last_break : option nat) (l : bytes) : nat * option nat :=
  match l with
  | [] => (n, last_break)
  | ch :: l =>
      let w := char_width ch in
      if (max_width <? line_width + w)%nat then (n, last_break)
      else
        let last_break := if (ch =? 32) && (0 <? n)%nat then Some n else last_break in
        let last_break := if (2 <=? w)%nat then Some (S n) else last_break in
        fill max_width (line_width + w) (S n) last_break l
  end.
Fixpoint wrap_lines (fuel max_width pos : nat) (l : bytes) : list (bytes * nat) :=
  match fuel, l with
  | O, _ | _, [] => []
  | S fuel, _ =>
      let '(line_end, last_break) := fill max_width 0 0 None l in
      if (length l <=? line_end)%nat then [(l, pos)]
      else
        let n := match last_break with
                 | Some b => if (0 <? b)%nat then b else if (line_end =? 0)%nat then 1%nat else line_end
                 | None => if (line_end =? 0)%nat then 1%nat else line_end
                 end in
        (take n l, pos) :: wrap_lines fuel max_width (pos + n) (drop n l)
  end.
Definition wrap_text (s : bytes) (max_width : nat) : list bytes * list nat :=
  if (max_width =? 0)%nat then ([s], [0%nat])
  else let ls := wrap_lines (length s) max_width 0 s in
       match ls with [] => ([[]], [0%nat]) | _ => (fst <$> ls, snd <$> ls) end.

Inductive Align : Type := ALeft | ARight | ACenter.
Definition spaces (n : nat) : bytes := replicate n 32.
Definition pad (s : bytes) (width : nat) (align : Align) : bytes :=
  let len := visible_width s in
  if (width <=? len)%nat then s
  else
    let p := (width - len)%nat in
    match align with
    | ARight => spaces p ++ s
    | ACenter => spaces (p / 2) ++ s ++ spaces ((p + 1) / 2)
    | ALeft => s ++ spaces p
    end.

(** ** Widths *)

Lemma text_width_app a b : text_width (a ++ b) = (text_width a + text_width b)%nat.
Proof. unfold text_width. rewrite fmap_app. induction (char_width <$> a) as [|x l IH]; cbn; [done|]. rewrite IH. lia. Qed.
Lemma text_width_cons c s : text_width (c :: s) = (char_width c + text_width s)%nat.
Proof. done. Qed.
Lemma text_width_take n m s : (n <= m)%nat -> (text_width (take n s) <= text_width (take m s))%nat.
Proof.
  intros L. rewrite <- (take_drop n (take m s)), take_take, Nat.min_l by done. rewrite text_width_app. lia.
Qed.
Lemma spaces_width n : text_width (spaces n) = n.
Proof. unfold spaces. induction n as [|n IH]; [done|]. cbn [replicate]. rewrite text_width_cons, IH. done. Qed.

Lemma strip_width n : forall s m, (length s <= n)%nat -> (text_width (strip_from m s) <= text_width s)%nat.
Proof.
  induction n as [|n IH]; intros [|c s] m L; cbn [length] in L; try (cbn; lia). cbn [strip_from]. rewrite text_width_cons.
  destruct m.
  - specialize (IH s (negb (in_range 64 126 c)) ltac:(lia)). lia.
  - destruct s as [|d s]; [done|]. cbn [length] in L. destruct ((c =? 27) && (d =? 91)).
    + rewrite text_width_cons. specialize (IH s true ltac:(lia)). lia.
    + rewrite text_width_cons. specialize (IH (d :: s) false ltac:(cbn; lia)). lia.
Qed.
Lemma visible_le_width s : (visible_width s <= text_width s)%nat.
Proof. by apply (strip_width (length s)). Qed.

Lemma strip_plain s : 27 ∉ s -> strip_ansi s = s.
Proof.
  unfold strip_ansi. induction s as [|c s IH]; [done|]. intros [N1 N2]%not_elem_of_cons.
  cbn [strip_from]. destruct s as [|d s]; [done|]. destruct (Z.eqb_spec c 27); [congruence|]. cbn [andb].
  by rewrite IH.
Qed.

Lemma fitting_spec mw s : forall w, (w < mw)%nat ->
  fitting w mw s `prefix_of` s /\ (w + text_width (fitting w mw s) + 1 <= mw)%nat.
Proof.
  induction s as [|c s IH]; intros w L; cbn [fitting]; [split; [done|cbn; lia]|].
  destruct (Nat.ltb_spec mw (w + char_width c + 1)); [split; [apply prefix_nil|cbn; lia]|].
  destruct (IH (w + char_width c)%nat ltac:(lia)) as [P W]. split; [by apply prefix_cons|].
  rewrite text_width_cons. lia.
Qed.

(** ** Wrapping *)

Lemma fill_spec mw l : forall lw n lb, (lw <= mw)%nat ->
  let '(n', lb') := fill mw lw n lb l in
  (n <= n' <= n + length l)%nat /\ (lw + text_width (take (n' - n) l) <= mw)%nat
  /\ forall b, lb' = Some b -> lb = Some b \/ (n <= b <= n')%nat.
Proof.
  induction l as [|c l IH]; intros lw n lb L; cbn [fill].
  - rewrite Nat.sub_diag. cbn. split_and!; try lia. by left.
  - destruct (Nat.ltb_spec mw (lw + char_width c)).
    + rewrite Nat.sub_diag. cbn. split_and!; try lia. by left.
    + set (lb1 := if (c =? 32) && (0 <? n)%nat then Some n else lb).
      set (lb2 := if (2 <=? char_width c)%nat then Some (S n) else lb1).
      assert (B : forall b, lb2 = Some b -> lb = Some b \/ (n <= b <= S n)%nat).
      { intros b. unfold lb2, lb1. destruct (2 <=? char_width c)%nat; [intros [= <-]; lia|].
        destruct ((c =? 32) && (0 <? n)%nat); [intros [= <-]; lia|by left]. }
      specialize (IH (lw + char_width c)%nat (S n) lb2 ltac:(lia)).
      destruct (fill mw (lw + char_width c) (S n) lb2 l) as [n' lb']. destruct IH as (R & W & K).
      split_and!; cbn [length]; try lia.
      * replace (n' - n)%nat with (S (n' - S n)) by lia. cbn [take]. rewrite text_width_cons. lia.
      * intros b E. destruct (K b E) as [E2|]; [|lia]. destruct (B b E2); [by left|lia].
Qed.

(** A line holds, unless it is one character that is itself too wide. *)
Definition fits (mw : nat) (line : bytes) : Prop := (text_width line <= mw)%nat \/ length line = 1%nat.

(** The lines are the text in order, each where its offset says. *)
Lemma wrap_lines_spec fuel mw : forall pos l, (length l <= fuel)%nat ->
  concat (fst <$> wrap_lines fuel mw pos l) = l
  /\ Forall (fun lp => fits mw (fst lp) /\ fst lp <> []) (wrap_lines fuel mw pos l)
  /\ forall i line o, wrap_lines fuel mw pos l !! i = Some (line, o) ->
       (o = pos + length (concat (fst <$> take i (wrap_lines fuel mw pos l))))%nat.
Proof.
  induction fuel as [|fuel IH]; intros pos l L.
  { destruct l; [|cbn in L; lia]. split_and!; [done|constructor|done]. }
  destruct l as [|c l']; [split_and!; [done|constructor|done]|].
  cbn [wrap_lines]. set (l := c :: l') in *.
  pose proof (fill_spec mw l 0 0 None (Nat.le_0_l _)) as F. destruct (fill mw 0 0 None l) as [e lb].
  destruct F as (R & W & B). rewrite Nat.sub_0_r in W. cbn [Nat.add] in *.
  destruct (Nat.leb_spec (length l) e).
  { rewrite take_ge in W by done. split_and!.
    - cbn. by rewrite app_nil_r.
    - constructor; [split; [by left|done]|constructor].
    - intros [|i] line o; [|done]. intros [= <- <-]. cbn. lia. }
  set (n := match lb with Some b => _ | None => _ end).
  assert (N : (1 <= n <= length l)%nat /\ (n <= e \/ n = 1)%nat).
  { unfold n. destruct lb as [b|].
    - destruct (B b eq_refl) as [|Bb]; [done|]. destruct (Nat.ltb_spec 0 b); [lia|].
      destruct (Nat.eqb_spec e 0); subst l; cbn [length] in *; lia.
    - destruct (Nat.eqb_spec e 0); subst l; cbn [length] in *; lia. }
  destruct (IH (pos + n)%nat (drop n l)) as (C & Fs & O); [rewrite length_drop; lia|].
  split_and!.
  - cbn [fmap list_fmap concat]. rewrite C. apply take_drop.
  - constructor; [|exact Fs]. cbn [fst]. split.
    + destruct N as [N [E|E]]; [left|right].
      * etrans; [apply (text_width_take n e l E)|exact W].
      * rewrite length_take. lia.
    + intros X. apply (f_equal length) in X. rewrite length_take in X. cbn [length] in X. lia.
  - intros [|i] line o; cbn [lookup list_lookup take fmap list_fmap concat].
    + intros [= <- <-]. cbn. lia.
    + intros E. rewrite (O i line o E). cbn [fst]. rewrite length_app, length_take. lia.
Qed.

(** ** Theorems *)

(** Wrapping loses and adds nothing: the lines joined are the text, each starts where its
    offset says and none is empty, and each fits the width unless it is one character
    that is too wide on its own. *)
Theorem wrap_text_whole (s : bytes) (mw : nat) :
  let '(lines, offsets) := wrap_text s mw in
  concat lines = s /\ length lines = length offsets
  /\ (forall i line o, lines !! i = Some line -> offsets !! i = Some o -> o = length (concat (take i lines)))
  /\ ((0 < mw)%nat -> Forall (fits mw) lines).
Proof.
  unfold wrap_text. destruct (Nat.eqb_spec mw 0) as [->|M].
  { cbn. rewrite app_nil_r. split_and!; try done; [|lia]. intros [|i] line o; [|done]. intros _ [= <-]. done. }
  destruct (wrap_lines_spec (length s) mw 0 s (Nat.le_refl _)) as (C & F & O).
  destruct (wrap_lines (length s) mw 0 s) as [|lp ls].
  { cbn in C. subst s. split_and!; try done; [|intros _; constructor; [left; cbn; lia|constructor]].
    intros [|i] line o; [|done]. intros _ [= <-]. done. }
  split_and!; [done|by rewrite !length_fmap| |].
  - intros i line o L1 L2. apply list_lookup_fmap_Some in L1 as ([a b] & -> & E). rewrite list_lookup_fmap, E in L2.
    injection L2 as <-. rewrite (O i a b E). rewrite <- fmap_take. done.
  - intros _. apply Forall_fmap. eapply Forall_impl; [exact F|]. by intros x [X _].
Qed.

(** A truncated text fits, and is a beginning of the text with an ellipsis after it. *)
Theorem truncate_fits (s : bytes) (mw : nat) :
  (2 <= mw)%nat ->
  (visible_width (truncate s mw) <= mw)%nat
  /\ (truncate s mw = s \/ exists p, truncate s mw = p ++ [8230] /\ p `prefix_of` s).
Proof.
  intros M. unfold truncate. destruct (Nat.leb_spec (visible_width s) mw); [split; [done|by left]|].
  destruct (Nat.leb_spec mw 1); [lia|]. destruct (fitting_spec mw s 0 ltac:(lia)) as [P W]. split.
  - etrans; [apply visible_le_width|]. rewrite text_width_app. cbn in *. lia.
  - right. eauto.
Qed.

(** Padding a text without escapes gives exactly the width asked for, or leaves it. *)
Theorem pad_width (s : bytes) (width : nat) (align : Align) :
  27 ∉ s -> visible_width (pad s width align) = Nat.max width (visible_width s).
Proof.
  intros N. unfold pad. destruct (Nat.leb_spec width (visible_width s)) as [L|L]; [lia|].
  unfold visible_width in *. rewrite (strip_plain s N) in *.
  assert (S : forall n, 27 ∉ spaces n). { intros n I. apply elem_of_replicate in I as [I _]. done. }
  pose proof (Nat.div_mod_eq (width - text_width s) 2). pose proof (Nat.div_mod_eq (width - text_width s + 1) 2).
  pose proof (Nat.mod_upper_bound (width - text_width s) 2 ltac:(lia)).
  pose proof (Nat.mod_upper_bound (width - text_width s + 1) 2 ltac:(lia)).
  destruct align; rewrite strip_plain by (rewrite ?not_elem_of_app; auto);
    rewrite ?text_width_app, !spaces_width; lia.
Qed.

(** ** Witnesses and examples *)

Lemma truncate_fits_witness : (visible_width (truncate (str "session-name") 6) <= 6)%nat.
Proof. exact (proj1 (truncate_fits (str "session-name") 6 ltac:(lia))). Defined.
Lemma pad_width_witness : visible_width (pad (str "ab") 5 ACenter) = 5%nat.
Proof. apply (pad_width (str "ab") 5 ACenter). apply (bool_decide_unpack _). reflexivity. Defined.

(** A width of one cell still lets a wide character through. *)
Example one_cell_overflows : visible_width (truncate [28450; 23383] 1) = 2%nat.
Proof. reflexivity. Qed.
(** A break before the last space that fits, even when the next character is one, and
    within a word that is too long. *)
Example wrapped : wrap_text (str "ab cd efghij") 5
  = ([str "ab"; str " cd"; str " efgh"; str "ij"], [0; 2; 5; 10]%nat).
Proof. reflexivity. Qed.
