(* ===== verification/Fuzzy.v ===== *)
(** Fuzzy matching of a query in the names of a list: [crates/pty-tui/src/fuzzy.rs].
    Texts are lists of scalar values and positions are indices into them. *)
From S2P Require Import Prelude Names.

Definition is_boundary (s : bytes) (pos : nat) : bool :=
  match pos with
  | O => true
  | S p => match s !! p with
           | Some c => (c =? 45) || (c =? 95) || (c =? 47) || (c =? 32) || (c =? 46)
           | None => false
           end
  end.

(** Is the query a subsequence of the target?  The positions count from the two slices'
    heads. *)
Fixpoint can_match (query target : bytes) : bool :=
  match query, target with
  | [], _ => true
  | _ :: _, [] => false
  | q :: qs, t :: ts => if t =? q then can_match qs ts else can_match query ts
  end.

(** The first character from [ti] on that equals [q], stands at a boundary and leaves the
    rest of the query a match. *)
Fixpoint find_boundary (s : bytes) (q : Z) (qs : bytes) (ti : nat) (rest : bytes) : option nat :=
  match rest with
  | [] => None
  | c :: rest =>
      if (c =? q) && is_boundary s ti && can_match qs rest then Some ti
      else find_boundary s q qs (S ti) rest
  end.
Fixpoint find_char (q : Z) (ti : nat) (rest : bytes) : option nat :=
  match rest with
  | [] => None
  | c :: rest => if c =? q then Some ti else find_char q (S ti) rest
  end.
(** [s] is the whole target: what follows an index is read from it. *)
Fixpoint match_prefer_boundaries (s : bytes) (query : bytes) (ti : nat) : option (list nat) :=
  match query with
  | [] => Some []
  | q :: qs =>
      let rest := drop ti s in
      match (match find_boundary s q qs ti rest with Some i => Some i | None => find_char q ti rest end) with
      | Some i => cons i <$> match_prefer_boundaries s qs (S i)
      | None => None
      end
  end.
Fixpoint leftmost (query : bytes) (ti : nat) (rest : bytes) : list nat :=
  match query, rest with
  | q :: qs, c :: rest => if c =? q then ti :: leftmost qs (S ti) rest else leftmost query (S ti) rest
  | _, _ => []
  end.
Definition find_best_match (query target : bytes) : list nat :=
  match match_prefer_boundaries target query 0 with
  | Some p => p
  | None => leftmost query 0 target
  end.

(** The bonus for runs: the [k]th consecutive position of a run counts [2 k]. *)
Fixpoint run_bonus (previous : option nat) (consecutive : Z) (positions : list nat) : Z :=
  match positions with
  | [] => 0
  | p :: ps =>
      if bool_decide (S <$> previous = Some p)
      then (consecutive + 1) * 2 + run_bonus (Some p) (consecutive + 1) ps
      else run_bonus (Some p) 0 ps
  end.
Definition boundary_bonus (t : bytes) (positions : list nat) : Z :=
  3 * blen (List.filter (is_boundary t) positions).

Section Matching.
Context `{Unicode}.
Definition fuzzy_match (query target : bytes) : option Z :=
  match query with
  | [] => Some 1
  | _ =>
      let q := to_lowercase query in
      let t := to_lowercase target in
      if (length t <? length q)%nat then None
      else if negb (can_match q t) then None
      else
        let positions := find_best_match q t in
        Some (run_bonus None 0 positions + boundary_bonus t positions
              + (if bool_decide (head positions = Some O) then 5 else 0)
              + Z.max 0 (10 - (blen t - blen q)))
  end.
Definition fuzzy_matches (query target : bytes) : bool := bool_decide (is_Some (fuzzy_match query target)).
End Matching.

(** ** Subsequences *)

Lemma can_match_spec t : forall q, can_match q t = true <-> q `sublist_of` t.
Proof.
  induction t as [|c t IH]; intros [|x q]; cbn [can_match].
  - split; [constructor|done].
  - split; [done|]. intros S. by apply sublist_nil_r in S.
  - split; [intros _; apply sublist_nil_l|done].
  - destruct (Z.eqb_spec c x) as [->|N].
    + rewrite IH. split; [by constructor|]. intros S.
      apply sublist_cons_r in S as [S|(l & E & S)]; [|by injection E as <-].
      etrans; [|exact S]. by apply sublist_cons.
    + rewrite IH. split; [by constructor|]. intros S.
      apply sublist_cons_r in S as [S|(l & E & S)]; [done|]. injection E as -> ->. done.
Qed.

Lemma can_match_shorter q x t : can_match (x :: q) t = true -> can_match q t = true.
Proof. rewrite !can_match_spec. intros S. etrans; [|exact S]. by apply sublist_cons. Qed.

(** ** What the positions are *)

(** Positions from [ti] on that spell the query, each after the one before. *)
Fixpoint aligned (s query : bytes) (ti : nat) (ps : list nat) : Prop :=
  match query, ps with
  | [], [] => True
  | q :: qs, p :: ps => (ti <= p)%nat /\ s !! p = Some q /\ aligned s qs (S p) ps
  | _, _ => False
  end.

Lemma find_boundary_spec s q qs rest : forall ti i,
  find_boundary s q qs ti rest = Some i ->
  (ti <= i)%nat /\ rest !! (i - ti)%nat = Some q /\ is_boundary s i = true /\ can_match qs (drop (S (i - ti)) rest) = true.
Proof.
  induction rest as [|c rest IH]; intros ti i; cbn [find_boundary]; [done|].
  destruct ((c =? q) && is_boundary s ti && can_match qs rest) eqn:E.
  - intros [= ->]. apply andb_prop in E as [[C B]%andb_prop M]. apply Z.eqb_eq in C as ->.
    rewrite Nat.sub_diag. cbn. rewrite drop_0. auto.
  - intros F. apply IH in F as (L & K & B & M). replace (i - ti)%nat with (S (i - S ti)) by lia.
    split_and!; [lia|done|done|done].
Qed.
Lemma find_char_spec q rest : forall ti i,
  find_char q ti rest = Some i ->
  (ti <= i)%nat /\ rest !! (i - ti)%nat = Some q /\ forall j, (j < i - ti)%nat -> rest !! j <> Some q.
Proof.
  induction rest as [|c rest IH]; intros ti i; cbn [find_char]; [done|].
  destruct (Z.eqb_spec c q) as [->|N].
  - intros [= ->]. rewrite Nat.sub_diag. split_and!; [lia|done|lia].
  - intros F. apply IH in F as (L & K & B). replace (i - ti)%nat with (S (i - S ti)) by lia.
    split_and!; [lia|done|]. intros [|j] J; [cbn; congruence|]. apply B. lia.
Qed.
(** The first occurrence leaves as much as any. *)
Lemma find_char_matches q qs rest : forall ti, can_match (q :: qs) rest = true ->
  exists i, find_char q ti rest = Some i /\ can_match qs (drop (S (i - ti)) rest) = true.
Proof.
  induction rest as [|c rest IH]; intros ti; cbn [find_char can_match]; [done|].
  destruct (Z.eqb_spec c q) as [->|N]; intros M.
  - exists ti. rewrite Nat.sub_diag. cbn. by rewrite drop_0.
  - destruct (IH (S ti) M) as (i & F & K). exists i. split; [done|].
    apply find_char_spec in F as (L & _ & _). by replace (i - ti)%nat with (S (i - S ti)) by lia.
Qed.

Lemma match_spec s query : forall ti, can_match query (drop ti s) = true ->
  exists ps, match_prefer_boundaries s query ti = Some ps /\ aligned s query ti ps.
Proof.
  induction query as [|q qs IH]; intros ti M; cbn [match_prefer_boundaries]; [by exists []|].
  set (choice := match find_boundary s q qs ti (drop ti s) with Some i => Some i | None => _ end).
  assert (X : exists i, choice = Some i /\ (ti <= i)%nat /\ s !! i = Some q /\ can_match qs (drop (S i) s) = true).
  { assert (K : forall i, (ti <= i)%nat -> drop ti s !! (i - ti)%nat = Some q -> can_match qs (drop (S (i - ti)) (drop ti s)) = true ->
                  (ti <= i)%nat /\ s !! i = Some q /\ can_match qs (drop (S i) s) = true).
    { intros i L E C. rewrite lookup_drop in E. rewrite drop_drop in C.
      replace (ti + (i - ti))%nat with i in E by lia. replace (ti + S (i - ti))%nat with (S i) in C by lia. done. }
    unfold choice. destruct (find_boundary s q qs ti (drop ti s)) as [i|] eqn:F.
    - apply find_boundary_spec in F as (L & E & _ & C). exists i. split; [done|by apply K].
    - destruct (find_char_matches q qs (drop ti s) ti M) as (i & F' & C). exists i. split; [done|].
      apply find_char_spec in F' as (L & E & _). by apply K. }
  destruct X as (i & -> & L & E & C). destruct (IH (S i) C) as (ps & -> & A).
  exists (i :: ps). done.
Qed.

Lemma run_bonus_nonneg ps : forall previous k, 0 <= k -> 0 <= run_bonus previous k ps.
Proof.
  induction ps as [|p ps IH]; intros previous k K; cbn [run_bonus]; [lia|].
  destruct (bool_decide _); [specialize (IH (Some p) (k + 1) ltac:(lia)); lia|by apply IH].
Qed.

(** ** Theorem *)

(** A target is kept exactly when the query, letters of any case, is a subsequence of it;
    the scored positions spell the query in order, and no score is negative. *)
Theorem fuzzy_is_subsequence `{Unicode} (query target : bytes) :
  query <> [] ->
  let q := to_lowercase query in
  let t := to_lowercase target in
  (fuzzy_matches query target = true <-> q `sublist_of` t)
  /\ (fuzzy_matches query target = true -> aligned t q 0 (find_best_match q t))
  /\ forall score, fuzzy_match query target = Some score -> 0 <= score.
Proof.
  intros N q t.
  assert (K : fuzzy_matches query target = can_match q t).
  { unfold fuzzy_matches, fuzzy_match. destruct query as [|x query]; [done|]. fold q t.
    destruct (Nat.ltb_spec (length t) (length q)) as [L|L].
    - symmetry. apply not_true_is_false. intros S%can_match_spec%sublist_length. lia.
    - destruct (can_match q t); done. }
  rewrite K, can_match_spec. split_and!; [done| |].
  - intros S%can_match_spec. destruct (match_spec t q 0) as (ps & M & A); [by rewrite drop_0|].
    unfold find_best_match. rewrite M. done.
  - intros score. unfold fuzzy_match. destruct query; [done|]. fold q t.
    destruct (length t <? length q)%nat; [done|]. destruct (negb (can_match q t)); [done|].
    intros [= <-]. pose proof (run_bonus_nonneg (find_best_match q t) None 0 ltac:(lia)).
    unfold boundary_bonus. pose proof (blen_nonneg (List.filter (is_boundary t) (find_best_match q t))).
    destruct (bool_decide _); lia.
Qed.

(** ** Witness and examples *)

Definition demo_unicode : Unicode := {| to_lowercase := map to_ascii_lowercase |}.
Lemma fuzzy_is_subsequence_witness :
  aligned (str "my-web-app") (str "wa") 0 (find_best_match (str "wa") (str "my-web-app")).
Proof.
  refine (proj1 (proj2 (@fuzzy_is_subsequence demo_unicode (str "WA") (str "My-Web-App") _)) _); [discriminate|reflexivity].
Defined.

(** A boundary is preferred to an earlier letter. *)
Example boundary_preferred : find_best_match (str "wa") (str "web-wax-app") = [0; 8]%nat.
Proof. reflexivity. Qed.
Example empty_query : @fuzzy_match demo_unicode [] (str "x") = Some 1.
Proof. reflexivity. Qed.
