(* ===== verification/ChildEnv.v ===== *)
(** The environment of a session's child and the checks of its working directory:
    [crates/pty/src/daemon/env.rs].  A [BTreeMap] of strings is a finite map; what
    [stat] and [access] answer are arguments. *)
From S2P Require Import Prelude Json Metadata Names Text Order Launch Client.

(** ** Names *)

Definition ISOLATED_ENV_ALLOWLIST : list bytes :=
  str <$> ["PATH"; "HOME"; "USER"; "LOGNAME"; "SHELL"; "TERM"; "COLORTERM"; "LANG"; "TZ"; "PWD"; "TMPDIR";
           "PTY_ROOT"; "PTY_SESSION_DIR"].
Definition DEFAULT_CHILD_TERM : bytes := str "xterm-256color".
Definition HOST_TERMINAL_IDENTITY : list bytes :=
  str <$> ["TERM_PROGRAM"; "TERM_PROGRAM_VERSION"; "LC_TERMINAL"; "ITERM_SESSION_ID"; "TERM_SESSION_ID";
           "KITTY_WINDOW_ID"; "KITTY_PID"; "WT_SESSION"; "Q_TERM"; "IRIS_FD"].
(** What the daemon got for itself. *)
Definition DAEMON_ONLY : list bytes :=
  str <$> ["PTY_SERVER_CONFIG"; "PTY_DAEMON_READY_FD"; "PTY_DAEMON_OPERATION_FD"; "PTY_DAEMON_GATE_FD";
           "PTY_CREATION_LOCK_OWNER_PID"; "PTY_CREATION_LOCK_NONCE"].
Definition LOGIN : list bytes :=
  str <$> ["PATH"; "LANG"; "DISPLAY"; "WAYLAND_DISPLAY"; "XDG_SESSION_TYPE"; "SSH_AUTH_SOCK"].
Definition named_in (l : list bytes) (k : bytes) : bool := existsb (beq k) l.
Definition is_login (k : bytes) : bool := named_in LOGIN k || starts_with (str "LC_") k.
Definition is_allowed (k : bytes) : bool := named_in ISOLATED_ENV_ALLOWLIST k || starts_with (str "LC_") k.

(** ** The environment *)

Abbreviation Env := (gmap bytes bytes).
Definition insert_all (l : list (bytes * bytes)) (m : Env) : Env := fold_left (fun m kv => <[kv.1 := kv.2]> m) l m.
Definition remove_all (l : list bytes) (m : Env) : Env := fold_left (fun m k => delete k m) l m.

Definition env_exclusive_error : bytes :=
  str "ServerOptions.env is mutually exclusive with isolateEnv/extraEnv/unsetEnv. Use env for verbatim control, or inherited environment policy options " ++ [8212] ++ str " not both.".

Definition ensure_child_term (env : Env) : Env :=
  match env !! str "TERM" with
  | Some (_ :: _) => env
  | _ => <[str "TERM" := DEFAULT_CHILD_TERM]> env
  end.

(** A verbatim replacement; or what the daemon inherited (all but its own, or only the
    allow-list), then the saved login environment, without the host terminal's identity
    and the unset names, and the extra settings. *)
Definition policy_env (cfg : DaemonConfig) (source : list (bytes * bytes)) : Env :=
  match c_env cfg with
  | Some replacement => insert_all replacement ∅
  | None =>
      let env := if cfg_isolate_env cfg then insert_all (List.filter (fun kv => is_allowed kv.1) source) ∅
                 else remove_all DAEMON_ONLY (insert_all source ∅) in
      let env := match c_session_env cfg with Some s => insert_all s env | None => env end in
      let env := remove_all (cfg_unset_env cfg) (remove_all HOST_TERMINAL_IDENTITY env) in
      match c_extra_env cfg with Some extra => insert_all extra env | None => env end
  end.
(** [here] is the daemon's own directory, [source] its environment. *)
Definition build_child_env_from (here : option bytes) (cfg : DaemonConfig) (generation : bytes)
  (source : list (bytes * bytes)) : Result Env bytes :=
  if bool_decide (is_Some (c_env cfg))
     && (cfg_isolate_env cfg || bool_decide (is_Some (c_extra_env cfg)) || is_nonempty (cfg_unset_env cfg))
  then Err env_exclusive_error
  else
    let env := <[str "PTY_SESSION" := c_name cfg]> (<[str "PWD" := cfg_cwd here cfg]> (policy_env cfg source)) in
    let env := if is_nonempty generation then <[str "PTY_SESSION_GENERATION" := generation]> env else env in
    Ok (ensure_child_term env).

(** A [BTreeMap]'s entries, in the order of their keys. *)
Definition entries (m : Env) : IndexMap bytes :=
  (fun k => (k, default [] (m !! k))) <$> btree_set (fst <$> map_to_list m).

Definition permanent_respawn_env (cfg : DaemonConfig) (tags : IndexMap bytes) (child_env : Env)
  : option (IndexMap bytes) :=
  if negb (obeq (mget (str "strategy") tags) (Some (str "permanent"))) || bool_decide (is_Some (c_env cfg)) then None
  else match c_session_env cfg with
       | Some saved => Some saved
       | None => unless_empty (List.filter (fun kv => is_login kv.1) (entries child_env))
       end.

(** ** The working directory *)

(** The text up to the first occurrence of [p], or all of it. *)
Fixpoint before (p s : bytes) : bytes :=
  match s with [] => [] | c :: s' => if starts_with p s then [] else c :: before p s' end.
(** [desc] is what the error displays as. *)
Definition errno_detail (desc : bytes) (lower : bytes -> bytes) (err : IoErr) (syscall path : bytes) : bytes :=
  match (let? n := raw_os_error err in errno_name n) with
  | Some code => code ++ str ": " ++ lower (before (str " (os error") desc) ++ str ", " ++ syscall ++ str " '" ++ path ++ str "'"
  | None => desc
  end.
(** [stat]: whether it is a directory, or the error with its text; [searchable]: what
    [access] says, or that the path holds a NUL. *)
Definition describe_invalid_cwd (lower : bytes -> bytes) (cwd : bytes) (stat : Result bool (IoErr * bytes)) (searchable : bool)
  : option bytes :=
  if negb (is_nonempty cwd) then Some (str "Working directory is empty.")
  else match stat with
       | Err (e, desc) =>
           if is_kind NotFound e then Some (str "Working directory does not exist: " ++ cwd)
           else Some (str "Working directory is not accessible: " ++ cwd ++ str " (" ++ errno_detail desc lower e (str "stat") cwd ++ str ")")
       | Ok false => Some (str "Working directory is not a directory: " ++ cwd)
       | Ok true => if searchable then None else Some (str "Working directory is not searchable: " ++ cwd)
       end.
Definition invalid_cwd_error (reason name command : bytes) : bytes :=
  reason ++ [10] ++ str "Cannot start session " ++ quoted name ++ str " for command " ++ quoted command ++ str ".".

(** ** Lookups *)

(** The last entry of a list under a key. *)
Definition last_of (k : bytes) (l : list (bytes * bytes)) : option bytes := mget k (rev l).

Lemma mget_app {A} k (a b : IndexMap A) : mget k (a ++ b) = match mget k a with Some v => Some v | None => mget k b end.
Proof. induction a as [|[x v] a IH]; cbn; [done|]. destruct (beq _ _); done. Qed.
Lemma last_of_snoc k l kv : last_of k (l ++ [kv]) = if beq k kv.1 then Some kv.2 else last_of k l.
Proof. unfold last_of. rewrite rev_unit. destruct kv as [x v]. cbn. destruct (beq k x) eqn:E; cbn; rewrite ?E; done. Qed.

Lemma insert_all_lookup l k : forall m, insert_all l m !! k = match last_of k l with Some v => Some v | None => m !! k end.
Proof.
  induction l as [|[x v] l IH] using rev_ind; intros m; [done|].
  unfold insert_all in *. rewrite fold_left_app, last_of_snoc. cbn.
  destruct (beq k x) eqn:E.
  - apply beq_eq in E as ->. by rewrite lookup_insert_eq.
  - rewrite lookup_insert_ne; [apply IH|]. intros ->. by rewrite beq_refl in E.
Qed.
Lemma remove_all_lookup l k : forall m, remove_all l m !! k = if named_in l k then None else m !! k.
Proof.
  induction l as [|x l IH]; intros m; cbn; [done|]. unfold remove_all in IH. rewrite IH. unfold named_in. cbn.
  destruct (beq k x) eqn:E; cbn.
  - apply beq_eq in E as ->. rewrite lookup_delete_eq. by destruct (existsb _ _).
  - rewrite lookup_delete_ne; [done|]. intros ->. by rewrite beq_refl in E.
Qed.
Lemma last_of_filter p l k : last_of k (List.filter (fun kv => p kv.1) l) = if p k then last_of k l else None.
Proof.
  induction l as [|[x v] l IH] using rev_ind; [by destruct (p k)|]. rewrite List.filter_app. cbn.
  destruct (p x) eqn:P; [rewrite !last_of_snoc|rewrite app_nil_r, last_of_snoc]; cbn; rewrite IH;
  destruct (beq k x) eqn:E; try done; apply beq_eq in E as ->; rewrite P; done.
Qed.

(** ** What each variable is *)

(** The variables every child gets. *)
Definition FORCED : list bytes := str <$> ["PTY_SESSION"; "PWD"; "PTY_SESSION_GENERATION"; "TERM"].

(** Where the value of any other variable comes from, the first that says wins. *)
Definition value_of (cfg : DaemonConfig) (source : list (bytes * bytes)) (k : bytes) : option bytes :=
  match c_env cfg with
  | Some replacement => last_of k replacement
  | None =>
      match (let? extra := c_extra_env cfg in last_of k extra) with
      | Some v => Some v
      | None =>
          if named_in (cfg_unset_env cfg) k || named_in HOST_TERMINAL_IDENTITY k then None
          else match (let? s := c_session_env cfg in last_of k s) with
               | Some v => Some v
               | None => if (if cfg_isolate_env cfg then is_allowed k else negb (named_in DAEMON_ONLY k))
                         then last_of k source else None
               end
      end
  end.

Lemma policy_lookup cfg source k : policy_env cfg source !! k = value_of cfg source k.
Proof.
  unfold policy_env.
  unfold value_of. destruct (c_env cfg) as [r|]; [rewrite insert_all_lookup; by destruct (last_of k r)|]. cbv zeta.
  set (base := if cfg_isolate_env cfg then _ else _).
  assert (B : base !! k = if (if cfg_isolate_env cfg then is_allowed k else negb (named_in DAEMON_ONLY k))
                          then last_of k source else None).
  { unfold base. destruct (cfg_isolate_env cfg).
    - rewrite insert_all_lookup, last_of_filter. destruct (is_allowed k); [by destruct (last_of k source)|done].
    - rewrite remove_all_lookup, insert_all_lookup. destruct (named_in DAEMON_ONLY k); [done|]. by destruct (last_of k source). }
  destruct (c_session_env cfg) as [s|], (c_extra_env cfg) as [x|]; cbn [mbind option_bind];
  rewrite ?insert_all_lookup, ?remove_all_lookup, ?insert_all_lookup, B;
  repeat (match goal with |- context [match last_of k ?l with _ => _ end] => destruct (last_of k l) end);
  destruct (named_in (cfg_unset_env cfg) k), (named_in HOST_TERMINAL_IDENTITY k); done.
Qed.

Lemma ensure_term env k : ensure_child_term env !! k
  = if beq k (str "TERM") then Some (match env !! str "TERM" with Some (c :: t) => c :: t | _ => DEFAULT_CHILD_TERM end)
    else env !! k.
Proof.
  unfold ensure_child_term. destruct (beq k (str "TERM")) eqn:E.
  - apply beq_eq in E as ->. destruct (env !! str "TERM") as [[|c t]|] eqn:L; rewrite ?lookup_insert_eq; done.
  - assert (N : str "TERM" <> k) by (intros <-; done).
    destruct (env !! str "TERM") as [[|c t]|]; rewrite ?lookup_insert_ne by done; done.
Qed.

(** A variable that is not forced has the policy's value. *)
Lemma built_value here cfg gen source env k :
  build_child_env_from here cfg gen source = Ok env -> named_in FORCED k = false -> env !! k = value_of cfg source k.
Proof.
  unfold build_child_env_from. destruct (_ && _); [done|]. intros [= <-] F.
  unfold named_in, FORCED in F. cbn [fmap list_fmap existsb] in F.
  repeat (apply orb_false_elim in F as [? F]).
  rewrite ensure_term. replace (beq k (str "TERM")) with false.
  destruct (is_nonempty gen); rewrite !lookup_insert_ne by (intros <-; done); apply policy_lookup.
Qed.

(** ** Theorems *)

(** C40: Every variable of a child has one origin, whatever the configuration: its session,
    directory and generation are forced, [TERM] is never empty, and any other comes from
    the explicit settings before the saved login environment before what the daemon
    inherited, which never includes the daemon's own descriptors or another terminal's
    identity. *)
Theorem child_env_origin (here : option bytes) (cfg : DaemonConfig) (gen : bytes) (source : list (bytes * bytes)) (env : Env) :
  build_child_env_from here cfg gen source = Ok env ->
  env !! str "PTY_SESSION" = Some (c_name cfg)
  /\ env !! str "PWD" = Some (cfg_cwd here cfg)
  /\ (gen <> [] -> env !! str "PTY_SESSION_GENERATION" = Some gen)
  /\ (exists t, env !! str "TERM" = Some t /\ t <> [])
  /\ forall k, named_in FORCED k = false -> env !! k = value_of cfg source k.
Proof.
  intros B. split_and!; [..|by intros k F; eapply built_value].
  all: unfold build_child_env_from in B; destruct (_ && _); [done|]; injection B as <-.
  - rewrite ensure_term. change (beq (str "PTY_SESSION") (str "TERM")) with false. cbv iota.
    destruct (is_nonempty gen); [rewrite lookup_insert_ne by done|]; apply lookup_insert_eq.
  - rewrite ensure_term. change (beq (str "PWD") (str "TERM")) with false. cbv iota.
    destruct (is_nonempty gen); rewrite !lookup_insert_ne by done; apply lookup_insert_eq.
  - intros G. rewrite ensure_term. change (beq (str "PTY_SESSION_GENERATION") (str "TERM")) with false.
    destruct gen; [done|]. apply lookup_insert_eq.
  - rewrite ensure_term. change (beq (str "TERM") (str "TERM")) with true. cbv iota. eexists. split; [done|].
    by destruct (_ !! str "TERM") as [[|c t]|].
Qed.

Lemma last_of_keyed (f : bytes -> bytes) ks k :
  last_of k ((fun k => (k, f k)) <$> ks) = if named_in ks k then Some (f k) else None.
Proof.
  induction ks as [|x ks IH] using rev_ind; [done|]. rewrite fmap_app. cbn [fmap list_fmap]. rewrite last_of_snoc. cbn [fst snd].
  unfold named_in in *. rewrite existsb_app. cbn [existsb]. rewrite orb_false_r.
  destruct (beq k x) eqn:E; [apply beq_eq in E as ->; by rewrite orb_true_r|].
  rewrite orb_false_r. apply IH.
Qed.
Lemma named_in_elem l k : named_in l k = true <-> k ∈ l.
Proof.
  unfold named_in. rewrite existsb_elem. split.
  - intros (x & I & E). by apply beq_eq in E as ->.
  - intros I. exists k. split; [done|apply beq_refl].
Qed.
Lemma last_of_entries m k : last_of k (entries m) = m !! k.
Proof.
  unfold entries. rewrite last_of_keyed. destruct (named_in _ k) eqn:N.
  - apply named_in_elem, elem_of_btree_set, list_elem_of_fmap in N as ([x v] & -> & I).
    apply elem_of_map_to_list in I. cbn. by rewrite I.
  - destruct (m !! k) as [v|] eqn:E; [|done]. apply not_true_iff_false in N. destruct N.
    apply named_in_elem, elem_of_btree_set, list_elem_of_fmap. exists (k, v). split; [done|].
    by apply elem_of_map_to_list.
Qed.

(** A permanent session saves the login environment of its first child and nothing else
    of what that inherited; whatever bare environment it is respawned from, its child has
    those values again, and the saved copy stays the same. *)
Theorem respawn_keeps_login (here : option bytes) (cfg cfg' : DaemonConfig) (tags : IndexMap bytes) (gen gen' : bytes)
  (source source' : list (bytes * bytes)) (env env' : Env) (saved : IndexMap bytes) :
  build_child_env_from here cfg gen source = Ok env ->
  c_session_env cfg = None -> permanent_respawn_env cfg tags env = Some saved ->
  c_env cfg' = c_env cfg -> c_extra_env cfg' = c_extra_env cfg -> cfg_unset_env cfg' = cfg_unset_env cfg ->
  c_session_env cfg' = Some saved -> build_child_env_from here cfg' gen' source' = Ok env' ->
  (forall k v, (k, v) ∈ saved -> is_login k = true /\ env !! k = Some v)
  /\ (forall k v, is_login k = true -> env !! k = Some v -> env' !! k = Some v)
  /\ permanent_respawn_env cfg' tags env' = Some saved.
Proof.
  intros B N P E X U S' B'. pose proof (fun k => built_value _ _ _ _ _ k B) as V. pose proof (fun k => built_value _ _ _ _ _ k B') as V'.
  unfold permanent_respawn_env in *. destruct (negb (obeq _ _)); [discriminate P|]. cbn [orb] in *.
  destruct (c_env cfg) as [r|] eqn:Ce; [discriminate P|]. rewrite E. cbn in P |- *. rewrite N in P. rewrite S'.
  assert (Sv : saved = List.filter (fun kv => is_login kv.1) (entries env)).
  { unfold unless_empty in P. destruct (List.filter _ _); [discriminate P|]. cbn in P. congruence. }
  split_and!; [| |done].
  - intros k v I. rewrite Sv in I. apply elem_of_filterb in I as [L I]. split; [exact L|].
    apply list_elem_of_fmap in I as (x & F & I). injection F as -> ->.
    apply elem_of_btree_set, list_elem_of_fmap in I as ([y w] & -> & I). apply elem_of_map_to_list in I. cbn. by rewrite I.
  - intros k v L Ev.
    assert (F : named_in FORCED k = false).
    { apply not_true_iff_false. intros F%named_in_elem.
      assert (A : forallb (fun k => negb (is_login k)) FORCED = true) by reflexivity.
      apply (proj1 (forallb_elem _ _) A) in F. rewrite L in F. done. }
    pose proof Ev as Ek. rewrite (V k F) in Ev. rewrite (V' k F). unfold value_of in *. rewrite E, X, U, S', Ce in *.
    destruct (let? extra := c_extra_env cfg in last_of k extra) as [w|]; [done|].
    destruct (named_in (cfg_unset_env cfg) k || named_in HOST_TERMINAL_IDENTITY k) eqn:H; [done|].
    assert (Ls : last_of k saved = Some v); [|cbn [mbind option_bind]; by rewrite Ls].
    rewrite Sv, last_of_filter, L, last_of_entries. exact Ek.
Qed.

(** ** Witnesses and examples *)

Definition demo_config (session extra : option (IndexMap bytes)) (isolate : bool) : DaemonConfig :=
  mkConfig (str "web") (str "/bin/sh") [] (str "sh") (Some (str "/srv")) None None false None None None None
    (if isolate then Some true else None) extra session (Some [str "DISPLAY"]) None None None false.
Definition demo_source : list (bytes * bytes) :=
  [(str "PATH", str "/bin"); (str "SECRET", str "s"); (str "LC_TERMINAL", str "old"); (str "PTY_DAEMON_GATE_FD", str "9");
   (str "DISPLAY", str ":1"); (str "LANG", str "C")].
Definition demo_tags : IndexMap bytes := [(str "strategy", str "permanent")].
Definition built (cfg : DaemonConfig) (gen : bytes) (source : list (bytes * bytes)) : Env :=
  match build_child_env_from None cfg gen source with Ok env => env | Err _ => ∅ end.
Definition demo_child : Env := built (demo_config None None false) (str "g1") demo_source.
Definition demo_saved : IndexMap bytes := [(str "LANG", str "C"); (str "PATH", str "/bin")].

Lemma child_env_origin_witness :
  demo_child !! str "PTY_SESSION" = Some (str "web") /\ demo_child !! str "SECRET" = Some (str "s")
  /\ demo_child !! str "PTY_DAEMON_GATE_FD" = None.
Proof.
  destruct (child_env_origin None (demo_config None None false) (str "g1") demo_source demo_child) as (S & _ & _ & _ & V).
  { vm_compute. reflexivity. }
  split_and!; [exact S|rewrite V by reflexivity; reflexivity|rewrite V by reflexivity; reflexivity].
Defined.

Lemma respawn_keeps_login_witness :
  built (demo_config (Some demo_saved) None false) (str "g2") [] !! str "PATH" = Some (str "/bin").
Proof.
  refine (proj1 (proj2 (respawn_keeps_login None (demo_config None None false) (demo_config (Some demo_saved) None false)
    demo_tags (str "g1") (str "g2") demo_source [] demo_child _ demo_saved _ _ _ _ _ _ _ _)) (str "PATH") (str "/bin") _ _);
  vm_compute; reflexivity.
Defined.

(** The spawner's pid stays in the child's environment. *)
Example spawner_pid_inherited :
  built (demo_config None None false) [] [(str "PTY_SPAWNER_PID", str "77")] !! str "PTY_SPAWNER_PID" = Some (str "77").
Proof. vm_compute. reflexivity. Qed.
Example isolated_keeps_little :
  let env := built (demo_config None None true) [] demo_source in
  (env !! str "SECRET", env !! str "LC_TERMINAL", env !! str "PATH", env !! str "TERM")
  = (None, None, Some (str "/bin"), Some DEFAULT_CHILD_TERM).
Proof. vm_compute. reflexivity. Qed.
