(* ===== verification/Paste.v ===== *)
(** Enhanced paste: [crates/pty-terminal/src/enhanced_paste.rs], and the base64 encoder
    it uses, from [crates/pty-terminal/src/graphics.rs].

    A string is here the list of its UTF-8 bytes.  A program asks for the clipboard with
    an OSC 5522 request, which [parse] reads, and is answered with the sequences of
    [encode]; what a program reads of these is [hear], which the file proves it inverts. *)
From S2P Require Import Prelude Names Text Client Summary.

(** ** Limits *)

Definition MAX_METADATA : Z := 65536.
Definition MAX_PACKET : Z := 1048576.
Definition MAX_TRANSACTION : Z := 33554432.
Definition MAX_ANSWER : Z := 50331648.
Definition MAX_ID : Z := 256.
Definition MAX_MIME : Z := 255.
Definition DATA_CHUNK : nat := 4096.

(** ** Base64 *)

Definition ALPHABET : bytes := str "ABCDEFGHIJKLMNOPQRSTUVWXYZabcdefghijklmnopqrstuvwxyz0123456789+/".
Definition digit (n : Z) : Z := nth (Z.to_nat (Z.land n 63)) ALPHABET 0.

(** One chunk of up to three bytes. *)
Definition word (a b c : Z) : Z := Z.lor (Z.lor (Z.shiftl a 16) (Z.shiftl b 8)) c.
Definition quad (a b c : Z) : bytes :=
  let n := word a b c in [digit (Z.shiftr n 18); digit (Z.shiftr n 12); digit (Z.shiftr n 6); digit n].
Fixpoint base64 (data : bytes) : bytes :=
  match data with
  | [] => []
  | [a] => take 2 (quad a 0 0) ++ [61; 61]
  | [a; b] => take 3 (quad a b 0) ++ [61]
  | a :: b :: c :: rest => quad a b c ++ base64 rest
  end.

Definition value (b : Z) : option Z :=
  if in_range 65 90 b then Some (b - 65)
  else if in_range 97 122 b then Some (b - 97 + 26)
  else if in_range 48 57 b then Some (b - 48 + 52)
  else if b =? 43 then Some 62
  else if b =? 47 then Some 63
  else None.

(** The digits of a chunk before its padding, as one word. *)
Fixpoint digits_word (l : bytes) (w : Z) : option Z :=
  match l with
  | [] => Some w
  | b :: l => let? v := value b in digits_word l (Z.lor (Z.shiftl w 6) v)
  end.
Definition decode_chunk (chunk : bytes) (last : bool) : option bytes :=
  let pad := length (fst (span (Z.eqb 61) (rev chunk))) in
  if (2 <? pad)%nat || ((0 <? pad)%nat && negb last) then None
  else
    let? w := digits_word (take (4 - pad) chunk) 0 in
    let four := be32 (Z.shiftl w (6 * Z.of_nat pad)) in
    if (0 <? pad)%nat && existsb (fun b => negb (b =? 0)) (drop (4 - pad) four) then None
    else Some (drop 1 (take (4 - pad) four)).
Fixpoint decode_chunks (text : bytes) : option bytes :=
  match text with
  | [] => Some []
  | a :: b :: c :: d :: rest =>
      let? x := decode_chunk [a; b; c; d] (negb (is_nonempty rest)) in
      let? r := decode_chunks rest in Some (x ++ r)
  | _ => None
  end.
Definition decode (text : bytes) : option bytes :=
  if (length text mod 4 =? 0)%nat then decode_chunks text else None.

(** ** Requests *)

Inductive Location : Type := Clipboard | Primary.
#[export] Instance Location_eq_dec : EqDecision Location.
Proof. solve_decision. Defined.
Record ReadRequest : Type := mkRequest {
  mimes : list bytes; location : Location; id : option bytes; password : option bytes; name : option bytes }.
#[export] Instance ReadRequest_eq_dec : EqDecision ReadRequest.
Proof. solve_decision. Defined.

Definition id_byte (b : Z) : bool := is_ascii_alphanumeric b || memb b (str "-_+.").
Definition valid_id (i : bytes) : bool := is_nonempty i && (blen i <=? MAX_ID) && forallb id_byte i.
Definition valid_mime (m : bytes) : bool := is_nonempty m && (blen m <=? MAX_MIME) && forallb is_ascii_graphic m.

Definition KEYS : list bytes := str <$> ["type"; "loc"; "id"; "pw"; "name"; "status"; "mime"].

(** What the loop over the keys has found. *)
Record Keys : Type := mkKeys {
  seen : list bytes; kind : option bytes; k_location : Location; k_id : option bytes; k_password : option bytes;
  k_name : option bytes }.
#[export] Instance Keys_eta : Settable Keys := fun k =>
  mkKeys (seen k) (kind k) (k_location k) (k_id k) (k_password k) (k_name k).
Definition no_keys : Keys := mkKeys [] None Clipboard None None None.

Definition parse_key (k : Keys) (pair : bytes) : option Keys :=
  let? '(key, value) := split_once 61 pair in
  let known := existsb (beq key) KEYS in
  if known && existsb (beq key) (seen k) then None
  else
    let k := if known then k <| seen := key :: seen k |> else k in
    if beq key (str "type") then Some (k <| kind := Some value |>)
    else if beq key (str "loc") then
      if beq value (str "primary") then Some (k <| k_location := Primary |>) else None
    else if beq key (str "id") then
      if valid_id value then Some (k <| k_id := Some value |>) else None
    else if beq key (str "pw") then
      let? _ := decode value in Some (k <| k_password := Some value |>)
    else if beq key (str "name") then
      let? n := decode value in let? _ := from_utf8 n in Some (k <| k_name := Some n |>)
    else if beq key (str "status") || beq key (str "mime") then None
    else Some k.
Fixpoint parse_keys (k : Keys) (pairs : list bytes) : option Keys :=
  match pairs with [] => Some k | p :: pairs => let? k := parse_key k p in parse_keys k pairs end.

(** [split_ascii_whitespace]. *)
Definition split_ascii_whitespace (s : bytes) : list bytes := List.filter is_nonempty (split_on is_ascii_whitespace s).

(** What is before the first of this byte, and what is after it. *)
Definition cut (c : Z) (s : bytes) : bytes * bytes :=
  match position (Z.eqb c) s with Some i => (take i s, drop (S i) s) | None => (s, []) end.

Definition parse (osc_payload : bytes) : option ReadRequest :=
  if MAX_METADATA <? blen osc_payload then None
  else
    let? rest := strip_prefix (str "5522;") osc_payload in
    let '(metadata, payload) := cut 59 rest in
    let? _ := from_utf8 metadata in
    let? k := parse_keys no_keys (split_on (Z.eqb 58) metadata) in
    if negb (obeq (kind k) (Some (str "read"))) then None
    else
      let? list := decode payload in
      let? _ := from_utf8 list in
      let found := split_ascii_whitespace list in
      if is_nonempty found && forallb valid_mime found
      then Some (mkRequest found (k_location k) (k_id k) (k_password k) (k_name k))
      else None.

(** ** Answers *)

Inductive ReadError : Type := NotAvailable | Denied | Busy.
Definition status (e : ReadError) : bytes :=
  match e with NotAvailable => str "ENOSYS" | Denied => str "EPERM" | Busy => str "EBUSY" end.
Inductive PastePacket : Type :=
  | Listing (location : Location) (password : option bytes) (mimes : list bytes)
  | ReadOk
  | ReadData (mime data : bytes)
  | ReadDone
  | PacketReadError (e : ReadError).
Inductive PacketError : Type := Invalid | TooLarge.

(** [slice.chunks(n)]. *)
Fixpoint chunks_fuel (fuel n : nat) (l : bytes) : list bytes :=
  match fuel, l with
  | S fuel, _ :: _ => take n l :: chunks_fuel fuel n (drop n l)
  | _, _ => []
  end.
Definition chunks (n : nat) (l : bytes) : list bytes := chunks_fuel (length l) n l.

Definition read_status (st : bytes) (i : option bytes) : bytes :=
  match i with
  | Some i => str "type=read:status=" ++ st ++ str ":id=" ++ i
  | None => str "type=read:status=" ++ st
  end.
Definition OSC_5522 : bytes := [27; 93] ++ str "5522;".
Definition ST : bytes := [27; 92].
Definition osc (metadata payload : bytes) : bytes :=
  OSC_5522 ++ metadata ++ (if is_nonempty payload then 59 :: payload else []) ++ ST.

Definition bad_id (i : option bytes) : bool := match i with Some i => negb (valid_id i) | None => false end.
Definition bad_password (p : option bytes) : bool :=
  match p with Some p => negb (bool_decide (is_Some (decode p))) | None => false end.
Definition loc_key (l : Location) : bytes := match l with Primary => str ":loc=primary" | Clipboard => [] end.
Definition pw_key (p : option bytes) : bytes := match p with Some p => str ":pw=" ++ p | None => [] end.
Definition listing_large (keys list : bytes) : bool :=
  MAX_METADATA <? (blen list + 2) / 3 * 4 + blen keys.

Definition encode (p : PastePacket) (i : option bytes) : Result bytes PacketError :=
  if bad_id i then Err Invalid
  else match p with
       | Listing location password mimes =>
           if negb (is_nonempty mimes) || negb (forallb valid_mime mimes) then Err Invalid
           else if bad_password password then Err Invalid
           else
             let keys := loc_key location ++ pw_key password in
             let list := join [32] mimes in
             if listing_large keys list then Err TooLarge
             else
               let metadata := str "type=read:status=DATA:mime=Lg==" ++ pw_key password in
               Ok (osc (str "type=read:status=OK" ++ keys) []
                   ++ concat ((fun c => osc metadata (base64 c)) <$> chunks DATA_CHUNK list)
                   ++ osc (str "type=read:status=DONE" ++ pw_key password) [])
       | ReadOk => Ok (osc (read_status (str "OK") i) [])
       | ReadData mime data =>
           if negb (valid_mime mime) then Err Invalid
           else if MAX_PACKET <? blen data then Err TooLarge
           else
             let metadata := read_status (str "DATA") i ++ str ":mime=" ++ base64 mime in
             Ok (concat ((fun c => osc metadata (base64 c)) <$> chunks DATA_CHUNK data)
                 ++ (if is_nonempty data then [] else OSC_5522 ++ metadata ++ [59] ++ ST))
       | ReadDone => Ok (osc (read_status (str "DONE") i) [])
       | PacketReadError e => Ok (osc (read_status (status e) i) [])
       end.

(** ** What the program reads *)

(** One sequence: its keys, and its payload decoded. *)
Record Heard : Type := mkHeard { keys : list (bytes * bytes); payload : bytes }.
#[export] Instance Heard_eq_dec : EqDecision Heard.
Proof. solve_decision. Defined.

Definition hear_body (body : bytes) : option Heard :=
  let '(metadata, data) := cut 59 body in
  let? ks := mapM (split_once 61) (split_on (Z.eqb 58) metadata) in
  let? d := decode data in Some (mkHeard ks d).
Fixpoint hear_fuel (fuel : nat) (s : bytes) : option (list Heard) :=
  match fuel, s with
  | _, [] => Some []
  | O, _ => None
  | S fuel, _ =>
      let? s := strip_prefix OSC_5522 s in
      let '(body, s) := span (fun b => negb (b =? 27)) s in
      let? s := strip_prefix ST s in
      let? h := hear_body body in
      let? hs := hear_fuel fuel s in Some (h :: hs)
  end.
Definition hear (s : bytes) : option (list Heard) := hear_fuel (length s) s.

(** What a packet says. *)
Definition pair_ (k : string) (v : bytes) : bytes * bytes := (str k, v).
Definition status_keys (st : bytes) (i : option bytes) : list (bytes * bytes) :=
  [pair_ "type" (str "read"); pair_ "status" st] ++ match i with Some i => [pair_ "id" i] | None => [] end.
Definition password_keys (p : option bytes) : list (bytes * bytes) :=
  match p with Some p => [pair_ "pw" p] | None => [] end.
Definition location_keys (l : Location) : list (bytes * bytes) :=
  match l with Primary => [pair_ "loc" (str "primary")] | Clipboard => [] end.
Definition says (i : option bytes) (p : PastePacket) : list Heard :=
  match p with
  | Listing l pw ms =>
      [mkHeard (status_keys (str "OK") None ++ location_keys l ++ password_keys pw) []]
      ++ (mkHeard (status_keys (str "DATA") None ++ [pair_ "mime" (base64 (str "."))] ++ password_keys pw)
          <$> chunks DATA_CHUNK (join [32] ms))
      ++ [mkHeard (status_keys (str "DONE") None ++ password_keys pw) []]
  | ReadOk => [mkHeard (status_keys (str "OK") i) []]
  | ReadData mime data =>
      mkHeard (status_keys (str "DATA") i ++ [pair_ "mime" (base64 mime)])
      <$> (if is_nonempty data then chunks DATA_CHUNK data else [[]])
  | ReadDone => [mkHeard (status_keys (str "DONE") i) []]
  | PacketReadError e => [mkHeard (status_keys (status e) i) []]
  end.

(** A request as a program writes it. *)
Definition opt_key (k : string) (v : option bytes) : bytes :=
  match v with Some v => [58] ++ str k ++ [61] ++ v | None => [] end.
Definition request_text (r : ReadRequest) : bytes :=
  str "5522;type=read" ++ loc_key (location r) ++ opt_key "id" (id r) ++ opt_key "pw" (password r)
  ++ opt_key "name" (base64 <$> name r) ++ [59] ++ base64 (join [32] (mimes r)).
Definition valid_request (r : ReadRequest) : bool :=
  is_nonempty (mimes r) && forallb valid_mime (mimes r) && negb (bad_id (id r)) && negb (bad_password (password r))
  && match name r with Some n => forallb (in_range 0 255) n && bool_decide (is_Some (from_utf8 n)) | None => true end
  && (blen (request_text r) <=? MAX_METADATA).

(** ** Base64 is canonical *)

Definition is_byte (b : Z) : bool := in_range 0 255 b.

Lemma land_shiftl a b k : 0 <= k -> 0 <= b < 2 ^ k -> Z.land (Z.shiftl a k) b = 0.
Proof.
  intros K B. apply Z.bits_inj'. intros n N. rewrite Z.land_spec, Z.shiftl_spec, Z.bits_0 by done.
  destruct (Z.ltb_spec n k) as [L|L]; [by rewrite Z.testbit_neg_r by lia|].
  assert (F : Z.testbit b n = false).
  { destruct (Z.eq_dec b 0) as [-> |]; [apply Z.bits_0|]. apply Z.bits_above_log2; [lia|].
    assert (Z.log2 b < k); [apply Z.log2_lt_pow2; lia|lia]. }
  by rewrite F, andb_false_r.
Qed.
Lemma lor_shiftl a b k : 0 <= k -> 0 <= b < 2 ^ k -> Z.lor (Z.shiftl a k) b = a * 2 ^ k + b.
Proof.
  intros K B. pose proof (land_shiftl a b k K B) as L.
  rewrite <- Z.lxor_lor by done. rewrite <- Z.add_nocarry_lxor by done. by rewrite Z.shiftl_mul_pow2.
Qed.
Lemma digit_mod n : digit n = nth (Z.to_nat (n mod 64)) ALPHABET 0.
Proof. unfold digit. change 63 with (Z.ones 6). by rewrite Z.land_ones. Qed.

Lemma all_digits : forallb (fun k => bool_decide (value (nth k ALPHABET 0) = Some (Z.of_nat k))) (seq 0 64) = true.
Proof. by vm_compute. Qed.
Lemma value_digit n : value (digit n) = Some (n mod 64).
Proof.
  rewrite digit_mod. pose proof (Z.mod_pos_bound n 64). pose proof (proj1 (forallb_elem _ _) all_digits (Z.to_nat (n mod 64))) as A.
  cbv beta in A. rewrite bool_decide_eq_true in A. rewrite A; [f_equal; lia|]. apply elem_of_seq. lia.
Qed.
Lemma all_values : forallb (fun k => match value (Z.of_nat k) with
                                     | Some v => in_range 0 63 v && (nth (Z.to_nat v) ALPHABET 0 =? Z.of_nat k)
                                     | None => true
                                     end) (seq 43 80) = true.
Proof. by vm_compute. Qed.
Lemma digit_value b v : value b = Some v -> 0 <= v < 64 /\ forall n, n mod 64 = v -> digit n = b.
Proof.
  intros E. assert (R : 43 <= b < 123).
  { unfold value, in_range in E. repeat case_match; bprop; try discriminate; lia. }
  pose proof (proj1 (forallb_elem _ _) all_values (Z.to_nat b)) as A. cbv beta in A.
  rewrite Z2Nat.id, E in A by lia. assert (I : Z.to_nat b ∈ seq 43 80) by (apply elem_of_seq; lia).
  apply A in I. unfold in_range in I. bprop. split; [lia|]. intros n M. rewrite digit_mod, M. done.
Qed.

(** A word of three bytes, by arithmetic. *)
Lemma word_sum a b c : is_byte a = true -> is_byte b = true -> is_byte c = true -> word a b c = a * 65536 + b * 256 + c.
Proof.
  unfold is_byte, in_range, word. intros A B C. rewrite <- Z.lor_assoc, (lor_shiftl b c 8) by lia.
  rewrite lor_shiftl by lia. lia.
Qed.
Lemma digits_word_sum l : forall w vs, Forall2 (fun b v => value b = Some v) l vs -> 0 <= w ->
  digits_word l w = Some (fold_left (fun w v => w * 64 + v) vs w).
Proof.
  induction l as [|b l IH]; intros w vs F W; inversion F as [|? v ? vs' E F']; subst; [done|].
  cbn [digits_word fold_left]. rewrite E. cbn [mbind option_bind]. apply digit_value in E as [R _].
  rewrite (lor_shiftl w v 6) by lia. apply IH; [done|lia].
Qed.
Lemma digits_word_some l : forall w r, digits_word l w = Some r ->
  exists vs, Forall2 (fun b v => value b = Some v) l vs.
Proof.
  induction l as [|b l IH]; intros w r; [by exists []|]. cbn [digits_word].
  destruct (value b) as [v|] eqn:E; [|done]. intros D. apply IH in D as [vs F]. exists (v :: vs). by constructor.
Qed.

Lemma not_pad b v : value b = Some v -> (61 =? b) = false.
Proof. intros E. destruct (Z.eqb_spec 61 b) as [<-|]; [done|done]. Qed.

(** The padding of a chunk: how many of its last bytes are [=]. *)
Definition padding (chunk : bytes) : nat := length (fst (span (Z.eqb 61) (rev chunk))).

Lemma list_ind3 (P : bytes -> Prop) : P [] -> (forall a, P [a]) -> (forall a b, P [a; b]) ->
  (forall a b c r, P r -> P (a :: b :: c :: r)) -> forall l, P l.
Proof.
  intros P0 P1 P2 P3. assert (A : forall l, P l /\ (forall a, P (a :: l)) /\ forall a b, P (a :: b :: l)).
  { induction l as [|x l (H0 & H1 & H2)]; [by split_and!|]. split_and!; auto. }
  intros l. apply A.
Qed.

Ltac div_lia := Z.to_euclidean_division_equations; lia.
Ltac bytes_ := unfold is_byte, in_range in *; bprop; div_lia.

(** Four digits of six bits, back together. *)
Lemma six_bits n : 0 <= n < 16777216 ->
  (((0 * 64 + Z.shiftr n 18 mod 64) * 64 + Z.shiftr n 12 mod 64) * 64 + Z.shiftr n 6 mod 64) * 64 + n mod 64 = n.
Proof.
  intros N. rewrite !Z.shiftr_div_pow2 by lia. change (2 ^ 18) with (64 * 64 * 64). change (2 ^ 12) with (64 * 64).
  change (2 ^ 6) with 64. rewrite <- !Z.div_div by lia.
  div_lia.
Qed.

(** Decoding what was encoded: a whole chunk, and the two last ones. *)
Lemma decode_quad a b c last : is_byte a = true -> is_byte b = true -> is_byte c = true ->
  decode_chunk (quad a b c) last = Some [a; b; c].
Proof.
  intros A B C. unfold quad. rewrite word_sum by done. set (n := a * 65536 + b * 256 + c).
  assert (N : 0 <= n < 16777216) by (unfold n; bytes_).
  unfold decode_chunk. cbn [rev app span].
  rewrite (not_pad _ _ (value_digit n)). cbn [fst length Nat.ltb Nat.leb andb orb take Nat.sub].
  rewrite (digits_word_sum _ _ [Z.shiftr n 18 mod 64; Z.shiftr n 12 mod 64; Z.shiftr n 6 mod 64; n mod 64]);
    [|repeat constructor; apply value_digit|done].
  cbn [mbind option_bind fold_left]. rewrite six_bits by done. rewrite Z.shiftl_0_r. unfold be32. cbn [take drop].
  unfold n. f_equal. repeat f_equal; bytes_.
Qed.
Lemma decode_pair a b : is_byte a = true -> is_byte b = true ->
  decode_chunk (take 3 (quad a b 0) ++ [61]) true = Some [a; b].
Proof.
  intros A B. unfold quad. rewrite word_sum by done. set (n := a * 65536 + b * 256 + 0).
  assert (N : 0 <= n < 16777216) by (unfold n; bytes_).
  unfold decode_chunk. cbn [take rev app span]. change (61 =? 61) with true. cbv iota.
  rewrite (not_pad _ _ (value_digit (Z.shiftr n 6))). cbn [fst length Nat.ltb Nat.leb andb orb negb take Nat.sub].
  rewrite (digits_word_sum _ _ [Z.shiftr n 18 mod 64; Z.shiftr n 12 mod 64; Z.shiftr n 6 mod 64]);
    [|repeat constructor; apply value_digit|done].
  pose proof (six_bits n N) as W. cbn [mbind option_bind fold_left] in *.
  rewrite Z.shiftl_mul_pow2 by lia. change (2 ^ (6 * Z.of_nat 1)) with 64.
  assert (E : (((0 * 64 + Z.shiftr n 18 mod 64) * 64 + Z.shiftr n 12 mod 64) * 64 + Z.shiftr n 6 mod 64) * 64 = n).
  { assert (M : n mod 64 = 0) by (unfold n; div_lia). rewrite M in W. lia. }
  rewrite E. unfold be32. cbn [take drop existsb]. replace (n mod 256) with 0 by (unfold n; div_lia). cbn [orb negb Z.eqb].
  unfold n. f_equal. repeat f_equal; bytes_.
Qed.
Lemma decode_single a : is_byte a = true -> decode_chunk (take 2 (quad a 0 0) ++ [61; 61]) true = Some [a].
Proof.
  intros A. unfold quad. rewrite word_sum by done. set (n := a * 65536 + 0 * 256 + 0).
  assert (N : 0 <= n < 16777216) by (unfold n; bytes_).
  unfold decode_chunk. cbn [take rev app span]. change (61 =? 61) with true. cbv iota.
  rewrite (not_pad _ _ (value_digit (Z.shiftr n 12))). cbn [fst length Nat.ltb Nat.leb andb orb negb take Nat.sub].
  rewrite (digits_word_sum _ _ [Z.shiftr n 18 mod 64; Z.shiftr n 12 mod 64]); [|repeat constructor; apply value_digit|done].
  pose proof (six_bits n N) as W. cbn [mbind option_bind fold_left] in *.
  rewrite Z.shiftl_mul_pow2 by lia. change (2 ^ (6 * Z.of_nat 2)) with 4096.
  assert (E : ((0 * 64 + Z.shiftr n 18 mod 64) * 64 + Z.shiftr n 12 mod 64) * 4096 = n).
  { assert (M : n mod 64 = 0) by (unfold n; div_lia). rewrite M in W.
    assert (M' : Z.shiftr n 6 mod 64 = 0).
    { rewrite Z.shiftr_div_pow2 by lia. change (2 ^ 6) with 64. unfold n. div_lia. }
    rewrite M' in W. lia. }
  rewrite E. unfold be32. cbn [take drop existsb]. replace (n mod 256) with 0 by (unfold n; div_lia).
  replace ((n / 256) mod 256) with 0 by (unfold n; div_lia). cbn [orb negb Z.eqb].
  unfold n. f_equal. repeat f_equal; bytes_.
Qed.

(** Four digits of six bits, taken apart. *)
Lemma four_digits v1 v2 v3 v4 : 0 <= v1 < 64 -> 0 <= v2 < 64 -> 0 <= v3 < 64 -> 0 <= v4 < 64 ->
  let n := (((0 * 64 + v1) * 64 + v2) * 64 + v3) * 64 + v4 in
  0 <= n < 16777216 /\ Z.shiftr n 18 mod 64 = v1 /\ Z.shiftr n 12 mod 64 = v2 /\ Z.shiftr n 6 mod 64 = v3 /\ n mod 64 = v4.
Proof.
  intros R1 R2 R3 R4 n. rewrite !Z.shiftr_div_pow2 by lia. change (2 ^ 18) with (64 * 64 * 64).
  change (2 ^ 12) with (64 * 64). change (2 ^ 6) with 64. rewrite <- !Z.div_div by lia.
  assert (D : n / 64 = ((0 * 64 + v1) * 64 + v2) * 64 + v3) by (unfold n; div_lia). rewrite D.
  assert (D2 : (((0 * 64 + v1) * 64 + v2) * 64 + v3) / 64 = (0 * 64 + v1) * 64 + v2) by div_lia. rewrite D2.
  assert (D3 : ((0 * 64 + v1) * 64 + v2) / 64 = v1) by div_lia. rewrite D3. unfold n. split_and!; div_lia.
Qed.
(** The three bytes of a word, and the word again. *)
Definition bytes_of (n : Z) : bytes := [(n / 65536) mod 256; (n / 256) mod 256; n mod 256].
Lemma bytes_of_word n : 0 <= n < 16777216 ->
  forallb is_byte (bytes_of n) = true /\ word ((n / 65536) mod 256) ((n / 256) mod 256) (n mod 256) = n.
Proof.
  intros N. assert (B : forall x, is_byte (x mod 256) = true).
  { intros x. pose proof (Z.mod_pos_bound x 256). bytes_. }
  split; [cbn; by rewrite !B|]. rewrite word_sum by done. div_lia.
Qed.
Lemma word_digits v1 v2 v3 v4 a b c d : value a = Some v1 -> value b = Some v2 -> value c = Some v3 -> value d = Some v4 ->
  let n := (((0 * 64 + v1) * 64 + v2) * 64 + v3) * 64 + v4 in
  0 <= n < 16777216 /\ quad ((n / 65536) mod 256) ((n / 256) mod 256) (n mod 256) = [a; b; c; d].
Proof.
  intros [R1 A]%digit_value [R2 B]%digit_value [R3 C]%digit_value [R4 D]%digit_value n.
  destruct (four_digits v1 v2 v3 v4 R1 R2 R3 R4) as (N & E1 & E2 & E3 & E4). fold n in N, E1, E2, E3, E4.
  split; [exact N|]. unfold quad. rewrite (proj2 (bytes_of_word n N)). by rewrite A, B, C, D.
Qed.

(** What a chunk that decodes looks like. *)
Inductive Chunk (chunk : bytes) (last : bool) : bytes -> Prop :=
  | ChunkWhole p q r : forallb is_byte [p; q; r] = true -> quad p q r = chunk -> Chunk chunk last [p; q; r]
  | ChunkTwo p q : last = true -> forallb is_byte [p; q] = true -> take 3 (quad p q 0) ++ [61] = chunk -> Chunk chunk last [p; q]
  | ChunkOne p : last = true -> forallb is_byte [p] = true -> take 2 (quad p 0 0) ++ [61; 61] = chunk -> Chunk chunk last [p].

Lemma decode_chunk_inv a b c d last x : decode_chunk [a; b; c; d] last = Some x -> Chunk [a; b; c; d] last x.
Proof.
  unfold decode_chunk. cbn [rev app span].
  destruct (61 =? d) eqn:Ed; cycle 1.
  { cbn [fst length Nat.ltb Nat.leb andb orb take Nat.sub]. intros E.
    destruct (digits_word _ _) as [w|] eqn:W; [|done]. destruct (digits_word_some _ _ _ W) as [vs F].
    rewrite (digits_word_sum _ _ _ F) in W by done. inversion F as [|? v1 ? vs1 A F1]; subst.
    inversion F1 as [|? v2 ? vs2 B F2]; subst. inversion F2 as [|? v3 ? vs3 C F3]; subst.
    inversion F3 as [|? v4 ? vs4 D F4]; subst. inversion F4; subst. cbn [fold_left] in W. injection W as <-.
    cbn [mbind option_bind] in E. rewrite Z.shiftl_0_r in E. unfold be32 in E. cbn [take drop] in E. injection E as <-.
    destruct (word_digits _ _ _ _ _ _ _ _ A B C D) as [N Q]. apply ChunkWhole; [apply (bytes_of_word _ N)|exact Q]. }
  apply Z.eqb_eq in Ed as <-. destruct (61 =? c) eqn:Ec; cycle 1.
  { cbn [fst length Nat.ltb Nat.leb andb orb take Nat.sub]. destruct last; [|done]. cbn [negb]. intros E.
    destruct (digits_word _ _) as [w|] eqn:W; [|done]. destruct (digits_word_some _ _ _ W) as [vs F].
    rewrite (digits_word_sum _ _ _ F) in W by done. inversion F as [|? v1 ? vs1 A F1]; subst.
    inversion F1 as [|? v2 ? vs2 B F2]; subst. inversion F2 as [|? v3 ? vs3 C F3]; subst.
    inversion F3; subst. cbn [fold_left] in W. injection W as <-. cbn [mbind option_bind] in E.
    rewrite Z.shiftl_mul_pow2 in E by lia. change (2 ^ (6 * Z.of_nat 1)) with 64 in E.
    destruct (word_digits v1 v2 v3 0 a b c 65 A B C eq_refl) as [N Q].
    rewrite !Z.add_0_r in N, Q. unfold be32 in E. cbn [take drop existsb] in E. rewrite orb_false_r in E.
    set (n := (((0 * 64 + v1) * 64 + v2) * 64 + v3) * 64) in *. destruct (n mod 256 =? 0) eqn:M; [|done]. apply Z.eqb_eq in M.
    rewrite M in Q. cbn [negb] in E. injection E as <-.
    pose proof (proj1 (bytes_of_word n N)) as B3. cbn in B3. apply ChunkTwo; [done|cbn; bprop; by rewrite H, H0|by rewrite Q]. }
  apply Z.eqb_eq in Ec as <-. destruct (61 =? b) eqn:Eb.
  { destruct (61 =? a); done. }
  cbn [fst length Nat.ltb Nat.leb andb orb take Nat.sub]. destruct last; [|done]. cbn [negb]. intros E.
  destruct (digits_word _ _) as [w|] eqn:W; [|done]. destruct (digits_word_some _ _ _ W) as [vs F].
  rewrite (digits_word_sum _ _ _ F) in W by done. inversion F as [|? v1 ? vs1 A F1]; subst.
  inversion F1 as [|? v2 ? vs2 B F2]; subst. inversion F2; subst. cbn [fold_left] in W. injection W as <-.
  cbn [mbind option_bind] in E. rewrite Z.shiftl_mul_pow2 in E by lia. change (2 ^ (6 * Z.of_nat 2)) with (64 * 64) in E.
  destruct (word_digits v1 v2 0 0 a b 65 65 A B eq_refl eq_refl) as [N Q].
  rewrite !Z.add_0_r in N, Q. unfold be32 in E. cbn [take drop existsb] in E. rewrite orb_false_r, !Z.mul_assoc in E.
  set (n := (((0 * 64 + v1) * 64 + v2) * 64) * 64) in *.
  destruct ((n / 256) mod 256 =? 0) eqn:M1; [|done]. apply Z.eqb_eq in M1.
  destruct (n mod 256 =? 0) eqn:M; [|done]. apply Z.eqb_eq in M. cbn [negb orb] in E. injection E as <-.
  rewrite M, M1 in Q. pose proof (proj1 (bytes_of_word n N)) as B3. cbn in B3.
  apply ChunkOne; [done|cbn; bprop; by rewrite H|by rewrite Q].
Qed.

Lemma base64_quads d : (length (base64 d) mod 4 = 0)%nat.
Proof.
  induction d as [| | |a b c r IH] using list_ind3; try done. cbn [base64]. rewrite length_app.
  change (length (quad a b c)) with (1 * 4)%nat. rewrite Nat.add_comm. by rewrite Nat.Div0.mod_add.
Qed.
Lemma decode_base64 d : forallb is_byte d = true -> decode (base64 d) = Some d.
Proof.
  intros V. unfold decode. rewrite base64_quads. cbn [Nat.eqb]. revert V.
  induction d as [|a|a b|a b c r IH] using list_ind3; [done| | |]; cbn [forallb]; intros V; bprop; cbn [base64].
  - pose proof (decode_single a ltac:(done)) as D. unfold quad in *. cbn [take app decode_chunks negb is_nonempty] in *. by rewrite D.
  - pose proof (decode_pair a b ltac:(done) ltac:(done)) as D. unfold quad in *. cbn [take app decode_chunks negb is_nonempty] in *. by rewrite D.
  - pose proof (fun last => decode_quad a b c last ltac:(done) ltac:(done) ltac:(done)) as D. unfold quad in *.
    cbn [app decode_chunks]. rewrite D. cbn [mbind option_bind]. by rewrite IH.
Qed.
Lemma decode_chunks_inv n : forall t d, (length t <= n)%nat -> decode_chunks t = Some d ->
  base64 d = t /\ forallb is_byte d = true.
Proof.
  induction n as [|n IH]; intros t d L; destruct t as [|a [|b [|c [|e rest]]]]; cbn [length decode_chunks] in *;
    try lia; try done; [by intros [= <-]..|].
  destruct (decode_chunk _ _) as [x|] eqn:C; [|done]. cbn [mbind option_bind].
  destruct (decode_chunks rest) as [r|] eqn:R; [|done]. intros [= <-].
  apply IH in R as [E V]; [|lia]. apply decode_chunk_inv in C as [p q s B Q|p q La B Q|p La B Q].
  - split; [cbn [base64 app]; by rewrite Q, E|]. by rewrite forallb_app, B, V.
  - destruct rest; [|done]. destruct r as [|? [|? [|]]]; done.
  - destruct rest; [|done]. destruct r as [|? [|? [|]]]; done.
Qed.

(** ** Texts free of a byte *)

Definition free (c : Z) (s : bytes) : bool := forallb (fun b => negb (c =? b)) s.
Lemma free_app c a b : free c (a ++ b) = free c a && free c b.
Proof. apply forallb_app. Qed.
Lemma free_of (p : Z -> bool) c s : forallb p s = true -> p c = false -> free c s = true.
Proof.
  intros F N. apply forallb_elem. intros b I. apply (proj1 (forallb_elem _ _) F) in I.
  destruct (Z.eqb_spec c b) as [-> |]; [congruence|done].
Qed.
Lemma position_free c s rest : free c s = true -> position (Z.eqb c) (s ++ c :: rest) = Some (length s).
Proof.
  induction s as [|b s IH]; cbn; [by rewrite Z.eqb_refl|]. intros [B F]%andb_prop.
  apply negb_true_iff in B. rewrite B, (IH F). done.
Qed.
Lemma position_none c s : free c s = true -> position (Z.eqb c) s = None.
Proof.
  induction s as [|b s IH]; cbn; [done|]. intros [B F]%andb_prop. apply negb_true_iff in B. by rewrite B, (IH F).
Qed.
Lemma cut_free c s rest : free c s = true -> cut c (s ++ c :: rest) = (s, rest).
Proof.
  intros F. unfold cut. rewrite position_free by done. f_equal; [by rewrite take_app_length|].
  change (s ++ c :: rest) with (s ++ [c] ++ rest). rewrite app_assoc. replace (S (length s)) with (length (s ++ [c])).
  - by rewrite drop_app_length.
  - rewrite length_app. cbn. lia.
Qed.
Lemma cut_none c s : free c s = true -> cut c s = (s, []).
Proof. intros F. unfold cut. by rewrite position_none. Qed.
Lemma split_once_free c k v : free c k = true -> split_once c (k ++ c :: v) = Some (k, v).
Proof. intros F. pose proof (cut_free c k v F) as C. unfold cut, split_once in *. rewrite position_free in * by done. congruence. Qed.
Lemma split_join c ps : ps <> [] -> forallb (free c) ps = true -> split_on (Z.eqb c) (join [c] ps) = ps.
Proof.
  intros N. induction ps as [|p ps IH]; [done|]. cbn [forallb]. intros [P F]%andb_prop.
  destruct ps as [|q ps]; [by apply split_on_none|]. change (join [c] (p :: q :: ps)) with (p ++ c :: join [c] (q :: ps)).
  rewrite split_on_app by (done || apply Z.eqb_refl). by rewrite IH.
Qed.
Lemma free_join c x ps : (c =? x) = false -> forallb (free c) ps = true -> free c (join [x] ps) = true.
Proof.
  intros N. induction ps as [|p ps IH]; [done|]. cbn [forallb]. intros [P F]%andb_prop.
  destruct ps as [|q ps]; [done|]. change (join [x] (p :: q :: ps)) with (p ++ [x] ++ join [x] (q :: ps)).
  rewrite !free_app, P, IH by done. cbn. by rewrite N.
Qed.
Lemma span_free c s rest : free c s = true -> span (fun b => negb (b =? c)) (s ++ c :: rest) = (s, c :: rest).
Proof.
  induction s as [|b s IH]; cbn; [by rewrite Z.eqb_refl|]. intros [B F]%andb_prop. rewrite Z.eqb_sym, B, (IH F). done.
Qed.

(** The bytes of base64, and what a value in the metadata may hold. *)
Definition b64_byte (b : Z) : bool := bool_decide (is_Some (value b)) || (b =? 61).
Lemma digit_b64 n : b64_byte (digit n) = true.
Proof. unfold b64_byte. by rewrite value_digit. Qed.
Lemma base64_bytes d : forallb b64_byte (base64 d) = true.
Proof.
  induction d as [| | |a b c r IH] using list_ind3; [done|..]; cbn [base64]; unfold quad; cbn [take app forallb];
    rewrite ?digit_b64; done.
Qed.
Lemma decoded_bytes t d : decode t = Some d -> base64 d = t /\ forallb is_byte d = true.
Proof. unfold decode. destruct (_ =? _)%nat; [|done]. by apply decode_chunks_inv with (n := length t). Qed.
Lemma password_bytes p : bad_password (Some p) = false -> forallb b64_byte p = true.
Proof.
  cbn. intros D%negb_false_iff%bool_decide_eq_true. destruct D as [d D]. apply decoded_bytes in D as [<- _]. apply base64_bytes.
Qed.
Lemma id_bytes i : bad_id (Some i) = false -> forallb id_byte i = true.
Proof. cbn. intros V%negb_false_iff. unfold valid_id in V. bprop. done. Qed.

Definition value_ok (s : bytes) : bool := free 27 s && free 58 s && free 59 s.
Lemma b64_ok s : forallb b64_byte s = true -> value_ok s = true.
Proof. intros F. unfold value_ok. by rewrite !(free_of _ _ _ F). Qed.
Lemma id_ok s : forallb id_byte s = true -> value_ok s = true.
Proof. intros F. unfold value_ok. by rewrite !(free_of _ _ _ F). Qed.

(** ** Reading one sequence *)

Definition key_text (kv : bytes * bytes) : bytes := kv.1 ++ 61 :: kv.2.
Definition meta_text (kvs : list (bytes * bytes)) : bytes := join [58] (key_text <$> kvs).
Definition key_ok (kv : bytes * bytes) : bool := value_ok kv.1 && free 61 kv.1 && value_ok kv.2.

Ltac rw_true := repeat match goal with H : ?b = true |- context [?b] => rewrite H end.
Lemma key_text_ok kv : key_ok kv = true -> value_ok (key_text kv) = true.
Proof.
  destruct kv as [k v]. unfold key_ok, value_ok, key_text. cbn [fst snd]. intros H. bprop.
  change (k ++ 61 :: v) with (k ++ [61] ++ v). rewrite !free_app. rw_true. done.
Qed.
Lemma meta_free c kvs : (c = 27 \/ c = 59) -> forallb key_ok kvs = true -> free c (meta_text kvs) = true.
Proof.
  intros C F. apply free_join; [by destruct C; subst|]. apply forallb_elem. intros p I.
  apply list_elem_of_fmap in I as (kv & -> & I). apply (proj1 (forallb_elem _ _) F), key_text_ok in I.
  unfold value_ok in I. bprop. by destruct C; subst.
Qed.
Lemma meta_pairs kvs : kvs <> [] -> forallb key_ok kvs = true ->
  mapM (split_once 61) (split_on (Z.eqb 58) (meta_text kvs)) = Some kvs.
Proof.
  intros N F. unfold meta_text. rewrite split_join.
  - clear N. induction kvs as [|[k v] kvs IH]; [done|]. cbn [forallb] in F. apply andb_prop in F as [K F].
    unfold key_ok in K. bprop. cbn [fmap list_fmap mapM]. change (key_text (k, v)) with (k ++ 61 :: v).
    rewrite split_once_free by done. cbn [mbind option_bind]. by rewrite (IH F).
  - by destruct kvs.
  - apply forallb_elem. intros p I. apply list_elem_of_fmap in I as (kv & -> & I).
    apply (proj1 (forallb_elem _ _) F), key_text_ok in I. unfold value_ok in I. by bprop.
Qed.
Lemma hear_meta kvs : kvs <> [] -> forallb key_ok kvs = true -> hear_body (meta_text kvs) = Some (mkHeard kvs []).
Proof. intros N F. unfold hear_body. rewrite cut_none by (apply meta_free; auto). by rewrite meta_pairs. Qed.
Lemma hear_data kvs d : kvs <> [] -> forallb key_ok kvs = true -> forallb is_byte d = true ->
  hear_body (meta_text kvs ++ 59 :: base64 d) = Some (mkHeard kvs d).
Proof.
  intros N F B. unfold hear_body. rewrite cut_free by (apply meta_free; auto). rewrite meta_pairs by done.
  cbn [mbind option_bind]. by rewrite decode_base64.
Qed.

(** ** Reading a stream of sequences *)

Definition sequence (body : bytes) : bytes := OSC_5522 ++ body ++ ST.
Definition reads (body : bytes) (h : Heard) : Prop := free 27 body = true /\ hear_body body = Some h.

Lemma hear_sequences bodies hs : Forall2 reads bodies hs -> forall n,
  (length (concat (sequence <$> bodies)) <= n)%nat -> hear_fuel n (concat (sequence <$> bodies)) = Some hs.
Proof.
  induction 1 as [|body h bodies hs [F H] _ IH]; intros n L; [by destruct n|].
  cbn [fmap list_fmap concat] in *. unfold sequence at 1 in L. unfold sequence at 1. rewrite !length_app in L.
  destruct n as [|n]; [cbn in L; lia|]. rewrite <- !app_assoc. cbn [hear_fuel].
  set (rest := concat _) in *. change (OSC_5522 ++ body ++ ST ++ rest) with (27 :: 93 :: str "5522;" ++ body ++ ST ++ rest).
  change (27 :: 93 :: str "5522;" ++ body ++ ST ++ rest) with (OSC_5522 ++ body ++ ST ++ rest).
  rewrite (proj2 (strip_prefix_Some OSC_5522 _ _) eq_refl). cbn [mbind option_bind].
  change (ST ++ rest) with (27 :: 92 :: rest). rewrite span_free by done.
  change (27 :: 92 :: rest) with (ST ++ rest). rewrite (proj2 (strip_prefix_Some ST _ _) eq_refl). cbn [mbind option_bind].
  rewrite H. cbn [mbind option_bind]. rewrite IH; [done|]. cbn in L. lia.
Qed.
Lemma hear_all bodies hs : Forall2 reads bodies hs -> hear (concat (sequence <$> bodies)) = Some hs.
Proof. intros F. by apply hear_sequences. Qed.

(** ** Chunks *)

Lemma chunks_fuel_spec n l : (0 < n)%nat -> forall fuel, (length l <= fuel)%nat ->
  concat (chunks_fuel fuel n l) = l /\ Forall (fun c => c <> [] /\ (length c <= n)%nat) (chunks_fuel fuel n l).
Proof.
  intros N fuel. revert l. induction fuel as [|fuel IH]; intros [|x l] L; cbn [chunks_fuel length] in *; try (by split; [|constructor]); [lia|].
  destruct (IH (drop n (x :: l))) as [C F]; [rewrite length_drop; cbn; lia|].
  cbn [concat]. rewrite C, take_drop. split; [done|]. constructor; [|done]. split; [by destruct n; [lia|]|].
  rewrite length_take. lia.
Qed.
Lemma chunks_spec n l : (0 < n)%nat -> concat (chunks n l) = l /\ Forall (fun c => c <> [] /\ (length c <= n)%nat) (chunks n l).
Proof. intros N. by apply chunks_fuel_spec. Qed.
Lemma concat_bytes (ls : list bytes) : forallb is_byte (concat ls) = true -> Forall (fun c => forallb is_byte c = true) ls.
Proof.
  induction ls as [|l ls IH]; cbn [concat]; [by constructor|]. rewrite forallb_app. intros [A B]%andb_prop. constructor; auto.
Qed.

(** ** A packet as sequences *)

(** The text of one sequence that says this. *)
Definition body_of (h : Heard) : bytes :=
  meta_text (keys h) ++ (if is_nonempty (payload h) then 59 :: base64 (payload h) else []).
Definition sayable (h : Heard) : Prop :=
  keys h <> [] /\ forallb key_ok (keys h) = true /\ forallb is_byte (payload h) = true.
Lemma body_reads h : sayable h -> reads (body_of h) h.
Proof.
  destruct h as [kvs d]. intros (N & K & B). cbn [keys payload] in *. unfold reads, body_of. cbn [keys payload].
  destruct d as [|x d]; cbn [is_nonempty].
  - rewrite app_nil_r. split; [apply meta_free; auto|by apply hear_meta].
  - split; [|by apply hear_data]. change (59 :: base64 (x :: d)) with ([59] ++ base64 (x :: d)).
    rewrite !free_app, (meta_free 27) by auto. cbn [free forallb negb andb Z.eqb].
    apply (free_of b64_byte); [apply base64_bytes|done].
Qed.
Lemma base64_nonempty d : is_nonempty d = is_nonempty (base64 d).
Proof. destruct d as [|a [|b [|c r]]]; done. Qed.
Lemma osc_sequence h : osc (meta_text (keys h)) (base64 (payload h)) = sequence (body_of h).
Proof.
  unfold osc, sequence, body_of. rewrite <- base64_nonempty, <- !app_assoc. by destruct (is_nonempty (payload h)).
Qed.
Lemma osc_chunks kvs cs : concat ((fun c => osc (meta_text kvs) (base64 c)) <$> cs)
  = concat (sequence <$> (body_of <$> (mkHeard kvs <$> cs))).
Proof. induction cs as [|c cs IH]; [done|]. cbn [fmap list_fmap concat]. rewrite <- (osc_sequence (mkHeard kvs c)). f_equal. exact IH. Qed.

Lemma key_ok_pair k v : forallb b64_byte (str k) = true -> free 61 (str k) = true -> value_ok v = true -> key_ok (pair_ k v) = true.
Proof. intros K F V. unfold key_ok, pair_. cbn [fst snd]. rewrite (b64_ok _ K), F. done. Qed.
Lemma status_ok st i : value_ok st = true -> bad_id i = false -> forallb key_ok (status_keys st i) = true.
Proof.
  intros S B. unfold status_keys. rewrite forallb_app. cbn [forallb].
  rewrite (key_ok_pair "status" st) by done. destruct i as [i|]; [|done]. cbn [forallb].
  rewrite (key_ok_pair "id" i) by (done || by apply id_ok, id_bytes). done.
Qed.
Lemma password_ok p : bad_password p = false -> forallb key_ok (password_keys p) = true.
Proof.
  intros B. destruct p as [p|]; [|done]. cbn [password_keys forallb].
  rewrite (key_ok_pair "pw" p) by (done || by apply b64_ok, password_bytes). done.
Qed.
Lemma read_status_meta st i : read_status st i = meta_text (status_keys st i).
Proof. by destruct i. Qed.
Lemma data_meta i mime : read_status (str "DATA") i ++ str ":mime=" ++ base64 mime
  = meta_text (status_keys (str "DATA") i ++ [pair_ "mime" (base64 mime)]).
Proof. destruct i as [i|]; [|done]. unfold read_status. rewrite <- !app_assoc. done. Qed.
Lemma listing_meta st l p : value_ok st = true -> str "type=read:status=" ++ st ++ loc_key l ++ pw_key p
  = meta_text (status_keys st None ++ location_keys l ++ password_keys p).
Proof. by destruct l, p; cbn; rewrite ?app_nil_r. Qed.

Lemma status_text_ok e : value_ok (status e) = true.
Proof. by destruct e. Qed.
Lemma mime_bytes m : valid_mime m = true -> forallb is_byte m = true.
Proof.
  unfold valid_mime. intros V. bprop. apply forallb_elem. intros b I. apply (proj1 (forallb_elem _ _) H0) in I.
  unfold is_ascii_graphic in I. bytes_.
Qed.
Lemma join_bytes x ms : is_byte x = true -> forallb valid_mime ms = true -> forallb is_byte (join [x] ms) = true.
Proof.
  intros X. induction ms as [|m ms IH]; [done|]. cbn [forallb]. intros [M F]%andb_prop.
  destruct ms as [|q ms]; [by apply mime_bytes|]. change (join [x] (m :: q :: ms)) with (m ++ [x] ++ join [x] (q :: ms)).
  rewrite !forallb_app, (mime_bytes m M), IH by done. cbn. by rewrite X.
Qed.
Lemma chunks_sayable kvs n l : (0 < n)%nat -> kvs <> [] -> forallb key_ok kvs = true -> forallb is_byte l = true ->
  Forall sayable (mkHeard kvs <$> chunks n l).
Proof.
  intros N K F B. destruct (chunks_spec n l N) as [C _]. rewrite <- C in B. apply concat_bytes in B.
  apply Forall_fmap. eapply Forall_impl; [exact B|]. intros c X. by split_and!.
Qed.
Lemma chunk_pos : (0 < DATA_CHUNK)%nat.
Proof. unfold DATA_CHUNK. lia. Qed.
Definition data_of (p : PastePacket) : bytes := match p with ReadData _ data => data | _ => [] end.

Lemma ok_inj {A B} (x y : A) : @Ok A B x = Ok y -> x = y.
Proof. congruence. Qed.

Lemma said_by hs out : Forall sayable hs /\ out = concat (sequence <$> (body_of <$> hs)) ->
  exists bodies, Forall2 reads bodies hs /\ out = concat (sequence <$> bodies).
Proof.
  intros [S ->]. exists (body_of <$> hs). split; [|done]. apply Forall2_fmap_l, Forall_Forall2_diag.
  eapply Forall_impl; [exact S|]. intros h. apply body_reads.
Qed.

(** What a packet is encoded as says what the packet does. *)
Lemma encode_says p i out : encode p i = Ok out -> forallb is_byte (data_of p) = true ->
  exists bodies, Forall2 reads bodies (says i p) /\ out = concat (sequence <$> bodies).
Proof.
  unfold encode. destruct (bad_id i) eqn:I; [done|].
  assert (One : forall st, value_ok st = true -> sayable (mkHeard (status_keys st i) [])).
  { intros st S. split_and!; [by destruct i|by apply status_ok|done]. }
  assert (OneT : forall st, osc (read_status st i) [] = concat (sequence <$> [body_of (mkHeard (status_keys st i) [])])).
  { intros st. rewrite read_status_meta. cbn [fmap list_fmap concat]. rewrite app_nil_r.
    apply (osc_sequence (mkHeard (status_keys st i) [])). }
  destruct p as [l pw ms| |mime data| |e]; cbn [data_of].
  - destruct (_ || _) eqn:V; [done|]. destruct (bad_password pw) eqn:P; [done|].
    destruct (listing_large _ _); [done|]. intros <-%ok_inj _. apply orb_false_elim in V as [_ M%negb_false_iff].
    assert (D : Forall sayable (mkHeard (status_keys (str "DATA") None ++ [pair_ "mime" (base64 (str "."))] ++ password_keys pw)
                                <$> chunks DATA_CHUNK (join [32] ms))).
    { apply chunks_sayable; [exact chunk_pos|done| |by apply join_bytes].
      rewrite !forallb_app, (status_ok (str "DATA") None), password_ok by done. done. }
    apply said_by. split.
    + cbn [says]. apply Forall_app. split.
      { constructor; [|done]. split_and!; [done| |done]. cbn [keys].
        rewrite !forallb_app, (status_ok (str "OK") None), password_ok by done. by destruct l. }
      apply Forall_app. split; [done|]. constructor; [|done]. split_and!; [done| |done]. cbn [keys].
      rewrite !forallb_app, (status_ok (str "DONE") None), password_ok by done. done.
    + cbn [says]. rewrite !fmap_app, !concat_app. apply (f_equal2 app); [|apply (f_equal2 app)].
      * cbn [fmap list_fmap concat]. rewrite app_nil_r.
        rewrite <- (osc_sequence (mkHeard (status_keys (str "OK") None ++ location_keys l ++ password_keys pw) [])).
        exact (f_equal (fun m => osc m []) (listing_meta (str "OK") l pw eq_refl)).
      * rewrite <- osc_chunks. f_equal. apply list_fmap_ext. intros _ c _. f_equal. by destruct pw.
      * cbn [fmap list_fmap concat]. rewrite app_nil_r.
        rewrite <- (osc_sequence (mkHeard (status_keys (str "DONE") None ++ password_keys pw) [])).
        exact (f_equal (fun m => osc m []) (listing_meta (str "DONE") Clipboard pw eq_refl)).
  - intros <-%ok_inj _. apply said_by. split; [constructor; [by apply One|done]|apply OneT].
  - destruct (negb (valid_mime mime)) eqn:M; [done|]. destruct (MAX_PACKET <? blen data); [done|]. intros <-%ok_inj B.
    rewrite data_meta. set (kvs := status_keys _ _ ++ _).
    assert (K : kvs <> [] /\ forallb key_ok kvs = true).
    { unfold kvs. split; [by destruct i|]. rewrite forallb_app, (status_ok (str "DATA") i) by done. cbn [forallb].
      rewrite (key_ok_pair "mime" (base64 mime)) by (done || apply b64_ok, base64_bytes). done. }
    destruct K as [K0 K]. cbn [says]. fold kvs. destruct data as [|x data]; cbn [is_nonempty].
    + exists [meta_text kvs ++ [59]]. split.
      * constructor; [|done]. split.
        -- rewrite free_app, (meta_free 27) by auto. done.
        -- apply (hear_data kvs []); done.
      * cbn [fmap list_fmap concat app]. rewrite app_nil_r. unfold sequence. by rewrite <- app_assoc.
    + apply said_by. rewrite app_nil_r. cbn [says is_nonempty]. fold kvs. split.
      * apply chunks_sayable; [exact chunk_pos|done..].
      * by rewrite osc_chunks.
  - intros <-%ok_inj _. apply said_by. split; [constructor; [by apply One|done]|apply OneT].
  - intros <-%ok_inj _. apply said_by. split; [constructor; [apply One, status_text_ok|done]|apply OneT].
Qed.

(** ** A request read back *)

Lemma whitespace_free m : valid_mime m = true -> forallb (fun c => negb (is_ascii_whitespace c)) m = true.
Proof.
  unfold valid_mime. intros V. bprop. apply forallb_elem. intros b I. apply (proj1 (forallb_elem _ _) H0) in I.
  unfold is_ascii_graphic, is_ascii_whitespace, in_range in *. lia.
Qed.
Lemma split_mimes ms : is_nonempty ms = true -> forallb valid_mime ms = true -> split_ascii_whitespace (join [32] ms) = ms.
Proof.
  intros N. unfold split_ascii_whitespace. induction ms as [|m ms IH]; [done|]. cbn [forallb]. intros [M F]%andb_prop.
  assert (Ne : is_nonempty m = true) by (unfold valid_mime in M; by bprop).
  destruct ms as [|q ms].
  - cbn [join]. rewrite split_on_none by (by apply whitespace_free). cbn [List.filter]. by rewrite Ne.
  - change (join [32] (m :: q :: ms)) with (m ++ 32 :: join [32] (q :: ms)).
    rewrite split_on_app by (done || by apply whitespace_free). cbn [List.filter]. rewrite Ne. by rewrite IH.
Qed.
Lemma ascii_utf8 (p : Z -> bool) s : (forall b, p b = true -> in_range 0 127 b = true) -> forallb p s = true ->
  from_utf8 s = Some s.
Proof.
  intros P F. apply from_utf8_ascii, forallb_elem. intros b I. apply P. by apply (proj1 (forallb_elem _ _) F).
Qed.
Definition ascii (s : bytes) : bool := forallb (in_range 0 127) s.
Lemma b64_ascii s : forallb b64_byte s = true -> ascii s = true.
Proof.
  intros F. apply forallb_elem. intros b I. apply (proj1 (forallb_elem _ _) F) in I. unfold b64_byte in I.
  apply orb_true_iff in I as [I|I%Z.eqb_eq]; [|by subst]. apply bool_decide_eq_true in I as [v E].
  unfold value, in_range in *. repeat case_match; bprop; try discriminate; lia.
Qed.
Lemma id_ascii s : forallb id_byte s = true -> ascii s = true.
Proof.
  intros F. apply forallb_elem. intros b I. apply (proj1 (forallb_elem _ _) F) in I.
  unfold id_byte, is_ascii_alphanumeric, is_ascii_alphabetic, is_ascii_digit, is_ascii_lowercase, is_ascii_uppercase, memb, in_range in *.
  change (str "-_+.") with [45; 95; 43; 46] in I. cbn [existsb] in I. lia.
Qed.
Lemma ascii_app a b : ascii (a ++ b) = ascii a && ascii b.
Proof. apply forallb_app. Qed.

(** The keys of a request, one at a time. *)
Lemma parse_keys_app k a b : parse_keys k (a ++ b) = let? k := parse_keys k a in parse_keys k b.
Proof. revert k. induction a as [|p a IH]; intros k; [done|]. cbn [app parse_keys]. destruct (parse_key k p); [apply IH|done]. Qed.
Definition opt_piece (k : string) (v : option bytes) : list bytes := match v with Some v => [str k ++ [61] ++ v] | None => [] end.
Definition loc_piece (l : Location) : list bytes := match l with Primary => [str "loc=primary"] | Clipboard => [] end.
Definition pieces (r : ReadRequest) : list bytes :=
  [str "type=read"] ++ loc_piece (location r) ++ opt_piece "id" (id r) ++ opt_piece "pw" (password r)
  ++ opt_piece "name" (base64 <$> name r).
Lemma request_pieces r : request_text r = str "5522;" ++ join [58] (pieces r) ++ [59] ++ base64 (join [32] (mimes r)).
Proof.
  destruct r as [ms [] [i|] [pw|] [n|]]; unfold request_text, pieces, loc_key, opt_key, loc_piece, opt_piece;
    cbn [location id password name mimes fmap option_fmap option_map app join];
    repeat (progress (rewrite <- ?app_assoc; cbn [app])); reflexivity.
Qed.

Lemma parse_pieces r : valid_request r = true ->
  exists sn, parse_keys no_keys (pieces r) = Some (mkKeys sn (Some (str "read")) (location r) (id r) (password r) (name r)).
Proof.
  unfold valid_request, pieces. destruct r as [ms l i pw n]; cbn [location id password name mimes]. intros V.
  apply andb_prop in V as [V _]. apply andb_prop in V as [V N]. apply andb_prop in V as [V P]. apply andb_prop in V as [_ I].
  assert (Ik : match i with Some i => valid_id i = true | None => True end).
  { destruct i; [|done]. apply negb_true_iff, negb_false_iff in I. exact I. }
  assert (Pk : match pw with Some p => exists d, decode p = Some d | None => True end).
  { destruct pw as [p|]; [|done]. apply negb_true_iff, negb_false_iff, bool_decide_eq_true in P. exact P. }
  assert (Nk : match n with Some n => decode (base64 n) = Some n /\ exists t, from_utf8 n = Some t | None => True end).
  { destruct n as [n|]; [|done]. apply andb_prop in N as [B U]. apply bool_decide_eq_true in U.
    split; [by apply decode_base64|exact U]. }
  clear I P N. destruct pw as [p|]; [destruct Pk as [d Pk]|]; (destruct n as [n|]; [destruct Nk as [Nk [t Nt]]|]);
    destruct l, i as [i|]; eexists; cbv -[valid_id decode from_utf8 base64]; rewrite ?Ik; cbv -[valid_id decode from_utf8 base64];
    rewrite ?Pk; cbv -[valid_id decode from_utf8 base64]; rewrite ?Nk; cbv -[valid_id decode from_utf8 base64];
    rewrite ?Nt; reflexivity.
Qed.

(** ** The size of an answer *)

Lemma base64_length d : blen (base64 d) = (blen d + 2) / 3 * 4.
Proof.
  induction d as [|a|a b|a b c r IH] using list_ind3; try reflexivity.
  cbn [base64]. rewrite blen_app, IH, !blen_cons. change (blen (quad a b c)) with 4.
  replace (1 + (1 + (1 + blen r)) + 2) with (1 * 3 + (blen r + 2)) by lia. rewrite Z.div_add_l by lia. lia.
Qed.
(** The most one sequence takes: its metadata at their longest and a full chunk. *)
Definition SEQUENCE_MAX : Z := 6101.
Lemma id_length i : bad_id i = false -> blen (read_status (str "DATA") i) <= 21 + 260.
Proof.
  intros B. destruct i as [i|]; cbn [read_status].
  - apply negb_false_iff in B. unfold valid_id in B. bprop. rewrite !blen_app. unfold MAX_ID in *.
    change (blen (str "type=read:status=")) with 17. change (blen (str "DATA")) with 4. change (blen (str ":id=")) with 4. lia.
  - done.
Qed.
Lemma data_metadata i mime : bad_id i = false -> valid_mime mime = true ->
  blen (read_status (str "DATA") i ++ str ":mime=" ++ base64 mime) <= 627.
Proof.
  intros B M. pose proof (id_length i B). rewrite !blen_app, base64_length. change (blen (str ":mime=")) with 6.
  unfold valid_mime, MAX_MIME in M. bprop. assert ((blen mime + 2) / 3 <= 85) by div_lia. lia.
Qed.
Lemma osc_length metadata c : blen metadata <= 627 -> (length c <= DATA_CHUNK)%nat -> blen (osc metadata (base64 c)) <= SEQUENCE_MAX.
Proof.
  intros M C. unfold osc, SEQUENCE_MAX. rewrite !blen_app. change (blen OSC_5522) with 7. change (blen ST) with 2.
  assert (L : blen (base64 c) <= 5464).
  { rewrite base64_length. unfold DATA_CHUNK in C. assert ((blen c + 2) / 3 <= 1366); [|lia].
    unfold blen. assert (Z.of_nat (length c) <= 4096) by lia. div_lia. }
  destruct (is_nonempty (base64 c)); rewrite ?blen_cons; change (blen (@nil Z)) with 0; lia.
Qed.
Lemma concat_length (ls : list bytes) m : Forall (fun l => blen l <= m) ls -> blen (concat ls) <= m * Z.of_nat (length ls).
Proof. induction 1 as [|l ls L _ IH]; cbn [concat length]; [change (blen (@nil Z)) with 0; lia|]. rewrite blen_app. lia. Qed.
Lemma full_chunks n k : (0 < n)%nat -> forall fuel l, (length l <= fuel)%nat -> length l = (k * n)%nat ->
  length (chunks_fuel fuel n l) = k.
Proof.
  intros N. induction k as [|k IH]; intros fuel l L E.
  - destruct l; [by destruct fuel|done].
  - destruct l as [|x l]; [cbn in E; lia|]. destruct fuel as [|fuel]; [cbn in L; lia|].
    cbn [chunks_fuel length]. f_equal. apply IH; rewrite length_drop; cbn [length] in *; lia.
Qed.
(** Data in full chunks takes at most a full sequence per chunk. *)
Lemma data_length i mime data out k : encode (ReadData mime data) i = Ok out -> (0 < k)%nat -> length data = (k * DATA_CHUNK)%nat ->
  blen out <= SEQUENCE_MAX * Z.of_nat k.
Proof.
  intros E K L. unfold encode in E. destruct (bad_id i) eqn:I; [done|]. destruct (valid_mime mime) eqn:M; [|done]. cbn [negb] in E.
  destruct (MAX_PACKET <? blen data); [done|]. apply ok_inj in E as <-.
  assert (Ne : is_nonempty data = true). { destruct data; [|done]. cbn [length] in L. pose proof chunk_pos. lia. }
  rewrite Ne, app_nil_r. set (ls := _ <$> _). assert (Len : length ls = k).
  { unfold ls. rewrite length_fmap. unfold chunks. apply full_chunks; [apply chunk_pos|done|done]. }
  rewrite <- Len. apply concat_length. unfold ls. apply Forall_fmap.
  destruct (chunks_spec DATA_CHUNK data chunk_pos) as [_ F]. eapply Forall_impl; [exact F|]. intros c [_ C].
  apply osc_length; [by apply data_metadata|done].
Qed.

(** ** Theorems *)

(** C38: Base64 is canonical: a text decodes to some data exactly when it is the encoding of
    that data. *)
Theorem base64_canonical (text d : bytes) :
  decode text = Some d <-> text = base64 d /\ forallb is_byte d = true.
Proof.
  split; [|by intros [-> B]; apply decode_base64]. intros D. by apply decoded_bytes in D as [<- B].
Qed.

(** C39: A program reads from encoded packets exactly what they say, in order, however many
    follow one another: the chunks of a type give its data back, those of a listing the
    clipboard's types. *)
Theorem packets_read_back (i : option bytes) (ps : list PastePacket) (outs : list bytes) :
  Forall2 (fun p out => encode p i = Ok out /\ forallb is_byte (data_of p) = true) ps outs ->
  hear (concat outs) = Some (concat (says i <$> ps))
  /\ Forall (fun p => match p with
                      | ReadData _ data => concat (payload <$> says i p) = data
                      | Listing _ _ ms => split_ascii_whitespace (concat (payload <$> says i p)) = ms
                      | _ => True
                      end) ps.
Proof.
  intros F. assert (P : forall kvs (cs : list bytes), payload <$> (mkHeard kvs <$> cs) = cs).
  { intros kvs cs. induction cs as [|c cs IH]; [done|]. cbn [fmap list_fmap payload]. f_equal. exact IH. }
  split.
  - assert (B : exists bodies, Forall2 reads bodies (concat (says i <$> ps)) /\ concat outs = concat (sequence <$> bodies)).
    { induction F as [|p out ps outs [E D] _ (bs & R & IH)]; [by exists []; split|].
      destruct (encode_says _ _ _ E D) as (b & R1 & ->). exists (b ++ bs). cbn [fmap list_fmap concat]. split.
      - by apply Forall2_app.
      - by rewrite fmap_app, concat_app, IH. }
    destruct B as (bodies & R & ->). by apply hear_all.
  - induction F as [|p out ps outs [E _] _ IH]; constructor; [|exact IH]. destruct p as [l pw ms| |mime data| |e]; [|done| |done..].
    + unfold encode in E. destruct (bad_id i); [done|]. destruct (_ || _) eqn:V; [done|].
      apply orb_false_elim in V as [N%negb_false_iff M%negb_false_iff].
      cbn [says]. rewrite !fmap_app, P, !concat_app. cbn [fmap list_fmap concat payload app].
      rewrite app_nil_r, (proj1 (chunks_spec DATA_CHUNK _ chunk_pos)). by apply split_mimes.
    + cbn [says]. rewrite P. destruct data as [|x data]; [done|]. cbn [is_nonempty].
      apply (chunks_spec DATA_CHUNK _ chunk_pos).
Qed.

(** A valid request, with whichever keys, is parsed as itself. *)
Theorem request_read_back (r : ReadRequest) : valid_request r = true -> parse (request_text r) = Some r.
Proof.
  intros V. destruct (parse_pieces r V) as [sn K]. unfold valid_request in V. unfold parse.
  apply andb_prop in V as [V S]. apply andb_prop in V as [V N]. apply andb_prop in V as [V P]. apply andb_prop in V as [V I].
  apply andb_prop in V as [Ne M]. replace (MAX_METADATA <? blen (request_text r)) with false by lia.
  assert (B64 : forall n, name r = Some n -> forallb b64_byte (base64 n) = true) by (intros; apply base64_bytes).
  assert (F : forallb (fun p => free 58 p && free 59 p && ascii p) (pieces r) = true).
  { unfold pieces. rewrite !forallb_app. destruct r as [ms l i pw n]. cbn [location id password name] in *.
    assert (O : forall k v, free 58 (str k) = true -> free 59 (str k) = true -> ascii (str k) = true ->
                match v with Some x => value_ok x = true /\ ascii x = true | None => True end ->
                forallb (fun p => free 58 p && free 59 p && ascii p) (opt_piece k v) = true).
    { intros k [x|] F1 F2 A X; [|done]. destruct X as [X Y]. unfold value_ok in X. bprop. cbn [opt_piece forallb].
      rewrite !free_app, !ascii_app. rw_true. done. }
    rewrite (O "id"%string i), (O "pw"%string pw), (O "name"%string (base64 <$> n)); try done.
    - by destruct l.
    - destruct n as [n|]; [|done]. cbn. split; [apply b64_ok|apply b64_ascii]; apply base64_bytes.
    - destruct pw as [p|]; [|done]. apply negb_true_iff in P. apply password_bytes in P. split; [by apply b64_ok|by apply b64_ascii].
    - destruct i as [i|]; [|done]. apply negb_true_iff in I. apply id_bytes in I. split; [by apply id_ok|by apply id_ascii]. }
  assert (Free : forall c, (c = 58 \/ c = 59) -> forallb (free c) (pieces r) = true).
  { intros c C. apply forallb_elem. intros p Ip. apply (proj1 (forallb_elem _ _) F) in Ip. bprop. by destruct C; subst. }
  rewrite request_pieces. rewrite (proj2 (strip_prefix_Some (str "5522;") _ _) eq_refl). cbn [mbind option_bind].
  change (join [58] (pieces r) ++ [59] ++ base64 (join [32] (mimes r))) with (join [58] (pieces r) ++ 59 :: base64 (join [32] (mimes r))).
  rewrite cut_free by (apply free_join; [done|apply Free; auto]).
  assert (U : from_utf8 (join [58] (pieces r)) = Some (join [58] (pieces r))).
  { apply from_utf8_ascii. clear -F. induction (pieces r) as [|p ps IH]; [done|]. cbn [forallb] in F. apply andb_prop in F as [Fp F].
    apply andb_prop in Fp as [_ A]. destruct ps as [|q ps]; [exact A|].
    change (join [58] (p :: q :: ps)) with (p ++ [58] ++ join [58] (q :: ps)). rewrite !forallb_app. rewrite IH; [|done..].
    change (forallb (in_range 0 127) p) with (ascii p). by rewrite A. }
  rewrite U. cbn [mbind option_bind]. rewrite split_join; [|done|apply Free; auto]. rewrite K. cbn [mbind option_bind kind].
  change (negb (obeq (Some (str "read")) (Some (str "read")))) with false. cbv iota.
  rewrite decode_base64 by (by apply join_bytes). cbn [mbind option_bind].
  assert (U2 : exists t, from_utf8 (join [32] (mimes r)) = Some t).
  { exists (join [32] (mimes r)). apply from_utf8_ascii. clear -M. induction (mimes r) as [|m ms IH]; [done|]. cbn [forallb] in M.
    apply andb_prop in M as [Vm M]. assert (A : forallb (in_range 0 127) m = true).
    { unfold valid_mime in Vm. bprop. apply forallb_elem. intros b Ib. apply (proj1 (forallb_elem _ _) H0) in Ib.
      unfold is_ascii_graphic, in_range in *. lia. }
    destruct ms as [|q ms]; [exact A|]. change (join [32] (m :: q :: ms)) with (m ++ [32] ++ join [32] (q :: ms)).
    rewrite !forallb_app, A, IH by done. done. }
  destruct U2 as [t ->]. cbn [mbind option_bind]. rewrite split_mimes by done. rewrite Ne, M. cbn [andb k_location k_id k_password k_name].
  by destruct r.
Qed.

(** The answer a client may hold for one read has room for a full transaction sent in
    whole chunks, whatever the id and the types, as the limits say. *)
Theorem full_answer_fits (i : option bytes) (ok : bytes) (types : list (bytes * bytes)) (outs : list bytes) :
  encode ReadOk i = Ok ok ->
  Forall2 (fun td out => encode (ReadData td.1 td.2) i = Ok out
                         /\ exists k, (0 < k)%nat /\ length td.2 = (k * DATA_CHUNK)%nat) types outs ->
  blen (concat (snd <$> types)) <= MAX_TRANSACTION ->
  blen (ok ++ concat outs) <= MAX_ANSWER.
Proof.
  intros E F T.
  assert (B : 4096 * blen (concat outs) <= SEQUENCE_MAX * blen (concat (snd <$> types))).
  { clear E T. induction F as [|[m d] out types outs (E & k & K & L) _ IH]; [done|]. cbn [fmap list_fmap concat snd fst] in *.
    rewrite !blen_app. pose proof (data_length _ _ _ _ _ E K L) as D. unfold blen at 3. rewrite L.
    unfold SEQUENCE_MAX, DATA_CHUNK in *. lia. }
  unfold encode in E. destruct (bad_id i) eqn:I; [done|]. apply ok_inj in E as <-.
  assert (O : blen (osc (read_status (str "OK") i) []) <= 290).
  { pose proof (id_length i I). unfold osc. cbn [is_nonempty]. rewrite !blen_app. change (blen OSC_5522) with 7. change (blen ST) with 2.
    change (blen (@nil Z)) with 0. destruct i as [i|]; cbn [read_status] in *; rewrite ?blen_app in *;
    change (blen (str "OK")) with 2; change (blen (str "DATA")) with 4 in *; lia. }
  rewrite blen_app. unfold SEQUENCE_MAX, DATA_CHUNK, MAX_TRANSACTION, MAX_ANSWER in *. lia.
Qed.

(** ** Witnesses and examples *)

Definition ID : option bytes := Some (str "tmux-1").
Definition demo_data : PastePacket := ReadData (str "text/plain") (str "hello").
Lemma packets_read_back_witness :
  exists outs, outs = ((fun p => match encode p ID with Ok out => out | Err _ => [] end) <$> [ReadOk; demo_data; ReadDone])
    /\ hear (concat outs) = Some (concat (says ID <$> [ReadOk; demo_data; ReadDone])).
Proof.
  eexists. split; [reflexivity|]. apply packets_read_back. repeat constructor; vm_compute; reflexivity.
Defined.
Definition demo_request : ReadRequest :=
  mkRequest [str "image/png"; str "text/plain"] Primary ID (Some (base64 (str "one-time"))) (Some (str "an editor")).
Lemma request_read_back_witness : parse (request_text demo_request) = Some demo_request.
Proof. apply request_read_back. vm_compute. reflexivity. Defined.
Definition chunk_of (b : Z) : bytes := replicate DATA_CHUNK b.
Lemma full_answer_fits_witness :
  blen (osc (read_status (str "OK") ID) []
        ++ concat [match encode (ReadData (str "a/b") (chunk_of 7)) ID with Ok out => out | Err _ => [] end]) <= MAX_ANSWER.
Proof.
  apply (full_answer_fits ID _ [(str "a/b", chunk_of 7)]); [reflexivity| |].
  - constructor; [|constructor]. cbn [fst snd]. split; [vm_compute; reflexivity|]. exists 1%nat. split; [lia|vm_compute; reflexivity].
  - vm_compute. discriminate.
Defined.
(** Strict: an unpadded text, one with a line break, and one whose padding hides bits are
    all refused. *)
Example strict_base64 : (decode (str "aGk"), decode (str "aGk=" ++ [10]), decode (str "aGl="), decode (str "aGk="))
  = (None, None, None, Some (str "hi")).
Proof. reflexivity. Qed.
(** One key twice makes a request none at all; an unknown key twice does not. *)
Example repeated_key :
  (parse (str "5522;type=read:id=a:id=a;Lg=="), mimes <$> parse (str "5522;type=read:x=1:x=2;Lg=="))
  = (None, Some [str "."]).
Proof. reflexivity. Qed.
