(* ===== verification/History.v ===== *)
(** Reading a terminal's history backwards: [crates/pty-terminal/src/history.rs], and the
    background runs of [serialize.rs] it restores.

    The terminal emulator is an interface ([Screen]): what a row's cells hold, what its
    formatter makes of a span, and references to a row that follow it as output scrolls.
    The file proves that a reader who follows the cursors is given the rows retained when
    it began, each once and in order, or told of the gap. *)
From S2P Require Import Prelude Names Text Order Inventory Files.

(** ** The emulator's side *)

Inductive CellWide : Type := Narrow | Wide | SpacerTail | SpacerHead.
(** [hyperlink_uri] into a buffer: a longer one says how much room it takes. *)
Inductive UriError : Type := OutOfSpace (required : Z) | UriFailed.
Inductive FormatError : Type := InvalidValue | FormatFailed.
(** What a background-only cell is filled with, as its SGR parameters. *)
Inductive Background : Type := BgPalette (index : Z) | BgRgb (r g b : Z).
Record BgCell : Type := mkBgCell { has_text : bool; content : option Background }.

Class Screen (G : Type) : Type := {
  Anchor : Type;
  scrollback_rows : G -> option nat;
  screen_cols : G -> option Z;
  grid_ref : G -> nat -> Z -> bool;
  is_wrap_continuation : G -> nat -> option bool;
  wide : G -> nat -> Z -> option CellWide;
  hyperlink_uri : G -> nat -> Z -> Z -> Result bytes UriError;
  format_len : G -> nat -> Z -> Z -> Result Z FormatError;
  format_buf : G -> nat -> Z -> Z -> Z -> option bytes;
  bg_cell : G -> nat -> Z -> option BgCell;
  track_grid_ref : G -> nat -> option Anchor;
  has_value : G -> Anchor -> bool;
  point : G -> Anchor -> option (option (Z * Z))
}.

Definition CURSOR_LEASE : Z := 300000.
Definition MAX_CURSORS : nat := 256.
Definition MAX_ROW_BYTES : Z := 65536.
Definition MAX_PAGE_BYTES : Z := 2097152.

Record HistoryRequest : Type := mkHistoryRequest { expected_generation : bytes; limit : Z; before : option bytes }.
Record HistoryRow : Type := mkHistoryRow { ansi : bytes; wrapped : bool }.
Inductive HistoryResponse : Type :=
  | Page (columns : Z) (retained_rows : nat) (rows : list HistoryRow) (next_before : option bytes)
  | CursorGap | StaleGeneration | AlternateScreen | InvalidRequest | Unavailable | TooLarge.

Section History.
Context {G : Type} `{!Screen G}.

Record Boundary : Type := mkBoundary { anchor : Anchor; owed : nat; expires : Z }.
Record History : Type := mkHistory { boundaries : gmap bytes Boundary; serial : Z }.
Definition new_history : History := mkHistory ∅ 0.
Definition invalidate (h : History) : History := mkHistory ∅ (serial h).

(** ** Rows *)

Definition background_sgr (b : Background) : bytes :=
  match b with
  | BgPalette i => str "48;5;" ++ dec i
  | BgRgb r g b => str "48;2;" ++ dec r ++ [59] ++ dec g ++ [59] ++ dec b
  end.
(** The background-only runs of a row, the last one first; none if a cell has text. *)
Definition Run : Type := Z * Z * bytes.
Definition add_run (x : Z) (sgr : bytes) (runs : list Run) : list Run :=
  match runs with
  | (sx, len, p) :: rest => if (sx + len =? x) && beq p sgr then (sx, len + 1, p) :: rest else (x, 1, sgr) :: runs
  | [] => [(x, 1, sgr)]
  end.
Fixpoint scan_row (cells : Z -> option BgCell) (xs : list Z) (runs : list Run) : option (list Run) :=
  match xs with
  | [] => Some runs
  | x :: xs =>
      match cells x with
      | None => scan_row cells xs runs
      | Some c =>
          if has_text c then None
          else scan_row cells xs (match content c with Some b => add_run x (background_sgr b) runs | None => runs end)
      end
  end.
Definition fixup (y : Z) (r : Run) : bytes :=
  let '(sx, len, sgr) := r in
  [27; 91] ++ dec (y + 1) ++ [59] ++ dec (sx + 1) ++ [72; 27; 91] ++ sgr ++ [109; 27; 91] ++ dec len ++ [88].
Definition columns_from (start end_ : Z) : list Z := (fun n => start + Z.of_nat n) <$> seq 0 (Z.to_nat (end_ - start)).
(** [scan_rows] over one row, whose fix-ups name it row 0. *)
Definition history_background (g : G) (y : nat) (start end_ : Z) : bytes :=
  match scan_row (bg_cell g y) (columns_from start (Z.min (end_ + 1) U16_MAX)) [] with
  | Some (_ :: _ as runs) => concat (fixup 0 <$> rev runs) ++ str (String (Ascii.ascii_of_nat 27) "[0m")
  | _ => []
  end.

(** One span of cells with one hyperlink. *)
Definition append_span (g : G) (y : nat) (start end_ : Z) (uri : bytes) (out : bytes) : Result bytes HistoryResponse :=
  if negb (grid_ref g y start && grid_ref g y end_) then Err Unavailable
  else
    try length := match format_len g y start end_ with
                  | Ok n => Ok n
                  | Err InvalidValue => if bool_decide (format_buf g y start end_ 0 = Some []) then Ok 0 else Err Unavailable
                  | Err FormatFailed => Err Unavailable
                  end in
    let out := out ++ [27; 91] ++ str "1;" ++ dec (start + 1) ++ [72; 27; 91; 48; 109; 27; 93] ++ str "8;;" in
    if MAX_ROW_BYTES <? blen out + blen uri + 2 + length then Err TooLarge
    else
      let out := out ++ uri ++ [27; 92] in
      if length =? 0 then
        let backgrounds := history_background g y start end_ in
        if MAX_ROW_BYTES <? blen out + blen backgrounds then Err TooLarge else Ok (out ++ backgrounds)
      else match format_buf g y start end_ length with
           | Some text => Ok (out ++ text)
           | None => Err Unavailable
           end.

(** The two buffers for links, by their lengths, and the span being collected. *)
Record RowState : Type := mkRow { r_out : bytes; current_uri : bytes; current_room : Z; next_room : Z; r_start : Z }.
(** The link of a cell; a buffer too small is enlarged once. *)
Definition read_uri (g : G) (y : nat) (x room : Z) : Result (bytes * Z) HistoryResponse :=
  match hyperlink_uri g y x room with
  | Ok uri => Ok (uri, room)
  | Err (OutOfSpace required) =>
      if required <=? MAX_ROW_BYTES then
        match hyperlink_uri g y x required with Ok uri => Ok (uri, required) | Err _ => Err Unavailable end
      else Err TooLarge
  | Err UriFailed => Err Unavailable
  end.
Definition bad_uri (uri : bytes) : bool :=
  existsb (fun b => (b <? 32) || (b =? 127)) uri || negb (bool_decide (is_Some (from_utf8 uri))).
Fixpoint row_loop (g : G) (y : nat) (columns column : Z) (fuel : nat) (r : RowState) : Result RowState HistoryResponse :=
  match fuel with
  | O => Ok r
  | S fuel =>
      if columns <=? column then Ok r
      else if negb (grid_ref g y column) then Err Unavailable
      else match wide g y column with
           | None => Err Unavailable
           | Some (SpacerHead | SpacerTail) => row_loop g y columns (column + 1) fuel r
           | Some w =>
               try u := read_uri g y column (next_room r) in
               let '(uri, room) := u in
               if bad_uri uri then Err Unavailable
               else
                 try r := if beq (current_uri r) uri then Ok (mkRow (r_out r) (current_uri r) (current_room r) room (r_start r))
                          else
                            try out := if r_start r <? column
                                       then append_span g y (r_start r) (column - 1) (current_uri r) (r_out r)
                                       else Ok (r_out r) in
                            Ok (mkRow out uri room (current_room r) column) in
                 row_loop g y columns (Z.min (column + match w with Wide => 2 | _ => 1 end) U16_MAX) fuel r
           end
  end.
Definition ROW_CLOSE : bytes := [27; 93] ++ str "8;;" ++ [27; 92; 27; 91; 48; 109].
Definition row_ansi (g : G) (y : nat) (columns : Z) : Result bytes HistoryResponse :=
  try r := row_loop g y columns 0 (Z.to_nat columns) (mkRow [] [] 0 0 0) in
  try out := append_span g y (r_start r) (Z.max 0 (columns - 1)) (current_uri r) (r_out r) in
  if MAX_ROW_BYTES <? blen out + blen ROW_CLOSE then Err TooLarge
  else
    let out := out ++ ROW_CLOSE in
    if bool_decide (is_Some (from_utf8 out)) then Ok out else Err Unavailable.

(** One row of a page. *)
Definition read_row (g : G) (columns : Z) (y : nat) : Result HistoryRow HistoryResponse :=
  if negb (grid_ref g y 0) then Err Unavailable
  else match is_wrap_continuation g y with
       | None => Err Unavailable
       | Some w => try a := row_ansi g y columns in Ok (mkHistoryRow a w)
       end.
Fixpoint read_rows (g : G) (columns : Z) (ys : list nat) (total : Z) : Result (list HistoryRow) HistoryResponse :=
  match ys with
  | [] => Ok []
  | y :: ys =>
      try row := read_row g columns y in
      let total := total + blen (ansi row) in
      if MAX_PAGE_BYTES <? total then Err TooLarge
      else try rows := read_rows g columns ys total in Ok (row :: rows)
  end.

(** ** Pages *)

Definition token (generation : bytes) (n : Z) : bytes := generation ++ [58] ++ hex_digits 16 n.
(** [keys().next()]. *)
Definition oldest (m : gmap bytes Boundary) : option bytes := head (btree_set (fst <$> map_to_list m)).
Definition make_room (m : gmap bytes Boundary) : gmap bytes Boundary :=
  if (size m =? MAX_CURSORS)%nat then match oldest m with Some k => delete k m | None => m end else m.

(** Where a page ends, and how many of the rows it owes have been pruned. *)
Definition page_end (g : G) (generation : bytes) (retained : nat) (cursor : option bytes) (m : gmap bytes Boundary)
  : Result (nat * nat) HistoryResponse :=
  match cursor with
  | None => Ok (retained, O)
  | Some c =>
      if negb (obeq (fst <$> split_once 58 c) (Some generation)) then Err CursorGap
      else match m !! c with
           | None => Err CursorGap
           | Some b =>
               match point g (anchor b) with
               | Some (Some (x, y)) => if x =? 0 then Ok (Z.to_nat y, (owed b - Z.to_nat y)%nat) else Err CursorGap
               | _ => Err CursorGap
               end
           end
  end.

Definition live (g : G) (now : Z) (b : Boundary) : bool := (now <? expires b) && has_value g (anchor b).
Definition retain_live (g : G) (now : Z) (m : gmap bytes Boundary) : gmap bytes Boundary :=
  filter (fun kb => live g now kb.2 = true) m.

Definition read_page (now : Z) (g : G) (generation : bytes) (r : HistoryRequest) (h : History)
  : HistoryResponse * History :=
  let h := mkHistory (retain_live g now (boundaries h)) (serial h) in
  match scrollback_rows g, screen_cols g with
  | Some retained, Some columns =>
      match page_end g generation retained (before r) (boundaries h) with
      | Err e => (e, h)
      | Ok (end_, pruned) =>
          let start := (end_ - Z.to_nat (limit r))%nat in
          if (start =? 0)%nat && (0 <? pruned)%nat then (CursorGap, h)
          else match read_rows g columns (seq start (end_ - start)) 0 with
               | Err e => (e, h)
               | Ok rows =>
                   if (start =? 0)%nat then (Page columns retained rows None, h)
                   else match track_grid_ref g start with
                        | None => (Unavailable, h)
                        | Some a =>
                            let n := serial h + 1 in
                            let t := token generation n in
                            (Page columns retained rows (Some t),
                             mkHistory (<[t := mkBoundary a (start + pruned) (now + CURSOR_LEASE)]>
                                          (make_room (boundaries h))) n)
                        end
               end
      end
  | _, _ => (Unavailable, h)
  end.
Definition page (now : Z) (g : G) (alternate : bool) (generation : bytes) (r : HistoryRequest) (h : History)
  : HistoryResponse * History :=
  if negb (beq (expected_generation r) generation) then (StaleGeneration, h)
  else if (limit r =? 0) || (200 <? limit r) || match before r with Some c => 128 <? blen c | None => false end
  then (InvalidRequest, h)
  else if alternate then (AlternateScreen, h)
  else read_page now g generation r h.
End History.

(** ** What the emulator promises *)

(** Two rows nothing a reader asks can tell apart. *)
Record same_row {G} `{Screen G} (g : G) (y : nat) (g' : G) (y' : nat) : Prop := mkSame {
  same_ref : forall x, grid_ref g y x = grid_ref g' y' x;
  same_wrap : is_wrap_continuation g y = is_wrap_continuation g' y';
  same_wide : forall x, wide g y x = wide g' y' x;
  same_uri : forall x room, hyperlink_uri g y x room = hyperlink_uri g' y' x room;
  same_len : forall a b, format_len g y a b = format_len g' y' a b;
  same_buf : forall a b room, format_buf g y a b room = format_buf g' y' a b room;
  same_bg : forall x, bg_cell g y x = bg_cell g' y' x
}.

(** Rows have numbers that never change: [first_row] is the oldest retained one's.  While
    a terminal only takes output ([later]), rows are added at the end and pruned at the
    start, a retained row keeps its contents, and a reference follows its row. *)
Class ScreenLaws (G : Type) `{Screen G} : Type := {
  first_row : G -> nat;
  row_of : Anchor -> nat;
  later : G -> G -> Prop;
  tracks : G -> Anchor -> Prop;
  later_refl : forall g, later g g;
  later_trans : forall a b c, later a b -> later b c -> later a c;
  later_first : forall g g', later g g' -> (first_row g <= first_row g')%nat;
  later_cols : forall g g', later g g' -> screen_cols g' = screen_cols g;
  later_row : forall g g' retained id, later g g' -> scrollback_rows g = Some retained ->
    (first_row g' <= id < first_row g + retained)%nat -> same_row g' (id - first_row g') g (id - first_row g);
  track_row : forall g y a, track_grid_ref g y = Some a -> row_of a = (first_row g + y)%nat /\ tracks g a;
  later_tracks : forall g g' a, later g g' -> tracks g a -> tracks g' a;
  point_row : forall g a x y, tracks g a -> point g a = Some (Some (x, y)) ->
    0 <= y /\ row_of a = (first_row g + Z.to_nat y)%nat
}.

Section Reading.
Context {G : Type} `{!Screen G, !ScreenLaws G} (generation : bytes).

(** ** Tokens *)

Lemma hex_digits_inj n : forall a b, 0 <= a < 16 ^ Z.of_nat n -> 0 <= b < 16 ^ Z.of_nat n ->
  hex_digits n a = hex_digits n b -> a = b.
Proof.
  induction n as [|n IH]; intros a b A B E; [cbn in *; lia|]. cbn [hex_digits] in E.
  apply app_inj_tail in E as [E D]. rewrite Nat2Z.inj_succ, Z.pow_succ_r in A, B by lia.
  assert (a / 16 = b / 16).
  { apply IH; [Z.to_euclidean_division_equations; lia..|exact E]. }
  assert (H16 : forall d e, 0 <= d < 16 -> 0 <= e < 16 -> hex_digit d = hex_digit e -> d = e).
  { unfold hex_digit. intros d e ? ?. destruct (Z.ltb_spec d 10), (Z.ltb_spec e 10); lia. }
  apply H16 in D; [|apply Z.mod_pos_bound; lia..]. pose proof (Z.div_mod a 16). pose proof (Z.div_mod b 16). lia.
Qed.
Definition SERIALS : Z := 18446744073709551616.
Lemma token_inj a b : 0 <= a < SERIALS -> 0 <= b < SERIALS -> token generation a = token generation b -> a = b.
Proof. intros A B E. apply app_inv_head, app_inv_head in E. by apply (hex_digits_inj 16). Qed.

(** ** The table of boundaries *)

Definition issued (n : Z) (t : bytes) : Prop := exists k, 1 <= k <= n /\ t = token generation k.
(** Every boundary follows its row, and owes at least the rows below the oldest. *)
Record Ok_table (g : G) (h : @History G _) : Prop := {
  ok_serial : 0 <= serial h;
  ok_tokens : forall t b, boundaries h !! t = Some b -> issued (serial h) t;
  ok_tracks : forall t b, boundaries h !! t = Some b -> tracks g (anchor b) /\ (owed b <= row_of (anchor b))%nat
}.
(** What a reader knows of its cursor: if it still counts, it is at this row, and owes
    the rows from this one on. *)
Definition knows (h : @History G _) (t : bytes) (u o : nat) : Prop :=
  issued (serial h) t /\ forall b, boundaries h !! t = Some b -> row_of (anchor b) = u /\ u = (o + owed b)%nat.

Lemma make_room_lookup (m : gmap bytes (@Boundary G _)) t b : make_room m !! t = Some b -> m !! t = Some b.
Proof. unfold make_room. destruct (_ =? _)%nat; [|done]. destruct (oldest m) as [k|]; [|done]. by intros [_ L]%lookup_delete_Some. Qed.
Lemma retain_lookup (g : G) (now : Z) (m : gmap bytes (@Boundary G _)) t b : retain_live g now m !! t = Some b -> m !! t = Some b.
Proof. intros L. unfold retain_live in L. by apply map_lookup_filter_Some in L as [L _]. Qed.
Lemma issued_mono n n' t : n <= n' -> issued n t -> issued n' t.
Proof. intros L (k & K & E). exists k. split; [lia|done]. Qed.

(** ** Rows that are the same read the same *)

Lemma same_append g y g' y' a b uri out : same_row g y g' y' -> append_span g y a b uri out = append_span g' y' a b uri out.
Proof.
  intros [S1 _ _ _ S5 S6 S7]. unfold append_span, history_background. rewrite !S1, S5, !S6.
  assert (B : forall xs runs, scan_row (bg_cell g y) xs runs = scan_row (bg_cell g' y') xs runs).
  { induction xs as [|x xs IH]; intros runs; cbn [scan_row]; [done|]. rewrite S7. by destruct (bg_cell g' y' x) as [c|]; rewrite ?IH. }
  rewrite B. destruct (negb _); [done|]. destruct (rbind _ _) eqn:E; rewrite <- E; (destruct (match format_len g' y' a b with Ok _ => _ | Err _ => _ end) as [n|]; [|done]); cbn [rbind]; by rewrite S6.
Qed.
Lemma same_loop g y g' y' columns fuel : same_row g y g' y' -> forall column r,
  row_loop g y columns column fuel r = row_loop g' y' columns column fuel r.
Proof.
  intros S. induction fuel as [|fuel IH]; intros column r; cbn [row_loop]; [done|].
  rewrite (same_ref _ _ _ _ S), (same_wide _ _ _ _ S). unfold read_uri. rewrite (same_uri _ _ _ _ S).
  destruct (columns <=? column); [done|]. destruct (negb _); [done|].
  assert (E : forall c out, append_span g y (r_start r) c (current_uri r) out = append_span g' y' (r_start r) c (current_uri r) out)
    by (intros; by apply same_append).
  destruct (wide g' y' column) as [[]|]; try apply IH; try done.
  all: destruct (hyperlink_uri g' y' column (next_room r)) as [u|[n|]]; cbn [rbind];
    [|destruct (n <=? MAX_ROW_BYTES); [rewrite (same_uri _ _ _ _ S); destruct (hyperlink_uri g' y' column n); cbn [rbind]|]|]; try done.
  all: destruct (bad_uri _); [done|]; rewrite E; destruct (beq _ _); cbn [rbind]; [apply IH|];
    destruct (if r_start r <? column then _ else _); cbn [rbind]; [apply IH|done].
Qed.
Lemma same_read g y g' y' columns : same_row g y g' y' -> read_row g columns y = read_row g' columns y'.
Proof.
  intros S. unfold read_row, row_ansi. rewrite (same_ref _ _ _ _ S), (same_wrap _ _ _ _ S), (same_loop _ _ _ _ _ _ S).
  destruct (negb _); [done|]. destruct (is_wrap_continuation g' y'); [|done].
  destruct (row_loop g' y' _ _ _ _) as [r|]; cbn [rbind]; [|done]. by rewrite (same_append _ _ _ _ _ _ _ _ S).
Qed.

(** ** A page is not an error *)

(** Nothing that fails on the way to a page fails with one. *)
Definition refuses {A} (x : Result A HistoryResponse) : Prop :=
  forall columns retained rows next, x <> Err (Page columns retained rows next).
Lemma refuses_bind {A B} (x : Result A HistoryResponse) (f : A -> Result B HistoryResponse) :
  refuses x -> (forall a, refuses (f a)) -> refuses (rbind x f).
Proof. intros X F. destruct x as [a|e]; [apply F|]. intros c n rs nx [= ->]. by eapply X. Qed.
Lemma refuses_ok {A} (a : A) : refuses (Ok a).
Proof. done. Qed.
Create HintDb page.
#[local] Hint Resolve refuses_bind refuses_ok : page.
#[local] Hint Extern 1 (refuses (Err _)) => done : page.
Ltac refuse := repeat (case_match; auto with page); auto with page.
Lemma append_span_refuses g y a b uri out : refuses (append_span g y a b uri out).
Proof. unfold append_span. case_match; [done|]. apply refuses_bind; [refuse|]. intros n. refuse. Qed.
#[local] Hint Resolve append_span_refuses : page.
Lemma read_uri_refuses g y x room : refuses (read_uri g y x room).
Proof. unfold read_uri. refuse. Qed.
#[local] Hint Resolve read_uri_refuses : page.
Lemma row_loop_refuses g y columns fuel : forall column r, refuses (row_loop g y columns column fuel r).
Proof.
  induction fuel as [|fuel IH]; intros column r; cbn [row_loop]; [done|]. do 2 (case_match; [done|]).
  assert (N : forall w, refuses (try u := read_uri g y column (next_room r) in
    let '(uri, room) := u in
    if bad_uri uri then Err Unavailable
    else
      try r := if beq (current_uri r) uri then Ok (mkRow (r_out r) (current_uri r) (current_room r) room (r_start r))
               else
                 try out := if r_start r <? column
                            then append_span g y (r_start r) (column - 1) (current_uri r) (r_out r)
                            else Ok (r_out r) in
                 Ok (mkRow out uri room (current_room r) column) in
      row_loop g y columns (Z.min (column + w) U16_MAX) fuel r)).
  { intros w. apply refuses_bind; [auto with page|]. intros [uri room]. case_match; [done|].
    apply refuses_bind; [|intros r'; apply IH]. case_match; [done|]. apply refuses_bind; [refuse|done]. }
  destruct (wide g y column) as [[]|]; auto; try done; apply N.
Qed.
#[local] Hint Resolve row_loop_refuses : page.
Lemma read_rows_refuses g columns ys : forall total, refuses (read_rows g columns ys total).
Proof.
  assert (R : forall y, refuses (read_row g columns y)).
  { intros y. unfold read_row. case_match; [done|]. case_match; [|done]. apply refuses_bind; [|done].
    unfold row_ansi. apply refuses_bind; [auto with page|]. intros r. apply refuses_bind; [auto with page|].
    intros out. refuse. }
  induction ys as [|y ys IH]; intros total; cbn [read_rows]; [done|]. apply refuses_bind; [done|]. intros row.
  case_match; [done|]. apply refuses_bind; [apply IH|done].
Qed.
Lemma page_end_refuses g retained cursor m : refuses (page_end g generation retained cursor m).
Proof. unfold page_end. refuse. Qed.

(** What a page leaves of the table: entries that were there, and a new one. *)
Inductive After (g : G) (h h' : @History G _) : Prop :=
  | AfterSame : serial h' = serial h -> (forall t b, boundaries h' !! t = Some b -> boundaries h !! t = Some b) -> After g h h'
  | AfterNew b0 : serial h' = serial h + 1 -> tracks g (anchor b0) -> (owed b0 <= row_of (anchor b0))%nat ->
      (forall t b, boundaries h' !! t = Some b -> (t = token generation (serial h + 1) /\ b = b0)
                   \/ (t <> token generation (serial h + 1) /\ boundaries h !! t = Some b)) -> After g h h'.

Lemma page_end_bound g retained cursor h end_ pruned : Ok_table g h ->
  page_end g generation retained cursor (boundaries h) = Ok (end_, pruned) ->
  (cursor = None /\ end_ = retained /\ pruned = O)
  \/ exists t b, cursor = Some t /\ boundaries h !! t = Some b /\ row_of (anchor b) = (first_row g + end_)%nat
                 /\ pruned = (owed b - end_)%nat.
Proof.
  intros T. unfold page_end. destruct cursor as [t|]; [|intros [= <- <-]; by left].
  destruct (negb _); [done|]. destruct (boundaries h !! t) as [b|] eqn:B; [|done].
  destruct (point g (anchor b)) as [[[x y]|]|] eqn:P; try done. destruct (x =? 0); [|done]. intros [= <- <-].
  right. exists t, b. destruct (ok_tracks _ _ T _ _ B) as [Tr _]. destruct (point_row _ _ _ _ Tr P) as [Y R]. done.
Qed.

Lemma read_page_after now g r h : Ok_table g h -> After g h (snd (read_page now g generation r h)).
Proof.
  intros T. unfold read_page. set (h1 := mkHistory (retain_live g now (boundaries h)) (serial h)).
  assert (S : After g h h1) by (constructor 1; [done|intros t b; apply retain_lookup]).
  destruct (scrollback_rows g) as [retained|]; [|exact S]. destruct (screen_cols g) as [columns|]; [|exact S].
  destruct (page_end _ _ _ _ _) as [[end_ pruned]|e] eqn:E; [|exact S].
  set (start := (end_ - Z.to_nat (limit r))%nat). destruct (_ && _) eqn:Gap; [exact S|].
  destruct (read_rows _ _ _ _) as [rows|e]; [|exact S]. destruct (start =? 0)%nat; [exact S|].
  destruct (track_grid_ref g start) as [a|] eqn:A; [|exact S]. destruct (track_row _ _ _ A) as [R Tr].
  constructor 2 with (b0 := mkBoundary a (start + pruned) (now + CURSOR_LEASE)); [done|done| |].
  - cbn [anchor owed]. rewrite R. assert (T1 : Ok_table g h1).
    { destruct T as [T1 T2 T3]. constructor; [done|intros t b L; apply (T2 t b), (retain_lookup g now), L|].
      intros t b L. apply (T3 t b), (retain_lookup g now), L. }
    destruct (page_end_bound _ _ _ _ _ _ T1 E) as [(_ & _ & ->)|(t & b & _ & B & Rb & ->)]; [lia|].
    destruct (ok_tracks _ _ T1 _ _ B) as [_ O]. lia.
  - intros t b L. cbn [snd boundaries] in L. destruct (decide (t = token generation (serial h + 1))) as [->|N].
    + left. split; [done|]. cbn [serial h1] in L. rewrite lookup_insert_eq in L. congruence.
    + right. split; [done|]. cbn [serial h1] in L. rewrite lookup_insert_ne in L by congruence.
      apply make_room_lookup, retain_lookup in L. done.
Qed.
Lemma page_after now g alternate r h : Ok_table g h -> After g h (snd (page now g alternate generation r h)).
Proof.
  intros T. unfold page. assert (S : After g h h) by (constructor 1; auto).
  destruct (negb _); [exact S|]. destruct (_ || _); [exact S|]. destruct alternate; [exact S|]. by apply read_page_after.
Qed.
Lemma after_table g h h' : Ok_table g h -> After g h h' -> Ok_table g h'.
Proof.
  intros [T1 T2 T3] [E S|b0 E Tr O S]; constructor; try lia.
  - intros t b L. rewrite E. apply (T2 t b), S, L.
  - intros t b L. apply (T3 t b), S, L.
  - intros t b L. apply S in L as [[-> ->]|[_ L]].
    + exists (serial h + 1). rewrite E. split; [lia|done].
    + apply (issued_mono (serial h)); [lia|]. by apply (T2 t b).
  - intros t b L. apply S in L as [[-> ->]|[_ L]]; [done|]. by apply (T3 t b).
Qed.
Lemma after_knows g h h' t u o : 0 <= serial h -> serial h' < SERIALS -> After g h h' -> knows h t u o -> knows h' t u o.
Proof.
  intros P B A [(k & K & ->) Kn]. destruct A as [E S|b0 E Tr O S]; split.
  - exists k. rewrite E. done.
  - intros b L. apply Kn, S, L.
  - exists k. split; [lia|done].
  - intros b L. apply S in L as [[T _]|[_ L]]; [|by apply Kn]. apply token_inj in T; [lia|lia|lia].
Qed.

(** ** A reader among everything else *)

(** What else may happen between two of a reader's requests: output, other requests, and
    whatever makes the terminal forget its boundaries (a reset, a resize, a clear). *)
Definition World : Type := G * @History G _.
Inductive other : World -> World -> Prop :=
  | OGrow g g' h : later g g' -> other (g, h) (g', h)
  | OPage now g alternate r h : serial (snd (page now g alternate generation r h)) < SERIALS ->
      other (g, h) (g, snd (page now g alternate generation r h))
  | OForget g g' h : other (g, h) (g', invalidate h).

Lemma other_table w w' : other w w' -> Ok_table w.1 w.2 -> Ok_table w'.1 w'.2.
Proof.
  intros [g g' h L|now g al r h _|g g' h] T; cbn [fst snd] in *.
  - destruct T as [T1 T2 T3]. constructor; [done|done|]. intros t b B. destruct (T3 t b B) as [Tr O].
    split; [by eapply later_tracks|done].
  - by eapply after_table, page_after.
  - destruct T as [T1 T2 T3]. constructor; [done| |]; intros t b B; unfold invalidate in B; cbn [boundaries] in B; by rewrite lookup_empty in B.
Qed.
Lemma others_table w w' : rtc other w w' -> Ok_table w.1 w.2 -> Ok_table w'.1 w'.2.
Proof. induction 1 as [|w w1 w2 O _ IH]; [done|]. intros T. by eapply IH, other_table. Qed.

(** A reader's cursor: what it knows holds, and either only output came since [g0] or the
    cursor counts no more. *)
Definition follows (g0 : G) (w : World) (t : bytes) (u : nat) : Prop :=
  knows w.2 t u (first_row g0) /\ (later g0 w.1 \/ boundaries w.2 !! t = None).
Lemma other_follows g0 w w' t u : other w w' -> Ok_table w.1 w.2 -> follows g0 w t u -> follows g0 w' t u.
Proof.
  intros [g g' h L|now g al r h B|g g' h] T [K F]; cbn [fst snd] in *; split; cbn [fst snd].
  - done.
  - destruct F as [F|F]; [left; by eapply later_trans|by right].
  - eapply after_knows; [apply (ok_serial _ _ T)|done|by apply page_after|done].
  - destruct F as [F|F]; [by left|right].
    destruct (page_after now g al r h T) as [E S|b0 E Tr O S].
    + destruct (boundaries (snd (page now g al generation r h)) !! t) as [b|] eqn:X; [|done]. apply S in X. congruence.
    + destruct (boundaries (snd (page now g al generation r h)) !! t) as [b|] eqn:X; [|done]. apply S in X as [[-> _]|[_ X]]; [|congruence].
      destruct K as [(k & Kk & Ek) _]. apply token_inj in Ek; [lia| |lia]. pose proof (ok_serial _ _ T). lia.
  - destruct K as [I _]. split; [exact I|]. intros b X. unfold invalidate in X; cbn [boundaries] in X. by rewrite lookup_empty in X.
  - right. unfold invalidate; cbn [boundaries]. by rewrite lookup_empty.
Qed.
Lemma others_follow g0 w w' t u : rtc other w w' -> Ok_table w.1 w.2 -> follows g0 w t u -> follows g0 w' t u.
Proof.
  induction 1 as [|w w1 w2 O _ IH]; [done|]. intros T F. eapply IH; [by eapply other_table|by eapply other_follows].
Qed.

(** The pages a reader has been given since it began at [g0], oldest rows first, its
    cursor, and the world as it is. *)
Inductive Reads (g0 : G) : World -> option bytes -> list HistoryRow -> Prop :=
  | RStart now alternate r h columns retained rows next h' :
      before r = None -> Ok_table g0 h ->
      page now g0 alternate generation r h = (Page columns retained rows next, h') -> serial h' < SERIALS ->
      Reads g0 (g0, h') next rows
  | RNext w t rows g h now alternate r columns retained rows' next h' :
      Reads g0 w (Some t) rows -> rtc other w (g, h) -> before r = Some t ->
      page now g alternate generation r h = (Page columns retained rows' next, h') -> serial h' < SERIALS ->
      Reads g0 (g, h') next (rows' ++ rows).

Lemma read_rows_each g columns ys : forall total rows, read_rows g columns ys total = Ok rows ->
  Forall2 (fun y row => read_row g columns y = Ok row) ys rows.
Proof.
  induction ys as [|y ys IH]; intros total rows; cbn [read_rows]; [intros [= <-]; constructor|].
  destruct (read_row g columns y) as [row|] eqn:R; [|done]. cbn [rbind]. destruct (_ <? _); [done|].
  destruct (read_rows g columns ys _) as [rest|] eqn:Rs; [|done]. cbn [rbind]. intros [= <-]. constructor; [done|by eapply IH].
Qed.

(** What a page that is given says. *)
Lemma page_given now g alternate r h columns retained rows next h' :
  Ok_table g h -> page now g alternate generation r h = (Page columns retained rows next, h') ->
  scrollback_rows g = Some retained /\ screen_cols g = Some columns
  /\ exists end_ pruned start, (start <= end_)%nat
     /\ Forall2 (fun y row => read_row g columns y = Ok row) (seq start (end_ - start)) rows
     /\ ((before r = None /\ end_ = retained /\ pruned = O)
         \/ exists t b, before r = Some t /\ boundaries h !! t = Some b /\ row_of (anchor b) = (first_row g + end_)%nat
                        /\ pruned = (owed b - end_)%nat)
     /\ ((start = O /\ pruned = O /\ next = None)
         \/ exists t a, next = Some t /\ issued (serial h') t /\ row_of a = (first_row g + start)%nat
              /\ forall b, boundaries h' !! t = Some b -> anchor b = a /\ owed b = (start + pruned)%nat).
Proof.
  intros T. unfold page. destruct (negb _); [done|]. destruct (_ || _); [done|]. destruct alternate; [done|].
  unfold read_page. set (h1 := mkHistory (retain_live g now (boundaries h)) (serial h)).
  assert (T1 : Ok_table g h1).
  { eapply after_table; [exact T|]. constructor 1; [done|]. intros t b. apply retain_lookup. }
  destruct (scrollback_rows g) as [ret|]; [|done]. destruct (screen_cols g) as [cols|]; [|done].
  destruct (page_end _ _ _ _ _) as [[end_ pruned]|e] eqn:E;
    [|intros [= -> _]; by apply page_end_refuses in E].
  set (start := (end_ - Z.to_nat (limit r))%nat). destruct (_ && _) eqn:Gap; [done|].
  destruct (read_rows _ _ _ _) as [rs|e] eqn:Rs;
    [|intros [= -> _]; by apply read_rows_refuses in Rs]. intros P.
  assert (Pr : (columns, retained, rows) = (cols, ret, rs)).
  { destruct (start =? 0)%nat; [congruence|]. destruct (track_grid_ref g start); congruence. }
  injection Pr as -> -> ->. split; [done|]. split; [done|]. exists end_, pruned, start.
  split; [lia|]. split; [by eapply read_rows_each|]. split.
  { destruct (page_end_bound _ _ _ _ _ _ T1 E) as [L|(t & b & C & B & R & O)]; [by left|right].
    exists t, b. split; [done|]. split; [by apply retain_lookup in B|done]. }
  destruct (Nat.eqb_spec start 0) as [Z0|N0].
  - left. split; [done|]. injection P as <- <-. split; [|done].
    cbn [andb] in Gap. destruct (Nat.ltb_spec 0 pruned); [done|lia].
  - right. destruct (track_grid_ref g start) as [a|] eqn:A; [|done]. destruct (track_row _ _ _ A) as [Ra _].
    injection P as <- <-. exists (token generation (serial h1 + 1)), a. split; [done|]. split.
    + exists (serial h1 + 1). cbn [serial]. pose proof (ok_serial _ _ T1) as Q. unfold h1 in *. cbn [serial] in *. split; [lia|done].
    + split; [done|]. intros b L. cbn [boundaries] in L. rewrite lookup_insert_eq in L. injection L as <-. done.
Qed.

(** Rows of a later terminal are those of the earlier one, further up. *)
Lemma rows_moved g0 g columns retained start n rows d : later g0 g -> first_row g = (first_row g0 + d)%nat ->
  scrollback_rows g0 = Some retained -> (start + d + n <= retained)%nat ->
  Forall2 (fun y row => read_row g columns y = Ok row) (seq start n) rows ->
  Forall2 (fun y row => read_row g0 columns y = Ok row) (seq (start + d) n) rows.
Proof.
  intros L D R. revert start rows. induction n as [|n IH]; intros start rows B F; cbn [seq] in *; inversion F as [|? ? ? ? E F']; subst; constructor.
  - pose proof (later_row g0 g retained (first_row g + start) L R ltac:(lia)) as S.
    replace (first_row g + start - first_row g)%nat with start in S by lia.
    replace (first_row g + start - first_row g0)%nat with (start + d)%nat in S by lia.
    by rewrite <- (same_read _ _ _ _ columns S).
  - apply (IH (S start)); [lia|done].
Qed.

(** What a reader has been given so far: the rows of [g0] from some row on, down to the
    end; and its cursor is at that row. *)
Definition given (g0 : G) (w : World) (next : option bytes) (rows : list HistoryRow) : Prop :=
  exists columns retained start, scrollback_rows g0 = Some retained /\ screen_cols g0 = Some columns
    /\ (start <= retained)%nat
    /\ Forall2 (fun y row => read_row g0 columns y = Ok row) (seq start (retained - start)) rows
    /\ match next with
       | None => start = O
       | Some t => follows g0 w t (first_row g0 + start)
       end.
Lemma reads_given g0 w next rows : Reads g0 w next rows -> Ok_table w.1 w.2 /\ given g0 w next rows.
Proof.
  induction 1 as [now al r h columns retained rows next h' B T P _|w t rows g h now al r columns retained rows' next h' _ [Tw Gw] O B P _].
  - cbn [fst snd]. split; [apply (after_table g0 h); [done|]; pose proof (page_after now g0 al r h T) as A; by rewrite P in A|].
    destruct (page_given _ _ _ _ _ _ _ _ _ _ T P) as (S & C & end_ & pruned & start & L & F & En & Nx).
    destruct En as [(_ & -> & ->)|(t & b & E & _)]; [|congruence].
    exists columns, retained, start. repeat (split; [done|]).
    destruct Nx as [(-> & _ & ->)|(t & a & -> & I & R & Bd)]; [done|]. split; [|left; apply later_refl].
    split; [done|]. cbn [snd]. intros b Lb. destruct (Bd b Lb) as [-> ->]. split; [done|]. lia.
  - cbn [fst snd]. pose proof (others_table _ _ O Tw) as T. cbn [fst snd] in T.
    split; [apply (after_table g h); [done|]; pose proof (page_after now g al r h T) as A; by rewrite P in A|].
    destruct Gw as (columns0 & retained0 & start0 & S0 & C0 & L0 & F0 & Fo).
    apply (others_follow _ _ _ _ _ O Tw) in Fo as [[_ K] La]. cbn [fst snd] in K, La.
    destruct (page_given _ _ _ _ _ _ _ _ _ _ T P) as (S & C & end_ & pruned & start & L & F & En & Nx).
    destruct En as [(E & _)|(t' & b & E & Bt & R & ->)]; [congruence|]. assert (t' = t) as -> by congruence.
    destruct La as [La|La]; [|congruence]. destruct (K b Bt) as [U W].
    assert (columns = columns0) as -> by (pose proof (later_cols _ _ La); congruence).
    pose proof (later_first _ _ La) as Le. set (d := (first_row g - first_row g0)%nat).
    assert (D : first_row g = (first_row g0 + d)%nat) by (unfold d; lia).
    assert (Ed : (end_ + d = start0)%nat) by lia.
    apply (rows_moved g0 g columns0 retained0 start _ rows' d La D S0) in F; [|lia].
    exists columns0, retained0, (start + d)%nat. split; [done|]. split; [done|].
    split; [lia|]. split.
    { replace (retained0 - (start + d))%nat with ((end_ - start) + (retained0 - start0))%nat by lia.
      rewrite seq_app. apply Forall2_app; [done|]. by replace (start + d + (end_ - start))%nat with start0 by lia. }
    destruct Nx as [(-> & Pr & ->)|(t1 & a & -> & I & Ra & Bd)]; [lia|]. split; [|by left].
    split; [done|]. cbn [snd]. intros b1 Lb. destruct (Bd b1 Lb) as [-> ->]. lia.
Qed.

(** C31: A reader who reaches the end has been given exactly the rows retained when it began,
    each once and in order, whatever was printed and asked in between. *)
Theorem history_complete g0 w rows : Reads g0 w None rows ->
  exists columns retained, scrollback_rows g0 = Some retained /\ screen_cols g0 = Some columns
    /\ Forall2 (fun y row => read_row g0 columns y = Ok row) (seq 0 retained) rows.
Proof.
  intros [_ (columns & retained & start & R & C & _ & F & ->)]%reads_given. exists columns, retained.
  rewrite Nat.sub_0_r in F. done.
Qed.
End Reading.

(** ** Bounds *)

Section Bounds.
Context {G : Type} `{!Screen G}.

(** The table never holds more than [MAX_CURSORS] boundaries. *)
Theorem cursors_bounded now (g : G) alternate generation r h : (size (boundaries h) <= MAX_CURSORS)%nat ->
  (size (boundaries (snd (page now g alternate generation r h))) <= MAX_CURSORS)%nat.
Proof.
  intros B. unfold page. destruct (negb _); [done|]. destruct (_ || _); [done|]. destruct alternate; [done|].
  assert (Rt : (size (retain_live g now (boundaries h)) <= MAX_CURSORS)%nat).
  { etrans; [|exact B]. apply map_subseteq_size, map_filter_subseteq. }
  unfold read_page. set (h1 := mkHistory (retain_live g now (boundaries h)) (serial h)).
  change (boundaries h1) with (retain_live g now (boundaries h)).
  destruct (scrollback_rows g), (screen_cols g); try exact Rt.
  destruct (page_end _ _ _ _ _) as [[end_ pruned]|]; [|exact Rt]. destruct (_ && _); [exact Rt|].
  destruct (read_rows _ _ _ _); [|exact Rt]. destruct (_ =? 0)%nat; [exact Rt|].
  destruct (track_grid_ref _ _) as [anc|]; [|exact Rt]. cbn [snd boundaries].
  set (m := retain_live g now (boundaries h)) in *.
  assert (Ins : forall (x : gmap bytes Boundary) k b, (size (<[k:=b]> x) <= S (size x))%nat).
  { intros x k b. rewrite map_size_insert. destruct (x !! k); unfold id; lia. }
  etrans; [apply Ins|].
  unfold make_room. destruct (Nat.eqb_spec (size m) MAX_CURSORS) as [Full|]; [|lia].
  assert (Im : forall k, k ∈ btree_set (fst <$> map_to_list m) -> is_Some (m !! k)).
  { intros k [[k' b] [-> I]]%elem_of_btree_set%list_elem_of_fmap. apply elem_of_map_to_list in I. by exists b. }
  unfold oldest. destruct (btree_set (fst <$> map_to_list m)) as [|k ks] eqn:L.
  - exfalso. assert (N : map_to_list m = []).
    { destruct (map_to_list m) as [|[k b] l] eqn:Ml; [done|]. assert (I : k ∈ btree_set (fst <$> (k, b) :: l)).
      { apply elem_of_btree_set. rewrite fmap_cons. by left. }
      rewrite L in I. by apply elem_of_nil in I. }
    apply map_to_list_empty_iff in N. rewrite N, map_size_empty in Full. done.
  - cbn [head]. destruct (Im k ltac:(by left)) as [b Lb].
    pose proof (map_size_delete_Some k m (mk_is_Some _ _ Lb)). unfold MAX_CURSORS in *. lia.
Qed.

(** Every turn of [row_ansi]'s loop moves right, so its fuel, one turn a column, is enough. *)
Lemma row_loop_enough g y columns : columns <= U16_MAX -> forall n m column r, (Z.to_nat (columns - column) <= n)%nat ->
  (Z.to_nat (columns - column) <= m)%nat ->
  @row_loop G _ g y columns column n r = row_loop g y columns column m r.
Proof.
  intros C n. induction n as [|n IH]; intros m column r N M.
  - destruct m as [|m]; cbn [row_loop]; [done|]. destruct (Z.leb_spec columns column); [done|lia].
  - destruct m as [|m]; cbn [row_loop]; (destruct (Z.leb_spec columns column); [done|]); [lia|].
    destruct (negb _); [done|].
    assert (S : forall c (r : RowState), column < c -> row_loop g y columns c n r = row_loop g y columns c m r)
      by (intros; apply IH; lia).
    destruct (wide g y column) as [[]|]; try done; try (apply S; lia).
    all: destruct (read_uri g y column (next_room r)) as [[uri room]|]; cbn [rbind]; [|done].
    all: destruct (bad_uri uri); [done|]; destruct (if beq _ _ then _ else _) as [r'|]; cbn [rbind]; [|done].
    all: apply S; unfold U16_MAX in *; lia.
Qed.
(** What a page can carry: each row and all of them are bounded. *)
Lemma row_ansi_bound (g : G) y columns out : row_ansi g y columns = Ok out -> blen out <= MAX_ROW_BYTES.
Proof.
  unfold row_ansi. destruct (row_loop _ _ _ _ _ _) as [r|]; [|done]. cbn [rbind].
  destruct (append_span _ _ _ _ _ _) as [o|]; [|done]. cbn [rbind]. rewrite <- blen_app.
  destruct (Z.ltb_spec MAX_ROW_BYTES (blen (o ++ ROW_CLOSE))); [done|].
  destruct (bool_decide _); [|done]. intros [= <-]. done.
Qed.
Lemma read_rows_bound (g : G) columns ys : forall total rows, 0 <= total <= MAX_PAGE_BYTES ->
  read_rows g columns ys total = Ok rows ->
  Forall (fun row => blen (ansi row) <= MAX_ROW_BYTES) rows /\ total + blen (concat (ansi <$> rows)) <= MAX_PAGE_BYTES.
Proof.
  induction ys as [|y ys IH]; intros total rows T; cbn [read_rows].
  { intros [= <-]. split; [constructor|]. cbn. unfold blen. cbn. lia. }
  destruct (read_row g columns y) as [row|] eqn:R; [|done]. cbn [rbind].
  assert (B : blen (ansi row) <= MAX_ROW_BYTES).
  { unfold read_row in R. destruct (negb _); [done|]. destruct (is_wrap_continuation g y); [|done].
    destruct (row_ansi g y columns) as [a|] eqn:A; [|done]. injection R as <-. by apply row_ansi_bound in A. }
  destruct (Z.ltb_spec MAX_PAGE_BYTES (total + blen (ansi row))); [done|].
  destruct (read_rows g columns ys _) as [rest|] eqn:Rs; [|done]. cbn [rbind]. intros [= <-].
  assert (0 <= blen (ansi row)) by (unfold blen; lia).
  apply IH in Rs as [F L]; [|lia]. split; [by constructor|]. cbn [fmap list_fmap concat]. rewrite blen_app. lia.
Qed.
End Bounds.

(** ** A terminal of plain lines *)

(** Its lines from a numbered first one, ASCII bytes, as wide as [width] says; a row is
    trimmed, as [format_len] reports it. *)
Record Plain : Type := mkPlain { p_first : nat; p_lines : list bytes; p_width : Z }.
Definition span (l : bytes) (a b : Z) : bytes := take (Z.to_nat (b + 1 - a)) (drop (Z.to_nat a) l).
#[global] Instance plain_screen : Screen Plain := {|
  Anchor := nat;
  scrollback_rows := fun g => Some (length (p_lines g));
  screen_cols := fun g => Some (p_width g);
  grid_ref := fun g y x => bool_decide (is_Some (p_lines g !! y));
  is_wrap_continuation := fun g y => (fun _ => false) <$> p_lines g !! y;
  wide := fun g y x => (fun _ => Narrow) <$> p_lines g !! y;
  hyperlink_uri := fun g y x room => Ok [];
  format_len := fun g y a b => match p_lines g !! y with
                               | Some l => if beq (span l a b) [] then Err InvalidValue else Ok (blen (span l a b))
                               | None => Err FormatFailed
                               end;
  format_buf := fun g y a b room => (fun l => span l a b) <$> p_lines g !! y;
  bg_cell := fun g y x => (fun l => mkBgCell (bool_decide (is_Some (l !! Z.to_nat x))) None) <$> p_lines g !! y;
  track_grid_ref := fun g y => match p_lines g !! y with Some _ => Some (p_first g + y)%nat | None => None end;
  has_value := fun g a => (p_first g <=? a)%nat;
  point := fun g a => Some (if (p_first g <=? a)%nat then Some (0, Z.of_nat (a - p_first g)) else None)
|}.
(** Output adds lines below, and prunes as many above as it must. *)
Definition plain_later (g g' : Plain) : Prop :=
  p_width g' = p_width g /\ exists d new, (d <= length (p_lines g ++ new))%nat
    /\ p_first g' = (p_first g + d)%nat /\ p_lines g' = drop d (p_lines g ++ new).
#[global] Program Instance plain_laws : ScreenLaws Plain := {|
  first_row := p_first;
  row_of := fun a => a;
  later := plain_later;
  tracks := fun _ _ => True
|}.
Next Obligation. intros g. split; [done|]. exists O, []. rewrite app_nil_r, Nat.add_0_r. split; [lia|done]. Qed.
Next Obligation.
  intros a b c [W (d & n & B & F & L)] [W' (d' & n' & B' & F' & L')]. split; [congruence|].
  exists (d + d')%nat, (n ++ n'). rewrite L, length_app, length_drop in B'. split; [rewrite !length_app in *; lia|].
  split; [lia|]. rewrite L', L, <- drop_drop, (assoc_L (++)). by rewrite (drop_app_le (p_lines a ++ n) n' d).
Qed.
Next Obligation. intros g g' [_ (d & n & _ & F & _)]. lia. Qed.
Next Obligation. intros g g' [W _]. cbn. by rewrite W. Qed.
Next Obligation.
  intros g g' retained id [W (d & n & B & F & L)] [= <-] I.
  assert (E : p_lines g' !! (id - p_first g')%nat = p_lines g !! (id - p_first g)%nat).
  { rewrite L, lookup_drop, F. replace (d + (id - (p_first g + d)))%nat with (id - p_first g)%nat by lia.
    apply lookup_app_l. lia. }
  constructor; intros; cbn -[lookup Nat.sub]; rewrite ?E; done.
Qed.
Next Obligation. intros g y a. cbn. destruct (p_lines g !! y); [|done]. by intros [= <-]. Qed.
Next Obligation. done. Qed.
Next Obligation.
  intros g a x y _. cbn. destruct (Nat.leb_spec (p_first g) a); [|done]. intros [= _ <-]. rewrite Nat2Z.id. lia.
Qed.

(** ** A reader, at work *)

Definition before_output : Plain := mkPlain 0 [str "one"; str "two"; str "three"] 8.
Definition after_output : Plain := mkPlain 0 [str "one"; str "two"; str "three"; str "four"] 8.
Definition after_pruning : Plain := mkPlain 1 [str "two"; str "three"; str "four"] 8.
Definition ask (before : option bytes) (n : Z) : HistoryRequest := mkHistoryRequest (str "g") n before.
Definition first_page := page 0 before_output false (str "g") (ask None 2) new_history.
Definition cursor : bytes := token (str "g") 1.
Definition plain_row (s : bytes) : bytes :=
  str (String (Ascii.ascii_of_nat 27) "[1;1H") ++ str (String (Ascii.ascii_of_nat 27) "[0m")
  ++ str (String (Ascii.ascii_of_nat 27) "]8;;") ++ [27; 92] ++ s ++ ROW_CLOSE.
Example first_two : fst first_page
  = Page 8 3 [mkHistoryRow (plain_row (str "two")) false; mkHistoryRow (plain_row (str "three")) false] (Some cursor).
Proof. vm_compute. reflexivity. Qed.
Example last_one : fst (page 1 after_output false (str "g") (ask (Some cursor) 2) (snd first_page))
  = Page 8 4 [mkHistoryRow (plain_row (str "one")) false] None.
Proof. vm_compute. reflexivity. Qed.
(** A row pruned before it was read is a gap. *)
Example pruned_is_gap : fst (page 1 after_pruning false (str "g") (ask (Some cursor) 2) (snd first_page)) = CursorGap.
Proof. vm_compute. reflexivity. Qed.
Example lease_over : fst (page CURSOR_LEASE after_output false (str "g") (ask (Some cursor) 2) (snd first_page)) = CursorGap.
Proof. vm_compute. reflexivity. Qed.

Lemma history_complete_witness : exists w rows, Reads (str "g") before_output w None rows
  /\ exists columns retained, scrollback_rows before_output = Some retained /\ screen_cols before_output = Some columns
    /\ Forall2 (fun y row => read_row before_output columns y = Ok row) (seq 0 retained) rows.
Proof.
  assert (R : exists w rows, Reads (str "g") before_output w None rows).
  { eexists _, _. eapply (RNext _ _ (before_output, snd first_page) cursor _ after_output (snd first_page) 1 false (ask (Some cursor) 2)).
    - eapply (RStart _ _ 0 false (ask None 2) new_history); [done| |reflexivity|vm_compute; reflexivity].
      constructor; [cbn; lia| |]; intros t b L; cbn [new_history boundaries] in L; by rewrite lookup_empty in L.
    - eapply rtc_once, OGrow. split; [done|]. exists O, [str "four"]. cbn; split; [lia|done].
    - done.
    - vm_compute. reflexivity.
    - vm_compute. reflexivity. }
  destruct R as (w & rows & R). exists w, rows. split; [exact R|]. exact (history_complete (str "g") before_output w rows R).
Defined.
Lemma cursors_bounded_witness : (size (boundaries (snd first_page)) <= MAX_CURSORS)%nat.
Proof. apply (cursors_bounded 0 before_output false (str "g") (ask None 2) new_history). vm_compute. lia. Defined.
