(* ===== verification/Graphics.v ===== *)
(** Kitty graphics: [crates/pty-terminal/src/graphics.rs].

    What the emulator's image storage holds is data ([RawImage], [RawPlacement]), with its
    readings that can fail as options; the window's cells are an interface ([Gfx]).  The
    file reads the storage into a [GraphicsState], finds the placements drawn by
    placeholder cells, and puts the storage back on the wire. *)
From Stdlib Require Import Sorting.Sorted.
From S2P Require Import Prelude Names Text Order Client Summary Paste.

(** ** Cells and storage *)

Record CellSize : Type := mkCell { width : Z; height : Z }.
Definition FALLBACK : CellSize := mkCell 8 16.
Definition undeclared : CellSize := mkCell 0 0.
Definition is_declared (c : CellSize) : bool := (0 <? width c) && (0 <? height c).
Definition or_fallback (c : CellSize) : CellSize := if is_declared c then c else FALLBACK.

Definition MAX_STORAGE_BYTES : Z := 33554432.
Record GraphicsOptions : Type := mkOptions { storage_bytes : Z; cell : CellSize; apc_max_bytes : option Z }.
Definition DEFAULT : GraphicsOptions := mkOptions MAX_STORAGE_BYTES (mkCell 8 16) None.
#[export] Instance options_eta : Settable GraphicsOptions := fun o => mkOptions (storage_bytes o) (cell o) (apc_max_bytes o).

Inductive PixelFormat : Type := Rgb | Rgba | Png | Gray | GrayAlpha.
Definition kitty_format (f : PixelFormat) : option Z :=
  match f with Rgb => Some 24 | Rgba => Some 32 | Png => Some 100 | Gray | GrayAlpha => None end.
Definition is_raw (f : PixelFormat) : bool := match f with Png => false | _ => true end.
Inductive Compression : Type := Uncompressed | ZlibDeflate.

Record ImageDesc : Type := mkDesc {
  id : Z; number : Z; generation : Z; im_width : Z; im_height : Z;
  format : PixelFormat; compression : Compression; len : Z
}.
Record ImageBytes : Type := mkBytes { desc : ImageDesc; data : bytes }.
Record SourceRect : Type := mkSource { sx : Z; sy : Z; swidth : Z; sheight : Z }.
Record PlaceholderRect : Type := mkRect {
  row : Z; col : Z; rows : Z; cols : Z; cell_row : Z; cell_col : Z; origin_row : Z; origin_col : Z
}.
Inductive PlacementPosition : Type :=
  | Offscreen
  | Direct (col row cols rows : Z)
  | Placeholder (r : PlaceholderRect).
Record Placement : Type := mkPlacement {
  image_id : Z; placement_id : Z; is_virtual : bool; z : Z; image_generation : Z; source : SourceRect;
  cell_offset : Z * Z; pixel_size : Z * Z; cell_size : Z * Z; requested_cells : Z * Z; position_ : PlacementPosition
}.
#[export] Instance placement_eta : Settable Placement := fun p =>
  mkPlacement (image_id p) (placement_id p) (is_virtual p) (z p) (image_generation p) (source p)
    (cell_offset p) (pixel_size p) (cell_size p) (requested_cells p) (position_ p).
Record GraphicsState : Type := mkState {
  enabled : bool; s_generation : Z; s_storage_bytes : Z; s_cell : CellSize; cell_declared : bool;
  images : list ImageDesc; placements : list Placement
}.
#[export] Instance state_eta : Settable GraphicsState := fun s =>
  mkState (enabled s) (s_generation s) (s_storage_bytes s) (s_cell s) (cell_declared s) (images s) (placements s).
Definition no_graphics : GraphicsState := mkState false 0 0 FALLBACK false [] [].
Definition image (s : GraphicsState) (i : Z) : option ImageDesc := List.find (fun d => id d =? i) (images s).
Definition placements_of (s : GraphicsState) (i : Z) : list Placement := List.filter (fun p => image_id p =? i) (placements s).
Definition is_offscreen (p : Placement) : bool := match position_ p with Offscreen => true | _ => false end.
Definition visible (s : GraphicsState) : list Placement :=
  sort_by (fun a b => z a <=? z b) (List.filter (fun p => negb (is_offscreen p)) (placements s)).

(** What the storage says of an image and of a placement: [None] where a reading fails.  A
    format the code does not know is an [ImageFormat] of its own. *)
Inductive ImageFormat : Type := Known (f : PixelFormat) | OtherFormat.
Record RawImage : Type := mkRawImage {
  ri_width : option Z; ri_height : option Z; ri_format : option ImageFormat; ri_compression : option Compression;
  ri_number : option Z; ri_generation : option Z; ri_data : option bytes
}.
Record RawPlacement : Type := mkRaw {
  rp_image_id : option Z; rp_placement_id : option Z; rp_virtual : option bool; rp_z : option Z;
  rp_source : option SourceRect; rp_pixels : option (Z * Z); rp_grid : option (Z * Z);
  rp_offset_x : option Z; rp_offset_y : option Z; rp_columns : option Z; rp_rows : option Z;
  rp_origin : option (Z * Z)
}.
Inductive StyleColor : Type := NoColor | Palette (index : Z) | RgbColor (r g b : Z).
Inductive Point : Type := Active (x y : Z) | Screen (x y : Z).
Class Gfx (G : Type) : Type := {
  g_rows : G -> option Z;
  g_cols : G -> option Z;
  scrollback_rows : G -> option Z;
  total_rows : G -> option Z;
  storage_limit : G -> option Z;
  storage_generation : G -> option Z;
  raw_placements : G -> option (list RawPlacement);
  raw_image : G -> Z -> option RawImage;
  graphemes : G -> Point -> option (list Z);
  colors : G -> Point -> option (StyleColor * StyleColor)
}.
Definition as_i32 (n : Z) : Z := let m := n mod 4294967296 in if m <? 2147483648 then m else m - 4294967296.

Definition ROWCOLUMN_DIACRITICS : list Z := [
    773; 781; 782; 784; 786; 829; 830; 831; 838; 842; 843; 844; 848; 849; 850; 855; 859; 867; 868; 869;
    870; 871; 872; 873; 874; 875; 876; 877; 878; 879; 1155; 1156; 1157; 1158; 1159; 1426; 1427; 1428;
    1429; 1431; 1432; 1433; 1436; 1437; 1438; 1439; 1440; 1441; 1448; 1449; 1451; 1452; 1455; 1476; 1552;
    1553; 1554; 1555; 1556; 1557; 1558; 1559; 1623; 1624; 1625; 1626; 1627; 1629; 1630; 1750; 1751; 1752;
    1753; 1754; 1755; 1756; 1759; 1760; 1761; 1762; 1764; 1767; 1768; 1771; 1772; 1840; 1842; 1843; 1845;
    1846; 1850; 1853; 1855; 1856; 1857; 1859; 1861; 1863; 1865; 1866; 2027; 2028; 2029; 2030; 2031; 2032;
    2033; 2035; 2070; 2071; 2072; 2073; 2075; 2076; 2077; 2078; 2079; 2080; 2081; 2082; 2083; 2085; 2086;
    2087; 2089; 2090; 2091; 2092; 2093; 2385; 2387; 2388; 3970; 3971; 3974; 3975; 4957; 4958; 4959; 6109;
    6458; 6679; 6773; 6774; 6775; 6776; 6777; 6778; 6779; 6780; 7019; 7021; 7022; 7023; 7024; 7025; 7026;
    7027; 7376; 7377; 7378; 7386; 7387; 7392; 7616; 7617; 7619; 7620; 7621; 7622; 7623; 7624; 7625; 7627;
    7628; 7633; 7634; 7635; 7636; 7637; 7638; 7639; 7640; 7641; 7642; 7643; 7644; 7645; 7646; 7647; 7648;
    7649; 7650; 7651; 7652; 7653; 7654; 7678; 8400; 8401; 8404; 8405; 8406; 8407; 8411; 8412; 8417; 8423;
    8425; 8432; 11503; 11504; 11505; 11744; 11745; 11746; 11747; 11748; 11749; 11750; 11751; 11752;
    11753; 11754; 11755; 11756; 11757; 11758; 11759; 11760; 11761; 11762; 11763; 11764; 11765; 11766;
    11767; 11768; 11769; 11770; 11771; 11772; 11773; 11774; 11775; 42607; 42620; 42621; 42736; 42737;
    43232; 43233; 43234; 43235; 43236; 43237; 43238; 43239; 43240; 43241; 43242; 43243; 43244; 43245;
    43246; 43247; 43248; 43249; 43696; 43698; 43699; 43703; 43704; 43710; 43711; 43713; 65056; 65057;
    65058; 65059; 65060; 65061; 65062; 68111; 68152; 119173; 119174; 119175; 119176; 119177; 119210;
    119211; 119212; 119213; 119362; 119363; 119364
].

(** ** Placeholder cells *)

Section Reading.
Context {G : Type} `{!Gfx G}.

Definition diacritic_index (c : Z) : option Z := Z.of_nat <$> position (Z.eqb c) ROWCOLUMN_DIACRITICS.
Definition PLACEHOLDER : Z := 1109742.
Definition color_id (c : StyleColor) : option Z :=
  match c with
  | RgbColor r g b => Some (Z.lor (Z.lor (Z.shiftl r 16) (Z.shiftl g 8)) b)
  | Palette i => Some i
  | NoColor => None
  end.
Record PlaceholderCell : Type := mkPCell { c_image : Z; c_placement : Z; c_row : Z; c_col : Z; id_high : Z }.
(** [next().or_else(inherited).unwrap_or(0)], and what is left to read. *)
Definition take_diacritic (ds : list Z) (inherited : option Z) : Z * list Z :=
  match ds with d :: ds => (d, ds) | [] => (default 0 inherited, []) end.
Definition continues (base placement : Z) (p : PlaceholderCell) : bool :=
  (Z.land (c_image p) 16777215 =? base) && (c_placement p =? placement).
Definition placeholder_cell (g : G) (point : Point) (prev : option PlaceholderCell) : option PlaceholderCell :=
  let? chars := graphemes g point in
  match chars with
  | c :: marks =>
      if c =? PLACEHOLDER then
        let? st := colors g point in
        let? base := color_id (fst st) in
        let placement := default 0 (color_id (snd st)) in
        let left := match prev with Some p => if continues base placement p then Some p else None | None => None end in
        let '(r, ds) := take_diacritic (omap diacritic_index marks) (c_row <$> left) in
        let '(c, ds) := take_diacritic ds ((fun p => (c_col p + 1) mod 65536) <$> left) in
        let '(h, _) := take_diacritic ds (id_high <$> left) in
        Some (mkPCell (Z.lor (Z.shiftl h 24 mod 4294967296) base) placement r c h)
      else None
  | [] => None
  end.

Record Accum : Type := mkAccum {
  a_image : Z; a_placement : Z; a_row : Z; a_col : Z; last_row : Z; last_col : Z; a_cell_row : Z; a_cell_col : Z
}.
(** The [Some(a)] arm. *)
Definition widen (r x : Z) (c : PlaceholderCell) (a : Accum) : Accum :=
  let row := Z.min (a_row a) r in
  let '(col, ccol) := if x <? a_col a then (x, c_col c) else (a_col a, a_cell_col a) in
  let crow := if (r <? row) || ((r =? row) && (x =? col)) then c_row c else a_cell_row a in
  mkAccum (a_image a) (a_placement a) row col (Z.max (last_row a) r) (Z.max (last_col a) x) crow ccol.
Definition mine (c : PlaceholderCell) (a : Accum) : bool := (a_image a =? c_image c) && (a_placement a =? c_placement c).
Fixpoint accumulate (r x : Z) (c : PlaceholderCell) (acc : list Accum) : list Accum :=
  match acc with
  | [] => [mkAccum (c_image c) (c_placement c) r x r x (c_row c) (c_col c)]
  | a :: acc => if mine c a then widen r x c a :: acc else a :: accumulate r x c acc
  end.
Definition point_at (live : bool) (start r x : Z) : Point := if live then Active x r else Screen x (start + r).
Fixpoint scan_row (g : G) (live : bool) (start r : Z) (xs : list Z) (prev : option PlaceholderCell) (acc : list Accum)
  : list Accum :=
  match xs with
  | [] => acc
  | x :: xs =>
      match placeholder_cell g (point_at live start r x) prev with
      | None => scan_row g live start r xs None acc
      | Some c => scan_row g live start r xs (Some c) (accumulate r x c acc)
      end
  end.
Definition upto (n : Z) : list Z := Z.of_nat <$> seq 0 (Z.to_nat n).
Fixpoint scan_window (g : G) (live : bool) (start len cols : Z) (rs : list Z) (acc : list Accum) : list Accum :=
  match rs with
  | [] => acc
  | r :: rs =>
      if len <=? start + r then acc
      else scan_window g live start len cols rs (scan_row g live start r (upto cols) None acc)
  end.
Definition rect_of (a : Accum) : Z * Z * PlaceholderRect :=
  (a_image a, a_placement a,
   mkRect (a_row a) (a_col a) (last_row a - a_row a + 1) (last_col a - a_col a + 1) (a_cell_row a) (a_cell_col a)
     (a_row a - a_cell_row a) (a_col a - a_cell_col a)).
Definition scan_placeholders (g : G) (scroll_offset : Z) : list (Z * Z * PlaceholderRect) :=
  let rows_n := default 0 (g_rows g) in
  let cols := default 0 (g_cols g) in
  let base_y := default 0 (scrollback_rows g) in
  let len := default rows_n (total_rows g) in
  let start := Z.max 0 (base_y - scroll_offset) in
  rect_of <$> scan_window g (start =? base_y) start len cols (upto rows_n) [].

(** ** Reading the storage *)

Definition enabled_on (g : G) : bool := 0 <? default 0 (storage_limit g).
Definition generation_of (g : G) : Z := default 0 (storage_generation g).
Definition describe (i : Z) (im : RawImage) : option ImageDesc :=
  let? w := ri_width im in
  let? h := ri_height im in
  if (w =? 0) || (h =? 0) then None
  else
    let? f := ri_format im in
    match f with
    | OtherFormat => None
    | Known f =>
        let? c := ri_compression im in
        Some (mkDesc i (default 0 (ri_number im)) (default 0 (ri_generation im)) w h f c
                (match ri_data im with Some d => blen d | None => 0 end))
    end.
Definition image_bytes (g : G) (i : Z) : option ImageBytes :=
  let? im := raw_image g i in
  let? d := describe i im in
  let? b := ri_data im in
  Some (mkBytes d b).

Definition find_rect (found : list (Z * Z * PlaceholderRect)) (i p : Z) : option PlaceholderRect :=
  snd <$> List.find (fun e => (fst (fst e) =? i) && (snd (fst e) =? p)) found.
Definition virtual_position (found : list (Z * Z * PlaceholderRect)) (i p : Z) : PlacementPosition :=
  match find_rect found i p with
  | Some r => Placeholder r
  | None => match find_rect found i 0 with Some r => Placeholder r | None => Offscreen end
  end.
Definition read_placement (found : list (Z * Z * PlaceholderRect)) (window_start : Z) (p : RawPlacement) (d : ImageDesc)
  : Placement :=
  let virt := default false (rp_virtual p) in
  let pid := default 0 (rp_placement_id p) in
  let cells := default (0, 0) (rp_grid p) in
  mkPlacement (id d) pid virt (default 0 (rp_z p)) (generation d)
    (default (mkSource 0 0 (im_width d) (im_height d)) (rp_source p))
    (default 0 (rp_offset_x p), default 0 (rp_offset_y p)) (default (0, 0) (rp_pixels p)) cells
    (default 0 (rp_columns p), default 0 (rp_rows p))
    (if virt then virtual_position found (id d) pid
     else match rp_origin p with
          | Some (c, screen_row) => Direct c (as_i32 (screen_row - window_start)) (fst cells) (snd cells)
          | None => Offscreen
          end).
Definition known_image (d : ImageDesc) (l : list ImageDesc) : bool := existsb (fun i => id i =? id d) l.
Fixpoint read_all (g : G) (found : list (Z * Z * PlaceholderRect)) (window_start : Z) (ps : list RawPlacement)
  (s : GraphicsState) : GraphicsState :=
  match ps with
  | [] => s
  | p :: ps =>
      match (let? i := rp_image_id p in let? im := raw_image g i in describe i im) with
      | None => read_all g found window_start ps s
      | Some d =>
          let s := if known_image d (images s) then s else s <| images ::= fun l => l ++ [d] |> in
          read_all g found window_start ps (s <| placements ::= fun l => l ++ [read_placement found window_start p d] |>)
      end
  end.
Definition read (g : G) (c : CellSize) (scroll_offset : Z) : GraphicsState :=
  let limit := default 0 (storage_limit g) in
  let s := mkState (0 <? limit) 0 limit (or_fallback c) (is_declared c) [] [] in
  if negb (enabled s) then s
  else
    let s := s <| s_generation := default 0 (storage_generation g) |> in
    match raw_placements g with
    | None => s
    | Some ps =>
        let window_start := Z.max 0 (default 0 (scrollback_rows g) - scroll_offset) in
        read_all g (scan_placeholders g scroll_offset) window_start ps s
    end.

(** ** Replay *)

Definition APC_G : bytes := [27; 95; 71].
Definition APC_END : bytes := [27; 92].
Definition key (k : string) (v : Z) : bytes := str k ++ dec v.
Definition key_if (k : string) (v : Z) : bytes := if v =? 0 then [] else key k v.
Definition placement_params (p : Placement) : bytes :=
  key ",i=" (image_id p) ++ key_if ",p=" (placement_id p)
  ++ key_if ",c=" (fst (requested_cells p)) ++ key_if ",r=" (snd (requested_cells p))
  ++ key ",x=" (sx (source p)) ++ key ",y=" (sy (source p)) ++ key ",w=" (swidth (source p)) ++ key ",h=" (sheight (source p))
  ++ key_if ",X=" (fst (cell_offset p)) ++ key_if ",Y=" (snd (cell_offset p)) ++ key_if ",z=" (z p).
Definition clip_top (p : Placement) (rows : Z) (c : CellSize) : Placement :=
  if rows =? 0 then p
  else
    let s := source p in
    let cut := Z.min ((rows * Z.max (height c) 1) mod 4294967296) (sheight s) in
    p <| source := mkSource (sx s) ((sy s + cut) mod 4294967296) (swidth s) (sheight s - cut) |>
      <| requested_cells := (fst (requested_cells p), Z.max 0 (snd (requested_cells p) - rows)) |>.
Definition place_virtual (p : Placement) : bytes := APC_G ++ str "a=p,U=1,q=2" ++ placement_params p ++ APC_END.
Definition place_direct (p : Placement) (col row clipped_rows : Z) (c : CellSize) : bytes :=
  [27; 55; 27; 91] ++ dec (row + 1) ++ [59] ++ dec (col + 1) ++ [72] ++ APC_G ++ str "a=p,q=2"
  ++ placement_params (clip_top p clipped_rows c) ++ APC_END ++ [27; 56].

Definition transmit_params (d : ImageDesc) (f : Z) : bytes :=
  str "a=t,q=2,i=" ++ dec (id d) ++ str ",f=" ++ dec f
  ++ (if is_raw (format d) then str ",s=" ++ dec (im_width d) ++ str ",v=" ++ dec (im_height d) else [])
  ++ (match compression d with ZlibDeflate => str ",o=z" | Uncompressed => [] end).
Fixpoint transmit_chunks (params : bytes) (first : bool) (cs : list bytes) : bytes :=
  match cs with
  | [] => []
  | c :: cs =>
      let more := is_nonempty cs in
      APC_G ++ (if first then params ++ (if more then str ",m=1" else [])
                else str "q=2,m=" ++ [if more then 49 else 48])
      ++ [59] ++ c ++ APC_END ++ transmit_chunks params false cs
  end.
Definition CHUNK : nat := 4096.
Definition transmit (im : ImageBytes) (f : Z) : bytes :=
  transmit_chunks (transmit_params (desc im) f) true (chunks CHUNK (base64 (data im))).

(** The images that go out, in the order of their ids. *)
Definition sends (g : G) (i : Z) : option (ImageBytes * Z) :=
  let? b := image_bytes g i in
  let? f := kitty_format (format (desc b)) in
  if is_nonempty (data b) then Some (b, f) else None.
Definition sent (g : G) (s : GraphicsState) : list (ImageBytes * Z) := omap (sends g) (sort_by Z.leb (id <$> images s)).
Definition replay_placement (rows cols : Z) (c : CellSize) (p : Placement) : bytes :=
  if is_virtual p then place_virtual p
  else match position_ p with
       | Direct col row _ _ =>
           let clipped := Z.max (as_i32 (- row)) 0 in
           if (rows <=? row) || (col <? 0) || (cols <=? col) || (as_i32 (snd (cell_size p)) <=? clipped) then []
           else place_direct p col (Z.max row 0) clipped c
       | _ => []
       end.
Definition replay (g : G) (c : CellSize) : bytes :=
  let c := or_fallback c in
  let s := read g c 0 in
  if negb (is_nonempty (placements s)) then []
  else
    let ims := sent g s in
    concat ((fun bf => transmit (fst bf) (snd bf)) <$> ims)
    ++ concat ((fun p => if existsb (fun bf => id (desc (fst bf)) =? image_id p) ims
                         then replay_placement (default 0 (g_rows g)) (default 0 (g_cols g)) c p else [])
               <$> placements s).
End Reading.

(** ** The cells of a window *)

Section Placeholders.
Context {G : Type} `{!Gfx G}.

(** The placeholder cells a scan meets, with where they are, in its order. *)
Definition Found : Type := Z * Z * PlaceholderCell.
Fixpoint row_cells (g : G) (live : bool) (start r : Z) (xs : list Z) (prev : option PlaceholderCell) : list Found :=
  match xs with
  | [] => []
  | x :: xs =>
      match placeholder_cell g (point_at live start r x) prev with
      | None => row_cells g live start r xs None
      | Some c => (r, x, c) :: row_cells g live start r xs (Some c)
      end
  end.
Fixpoint window_cells (g : G) (live : bool) (start len cols : Z) (rs : list Z) : list Found :=
  match rs with
  | [] => []
  | r :: rs => if len <=? start + r then [] else row_cells g live start r (upto cols) None ++ window_cells g live start len cols rs
  end.
Definition cells_of (g : G) (scroll_offset : Z) : list Found :=
  let base_y := default 0 (scrollback_rows g) in
  let start := Z.max 0 (base_y - scroll_offset) in
  window_cells g (start =? base_y) start (default (default 0 (g_rows g)) (total_rows g)) (default 0 (g_cols g))
    (upto (default 0 (g_rows g))).

Definition add_cell (acc : list Accum) (e : Found) : list Accum := accumulate (fst (fst e)) (snd (fst e)) (snd e) acc.
Lemma scan_row_cells (g : G) live start r xs : forall prev acc,
  scan_row g live start r xs prev acc = fold_left add_cell (row_cells g live start r xs prev) acc.
Proof.
  induction xs as [|x xs IH]; intros prev acc; cbn [scan_row row_cells]; [done|].
  destruct (placeholder_cell g _ prev) as [c|]; cbn [fold_left]; apply IH.
Qed.
Lemma scan_window_cells (g : G) live start len cols rs : forall acc,
  scan_window g live start len cols rs acc = fold_left add_cell (window_cells g live start len cols rs) acc.
Proof.
  induction rs as [|r rs IH]; intros acc; cbn [scan_window window_cells]; [done|]. destruct (_ <=? _); [done|].
  by rewrite IH, scan_row_cells, fold_left_app.
Qed.

(** One image's region does not depend on the cells of others. *)
Definition has_key (i p : Z) (a : Accum) : bool := (a_image a =? i) && (a_placement a =? p).
Definition cell_key (i p : Z) (e : Found) : bool := (c_image (snd e) =? i) && (c_placement (snd e) =? p).
Definition look (i p : Z) (acc : list Accum) : option Accum := List.find (has_key i p) acc.
Definition first_cell (e : Found) : Accum :=
  let '(r, x, c) := e in mkAccum (c_image c) (c_placement c) r x r x (c_row c) (c_col c).
Definition grow (o : option Accum) (e : Found) : option Accum :=
  Some (match o with None => first_cell e | Some a => widen (fst (fst e)) (snd (fst e)) (snd e) a end).

Lemma widen_key i p r x c a : has_key i p (widen r x c a) = has_key i p a.
Proof. unfold widen. by destruct (x <? a_col a). Qed.
Lemma look_accumulate i p acc e : look i p (add_cell acc e) = if cell_key i p e then grow (look i p acc) e else look i p acc.
Proof.
  destruct e as [[r x] c]. unfold add_cell, cell_key, grow, look. cbn [fst snd].
  induction acc as [|a acc IH]; cbn [accumulate].
  - unfold first_cell. cbn [List.find]. unfold has_key. cbn [a_image a_placement]. by destruct (_ && _).
  - destruct (mine c a) eqn:M.
    + cbn [List.find]. rewrite widen_key. unfold mine in M. apply andb_prop in M as [M1%Z.eqb_eq M2%Z.eqb_eq].
      unfold has_key. rewrite M1, M2. by destruct (_ && _).
    + cbn [List.find]. rewrite IH. destruct (has_key i p a) eqn:K; [|done].
      destruct ((c_image c =? i) && (c_placement c =? p)) eqn:C; [|done]. exfalso.
      unfold has_key, mine in *. bprop. lia.
Qed.
Lemma look_all i p cells : forall acc,
  look i p (fold_left add_cell cells acc) = fold_left grow (List.filter (cell_key i p) cells) (look i p acc).
Proof.
  induction cells as [|e cells IH]; intros acc; cbn [fold_left List.filter]; [done|]. rewrite IH, look_accumulate.
  by destruct (cell_key i p e).
Qed.
Lemma find_rect_look i p acc : find_rect (rect_of <$> acc) i p = (fun a => snd (rect_of a)) <$> look i p acc.
Proof.
  unfold find_rect, look. induction acc as [|a acc IH]; cbn [fmap list_fmap List.find]; [done|].
  unfold rect_of at 1 2, has_key at 1. cbn [fst snd]. by destruct (_ && _).
Qed.
Lemma found_rect (g : G) off i p : find_rect (scan_placeholders g off) i p
  = (fun a => snd (rect_of a)) <$> fold_left grow (List.filter (cell_key i p) (cells_of g off)) None.
Proof. unfold scan_placeholders, cells_of. by rewrite find_rect_look, scan_window_cells, look_all. Qed.

(** ** A region's rectangle *)

(** Cells come row by row. *)
Definition in_order (cells : list Found) : Prop := StronglySorted (fun a b => fst (fst a) <= fst (fst b)) cells.
Lemma row_cells_row (g : G) live start r xs : forall prev, Forall (fun e => fst (fst e) = r) (row_cells g live start r xs prev).
Proof.
  induction xs as [|x xs IH]; intros prev; cbn [row_cells]; [constructor|].
  destruct (placeholder_cell g _ prev); [constructor; [done|]|]; apply IH.
Qed.
Lemma one_row_in_order r cells : Forall (fun e => fst (fst e) = r) cells -> in_order cells.
Proof.
  induction 1 as [|e cells E F IH]; constructor; [done|]. apply Forall_forall. intros x I.
  rewrite Forall_forall in F. rewrite E, (F x I). lia.
Qed.
Lemma in_order_app a b : in_order a -> in_order b -> (forall x y, x ∈ a -> y ∈ b -> fst (fst x) <= fst (fst y)) -> in_order (a ++ b).
Proof.
  intros A B X. induction A as [|e a A IH F]; [done|]. cbn. constructor.
  - apply IH. intros x y I J. apply X; [by right|done].
  - apply Forall_app. split; [done|]. apply Forall_forall. intros y J. apply X; [by left|done].
Qed.
Lemma window_in_order (g : G) live start len cols rs : StronglySorted Z.le rs -> in_order (window_cells g live start len cols rs)
  /\ forall e, e ∈ window_cells g live start len cols rs -> fst (fst e) ∈ rs.
Proof.
  induction 1 as [|r rs S IH F]; cbn [window_cells]; [split; [constructor|by intros e ?%elem_of_nil]|].
  destruct (_ <=? _); [split; [constructor|by intros e ?%elem_of_nil]|]. destruct IH as [O M].
  pose proof (row_cells_row g live start r (upto cols) None) as R. split.
  - apply in_order_app; [by eapply one_row_in_order|done|]. intros x y I J.
    rewrite (proj1 (Forall_forall _ _) R x I). apply (proj1 (Forall_forall _ _) F), M, J.
  - intros e [I|I]%elem_of_app; [|right; by apply M]. rewrite Forall_forall in R. rewrite (R e I). by left.
Qed.
Lemma upto_sorted n : StronglySorted Z.le (upto n).
Proof.
  unfold upto. generalize (Z.to_nat n) 0%nat. intros k. induction k as [|k IH]; intros s; cbn [seq fmap list_fmap]; [constructor|].
  constructor; [apply IH|]. apply Forall_forall. intros x I. apply list_elem_of_fmap in I as (y & -> & I).
  apply elem_of_seq in I. lia.
Qed.
Lemma cells_in_order (g : G) off : in_order (cells_of g off).
Proof. unfold cells_of. apply window_in_order, upto_sorted. Qed.
Lemma in_order_filter f cells : in_order cells -> in_order (List.filter f cells).
Proof.
  induction 1 as [|e cells O IH F]; cbn [List.filter]; [constructor|]. destruct (f e); [|done]. constructor; [done|].
  apply Forall_forall. intros x I. apply elem_of_filterb in I as [_ I]. by apply (proj1 (Forall_forall _ _) F).
Qed.

(** A rectangle fits cells closely: all are in it, and each side touches one. *)
Record Fits (cells : list Found) (top left bottom right : Z) : Prop := mkFits {
  fits_in : forall r x c, (r, x, c) ∈ cells -> top <= r <= bottom /\ left <= x <= right;
  fits_top : exists x c, (top, x, c) ∈ cells;
  fits_left : exists r c, (r, left, c) ∈ cells;
  fits_bottom : exists x c, (bottom, x, c) ∈ cells;
  fits_right : exists r c, (r, right, c) ∈ cells
}.
Definition placed (oy ox : Z) (e : Found) : Prop := c_row (snd e) = fst (fst e) - oy /\ c_col (snd e) = snd (fst e) - ox.
Record Region (cells : list Found) (a : Accum) : Prop := mkRegion {
  region_fits : Fits cells (a_row a) (a_col a) (last_row a) (last_col a);
  region_origin : forall oy ox, Forall (placed oy ox) cells -> a_cell_row a = a_row a - oy /\ a_cell_col a = a_col a - ox
}.
Lemma fits_grow cells t l b r y x c : Fits cells t l b r ->
  Fits (cells ++ [(y, x, c)]) (Z.min t y) (Z.min l x) (Z.max b y) (Z.max r x).
Proof.
  intros [I (tx & tc & T) (lr & lc & L) (bx & bc & B) (rr & rc & R)].
  assert (New : (y, x, c) ∈ cells ++ [(y, x, c)]) by (apply elem_of_app; right; by left).
  assert (Old : forall e, e ∈ cells -> e ∈ cells ++ [(y, x, c)]) by (intros; apply elem_of_app; by left).
  constructor.
  - intros r' x' c' [J|J]%elem_of_app; [destruct (I _ _ _ J); lia|]. apply list_elem_of_singleton in J. injection J as -> -> ->. lia.
  - destruct (Z.min_spec t y) as [[_ ->]|[_ ->]]; eauto.
  - destruct (Z.min_spec l x) as [[_ ->]|[_ ->]]; eauto.
  - destruct (Z.max_spec b y) as [[_ ->]|[_ ->]]; eauto.
  - destruct (Z.max_spec r x) as [[_ ->]|[_ ->]]; eauto.
Qed.
Lemma widen_bounds r x c a : a_row (widen r x c a) = Z.min (a_row a) r /\ a_col (widen r x c a) = Z.min (a_col a) x
  /\ last_row (widen r x c a) = Z.max (last_row a) r /\ last_col (widen r x c a) = Z.max (last_col a) x.
Proof. unfold widen. destruct (Z.ltb_spec x (a_col a)); cbn; repeat split; lia. Qed.
Lemma region_grow cells a r x c : in_order (cells ++ [(r, x, c)]) -> Region cells a -> Region (cells ++ [(r, x, c)]) (widen r x c a).
Proof.
  intros O [F Or]. destruct (widen_bounds r x c a) as (E1 & E2 & E3 & E4). constructor.
  - rewrite E1, E2, E3, E4. by apply fits_grow.
  - intros oy ox P. apply Forall_app in P as [P [[Pr Pc] _]%Forall_cons]. cbn [fst snd] in Pr, Pc.
    destruct (Or oy ox P) as [Cr Cc]. destruct F as [_ (tx & tc & T) _ _ _].
    assert (Top : a_row a <= r).
    { clear -O T. induction cells as [|e cells IH]; [by apply elem_of_nil in T|]. inversion O as [|? ? O' Fa]; subst.
      apply elem_of_cons in T as [<-|T]; [|by apply IH]. rewrite Forall_forall in Fa.
      apply (Fa (r, x, c)). apply elem_of_app. right. by left. }
    unfold widen. destruct (Z.ltb_spec x (a_col a)); cbn [a_row a_col a_cell_row a_cell_col];
      (split; [|lia]); destruct (Z.ltb_spec r (Z.min (a_row a) r)); cbn [orb]; [lia| |lia|];
      (destruct (Z.eqb_spec r (Z.min (a_row a) r)); cbn [andb]; [|lia]).
    + rewrite Z.eqb_refl. lia.
    + destruct (x =? a_col a); lia.
Qed.
Lemma region_first e : Region [e] (first_cell e).
Proof.
  destruct e as [[r x] c]. constructor.
  - constructor; cbn; [|by exists x, c; left|by exists r, c; left|by exists x, c; left|by exists r, c; left].
    intros r' x' c' J. apply list_elem_of_singleton in J. injection J as -> -> ->. lia.
  - intros oy ox [[P Q] _]%Forall_cons. done.
Qed.
Lemma region_of cells : in_order cells ->
  match fold_left grow cells None with Some a => Region cells a | None => cells = [] end.
Proof.
  induction cells as [|e cells IH] using rev_ind; [done|]. intros O. rewrite fold_left_app. cbn [fold_left].
  assert (O' : in_order cells).
  { clear -O. induction cells as [|x cells IH]; [constructor|]. inversion O as [|? ? O1 F]; subst. constructor; [by apply IH|].
    by apply Forall_app in F as [F _]. }
  specialize (IH O'). destruct (fold_left grow cells None) as [a|]; cbn [grow].
  - destruct e as [[r x] c]. by apply region_grow.
  - subst cells. apply region_first.
Qed.

(** C35: The region of a placement in a window: none exactly when no cell of the window names
    it; otherwise the smallest rectangle around the cells that do; and when these show an
    image whose own cell (0, 0) would be at some row and column, possibly outside the
    window, the region says so. *)
Theorem placeholder_origin (g : G) (scroll_offset i p : Z) :
  let cells := List.filter (cell_key i p) (cells_of g scroll_offset) in
  match find_rect (scan_placeholders g scroll_offset) i p with
  | None => cells = []
  | Some r => Fits cells (row r) (col r) (row r + rows r - 1) (col r + cols r - 1)
      /\ forall oy ox, Forall (placed oy ox) cells ->
           origin_row r = oy /\ origin_col r = ox /\ cell_row r = row r - oy /\ cell_col r = col r - ox
  end.
Proof.
  intros cells. rewrite found_rect. fold cells.
  pose proof (region_of cells (in_order_filter _ _ (cells_in_order g scroll_offset))) as R.
  destruct (fold_left grow cells None) as [a|]; cbn [fmap option_fmap option_map]; [|done]. destruct R as [F O].
  cbn [rect_of snd row col rows cols cell_row cell_col origin_row origin_col]. split.
  - by replace (a_row a + (last_row a - a_row a + 1) - 1) with (last_row a) by lia;
      replace (a_col a + (last_col a - a_col a + 1) - 1) with (last_col a) by lia.
  - intros oy ox P. destruct (O oy ox P) as [E1 E2]. lia.
Qed.

(** ** The compact form *)

Lemma continues_base base pl r c h : 0 <= base < 16777216 -> h = 0 -> continues base pl (mkPCell (Z.lor (Z.shiftl h 24 mod 4294967296) base) pl r c h) = true.
Proof.
  intros B ->. unfold continues. cbn [c_image c_placement]. rewrite Z.shiftl_0_l, Z.mod_0_l by lia. rewrite Z.lor_0_l.
  change 16777215 with (Z.ones 24). rewrite Z.land_ones, Z.mod_small by lia. by rewrite !Z.eqb_refl.
Qed.
Lemma continued_run (g : G) live start r fg ul base : color_id fg = Some base -> 0 <= base < 16777216 ->
  forall n x0 cr cc, cc + Z.of_nat n < 65536 -> 0 <= cc ->
  (forall k, (k < n)%nat -> graphemes g (point_at live start r (x0 + Z.of_nat k)) = Some [PLACEHOLDER]
                            /\ colors g (point_at live start r (x0 + Z.of_nat k)) = Some (fg, ul)) ->
  row_cells g live start r ((fun k => x0 + Z.of_nat k) <$> seq 0 n) (Some (mkPCell base (default 0 (color_id ul)) cr cc 0))
  = (fun k => (r, x0 + Z.of_nat k, mkPCell base (default 0 (color_id ul)) cr (cc + 1 + Z.of_nat k) 0)) <$> seq 0 n.
Proof.
  intros Fg B n. induction n as [|n IH]; intros x0 cr cc C P H; [done|]. cbn [seq fmap list_fmap row_cells].
  destruct (H 0%nat) as [Hg Hc]; [lia|]. unfold placeholder_cell. rewrite Hg. cbn [mbind option_bind]. rewrite Z.eqb_refl, Hc.
  cbn [mbind option_bind fst snd]. rewrite Fg. cbn [mbind option_bind].
  pose proof (continues_base base (default 0 (color_id ul)) cr cc 0 B eq_refl) as K.
  rewrite Z.shiftl_0_l, Z.mod_0_l, Z.lor_0_l in K by lia. rewrite K.
  cbn [omap list_omap take_diacritic fmap option_fmap option_map default from_option Datatypes.id c_row c_col id_high].
  rewrite Z.shiftl_0_l, Z.mod_0_l, Z.lor_0_l by lia. rewrite Z.mod_small by lia. change (Z.of_nat 0) with 0. rewrite !Z.add_0_r. f_equal.
  rewrite <- fmap_S_seq, <- !list_fmap_compose.
  assert (E : forall m, ((fun k => x0 + Z.of_nat k) ∘ S) <$> seq 0 m = (fun k => (x0 + 1) + Z.of_nat k) <$> seq 0 m).
  { intros m. apply list_fmap_ext. intros ? k _. unfold compose. lia. }
  rewrite E, IH; [|lia|lia|].
  - apply list_fmap_ext. intros ? k _. unfold compose.
    rewrite Nat2Z.inj_succ, <- Z.add_1_l, !Z.add_assoc. do 2 f_equal.
  - intros k L. replace (x0 + 1 + Z.of_nat k) with (x0 + Z.of_nat (S k)) by lia. apply H. lia.
Qed.

(** A run of placeholder cells in the same colors, of which only the first says its image
    row and column, shows consecutive columns of that row. *)
Theorem compact_run_decodes (g : G) live start r x0 n fg ul base dr dc cr cc :
  color_id fg = Some base -> 0 <= base < 16777216 ->
  diacritic_index dr = Some cr -> diacritic_index dc = Some cc -> cc + Z.of_nat n < 65536 ->
  (forall k, (k <= n)%nat ->
     graphemes g (point_at live start r (x0 + Z.of_nat k)) = Some (if (k =? 0)%nat then [PLACEHOLDER; dr; dc] else [PLACEHOLDER])
     /\ colors g (point_at live start r (x0 + Z.of_nat k)) = Some (fg, ul)) ->
  row_cells g live start r ((fun k => x0 + Z.of_nat k) <$> seq 0 (S n)) None
  = (fun k => (r, x0 + Z.of_nat k, mkPCell base (default 0 (color_id ul)) cr (cc + Z.of_nat k) 0)) <$> seq 0 (S n).
Proof.
  intros Fg B Dr Dc C H. cbn [seq fmap list_fmap row_cells]. destruct (H 0%nat) as [Hg Hc]; [lia|].
  unfold placeholder_cell at 1. rewrite Hg, Hc. cbn [Nat.eqb mbind option_bind]. rewrite Z.eqb_refl. cbn [fst snd].
  rewrite Fg. cbn [mbind option_bind omap list_omap]. rewrite Dr, Dc.
  cbn [take_diacritic fmap option_fmap option_map default from_option Datatypes.id].
  rewrite Z.shiftl_0_l, Z.mod_0_l, Z.lor_0_l by lia.
  assert (P : 0 <= cc).
  { unfold diacritic_index in Dc. destruct (position _ _); [|done]. injection Dc as <-. lia. }
  change (Z.of_nat 0) with 0. rewrite !Z.add_0_r. f_equal.
  rewrite <- fmap_S_seq, <- !list_fmap_compose.
  assert (E : ((fun k => x0 + Z.of_nat k) ∘ S) <$> seq 0 n = (fun k => (x0 + 1) + Z.of_nat k) <$> seq 0 n).
  { apply list_fmap_ext. intros ? k _. unfold compose. lia. }
  rewrite E, (continued_run g live start r fg ul base Fg B); [|lia|lia|].
  - apply list_fmap_ext. intros ? k _. unfold compose.
    rewrite Nat2Z.inj_succ, <- Z.add_1_l, !Z.add_assoc. do 2 f_equal.
  - intros k L. replace (x0 + 1 + Z.of_nat k) with (x0 + Z.of_nat (S k)) by lia. apply (H (S k)). lia.
Qed.
End Placeholders.

(** ** The state that is read *)

(** Every placement draws an image the state describes, at the generation described;
    images are described once. *)
Record Closed (s : GraphicsState) : Prop := mkClosed {
  closed_ids : NoDup (id <$> images s);
  closed_images : Forall (fun p => exists d, d ∈ images s /\ id d = image_id p /\ generation d = image_generation p) (placements s)
}.
Section Closure.
Context {G : Type} `{!Gfx G}.
Lemma known_image_spec d l : known_image d l = true <-> id d ∈ id <$> l.
Proof.
  unfold known_image. rewrite existsb_elem, list_elem_of_fmap. split.
  - intros (x & I & E%Z.eqb_eq). by exists x.
  - intros (x & E & I). exists x. split; [done|]. by apply Z.eqb_eq.
Qed.
(** What is described of an image comes from the storage alone. *)
Definition from_storage (g : G) (d : ImageDesc) : Prop := (let? im := raw_image g (id d) in describe (id d) im) = Some d.
Lemma describe_id i im d : describe i im = Some d -> id d = i.
Proof.
  unfold describe. destruct (ri_width im) as [w|]; [|done]. destruct (ri_height im) as [h|]; [|done]. cbn [mbind option_bind].
  destruct (_ || _); [done|]. destruct (ri_format im) as [[f|]|]; cbn [mbind option_bind]; try done.
  destruct (ri_compression im); [|done]. cbn [mbind option_bind]. by intros [= <-].
Qed.
Lemma read_all_closed (g : G) found start ps : forall s, Closed s -> Forall (from_storage g) (images s) ->
  Closed (read_all g found start ps s) /\ Forall (from_storage g) (images (read_all g found start ps s)).
Proof.
  induction ps as [|p ps IH]; intros s C F; cbn [read_all]; [done|].
  destruct (rp_image_id p) as [i|]; cbn [mbind option_bind]; [|by apply IH].
  destruct (raw_image g i) as [im|] eqn:I; cbn [mbind option_bind]; [|by apply IH].
  destruct (describe i im) as [d|] eqn:D; [|by apply IH].
  assert (S : from_storage g d).
  { unfold from_storage. rewrite (describe_id _ _ _ D), I. exact D. }
  destruct C as [N P]. destruct (known_image d (images s)) eqn:K; apply IH; cbn [images placements set_field]; try done.
  - constructor; [done|]. cbn [placements images set_field]. apply Forall_app. split; [done|]. constructor; [|done].
    apply known_image_spec, list_elem_of_fmap in K as (x & E & X).
    assert (S' : from_storage g x) by (by eapply (proj1 (Forall_forall _ _) F)).
    unfold from_storage in S, S'. rewrite E in S. rewrite S in S'. injection S' as ->. by exists x.
  - constructor; cbn [images placements set_field].
    + rewrite fmap_app. apply NoDup_app. split; [done|]. split; [|apply NoDup_singleton].
      intros x X J. cbn in J. apply list_elem_of_singleton in J. subst x. apply known_image_spec in X. congruence.
    + apply Forall_app. split.
      * eapply Forall_impl; [exact P|]. intros q (x & X & E). exists x. split; [|done]. apply elem_of_app. by left.
      * constructor; [|done]. exists d. split; [|done]. apply elem_of_app. right. by left.
  - apply Forall_app. split; [done|]. by constructor.
Qed.

(** Whatever the storage answers, the state read from it is closed, and every image in it
    can be looked up by its id. *)
Theorem read_closed (g : G) c off : Closed (read g c off)
  /\ forall p, p ∈ placements (read g c off) -> exists d, image (read g c off) (image_id p) = Some d /\ generation d = image_generation p.
Proof.
  assert (C : Closed (read g c off)).
  { unfold read. set (s := mkState _ _ _ _ _ _ _). assert (C0 : Closed s) by (constructor; constructor).
    destruct (negb _); [exact C0|]. destruct (raw_placements g); [|constructor; constructor].
    apply read_all_closed; [constructor; constructor|constructor]. }
  split; [exact C|]. intros p I. destruct C as [N F]. apply (proj1 (Forall_forall _ _) F) in I as (d & D & E & Gn).
  exists d. split; [|done]. unfold image. rewrite <- E. clear -N D.
  induction (images (read g c off)) as [|x l IH]; [by apply elem_of_nil in D|]. cbn [List.find fmap list_fmap] in *.
  apply NoDup_cons in N as [X N]. apply elem_of_cons in D as [<-|D]; [by rewrite Z.eqb_refl|].
  destruct (Z.eqb_spec (id x) (id d)) as [E|_]; [|by apply IH]. destruct X. apply list_elem_of_fmap. by exists d.
Qed.
End Closure.

(** ** Clipping *)

(** Cutting the rows that scrolled away moves the top of the crop and keeps its other
    edges: what is left is the lower part, and nothing when all of it is gone. *)
Theorem clip_keeps_bottom (p : Placement) n (c : CellSize) :
  0 <= n -> n * Z.max (height c) 1 <= U32_MAX -> 0 <= sy (source p) -> 0 <= sheight (source p) ->
  sy (source p) + sheight (source p) <= U32_MAX ->
  let q := source (clip_top p n c) in
  sy q + sheight q = sy (source p) + sheight (source p)
  /\ sheight q = Z.max 0 (sheight (source p) - n * Z.max (height c) 1) /\ sx q = sx (source p) /\ swidth q = swidth (source p).
Proof.
  unfold U32_MAX. intros N B Y H E. unfold clip_top. destruct (Z.eqb_spec n 0) as [-> |]; [cbn; lia|].
  cbn [source sy sheight sx swidth set_field]. rewrite (Z.mod_small (n * _)) by nia.
  rewrite Z.mod_small by lia. lia.
Qed.

(** ** A transmission, read back *)

(** What a terminal makes of it: the commands one by one; then a transmission, whose data
    is that of its commands up to the first without [m=1], put together. *)
Definition Command : Type := list bytes * bytes.
Fixpoint commands_fuel (fuel : nat) (s : bytes) : option (list Command) :=
  match fuel, s with
  | _, [] => Some []
  | O, _ => None
  | S fuel, _ =>
      let? s := strip_prefix APC_G s in
      let '(body, s) := span (fun b => negb (b =? 27)) s in
      let? s := strip_prefix APC_END s in
      let '(ks, payload) := cut 59 body in
      let? cs := commands_fuel fuel s in Some ((split_on (Z.eqb 44) ks, payload) :: cs)
  end.
Definition commands (s : bytes) : option (list Command) := commands_fuel (length s) s.
Definition more_follows (c : Command) : bool := bool_decide (str "m=1" ∈ fst c).
Fixpoint payloads (cs : list Command) : option bytes :=
  match cs with
  | [] => None
  | c :: rest => if more_follows c then let? p := payloads rest in Some (snd c ++ p)
                 else match rest with [] => Some (snd c) | _ => None end
  end.
Definition received (s : bytes) : option (list bytes * bytes) :=
  let? cs := commands s in
  match cs with
  | [] => None
  | c :: _ => let? text := payloads cs in let? d := decode text in
              Some (List.filter (fun k => negb (beq k (str "m=1"))) (fst c), d)
  end.

(** The keys of an image's transmission. *)
Definition keys_of (d : ImageDesc) (f : Z) : list bytes :=
  [str "a=t"; str "q=2"; str "i=" ++ dec (id d); str "f=" ++ dec f]
  ++ (if is_raw (format d) then [str "s=" ++ dec (im_width d); str "v=" ++ dec (im_height d)] else [])
  ++ (match compression d with ZlibDeflate => [str "o=z"] | Uncompressed => [] end).
Lemma params_keys d f : transmit_params d f = join [44] (keys_of d f).
Proof.
  unfold transmit_params, keys_of. destruct (is_raw (format d)), (compression d); cbn [app join];
    rewrite <- ?app_assoc, ?app_nil_r; reflexivity.
Qed.
Lemma dec_free c n : is_ascii_digit c = false -> c <> 45 -> free c (dec n) = true.
Proof.
  intros D N. unfold dec. destruct (n <? 0).
  - change (45 :: dec_nat (- n)) with ([45] ++ dec_nat (- n)). rewrite free_app. apply andb_true_intro. split.
    + cbn. destruct (Z.eqb_spec c 45); [done|done].
    + apply (free_of is_ascii_digit); [apply dec_nat_digits|done].
  - apply (free_of is_ascii_digit); [apply dec_nat_digits|done].
Qed.
Lemma key_free k n c : is_ascii_digit c = false -> c <> 45 -> free c (str k) = true -> free c (str k ++ dec n) = true.
Proof. intros D N K. rewrite free_app, K. by apply dec_free. Qed.
Lemma keys_free d f c : c = 44 \/ c = 59 \/ c = 27 -> forallb (free c) (keys_of d f) = true.
Proof.
  intros C. assert (D : is_ascii_digit c = false /\ c <> 45) by (destruct C as [->|[->| ->]]; split; (done || lia)).
  destruct D as [D N]. unfold keys_of. rewrite !forallb_app. cbn [forallb].
  destruct (is_raw (format d)), (compression d); cbn [forallb];
    rewrite ?(key_free "i=" _ c D N), ?(key_free "f=" _ c D N), ?(key_free "s=" _ c D N), ?(key_free "v=" _ c D N)
      by (destruct C as [->|[->| ->]]; reflexivity);
    destruct C as [->|[->| ->]]; reflexivity.
Qed.
Lemma keys_not_more d f : forallb (fun k => negb (beq k (str "m=1"))) (keys_of d f) = true.
Proof.
  assert (H : forall a k l, (a =? 109) = false -> negb (beq (a :: k ++ l) (str "m=1")) = true).
  { intros a k l N. apply negb_true_iff. apply not_true_iff_false. intros E%beq_eq. injection E as -> _. done. }
  unfold keys_of. rewrite !forallb_app. cbn [forallb].
  destruct (is_raw (format d)), (compression d); cbn [forallb]; 
    repeat (apply andb_true_intro; split); try reflexivity; first [apply (H _ [61]); reflexivity|reflexivity].
Qed.

(** The commands of a transmission. *)
Fixpoint spoken (ks : list bytes) (first : bool) (cs : list bytes) : list Command :=
  match cs with
  | [] => []
  | c :: cs =>
      let more := is_nonempty cs in
      (if first then ks ++ (if more then [str "m=1"] else [])
       else [str "q=2"; if more then str "m=1" else str "m=0"], c) :: spoken ks false cs
  end.
Lemma join_snoc x (ps : list bytes) l : ps <> [] -> join [x] (ps ++ [l]) = join [x] ps ++ x :: l.
Proof.
  intros N. induction ps as [|p ps IH]; [done|]. destruct ps as [|q ps]; [done|].
  change ((p :: q :: ps) ++ [l]) with (p :: q :: (ps ++ [l])). change (join [x] (p :: q :: ps ++ [l])) with (p ++ x :: join [x] ((q :: ps) ++ [l])).
  rewrite IH by done. change (join [x] (p :: q :: ps)) with (p ++ x :: join [x] (q :: ps)). by rewrite <- app_assoc.
Qed.
Lemma command_read ks c rest n cs : ks <> [] -> (forall x, x = 44 \/ x = 59 \/ x = 27 -> forallb (free x) ks = true) ->
  forallb b64_byte c = true -> commands_fuel n rest = Some cs ->
  commands_fuel (S n) (APC_G ++ join [44] ks ++ [59] ++ c ++ APC_END ++ rest) = Some ((ks, c) :: cs).
Proof.
  intros N F B R. cbn [commands_fuel]. set (tail := join _ _ ++ _). change (APC_G ++ tail) with (27 :: 95 :: 71 :: tail).
  change (27 :: 95 :: 71 :: tail) with (APC_G ++ tail). rewrite (proj2 (strip_prefix_Some APC_G _ _) eq_refl). cbn [mbind option_bind].
  unfold tail. clear tail.
  assert (Fb : free 27 (join [44] ks ++ [59] ++ c) = true).
  { rewrite !free_app, free_join by (done || apply F; auto). cbn [free forallb negb andb Z.eqb].
    apply (free_of b64_byte); [done|reflexivity]. }
  replace (join [44] ks ++ [59] ++ c ++ APC_END ++ rest) with ((join [44] ks ++ [59] ++ c) ++ 27 :: 92 :: rest)
    by (by rewrite <- !app_assoc).
  rewrite span_free by done. change (27 :: 92 :: rest) with (APC_END ++ rest).
  rewrite (proj2 (strip_prefix_Some APC_END _ _) eq_refl). cbn [mbind option_bind].
  change ([59] ++ c) with (59 :: c). rewrite cut_free by (apply free_join; [done|apply F; auto]).
  rewrite split_join by (done || apply F; auto). rewrite R. done.
Qed.
Lemma continuation_free (b : bool) x : x = 44 \/ x = 59 \/ x = 27 ->
  forallb (free x) [str "q=2"; if b then str "m=1" else str "m=0"] = true.
Proof. intros [->|[->| ->]]; by destruct b. Qed.
Lemma transmit_commands d f cs : Forall (fun c => forallb b64_byte c = true) cs -> forall first n,
  (length cs <= n)%nat ->
  commands_fuel n (transmit_chunks (join [44] (keys_of d f)) first cs) = Some (spoken (keys_of d f) first cs).
Proof.
  assert (Ne : keys_of d f <> []) by done.
  induction 1 as [|c cs B F IH]; intros first n L; [by destruct n|]. cbn [length] in L. destruct n as [|n]; [lia|].
  cbn [transmit_chunks spoken]. specialize (IH false n ltac:(lia)). destruct first.
  - destruct (is_nonempty cs).
    + rewrite <- !app_assoc. change (str ",m=1") with (44 :: str "m=1").
      replace (join [44] (keys_of d f) ++ (44 :: str "m=1") ++ [59] ++ c ++ APC_END ++ transmit_chunks (join [44] (keys_of d f)) false cs)
        with (join [44] (keys_of d f ++ [str "m=1"]) ++ [59] ++ c ++ APC_END ++ transmit_chunks (join [44] (keys_of d f)) false cs)
        by (by rewrite join_snoc, <- app_assoc).
      apply command_read; [done| |done|done]. intros x X. rewrite forallb_app, keys_free by done. by destruct X as [->|[->| ->]].
    + rewrite !app_nil_r. apply command_read; [done|intros; by apply keys_free|done|done].
  - replace (str "q=2,m=" ++ [if is_nonempty cs then 49 else 48])
      with (join [44] [str "q=2"; if is_nonempty cs then str "m=1" else str "m=0"]) by (by destruct (is_nonempty cs)).
    apply command_read; [done|intros; by apply continuation_free|done|done].
Qed.
Lemma spoken_payloads ks cs : cs <> [] -> str "m=1" ∉ ks -> forall first, payloads (spoken ks first cs) = Some (concat cs).
Proof.
  intros N K. induction cs as [|c cs IH]; [done|]. intros first. cbn [spoken payloads more_follows fst snd].
  destruct cs as [|c' cs].
  - cbn [is_nonempty spoken concat]. rewrite !app_nil_r. unfold more_follows. cbn [fst]. rewrite bool_decide_eq_false_2; [done|].
    destruct first; [done|]. intros [E|[E|E]%elem_of_cons]%elem_of_cons; try done. by apply elem_of_nil in E.
  - cbn [is_nonempty]. unfold more_follows at 1. cbn [fst]. rewrite bool_decide_eq_true_2.
    + rewrite (IH ltac:(done) false). done.
    + destruct first; [apply elem_of_app; right; by left|right; by left].
Qed.
Lemma transmit_length params cs : forall first, (length cs <= length (transmit_chunks params first cs))%nat.
Proof.
  induction cs as [|c cs IH]; intros first; cbn [transmit_chunks length]; [lia|]. specialize (IH false).
  rewrite !length_app. change (length APC_G) with 3%nat. lia.
Qed.

(** C36: A terminal that reads a transmission has the image's keys and its very bytes, however
    many chunks they took. *)
Theorem transmission_read_back (im : ImageBytes) (f : Z) : data im <> [] -> forallb is_byte (data im) = true ->
  received (transmit im f) = Some (keys_of (desc im) f, data im).
Proof.
  intros N B. unfold received, transmit, commands. rewrite params_keys.
  destruct (chunks_spec CHUNK (base64 (data im)) ltac:(unfold CHUNK; lia)) as [Cc Cf].
  set (cs := chunks CHUNK (base64 (data im))) in *.
  assert (Bs : Forall (fun c => forallb b64_byte c = true) cs).
  { pose proof (base64_bytes (data im)) as Ab. rewrite <- Cc in Ab. clear -Ab. induction cs as [|c cs IH]; [constructor|].
    cbn [concat] in Ab. rewrite forallb_app in Ab. apply andb_prop in Ab as [A1 A2]. constructor; auto. }
  assert (Nc : cs <> []).
  { intros E. rewrite E in Cc. pose proof (base64_nonempty (data im)) as Z0. rewrite <- Cc in Z0. cbn in Z0. by destruct (data im). }
  rewrite transmit_commands by (done || apply transmit_length). cbn [mbind option_bind].
  assert (K : str "m=1" ∉ keys_of (desc im) f).
  { intros I. pose proof (proj1 (forallb_elem _ _) (keys_not_more (desc im) f) _ I) as E. cbv beta in E. by rewrite beq_refl in E. }
  pose proof (spoken_payloads (keys_of (desc im) f) cs Nc K true) as P.
  destruct cs as [|c cs]; [done|]. cbn [spoken] in *. rewrite P. cbn [mbind option_bind]. rewrite Cc, decode_base64 by done.
  cbn [mbind option_bind fst]. f_equal. f_equal. rewrite List.filter_app.
  assert (Fk : List.filter (fun k => negb (beq k (str "m=1"))) (keys_of (desc im) f) = keys_of (desc im) f)
    by apply List.forallb_filter_id, keys_not_more.
  rewrite Fk. destruct (is_nonempty cs); [|apply app_nil_r]. cbn [List.filter]. rewrite beq_refl. apply app_nil_r.
Qed.

(** ** A small window *)

(** A window of 3 rows and 5 columns, all of it in view, and what its storage holds. *)
Record Window : Type := mkWindow {
  w_cells : list (list (list Z)); w_color : StyleColor; w_placements : list RawPlacement; w_images : list (Z * RawImage)
}.
Definition at_point (w : Window) (p : Point) : option (list Z) :=
  match p with Active x y | Screen x y => let? l := w_cells w !! Z.to_nat y in l !! Z.to_nat x end.
#[export] Instance window_gfx : Gfx Window := {|
  g_rows := fun w => Some (Z.of_nat (length (w_cells w)));
  g_cols := fun _ => Some 5;
  scrollback_rows := fun _ => Some 0;
  total_rows := fun w => Some (Z.of_nat (length (w_cells w)));
  storage_limit := fun _ => Some MAX_STORAGE_BYTES;
  storage_generation := fun _ => Some 1;
  raw_placements := fun w => Some (w_placements w);
  raw_image := fun w i => snd <$> List.find (fun e => fst e =? i) (w_images w);
  graphemes := at_point;
  colors := fun w p => (fun _ => (w_color w, NoColor)) <$> at_point w p
|}.
(** Image rows 1 and 2 of image 7, its columns from 0 on; the second and third cell of a
    row say nothing of their own. *)
Definition shown : Window := mkWindow
  [[[32]; [32]; [32]; [32]; [32]];
   [[32]; [PLACEHOLDER; 781; 773]; [PLACEHOLDER]; [PLACEHOLDER]; [32]];
   [[32]; [PLACEHOLDER; 782; 773]; [PLACEHOLDER]; [PLACEHOLDER]; [32]]]
  (Palette 7)
  [mkRaw (Some 7) None (Some true) None None None (Some (3, 2)) None None (Some 3) (Some 3) None]
  [(7, mkRawImage (Some 1) (Some 1) (Some (Known Rgb)) (Some Uncompressed) None (Some 4) (Some [1; 2; 3]))].
Definition shown_rect : PlaceholderRect := mkRect 1 1 2 3 1 0 0 1.
Example shown_found : find_rect (scan_placeholders shown 0) 7 0 = Some shown_rect.
Proof. vm_compute. reflexivity. Qed.
Example shown_replay : replay shown undeclared
  = APC_G ++ str "a=t,q=2,i=7,f=24,s=1,v=1;AQID" ++ APC_END ++ APC_G ++ str "a=p,U=1,q=2,i=7,c=3,r=3,x=0,y=0,w=1,h=1" ++ APC_END.
Proof. vm_compute. reflexivity. Qed.
Example diacritics_sorted : StronglySorted Z.lt ROWCOLUMN_DIACRITICS.
Proof.
  apply Sorted_StronglySorted; [intros a b c; apply Z.lt_trans|]. unfold ROWCOLUMN_DIACRITICS.
  repeat (constructor; [|try constructor; reflexivity]). constructor.
Qed.

Lemma placeholder_origin_witness :
  Forall (placed 0 1) (List.filter (cell_key 7 0) (cells_of shown 0)) /\ origin_row shown_rect = 0 /\ origin_col shown_rect = 1.
Proof.
  assert (P : Forall (placed 0 1) (List.filter (cell_key 7 0) (cells_of shown 0))).
  { set (l := List.filter _ _). vm_compute in l. subst l. repeat (constructor; [split; reflexivity|]). constructor. }
  split; [exact P|]. pose proof (placeholder_origin shown 0 7 0) as H. cbv zeta in H. rewrite shown_found in H.
  destruct H as [_ H]. destruct (H 0 1 P) as (A & B & _). split; [exact A|exact B].
Defined.
Lemma compact_run_decodes_witness :
  row_cells shown true 0 1 ((fun k => 1 + Z.of_nat k) <$> seq 0 3) None
  = (fun k => (1, 1 + Z.of_nat k, mkPCell 7 0 1 (0 + Z.of_nat k) 0)) <$> seq 0 3.
Proof.
  apply (compact_run_decodes shown true 0 1 1 2 (Palette 7) NoColor 7 781 773 1 0); try reflexivity; try lia.
  intros [|[|[|k]]] L; try lia; split; vm_compute; reflexivity.
Defined.
Lemma read_closed_witness : Closed (read shown undeclared 0).
Proof. exact (proj1 (read_closed shown undeclared 0)). Defined.

Definition scrolled : Placement := mkPlacement 7 0 false 0 4 (mkSource 0 10 8 100) (0, 0) (8, 100) (1, 7) (1, 7) (Direct 0 (-2) 1 7).
Lemma clip_keeps_bottom_witness :
  sy (source (clip_top scrolled 2 FALLBACK)) + sheight (source (clip_top scrolled 2 FALLBACK)) = 110.
Proof. apply (clip_keeps_bottom scrolled 2 FALLBACK); vm_compute; congruence. Defined.
Definition large : ImageBytes := mkBytes (mkDesc 9 0 1 64 32 Rgb ZlibDeflate 6144) (replicate (Z.to_nat 6144) 65).
Lemma transmission_read_back_witness : received (transmit large 24) = Some (keys_of (desc large) 24, data large).
Proof. apply transmission_read_back; [vm_compute; discriminate|vm_compute; reflexivity]. Defined.
Example two_chunks : length (chunks CHUNK (base64 (data large))) = 2%nat.
Proof. vm_compute. reflexivity. Qed.
