(* ===== verification/Serialize.v ===== *)
(** Serializing a screen: [crates/pty-terminal/src/serialize.rs].

    The emulator's formatter and its readings of cells, colors and cursor are an
    interface ([Canvas]); a [String] is the list of its characters.  The file builds the
    screen's text from them, and proves that the backgrounds and the pen it restores are
    those of the screen. *)
From S2P Require Import Prelude Names Text Order Inventory Files Argv Client Summary Paste History Graphics.

(** ** The emulator's side *)

Inductive Underline : Type := UNone | Single | Double | Curly | Dotted | Dashed | UOther.
Record Style : Type := mkStyle {
  bold : bool; faint : bool; italic : bool; blink : bool; inverse : bool; invisible : bool; strikethrough : bool;
  overline : bool; underline : Underline; fg_color : StyleColor; bg_color : StyleColor; underline_color : StyleColor
}.
#[export] Instance style_eta : Settable Style := fun s =>
  mkStyle (bold s) (faint s) (italic s) (blink s) (inverse s) (invisible s) (strikethrough s) (overline s)
    (underline s) (fg_color s) (bg_color s) (underline_color s).
Definition plain_style : Style := mkStyle false false false false false false false false UNone NoColor NoColor NoColor.
Definition Color : Type := Z * Z * Z.
(** [vt_opts], [plain_opts], [plain_unwrapped_opts]. *)
Inductive FormatterOptions : Type := VtOpts | PlainOpts | PlainUnwrappedOpts.
Class Canvas (V : Type) `{!Gfx V} : Type := {
  format_alloc : V -> FormatterOptions -> bool -> option bytes;
  active_ref : V -> Z -> Z -> bool;
  cell_at : V -> Point -> option BgCell;
  cursor_x : V -> option Z;
  cursor_y : V -> option Z;
  cursor_style : V -> option Style;
  dynamic_color : V -> Z -> option (option Color);
  default_color : V -> Z -> option (option Color);
  color_palette : V -> option (list Color);
  default_color_palette : V -> option (list Color)
}.

Record SerializeOpts : Type := mkOpts { include_alt_screen_prefix : bool; scrollback : bool }.
Definition ATTACH : SerializeOpts := mkOpts true true.
Definition PEEK : SerializeOpts := mkOpts false false.
Definition PEEK_FULL : SerializeOpts := mkOpts false true.

(** ** The pen *)

Definition underline_code (u : Underline) : option bytes :=
  match u with
  | UNone | UOther => None
  | Single => Some (str "4")
  | Double => Some (str "4:2")
  | Curly => Some (str "4:3")
  | Dotted => Some (str "4:4")
  | Dashed => Some (str "4:5")
  end.
Definition color_code (c : StyleColor) (base bright extended : Z) : list bytes :=
  match c with
  | NoColor => []
  | Palette i => if i <? 8 then [dec (base + i)] else if i <? 16 then [dec (bright + i - 8)]
                 else [dec extended ++ str ";5;" ++ dec i]
  | RgbColor r g b => [dec extended ++ str ";2;" ++ dec r ++ [59] ++ dec g ++ [59] ++ dec b]
  end.
Definition underline_color_code (c : StyleColor) : list bytes :=
  match c with
  | NoColor => []
  | Palette i => [str "58;5;" ++ dec i]
  | RgbColor r g b => [str "58;2;" ++ dec r ++ [59] ++ dec g ++ [59] ++ dec b]
  end.
Definition flag (on : bool) (code : string) : list bytes := if on then [str code] else [].
Definition pen_codes (s : Style) : list bytes :=
  [str "0"] ++ flag (bold s) "1" ++ flag (faint s) "2" ++ flag (italic s) "3" ++ flag (blink s) "5"
  ++ flag (inverse s) "7" ++ flag (invisible s) "8" ++ flag (strikethrough s) "9" ++ flag (overline s) "53"
  ++ option_list (underline_code (underline s))
  ++ color_code (fg_color s) 30 90 38 ++ color_code (bg_color s) 40 100 48 ++ underline_color_code (underline_color s).
Definition current_pen_sgr (s : Style) : bytes := [27; 91] ++ join [59] (pen_codes s) ++ [109].

(** ** The screen *)

Section Screens.
Context {V : Type} `{!Gfx V, !Canvas V}.

Definition osc_rgb (i : Z) (c : Color) : bytes :=
  let '(r, g, b) := c in [27; 93] ++ dec i ++ str ";rgb:" ++ hex2 r ++ [47] ++ hex2 g ++ [47] ++ hex2 b ++ [27; 92].
Definition palette_rgb (i : nat) (c : Color) : bytes :=
  let '(r, g, b) := c in
  [27; 93] ++ str "4;" ++ dec (Z.of_nat i) ++ str ";rgb:" ++ hex2 r ++ [47] ++ hex2 g ++ [47] ++ hex2 b ++ [27; 92].
Definition same_color (a : Color) (b : option Color) : bool := bool_decide (Some a = b).
Definition changed_color (v : V) (i : Z) : bytes :=
  match dynamic_color v i, default_color v i with
  | Some (Some c), Some base => if same_color c base then [] else osc_rgb i c
  | _, _ => []
  end.
Definition changed_palette (current base : list Color) : bytes :=
  concat (imap (fun i c => if same_color c (base !! i) then [] else palette_rgb i c) current).
Definition dynamic_color_prefix (v : V) : bytes :=
  concat (changed_color v <$> [10; 11; 12])
  ++ match color_palette v, default_color_palette v with
     | Some current, Some base => changed_palette current base
     | _, _ => []
     end.

Definition format (v : V) (o : FormatterOptions) : bytes :=
  match format_alloc v o false with Some b => from_utf8_lossy b | None => [] end.
Definition format_active (v : V) (o : FormatterOptions) : bytes :=
  let rows := Z.max (default 1 (g_rows v)) 1 in
  let cols := Z.max (default 1 (g_cols v)) 1 in
  if active_ref v 0 0 && active_ref v (cols - 1) (rows - 1)
  then match format_alloc v o true with Some b => from_utf8_lossy b | None => [] end
  else format v o.

Definition has_text_at (v : V) (p : Point) : bool := match cell_at v p with Some c => has_text c | None => false end.
Definition row_has_text (v : V) (y cols : Z) : bool := existsb (fun x => has_text_at v (Screen x y)) (upto cols).

(** What one walk learns: the last row with text, and the backgrounds of those without. *)
Definition ActiveScan : Type := option Z * bytes.
Fixpoint scan_lines (cells : Z -> Z -> option BgCell) (columns : list Z) (ys : list Z) (s : ActiveScan) : ActiveScan :=
  match ys with
  | [] => s
  | y :: ys =>
      scan_lines cells columns ys
        (match History.scan_row (fun x => cells x y) columns [] with
         | None => (Some y, snd s)
         | Some runs => (fst s, snd s ++ concat (fixup y <$> rev runs))
         end)
  end.
Definition scan_rows (cells : Z -> Z -> option BgCell) (rows : Z) (columns : list Z) : ActiveScan :=
  let s := scan_lines cells columns (upto rows) (None, []) in
  (fst s, if is_nonempty (snd s) then snd s ++ [27; 91; 48; 109] else snd s).
Definition scan_active (v : V) : ActiveScan :=
  scan_rows (fun x y => cell_at v (Active x y)) (default 0 (g_rows v)) (upto (default 0 (g_cols v))).
Definition last_text_row (v : V) (active : ActiveScan) : option Z :=
  let base := default 0 (scrollback_rows v) in
  match fst active with
  | Some y => Some (base + y)
  | None => List.find (fun y => row_has_text v y (default 0 (g_cols v))) (rev (upto base))
  end.
Definition padding_rows (v : V) (active : ActiveScan) : nat :=
  let rows := default 0 (g_rows v) in
  let total := default rows (total_rows v) in
  let emitted := match last_text_row v active with Some y => y + 1 | None => 0 end in
  Z.to_nat (total - Z.max emitted rows).
Definition vt (v : V) (with_scrollback : bool) (c : CellSize) : bytes :=
  let body := if with_scrollback then format v VtOpts else format_active v VtOpts in
  let active := scan_active v in
  let pad := if with_scrollback then concat (replicate (padding_rows v active) [13; 10]) else [] in
  body ++ pad ++ snd active
  ++ [27; 91] ++ dec (default 0 (cursor_y v) + 1) ++ [59] ++ dec (default 0 (cursor_x v) + 1) ++ [72]
  ++ replay v c ++ current_pen_sgr (default plain_style (cursor_style v)).

(** ** Plain text *)

Fixpoint drop_empty (ls : list bytes) : list bytes :=
  match ls with l :: rest => if is_nonempty l then ls else drop_empty rest | [] => [] end.
Definition plain_lines (text : bytes) : list bytes := rev (drop_empty (rev (split_on (Z.eqb 10) text))).
Definition plain_lines_full (v : V) : list bytes := plain_lines (format v PlainOpts).
Definition plain_lines_viewport (v : V) : list bytes := plain_lines (format_active v PlainUnwrappedOpts).
Definition plain_viewport (v : V) : bytes := join [10] (plain_lines_viewport v).
Definition plain_full (v : V) : bytes := join [10] (plain_lines (format v PlainUnwrappedOpts)).
End Screens.

(** ** Plain text, rows kept *)

(** The lines are those of the text, less the empty ones at its end; the last line that
    is kept has text. *)
Lemma drop_empty_spec ls : exists n, ls = replicate n [] ++ drop_empty ls /\ match drop_empty ls with l :: _ => is_nonempty l = true | [] => True end.
Proof.
  induction ls as [|l ls (n & E & H)]; [by exists O|]. cbn [drop_empty]. destruct (is_nonempty l) eqn:N; [by exists O|].
  exists (S n). destruct l; [|done]. cbn [replicate app]. by rewrite <- E.
Qed.
Theorem plain_lines_spec text : exists n, split_on (Z.eqb 10) text = plain_lines text ++ replicate n []
  /\ match last (plain_lines text) with Some l => is_nonempty l = true | None => True end.
Proof.
  unfold plain_lines. destruct (drop_empty_spec (rev (split_on (Z.eqb 10) text))) as (n & E & H). exists n. split.
  - apply (f_equal (@rev bytes)) in E. rewrite rev_involutive, rev_app_distr in E. rewrite E at 1. f_equal.
    clear. induction n as [|n IH]; [done|]. cbn [replicate rev]. rewrite IH. clear. by rewrite <- replicate_cons_app.
  - destruct (drop_empty _) as [|l ls]; [done|]. cbn [rev]. by rewrite last_snoc.
Qed.

(** ** Backgrounds *)

(** The cells a run restores: consecutive columns with one background. *)
Definition run_cells (r : Run) : list (Z * bytes) := let '(sx, n, sgr) := r in (fun k => (sx + Z.of_nat k, sgr)) <$> seq 0 (Z.to_nat n).
Definition restored (runs : list Run) : list (Z * bytes) := concat (run_cells <$> rev runs).
Definition painted (cells : Z -> option BgCell) (x : Z) : option (Z * bytes) :=
  let? c := cells x in let? b := content c in Some (x, background_sgr b).
Definition long (r : Run) : Prop := let '(_, n, _) := r in 0 < n.
Lemma restored_add x sgr runs : Forall long runs -> restored (add_run x sgr runs) = restored runs ++ [(x, sgr)] /\ Forall long (add_run x sgr runs).
Proof.
  assert (New : forall rs, restored ((x, 1, sgr) :: rs) = restored rs ++ [(x, sgr)]).
  { intros rs. unfold restored. cbn [rev]. rewrite fmap_app, concat_app.
    change (concat (run_cells <$> [(x, 1, sgr)])) with [(x + 0, sgr)]. by rewrite Z.add_0_r. }
  destruct runs as [|[[sx n] p] runs]; intros F; cbn [add_run].
  - split; [apply New|]. by constructor.
  - apply Forall_cons in F as [L F]. destruct ((sx + n =? x) && beq p sgr) eqn:E; [|split; [apply New|by repeat constructor]].
    apply andb_prop in E as [<-%Z.eqb_eq ->%beq_eq]. cbn [long] in L. split; [|constructor; [cbn; lia|done]].
    unfold restored. cbn [rev]. rewrite !fmap_app, !concat_app. cbn [fmap list_fmap concat]. rewrite !app_nil_r, <- app_assoc. f_equal.
    unfold run_cells. replace (Z.to_nat (n + 1)) with (Z.to_nat n + 1)%nat by lia. rewrite seq_app, fmap_app. f_equal.
    cbn [seq fmap list_fmap Nat.add]. by rewrite Z2Nat.id by lia.
Qed.
Lemma scan_row_restored cells xs : forall runs out, Forall long runs -> History.scan_row cells xs runs = Some out ->
  restored out = restored runs ++ omap (painted cells) xs.
Proof.
  induction xs as [|x xs IH]; intros runs out F; cbn [History.scan_row omap list_omap]; [intros [= <-]; by rewrite app_nil_r|].
  unfold painted at 1. destruct (cells x) as [c|]; cbn [mbind option_bind]; [|by apply IH].
  destruct (has_text c); [done|]. destruct (content c) as [b|]; cbn [mbind option_bind]; [|by apply IH].
  destruct (restored_add x (background_sgr b) runs F) as [R L]. intros S. rewrite (IH _ _ L S), R, <- app_assoc. done.
Qed.
(** A row without text gives back the background of each of its cells, once and in
    order; a row with text nothing. *)
Theorem backgrounds_restored cells columns :
  match History.scan_row cells columns [] with
  | Some runs => restored runs = omap (painted cells) columns
  | None => exists x c, x ∈ columns /\ cells x = Some c /\ has_text c = true
  end.
Proof.
  destruct (History.scan_row cells columns []) as [runs|] eqn:S.
  - by rewrite (scan_row_restored cells columns [] runs ltac:(constructor) S).
  - revert S. generalize (@nil Run). induction columns as [|x xs IH]; intros runs; cbn [History.scan_row]; [done|].
    destruct (cells x) as [c|] eqn:C.
    + destruct (has_text c) eqn:T; [intros _; exists x, c; split; [by left|done]|].
      intros (y & d & I & H)%IH. exists y, d. split; [by right|done].
    + intros (y & d & I & H)%IH. exists y, d. split; [by right|done].
Qed.

(** ** The pen, read back *)

(** What a terminal makes of the parameters of an SGR sequence. *)
Definition reset_pen (s : Style) : Style := plain_style.
Definition simple_codes : list (string * (Style -> Style)) := [
  ("0", reset_pen); ("1", fun s => s <| bold := true |>); ("2", fun s => s <| faint := true |>);
  ("3", fun s => s <| italic := true |>); ("5", fun s => s <| blink := true |>); ("7", fun s => s <| inverse := true |>);
  ("8", fun s => s <| invisible := true |>); ("9", fun s => s <| strikethrough := true |>);
  ("53", fun s => s <| overline := true |>); ("4", fun s => s <| underline := Single |>);
  ("4:2", fun s => s <| underline := Double |>); ("4:3", fun s => s <| underline := Curly |>);
  ("4:4", fun s => s <| underline := Dotted |>); ("4:5", fun s => s <| underline := Dashed |>)].
Definition set_color (target : Z) (c : StyleColor) (s : Style) : Style :=
  if target =? 38 then s <| fg_color := c |> else if target =? 48 then s <| bg_color := c |> else s <| underline_color := c |>.
Definition indexed (n : Z) (s : Style) : Style :=
  if in_range 30 37 n then s <| fg_color := Palette (n - 30) |>
  else if in_range 40 47 n then s <| bg_color := Palette (n - 40) |>
  else if in_range 90 97 n then s <| fg_color := Palette (n - 90 + 8) |>
  else if in_range 100 107 n then s <| bg_color := Palette (n - 100 + 8) |> else s.
Definition is_extended (n : Z) : bool := (n =? 38) || (n =? 48) || (n =? 58).
Fixpoint apply_sgr (ps : list bytes) (s : Style) : Style :=
  match ps with
  | [] => s
  | p :: ps =>
      match List.find (fun e => beq (str (fst e)) p) simple_codes with
      | Some (_, f) => apply_sgr ps (f s)
      | None =>
          match parse_u32 p with
          | None => apply_sgr ps s
          | Some n =>
              if is_extended n then
                match ps with
                | k :: a :: rest =>
                    if beq k (str "5") then
                      match parse_u32 a with Some i => apply_sgr rest (set_color n (Palette i) s) | None => s end
                    else match rest with
                         | g :: b :: rest =>
                             match parse_u32 a, parse_u32 g, parse_u32 b with
                             | Some r, Some g, Some b => apply_sgr rest (set_color n (RgbColor r g b) s)
                             | _, _, _ => s
                             end
                         | _ => s
                         end
                | _ => s
                end
              else apply_sgr ps (indexed n s)
          end
      end
  end.
Definition pen_read (text : bytes) (s : Style) : option Style :=
  let? t := strip_prefix [27; 91] text in
  let? t := strip_suffix [109] t in Some (apply_sgr (split_on (Z.eqb 59) t) s).

Definition byte_color (c : StyleColor) : bool :=
  match c with NoColor => true | Palette i => in_range 0 255 i | RgbColor r g b => in_range 0 255 r && in_range 0 255 g && in_range 0 255 b end.
Definition known_underline (u : Underline) : bool := match u with UOther => false | _ => true end.

Lemma parse_dec n : 0 <= n <= U32_MAX -> parse_u32 (dec n) = Some n.
Proof.
  intros R. unfold dec. destruct (Z.ltb_spec n 0); [lia|]. unfold parse_u32, parse_unsigned.
  pose proof (dec_nat_digits n) as D. destruct (dec_nat_cons n) as (d & l & E). pose proof (digits_value_dec_nat n ltac:(lia)) as V.
  rewrite E in *. cbn [forallb] in D. apply andb_prop in D as [D _].
  replace (match d :: l with 43 :: r => r | _ => d :: l end) with (d :: l).
  - rewrite V. by replace (n <=? U32_MAX) with true by lia.
  - destruct (Z.eqb_spec d 43) as [-> |N]; [done|]. clear -N. destruct d as [|p|p]; try done. do 6 (destruct p as [p|p|]; try done).
Qed.
(** A parameter that is a number of two digits or more from 30 on is no simple code, [53] apart. *)
Lemma not_simple n : 0 <= n <= 107 -> n >= 30 -> n <> 53 -> List.find (fun e => beq (str (fst e)) (dec n)) simple_codes = None.
Proof.
  intros A B N.
  assert (C : forallb (fun k => bool_decide (k < 30)%nat || bool_decide (k = 53%nat)
    || match List.find (fun e => beq (str (fst e)) (dec (Z.of_nat k))) simple_codes with None => true | Some _ => false end) (seq 0 108) = true)
    by (vm_compute; reflexivity).
  pose proof (proj1 (forallb_elem _ _) C (Z.to_nat n) ltac:(apply elem_of_seq; lia)) as H. cbv beta in H.
  rewrite !bool_decide_eq_false_2 in H by lia. cbn [orb] in H. rewrite Z2Nat.id in H by lia.
  by destruct (List.find _ simple_codes).
Qed.
Lemma sgr_indexed n ps s : 30 <= n <= 107 -> n <> 53 -> is_extended n = false -> apply_sgr (dec n :: ps) s = apply_sgr ps (indexed n s).
Proof. intros R N E. cbn [apply_sgr]. rewrite not_simple by lia. rewrite parse_dec by (unfold U32_MAX; lia). by rewrite E. Qed.
Lemma sgr_palette t i ps s : is_extended t = true -> 0 <= i <= 255 ->
  apply_sgr (dec t :: str "5" :: dec i :: ps) s = apply_sgr ps (set_color t (Palette i) s).
Proof.
  intros E R. assert (T : t = 38 \/ t = 48 \/ t = 58) by (unfold is_extended in E; bprop; lia).
  cbn [apply_sgr]. rewrite not_simple by lia. rewrite (parse_dec t) by (unfold U32_MAX; lia). rewrite E, beq_refl.
  by rewrite (parse_dec i) by (unfold U32_MAX; lia).
Qed.
Lemma sgr_rgb t r g b ps s : is_extended t = true -> 0 <= r <= 255 -> 0 <= g <= 255 -> 0 <= b <= 255 ->
  apply_sgr (dec t :: str "2" :: dec r :: dec g :: dec b :: ps) s = apply_sgr ps (set_color t (RgbColor r g b) s).
Proof.
  intros E R G B. assert (T : t = 38 \/ t = 48 \/ t = 58) by (unfold is_extended in E; bprop; lia).
  cbn [apply_sgr]. rewrite not_simple by lia. rewrite (parse_dec t) by (unfold U32_MAX; lia). rewrite E.
  change (beq (str "2") (str "5")) with false. cbn match.
  by rewrite (parse_dec r), (parse_dec g), (parse_dec b) by (unfold U32_MAX; lia).
Qed.

(** The parameters one by one: a color takes up to five. *)
Definition color_params (c : StyleColor) (base bright extended : Z) : list bytes :=
  match c with
  | NoColor => []
  | Palette i => if i <? 8 then [dec (base + i)] else if i <? 16 then [dec (bright + i - 8)] else [dec extended; str "5"; dec i]
  | RgbColor r g b => [dec extended; str "2"; dec r; dec g; dec b]
  end.
Definition underline_color_params (c : StyleColor) : list bytes :=
  match c with
  | NoColor => [] | Palette i => [str "58"; str "5"; dec i] | RgbColor r g b => [str "58"; str "2"; dec r; dec g; dec b]
  end.
Definition flags_of (s : Style) : list bytes :=
  [str "0"] ++ flag (bold s) "1" ++ flag (faint s) "2" ++ flag (italic s) "3" ++ flag (blink s) "5"
  ++ flag (inverse s) "7" ++ flag (invisible s) "8" ++ flag (strikethrough s) "9" ++ flag (overline s) "53"
  ++ option_list (underline_code (underline s)).
Definition pen_params (s : Style) : list bytes :=
  flags_of s ++ color_params (fg_color s) 30 90 38 ++ color_params (bg_color s) 40 100 48 ++ underline_color_params (underline_color s).
Lemma sgr_color c base bright t ps s : byte_color c = true -> (base, bright, t) = (30, 90, 38) \/ (base, bright, t) = (40, 100, 48) ->
  apply_sgr (color_params c base bright t ++ ps) s = apply_sgr ps (match c with NoColor => s | _ => set_color t c s end).
Proof.
  intros B T. assert (E : is_extended t = true) by (by destruct T as [[= -> -> ->]|[= -> -> ->]]).
  destruct c as [|i|r g b]; cbn [color_params byte_color] in *; [done| |].
  - unfold in_range in B. bprop. destruct (Z.ltb_spec i 8).
    + cbn [app]. rewrite sgr_indexed by (destruct T as [[= -> -> ->]|[= -> -> ->]]; unfold is_extended; lia).
      destruct T as [[= -> -> ->]|[= -> -> ->]]; unfold indexed, set_color, in_range; cbn [Z.eqb Pos.eqb].
      * replace ((30 <=? 30 + i) && (30 + i <=? 37)) with true by lia. by replace (30 + i - 30) with i by lia.
      * replace ((30 <=? 40 + i) && (40 + i <=? 37)) with false by lia.
        replace ((40 <=? 40 + i) && (40 + i <=? 47)) with true by lia. by replace (40 + i - 40) with i by lia.
    + destruct (Z.ltb_spec i 16); [|cbn [app]; by rewrite sgr_palette by (done || lia)].
      cbn [app]. rewrite sgr_indexed by (destruct T as [[= -> -> ->]|[= -> -> ->]]; unfold is_extended; lia).
      destruct T as [[= -> -> ->]|[= -> -> ->]]; unfold indexed, set_color, in_range; cbn [Z.eqb Pos.eqb].
      * replace ((30 <=? 90 + i - 8) && (90 + i - 8 <=? 37)) with false by lia.
        replace ((40 <=? 90 + i - 8) && (90 + i - 8 <=? 47)) with false by lia.
        replace ((90 <=? 90 + i - 8) && (90 + i - 8 <=? 97)) with true by lia. by replace (90 + i - 8 - 90 + 8) with i by lia.
      * replace ((30 <=? 100 + i - 8) && (100 + i - 8 <=? 37)) with false by lia.
        replace ((40 <=? 100 + i - 8) && (100 + i - 8 <=? 47)) with false by lia.
        replace ((90 <=? 100 + i - 8) && (100 + i - 8 <=? 97)) with false by lia.
        replace ((100 <=? 100 + i - 8) && (100 + i - 8 <=? 107)) with true by lia. by replace (100 + i - 8 - 100 + 8) with i by lia.
  - unfold in_range in B. bprop. cbn [app]. by rewrite sgr_rgb by (done || lia).
Qed.
Lemma sgr_flags s ps s0 : known_underline (underline s) = true ->
  apply_sgr (flags_of s ++ ps) s0
  = apply_sgr ps (mkStyle (bold s) (faint s) (italic s) (blink s) (inverse s) (invisible s) (strikethrough s) (overline s)
                    (underline s) NoColor NoColor NoColor).
Proof.
  destruct s as [[] [] [] [] [] [] [] [] u fg bg uc]; cbn [underline]; destruct u; try done; intros _; reflexivity.
Qed.
Lemma sgr_underline c s : byte_color c = true ->
  apply_sgr (underline_color_params c) s = match c with NoColor => s | _ => s <| underline_color := c |> end.
Proof.
  destruct c as [|i|r g b]; cbn [underline_color_params byte_color]; [done| |]; unfold in_range; intros B; bprop;
    change (str "58") with (dec 58).
  - by rewrite sgr_palette by (done || lia).
  - by rewrite sgr_rgb by (done || lia).
Qed.

(** The text of the pen is its parameters, joined. *)
Lemma join_app x (a b : list bytes) : a <> [] -> b <> [] -> join [x] (a ++ b) = join [x] a ++ x :: join [x] b.
Proof.
  intros A B. induction a as [|p a IH]; [done|]. destruct a as [|q a].
  - destruct b; [done|reflexivity].
  - change (join [x] ((p :: q :: a) ++ b)) with (p ++ x :: join [x] ((q :: a) ++ b)). rewrite IH by done.
    change (join [x] (p :: q :: a)) with (p ++ x :: join [x] (q :: a)). by rewrite <- app_assoc.
Qed.
(** Lists of parameters that read the same once joined, whatever they follow. *)
Definition same_joined (a b : list bytes) : Prop := (a = [] <-> b = []) /\ join [59] a = join [59] b.
Lemma same_joined_app a b a' b' : same_joined a a' -> same_joined b b' -> same_joined (a ++ b) (a' ++ b').
Proof.
  intros [Na A] [Nb B]. split.
  - split; intros [E1 E2]%app_nil; apply app_nil; tauto.
  - destruct (decide (a = [])) as [->|X]; [rewrite (proj1 Na eq_refl); done|].
    destruct (decide (b = [])) as [->|Y]; [rewrite (proj1 Nb eq_refl), !app_nil_r; done|].
    rewrite !join_app by tauto. by rewrite A, B.
Qed.
Lemma same_joined_refl a : same_joined a a.
Proof. done. Qed.
Lemma same_color_params c base bright t : same_joined (color_code c base bright t) (color_params c base bright t).
Proof.
  destruct c as [|i|r g b]; cbn [color_code color_params]; [done| |].
  - by destruct (i <? 8), (i <? 16).
  - done.
Qed.
Lemma same_underline_params c : same_joined (underline_color_code c) (underline_color_params c).
Proof. destruct c as [|i|r g b]; split; done. Qed.
Lemma pen_joined s : join [59] (pen_codes s) = join [59] (pen_params s).
Proof.
  assert (S : same_joined (pen_codes s) (pen_params s)); [|apply S]. unfold pen_params, pen_codes, flags_of.
  rewrite <- !app_assoc. repeat (apply same_joined_app; [apply same_joined_refl|]).
  repeat apply same_joined_app; auto using same_color_params, same_underline_params, same_joined_refl.
Qed.
Lemma dec_no_semicolon n : free 59 (dec n) = true.
Proof. apply dec_free; done. Qed.
Lemma params_free s : forallb (free 59) (pen_params s) = true.
Proof.
  unfold pen_params. rewrite !forallb_app.
  apply andb_true_intro; split; [|apply andb_true_intro; split; [|apply andb_true_intro; split]].
  - destruct s as [[] [] [] [] [] [] [] [] u fg bg uc]; by destruct u.
  - destruct (fg_color s) as [|i|r g b]; cbn [color_params]; [done| |cbn [forallb]; by rewrite !dec_no_semicolon].
    destruct (i <? 8), (i <? 16); cbn [forallb]; by rewrite !dec_no_semicolon.
  - destruct (bg_color s) as [|i|r g b]; cbn [color_params]; [done| |cbn [forallb]; by rewrite !dec_no_semicolon].
    destruct (i <? 8), (i <? 16); cbn [forallb]; by rewrite !dec_no_semicolon.
  - destruct (underline_color s) as [|i|r g b]; cbn [underline_color_params forallb]; [done| |]; by rewrite !dec_no_semicolon.
Qed.
Lemma flags_spec s s0 : known_underline (underline s) = true -> apply_sgr (flags_of s) s0
  = mkStyle (bold s) (faint s) (italic s) (blink s) (inverse s) (invisible s) (strikethrough s) (overline s) (underline s)
      NoColor NoColor NoColor.
Proof. intros K. rewrite <- (app_nil_r (flags_of s)), sgr_flags by done. done. Qed.

(** C37: Whatever the pen was, a terminal that reads the sequence has the pen that was
    serialized. *)
Theorem pen_read_back (s s0 : Style) :
  byte_color (fg_color s) = true -> byte_color (bg_color s) = true -> byte_color (underline_color s) = true ->
  known_underline (underline s) = true -> pen_read (current_pen_sgr s) s0 = Some s.
Proof.
  intros F B U K. unfold pen_read, current_pen_sgr. rewrite pen_joined.
  rewrite (proj2 (strip_prefix_Some [27; 91] _ _) eq_refl). cbn [mbind option_bind].
  unfold strip_suffix. rewrite rev_app_distr. change (rev [109]) with [109].
  rewrite (proj2 (strip_prefix_Some [109] _ _) eq_refl). cbn [mbind option_bind]. rewrite rev_involutive.
  rewrite split_join by (done || apply params_free). unfold pen_params. rewrite sgr_flags by done.
  rewrite (sgr_color (fg_color s)) by (auto). rewrite (sgr_color (bg_color s)) by auto. rewrite sgr_underline by done.
  destruct s as [b1 b2 b3 b4 b5 b6 b7 b8 u fg bg uc]. cbn [fg_color bg_color underline_color underline bold faint italic blink inverse invisible strikethrough overline].
  by destruct fg, bg, uc.
Qed.

(** ** Examples *)

Definition demo_style : Style :=
  plain_style <| bold := true |> <| underline := Curly |> <| fg_color := Palette 12 |> <| bg_color := RgbColor 1 2 3 |>
              <| underline_color := Palette 200 |>.
Example demo_pen : current_pen_sgr demo_style = [27; 91] ++ str "0;1;4:3;94;48;2;1;2;3;58;5;200m".
Proof. vm_compute. reflexivity. Qed.
Lemma pen_read_back_witness : pen_read (current_pen_sgr demo_style) plain_style = Some demo_style.
Proof. apply pen_read_back; vm_compute; reflexivity. Defined.
(** A blue stretch with one red cell in it. *)
Definition stripe (x : Z) : option BgCell :=
  Some (mkBgCell false (if x =? 3 then Some (BgPalette 1) else if in_range 1 5 x then Some (BgPalette 4) else None)).
Example stripe_runs : concat (fixup 2 <$> rev (default [] (History.scan_row stripe (upto 8) [])))
  = [27; 91] ++ str "3;2H" ++ [27; 91] ++ str "48;5;4m" ++ [27; 91] ++ str "2X"
    ++ [27; 91] ++ str "3;4H" ++ [27; 91] ++ str "48;5;1m" ++ [27; 91] ++ str "1X"
    ++ [27; 91] ++ str "3;5H" ++ [27; 91] ++ str "48;5;4m" ++ [27; 91] ++ str "2X".
Proof. vm_compute. reflexivity. Qed.
Example trailing_lines_dropped : plain_lines (str "a" ++ [10; 10] ++ str "b " ++ [10; 10]) = [str "a"; []; str "b "].
Proof. vm_compute. reflexivity. Qed.
