(* ===== verification/TermActor.v ===== *)
(** The terminal actor: [crates/pty-terminal/src/actor.rs], with the color replies of
    [queries.rs], and the mode prefix and the replay of [serialize.rs].

    The emulator is an interface ([Vt]): what it does with bytes, and what its callbacks
    report.  The file proves that how the child's output is cut into reads does not
    matter, that clients are sent the output less the queries, that the paste events
    follow the mode, and that the mode prefix restores the modes. *)
From S2P Require Import Prelude Names Text Argv Client Summary Paste History Graphics Serialize Scanner.

(** ** The emulator *)

(** What the callbacks of one call reported: bytes for the child, bells, titles. *)
Record Reports : Type := mkReports { r_replies : bytes; r_bells : nat; r_titles : list bytes }.
Definition no_reports : Reports := mkReports [] O [].
Definition both (a b : Reports) : Reports :=
  mkReports (r_replies a ++ r_replies b) (r_bells a + r_bells b) (r_titles a ++ r_titles b).
Class Vt (V : Type) `{!Gfx V, !Canvas V} : Type := {
  vt_new : Z -> Z -> Z -> V;
  vt_write : bytes -> V -> V * Reports;
  vt_resize : Z -> Z -> Z -> Z -> V -> bool * V * Reports;
  vt_reset : V -> V * Reports;
  set_storage_limit : Z -> V -> bool * V;
  set_apc_max : option Z -> V -> bool * V;
  set_file_allowed : bool -> V -> V;
  set_temp_file_allowed : bool -> V -> V;
  set_shared_mem_allowed : bool -> V -> V;
  png_installs : bool;
  set_default_fg : Color -> V -> V;
  set_default_bg : Color -> V -> V;
  set_palette_of : list Color -> V -> V;
  title_of : V -> option bytes;
  pending_wrap : V -> option bool;
  cursor_visible : V -> option bool;
  alternate : V -> bool;
  keyboard_flags : V -> option Z
}.

(** ** Events and modes *)

Inductive NotificationSource : Type := Osc9 | Osc99 | Osc777.
Record Notification : Type := mkNotification { n_title : option bytes; n_body : option bytes; source_ : NotificationSource }.
Inductive TerminalEvent : Type :=
  | Bell
  | TitleChange (title : bytes)
  | ENotification (n : Notification)
  | FocusRequest
  | CursorVisible
  | EnhancedPasteMode (on : bool)
  | EnhancedPasteRead (r : ReadRequest).

Record Modes : Type := mkModes {
  sgr_mouse : bool; mouse_1000 : bool; mouse_1002 : bool; mouse_1003 : bool; mouse_9 : bool; app_cursor : bool;
  alt_screen : bool; cursor_hidden : bool; bracketed_paste : bool; focus_events : bool; enhanced_paste : bool;
  kitty_stack : list Z
}.
#[export] Instance modes_eta : Settable Modes := fun m =>
  mkModes (sgr_mouse m) (mouse_1000 m) (mouse_1002 m) (mouse_1003 m) (mouse_9 m) (app_cursor m) (alt_screen m)
    (cursor_hidden m) (bracketed_paste m) (focus_events m) (enhanced_paste m) (kitty_stack m).
Definition no_modes : Modes := mkModes false false false false false false false false false false false [].
Definition mouse_tracking (m : Modes) : bool := mouse_1000 m || mouse_1002 m || mouse_1003 m.
Definition mouse_reporting (m : Modes) : bool := mouse_9 m || mouse_tracking m.

(** The modes after it, and the events it pushed. *)
Definition apply_dec (mode : Z) (set : bool) (m : Modes) : Modes * list TerminalEvent :=
  if mode =? 1006 then (m <| sgr_mouse := set |>, [])
  else if mode =? 1000 then (m <| mouse_1000 := set |>, [])
  else if mode =? 1002 then (m <| mouse_1002 := set |>, [])
  else if mode =? 1003 then (m <| mouse_1003 := set |>, [])
  else if mode =? 9 then (m <| mouse_9 := set |>, [])
  else if mode =? 1 then (m <| app_cursor := set |>, [])
  else if (mode =? 1049) || (mode =? 1047) || (mode =? 47) then (m <| alt_screen := set |>, [])
  else if mode =? 25 then
    if set then (m <| cursor_hidden := false |>, if cursor_hidden m then [CursorVisible] else [])
    else (m <| cursor_hidden := true |>, [])
  else if mode =? 1004 then (m <| focus_events := set |>, if set then [FocusRequest] else [])
  else if mode =? 2004 then (m <| bracketed_paste := set |>, [])
  else if mode =? 5522 then
    (m <| enhanced_paste := set |>, if Bool.eqb (enhanced_paste m) set then [] else [EnhancedPasteMode set])
  else (m, []).
Fixpoint apply_all (ps : list Z) (set : bool) (m : Modes) : Modes * list TerminalEvent :=
  match ps with
  | [] => (m, [])
  | p :: ps => let '(m, e) := apply_dec p set m in let '(m, es) := apply_all ps set m in (m, e ++ es)
  end.

(** ** The actor *)

Definition DEFAULT_SCROLLBACK : Z := 10000.
Definition MAX_SCROLLBACK_BYTES : Z := 67108864.
Definition SCROLLBACK_BYTES_PER_COL : Z := 16.
Definition SCROLLBACK_ROW_OVERHEAD : Z := 256.
Definition scrollback_row_bytes (cols : Z) : Z := SCROLLBACK_ROW_OVERHEAD + SCROLLBACK_BYTES_PER_COL * Z.max cols 1.
Definition USIZE_MAX : Z := 18446744073709551615.
Definition scrollback_budget (lines cols : Z) : Z :=
  Z.min (Z.min (lines * scrollback_row_bytes cols) USIZE_MAX) MAX_SCROLLBACK_BYTES.
Inductive Range : Type := Viewport | Full.
Definition esc (s : string) : bytes := 27 :: str s.
Definition RESET_INPUT_MODES : bytes :=
  [24; 27; 92] ++ concat (esc <$> ["[<99u"; "[?1l"; "[?66l"; ">"; "[?9l"; "[?1000l"; "[?1002l"; "[?1003l"; "[?1004l";
    "[?1005l"; "[?1006l"; "[?1015l"; "[?1016l"; "[?2004l"; "[?2026l"; "[?2031l"; "[?2048l"; "[?5522l"; "[?1007h";
    "[>4;0m"; "[?25h"]).

Section Actor.
Context {V : Type} `{!Gfx V, !Canvas V, !Vt V, !History.Screen V}.

Record TerminalActor : Type := mkActor {
  term : V; history : @History.History V _; pty_replies : bytes; bells : nat; titles : list bytes;
  scanner : OutputScanner; clipboard_client_available : bool; enhanced_paste_available : bool; modes : Modes;
  modify_other_keys : Z; inactive_kitty_stack : list Z; events : list TerminalEvent; last_title : option bytes;
  scrollback_request : Z; scrollback_bytes : Z; cell_ : CellSize; graphics : option GraphicsOptions;
  normal_replay : option bytes; cursor_shape_replay : option bytes; cursor_color_replay : option bytes
}.
#[export] Instance actor_eta : Settable TerminalActor := fun a =>
  mkActor (term a) (history a) (pty_replies a) (bells a) (titles a) (scanner a) (clipboard_client_available a)
    (enhanced_paste_available a) (modes a) (modify_other_keys a) (inactive_kitty_stack a) (events a) (last_title a)
    (scrollback_request a) (scrollback_bytes a) (cell_ a) (graphics a) (normal_replay a) (cursor_shape_replay a)
    (cursor_color_replay a).

Definition DEFAULT_FG : Color := (192, 192, 192).
Definition DEFAULT_BG : Color := (0, 0, 0).
Definition install (v : V) : V := set_default_bg DEFAULT_BG (set_default_fg DEFAULT_FG v).
Definition new (rows cols lines : Z) : TerminalActor :=
  let budget := scrollback_budget lines cols in
  mkActor (install (vt_new (Z.max cols 1) (Z.max rows 1) budget)) new_history [] O [] Scanner.new false false no_modes 0
    [] [] None lines budget undeclared None None None None.
Definition with_defaults : TerminalActor := new 24 80 DEFAULT_SCROLLBACK.

Definition rows_of (a : TerminalActor) : Z := default 0 (g_rows (term a)).
Definition cols_of (a : TerminalActor) : Z := default 0 (g_cols (term a)).
(** The callbacks put what they report into the state they share with the actor. *)
Definition absorb (v : V) (r : Reports) (a : TerminalActor) : TerminalActor :=
  a <| term := v |> <| pty_replies ::= fun x => x ++ r_replies r |> <| bells ::= fun n => (n + r_bells r)%nat |>
    <| titles ::= fun x => x ++ r_titles r |>.
Definition flush_feed (feed : bytes) (a : TerminalActor) : TerminalActor :=
  match feed with [] => a | _ => let '(v, r) := vt_write feed (term a) in absorb v r a end.
Definition reply (b : bytes) (a : TerminalActor) : TerminalActor := a <| pty_replies ::= fun x => x ++ b |>.
Definition push (es : list TerminalEvent) (a : TerminalActor) : TerminalActor := a <| events ::= fun x => x ++ es |>.
Definition forget_history (a : TerminalActor) : TerminalActor := a <| history ::= invalidate |>.

(** ** Queries *)

Definition color_query_reply (q : Z * option Z) : bytes :=
  match q with
  | (10, _) => esc "]10;rgb:c0c0/c0c0/c0c0" ++ [27; 92]
  | (11, _) => esc "]11;rgb:0000/0000/0000" ++ [27; 92]
  | (4, Some i) => esc "]4;" ++ dec i ++ str ";rgb:0000/0000/0000" ++ [27; 92]
  | _ => []
  end.
Definition size_reply (query : Z) (a : TerminalActor) : bytes :=
  let c := or_fallback (cell_ a) in
  if query =? 14 then esc "[4;" ++ dec ((rows_of a * height c) mod 4294967296) ++ [59] ++ dec ((cols_of a * width c) mod 4294967296) ++ [116]
  else if query =? 16 then esc "[6;" ++ dec (height c) ++ [59] ++ dec (width c) ++ [116]
  else if query =? 18 then esc "[8;" ++ dec (rows_of a) ++ [59] ++ dec (cols_of a) ++ [116]
  else esc "[9;" ++ dec (rows_of a) ++ [59] ++ dec (cols_of a) ++ [116].
Definition paste_mode_state (a : TerminalActor) : Z :=
  if enhanced_paste_available a then if enhanced_paste (modes a) then 1 else 2 else 0.

(** ** Writing *)

(** The child's output on its way: what is not yet fed, and what clients are sent. *)
Record Writing : Type := mkWriting { actor : TerminalActor; feed_ : bytes; broadcast : bytes }.
Definition has_ris (b : bytes) : bool := existsb (fun p => (fst p =? 27) && (snd p =? 99)) (zip b (tail b)).
Definition forget_cursor (a : TerminalActor) : TerminalActor := a <| cursor_shape_replay := None |> <| cursor_color_replay := None |>.
Definition on_raw (b : bytes) (w : Writing) : Writing :=
  mkWriting (if has_ris b then forget_cursor (forget_history (actor w)) else actor w) (feed_ w ++ b) (broadcast w ++ b).
Definition on_ris (w : Writing) : Writing :=
  let a := flush_feed (feed_ w) (forget_history (actor w)) in
  let a := forget_cursor (a <| inactive_kitty_stack := [] |>) in
  let a := push (if cursor_hidden (modes a) then [CursorVisible] else []) a in
  let a := push (if enhanced_paste (modes a) then [EnhancedPasteMode false] else []) a in
  let a := a <| modes := no_modes |> <| modify_other_keys := 0 |> <| normal_replay := None |> in
  mkWriting a [27; 99] (broadcast w ++ [27; 99]).

(** The answer goes out after everything before the query has been parsed. *)
Definition answer (f : TerminalActor -> bytes) (a : TerminalActor) (w : Writing) : Writing :=
  let a := flush_feed (feed_ w) a in mkWriting (reply (f a) a) [] (broadcast w).
Definition note_csi (c : Csi) (a : TerminalActor) : TerminalActor :=
  let a := if (final_byte c =? 74) && no_prefix c && (param c 0 0 =? 3) then forget_history a else a in
  if has_prefix c 62 && (final_byte c =? 109) && no_intermediates c && bool_decide (params c !! 0%nat = Some 4)
  then a <| modify_other_keys := Z.min (param c 1 0) 2 |> else a.
Definition is_keys_query (c : Csi) : bool :=
  has_prefix c 63 && (final_byte c =? 109) && no_intermediates c && beq (params c) [4].
Definition is_cursor_shape (c : Csi) : bool :=
  (final_byte c =? 113) && no_prefix c && beq (intermediates c) [32] && (param c 0 0 <=? 6).
Definition swap_stacks (a : TerminalActor) : TerminalActor :=
  a <| modes := (modes a) <| kitty_stack := inactive_kitty_stack a |> |> <| inactive_kitty_stack := kitty_stack (modes a) |>.
Definition on_dec_modes (ps : list Z) (set : bool) (a : TerminalActor) (feed : bytes) : TerminalActor * bytes :=
  let was_alt := alt_screen (modes a) in
  let '(m, es) := apply_all ps set (modes a) in
  let a := push es (a <| modes := m |>) in
  match was_alt, alt_screen m with
  | false, true =>
      let a := flush_feed feed a in
      (swap_stacks (a <| normal_replay := Some (vt (term a) true (cell_ a)) |>), [])
  | true, false => (swap_stacks (a <| normal_replay := None |>), feed)
  | _, _ => (a, feed)
  end.
Definition kitty_pop_count (c : Csi) : nat := Z.to_nat (Z.max (match params c with p :: _ => p | [] => 1 end) 1).
Definition on_modes (c : Csi) (a : TerminalActor) (feed : bytes) : TerminalActor * bytes :=
  match kitty_push c with
  | Some flags => (a <| modes := (modes a) <| kitty_stack ::= fun s => s ++ [flags] |> |>, feed)
  | None =>
      if is_kitty_pop c then
        (a <| modes := (modes a) <| kitty_stack ::= fun s => take (length s - kitty_pop_count c) s |> |>, feed)
      else match dec_modes c with
           | Some (ps, set) => on_dec_modes ps set a feed
           | None => (a, feed)
           end
  end.
Definition on_csi (c : Csi) (w : Writing) : Writing :=
  let a := note_csi c (actor w) in
  if is_keys_query c then answer (fun a => esc "[>4;" ++ dec (modify_other_keys a) ++ [109]) a w
  else if is_mode_query c 5522 then answer (fun a => esc "[?5522;" ++ dec (paste_mode_state a) ++ str "$y") a w
  else match size_query c with
       | Some q => answer (size_reply q) a w
       | None =>
           let a := if is_cursor_shape c then a <| cursor_shape_replay := Some (csi_raw c) |> else a in
           let '(a, feed) := on_modes c a (feed_ w) in
           mkWriting a (feed ++ csi_raw c) (broadcast w ++ if is_stripped_query c then [] else csi_raw c)
       end.

Definition osc99_fields (data : bytes) : list (bytes * bytes) := omap (split_once 61) (split_on (Z.eqb 59) data).
Definition get_field (fields : list (bytes * bytes)) (k : string) : option bytes :=
  snd <$> List.find (fun f => beq (fst f) (str k)) (rev fields).
Definition or_else {A} (a b : option A) : option A := match a with Some _ => a | None => b end.
Definition notification (o : Osc) : option Notification :=
  let '(i, data) := split o in
  let data := from_utf8_lossy data in
  match i with
  | Some 9 => Some (mkNotification None (Some data) Osc9)
  | Some 99 =>
      let f := osc99_fields data in
      Some (mkNotification (or_else (get_field f "title") (get_field f "t")) (or_else (get_field f "body") (get_field f "b")) Osc99)
  | Some 777 =>
      match split_on (Z.eqb 59) data with
      | p :: title :: rest => if beq p (str "notify") then Some (mkNotification (Some title) (Some (join [59] rest)) Osc777) else None
      | _ => None
      end
  | _ => None
  end.
Definition tap_notification (o : Osc) : list TerminalEvent :=
  match notification o with Some n => [ENotification n] | None => [] end.
Definition note_cursor_color (o : Osc) (a : TerminalActor) : TerminalActor :=
  let '(i, data) := split o in
  if bool_decide (i = Some 112) || (bool_decide (i = Some 12) && negb (beq data [63]))
  then a <| cursor_color_replay := Some (osc_raw o) |> else a.
Definition declined_selection (o : Osc) (a : TerminalActor) : option bytes :=
  match clipboard_read_selection o with Some s => if clipboard_client_available a then None else Some s | None => None end.
Definition paste_read (o : Osc) : list TerminalEvent := match parse (payload o) with Some r => [EnhancedPasteRead r] | None => [] end.
Definition on_osc (o : Osc) (w : Writing) : Writing :=
  let a := note_cursor_color o (actor w) in
  match declined_selection o a with
  | Some selection => answer (fun _ => esc "]52;" ++ selection ++ [59; 27; 92]) a w
  | None =>
      match color_query o with
      | Some qs => answer (fun _ => concat (color_query_reply <$> qs)) a w
      | None => mkWriting (push (paste_read o ++ tap_notification o) a) (feed_ w ++ osc_raw o) (broadcast w ++ osc_raw o)
      end
  end.
Definition on_token (w : Writing) (t : Token) : Writing :=
  match t with
  | Raw b => on_raw b w
  | Ris => on_ris w
  | TCsi c => on_csi c w
  | TOsc o => on_osc o w
  end.

(** Titles are reported when they change. *)
Fixpoint title_changes (last : option bytes) (ts : list bytes) : list bytes * option bytes :=
  match ts with
  | [] => ([], last)
  | t :: ts =>
      if obeq last (Some t) then title_changes last ts
      else let '(cs, last) := title_changes (Some t) ts in (t :: cs, last)
  end.
Definition collect_callback_events (a : TerminalActor) : TerminalActor :=
  let '(changes, last) := title_changes (last_title a) (titles a) in
  push (replicate (bells a) Bell ++ (TitleChange <$> changes)) (a <| bells := O |> <| titles := [] |> <| last_title := last |>).
Definition write (data : bytes) (a : TerminalActor) : bytes * TerminalActor :=
  let '(s, toks) := Scanner.feed (scanner a) data in
  let w := fold_left on_token toks (mkWriting (a <| scanner := s |>) [] []) in
  (broadcast w, collect_callback_events (flush_feed (feed_ w) (actor w))).

(** ** Everything else *)

Definition apply_cell (a : TerminalActor) : bool * TerminalActor :=
  let c := or_fallback (cell_ a) in
  let '(ok, v, r) := vt_resize (Z.max (cols_of a) 1) (Z.max (rows_of a) 1) (width c) (height c) (term a) in
  (ok, absorb v r a).
Definition rollback_graphics (previous : option GraphicsOptions) (a : TerminalActor) : TerminalActor :=
  let limit := match previous with Some o => storage_bytes o | None => 0 end in
  a <| term := snd (set_storage_limit limit (term a)) |> <| graphics := previous |>.
Definition enable_graphics (opts : GraphicsOptions) (a : TerminalActor) : bool * TerminalActor :=
  let opts := opts <| storage_bytes ::= fun n => Z.min n MAX_STORAGE_BYTES |> in
  let previous := graphics a in
  let a := if is_declared (cell opts) then a <| cell_ := cell opts |> else a in
  let '(ok, a) := apply_cell a in
  if negb ok then (false, rollback_graphics previous a)
  else
    let '(ok, v) := set_apc_max (apc_max_bytes opts) (term a) in
    let a := a <| term := v |> in
    if negb ok then (false, rollback_graphics previous a)
    else
      let '(ok, v) := set_storage_limit (storage_bytes opts) (term a) in
      let a := a <| term := v |> in
      if negb ok then (false, rollback_graphics previous a)
      else
        let a := a <| term ::= fun v => set_shared_mem_allowed false (set_temp_file_allowed false (set_file_allowed false v)) |> in
        if negb (png_installs (V := V)) then (false, rollback_graphics previous a)
        else (true, a <| graphics := Some (opts <| cell := cell_ a |>) |>).
Definition set_cell_size (c : CellSize) (a : TerminalActor) : TerminalActor :=
  if bool_decide (width (cell_ a) = width c) && bool_decide (height (cell_ a) = height c) then a
  else
    let a := snd (apply_cell (a <| cell_ := c |>)) in
    a <| graphics ::= fun g => (fun o => o <| cell := c |>) <$> g |>.
Definition clear_graphics (a : TerminalActor) : TerminalActor :=
  match graphics a with
  | None => a
  | Some opts => a <| term ::= fun v => snd (set_storage_limit (storage_bytes opts) (snd (set_storage_limit 0 v))) |>
  end.
Definition set_graphics_storage_limit (n : Z) (a : TerminalActor) : TerminalActor :=
  if n =? 0 then a <| term ::= fun v => snd (set_storage_limit 0 v) |> <| graphics := None |>
  else
    let opts := match graphics a with Some o => o | None => DEFAULT <| cell := cell_ a |> end in
    snd (enable_graphics (opts <| storage_bytes := n |>) a).
Definition graphics_generation (a : TerminalActor) : Z := match graphics a with None => 0 | Some _ => generation_of (term a) end.
Definition graphics_state (scroll_offset : Z) (a : TerminalActor) : GraphicsState :=
  match graphics a with None => no_graphics | Some _ => read (term a) (cell_ a) scroll_offset end.
Definition actor_image_bytes (i : Z) (a : TerminalActor) : option ImageBytes :=
  match graphics a with None => None | Some _ => image_bytes (term a) i end.
Definition resize (cols rows : Z) (a : TerminalActor) : TerminalActor :=
  let a := if negb (cols_of a =? Z.max cols 1) || negb (rows_of a =? Z.max rows 1) then forget_history a else a in
  let c := or_fallback (cell_ a) in
  let '(_, v, r) := vt_resize (Z.max cols 1) (Z.max rows 1) (width c) (height c) (term a) in absorb v r a.
Definition take_pty_replies (a : TerminalActor) : bytes * TerminalActor := (pty_replies a, a <| pty_replies := [] |>).
Definition take_events (a : TerminalActor) : list TerminalEvent * TerminalActor := (events a, a <| events := [] |>).
Definition reset_input_modes (a : TerminalActor) : bytes * TerminalActor :=
  let a := a <| scanner := Scanner.new |> in
  let '(v, r) := vt_write [24; 27; 92] (term a) in
  let a := absorb v r a in
  let '(leaving, a) := if alt_screen (modes a) then write (esc "[<99u" ++ esc "[?1049l") a else ([], a) in
  let '(out, a) := write RESET_INPUT_MODES a in
  let a := a <| modes := (modes a) <| kitty_stack := [] |> |> <| inactive_kitty_stack := [] |> in
  (leaving ++ out, snd (take_pty_replies a)).
Definition end_stream (a : TerminalActor) : TerminalActor :=
  let a := a <| scanner ::= Scanner.reset |> in
  if enhanced_paste (modes a) then push [EnhancedPasteMode false] (a <| modes := (modes a) <| enhanced_paste := false |> |>) else a.
Definition reset (a : TerminalActor) : TerminalActor :=
  let a := forget_history a in
  let '(v, r) := vt_reset (term a) in
  let a := (absorb v r a) <| scanner ::= Scanner.reset |> in
  let a := push (if enhanced_paste (modes a) then [EnhancedPasteMode false] else []) a in
  let a := forget_cursor (a <| modes := no_modes |> <| modify_other_keys := 0 |> <| inactive_kitty_stack := [] |>) in
  let a := a <| titles := [] |> <| bells := O |> in
  match graphics a with Some opts => snd (enable_graphics opts a) | None => a end.
Definition actor_history (now : Z) (generation : bytes) (r : HistoryRequest) (a : TerminalActor) : HistoryResponse * TerminalActor :=
  let '(response, h) := page now (term a) (alt_screen (modes a)) generation r (history a) in (response, a <| history := h |>).
Definition set_clipboard_client_available (b : bool) (a : TerminalActor) : TerminalActor := a <| clipboard_client_available := b |>.
Definition set_enhanced_paste_available (b : bool) (a : TerminalActor) : TerminalActor := a <| enhanced_paste_available := b |>.
Definition cursor (a : TerminalActor) : Z * Z * bool :=
  let x := default 0 (cursor_x (term a)) in
  (if default false (pending_wrap (term a)) then Z.min (x + 1) U16_MAX else x,
   default 0 (cursor_y (term a)), default true (cursor_visible (term a))).
Definition title (a : TerminalActor) : bytes := default [] (title_of (term a)).
Definition scrollback (a : TerminalActor) : Z := Z.min (scrollback_request a) (scrollback_bytes a / scrollback_row_bytes (cols_of a)).
Definition scrollback_capacity (a : TerminalActor) : Z := rows_of a + scrollback a.
Definition buffer_length (a : TerminalActor) : Z := default (rows_of a) (total_rows (term a)).
Definition base_y (a : TerminalActor) : Z := default 0 (Graphics.scrollback_rows (term a)).
Definition plain (range : Range) (a : TerminalActor) : bytes :=
  match range with Viewport => plain_viewport (term a) | Full => plain_full (term a) end.
Definition kitty_flags (a : TerminalActor) : Z := default 0 (keyboard_flags (term a)).
Definition cursor_replay (a : TerminalActor) : bytes :=
  concat (from_utf8_lossy <$> option_list (cursor_shape_replay a) ++ option_list (cursor_color_replay a)).
Definition set_palette (colors : list Color) (a : TerminalActor) : TerminalActor :=
  match default_color_palette (term a) with
  | None => a
  | Some p => a <| term ::= set_palette_of (take 256 colors ++ drop (length (take 256 colors)) p) |>
  end.

(** ** Replay *)

Definition kitty_pushes (stack : list Z) : bytes := concat ((fun flags => esc "[>" ++ dec flags ++ [117]) <$> stack).
Definition mode_prefix (m : Modes) (include_alt_screen : bool) : bytes :=
  (if include_alt_screen && alt_screen m then esc "[?1049h" else [])
  ++ (if mouse_1000 m then esc "[?1000h" else []) ++ (if mouse_1002 m then esc "[?1002h" else [])
  ++ (if mouse_1003 m then esc "[?1003h" else []) ++ (if sgr_mouse m then esc "[?1006h" else [])
  ++ (if cursor_hidden m then esc "[?25l" else []) ++ kitty_pushes (kitty_stack m).
Definition serialize_for_replay (o : SerializeOpts) (a : TerminalActor) : bytes :=
  let m := modes a in
  let alt := include_alt_screen_prefix o in
  mode_prefix m alt
  ++ (if alt && enhanced_paste m then esc "[?5522h" else [])
  ++ dynamic_color_prefix (term a)
  ++ (match normal_replay a with
      | Some normal =>
          if alt && alt_screen m
          then esc "[?1049l" ++ kitty_pushes (inactive_kitty_stack a) ++ normal ++ esc "[?1049h" ++ esc "[H"
          else normal
      | None => []
      end)
  ++ vt (term a) (Serialize.scrollback o) (cell_ a) ++ cursor_replay a.
End Actor.

(** ** What the emulator promises *)

(** Bytes may be written in pieces; the widths are those asked for. *)
Class VtLaws (V : Type) `{Vt V} : Prop := {
  write_app : forall x y v, vt_write (x ++ y) v
    = (let '(v1, r1) := vt_write x v in let '(v2, r2) := vt_write y v1 in (v2, both r1 r2));
  new_cols : forall c r n, g_cols (set_default_bg DEFAULT_BG (set_default_fg DEFAULT_FG (vt_new c r n))) = Some c
}.

(** Both sides as records, field by field. *)
Ltac fields := cbv [absorb push reply forget_history forget_cursor swap_stacks both set_field eta actor_eta modes_eta
  term history pty_replies bells titles scanner clipboard_client_available enhanced_paste_available modes
  modify_other_keys inactive_kitty_stack events last_title scrollback_request scrollback_bytes cell_ graphics
  normal_replay cursor_shape_replay cursor_color_replay
  sgr_mouse mouse_1000 mouse_1002 mouse_1003 mouse_9 app_cursor alt_screen cursor_hidden bracketed_paste focus_events
  enhanced_paste kitty_stack r_replies r_bells r_titles].

Section Laws.
Context {V : Type} `{!Gfx V, !Canvas V, !Vt V, !VtLaws V, HScr : !History.Screen V}.
Implicit Types (a : TerminalActor) (w : Writing).

(** ** Feeding *)

Lemma absorb_both v1 v2 r1 r2 a : absorb v2 (both r1 r2) a = absorb v2 r2 (absorb v1 r1 a).
Proof. fields. f_equal; [apply app_assoc|lia|apply app_assoc]. Qed.
Lemma flush_app x y a : flush_feed (x ++ y) a = flush_feed y (flush_feed x a).
Proof.
  destruct x as [|x0 x]; [done|]. destruct y as [|y0 y]; [by rewrite app_nil_r|].
  unfold flush_feed at 1. change ((x0 :: x) ++ y0 :: y) with (x0 :: (x ++ y0 :: y)). cbn iota.
  change (x0 :: (x ++ y0 :: y)) with ((x0 :: x) ++ y0 :: y). rewrite write_app.
  unfold flush_feed. destruct (vt_write (x0 :: x) (term a)) as [v1 r1].
  change (term (absorb v1 r1 a)) with v1. destruct (vt_write (y0 :: y) v1) as [v2 r2]. apply absorb_both.
Qed.
(** A change of the actor that parsing does not see. *)
Definition passive (f : TerminalActor -> TerminalActor) : Prop := forall x a, flush_feed x (f a) = f (flush_feed x a).
Lemma passive_compose f g : passive f -> passive g -> passive (fun a => f (g a)).
Proof. intros F G x a. by rewrite F, G. Qed.
Lemma passive_by f : (forall v r a, absorb v r (f a) = f (absorb v r a)) -> (forall a, term (f a) = term a) -> passive f.
Proof. intros A T x a. destruct x as [|b x]; [done|]. unfold flush_feed. rewrite T. destruct (vt_write _ _) as [v r]. apply A. Qed.
Lemma passive_push es : passive (push es).
Proof. apply passive_by; intros; by fields. Qed.
Lemma passive_forget : passive forget_history.
Proof. apply passive_by; intros; by fields. Qed.
Lemma passive_cursor : passive forget_cursor.
Proof. apply passive_by; intros; by fields. Qed.
Lemma passive_note_csi c : passive (note_csi c).
Proof. apply passive_by; intros; unfold note_csi; destruct (_ && _), (_ && _); by fields. Qed.
Lemma passive_color o : passive (note_cursor_color o).
Proof. apply passive_by; intros; unfold note_cursor_color; destruct (split o); destruct (_ || _); by fields. Qed.
Lemma flush_keeps x a : modes (flush_feed x a) = modes a /\ inactive_kitty_stack (flush_feed x a) = inactive_kitty_stack a
  /\ clipboard_client_available (flush_feed x a) = clipboard_client_available a /\ events (flush_feed x a) = events a.
Proof. destruct x as [|b x]; [done|]. unfold flush_feed. destruct (vt_write _ _). by fields. Qed.
Lemma flush_modes x a : modes (flush_feed x a) = modes a.
Proof. apply flush_keeps. Qed.
Lemma flush_events x a : events (flush_feed x a) = events a.
Proof. apply flush_keeps. Qed.

(** ** What is still to be fed, fed *)

Definition norm w : Writing := mkWriting (flush_feed (feed_ w) (actor w)) [] (broadcast w).
Lemma norm_norm w : norm (norm w) = norm w.
Proof. done. Qed.
Lemma on_modes_norm c a x : let '(a1, x1) := on_modes c a x in let '(a2, x2) := on_modes c (flush_feed x a) [] in
  flush_feed x1 a1 = flush_feed x2 a2.
Proof.
  unfold on_modes. destruct (kitty_push c) as [flags|].
  { cbn [flush_feed]. apply (passive_by (fun a => a <| modes := (modes a) <| kitty_stack ::= fun s => s ++ [flags] |> |>)); intros; by fields. }
  destruct (is_kitty_pop c).
  { apply (passive_by (fun a => a <| modes := (modes a) <| kitty_stack ::= fun s => take (length s - kitty_pop_count c) s |> |>)); intros; by fields. }
  destruct (dec_modes c) as [[ps set]|]; [|done]. unfold on_dec_modes. rewrite flush_modes.
  destruct (apply_all ps set (modes a)) as [m es].
  assert (P : passive (fun a => push es (a <| modes := m |>))) by (apply passive_by; intros; by fields).
  destruct (alt_screen (modes a)), (alt_screen m); try apply P.
  - apply (passive_by (fun a => swap_stacks ((push es (a <| modes := m |>)) <| normal_replay := None |>))); intros; by fields.
  - change (flush_feed [] ?z) with z. by rewrite (P x a).
Qed.
Lemma answer_norm f (g : TerminalActor -> TerminalActor) w : passive g ->
  norm (answer f (g (actor w)) w) = norm (answer f (g (actor (norm w))) (norm w)).
Proof. intros P. unfold answer. cbn [norm feed_ actor broadcast]. by rewrite P. Qed.
Lemma on_token_norm w t : norm (on_token w t) = norm (on_token (norm w) t).
Proof.
  destruct t as [b| |c|o]; cbn [on_token].
  - unfold on_raw, norm. cbn [feed_ actor broadcast app]. rewrite flush_app.
    destruct (has_ris b); [|done]. by rewrite (passive_compose _ _ passive_cursor passive_forget).
  - unfold on_ris. cbn [norm feed_ actor broadcast]. by rewrite passive_forget.
  - unfold on_csi. destruct (is_keys_query c); [by apply answer_norm, passive_note_csi|].
    destruct (is_mode_query c 5522); [by apply answer_norm, passive_note_csi|].
    destruct (size_query c); [by apply answer_norm, passive_note_csi|].
    set (g := fun a => if is_cursor_shape c then (note_csi c a) <| cursor_shape_replay := Some (csi_raw c) |> else note_csi c a).
    assert (P : passive g).
    { unfold g. destruct (is_cursor_shape c); [|apply passive_note_csi].
      apply (passive_compose (fun a => a <| cursor_shape_replay := Some (csi_raw c) |>)); [apply passive_by; intros; by fields|apply passive_note_csi]. }
    change (if is_cursor_shape c then (note_csi c (actor w)) <| cursor_shape_replay := Some (csi_raw c) |> else note_csi c (actor w))
      with (g (actor w)).
    change (if is_cursor_shape c then (note_csi c (actor (norm w))) <| cursor_shape_replay := Some (csi_raw c) |> else note_csi c (actor (norm w)))
      with (g (flush_feed (feed_ w) (actor w))).
    rewrite <- P. pose proof (on_modes_norm c (g (actor w)) (feed_ w)) as M. change (feed_ (norm w)) with (@nil Z).
    destruct (on_modes c (g (actor w)) (feed_ w)) as [a1 x1], (on_modes c (flush_feed (feed_ w) (g (actor w))) []) as [a2 x2].
    unfold norm. cbn [feed_ actor broadcast]. by rewrite !flush_app, M.
  - unfold on_osc. assert (D : declined_selection o (note_cursor_color o (actor (norm w))) = declined_selection o (note_cursor_color o (actor w))).
    { unfold declined_selection. destruct (clipboard_read_selection o); [|done]. cbn [norm actor].
      rewrite <- passive_color. by rewrite (proj1 (proj2 (proj2 (flush_keeps _ _)))). }
    cbv zeta. rewrite D. clear D. destruct (declined_selection o (note_cursor_color o (actor w))); [by apply answer_norm, passive_color|].
    destruct (color_query o); [by apply answer_norm, passive_color|].
    unfold norm. cbn [feed_ actor broadcast app]. rewrite flush_app.
    rewrite (passive_compose _ _ (passive_push (paste_read o ++ tap_notification o)) (passive_color o)). done.
Qed.

(** ** Byte by byte *)

(** Raw bytes as bytes: tokens that differ in how their raw bytes are cut are the same. *)
Definition atoms (t : Token) : list (Z + Token) := match t with Raw b => inl <$> b | _ => [inr t] end.
#[global] Instance atoms_observation : Observation atoms.
Proof. split; [done|]. intros. apply fmap_app. Qed.
Definition on_atom w (e : Z + Token) : Writing := match e with inl x => on_raw [x] w | inr t => on_token w t end.
Lemma on_atom_norm w e : norm (on_atom w e) = norm (on_atom (norm w) e).
Proof. destruct e as [x|t]; [apply (on_token_norm w (Raw [x]))|apply on_token_norm]. Qed.
Lemma atoms_cong es : forall w w', norm w = norm w' -> norm (fold_left on_atom es w) = norm (fold_left on_atom es w').
Proof.
  induction es as [|e es IH]; intros w w' E; [done|]. cbn [fold_left]. apply IH.
  by rewrite (on_atom_norm w), (on_atom_norm w'), E.
Qed.
Lemma raw_atoms b : has_ris b = false -> forall w, norm (on_raw b w) = norm (fold_left on_atom (inl <$> b) w).
Proof.
  induction b as [|x b IH]; intros R w.
  - unfold on_raw, norm. cbn [has_ris feed_ actor broadcast fmap list_fmap fold_left]. by rewrite !app_nil_r.
  - assert (R' : has_ris b = false).
    { destruct b as [|y b]; [done|]. unfold has_ris in *. cbn [zip zip_with tail existsb] in R. apply orb_false_iff in R as [_ R]. exact R. }
    cbn [fmap list_fmap fold_left]. rewrite <- IH by done. cbn [on_atom]. unfold on_raw. rewrite R, R'.
    change (has_ris [x]) with false. unfold norm. cbn [feed_ actor broadcast]. by rewrite <- !app_assoc.
Qed.
Definition raw_plain (t : Token) : Prop := match t with Raw b => has_ris b = false | _ => True end.
Lemma tokens_atoms ts : Forall raw_plain ts -> forall w,
  norm (fold_left on_token ts w) = norm (fold_left on_atom (observe atoms ts) w).
Proof.
  induction 1 as [|t ts P F IH]; intros w; [done|]. cbn [fold_left]. unfold observe. cbn [fmap list_fmap concat].
  rewrite fold_left_app. rewrite IH. apply atoms_cong.
  destruct t as [b| |c|o]; [by apply raw_atoms|done..].
Qed.
End Laws.

(** ** Raw bytes never hold a full reset *)

Lemma has_ris_snoc b x : has_ris (b ++ [x]) = has_ris b || (bool_decide (last b = Some 27) && (x =? 99)).
Proof.
  induction b as [|y b IH]; [done|]. destruct b as [|z b].
  - unfold has_ris. cbn [zip zip_with tail existsb app last fst snd orb].
    destruct (Z.eqb_spec y 27) as [-> |N];
      [rewrite bool_decide_eq_true_2 by done|rewrite bool_decide_eq_false_2 by congruence]; cbn [andb orb];
      by rewrite ?orb_false_r.
  - change (has_ris ((y :: z :: b) ++ [x])) with (((y =? 27) && (z =? 99)) || has_ris ((z :: b) ++ [x])).
    rewrite IH. change (has_ris (y :: z :: b)) with (((y =? 27) && (z =? 99)) || has_ris (z :: b)).
    change (last (y :: z :: b)) with (last (z :: b)). apply orb_assoc.
Qed.
Lemma has_ris_app_l b x : has_ris (b ++ x) = false -> has_ris b = false.
Proof.
  induction x as [|y x IH] using rev_ind; [by rewrite app_nil_r|]. rewrite (assoc_L (++)), has_ris_snoc.
  intros [H _]%orb_false_iff. by apply IH.
Qed.
(** What the scanner's loop keeps true of the raw bytes. *)
Record Quiet (l : Loop) : Prop := mkQuiet {
  quiet_out : Forall raw_plain (l_out l);
  quiet_raw : has_ris (l_raw l ++ l_seq l) = false;
  quiet_end : l_state l = Ground -> last (l_raw l) <> Some 27
}.
Lemma quiet_finish l t : Quiet l -> raw_plain t -> Quiet (finish l t).
Proof.
  intros [O R _] T. apply has_ris_app_l in R. constructor; [|done..]. unfold finish. cbn [l_out]. apply Forall_app. split; [|by constructor].
  destruct (l_raw l) as [|x r] eqn:E; cbn [flush_raw]; [done|]. apply Forall_app. split; [done|]. constructor; [exact R|done].
Qed.
Lemma quiet_more l x : Quiet l -> (x = 99 -> last (l_raw l ++ l_seq l) <> Some 27) -> has_ris ((l_raw l ++ l_seq l) ++ [x]) = false.
Proof.
  intros [_ R _] N. rewrite has_ris_snoc, R. cbn [orb]. destruct (Z.eqb_spec x 99) as [E|]; [|apply andb_false_r].
  by rewrite bool_decide_eq_false_2 by (by apply N).
Qed.
Lemma quiet_hold l st x : Quiet l -> st <> Ground -> (x = 99 -> last (l_raw l ++ l_seq l) <> Some 27) -> Quiet (hold l st x).
Proof. intros Q S N. constructor; [apply Q| |done]. unfold hold. cbn [l_raw l_seq]. rewrite (assoc_L (++)). by apply quiet_more. Qed.
Lemma quiet_abandon l x : Quiet l -> x <> 27 -> (x = 99 -> last (l_raw l ++ l_seq l) <> Some 27) -> Quiet (abandon l [x]).
Proof.
  intros Q S N. constructor; [apply Q| |]; unfold abandon; cbn [l_raw l_seq l_state]; rewrite ?app_nil_r, (assoc_L (++)); [by apply quiet_more|].
  intros _. rewrite last_snoc. congruence.
Qed.
Lemma quiet_again l : Quiet l -> Quiet (mkLoop Esc [27] (l_raw l ++ l_seq l) (l_out l)).
Proof. intros Q. constructor; [apply Q| |done]. cbn [l_raw l_seq]. apply quiet_more; [done|]. intros [=]. Qed.
Lemma quiet_esc l b : Quiet l -> l_seq l = [27] -> Quiet (feed_esc l b).
Proof.
  intros Q S. unfold feed_esc. destruct (Z.eqb_spec b 99) as [|N9]; [by apply quiet_finish|].
  destruct (b =? 91); [by apply quiet_hold|]. destruct (b =? 93); [by apply quiet_hold|].
  destruct (Z.eqb_spec b 27) as [-> |N]; [rewrite <- S; rewrite S at 1; by apply quiet_again|]. by apply quiet_abandon.
Qed.
Lemma last_body (f : Z -> bool) x y body raw : forallb f body = true -> f 27 = false -> y <> 27 ->
  last (raw ++ x :: y :: body) <> Some 27.
Proof.
  intros F N Y. rewrite last_app. destruct body as [|z body] using rev_ind; [cbn; congruence|].
  change (x :: y :: body ++ [z]) with ((x :: y :: body) ++ [z]). rewrite last_snoc. rewrite forallb_app in F.
  apply andb_prop in F as [_ F]. cbn in F. rewrite andb_true_r in F. congruence.
Qed.
Lemma body_no_ris (f : Z -> bool) y body : forallb f body = true -> f 27 = false -> y <> 27 -> y <> 99 -> has_ris (27 :: y :: body) = false.
Proof.
  intros F N Y C. change (27 :: y :: body) with ([27; y] ++ body). induction body as [|z body IH] using rev_ind.
  - unfold has_ris. cbn. by destruct (Z.eqb_spec y 99).
  - rewrite forallb_app in F. apply andb_prop in F as [F _]. rewrite (assoc_L (++)), has_ris_snoc, IH by done. cbn [orb].
    apply andb_false_iff. left. apply bool_decide_eq_false_2. by apply (last_body f 27 y body []).
Qed.
Lemma quiet_byte l b : scanner_ok (l_state l) (l_seq l) -> Quiet l -> Quiet (feed_byte l b).
Proof.
  intros K Q. unfold feed_byte. destruct (l_state l) eqn:St; cbn [scanner_ok] in K.
  - destruct (Z.eqb_spec b 27) as [-> |N].
    + constructor; [apply Q| |done]. cbn [l_raw l_seq]. pose proof (quiet_more l 27 Q ltac:(done)) as M. by rewrite K, app_nil_r in M.
    + constructor; cbn [l_out l_raw l_seq l_state]; [apply Q| |intros _; rewrite last_snoc; congruence].
      pose proof (quiet_more l b Q) as M. rewrite K, app_nil_r in M. rewrite K, app_nil_r. apply M. intros _. by apply (quiet_end _ Q).
  - by apply quiet_esc.
  - destruct K as (body & E & _ & B). unfold feed_csi. destruct (in_range 64 126 b); [by apply quiet_finish|].
    assert (L : last (l_raw l ++ l_seq l) <> Some 27) by (rewrite E; by apply (last_body csi_body_byte)).
    destruct (Z.eqb_spec b 27) as [-> |]; [by apply quiet_again|]. destruct (_ || _); [by apply quiet_abandon|].
    destruct (_ <? _); [by apply quiet_abandon|]. by apply quiet_hold.
  - destruct K as (body & E & _ & B). unfold feed_osc. destruct (b =? 7); [by apply quiet_finish|].
    assert (L : last (l_raw l ++ l_seq l) <> Some 27) by (rewrite E; by apply (last_body osc_body_byte)).
    destruct (Z.eqb_spec b 27) as [-> |]; [by apply quiet_hold|]. destruct (_ || _); [by apply quiet_abandon|].
    destruct (_ <? _); [by apply quiet_abandon|]. by apply quiet_hold.
  - destruct K as (body & E & _). unfold feed_osc_esc. destruct (b =? 92); [by apply quiet_finish|]. apply quiet_esc; [|done].
    constructor; [apply Q| |done]. cbn [l_raw l_seq]. rewrite E, removelast_last, <- (assoc_L (++)), <- E. apply Q.
Qed.
Lemma quiet_bytes data : forall l, scanner_ok (l_state l) (l_seq l) -> Quiet l -> Quiet (fold_left feed_byte data l).
Proof.
  induction data as [|b data IH]; intros l K Q; [done|]. cbn [fold_left]. apply IH; [by apply feed_byte_ok|by apply quiet_byte].
Qed.
(** A raw token never holds ESC c: it is a token of its own, even when reads split it. *)
Lemma raw_never_ris s data : scanner_ok (state s) (seq s) -> Forall raw_plain (snd (Scanner.feed s data)).
Proof.
  intros K. unfold Scanner.feed. cbn [snd]. set (l0 := mkLoop (state s) (seq s) [] []).
  assert (Q0 : Quiet l0).
  { constructor; [constructor| |done]. unfold l0. cbn [l_raw l_seq app]. destruct (state s); cbn [scanner_ok] in K.
    - by rewrite K.
    - by rewrite K.
    - destruct K as (body & -> & _ & B). by apply (body_no_ris csi_body_byte).
    - destruct K as (body & -> & _ & B). by apply (body_no_ris osc_body_byte).
    - destruct K as (body & -> & _ & B). rewrite has_ris_snoc, andb_false_r, orb_false_r. by apply (body_no_ris osc_body_byte). }
  pose proof (quiet_bytes data l0 K Q0) as Q. set (l := fold_left feed_byte data l0) in *.
  destruct (l_raw l) as [|x r] eqn:E; cbn [flush_raw]; [apply Q|]. apply Forall_app. split; [apply Q|].
  constructor; [|done]. apply (has_ris_app_l _ (l_seq l)). rewrite <- E. apply Q.
Qed.

(** ** What was there before makes no difference *)

Section Chunks.
Context {V : Type} `{!Gfx V, !Canvas V, !Vt V, !VtLaws V, HScr : !History.Screen V}.
Implicit Types (a : TerminalActor) (w : Writing).

(** The scanner and what waits to be taken: events, bells, titles. *)
Record Waiting : Type := mkWaiting { w_events : list TerminalEvent; w_bells : nat; w_titles : list bytes; w_last : option bytes; w_scanner : OutputScanner }.
Definition waiting a : Waiting := mkWaiting (events a) (bells a) (titles a) (last_title a) (scanner a).
(** The actor with this before what it has waiting. *)
Definition behind (p : Waiting) a : TerminalActor :=
  mkActor (term a) (history a) (pty_replies a) (w_bells p + bells a) (w_titles p ++ titles a) (w_scanner p)
    (clipboard_client_available a) (enhanced_paste_available a) (modes a) (modify_other_keys a) (inactive_kitty_stack a)
    (w_events p ++ events a) (w_last p) (scrollback_request a) (scrollback_bytes a) (cell_ a) (graphics a)
    (normal_replay a) (cursor_shape_replay a) (cursor_color_replay a).
Definition erase a : TerminalActor :=
  mkActor (term a) (history a) (pty_replies a) O [] Scanner.new (clipboard_client_available a) (enhanced_paste_available a)
    (modes a) (modify_other_keys a) (inactive_kitty_stack a) [] None (scrollback_request a) (scrollback_bytes a) (cell_ a)
    (graphics a) (normal_replay a) (cursor_shape_replay a) (cursor_color_replay a).
Ltac fields2 := cbv [behind erase]; fields.
Lemma behind_erase a : behind (waiting a) (erase a) = a.
Proof. destruct a. cbv [waiting w_events w_bells w_titles w_last w_scanner]. fields2. by rewrite Nat.add_0_r, !app_nil_r. Qed.
Definition late p f : Prop := forall a, f (behind p a) = behind p (f a).
Lemma flush_late p x : late p (flush_feed x).
Proof.
  intros a. destruct x as [|b x]; [done|]. unfold flush_feed. change (term (behind p a)) with (term a).
  destruct (vt_write _ _) as [v r]. fields2. by rewrite Nat.add_assoc, !(assoc_L (++)).
Qed.
Lemma push_late p es : late p (push es).
Proof. intros a. fields2. by rewrite (assoc_L (++)). Qed.
Lemma note_csi_late p c : late p (note_csi c).
Proof. intros a. unfold note_csi. destruct (_ && _), (_ && _); by fields2. Qed.
Lemma color_late p o : late p (note_cursor_color o).
Proof. intros a. unfold note_cursor_color. destruct (split o). destruct (_ || _); by fields2. Qed.
Definition led (p : Waiting) (b : bytes) w : Writing := mkWriting (behind p (actor w)) (feed_ w) (b ++ broadcast w).
Lemma answer_late p b f a w : (forall a, f (behind p a) = f a) -> answer f (behind p a) (led p b w) = led p b (answer f a w).
Proof. intros F. unfold answer, led. cbn [feed_ actor broadcast]. rewrite flush_late, F. f_equal. Qed.
Lemma on_modes_late p c a x : on_modes c (behind p a) x = (let '(a, x) := on_modes c a x in (behind p a, x)).
Proof.
  unfold on_modes. destruct (kitty_push c); [by fields2|]. destruct (is_kitty_pop c); [by fields2|].
  destruct (dec_modes c) as [[ps set]|]; [|done]. unfold on_dec_modes. change (modes (behind p a)) with (modes a).
  destruct (apply_all ps set (modes a)) as [m es].
  assert (P : push es ((behind p a) <| modes := m |>) = behind p (push es (a <| modes := m |>)))
    by (fields2; by rewrite (assoc_L (++))).
  cbv zeta. rewrite !P. set (b := push es _). destruct (alt_screen (modes a)), (alt_screen m); try done.
  rewrite !flush_late. generalize (flush_feed x b). intros f. by fields2.
Qed.
Lemma on_token_late p b w t : on_token (led p b w) t = led p b (on_token w t).
Proof.
  destruct t as [r| |c|o]; cbn [on_token].
  - unfold on_raw, led. cbn [feed_ actor broadcast]. rewrite (assoc_L (++)). f_equal. destruct (has_ris r); [by fields2|done].
  - unfold on_ris, led. cbn [feed_ actor broadcast]. rewrite (assoc_L (++)). cbv zeta.
    change (forget_history (behind p (actor w))) with (behind p (forget_history (actor w))). rewrite flush_late.
    set (a := flush_feed _ _). set (a1 := forget_cursor (a <| inactive_kitty_stack := [] |>)).
    change (forget_cursor ((behind p a) <| inactive_kitty_stack := [] |>)) with (behind p a1).
    change (modes (behind p a1)) with (modes a1). rewrite push_late. set (a2 := push _ a1).
    change (modes (behind p a2)) with (modes a2). rewrite push_late. f_equal.
  - unfold on_csi. cbv zeta. change (actor (led p b w)) with (behind p (actor w)). rewrite !note_csi_late.
    destruct (is_keys_query c); [by apply answer_late|]. destruct (is_mode_query c 5522); [by apply answer_late|].
    destruct (size_query c); [by apply answer_late|].
    set (a := note_csi c (actor w)).
    change (if is_cursor_shape c then (behind p a) <| cursor_shape_replay := Some (csi_raw c) |> else behind p a)
      with (if is_cursor_shape c then behind p (a <| cursor_shape_replay := Some (csi_raw c) |>) else behind p a).
    replace (if is_cursor_shape c then behind p (a <| cursor_shape_replay := Some (csi_raw c) |>) else behind p a)
      with (behind p (if is_cursor_shape c then a <| cursor_shape_replay := Some (csi_raw c) |> else a)) by (by destruct (is_cursor_shape c)).
    rewrite on_modes_late. change (feed_ (led p b w)) with (feed_ w). destruct (on_modes c _ (feed_ w)) as [a1 x].
    unfold led. cbn [feed_ actor broadcast]. by rewrite (assoc_L (++)).
  - unfold on_osc. cbv zeta. change (actor (led p b w)) with (behind p (actor w)). rewrite !color_late.
    change (declined_selection o (behind p ?a)) with (declined_selection o a).
    destruct (declined_selection o _); [by apply answer_late|]. destruct (color_query o); [by apply answer_late|].
    rewrite push_late. unfold led. cbn [feed_ actor broadcast]. by rewrite (assoc_L (++)).
Qed.
Lemma on_atoms_late p b es : forall w, fold_left on_atom es (led p b w) = led p b (fold_left on_atom es w).
Proof.
  induction es as [|e es IH]; intros w; [done|]. cbn [fold_left]. rewrite <- IH. f_equal.
  destruct e as [x|t]; [apply (on_token_late p b w (Raw [x]))|apply on_token_late].
Qed.
Lemma norm_late p b w : norm (led p b w) = led p b (norm w).
Proof. unfold norm, led. cbn [feed_ actor broadcast]. by rewrite flush_late. Qed.

(** ** Runs over atoms *)

Definition run (es : list (Z + Token)) a : Writing := norm (fold_left on_atom es (mkWriting a [] [])).
Lemma run_feed es a : feed_ (run es a) = [].
Proof. done. Qed.
Lemma run_behind es p a : run es (behind p a) = led p [] (run es a).
Proof.
  unfold run. rewrite <- norm_late, <- on_atoms_late. done.
Qed.
Lemma run_app x y a : run (x ++ y) a
  = mkWriting (actor (run y (actor (run x a)))) [] (broadcast (run x a) ++ broadcast (run y (actor (run x a)))).
Proof.
  unfold run at 1. rewrite fold_left_app. set (w := fold_left on_atom x (mkWriting a [] [])).
  rewrite (atoms_cong y w (norm w) (norm_norm w)). change (norm w) with (run x a).
  destruct (run x a) as [ar fr br] eqn:Er. assert (fr = []) as -> by (change fr with (feed_ (mkWriting ar fr br)); by rewrite <- Er).
  cbn [actor broadcast].
  replace (mkWriting ar [] br) with (led (waiting ar) br (mkWriting (erase ar) [] [])) by (unfold led; cbn [actor feed_ broadcast]; by rewrite behind_erase, app_nil_r).
  rewrite on_atoms_late, norm_late. pose proof (run_behind y (waiting ar) (erase ar)) as B. rewrite behind_erase in B. rewrite B. done.
Qed.

(** ** A write, as a run *)

Lemma run_tokens ts a : Forall raw_plain ts -> run (observe atoms ts) a = norm (fold_left on_token ts (mkWriting a [] [])).
Proof. intros F. unfold run. by rewrite tokens_atoms. Qed.
(** The atoms of what is written. *)
Definition written (s : OutputScanner) (data : bytes) : list (Z + Token) := observe atoms (snd (Scanner.feed s data)).
Lemma write_run data a : scanner_ok (state (scanner a)) (seq (scanner a)) ->
  let r := run (written (scanner a) data) (a <| scanner := fst (Scanner.feed (scanner a) data) |>) in
  write data a = (broadcast r, collect_callback_events (actor r)).
Proof.
  intros K r. unfold write, r, written. pose proof (raw_never_ris (scanner a) data K) as F.
  destruct (Scanner.feed (scanner a) data) as [s toks]. cbn [fst snd] in *. rewrite run_tokens by done. done.
Qed.

(** ** Events, in three *)

(** The events that follow the output itself, and the two that callbacks report. *)
Definition is_own (e : TerminalEvent) : bool := match e with Bell | TitleChange _ => false | _ => true end.
Definition is_bell (e : TerminalEvent) : bool := match e with Bell => true | _ => false end.
Definition title_of_event (e : TerminalEvent) : option bytes := match e with TitleChange t => Some t | _ => None end.
Definition same_events (x y : list TerminalEvent) : Prop :=
  List.filter is_own x = List.filter is_own y /\ length (List.filter is_bell x) = length (List.filter is_bell y)
  /\ omap title_of_event x = omap title_of_event y.
(** Two actors that differ in nothing but how bells, title changes and other events are
    ordered among each other. *)
Definition same_actor a a' : Prop := a <| events := [] |> = a' <| events := [] |> /\ same_events (events a) (events a').

Lemma title_changes_app ts us : forall l, title_changes l (ts ++ us)
  = (let '(cs, l) := title_changes l ts in let '(ds, l) := title_changes l us in (cs ++ ds, l)).
Proof.
  induction ts as [|t ts IH]; intros l; cbn [app title_changes]; [by destruct (title_changes l us)|].
  destruct (obeq l (Some t)); [apply IH|]. rewrite IH. destruct (title_changes (Some t) ts) as [cs l1].
  by destruct (title_changes l1 us).
Qed.
Lemma own_silent n cs : List.filter is_own (replicate n Bell ++ (TitleChange <$> cs)) = [].
Proof.
  rewrite List.filter_app. replace (List.filter is_own (replicate n Bell)) with (@nil TerminalEvent) by (induction n; done).
  cbn. by induction cs.
Qed.
Lemma bells_counted n cs : length (List.filter is_bell (replicate n Bell ++ (TitleChange <$> cs))) = n.
Proof.
  rewrite List.filter_app, length_app. replace (List.filter is_bell (TitleChange <$> cs)) with (@nil TerminalEvent) by (by induction cs).
  cbn [length]. rewrite Nat.add_0_r. induction n as [|n IH]; [done|]. cbn. by rewrite IH.
Qed.
Lemma titles_told n cs : omap title_of_event (replicate n Bell ++ (TitleChange <$> cs)) = cs.
Proof.
  rewrite omap_app. replace (omap title_of_event (replicate n Bell)) with (@nil bytes) by (induction n; done).
  cbn [app]. induction cs as [|c cs IH]; [done|]. cbn. by rewrite IH.
Qed.

(** A token's own events hold no title. *)
Definition untitled (es : list TerminalEvent) : Prop := omap title_of_event es = [].
Lemma untitled_app x y : untitled x -> untitled y -> untitled (x ++ y).
Proof. unfold untitled. intros X Y. by rewrite omap_app, X, Y. Qed.
Lemma apply_all_untitled ps set : forall m, untitled (snd (apply_all ps set m)).
Proof.
  assert (D : forall p m, untitled (snd (apply_dec p set m))).
  { intros p m. unfold apply_dec. repeat (case_match; try done). }
  induction ps as [|p ps IH]; intros m; [done|]. cbn [apply_all]. specialize (D p m). destruct (apply_dec p set m) as [m1 e].
  specialize (IH m1). destruct (apply_all ps set m1) as [m2 es]. by apply untitled_app.
Qed.
Lemma events_push es a : events (push es a) = events a ++ es.
Proof. done. Qed.
Lemma answer_events f a w : events (actor (answer f a w)) = events a.
Proof. unfold answer. cbn [actor]. change (events (reply ?b ?x)) with (events x). apply flush_events. Qed.
Lemma on_token_untitled w t : exists es, events (actor (on_token w t)) = events (actor w) ++ es /\ untitled es.
Proof.
  assert (N : forall a, events a = events (actor w) -> exists es, events a = events (actor w) ++ es /\ untitled es).
  { intros a E. exists []. by rewrite app_nil_r. }
  destruct t as [r| |c|o]; cbn [on_token].
  - apply N. unfold on_raw. cbn [actor]. by destruct (has_ris r).
  - unfold on_ris. cbn [actor]. cbv zeta. set (a := flush_feed _ _). assert (E : events a = events (actor w)) by (unfold a; by rewrite flush_events).
    eexists ((if cursor_hidden (modes a) then [CursorVisible] else []) ++ (if enhanced_paste (modes a) then [EnhancedPasteMode false] else [])).
    split; [fields; rewrite <- (assoc_L (++)); f_equal; exact E|]. by destruct (cursor_hidden _), (enhanced_paste _).
  - unfold on_csi. cbv zeta. assert (E : forall c a, events (note_csi c a) = events a) by (intros; unfold note_csi; by destruct (_ && _), (_ && _)).
    destruct (is_keys_query c); [apply N; by rewrite answer_events, E|]. destruct (is_mode_query c 5522); [apply N; by rewrite answer_events, E|].
    destruct (size_query c); [apply N; by rewrite answer_events, E|].
    set (a := if is_cursor_shape c then _ else _). assert (Ea : events a = events (actor w)) by (unfold a; destruct (is_cursor_shape c); apply E).
    unfold on_modes. destruct (kitty_push c); [by apply N|]. destruct (is_kitty_pop c); [by apply N|].
    destruct (dec_modes c) as [[ps set]|]; [|by apply N]. unfold on_dec_modes.
    pose proof (apply_all_untitled ps set (modes a)) as U. destruct (apply_all ps set (modes a)) as [m es]. cbn [snd] in U.
    exists es. split; [|done]. rewrite <- Ea. destruct (alt_screen (modes a)), (alt_screen m); try done. cbn [actor].
    change (events (swap_stacks ?x)) with (events x).
    change (events (?x <| normal_replay := ?y |>)) with (events x). by rewrite flush_events.
  - unfold on_osc. cbv zeta. assert (E : events (note_cursor_color o (actor w)) = events (actor w)).
    { unfold note_cursor_color. destruct (split o). by destruct (_ || _). }
    destruct (declined_selection o _); [apply N; by rewrite answer_events|]. destruct (color_query o); [apply N; by rewrite answer_events|].
    exists (paste_read o ++ tap_notification o). split; [cbn [actor]; by rewrite events_push, E|]. unfold paste_read, tap_notification.
    destruct (parse (payload o)), (notification o); done.
Qed.
Lemma run_untitled es a : events a = [] -> untitled (events (actor (run es a))).
Proof.
  intros E. assert (Fo : forall es w, untitled (events (actor w)) -> untitled (events (actor (fold_left on_atom es w)))).
  { clear. induction es as [|e es IH]; intros w U; [done|]. cbn [fold_left]. apply IH.
    destruct e as [x|t]; [destruct (on_token_untitled w (Raw [x])) as (l & L & Ul)|destruct (on_token_untitled w t) as (l & L & Ul)];
      cbn [on_token on_atom] in *; rewrite L; by apply untitled_app. }
  unfold run, norm. cbn [actor]. rewrite flush_events. apply Fo. cbn [actor]. by rewrite E.
Qed.

(** Collecting at once or in two: the same bells and the same changes of title. *)
Definition told (n : nat) (cs : list bytes) : list TerminalEvent := replicate n Bell ++ (TitleChange <$> cs).
Lemma collect_spec a : collect_callback_events a
  = behind (mkWaiting (events a ++ told (bells a) (fst (title_changes (last_title a) (titles a)))) O []
              (snd (title_changes (last_title a) (titles a))) (scanner a)) (erase a).
Proof. unfold collect_callback_events, told. destruct (title_changes _ _) as [cs l]. fields2. cbv [w_events w_bells w_titles w_last w_scanner fst snd]. by rewrite !app_nil_r. Qed.
Lemma same_events_in_two x y n m cs ds : untitled y ->
  same_events (x ++ y ++ told (n + m) (cs ++ ds)) ((x ++ told n cs) ++ y ++ told m ds).
Proof.
  intros U. unfold same_events, told. rewrite !List.filter_app, !omap_app, !length_app, U.
  pose proof (titles_told n cs) as T1. pose proof (titles_told m ds) as T2. pose proof (titles_told (n + m) (cs ++ ds)) as T3.
  rewrite omap_app in T1, T2, T3.
  pose proof (own_silent n cs) as O1. pose proof (own_silent m ds) as O2. pose proof (own_silent (n + m) (cs ++ ds)) as O3.
  pose proof (bells_counted n cs) as B1. pose proof (bells_counted m ds) as B2. pose proof (bells_counted (n + m) (cs ++ ds)) as B3.
  rewrite List.filter_app in O1, O2, O3. rewrite List.filter_app, length_app in B1, B2, B3. rewrite O1, O2, O3, !app_nil_r.
  split; [done|]. split; [lia|]. rewrite T1, T2, T3. cbn [app]. by rewrite (assoc_L (++)).
Qed.
Lemma collect_in_two E B T L s1 s2 a1 (z1 z2 : TerminalActor) : untitled (events z2) ->
  a1 = collect_callback_events (behind (mkWaiting E B T L s1) z1) ->
  same_actor (collect_callback_events (behind (mkWaiting E B T L s2) (behind (waiting z1) z2)))
    (collect_callback_events (behind (mkWaiting (events a1) O [] (last_title a1) s2) z2)).
Proof.
  intros U ->. rewrite !collect_spec. cbv [behind erase waiting w_events w_bells w_titles w_last w_scanner].
  cbn [events bells titles last_title scanner]. rewrite !app_nil_r, !Nat.add_0_r.
  rewrite (assoc_L (++) T), title_changes_app. destruct (title_changes L (T ++ titles z1)) as [cs l]. cbn [fst snd].
  change ([] ++ titles z2) with (titles z2). destruct (title_changes l (titles z2)) as [ds l2]. cbn [fst snd].
  split; [by fields|]. cbn [events]. rewrite Nat.add_assoc, (assoc_L (++) E).
  pose proof (same_events_in_two (E ++ events z1) (events z2) (B + bells z1) (bells z2) cs ds U) as S.
  rewrite <- !(assoc_L (++)) in *. exact S.
Qed.

(** C32: How the child's output is cut into reads does not matter: clients are sent the same
    bytes, the child gets the same replies, and the actor is the same but for how bells
    and title changes are ordered among its other events. *)
Theorem write_chunking (x y : bytes) a : scanner_ok (state (scanner a)) (seq (scanner a)) ->
  let whole := write (x ++ y) a in let first := write x a in let second := write y (snd first) in
  fst whole = fst first ++ fst second /\ same_actor (snd whole) (snd second).
Proof.
  intros K. cbv zeta. rewrite (write_run (x ++ y) a K), (write_run x a K).
  destruct (scan_feed_app atoms (scanner a) x y) as [S O]. set (s1 := fst (Scanner.feed (scanner a) x)) in *.
  unfold written. rewrite O. fold (written (scanner a) x) (written s1 y). rewrite S.
  set (s2 := fst (Scanner.feed s1 y)). set (es1 := written (scanner a) x). set (es2 := written s1 y).
  set (p := fun s => mkWaiting (events a) (bells a) (titles a) (last_title a) s).
  assert (Sc : forall s, a <| scanner := s |> = behind (p s) (erase a)).
  { intros s. rewrite <- (behind_erase (a <| scanner := s |>)). done. }
  rewrite !Sc, !run_behind. set (r1 := run es1 (erase a)). cbn [led broadcast actor fst snd app].
  set (a1 := collect_callback_events (behind (p s1) (actor r1))).
  assert (K1 : scanner a1 = s1).
  { unfold a1, collect_callback_events. by destruct (title_changes _ _). }
  assert (Ks : scanner_ok (state (scanner a1)) (seq (scanner a1))) by (rewrite K1; by apply feed_ok).
  rewrite (write_run y a1 Ks), K1. fold es2 s2. cbn [fst snd]. rewrite run_app. fold r1. cbn [broadcast actor].
  set (z := erase (actor r1)). set (r2 := run es2 z).
  assert (R : run es2 (actor r1) = led (waiting (actor r1)) [] r2) by (unfold r2, z; by rewrite <- run_behind, behind_erase).
  set (q := mkWaiting (events a1) 0 [] (last_title a1) s2).
  assert (A1 : a1 <| scanner := s2 |> = behind q z).
  { rewrite <- (behind_erase (a1 <| scanner := s2 |>)). unfold q, z, a1, collect_callback_events.
    destruct (title_changes _ _) as [cs l]. done. }
  rewrite R, A1, run_behind. fold r2. cbn [led broadcast actor fst snd app]. split; [done|].
  pose proof (run_untitled es2 z eq_refl) as U. fold r2 in U.
  exact (collect_in_two (events a) (bells a) (titles a) (last_title a) s1 s2 a1 (actor r1) (actor r2) U eq_refl).
Qed.
End Chunks.

(** ** What clients are sent *)

Section Sent.
Context {V : Type} `{!Gfx V, !Canvas V, !Vt V, !VtLaws V, HScr : !History.Screen V}.
Implicit Types (a : TerminalActor) (w : Writing).

(** What is kept of a token: not the queries, nor a clipboard read no client answers. *)
Definition kept (clip : bool) (t : Token) : bytes :=
  match t with
  | TOsc o => match clipboard_read_selection o with Some _ => if clip then strip_token t else [] | None => strip_token t end
  | _ => strip_token t
  end.
Lemma on_modes_clip c a x : clipboard_client_available (fst (on_modes c a x)) = clipboard_client_available a.
Proof.
  unfold on_modes. destruct (kitty_push c); [done|]. destruct (is_kitty_pop c); [done|].
  destruct (dec_modes c) as [[ps set]|]; [|done]. unfold on_dec_modes. destruct (apply_all ps set (modes a)) as [m es].
  destruct (alt_screen (modes a)), (alt_screen m); try done. cbn [fst].
  change (clipboard_client_available (swap_stacks (?x <| normal_replay := ?y |>))) with (clipboard_client_available x).
  by rewrite (proj1 (proj2 (proj2 (flush_keeps _ _)))).
Qed.
Lemma query_stripped c : is_keys_query c = true \/ is_mode_query c 5522 = true \/ (exists q, size_query c = Some q) -> is_stripped_query c = true.
Proof.
  unfold is_stripped_query. intros [H|[H|[q H]]].
  - fold (is_keys_query c). by rewrite H.
  - unfold is_mode_query in H. apply andb_prop in H as [H P]. rewrite H. replace (negb (beq (params c) [])) with true.
    + by rewrite !orb_true_r.
    + apply beq_eq in P. by rewrite P.
  - rewrite H. apply orb_true_r.
Qed.
Lemma note_csi_clip c a : clipboard_client_available (note_csi c a) = clipboard_client_available a.
Proof. unfold note_csi. by destruct (_ && _), (_ && _). Qed.
Lemma on_token_sent w t : broadcast (on_token w t) = broadcast w ++ kept (clipboard_client_available (actor w)) t
  /\ clipboard_client_available (actor (on_token w t)) = clipboard_client_available (actor w).
Proof.
  assert (An : forall f a, broadcast (answer f a w) = broadcast w /\ clipboard_client_available (actor (answer f a w)) = clipboard_client_available a).
  { intros f a. unfold answer. cbn [broadcast actor]. split; [done|].
    change (clipboard_client_available (reply ?b ?x)) with (clipboard_client_available x).
    apply flush_keeps. }
  destruct t as [r| |c|o]; cbn [on_token kept strip_token token_raw].
  - unfold on_raw. cbn [broadcast actor]. by destruct (has_ris r).
  - unfold on_ris. cbn [broadcast actor]. split; [done|]. cbv zeta. set (x := flush_feed _ _).
    assert (E : clipboard_client_available x = clipboard_client_available (actor w)) by (unfold x; by rewrite (proj1 (proj2 (proj2 (flush_keeps _ _))))).
    exact E.
  - unfold on_csi. cbv zeta. destruct (is_keys_query c) eqn:E1.
    { rewrite query_stripped by auto. destruct (An (fun a => esc "[>4;" ++ dec (modify_other_keys a) ++ [109]) (note_csi c (actor w))) as [-> ->].
      by rewrite app_nil_r, note_csi_clip. }
    destruct (is_mode_query c 5522) eqn:E2.
    { rewrite query_stripped by auto. destruct (An (fun a => esc "[?5522;" ++ dec (paste_mode_state a) ++ str "$y") (note_csi c (actor w))) as [-> ->].
      by rewrite app_nil_r, note_csi_clip. }
    destruct (size_query c) as [q|] eqn:E3.
    { rewrite query_stripped by eauto. destruct (An (size_reply q) (note_csi c (actor w))) as [-> ->]. by rewrite app_nil_r, note_csi_clip. }
    set (a := if is_cursor_shape c then _ else _). assert (Ea : clipboard_client_available a = clipboard_client_available (actor w)).
    { unfold a. destruct (is_cursor_shape c); apply note_csi_clip. }
    pose proof (on_modes_clip c a (feed_ w)) as M. destruct (on_modes c a (feed_ w)) as [a1 x1]. cbn [fst] in M.
    cbn [broadcast actor]. by rewrite M.
  - unfold on_osc. cbv zeta. set (a := note_cursor_color o (actor w)).
    assert (Ea : clipboard_client_available a = clipboard_client_available (actor w)).
    { unfold a, note_cursor_color. destruct (split o). by destruct (_ || _). }
    unfold declined_selection. rewrite Ea. destruct (clipboard_read_selection o) as [sel|], (clipboard_client_available (actor w)) eqn:C;
      try (destruct (An (fun _ => esc "]52;" ++ sel ++ [59; 27; 92]) a) as [-> ->]; by rewrite app_nil_r, Ea);
      destruct (color_query o) as [qs|]; try (destruct (An (fun _ => concat (color_query_reply <$> qs)) a) as [-> ->]; by rewrite app_nil_r, Ea);
      cbn [broadcast actor]; split; done.
Qed.
Lemma tokens_sent ts : forall w, broadcast (fold_left on_token ts w) = broadcast w ++ concat (kept (clipboard_client_available (actor w)) <$> ts)
  /\ clipboard_client_available (actor (fold_left on_token ts w)) = clipboard_client_available (actor w).
Proof.
  induction ts as [|t ts IH]; intros w; cbn [fold_left fmap list_fmap concat]; [by rewrite app_nil_r|].
  destruct (IH (on_token w t)) as [-> ->]. destruct (on_token_sent w t) as [-> ->]. by rewrite <- (assoc_L (++)).
Qed.

(** Clients are sent the child's output less what the session answers for them; when one
    of them answers clipboard reads, that is the one-shot strip of the whole stream. *)
Theorem broadcast_is_strip (data : bytes) a :
  fst (write data a) = concat (kept (clipboard_client_available a) <$> snd (Scanner.feed (scanner a) data))
  /\ (clipboard_client_available a = true -> scanner a = Scanner.new ->
      fst (write data a) ++ pending (scanner (snd (write data a))) = strip_terminal_queries data).
Proof.
  assert (E : fst (write data a) = concat (kept (clipboard_client_available a) <$> snd (Scanner.feed (scanner a) data))).
  { unfold write. destruct (Scanner.feed (scanner a) data) as [s toks]. cbn [fst snd].
    by rewrite (proj1 (tokens_sent toks (mkWriting (a <| scanner := s |>) [] []))). }
  split; [exact E|]. intros C N. rewrite E, C, N. unfold strip_terminal_queries.
  assert (S : scanner (snd (write data a)) = fst (Scanner.feed Scanner.new data)).
  { assert (Keep : forall w t, scanner (actor (on_token w t)) = scanner (actor w)).
    { clear. intros w t. pose proof (on_token_late (mkWaiting [] 0 [] (last_title (actor w)) (scanner (actor w))) []
        (mkWriting (erase (actor w)) (feed_ w) (broadcast w)) t) as L.
      pose proof (on_token_late (waiting (actor w)) [] (mkWriting (erase (actor w)) (feed_ w) (broadcast w)) t) as L2.
      unfold led in L2. cbn [actor feed_ broadcast app] in L2. rewrite behind_erase in L2. destruct w as [aw fw bw]. cbn [actor feed_ broadcast] in *.
      rewrite L2. done. }
    unfold write. rewrite N. destruct (Scanner.feed Scanner.new data) as [s toks]. cbn [fst snd]. unfold collect_callback_events.
    destruct (title_changes _ _) as [cs l].
    change (scanner (push ?e (?x <| bells := O |> <| titles := [] |> <| last_title := l |>))) with (scanner x).
    assert (F : forall x a0, scanner (flush_feed x a0) = scanner a0).
    { intros x a0. destruct x as [|b0 x]; [done|]. unfold flush_feed. by destruct (vt_write _ _). }
    rewrite F. clear F. assert (G : forall w, scanner (actor (fold_left on_token toks w)) = scanner (actor w)).
    { clear -Keep. induction toks as [|t toks IH]; intros w; [done|]. cbn [fold_left]. by rewrite IH, Keep. }
    by rewrite G. }
  rewrite S. destruct (Scanner.feed Scanner.new data) as [s toks]. cbn [fst snd]. f_equal. f_equal. apply list_fmap_ext.
  intros _ t _. destruct t as [r| |c|o]; try done. cbn [kept]. by destruct (clipboard_read_selection o).
Qed.

(** ** Paste events *)

Definition paste_bits (es : list TerminalEvent) : list bool := omap (fun e => match e with EnhancedPasteMode b => Some b | _ => None end) es.
(** Where a sequence of changes, each a change, leads. *)
Fixpoint follow (b : bool) (bits : list bool) : option bool :=
  match bits with [] => Some b | x :: bits => if Bool.eqb b x then None else follow x bits end.
Lemma follow_app bits more : forall b c, follow b bits = Some c -> follow b (bits ++ more) = follow c more.
Proof. induction bits as [|x bits IH]; intros b c; cbn [app follow]; [by intros [= ->]|]. destruct (Bool.eqb b x); [done|]. apply IH. Qed.
Definition on_paste a : bool := enhanced_paste (modes a).
Definition moves a a' : Prop := exists es, events a' = events a ++ es /\ follow (on_paste a) (paste_bits es) = Some (on_paste a').
Lemma moves_same a a' : events a' = events a -> modes a' = modes a -> moves a a'.
Proof. intros E M. exists []. rewrite app_nil_r. split; [done|]. unfold on_paste. by rewrite M. Qed.
Lemma moves_trans a b c : moves a b -> moves b c -> moves a c.
Proof.
  intros (x & X & Fx) (y & Y & Fy). exists (x ++ y). split; [rewrite Y, X; by rewrite (assoc_L (++))|].
  unfold paste_bits. rewrite omap_app. by rewrite (follow_app _ _ _ _ Fx).
Qed.
Lemma apply_all_moves ps set : forall m, follow (enhanced_paste m) (paste_bits (snd (apply_all ps set m))) = Some (enhanced_paste (fst (apply_all ps set m))).
Proof.
  assert (D : forall p m, follow (enhanced_paste m) (paste_bits (snd (apply_dec p set m))) = Some (enhanced_paste (fst (apply_dec p set m)))).
  { intros p m. unfold apply_dec. do 6 (destruct (p =? _); [by fields|]). destruct (_ || _); [by fields|].
    destruct (p =? _); [destruct set, (cursor_hidden m); by fields|]. destruct (p =? _); [destruct set; by fields|].
    destruct (p =? _); [by fields|]. destruct (p =? _); [|done]. cbn [fst snd].
    assert (E : enhanced_paste (m <| enhanced_paste := set |>) = set) by by fields. rewrite E.
    destruct (enhanced_paste m), set; done. }
  induction ps as [|p ps IH]; intros m; [done|]. cbn [apply_all]. specialize (D p m). destruct (apply_dec p set m) as [m1 e].
  specialize (IH m1). destruct (apply_all ps set m1) as [m2 es]. cbn [fst snd] in *. unfold paste_bits. rewrite omap_app.
  by rewrite (follow_app _ _ _ _ D).
Qed.
Lemma flush_moves x a : moves a (flush_feed x a).
Proof. apply moves_same; apply flush_keeps. Qed.
Lemma answer_moves f a w : moves a (actor (answer f a w)).
Proof. apply moves_same; unfold answer; cbn [actor]; [change (events (reply ?b ?x)) with (events x)|change (modes (reply ?b ?x)) with (modes x)]; apply flush_keeps. Qed.
Lemma push_moves es a : paste_bits es = [] -> moves a (push es a).
Proof. intros E. exists es. by rewrite E. Qed.
Lemma note_csi_moves c a : moves a (note_csi c a).
Proof. apply moves_same; unfold note_csi; by destruct (_ && _), (_ && _). Qed.
Lemma color_moves o a : moves a (note_cursor_color o a).
Proof. apply moves_same; unfold note_cursor_color; destruct (split o); by destruct (_ || _). Qed.
Lemma on_dec_moves ps set a x : moves a (fst (on_dec_modes ps set a x)).
Proof.
  unfold on_dec_modes. pose proof (apply_all_moves ps set (modes a)) as M. destruct (apply_all ps set (modes a)) as [m es]. cbn [fst snd] in M.
  assert (P : moves a (push es (a <| modes := m |>))) by (exists es; done). set (b := push es _) in *. cbv zeta.
  assert (Sw : forall y c, events c = events b -> modes c = modes b -> moves b (swap_stacks (c <| normal_replay := y |>))).
  { intros y c E Em. exists []. rewrite app_nil_r. split; [exact E|]. unfold on_paste. rewrite <- Em. done. }
  destruct (alt_screen (modes a)), (alt_screen m); cbn [fst]; try exact P; (eapply moves_trans; [exact P|]); apply Sw; try done; apply flush_keeps.
Qed.
Lemma on_modes_moves c a x : moves a (fst (on_modes c a x)).
Proof.
  assert (Ks : forall f, moves a (a <| modes := (modes a) <| kitty_stack ::= f |> |>)) by (intros f; exists []; by rewrite app_nil_r).
  unfold on_modes. destruct (kitty_push c); [apply Ks|]. destruct (is_kitty_pop c); [apply Ks|].
  destruct (dec_modes c) as [[ps set]|]; [apply on_dec_moves|by apply moves_same].
Qed.
Lemma on_token_moves w t : moves (actor w) (actor (on_token w t)).
Proof.
  destruct t as [r| |c|o]; cbn [on_token].
  - unfold on_raw. cbn [actor]. destruct (has_ris r); by apply moves_same.
  - unfold on_ris. cbn [actor]. cbv zeta. set (b := flush_feed _ _).
    assert (B : moves (actor w) b) by (eapply moves_trans; [|apply flush_moves]; by apply moves_same).
    eapply moves_trans; [exact B|]. set (e1 := if cursor_hidden _ then _ else _).
    exists (e1 ++ if on_paste b then [EnhancedPasteMode false] else []).
    split; [fields; by rewrite <- (assoc_L (++))|].
    assert (Z1 : paste_bits e1 = []) by (unfold e1; by destruct (cursor_hidden _)). unfold paste_bits in *. rewrite omap_app, Z1.
    by destruct (on_paste b).
  - unfold on_csi. cbv zeta. eapply moves_trans; [apply (note_csi_moves c)|].
    destruct (is_keys_query c); [apply answer_moves|]. destruct (is_mode_query c 5522); [apply answer_moves|].
    destruct (size_query c); [apply answer_moves|]. set (a := note_csi c (actor w)).
    set (b := if is_cursor_shape c then _ else _). assert (B : moves a b) by (unfold b; destruct (is_cursor_shape c); by apply moves_same).
    eapply moves_trans; [exact B|]. pose proof (on_modes_moves c b (feed_ w)) as M. by destruct (on_modes c b (feed_ w)) as [a1 x1].
  - unfold on_osc. cbv zeta. eapply moves_trans; [apply (color_moves o)|].
    destruct (declined_selection o _); [apply answer_moves|]. destruct (color_query o); [apply answer_moves|].
    apply push_moves. unfold paste_read, tap_notification. by destruct (parse (payload o)), (notification o).
Qed.
Lemma collect_moves a : moves a (collect_callback_events a).
Proof.
  rewrite collect_spec. exists (told (bells a) (fst (title_changes (last_title a) (titles a)))). split; [cbn [events behind w_events]; apply app_nil_r|].
  replace (paste_bits _) with (@nil bool); [done|]. unfold told, paste_bits. rewrite omap_app.
  replace (omap _ (replicate _ Bell)) with (@nil bool) by (induction (bells a); done). cbn [app]. by induction (fst _).
Qed.
Lemma write_moves data a : moves a (snd (write data a)).
Proof.
  unfold write. destruct (Scanner.feed (scanner a) data) as [s toks]. cbn [snd].
  eapply moves_trans; [|apply collect_moves]. eapply moves_trans; [|apply flush_moves].
  assert (T : forall w, moves (actor w) (actor (fold_left on_token toks w))).
  { induction toks as [|t toks IH]; intros w; [by apply moves_same|]. cbn [fold_left]. eapply moves_trans; [apply on_token_moves|apply IH]. }
  eapply moves_trans; [|apply T]. by apply moves_same.
Qed.

(** ** Operations in any order *)

Inductive Op : Type :=
  | OWrite (data : bytes) | OResize (cols rows : Z) | OResetInput | OEndStream | OReset | OCell (c : CellSize)
  | OEnable (o : GraphicsOptions) | OLimit (n : Z) | OClear | OClipboard (b : bool) | OPasteAvailable (b : bool)
  | OHistory (now : Z) (generation : bytes) (r : HistoryRequest) | OTakeReplies | OTakeEvents | OPalette (cs : list Color).
(** The events it takes, and the actor after it. *)
Definition perform (o : Op) a : list TerminalEvent * TerminalActor :=
  match o with
  | OWrite data => ([], snd (write data a))
  | OResize c r => ([], resize c r a)
  | OResetInput => ([], snd (reset_input_modes a))
  | OEndStream => ([], end_stream a)
  | OReset => ([], reset a)
  | OCell c => ([], set_cell_size c a)
  | OEnable opts => ([], snd (enable_graphics opts a))
  | OLimit n => ([], set_graphics_storage_limit n a)
  | OClear => ([], clear_graphics a)
  | OClipboard b => ([], set_clipboard_client_available b a)
  | OPasteAvailable b => ([], set_enhanced_paste_available b a)
  | OHistory now g r => ([], snd (actor_history now g r a))
  | OTakeReplies => ([], snd (take_pty_replies a))
  | OTakeEvents => take_events a
  | OPalette cs => ([], set_palette cs a)
  end.
Fixpoint perform_all (os : list Op) a : list TerminalEvent * TerminalActor :=
  match os with
  | [] => ([], a)
  | o :: os => let '(es, a) := perform o a in let '(more, a) := perform_all os a in (es ++ more, a)
  end.
Lemma absorb_moves v r a : moves a (absorb v r a).
Proof. by apply moves_same. Qed.
Lemma apply_cell_moves a : moves a (snd (apply_cell a)).
Proof. unfold apply_cell. destruct (vt_resize _ _ _ _ _) as [[ok v] r]. apply absorb_moves. Qed.
Lemma enable_moves opts a : moves a (snd (enable_graphics opts a)).
Proof.
  unfold enable_graphics. cbv zeta. set (a1 := if is_declared _ then _ else _).
  assert (M1 : moves a a1) by (unfold a1; destruct (is_declared _); by apply moves_same).
  pose proof (apply_cell_moves a1) as M2. destruct (apply_cell a1) as [ok a2]. cbn [snd] in M2. pose proof (moves_trans _ _ _ M1 M2) as M.
  destruct (negb ok); [eapply moves_trans; [exact M|]; by apply moves_same|].
  destruct (set_apc_max _ _) as [ok1 v1]. destruct (negb ok1); [eapply moves_trans; [exact M|]; by apply moves_same|].
  destruct (set_storage_limit _ _) as [ok2 v2]. destruct (negb ok2); [eapply moves_trans; [exact M|]; by apply moves_same|].
  destruct (negb png_installs); (eapply moves_trans; [exact M|]; by apply moves_same).
Qed.
Lemma reset_moves a : moves a (reset a).
Proof.
  unfold reset. cbv zeta. destruct (vt_reset _) as [v r]. set (e := if enhanced_paste _ then _ else _). set (b := _ <| bells := O |>).
  assert (B : moves a b).
  { exists e. split; [done|]. unfold e. change (enhanced_paste (modes _)) with (on_paste a). by destruct (on_paste a). }
  destruct (graphics b); [|exact B]. eapply moves_trans; [exact B|apply enable_moves].
Qed.
Lemma reset_input_moves a : moves a (snd (reset_input_modes a)).
Proof.
  unfold reset_input_modes. destruct (vt_write _ _) as [v r]. set (a1 := absorb v r _).
  assert (M1 : moves a a1) by by apply moves_same.
  assert (W : forall data b, moves b (snd (write data b))) by (intros; apply write_moves).
  set (lw := if alt_screen (modes a1) then _ else _). assert (M2 : moves a1 (snd lw)) by (unfold lw; destruct (alt_screen _); [apply W|by apply moves_same]).
  destruct lw as [l a2]. cbn [snd] in M2. specialize (W RESET_INPUT_MODES a2). destruct (write RESET_INPUT_MODES a2) as [out a3]. cbn [snd] in W.
  eapply moves_trans; [exact M1|]. eapply moves_trans; [exact M2|]. eapply moves_trans; [exact W|]. exists []. by rewrite app_nil_r.
Qed.
Lemma perform_moves o a : o <> OTakeEvents -> fst (perform o a) = [] /\ moves a (snd (perform o a)).
Proof.
  intros N. destruct o; cbn [perform fst snd]; (split; [done|]); try (by apply moves_same).
  - apply write_moves.
  - unfold resize. cbv zeta. destruct (vt_resize _ _ _ _ _) as [[ok v] r].
    eapply moves_trans; [|apply absorb_moves]. destruct (_ || _); by apply moves_same.
  - apply reset_input_moves.
  - unfold end_stream. cbv zeta. change (enhanced_paste (modes (a <| scanner ::= Scanner.reset |>))) with (on_paste a).
    destruct (on_paste a) eqn:P; [|by apply moves_same]. exists [EnhancedPasteMode false]. rewrite P. done.
  - apply reset_moves.
  - unfold set_cell_size. destruct (_ && _); [by apply moves_same|]. cbv zeta.
    eapply moves_trans; [|by apply moves_same]. eapply moves_trans; [|apply apply_cell_moves]. by apply moves_same.
  - apply enable_moves.
  - unfold set_graphics_storage_limit. destruct (n =? 0); [by apply moves_same|apply enable_moves].
  - unfold clear_graphics. destruct (graphics a); by apply moves_same.
  - unfold actor_history. destruct (page _ _ _ _ _ _). by apply moves_same.
  - unfold set_palette. destruct (default_color_palette _); by apply moves_same.
Qed.
Lemma perform_all_follow os : forall a b, follow b (paste_bits (events a)) = Some (on_paste a) ->
  let '(taken, a') := perform_all os a in follow b (paste_bits (taken ++ events a')) = Some (on_paste a').
Proof.
  induction os as [|o os IH]; intros a b F; [done|]. cbn [perform_all].
  assert (D : o = OTakeEvents \/ o <> OTakeEvents) by (destruct o; (by left) || by right).
  destruct D as [->|N].
  - cbn [perform take_events]. specialize (IH (a <| events := [] |>) (on_paste a) eq_refl).
    destruct (perform_all os _) as [more a']. rewrite <- (assoc_L (++)). unfold paste_bits. rewrite omap_app. by rewrite (follow_app _ _ _ _ F).
  - destruct (perform_moves o a N) as [E (es & Es & M)]. destruct (perform o a) as [tk a1]. cbn [fst snd] in *. subst tk.
    assert (F1 : follow b (paste_bits (events a1)) = Some (on_paste a1)).
    { rewrite Es. unfold paste_bits. rewrite omap_app. by rewrite (follow_app _ _ _ _ F). }
    specialize (IH a1 b F1). by destruct (perform_all os a1) as [more a'].
Qed.

(** C33: Whatever is done to an actor from its start, and whenever its events are taken, its
    paste events tell every change of the mode and nothing else: each is a change, and
    the last is the mode as it is. *)
Theorem paste_events_follow rows cols lines (os : list Op) :
  let '(taken, a) := perform_all os (new rows cols lines) in
  follow false (paste_bits (taken ++ events a)) = Some (enhanced_paste (modes a)).
Proof. exact (perform_all_follow os (new rows cols lines) false eq_refl). Qed.

(** ** Scrollback *)

Lemma row_bytes_pos cols : 0 < scrollback_row_bytes cols.
Proof. unfold scrollback_row_bytes, SCROLLBACK_ROW_OVERHEAD, SCROLLBACK_BYTES_PER_COL. lia. Qed.
(** A terminal that says it retains a number of lines has the memory for them, within the
    limit; it retains all that were asked for when that many rows of its width fit. *)
Theorem scrollback_promise rows cols lines : 0 <= lines ->
  let a := new rows cols lines in
  scrollback a = Z.min lines (MAX_SCROLLBACK_BYTES / scrollback_row_bytes cols)
  /\ scrollback a * scrollback_row_bytes cols <= scrollback_bytes a <= MAX_SCROLLBACK_BYTES.
Proof.
  intros L a. assert (C : scrollback_row_bytes (cols_of a) = scrollback_row_bytes cols).
  { unfold cols_of, a, new, install. cbn [term]. rewrite new_cols. cbn [default from_option]. unfold scrollback_row_bytes, Datatypes.id. f_equal. lia. }
  unfold scrollback. rewrite C. change (scrollback_request a) with lines. change (scrollback_bytes a) with (scrollback_budget lines cols).
  unfold scrollback_budget. pose proof (row_bytes_pos cols) as P. set (b := scrollback_row_bytes cols) in *.
  assert (M : MAX_SCROLLBACK_BYTES <= USIZE_MAX) by (vm_compute; discriminate).
  replace (Z.min (Z.min (lines * b) USIZE_MAX) MAX_SCROLLBACK_BYTES) with (Z.min (lines * b) MAX_SCROLLBACK_BYTES) by lia.
  assert (M0 : 0 <= MAX_SCROLLBACK_BYTES) by (vm_compute; discriminate). set (mx := MAX_SCROLLBACK_BYTES) in *. clearbody mx.
  assert (Q : Z.min lines (Z.min (lines * b) mx / b) = Z.min lines (mx / b)).
  { destruct (Z.min_spec (lines * b) mx) as [[H ->]|[H ->]]; [|done]. rewrite Z.div_mul by lia. rewrite Z.min_id.
    rewrite Z.min_l; [done|]. apply Z.div_le_lower_bound; lia. }
  rewrite Q. split; [done|]. split; [|lia].
  pose proof (Z.mul_div_le mx b P). pose proof (Z.min_spec lines (mx / b)). nia.
Qed.

(** ** A reset keeps the copy of the normal screen *)

(** [reset] clears the modes, so the alternate screen counts as left, but not the copy of
    the normal screen taken when it was entered: a replay starts with that stale copy. *)
Theorem reset_keeps_normal_replay a : normal_replay (reset a) = normal_replay a /\ modes (reset a) = no_modes.
Proof.
  assert (C : forall b, normal_replay (snd (apply_cell b)) = normal_replay b /\ modes (snd (apply_cell b)) = modes b).
  { intros b. unfold apply_cell. by destruct (vt_resize _ _ _ _ _) as [[ok v] r]. }
  assert (E : forall o b, normal_replay (snd (enable_graphics o b)) = normal_replay b /\ modes (snd (enable_graphics o b)) = modes b).
  { intros o b. unfold enable_graphics. cbv zeta. set (b1 := if is_declared _ then _ else _).
    assert (B1 : normal_replay b1 = normal_replay b /\ modes b1 = modes b) by (unfold b1; by destruct (is_declared _)).
    specialize (C b1). destruct (apply_cell b1) as [ok b2]. cbn [snd] in C. rewrite <- (proj1 B1), <- (proj2 B1).
    destruct (negb ok); [exact C|]. destruct (set_apc_max _ _) as [ok1 v1]. destruct (negb ok1); [exact C|].
    destruct (set_storage_limit _ _) as [ok2 v2]. destruct (negb ok2); [exact C|]. destruct (negb png_installs); exact C. }
  unfold reset. cbv zeta. destruct (vt_reset _) as [v r]. set (b := _ <| bells := O |>).
  destruct (graphics b); [|done]. destruct (E g b) as [-> ->]. done.
Qed.
End Sent.

(** ** The mode prefix, read back *)

(** The sequences of a prefix: what stands between CSI and the final byte, and that. *)
Definition prefix_pieces (m : Modes) : list (bytes * Z) :=
  (if alt_screen m then [(str "?1049", 104)] else []) ++ (if mouse_1000 m then [(str "?1000", 104)] else [])
  ++ (if mouse_1002 m then [(str "?1002", 104)] else []) ++ (if mouse_1003 m then [(str "?1003", 104)] else [])
  ++ (if sgr_mouse m then [(str "?1006", 104)] else []) ++ (if cursor_hidden m then [(str "?25", 108)] else [])
  ++ ((fun f => (62 :: dec f, 117)) <$> kitty_stack m).
Definition csi (p : bytes * Z) : bytes := 27 :: 91 :: fst p ++ [snd p].
Lemma prefix_text m : mode_prefix m true = concat (csi <$> prefix_pieces m).
Proof.
  unfold mode_prefix, prefix_pieces. rewrite !fmap_app, !concat_app. cbn [andb].
  assert (K : forall s, concat (csi <$> ((fun f => (62 :: dec f, 117)) <$> s)) = kitty_pushes s).
  { intros s. unfold kitty_pushes. by rewrite <- list_fmap_compose. }
  rewrite K. by destruct (alt_screen m), (mouse_1000 m), (mouse_1002 m), (mouse_1003 m), (sgr_mouse m), (cursor_hidden m).
Qed.
Definition good_piece (p : bytes * Z) : bool := forallb csi_body_byte (fst p) && (blen (fst p) <=? MAX_CSI - 2) && in_range 64 126 (snd p).
Lemma pieces_scanned ps : forallb good_piece ps = true ->
  Scanner.feed Scanner.new (concat (csi <$> ps)) = (Scanner.new, (fun p => TCsi (parse_csi (csi p))) <$> ps).
Proof.
  intros G. unfold Scanner.feed. cbn [state seq Scanner.new].
  assert (F : forall out, fold_left feed_byte (concat (csi <$> ps)) (mkLoop Ground [] [] out)
    = mkLoop Ground [] [] (out ++ ((fun p => TCsi (parse_csi (csi p))) <$> ps))).
  { induction ps as [|p ps IH]; intros out; cbn [fmap list_fmap concat]; [by rewrite app_nil_r|].
    cbn [forallb] in G. apply andb_prop in G as [P G]. unfold good_piece in P. apply andb_prop in P as [P F]. apply andb_prop in P as [B L].
    assert (X : fold_left feed_byte (csi p) (mkLoop Ground [] [] out) = mkLoop Ground [] [] (out ++ [TCsi (parse_csi (csi p))])).
    { unfold csi. rewrite fold_feed_csi by (done || lia). done. }
    rewrite fold_left_app, X, IH by done. by rewrite <- (assoc_L (++)). }
  rewrite F. done.
Qed.

Section Prefix.
Context {V : Type} `{!Gfx V, !Canvas V, !Vt V, !VtLaws V, HScr : !History.Screen V}.
Implicit Types (a : TerminalActor) (w : Writing).
Definition mode_state w : Modes * list Z := (modes (actor w), inactive_kitty_stack (actor w)).
Definition plain_csi (c : Csi) : bool :=
  negb (is_keys_query c) && negb (is_mode_query c 5522) && match size_query c with None => true | Some _ => false end.
Lemma plain_csi_modes c w : plain_csi c = true -> mode_state (on_token w (TCsi c))
  = (let a := fst (on_modes c (actor w) (feed_ w)) in (modes a, inactive_kitty_stack a)).
Proof.
  unfold plain_csi. intros [[K%negb_true_iff M%negb_true_iff]%andb_prop S]%andb_prop. cbn [on_token]. unfold on_csi. cbv zeta. rewrite K, M.
  destruct (size_query c); [done|]. set (b := if is_cursor_shape c then _ else _).
  assert (B : modes b = modes (actor w) /\ inactive_kitty_stack b = inactive_kitty_stack (actor w)).
  { unfold b, note_csi. by destruct (is_cursor_shape c), (_ && _), (_ && _). }
  assert (St : forall b1 b2 x, modes b1 = modes b2 -> inactive_kitty_stack b1 = inactive_kitty_stack b2 ->
    modes (fst (on_modes c b1 x)) = modes (fst (on_modes c b2 x))
    /\ inactive_kitty_stack (fst (on_modes c b1 x)) = inactive_kitty_stack (fst (on_modes c b2 x))).
  { clear. intros b1 b2 x Em Ei. unfold on_modes. destruct (kitty_push c); [|destruct (is_kitty_pop c)]; [| |].
    1, 2: cbn [fst]; destruct b1, b2; cbn [modes inactive_kitty_stack] in Em, Ei; subst; by fields.
    destruct (dec_modes c) as [[ps set]|]; [|done]. unfold on_dec_modes. rewrite Em. destruct (apply_all ps set (modes b2)) as [m es].
    assert (Fl : forall y d, modes (flush_feed y d) = modes d /\ inactive_kitty_stack (flush_feed y d) = inactive_kitty_stack d)
      by (intros; split; apply flush_keeps).
    destruct (alt_screen (modes b2)), (alt_screen m); cbn [fst]; cbv zeta; [done| |..];
      try (destruct b1, b2; cbn [modes inactive_kitty_stack] in Em, Ei; subst; by fields).
    unfold swap_stacks. set (f1 := flush_feed x _). set (f2 := flush_feed x _).
    assert (F1 : modes f1 = m /\ inactive_kitty_stack f1 = inactive_kitty_stack b1)
      by exact (Fl x (push es (b1 <| modes := m |>))).
    assert (F2 : modes f2 = m /\ inactive_kitty_stack f2 = inactive_kitty_stack b2)
      by exact (Fl x (push es (b2 <| modes := m |>))).
    destruct F1 as [X1 Y1], F2 as [X2 Y2]. rewrite Ei in Y1. clearbody f1 f2. destruct f1, f2.
    cbn [modes inactive_kitty_stack] in X1, Y1, X2, Y2. subst. by fields. }
  destruct (St b (actor w) (feed_ w) (proj1 B) (proj2 B)) as [E1 E2]. unfold mode_state.
  destruct (on_modes c b (feed_ w)) as [a1 x1]. cbn [fst actor] in *. by rewrite E1, E2.
Qed.
(** One flag of the prefix set, on the screen there is. *)
Lemma flag_set body final p set (f : Modes -> Modes) w m i : mode_state w = (m, i) ->
  plain_csi (parse_csi (csi (body, final))) = true -> kitty_push (parse_csi (csi (body, final))) = None ->
  is_kitty_pop (parse_csi (csi (body, final))) = false -> dec_modes (parse_csi (csi (body, final))) = Some ([p], set) ->
  fst (apply_dec p set m) = f m -> alt_screen (f m) = alt_screen m ->
  mode_state (on_token w (TCsi (parse_csi (csi (body, final))))) = (f m, i).
Proof.
  unfold mode_state at 1. intros [= Em Ei] P K Po D A S. rewrite plain_csi_modes by done. unfold on_modes. rewrite K, Po, D.
  unfold on_dec_modes. cbn [apply_all]. rewrite Em. destruct (apply_dec p set m) as [m1 e]. cbn [fst] in A. subst m1. rewrite S.
  cbv zeta. destruct (alt_screen m); cbn [fst]; rewrite <- Ei; done.
Qed.
Lemma alt_set w : mode_state w = (no_modes, []) ->
  mode_state (on_token w (TCsi (parse_csi (csi (str "?1049", 104))))) = (no_modes <| alt_screen := true |>, []).
Proof.
  intros E. unfold mode_state in E. injection E as Em Ei. rewrite plain_csi_modes by (vm_compute; reflexivity). unfold on_modes.
  change (kitty_push (parse_csi (csi (str "?1049", 104)))) with (@None Z). change (is_kitty_pop (parse_csi (csi (str "?1049", 104)))) with false.
  change (dec_modes (parse_csi (csi (str "?1049", 104)))) with (Some ([1049], true)). unfold on_dec_modes. rewrite Em.
  change (apply_all [1049] true no_modes) with (no_modes <| alt_screen := true |>, @nil TerminalEvent).
  change (alt_screen no_modes) with false. change (alt_screen (no_modes <| alt_screen := true |>)) with true. cbv iota zeta. cbn [fst].
  set (f := flush_feed (feed_ w) _).
  assert (F : modes f = no_modes <| alt_screen := true |> /\ inactive_kitty_stack f = []).
  { rewrite <- Ei. split; [exact (proj1 (flush_keeps (feed_ w) _))|exact (proj1 (proj2 (flush_keeps (feed_ w) _)))]. }
  destruct F as [X Y]. clearbody f. destruct f. cbn [modes inactive_kitty_stack] in X, Y. subst. by fields.
Qed.
Lemma all_pushes : forallb (fun k => let c := parse_csi (csi (62 :: dec (Z.of_nat k), 117)) in
  plain_csi c && bool_decide (kitty_push c = Some (Z.of_nat k)) && good_piece (62 :: dec (Z.of_nat k), 117)) (List.seq 0 256) = true.
Proof. vm_compute. reflexivity. Qed.
Lemma push_known f : in_range 0 255 f = true -> plain_csi (parse_csi (csi (62 :: dec f, 117))) = true
  /\ kitty_push (parse_csi (csi (62 :: dec f, 117))) = Some f /\ good_piece (62 :: dec f, 117) = true.
Proof.
  unfold in_range. intros R. pose proof (proj1 (forallb_elem _ _) all_pushes (Z.to_nat f) ltac:(apply elem_of_seq; lia)) as H0.
  cbv beta zeta in H0. rewrite Z2Nat.id in H0 by lia. apply andb_prop in H0 as [H0 G]. apply andb_prop in H0 as [P K%bool_decide_eq_true]. done.
Qed.
Lemma pushes_read s : forallb (in_range 0 255) s = true -> forall w m i, mode_state w = (m, i) ->
  mode_state (fold_left on_token ((fun f => TCsi (parse_csi (csi (62 :: dec f, 117)))) <$> s) w) = (m <| kitty_stack ::= fun k => k ++ s |>, i).
Proof.
  induction s as [|f s IH]; intros R w m i E; cbn [fmap list_fmap fold_left].
  - rewrite E. f_equal. fields. destruct m. by rewrite app_nil_r.
  - cbn [forallb] in R. apply andb_prop in R as [F R]. destruct (push_known f F) as (P & K & _).
    rewrite (IH R _ (m <| kitty_stack ::= fun k => k ++ [f] |>) i).
    + f_equal. fields. by rewrite <- (assoc_L (++)).
    + rewrite plain_csi_modes by done. unfold on_modes. rewrite K. cbn [fst]. unfold mode_state in E. injection E as <- <-. done.
Qed.
(** C34: A prefix carries the alternate screen, the mouse tracking and its SGR form, the hidden
    cursor and the keyboard stack.  A fresh actor that reads the prefix made from some
    modes has exactly these of them, and no mode that a prefix does not carry. *)
Theorem prefix_restores (m : Modes) a : modes a = no_modes -> inactive_kitty_stack a = [] -> scanner a = Scanner.new ->
  forallb (in_range 0 255) (kitty_stack m) = true ->
  modes (snd (write (mode_prefix m true) a))
  = no_modes <| alt_screen := alt_screen m |> <| mouse_1000 := mouse_1000 m |> <| mouse_1002 := mouse_1002 m |>
      <| mouse_1003 := mouse_1003 m |> <| sgr_mouse := sgr_mouse m |> <| cursor_hidden := cursor_hidden m |>
      <| kitty_stack := kitty_stack m |>.
Proof.
  intros Em Ei Es R. rewrite prefix_text. unfold write. rewrite Es. rewrite pieces_scanned.
  2:{ unfold prefix_pieces. rewrite !forallb_app.
      replace (forallb good_piece ((fun f => (62 :: dec f, 117)) <$> kitty_stack m)) with true.
      - by destruct (alt_screen m), (mouse_1000 m), (mouse_1002 m), (mouse_1003 m), (sgr_mouse m), (cursor_hidden m).
      - symmetry. clear -R. induction (kitty_stack m) as [|f s IH]; [done|]. cbn [forallb fmap list_fmap] in *. apply andb_prop in R as [F R].
        rewrite (proj2 (proj2 (push_known f F))). by apply IH. }
  set (w0 := mkWriting (a <| scanner := Scanner.new |>) [] []).
  assert (S0 : mode_state w0 = (no_modes, [])) by (unfold mode_state, w0; cbn [actor]; rewrite <- Em, <- Ei; done).
  cbn [snd]. assert (C : forall b, modes (collect_callback_events b) = modes b).
  { intros b. unfold collect_callback_events. by destruct (title_changes _ _). }
  rewrite C, flush_modes. clear C.
  enough (T : mode_state (fold_left on_token ((fun p => TCsi (parse_csi (csi p))) <$> prefix_pieces m) w0) = (_, [])) by exact (f_equal fst T).
  clearbody w0. unfold prefix_pieces. rewrite !fmap_app, !fold_left_app, <- list_fmap_compose.
  set (w1 := fold_left on_token (_ <$> (if alt_screen m then _ else _)) w0).
  assert (S1 : mode_state w1 = (no_modes <| alt_screen := alt_screen m |>, [])).
  { unfold w1. destruct (alt_screen m); [by apply alt_set|exact S0]. }
  clearbody w1. set (w2 := fold_left on_token (_ <$> (if mouse_1000 m then _ else _)) w1).
  assert (S2 : mode_state w2 = (no_modes <| alt_screen := alt_screen m |> <| mouse_1000 := mouse_1000 m |>, [])).
  { unfold w2. destruct (mouse_1000 m); [|exact S1]. by apply (flag_set _ _ 1000 true (fun m => m <| mouse_1000 := true |>) w1 _ [] S1). }
  clearbody w2. set (w3 := fold_left on_token (_ <$> (if mouse_1002 m then _ else _)) w2).
  assert (S3 : mode_state w3 = (no_modes <| alt_screen := alt_screen m |> <| mouse_1000 := mouse_1000 m |> <| mouse_1002 := mouse_1002 m |>, [])).
  { unfold w3. destruct (mouse_1002 m); [|exact S2]. by apply (flag_set _ _ 1002 true (fun m => m <| mouse_1002 := true |>) w2 _ [] S2). }
  clearbody w3. set (w4 := fold_left on_token (_ <$> (if mouse_1003 m then _ else _)) w3).
  assert (S4 : mode_state w4 = (no_modes <| alt_screen := alt_screen m |> <| mouse_1000 := mouse_1000 m |> <| mouse_1002 := mouse_1002 m |>
    <| mouse_1003 := mouse_1003 m |>, [])).
  { unfold w4. destruct (mouse_1003 m); [|exact S3]. by apply (flag_set _ _ 1003 true (fun m => m <| mouse_1003 := true |>) w3 _ [] S3). }
  clearbody w4. set (w5 := fold_left on_token (_ <$> (if sgr_mouse m then _ else _)) w4).
  assert (S5 : mode_state w5 = (no_modes <| alt_screen := alt_screen m |> <| mouse_1000 := mouse_1000 m |> <| mouse_1002 := mouse_1002 m |>
    <| mouse_1003 := mouse_1003 m |> <| sgr_mouse := sgr_mouse m |>, [])).
  { unfold w5. destruct (sgr_mouse m); [|exact S4]. by apply (flag_set _ _ 1006 true (fun m => m <| sgr_mouse := true |>) w4 _ [] S4). }
  clearbody w5. set (w6 := fold_left on_token (_ <$> (if cursor_hidden m then _ else _)) w5).
  assert (S6 : mode_state w6 = (no_modes <| alt_screen := alt_screen m |> <| mouse_1000 := mouse_1000 m |> <| mouse_1002 := mouse_1002 m |>
    <| mouse_1003 := mouse_1003 m |> <| sgr_mouse := sgr_mouse m |> <| cursor_hidden := cursor_hidden m |>, [])).
  { unfold w6. destruct (cursor_hidden m); [|exact S5]. by apply (flag_set _ _ 25 false (fun m => m <| cursor_hidden := true |>) w5 _ [] S5). }
  clearbody w6. etrans; [exact (pushes_read (kitty_stack m) R w6 _ [] S6)|]. by f_equal.
Qed.
End Prefix.

(** ** A demonstration terminal *)

(** It keeps what it is fed: a BEL is a bell, an ENQ is answered, an FF is a new title. *)
Record Demo : Type := mkDemo { d_cols : Z; d_rows : Z; d_text : bytes }.
#[global] Instance demo_gfx : Gfx Demo := {|
  g_rows := fun d => Some (d_rows d); g_cols := fun d => Some (d_cols d); Graphics.scrollback_rows := fun _ => Some 0;
  total_rows := fun d => Some (d_rows d); storage_limit := fun _ => None; storage_generation := fun _ => None;
  raw_placements := fun _ => None; raw_image := fun _ _ => None; graphemes := fun _ _ => None; colors := fun _ _ => None
|}.
#[global] Instance demo_canvas : Canvas Demo := {|
  format_alloc := fun d _ _ => Some (d_text d); active_ref := fun _ _ _ => true; cell_at := fun _ _ => None;
  cursor_x := fun _ => Some 0; cursor_y := fun _ => Some 0; cursor_style := fun _ => None;
  dynamic_color := fun _ _ => None; default_color := fun _ _ => None; color_palette := fun _ => None;
  default_color_palette := fun _ => None
|}.
#[global] Instance demo_screen : History.Screen Demo := {|
  Anchor := unit; History.scrollback_rows := fun _ => None; screen_cols := fun _ => None; grid_ref := fun _ _ _ => false;
  is_wrap_continuation := fun _ _ => None; History.wide := fun _ _ _ => None; hyperlink_uri := fun _ _ _ _ => Ok [];
  format_len := fun _ _ _ _ => Ok 0; format_buf := fun _ _ _ _ _ => None; bg_cell := fun _ _ _ => None;
  track_grid_ref := fun _ _ => None; has_value := fun _ _ => false; point := fun _ _ => None
|}.
Definition demo_reports (x : bytes) : Reports :=
  mkReports (concat ((fun b => if b =? 5 then str "ack" else []) <$> x)) (length (List.filter (Z.eqb 7) x))
    (omap (fun b => if b =? 12 then Some (str "title") else None) x).
#[global] Instance demo_vt : Vt Demo := {|
  vt_new := fun c r _ => mkDemo c r []; vt_write := fun x d => (mkDemo (d_cols d) (d_rows d) (d_text d ++ x), demo_reports x);
  vt_resize := fun c r _ _ d => (true, mkDemo c r (d_text d), no_reports); vt_reset := fun d => (mkDemo (d_cols d) (d_rows d) [], no_reports);
  set_storage_limit := fun _ d => (true, d); set_apc_max := fun _ d => (true, d); set_file_allowed := fun _ d => d;
  set_temp_file_allowed := fun _ d => d; set_shared_mem_allowed := fun _ d => d; png_installs := true;
  set_default_fg := fun _ d => d; set_default_bg := fun _ d => d; set_palette_of := fun _ d => d; title_of := fun _ => None;
  pending_wrap := fun _ => None; cursor_visible := fun _ => None; alternate := fun _ => false; keyboard_flags := fun _ => None
|}.
#[global] Instance demo_vt_laws : VtLaws Demo.
Proof.
  split; [|done]. intros x y v. unfold vt_write, demo_vt, demo_reports, both. cbn [r_replies r_bells r_titles].
  by rewrite fmap_app, concat_app, List.filter_app, length_app, omap_app, (assoc_L (++)).
Qed.

(** Output with a bell, a paste mode change and a query, cut inside a sequence. *)
Definition part_one : bytes := str "hi" ++ [7] ++ esc "[?55".
Definition part_two : bytes := str "22h" ++ [12] ++ esc "[18t" ++ str "there".
Definition start : @TerminalActor Demo _ := new 24 80 100.
Example queries_answered : pty_replies (snd (write (part_one ++ part_two) start)) = esc "[8;24;80t".
Proof. vm_compute. reflexivity. Qed.
Example events_seen : events (snd (write (part_one ++ part_two) start)) = [EnhancedPasteMode true; Bell; TitleChange (str "title")]
  /\ events (snd (write part_two (snd (write part_one start)))) = [Bell; EnhancedPasteMode true; TitleChange (str "title")].
Proof. vm_compute. done. Qed.
Lemma write_chunking_witness : same_actor (snd (write (part_one ++ part_two) start)) (snd (write part_two (snd (write part_one start)))).
Proof. exact (proj2 (write_chunking part_one part_two start eq_refl)). Defined.
Lemma broadcast_is_strip_witness :
  fst (write (part_one ++ part_two) start) = concat (kept false <$> snd (Scanner.feed Scanner.new (part_one ++ part_two))).
Proof. exact (proj1 (broadcast_is_strip (part_one ++ part_two) start)). Defined.
Definition demo_ops : list Op := [OWrite (part_one ++ part_two); OTakeEvents; OEndStream; OWrite (esc "[?5522h"); OReset].
Lemma paste_events_follow_witness :
  let '(taken, a) := perform_all demo_ops start in follow false (paste_bits (taken ++ events a)) = Some (enhanced_paste (modes a)).
Proof. exact (paste_events_follow 24 80 100 demo_ops). Defined.
Example demo_bits : (let '(taken, a) := perform_all demo_ops start in paste_bits (taken ++ events a)) = [true; false; true; false].
Proof. vm_compute. reflexivity. Qed.
Lemma scrollback_promise_witness : scrollback start = 100.
Proof. exact (proj1 (scrollback_promise 24 80 100 ltac:(lia))). Defined.
Example wide_terminal_retains_less : scrollback (new 24 1000 10000 : @TerminalActor Demo _) = 4128.
Proof. vm_compute. reflexivity. Qed.
Definition demo_modes : Modes := no_modes <| alt_screen := true |> <| mouse_1002 := true |> <| sgr_mouse := true |> <| kitty_stack := [7; 1; 255] |>.
Lemma prefix_restores_witness :
  modes (snd (write (mode_prefix (demo_modes <| focus_events := true |>) true) start)) = demo_modes.
Proof. exact (prefix_restores (demo_modes <| focus_events := true |>) start eq_refl eq_refl eq_refl eq_refl). Defined.
(** After a reset on the alternate screen, a replay starts with the normal screen of
    before, which is no longer any screen of the terminal. *)
Lemma reset_keeps_normal_replay_witness :
  let a := reset (snd (write (str "old" ++ esc "[?1049h") start)) in
  alt_screen (modes a) = false /\ normal_replay a = Some (str "old" ++ esc "[1;1H" ++ esc "[0m").
Proof.
  destruct (reset_keeps_normal_replay (snd (write (str "old" ++ esc "[?1049h") start))) as [N M]. cbv zeta. rewrite M, N.
  split; [reflexivity|]. vm_compute. reflexivity.
Defined.
